(* ===== verification/_CoqProject ===== *)
-Q . S2P
Prelude.v
Page.v
Pager.v
BufPool.v
Heap.v
Wal.v
Lsm.v
Btree.v
RaftState.v
Raft.v
RaftCluster.v
Lock.v
Mvcc.v
Txn.v
SqlLex.v
SqlParse.v
SqlGrammar.v
Row.v
Where.v
Storage.v
Nested.v
Parscan.v
Exec.v
Select.v
Statements.v
Double.v
Rowset.v
Aggregate.v
Join.v
JoinSpec.v
JoinExec.v
JoinOpt.v
Replica.v
Cbtree.v
CbtreeConc.v
VacuumStore.v
Vacuum.v
TableTxn.v
