(* ===== verification/Prelude.v ===== *)
(** * db-hobby: a relational database in C, and what is proved about it

    The program (src/src) is a small relational database.  From the bottom up:

    - storage: fixed-size pages with slotted records (page.c), a pager over one
      file (pager.c), a buffer pool with a clock sweep and a latch (bufpool.c), heap
      files of records (heap.c), a write-ahead log with undo and redo (wal.c);
    - indexes: a B+tree (btree.c) and a log-structured merge engine (lsm.c);
    - transactions: a lock manager with deadlock detection (lock.c), a transaction
      status log (mvcc.c), and in db.c the sessions, snapshots and row visibility;
    - SQL: a lexer and recursive-descent parser (sql.c), and the executor of db.c;
    - replication: Raft consensus (raft.c) and what is built on it, and a replica that
      follows the write-ahead log of another process (replica.c);
    - concurrency experiments: a parallel scan (parscan.c) and a latch-coupled B+tree
      (cbtree.c).

    ** Files of the development

    - [Prelude]: machine integers ([u16], [i32], ...) as [Z] with their wrap-around
      written out, little-endian bytes, arrays as lists, and the lemmas and tactics
      shared by the components.
    - [Page]: page.c on the bytes of the page.  [slotpage_run_refines]: any run of
      operations is a run on a list of optional records; two examples show where the
      16-bit space check wraps around.
    - [Pager]: pager.c over a file with a size limit, so short writes and failures
      occur; the class [PageStore] is what the pool needs from it, [PageStoreLaws]
      the laws, which the pager discharges.
    - [BufPool]: bufpool.c, each critical section of the latch a function.  Proved
      against [PageStoreLaws]: the pool is transparent (a history of the pool is a
      history of the array of pages), interleaved threads keep every page equal to
      its last write, reads succeed, flush and discard do what they promise.
    - [Heap]: heap.c on top of the pool and the page operations; refinement of a
      list of pages of records, and insert/get.
    - [Wal]: wal.c on the bytes of the log.  Atomicity of a commit under every
      crash point of what [wal_commit] writes to the log, durability over histories,
      rollback after steals, restartable recovery; and a run in which a committed
      stolen page is lost, the case that the conditions of the theorems exclude.
    - [TableTxn]: the transactions of db.c on one file and on all files of a table: the
      log is the page store of the pool, so the theorems of [BufPool] and [Wal] compose
      ([file_transaction]: atomic and, under the conditions below, durable, with the
      pool stealing pages through the log), and a run in which a committed change is undone on reopening.
    - [Lsm]: lsm.c, memory table, table files, flush, compaction, lookups and scans,
      in both modes (one value per key; many values per key), refining a map and a
      set of pairs.
    - [Btree]: btree.c on node pages; invariant, insertion, deletion, lookups, scans
      and the fuel of its descents, refining a sorted list of entries; and a range
      scan over duplicate keys that misses entries.
    - [Lock]: lock.c; mutual exclusion over all histories, exactness of granting,
      exactness of the deadlock search.
    - [Mvcc], [Txn]: mvcc.c and the transactional part of db.c: visibility,
      BEGIN/COMMIT/ROLLBACK, locking and autocommit of [db_exec].  A row version is
      followed through the statements of all sessions, its deletion stamp included:
      what a transaction sees of it does not change until it writes itself
      ([snapshot_stable]); nothing uncommitted is read, writers exclude one another.
      [deletion_overwritten] shows what happens when a committed deletion is stamped
      over.
    - [SqlLex], [SqlParse]: sql.c from bytes to the syntax tree of sql.h, in a state
      monad over the C structure [Parser]; parsing terminates and what it returns
      fits the fixed-size arrays.  [SqlGrammar]: the grammar of sql.h, less the NOT BETWEEN
      that the parser refuses, as a type of sentences with a spelling and a meaning;
      [sql_parse] maps one to the other.
    - [RaftState], [Raft]: raft.c, one node: all handlers, timers, membership
      changes, snapshots and the persistent file.  [RaftCluster]: nodes over a network
      that delays, reorders and loses messages; one leader per term, and a schedule
      with no crash on which the follower's commit rule lets two nodes apply different
      commands.
    - [Row]: the record format of db.c (MVCC header, null bitmap, columns) on the
      bytes of the caller's buffer, round trip and the bound the encoder lacks.
      [Where]: evaluation of conditions and the LIKE matcher.
    - [Storage]: what the executor needs from heaps and indexes, as classes with laws;
      heap files, B+trees, LSM engines and the dispatch between them discharge them.
    - [Parscan]: parscan.c, workers interleaved at the latch of the buffer pool; the
      parallel scan collects what the serial scan would, for every schedule.
    - [Exec], [Select]: INSERT, DELETE, UPDATE, CREATE INDEX and the access paths of
      SELECT in db.c, written against [Storage] and [Parscan]'s classes, with the
      transaction state of [Txn] deciding visibility.
    - [Statements]: histories of statements.  [exec_refines]: they behave as
      operations on a list of row versions; [read_own_writes], [select_paths_agree]
      and [create_index_contents] say what that means for queries; concrete runs
      show where the code loses rows.
    - [Double]: IEEE doubles (the Standard Library's [SpecFloat]) as the executor uses
      them, exact on integers below 2^53; [qsort] as a class with the promise that a
      consistent comparison yields a sorted permutation.  [Rowset]: ORDER BY, LIMIT,
      projection, DISTINCT, aggregates, GROUP BY and HAVING on a set of rows, against an
      order and a condition on printed values that do not mention the code's.
      [Aggregate]: the same on a table, with the rows collected serially, in parallel,
      or reduced to partial sums by parallel workers.
    - [Nested]: heap scans whose callback scans and reads heaps again, over a pool in
      which the pages of the outer scans are pinned.  [Join]: the hash table, the plan
      of a chain of joins and its execution in db.c.  [JoinSpec]: what the code visits,
      level by level.  [JoinExec]: statements; [join_correct]: whatever lookup method
      each level uses, the answer is drawn from exactly the join of the visible rows.
    - [VacuumStore], [Vacuum]: VACUUM.  Removal from heaps and indexes, compaction and
      truncation as classes that heap files, B+trees and LSM engines discharge; every
      table keeps exactly the versions that are not dead ([vacuum_correct]), and no
      session can ever have seen a dead one ([vacuum_invisible]).
    - [JoinOpt]: joinopt.c, dynamic programming over sets of relations as bit masks, for
      any type of numbers (class [Num]).  In doubles, bit for bit, the plan is an order of
      the relations and its cost that of the order; in exact rationals none of the orders
      that avoid needless cross products is cheaper; an example where one that the program
      does not consider is.
    - [Replica]: replica.c, following a write-ahead log that a primary keeps writing
      while the replica reads it; whatever the interleaving, also in the middle of a
      commit, the replica's pages are those of a prefix of the commits; a run where a
      restart of the primary makes it miss a commit.
    - [Cbtree], [CbtreeConc]: cbtree.c on its store of nodes.  Threads with a program
      counter each, interleaved at every latch operation; every run is a run of the
      abstract map with the operations taken in one order, some thread can always
      step until all are finished, and the stack of held latches suffices.

    ** Conventions

    A C operation is a function on the record of its structure that returns the new
    structure and the return code; an access outside an object is [None].  A buffer
    is the list of its bytes ([Z] in 0..255).  A fixed array with a counter is the list
    of its used elements.  A file is its bytes, with a limit where running out of
    space matters.  Where a loop is not structural the function takes fuel, and a
    theorem states how much is enough: the parser's fuel is the length of the text,
    the tree's the height bound that the number of pages gives, the deadlock
    search's the depth bound of the source, the loops over arrays the length of the
    array.

    Interfaces between components are classes ([PageStore], [RecordStore],
    [MultiIndex], [RangeIndex], [PointIndex], [ParallelScan], [NestedStore],
    [VacuumStore], [IndexDelete] and their laws): clients are proved against the laws,
    implementations discharge them.  A representation predicate of the executor
    carries a number, how many more rows are certain to fit without
    exhausting page or sequence numbers; a statement uses at most [DML_MAX_ROWS].

    ** Assumptions

    - Memory allocation succeeds, except where raft.c handles its failure.
    - Counters of type [int] that only count events (hits, indices of the Raft log,
      timers) are unbounded; widths are kept where the code's behaviour depends on
      them (16-bit page offsets, 32- and 64-bit stored integers, terms, masks).
    - [fsync] returns when the data is durable; bytes written before it may or may
      not survive a crash.
    - In the cluster theorems the network does not duplicate messages and the
      membership is fixed.

    ** Where the program does not keep its promise

    Some theorems exclude cases in which the code is wrong; a run of the model shows
    each case, and the conditions are hypotheses of the theorem or of the relation it
    is about.  A committed page that was stolen, is clean at the commit and has an older
    image in the log is lost ([Wal.wal_stolen_update_lost]); so is a commit that finds no
    dirty page ([TableTxn.stolen_commit_undone]).  A range scan from a key that has
    duplicates can miss some ([Btree.btree_seek_scan_misses]), hence so can a SELECT
    on [>=] that the index answers ([Statements.select_ge_misses]).  CREATE INDEX can
    leave out versions that older snapshots see ([Statements.create_index_hole]).  Joins
    by primary key presuppose unique keys and a B+tree, ON conditions tables already
    bound ([JoinExec.join_ready]).  A replica misses stolen pages, and commits after a
    restart of the primary ([Replica.replica_stale_after_restart]).  SELECT considers
    the first 4096 matching rows, or groups, where it sorts or aggregates serially.

    ** Not modelled

    Socket and terminal input and output (server.c, replnet.c, main.c); printing;
    subqueries, ANALYZE and EXPLAIN in db.c, and its cost estimates for one
    table, which only choose between plans that are proved to agree (but for [>=] on an index); failure of thread
    creation in parscan.c; raftdb.c, which hands the commands that Raft applies to
    [db_exec] as text.  Functions that only release memory are omitted. *)
From Stdlib Require Export ZArith Lia.
From stdpp Require Export base list gmap numbers.

#[global] Open Scope Z_scope.

Declare Scope db_scope.
Delimit Scope db_scope with db.
#[global] Open Scope db_scope.

(** ** Machine integers: a w-bit unsigned value is a [Z] reduced modulo 2^w. *)

Definition u8 (z : Z) : Z := z mod 2 ^ 8.
Definition u16 (z : Z) : Z := z mod 2 ^ 16.
Definition u32 (z : Z) : Z := z mod 2 ^ 32.
Definition u64 (z : Z) : Z := z mod 2 ^ 64.

(** Two's complement reading of a w-bit pattern. *)
Definition signed (w z : Z) : Z :=
  let m := z mod 2 ^ w in if m <? 2 ^ (w - 1) then m else m - 2 ^ w.
Definition i32 (z : Z) : Z := signed 32 z.
Definition i64 (z : Z) : Z := signed 64 z.

Lemma u16_small z : 0 <= z < 65536 -> u16 z = z.
Proof. intros H. unfold u16. apply Z.mod_small. change (2 ^ 16) with 65536. lia. Qed.

Lemma u16_range z : 0 <= u16 z < 65536.
Proof. unfold u16. change (2 ^ 16) with 65536. apply Z.mod_pos_bound. lia. Qed.

Lemma u64_small z : 0 <= z < 2 ^ 64 -> u64 z = z.
Proof. intros H. unfold u64. apply Z.mod_small. lia. Qed.

Lemma signed_small w z : 0 < w -> - 2 ^ (w - 1) <= z < 2 ^ (w - 1) -> signed w z = z.
Proof.
  intros Hw Hz. unfold signed.
  assert (Hp : 2 ^ w = 2 * 2 ^ (w - 1)) by (rewrite <- Z.pow_succ_r by lia; f_equal; lia).
  destruct (decide (0 <= z)) as [H0|H0].
  - rewrite Z.mod_small by lia. destruct (Z.ltb_spec z (2 ^ (w - 1))); lia.
  - assert (Hm : z mod 2 ^ w = z + 2 ^ w).
    { symmetry. apply (Z.mod_unique _ _ (-1)); lia. }
    rewrite Hm. destruct (Z.ltb_spec (z + 2 ^ w) (2 ^ (w - 1))); lia.
Qed.

(** ** Byte buffers

    A C buffer is a [list Z] of bytes.  Reads and writes of a range are bounds
    checked: [None] is an access outside the buffer, which is undefined
    behaviour in the source. *)

Abbreviation bytes := (list Z).

Definition is_byte (b : Z) : Prop := 0 <= b < 256.

Definition blen {A} (l : list A) : Z := Z.of_nat (length l).

Definition in_range {A} (l : list A) (off len : Z) : bool :=
  (0 <=? off) && (0 <=? len) && (off + len <=? blen l).

Definition mem_read {A} (l : list A) (off len : Z) : option (list A) :=
  if in_range l off len then Some (take (Z.to_nat len) (drop (Z.to_nat off) l)) else None.

Definition splice {A} (l : list A) (off : nat) (src : list A) : list A :=
  take off l ++ src ++ drop (off + length src) l.

Definition mem_write {A} (l : list A) (off : Z) (src : list A) : option (list A) :=
  if in_range l off (blen src) then Some (splice l (Z.to_nat off) src) else None.

(** Little-endian integers in a buffer (the layout of the targets the program is built for). *)
Fixpoint le_bytes (n : nat) (z : Z) : bytes :=
  match n with
  | O => []
  | S n' => z mod 256 :: le_bytes n' (z / 256)
  end.

Fixpoint le_val (bs : bytes) : Z :=
  match bs with
  | [] => 0
  | b :: r => b + 256 * le_val r
  end.

(** ** Lemmas on buffers *)

Create HintDb db.
Create Rewrite HintDb db.

Section Buffers.
Context {A : Type}.
Implicit Types (l src bs : list A) (off len i : Z).

Lemma blen_nonneg l : 0 <= blen l.
Proof. unfold blen. lia. Qed.

Lemma in_range_spec l off len :
  in_range l off len = true <-> 0 <= off /\ 0 <= len /\ off + len <= blen l.
Proof. unfold in_range. rewrite !andb_true_iff, !Z.leb_le. tauto. Qed.

Lemma mem_read_Some l off len :
  0 <= off -> 0 <= len -> off + len <= blen l -> exists bs, mem_read l off len = Some bs.
Proof.
  intros. unfold mem_read.
  assert (in_range l off len = true) as -> by (apply in_range_spec; lia). eauto.
Qed.

Lemma mem_read_inv l off len bs :
  mem_read l off len = Some bs ->
  0 <= off /\ 0 <= len /\ off + len <= blen l /\
  bs = take (Z.to_nat len) (drop (Z.to_nat off) l).
Proof.
  unfold mem_read. destruct (in_range l off len) eqn:E; intros [= <-].
  apply in_range_spec in E. lia || (repeat split; lia).
Qed.

Lemma mem_read_blen l off len bs : mem_read l off len = Some bs -> blen bs = len.
Proof.
  intros (H1 & H2 & H3 & ->)%mem_read_inv. unfold blen in *.
  rewrite length_take, length_drop. lia.
Qed.

Lemma mem_write_Some l off src :
  0 <= off -> off + blen src <= blen l -> exists l', mem_write l off src = Some l'.
Proof.
  intros. unfold mem_write.
  assert (in_range l off (blen src) = true) as ->.
  { apply in_range_spec. pose proof (blen_nonneg src). lia. }
  eauto.
Qed.

Lemma mem_write_inv l off src l' :
  mem_write l off src = Some l' ->
  0 <= off /\ off + blen src <= blen l /\ l' = splice l (Z.to_nat off) src.
Proof.
  unfold mem_write. destruct (in_range l off (blen src)) eqn:E; intros [= <-].
  apply in_range_spec in E. repeat split; lia.
Qed.

Lemma length_splice l n src : (n + length src <= length l)%nat -> length (splice l n src) = length l.
Proof. intros. unfold splice. rewrite !length_app, length_take, length_drop. lia. Qed.

Lemma mem_write_blen l off src l' : mem_write l off src = Some l' -> blen l' = blen l.
Proof.
  intros (H1 & H2 & ->)%mem_write_inv. unfold blen in *. rewrite length_splice; lia.
Qed.

Lemma mem_write_Forall (P : A -> Prop) l off src l' :
  mem_write l off src = Some l' -> Forall P l -> Forall P src -> Forall P l'.
Proof.
  intros (H1 & H2 & ->)%mem_write_inv Hl Hs. unfold splice.
  rewrite !Forall_app. auto using Forall_take, Forall_drop.
Qed.

Lemma mem_read_Forall (P : A -> Prop) l off len bs :
  mem_read l off len = Some bs -> Forall P l -> Forall P bs.
Proof. intros (H1 & H2 & H3 & ->)%mem_read_inv Hl. auto using Forall_take, Forall_drop. Qed.

(** A read of the range just written returns what was written. *)
Lemma mem_read_write_eq l off src l' :
  mem_write l off src = Some l' -> mem_read l' off (blen src) = Some src.
Proof.
  intros Hw. pose proof (mem_write_blen _ _ _ _ Hw) as Hl.
  apply mem_write_inv in Hw as (H1 & H2 & ->).
  unfold mem_read. assert (in_range (splice l (Z.to_nat off) src) off (blen src) = true) as ->.
  { apply in_range_spec. pose proof (blen_nonneg src). lia. }
  f_equal. unfold blen in *. unfold splice.
  rewrite drop_app_le by (rewrite length_take; lia).
  rewrite (drop_ge (take _ _)) by (rewrite length_take; lia).
  simpl. rewrite Nat2Z.id. apply take_app_length.
Qed.

(** A read of a disjoint range is unaffected by a write. *)
Lemma mem_read_write_ne l off src l' o n :
  mem_write l off src = Some l' -> o + n <= off \/ off + blen src <= o ->
  mem_read l' o n = mem_read l o n.
Proof.
  intros Hw Hd. pose proof (mem_write_blen _ _ _ _ Hw) as Hl.
  apply mem_write_inv in Hw as (H1 & H2 & ->).
  unfold mem_read, in_range. rewrite Hl.
  destruct (Z.leb_spec 0 o), (Z.leb_spec 0 n), (Z.leb_spec (o + n) (blen l)); try reflexivity.
  simpl. f_equal. unfold blen in *. apply list_eq. intros i.
  destruct (decide (i < Z.to_nat n)%nat) as [Hi|Hi].
  - rewrite !lookup_take_lt, !lookup_drop by lia. unfold splice.
    destruct Hd as [Hd|Hd].
    + rewrite lookup_app_l by (rewrite length_take; lia). rewrite lookup_take_lt by lia. done.
    + rewrite lookup_app_r by (rewrite length_take; lia). rewrite length_take.
      rewrite lookup_app_r by lia. rewrite lookup_drop. f_equal. lia.
  - rewrite !lookup_take_ge by lia. done.
Qed.

(** A read inside a range already read is a slice of it. *)
Lemma mem_read_sub l off len bs o n :
  mem_read l off len = Some bs -> 0 <= o -> 0 <= n -> o + n <= len ->
  mem_read l (off + o) n = mem_read bs o n.
Proof.
  intros Hr Ho Hn Hon. pose proof (mem_read_blen _ _ _ _ Hr) as Hb.
  apply mem_read_inv in Hr as (H1 & H2 & H3 & E).
  unfold mem_read.
  assert (in_range l (off + o) n = true) as -> by (apply in_range_spec; lia).
  assert (in_range bs o n = true) as -> by (apply in_range_spec; lia).
  rewrite E. f_equal. apply list_eq. intros i.
  destruct (decide (i < Z.to_nat n)%nat) as [Hi|Hi].
  - rewrite !lookup_take_lt, !lookup_drop by lia. rewrite lookup_take_lt by lia.
    rewrite lookup_drop. f_equal. lia.
  - rewrite !lookup_take_ge by lia. done.
Qed.

Lemma mem_read_all l : mem_read l 0 (blen l) = Some l.
Proof.
  unfold mem_read.
  assert (in_range l 0 (blen l) = true) as -> by (apply in_range_spec; pose proof (blen_nonneg l); lia).
  unfold blen. rewrite Nat2Z.id. change (Z.to_nat 0) with 0%nat. rewrite drop_0, take_ge by lia. done.
Qed.

Lemma mem_read_app_l l l2 o n : o + n <= blen l -> mem_read (l ++ l2) o n = mem_read l o n.
Proof.
  intros H. unfold mem_read, in_range.
  destruct (Z.leb_spec 0 o), (Z.leb_spec 0 n); try reflexivity.
  unfold blen in *. rewrite length_app.
  destruct (Z.leb_spec (o + n) (Z.of_nat (length l + length l2))); [|lia].
  destruct (Z.leb_spec (o + n) (Z.of_nat (length l))); [|lia]. simpl. f_equal.
  rewrite drop_app_le by lia. rewrite take_app_le by (rewrite length_drop; lia). done.
Qed.

Lemma mem_read_app_r l l2 o n : blen l <= o -> mem_read (l ++ l2) o n = mem_read l2 (o - blen l) n.
Proof.
  intros H. unfold mem_read, in_range. unfold blen in *. rewrite length_app.
  destruct (Z.leb_spec 0 o); [|lia]. destruct (Z.leb_spec 0 (o - Z.of_nat (length l))); [|lia].
  destruct (Z.leb_spec 0 n); [|done].
  destruct (Z.leb_spec (o + n) (Z.of_nat (length l + length l2))),
    (Z.leb_spec (o - Z.of_nat (length l) + n) (Z.of_nat (length l2))); try lia; [|done].
  simpl. f_equal. rewrite drop_app_ge by lia. repeat f_equal. lia.
Qed.
End Buffers.

Lemma blen_app {A} (l k : list A) : blen (l ++ k) = blen l + blen k.
Proof. unfold blen. rewrite length_app. lia. Qed.

Lemma blen_fmap {A B} (f : A -> B) (l : list A) : blen (f <$> l) = blen l.
Proof. unfold blen. by rewrite length_fmap. Qed.

#[export] Hint Resolve blen_nonneg : db.
#[export] Hint Rewrite @blen_app @blen_fmap : db.

(** ** Little-endian round trips *)

Lemma length_le_bytes n z : length (le_bytes n z) = n.
Proof. revert z. induction n as [|n IH]; intros z; simpl; [done|]. by rewrite IH. Qed.

Lemma blen_le_bytes n z : blen (le_bytes n z) = Z.of_nat n.
Proof. unfold blen. by rewrite length_le_bytes. Qed.

Lemma le_bytes_is_byte n z : Forall is_byte (le_bytes n z).
Proof.
  revert z. induction n as [|n IH]; intros z; simpl; [constructor|].
  constructor; [|apply IH]. unfold is_byte. apply Z.mod_pos_bound. lia.
Qed.

Lemma le_val_le_bytes n z : le_val (le_bytes n z) = z mod 2 ^ (8 * Z.of_nat n).
Proof.
  revert z. induction n as [|n IH]; intros z.
  - simpl. by rewrite Z.mod_1_r.
  - cbn [le_bytes le_val]. rewrite IH.
    replace (8 * Z.of_nat (S n)) with (8 + 8 * Z.of_nat n) by lia.
    rewrite Z.pow_add_r by lia. change (2 ^ 8) with 256.
    rewrite Z.rem_mul_r by lia. done.
Qed.

Lemma le_val_range bs : Forall is_byte bs -> 0 <= le_val bs < 2 ^ (8 * blen bs).
Proof.
  induction 1 as [|b bs Hb _ IH]; [done|].
  cbn [le_val]. unfold blen in *. cbn [length]. replace (8 * Z.of_nat (S (length bs))) with (8 + 8 * Z.of_nat (length bs)) by lia.
  rewrite Z.pow_add_r by lia. change (2 ^ 8) with 256. unfold is_byte in Hb. nia.
Qed.

Lemma le_bytes_le_val bs : Forall is_byte bs -> le_bytes (length bs) (le_val bs) = bs.
Proof.
  induction 1 as [|b bs Hb _ IH]; [done|]. cbn [length le_bytes le_val]. unfold is_byte in Hb.
  replace (b + 256 * le_val bs) with (b + le_val bs * 256) by lia.
  rewrite Z.mod_add, Z.mod_small, Z.div_add, Z.div_small by lia. rewrite Z.add_0_l, IH. done.
Qed.

(** Fixed-width fields of a buffer. *)
Definition get_le (n : nat) (l : bytes) (off : Z) : option Z := le_val <$> mem_read l off (Z.of_nat n).
Definition put_le (n : nat) (l : bytes) (off v : Z) : option bytes := mem_write l off (le_bytes n v).

Lemma get_put_eq n l off v l' :
  put_le n l off v = Some l' -> get_le n l' off = Some (v mod 2 ^ (8 * Z.of_nat n)).
Proof.
  unfold put_le, get_le. intros H. apply mem_read_write_eq in H.
  rewrite blen_le_bytes in H. rewrite H. simpl. by rewrite le_val_le_bytes.
Qed.

Lemma get_put16 l off v l' :
  put_le 2 l off v = Some l' -> 0 <= v < 65536 -> get_le 2 l' off = Some v.
Proof.
  intros H Hv. rewrite (get_put_eq _ _ _ _ _ H). f_equal.
  apply Z.mod_small. change (2 ^ (8 * Z.of_nat 2)) with 65536. lia.
Qed.

Lemma get_write_ne n l off src l' o :
  mem_write l off src = Some l' -> o + Z.of_nat n <= off \/ off + blen src <= o ->
  get_le n l' o = get_le n l o.
Proof. unfold get_le. intros H Hd. by erewrite mem_read_write_ne by eauto. Qed.

Lemma get_put_ne n m l off v l' o :
  put_le m l off v = Some l' -> o + Z.of_nat n <= off \/ off + Z.of_nat m <= o ->
  get_le n l' o = get_le n l o.
Proof. intros H Hd. eapply get_write_ne; [exact H|]. rewrite blen_le_bytes. lia. Qed.

Lemma put_le_Some n l off v :
  0 <= off -> off + Z.of_nat n <= blen l -> exists l', put_le n l off v = Some l'.
Proof. intros. unfold put_le. apply mem_write_Some; rewrite ?blen_le_bytes; lia. Qed.

Lemma put_le_blen n l off v l' : put_le n l off v = Some l' -> blen l' = blen l.
Proof. apply mem_write_blen. Qed.

Lemma put_le_bytes n l off v l' : put_le n l off v = Some l' -> Forall is_byte l -> Forall is_byte l'.
Proof. intros H Hl. eapply mem_write_Forall; eauto using le_bytes_is_byte. Qed.

Lemma get_le_range n l off v :
  get_le n l off = Some v -> Forall is_byte l -> 0 <= v < 2 ^ (8 * Z.of_nat n).
Proof.
  unfold get_le. intros (bs & Hr & ->)%fmap_Some Hl.
  pose proof (mem_read_blen _ _ _ _ Hr) as Hb. rewrite <- Hb.
  apply le_val_range. eauto using mem_read_Forall.
Qed.

Lemma get_le_Some n l off :
  0 <= off -> off + Z.of_nat n <= blen l -> exists v, get_le n l off = Some v.
Proof.
  intros. unfold get_le. destruct (mem_read_Some l off (Z.of_nat n)) as [bs ->]; simpl; eauto; lia.
Qed.

(** ** Counted loops

    [for_loop n i f s] runs the body [f] at [i], [i+1], ..., [i+n-1], stopping
    when the body is undefined. *)
Fixpoint for_loop {S} (n : nat) (i : Z) (f : Z -> S -> option S) (s : S) : option S :=
  match n with
  | O => Some s
  | Datatypes.S n' => s' ← f i s; for_loop n' (i + 1) f s'
  end.

Lemma for_loop_inv {S} (P : Z -> S -> Prop) n i f (s : S) :
  P i s ->
  (forall k s, i <= k < i + Z.of_nat n -> P k s -> exists s', f k s = Some s' /\ P (k + 1) s') ->
  exists s', for_loop n i f s = Some s' /\ P (i + Z.of_nat n) s'.
Proof.
  revert i s. induction n as [|n IH]; intros i s Hi Hs.
  - exists s. rewrite Z.add_0_r. done.
  - destruct (Hs i s) as (s1 & Hf & H1); [lia|done|].
    destruct (IH (i + 1) s1) as (s2 & Hl & H2); [done| |].
    { intros k s' Hk. apply Hs. lia. }
    exists s2. simpl. rewrite Hf. simpl. split; [done|].
    replace (i + Z.of_nat (Datatypes.S n)) with (i + 1 + Z.of_nat n) by lia. done.
Qed.

(** ** Automation *)

(** Case analysis on the boolean comparison or option a goal is stuck on. *)
Ltac case_cmp :=
  match goal with
  | |- context [Z.leb ?a ?b] => destruct (Z.leb_spec a b)
  | |- context [Z.ltb ?a ?b] => destruct (Z.ltb_spec a b)
  | |- context [Z.eqb ?a ?b] => destruct (Z.eqb_spec a b)
  | H : context [Z.leb ?a ?b] |- _ => destruct (Z.leb_spec a b)
  | H : context [Z.ltb ?a ?b] |- _ => destruct (Z.ltb_spec a b)
  | H : context [Z.eqb ?a ?b] |- _ => destruct (Z.eqb_spec a b)
  end.

(** Inverts a successful run of option-monadic code into its steps. *)
Ltac inv_opt :=
  repeat match goal with
  | H : Some _ = Some _ |- _ => injection H as H; try subst
  | H : None = Some _ |- _ => discriminate H
  | H : Some _ = None |- _ => discriminate H
  | H : mbind _ _ = Some _ |- _ =>
      let x := fresh "x" in let E := fresh "E" in
      apply bind_Some in H as (x & E & H)
  end.

(** ** Lists *)

Lemma filter_ext_elem {A} (P Q : A -> Prop) `{!forall x, Decision (P x)} `{!forall x, Decision (Q x)} (l : list A) : (forall x, x ∈ l -> P x <-> Q x) -> filter P l = filter Q l.
Proof.
  induction l as [|x l IH]; intros HPQ; [done|]. rewrite !filter_cons, IH by set_solver. pose proof (HPQ x ltac:(set_solver)).
  destruct (decide (P x)), (decide (Q x)); tauto.
Qed.

Lemma fmap_sublist {A B} (f : A -> B) l k : l `sublist_of` k -> f <$> l `sublist_of` f <$> k.
Proof. induction 1; cbn; constructor; done. Qed.

Lemma join_cons {A} (x : list A) l : mjoin (x :: l) = x ++ mjoin l.
Proof. done. Qed.

Lemma mapM_fmap {A B D} (f : A -> B) (g : B -> option D) l : mapM g (f <$> l) = mapM (fun x => g (f x)) l.
Proof.
  induction l as [|x l IH]; [done|]. change (mapM g (f <$> x :: l)) with (y ← g (f x); k ← mapM g (f <$> l); mret (y :: k)). by rewrite IH.
Qed.
