(* ===== verification/Page.v ===== *)
(** * Slotted pages (src/src/page.c)

    A page is a buffer of [PAGE_SIZE] bytes that starts with a header (number of
    slots, start of the record area) and the slot array, and ends with the
    records.  Every operation is the code's pointer arithmetic on the bytes, with
    the 16-bit wrap-around of its [uint16_t] variables; [None] is an access
    outside the page.  The section [Abstract] gives the contract: a page is a
    list of optional records indexed by slot number, and each operation refines
    the obvious list operation. *)
From S2P Require Import Prelude.

Definition PAGE_SIZE : Z := 4096.
Definition HEADER_SIZE : Z := 4.
Definition SLOT_SIZE : Z := 4.

(** [SlotPageHeader] and [Slot] as the code overlays them on the buffer. *)
Record SlotPageHeader := mkHeader { num_slots : Z; free_end : Z }.
Record Slot := mkSlot { s_offset : Z; s_length : Z }.

Definition header (page : bytes) : option SlotPageHeader :=
  n ← get_le 2 page 0; e ← get_le 2 page 2; Some (mkHeader n e).

Definition set_num_slots (page : bytes) (v : Z) : option bytes := put_le 2 page 0 v.
Definition set_free_end (page : bytes) (v : Z) : option bytes := put_le 2 page 2 v.

Definition slot_pos (i : Z) : Z := HEADER_SIZE + i * SLOT_SIZE.

Definition slot_at (page : bytes) (i : Z) : option Slot :=
  o ← get_le 2 page (slot_pos i); l ← get_le 2 page (slot_pos i + 2); Some (mkSlot o l).

Definition set_slot_offset (page : bytes) (i v : Z) : option bytes := put_le 2 page (slot_pos i) v.
Definition set_slot_length (page : bytes) (i v : Z) : option bytes := put_le 2 page (slot_pos i + 2) v.

Definition free_start (h : SlotPageHeader) : Z := u16 (HEADER_SIZE + num_slots h * SLOT_SIZE).

Definition slotpage_init (page : bytes) : option bytes :=
  p ← set_num_slots page 0; set_free_end p PAGE_SIZE.

Definition slotpage_free_space (page : bytes) : option Z :=
  h ← header page; Some (u16 (free_end h - free_start h)).

Definition slotpage_num_slots (page : bytes) : option Z :=
  h ← header page; Some (num_slots h).

(** Returns the page and the slot number, or the page unchanged and -1. *)
Definition slotpage_insert (page rec : bytes) (len : Z) : option (bytes * Z) :=
  h ← header page;
  let need := u16 (len + SLOT_SIZE) in
  free ← slotpage_free_space page;
  if free <? need then Some (page, -1) else
  let rec_off := u16 (free_end h - len) in
  src ← mem_read rec 0 len;
  p1 ← mem_write page rec_off src;
  p2 ← set_free_end p1 rec_off;
  h2 ← header p2;
  let idx := num_slots h2 in
  p3 ← set_slot_offset p2 idx rec_off;
  p4 ← set_slot_length p3 idx len;
  p5 ← set_num_slots p4 (num_slots h2 + 1);
  Some (p5, idx).

(** The record's position and length, if the slot exists and is not deleted. *)
Definition slotpage_get (page : bytes) (slot : Z) : option (option (Z * Z)) :=
  h ← header page;
  if num_slots h <=? slot then Some None else
  s ← slot_at page slot;
  if s_offset s =? 0 then Some None else
  Some (Some (s_offset s, s_length s)).

Definition slotpage_delete (page : bytes) (slot : Z) : option (bytes * Z) :=
  h ← header page;
  if num_slots h <=? slot then Some (page, -1) else
  p1 ← set_slot_offset page slot 0;
  p2 ← set_slot_length p1 slot 0;
  Some (p2, 0).

Definition slotpage_overwrite (page : bytes) (slot : Z) (rec : bytes) (len : Z) : option (bytes * Z) :=
  h ← header page;
  if num_slots h <=? slot then Some (page, -1) else
  s ← slot_at page slot;
  if (s_offset s =? 0) || negb (s_length s =? len) then Some (page, -1) else
  src ← mem_read rec 0 len;
  p ← mem_write page (s_offset s) src;
  Some (p, 0).

(** One iteration of the compaction loop: state is (page, tmp, new_end). *)
Definition compact_step (i : Z) (st : bytes * bytes * Z) : option (bytes * bytes * Z) :=
  let '(page, tmp, new_end) := st in
  s ← slot_at page i;
  if s_offset s =? 0 then Some st else
  let new_end' := u16 (new_end - s_length s) in
  src ← mem_read page (s_offset s) (s_length s);
  tmp' ← mem_write tmp new_end' src;
  page' ← set_slot_offset page i new_end';
  Some (page', tmp', new_end').

(** [tmp] is the uninitialised stack buffer; the result does not depend on it. *)
Definition slotpage_compact (page tmp : bytes) : option bytes :=
  h ← header page;
  '(p, t, new_end) ← for_loop (Z.to_nat (num_slots h)) 0 compact_step (page, tmp, PAGE_SIZE);
  tail ← mem_read t new_end (PAGE_SIZE - new_end);
  p' ← mem_write p new_end tail;
  set_free_end p' new_end.

(** ** Geometry of a well-formed page *)

Definition live (s : Slot) : Prop := s_offset s <> 0.

Fixpoint live_bytes (slots : list Slot) : Z :=
  match slots with
  | [] => 0
  | s :: r => (if s_offset s =? 0 then 0 else s_length s) + live_bytes r
  end.

(** [page_rep page fe slots]: the header and slot array of [page] decode to
    [slots]; live records lie in the record area, do not overlap, and fit in it. *)
Record page_rep (page : bytes) (fe : Z) (slots : list Slot) : Prop := {
  pr_len : blen page = PAGE_SIZE;
  pr_bytes : Forall is_byte page;
  pr_header : header page = Some (mkHeader (blen slots) fe);
  pr_slots : forall i s, slots !! i = Some s -> slot_at page (Z.of_nat i) = Some s;
  pr_fe : 4 + 4 * blen slots <= fe <= PAGE_SIZE;
  pr_in : forall i s, slots !! i = Some s -> live s ->
      fe <= s_offset s /\ 0 <= s_length s /\ s_offset s + s_length s <= PAGE_SIZE;
  pr_disj : forall i j s t, slots !! i = Some s -> slots !! j = Some t -> i <> j ->
      live s -> live t ->
      s_offset s + s_length s <= s_offset t \/ s_offset t + s_length t <= s_offset s;
  pr_sum : live_bytes slots <= PAGE_SIZE - fe }.

(** ** The abstract page: slot number to record *)

Definition slot_rec (page : bytes) (s : Slot) : option bytes :=
  if s_offset s =? 0 then None else mem_read page (s_offset s) (s_length s).

Definition page_abs (page : bytes) (recs : list (option bytes)) : Prop :=
  exists fe slots, page_rep page fe slots /\ recs = (slot_rec page <$> slots).

(** What a caller of [slotpage_get] reads through the returned pointer. *)
Definition page_lookup (page : bytes) (slot : Z) : option bytes :=
  match slotpage_get page slot with
  | Some (Some (o, l)) => mem_read page o l
  | _ => None
  end.

(** Bytes a record list needs besides the header. *)
Fixpoint recs_bytes (recs : list (option bytes)) : Z :=
  match recs with
  | [] => 0
  | None :: r => recs_bytes r
  | Some b :: r => blen b + recs_bytes r
  end.

Lemma header_fields page n e :
  header page = Some (mkHeader n e) <-> get_le 2 page 0 = Some n /\ get_le 2 page 2 = Some e.
Proof.
  unfold header. destruct (get_le 2 page 0), (get_le 2 page 2); simpl; split; try intuition congruence.
Qed.

Lemma slot_at_fields page i s :
  slot_at page i = Some s <->
  get_le 2 page (slot_pos i) = Some (s_offset s) /\ get_le 2 page (slot_pos i + 2) = Some (s_length s).
Proof.
  unfold slot_at. destruct s as [o l].
  destruct (get_le 2 page (slot_pos i)), (get_le 2 page (slot_pos i + 2)); simpl; split;
    try intuition congruence.
Qed.

Lemma page_slot_range page fe slots i s :
  page_rep page fe slots -> slots !! i = Some s ->
  0 <= s_offset s < 65536 /\ 0 <= s_length s < 65536 /\ 4 + 4 * Z.of_nat i + 4 <= fe.
Proof.
  intros R H. pose proof (pr_slots _ _ _ R _ _ H) as [Ho Hl]%slot_at_fields.
  apply get_le_range in Ho; [|apply R]. apply get_le_range in Hl; [|apply R].
  apply lookup_lt_Some in H. pose proof (pr_fe _ _ _ R). unfold blen in *.
  change (2 ^ (8 * Z.of_nat 2)) with 65536 in *. lia.
Qed.

Lemma slot_rec_Some page fe slots i s :
  page_rep page fe slots -> slots !! i = Some s -> live s ->
  exists b, slot_rec page s = Some b /\ blen b = s_length s.
Proof.
  intros R H Hl. destruct (pr_in _ _ _ R _ _ H Hl) as (H1 & H2 & H3).
  pose proof (pr_fe _ _ _ R). pose proof (pr_len _ _ _ R) as HL. pose proof (blen_nonneg slots).
  unfold slot_rec. destruct (Z.eqb_spec (s_offset s) 0); [done|].
  destruct (mem_read_Some page (s_offset s) (s_length s)) as [b Hb]; [lia..|].
  exists b. split; [done|]. eauto using mem_read_blen.
Qed.

Lemma page_lookup_abs page recs i :
  page_abs page recs -> 0 <= i -> page_lookup page i = mjoin (recs !! Z.to_nat i).
Proof.
  intros (fe & slots & R & ->) Hi. unfold page_lookup, slotpage_get.
  rewrite (pr_header _ _ _ R). simpl.
  destruct (Z.leb_spec (blen slots) i) as [Hge|Hlt].
  - rewrite lookup_ge_None_2; [done|]. rewrite length_fmap. unfold blen in Hge. lia.
  - rewrite list_lookup_fmap. unfold blen in Hlt.
    destruct (lookup_lt_is_Some_2 slots (Z.to_nat i)) as [s Hs]; [lia|].
    rewrite Hs. pose proof (pr_slots _ _ _ R _ _ Hs) as Hat. rewrite Z2Nat.id in Hat by lia.
    rewrite Hat. simpl. unfold slot_rec. by destruct (s_offset s =? 0).
Qed.

Lemma recs_bytes_live page fe slots :
  page_rep page fe slots -> recs_bytes (slot_rec page <$> slots) = live_bytes slots.
Proof.
  intros R. assert (H : forall i s, slots !! i = Some s -> live s ->
     exists b, slot_rec page s = Some b /\ blen b = s_length s) by eauto using slot_rec_Some.
  clear R. induction slots as [|s r IH]; [done|]. cbn [fmap list_fmap live_bytes recs_bytes].
  rewrite IH; [|intros i t Ht; apply (H (S i) t Ht)].
  destruct (Z.eqb_spec (s_offset s) 0) as [E|E].
  - unfold slot_rec at 1. rewrite E, Z.eqb_refl. done.
  - destruct (H 0%nat s eq_refl E) as (b & -> & ->). done.
Qed.

Lemma free_space_rep page fe slots :
  page_rep page fe slots -> slotpage_free_space page = Some (fe - 4 - 4 * blen slots).
Proof.
  intros R. unfold slotpage_free_space. rewrite (pr_header _ _ _ R). simpl.
  pose proof (pr_fe _ _ _ R). pose proof (blen_nonneg slots). unfold free_start, HEADER_SIZE, SLOT_SIZE, PAGE_SIZE in *.
  simpl. rewrite (u16_small (4 + _)) by lia. rewrite u16_small by lia. f_equal. lia.
Qed.

(** Bytes that agree with [page] outside [lo, hi): header, slots and records
    elsewhere are the same. *)
Lemma slot_at_write_ne page off src page' i :
  mem_write page off src = Some page' -> slot_pos i + 4 <= off \/ off + blen src <= slot_pos i ->
  slot_at page' i = slot_at page i.
Proof.
  intros H Hd. unfold slot_at.
  rewrite !(get_write_ne 2 _ _ _ _ _ H) by lia. done.
Qed.

Lemma header_write_ne page off src page' :
  mem_write page off src = Some page' -> 4 <= off -> header page' = header page.
Proof. intros H Hd. unfold header. rewrite !(get_write_ne 2 _ _ _ _ _ H) by lia. done. Qed.

Lemma slot_rec_write_ne page off src page' s :
  mem_write page off src = Some page' ->
  (live s -> s_offset s + s_length s <= off \/ off + blen src <= s_offset s) ->
  slot_rec page' s = slot_rec page s.
Proof.
  intros H Hd. unfold slot_rec. destruct (Z.eqb_spec (s_offset s) 0); [done|].
  eapply mem_read_write_ne; eauto.
Qed.

Lemma live_bytes_app a b : live_bytes (a ++ b) = live_bytes a + live_bytes b.
Proof. induction a as [|s a IH]; simpl; lia. Qed.

Lemma slot_append_rep page fe slots page' s :
  page_rep page fe slots -> blen page' = PAGE_SIZE -> Forall is_byte page' ->
  header page' = Some (mkHeader (blen slots + 1) (s_offset s)) ->
  (forall i, (i < length slots)%nat -> slot_at page' (Z.of_nat i) = slot_at page (Z.of_nat i)) ->
  slot_at page' (blen slots) = Some s ->
  s_offset s + s_length s = fe -> 0 <= s_length s -> 4 + 4 * (blen slots + 1) <= s_offset s ->
  page_rep page' (s_offset s) (slots ++ [s]).
Proof.
  intros R HL HB HH Hold Hnew Hoff Hlen Hlo. pose proof (pr_fe _ _ _ R) as Hfe.
  assert (Hcase : forall i t, (slots ++ [s]) !! i = Some t ->
            (slots !! i = Some t /\ (i < length slots)%nat) \/ (i = length slots /\ t = s)).
  { intros i t Ht. apply lookup_app_Some in Ht as [Ht|[Hge Ht]].
    - left. eauto using lookup_lt_Some.
    - right. apply list_lookup_singleton_Some in Ht as [? ->]. split; [lia|done]. }
  pose proof (blen_nonneg slots) as Hn.
  split; try done; autorewrite with db; change (blen [s]) with 1; try lia; try done.
  - intros i t [[Ht Hi]|[-> ->]]%Hcase; [|exact Hnew].
    rewrite Hold by done. eauto using pr_slots.
  - intros i t [[Ht Hi]|[-> ->]]%Hcase Hl; [|lia].
    pose proof (pr_in _ _ _ R _ _ Ht Hl). lia.
  - intros i j t t' [[Ht Hi]|[-> ->]]%Hcase [[Ht' Hj]|[-> ->]]%Hcase Hij Hl Hl'; [|pose proof (pr_in _ _ _ R _ _ Ht Hl); lia|pose proof (pr_in _ _ _ R _ _ Ht' Hl'); lia|done].
    eapply (pr_disj _ _ _ R i j); eauto.
  - rewrite live_bytes_app. simpl. pose proof (pr_sum _ _ _ R). case_cmp; lia.
Qed.

(** The six stores of a successful insert, as seen through the page's fields:
    the record at [off], its slot at index [n], and the updated header. *)
Lemma insert_stores page n off rec :
  blen page = PAGE_SIZE -> Forall is_byte page -> Forall is_byte rec ->
  get_le 2 page 0 = Some n -> 0 <= n -> 4 + 4 * (n + 1) <= off -> off + blen rec <= PAGE_SIZE ->
  exists p1 p2 p3 p4 p5,
    mem_write page off rec = Some p1 /\ set_free_end p1 off = Some p2 /\
    header p2 = Some (mkHeader n off) /\ set_slot_offset p2 n off = Some p3 /\
    set_slot_length p3 n (blen rec) = Some p4 /\ set_num_slots p4 (n + 1) = Some p5 /\
    blen p5 = PAGE_SIZE /\ Forall is_byte p5 /\
    header p5 = Some (mkHeader (n + 1) off) /\ slot_at p5 n = Some (mkSlot off (blen rec)) /\
    (forall o, 4 <= o -> o + 2 <= 4 + 4 * n -> get_le 2 p5 o = get_le 2 page o) /\
    (forall o k, 4 + 4 * (n + 1) <= o -> o + k <= off \/ off + blen rec <= o ->
       mem_read p5 o k = mem_read page o k) /\
    mem_read p5 off (blen rec) = Some rec.
Proof.
  intros HL HB HR Hn0 Hn Hlo Hhi. pose proof (blen_nonneg rec) as Hr. unfold PAGE_SIZE in *.
  unfold set_free_end, set_slot_offset, set_slot_length, set_num_slots.
  destruct (mem_write_Some page off rec) as [p1 E1]; [lia..|].
  pose proof (mem_write_blen _ _ _ _ E1) as L1.
  destruct (put_le_Some 2 p1 2 off) as [p2 E2]; [lia..|].
  pose proof (put_le_blen _ _ _ _ _ E2) as L2.
  assert (Hpos : slot_pos n = 4 + 4 * n) by (unfold slot_pos, HEADER_SIZE, SLOT_SIZE; lia).
  destruct (put_le_Some 2 p2 (slot_pos n) off) as [p3 E3]; [lia..|].
  pose proof (put_le_blen _ _ _ _ _ E3) as L3.
  destruct (put_le_Some 2 p3 (slot_pos n + 2) (blen rec)) as [p4 E4]; [lia..|].
  pose proof (put_le_blen _ _ _ _ _ E4) as L4.
  destruct (put_le_Some 2 p4 0 (n + 1)) as [p5 E5]; [lia..|].
  exists p1, p2, p3, p4, p5. do 2 (split; [done|]). split.
  { apply header_fields. split; [|by apply (get_put16 p1); [|lia]].
    rewrite (get_put_ne 2 _ _ _ _ _ _ E2), (get_write_ne 2 _ _ _ _ _ E1) by lia. done. }
  do 3 (split; [done|]). split; [rewrite (put_le_blen _ _ _ _ _ E5); lia|].
  split; [eauto 10 using put_le_bytes, mem_write_Forall|]. split.
  { apply header_fields. split; [by apply (get_put16 p4); [|lia]|].
    rewrite (get_put_ne 2 _ _ _ _ _ _ E5), (get_put_ne 2 _ _ _ _ _ _ E4), (get_put_ne 2 _ _ _ _ _ _ E3) by lia.
    by apply (get_put16 p1); [|lia]. }
  split.
  { apply slot_at_fields. simpl. rewrite !(get_put_ne 2 _ _ _ _ _ _ E5) by lia.
    split; [|by apply (get_put16 p3); [|lia]].
    rewrite (get_put_ne 2 _ _ _ _ _ _ E4) by lia. by apply (get_put16 p2); [|lia]. }
  split; [|unfold put_le in *; split].
  - intros o Ho1 Ho2. rewrite (get_put_ne 2 _ _ _ _ _ _ E5), (get_put_ne 2 _ _ _ _ _ _ E4),
      (get_put_ne 2 _ _ _ _ _ _ E3), (get_put_ne 2 _ _ _ _ _ _ E2), (get_write_ne 2 _ _ _ _ _ E1) by lia. done.
  - intros o k Ho Hd.
    erewrite (mem_read_write_ne p4), (mem_read_write_ne p3), (mem_read_write_ne p2), (mem_read_write_ne p1),
      (mem_read_write_ne page); eauto; rewrite ?blen_le_bytes; lia.
  - erewrite (mem_read_write_ne p4), (mem_read_write_ne p3), (mem_read_write_ne p2), (mem_read_write_ne p1),
      (mem_read_write_eq page); eauto; rewrite ?blen_le_bytes; lia.
Qed.

(** Effect of [slotpage_insert] on a well-formed page. *)
Lemma slotpage_insert_rep page fe slots rec len :
  page_rep page fe slots -> blen rec = len -> Forall is_byte rec -> len + 4 < 65536 ->
  (fe - 4 - 4 * blen slots < len + 4 /\ slotpage_insert page rec len = Some (page, -1)) \/
  (len + 4 <= fe - 4 - 4 * blen slots /\
   exists page', slotpage_insert page rec len = Some (page', blen slots) /\
     page_rep page' (fe - len) (slots ++ [mkSlot (fe - len) len]) /\
     slot_rec page' (mkSlot (fe - len) len) = Some rec /\
     (forall i s, slots !! i = Some s -> slot_rec page' s = slot_rec page s)).
Proof.
  intros R <- Hrec Hlen. pose proof (pr_fe _ _ _ R) as Hfe. pose proof (blen_nonneg rec) as Hr0.
  pose proof (blen_nonneg slots) as Hn. pose proof (pr_header _ _ _ R) as Hh.
  unfold slotpage_insert. rewrite (free_space_rep _ _ _ R), Hh.
  unfold PAGE_SIZE in *. simpl. unfold SLOT_SIZE. rewrite (u16_small (blen rec + 4)) by lia.
  destruct (Z.ltb_spec (fe - 4 - 4 * blen slots) (blen rec + 4)) as [Hlt|Hge]; [left; auto|right].
  split; [done|]. rewrite (u16_small (fe - blen rec)) by lia. rewrite mem_read_all. simpl.
  apply header_fields in Hh as [Hh0 _].
  destruct (insert_stores page (blen slots) (fe - blen rec) rec)
    as (p1 & p2 & p3 & p4 & p5 & E1 & E2 & H2 & E3 & E4 & E5 & L5 & B5 & H5 & S5 & Hget & Hrd & Hnew);
    try apply R; try done; unfold PAGE_SIZE in *; try lia.
  rewrite E1; simpl; rewrite E2; simpl; rewrite H2; simpl; rewrite E3; simpl; rewrite E4; simpl; rewrite E5; simpl.
  exists p5. split; [done|]. split; [|split].
  - apply (slot_append_rep page fe slots p5 (mkSlot (fe - blen rec) (blen rec))); simpl; try done; try lia.
    intros i Hi. unfold slot_at, slot_pos, HEADER_SIZE, SLOT_SIZE. unfold blen in *. rewrite !Hget by lia. done.
  - unfold slot_rec. simpl. destruct (Z.eqb_spec (fe - blen rec) 0); [lia|done].
  - intros i s Hs. unfold slot_rec. destruct (Z.eqb_spec (s_offset s) 0) as [|Hl]; [done|].
    pose proof (pr_in _ _ _ R _ _ Hs Hl). apply Hrd; lia.
Qed.

(** ** Deletion *)

Lemma live_bytes_delete slots i s :
  slots !! i = Some s -> (forall j t, slots !! j = Some t -> 0 <= s_length t) ->
  live_bytes (<[i := mkSlot 0 0]> slots) <= live_bytes slots.
Proof.
  revert i. induction slots as [|t r IH]; intros [|i] Hi Hp; simplify_eq/=.
  - pose proof (Hp 0%nat s eq_refl). simpl. case_cmp; lia.
  - specialize (IH i Hi (fun j t' H => Hp (S j) t' H)). lia.
Qed.

Lemma slotpage_delete_rep page fe slots i s :
  page_rep page fe slots -> slots !! i = Some s ->
  exists page', slotpage_delete page (Z.of_nat i) = Some (page', 0) /\
    page_rep page' fe (<[i := mkSlot 0 0]> slots) /\
    (forall t, live t -> fe <= s_offset t -> slot_rec page' t = slot_rec page t).
Proof.
  intros R Hi. pose proof (page_slot_range _ _ _ _ _ R Hi) as (_ & _ & Hpos).
  pose proof (pr_fe _ _ _ R) as Hfe. pose proof (pr_len _ _ _ R) as HL.
  pose proof (lookup_lt_Some _ _ _ Hi) as Hlt. unfold PAGE_SIZE in *.
  assert (Hsp : forall k, slot_pos k = 4 + 4 * k) by (intros; unfold slot_pos, HEADER_SIZE, SLOT_SIZE; lia).
  unfold slotpage_delete. rewrite (pr_header _ _ _ R). simpl.
  destruct (Z.leb_spec (blen slots) (Z.of_nat i)); [unfold blen in *; lia|].
  unfold set_slot_offset, set_slot_length.
  destruct (put_le_Some 2 page (slot_pos (Z.of_nat i)) 0) as [p1 E1]; [rewrite ?Hsp; lia..|].
  pose proof (put_le_blen _ _ _ _ _ E1) as L1. rewrite E1. simpl.
  destruct (put_le_Some 2 p1 (slot_pos (Z.of_nat i) + 2) 0) as [p2 E2]; [rewrite ?Hsp; lia..|].
  pose proof (put_le_blen _ _ _ _ _ E2) as L2. rewrite E2. simpl. exists p2. split; [done|].
  assert (Hrd : forall o n, fe <= o -> mem_read p2 o n = mem_read page o n).
  { intros o n Ho. unfold put_le in *. rewrite Hsp in *.
    erewrite (mem_read_write_ne p1), (mem_read_write_ne page); eauto; rewrite ?blen_le_bytes; lia. }
  split; [split|].
  - unfold PAGE_SIZE. lia.
  - eauto using put_le_bytes, pr_bytes.
  - pose proof (pr_header _ _ _ R) as Hh. apply header_fields in Hh. apply header_fields. rewrite Hsp in *.
    rewrite !(get_put_ne 2 _ _ _ _ _ _ E2), !(get_put_ne 2 _ _ _ _ _ _ E1) by lia.
    unfold blen. rewrite length_insert. done.
  - intros j t Ht. destruct (decide (i = j)) as [<-|Hij].
    + rewrite list_lookup_insert_eq in Ht by done. simplify_eq. apply slot_at_fields. simpl. rewrite Hsp in *.
      split; [rewrite (get_put_ne 2 _ _ _ _ _ _ E2) by lia; by apply (get_put16 page); [|lia]
             |by apply (get_put16 p1); [|lia]].
    + rewrite list_lookup_insert_ne in Ht by done. rewrite <- (pr_slots _ _ _ R _ _ Ht). unfold slot_at.
      rewrite !Hsp in *. rewrite !(get_put_ne 2 _ _ _ _ _ _ E2), !(get_put_ne 2 _ _ _ _ _ _ E1) by lia. done.
  - unfold blen, PAGE_SIZE in *. rewrite length_insert. lia.
  - intros j t Ht Hl. destruct (decide (i = j)) as [<-|Hij].
    + rewrite list_lookup_insert_eq in Ht by done. simplify_eq. by destruct Hl.
    + rewrite list_lookup_insert_ne in Ht by done. by apply (pr_in _ _ _ R j).
  - intros j k t t' Ht Ht' Hjk Hl Hl'. destruct (decide (i = j)) as [<-|Hij].
    { rewrite list_lookup_insert_eq in Ht by done. simplify_eq; try by destruct Hl. }
    destruct (decide (i = k)) as [<-|Hik].
    { rewrite list_lookup_insert_eq in Ht' by done. simplify_eq; try by destruct Hl'. }
    rewrite list_lookup_insert_ne in Ht, Ht' by done. eapply (pr_disj _ _ _ R j k); eauto.
  - etransitivity; [eapply live_bytes_delete; [done|]|apply R].
    intros j t Ht. pose proof (page_slot_range _ _ _ _ _ R Ht). lia.
  - intros t Hl Ht. unfold slot_rec. destruct (Z.eqb_spec (s_offset t) 0); [done|]. by apply Hrd.
Qed.

(** ** Overwriting in place *)

Lemma slotpage_overwrite_rep page fe slots i s rec :
  page_rep page fe slots -> slots !! i = Some s -> live s -> blen rec = s_length s ->
  Forall is_byte rec ->
  exists page', slotpage_overwrite page (Z.of_nat i) rec (s_length s) = Some (page', 0) /\
    page_rep page' fe slots /\ slot_rec page' s = Some rec /\
    (forall j t, slots !! j = Some t -> j <> i -> slot_rec page' t = slot_rec page t).
Proof.
  intros R Hi Hl Hlen Hb. destruct (pr_in _ _ _ R _ _ Hi Hl) as (H1 & H2 & H3).
  pose proof (pr_fe _ _ _ R) as Hfe. pose proof (pr_len _ _ _ R) as HL. pose proof (blen_nonneg slots).
  pose proof (lookup_lt_Some _ _ _ Hi) as Hlt. unfold PAGE_SIZE in *.
  unfold slotpage_overwrite. rewrite (pr_header _ _ _ R). simpl.
  destruct (Z.leb_spec (blen slots) (Z.of_nat i)); [unfold blen in *; lia|].
  rewrite (pr_slots _ _ _ R _ _ Hi). simpl. rewrite (proj2 (Z.eqb_neq _ _) Hl), Z.eqb_refl. simpl.
  rewrite <- Hlen, mem_read_all. simpl.
  destruct (mem_write_Some page (s_offset s) rec) as [p E]; [lia..|]. rewrite E. simpl.
  exists p. split; [done|]. split; [split|split].
  - rewrite (mem_write_blen _ _ _ _ E). done.
  - eauto using mem_write_Forall, pr_bytes.
  - rewrite (header_write_ne _ _ _ _ E) by lia. apply R.
  - intros j t Ht. pose proof (page_slot_range _ _ _ _ _ R Ht) as (_ & _ & Hpos).
    rewrite (slot_at_write_ne _ _ _ _ _ E); [by apply R|]. unfold slot_pos, HEADER_SIZE, SLOT_SIZE. lia.
  - apply R.
  - apply R.
  - apply R.
  - apply R.
  - unfold slot_rec. rewrite (proj2 (Z.eqb_neq _ _) Hl). rewrite <- Hlen. eauto using mem_read_write_eq.
  - intros j t Ht Hj. eapply slot_rec_write_ne; [done|]. intros Hlt'. rewrite Hlen.
    destruct (pr_disj _ _ _ R i j s t); auto; lia.
Qed.

(** ** Compaction *)

(** Slots after packing the live records downwards from [e]. *)
Fixpoint relocate (e : Z) (slots : list Slot) : list Slot :=
  match slots with
  | [] => []
  | s :: r => if s_offset s =? 0 then s :: relocate e r
              else mkSlot (e - s_length s) (s_length s) :: relocate (e - s_length s) r
  end.

Lemma length_relocate e slots : length (relocate e slots) = length slots.
Proof. revert e. induction slots as [|s r IH]; intros e; simpl; [done|]. destruct (s_offset s =? 0); simpl; by rewrite IH. Qed.

Definition lens_nonneg (slots : list Slot) : Prop := Forall (fun s => 0 <= s_length s) slots.

Lemma live_bytes_nonneg slots : lens_nonneg slots -> 0 <= live_bytes slots.
Proof. induction 1 as [|s r Hs _ IH]; simpl; [lia|]. case_cmp; lia. Qed.

(** Each relocated slot: dead slots are unchanged, live ones keep their length
    and sit just below the bytes of the earlier live ones. *)
Lemma relocate_lookup e slots i s :
  slots !! i = Some s ->
  relocate e slots !! i = Some (if s_offset s =? 0 then s
                                else mkSlot (e - live_bytes (take i slots) - s_length s) (s_length s)).
Proof.
  revert e i. induction slots as [|t r IH]; intros e [|i] Hi; simplify_eq/=.
  - destruct (s_offset s =? 0); simpl; [done|]. do 2 f_equal. lia.
  - destruct (s_offset t =? 0); simpl; rewrite (IH _ _ Hi); destruct (s_offset s =? 0); try done;
      do 2 f_equal; lia.
Qed.

Lemma live_bytes_take slots i s :
  slots !! i = Some s ->
  live_bytes (take (S i) slots) = live_bytes (take i slots) + (if s_offset s =? 0 then 0 else s_length s).
Proof. intros H. rewrite (take_S_r _ _ _ H), live_bytes_app. simpl. lia. Qed.

Lemma live_bytes_take_le slots i j :
  lens_nonneg slots -> (i <= j)%nat -> live_bytes (take i slots) <= live_bytes (take j slots).
Proof.
  intros Hn Hij. rewrite <- (take_drop i (take j slots)), take_take, Nat.min_l, live_bytes_app by lia.
  pose proof (live_bytes_nonneg (drop i (take j slots)) (Forall_drop _ _ _ (Forall_take _ _ _ Hn))). lia.
Qed.

Lemma live_bytes_relocate e slots :
  lens_nonneg slots -> live_bytes slots < e -> live_bytes (relocate e slots) = live_bytes slots.
Proof.
  intros Hn. revert e. induction Hn as [|s r Hs Hn IH]; intros e; simpl in *; [done|].
  pose proof (live_bytes_nonneg r Hn).
  destruct (Z.eqb_spec (s_offset s) 0) as [E|E]; intros He; simpl.
  - rewrite E, Z.eqb_refl, IH by lia. done.
  - destruct (Z.eqb_spec (e - s_length s) 0); [lia|]. rewrite IH by lia. done.
Qed.

(** State of the compaction loop before iteration [k]. *)
Record compact_inv (page : bytes) (fe : Z) (slots : list Slot) (k : Z) (st : bytes * bytes * Z) : Prop := {
  ci_len : blen st.1.1 = PAGE_SIZE;
  ci_tlen : blen st.1.2 = PAGE_SIZE;
  ci_bytes : Forall is_byte st.1.1;
  ci_tbytes : Forall is_byte st.1.2;
  ci_hdr : header st.1.1 = header page;
  ci_done : forall i s, slots !! i = Some s -> Z.of_nat i < k ->
      exists s', relocate PAGE_SIZE slots !! i = Some s' /\ slot_at st.1.1 (Z.of_nat i) = Some s' /\
                 (live s -> mem_read st.1.2 (s_offset s') (s_length s) = mem_read page (s_offset s) (s_length s));
  ci_todo : forall i s, slots !! i = Some s -> k <= Z.of_nat i -> slot_at st.1.1 (Z.of_nat i) = Some s;
  ci_recs : forall o n, fe <= o -> mem_read st.1.1 o n = mem_read page o n;
  ci_end : st.2 = PAGE_SIZE - live_bytes (take (Z.to_nat k) slots) }.

Lemma rep_lens page fe slots : page_rep page fe slots -> lens_nonneg slots.
Proof.
  intros R. apply Forall_lookup_2. intros i s Hs. pose proof (page_slot_range _ _ _ _ _ R Hs). lia.
Qed.

Lemma compact_step_inv page fe slots k st :
  page_rep page fe slots -> 0 <= k < blen slots -> compact_inv page fe slots k st ->
  exists st', compact_step k st = Some st' /\ compact_inv page fe slots (k + 1) st'.
Proof.
  intros R Hk [HL HT HB HTB HH Hdone Htodo Hrecs Hend]. destruct st as [[p t] e]. simpl in *.
  pose proof (pr_fe _ _ _ R) as Hfe. pose proof (rep_lens _ _ _ R) as Hnn. unfold blen in Hk.
  destruct (lookup_lt_is_Some_2 slots (Z.to_nat k)) as [s Hs]; [lia|].
  pose proof (Htodo _ _ Hs ltac:(lia)) as Hat. rewrite Z2Nat.id in Hat by lia.
  pose proof (live_bytes_take _ _ _ Hs) as Htk. replace (S (Z.to_nat k)) with (Z.to_nat (k + 1)) in Htk by lia.
  pose proof (live_bytes_take_le slots (Z.to_nat (k + 1)) (length slots) Hnn ltac:(lia)) as Hle.
  rewrite (take_ge slots (length slots)) in Hle by done. pose proof (pr_sum _ _ _ R) as Hsum.
  pose proof (relocate_lookup PAGE_SIZE _ _ _ Hs) as Hrl.
  unfold compact_step. rewrite Hat. simpl. revert Htk. destruct (Z.eqb_spec (s_offset s) 0) as [E0|E0]; intros Htk.
  { exists (p, t, e). split; [done|]. split; simpl; try done.
    - intros i s' Hi Hlt. destruct (decide (Z.of_nat i < k)); [by apply Hdone|]. assert (i = Z.to_nat k) by lia. subst i.
      simplify_eq. exists s. rewrite Z2Nat.id by lia. done.
    - intros i s' Hi Hge. apply Htodo; [done|lia].
    - lia. }
  destruct (pr_in _ _ _ R _ _ Hs E0) as (I1 & I2 & I3).
  pose proof (page_slot_range _ _ _ _ _ R Hs) as (_ & _ & Hpos).
  pose proof (live_bytes_nonneg _ (Forall_take _ (Z.to_nat k) _ Hnn)) as Hnk. unfold PAGE_SIZE in *.
  rewrite (u16_small (e - s_length s)) by lia. rewrite Hrecs by lia.
  destruct (mem_read_Some page (s_offset s) (s_length s)) as [src Esrc]; [rewrite ?(pr_len _ _ _ R); unfold PAGE_SIZE; lia..|].
  rewrite Esrc. simpl. pose proof (mem_read_blen _ _ _ _ Esrc) as Lsrc.
  destruct (mem_write_Some t (e - s_length s) src) as [t' Et]; [lia..|]. rewrite Et. simpl.
  assert (Hsp : forall k, slot_pos k = 4 + 4 * k) by (intros; unfold slot_pos, HEADER_SIZE, SLOT_SIZE; lia).
  unfold set_slot_offset. destruct (put_le_Some 2 p (slot_pos k) (e - s_length s)) as [p' Ep]; [rewrite ?Hsp; lia..|].
  rewrite Ep. simpl. exists (p', t', e - s_length s). split; [done|]. rewrite Hsp in *.
  split; simpl; unfold PAGE_SIZE.
  - rewrite (put_le_blen _ _ _ _ _ Ep). done.
  - rewrite (mem_write_blen _ _ _ _ Et). done.
  - eauto using put_le_bytes.
  - eapply mem_write_Forall; eauto. eapply mem_read_Forall; eauto. apply R.
  - rewrite <- HH. unfold header. rewrite !(get_put_ne 2 _ _ _ _ _ _ Ep) by lia. done.
  - intros i s' Hi Hlt. destruct (decide (Z.of_nat i < k)) as [Hik|Hik].
    + destruct (Hdone _ _ Hi Hik) as (s2 & Hr2 & Hat2 & Hrd). exists s2. split; [done|]. split.
      * rewrite <- Hat2. unfold slot_at. rewrite !Hsp, !(get_put_ne 2 _ _ _ _ _ _ Ep) by lia. done.
      * intros Hl. rewrite <- (Hrd Hl). rewrite (relocate_lookup _ _ _ _ Hi) in Hr2.
        destruct (Z.eqb_spec (s_offset s') 0); [done|]. injection Hr2 as <-. simpl.
        eapply mem_read_write_ne; [done|]. right.
        pose proof (live_bytes_take _ _ _ Hi) as Hti. rewrite (proj2 (Z.eqb_neq _ _) n) in Hti.
        pose proof (live_bytes_take_le slots (S i) (Z.to_nat k) Hnn ltac:(lia)). lia.
    + assert (i = Z.to_nat k) by lia. subst i. simplify_eq. eexists. split; [exact Hrl|].
      rewrite Z2Nat.id by lia. simpl.
      split.
      * apply slot_at_fields. simpl. rewrite Hsp. split; [apply (get_put16 p); [done|lia]|].
        rewrite (get_put_ne 2 _ _ _ _ _ _ Ep) by lia. apply slot_at_fields in Hat as [_ Hat]. by rewrite Hsp in Hat.
      * intros _. apply mem_read_write_eq in Et. rewrite Lsrc in Et. by rewrite Et.
  - intros i s' Hi Hge. rewrite <- (Htodo _ _ Hi) by lia. unfold slot_at.
    rewrite !Hsp, !(get_put_ne 2 _ _ _ _ _ _ Ep) by lia. done.
  - intros o n Ho. rewrite <- Hrecs by done. unfold put_le in Ep. eapply mem_read_write_ne; [exact Ep|].
    rewrite blen_le_bytes. lia.
  - lia.
Qed.

Lemma relocate_rep_facts page fe slots :
  page_rep page fe slots ->
  let e' := PAGE_SIZE - live_bytes slots in
  (forall i s', relocate PAGE_SIZE slots !! i = Some s' -> live s' ->
     e' <= s_offset s' /\ 0 <= s_length s' /\ s_offset s' + s_length s' <= PAGE_SIZE) /\
  (forall i j s' t', relocate PAGE_SIZE slots !! i = Some s' -> relocate PAGE_SIZE slots !! j = Some t' ->
     i <> j -> live s' -> live t' ->
     s_offset s' + s_length s' <= s_offset t' \/ s_offset t' + s_length t' <= s_offset s').
Proof.
  intros R e'. pose proof (rep_lens _ _ _ R) as Hnn.
  assert (Hpos : forall i s', relocate PAGE_SIZE slots !! i = Some s' -> live s' ->
     0 <= s_length s' /\ s_offset s' = PAGE_SIZE - live_bytes (take (S i) slots) /\
     s_offset s' + s_length s' = PAGE_SIZE - live_bytes (take i slots)).
  { intros i s' Hi Hl. pose proof (lookup_lt_Some _ _ _ Hi) as Hlt. rewrite length_relocate in Hlt.
    destruct (lookup_lt_is_Some_2 slots i Hlt) as [s Hs]. rewrite (relocate_lookup _ _ _ _ Hs) in Hi.
    rewrite (live_bytes_take _ _ _ Hs). pose proof (page_slot_range _ _ _ _ _ R Hs).
    destruct (Z.eqb_spec (s_offset s) 0); injection Hi as <-; [done|]. simpl. lia. }
  split.
  - intros i s' Hi Hl. destruct (Hpos _ _ Hi Hl) as (H1 & H2 & H3). subst e'.
    pose proof (lookup_lt_Some _ _ _ Hi) as Hlt. rewrite length_relocate in Hlt.
    pose proof (live_bytes_take_le slots (S i) (length slots) Hnn ltac:(lia)) as Hle.
    rewrite (take_ge slots (length slots)) in Hle by done.
    pose proof (live_bytes_nonneg _ (Forall_take _ i _ Hnn)). lia.
  - intros i j s' t' Hi Hj Hij Hl Hl'. destruct (Hpos _ _ Hi Hl) as (H1 & H2 & H3), (Hpos _ _ Hj Hl') as (H4 & H5 & H6).
    destruct (decide (i < j)%nat).
    + right. pose proof (live_bytes_take_le slots (S i) j Hnn ltac:(lia)). lia.
    + left. pose proof (live_bytes_take_le slots (S j) i Hnn ltac:(lia)). lia.
Qed.

(** Compaction keeps every record under its slot number and leaves no gap. *)
Lemma slotpage_compact_rep page fe slots tmp :
  page_rep page fe slots -> blen tmp = PAGE_SIZE -> Forall is_byte tmp ->
  exists page', slotpage_compact page tmp = Some page' /\
    page_rep page' (PAGE_SIZE - live_bytes slots) (relocate PAGE_SIZE slots) /\
    (slot_rec page' <$> relocate PAGE_SIZE slots) = (slot_rec page <$> slots).
Proof.
  intros R HT HTB. pose proof (pr_fe _ _ _ R) as Hfe. pose proof (pr_header _ _ _ R) as Hh.
  pose proof (rep_lens _ _ _ R) as Hnn. pose proof (pr_sum _ _ _ R) as Hsum.
  pose proof (live_bytes_nonneg _ Hnn) as Hlb. pose proof (blen_nonneg slots) as Hn0.
  destruct (for_loop_inv (compact_inv page fe slots) (Z.to_nat (blen slots)) 0 compact_step (page, tmp, PAGE_SIZE))
    as ([[p t] e] & Hloop & [HL HT' HB HTB' HH Hdone _ Hrecs Hend]).
  { split; simpl; try done; try apply R; intros; try lia; eauto using pr_slots. }
  { intros k st Hk. apply compact_step_inv; [done|lia]. }
  cbn in HL, HT', HB, HTB', HH, Hdone, Hrecs, Hend. setoid_rewrite Z2Nat.id in Hdone; [|lia]. rewrite Z2Nat.id in Hend by lia. rewrite Z.add_0_l in *.
  replace (Z.to_nat (blen slots)) with (length slots) in Hend by (unfold blen; lia). rewrite (take_ge slots (length slots)) in Hend by done.
  unfold slotpage_compact. rewrite Hh. simpl. rewrite Hloop. simpl. unfold PAGE_SIZE in *.
  destruct (mem_read_Some t e (4096 - e)) as [tail Etail]; [lia..|]. rewrite Etail. simpl.
  pose proof (mem_read_blen _ _ _ _ Etail) as Ltail.
  destruct (mem_write_Some p e tail) as [p' Ep]; [lia..|]. rewrite Ep. simpl.
  pose proof (mem_write_blen _ _ _ _ Ep) as L'.
  unfold set_free_end. destruct (put_le_Some 2 p' 2 e) as [p2 E2]; [lia..|]. rewrite E2.
  pose proof (put_le_blen _ _ _ _ _ E2) as L2. exists p2. split; [done|].
  rewrite Hh in HH. apply header_fields in HH as [HH0 _].
  destruct (relocate_rep_facts _ _ _ R) as [Hin Hdisj].
  assert (Hrd : forall o n, e <= o -> o + n <= 4096 -> mem_read p2 o n = mem_read t o n).
  { intros o n Ho1 Ho2. destruct (decide (0 <= n)) as [Hn|Hn].
    2: { unfold mem_read, in_range. rewrite (proj2 (Z.leb_gt 0 n)), !andb_false_r by lia. done. }
    unfold put_le in E2. erewrite (mem_read_write_ne p'); [|exact E2|rewrite blen_le_bytes; lia].
    replace o with (e + (o - e)) by lia.
    rewrite (mem_read_sub t e (4096 - e) tail) by (done || lia).
    apply mem_read_write_eq in Ep. rewrite Ltail in Ep. by apply (mem_read_sub p' e (4096 - e) tail); [|lia..]. }
  assert (Hat : forall i s', relocate 4096 slots !! i = Some s' -> slot_at p2 (Z.of_nat i) = Some s').
  { intros i s' Hi. pose proof (lookup_lt_Some _ _ _ Hi) as Hlt. rewrite length_relocate in Hlt.
    destruct (lookup_lt_is_Some_2 slots i Hlt) as [s Hs].
    destruct (Hdone _ _ Hs ltac:(unfold blen; lia)) as (s2 & Hr2 & Hat2 & _).
    assert (s2 = s') as -> by congruence. rewrite <- Hat2.
    pose proof (page_slot_range _ _ _ _ _ R Hs) as (_ & _ & Hpos).
    transitivity (slot_at p' (Z.of_nat i)).
    - apply (slot_at_write_ne p' 2 (le_bytes 2 e)); [exact E2|]. rewrite blen_le_bytes. unfold slot_pos, HEADER_SIZE, SLOT_SIZE. lia.
    - apply (slot_at_write_ne p e tail); [exact Ep|]. unfold slot_pos, HEADER_SIZE, SLOT_SIZE. lia. }
  split; [split|]; unfold PAGE_SIZE; rewrite <- ?Hend.
  - lia.
  - eauto using put_le_bytes, mem_write_Forall, mem_read_Forall.
  - apply header_fields. unfold blen. rewrite length_relocate. split; [|apply (get_put16 p'); [done|lia]].
    rewrite (get_put_ne 2 _ _ _ _ _ _ E2) by lia. rewrite (get_write_ne 2 _ _ _ _ _ Ep) by lia. done.
  - exact Hat.
  - unfold blen in *. rewrite length_relocate. lia.
  - intros i s' Hi Hl. specialize (Hin _ _ Hi Hl). unfold PAGE_SIZE in *. lia.
  - exact Hdisj.
  - rewrite live_bytes_relocate; [lia|done|unfold blen in *; lia].
  - apply list_eq. intros i. rewrite !list_lookup_fmap. destruct (slots !! i) as [s|] eqn:Hs.
    2: { rewrite lookup_ge_None_2; [done|]. rewrite length_relocate. by apply lookup_ge_None_1. }
    destruct (Hdone _ _ Hs ltac:(apply lookup_lt_Some in Hs; unfold blen; lia)) as (s2 & Hr2 & _ & Hrec).
    rewrite Hr2. simpl. f_equal. pose proof Hr2 as Hr3. rewrite (relocate_lookup _ _ _ _ Hs) in Hr3.
    unfold slot_rec at 2. destruct (Z.eqb_spec (s_offset s) 0) as [E0|E0].
    + injection Hr3 as <-. unfold slot_rec. by rewrite E0.
    + rewrite <- (Hrec E0). injection Hr3 as <-. unfold slot_rec. simpl in *.
      destruct (Hin _ _ Hr2) as (I1 & I2 & I3).
      { unfold live. simpl. pose proof (live_bytes_take _ _ _ Hs) as Ht. rewrite (proj2 (Z.eqb_neq _ _) E0) in Ht.
        pose proof (live_bytes_take_le slots (S i) (length slots) Hnn ltac:(apply lookup_lt_Some in Hs; lia)) as Hle.
        rewrite (take_ge slots (length slots)) in Hle by done. unfold PAGE_SIZE in *. lia. }
      unfold PAGE_SIZE in *. simpl in *. destruct (Z.eqb_spec (4096 - live_bytes (take i slots) - s_length s) 0) as [Ez|Ez]; [lia|].
      apply Hrd; lia.
Qed.

(** ** Contract: pages as lists of optional records

    The abstract state is the list of records by slot and the size of the gap
    between the slot array and the record area. *)

Inductive page_op :=
| OpInsert (rec : bytes)
| OpDelete (slot : Z)
| OpOverwrite (slot : Z) (rec : bytes)
| OpCompact (tmp : bytes).

Record apage := mkAPage { ap_recs : list (option bytes); ap_free : Z }.

Definition aop (a : apage) (op : page_op) : apage * Z :=
  match op with
  | OpInsert rec =>
      if ap_free a <? blen rec + 4 then (a, -1)
      else (mkAPage (ap_recs a ++ [Some rec]) (ap_free a - blen rec - 4), blen (ap_recs a))
  | OpDelete i =>
      if blen (ap_recs a) <=? i then (a, -1)
      else (mkAPage (<[Z.to_nat i := None]> (ap_recs a)) (ap_free a), 0)
  | OpOverwrite i rec =>
      match mjoin (ap_recs a !! Z.to_nat i) with
      | Some old => if blen old =? blen rec
                    then (mkAPage (<[Z.to_nat i := Some rec]> (ap_recs a)) (ap_free a), 0)
                    else (a, -1)
      | None => (a, -1)
      end
  | OpCompact _ =>
      (mkAPage (ap_recs a) (PAGE_SIZE - 4 - 4 * blen (ap_recs a) - recs_bytes (ap_recs a)), 0)
  end.

Definition cop (page : bytes) (op : page_op) : option (bytes * Z) :=
  match op with
  | OpInsert rec => slotpage_insert page rec (blen rec)
  | OpDelete i => slotpage_delete page i
  | OpOverwrite i rec => slotpage_overwrite page i rec (blen rec)
  | OpCompact tmp => p ← slotpage_compact page tmp; Some (p, 0)
  end.

(** What the callers guarantee: byte buffers, lengths whose [len + SLOT_SIZE]
    does not wrap, slot numbers of type [uint16_t]. *)
Definition op_ok (op : page_op) : Prop :=
  match op with
  | OpInsert rec => Forall is_byte rec /\ blen rec + SLOT_SIZE < 65536
  | OpDelete i => 0 <= i < 65536
  | OpOverwrite i rec => 0 <= i < 65536 /\ Forall is_byte rec
  | OpCompact tmp => blen tmp = PAGE_SIZE /\ Forall is_byte tmp
  end.

Fixpoint arun (a : apage) (ops : list page_op) : apage * list Z :=
  match ops with
  | [] => (a, [])
  | op :: r => let '(a', rc) := aop a op in let '(a'', rcs) := arun a' r in (a'', rc :: rcs)
  end.

Fixpoint crun (page : bytes) (ops : list page_op) : option (bytes * list Z) :=
  match ops with
  | [] => Some (page, [])
  | op :: r => '(p, rc) ← cop page op; '(p', rcs) ← crun p r; Some (p', rc :: rcs)
  end.

Definition page_refines (page : bytes) (a : apage) : Prop :=
  exists fe slots, page_rep page fe slots /\
    ap_recs a = (slot_rec page <$> slots) /\ ap_free a = fe - 4 - 4 * blen slots.

Lemma page_refines_abs page a : page_refines page a -> page_abs page (ap_recs a).
Proof. intros (fe & slots & R & H & _). by exists fe, slots. Qed.

Lemma page_refines_free page a : page_refines page a -> slotpage_free_space page = Some (ap_free a).
Proof. intros (fe & slots & R & _ & ->). by apply free_space_rep. Qed.

Lemma recs_fmap_insert page page' (slots : list Slot) (i : nat) s v :
  slots !! i = Some s ->
  (forall j t, slots !! j = Some t -> j <> i -> slot_rec page' t = slot_rec page t) ->
  (slot_rec page' <$> <[i := v]> slots) = <[i := slot_rec page' v]> (slot_rec page <$> slots).
Proof.
  intros Hi Hf. rewrite list_fmap_insert. apply list_eq. intros j.
  pose proof (lookup_lt_Some _ _ _ Hi) as Hlt.
  destruct (decide (i = j)) as [<-|Hij].
  - rewrite !list_lookup_insert_eq by (rewrite length_fmap; lia). done.
  - rewrite !list_lookup_insert_ne by done. rewrite !list_lookup_fmap.
    destruct (slots !! j) as [t|] eqn:Ht; [|done]. simpl. f_equal. by apply (Hf j).
Qed.

Lemma cop_insert_refines page a rec :
  page_refines page a -> op_ok (OpInsert rec) ->
  exists page' a' rc, cop page (OpInsert rec) = Some (page', rc) /\
    aop a (OpInsert rec) = (a', rc) /\ page_refines page' a'.
Proof.
  intros (fe & slots & R & Hrecs & Hfree) [Hb Hl]. destruct a as [recs free]; simpl in *. subst.
  unfold SLOT_SIZE in Hl. rewrite blen_fmap.
  destruct (slotpage_insert_rep _ _ _ rec _ R eq_refl Hb Hl) as [[Hlt ->]|(Hge & p' & -> & R' & Hnew & Hold)].
  - rewrite (proj2 (Z.ltb_lt _ _) Hlt). do 3 eexists. split; [done|]. split; [done|]. by exists fe, slots.
  - rewrite (proj2 (Z.ltb_ge _ _) Hge). do 3 eexists. split; [done|]. split; [done|].
    do 2 eexists. split; [exact R'|]. simpl. rewrite fmap_app. autorewrite with db. change (blen [_]) with 1. split; [|lia].
    f_equal; [|simpl; by rewrite Hnew]. apply list_fmap_ext. intros i s Hs. symmetry. eauto.
Qed.

Lemma cop_delete_refines page a i :
  page_refines page a -> op_ok (OpDelete i) ->
  exists page' a' rc, cop page (OpDelete i) = Some (page', rc) /\
    aop a (OpDelete i) = (a', rc) /\ page_refines page' a'.
Proof.
  intros (fe & slots & R & Hrecs & Hfree) Hi. destruct a as [recs free]; simpl in *. subst.
  rewrite blen_fmap. destruct (Z.leb_spec (blen slots) i) as [Hge|Hlt].
  - unfold slotpage_delete. rewrite (pr_header _ _ _ R). simpl. rewrite (proj2 (Z.leb_le _ _) Hge).
    do 3 eexists. split; [done|]. split; [done|]. by exists fe, slots.
  - unfold blen in Hlt. destruct (lookup_lt_is_Some_2 slots (Z.to_nat i)) as [s Hs]; [lia|].
    destruct (slotpage_delete_rep _ _ _ _ _ R Hs) as (p' & Hd & R' & Hold). rewrite Z2Nat.id in Hd by lia.
    rewrite Hd. do 3 eexists. split; [done|]. split; [done|]. do 2 eexists. split; [exact R'|]. simpl. split.
    + rewrite (recs_fmap_insert page p' slots (Z.to_nat i) s (mkSlot 0 0)); try done.
      intros j t Ht _. destruct (decide (live t)) as [Hl|Hl].
      * apply Hold; [done|]. by apply (pr_in _ _ _ R j t).
      * unfold live in Hl. unfold slot_rec. destruct (Z.eqb_spec (s_offset t) 0); [done|lia].
    + unfold blen. by rewrite length_insert.
Qed.

Lemma cop_overwrite_refines page a i rec :
  page_refines page a -> op_ok (OpOverwrite i rec) ->
  exists page' a' rc, cop page (OpOverwrite i rec) = Some (page', rc) /\
    aop a (OpOverwrite i rec) = (a', rc) /\ page_refines page' a'.
Proof.
  intros (fe & slots & R & Hrecs & Hfree) [Hi Hb]. destruct a as [recs free]; simpl in *. subst.
  rewrite list_lookup_fmap. destruct (slots !! Z.to_nat i) as [s|] eqn:Hs; simpl.
  2: { apply lookup_ge_None_1 in Hs. unfold slotpage_overwrite. rewrite (pr_header _ _ _ R). simpl.
       rewrite (proj2 (Z.leb_le _ _)) by (unfold blen; lia).
       do 3 eexists. split; [done|]. split; [done|]. by exists fe, slots. }
  pose proof (pr_slots _ _ _ R _ _ Hs) as Hat. rewrite Z2Nat.id in Hat by lia.
  destruct (decide (live s)) as [Hl|Hl].
  - destruct (slot_rec_Some _ _ _ _ _ R Hs Hl) as (old & Ho & Hlen). rewrite Ho. simpl.
    destruct (Z.eqb_spec (blen old) (blen rec)) as [E|E].
    + destruct (slotpage_overwrite_rep _ _ _ _ _ rec R Hs Hl) as (p' & Hov & R' & Hnew & Hold); [lia|done|].
      rewrite Z2Nat.id in Hov by lia. rewrite <- E, Hlen, Hov.
      do 3 eexists. split; [done|]. split; [done|]. do 2 eexists. split; [exact R'|]. simpl. split; [|done].
      rewrite <- Hnew, <- (recs_fmap_insert page p' slots (Z.to_nat i) s s) by done.
      by rewrite (list_insert_id slots _ _ Hs).
    + unfold slotpage_overwrite. rewrite (pr_header _ _ _ R). simpl.
      apply lookup_lt_Some in Hs as Hlt. rewrite (proj2 (Z.leb_gt _ _)) by (unfold blen; lia).
      rewrite Hat. simpl. rewrite (proj2 (Z.eqb_neq (s_length s) (blen rec))), orb_true_r by lia.
      do 3 eexists. split; [done|]. split; [done|]. by exists fe, slots.
  - unfold live in Hl. assert (Hz : s_offset s = 0) by lia. unfold slot_rec. rewrite Hz. simpl.
    unfold slotpage_overwrite. rewrite (pr_header _ _ _ R). simpl.
    apply lookup_lt_Some in Hs as Hlt. rewrite (proj2 (Z.leb_gt _ _)) by (unfold blen; lia).
    rewrite Hat. simpl. rewrite Hz. simpl.
    do 3 eexists. split; [done|]. split; [done|]. by exists fe, slots.
Qed.

Lemma cop_refines page a op :
  page_refines page a -> op_ok op ->
  exists page' a' rc, cop page op = Some (page', rc) /\ aop a op = (a', rc) /\ page_refines page' a'.
Proof.
  intros HR Hok. destruct op as [rec|i|i rec|tmp];
    [by apply cop_insert_refines|by apply cop_delete_refines|by apply cop_overwrite_refines|].
  destruct HR as (fe & slots & R & Hrecs & Hfree). destruct a as [recs free]; simpl in *. subst.
  destruct Hok as [HT HTB]. destruct (slotpage_compact_rep _ _ _ _ R HT HTB) as (p' & -> & R' & Hsame).
  do 3 eexists. split; [done|]. split; [done|]. do 2 eexists. split; [exact R'|]. simpl. rewrite Hsame.
  split; [done|]. rewrite blen_fmap, (recs_bytes_live _ _ _ R). unfold blen. rewrite length_relocate. lia.
Qed.

Lemma crun_refines ops page a :
  page_refines page a -> Forall op_ok ops ->
  exists page' a' rcs, crun page ops = Some (page', rcs) /\ arun a ops = (a', rcs) /\ page_refines page' a'.
Proof.
  intros HR Hok. revert page a HR. induction Hok as [|op ops Hop Hok IH]; intros page a HR.
  - by exists page, a, [].
  - destruct (cop_refines _ _ _ HR Hop) as (p1 & a1 & rc & Hc & Ha & HR1).
    destruct (IH _ _ HR1) as (p2 & a2 & rcs & Hcr & Har & HR2).
    exists p2, a2, (rc :: rcs). simpl. rewrite Hc, Ha. simpl. rewrite Hcr, Har. done.
Qed.

Lemma slotpage_init_refines buf :
  blen buf = PAGE_SIZE -> Forall is_byte buf ->
  exists page, slotpage_init buf = Some page /\ page_refines page (mkAPage [] (PAGE_SIZE - 4)).
Proof.
  intros HL HB. unfold slotpage_init, set_num_slots, set_free_end, PAGE_SIZE in *.
  destruct (put_le_Some 2 buf 0 0) as [p1 E1]; [lia..|]. rewrite E1. simpl.
  pose proof (put_le_blen _ _ _ _ _ E1) as L1.
  destruct (put_le_Some 2 p1 2 4096) as [p2 E2]; [lia..|]. rewrite E2.
  exists p2. split; [done|]. exists 4096, []. simpl. split; [|done].
  split; unfold PAGE_SIZE; simpl; try done; try (change (blen []) with 0; lia).
  - rewrite (put_le_blen _ _ _ _ _ E2). lia.
  - eauto using put_le_bytes.
  - apply header_fields. split; [|apply (get_put16 p1); [done|lia]].
    rewrite (get_put_ne 2 _ _ _ _ _ _ E2) by lia. apply (get_put16 buf); [done|]. change (blen []) with 0. lia.
Qed.

(** ** Properties *)

(** C11. Any sequence of insert, delete, overwrite and compact operations on a
    freshly initialised page never leaves the page, returns exactly the codes of
    the abstract page (a list of optional records and a free-space counter), and
    afterwards every slot reads back the abstract record; [slotpage_free_space]
    is the abstract counter. *)
Theorem slotpage_run_refines (buf : bytes) (ops : list page_op) :
  blen buf = PAGE_SIZE -> Forall is_byte buf -> Forall op_ok ops ->
  exists page0 page rcs a, slotpage_init buf = Some page0 /\
    crun page0 ops = Some (page, rcs) /\ arun (mkAPage [] (PAGE_SIZE - 4)) ops = (a, rcs) /\
    (forall i, 0 <= i -> page_lookup page i = mjoin (ap_recs a !! Z.to_nat i)) /\
    slotpage_free_space page = Some (ap_free a).
Proof.
  intros HL HB Hok. destruct (slotpage_init_refines _ HL HB) as (p0 & Hi & HR).
  destruct (crun_refines _ _ _ HR Hok) as (p & a & rcs & Hc & Ha & HR').
  exists p0, p, rcs, a. split; [done|]. split; [done|]. split; [done|].
  split; [|by apply page_refines_free]. intros i. apply page_lookup_abs. by apply page_refines_abs.
Qed.

Lemma zero_buf_ok : blen (replicate 4096 0) = PAGE_SIZE /\ Forall is_byte (replicate 4096 0).
Proof. split; [done|]. apply Forall_replicate. unfold is_byte. lia. Qed.

Lemma slotpage_run_refines_witness :
  exists page0 page rcs a, slotpage_init (replicate 4096 0) = Some page0 /\
    crun page0 [OpInsert [7;8;9]; OpInsert [1]; OpDelete 0; OpOverwrite 1 [5]; OpCompact (replicate 4096 0)] = Some (page, rcs) /\
    arun (mkAPage [] (PAGE_SIZE - 4)) [OpInsert [7;8;9]; OpInsert [1]; OpDelete 0; OpOverwrite 1 [5]; OpCompact (replicate 4096 0)] = (a, rcs) /\
    (forall i, 0 <= i -> page_lookup page i = mjoin (ap_recs a !! Z.to_nat i)) /\
    slotpage_free_space page = Some (ap_free a).
Proof.
  apply slotpage_run_refines.
  - apply zero_buf_ok.
  - apply zero_buf_ok.
  - do 4 (apply Forall_cons_2; [vm_compute; repeat (split || constructor || intros [=])|]).
    apply Forall_cons_2; [exact zero_buf_ok|constructor].
Defined.

(** Compaction of a page with dead slots makes room again: computed on bytes. *)
Example compact_reclaims :
  (p0 ← slotpage_init (replicate 4096 0);
   '(p1, _) ← slotpage_insert p0 (replicate 2000 1) 2000;
   '(p2, _) ← slotpage_insert p1 (replicate 2000 2) 2000;
   '(p3, rc) ← slotpage_insert p2 (replicate 500 3) 500;
   '(p4, _) ← slotpage_delete p3 0;
   p5 ← slotpage_compact p4 (replicate 4096 255);
   '(p6, rc2) ← slotpage_insert p5 (replicate 500 3) 500;
   Some (rc, rc2, bool_decide (page_lookup p6 1 = Some (replicate 2000 2)))) = Some (-1, 2, true).
Proof. vm_compute. reflexivity. Qed.

(** [need = len + SLOT_SIZE] is computed in 16 bits: on every well-formed page
    with at least 3 free bytes, a record of 65532..65535 bytes passes the space
    check and the copy that follows writes outside the page. *)
Theorem slotpage_insert_need_wraps (page rec : bytes) (a : apage) (len : Z) :
  page_refines page a -> blen rec = len -> 65532 <= len < 65536 -> 3 <= ap_free a ->
  slotpage_insert page rec len = None.
Proof.
  intros (fe & slots & R & _ & Hfree) <- Hlen H3. pose proof (pr_fe _ _ _ R) as Hfe.
  pose proof (blen_nonneg slots). pose proof (pr_len _ _ _ R) as HL.
  unfold slotpage_insert. rewrite (free_space_rep _ _ _ R), (pr_header _ _ _ R). simpl.
  unfold PAGE_SIZE, SLOT_SIZE in *.
  assert (Hneed : u16 (blen rec + 4) = blen rec - 65532).
  { unfold u16. change (2 ^ 16) with 65536. symmetry. apply (Z.mod_unique _ _ 1); lia. }
  assert (Hoff : u16 (fe - blen rec) = fe - blen rec + 65536).
  { unfold u16. change (2 ^ 16) with 65536. symmetry. apply (Z.mod_unique _ _ (-1)); lia. }
  rewrite Hneed, Hoff, (proj2 (Z.ltb_ge _ _)) by lia. rewrite mem_read_all. simpl.
  unfold mem_write. assert (in_range page (fe - blen rec + 65536) (blen rec) = false) as ->; [|done].
  destruct (in_range page (fe - blen rec + 65536) (blen rec)) eqn:E; [|done].
  apply in_range_spec in E. lia.
Qed.

Lemma slotpage_insert_need_wraps_witness :
  exists page, slotpage_init (replicate 4096 0) = Some page /\
    slotpage_insert page (replicate (Z.to_nat 65533) 1) 65533 = None.
Proof.
  destruct (slotpage_init_refines (replicate 4096 0)) as (page & Hi & HR); [apply zero_buf_ok..|].
  exists page. split; [exact Hi|].
  apply (slotpage_insert_need_wraps page (replicate (Z.to_nat 65533) 1) (mkAPage [] (PAGE_SIZE - 4)));
    [exact HR|vm_compute; reflexivity|lia|unfold PAGE_SIZE; simpl; lia].
Defined.

(** On an all-zero page (allocated but never initialised) the header reads as
    zero slots and [free_end = 0]: the free space wraps to 65532 and every insert of
    1..65528 bytes passes the space check and writes outside the page. *)
Theorem slotpage_insert_zero_page (rec : bytes) (len : Z) :
  blen rec = len -> 1 <= len <= 65528 ->
  slotpage_free_space (replicate 4096 0) = Some 65532 /\
  slotpage_insert (replicate 4096 0) rec len = None.
Proof.
  intros <- Hlen. assert (Hfs : slotpage_free_space (replicate 4096 0) = Some 65532) by (vm_compute; reflexivity).
  split; [done|].
  assert (Hh : header (replicate 4096 0) = Some (mkHeader 0 0)) by (vm_compute; reflexivity).
  pose proof (proj1 zero_buf_ok) as HL. unfold PAGE_SIZE in HL.
  revert Hfs Hh HL. generalize (replicate 4096 0). intros z Hfs Hh HL.
  unfold slotpage_insert. rewrite Hh, Hfs. cbn -[blen u16]. unfold SLOT_SIZE.
  rewrite (u16_small (blen rec + 4)), (proj2 (Z.ltb_ge _ _)) by lia. rewrite mem_read_all. cbn -[blen u16].
  assert (Hoff : u16 (- blen rec) = 65536 - blen rec).
  { unfold u16. change (2 ^ 16) with 65536. symmetry. apply (Z.mod_unique _ _ (-1)); lia. }
  change (0 - blen rec) with (- blen rec); rewrite Hoff. unfold mem_write. destruct (in_range _ _ (blen rec)) eqn:E; [|done].
  apply in_range_spec in E. lia.
Qed.

Lemma slotpage_insert_zero_page_witness :
  slotpage_free_space (replicate 4096 0) = Some 65532 /\
  slotpage_insert (replicate 4096 0) [1; 2; 3] 3 = None.
Proof. apply slotpage_insert_zero_page; [vm_compute; reflexivity|lia]. Defined.
