(* ===== verification/Pager.v ===== *)
(** * The pager (src/src/pager.c) and the interface it offers to the buffer pool

    An open file is its bytes together with the number of bytes the device can
    hold: [pwrite] past that limit is short or fails, which is how the error paths
    of the pager arise.  [PageStore] is what the buffer pool needs from the layer
    below it; the pager implements it. *)
From S2P Require Import Prelude Page.

(** ** POSIX files *)

Record File := mkFile { content : bytes; limit : Z }.

Definition file_size (f : File) : Z := blen (content f).

Definition zeros (n : Z) : bytes := replicate (Z.to_nat n) 0.

(** [pread]: the bytes actually read (possibly fewer than asked), [None] for a negative offset. *)
Definition pread (f : File) (n off : Z) : option bytes :=
  if off <? 0 then None else Some (take (Z.to_nat n) (drop (Z.to_nat off) (content f))).

(** [pwrite]: the new file and the number of bytes written, or -1.  A gap between
    the end of the file and [off] reads as zeros afterwards. *)
Definition pwrite (f : File) (buf : bytes) (off : Z) : File * Z :=
  if (off <? 0) || (limit f <=? off) then (f, -1)
  else
    let chunk := take (Z.to_nat (limit f - off)) buf in
    let padded := content f ++ zeros (off - file_size f) in
    (mkFile (take (Z.to_nat off) padded ++ chunk ++ drop (Z.to_nat off + length chunk) (content f)) (limit f), blen chunk).

Definition ftruncate (f : File) (len : Z) : File * Z :=
  if (len <? 0) || (limit f <? len) then (f, -1)
  else (mkFile (take (Z.to_nat len) (content f ++ zeros (len - file_size f))) (limit f), 0).

(** ** The pager *)

Definition PAGE_ID_INVALID : Z := u64 (-1).

Record Pager := mkPager { fd : File; num_pages : Z }.

Definition pager_open (f : File) : Pager := mkPager f (u64 (file_size f) / PAGE_SIZE).

(** [(off_t)page_id * PAGE_SIZE]; [None] is signed overflow. *)
Definition page_offset (page_id : Z) : option Z :=
  let o := i64 page_id * PAGE_SIZE in
  if (- 2 ^ 63 <=? o) && (o <? 2 ^ 63) then Some o else None.

(** The buffer after the read and the return code. *)
Definition pager_read (pager : Pager) (page_id : Z) (buf : bytes) : option (bytes * Z) :=
  offset ← page_offset page_id;
  match pread (fd pager) PAGE_SIZE offset with
  | Some bs => buf' ← mem_write buf 0 bs; Some (buf', if blen bs =? PAGE_SIZE then 0 else -1)
  | None => Some (buf, -1)
  end.

Definition pager_write (pager : Pager) (page_id : Z) (buf : bytes) : option (Pager * Z) :=
  offset ← page_offset page_id;
  let '(f, n) := pwrite (fd pager) buf offset in
  Some (mkPager f (num_pages pager), if n =? PAGE_SIZE then 0 else -1).

Definition pager_allocate (pager : Pager) : option (Pager * Z) :=
  let id := num_pages pager in
  '(pager, rc) ← pager_write pager id (zeros PAGE_SIZE);
  if negb (rc =? 0) then Some (pager, PAGE_ID_INVALID)
  else Some (mkPager (fd pager) (u64 (num_pages pager + 1)), id).

Definition pager_truncate (pager : Pager) (n : Z) : option (Pager * Z) :=
  offset ← page_offset n;
  let '(f, rc) := ftruncate (fd pager) offset in
  if rc <? 0 then Some (mkPager f (num_pages pager), -1) else Some (mkPager f n, 0).

(** ** What a buffer pool needs below it *)

Definition page_ok (d : bytes) : Prop := blen d = PAGE_SIZE /\ Forall is_byte d.

Class PageStore (S : Type) := {
  st_read : S -> Z -> option bytes;
  st_write : S -> Z -> bytes -> S * bool;
  st_alloc : S -> S * option Z;
  st_steal : S -> Z -> bytes -> S * bool;
  st_pages : S -> Z;
  st_wf : S -> Prop }.

(** Writing page [p]: no other page changes, and on success [p] holds the new bytes. *)
Definition writes_page {S} `{PageStore S} (s : S) (p : Z) (d : bytes) (r : S * bool) : Prop :=
  st_wf r.1 /\ (forall q, q <> p -> st_read r.1 q = st_read s q) /\ is_Some (st_read r.1 p) /\
  (r.2 = true -> st_read r.1 p = Some d).

Class PageStoreLaws (S : Type) `{PageStore S} := {
  law_pages : forall s p, st_wf s -> is_Some (st_read s p) <-> 0 <= p < st_pages s;
  law_pages_nonneg : forall s, st_wf s -> 0 <= st_pages s;
  law_read : forall s p d, st_wf s -> st_read s p = Some d -> page_ok d;
  law_write : forall s p d, st_wf s -> page_ok d -> is_Some (st_read s p) -> writes_page s p d (st_write s p d);
  law_steal : forall s p d, st_wf s -> page_ok d -> is_Some (st_read s p) -> writes_page s p d (st_steal s p d);
  law_alloc : forall s, st_wf s ->
    match st_alloc s with
    | (s', Some p) => st_wf s' /\ st_read s p = None /\ st_read s' p = Some (zeros PAGE_SIZE) /\
                      forall q, q <> p -> st_read s' q = st_read s q
    | (s', None) => st_wf s' /\ forall q, st_read s' q = st_read s q
    end }.

(** ** The pager as a page store *)

Definition pager_page (s : Pager) (p : Z) : option bytes :=
  if (0 <=? p) && (p <? 2 ^ 64) then
    match pager_read s p (zeros PAGE_SIZE) with
    | Some (d, 0) => Some d
    | _ => None
    end
  else None.

Definition pager_put (s : Pager) (p : Z) (d : bytes) : Pager * bool :=
  match pager_write s p d with
  | Some (s', rc) => (s', rc =? 0)
  | None => (s, false)
  end.

Definition pager_new (s : Pager) : Pager * option Z :=
  match pager_allocate s with
  | Some (s', p) => (s', if p =? PAGE_ID_INVALID then None else Some p)
  | None => (s, None)
  end.

Record pager_wf (s : Pager) : Prop := {
  pw_pages : 0 <= num_pages s * PAGE_SIZE <= file_size (fd s) /\ file_size (fd s) < (num_pages s + 1) * PAGE_SIZE;
  pw_limit : file_size (fd s) <= limit (fd s) <= 2 ^ 62;
  pw_bytes : Forall is_byte (content (fd s)) }.

#[export] Instance Pager_store : PageStore Pager := {
  st_read := pager_page; st_write := pager_put; st_alloc := pager_new;
  st_steal := pager_put; st_pages := num_pages; st_wf := pager_wf }.

Lemma blen_zeros n : 0 <= n -> blen (zeros n) = n.
Proof. intros H. unfold blen, zeros. rewrite length_replicate. lia. Qed.

Lemma zeros_nonpos n : n <= 0 -> zeros n = [].
Proof. intros H. unfold zeros. by replace (Z.to_nat n) with 0%nat by lia. Qed.

Lemma zeros_bytes n : Forall is_byte (zeros n).
Proof. unfold zeros. apply Forall_replicate. unfold is_byte. lia. Qed.

Lemma zeros_page_ok : page_ok (zeros PAGE_SIZE).
Proof. split; [apply blen_zeros; unfold PAGE_SIZE; lia|apply zeros_bytes]. Qed.

Lemma i64_small p : 0 <= p < 2 ^ 63 -> i64 p = p.
Proof. intros. apply signed_small; lia. Qed.

Lemma page_offset_small p : 0 <= p < 2 ^ 51 -> page_offset p = Some (p * PAGE_SIZE).
Proof.
  intros H. unfold page_offset. rewrite i64_small by lia. unfold PAGE_SIZE.
  destruct (Z.leb_spec (- 2 ^ 63) (p * 4096)), (Z.ltb_spec (p * 4096) (2 ^ 63)); try lia. done.
Qed.

Lemma page_offset_big p o : 2 ^ 51 <= p < 2 ^ 64 -> page_offset p = Some o -> o < 0.
Proof.
  intros H. unfold page_offset. destruct (decide (p < 2 ^ 63)) as [Hp|Hp].
  - rewrite i64_small by lia. unfold PAGE_SIZE.
    destruct (Z.leb_spec (- 2 ^ 63) (p * 4096)), (Z.ltb_spec (p * 4096) (2 ^ 63)); try lia; done.
  - assert (Hi : i64 p < 0).
    { unfold i64, signed. rewrite Z.mod_small by lia. destruct (Z.ltb_spec p (2 ^ (64 - 1))); lia. }
    unfold PAGE_SIZE. destruct (_ && _); intros [= <-]; lia.
Qed.

Lemma pread_full f n off : 0 <= off -> 0 <= n -> off + n <= file_size f -> pread f n off = mem_read (content f) off n.
Proof.
  intros H1 H2 H3. unfold pread, mem_read. rewrite (proj2 (Z.ltb_ge _ _)) by lia.
  assert (in_range (content f) off n = true) as -> by (apply in_range_spec; unfold file_size in *; lia). done.
Qed.

Lemma pread_short f n off bs : 0 <= n -> file_size f < off + n -> pread f n off = Some bs -> blen bs < n \/ n = 0.
Proof.
  unfold pread, file_size, blen. intros H1 H2. destruct (Z.ltb_spec off 0); [done|]. intros [= <-].
  rewrite length_take, length_drop. lia.
Qed.

(** A successful page read is the slice of the file at the page's offset. *)
Lemma pager_page_spec s p :
  pager_wf s -> pager_page s p = if 0 <=? p then mem_read (content (fd s)) (p * PAGE_SIZE) PAGE_SIZE else None.
Proof.
  intros [Hp Hl Hb]. unfold pager_page, pager_read. destruct (Z.leb_spec 0 p) as [H0|H0]; [|done]. simpl.
  assert (Hout : file_size (fd s) < p * PAGE_SIZE + PAGE_SIZE -> mem_read (content (fd s)) (p * PAGE_SIZE) PAGE_SIZE = None).
  { intros H. unfold mem_read. destruct (in_range _ _ _) eqn:E; [|done]. apply in_range_spec in E. unfold file_size in H. lia. }
  destruct (decide (p < 2 ^ 51)) as [Hs|Hs].
  - destruct (Z.ltb_spec p (2 ^ 64)); [|lia]. rewrite page_offset_small by lia. simpl.
    destruct (decide (p * PAGE_SIZE + PAGE_SIZE <= file_size (fd s))) as [Hin|Hin].
    + rewrite pread_full by (unfold PAGE_SIZE in *; lia).
      destruct (mem_read_Some (content (fd s)) (p * PAGE_SIZE) PAGE_SIZE) as [bs Hr]; unfold PAGE_SIZE in *; try lia.
      { unfold file_size in Hin. lia. }
      rewrite Hr. pose proof (mem_read_blen _ _ _ _ Hr) as Hbl.
      destruct (mem_write_Some (zeros 4096) 0 bs) as [l' Hw]; [lia|rewrite blen_zeros; lia|].
      rewrite Hw. simpl. rewrite Hbl. simpl. f_equal.
      pose proof (mem_read_write_eq _ _ _ _ Hw) as He. pose proof (mem_write_blen _ _ _ _ Hw) as Hl'.
      rewrite blen_zeros in Hl' by lia. rewrite Hbl, <- Hl', mem_read_all in He. by simplify_eq.
    + rewrite Hout by lia. destruct (pread (fd s) PAGE_SIZE (p * PAGE_SIZE)) as [bs|] eqn:Er; [|done].
      apply pread_short in Er; [|unfold PAGE_SIZE in *; lia..].
      destruct (mem_write _ _ _); simpl; [|done]. destruct (Z.eqb_spec (blen bs) PAGE_SIZE); [unfold PAGE_SIZE in *; lia|done].
  - rewrite Hout by (unfold PAGE_SIZE in *; lia). destruct (Z.ltb_spec p (2 ^ 64)); [|done].
    destruct (page_offset p) as [o|] eqn:Eo; [|done]. apply page_offset_big in Eo; [|lia]. simpl.
    unfold pread. by rewrite (proj2 (Z.ltb_lt o 0)) by lia.
Qed.

Lemma pager_page_Some s p : pager_wf s -> is_Some (pager_page s p) <-> 0 <= p < num_pages s.
Proof.
  intros Hw. rewrite pager_page_spec by done. destruct Hw as [Hp Hl Hb]. unfold file_size in *.
  destruct (Z.leb_spec 0 p); [|split; [intros []|]; done || lia]. split.
  - intros [d (H1 & H2 & H3 & _)%mem_read_inv]. unfold PAGE_SIZE in *. lia.
  - intros H1. apply mem_read_Some; unfold PAGE_SIZE in *; lia.
Qed.

(** Writing an existing page is a write of the file's bytes. *)
Lemma pager_put_spec s p d :
  pager_wf s -> page_ok d -> 0 <= p < num_pages s ->
  exists c, mem_write (content (fd s)) (p * PAGE_SIZE) d = Some c /\
            pager_put s p d = (mkPager (mkFile c (limit (fd s))) (num_pages s), true).
Proof.
  intros [Hp Hl Hb] [Hd Hdb] Hr. unfold file_size in *.
  destruct (mem_write_Some (content (fd s)) (p * PAGE_SIZE) d) as [c Hw]; [unfold PAGE_SIZE in *; lia..|].
  exists c. split; [done|]. unfold pager_put, pager_write. rewrite page_offset_small by (unfold PAGE_SIZE in *; lia). simpl.
  unfold pwrite. destruct (Z.ltb_spec (p * PAGE_SIZE) 0); [unfold PAGE_SIZE in *; lia|].
  destruct (Z.leb_spec (limit (fd s)) (p * PAGE_SIZE)); [unfold PAGE_SIZE in *; lia|]. simpl.
  rewrite (take_ge d) by (unfold blen, PAGE_SIZE in *; lia). rewrite Hd, Z.eqb_refl. do 3 f_equal.
  apply mem_write_inv in Hw as (_ & _ & ->). unfold splice. f_equal.
  rewrite zeros_nonpos by (unfold file_size, PAGE_SIZE in *; lia). by rewrite app_nil_r.
Qed.

Lemma pager_put_writes s p d :
  pager_wf s -> page_ok d -> is_Some (pager_page s p) -> writes_page s p d (pager_put s p d).
Proof.
  intros Hw Hd Hs. apply pager_page_Some in Hs; [|done].
  destruct (pager_put_spec s p d Hw Hd Hs) as (c & Hc & ->). simpl.
  pose proof (mem_write_blen _ _ _ _ Hc) as Hlen.
  assert (Hw' : pager_wf (mkPager (mkFile c (limit (fd s))) (num_pages s))).
  { destruct Hw as [Hp Hl Hb]. unfold file_size in *. split; simpl; unfold file_size; simpl; rewrite ?Hlen; try done.
    eapply mem_write_Forall; [exact Hc|done|apply Hd]. }
  assert (Hp : pager_page (mkPager (mkFile c (limit (fd s))) (num_pages s)) p = Some d).
  { rewrite pager_page_spec by done. rewrite (proj2 (Z.leb_le _ _)) by lia. simpl.
    pose proof (mem_read_write_eq _ _ _ _ Hc) as He. by rewrite (proj1 Hd) in He. }
  split; [done|]. split; [|split; [by exists d|done]].
  intros q Hq. simpl. rewrite !pager_page_spec by done. destruct (0 <=? q); [|done]. simpl.
  eapply mem_read_write_ne; [exact Hc|]. rewrite (proj1 Hd). unfold PAGE_SIZE in *. lia.
Qed.

Lemma zeros_app_drop (c : bytes) n :
  0 <= n <= blen c -> blen c < n + PAGE_SIZE -> drop (Z.to_nat n + Z.to_nat PAGE_SIZE) c = [].
Proof. intros H1 H2. apply drop_ge. unfold blen, PAGE_SIZE in *. lia. Qed.

(** Appending a zero page: the file keeps its whole pages and any torn tail is cut off at the page boundary. *)
Lemma pwrite_tail f n buf :
  0 <= n <= file_size f -> file_size f < n + PAGE_SIZE -> n < limit f -> blen buf = PAGE_SIZE ->
  exists k, pwrite f buf n = (mkFile (take (Z.to_nat n) (content f) ++ take (Z.to_nat k) buf ++
                                      drop (Z.to_nat n + Z.to_nat k) (content f)) (limit f), k) /\
            k = Z.min PAGE_SIZE (limit f - n).
Proof.
  intros H1 H2 H3 Hb. exists (Z.min PAGE_SIZE (limit f - n)). split; [|done]. unfold pwrite.
  destruct (Z.ltb_spec n 0); [lia|]. destruct (Z.leb_spec (limit f) n); [lia|]. simpl.
  assert (Hk : take (Z.to_nat (limit f - n)) buf = take (Z.to_nat (Z.min PAGE_SIZE (limit f - n))) buf).
  { destruct (decide (limit f - n <= PAGE_SIZE)); [by rewrite Z.min_r by lia|].
    rewrite !take_ge; [done|unfold blen, PAGE_SIZE in *; lia..]. }
  assert (Hl : length (take (Z.to_nat (Z.min PAGE_SIZE (limit f - n))) buf) = Z.to_nat (Z.min PAGE_SIZE (limit f - n))).
  { rewrite length_take. unfold blen, PAGE_SIZE in *. lia. }
  rewrite Hk, Hl. unfold blen in *. rewrite Hl. f_equal; [|unfold PAGE_SIZE in *; lia]. f_equal. f_equal.
  rewrite zeros_nonpos by lia. by rewrite app_nil_r.
Qed.

Lemma mem_read_prefix (c x : bytes) n o len :
  0 <= n <= blen c -> o + len <= n -> mem_read (take (Z.to_nat n) c ++ x) o len = mem_read c o len.
Proof.
  intros Hn Ho. assert (Hl : blen (take (Z.to_nat n) c) = n) by (unfold blen in *; rewrite length_take; lia).
  rewrite mem_read_app_l by lia. rewrite <- (take_drop (Z.to_nat n) c) at 2. by rewrite mem_read_app_l by lia.
Qed.

(** Cutting the file at a page below its end. *)
Lemma pager_truncate_spec d n : pager_wf d -> 0 <= n <= num_pages d ->
  exists d', pager_truncate d n = Some (d', 0) /\ pager_wf d' /\ num_pages d' = n /\ forall p, p < n -> pager_page d' p = pager_page d p.
Proof.
  intros Hwf Hn. pose proof Hwf as [Hp Hl Hbytes]. unfold pager_truncate. rewrite page_offset_small by (unfold PAGE_SIZE in *; lia). cbn [mbind option_bind].
  unfold ftruncate. destruct (Z.ltb_spec (n * PAGE_SIZE) 0); [unfold PAGE_SIZE in *; lia|].
  destruct (Z.ltb_spec (limit (fd d)) (n * PAGE_SIZE)); [unfold PAGE_SIZE in *; lia|]. cbn [orb].
  assert (Hz : zeros (n * PAGE_SIZE - file_size (fd d)) = []) by (unfold zeros; replace (Z.to_nat _) with 0%nat by (unfold PAGE_SIZE in *; lia); done).
  rewrite Hz, app_nil_r. set (c := take (Z.to_nat (n * PAGE_SIZE)) (content (fd d))).
  assert (Hc : blen c = n * PAGE_SIZE).
  { unfold c, blen. rewrite length_take. unfold file_size, blen, PAGE_SIZE in *. lia. }
  assert (Hwf' : pager_wf (mkPager (mkFile c (limit (fd d))) n)).
  { split; cbn [num_pages fd content limit]; unfold file_size; cbn [content]; rewrite ?Hc; [unfold PAGE_SIZE; lia|unfold PAGE_SIZE in *; lia|]. unfold c. by apply Forall_take. }
  eexists. split; [reflexivity|]. split; [done|]. split; [done|]. intros p Hpb. rewrite !pager_page_spec by done. destruct (Z.leb_spec 0 p); [|done].
  cbn [fd content]. unfold c. rewrite <- (app_nil_r (take _ _)). apply mem_read_prefix; unfold file_size, PAGE_SIZE in *; lia.
Qed.

Lemma pager_new_spec s :
  pager_wf s ->
  match pager_new s with
  | (s', Some p) => pager_wf s' /\ pager_page s p = None /\ pager_page s' p = Some (zeros PAGE_SIZE) /\
                    p = num_pages s /\ forall q, q <> p -> pager_page s' q = pager_page s q
  | (s', None) => pager_wf s' /\ forall q, pager_page s' q = pager_page s q
  end.
Proof.
  intros Hw. pose proof Hw as [Hp Hl Hb]. set (n := num_pages s * PAGE_SIZE) in *.
  assert (Hn : num_pages s < 2 ^ 51) by (unfold n, PAGE_SIZE in *; lia).
  assert (Hn0 : 0 <= num_pages s) by (unfold n, PAGE_SIZE in *; lia).
  unfold pager_new, pager_allocate, pager_write. rewrite page_offset_small by lia. fold n. simpl.
  destruct (decide (n < limit (fd s))) as [Hlt|Hge].
  2: { unfold pwrite. destruct (Z.ltb_spec n 0); [lia|]. destruct (Z.leb_spec (limit (fd s)) n); [|lia].
       simpl. destruct s. simpl. split; [done|done]. }
  destruct (pwrite_tail (fd s) n (zeros PAGE_SIZE)) as (k & -> & Hk); [lia|unfold n, PAGE_SIZE in *; lia|done|apply zeros_page_ok|].
  simpl. set (c' := take (Z.to_nat n) (content (fd s)) ++ take (Z.to_nat k) (zeros PAGE_SIZE) ++ drop (Z.to_nat n + Z.to_nat k) (content (fd s))).
  assert (Hk0 : 0 < k <= PAGE_SIZE) by (unfold PAGE_SIZE in *; lia).
  assert (Hc' : blen c' = Z.max (file_size (fd s)) (n + k)).
  { unfold c', file_size, blen in *. rewrite !length_app, !length_take, length_drop.
    pose proof (proj1 zeros_page_ok) as Hz. unfold blen in Hz. unfold PAGE_SIZE in *. lia. }
  assert (Hbytes : Forall is_byte c').
  { unfold c'. rewrite !Forall_app. auto using Forall_take, Forall_drop, zeros_bytes. }
  assert (Hsame : forall m q, pager_wf (mkPager (mkFile c' (limit (fd s))) m) -> q <> num_pages s -> m <= num_pages s + 1 ->
     pager_page (mkPager (mkFile c' (limit (fd s))) m) q = pager_page s q).
  { intros m q Hwm Hq Hm. destruct (decide (0 <= q < num_pages s)) as [Hin|Hout].
    - rewrite !pager_page_spec by done. rewrite (proj2 (Z.leb_le _ _)) by lia. simpl.
      apply mem_read_prefix; [unfold file_size in *; lia|unfold n, PAGE_SIZE in *; lia].
    - assert (~ is_Some (pager_page s q)) as H1 by (rewrite pager_page_Some by done; lia).
      assert (~ is_Some (pager_page (mkPager (mkFile c' (limit (fd s))) m) q)) as H2.
      { rewrite pager_page_Some by done. simpl. lia. }
      rewrite <- eq_None_not_Some in H1, H2. congruence. }
  destruct (Z.eqb_spec k PAGE_SIZE) as [Ek|Ek]; simpl.
  - assert (u64 (num_pages s + 1) = num_pages s + 1) as -> by (apply u64_small; lia).
    destruct (Z.eqb_spec (num_pages s) PAGE_ID_INVALID) as [Ei|_]; [change PAGE_ID_INVALID with (2 ^ 64 - 1) in Ei; lia|].
    assert (Hw' : pager_wf (mkPager (mkFile c' (limit (fd s))) (num_pages s + 1))).
    { split; simpl; unfold file_size; simpl; rewrite ?Hc'; unfold n, PAGE_SIZE in *; try done; lia. }
    assert (Hnone : pager_page s (num_pages s) = None).
    { apply eq_None_not_Some. rewrite pager_page_Some by done. lia. }
    split; [done|]. split; [done|]. split; [|split; [done|intros q Hq; apply Hsame; done || lia]].
    rewrite pager_page_spec by done. rewrite (proj2 (Z.leb_le _ _)) by lia. simpl. fold n.
    assert (Ht : blen (take (Z.to_nat n) (content (fd s))) = n).
    { unfold file_size, blen in *. rewrite length_take. lia. }
    unfold c'. rewrite mem_read_app_r by lia. rewrite Ht, Z.sub_diag, Ek.
    rewrite drop_ge by (unfold file_size, blen, PAGE_SIZE in *; lia).
    rewrite app_nil_r, take_ge by (pose proof (proj1 zeros_page_ok); unfold blen in *; lia).
    rewrite <- (proj1 zeros_page_ok) at 2. apply mem_read_all.
  - assert (Hw' : pager_wf (mkPager (mkFile c' (limit (fd s))) (num_pages s))).
    { split; simpl; unfold file_size; simpl; rewrite ?Hc'; unfold n, PAGE_SIZE in *; try done; lia. }
    split; [done|]. intros q. destruct (decide (q = num_pages s)) as [->|Hq]; [|apply Hsame; done || lia].
    assert (pager_page s (num_pages s) = None) as -> by (apply eq_None_not_Some; rewrite pager_page_Some by done; lia).
    apply eq_None_not_Some. rewrite pager_page_Some by done. simpl. lia.
Qed.

#[export] Instance Pager_laws : PageStoreLaws Pager.
Proof.
  split; simpl.
  - intros s p Hw. by apply pager_page_Some.
  - intros s [Hw _ _]. unfold PAGE_SIZE in Hw. lia.
  - intros s p d Hw. rewrite pager_page_spec by done. destruct (0 <=? p); [|done]. intros Hr.
    split; [by eapply mem_read_blen|eapply mem_read_Forall; [exact Hr|apply Hw]].
  - intros. by apply pager_put_writes.
  - intros. by apply pager_put_writes.
  - intros s Hw. pose proof (pager_new_spec s Hw) as H. destruct (pager_new s) as [s' [p|]]; naive_solver.
Qed.

Lemma pager_open_wf f :
  file_size f <= limit f <= 2 ^ 62 -> Forall is_byte (content f) -> pager_wf (pager_open f).
Proof.
  intros Hl Hb. unfold pager_open. split; simpl; try done.
  rewrite u64_small by (unfold file_size in *; pose proof (blen_nonneg (content f)); lia).
  assert (0 <= file_size f) by apply blen_nonneg. unfold PAGE_SIZE.
  pose proof (Z.div_mod (file_size f) 4096). pose proof (Z.mod_pos_bound (file_size f) 4096). lia.
Qed.
