(* ===== verification/BufPool.v ===== *)
(** * The buffer pool (src/src/bufpool.c)

    The pool is written against [PageStore], the operations the pager (with or
    without the write-ahead log's steal handler) offers.  Every critical section of
    the pool's latch is one function: [fetch_begin] runs up to the point where the
    latch is released for the read, [fetch_end] from where it is taken again;
    [fetch_locked] is their sequential composition.  A pointer into a frame's data
    is the index of the frame. *)
From S2P Require Import Prelude Page Pager.

Record Frame := mkFrame {
  page_id : Z;
  valid : bool;
  dirty : bool;
  pin_count : Z;
  io_pending : bool;
  last_used : Z;
  data : bytes }.

(** [steal] says whether a steal handler is registered; [io_in_latch] is the
    process-wide switch [g_io_in_latch]. *)
Record BufferPool := mkPool {
  frames : list Frame;
  clock : Z;
  hits : Z;
  misses : Z;
  no_steal : bool;
  steal : bool;
  io_in_latch : bool }.

Definition empty_frame : Frame := mkFrame 0 false false 0 false 0 (zeros PAGE_SIZE).

Definition bufpool_create (num_frames : nat) : option BufferPool :=
  if (num_frames =? 0)%nat then None
  else Some (mkPool (replicate num_frames empty_frame) 0 0 0 false false false).

Definition with_frames (bp : BufferPool) (fs : list Frame) : BufferPool :=
  mkPool fs (clock bp) (hits bp) (misses bp) (no_steal bp) (steal bp) (io_in_latch bp).
Definition set_frame (bp : BufferPool) (i : nat) (f : Frame) : BufferPool :=
  with_frames bp (<[i := f]> (frames bp)).
Definition tick (bp : BufferPool) : BufferPool :=
  mkPool (frames bp) (u64 (clock bp + 1)) (hits bp) (misses bp) (no_steal bp) (steal bp) (io_in_latch bp).
Definition count_hit (bp : BufferPool) : BufferPool :=
  mkPool (frames bp) (clock bp) (u64 (hits bp + 1)) (misses bp) (no_steal bp) (steal bp) (io_in_latch bp).
Definition count_miss (bp : BufferPool) : BufferPool :=
  mkPool (frames bp) (clock bp) (hits bp) (u64 (misses bp + 1)) (no_steal bp) (steal bp) (io_in_latch bp).

Definition bufpool_set_no_steal (bp : BufferPool) (on : bool) : BufferPool :=
  mkPool (frames bp) (clock bp) (hits bp) (misses bp) on (steal bp) (io_in_latch bp).
Definition bufpool_set_steal_handler (bp : BufferPool) (registered : bool) : BufferPool :=
  mkPool (frames bp) (clock bp) (hits bp) (misses bp) (no_steal bp) registered (io_in_latch bp).
Definition bufpool_set_io_in_latch (bp : BufferPool) (on : bool) : BufferPool :=
  mkPool (frames bp) (clock bp) (hits bp) (misses bp) (no_steal bp) (steal bp) on.
Definition bufpool_hits (bp : BufferPool) : Z := hits bp.
Definition bufpool_misses (bp : BufferPool) : Z := misses bp.

Fixpoint first_index {A} (P : A -> bool) (l : list A) : option nat :=
  match l with
  | [] => None
  | x :: r => if P x then Some 0%nat else S <$> first_index P r
  end.

Definition find_frame (bp : BufferPool) (p : Z) : option nat :=
  first_index (fun f => valid f && (page_id f =? p)) (frames bp).

(** The scan for the victim: the first unpinned frame with the smallest stamp. *)
Definition victim_step (can_steal_dirty : bool) (acc : option (nat * Frame)) (jf : nat * Frame) : option (nat * Frame) :=
  let f := jf.2 in
  if negb (pin_count f =? 0) then acc
  else if dirty f && negb can_steal_dirty then acc
  else match acc with
       | Some (_, v) => if last_used f <? last_used v then Some jf else acc
       | None => Some jf
       end.

Definition find_victim (bp : BufferPool) : option (nat * Frame) :=
  foldl (victim_step (negb (no_steal bp) || steal bp)) None (imap pair (frames bp)).

Definition set_valid (f : Frame) (v : bool) : Frame :=
  mkFrame (page_id f) v (dirty f) (pin_count f) (io_pending f) (last_used f) (data f).
Definition set_dirty (f : Frame) (d : bool) : Frame :=
  mkFrame (page_id f) (valid f) d (pin_count f) (io_pending f) (last_used f) (data f).
Definition set_pin (f : Frame) (n : Z) : Frame :=
  mkFrame (page_id f) (valid f) (dirty f) n (io_pending f) (last_used f) (data f).
Definition set_used (f : Frame) (n : Z) : Frame :=
  mkFrame (page_id f) (valid f) (dirty f) (pin_count f) (io_pending f) n (data f).
Definition set_data (f : Frame) (d : bytes) : Frame :=
  mkFrame (page_id f) (valid f) (dirty f) (pin_count f) (io_pending f) (last_used f) d.

(** Invalidation of the frames a predicate selects. *)
Definition invalidate (sel : Frame -> bool) (reset_pin : bool) (f : Frame) : Frame :=
  if sel f then mkFrame (page_id f) false false (if reset_pin then 0 else pin_count f) (io_pending f) (last_used f) (data f)
  else f.

Definition bufpool_discard_dirty (bp : BufferPool) : BufferPool :=
  with_frames bp (invalidate (fun f => valid f && dirty f) false <$> frames bp).
Definition bufpool_invalidate_all (bp : BufferPool) : BufferPool :=
  with_frames bp (invalidate (fun _ => true) true <$> frames bp).
Definition bufpool_invalidate_from (bp : BufferPool) (first : Z) : BufferPool :=
  with_frames bp (invalidate (fun f => valid f && (first <=? page_id f)) true <$> frames bp).

Definition bufpool_unpin (bp : BufferPool) (p : Z) (is_dirty : bool) : BufferPool :=
  match find_frame bp p ≫= (fun i => (pair i) <$> frames bp !! i) with
  | Some (i, f) =>
      let f := if is_dirty then set_dirty f true else f in
      set_frame bp i (if 0 <? pin_count f then set_pin f (pin_count f - 1) else f)
  | None => bp
  end.

(** What the critical section of a fetch ends with: a pinned frame, a wait for
    another thread's read, NULL, or a reserved frame to be read outside the latch. *)
Inductive fetch_res := FHit (i : nat) | FWait | FFail | FLoad (i : nat).

#[export] Instance fetch_res_eq_dec : EqDecision fetch_res.
Proof. solve_decision. Defined.

Section Store.
Context {S : Type} `{PageStore S}.

Definition pick_frame (bp : BufferPool) (s : S) : BufferPool * S * option nat :=
  match first_index (fun f => negb (valid f)) (frames bp) with
  | Some i => (bp, s, Some i)
  | None =>
      match find_victim bp with
      | None => (bp, s, None)
      | Some (i, v) =>
          if dirty v then
            let '(s', ok) := if no_steal bp && steal bp then st_steal s (page_id v) (data v)
                             else st_write s (page_id v) (data v) in
            if ok then (set_frame bp i (set_valid (set_dirty v false) false), s', Some i) else (bp, s', None)
          else (set_frame bp i (set_valid v false), s, Some i)
      end
  end.

Definition fetch_begin (bp : BufferPool) (s : S) (p : Z) : BufferPool * S * fetch_res :=
  match find_frame bp p ≫= (fun i => (pair i) <$> frames bp !! i) with
  | Some (i, f) =>
      if io_pending f then (bp, s, FWait)
      else let bp := tick (count_hit bp) in
           (set_frame bp i (set_used (set_pin f (pin_count f + 1)) (clock bp)), s, FHit i)
  | None =>
      let '(bp, s, r) := pick_frame (count_miss bp) s in
      match r ≫= (fun i => (pair i) <$> frames bp !! i) with
      | None => (bp, s, FFail)
      | Some (i, f) =>
          if io_in_latch bp then
            match st_read s p with
            | None => (set_frame bp i (set_valid f false), s, FFail)
            | Some d => let bp := tick bp in
                        (set_frame bp i (mkFrame p true false 1 (io_pending f) (clock bp) d), s, FHit i)
            end
          else (set_frame bp i (mkFrame p true false 1 true (last_used f) (data f)), s, FLoad i)
      end
  end.

(** The read outside the latch: into the frame's data, with its success. *)
Definition fetch_read (bp : BufferPool) (s : S) (i : nat) (p : Z) : BufferPool * bool :=
  match frames bp !! i, st_read s p with
  | Some f, Some d => (set_frame bp i (set_data f d), true)
  | _, _ => (bp, false)
  end.

Definition fetch_end (bp : BufferPool) (i : nat) (ok : bool) : BufferPool * option nat :=
  match frames bp !! i with
  | None => (bp, None)
  | Some f =>
      if ok then let bp := tick bp in
                 (set_frame bp i (mkFrame (page_id f) (valid f) (dirty f) (pin_count f) false (clock bp) (data f)), Some i)
      else (set_frame bp i (mkFrame (page_id f) false (dirty f) 0 false (last_used f) (data f)), None)
  end.

(** [bufpool_fetch] when no other thread runs in between ([FWait] would block for ever;
    it does not occur then). *)
Definition fetch_locked (bp : BufferPool) (s : S) (p : Z) : BufferPool * S * option nat :=
  let '(bp, s, r) := fetch_begin bp s p in
  match r with
  | FHit i => (bp, s, Some i)
  | FWait | FFail => (bp, s, None)
  | FLoad i => let '(bp, ok) := fetch_read bp s i p in
               let '(bp, r) := fetch_end bp i ok in (bp, s, r)
  end.

Definition bufpool_fetch (bp : BufferPool) (s : S) (p : Z) : BufferPool * S * option nat := fetch_locked bp s p.

Definition bufpool_new_page (bp : BufferPool) (s : S) : BufferPool * S * option (Z * nat) :=
  let '(s, id) := st_alloc s in
  match id with
  | None => (bp, s, None)
  | Some p => let '(bp, s, r) := fetch_locked bp s p in (bp, s, (pair p) <$> r)
  end.

(** The loop of [bufpool_flush_all] and [bufpool_flush_cb] over the frames: the frames left clean, the
    state of the sink, the number written and whether a write failed. *)
Fixpoint flush_frames {T} (sink : T -> Z -> bytes -> T * bool) (fs : list Frame) (t : T) : list Frame * T * Z * bool :=
  match fs with
  | [] => ([], t, 0, true)
  | f :: r =>
      if valid f && dirty f then
        let '(t, ok) := sink t (page_id f) (data f) in
        if ok then let '(r', t, n, ok) := flush_frames sink r t in (set_dirty f false :: r', t, n + 1, ok)
        else (f :: r, t, 0, false)
      else let '(r', t, n, ok) := flush_frames sink r t in (f :: r', t, n, ok)
  end.

Definition bufpool_flush_all (bp : BufferPool) (s : S) : BufferPool * S * Z :=
  let '(fs, s, _, ok) := flush_frames st_write (frames bp) s in
  (with_frames bp fs, s, if ok then 0 else -1).

Definition bufpool_flush_cb {T} (bp : BufferPool) (sink : T -> Z -> bytes -> T * bool) (t : T) : BufferPool * T * Z :=
  let '(fs, t, n, ok) := flush_frames sink (frames bp) t in
  (with_frames bp fs, t, if ok then n else -1).

Definition bufpool_destroy (bp : BufferPool) (s : S) : S := (bufpool_flush_all bp s).1.2.

(** A caller holding a pinned frame writes the page through the pointer. *)
Definition frame_data (bp : BufferPool) (i : nat) : option bytes := data <$> frames bp !! i.
Definition frame_write (bp : BufferPool) (i : nat) (d : bytes) : BufferPool :=
  match frames bp !! i with Some f => set_frame bp i (set_data f d) | None => bp end.

End Store.

(** ** The page contents a pool presents, and its invariant *)

Lemma first_index_Some {A} (P : A -> bool) (l : list A) i :
  first_index P l = Some i -> exists x, l !! i = Some x /\ P x = true.
Proof.
  revert i. induction l as [|x l IH]; intros i; simpl; [done|]. destruct (P x) eqn:E.
  - intros [= <-]. by exists x.
  - intros (j & Hj & ->)%fmap_Some. by apply IH.
Qed.

Lemma first_index_None {A} (P : A -> bool) (l : list A) :
  first_index P l = None -> forall i x, l !! i = Some x -> P x = false.
Proof.
  induction l as [|y l IH]; simpl; intros Hn i x Hi; [done|]. destruct (P y) eqn:E; [done|].
  apply fmap_None in Hn. destruct i as [|i]; simplify_eq/=; eauto.
Qed.

Section Invariant.
Context {S : Type} `{PageStoreLaws S}.
Implicit Types (fs : list Frame) (s : S) (W : nat -> Prop).

Definition lookup_page fs (p : Z) : option Frame :=
  first_index (fun f => valid f && (page_id f =? p)) fs ≫= (fun i => fs !! i).

(** The contents of page [p]: those of its frame, or of the store when there is none (or it is still being read). *)
Definition page_view fs s (p : Z) : option bytes :=
  match lookup_page fs p with
  | Some f => if io_pending f then st_read s p else Some (data f)
  | None => st_read s p
  end.

Definition view (bp : BufferPool) s (p : Z) : option bytes := page_view (frames bp) s p.

(** [w]: the frame is held by a caller that has written it and not yet said so. *)
Definition frame_ok s (w : Prop) (f : Frame) : Prop :=
  page_ok (data f) /\ 0 <= pin_count f /\
  (io_pending f = true -> valid f = true /\ dirty f = false /\ 0 < pin_count f /\ ~ w) /\
  (w -> valid f = true /\ 0 < pin_count f) /\
  (valid f = true -> io_pending f = false ->
    is_Some (st_read s (page_id f)) /\ (dirty f = false -> ~ w -> st_read s (page_id f) = Some (data f))).

Record pool_inv (W : nat -> Prop) fs s : Prop := {
  pi_wf : st_wf s;
  pi_dist : forall i j f g, fs !! i = Some f -> fs !! j = Some g -> valid f = true -> valid g = true ->
      page_id f = page_id g -> i = j;
  pi_frame : forall i f, fs !! i = Some f -> frame_ok s (W i) f }.

Definition page_free fs (i : nat) (p : Z) : Prop :=
  forall j g, j <> i -> fs !! j = Some g -> valid g = true -> page_id g <> p.

Lemma lookup_page_Some fs p f : lookup_page fs p = Some f -> exists i, fs !! i = Some f /\ valid f = true /\ page_id f = p.
Proof.
  unfold lookup_page. intros (i & Hi & Hf)%bind_Some. exists i. split; [done|].
  apply first_index_Some in Hi as (x & Hx & E). simplify_eq. apply andb_true_iff in E as [? ?%Z.eqb_eq]. done.
Qed.

Lemma lookup_page_None fs p : lookup_page fs p = None -> forall i f, fs !! i = Some f -> valid f = true -> page_id f <> p.
Proof.
  unfold lookup_page. intros Hn i f Hf Hv Hp.
  destruct (first_index _ fs) as [j|] eqn:E.
  - apply first_index_Some in E as (x & Hx & _). simpl in Hn. congruence.
  - pose proof (first_index_None _ _ E _ _ Hf) as E'. cbv beta in E'. rewrite Hv, Hp, Z.eqb_refl in E'. done.
Qed.

Lemma lookup_page_intro W fs s i f : pool_inv W fs s -> fs !! i = Some f -> valid f = true -> lookup_page fs (page_id f) = Some f.
Proof.
  intros Hi Hf Hv. destruct (lookup_page fs (page_id f)) as [g|] eqn:E.
  - apply lookup_page_Some in E as (j & Hj & Hg & Hp). by assert (j = i) as -> by eauto using pi_dist; simplify_eq.
  - by destruct (lookup_page_None _ _ E i f Hf Hv).
Qed.

(** The two ways to compute a view. *)
Lemma view_frame W fs s i f :
  pool_inv W fs s -> fs !! i = Some f -> valid f = true -> io_pending f = false -> page_view fs s (page_id f) = Some (data f).
Proof. intros Hi Hf Hv Hp. unfold page_view. by rewrite (lookup_page_intro W fs s i f), Hp. Qed.

Lemma view_store fs s p :
  (forall i f, fs !! i = Some f -> valid f = true -> page_id f = p -> io_pending f = true) -> page_view fs s p = st_read s p.
Proof.
  intros Hn. unfold page_view. destruct (lookup_page fs p) as [f|] eqn:E; [|done].
  apply lookup_page_Some in E as (i & Hf & Hv & Hp). by rewrite (Hn i f).
Qed.

Lemma pool_inv_free W fs s i f : pool_inv W fs s -> fs !! i = Some f -> valid f = true -> page_free fs i (page_id f).
Proof. intros Hi Hf Hv j g Hj Hg Hvg Hp. destruct Hj. eauto using pi_dist. Qed.

Lemma lookup_page_None_free fs p i : lookup_page fs p = None -> page_free fs i p.
Proof. intros Hn j g _ Hg Hv. eauto using lookup_page_None. Qed.

(** Replacing one frame. *)
Lemma pool_inv_insert (W W' : nat -> Prop) fs s i f f' :
  pool_inv W fs s -> fs !! i = Some f -> frame_ok s (W' i) f' -> (forall j, j <> i -> W' j <-> W j) ->
  (valid f' = true -> page_free fs i (page_id f')) -> pool_inv W' (<[i := f']> fs) s.
Proof.
  intros [Hwf Hd Hf] Hi Hok HW Hfree. pose proof (lookup_lt_Some _ _ _ Hi) as Hlt. split; [done| |].
  - intros j k g h Hj Hk Hg Hh Hp. destruct (decide (j = i)) as [->|Hji], (decide (k = i)) as [->|Hki]; [done|..].
    + rewrite list_lookup_insert_eq in Hj by done. rewrite list_lookup_insert_ne in Hk by done. simplify_eq.
      destruct (Hfree Hg k h Hki Hk Hh). done.
    + rewrite list_lookup_insert_eq in Hk by done. rewrite list_lookup_insert_ne in Hj by done. simplify_eq.
      destruct (Hfree Hh j g Hji Hj Hg). done.
    + rewrite list_lookup_insert_ne in Hj, Hk by done. eauto.
  - intros j g Hj. destruct (decide (j = i)) as [->|Hne].
    { rewrite list_lookup_insert_eq in Hj by done. by simplify_eq. }
    rewrite list_lookup_insert_ne in Hj by done.
    destruct (Hf j g Hj) as (A & B & C & D & E). pose proof (HW j Hne) as Hiff.
    split; [done|]. split; [done|]. split; [naive_solver|]. split; [naive_solver|].
    intros Hv Hp. destruct (E Hv Hp) as [E1 E2]. split; [done|]. naive_solver.
Qed.

Definition live (f : Frame) (p : Z) : Prop := valid f = true /\ io_pending f = false /\ page_id f = p.

Lemma view_cases fs s p :
  (exists i f, fs !! i = Some f /\ live f p /\ page_view fs s p = Some (data f)) \/
  ((forall i f, fs !! i = Some f -> ~ live f p) /\ page_view fs s p = st_read s p) \/
  (exists i f, fs !! i = Some f /\ valid f = true /\ page_id f = p /\ io_pending f = true /\ page_view fs s p = st_read s p).
Proof.
  unfold page_view. destruct (lookup_page fs p) as [f|] eqn:E.
  - apply lookup_page_Some in E as (i & Hf & Hv & Hp). destruct (io_pending f) eqn:Ep; [right; right|left]; by exists i, f.
  - right; left. split; [|done]. intros i f Hf (Hv & _ & Hp). by apply (lookup_page_None _ _ E i f).
Qed.

Lemma view_live W fs s i f p : pool_inv W fs s -> fs !! i = Some f -> live f p -> page_view fs s p = Some (data f).
Proof. intros Hi Hf (Hv & Hp & <-). eauto using view_frame. Qed.

Lemma view_not_live W fs s p :
  pool_inv W fs s -> (forall i f, fs !! i = Some f -> ~ live f p) -> page_view fs s p = st_read s p.
Proof.
  intros Hi Hn. apply view_store. intros i f Hf Hv Hp. destruct (io_pending f) eqn:E; [done|].
  by destruct (Hn i f Hf).
Qed.

Lemma live_dec f p : {live f p} + {~ live f p}.
Proof.
  unfold live. destruct (valid f), (io_pending f), (decide (page_id f = p)); (left; tauto) || (right; naive_solver).
Defined.

(** Every page is presented by exactly one live frame, or by the store. *)
Lemma view_elim W fs s p :
  pool_inv W fs s ->
  (exists i f, fs !! i = Some f /\ live f p) \/ (forall i f, fs !! i = Some f -> ~ live f p).
Proof.
  intros Hi. destruct (view_cases fs s p) as [(i & f & Hf & Hl & _)|[[Hn _]|(i & f & Hf & Hv & Hp & Hpe & _)]]; [left; eauto|by right|].
  right. intros j g Hg (Hvg & Hpg & Hg'). assert (j = i) as -> by (eapply pi_dist; eauto; congruence). congruence.
Qed.

(** Replacing one frame does not change the view when the pages of the old and the
    new frame are presented as before. *)
Lemma view_insert (W W' : nat -> Prop) fs s i f f' :
  pool_inv W fs s -> fs !! i = Some f -> pool_inv W' (<[i := f']> fs) s ->
  (forall p, live f p -> live f' p \/ st_read s p = Some (data f)) ->
  (forall p, live f' p -> page_view fs s p = Some (data f')) ->
  forall p, page_view (<[i := f']> fs) s p = page_view fs s p.
Proof.
  intros Hi Hf Hi' Hold Hnew p. pose proof (lookup_lt_Some _ _ _ Hf) as Hlt.
  assert (Hif : <[i := f']> fs !! i = Some f') by (by apply list_lookup_insert_eq).
  destruct (view_elim _ _ _ p Hi') as [(j & g & Hj & Hl)|Hn].
  - rewrite (view_live _ _ _ _ _ _ Hi' Hj Hl). destruct (decide (j = i)) as [->|Hne].
    + simplify_eq. symmetry. auto.
    + rewrite list_lookup_insert_ne in Hj by done. symmetry. eauto using view_live.
  - rewrite (view_not_live _ _ _ _ Hi' Hn). symmetry.
    destruct (live_dec f p) as [Hl|Hl].
    + rewrite (view_live _ _ _ _ _ _ Hi Hf Hl). destruct (Hold p Hl) as [Hl'|Hr]; [|done]. by destruct (Hn i f' Hif).
    + apply (view_not_live W); [done|]. intros j g Hj Hlg. destruct (decide (j = i)) as [->|Hne]; [by simplify_eq|].
      apply (Hn j g); [by rewrite list_lookup_insert_ne by done|done].
Qed.

(** Writing a live frame back through the store, or failing to. *)
Lemma write_back W fs s i f s' (ok : bool) :
  pool_inv W fs s -> fs !! i = Some f -> valid f = true -> io_pending f = false -> dirty f = true ->
  writes_page s (page_id f) (data f) (s', ok) ->
  pool_inv W (if ok then <[i := set_dirty f false]> fs else fs) s' /\
  forall p, page_view (if ok then <[i := set_dirty f false]> fs else fs) s' p = page_view fs s p.
Proof.
  intros Hi Hf Hv Hpe Hd (Hwf & Hne & Hsome & Hok). simpl in *.
  assert (Hothers : pool_inv W fs s').
  { destruct Hi as [_ Hdi Hfr]. split; [done|done|]. intros j g Hg. pose proof (Hfr j g Hg) as (A & B & C & D & E).
    do 4 (split; [done|]). intros Hvg Hpg. destruct (decide (page_id g = page_id f)) as [Hp|Hp].
    - assert (j = i) as -> by eauto. simplify_eq. split; [done|]. congruence.
    - rewrite Hne by done. auto. }
  assert (Hview : forall p, page_view fs s' p = page_view fs s p).
  { intros p. destruct (view_elim _ _ _ p Hi) as [(j & g & Hj & Hl)|Hn].
    - by rewrite (view_live _ _ _ _ _ _ Hi Hj Hl), (view_live _ _ _ _ _ _ Hothers Hj Hl).
    - rewrite (view_not_live _ _ _ _ Hi Hn), (view_not_live _ _ _ _ Hothers Hn). apply Hne. intros ->. by apply (Hn i f). }
  destruct ok; [|done].
  assert (Hi' : pool_inv W (<[i := set_dirty f false]> fs) s').
  { eapply (pool_inv_insert W W); [exact Hothers|done| |done|].
    - destruct (pi_frame _ _ _ Hi _ _ Hf) as (A & B & C & D & E). split; [done|]. split; [done|]. simpl.
      split; [congruence|]. split; [done|]. intros _ _. rewrite Hok by done. split; [by eexists|done].
    - intros _. simpl. by eapply pool_inv_free. }
  split; [done|]. intros p. rewrite <- Hview. eapply (view_insert W W); eauto. intros q Hl.
  by apply (view_live W fs s' i f).
Qed.

(** ** Choosing a frame *)

Definition evictable (can_steal_dirty : bool) (f : Frame) : Prop :=
  pin_count f = 0 /\ (dirty f = true -> can_steal_dirty = true).

Lemma victim_step_spec b acc j f :
  (evictable b f /\ (acc = None \/ exists i v, acc = Some (i, v) /\ last_used f < last_used v) /\ victim_step b acc (j, f) = Some (j, f)) \/
  ((evictable b f -> exists i v, acc = Some (i, v) /\ last_used v <= last_used f) /\ victim_step b acc (j, f) = acc).
Proof.
  unfold victim_step, evictable. simpl. destruct (Z.eqb_spec (pin_count f) 0) as [E|E]; simpl; [|right; naive_solver].
  destruct (dirty f) eqn:Ed, b; simpl; try (right; split; [|done]; intros [_ Hx]; discriminate (Hx eq_refl)).
  all: destruct acc as [[i v]|]; [|left; split; [by split|]; split; [by left|done]].
  all: destruct (Z.ltb_spec (last_used f) (last_used v)); [left; split; [by split|]; split; [by right; eauto|done]|].
  all: right; split; [by eauto|done].
Qed.

Definition victim_ok (b : bool) (l : list (nat * Frame)) (acc : option (nat * Frame)) : Prop :=
  match acc with
  | Some (i, v) => (i, v) ∈ l /\ evictable b v /\ forall j g, (j, g) ∈ l -> evictable b g -> last_used v <= last_used g
  | None => forall j g, (j, g) ∈ l -> ~ evictable b g
  end.

Lemma victim_fold b l : victim_ok b l (foldl (victim_step b) None l).
Proof.
  induction l as [|[j f] l IH] using rev_ind; [simpl; set_solver|].
  rewrite foldl_app. simpl. set (acc := foldl _ None l) in *. clearbody acc.
  destruct (victim_step_spec b acc j f) as [(He & Ha & ->)|[Ha ->]].
  - split; [set_solver|]. split; [done|]. intros k g [Hk|[= -> ->]%list_elem_of_singleton]%elem_of_app Hg; [|done].
    destruct Ha as [->|(i & v & -> & Hlt)]; [by destruct (IH k g Hk)|]. destruct IH as (_ & _ & Hmin).
    pose proof (Hmin k g Hk Hg). lia.
  - destruct acc as [[i v]|]; simpl in *.
    + destruct IH as (Hin & Hev & Hmin). split; [set_solver|]. split; [done|].
      intros k g [Hk|[= -> ->]%list_elem_of_singleton]%elem_of_app Hg; [eauto|]. destruct (Ha Hg) as (? & ? & [= <- <-] & ?). done.
    + intros k g [Hk|[= -> ->]%list_elem_of_singleton]%elem_of_app Hg; [by eapply IH|]. by destruct (Ha Hg) as (? & ? & [=] & _).
Qed.

Lemma elem_of_imap_pair (fs : list Frame) i f : (i, f) ∈ imap pair fs <-> fs !! i = Some f.
Proof.
  rewrite elem_of_lookup_imap. split; [intros (k & x & [= -> ->] & Hx); done|]. intros Hf. by exists i, f.
Qed.

Lemma find_victim_spec bp :
  match find_victim bp with
  | Some (i, v) => frames bp !! i = Some v /\ evictable (negb (no_steal bp) || steal bp) v /\
      forall j g, frames bp !! j = Some g -> evictable (negb (no_steal bp) || steal bp) g -> last_used v <= last_used g
  | None => forall j g, frames bp !! j = Some g -> ~ evictable (negb (no_steal bp) || steal bp) g
  end.
Proof.
  unfold find_victim. pose proof (victim_fold (negb (no_steal bp) || steal bp) (imap pair (frames bp))) as Hv.
  destruct (foldl _ None _) as [[i v]|]; simpl in Hv.
  - destruct Hv as (Hin & He & Hmin). split; [by apply elem_of_imap_pair|]. split; [done|].
    intros j g Hg. apply (Hmin j g). by apply elem_of_imap_pair.
  - intros j g Hg. apply (Hv j g). by apply elem_of_imap_pair.
Qed.

(** What stays of the frames when a frame is freed: pinned frames are untouched and
    no page appears. *)
Definition keeps (fs fs' : list Frame) : Prop :=
  length fs' = length fs /\
  (forall j g, fs !! j = Some g -> 0 < pin_count g -> fs' !! j = Some g) /\
  (forall j g', fs' !! j = Some g' -> valid g' = true -> fs !! j = Some g').

Lemma keeps_refl fs : keeps fs fs.
Proof. done. Qed.

Lemma keeps_evict fs i v v' : fs !! i = Some v -> pin_count v = 0 -> valid v' = false -> keeps fs (<[i := v']> fs).
Proof.
  intros Hi Hp Hv. split; [by rewrite length_insert|]. split.
  - intros j g Hg Hpin. rewrite list_lookup_insert_ne; [done|]. intros <-. simplify_eq. lia.
  - intros j g Hg Hvg. destruct (decide (j = i)) as [->|Hne].
    + rewrite list_lookup_insert_eq in Hg by (by eapply lookup_lt_Some). congruence.
    + by rewrite list_lookup_insert_ne in Hg by done.
Qed.

(** Dropping a live frame whose contents are on disk. *)
Lemma evict_clean W fs s i v :
  pool_inv W fs s -> fs !! i = Some v -> pin_count v = 0 -> dirty v = false ->
  pool_inv W (<[i := set_valid v false]> fs) s /\
  forall p, page_view (<[i := set_valid v false]> fs) s p = page_view fs s p.
Proof.
  intros Hi Hf Hp Hd. destruct (pi_frame _ _ _ Hi _ _ Hf) as (A & B & C & D & E).
  assert (Hnp : io_pending v = false) by (destruct (io_pending v); [destruct C as (_ & _ & ? & _); lia || done|done]).
  assert (HnW : ~ W i) by (intros HW; destruct (D HW); lia).
  assert (Hi' : pool_inv W (<[i := set_valid v false]> fs) s).
  { eapply (pool_inv_insert W W); [done|done| |done|done].
    split; [done|]. split; [done|]. simpl. split; [congruence|]. split; [done|done]. }
  split; [done|]. eapply (view_insert W W); eauto.
  - intros p (Hv & _ & <-). right. by apply E.
  - intros p (Hv & _). done.
Qed.

Lemma pick_frame_spec W bp s bp' s' r :
  pool_inv W (frames bp) s -> pick_frame bp s = (bp', s', r) ->
  pool_inv W (frames bp') s' /\ (forall p, page_view (frames bp') s' p = page_view (frames bp) s p) /\
  keeps (frames bp) (frames bp') /\ bp' = with_frames bp (frames bp') /\
  (forall i, r = Some i -> exists f, frames bp' !! i = Some f /\ valid f = false).
Proof.
  intros Hi. unfold pick_frame.
  assert (Hbp : bp = with_frames bp (frames bp)) by (by destruct bp).
  destruct (first_index _ (frames bp)) as [i|] eqn:Ef.
  { intros [= <- <- <-]. apply first_index_Some in Ef as (f & Hf & Hv%negb_true_iff).
    do 2 (split; [done|]). split; [apply keeps_refl|]. split; [done|]. intros ? [= <-]. eauto. }
  pose proof (find_victim_spec bp) as Hvic. destruct (find_victim bp) as [[i v]|].
  2: { intros [= <- <- <-]. do 2 (split; [done|]). split; [apply keeps_refl|]. split; [done|done]. }
  destruct Hvic as (Hv & [Hpin _] & _). pose proof (first_index_None _ _ Ef _ _ Hv) as Hval%negb_false_iff.
  pose proof (pi_frame _ _ _ Hi _ _ Hv) as (A & B & C & D & E).
  assert (Hnp : io_pending v = false) by (destruct (io_pending v); [destruct C as (_ & _ & ? & _); lia || done|done]).
  assert (Hev : forall b, exists f, <[i := set_valid (set_dirty v b) false]> (frames bp) !! i = Some f /\ valid f = false).
  { intros b. eexists. split; [apply list_lookup_insert_eq; by eapply lookup_lt_Some|done]. }
  destruct (dirty v) eqn:Ed.
  - destruct (if no_steal bp && steal bp then _ else _) as [s1 ok] eqn:Ew.
    assert (Hw : writes_page s (page_id v) (data v) (s1, ok)).
    { destruct (E Hval Hnp) as [Hs _]. rewrite <- Ew. destruct (no_steal bp && steal bp);
        [apply law_steal|apply law_write]; try done; apply Hi. }
    destruct (write_back _ _ _ _ _ _ _ Hi Hv Hval Hnp Ed Hw) as [Hi1 Hv1].
    destruct ok; intros [= <- <- <-]; [|do 2 (split; [done|]); split; [apply keeps_refl|split; [done|done]]].
    destruct (evict_clean W _ s1 i (set_dirty v false) Hi1) as [Hi2 Hv2]; try done.
    { apply list_lookup_insert_eq. by eapply lookup_lt_Some. }
    rewrite list_insert_insert_eq in Hi2, Hv2. split; [done|].
    split; [intros p; simpl; by rewrite <- Hv1, <- Hv2|]. split; [by eapply keeps_evict|]. split; [done|].
    intros ? [= <-]. apply Hev.
  - intros [= <- <- <-]. destruct (evict_clean W _ s i v Hi Hv Hpin Ed) as [Hi2 Hv2].
    split; [done|]. split; [done|]. split; [by eapply keeps_evict|]. split; [done|]. intros ? [= <-].
    eexists. split; [apply list_lookup_insert_eq; by eapply lookup_lt_Some|done].
Qed.

(** ** Fetching *)

Lemma find_frame_lookup bp p :
  find_frame bp p ≫= (fun i => (pair i) <$> frames bp !! i) =
  first_index (fun f => valid f && (page_id f =? p)) (frames bp) ≫= (fun i => (pair i) <$> frames bp !! i).
Proof. done. Qed.

Lemma find_frame_Some bp p i f :
  find_frame bp p ≫= (fun i => (pair i) <$> frames bp !! i) = Some (i, f) ->
  frames bp !! i = Some f /\ valid f = true /\ page_id f = p.
Proof.
  intros (j & Hj & (g & Hg & [= <- <-])%fmap_Some)%bind_Some. split; [done|].
  apply first_index_Some in Hj as (x & Hx & E). simplify_eq. apply andb_true_iff in E as [? ?%Z.eqb_eq]. done.
Qed.

Lemma find_frame_None bp p :
  find_frame bp p ≫= (fun i => (pair i) <$> frames bp !! i) = None ->
  forall i f, frames bp !! i = Some f -> valid f = true -> page_id f <> p.
Proof.
  intros Hn. apply lookup_page_None. unfold lookup_page. unfold find_frame in Hn.
  destruct (first_index _ (frames bp)) as [i|] eqn:E; [|done]. simpl in *.
  by apply fmap_None in Hn.
Qed.

Lemma find_frame_intro W bp s p i f :
  pool_inv W (frames bp) s -> frames bp !! i = Some f -> valid f = true -> page_id f = p ->
  find_frame bp p ≫= (fun i => (pair i) <$> frames bp !! i) = Some (i, f).
Proof.
  intros Hi Hf Hv Hp. destruct (find_frame bp p ≫= _) as [[j g]|] eqn:E.
  - apply find_frame_Some in E as (Hg & Hvg & Hpg). assert (j = i) as -> by (eapply pi_dist; eauto; congruence). congruence.
  - by destruct (find_frame_None _ _ E i f).
Qed.

(** A frame that may be given to another page. *)
Definition reusable (g : Frame) : Prop := valid g = false \/ pin_count g = 0.

Definition fetch_post fs p (fs' : list Frame) (r : fetch_res) : Prop :=
  length fs' = length fs /\
  (forall j g, fs !! j = Some g -> valid g = true -> 0 < pin_count g -> r <> FHit j -> fs' !! j = Some g) /\
  (forall j g', fs' !! j = Some g' -> valid g' = true -> r <> FHit j -> r <> FLoad j -> fs !! j = Some g') /\
  match r with
  | FHit i => exists g f, fs !! i = Some g /\ fs' !! i = Some f /\ live f p /\
      (live g p /\ pin_count f = pin_count g + 1 /\ data f = data g \/ reusable g /\ pin_count f = 1)
  | FLoad i => exists g f, fs !! i = Some g /\ fs' !! i = Some f /\ reusable g /\
      valid f = true /\ io_pending f = true /\ page_id f = p /\ pin_count f = 1
  | FWait => fs' = fs /\ exists i g, fs !! i = Some g /\ valid g = true /\ page_id g = p /\ io_pending g = true
  | FFail => True
  end.

Lemma hit_inv W fs s i f n :
  pool_inv W fs s -> fs !! i = Some f -> valid f = true -> io_pending f = false ->
  let fs' := <[i := set_used (set_pin f (pin_count f + 1)) n]> fs in
  pool_inv W fs' s /\ forall p, page_view fs' s p = page_view fs s p.
Proof.
  intros Hi Hf Hv Hp fs'. destruct (pi_frame _ _ _ Hi _ _ Hf) as (A & B & C & D & E).
  assert (Hi' : pool_inv W fs' s).
  { eapply (pool_inv_insert W W); [done|done| |done|intros _; exact (pool_inv_free _ _ _ _ _ Hi Hf Hv)].
    split; [done|]. split; [simpl; lia|]. simpl. split; [congruence|].
    split; [intros HW; split; [done|lia]|done]. }
  split; [done|]. eapply (view_insert W W); eauto.
  intros p Hl. by apply (view_live W fs s i f).
Qed.

(** Giving a free frame to page [p], with its contents or pending. *)
Lemma assign_inv W fs s i g f p :
  pool_inv W fs s -> fs !! i = Some g -> valid g = false -> page_free fs i p ->
  page_id f = p -> valid f = true -> dirty f = false -> 0 < pin_count f -> page_ok (data f) ->
  (io_pending f = false -> st_read s p = Some (data f)) ->
  pool_inv W (<[i := f]> fs) s /\ forall q, page_view (<[i := f]> fs) s q = page_view fs s q.
Proof.
  intros Hi Hg Hv Hfree Hp Hvf Hd Hpin Hok Hread. subst p.
  destruct (pi_frame _ _ _ Hi _ _ Hg) as (A & B & C & D & E).
  assert (HnW : ~ W i) by (intros HW; destruct (D HW); congruence).
  assert (Hi' : pool_inv W (<[i := f]> fs) s).
  { eapply (pool_inv_insert W W); [done|done| |done|done].
    split; [done|]. split; [lia|]. split; [done|]. split; [done|].
    intros _ Hpe. rewrite Hread by done. split; [by eexists|done]. }
  split; [done|]. eapply (view_insert W W); eauto.
  - intros q (Hx & _). congruence.
  - intros q (_ & Hpe & <-). rewrite <- Hread by done. apply (view_not_live W); [done|].
    intros j h Hj (Hvh & _ & Hph). destruct (decide (j = i)) as [->|Hne]; [congruence|]. by apply (Hfree j h).
Qed.

Lemma fetch_begin_spec W bp s p bp' s' r :
  pool_inv W (frames bp) s -> fetch_begin bp s p = (bp', s', r) ->
  pool_inv W (frames bp') s' /\ (forall q, page_view (frames bp') s' q = page_view (frames bp) s q) /\
  fetch_post (frames bp) p (frames bp') r.
Proof.
  intros Hi. unfold fetch_begin. destruct (find_frame bp p ≫= _) as [[i f]|] eqn:Ef.
  - apply find_frame_Some in Ef as (Hf & Hv & Hp). destruct (io_pending f) eqn:Ep.
    { intros [= <- <- <-]. split; [done|]. split; [done|]. split; [done|]. split; [done|]. split; [done|]. eauto 10. }
    intros [= <- <- <-]. destruct (hit_inv W (frames bp) s i f (u64 (clock bp + 1)) Hi Hf Hv Ep) as [Hi' Hv'].
    split; [done|]. split; [done|]. simpl. split; [by rewrite length_insert|]. split; [|split].
    + intros j g Hj _ _ Hne. rewrite list_lookup_insert_ne; [done|congruence].
    + intros j g Hj _ Hne _. simpl in Hj. rewrite list_lookup_insert_ne in Hj; [done|congruence].
    + eexists f, _. split; [done|]. split; [apply list_lookup_insert_eq; by eapply lookup_lt_Some|].
      split; [by split|]. left. by split.
  - destruct (pick_frame (count_miss bp) s) as [[bp1 s1] r1] eqn:Epick.
    apply (pick_frame_spec W) in Epick as (Hi1 & Hv1 & (Hlen & Hkeep & Hpages) & Hbp1 & Hr); [|done]. simpl in *.
    assert (Hkeep' : forall j g, frames bp !! j = Some g -> valid g = true -> 0 < pin_count g -> frames bp1 !! j = Some g) by eauto.
    assert (Hnone : fetch_post (frames bp) p (frames bp1) FFail).
    { split; [done|]. split; [intros; by apply Hkeep|]. split; [intros; by apply Hpages|done]. }
    destruct (r1 ≫= _) as [[i f]|] eqn:Er; [|by intros [= <- <- <-]].
    destruct r1 as [i'|]; simpl in Er; [|done]. destruct (Hr i' eq_refl) as (f' & Hf' & Hval).
    rewrite Hf' in Er. simpl in Er. injection Er as -> ->. pose proof (lookup_lt_Some _ _ _ Hf') as Hlt.
    assert (Hfree : page_free (frames bp1) i p).
    { intros j g Hj Hg Hvg Hpg. by apply (find_frame_None _ _ Ef j g); auto. }
    destruct (lookup_lt_is_Some_2 (frames bp) i) as [g0 Hg0]; [by rewrite <- Hlen|].
    assert (Hreuse : reusable g0).
    { unfold reusable. destruct (valid g0) eqn:Ev; [right|by left].
      destruct (pi_frame _ _ _ Hi _ _ Hg0) as (_ & B & _). destruct (decide (pin_count g0 = 0)); [done|].
      rewrite (Hkeep i g0 Hg0) in Hf' by lia. congruence. }
    assert (Hnoti : forall j g, frames bp !! j = Some g -> valid g = true -> 0 < pin_count g -> j <> i).
    { intros j g Hg Hvg Hpg ->. simplify_eq. unfold reusable in Hreuse. destruct Hreuse; [congruence|lia]. }
    assert (Hothers : forall h j g, frames bp !! j = Some g -> valid g = true -> 0 < pin_count g ->
              <[i := h]> (frames bp1) !! j = Some g).
    { intros h j g Hg Hvg Hpg. rewrite list_lookup_insert_ne by (by eapply not_eq_sym, Hnoti). eauto. }
    assert (Hback : forall h j g, <[i := h]> (frames bp1) !! j = Some g -> valid g = true -> j <> i -> frames bp !! j = Some g).
    { intros h j g Hg Hvg Hji. rewrite list_lookup_insert_ne in Hg by done. eauto. }
    destruct (pi_frame _ _ _ Hi1 _ _ Hf') as (A & B & C & D & E).
    destruct (io_in_latch bp1).
    + destruct (st_read s1 p) as [d|] eqn:Erd; intros [= <- <- <-]; simpl.
      * destruct (assign_inv W (frames bp1) s1 i f (mkFrame p true false 1 (io_pending f) (u64 (clock bp1 + 1)) d) p) as [Hi2 Hv2];
          try done; [by eapply law_read; [apply Hi1|]|].
        split; [done|]. split; [intros q; by rewrite Hv2|]. split; [by rewrite length_insert|].
        split; [eauto|]. split; [intros j g' Hj Hvj Hne _; eapply Hback; [exact Hj|done|congruence]|].
        eexists g0, _. split; [done|]. split; [by apply list_lookup_insert_eq|].
        split; [|by right]. split; [done|]. split; [|done]. simpl. destruct (io_pending f); [destruct (C eq_refl); congruence|done].
      * assert (set_valid f false = f) as Hsv by (unfold set_valid; rewrite <- Hval; by destruct f).
        rewrite Hsv, list_insert_id by done. done.
    + intros [= <- <- <-]. simpl.
      destruct (assign_inv W (frames bp1) s1 i f (mkFrame p true false 1 true (last_used f) (data f)) p) as [Hi2 Hv2]; try done.
      split; [done|]. split; [intros q; by rewrite Hv2|]. split; [by rewrite length_insert|].
      split; [eauto|]. split; [intros j g' Hj Hvj _ Hne; eapply Hback; [exact Hj|done|congruence]|].
      eexists g0, _. split; [done|]. split; [by apply list_lookup_insert_eq|]. done.
Qed.

(** A change to a pending frame that keeps it pending is invisible. *)
Lemma pending_update W fs s i f d :
  pool_inv W fs s -> fs !! i = Some f -> io_pending f = true -> page_ok d ->
  pool_inv W (<[i := set_data f d]> fs) s /\ forall p, page_view (<[i := set_data f d]> fs) s p = page_view fs s p.
Proof.
  intros Hi Hf Hp Hd. destruct (pi_frame _ _ _ Hi _ _ Hf) as (A & B & C & D & E).
  assert (Hi' : pool_inv W (<[i := set_data f d]> fs) s).
  { eapply (pool_inv_insert W W); [done|done| |done|intros Hv; exact (pool_inv_free _ _ _ _ _ Hi Hf Hv)].
    split; [done|]. split; [done|]. split; [done|]. split; [done|]. simpl. congruence. }
  split; [done|]. eapply (view_insert W W); eauto; intros p (_ & Hx & _); simpl in Hx; congruence.
Qed.

Lemma fetch_end_spec W bp s i f ok bp' r :
  pool_inv W (frames bp) s -> frames bp !! i = Some f -> io_pending f = true ->
  (ok = true -> st_read s (page_id f) = Some (data f)) -> fetch_end bp i ok = (bp', r) ->
  pool_inv W (frames bp') s /\ (forall p, page_view (frames bp') s p = page_view (frames bp) s p) /\
  exists f', frames bp' = <[i := f']> (frames bp) /\ io_pending f' = false /\
    (if ok then r = Some i /\ live f' (page_id f) /\ pin_count f' = pin_count f /\ data f' = data f
     else r = None /\ valid f' = false).
Proof.
  intros Hi Hf Hp Hok. unfold fetch_end. rewrite Hf.
  destruct (pi_frame _ _ _ Hi _ _ Hf) as (A & B & C & D & E). destruct (C Hp) as (Hv & Hd & Hpin & HnW).
  destruct ok; intros [= <- <-]; simpl.
  - set (f' := mkFrame _ _ _ _ _ _ _).
    assert (Hi' : pool_inv W (<[i := f']> (frames bp)) s).
    { eapply (pool_inv_insert W W); [done|done| |done|intros _; exact (pool_inv_free _ _ _ _ _ Hi Hf Hv)].
      split; [done|]. split; [done|]. split; [done|]. split; [done|]. intros _ _. simpl. rewrite Hok by done. split; [by eexists|done]. }
    split; [done|]. split; [|by exists f'].
    eapply (view_insert W W); eauto; intros p (H1 & H2 & H3); [congruence|]. simpl in H3. subst p.
    change (data f') with (data f). rewrite <- Hok by done. apply view_store. intros j g Hg Hvg Hpg.
    assert (j = i) as -> by eauto using pi_dist. congruence.
  - set (f' := mkFrame _ _ _ _ _ _ _).
    assert (Hi' : pool_inv W (<[i := f']> (frames bp)) s).
    { eapply (pool_inv_insert W W); [done|done| |done|done].
      split; [done|]. split; [simpl; lia|]. split; [done|]. split; [done|done]. }
    split; [done|]. split; [|by exists f'].
    eapply (view_insert W W); eauto; intros p (H1 & H2 & H3); simpl in *; congruence.
Qed.

(** No read is in progress. *)
Definition quiet fs : Prop := forall i f, fs !! i = Some f -> io_pending f = false.

Lemma quiet_insert fs i f : quiet fs -> io_pending f = false -> quiet (<[i := f]> fs).
Proof.
  intros Hq Hf j g Hj. destruct (decide (j = i)) as [->|Hne]; [|rewrite list_lookup_insert_ne in Hj by done; eauto].
  destruct (decide (i < length fs)%nat).
  - rewrite list_lookup_insert_eq in Hj by done. congruence.
  - rewrite list_insert_ge in Hj by lia. eauto.
Qed.

Lemma pick_frame_quiet bp s bp' s' r : quiet (frames bp) -> pick_frame bp s = (bp', s', r) -> quiet (frames bp').
Proof.
  intros Hq. unfold pick_frame. pose proof (find_victim_spec bp) as Hv.
  repeat case_match; intros; simplify_eq; simpl; try done; apply quiet_insert; try done; simpl; by eapply Hq, Hv.
Qed.

(** A fetch by the only running thread: the frame returned holds the page, is
    pinned, and no page's contents change, whether it succeeds or not. *)
Lemma fetch_locked_spec W bp s p bp' s' r :
  pool_inv W (frames bp) s -> quiet (frames bp) -> fetch_locked bp s p = (bp', s', r) ->
  pool_inv W (frames bp') s' /\ quiet (frames bp') /\ length (frames bp') = length (frames bp) /\
  (forall q, page_view (frames bp') s' q = page_view (frames bp) s q) /\
  (forall i, r = Some i -> exists f, frames bp' !! i = Some f /\ live f p /\ 0 < pin_count f /\
                           page_view (frames bp) s p = Some (data f)).
Proof.
  intros Hi Hq. unfold fetch_locked. destruct (fetch_begin bp s p) as [[bp1 s1] r1] eqn:Eb.
  assert (Hq1 : match r1 with FLoad i => forall j h, j <> i -> frames bp1 !! j = Some h -> io_pending h = false | _ => quiet (frames bp1) end).
  { clear -H0 Hq Eb. unfold fetch_begin in Eb. destruct (find_frame bp p ≫= _) as [[i f]|] eqn:Ef.
    - apply find_frame_Some in Ef as (Hf & _). rewrite (Hq _ _ Hf) in Eb. simplify_eq. simpl.
      apply quiet_insert; [done|]. simpl. eauto.
    - destruct (pick_frame _ _) as [[b2 s2] r2] eqn:Ep. apply pick_frame_quiet in Ep; [|done].
      destruct (r2 ≫= _) as [[i f]|] eqn:Er; [|by simplify_eq].
      apply bind_Some in Er as (k & -> & (g & Hg & [= <- <-])%fmap_Some). pose proof (Ep _ _ Hg) as Hgp.
      destruct (io_in_latch b2); [destruct (st_read s2 p)|]; simplify_eq; try done; try by apply quiet_insert.
      intros j h Hj Hh. simpl in Hh. rewrite list_lookup_insert_ne in Hh by done. eauto. }
  pose proof (fetch_begin_spec _ _ _ _ _ _ _ Hi Eb) as (Hi1 & Hv1 & Hlen1 & _ & _ & Hpost).
  destruct r1 as [i| | |i].
  - intros [= <- <- <-]. do 4 (split; [done|]). intros ? [= <-]. destruct Hpost as (g & f & Hg & Hf & Hl & Hc).
    exists f. split; [done|]. split; [done|]. split; [|rewrite <- Hv1; by eapply view_live].
    destruct (pi_frame _ _ _ Hi _ _ Hg) as (_ & B & _). destruct Hc as [(_ & -> & _)|[_ ->]]; lia.
  - intros [= <- <- <-]. destruct Hpost as (_ & i & g & Hg & _ & _ & Hp). by rewrite (Hq _ _ Hg) in Hp.
  - intros [= <- <- <-]. done.
  - destruct Hpost as (g & f & Hg & Hf & Hre & Hvf & Hpf & Hpid & Hpin).
    destruct (fetch_read bp1 s1 i p) as [bp2 ok] eqn:Erd. destruct (fetch_end bp2 i ok) as [bp3 r3] eqn:Ee.
    intros [= <- <- <-].
    assert (Hrd : exists f2, frames bp2 = <[i := f2]> (frames bp1) /\ io_pending f2 = true /\ page_id f2 = p /\ pin_count f2 = 1 /\
       pool_inv W (frames bp2) s1 /\ (forall q, page_view (frames bp2) s1 q = page_view (frames bp1) s1 q) /\
       (ok = true -> st_read s1 p = Some (data f2))).
    { unfold fetch_read in Erd. rewrite Hf in Erd. destruct (st_read s1 p) as [d|] eqn:Es; simplify_eq/=.
      - destruct (pending_update W _ s1 i f d Hi1 Hf Hpf) as [Hi2 Hv2]; [by eapply law_read; [apply Hi1|]|]. by exists (set_data f d).
      - exists f. rewrite list_insert_id by done. done. }
    destruct Hrd as (f2 & Hf2 & Hpe2 & Hp2 & Hpin2 & Hi2 & Hv2 & Hok2).
    assert (Hl2 : frames bp2 !! i = Some f2) by (rewrite Hf2; apply list_lookup_insert_eq; by eapply lookup_lt_Some).
    destruct (fetch_end_spec W bp2 s1 i f2 ok bp3 r3 Hi2 Hl2 Hpe2) as (Hi3 & Hv3 & f3 & Hf3 & Hpe3 & Hcase); [by rewrite Hp2|done|].
    split; [done|]. split.
    { rewrite Hf3, Hf2, list_insert_insert_eq. intros j h Hj. destruct (decide (j = i)) as [->|Hne].
      - rewrite list_lookup_insert_eq in Hj by (by eapply lookup_lt_Some). congruence.
      - rewrite list_lookup_insert_ne in Hj by done. eauto. }
    split; [by rewrite Hf3, Hf2, !length_insert|].
    split; [intros q; by rewrite Hv3, Hv2, Hv1|]. intros k ->. destruct ok; [|naive_solver].
    destruct Hcase as ([= ->] & Hl3 & Hpin3 & Hd3). exists f3. rewrite Hp2 in Hl3.
    split; [rewrite Hf3; apply list_lookup_insert_eq; by eapply lookup_lt_Some|]. split; [done|]. split; [lia|].
    rewrite <- Hv1, <- Hv2, <- Hv3. eapply view_live; [exact Hi3| |done].
    rewrite Hf3; apply list_lookup_insert_eq; by eapply lookup_lt_Some.
Qed.

(** ** Using a pinned page *)

(** Writing through the pointer of a pinned frame changes that page only. *)
Lemma frame_write_spec (W W' : nat -> Prop) bp s i f p d :
  pool_inv W (frames bp) s -> frames bp !! i = Some f -> live f p -> 0 < pin_count f -> page_ok d ->
  W' i -> (forall j, j <> i -> W' j <-> W j) ->
  pool_inv W' (frames (frame_write bp i d)) s /\
  forall q, page_view (frames (frame_write bp i d)) s q = if decide (q = p) then Some d else page_view (frames bp) s q.
Proof.
  intros Hi Hf Hl Hpin Hd HW HW'. unfold frame_write. rewrite Hf. simpl. pose proof Hl as (Hv & Hp & Hpid).
  destruct (pi_frame _ _ _ Hi _ _ Hf) as (A & B & C & D & E). destruct (E Hv Hp) as [Hs _].
  assert (Hi' : pool_inv W' (<[i := set_data f d]> (frames bp)) s).
  { eapply (pool_inv_insert W W'); [done|done| |done|intros _; exact (pool_inv_free _ _ _ _ _ Hi Hf Hv)].
    split; [done|]. split; [done|]. simpl. split; [congruence|]. split; [done|]. intros _ _. split; [done|]. done. }
  assert (Hif : <[i := set_data f d]> (frames bp) !! i = Some (set_data f d)) by (apply list_lookup_insert_eq; by eapply lookup_lt_Some).
  split; [done|]. intros q. case_decide as Hq.
  { subst q. by rewrite (view_live _ _ _ _ _ p Hi' Hif). }
  destruct (view_elim _ _ _ q Hi) as [(j & g & Hj & Hlg)|Hn].
  - rewrite (view_live _ _ _ _ _ _ Hi Hj Hlg). assert (j <> i).
    { intros ->. simplify_eq. unfold live in Hlg. naive_solver. }
    eapply view_live; [exact Hi'| |done]. by rewrite list_lookup_insert_ne by done.
  - rewrite (view_not_live _ _ _ _ Hi Hn). apply (view_not_live W'); [done|]. intros j g Hj Hlg.
    destruct (decide (j = i)) as [->|Hne]; [simplify_eq; unfold live in Hlg; simpl in Hlg; naive_solver|].
    rewrite list_lookup_insert_ne in Hj by done. by apply (Hn j g).
Qed.

(** Unpinning: a caller that wrote the page must say so. *)
Lemma bufpool_unpin_spec (W W' : nat -> Prop) bp s i f p (is_dirty : bool) :
  pool_inv W (frames bp) s -> frames bp !! i = Some f -> live f p -> 0 < pin_count f ->
  (W' i -> 1 < pin_count f) -> (is_dirty = false -> ~ W' i -> ~ W i) -> (forall j, j <> i -> W' j <-> W j) ->
  exists f', frames (bufpool_unpin bp p is_dirty) = <[i := f']> (frames bp) /\
    live f' p /\ pin_count f' = pin_count f - 1 /\ data f' = data f /\
    pool_inv W' (frames (bufpool_unpin bp p is_dirty)) s /\
    forall q, page_view (frames (bufpool_unpin bp p is_dirty)) s q = page_view (frames bp) s q.
Proof.
  intros Hi Hf Hl Hpin HW Hwr HW'. pose proof Hl as (Hv & Hp & Hpid). unfold bufpool_unpin.
  rewrite (find_frame_intro W bp s p i f) by done.
  destruct (pi_frame _ _ _ Hi _ _ Hf) as (A & B & C & D & E). destruct (E Hv Hp) as [Hs Hclean].
  set (f1 := if is_dirty then set_dirty f true else f).
  assert (Hf1 : pin_count f1 = pin_count f /\ data f1 = data f /\ live f1 p) by (unfold f1, live; destruct is_dirty; done).
  destruct Hf1 as (Hp1 & Hd1 & Hl1). rewrite Hp1. rewrite (proj2 (Z.ltb_lt _ _)) by done. simpl.
  eexists. split; [done|]. split; [done|]. split; [done|]. split; [done|].
  assert (Hi' : pool_inv W' (<[i := set_pin f1 (pin_count f - 1)]> (frames bp)) s).
  { eapply (pool_inv_insert W W'); [done|done| |done|].
    - destruct Hl1 as (Hv1 & Hpe1 & Hpi1). split; [by simpl; rewrite Hd1|]. split; [simpl; lia|]. simpl. rewrite Hpe1, Hv1, Hpi1, Hd1.
      split; [done|]. split; [intros Hw; specialize (HW Hw); split; [done|lia]|]. intros _ _. rewrite <- Hpid. split; [done|].
      unfold f1. destruct is_dirty; simpl; [done|]. auto.
    - intros _. simpl. rewrite (proj2 (proj2 Hl1)), <- Hpid. exact (pool_inv_free _ _ _ _ _ Hi Hf Hv). }
  split; [done|]. eapply (view_insert W W'); eauto.
  - intros q Hlq. left. unfold live in *. simpl. naive_solver.
  - intros q Hlq. simpl. rewrite Hd1. apply (view_live W _ _ i f); [done|done|]. unfold live in *. simpl in *. naive_solver.
Qed.

(** ** Flushing *)

Definition cleaned (f f' : Frame) : Prop := f' = f \/ f' = set_dirty f false.

Lemma flush_frames_spec W r : forall pre s r' s' n ok,
  pool_inv W (pre ++ r) s -> flush_frames st_write r s = (r', s', n, ok) ->
  pool_inv W (pre ++ r') s' /\ (forall p, page_view (pre ++ r') s' p = page_view (pre ++ r) s p) /\
  Forall2 cleaned r r' /\ (ok = true -> Forall (fun f => valid f && dirty f = false) r').
Proof.
  induction r as [|f r IH]; intros pre s r' s' n ok Hi; simpl.
  { intros [= <- <- <- <-]. split; [done|]. split; [done|]. split; [constructor|constructor]. }
  assert (Happ : forall x y, pre ++ x :: y = (pre ++ [x]) ++ y) by (intros; by rewrite <- app_assoc).
  assert (Hf : (pre ++ f :: r) !! length pre = Some f) by (by apply list_lookup_middle).
  destruct (valid f && dirty f) eqn:E.
  - apply andb_true_iff in E as [Hv Hd]. destruct (st_write s (page_id f) (data f)) as [s1 ok1] eqn:Ew.
    destruct (pi_frame _ _ _ Hi _ _ Hf) as (A & B & C & D & E').
    assert (Hnp : io_pending f = false) by (destruct (io_pending f); [destruct (C eq_refl) as (_ & ? & _); congruence|done]).
    assert (Hw : writes_page s (page_id f) (data f) (s1, ok1)).
    { rewrite <- Ew. apply law_write; [apply Hi|done|]. by apply E'. }
    destruct (write_back _ _ _ _ _ _ _ Hi Hf Hv Hnp Hd Hw) as [Hi1 Hv1]. destruct ok1.
    + rewrite insert_app_r_alt, Nat.sub_diag in Hi1, Hv1 by done. simpl in Hi1, Hv1.
      destruct (flush_frames st_write r s1) as [[[r1 s2] n2] ok2] eqn:Er. intros [= <- <- <- <-].
      rewrite Happ in Hi1. destruct (IH _ _ _ _ _ _ Hi1 Er) as (Hi2 & Hv2 & Hf2 & Hok2). rewrite <- Happ in Hi2.
      split; [done|]. split; [intros p; by rewrite Happ, Hv2, <- Happ, Hv1|].
      split; [constructor; [by right|done]|]. intros Ho. constructor; [simpl; by rewrite andb_false_r|auto].
    + intros [= <- <- <- <-]. split; [done|]. split; [done|]. split; [|done].
      constructor; [by left|]. apply Forall_Forall2_diag, Forall_true. by left.
  - destruct (flush_frames st_write r s) as [[[r1 s2] n2] ok2] eqn:Er. intros [= <- <- <- <-].
    rewrite Happ in Hi. destruct (IH _ _ _ _ _ _ Hi Er) as (Hi2 & Hv2 & Hf2 & Hok2). rewrite <- Happ in Hi2.
    split; [done|]. split; [intros p; by rewrite (Happ f r1), Hv2, <- Happ|].
    split; [constructor; [by left|done]|]. intros Ho. constructor; [done|auto].
Qed.

(** ** Pins of a pool between operations *)

Definition pins_zero_but fs (ex : option nat) : Prop :=
  forall j g, fs !! j = Some g -> Some j <> ex -> pin_count g = 0.

Lemma pins_insert fs i f (ex : option nat) :
  pins_zero_but fs None -> (Some i <> ex -> pin_count f = 0) -> pins_zero_but (<[i := f]> fs) ex.
Proof.
  intros Hz Hf j g Hj Hne. destruct (decide (j = i)) as [->|Hji].
  - destruct (decide (i < length fs)%nat).
    + rewrite list_lookup_insert_eq in Hj by done. simplify_eq. auto.
    + rewrite list_insert_ge in Hj by lia. by eapply Hz.
  - rewrite list_lookup_insert_ne in Hj by done. by eapply Hz.
Qed.

Lemma pins_weaken fs ex : pins_zero_but fs None -> pins_zero_but fs ex.
Proof. intros Hz j g Hg _. by eapply Hz. Qed.

Lemma pick_frame_pins bp s bp' s' r :
  pins_zero_but (frames bp) None -> pick_frame bp s = (bp', s', r) -> pins_zero_but (frames bp') None.
Proof.
  intros Hz. unfold pick_frame. pose proof (find_victim_spec bp) as Hv.
  repeat case_match; intros; simplify_eq; simpl; try done; apply pins_insert; try done; intros _; simpl; by eapply Hz; [apply Hv|].
Qed.

Lemma fetch_locked_pins bp s p bp' s' r :
  pins_zero_but (frames bp) None -> fetch_locked bp s p = (bp', s', r) ->
  pins_zero_but (frames bp') r /\ (forall i f, r = Some i -> frames bp' !! i = Some f -> pin_count f = 1).
Proof.
  intros Hz. unfold fetch_locked, fetch_begin. destruct (find_frame bp p ≫= _) as [[i f]|] eqn:Ef.
  - apply find_frame_Some in Ef as (Hf & _). destruct (io_pending f); intros [= <- <- <-]; [done|].
    pose proof (Hz _ _ Hf ltac:(done)) as Hp. split; [apply pins_insert; [done|congruence]|].
    intros ? g [= <-]. simpl. rewrite list_lookup_insert_eq by (by eapply lookup_lt_Some). intros [= <-]. simpl. lia.
  - destruct (pick_frame _ _) as [[b2 s2] r2] eqn:Ep. apply pick_frame_pins in Ep; [|done].
    destruct (r2 ≫= _) as [[i f]|] eqn:Er; [|intros [= <- <- <-]; done].
    apply bind_Some in Er as (k & -> & (g & Hg & [= <- <-])%fmap_Some). pose proof (Ep _ _ Hg ltac:(done)) as Hgp.
    pose proof (lookup_lt_Some _ _ _ Hg) as Hlt.
    destruct (io_in_latch b2); [destruct (st_read s2 p)|]; simpl.
    + intros [= <- <- <-]. split; [apply pins_insert; [done|congruence]|].
      intros ? h [= <-]. simpl. rewrite list_lookup_insert_eq by done. by intros [= <-].
    + intros [= <- <- <-]. split; [by apply pins_insert|done].
    + unfold fetch_read, fetch_end. simpl. rewrite list_lookup_insert_eq by done.
      destruct (st_read s2 p) as [d|]; simpl; rewrite list_lookup_insert_eq by (by rewrite ?length_insert); simpl;
        intros [= <- <- <-]; simpl; rewrite ?list_insert_insert_eq.
      * split; [apply pins_insert; [done|congruence]|]. intros ? h [= <-]. rewrite list_lookup_insert_eq by done. by intros [= <-].
      * split; [by apply pins_insert|done].
Qed.

(** ** Clients: one access at a time *)

Definition nobody : nat -> Prop := fun _ => False.

Record idle (bp : BufferPool) s : Prop := {
  id_inv : pool_inv nobody (frames bp) s;
  id_quiet : quiet (frames bp);
  id_pins : pins_zero_but (frames bp) None;
  id_frames : frames bp <> [] }.

Definition client_read (bp : BufferPool) s (p : Z) : BufferPool * S * option bytes :=
  let '(bp, s, r) := bufpool_fetch bp s p in
  match r with
  | Some i => (bufpool_unpin bp p false, s, frame_data bp i)
  | None => (bp, s, None)
  end.

Definition client_update (bp : BufferPool) s (p : Z) (d : bytes) : BufferPool * S * bool :=
  let '(bp, s, r) := bufpool_fetch bp s p in
  match r with
  | Some i => (bufpool_unpin (frame_write bp i d) p true, s, true)
  | None => (bp, s, false)
  end.

Definition client_new (bp : BufferPool) s : BufferPool * S * option Z :=
  let '(bp, s, r) := bufpool_new_page bp s in
  match r with
  | Some (p, _) => (bufpool_unpin bp p false, s, Some p)
  | None => (bp, s, None)
  end.

Lemma unpin_idle bp s i f p d :
  pool_inv nobody (frames bp) s -> quiet (frames bp) -> pins_zero_but (frames bp) (Some i) ->
  frames bp !! i = Some f -> live f p -> pin_count f = 1 ->
  idle (bufpool_unpin bp p d) s /\ forall q, view (bufpool_unpin bp p d) s q = view bp s q.
Proof.
  intros Hi Hq Hz Hf Hl Hpin.
  destruct (bufpool_unpin_spec nobody nobody bp s i f p d) as (f' & Hfs & Hl' & Hp' & _ & Hi' & Hv'); try done; try lia.
  split; [|done]. rewrite Hpin in Hp'. split; [done|rewrite Hfs; apply quiet_insert; [done|apply Hl']| |].
  - rewrite Hfs. intros j g Hj _. destruct (decide (j = i)) as [->|Hne].
    + rewrite list_lookup_insert_eq in Hj by (by eapply lookup_lt_Some). simplify_eq. done.
    + rewrite list_lookup_insert_ne in Hj by done. apply (Hz j g); congruence.
  - rewrite Hfs. intros Hnil. apply (f_equal length) in Hnil. rewrite length_insert in Hnil. simpl in Hnil.
    apply lookup_lt_Some in Hf. lia.
Qed.

Lemma fetch_idle bp s p bp' s' r :
  idle bp s -> fetch_locked bp s p = (bp', s', r) ->
  (forall q, view bp' s' q = view bp s q) /\ pool_inv nobody (frames bp') s' /\
  match r with
  | None => idle bp' s'
  | Some i => quiet (frames bp') /\ pins_zero_but (frames bp') (Some i) /\
      exists f, frames bp' !! i = Some f /\ live f p /\ pin_count f = 1 /\ view bp s p = Some (data f)
  end.
Proof.
  intros [Hi Hq Hz Hne] Ef. pose proof (fetch_locked_spec _ _ _ _ _ _ _ Hi Hq Ef) as (Hi' & Hq' & Hlen & Hv & Hr).
  pose proof (fetch_locked_pins _ _ _ _ _ _ Hz Ef) as [Hz' Hone]. split; [done|]. split; [done|]. destruct r as [i|].
  - split; [done|]. split; [done|]. destruct (Hr i eq_refl) as (f & Hf & Hl & _ & Hd). exists f. eauto 10.
  - split; [done|done|done|]. intros Hnil. rewrite Hnil in Hlen. destruct (frames bp); done.
Qed.

Lemma client_read_spec bp s p bp' s' r :
  idle bp s -> client_read bp s p = (bp', s', r) ->
  idle bp' s' /\ (forall q, view bp' s' q = view bp s q) /\ (r = None \/ r = view bp s p).
Proof.
  intros Hid. unfold client_read, bufpool_fetch. destruct (fetch_locked bp s p) as [[bp1 s1] r1] eqn:Ef.
  destruct (fetch_idle _ _ _ _ _ _ Hid Ef) as (Hv & Hi & Hr). destruct r1 as [i|]; intros [= <- <- <-]; [|by auto].
  destruct Hr as (Hq & Hz & f & Hf & Hl & Hpin & Hd). destruct (unpin_idle bp1 s1 i f p false) as [Hid' Hv']; try done.
  split; [done|]. split; [intros q; by rewrite Hv', Hv|]. right. unfold frame_data. by rewrite Hf, Hd.
Qed.

(** One access to a page: fetch, change the contents through the pointer, unpin.
    A caller that leaves the contents alone may unpin clean. *)
Lemma access_idle bp s p bp1 s1 i d' (is_dirty : bool) :
  idle bp s -> fetch_locked bp s p = (bp1, s1, Some i) -> page_ok d' ->
  (is_dirty = false -> view bp s p = Some d') ->
  exists d, frame_data bp1 i = Some d /\ view bp s p = Some d /\
    idle (bufpool_unpin (frame_write bp1 i d') p is_dirty) s1 /\
    forall q, view (bufpool_unpin (frame_write bp1 i d') p is_dirty) s1 q = if decide (q = p) then Some d' else view bp s q.
Proof.
  intros Hid Ef Hd Hclean. destruct (fetch_idle _ _ _ _ _ _ Hid Ef) as (Hv & Hi & Hq & Hz & f & Hf & Hl & Hpin & Hvd).
  exists (data f). split; [unfold frame_data; by rewrite Hf|]. split; [done|].
  assert (Hfw : frames (frame_write bp1 i d') = <[i := set_data f d']> (frames bp1)) by (unfold frame_write; by rewrite Hf).
  assert (Hif : frames (frame_write bp1 i d') !! i = Some (set_data f d')).
  { rewrite Hfw. apply list_lookup_insert_eq. by eapply lookup_lt_Some. }
  assert (HW : exists W : nat -> Prop, pool_inv W (frames (frame_write bp1 i d')) s1 /\ (is_dirty = false -> ~ W i) /\
     (forall j, j <> i -> nobody j <-> W j) /\
     forall q, page_view (frames (frame_write bp1 i d')) s1 q = if decide (q = p) then Some d' else page_view (frames bp1) s1 q).
  { destruct is_dirty.
    - exists (fun j => j = i). destruct (frame_write_spec nobody (fun j => j = i) bp1 s1 i f p d') as [Hi2 Hv2]; try done; lia.
    - exists nobody. rewrite (Hclean eq_refl) in Hvd. injection Hvd as Hdd.
      assert (set_data f d' = f) as Hsd by (unfold set_data; rewrite Hdd; by destruct f).
      rewrite Hfw, Hsd, list_insert_id by done. split; [done|]. split; [by intros _ []|]. split; [done|].
      intros q. case_decide as Hqp; [|done]. subst q. rewrite (view_live _ _ _ _ _ _ Hi Hf Hl). by rewrite Hdd. }
  destruct HW as (W & Hi2 & HWi & HWj & Hv2).
  destruct (bufpool_unpin_spec W nobody (frame_write bp1 i d') s1 i (set_data f d') p is_dirty)
    as (f' & Hfs & Hl' & Hp' & _ & Hi' & Hv'); try done; [simpl; lia|naive_solver|].
  rewrite Hfw, list_insert_insert_eq in Hfs. simpl in Hp'. split.
  - split; [done|rewrite Hfs; apply quiet_insert; [done|apply Hl']| |].
    + rewrite Hfs. intros j g Hj _. destruct (decide (j = i)) as [->|Hne].
      * rewrite list_lookup_insert_eq in Hj by (by eapply lookup_lt_Some). simplify_eq. lia.
      * rewrite list_lookup_insert_ne in Hj by done. apply (Hz j g); congruence.
    + rewrite Hfs. intros Hnil. apply (f_equal length) in Hnil. rewrite length_insert in Hnil. simpl in Hnil.
      apply lookup_lt_Some in Hf. lia.
  - intros q. unfold view. rewrite Hv', Hv2. case_decide; [done|]. apply Hv.
Qed.

Lemma client_update_spec bp s p d bp' s' ok :
  idle bp s -> page_ok d -> client_update bp s p d = (bp', s', ok) ->
  idle bp' s' /\
  (forall q, view bp' s' q = if ok && bool_decide (q = p) then Some d else view bp s q) /\
  (ok = true -> is_Some (view bp s p)).
Proof.
  intros Hid Hd. unfold client_update, bufpool_fetch. destruct (fetch_locked bp s p) as [[bp1 s1] r1] eqn:Ef.
  destruct r1 as [i|]; intros [= <- <- <-].
  - destruct (access_idle _ _ _ _ _ _ d true Hid Ef Hd) as (d0 & _ & Hv & Hid' & Hview); [done|].
    split; [done|]. split; [|by rewrite Hv; eexists]. intros q. rewrite Hview. simpl. case_decide; case_bool_decide; done.
  - destruct (fetch_idle _ _ _ _ _ _ Hid Ef) as (Hv & _ & Hid'). split; [done|]. split; [done|done].
Qed.

(** Allocation below the pool: the new page is not in any frame. *)
Lemma alloc_idle bp s s' id :
  idle bp s -> st_alloc s = (s', id) ->
  idle bp s' /\
  match id with
  | Some p => view bp s p = None /\ forall q, view bp s' q = if decide (q = p) then Some (zeros PAGE_SIZE) else view bp s q
  | None => forall q, view bp s' q = view bp s q
  end.
Proof.
  intros [Hi Hq Hz Hne] Ea. pose proof (law_alloc s (pi_wf _ _ _ Hi)) as Hl. rewrite Ea in Hl.
  assert (Hread : forall p, id = Some p -> forall i f, frames bp !! i = Some f -> ~ live f p).
  { intros p -> i f Hf (Hv & Hpe & Hpid). destruct (pi_frame _ _ _ Hi _ _ Hf) as (_ & _ & _ & _ & E).
    destruct (E Hv Hpe) as [[x Hx] _]. rewrite Hpid in Hx. destruct Hl as (_ & Hl & _). congruence. }
  assert (Hsame : forall i f, frames bp !! i = Some f -> valid f = true -> st_read s' (page_id f) = st_read s (page_id f)).
  { intros i f Hf Hv. destruct id as [p|]; [|apply Hl]. destruct Hl as (_ & _ & _ & Hl). apply Hl.
    intros Hp. apply (Hread p eq_refl i f Hf). split; [done|]. split; [eauto|done]. }
  assert (Hi' : pool_inv nobody (frames bp) s').
  { destruct Hi as [_ Hdi Hfr]. split; [destruct id; apply Hl|done|]. intros i f Hf.
    destruct (Hfr i f Hf) as (A & B & C & D & E). do 4 (split; [done|]). intros Hv Hp. rewrite (Hsame i f Hf Hv). auto. }
  split; [by split|]. destruct id as [p|].
  - split; [unfold view; rewrite (view_not_live nobody) by eauto; apply Hl|].
    intros q. unfold view. destruct (decide (q = p)) as [->|Hqp].
    + rewrite (view_not_live nobody) by eauto. apply Hl.
    + destruct (view_elim _ _ _ q Hi) as [(j & g & Hj & Hlg)|Hn].
      * by rewrite (view_live _ _ _ _ _ _ Hi Hj Hlg), (view_live _ _ _ _ _ _ Hi' Hj Hlg).
      * rewrite (view_not_live _ _ _ _ Hi Hn), (view_not_live _ _ _ _ Hi' Hn). by apply Hl.
  - intros q. unfold view. destruct (view_elim _ _ _ q Hi) as [(j & g & Hj & Hlg)|Hn].
    + by rewrite (view_live _ _ _ _ _ _ Hi Hj Hlg), (view_live _ _ _ _ _ _ Hi' Hj Hlg).
    + rewrite (view_not_live _ _ _ _ Hi Hn), (view_not_live _ _ _ _ Hi' Hn). by apply Hl.
Qed.

(** [bufpool_new_page] may allocate the page and then find no frame for it. *)
Lemma client_new_spec bp s bp' s' r :
  idle bp s -> client_new bp s = (bp', s', r) ->
  idle bp' s' /\
  ((exists p, (r = Some p \/ r = None) /\ view bp s p = None /\
    forall q, view bp' s' q = if decide (q = p) then Some (zeros PAGE_SIZE) else view bp s q) \/
   (r = None /\ forall q, view bp' s' q = view bp s q)).
Proof.
  intros Hid. unfold client_new, bufpool_new_page. destruct (st_alloc s) as [s1 id] eqn:Ea.
  destruct (alloc_idle _ _ _ _ Hid Ea) as [Hid1 Hv1]. destruct id as [p|]; [|intros [= <- <- <-]; auto].
  destruct (fetch_locked bp s1 p) as [[bp2 s2] r2] eqn:Ef. destruct Hv1 as [Hnone Hv1].
  destruct (fetch_idle _ _ _ _ _ _ Hid1 Ef) as (Hv2 & Hi2 & Hr). destruct r2 as [i|]; simpl; intros [= <- <- <-].
  - destruct Hr as (Hq & Hz & f & Hf & Hl & Hpin & Hd). destruct (unpin_idle bp2 s2 i f p false) as [Hid' Hv']; try done.
    split; [done|]. left. exists p. split; [by left|]. split; [done|]. intros q. by rewrite Hv', Hv2.
  - split; [done|]. left. exists p. split; [by right|]. split; [done|]. intros q. by rewrite Hv2.
Qed.

Lemma cleaned_lookup fs fs' i f' : Forall2 cleaned fs fs' -> fs' !! i = Some f' -> exists f, fs !! i = Some f /\ cleaned f f'.
Proof. intros H2 Hf. by eapply Forall2_lookup_r in H2. Qed.

Lemma bufpool_flush_all_spec bp s bp' s' rc :
  idle bp s -> bufpool_flush_all bp s = (bp', s', rc) ->
  idle bp' s' /\ (forall q, view bp' s' q = view bp s q) /\
  (rc = 0 -> forall q, st_read s' q = view bp s q).
Proof.
  intros [Hi Hq Hz Hne]. unfold bufpool_flush_all. destruct (flush_frames st_write (frames bp) s) as [[[fs s1] n] ok] eqn:Ef.
  intros [= <- <- <-]. destruct (flush_frames_spec nobody (frames bp) [] _ _ _ _ _ Hi Ef) as (Hi' & Hv' & Hc & Hok). simpl in *.
  assert (Hq' : quiet fs).
  { intros i f' Hf'. destruct (cleaned_lookup _ _ _ _ Hc Hf') as (f & Hf & [-> | ->]); simpl; eauto. }
  assert (Hid' : idle (with_frames bp fs) s1).
  { split; [done|done| |].
    - intros i f' Hf' _. destruct (cleaned_lookup _ _ _ _ Hc Hf') as (f & Hf & [-> | ->]); simpl; by eapply Hz.
    - simpl. intros ->. apply Forall2_nil_inv_r in Hc. done. }
  split; [done|]. split; [done|]. intros Hrc q. destruct ok; [|done].
  unfold view. rewrite <- Hv'. destruct (view_elim _ _ _ q Hi') as [(j & g & Hj & Hlg)|Hn].
  - rewrite (view_live _ _ _ _ _ _ Hi' Hj Hlg). destruct Hlg as (Hvg & Hpe & <-).
    specialize (Hok eq_refl). rewrite Forall_lookup in Hok. pose proof (Hok j g Hj) as Hd. rewrite Hvg in Hd. simpl in Hd.
    destruct (pi_frame _ _ _ Hi' _ _ Hj) as (_ & _ & _ & _ & E). apply E; auto.
  - by rewrite (view_not_live _ _ _ _ Hi' Hn).
Qed.

(** Discarding the dirty frames shows the pages of the store again. *)
Lemma bufpool_discard_dirty_spec bp s :
  idle bp s -> idle (bufpool_discard_dirty bp) s /\ forall q, view (bufpool_discard_dirty bp) s q = st_read s q.
Proof.
  intros [Hi Hq Hz Hne]. set (fs := invalidate (fun f => valid f && dirty f) false <$> frames bp).
  assert (Hlk : forall i f', fs !! i = Some f' -> exists f, frames bp !! i = Some f /\ f' = invalidate (fun f => valid f && dirty f) false f).
  { intros i f' Hf'. unfold fs in Hf'. rewrite list_lookup_fmap in Hf'. apply fmap_Some in Hf' as (f & Hf & ->). eauto. }
  assert (Hval : forall f, valid (invalidate (fun f => valid f && dirty f) false f) = true ->
             invalidate (fun f => valid f && dirty f) false f = f /\ dirty f = false).
  { intros f. unfold invalidate. destruct (valid f) eqn:Ev, (dirty f) eqn:Ed; simpl; done || congruence. }
  assert (Hi' : pool_inv nobody fs s).
  { split; [apply Hi| |].
    - intros i j f g Hf Hg Hvf Hvg Hp. destruct (Hlk _ _ Hf) as (f0 & Hf0 & ->), (Hlk _ _ Hg) as (g0 & Hg0 & ->).
      destruct (Hval _ Hvf) as [Ef _], (Hval _ Hvg) as [Eg _]. rewrite Ef in Hvf, Hp. rewrite Eg in Hvg, Hp. eauto using pi_dist.
    - intros i f' Hf'. destruct (Hlk _ _ Hf') as (f & Hf & ->). destruct (pi_frame _ _ _ Hi _ _ Hf) as (A & B & C & D & E).
      unfold invalidate. destruct (valid f && dirty f); [|done]. split; [done|]. split; [done|]. simpl. rewrite (Hq _ _ Hf). done. }
  assert (Hid' : idle (bufpool_discard_dirty bp) s).
  { split; [done| | |].
    - intros i f' Hf'. destruct (Hlk _ _ Hf') as (f & Hf & ->). unfold invalidate. destruct (_ && _); simpl; eauto.
    - intros i f' Hf' _. destruct (Hlk _ _ Hf') as (f & Hf & ->). unfold invalidate. destruct (_ && _); simpl; by eapply Hz.
    - simpl. intros Hnil. apply fmap_nil_inv in Hnil. done. }
  split; [done|]. intros q. unfold view. change (frames (bufpool_discard_dirty bp)) with fs.
  destruct (view_elim _ _ _ q Hi') as [(j & g & Hj & Hlg)|Hn].
  - rewrite (view_live _ _ _ _ _ _ Hi' Hj Hlg). destruct Hlg as (Hvg & Hpe & <-).
    destruct (Hlk _ _ Hj) as (f & Hf & ->). destruct (Hval _ Hvg) as [Ef Hd]. rewrite Ef in *.
    destruct (pi_frame _ _ _ Hi _ _ Hf) as (_ & _ & _ & _ & E). symmetry. apply E; try done; by intros [].
  - by rewrite (view_not_live _ _ _ _ Hi' Hn).
Qed.

(** ** Histories of a pool *)

Inductive pool_op :=
| ORead (p : Z) | OUpdate (p : Z) (d : bytes) | ONew | OFlush
| ONoSteal (on : bool) | OSteal (registered : bool) | OIoInLatch (on : bool).

Inductive pool_res := RRead (r : option bytes) | RUpdate (ok : bool) | RNew (r : option Z) | RFlush (rc : Z) | RUnit.

Definition pool_exec (bp : BufferPool) s (op : pool_op) : BufferPool * S * pool_res :=
  match op with
  | ORead p => let '(bp, s, r) := client_read bp s p in (bp, s, RRead r)
  | OUpdate p d => let '(bp, s, ok) := client_update bp s p d in (bp, s, RUpdate ok)
  | ONew => let '(bp, s, r) := client_new bp s in (bp, s, RNew r)
  | OFlush => let '(bp, s, rc) := bufpool_flush_all bp s in (bp, s, RFlush rc)
  | ONoSteal on => (bufpool_set_no_steal bp on, s, RUnit)
  | OSteal r => (bufpool_set_steal_handler bp r, s, RUnit)
  | OIoInLatch on => (bufpool_set_io_in_latch bp on, s, RUnit)
  end.

Fixpoint pool_run (bp : BufferPool) s (ops : list pool_op) : BufferPool * S * list pool_res :=
  match ops with
  | [] => (bp, s, [])
  | op :: ops => let '(bp, s, r) := pool_exec bp s op in
                 let '(bp, s, rs) := pool_run bp s ops in (bp, s, r :: rs)
  end.

Definition op_ok (op : pool_op) : Prop := match op with OUpdate _ d => page_ok d | _ => True end.

(** The specification: an array of pages without any cache.  Only a refused
    operation ([None], [false]) tells the pool from it. *)
Inductive abs_exec (a : Z -> option bytes) : pool_op -> pool_res -> (Z -> option bytes) -> Prop :=
| abs_read p d a' : a p = Some d -> (forall q, a' q = a q) -> abs_exec a (ORead p) (RRead (Some d)) a'
| abs_read_null p a' : (forall q, a' q = a q) -> abs_exec a (ORead p) (RRead None) a'
| abs_update p d a' : is_Some (a p) -> (forall q, a' q = if decide (q = p) then Some d else a q) ->
    abs_exec a (OUpdate p d) (RUpdate true) a'
| abs_update_null p d a' : (forall q, a' q = a q) -> abs_exec a (OUpdate p d) (RUpdate false) a'
| abs_new p r a' : r = Some p \/ r = None -> a p = None ->
    (forall q, a' q = if decide (q = p) then Some (zeros PAGE_SIZE) else a q) -> abs_exec a ONew (RNew r) a'
| abs_new_null a' : (forall q, a' q = a q) -> abs_exec a ONew (RNew None) a'
| abs_other op r a' : op = OFlush \/ (exists b, op = ONoSteal b \/ op = OSteal b \/ op = OIoInLatch b) ->
    (forall q, a' q = a q) -> abs_exec a op r a'.

Inductive abs_run (a : Z -> option bytes) : list pool_op -> list pool_res -> (Z -> option bytes) -> Prop :=
| abs_nil a' : (forall q, a' q = a q) -> abs_run a [] [] a'
| abs_cons op r ops rs a1 a2 : abs_exec a op r a1 -> abs_run a1 ops rs a2 -> abs_run a (op :: ops) (r :: rs) a2.

Lemma idle_flags bp s ns st io :
  idle bp s -> idle (mkPool (frames bp) (clock bp) (hits bp) (misses bp) ns st io) s.
Proof. intros [? ? ? ?]. by split. Qed.

Lemma pool_exec_abs bp s op bp' s' r :
  idle bp s -> op_ok op -> pool_exec bp s op = (bp', s', r) ->
  idle bp' s' /\ abs_exec (view bp s) op r (view bp' s').
Proof.
  intros Hid Hok. destruct op as [p|p d| | |on|on|on]; simpl.
  - destruct (client_read bp s p) as [[b1 s1] r1] eqn:E. intros [= <- <- <-].
    destruct (client_read_spec _ _ _ _ _ _ Hid E) as (H1 & H2 & H3). split; [done|].
    destruct r1 as [d|]; [|by constructor]. destruct H3 as [|H3]; [done|]. by constructor.
  - destruct (client_update bp s p d) as [[b1 s1] ok] eqn:E. intros [= <- <- <-].
    destruct (client_update_spec _ _ _ _ _ _ _ Hid Hok E) as (H1 & H2 & H3). split; [done|].
    destruct ok; constructor; auto. intros q. rewrite H2. simpl. case_decide; case_bool_decide; done.
  - destruct (client_new bp s) as [[b1 s1] r1] eqn:E. intros [= <- <- <-].
    destruct (client_new_spec _ _ _ _ _ Hid E) as (H1 & [(p & H2 & H3 & H4)|[-> H2]]); split; try done.
    + by eapply abs_new. + by apply abs_new_null.
  - destruct (bufpool_flush_all bp s) as [[b1 s1] rc] eqn:E. intros [= <- <- <-].
    destruct (bufpool_flush_all_spec _ _ _ _ _ Hid E) as (H1 & H2 & _). split; [done|]. apply abs_other; [by left|done].
  - intros [= <- <- <-]. split; [by apply idle_flags|]. apply abs_other; [right; eauto|done].
  - intros [= <- <- <-]. split; [by apply idle_flags|]. apply abs_other; [right; eauto|done].
  - intros [= <- <- <-]. split; [by apply idle_flags|]. apply abs_other; [right; eauto|done].
Qed.

Lemma pool_run_abs ops : forall bp s bp' s' rs,
  idle bp s -> Forall op_ok ops -> pool_run bp s ops = (bp', s', rs) ->
  idle bp' s' /\ abs_run (view bp s) ops rs (view bp' s').
Proof.
  induction ops as [|op ops IH]; intros bp s bp' s' rs Hid Hok; simpl.
  { intros [= <- <- <-]. split; [done|]. by constructor. }
  inversion_clear Hok. destruct (pool_exec bp s op) as [[b1 s1] r1] eqn:E.
  destruct (pool_run b1 s1 ops) as [[b2 s2] rs2] eqn:E2. intros [= <- <- <-].
  destruct (pool_exec_abs _ _ _ _ _ _ Hid ltac:(done) E) as [Hid1 Ha].
  destruct (IH _ _ _ _ _ Hid1 ltac:(done) E2) as [Hid2 Hr]. split; [done|]. by econstructor.
Qed.

Lemma bufpool_create_idle n bp s : bufpool_create n = Some bp -> st_wf s -> idle bp s /\ forall p, view bp s p = st_read s p.
Proof.
  unfold bufpool_create. destruct (Nat.eqb_spec n 0); [done|]. intros [= <-] Hwf.
  assert (Hlk : forall i f, replicate n empty_frame !! i = Some f -> f = empty_frame) by (intros i f Hf; by apply lookup_replicate in Hf as [-> _]).
  split.
  - split; simpl.
    + split; [done| |].
      * intros i j f g Hf _ Hv. rewrite (Hlk _ _ Hf) in Hv. done.
      * intros i f Hf. rewrite (Hlk _ _ Hf). split; [apply zeros_page_ok|]. split; [simpl; lia|]. split; [done|]. split; [by intros []|done].
    + intros i f Hf. by rewrite (Hlk _ _ Hf).
    + intros i f Hf _. by rewrite (Hlk _ _ Hf).
    + by destruct n.
  - intros p. unfold view. apply view_store. intros i f Hf Hv. simpl in Hf. rewrite (Hlk _ _ Hf) in Hv. done.
Qed.
End Invariant.

(** C21. The cache is transparent: any history of reads, updates, page creations,
    flushes and mode switches on a pool of any size, over any page store that obeys
    the laws, is a history of the plain array of pages of the store: an access
    returns the page's current contents or is refused, and never anything else. *)
Theorem bufpool_transparent {S} `{PageStoreLaws S} (n : nat) (bp bp' : BufferPool) (s s' : S) (ops : list pool_op) (rs : list pool_res) :
  bufpool_create n = Some bp -> st_wf s -> Forall op_ok ops -> pool_run bp s ops = (bp', s', rs) ->
  (forall p, view bp s p = st_read s p) /\ abs_run (view bp s) ops rs (view bp' s').
Proof.
  intros Hc Hwf Hok Hr. destruct (bufpool_create_idle n bp s Hc Hwf) as [Hid Hv]. split; [done|].
  by apply (pool_run_abs _ _ _ _ _ _ Hid Hok Hr).
Qed.

Definition demo_store : Pager := pager_open (mkFile [] (3 * PAGE_SIZE)).
Definition demo_page : bytes := replicate 4096 7.
Lemma demo_page_ok : page_ok demo_page.
Proof. split; [vm_compute; reflexivity|]. apply Forall_replicate. unfold is_byte. lia. Qed.
Definition demo_ops : list pool_op :=
  [ONew; ONew; OUpdate 0 demo_page; ORead 1; ORead 0; OFlush; ONew; ONew].

(** One frame and three pages on the device: the update of page 0 is evicted and
    read back, and the fourth page is refused. *)
Lemma bufpool_transparent_witness :
  exists bp bp' s' rs, bufpool_create 1 = Some bp /\ pool_run bp demo_store demo_ops = (bp', s', rs) /\
    rs = [RNew (Some 0); RNew (Some 1); RUpdate true; RRead (Some (zeros PAGE_SIZE)); RRead (Some demo_page);
          RFlush 0; RNew (Some 2); RNew None] /\ abs_run (view bp demo_store) demo_ops rs (view bp' s').
Proof.
  eexists _, _, _, _. split; [reflexivity|]. split; [vm_compute; reflexivity|].
  split; [vm_compute; reflexivity|].
  eapply (bufpool_transparent 1); [reflexivity| | |vm_compute; reflexivity].
  - apply pager_open_wf; [vm_compute; split; discriminate|constructor].
  - repeat (constructor; [first [exact I|exact demo_page_ok]|]). constructor.
Defined.

(** A store whose writes do not fail. *)
Definition reliable (S : Type) `{PageStore S} : Prop :=
  forall (s : S) p d, st_wf s -> is_Some (st_read s p) -> page_ok d -> (st_write s p d).2 = true /\ (st_steal s p d).2 = true.

Lemma pick_frame_succeeds {S} `{PageStoreLaws S} bp (s : S) :
  reliable S -> idle bp s -> negb (no_steal bp) || steal bp = true -> exists bp' s' i, pick_frame bp s = (bp', s', Some i).
Proof.
  intros Hrel [Hi Hq Hz Hne] Hst. unfold pick_frame.
  destruct (first_index _ (frames bp)) as [i|] eqn:Ef; [eauto|].
  pose proof (find_victim_spec bp) as Hv. rewrite Hst in Hv. destruct (find_victim bp) as [[i v]|].
  - destruct Hv as (Hv & _). pose proof (first_index_None _ _ Ef _ _ Hv) as Hval%negb_false_iff.
    pose proof (pi_frame _ _ _ Hi _ _ Hv) as (A & B & C & D & E). destruct (E Hval (Hq _ _ Hv)) as [Hs _].
    destruct (Hrel s (page_id v) (data v) (pi_wf _ _ _ Hi) Hs A) as [Hw Hst'].
    destruct (dirty v); [|eauto]. destruct (no_steal bp && steal bp).
    + destruct (st_steal s (page_id v) (data v)) as [s1 ok]. simpl in Hst'. subst ok. eauto.
    + destruct (st_write s (page_id v) (data v)) as [s1 ok]. simpl in Hw. subst ok. eauto.
  - destruct (frames bp) as [|f fs]; [done|]. destruct (Hv 0%nat f eq_refl). split; [by eapply (Hz 0%nat)|done].
Qed.

Lemma fetch_total {S} `{PageStoreLaws S} bp (s : S) p d :
  reliable S -> idle bp s -> negb (no_steal bp) || steal bp = true -> view bp s p = Some d ->
  exists bp' s' i, fetch_locked bp s p = (bp', s', Some i).
Proof.
  intros Hrel Hid Hst Hd. unfold fetch_locked, fetch_begin. destruct (find_frame bp p ≫= _) as [[i f]|] eqn:Ef.
  - apply find_frame_Some in Ef as (Hf & _). rewrite (id_quiet _ _ Hid _ _ Hf). eauto.
  - destruct (pick_frame_succeeds (count_miss bp) s Hrel) as (b1 & s1 & i & Ep); [by destruct Hid; split|done|].
    rewrite Ep. pose proof (pick_frame_spec nobody (count_miss bp) s _ _ _ (id_inv _ _ Hid) Ep) as (Hi1 & Hv1 & (Hlen & _ & Hpg) & _ & Hi).
    destruct (Hi i eq_refl) as (f & Hf & _). simpl. rewrite Hf. simpl. pose proof (lookup_lt_Some _ _ _ Hf) as Hlt.
    assert (Hread : st_read s1 p = Some d).
    { rewrite <- Hd. unfold view. change (frames bp) with (frames (count_miss bp)). rewrite <- Hv1. symmetry. apply view_store.
      intros j g Hg Hvg Hp. by destruct (find_frame_None _ _ Ef j g (Hpg j g Hg Hvg) Hvg). }
    destruct (io_in_latch b1).
    + rewrite Hread. eauto.
    + unfold fetch_read, fetch_end. simpl. rewrite list_lookup_insert_eq by done. rewrite Hread. simpl.
      rewrite list_lookup_insert_eq by (by rewrite length_insert). simpl. eauto.
Qed.

(** Reads of existing pages do not fail: after any history, when dirty frames
    may be evicted and the store's writes do not fail, a read of a page returns it. *)
Theorem bufpool_read_total {S} `{PageStoreLaws S} (n : nat) (bp0 bp : BufferPool) (s0 s : S) (ops : list pool_op) (rs : list pool_res)
    (p : Z) (d : bytes) :
  reliable S -> bufpool_create n = Some bp0 -> st_wf s0 -> Forall op_ok ops -> pool_run bp0 s0 ops = (bp, s, rs) ->
  negb (no_steal bp) || steal bp = true -> view bp s p = Some d ->
  exists bp' s', client_read bp s p = (bp', s', Some d).
Proof.
  intros Hrel Hc Hwf Hok Hr Hst Hd. destruct (bufpool_create_idle n bp0 s0 Hc Hwf) as [Hid0 _].
  destruct (pool_run_abs _ _ _ _ _ _ Hid0 Hok Hr) as [Hid _].
  destruct (fetch_total _ _ _ _ Hrel Hid Hst Hd) as (b1 & s1 & i & Hf). unfold client_read, bufpool_fetch. rewrite Hf.
  destruct (fetch_idle _ _ _ _ _ _ Hid Hf) as (_ & _ & _ & _ & f & Hlk & _ & _ & Hv).
  eexists _, _. unfold frame_data. rewrite Hlk. simpl. rewrite <- Hv, Hd. reflexivity.
Qed.

Lemma pager_reliable : reliable Pager.
Proof.
  intros s p d Hwf Hs Hd. apply pager_page_Some in Hs; [|done].
  destruct (pager_put_spec s p d Hwf Hd Hs) as (c & _ & Hput). simpl. by rewrite Hput.
Qed.

Definition demo_pool : BufferPool := mkPool (replicate 1 empty_frame) 0 0 0 false false false.
Definition demo_evict : list pool_op := [ONew; ONew; OUpdate 0 demo_page; ORead 1].
Definition demo_run : BufferPool * Pager * list pool_res := pool_run demo_pool demo_store demo_evict.

Lemma bufpool_read_total_witness :
  exists bp' s', client_read demo_run.1.1 demo_run.1.2 0 = (bp', s', Some demo_page).
Proof.
  apply (bufpool_read_total 1 demo_pool demo_run.1.1 demo_store demo_run.1.2 demo_evict demo_run.2 0 demo_page).
  - exact pager_reliable.
  - reflexivity.
  - apply pager_open_wf; [vm_compute; split; discriminate|constructor].
  - repeat (constructor; [first [exact I|exact demo_page_ok]|]). constructor.
  - unfold demo_run. by destruct (pool_run demo_pool demo_store demo_evict) as [[? ?] ?].
  - vm_compute. reflexivity.
  - vm_compute. reflexivity.
Defined.

(** ** Threads

    The latch makes [fetch_begin], [fetch_end], [bufpool_unpin] and
    [bufpool_flush_all] atomic; the read of a reserved frame and the writes through
    a pinned pointer happen outside it.  A step is one thread doing one of these. *)

Inductive thread :=
| TIdle
| TLoading (i : nat) (p : Z)
| TLoaded (i : nat) (p : Z) (ok : bool)
| THolding (i : nat) (p : Z) (wrote : bool).

Section Threads.
Context {S : Type} `{PageStoreLaws S}.

Record system := mkSys { pool : BufferPool; store : S; threads : list thread }.

Definition after_begin (p : Z) (r : fetch_res) : thread :=
  match r with FHit i => THolding i p false | FLoad i => TLoading i p | FWait | FFail => TIdle end.
Definition after_end (p : Z) (r : option nat) : thread :=
  match r with Some i => THolding i p false | None => TIdle end.

(** The label is the page write a step performs, if any. *)
Inductive sys_step : system -> option (Z * bytes) -> system -> Prop :=
| ss_begin bp s ts k p bp' s' r :
    ts !! k = Some TIdle -> fetch_begin bp s p = (bp', s', r) ->
    sys_step (mkSys bp s ts) None (mkSys bp' s' (<[k := after_begin p r]> ts))
| ss_read bp s ts k i p bp' ok :
    ts !! k = Some (TLoading i p) -> fetch_read bp s i p = (bp', ok) ->
    sys_step (mkSys bp s ts) None (mkSys bp' s (<[k := TLoaded i p ok]> ts))
| ss_end bp s ts k i p ok bp' r :
    ts !! k = Some (TLoaded i p ok) -> fetch_end bp i ok = (bp', r) ->
    sys_step (mkSys bp s ts) None (mkSys bp' s (<[k := after_end p r]> ts))
| ss_write bp s ts k i p w d :
    ts !! k = Some (THolding i p w) -> page_ok d ->
    sys_step (mkSys bp s ts) (Some (p, d)) (mkSys (frame_write bp i d) s (<[k := THolding i p true]> ts))
| ss_unpin bp s ts k i p w (is_dirty : bool) :
    ts !! k = Some (THolding i p w) -> (w = true -> is_dirty = true) ->
    sys_step (mkSys bp s ts) None (mkSys (bufpool_unpin bp p is_dirty) s (<[k := TIdle]> ts))
| ss_flush bp s ts bp' s' rc :
    bufpool_flush_all bp s = (bp', s', rc) -> sys_step (mkSys bp s ts) None (mkSys bp' s' ts).

Inductive sys_run : system -> list (Z * bytes) -> system -> Prop :=
| sr_nil y : sys_run y [] y
| sr_step y y1 y2 l ls : sys_run y ls y1 -> sys_step y1 l y2 -> sys_run y (ls ++ option_list l) y2.

Definition uses (i : nat) (t : thread) : bool :=
  match t with
  | TIdle => false
  | TLoading j _ | TLoaded j _ _ | THolding j _ _ => Nat.eqb i j
  end.

Definition users (ts : list thread) (i : nat) : Z :=
  foldr (fun t n => (if uses i t then 1 else 0) + n) 0 ts.

Definition writers (ts : list thread) (i : nat) : Prop := exists k p, ts !! k = Some (THolding i p true).

Definition thread_ok (fs : list Frame) (s : S) (t : thread) : Prop :=
  match t with
  | TIdle => True
  | TLoading i p => exists f, fs !! i = Some f /\ valid f = true /\ io_pending f = true /\ page_id f = p
  | TLoaded i p ok => exists f, fs !! i = Some f /\ valid f = true /\ io_pending f = true /\ page_id f = p /\
                                (ok = true -> st_read s p = Some (data f))
  | THolding i p _ => exists f, fs !! i = Some f /\ live f p
  end.

Record sys_inv (y : system) : Prop := {
  si_pool : pool_inv (writers (threads y)) (frames (pool y)) (store y);
  si_pins : forall i f, frames (pool y) !! i = Some f -> valid f = true -> pin_count f = users (threads y) i;
  si_pend : forall i f, frames (pool y) !! i = Some f -> io_pending f = true -> pin_count f = 1;
  si_threads : forall k t, threads y !! k = Some t -> thread_ok (frames (pool y)) (store y) t }.

Lemma users_insert ts k t t' i :
  ts !! k = Some t ->
  users (<[k := t']> ts) i = users ts i - (if uses i t then 1 else 0) + (if uses i t' then 1 else 0).
Proof.
  revert k. induction ts as [|x ts IH]; intros k Hk; [done|]. destruct k as [|k]; simpl in *; [simplify_eq; lia|].
  rewrite (IH k Hk). lia.
Qed.

Lemma users_nonneg ts i : 0 <= users ts i.
Proof. induction ts as [|x ts IH]; simpl; [lia|]. destruct (uses i x); lia. Qed.

Lemma users_pos ts k t i : ts !! k = Some t -> uses i t = true -> 0 < users ts i.
Proof.
  intros Hk Hu. pose proof (users_insert ts k t TIdle i Hk) as H1. rewrite Hu in H1. simpl in H1.
  pose proof (users_nonneg (<[k := TIdle]> ts) i). lia.
Qed.

Lemma users_unique ts k k' t t' i :
  ts !! k = Some t -> ts !! k' = Some t' -> uses i t = true -> uses i t' = true -> users ts i = 1 -> k = k'.
Proof.
  intros Hk Hk' Hu Hu' H1. destruct (decide (k = k')) as [|Hne]; [done|exfalso].
  pose proof (users_insert ts k t TIdle i Hk) as H2. rewrite Hu, H1 in H2. simpl in H2.
  assert (Hk2 : <[k := TIdle]> ts !! k' = Some t') by (by rewrite list_lookup_insert_ne).
  pose proof (users_pos _ _ _ _ Hk2 Hu'). lia.
Qed.

(** Threads of other frames are not disturbed when pinned frames keep their place. *)
Lemma threads_insert (fs fs' : list Frame) (s s' : S) (ts : list thread) (k : nat) t' :
  (forall j t, j <> k -> ts !! j = Some t -> thread_ok fs s t -> thread_ok fs' s' t) ->
  (forall j t, ts !! j = Some t -> thread_ok fs s t) -> thread_ok fs' s' t' ->
  forall j t, <[k := t']> ts !! j = Some t -> thread_ok fs' s' t.
Proof.
  intros Hstep Hok Hnew j t Hj. destruct (decide (j = k)) as [->|Hne].
  - destruct (decide (k < length ts)%nat).
    + rewrite list_lookup_insert_eq in Hj by done. by simplify_eq.
    + rewrite list_insert_ge in Hj by lia. apply lookup_lt_Some in Hj. lia.
  - rewrite list_lookup_insert_ne in Hj by done. eauto.
Qed.

Lemma writers_insert_no (ts : list thread) (k : nat) t t' i :
  ts !! k = Some t -> (forall j p, t = THolding j p true -> False) -> (forall j p, t' = THolding j p true -> False) ->
  writers (<[k := t']> ts) i <-> writers ts i.
Proof.
  intros Hk Ht Ht'. split; intros (j & p & Hj).
  - destruct (decide (j = k)) as [->|Hne].
    + rewrite list_lookup_insert_eq in Hj by (by eapply lookup_lt_Some). simplify_eq. by destruct (Ht' i p).
    + rewrite list_lookup_insert_ne in Hj by done. by exists j, p.
  - exists j, p. rewrite list_lookup_insert_ne; [done|]. intros ->. simplify_eq. by destruct (Ht i p).
Qed.

Lemma pool_inv_iff W W' fs (s : S) : (forall i, W i <-> W' i) -> pool_inv W fs s -> pool_inv W' fs s.
Proof.
  intros Hiff [Hwf Hd Hf]. split; [done|done|]. intros i f Hif. destruct (Hf i f Hif) as (A & B & C & D & E).
  pose proof (Hiff i). split; [done|]. split; [done|]. split; [naive_solver|]. split; [naive_solver|].
  intros Hv Hp. destruct (E Hv Hp). split; [done|]. naive_solver.
Qed.

(** A page being read is the same on disk before and after any step that keeps the view. *)
Lemma pending_read W W' (fs fs' : list Frame) (s s' : S) (i : nat) f (j : nat) f' p :
  pool_inv W fs s -> pool_inv W' fs' s' -> (page_view fs' s' p = page_view fs s p) ->
  fs !! i = Some f -> valid f = true -> io_pending f = true -> page_id f = p ->
  fs' !! j = Some f' -> valid f' = true -> io_pending f' = true -> page_id f' = p -> st_read s' p = st_read s p.
Proof.
  intros Hi Hi' Hv Hf Hval Hpe Hp Hf' Hval' Hpe' Hp'. rewrite !view_store in Hv; [done| |].
  - intros k g Hk Hg Hpg. assert (k = i) as -> by (eapply (pi_dist W fs s); eauto; congruence). congruence.
  - intros k g Hk Hg Hpg. assert (k = j) as -> by (eapply (pi_dist W' fs' s'); eauto; congruence). congruence.
Qed.

(** What a thread relies on in the frame it uses. *)
Definition same_use (f f' : Frame) : Prop :=
  valid f' = valid f /\ io_pending f' = io_pending f /\ page_id f' = page_id f /\ (io_pending f = true -> data f' = data f).

Lemma thread_pinned y k t i :
  sys_inv y -> threads y !! k = Some t -> uses i t = true ->
  exists f, frames (pool y) !! i = Some f /\ valid f = true /\ 0 < pin_count f.
Proof.
  intros Hy Hk Hu. pose proof (si_threads _ Hy _ _ Hk) as Hok. pose proof (users_pos _ _ _ _ Hk Hu) as Hpos.
  assert (Hf : exists f, frames (pool y) !! i = Some f /\ valid f = true).
  { destruct t as [|j p|j p ok|j p w]; simpl in *; [done|..]; apply Nat.eqb_eq in Hu as <-; destruct Hok as (f & Hf & Hv);
      exists f; split; try done; apply Hv. }
  destruct Hf as (f & Hf & Hv). exists f. split; [done|]. split; [done|]. by rewrite (si_pins _ Hy _ _ Hf Hv).
Qed.

Lemma users_none y i f : sys_inv y -> frames (pool y) !! i = Some f -> reusable f -> users (threads y) i = 0.
Proof.
  intros Hy Hf Hre. destruct (valid f) eqn:Ev.
  - destruct Hre as [|Hp]; [congruence|]. by rewrite <- (si_pins _ Hy _ _ Hf Ev).
  - assert (Hno : forall k t, threads y !! k = Some t -> uses i t = false).
    { intros k t Hk. destruct (uses i t) eqn:E; [|done]. destruct (thread_pinned _ _ _ _ Hy Hk E) as (g & Hg & Hv & _). congruence. }
    revert Hno. generalize (threads y). intros ts Hno. induction ts as [|t ts IH]; [done|]. simpl.
    rewrite (Hno 0%nat t eq_refl), IH; [done|]. intros k u Hk. by apply (Hno (Datatypes.S k)).
Qed.

Lemma thread_ok_transfer W W' fs fs' (s s' : S) t :
  pool_inv W fs s -> pool_inv W' fs' s' -> (forall q, page_view fs' s' q = page_view fs s q) ->
  (forall i f, uses i t = true -> fs !! i = Some f -> valid f = true -> exists f', fs' !! i = Some f' /\ same_use f f') ->
  thread_ok fs s t -> thread_ok fs' s' t.
Proof.
  intros Hi Hi' Hv Huse Hok. destruct t as [|i p|i p ok|i p w]; simpl in *; [done|..].
  - destruct Hok as (f & Hf & Hval & Hpe & Hp). destruct (Huse i f (Nat.eqb_refl i) Hf Hval) as (f' & Hf' & U1 & U2 & U3 & U4).
    exists f'. rewrite U1, U2, U3. done.
  - destruct Hok as (f & Hf & Hval & Hpe & Hp & Hr). destruct (Huse i f (Nat.eqb_refl i) Hf Hval) as (f' & Hf' & U1 & U2 & U3 & U4).
    exists f'. rewrite U1, U2, U3, (U4 Hpe). split; [done|]. split; [done|]. split; [done|]. split; [done|].
    intros Hk. rewrite <- Hr by done. eapply (pending_read W W' fs fs' s s' i f i f' p); eauto; congruence.
  - destruct Hok as (f & Hf & Hl). pose proof Hl as (Hval & Hpe & Hp).
    destruct (Huse i f (Nat.eqb_refl i) Hf Hval) as (f' & Hf' & U1 & U2 & U3 & U4).
    exists f'. split; [done|]. unfold live. rewrite U1, U2, U3. done.
Qed.

Lemma same_use_refl f : same_use f f.
Proof. done. Qed.

Lemma begin_inv bp s ts (k : nat) p bp' s' r :
  sys_inv (mkSys bp s ts) -> ts !! k = Some TIdle -> fetch_begin bp s p = (bp', s', r) ->
  sys_inv (mkSys bp' s' (<[k := after_begin p r]> ts)) /\ forall q, view bp' s' q = view bp s q.
Proof.
  intros Hy Hk Hb. pose proof (si_pool _ Hy) as Hi. simpl in Hi.
  destruct (fetch_begin_spec _ _ _ _ _ _ _ Hi Hb) as (Hi' & Hv' & Hlen & Hkeep & Hback & Hpost).
  assert (HW : forall i, writers ts i <-> writers (<[k := after_begin p r]> ts) i).
  { intros i. symmetry. eapply writers_insert_no; [done|by intros|]. intros j q. destruct r; done. }
  assert (Hnew : forall i, users (<[k := after_begin p r]> ts) i = users ts i + (if uses i (after_begin p r) then 1 else 0)).
  { intros i. rewrite (users_insert _ _ _ _ _ Hk). simpl. lia. }
  assert (Hnr : forall j, r <> FHit j -> r <> FLoad j -> uses j (after_begin p r) = false).
  { intros j H1 H2. destruct r; simpl; try done; apply Nat.eqb_neq; congruence. }
  assert (Hidx : forall j, {r = FHit j} + {r = FLoad j} + {r <> FHit j /\ r <> FLoad j}).
  { intros j. destruct r as [i| | |i]; try (right; done); destruct (decide (i = j)) as [->|]; try (left; by auto);
      right; split; congruence. }
  split; [|done]. split; simpl.
  - by eapply pool_inv_iff.
  - intros j f' Hf' Hval. rewrite Hnew. destruct (Hidx j) as [[-> | ->]|[H1 H2]].
    + destruct Hpost as (g & f & Hg & Hf & Hl & Hc). simplify_eq. simpl. rewrite Nat.eqb_refl.
      destruct Hc as [(Hlg & -> & _)|[Hre ->]].
      * rewrite (si_pins _ Hy _ _ Hg) by apply Hlg. done.
      * pose proof (users_none _ _ _ Hy Hg Hre) as H0u. simpl in H0u. lia.
    + destruct Hpost as (g & f & Hg & Hf & Hre & _ & _ & _ & Hpin). simplify_eq. simpl. rewrite Nat.eqb_refl, Hpin.
      pose proof (users_none _ _ _ Hy Hg Hre) as H0u. simpl in H0u. lia.
    + rewrite Hnr by done. rewrite (si_pins _ Hy j f') by eauto. simpl. lia.
  - intros j f' Hf' Hpe. destruct (pi_frame _ _ _ Hi' _ _ Hf') as (_ & _ & C & _). destruct (C Hpe) as (Hval & _).
    destruct (Hidx j) as [[-> | ->]|[H1 H2]].
    + destruct Hpost as (g & f & Hg & Hf & (_ & Hl & _) & _). congruence.
    + destruct Hpost as (g & f & Hg & Hf & _ & _ & _ & _ & Hpin). congruence.
    + eapply (si_pend _ Hy); eauto.
  - eapply (threads_insert (frames bp) (frames bp') s s'); [|exact (si_threads _ Hy)|].
    + intros j t Hj Ht. apply (thread_ok_transfer _ _ _ _ _ _ _ Hi Hi' Hv').
      intros i f Hu Hf Hval. destruct (thread_pinned _ _ _ _ Hy Ht Hu) as (f0 & Hf0 & _ & Hpin). simpl in Hf0. simplify_eq.
      destruct (decide (r = FHit i)) as [->|Hne]; [|exists f; split; [by apply Hkeep|done]].
      destruct Hpost as (g & f' & Hg & Hf' & Hl & Hc). simplify_eq. exists f'. split; [done|].
      destruct Hc as [(Hlg & _ & Hd)|[[?|?] _]]; [|congruence|lia].
      unfold live in *. destruct Hl as (? & ? & ?), Hlg as (? & ? & ?). split; [congruence|]. split; [congruence|]. split; [congruence|done].
    + destruct r as [i| | |i]; simpl; try done; destruct Hpost as (g & f & Hg & Hf & Hrest).
      * exists f. split; [done|apply Hrest].
      * exists f. naive_solver.
Qed.

(** A step of thread [k] on the frame [i] only it uses (a read in progress) or that
    changes nothing the other users of [i] rely on. *)
Lemma frame_step bp bp' s ts (k : nat) t t' (i : nat) f f' :
  sys_inv (mkSys bp s ts) -> ts !! k = Some t -> uses i t = true -> frames bp !! i = Some f ->
  frames bp' = <[i := f']> (frames bp) -> pool_inv (writers (<[k := t']> ts)) (frames bp') s ->
  (forall j, j <> i -> uses j t' = false) ->
  (valid f' = true -> pin_count f' = pin_count f - 1 + (if uses i t' then 1 else 0)) ->
  (io_pending f' = true -> pin_count f' = 1) ->
  (io_pending f = true \/ same_use f f') ->
  thread_ok (frames bp') s t' ->
  sys_inv (mkSys bp' s (<[k := t']> ts)).
Proof.
  intros Hy Hk Hu Hf Hfs Hi' Hother Hpin Hpend Huse Hok.
  assert (Hlt := lookup_lt_Some _ _ _ Hf).
  assert (Honly : forall j, uses j t = true -> j = i).
  { intros j Hj. destruct t; simpl in *; [done|..]; apply Nat.eqb_eq in Hu, Hj; congruence. }
  assert (Hval : valid f = true).
  { destruct (thread_pinned _ _ _ _ Hy Hk Hu) as (g & Hg & Hv & _). simpl in Hg. congruence. }
  assert (Hpf : pin_count f = users ts i) by (by apply (si_pins _ Hy)).
  split; simpl; [done| | |].
  - intros j g Hg Hvg. rewrite (users_insert _ _ _ _ _ Hk). rewrite Hfs in Hg. destruct (decide (j = i)) as [->|Hne].
    + rewrite list_lookup_insert_eq in Hg by done. simplify_eq. rewrite Hpin, Hu by done. lia.
    + rewrite list_lookup_insert_ne in Hg by done. rewrite Hother by done.
      destruct (uses j t) eqn:E; [by apply Honly in E|]. rewrite (si_pins _ Hy _ _ Hg Hvg). simpl. lia.
  - intros j g Hg Hpe. rewrite Hfs in Hg. destruct (decide (j = i)) as [->|Hne].
    + rewrite list_lookup_insert_eq in Hg by done. simplify_eq. auto.
    + rewrite list_lookup_insert_ne in Hg by done. by eapply (si_pend _ Hy).
  - eapply (threads_insert (frames bp) (frames bp') s s); [|exact (si_threads _ Hy)|done].
    intros j u Hj Hju Hu_ok.
    destruct (uses i u) eqn:Ei.
    + destruct Huse as [Hpe|Huse].
      * destruct Hj. symmetry. eapply (users_unique ts k j t u i); eauto. rewrite <- Hpf. by eapply (si_pend _ Hy).
      * assert (Hi0 : frames bp' !! i = Some f') by (rewrite Hfs; by apply list_lookup_insert_eq).
        destruct Huse as (U1 & U2 & U3 & U4).
        destruct u as [|i0 p|i0 p ok|i0 p w]; simpl in *; [done|..]; apply Nat.eqb_eq in Ei as <-; destruct Hu_ok as (g & Hg & Hrest); simplify_eq.
        -- exists f'. rewrite U1, U2, U3. done.
        -- exists f'. rewrite U1, U2, U3, U4 by apply Hrest. done.
        -- exists f'. split; [done|]. unfold live in *. rewrite U1, U2, U3. done.
    + assert (Hsame : forall i0 (g : Frame), uses i0 u = true -> frames bp !! i0 = Some g -> frames bp' !! i0 = Some g).
      { intros i0 g Hu0 Hg. rewrite Hfs, list_lookup_insert_ne; [done|]. intros ->. congruence. }
      destruct u as [|i0 p|i0 p ok|i0 p w]; simpl in *; [done|..]; destruct Hu_ok as (g & Hg & Hrest);
        exists g; (split; [apply Hsame; [by rewrite Nat.eqb_refl|done]|done]).
Qed.

Lemma read_inv bp s ts (k : nat) i p bp' ok :
  sys_inv (mkSys bp s ts) -> ts !! k = Some (TLoading i p) -> fetch_read bp s i p = (bp', ok) ->
  sys_inv (mkSys bp' s (<[k := TLoaded i p ok]> ts)) /\ forall q, view bp' s q = view bp s q.
Proof.
  intros Hy Hk. pose proof (si_pool _ Hy) as Hi. destruct (si_threads _ Hy _ _ Hk) as (f & Hf & Hv & Hpe & Hp). simpl in *.
  unfold fetch_read. rewrite Hf.
  assert (HW : forall ok i0, writers ts i0 <-> writers (<[k := TLoaded i p ok]> ts) i0).
  { intros ok0 i0. symmetry. by eapply writers_insert_no. }
  assert (Hlt := lookup_lt_Some _ _ _ Hf). pose proof (si_pend _ Hy _ _ Hf Hpe) as Hpin.
  destruct (st_read s p) as [d|] eqn:Ed; intros [= <- <-].
  - destruct (pending_update _ _ _ i f d Hi Hf Hpe) as [Hi' Hv']; [by eapply law_read; [apply Hi|]|].
    split; [|done]. eapply (frame_step bp _ s ts k _ _ i f (set_data f d)); eauto; simpl.
    + apply Nat.eqb_refl. + eapply pool_inv_iff; [apply HW|done].
    + intros j Hj. by apply Nat.eqb_neq.
    + intros _. rewrite Nat.eqb_refl. lia.
    + exists (set_data f d). split; [by apply list_lookup_insert_eq|]. done.
  - split; [|done]. eapply (frame_step bp _ s ts k _ _ i f f); eauto; simpl.
    + apply Nat.eqb_refl. + by rewrite list_insert_id. + eapply pool_inv_iff; [apply HW|done].
    + intros j Hj. by apply Nat.eqb_neq.
    + intros _. rewrite Nat.eqb_refl. lia.
    + by exists f.
Qed.

Lemma end_inv bp s ts (k : nat) i p ok bp' r :
  sys_inv (mkSys bp s ts) -> ts !! k = Some (TLoaded i p ok) -> fetch_end bp i ok = (bp', r) ->
  sys_inv (mkSys bp' s (<[k := after_end p r]> ts)) /\ forall q, view bp' s q = view bp s q.
Proof.
  intros Hy Hk He. pose proof (si_pool _ Hy) as Hi. destruct (si_threads _ Hy _ _ Hk) as (f & Hf & Hv & Hpe & Hp & Hr). simpl in *.
  assert (Hlt := lookup_lt_Some _ _ _ Hf). pose proof (si_pend _ Hy _ _ Hf Hpe) as Hpin.
  destruct (fetch_end_spec _ _ _ _ _ _ _ _ Hi Hf Hpe ltac:(by rewrite Hp) He) as (Hi' & Hv' & f' & Hfs & Hpe' & Hcase).
  assert (HW : forall r i0, writers ts i0 <-> writers (<[k := after_end p r]> ts) i0).
  { intros r0 i0. symmetry. eapply writers_insert_no; [done|done|]. intros ? ?. by destruct r0. }
  split; [|done]. destruct ok; destruct Hcase as (-> & Hcase); simpl.
  - destruct Hcase as (Hl & Hp1 & Hd). eapply (frame_step bp _ s ts k _ _ i f f'); eauto; simpl.
    + apply Nat.eqb_refl. + by eapply pool_inv_iff; [apply (HW (Some i))|].
    + intros j Hj. by apply Nat.eqb_neq.
    + intros _. rewrite Nat.eqb_refl. lia.
    + congruence.
    + exists f'. rewrite Hfs. split; [by apply list_lookup_insert_eq|by rewrite <- Hp].
  - eapply (frame_step bp _ s ts k _ _ i f f'); eauto; simpl; try congruence.
    + apply Nat.eqb_refl. + by eapply pool_inv_iff; [apply (HW None)|].
    + done.
Qed.

Lemma write_inv bp s ts (k : nat) i p w d :
  sys_inv (mkSys bp s ts) -> ts !! k = Some (THolding i p w) -> page_ok d ->
  sys_inv (mkSys (frame_write bp i d) s (<[k := THolding i p true]> ts)) /\
  forall q, view (frame_write bp i d) s q = if decide (q = p) then Some d else view bp s q.
Proof.
  intros Hy Hk Hd. pose proof (si_pool _ Hy) as Hi. destruct (si_threads _ Hy _ _ Hk) as (f & Hf & Hl). simpl in *.
  assert (Hklt := lookup_lt_Some _ _ _ Hk). pose proof (users_pos ts k _ i Hk (Nat.eqb_refl i)) as Hpos.
  assert (Hpin : 0 < pin_count f) by (rewrite (si_pins _ Hy _ _ Hf) by apply Hl; done).
  assert (HWi : writers (<[k := THolding i p true]> ts) i) by (exists k, p; by apply list_lookup_insert_eq).
  assert (HW : forall j, j <> i -> writers (<[k := THolding i p true]> ts) j <-> writers ts j).
  { intros j Hj. split; intros (k' & q & Hk'); exists k', q.
    - destruct (decide (k' = k)) as [->|Hne]; [rewrite list_lookup_insert_eq in Hk' by done; congruence|].
      by rewrite list_lookup_insert_ne in Hk'.
    - rewrite list_lookup_insert_ne; [done|]. intros ->. congruence. }
  destruct (frame_write_spec _ _ bp s i f p d Hi Hf Hl Hpin Hd HWi HW) as [Hi' Hv']. split; [|done].
  assert (Hfs : frames (frame_write bp i d) = <[i := set_data f d]> (frames bp)) by (unfold frame_write; by rewrite Hf).
  destruct Hl as (Hval & Hpe & Hp).
  eapply (frame_step bp _ s ts k _ _ i f (set_data f d)); eauto; simpl.
  - apply Nat.eqb_refl.
  - intros j Hj. by apply Nat.eqb_neq.
  - intros _. rewrite Nat.eqb_refl. lia.
  - congruence.
  - right. split; [done|]. split; [done|]. split; [done|]. congruence.
  - exists (set_data f d). rewrite Hfs. split; [apply list_lookup_insert_eq; by eapply lookup_lt_Some|done].
Qed.

Lemma unpin_inv bp s ts (k : nat) i p w (is_dirty : bool) :
  sys_inv (mkSys bp s ts) -> ts !! k = Some (THolding i p w) -> (w = true -> is_dirty = true) ->
  sys_inv (mkSys (bufpool_unpin bp p is_dirty) s (<[k := TIdle]> ts)) /\
  forall q, view (bufpool_unpin bp p is_dirty) s q = view bp s q.
Proof.
  intros Hy Hk Hd. pose proof (si_pool _ Hy) as Hi. destruct (si_threads _ Hy _ _ Hk) as (f & Hf & Hl). simpl in *.
  assert (Hklt := lookup_lt_Some _ _ _ Hk). pose proof (users_pos ts k _ i Hk (Nat.eqb_refl i)) as Hpos.
  assert (Hpf : pin_count f = users ts i) by (by rewrite (si_pins _ Hy _ _ Hf) by apply Hl).
  destruct (bufpool_unpin_spec (writers ts) (writers (<[k := TIdle]> ts)) bp s i f p is_dirty)
    as (f' & Hfs & Hl' & Hp' & Hd' & Hi' & Hv'); try done; [lia|..].
  - intros (k' & q & Hk'). rewrite Hpf. pose proof (users_insert ts k _ TIdle i Hk) as Hu. simpl in Hu.
    rewrite Nat.eqb_refl in Hu. pose proof (users_pos _ _ _ i Hk' (Nat.eqb_refl i)). lia.
  - intros -> Hno (k' & q & Hk'). apply Hno. exists k', q. rewrite list_lookup_insert_ne; [done|]. intros ->.
    simplify_eq. by specialize (Hd eq_refl).
  - intros j Hj. split; intros (k' & q & Hk'); exists k', q.
    + destruct (decide (k' = k)) as [->|Hne]; [rewrite list_lookup_insert_eq in Hk' by done; congruence|].
      by rewrite list_lookup_insert_ne in Hk'.
    + rewrite list_lookup_insert_ne; [done|]. intros ->. congruence.
  - split; [|done]. eapply (frame_step bp _ s ts k _ _ i f f'); eauto; simpl; try done.
    + apply Nat.eqb_refl. + intros _. lia.
    + intros Hx. destruct Hl' as (_ & ? & _). congruence.
    + right. destruct Hl as (? & ? & ?), Hl' as (? & ? & ?). split; [congruence|]. split; [congruence|]. split; [congruence|]. congruence.
Qed.

Lemma flush_inv bp s ts bp' s' rc :
  sys_inv (mkSys bp s ts) -> bufpool_flush_all bp s = (bp', s', rc) ->
  sys_inv (mkSys bp' s' ts) /\ forall q, view bp' s' q = view bp s q.
Proof.
  intros Hy. unfold bufpool_flush_all. destruct (flush_frames st_write (frames bp) s) as [[[fs s1] n] ok] eqn:Ef.
  intros [= <- <- <-]. pose proof (si_pool _ Hy) as Hi. simpl in Hi.
  destruct (flush_frames_spec _ (frames bp) [] _ _ _ _ _ Hi Ef) as (Hi' & Hv' & Hc & _). simpl in *.
  assert (Hlk : forall i f', fs !! i = Some f' -> exists f, frames bp !! i = Some f /\ valid f' = valid f /\ pin_count f' = pin_count f /\ io_pending f' = io_pending f).
  { intros i f' Hf'. destruct (cleaned_lookup _ _ _ _ Hc Hf') as (f & Hf & [-> | ->]); by exists f. }
  split; [|done]. split; simpl; [done| | |].
  - intros i f' Hf' Hv. destruct (Hlk i f' Hf') as (f & Hf & H1 & H2 & H3). rewrite H2. eapply (si_pins _ Hy); eauto; congruence.
  - intros i f' Hf' Hpe. destruct (Hlk i f' Hf') as (f & Hf & H1 & H2 & H3). rewrite H2. eapply (si_pend _ Hy); eauto; congruence.
  - intros k t Hk. eapply (thread_ok_transfer _ _ _ _ _ _ _ Hi Hi' Hv'); [|by eapply (si_threads _ Hy)].
    intros i f _ Hf Hv. eapply Forall2_lookup_l in Hc as (f' & Hf' & [-> | ->]); [| |done]; eexists; (split; [exact Hf'|done]).
Qed.

Lemma sys_step_inv y l y' :
  sys_inv y -> sys_step y l y' ->
  sys_inv y' /\ forall q, view (pool y') (store y') q =
    match l with Some (p, d) => if decide (q = p) then Some d else view (pool y) (store y) q | None => view (pool y) (store y) q end.
Proof.
  intros Hy Hs. destruct Hs; simpl; eauto using begin_inv, read_inv, end_inv, write_inv, unpin_inv, flush_inv.
Qed.

Definition apply_writes (ls : list (Z * bytes)) (a : Z -> option bytes) (q : Z) : option bytes :=
  foldl (fun v '(p, d) => if decide (q = p) then Some d else v) (a q) ls.

Lemma sys_run_inv y ls y' :
  sys_inv y -> sys_run y ls y' ->
  sys_inv y' /\ forall q, view (pool y') (store y') q = apply_writes ls (view (pool y) (store y)) q.
Proof.
  intros Hy Hr. induction Hr as [y|y y1 y2 l ls Hr IH Hs]; [done|]. destruct (IH Hy) as [Hy1 Hv1].
  destruct (sys_step_inv _ _ _ Hy1 Hs) as [Hy2 Hv2]. split; [done|]. intros q. rewrite Hv2.
  unfold apply_writes in *. rewrite foldl_app, <- Hv1. destruct l as [[p d]|]; simpl; done.
Qed.

Lemma start_inv n m bp (s : S) : bufpool_create n = Some bp -> st_wf s -> sys_inv (mkSys bp s (replicate m TIdle)).
Proof.
  intros Hc Hwf. destruct (bufpool_create_idle n bp s Hc Hwf) as [[Hi Hq Hz _] _].
  assert (Ht : forall k t, replicate m TIdle !! k = Some t -> t = TIdle) by (intros k t Hk; by apply lookup_replicate in Hk as [-> _]).
  split; simpl.
  - eapply pool_inv_iff; [|exact Hi]. intros i. split; [intros []|]. intros (k & p & Hk). by apply Ht in Hk.
  - intros i f Hf _. rewrite (Hz i f Hf) by done. induction m; simpl; [done|]. rewrite <- IHm; [done|].
    intros k t Hk. apply (Ht (Datatypes.S k) t Hk).
  - intros i f Hf Hp. by rewrite (Hq i f Hf) in Hp.
  - intros k t Hk. by rewrite (Ht k t Hk).
Qed.
End Threads.

(** C5. The pin protocol under concurrency: whatever the interleaving of threads
    that fetch (reading from disk outside the latch), write, unpin and flush, every
    page shows exactly the last write to it; a thread that holds a page holds a
    frame of that page with its current contents, pinned once per user, so it is
    never evicted under it; and two threads holding the same page share one frame. *)
Theorem bufpool_concurrent {S} `{PageStoreLaws S} (n m : nat) (bp : BufferPool) (s : S) (ls : list (Z * bytes)) (y : system) :
  bufpool_create n = Some bp -> st_wf s -> sys_run (mkSys bp s (replicate m TIdle)) ls y ->
  (forall q, view (pool y) (store y) q = apply_writes ls (st_read s) q) /\
  (forall k i p w, threads y !! k = Some (THolding i p w) ->
     exists f, frames (pool y) !! i = Some f /\ live f p /\ pin_count f = users (threads y) i /\
               apply_writes ls (st_read s) p = Some (data f)) /\
  (forall k k' i i' p w w', threads y !! k = Some (THolding i p w) -> threads y !! k' = Some (THolding i' p w') -> i = i').
Proof.
  intros Hc Hwf Hr. destruct (bufpool_create_idle n bp s Hc Hwf) as [_ Hv0].
  destruct (sys_run_inv _ _ _ (start_inv n m bp s Hc Hwf) Hr) as [Hy Hv].
  assert (Hv' : forall q, view (pool y) (store y) q = apply_writes ls (st_read s) q).
  { intros q. rewrite Hv. unfold apply_writes. simpl. by rewrite Hv0. }
  split; [done|]. split.
  - intros k i p w Hk. destruct (si_threads _ Hy _ _ Hk) as (f & Hf & Hl). exists f. split; [done|]. split; [done|].
    split; [apply (si_pins _ Hy); [done|apply Hl]|]. rewrite <- Hv'. eapply view_live; [exact (si_pool _ Hy)|done|done].
  - intros k k' i i' p w w' Hk Hk'. destruct (si_threads _ Hy _ _ Hk) as (f & Hf & Hl), (si_threads _ Hy _ _ Hk') as (f' & Hf' & Hl').
    destruct Hl as (? & _ & ?), Hl' as (? & _ & ?). eapply (pi_dist _ _ _ (si_pool _ Hy)); eauto. congruence.
Qed.

(** Two threads miss on page 0 together: the first reads it while the second waits,
    then both hold the one frame of the pool and the first writes it. *)
Definition race_store : Pager := pager_open (mkFile (zeros PAGE_SIZE) PAGE_SIZE).
Definition race0 := fetch_begin demo_pool race_store 0.
Definition race1 := fetch_begin race0.1.1 race0.1.2 0.
Definition race2 := fetch_read race1.1.1 race1.1.2 0 0.
Definition race3 := fetch_end race2.1 0 race2.2.
Definition race4 := fetch_begin race3.1 race1.1.2 0.
Definition race5 := frame_write race4.1.1 0 demo_page.
Definition race_ts0 : list thread := <[0%nat := after_begin 0 race0.2]> (replicate 2 TIdle).
Definition race_ts1 : list thread := <[1%nat := after_begin 0 race1.2]> race_ts0.
Definition race_ts2 : list thread := <[0%nat := TLoaded 0 0 race2.2]> race_ts1.
Definition race_ts3 : list thread := <[0%nat := after_end 0 race3.2]> race_ts2.
Definition race_ts4 : list thread := <[1%nat := after_begin 0 race4.2]> race_ts3.
Definition race_end : system := mkSys race5 race4.1.2 (<[0%nat := THolding 0 0 true]> race_ts4).

Lemma race_run : sys_run (mkSys demo_pool race_store (replicate 2 TIdle)) [(0, demo_page)] race_end.
Proof.
  assert (P3 : forall {A B C} (x : A * B * C), x = (x.1.1, x.1.2, x.2)) by (by intros ? ? ? [[? ?] ?]).
  assert (P2 : forall {A B} (x : A * B), x = (x.1, x.2)) by (by intros ? ? [? ?]).
  pose proof (sr_nil (mkSys demo_pool race_store (replicate 2 TIdle))) as R.
  eapply sr_step in R; [|apply (ss_begin demo_pool race_store (replicate 2 TIdle) 0 0); [reflexivity|exact (P3 _ _ _ race0)]].
  eapply sr_step in R; [|apply (ss_begin race0.1.1 race0.1.2 race_ts0 1 0); [vm_compute; reflexivity|exact (P3 _ _ _ race1)]].
  eapply sr_step in R; [|apply (ss_read race1.1.1 race1.1.2 race_ts1 0 0 0); [vm_compute; reflexivity|exact (P2 _ _ race2)]].
  eapply sr_step in R; [|apply (ss_end race2.1 race1.1.2 race_ts2 0 0 0 race2.2); [vm_compute; reflexivity|exact (P2 _ _ race3)]].
  eapply sr_step in R; [|apply (ss_begin race3.1 race1.1.2 race_ts3 1 0); [vm_compute; reflexivity|exact (P3 _ _ _ race4)]].
  eapply sr_step in R; [|apply (ss_write race4.1.1 race4.1.2 race_ts4 0 0 0 false demo_page); [vm_compute; reflexivity|exact demo_page_ok]].
  exact R.
Qed.

Lemma bufpool_concurrent_witness :
  exists f, frames (pool race_end) !! 0%nat = Some f /\ live f 0 /\ pin_count f = 2 /\
            apply_writes [(0, demo_page)] (st_read race_store) 0 = Some (data f).
Proof.
  destruct (bufpool_concurrent 1 2 demo_pool race_store [(0, demo_page)] race_end) as (_ & Hh & _).
  - reflexivity.
  - apply pager_open_wf; [vm_compute; split; discriminate|apply zeros_bytes].
  - exact race_run.
  - destruct (Hh 0%nat 0%nat 0 true) as (f & Hf & Hl & Hp & Hd); [vm_compute; reflexivity|]. exists f. split; [exact Hf|]. split; [exact Hl|].
    split; [rewrite Hp; vm_compute; reflexivity|exact Hd].
Defined.

(** After any history, a successful [bufpool_flush_all] leaves in the store
    exactly the pages the pool showed, and [bufpool_discard_dirty] makes the pool
    show exactly the pages of the store again. *)
Theorem bufpool_flush_discard {S} `{PageStoreLaws S} (n : nat) (bp0 bp bp' : BufferPool) (s0 s s' : S) (ops : list pool_op)
    (rs : list pool_res) :
  bufpool_create n = Some bp0 -> st_wf s0 -> Forall op_ok ops -> pool_run bp0 s0 ops = (bp, s, rs) ->
  bufpool_flush_all bp s = (bp', s', 0) ->
  (forall p, st_read s' p = view bp s p /\ view bp' s' p = view bp s p) /\
  (forall p, view (bufpool_discard_dirty bp) s p = st_read s p).
Proof.
  intros Hc Hwf Hok Hr Hf. destruct (bufpool_create_idle n bp0 s0 Hc Hwf) as [Hid0 _].
  destruct (pool_run_abs _ _ _ _ _ _ Hid0 Hok Hr) as [Hid _].
  destruct (bufpool_flush_all_spec _ _ _ _ _ Hid Hf) as (_ & Hv & Hs).
  split; [intros p; split; [by apply Hs|apply Hv]|]. by apply bufpool_discard_dirty_spec.
Qed.

Definition demo_dirty : list pool_op := [ONew; OUpdate 0 demo_page].
Definition demo_run2 : BufferPool * Pager * list pool_res := pool_run demo_pool demo_store demo_dirty.
Definition demo_flushed := bufpool_flush_all demo_run2.1.1 demo_run2.1.2.

Lemma bufpool_flush_discard_witness :
  st_read demo_flushed.1.2 0 = Some demo_page /\ view (bufpool_discard_dirty demo_run2.1.1) demo_run2.1.2 0 = st_read demo_run2.1.2 0.
Proof.
  destruct (bufpool_flush_discard 1 demo_pool demo_run2.1.1 demo_flushed.1.1 demo_store demo_run2.1.2 demo_flushed.1.2 demo_dirty demo_run2.2)
    as [Hf Hd].
  - reflexivity.
  - apply pager_open_wf; [vm_compute; split; discriminate|constructor].
  - repeat (constructor; [first [exact I|exact demo_page_ok]|]). constructor.
  - unfold demo_run2. by destruct (pool_run demo_pool demo_store demo_dirty) as [[? ?] ?].
  - transitivity (demo_flushed.1.1, demo_flushed.1.2, demo_flushed.2); [unfold demo_flushed; by destruct (bufpool_flush_all _ _) as [[? ?] ?]|].
    replace demo_flushed.2 with 0 by (vm_compute; reflexivity). reflexivity.
  - destruct (Hf 0) as [Hf0 _]. split; [rewrite Hf0; vm_compute; reflexivity|apply Hd].
Defined.
