(* ===== verification/Heap.v ===== *)
(** * Heap files (src/src/heap.c)

    The heap works on pages through the buffer pool: the functions follow the
    source's fetch, slotted-page call and unpin.  Its contract is a list of pages of
    records, a record being addressed by its page and slot. *)
From S2P Require Import Prelude Page Pager BufPool.

Record RID := mkRID { rid_page : Z; rid_slot : Z }.

#[export] Instance RID_eq_dec : EqDecision RID.
Proof. solve_decision. Defined.

(** The heap shares its pool and pager with the caller; its own field is the first page. *)
Record Heap := mkHeap { first_page : Z }.

Definition heap_init (first : Z) : Heap := mkHeap first.

Section Ops.
Context {S : Type} `{PageStore S}.

(** Results are [None] when a slotted-page operation leaves the page (undefined
    behaviour), otherwise the new pool and store and what the call returns. *)
Definition heap_insert_new (bp : BufferPool) (s : S) (rec : bytes) (len : Z) : option (BufferPool * S * option RID) :=
  let '(bp, s, r) := bufpool_new_page bp s in
  match r with
  | None => Some (bp, s, None)
  | Some (target, i) =>
      page ← frame_data bp i;
      page ← slotpage_init page;
      '(page, slot) ← slotpage_insert page rec len;
      let bp := bufpool_unpin (frame_write bp i page) target true in
      if slot <? 0 then Some (bp, s, None) else Some (bp, s, Some (mkRID target (u16 slot)))
  end.

Definition heap_insert (h : Heap) (bp : BufferPool) (s : S) (rec : bytes) (len : Z) : option (BufferPool * S * option RID) :=
  if first_page h <? st_pages s then
    let target := st_pages s - 1 in
    let '(bp, s, r) := bufpool_fetch bp s target in
    match r with
    | None => Some (bp, s, None)
    | Some i =>
        page ← frame_data bp i;
        '(page, slot) ← slotpage_insert page rec len;
        if 0 <=? slot then Some (bufpool_unpin (frame_write bp i page) target true, s, Some (mkRID target (u16 slot)))
        else heap_insert_new (bufpool_unpin (frame_write bp i page) target false) s rec len
    end
  else heap_insert_new bp s rec len.

(** The record copied to the caller's buffer, or [None] for -1. *)
Definition heap_get (bp : BufferPool) (s : S) (rid : RID) : option (BufferPool * S * option bytes) :=
  let '(bp, s, r) := bufpool_fetch bp s (rid_page rid) in
  match r with
  | None => Some (bp, s, None)
  | Some i =>
      page ← frame_data bp i;
      g ← slotpage_get page (rid_slot rid);
      match g with
      | Some (off, len) => rec ← mem_read page off len; Some (bufpool_unpin bp (rid_page rid) false, s, Some rec)
      | None => Some (bufpool_unpin bp (rid_page rid) false, s, None)
      end
  end.

Definition heap_delete (bp : BufferPool) (s : S) (rid : RID) : option (BufferPool * S * Z) :=
  let '(bp, s, r) := bufpool_fetch bp s (rid_page rid) in
  match r with
  | None => Some (bp, s, -1)
  | Some i =>
      page ← frame_data bp i;
      '(page, rc) ← slotpage_delete page (rid_slot rid);
      Some (bufpool_unpin (frame_write bp i page) (rid_page rid) (rc =? 0), s, rc)
  end.

Definition heap_overwrite (bp : BufferPool) (s : S) (rid : RID) (rec : bytes) (len : Z) : option (BufferPool * S * Z) :=
  let '(bp, s, r) := bufpool_fetch bp s (rid_page rid) in
  match r with
  | None => Some (bp, s, -1)
  | Some i =>
      page ← frame_data bp i;
      '(page, rc) ← slotpage_overwrite page (rid_slot rid) rec len;
      Some (bufpool_unpin (frame_write bp i page) (rid_page rid) (rc =? 0), s, rc)
  end.

(** The callback gets the address and the record and may change its context; a
    nonzero result stops the scan. *)
Context {C : Type} (visit : RID -> bytes -> C -> C * Z).

Fixpoint scan_slots (page : bytes) (pid : Z) (n : nat) (s : Z) (ctx : C) : option (C * Z) :=
  match n with
  | O => Some (ctx, 0)
  | Datatypes.S n' =>
      g ← slotpage_get page s;
      match g with
      | Some (off, len) =>
          rec ← mem_read page off len;
          let '(ctx, r) := visit (mkRID pid s) rec ctx in
          if r =? 0 then scan_slots page pid n' (s + 1) ctx else Some (ctx, r)
      | None => scan_slots page pid n' (s + 1) ctx
      end
  end.

(** [n] pages remain, from [pid] on. *)
Fixpoint scan_pages (bp : BufferPool) (s : S) (n : nat) (pid : Z) (ctx : C) : option (BufferPool * S * C * Z) :=
  match n with
  | O => Some (bp, s, ctx, 0)
  | Datatypes.S n' =>
      let '(bp, s, r) := bufpool_fetch bp s pid in
      match r with
      | None => Some (bp, s, ctx, -1)
      | Some i =>
          page ← frame_data bp i;
          n_slots ← slotpage_num_slots page;
          '(ctx, rc) ← scan_slots page pid (Z.to_nat n_slots) 0 ctx;
          let bp := bufpool_unpin bp pid false in
          if rc =? 0 then scan_pages bp s n' (pid + 1) ctx else Some (bp, s, ctx, rc)
      end
  end.

Definition heap_scan (h : Heap) (bp : BufferPool) (s : S) (ctx : C) : option (BufferPool * S * C * Z) :=
  scan_pages bp s (Z.to_nat (st_pages s - first_page h)) (first_page h) ctx.
End Ops.

(** ** Contract *)

(** The pages of a heap as lists of records with their free space. *)
Abbreviation aheap := (list apage).

(** [room]: whether the store can grow by a page.  A record too large for an empty
    page still leaves the page behind. *)
Definition aheap_new (first : Z) (room : bool) (a : aheap) (rec : bytes) : aheap * option RID :=
  if room then
    if PAGE_SIZE - 4 <? blen rec + 4 then (a ++ [mkAPage [] (PAGE_SIZE - 4)], None)
    else (a ++ [mkAPage [Some rec] (PAGE_SIZE - 4 - blen rec - 4)], Some (mkRID (first + blen a) 0))
  else (a, None).

Definition aheap_insert (first : Z) (room : bool) (a : aheap) (rec : bytes) : aheap * option RID :=
  match list.last a with
  | Some p => if ap_free p <? blen rec + 4 then aheap_new first room a rec
              else (<[(length a - 1)%nat := (aop p (OpInsert rec)).1]> a, Some (mkRID (first + blen a - 1) (blen (ap_recs p))))
  | None => aheap_new first room a rec
  end.

Definition aheap_page (first : Z) (a : aheap) (rid : RID) : option apage :=
  if first <=? rid_page rid then a !! Z.to_nat (rid_page rid - first) else None.

Definition aheap_get (first : Z) (a : aheap) (rid : RID) : option bytes :=
  p ← aheap_page first a rid; mjoin (ap_recs p !! Z.to_nat (rid_slot rid)).

Definition aheap_update (first : Z) (a : aheap) (rid : RID) (op : page_op) : aheap * Z :=
  match aheap_page first a rid with
  | Some p => let '(p', rc) := aop p op in (<[Z.to_nat (rid_page rid - first) := p']> a, rc)
  | None => (a, -1)
  end.

(** The live records in scan order. *)
Fixpoint page_rows (pid slot : Z) (recs : list (option bytes)) : list (RID * bytes) :=
  match recs with
  | [] => []
  | Some b :: r => (mkRID pid slot, b) :: page_rows pid (slot + 1) r
  | None :: r => page_rows pid (slot + 1) r
  end.
Fixpoint aheap_rows (pid : Z) (a : aheap) : list (RID * bytes) :=
  match a with
  | [] => []
  | p :: r => page_rows pid 0 (ap_recs p) ++ aheap_rows (pid + 1) r
  end.

Fixpoint visit_all {C} (visit : RID -> bytes -> C -> C * Z) (rows : list (RID * bytes)) (ctx : C) : C * Z :=
  match rows with
  | [] => (ctx, 0)
  | (rid, rec) :: r => let '(ctx, rc) := visit rid rec ctx in if rc =? 0 then visit_all visit r ctx else (ctx, rc)
  end.

(** ** Pool facts the heap needs *)

Section Refines.
Context {S : Type} `{PageStoreLaws S}.
Implicit Types (bp : BufferPool) (s : S) (a : aheap).

Definition stealable bp : bool := negb (no_steal bp) || steal bp.

Lemma pick_frame_flags bp s bp' s' r : pick_frame bp s = (bp', s', r) -> stealable bp' = stealable bp.
Proof. unfold pick_frame. intros Hp. repeat case_match; simplify_eq; done. Qed.

Lemma fetch_flags bp s p bp' s' r : fetch_locked bp s p = (bp', s', r) -> stealable bp' = stealable bp.
Proof.
  unfold fetch_locked, fetch_begin, fetch_read, fetch_end. intros Hf.
  destruct (find_frame bp p ≫= _) as [[i f]|]; [destruct (io_pending f); by simplify_eq|].
  destruct (pick_frame (count_miss bp) s) as [[b1 s1] r1] eqn:Ep. apply pick_frame_flags in Ep.
  rewrite <- (Ep : _ = stealable bp).
  repeat case_match; simplify_eq; done.
Qed.

Lemma unpin_flags bp i d p b : stealable (bufpool_unpin (frame_write bp i d) p b) = stealable bp.
Proof. unfold bufpool_unpin, frame_write. repeat case_match; done. Qed.

Lemma unpin_flags' bp p b : stealable (bufpool_unpin bp p b) = stealable bp.
Proof. unfold bufpool_unpin. repeat case_match; done. Qed.

Lemma view_exists bp s p : idle bp s -> is_Some (view bp s p) <-> 0 <= p < st_pages s.
Proof.
  intros [Hi Hq _ _]. rewrite <- law_pages by apply Hi. unfold view.
  destruct (view_elim _ _ _ p Hi) as [(i & f & Hf & Hl)|Hn].
  - rewrite (view_live _ _ _ _ _ _ Hi Hf Hl). destruct Hl as (Hv & Hp & <-).
    destruct (pi_frame _ _ _ Hi _ _ Hf) as (_ & _ & _ & _ & E). destruct (E Hv Hp). split; [done|by eexists].
  - by rewrite (view_not_live _ _ _ _ Hi Hn).
Qed.

Lemma st_pages_same bp bp' s s' :
  idle bp s -> idle bp' s' -> (forall q, is_Some (view bp' s' q) <-> is_Some (view bp s q)) -> st_pages s' = st_pages s.
Proof.
  intros Hid Hid' Hv. pose proof (law_pages_nonneg s (pi_wf _ _ _ (id_inv _ _ Hid))).
  pose proof (law_pages_nonneg s' (pi_wf _ _ _ (id_inv _ _ Hid'))).
  destruct (decide (st_pages s' < st_pages s)).
  - specialize (Hv (st_pages s')). rewrite !view_exists in Hv by done. lia.
  - destruct (decide (st_pages s < st_pages s')); [|lia].
    specialize (Hv (st_pages s)). rewrite !view_exists in Hv by done. lia.
Qed.

Lemma page_refines_ok d (p : apage) : page_refines d p -> page_ok d.
Proof. intros (fe & slots & R & _). split; apply R. Qed.

(** ** Representation *)

Record heap_rep (first : Z) bp s a : Prop := {
  hr_idle : idle bp s;
  hr_steal : stealable bp = true;
  hr_first : 0 <= first;
  hr_pages : st_pages s = first + blen a;
  hr_page : forall (i : nat) p, a !! i = Some p -> exists d, view bp s (first + Z.of_nat i) = Some d /\ page_refines d p }.

(** An access to page [i] of the heap: the frame holds a page refining the abstract
    one, and whatever well-formed page is left there becomes the new one. *)
Lemma heap_access first bp s a (i : nat) p :
  reliable S -> heap_rep first bp s a -> a !! i = Some p ->
  exists bp1 s1 k d, fetch_locked bp s (first + Z.of_nat i) = (bp1, s1, Some k) /\ frame_data bp1 k = Some d /\ page_refines d p /\
    forall d' p' (b : bool), page_refines d' p' -> (b = false -> d' = d /\ p' = p) ->
      heap_rep first (bufpool_unpin (frame_write bp1 k d') (first + Z.of_nat i) b) s1 (<[i := p']> a).
Proof.
  intros Hrel Hr Hi. destruct (hr_page _ _ _ _ Hr i p Hi) as (d & Hd & Hp).
  destruct (fetch_total _ _ _ _ Hrel (hr_idle _ _ _ _ Hr) (hr_steal _ _ _ _ Hr) Hd) as (bp1 & s1 & k & Hf).
  exists bp1, s1, k, d.
  assert (Hfd : frame_data bp1 k = Some d).
  { destruct (access_idle _ _ _ _ _ _ d false (hr_idle _ _ _ _ Hr) Hf (page_refines_ok _ _ Hp)) as (d0 & Hd0 & Hv & _); [done|]. congruence. }
  do 3 (split; [done|]). intros d' p' b Hp' Hb.
  destruct (access_idle _ _ _ _ _ _ d' b (hr_idle _ _ _ _ Hr) Hf (page_refines_ok _ _ Hp')) as (d0 & _ & _ & Hid' & Hv').
  { intros ->. destruct Hb as [-> _]; done. }
  pose proof (lookup_lt_Some _ _ _ Hi) as Hlt.
  split; [done| |apply Hr| |].
  - rewrite unpin_flags. rewrite (fetch_flags _ _ _ _ _ _ Hf). apply Hr.
  - assert (blen (<[i := p']> a) = blen a) as -> by (unfold blen; by rewrite length_insert). rewrite <- (hr_pages _ _ _ _ Hr). eapply st_pages_same; [apply Hr|done|].
    intros q. rewrite Hv'. case_decide; [|done]. subst q. rewrite Hd. split; by eexists.
  - intros j pj Hj. destruct (decide (j = i)) as [->|Hne].
    + rewrite list_lookup_insert_eq in Hj by done. simplify_eq. exists d'. split; [|done]. rewrite Hv', decide_True by done. done.
    + rewrite list_lookup_insert_ne in Hj by done. destruct (hr_page _ _ _ _ Hr j pj Hj) as (dj & Hdj & Hpj).
      exists dj. split; [|done]. rewrite Hv', decide_False by lia. done.
Qed.

(** Reading without writing through the pointer. *)
Lemma frame_write_same bp i d : frame_data bp i = Some d -> frame_write bp i d = bp.
Proof.
  unfold frame_data, frame_write. intros (f & Hf & ->)%fmap_Some. rewrite Hf.
  assert (set_data f (data f) = f) as -> by (by destruct f). unfold set_frame. rewrite list_insert_id by done. by destruct bp.
Qed.

Lemma fetch_missing first bp s a p bp' s' r :
  heap_rep first bp s a -> ~ (0 <= p < st_pages s) -> fetch_locked bp s p = (bp', s', r) ->
  r = None /\ heap_rep first bp' s' a.
Proof.
  intros Hr Hp Hf. destruct (fetch_idle _ _ _ _ _ _ (hr_idle _ _ _ _ Hr) Hf) as (Hv & Hi & Hcase).
  destruct r as [i|].
  - destruct Hcase as (_ & _ & f & _ & _ & _ & Hx). destruct Hp. apply (view_exists bp s p (hr_idle _ _ _ _ Hr)). by eexists.
  - split; [done|]. split; [done| |apply Hr| |].
    + rewrite (fetch_flags _ _ _ _ _ _ Hf). apply Hr.
    + rewrite <- (hr_pages _ _ _ _ Hr). eapply st_pages_same; [apply Hr|done|]. intros q. by rewrite Hv.
    + intros i pi Hi'. rewrite Hv. by apply Hr.
Qed.

Lemma heap_get_spec first bp s a rid :
  reliable S -> heap_rep first bp s a -> first <= rid_page rid -> 0 <= rid_slot rid ->
  exists bp' s', heap_get bp s rid = Some (bp', s', aheap_get first a rid) /\ heap_rep first bp' s' a.
Proof.
  intros Hrel Hr Hf Hs. unfold heap_get, bufpool_fetch, aheap_get, aheap_page.
  rewrite (proj2 (Z.leb_le _ _)) by done. destruct (a !! Z.to_nat (rid_page rid - first)) as [p|] eqn:Ea.
  - destruct (heap_access _ _ _ _ _ _ Hrel Hr Ea) as (bp1 & s1 & k & d & Hfe & Hfd & Hp & Hstep).
    replace (first + Z.of_nat (Z.to_nat (rid_page rid - first))) with (rid_page rid) in * by lia.
    rewrite Hfe, Hfd. simpl. pose proof (Hstep d p false Hp ltac:(done)) as Hr'.
    rewrite list_insert_id, frame_write_same in Hr' by done.
    pose proof (page_lookup_abs d (ap_recs p) (rid_slot rid) (page_refines_abs _ _ Hp) Hs) as Hl. unfold page_lookup in Hl.
    destruct Hp as (fe & slots & R & Hrecs & _). unfold slotpage_get in *. rewrite (pr_header _ _ _ R) in *. simpl in *.
    destruct (Z.leb_spec (blen slots) (rid_slot rid)) as [Hge|Hlt]; simpl; [rewrite <- Hl; eauto|].
    destruct (lookup_lt_is_Some_2 slots (Z.to_nat (rid_slot rid))) as [sl Hsl]; [unfold blen in Hlt; lia|].
    pose proof (pr_slots _ _ _ R _ _ Hsl) as Hat. rewrite Z2Nat.id in Hat by lia. rewrite Hat in *. simpl in *.
    destruct (Z.eqb_spec (s_offset sl) 0) as [E0|E0]; simpl in *; [rewrite <- Hl; eauto|].
    destruct (slot_rec_Some _ _ _ _ _ R Hsl E0) as (b & Hb & _). unfold slot_rec in Hb.
    destruct (Z.eqb_spec (s_offset sl) 0); [done|]. rewrite Hb in *. simpl. rewrite <- Hl. eauto.
  - simpl. destruct (fetch_locked bp s (rid_page rid)) as [[bp' s'] r] eqn:Hfe.
    apply (fetch_missing first _ _ a) in Hfe as [-> Hr']; [eauto|done|].
    rewrite (hr_pages _ _ _ _ Hr). apply lookup_ge_None_1 in Ea. unfold blen. pose proof (hr_first _ _ _ _ Hr). lia.
Qed.

Definition in_place (op : page_op) : Prop := (exists i, op = OpDelete i) \/ (exists i rec, op = OpOverwrite i rec).

Lemma in_place_fails op d d' p p' rc :
  in_place op -> cop d op = Some (d', rc) -> aop p op = (p', rc) -> rc <> 0 -> d' = d /\ p' = p.
Proof.
  intros Hop Hc Ha Hrc. destruct Hop as [[i ->]|(i & rec & ->)]; simpl in *.
  - split.
    + unfold slotpage_delete in Hc. inv_opt. destruct (num_slots x <=? i); inv_opt; [by simplify_eq|congruence].
    + destruct (blen (ap_recs p) <=? i); by simplify_eq.
  - split.
    + unfold slotpage_overwrite in Hc. inv_opt. destruct (num_slots x <=? i); inv_opt; [by simplify_eq|].
      destruct (_ || _); inv_opt; [by simplify_eq|congruence].
    + repeat case_match; by simplify_eq.
Qed.

(** Deletion and overwriting share their shape: a page operation on the fetched page. *)
Lemma heap_update_spec first bp s a rid op (f : bytes -> option (bytes * Z)) :
  reliable S -> heap_rep first bp s a -> first <= rid_page rid -> Page.op_ok op -> (forall d, f d = cop d op) ->
  in_place op ->
  exists bp' s',
    (let '(bp, s, r) := bufpool_fetch bp s (rid_page rid) in
     match r with
     | None => Some (bp, s, -1)
     | Some i => page ← frame_data bp i; '(page, rc) ← f page;
                 Some (bufpool_unpin (frame_write bp i page) (rid_page rid) (rc =? 0), s, rc)
     end) = Some (bp', s', (aheap_update first a rid op).2) /\ heap_rep first bp' s' (aheap_update first a rid op).1.
Proof.
  intros Hrel Hr Hf Hok Hop Hkeep. unfold bufpool_fetch, aheap_update, aheap_page.
  rewrite (proj2 (Z.leb_le _ _)) by done. destruct (a !! Z.to_nat (rid_page rid - first)) as [p|] eqn:Ea.
  - destruct (heap_access _ _ _ _ _ _ Hrel Hr Ea) as (bp1 & s1 & k & d & Hfe & Hfd & Hp & Hstep).
    replace (first + Z.of_nat (Z.to_nat (rid_page rid - first))) with (rid_page rid) in * by lia.
    rewrite Hfe, Hfd. simpl. destruct (cop_refines d p op Hp Hok) as (d' & p' & rc & Hc & Ha & Hp').
    rewrite Hop, Hc, Ha. simpl. eexists _, _. split; [done|]. apply Hstep; [done|].
    intros Hrc%Z.eqb_neq. by eapply in_place_fails.
  - simpl. destruct (fetch_locked bp s (rid_page rid)) as [[bp' s'] r] eqn:Hfe.
    apply (fetch_missing first _ _ a) in Hfe as [-> Hr']; [eauto|done|].
    rewrite (hr_pages _ _ _ _ Hr). apply lookup_ge_None_1 in Ea. unfold blen. pose proof (hr_first _ _ _ _ Hr). lia.
Qed.

Definition rec_ok (rec : bytes) : Prop := Forall is_byte rec /\ blen rec + SLOT_SIZE < 65536.

(** Whether the store grants a page from a state with as many pages as [s]. *)
Definition grants s (room : bool) : Prop :=
  exists s1, st_wf s1 /\ st_pages s1 = st_pages s /\ room = bool_decide (is_Some (st_alloc s1).2).

Lemma heap_new_spec first bp s a rec :
  reliable S -> heap_rep first bp s a -> rec_ok rec ->
  exists bp' s' room, grants s room /\
    heap_insert_new bp s rec (blen rec) = Some (bp', s', (aheap_new first room a rec).2) /\
    heap_rep first bp' s' (aheap_new first room a rec).1.
Proof.
  intros Hrel Hr [Hb Hlen]. unfold heap_insert_new, bufpool_new_page. destruct (st_alloc s) as [s1 id] eqn:Ea.
  assert (Hg : grants s (bool_decide (is_Some id))).
  { exists s. split; [apply Hr|]. split; [done|]. by rewrite Ea. }
  destruct (alloc_idle _ _ _ _ (hr_idle _ _ _ _ Hr) Ea) as [Hid1 Hv1]. destruct id as [p|].
  2: { eexists _, _, _. split; [exact Hg|]. rewrite bool_decide_eq_false_2 by (by intros [? ?]). split; [done|]. simpl.
       split; [done|apply Hr|apply Hr| |].
       - rewrite <- (hr_pages _ _ _ _ Hr). eapply st_pages_same; [apply Hr|done|]. intros q. by rewrite Hv1.
       - intros i q Hi. rewrite Hv1. by apply Hr. }
  destruct Hv1 as [Hnone Hv1].
  assert (Hp : p = st_pages s /\ st_pages s1 = st_pages s + 1).
  { assert (Hn : ~ (0 <= p < st_pages s)) by (rewrite <- (view_exists bp s p (hr_idle _ _ _ _ Hr)), Hnone; by intros [? ?]).
    assert (Hs1 : 0 <= p < st_pages s1) by (rewrite <- (view_exists bp s1 p Hid1), Hv1, decide_True by done; by eexists).
    assert (Hsame : forall q, q <> p -> 0 <= q < st_pages s1 <-> 0 <= q < st_pages s).
    { intros q Hq. rewrite <- (view_exists bp s1 q Hid1), <- (view_exists bp s q (hr_idle _ _ _ _ Hr)), Hv1, decide_False by done. done. }
    pose proof (law_pages_nonneg s (pi_wf _ _ _ (id_inv _ _ (hr_idle _ _ _ _ Hr)))).
    pose proof (Hsame (st_pages s)). pose proof (Hsame (st_pages s1 - 1)). lia. }
  destruct Hp as [-> Hpages].
  destruct (fetch_total bp s1 (st_pages s) (zeros PAGE_SIZE) Hrel Hid1 (hr_steal _ _ _ _ Hr)) as (bp2 & s2 & i & Hf).
  { by rewrite Hv1, decide_True. }
  rewrite Hf. simpl.
  destruct (slotpage_init_refines (zeros PAGE_SIZE)) as (d0 & Hinit & Href0); [apply zeros_page_ok..|].
  destruct (cop_refines d0 _ (OpInsert rec) Href0) as (d' & p' & rc & Hc & Ha & Hp'); [done|].
  destruct (access_idle _ _ _ _ _ _ d' true Hid1 Hf (page_refines_ok _ _ Hp')) as (dz & Hfd & Hz & Hid' & Hv'); [done|].
  rewrite Hfd. simpl. rewrite Hv1, decide_True in Hz by done. injection Hz as <-. rewrite Hinit. simpl.
  change (slotpage_insert d0 rec (blen rec)) with (cop d0 (OpInsert rec)). rewrite Hc. simpl.
  assert (Hrep : heap_rep first (bufpool_unpin (frame_write bp2 i d') (st_pages s) true) s2 (a ++ [p'])).
  { split; [done|rewrite unpin_flags, (fetch_flags _ _ _ _ _ _ Hf); apply Hr|apply Hr| |].
    - rewrite blen_app. change (blen [p']) with 1. rewrite Z.add_assoc, <- (hr_pages _ _ _ _ Hr), <- Hpages.
      eapply st_pages_same; [exact Hid1|done|]. intros q. rewrite Hv'. case_decide; [|done]. subst q.
      rewrite Hv1, decide_True by done. split; by eexists.
    - intros j q Hj. apply lookup_app_Some in Hj as [Hj|[Hge Hj]].
      + destruct (hr_page _ _ _ _ Hr j q Hj) as (d & Hd & Hq). exists d. split; [|done].
        assert (first + Z.of_nat j <> st_pages s).
        { rewrite (hr_pages _ _ _ _ Hr). apply lookup_lt_Some in Hj. unfold blen. lia. }
        rewrite Hv', decide_False, Hv1, decide_False by done. done.
      + apply list_lookup_singleton_Some in Hj as [Hj <-]. exists d'. split; [|done].
        rewrite Hv', decide_True; [done|]. rewrite (hr_pages _ _ _ _ Hr). unfold blen. lia. }
  eexists _, _, _. split; [exact Hg|]. rewrite bool_decide_eq_true_2 by (by eexists). unfold aheap_new. simpl in Ha.
  destruct (PAGE_SIZE - 4 <? blen rec + 4); injection Ha as <- <-; simpl in *; (split; [|done]); [done|].
  by rewrite <- (hr_pages _ _ _ _ Hr).
Qed.

Lemma last_lookup_nat (a : aheap) p : list.last a = Some p -> a !! (length a - 1)%nat = Some p.
Proof. intros Hl. rewrite last_lookup in Hl. by rewrite <- Nat.sub_1_r in Hl. Qed.

Lemma heap_insert_spec first bp s a rec :
  reliable S -> heap_rep first bp s a -> rec_ok rec ->
  exists bp' s' room, grants s room /\
    heap_insert (mkHeap first) bp s rec (blen rec) = Some (bp', s', (aheap_insert first room a rec).2) /\
    heap_rep first bp' s' (aheap_insert first room a rec).1.
Proof.
  intros Hrel Hr Hok. unfold heap_insert, bufpool_fetch, aheap_insert. simpl. pose proof (hr_pages _ _ _ _ Hr) as Hn.
  destruct (list.last a) as [p|] eqn:El.
  - pose proof (last_lookup_nat _ _ El) as Hlast. pose proof (lookup_lt_Some _ _ _ Hlast) as Hlt.
    rewrite (proj2 (Z.ltb_lt _ _)) by (unfold blen in Hn; lia).
    destruct (heap_access _ _ _ _ _ _ Hrel Hr Hlast) as (bp1 & s1 & k & d & Hfe & Hfd & Hp & Hstep).
    replace (first + Z.of_nat (length a - 1)) with (st_pages s - 1) in * by (unfold blen in Hn; lia).
    rewrite Hfe, Hfd. simpl. change (slotpage_insert d rec (blen rec)) with (cop d (OpInsert rec)).
    destruct (cop_refines d p (OpInsert rec) Hp Hok) as (d' & p' & rc & Hc & Ha & Hp'). rewrite Hc. simpl.
    pose proof Ha as Ha'. simpl in Ha'. destruct (Z.ltb_spec (ap_free p) (blen rec + 4)) as [Hfull|Hfits].
    + injection Ha' as <- <-. simpl.
      assert (Hdd : d' = d).
      { destruct Hp as (fe & slots & R & _ & Hfr). destruct Hok as [Hb Hl]. unfold SLOT_SIZE in Hl.
        simpl in Hc. destruct (slotpage_insert_rep _ _ _ rec _ R eq_refl Hb Hl) as [[_ Hx]|(Hx & _)]; [congruence|lia]. }
      subst d'. pose proof (Hstep d p false Hp ltac:(done)) as Hr1. rewrite list_insert_id in Hr1 by done.
      destruct (heap_new_spec _ _ _ _ rec Hrel Hr1 Hok) as (bp2 & s2 & room & Hg & Hnew & Hr2).
      exists bp2, s2, room. split; [|done]. destruct Hg as (s3 & ? & Hs3 & ?). exists s3. split; [done|]. split; [|done].
      rewrite Hs3, (hr_pages _ _ _ _ Hr1), Hn. done.
    + injection Ha' as <- <-. rewrite (proj2 (Z.leb_le _ _)) by apply blen_nonneg.
      exists (bufpool_unpin (frame_write bp1 k d') (st_pages s - 1) true), s1, (bool_decide (is_Some (st_alloc s).2)).
      split; [exists s; split; [apply Hr|done]|]. split; [|by apply Hstep].
      assert (Hsm : blen (ap_recs p) < 65536).
      { destruct Hp as (fe & slots & R & -> & _). rewrite blen_fmap. pose proof (pr_fe _ _ _ R). unfold PAGE_SIZE in *. lia. }
      rewrite u16_small by (pose proof (blen_nonneg (ap_recs p)); lia). rewrite Hn. done.
  - apply last_None in El as ->. rewrite (proj2 (Z.ltb_ge _ _)) by (unfold blen in Hn; simpl in Hn; lia).
    by apply heap_new_spec.
Qed.

(** ** Scans *)

Context {C : Type} (visit : RID -> bytes -> C -> C * Z).

Lemma visit_all_app r1 r2 (ctx : C) :
  visit_all visit (r1 ++ r2) ctx =
  let '(c, rc) := visit_all visit r1 ctx in if rc =? 0 then visit_all visit r2 c else (c, rc).
Proof.
  revert ctx. induction r1 as [|[rid rec] r1 IH]; intros ctx; simpl; [done|].
  destruct (visit rid rec ctx) as [c rc]. destruct (rc =? 0) eqn:E; [apply IH|]. by rewrite E.
Qed.

Lemma scan_slots_spec d p pid n k ctx :
  page_refines d p -> 0 <= k -> n = (length (ap_recs p) - Z.to_nat k)%nat ->
  scan_slots visit d pid n k ctx = Some (visit_all visit (page_rows pid k (drop (Z.to_nat k) (ap_recs p))) ctx).
Proof.
  intros Hp. pose proof Hp as (fe & slots & R & Hrecs & _). revert k ctx. induction n as [|n IH]; intros k ctx Hk Hn.
  - rewrite drop_ge by lia. done.
  - destruct (lookup_lt_is_Some_2 slots (Z.to_nat k)) as [sl Hsl]; [rewrite Hrecs, length_fmap in Hn; lia|].
    assert (Hat := pr_slots _ _ _ R _ _ Hsl). rewrite Z2Nat.id in Hat by lia.
    assert (Hd : drop (Z.to_nat k) (ap_recs p) = slot_rec d sl :: drop (Z.to_nat (k + 1)) (ap_recs p)).
    { rewrite (drop_S _ (slot_rec d sl)); [do 2 f_equal; lia|]. by rewrite Hrecs, list_lookup_fmap, Hsl. }
    rewrite Hd. cbn [scan_slots page_rows]. unfold slotpage_get. rewrite (pr_header _ _ _ R). simpl.
    destruct (Z.leb_spec (blen slots) k); [apply lookup_lt_Some in Hsl; unfold blen in *; lia|].
    rewrite Hat. simpl. unfold slot_rec at 1. destruct (Z.eqb_spec (s_offset sl) 0) as [E0|E0]; simpl.
    { rewrite IH by lia. done. }
    destruct (slot_rec_Some _ _ _ _ _ R Hsl E0) as (b & Hb & _). unfold slot_rec in Hb.
    rewrite (proj2 (Z.eqb_neq _ _) E0) in Hb. rewrite Hb. simpl.
    destruct (visit (mkRID pid k) b ctx) as [c rc]. destruct (rc =? 0); [|done]. rewrite IH by lia. done.
Qed.

Lemma scan_pages_spec first : forall rest pre bp s ctx,
  reliable S -> heap_rep first bp s (pre ++ rest) ->
  exists bp' s', scan_pages visit bp s (length rest) (first + blen pre) ctx =
      Some (bp', s', (visit_all visit (aheap_rows (first + blen pre) rest) ctx).1, (visit_all visit (aheap_rows (first + blen pre) rest) ctx).2) /\
    heap_rep first bp' s' (pre ++ rest).
Proof.
  induction rest as [|p rest IH]; intros pre bp s ctx Hrel Hr; [by exists bp, s|].
  cbn [length scan_pages aheap_rows]. unfold bufpool_fetch.
  assert (Hlk : (pre ++ p :: rest) !! length pre = Some p) by (by apply list_lookup_middle).
  destruct (heap_access _ _ _ _ _ _ Hrel Hr Hlk) as (bp1 & s1 & k & d & Hfe & Hfd & Hp & Hstep).
  fold (blen pre) in Hfe, Hstep. rewrite Hfe, Hfd. simpl. pose proof (Hstep d p false Hp ltac:(done)) as Hr1.
  rewrite list_insert_id, frame_write_same in Hr1 by done.
  pose proof Hp as (fe & slots & R & Hrecs & _). unfold slotpage_num_slots. rewrite (pr_header _ _ _ R). simpl.
  rewrite (scan_slots_spec d p) by (done || (rewrite Hrecs, length_fmap; unfold blen; lia)). simpl.
  rewrite drop_0, visit_all_app. destruct (visit_all visit (page_rows (first + blen pre) 0 (ap_recs p)) ctx) as [c rc] eqn:Ev.
  destruct (rc =? 0) eqn:Erc; simpl; [|eauto].
  assert (Happ : pre ++ p :: rest = (pre ++ [p]) ++ rest) by (by rewrite <- app_assoc). rewrite Happ in Hr1 |- *.
  destruct (IH _ _ _ c Hrel Hr1) as (bp2 & s2 & Hs & Hr2). rewrite blen_app in Hs. change (blen [p]) with 1 in Hs.
  replace (first + (blen pre + 1)) with (first + blen pre + 1) in Hs by lia. rewrite Hs. eauto.
Qed.

Lemma heap_scan_spec first bp s a ctx :
  reliable S -> heap_rep first bp s a ->
  exists bp' s', heap_scan visit (mkHeap first) bp s ctx =
      Some (bp', s', (visit_all visit (aheap_rows first a) ctx).1, (visit_all visit (aheap_rows first a) ctx).2) /\
    heap_rep first bp' s' a.
Proof.
  intros Hrel Hr. unfold heap_scan. simpl. rewrite (hr_pages _ _ _ _ Hr).
  replace (Z.to_nat (first + blen a - first)) with (length a) by (unfold blen; lia).
  destruct (scan_pages_spec first a [] bp s ctx Hrel Hr) as (bp' & s' & Hs & Hr'). change (blen []) with 0 in Hs.
  rewrite Z.add_0_r in Hs. eauto.
Qed.
End Refines.

(** ** Histories *)

Inductive heap_op :=
| HInsert (rec : bytes) | HGet (rid : RID) | HDelete (rid : RID) | HOverwrite (rid : RID) (rec : bytes) | HScan.

Inductive heap_res := HRid (r : option RID) | HRec (r : option bytes) | HRc (rc : Z) | HRows (rows : list (RID * bytes)) (rc : Z).

(** The scan callback that collects every row. *)
Definition collect (rid : RID) (rec : bytes) (rows : list (RID * bytes)) : list (RID * bytes) * Z := (rows ++ [(rid, rec)], 0).

Definition heap_exec {S} `{PageStore S} (h : Heap) (bp : BufferPool) (s : S) (op : heap_op) : option (BufferPool * S * heap_res) :=
  match op with
  | HInsert rec => '(bp, s, r) ← heap_insert h bp s rec (blen rec); Some (bp, s, HRid r)
  | HGet rid => '(bp, s, r) ← heap_get bp s rid; Some (bp, s, HRec r)
  | HDelete rid => '(bp, s, rc) ← heap_delete bp s rid; Some (bp, s, HRc rc)
  | HOverwrite rid rec => '(bp, s, rc) ← heap_overwrite bp s rid rec (blen rec); Some (bp, s, HRc rc)
  | HScan => '(bp, s, rows, rc) ← heap_scan collect h bp s []; Some (bp, s, HRows rows rc)
  end.

Fixpoint heap_run {S} `{PageStore S} (h : Heap) (bp : BufferPool) (s : S) (ops : list heap_op) : option (BufferPool * S * list heap_res) :=
  match ops with
  | [] => Some (bp, s, [])
  | op :: ops => '(bp, s, r) ← heap_exec h bp s op; '(bp, s, rs) ← heap_run h bp s ops; Some (bp, s, r :: rs)
  end.

Definition aheap_exec (first : Z) (room : bool) (a : aheap) (op : heap_op) : aheap * heap_res :=
  match op with
  | HInsert rec => let '(a, r) := aheap_insert first room a rec in (a, HRid r)
  | HGet rid => (a, HRec (aheap_get first a rid))
  | HDelete rid => let '(a, rc) := aheap_update first a rid (OpDelete (rid_slot rid)) in (a, HRc rc)
  | HOverwrite rid rec => let '(a, rc) := aheap_update first a rid (OpOverwrite (rid_slot rid) rec) in (a, HRc rc)
  | HScan => (a, HRows (aheap_rows first a) 0)
  end.

(** One flag per operation says whether the store could grow. *)
Fixpoint aheap_run (first : Z) (a : aheap) (steps : list (bool * heap_op)) : aheap * list heap_res :=
  match steps with
  | [] => (a, [])
  | (room, op) :: r => let '(a, x) := aheap_exec first room a op in let '(a, xs) := aheap_run first a r in (a, x :: xs)
  end.

Definition rid_ok (first : Z) (rid : RID) : Prop := first <= rid_page rid /\ 0 <= rid_slot rid < 65536.

Definition hop_ok (first : Z) (op : heap_op) : Prop :=
  match op with
  | HInsert rec => rec_ok rec
  | HGet rid | HDelete rid => rid_ok first rid
  | HOverwrite rid rec => rid_ok first rid /\ Forall is_byte rec
  | HScan => True
  end.

Lemma visit_all_collect rows ctx : visit_all collect rows ctx = (ctx ++ rows, 0).
Proof.
  revert ctx. induction rows as [|[rid rec] rows IH]; intros ctx; simpl; [by rewrite app_nil_r|].
  rewrite IH, <- app_assoc. done.
Qed.

Lemma heap_exec_spec {S} `{PageStoreLaws S} first bp (s : S) a op :
  reliable S -> heap_rep first bp s a -> hop_ok first op ->
  exists bp' s' room, grants s room /\
    heap_exec (mkHeap first) bp s op = Some (bp', s', (aheap_exec first room a op).2) /\
    heap_rep first bp' s' (aheap_exec first room a op).1.
Proof.
  intros Hrel Hr Hok.
  assert (Hg : grants s (bool_decide (is_Some (st_alloc s).2))) by (exists s; split; [apply Hr|done]).
  destruct op as [rec|rid|rid|rid rec|]; cbn [heap_exec aheap_exec].
  - destruct (heap_insert_spec _ _ _ _ rec Hrel Hr Hok) as (bp' & s' & room & Hgr & He & Hr').
    exists bp', s', room. split; [done|]. rewrite He. simpl. by destruct (aheap_insert first room a rec).
  - destruct Hok as [Hp Hs]. destruct (heap_get_spec _ _ _ _ rid Hrel Hr Hp ltac:(lia)) as (bp' & s' & He & Hr').
    eexists bp', s', _. split; [exact Hg|]. by rewrite He.
  - destruct Hok as [Hp Hs]. destruct (heap_update_spec first bp s a rid (OpDelete (rid_slot rid)) (fun d => slotpage_delete d (rid_slot rid)))
      as (bp' & s' & He & Hr'); try done; [left; eauto|].
    eexists bp', s', _. split; [exact Hg|]. unfold heap_delete. rewrite He. simpl. by destruct (aheap_update _ _ _ _).
  - destruct Hok as [[Hp Hs] Hb].
    destruct (heap_update_spec first bp s a rid (OpOverwrite (rid_slot rid) rec) (fun d => slotpage_overwrite d (rid_slot rid) rec (blen rec)))
      as (bp' & s' & He & Hr'); try done; [right; eauto|].
    eexists bp', s', _. split; [exact Hg|]. unfold heap_overwrite. rewrite He. simpl. by destruct (aheap_update _ _ _ _).
  - destruct (heap_scan_spec collect first bp s a [] Hrel Hr) as (bp' & s' & He & Hr').
    eexists bp', s', _. split; [exact Hg|]. rewrite He, visit_all_collect. done.
Qed.

Definition growable (S : Type) `{PageStore S} : Prop := forall s : S, st_wf s -> is_Some (st_alloc s).2.

Lemma heap_run_spec {S} `{PageStoreLaws S} first ops : forall bp (s : S) a,
  reliable S -> heap_rep first bp s a -> Forall (hop_ok first) ops ->
  exists bp' s' rooms, length rooms = length ops /\ (growable S -> Forall (eq true) rooms) /\
    heap_run (mkHeap first) bp s ops = Some (bp', s', (aheap_run first a (zip rooms ops)).2) /\
    heap_rep first bp' s' (aheap_run first a (zip rooms ops)).1.
Proof.
  induction ops as [|op ops IH]; intros bp s a Hrel Hr Hok.
  { exists bp, s, []. split; [done|]. split; [constructor|]. done. }
  inversion_clear Hok as [|? ? Hop Hops]. destruct (heap_exec_spec _ _ _ _ op Hrel Hr Hop) as (bp1 & s1 & room & Hg & He & Hr1).
  destruct (IH _ _ _ Hrel Hr1 Hops) as (bp2 & s2 & rooms & Hlen & Hall & Hrun & Hr2).
  exists bp2, s2, (room :: rooms). split; [simpl; by rewrite Hlen|]. split.
  - intros Hgr. constructor; [|auto]. destruct Hg as (s3 & Hwf & _ & ->). rewrite bool_decide_eq_true_2; [done|]. by apply Hgr.
  - cbn [heap_run]. rewrite He. cbn [mbind option_bind]. simpl. rewrite Hrun. simpl.
    destruct (aheap_exec first room a op) as [a1 x1]. simpl in *. by destruct (aheap_run first a1 (zip rooms ops)).
Qed.

Lemma heap_empty_rep {S} `{PageStoreLaws S} n bp (s : S) :
  bufpool_create n = Some bp -> st_wf s -> heap_rep (st_pages s) bp s [].
Proof.
  intros Hc Hwf. destruct (bufpool_create_idle n bp s Hc Hwf) as [Hid _]. split; [done| | | |done].
  - unfold bufpool_create in Hc. destruct (n =? 0)%nat; by simplify_eq.
  - by apply law_pages_nonneg.
  - unfold blen. simpl. lia.
Qed.

(** C8. Heap files refine a list of pages of records: any history of inserts,
    reads, deletes, overwrites and full scans on a fresh heap, through a buffer pool
    of any size (down to one frame) over a lawful store whose writes do not fail,
    stays inside its pages and returns exactly what the abstract heap returns; an
    insert is refused only when the record exceeds an empty page or the store
    cannot grow. *)
Theorem heap_refines {S} `{PageStoreLaws S} (n : nat) (bp : BufferPool) (s : S) (ops : list heap_op) :
  reliable S -> bufpool_create n = Some bp -> st_wf s -> Forall (hop_ok (st_pages s)) ops ->
  exists bp' s' rooms a rs, length rooms = length ops /\ (growable S -> Forall (eq true) rooms) /\
    heap_run (heap_init (st_pages s)) bp s ops = Some (bp', s', rs) /\
    aheap_run (st_pages s) [] (zip rooms ops) = (a, rs) /\ heap_rep (st_pages s) bp' s' a.
Proof.
  intros Hrel Hc Hwf Hok. destruct (heap_run_spec (st_pages s) ops bp s [] Hrel (heap_empty_rep n bp s Hc Hwf) Hok)
    as (bp' & s' & rooms & Hlen & Hall & Hrun & Hr).
  exists bp', s', rooms. destruct (aheap_run (st_pages s) [] (zip rooms ops)) as [a rs] eqn:Ea. exists a, rs. done.
Qed.

Definition heap_demo : list heap_op :=
  [HInsert [1; 2; 3]; HInsert (replicate 4080 5); HOverwrite (mkRID 0 0) [7; 8; 9]; HScan; HDelete (mkRID 1 0); HGet (mkRID 1 0);
   HInsert (replicate 4090 6); HGet (mkRID 0 0)].

Lemma heap_refines_witness :
  exists bp' s' rooms a rs, length rooms = length heap_demo /\ (growable Pager -> Forall (eq true) rooms) /\
    heap_run (heap_init (st_pages demo_store)) demo_pool demo_store heap_demo = Some (bp', s', rs) /\
    aheap_run (st_pages demo_store) [] (zip rooms heap_demo) = (a, rs) /\ heap_rep (st_pages demo_store) bp' s' a.
Proof.
  apply (heap_refines 1 demo_pool demo_store heap_demo); [exact pager_reliable|reflexivity| |].
  - apply pager_open_wf; [vm_compute; split; discriminate|constructor].
  - assert (Hrep : forall n b, is_byte b -> Z.of_nat n < 65000 -> rec_ok (replicate n b)).
    { intros n b Hb Hn. split; [by apply Forall_replicate|]. unfold blen. rewrite length_replicate. unfold SLOT_SIZE. lia. }
    change (st_pages demo_store) with 0.
    repeat (constructor; [first [apply Hrep; [unfold is_byte; lia|lia]|repeat split; simpl; unfold is_byte, SLOT_SIZE, blen; simpl; repeat constructor; lia]|]).
    constructor.
Defined.

Lemma aheap_get_insert_page first (a : aheap) (i : nat) p p' rid :
  a !! i = Some p ->
  aheap_get first (<[i := p']> a) rid =
  if decide (rid_page rid = first + Z.of_nat i) then mjoin (ap_recs p' !! Z.to_nat (rid_slot rid)) else aheap_get first a rid.
Proof.
  intros Hi. unfold aheap_get, aheap_page. destruct (Z.leb_spec first (rid_page rid)) as [Hf|Hf]; [|case_decide; [lia|done]].
  case_decide as Hp.
  - replace (Z.to_nat (rid_page rid - first)) with i by lia. rewrite list_lookup_insert_eq by (by eapply lookup_lt_Some). done.
  - rewrite list_lookup_insert_ne by lia. done.
Qed.

Lemma aheap_get_app first (a : aheap) p rid :
  aheap_get first (a ++ [p]) rid =
  if decide (rid_page rid = first + blen a) then mjoin (ap_recs p !! Z.to_nat (rid_slot rid)) else aheap_get first a rid.
Proof.
  unfold aheap_get, aheap_page, blen. destruct (Z.leb_spec first (rid_page rid)) as [Hf|Hf]; [|case_decide; [lia|done]].
  case_decide as Hp.
  - replace (Z.to_nat (rid_page rid - first)) with (length a) by lia. by rewrite list_lookup_middle.
  - destruct (decide (Z.to_nat (rid_page rid - first) < length a)%nat).
    + by rewrite lookup_app_l.
    + rewrite (lookup_ge_None_2 (a ++ [p])) by (rewrite length_app; simpl; lia). by rewrite (lookup_ge_None_2 a) by lia.
Qed.

Lemma aheap_get_new_page first (a : aheap) rid : rid_page rid = first + blen a -> aheap_get first a rid = None.
Proof.
  intros Hp. unfold aheap_get, aheap_page, blen in *. destruct (first <=? rid_page rid); [|done].
  rewrite lookup_ge_None_2 by lia. done.
Qed.

(** In the abstract heap an insert makes one new address valid and changes nothing else. *)
Lemma aheap_insert_get first room (a : aheap) rec rid' :
  0 <= rid_slot rid' ->
  match (aheap_insert first room a rec).2 with
  | Some rid => aheap_get first (aheap_insert first room a rec).1 rid = Some rec /\ aheap_get first a rid = None
  | None => True
  end /\
  ((aheap_insert first room a rec).2 <> Some rid' -> aheap_get first (aheap_insert first room a rec).1 rid' = aheap_get first a rid').
Proof.
  intros Hs.
  assert (Hnil : forall (n : nat), mjoin (@nil (option bytes) !! n) = None) by (intros []; done).
  assert (Hnew : match (aheap_new first room a rec).2 with
    | Some rid => aheap_get first (aheap_new first room a rec).1 rid = Some rec /\ aheap_get first a rid = None
    | None => True end /\
    ((aheap_new first room a rec).2 <> Some rid' -> aheap_get first (aheap_new first room a rec).1 rid' = aheap_get first a rid')).
  { unfold aheap_new. destruct room; [|done]. destruct (_ <? _); simpl.
    - split; [done|]. intros _. rewrite aheap_get_app. case_decide as Hp; [|done]. simpl. rewrite aheap_get_new_page by done. apply (Hnil (Z.to_nat (rid_slot rid'))).
    - split.
      + rewrite aheap_get_app. simpl. rewrite decide_True by done. split; [done|]. by apply aheap_get_new_page.
      + intros Hne. rewrite aheap_get_app. case_decide as Hp; [|done]. rewrite aheap_get_new_page by done. simpl.
        destruct (Z.to_nat (rid_slot rid')) as [|m] eqn:E; [|apply (Hnil m)]. destruct Hne. destruct rid' as [pg sl]. simpl in *.
        f_equal. f_equal; lia. }
  unfold aheap_insert. destruct (list.last a) as [p|] eqn:El; [|done].
  destruct (Z.ltb_spec (ap_free p) (blen rec + 4)) as [|Hfit]; [done|].
  pose proof (last_lookup_nat _ _ El) as Hlast. pose proof (lookup_lt_Some _ _ _ Hlast) as Hlt. cbn [fst snd].
  assert (Hrecs : ap_recs (aop p (OpInsert rec)).1 = ap_recs p ++ [Some rec]) by (simpl; rewrite (proj2 (Z.ltb_ge _ _) Hfit); done).
  split.
  - rewrite (aheap_get_insert_page _ _ _ p) by done. cbn [rid_page rid_slot]. rewrite decide_True by (unfold blen; lia).
    rewrite Hrecs. unfold blen. rewrite Nat2Z.id, list_lookup_middle by done. split; [done|].
    unfold aheap_get, aheap_page. cbn [rid_page rid_slot]. destruct (Z.leb_spec first (first + Z.of_nat (length a) - 1)); [|done].
    replace (Z.to_nat (first + Z.of_nat (length a) - 1 - first)) with (length a - 1)%nat by lia. rewrite Hlast. simpl.
    rewrite Nat2Z.id, lookup_ge_None_2 by done. done.
  - intros Hne. rewrite (aheap_get_insert_page _ _ _ p) by done. case_decide as Hp; [|done].
    unfold aheap_get, aheap_page. rewrite (proj2 (Z.leb_le _ _)) by lia.
    replace (Z.to_nat (rid_page rid' - first)) with (length a - 1)%nat by lia. rewrite Hlast, Hrecs. cbn [mbind option_bind].
    destruct (decide (Z.to_nat (rid_slot rid') < length (ap_recs p))%nat) as [Hl|Hl]; [by rewrite lookup_app_l|].
    rewrite (lookup_ge_None_2 (ap_recs p)) by lia. destruct (decide (Z.to_nat (rid_slot rid') = length (ap_recs p))) as [He|He].
    + destruct Hne. destruct rid' as [pg sl]. simpl in *. f_equal. f_equal; unfold blen; lia.
    + rewrite lookup_ge_None_2; [done|]. rewrite length_app. simpl. lia.
Qed.

Lemma aheap_insert_rid first room (a : aheap) rec rid :
  Some rid = (aheap_insert first room a rec).2 -> first <= rid_page rid /\ 0 <= rid_slot rid.
Proof.
  unfold aheap_insert, aheap_new. pose proof (blen_nonneg a). destruct (list.last a) as [p|] eqn:El.
  - pose proof (last_lookup_nat _ _ El) as Hlt%lookup_lt_Some. pose proof (blen_nonneg (ap_recs p)).
    repeat case_match; intros [= ->]; simpl; unfold blen in *; lia.
  - repeat case_match; intros [= ->]; simpl; lia.
Qed.

(** Insert and lookup: on any heap built by its operations, a successful
    [heap_insert] returns a fresh address under which [heap_get] reads the record
    back, and every other address reads as before. *)
Theorem heap_insert_get {S} `{PageStoreLaws S} (first : Z) (bp bp' : BufferPool) (s s' : S) (a : aheap) (rec : bytes) (rid other : RID) :
  reliable S -> heap_rep first bp s a -> rec_ok rec -> rid_ok first other ->
  heap_insert (mkHeap first) bp s rec (blen rec) = Some (bp', s', Some rid) ->
  exists b1 s1 b2 s2 b3 s3 b4 s4 r,
    heap_get bp s rid = Some (b1, s1, None) /\ heap_get bp' s' rid = Some (b2, s2, Some rec) /\
    (other <> rid -> heap_get bp s other = Some (b3, s3, r) /\ heap_get bp' s' other = Some (b4, s4, r)).
Proof.
  intros Hrel Hr Hrec [Hp Hs] Hi. destruct (heap_insert_spec first bp s a rec Hrel Hr Hrec) as (b & t & room & _ & Hi' & Hr').
  rewrite Hi in Hi'. injection Hi' as <- <- Hres.
  destruct (aheap_insert_get first room a rec other ltac:(lia)) as [Hnew Hother]. rewrite <- Hres in Hnew, Hother.
  assert (Hrid : first <= rid_page rid /\ 0 <= rid_slot rid) by (by eapply aheap_insert_rid).
  destruct Hrid as [Hrp Hrs]. destruct Hnew as [Hget Hfresh].
  destruct (heap_get_spec first bp s a rid Hrel Hr Hrp Hrs) as (b1 & s1 & H1 & _).
  destruct (heap_get_spec first bp' s' _ rid Hrel Hr' Hrp Hrs) as (b2 & s2 & H2 & _).
  destruct (heap_get_spec first bp s a other Hrel Hr Hp ltac:(lia)) as (b3 & s3 & H3 & _).
  destruct (heap_get_spec first bp' s' _ other Hrel Hr' Hp ltac:(lia)) as (b4 & s4 & H4 & _).
  rewrite Hfresh in H1. rewrite Hget in H2. exists b1, s1, b2, s2, b3, s3, b4, s4, (aheap_get first a other).
  split; [done|]. split; [done|]. intros Hne. rewrite Hother in H4 by congruence. done.
Qed.

Definition heap_pre : list heap_op := [HInsert [1; 2; 3]; HInsert [4; 5]].

Lemma heap_insert_get_witness :
  exists bp s a b' s' b2 s2, heap_rep 0 bp s a /\ @heap_insert Pager _ (mkHeap 0) bp s [9] 1 = Some (b', s', Some (mkRID 0 2)) /\
    heap_get b' s' (mkRID 0 2) = Some (b2, s2, Some [9]).
Proof.
  assert (Hwf : st_wf demo_store) by (apply pager_open_wf; [vm_compute; split; discriminate|constructor]).
  assert (Hok : forall rec, Forall (fun b => 0 <= b < 10) rec -> blen rec < 10 -> rec_ok rec).
  { intros rec Hb Hl. split; [eapply Forall_impl; [|exact Hb]; unfold is_byte; intros; simpl in *; lia|unfold SLOT_SIZE; lia]. }
  destruct (heap_run_spec (st_pages demo_store) heap_pre demo_pool demo_store [] pager_reliable (heap_empty_rep 1 _ _ eq_refl Hwf))
    as (bp & s & rooms & _ & _ & Hrun & Hr).
  { repeat (constructor; [apply Hok; [repeat constructor; lia|vm_compute; reflexivity]|]). constructor. }
  assert (Hst : exists b t r, heap_run (mkHeap (st_pages demo_store)) demo_pool demo_store heap_pre = Some (b, t, r) /\
     exists b' t', heap_insert (mkHeap 0) b t [9] 1 = Some (b', t', Some (mkRID 0 2))).
  { destruct (heap_run (mkHeap (st_pages demo_store)) demo_pool demo_store heap_pre) as [[[b t] r]|] eqn:E; [|vm_compute in E; discriminate].
    exists b, t, r. split; [done|]. vm_compute in E. injection E as <- <- <-. eexists _, _. vm_compute. reflexivity. }
  destruct Hst as (b & t & r & Hrun' & b' & t' & Hins). rewrite Hrun in Hrun'. injection Hrun' as <- <- _.
  change (st_pages demo_store) with 0 in Hr.
  destruct (heap_insert_get 0 bp b' s t' _ [9] (mkRID 0 2) (mkRID 0 0) pager_reliable Hr) as (b1 & s1 & b2 & s2 & _ & _ & _ & _ & _ & _ & H2 & _).
  - apply Hok; [repeat constructor; lia|vm_compute; reflexivity].
  - split; simpl; lia.
  - exact Hins.
  - eexists bp, s, _, b', t', b2, s2. split; [exact Hr|]. split; [exact Hins|exact H2].
Defined.
