(* ===== verification/Wal.v ===== *)
(** * The write-ahead log (src/src/wal.c)

    The log is a file of bytes: appends can be cut short by the device's limit, and
    recovery reads it byte by byte as the source does.  The data file is a [Pager].
    [fsync] does not change what the process sees and only moves [flushed_lsn]; what
    a crash can leave behind is described by the theorems. *)
From S2P Require Import Prelude Page Pager.

Definition WAL_MAX_STAGED : Z := 64.
Definition WAL_CHECKPOINT_BYTES : Z := Z.shiftl 4 20.
Definition REC_PAGE : Z := 80.   (* 'P' *)
Definition REC_COMMIT : Z := 67. (* 'C' *)
Definition REC_BEGIN : Z := 66.  (* 'B' *)
Definition REC_UNDO : Z := 85.   (* 'U' *)

(** [stole] is 0/1 in the source; [spilled] is the live prefix of its array. *)
Record Wal := mkWal {
  w_data : Pager;
  w_log : File;
  staged : list (Z * bytes);
  txn_active : bool;
  stole : bool;
  base_pages : Z;
  spilled : list Z;
  next_lsn : Z;
  flushed_lsn : Z;
  txn_log_start : Z }.

(** The crash-injection switches of the tests. *)
Record hooks := mkHooks { crash_after_log : bool; crash_before_commit : bool; crash_in_undo : bool }.
Definition no_hooks : hooks := mkHooks false false false.

Definition with_data (w : Wal) (d : Pager) : Wal :=
  mkWal d (w_log w) (staged w) (txn_active w) (stole w) (base_pages w) (spilled w) (next_lsn w) (flushed_lsn w) (txn_log_start w).
Definition with_log (w : Wal) (l : File) : Wal :=
  mkWal (w_data w) l (staged w) (txn_active w) (stole w) (base_pages w) (spilled w) (next_lsn w) (flushed_lsn w) (txn_log_start w).
Definition with_staged (w : Wal) (s : list (Z * bytes)) : Wal :=
  mkWal (w_data w) (w_log w) s (txn_active w) (stole w) (base_pages w) (spilled w) (next_lsn w) (flushed_lsn w) (txn_log_start w).
Definition with_stole (w : Wal) (b : bool) : Wal :=
  mkWal (w_data w) (w_log w) (staged w) (txn_active w) b (base_pages w) (spilled w) (next_lsn w) (flushed_lsn w) (txn_log_start w).
Definition with_spilled (w : Wal) (l : list Z) : Wal :=
  mkWal (w_data w) (w_log w) (staged w) (txn_active w) (stole w) (base_pages w) l (next_lsn w) (flushed_lsn w) (txn_log_start w).
Definition with_lsn (w : Wal) (n : Z) : Wal :=
  mkWal (w_data w) (w_log w) (staged w) (txn_active w) (stole w) (base_pages w) (spilled w) n (flushed_lsn w) (txn_log_start w).
(** [fsync(log_fd); flushed_lsn = next_lsn - 1] *)
Definition sync_log (w : Wal) : Wal :=
  mkWal (w_data w) (w_log w) (staged w) (txn_active w) (stole w) (base_pages w) (spilled w) (next_lsn w) (u64 (next_lsn w - 1)) (txn_log_start w).

(** ** Appending records (every writer first seeks to the end of the log) *)

Definition write_all (w : Wal) (buf : bytes) : Wal * bool :=
  let '(f, n) := pwrite (w_log w) buf (file_size (w_log w)) in (with_log w f, n =? blen buf).

(** [f && g] of the source's chained conditions: [g] runs only after success. *)
Definition and_then (r : Wal * bool) (g : Wal -> Wal * bool) : Wal * bool :=
  let '(w, ok) := r in if ok then g w else (w, false).

Definition write_hdr (w : Wal) (type : Z) : Wal * bool :=
  let lsn := next_lsn w in
  let w := with_lsn w (u64 (lsn + 1)) in
  and_then (write_all w [type]) (fun w => and_then (write_all w (le_bytes 8 lsn)) (fun w => (w, negb (lsn =? 0)))).

Definition spilled_contains (w : Wal) (pid : Z) : bool := existsb (Z.eqb pid) (spilled w).
Definition spilled_add (w : Wal) (pid : Z) : Wal := with_spilled w (spilled w ++ [pid]).

(** ** Operations of a transaction *)

Definition wal_begin (w : Wal) : Wal :=
  mkWal (w_data w) (w_log w) [] true false (num_pages (w_data w)) [] (next_lsn w) (flushed_lsn w) (file_size (w_log w)).

Fixpoint stage_into (s : list (Z * bytes)) (page_id : Z) (buf : bytes) : option (list (Z * bytes)) :=
  match s with
  | [] => None
  | (p, d) :: r => if p =? page_id then Some ((p, buf) :: r) else ((p, d) ::.) <$> stage_into r page_id buf
  end.

Definition wal_stage (w : Wal) (page_id : Z) (buf : bytes) : Wal * Z :=
  match stage_into (staged w) page_id buf with
  | Some s => (with_staged w s, 0)
  | None => if WAL_MAX_STAGED <=? blen (staged w) then (w, -1) else (with_staged w (staged w ++ [(page_id, buf)]), 0)
  end.

Definition wal_read (w : Wal) (page_id : Z) : option bytes := pager_page (w_data w) page_id.

Definition steal_log_begin (w : Wal) : Wal * bool :=
  if stole w then (w, true)
  else let base := base_pages w in
       and_then (write_hdr w REC_BEGIN) (fun w =>
       and_then (write_all w (le_bytes 8 base)) (fun w => (with_stole w true, true))).

Definition steal_log_undo (w : Wal) (page_id : Z) : Wal * bool :=
  if spilled_contains w page_id then (w, true)
  else
    let r :=
      if page_id <? base_pages w then
        match pager_page (w_data w) page_id with
        | None => (w, false)
        | Some before =>
            and_then (write_hdr w REC_UNDO) (fun w =>
            and_then (write_all w (le_bytes 8 page_id)) (fun w => write_all w before))
        end
      else (w, true) in
    and_then r (fun w => (spilled_add w page_id, true)).

Definition wal_steal (w : Wal) (page_id : Z) (buf : bytes) : Wal * Z :=
  let '(w, ok) := and_then (steal_log_begin w) (fun w => steal_log_undo w page_id) in
  if ok then
    let w := sync_log w in
    let '(d, ok) := pager_put (w_data w) page_id buf in
    (with_data w d, if ok then 0 else -1)
  else (w, -1).

(** The records of the staged pages; [false] when the log could not take one. *)
Fixpoint log_staged (w : Wal) (s : list (Z * bytes)) : Wal * bool :=
  match s with
  | [] => (w, true)
  | (pid, d) :: r =>
      and_then (and_then (write_hdr w REC_PAGE) (fun w => and_then (write_all w (le_bytes 8 pid)) (fun w => write_all w d)))
               (fun w => log_staged w r)
  end.

(** Applying page images to the data file: stops at the first failure ([wal_commit]). *)
Fixpoint apply_staged (d : Pager) (s : list (Z * bytes)) : Pager * bool :=
  match s with
  | [] => (d, true)
  | (pid, img) :: r => let '(d, ok) := pager_put d pid img in if ok then apply_staged d r else (d, false)
  end.

Definition wal_checkpoint (w : Wal) : Wal :=
  if WAL_CHECKPOINT_BYTES <? file_size (w_log w) then with_log w (ftruncate (w_log w) 0).1 else w.

Definition end_txn (w : Wal) : Wal :=
  mkWal (w_data w) (w_log w) [] false false (base_pages w) [] (next_lsn w) (flushed_lsn w) (txn_log_start w).

Definition wal_commit (h : hooks) (w : Wal) : Wal * Z :=
  let s := staged w in
  let '(w, ok) := log_staged w s in
  if negb ok then (w, -1)
  else if crash_before_commit h then (sync_log w, 0)
  else
    let '(w, ok) := write_hdr w REC_COMMIT in
    if negb ok then (w, -1)
    else
      let w := sync_log w in
      if crash_after_log h then (w, 0)
      else
        let '(d, ok) := apply_staged (w_data w) s in
        let w := with_data w d in
        if negb ok then (w, -1) else (end_txn (wal_checkpoint w), 0).

(** ** Reading the log *)

(** [read_exact] of [n] bytes at [off]; [None] at the end of the file. *)
Definition read_exact (log : bytes) (off n : Z) : option bytes := mem_read log off n.

(** All images of a committed segment are written, failures are only remembered. *)
Fixpoint redo_writes (d : Pager) (ws : list (Z * bytes)) (rc : Z) : Pager * Z :=
  match ws with
  | [] => (d, rc)
  | (pid, img) :: r => let '(d, ok) := pager_put d pid img in redo_writes d r (if ok then rc else -1)
  end.

(** First pass: the data file, the return code and the offset after the last commit marker. *)
Fixpoint redo_pass (fuel : nat) (log : bytes) (off : Z) (redo : list (Z * bytes)) (d : Pager) (rc loser_start : Z) : Pager * Z * Z :=
  match fuel with
  | O => (d, rc, loser_start)
  | S fuel =>
      match get_le 1 log off with
      | None => (d, rc, loser_start)
      | Some type =>
          let off := off + 1 + 8 in
          if type =? REC_BEGIN then redo_pass fuel log (off + 8) redo d rc loser_start
          else if type =? REC_UNDO then redo_pass fuel log (off + 8 + PAGE_SIZE) redo d rc loser_start
          else if type =? REC_PAGE then
            match get_le 8 log off with
            | None => (d, rc, loser_start)
            | Some pid =>
                if blen redo <? WAL_MAX_STAGED then
                  match read_exact log (off + 8) PAGE_SIZE with
                  | None => (d, rc, loser_start)
                  | Some img => redo_pass fuel log (off + 8 + PAGE_SIZE) (redo ++ [(pid, img)]) d rc loser_start
                  end
                else redo_pass fuel log (off + 8 + PAGE_SIZE) redo d rc loser_start
            end
          else if type =? REC_COMMIT then
            let '(d, rc) := redo_writes d redo rc in redo_pass fuel log off [] d rc off
          else (d, rc, loser_start)
      end
  end.

(** Second pass over the tail: the data file, the return code, the page count of the
    transaction's start if logged, and whether the injected crash stopped it. *)
Fixpoint undo_pass (h : hooks) (fuel : nat) (log : bytes) (off : Z) (d : Pager) (rc : Z) (base : option Z) : Pager * Z * option Z * bool :=
  match fuel with
  | O => (d, rc, base, false)
  | S fuel =>
      match get_le 1 log off with
      | None => (d, rc, base, false)
      | Some type =>
          let off := off + 1 + 8 in
          if type =? REC_BEGIN then
            match get_le 8 log off with
            | None => (d, rc, base, false)
            | Some b => undo_pass h fuel log (off + 8) d rc (Some b)
            end
          else if type =? REC_UNDO then
            match get_le 8 log off, read_exact log (off + 8) PAGE_SIZE with
            | Some pid, Some before =>
                let '(d, ok) := pager_put d pid before in
                let rc := if ok then rc else -1 in
                if crash_in_undo h then (d, rc, base, true)
                else undo_pass h fuel log (off + 8 + PAGE_SIZE) d rc base
            | _, _ => (d, rc, base, false)
            end
          else if type =? REC_PAGE then undo_pass h fuel log (off + 8 + PAGE_SIZE) d rc base
          else (d, rc, base, false)
      end
  end.

Definition truncate_to (d : Pager) (base : Z) : Pager :=
  if base <? num_pages d then match pager_truncate d base with Some (d', _) => d' | None => d end else d.

(** A record has at least nine bytes, so the length of the log bounds the records read. *)
Definition log_fuel (log : bytes) : nat := S (length log).

Definition wal_recover (h : hooks) (w : Wal) : Wal * Z :=
  let log := content (w_log w) in
  let '(d, rc, loser_start) := redo_pass (log_fuel log) log 0 [] (w_data w) 0 0 in
  let '(d, rc, base, crashed) := undo_pass h (log_fuel log) log loser_start d rc None in
  if crashed then (with_data w d, rc)
  else
    let d := match base with Some b => truncate_to d b | None => d end in
    let '(l, trc) := ftruncate (w_log w) 0 in
    (with_log (with_data w d) l, if trc <? 0 then -1 else rc).

Definition wal_open (h : hooks) (data_file log_file : File) : Wal :=
  (wal_recover h (mkWal (pager_open data_file) log_file [] false false 0 [] 1 0 0)).1.

(** The loop of [wal_undo]: like the second pass of recovery, but it stops at a page image. *)
Fixpoint rollback_pass (fuel : nat) (log : bytes) (off : Z) (d : Pager) (rc base : Z) : Pager * Z * Z :=
  match fuel with
  | O => (d, rc, base)
  | S fuel =>
      match get_le 1 log off with
      | None => (d, rc, base)
      | Some type =>
          let off := off + 1 + 8 in
          if type =? REC_BEGIN then
            match get_le 8 log off with
            | None => (d, rc, base)
            | Some b => rollback_pass fuel log (off + 8) d rc b
            end
          else if type =? REC_UNDO then
            match get_le 8 log off, read_exact log (off + 8) PAGE_SIZE with
            | Some pid, Some before =>
                let '(d, ok) := pager_put d pid before in
                rollback_pass fuel log (off + 8 + PAGE_SIZE) d (if ok then rc else -1) base
            | _, _ => (d, rc, base)
            end
          else (d, rc, base)
      end
  end.

Definition wal_undo (w : Wal) : Wal * Z :=
  if negb (stole w) then (w, 0)
  else
    let log := content (w_log w) in
    let '(d, rc, base) := rollback_pass (log_fuel log) log (txn_log_start w) (w_data w) 0 (base_pages w) in
    let d := truncate_to d base in
    let w := with_log (with_data w d) (ftruncate (w_log w) (txn_log_start w)).1 in
    (with_spilled (with_stole w false) [], rc).

(** ** The log as a list of records *)

Inductive log_rec :=
| RPage (lsn pid : Z) (img : bytes)
| RCommit (lsn : Z)
| RBegin (lsn base : Z)
| RUndo (lsn pid : Z) (img : bytes).

Definition enc_rec (r : log_rec) : bytes :=
  match r with
  | RPage lsn pid img => REC_PAGE :: le_bytes 8 lsn ++ le_bytes 8 pid ++ img
  | RCommit lsn => REC_COMMIT :: le_bytes 8 lsn
  | RBegin lsn base => REC_BEGIN :: le_bytes 8 lsn ++ le_bytes 8 base
  | RUndo lsn pid img => REC_UNDO :: le_bytes 8 lsn ++ le_bytes 8 pid ++ img
  end.

Definition enc (rs : list log_rec) : bytes := mjoin (enc_rec <$> rs).

Definition is_commit (r : log_rec) : bool := match r with RCommit _ => true | _ => false end.

(** Page numbers and page counts are 64-bit values, images are pages. *)
Definition rec_wf (r : log_rec) : Prop :=
  match r with
  | RPage _ pid img | RUndo _ pid img => 0 <= pid < 2 ^ 64 /\ page_ok img
  | RBegin _ base => 0 <= base < 2 ^ 64
  | RCommit _ => True
  end.

(** What a crash leaves of a record it interrupted: a proper prefix (a commit
    marker counts as soon as its first byte is there, so none of it is left). *)
Definition torn (t : bytes) : Prop :=
  t = [] \/ exists r u, rec_wf r /\ is_commit r = false /\ u <> [] /\ enc_rec r = t ++ u.

(** The images a committed history redoes: at most [WAL_MAX_STAGED] per segment. *)
Fixpoint seg_pages (rs : list log_rec) (redo : list (Z * bytes)) : list (Z * bytes) :=
  match rs with
  | [] => []
  | RPage _ pid img :: r => seg_pages r (if blen redo <? WAL_MAX_STAGED then redo ++ [(pid, img)] else redo)
  | RCommit _ :: r => redo ++ seg_pages r []
  | _ :: r => seg_pages r redo
  end.

Definition undo_imgs (rs : list log_rec) : list (Z * bytes) :=
  omap (fun r => match r with RUndo _ pid img => Some (pid, img) | _ => None end) rs.

Fixpoint last_base (rs : list log_rec) (b : option Z) : option Z :=
  match rs with
  | [] => b
  | RBegin _ base :: r => last_base r (Some base)
  | _ :: r => last_base r b
  end.

(** A committed history ends with a commit marker. *)
Definition committed (rs : list log_rec) : Prop := rs = [] \/ exists rs' lsn, rs = rs' ++ [RCommit lsn].

(** ** Reading encoded records *)

Lemma mem_read_mid (pre x post : bytes) n : blen x = n -> mem_read (pre ++ x ++ post) (blen pre) n = Some x.
Proof.
  intros <-. rewrite mem_read_app_r by lia. rewrite Z.sub_diag, mem_read_app_l by lia. apply mem_read_all.
Qed.

Lemma mem_read_beyond (l : bytes) off n : blen l < off + n -> mem_read l off n = None.
Proof.
  intros H. unfold mem_read. destruct (in_range l off n) eqn:E; [|done]. apply in_range_spec in E. lia.
Qed.

Lemma get_le_mid n (pre x post : bytes) :
  length x = n -> get_le n (pre ++ x ++ post) (blen pre) = Some (le_val x).
Proof. intros Hn. unfold get_le. rewrite mem_read_mid by (unfold blen; lia). done. Qed.

Lemma get_type (pre rest : bytes) t : get_le 1 (pre ++ t :: rest) (blen pre) = Some t.
Proof.
  change (t :: rest) with ([t] ++ rest). rewrite (get_le_mid 1 pre [t] rest) by done. simpl. f_equal. lia.
Qed.

Lemma get_word (pre mid rest : bytes) v off :
  blen mid = off -> 0 <= v < 2 ^ 64 -> get_le 8 (pre ++ mid ++ le_bytes 8 v ++ rest) (blen pre + off) = Some v.
Proof.
  intros <- Hv. rewrite app_assoc, <- blen_app, get_le_mid by apply length_le_bytes.
  rewrite le_val_le_bytes. f_equal. apply Z.mod_small. exact Hv.
Qed.

Lemma read_img (pre mid img rest : bytes) off :
  blen mid = off -> blen img = PAGE_SIZE -> read_exact (pre ++ mid ++ img ++ rest) (blen pre + off) PAGE_SIZE = Some img.
Proof. intros <- Hi. unfold read_exact. rewrite app_assoc, <- blen_app. by apply mem_read_mid. Qed.

Lemma blen_enc_page lsn pid img : blen img = PAGE_SIZE ->
  blen (enc_rec (RPage lsn pid img)) = 17 + PAGE_SIZE /\ blen (enc_rec (RUndo lsn pid img)) = 17 + PAGE_SIZE.
Proof.
  intros H. unfold enc_rec, blen in *. cbn [length]. rewrite !length_app, !length_le_bytes. lia.
Qed.

Lemma enc_cons r rs : enc (r :: rs) = enc_rec r ++ enc rs.
Proof. done. Qed.

Lemma enc_app a b : enc (a ++ b) = enc a ++ enc b.
Proof. unfold enc. by rewrite fmap_app, join_app. Qed.

(** The fields of a record that starts at [blen pre]. *)
Lemma page_fields (pre post : bytes) ty lsn pid img :
  0 <= pid < 2 ^ 64 -> blen img = PAGE_SIZE ->
  let log := pre ++ (ty :: le_bytes 8 lsn ++ le_bytes 8 pid ++ img) ++ post in
  get_le 1 log (blen pre) = Some ty /\ get_le 8 log (blen pre + 1 + 8) = Some pid /\
  read_exact log (blen pre + 1 + 8 + 8) PAGE_SIZE = Some img.
Proof.
  intros Hp Hi log. unfold log. split; [apply get_type|]. split.
  - replace (blen pre + 1 + 8) with (blen pre + 9) by lia.
    replace ((ty :: le_bytes 8 lsn ++ le_bytes 8 pid ++ img) ++ post) with ((ty :: le_bytes 8 lsn) ++ le_bytes 8 pid ++ (img ++ post)).
    2: { by rewrite <- !app_comm_cons, <- !app_assoc. }
    apply get_word; [|done]. unfold blen. cbn [length]. by rewrite length_le_bytes.
  - replace (blen pre + 1 + 8 + 8) with (blen pre + 17) by lia.
    replace ((ty :: le_bytes 8 lsn ++ le_bytes 8 pid ++ img) ++ post) with ((ty :: le_bytes 8 lsn ++ le_bytes 8 pid) ++ img ++ post).
    2: { by rewrite <- !app_comm_cons, <- !app_assoc. }
    apply read_img; [|done]. unfold blen. cbn [length]. by rewrite length_app, !length_le_bytes.
Qed.

Lemma begin_fields (pre post : bytes) lsn base :
  0 <= base < 2 ^ 64 ->
  let log := pre ++ (REC_BEGIN :: le_bytes 8 lsn ++ le_bytes 8 base) ++ post in
  get_le 1 log (blen pre) = Some REC_BEGIN /\ get_le 8 log (blen pre + 1 + 8) = Some base.
Proof.
  intros Hp log. unfold log. split; [apply get_type|].
  replace (blen pre + 1 + 8) with (blen pre + 9) by lia.
  replace ((REC_BEGIN :: le_bytes 8 lsn ++ le_bytes 8 base) ++ post) with ((REC_BEGIN :: le_bytes 8 lsn) ++ le_bytes 8 base ++ post).
  2: { by rewrite <- !app_comm_cons, <- !app_assoc. }
  apply get_word; [|done]. unfold blen. cbn [length]. by rewrite length_le_bytes.
Qed.

(** ** The passes over an encoded log *)

Lemma get_le_beyond n (log : bytes) off : blen log < off + Z.of_nat n -> get_le n log off = None.
Proof. intros H. unfold get_le. by rewrite mem_read_beyond. Qed.

Lemma redo_pass_end fuel log off redo d rc ls : blen log <= off -> redo_pass fuel log off redo d rc ls = (d, rc, ls).
Proof. intros H. destruct fuel; [done|]. cbn [redo_pass]. by rewrite get_le_beyond by lia. Qed.

Lemma undo_pass_end h fuel log off d rc b : blen log <= off -> undo_pass h fuel log off d rc b = (d, rc, b, false).
Proof. intros H. destruct fuel; [done|]. cbn [undo_pass]. by rewrite get_le_beyond by lia. Qed.

Lemma rollback_pass_end fuel log off d rc b : blen log <= off -> rollback_pass fuel log off d rc b = (d, rc, b).
Proof. intros H. destruct fuel; [done|]. cbn [rollback_pass]. by rewrite get_le_beyond by lia. Qed.

(** The first byte and the size of what is left of a torn record. *)
Lemma torn_cases (t : bytes) :
  torn t -> t = [] \/
  exists ty r, t = ty :: r /\
    ((ty = REC_BEGIN /\ blen t < 17) \/ ((ty = REC_UNDO \/ ty = REC_PAGE) /\ blen t < 17 + PAGE_SIZE)).
Proof.
  intros [->|(r & u & Hwf & Hc & Hu & He)]; [by left|]. destruct t as [|ty t]; [by left|right].
  exists ty, t. split; [done|].
  assert (Hl : blen (ty :: t) < blen (enc_rec r)).
  { rewrite He, blen_app. assert (0 < blen u) by (destruct u; [done|unfold blen; simpl; lia]). lia. }
  destruct r as [lsn pid img|lsn|lsn base|lsn pid img]; [|done| |].
  - destruct Hwf as [_ [Hi _]]. rewrite (proj1 (blen_enc_page lsn pid img Hi)) in Hl. injection He as <- _. auto.
  - injection He as <- _. left. split; [done|]. revert Hl. unfold enc_rec, blen. cbn [length]. rewrite length_app, !length_le_bytes. lia.
  - destruct Hwf as [_ [Hi _]]. rewrite (proj2 (blen_enc_page lsn pid img Hi)) in Hl. injection He as <- _. auto.
Qed.

Lemma redo_pass_torn fuel pre t redo d rc ls :
  torn t -> redo_pass fuel (pre ++ t) (blen pre) redo d rc ls = (d, rc, ls).
Proof.
  intros Ht. destruct fuel as [|fuel]; [done|].
  destruct (torn_cases t Ht) as [->|(ty & r & -> & Hc)]; [apply redo_pass_end; rewrite app_nil_r; lia|].
  set (log := pre ++ ty :: r) in *.
  assert (Hl : blen log = blen pre + blen (ty :: r)) by (apply blen_app).
  cbn [redo_pass]. unfold log at 1. rewrite get_type. fold log.
  destruct Hc as [[-> Hb]|[[-> | ->] Hb]].
  - change (REC_BEGIN =? REC_BEGIN) with true. cbn iota. apply redo_pass_end. lia.
  - change (REC_UNDO =? REC_BEGIN) with false. change (REC_UNDO =? REC_UNDO) with true. cbn iota. apply redo_pass_end. lia.
  - change (REC_PAGE =? REC_BEGIN) with false. change (REC_PAGE =? REC_UNDO) with false. change (REC_PAGE =? REC_PAGE) with true. cbn iota.
    destruct (get_le 8 log _); [|done]. destruct (_ <? _); [|apply redo_pass_end; lia].
    unfold read_exact. by rewrite mem_read_beyond by lia.
Qed.

Lemma undo_pass_torn h fuel pre t d rc b :
  torn t -> undo_pass h fuel (pre ++ t) (blen pre) d rc b = (d, rc, b, false).
Proof.
  intros Ht. destruct fuel as [|fuel]; [done|].
  destruct (torn_cases t Ht) as [->|(ty & r & -> & Hc)]; [apply undo_pass_end; rewrite app_nil_r; lia|].
  set (log := pre ++ ty :: r) in *.
  assert (Hl : blen log = blen pre + blen (ty :: r)) by (apply blen_app).
  cbn [undo_pass]. unfold log at 1. rewrite get_type. fold log.
  destruct Hc as [[-> Hb]|[[-> | ->] Hb]].
  - change (REC_BEGIN =? REC_BEGIN) with true. cbn iota. rewrite get_le_beyond; [done|]. change (Z.of_nat 8) with 8. lia.
  - change (REC_UNDO =? REC_BEGIN) with false. change (REC_UNDO =? REC_UNDO) with true. cbn iota.
    unfold read_exact. rewrite mem_read_beyond by lia. by destruct (get_le 8 log _).
  - change (REC_PAGE =? REC_BEGIN) with false. change (REC_PAGE =? REC_UNDO) with false. change (REC_PAGE =? REC_PAGE) with true. cbn iota.
    apply undo_pass_end. lia.
Qed.

Lemma app_snoc_enc (pre post : bytes) r : pre ++ enc_rec r ++ post = (pre ++ enc_rec r) ++ post.
Proof. apply app_assoc. Qed.

(** One record of the log, in each pass. *)
Lemma redo_pass_step fuel pre post r redo d rc ls :
  rec_wf r ->
  redo_pass (S fuel) (pre ++ enc_rec r ++ post) (blen pre) redo d rc ls =
  let log := pre ++ enc_rec r ++ post in
  let off := blen (pre ++ enc_rec r) in
  match r with
  | RPage _ pid img => redo_pass fuel log off (if blen redo <? WAL_MAX_STAGED then redo ++ [(pid, img)] else redo) d rc ls
  | RCommit _ => let '(d, rc) := redo_writes d redo rc in redo_pass fuel log off [] d rc off
  | _ => redo_pass fuel log off redo d rc ls
  end.
Proof.
  intros Hwf. cbn zeta. rewrite blen_app. destruct r as [lsn pid img|lsn|lsn base|lsn pid img]; cbn [redo_pass].
  - destruct Hwf as [Hp [Hi _]]. rewrite (proj1 (blen_enc_page lsn pid img Hi)). unfold enc_rec.
    destruct (page_fields pre post REC_PAGE lsn pid img Hp Hi) as (-> & -> & ->).
    change (REC_PAGE =? REC_BEGIN) with false. change (REC_PAGE =? REC_UNDO) with false. change (REC_PAGE =? REC_PAGE) with true. cbn iota.
    replace (blen pre + 1 + 8 + 8 + PAGE_SIZE) with (blen pre + (17 + PAGE_SIZE)) by lia. by destruct (_ <? _).
  - unfold enc_rec. rewrite <- app_comm_cons, get_type.
    change (REC_COMMIT =? REC_BEGIN) with false. change (REC_COMMIT =? REC_UNDO) with false.
    change (REC_COMMIT =? REC_PAGE) with false. change (REC_COMMIT =? REC_COMMIT) with true. cbn iota.
    replace (blen pre + blen (REC_COMMIT :: le_bytes 8 lsn)) with (blen pre + 1 + 8); [done|].
    unfold blen. cbn [length]. rewrite length_le_bytes. lia.
  - unfold enc_rec. destruct (begin_fields pre post lsn base Hwf) as [-> _]. change (REC_BEGIN =? REC_BEGIN) with true. cbn iota. f_equal.
    unfold blen. cbn [length]. rewrite length_app, !length_le_bytes. lia.
  - destruct Hwf as [Hp [Hi _]]. rewrite (proj2 (blen_enc_page lsn pid img Hi)). unfold enc_rec.
    destruct (page_fields pre post REC_UNDO lsn pid img Hp Hi) as (-> & _ & _).
    change (REC_UNDO =? REC_BEGIN) with false. change (REC_UNDO =? REC_UNDO) with true. cbn iota. f_equal. lia.
Qed.

Lemma undo_pass_step fuel pre post r d rc b :
  rec_wf r -> is_commit r = false ->
  undo_pass no_hooks (S fuel) (pre ++ enc_rec r ++ post) (blen pre) d rc b =
  let log := pre ++ enc_rec r ++ post in
  let off := blen (pre ++ enc_rec r) in
  match r with
  | RUndo _ pid img => let '(d, ok) := pager_put d pid img in undo_pass no_hooks fuel log off d (if ok then rc else -1) b
  | RBegin _ base => undo_pass no_hooks fuel log off d rc (Some base)
  | _ => undo_pass no_hooks fuel log off d rc b
  end.
Proof.
  intros Hwf Hc. cbn zeta. rewrite blen_app. destruct r as [lsn pid img|lsn|lsn base|lsn pid img]; [|done|..]; cbn [undo_pass].
  - destruct Hwf as [Hp [Hi _]]. rewrite (proj1 (blen_enc_page lsn pid img Hi)). unfold enc_rec.
    destruct (page_fields pre post REC_PAGE lsn pid img Hp Hi) as (-> & _ & _).
    change (REC_PAGE =? REC_BEGIN) with false. change (REC_PAGE =? REC_UNDO) with false. change (REC_PAGE =? REC_PAGE) with true. cbn iota.
    f_equal. lia.
  - unfold enc_rec. destruct (begin_fields pre post lsn base Hwf) as [-> ->]. change (REC_BEGIN =? REC_BEGIN) with true. cbn iota. f_equal.
    unfold blen. cbn [length]. rewrite length_app, !length_le_bytes. lia.
  - destruct Hwf as [Hp [Hi _]]. rewrite (proj2 (blen_enc_page lsn pid img Hi)). unfold enc_rec.
    destruct (page_fields pre post REC_UNDO lsn pid img Hp Hi) as (-> & -> & ->).
    change (REC_UNDO =? REC_BEGIN) with false. change (REC_UNDO =? REC_UNDO) with true. cbn iota.
    change (crash_in_undo no_hooks) with false. cbn iota. destruct (pager_put d pid img). f_equal. lia.
Qed.

Fixpoint last_commit (rs : list log_rec) (off ls : Z) : Z :=
  match rs with
  | [] => ls
  | r :: rs => let off := off + blen (enc_rec r) in last_commit rs off (if is_commit r then off else ls)
  end.

Lemma redo_writes_app d a b rc :
  redo_writes d (a ++ b) rc = let '(d, rc) := redo_writes d a rc in redo_writes d b rc.
Proof. revert d rc. induction a as [|[p i] a IH]; intros d rc; simpl; [done|]. by destruct (pager_put d p i). Qed.

Lemma redo_pass_recs rs : forall fuel pre t redo d rc ls,
  Forall rec_wf rs -> torn t -> (length rs <= fuel)%nat ->
  redo_pass fuel (pre ++ enc rs ++ t) (blen pre) redo d rc ls =
  let '(d, rc) := redo_writes d (seg_pages rs redo) rc in (d, rc, last_commit rs (blen pre) ls).
Proof.
  induction rs as [|r rs IH]; intros fuel pre t redo d rc ls Hwf Ht Hf.
  { simpl. by rewrite redo_pass_torn. }
  inversion_clear Hwf as [|? ? Hr Hrs]. destruct fuel as [|fuel]; [simpl in Hf; lia|]. simpl in Hf.
  rewrite enc_cons, <- app_assoc, redo_pass_step by done. cbn zeta. rewrite app_assoc.
  assert (IH' : forall redo d rc ls, redo_pass fuel ((pre ++ enc_rec r) ++ enc rs ++ t) (blen (pre ++ enc_rec r)) redo d rc ls =
     let '(d, rc) := redo_writes d (seg_pages rs redo) rc in (d, rc, last_commit rs (blen (pre ++ enc_rec r)) ls)) by (intros; apply IH; done || lia).
  cbn [last_commit]. rewrite <- blen_app. destruct r as [lsn pid img|lsn|lsn base|lsn pid img]; cbn [seg_pages is_commit]; try apply IH'.
  rewrite redo_writes_app. destruct (redo_writes d redo rc) as [d1 rc1]. apply IH'.
Qed.

Lemma undo_pass_recs rs : forall fuel pre t d rc b,
  Forall rec_wf rs -> Forall (fun r => is_commit r = false) rs -> torn t -> (length rs <= fuel)%nat ->
  undo_pass no_hooks fuel (pre ++ enc rs ++ t) (blen pre) d rc b =
  let '(d, rc) := redo_writes d (undo_imgs rs) rc in (d, rc, last_base rs b, false).
Proof.
  induction rs as [|r rs IH]; intros fuel pre t d rc b Hwf Hc Ht Hf.
  { simpl. by rewrite undo_pass_torn. }
  inversion_clear Hwf as [|? ? Hr Hrs]. inversion_clear Hc as [|? ? Hcr Hcs].
  destruct fuel as [|fuel]; [simpl in Hf; lia|]. simpl in Hf.
  rewrite enc_cons, <- app_assoc, undo_pass_step by done. cbn zeta. rewrite app_assoc.
  destruct r as [lsn pid img|lsn|lsn base|lsn pid img]; [|done|..]; cbn [undo_imgs omap list_omap last_base redo_writes]; try (apply IH; done || lia).
  destruct (pager_put d pid img) as [d1 ok]. apply IH; done || lia.
Qed.

Lemma rollback_pass_recs rs : forall fuel pre d rc b,
  Forall rec_wf rs -> Forall (fun r => match r with RBegin _ _ | RUndo _ _ _ => True | _ => False end) rs -> (length rs <= fuel)%nat ->
  rollback_pass fuel (pre ++ enc rs) (blen pre) d rc b =
  let '(d, rc) := redo_writes d (undo_imgs rs) rc in (d, rc, default 0 (last_base rs (Some b))).
Proof.
  induction rs as [|r rs IH]; intros fuel pre d rc b Hwf Hk Hf.
  { simpl. apply rollback_pass_end. rewrite app_nil_r. lia. }
  inversion_clear Hwf as [|? ? Hr Hrs]. inversion_clear Hk as [|? ? Hkr Hks].
  destruct fuel as [|fuel]; [simpl in Hf; lia|]. simpl in Hf. rewrite enc_cons. cbn [rollback_pass].
  destruct r as [lsn pid img|lsn|lsn base|lsn pid img]; [done|done| |].
  - assert (Hb : blen (enc_rec (RBegin lsn base)) = 17) by (unfold enc_rec, blen; cbn [length]; rewrite length_app, !length_le_bytes; lia).
    pose proof (begin_fields pre (enc rs) lsn base Hr) as (F1 & F2). fold (enc_rec (RBegin lsn base)) in F1, F2.
    rewrite F1, F2.
    change (REC_BEGIN =? REC_BEGIN) with true. cbn iota. cbn [undo_imgs omap list_omap last_base].
    rewrite app_assoc. replace (blen pre + 1 + 8 + 8) with (blen (pre ++ enc_rec (RBegin lsn base))) by (rewrite blen_app; lia).
    apply IH; done || lia.
  - destruct Hr as [Hp [Hi Hib]]. assert (Hb := proj2 (blen_enc_page lsn pid img Hi)).
    pose proof (page_fields pre (enc rs) REC_UNDO lsn pid img Hp Hi) as (F1 & F2 & F3). fold (enc_rec (RUndo lsn pid img)) in F1, F2, F3.
    rewrite F1, F2, F3.
    change (REC_UNDO =? REC_BEGIN) with false. change (REC_UNDO =? REC_UNDO) with true. cbn iota.
    cbn [undo_imgs omap list_omap last_base redo_writes]. destruct (pager_put d pid img) as [d1 ok].
    rewrite app_assoc. replace (blen pre + 1 + 8 + 8 + PAGE_SIZE) with (blen (pre ++ enc_rec (RUndo lsn pid img))) by (rewrite blen_app; lia).
    apply IH; done || lia.
Qed.

(** ** Their effect on the data file *)

(** [v] overridden by the last image of page [p] in [ws]. *)
Definition patched (ws : list (Z * bytes)) (p : Z) (v : option bytes) : option bytes :=
  foldl (fun v '(q, img) => if decide (p = q) then Some img else v) v ws.

Definition imgs_ok (n : Z) (ws : list (Z * bytes)) : Prop := Forall (fun w => 0 <= w.1 < n /\ page_ok w.2) ws.

Lemma redo_writes_spec ws : forall d rc,
  pager_wf d -> imgs_ok (num_pages d) ws ->
  exists d', redo_writes d ws rc = (d', rc) /\ pager_wf d' /\ num_pages d' = num_pages d /\ limit (fd d') = limit (fd d) /\
    forall p, pager_page d' p = patched ws p (pager_page d p).
Proof.
  induction ws as [|[q img] ws IH]; intros d rc Hwf Hok; [by exists d|].
  inversion_clear Hok as [|? ? [Hq Himg] Hws]. simpl in Hq, Himg. cbn [redo_writes].
  destruct (pager_put_spec d q img Hwf Himg Hq) as (c & Hc & Hput).
  pose proof (pager_put_writes d q img Hwf Himg ltac:(by apply pager_page_Some)) as (Hwf1 & Hne & _ & Heq).
  rewrite Hput in *. simpl in *. set (d1 := mkPager _ _) in *.
  destruct (IH d1 rc Hwf1 Hws) as (d' & Hr & Hwf' & Hn & Hl & Hp).
  exists d'. split; [done|]. split; [done|]. split; [done|]. split; [done|]. intros p. rewrite Hp. unfold patched. simpl. f_equal.
  case_decide as Hpq; [subst; by apply Heq|by apply Hne].
Qed.

Lemma apply_staged_spec ws : forall d,
  pager_wf d -> imgs_ok (num_pages d) ws ->
  exists d', apply_staged d ws = (d', true) /\ pager_wf d' /\ num_pages d' = num_pages d /\
    forall p, pager_page d' p = patched ws p (pager_page d p).
Proof.
  induction ws as [|[q img] ws IH]; intros d Hwf Hok; [by exists d|].
  inversion_clear Hok as [|? ? [Hq Himg] Hws]. simpl in Hq, Himg. cbn [apply_staged].
  destruct (pager_put_spec d q img Hwf Himg Hq) as (c & Hc & Hput).
  pose proof (pager_put_writes d q img Hwf Himg ltac:(by apply pager_page_Some)) as (Hwf1 & Hne & _ & Heq).
  rewrite Hput in *. simpl in *. set (d1 := mkPager _ _) in *.
  destruct (IH d1 Hwf1 Hws) as (d' & Hr & Hwf' & Hn & Hp).
  exists d'. split; [done|]. split; [done|]. split; [done|]. intros p. rewrite Hp. unfold patched. simpl. f_equal.
  case_decide as Hpq; [subst; by apply Heq|by apply Hne].
Qed.

Lemma truncate_to_spec d base :
  pager_wf d -> 0 <= base ->
  pager_wf (truncate_to d base) /\ num_pages (truncate_to d base) = Z.min base (num_pages d) /\
  forall p, p < base -> pager_page (truncate_to d base) p = pager_page d p.
Proof.
  intros Hwf Hb. pose proof Hwf as [Hp Hl Hbytes]. unfold truncate_to. destruct (Z.ltb_spec base (num_pages d)) as [Hlt|Hge].
  2: { rewrite Z.min_r by lia. done. }
  rewrite Z.min_l by lia. destruct (pager_truncate_spec d base Hwf ltac:(lia)) as (d' & -> & Hd). done.
Qed.

(** ** Recovery *)

Lemma length_enc rs : (length rs <= length (enc rs))%nat.
Proof.
  induction rs as [|r rs IH]; [done|]. rewrite enc_cons, length_app. cbn [length].
  assert (1 <= length (enc_rec r))%nat by (destruct r; cbn; lia). lia.
Qed.

Lemma last_commit_none rs off ls : Forall (fun r => is_commit r = false) rs -> last_commit rs off ls = ls.
Proof.
  intros Hc. revert off ls. induction Hc as [|r rs Hr _ IH]; intros off ls; simpl; [done|]. by rewrite Hr, IH.
Qed.

Lemma last_commit_app a b off ls : last_commit (a ++ b) off ls = last_commit b (off + blen (enc a)) (last_commit a off ls).
Proof.
  revert off ls. induction a as [|r a IH]; intros off ls; simpl; [f_equal; change (blen (enc [])) with 0; lia|].
  rewrite IH, enc_cons, blen_app. f_equal; lia.
Qed.

Lemma last_commit_committed h : committed h -> last_commit h 0 0 = blen (enc h).
Proof.
  intros [->|(h' & lsn & ->)]; [done|]. rewrite last_commit_app, enc_app, blen_app. cbn [last_commit is_commit].
  rewrite enc_cons. change (enc []) with (@nil Z). rewrite app_nil_r. lia.
Qed.

Lemma seg_pages_none rs redo : Forall (fun r => is_commit r = false) rs -> seg_pages rs redo = [].
Proof.
  intros Hc. revert redo. induction Hc as [|r rs Hr _ IH]; intros redo; [done|]. by destruct r; simpl; try apply IH.
Qed.

Lemma seg_pages_app a b redo : committed a -> a <> [] -> seg_pages (a ++ b) redo = seg_pages a redo ++ seg_pages b [].
Proof.
  intros [->|(a' & lsn & ->)]; [done|]. intros _. revert redo. induction a' as [|r a' IH]; intros redo.
  - simpl. by rewrite app_nil_r.
  - simpl. destruct r; rewrite ?IH; try done. by rewrite <- app_assoc.
Qed.

Definition log_ok (f : File) : Prop := file_size f <= limit f.

(** What recovery does to a data file of [d]'s pages when the log holds the committed
    history [hist], the records [tail] of an unfinished transaction and a torn record. *)
Lemma wal_recover_spec w hist tail t :
  pager_wf (w_data w) -> log_ok (w_log w) -> content (w_log w) = enc hist ++ enc tail ++ t ->
  Forall rec_wf (hist ++ tail) -> committed hist -> Forall (fun r => is_commit r = false) tail -> torn t ->
  imgs_ok (num_pages (w_data w)) (seg_pages hist []) -> imgs_ok (num_pages (w_data w)) (undo_imgs tail) ->
  exists d, wal_recover no_hooks w = (with_log (with_data w d) (mkFile [] (limit (w_log w))), 0) /\ pager_wf d /\
    num_pages d = (match last_base tail None with Some b => Z.min b (num_pages (w_data w)) | None => num_pages (w_data w) end) /\
    forall p, 0 <= p < num_pages d -> pager_page d p = patched (undo_imgs tail) p (patched (seg_pages hist []) p (pager_page (w_data w) p)).
Proof.
  intros Hd Hlog Hc Hwf Hcom Htail Ht Hredo Hundo. unfold wal_recover. rewrite Hc.
  apply Forall_app in Hwf as [Hwfh Hwft].
  assert (Hr : redo_pass (log_fuel (enc hist ++ enc tail ++ t)) (enc hist ++ enc tail ++ t) 0 [] (w_data w) 0 0 =
     let '(d, rc) := redo_writes (w_data w) (seg_pages hist []) 0 in (d, rc, blen (enc hist))).
  { rewrite (app_assoc (enc hist)), <- enc_app.
    assert (Hwf : Forall rec_wf (hist ++ tail)) by (by apply Forall_app).
    assert (Hfu : (length (hist ++ tail) <= log_fuel (enc (hist ++ tail) ++ t))%nat).
    { unfold log_fuel. rewrite (length_app (enc _)). pose proof (length_enc (hist ++ tail)). lia. }
    pose proof (redo_pass_recs (hist ++ tail) _ [] t [] (w_data w) 0 0 Hwf Ht Hfu) as Hrp. change (blen []) with 0 in Hrp.
    simpl app in Hrp. rewrite Hrp.
    rewrite last_commit_app, (last_commit_none tail) by done. rewrite last_commit_committed by done.
    destruct (decide (hist = [])) as [->|Hne]; [simpl; by rewrite seg_pages_none|].
    rewrite seg_pages_app, (seg_pages_none tail), app_nil_r by done. done. }
  rewrite Hr. destruct (redo_writes_spec _ _ 0 Hd Hredo) as (d1 & -> & Hwf1 & Hn1 & Hl1 & Hp1).
  rewrite undo_pass_recs by (try done; unfold log_fuel; rewrite !length_app; pose proof (length_enc tail); lia).
  rewrite <- Hn1 in Hundo. destruct (redo_writes_spec _ _ 0 Hwf1 Hundo) as (d2 & -> & Hwf2 & Hn2 & Hl2 & Hp2).
  assert (Htr : ftruncate (w_log w) 0 = (mkFile [] (limit (w_log w)), 0)).
  { unfold ftruncate. unfold log_ok, file_size in *. pose proof (blen_nonneg (content (w_log w))).
    destruct (Z.ltb_spec (limit (w_log w)) 0); [lia|done]. }
  rewrite Htr. assert (Hb0 : forall rs b b', Forall rec_wf rs -> last_base rs b' = Some b -> (forall x, b' = Some x -> 0 <= x) -> 0 <= b).
  { intros rs. induction rs as [|r rs IH]; intros b b' Hw Hl Hb'; [by apply Hb'|]. inversion_clear Hw as [|? ? Hr1 Hr2].
    destruct r; simpl in Hl; eapply IH; eauto. intros x [= <-]. apply Hr1. }
  destruct (last_base tail None) as [b|] eqn:Eb.
  - assert (0 <= b) by (eapply Hb0; eauto; done). destruct (truncate_to_spec d2 b Hwf2) as (Hwf3 & Hn3 & Hp3); [done|].
    exists (truncate_to d2 b). split; [done|]. split; [done|]. split; [by rewrite Hn3, Hn2, Hn1|].
    intros p Hp. rewrite Hp3, Hp2, Hp1 by lia. done.
  - exists d2. split; [done|]. split; [done|]. split; [by rewrite Hn2, Hn1|]. intros p Hp. by rewrite Hp2, Hp1.
Qed.

(** ** Writers append whole records when the log has room *)

(** Room for [n] more bytes and [k] more sequence numbers. *)
Definition room (w : Wal) (n k : Z) : Prop :=
  file_size (w_log w) + n <= limit (w_log w) /\ 0 < next_lsn w /\ next_lsn w + k < 2 ^ 64.

Definition append (w : Wal) (bs : bytes) (k : Z) : Wal :=
  with_lsn (with_log w (mkFile (content (w_log w) ++ bs) (limit (w_log w)))) (next_lsn w + k).

Lemma write_all_ok w buf :
  buf <> [] -> file_size (w_log w) + blen buf <= limit (w_log w) -> write_all w buf = (append w buf 0, true).
Proof.
  intros Hne Hr. unfold write_all, pwrite.
  assert (Hb : 0 < blen buf) by (destruct buf; [done|unfold blen; simpl; lia]).
  assert (H0 : 0 <= file_size (w_log w)) by apply blen_nonneg.
  destruct (Z.ltb_spec (file_size (w_log w)) 0); [lia|]. destruct (Z.leb_spec (limit (w_log w)) (file_size (w_log w))); [lia|].
  simpl. rewrite Z.sub_diag. unfold zeros. change (Z.to_nat 0) with 0%nat. simpl. rewrite app_nil_r.
  rewrite (take_ge buf) by (unfold blen in *; lia). rewrite Z.eqb_refl. unfold append. f_equal.
  assert (Hf : Z.to_nat (file_size (w_log w)) = length (content (w_log w))) by (unfold file_size, blen; lia).
  rewrite Hf, firstn_all, drop_ge by lia. rewrite app_nil_r. unfold with_lsn, with_log. simpl. f_equal. lia.
Qed.

Lemma append_append w a k b j : append (append w a k) b j = append w (a ++ b) (k + j).
Proof. unfold append, with_lsn, with_log. simpl. rewrite <- app_assoc. f_equal. lia. Qed.

Lemma append_size w a k : file_size (w_log (append w a k)) = file_size (w_log w) + blen a.
Proof. unfold append, file_size. simpl. apply blen_app. Qed.

Lemma room_append w a k n j : room w (blen a + n) (k + j) -> 0 <= k -> room (append w a k) n j.
Proof. intros (H1 & H2 & H3) Hk. split; [rewrite append_size; simpl; lia|simpl; lia]. Qed.

Lemma write_hdr_ok w ty : room w 9 1 -> write_hdr w ty = (append w (ty :: le_bytes 8 (next_lsn w)) 1, true).
Proof.
  intros (H1 & H2 & H3). unfold write_hdr.
  assert (Hu : u64 (next_lsn w + 1) = next_lsn w + 1) by (apply u64_small; lia).
  rewrite Hu, write_all_ok; [|done|change (blen [ty]) with 1; cbn [w_log with_lsn]; lia]. cbn [and_then].
  rewrite write_all_ok; [|done|].
  2: { rewrite append_size, blen_le_bytes. change (blen [ty]) with 1. cbn [w_log with_lsn append with_log limit]. lia. }
  cbn [and_then]. destruct (Z.eqb_spec (next_lsn w) 0); [lia|]. rewrite append_append. cbn [negb]. f_equal.
  unfold append, with_lsn, with_log. cbn. f_equal. lia.
Qed.

(** Header and payloads of one record. *)
Lemma write_page_rec w ty pid img :
  room w (17 + PAGE_SIZE) 1 -> blen img = PAGE_SIZE ->
  and_then (write_hdr w ty) (fun w => and_then (write_all w (le_bytes 8 pid)) (fun w => write_all w img)) =
  (append w (ty :: le_bytes 8 (next_lsn w) ++ le_bytes 8 pid ++ img) 1, true).
Proof.
  intros (H1 & H2 & H3) Hi.
  assert (Hh : blen (ty :: le_bytes 8 (next_lsn w)) = 9) by (unfold blen; cbn [length]; by rewrite length_le_bytes).
  rewrite write_hdr_ok by (split; [unfold PAGE_SIZE in *; lia|lia]). cbn [and_then].
  rewrite write_all_ok; [|done|rewrite append_size, Hh, blen_le_bytes; simpl limit; unfold PAGE_SIZE in *; lia]. cbn [and_then].
  rewrite append_append, write_all_ok.
  - rewrite append_append. by rewrite <- !app_comm_cons, <- !app_assoc.
  - intros ->. done.
  - rewrite append_size, blen_app, Hh, blen_le_bytes, Hi. simpl limit. lia.
Qed.

Lemma write_begin_rec w base :
  room w 17 1 ->
  and_then (write_hdr w REC_BEGIN) (fun w => and_then (write_all w (le_bytes 8 base)) (fun w => (with_stole w true, true))) =
  (with_stole (append w (enc_rec (RBegin (next_lsn w) base)) 1) true, true).
Proof.
  intros (H1 & H2 & H3).
  assert (Hh : blen (REC_BEGIN :: le_bytes 8 (next_lsn w)) = 9) by (unfold blen; cbn [length]; by rewrite length_le_bytes).
  rewrite write_hdr_ok by (split; [lia|lia]). cbn [and_then].
  rewrite write_all_ok; [|done|rewrite append_size, Hh, blen_le_bytes; simpl limit; lia]. cbn [and_then].
  rewrite append_append. by rewrite <- app_comm_cons.
Qed.

(** ** The state of a transaction *)

(** Between transactions: the data file is the committed contents, [n] pages, and
    redoing the log's history over them changes nothing. *)
Record quiet (hist : list log_rec) (C : Z -> option bytes) (n : Z) (w : Wal) : Prop := {
  q_data : pager_wf (w_data w);
  q_log : log_ok (w_log w);
  q_content : content (w_log w) = enc hist;
  q_wf : Forall rec_wf hist;
  q_com : committed hist;
  q_imgs : imgs_ok n (seg_pages hist []);
  q_redo : forall p, 0 <= p < n -> patched (seg_pages hist []) p (C p) = C p;
  q_n : num_pages (w_data w) = n;
  q_pages : forall p, 0 <= p < n -> pager_page (w_data w) p = C p }.

(** Inside one: stolen pages have their committed image in the log. *)
Record active (hist tail : list log_rec) (C : Z -> option bytes) (n : Z) (w : Wal) : Prop := {
  a_data : pager_wf (w_data w);
  a_log : log_ok (w_log w);
  a_content : content (w_log w) = enc hist ++ enc tail;
  a_wf : Forall rec_wf (hist ++ tail);
  a_com : committed hist;
  a_imgs : imgs_ok n (seg_pages hist []);
  a_redo : forall p, 0 <= p < n -> patched (seg_pages hist []) p (C p) = C p;
  a_n : 0 <= n <= num_pages (w_data w);
  a_pages : forall p, 0 <= p < n -> p ∉ spilled w -> pager_page (w_data w) p = C p;
  a_base : base_pages w = n;
  a_start : txn_log_start w = blen (enc hist);
  a_tail : Forall (fun r => match r with RBegin _ b => b = n | RUndo _ p img => 0 <= p < n /\ C p = Some img | _ => False end) tail;
  a_begin : last_base tail None = (if stole w then Some n else None);
  a_spilled : forall p, 0 <= p < n -> p ∈ spilled w -> p ∈ (undo_imgs tail).*1;
  a_fresh : stole w = false -> tail = [] /\ spilled w = [] }.

Lemma begin_active hist C n w : quiet hist C n w -> active hist [] C n (wal_begin w).
Proof.
  intros [Hd Hl Hc Hwf Hcom Him Hre Hn Hp]. split; simpl; try done.
  - by rewrite app_nil_r.
  - by rewrite app_nil_r.
  - rewrite Hn. split; [|lia]. destruct Hd as [Hpp _ _]. unfold PAGE_SIZE in *. lia.
  - auto.
  - rewrite <- Hc. done.
Qed.

Lemma last_base_app a b x : last_base (a ++ b) x = last_base b (last_base a x).
Proof. revert x. induction a as [|[] a IH]; intros x; simpl; auto. Qed.

Lemma last_base_undo l x : Forall (fun r => match r with RUndo _ _ _ => True | _ => False end) l -> last_base l x = x.
Proof. intros H. induction H as [|[] l Hr _ IH]; done. Qed.

Lemma undo_imgs_app a b : undo_imgs (a ++ b) = undo_imgs a ++ undo_imgs b.
Proof. apply omap_app. Qed.

(** Appending one record of the transaction keeps the state active. *)
Lemma active_append hist tail C n w r :
  active hist tail C n w -> rec_wf r -> file_size (w_log w) + blen (enc_rec r) <= limit (w_log w) -> stole w = true ->
  match r with RBegin _ b => b = n | RUndo _ p img => 0 <= p < n /\ C p = Some img | _ => False end ->
  active hist (tail ++ [r]) C n (append w (enc_rec r) 1).
Proof.
  intros [Hd Hl Hc Hwf Hcom Him Hre Hn Hp Hb Hst Ht Hbe Hsp Hfr] Hr Hroom Hs Hk. rewrite Hs in *. split; simpl; try done; try congruence.
  - unfold log_ok, file_size in *. cbn [content limit]. rewrite blen_app. lia.
  - rewrite Hc, enc_app, enc_cons. change (enc []) with (@nil Z). by rewrite app_nil_r, app_assoc.
  - rewrite app_assoc. apply Forall_app. split; [done|by constructor].
  - apply Forall_app. split; [done|]. constructor; [|done]. destruct r; naive_solver.
  - rewrite last_base_app, Hbe, Hs. destruct r; simpl; try done. by subst.
  - intros p Hpn Hin. rewrite undo_imgs_app, fmap_app. apply elem_of_app. left. auto.
Qed.

Lemma with_stole_active hist C n w :
  active hist [] C n w -> stole w = false -> room w 17 1 ->
  active hist [RBegin (next_lsn w) n] C n (with_stole (append w (enc_rec (RBegin (next_lsn w) n)) 1) true).
Proof.
  intros [Hd Hl Hc Hwf Hcom Him Hre Hn Hp Hb Hst Ht Hbe Hsp Hfr] Hs (H1 & H2 & H3).
  assert (Hn64 : 0 <= n < 2 ^ 64) by (destruct Hd as [Hpp Hll _]; unfold PAGE_SIZE in *; lia).
  assert (Hbl : blen (enc_rec (RBegin (next_lsn w) n)) = 17) by (unfold enc_rec, blen; cbn [length]; rewrite length_app, !length_le_bytes; lia).
  split; simpl; try done.
  - unfold log_ok, file_size in *. cbn [content limit]. rewrite blen_app. change (blen (REC_BEGIN :: _)) with (blen (enc_rec (RBegin (next_lsn w) n))). lia.
  - rewrite Hc, enc_cons. change (enc []) with (@nil Z). by rewrite !app_nil_r.
  - rewrite app_nil_r in Hwf. apply Forall_app. split; [done|by constructor].
  - by constructor.
Qed.

Lemma steal_begin_ok hist tail C n w :
  active hist tail C n w -> room w 17 1 ->
  exists tail' w', steal_log_begin w = (w', true) /\ active hist tail' C n w' /\ stole w' = true /\
    w_data w' = w_data w /\ staged w' = staged w /\ spilled w' = spilled w /\
    file_size (w_log w') <= file_size (w_log w) + 17 /\ limit (w_log w') = limit (w_log w) /\
    next_lsn w <= next_lsn w' <= next_lsn w + 1.
Proof.
  intros Ha Hr. pose proof (a_fresh _ _ _ _ _ Ha) as Hs. unfold steal_log_begin. destruct (stole w) eqn:E.
  - exists tail, w. do 7 (split; [done || lia|]). split; [done|lia].
  - destruct (Hs eq_refl) as [-> Hsp]. cbn zeta. rewrite write_begin_rec by done. rewrite (a_base _ _ _ _ _ Ha).
    eexists _, _. split; [done|]. split; [by apply with_stole_active|]. do 4 (split; [done|]).
    split; [|split; [done|simpl; lia]].
    change (w_log (with_stole ?x true)) with (w_log x). rewrite append_size. unfold enc_rec, blen. cbn [length].
    rewrite length_app, !length_le_bytes. lia.
Qed.

Lemma spilled_contains_spec w p : spilled_contains w p = true <-> p ∈ spilled w.
Proof.
  unfold spilled_contains. rewrite existsb_exists. setoid_rewrite Z.eqb_eq. setoid_rewrite <- list_elem_of_In. naive_solver.
Qed.

Lemma add_spilled_active hist tail C n w p :
  active hist tail C n w -> stole w = true -> (0 <= p < n -> p ∈ (undo_imgs tail).*1) -> active hist tail C n (spilled_add w p).
Proof.
  intros [Hd Hl Hc Hwf Hcom Him Hre Hn Hp Hb Hst Ht Hbe Hsp Hfr] Hs Hin. split; simpl; try done; try congruence.
  - intros q Hq Hns. apply Hp; [done|]. set_solver.
  - intros q Hq [Hqs| ->%list_elem_of_singleton]%elem_of_app; auto.
Qed.

Lemma steal_undo_ok hist tail C n w p :
  active hist tail C n w -> stole w = true -> room w (17 + PAGE_SIZE) 1 -> 0 <= p < num_pages (w_data w) ->
  exists tail' w', steal_log_undo w p = (w', true) /\ active hist tail' C n w' /\ p ∈ spilled w' /\
    w_data w' = w_data w /\ staged w' = staged w /\ stole w' = stole w /\
    (forall q, q ∈ spilled w' <-> q ∈ spilled w \/ q = p) /\
    file_size (w_log w') <= file_size (w_log w) + (17 + PAGE_SIZE) /\ limit (w_log w') = limit (w_log w) /\
    next_lsn w <= next_lsn w' <= next_lsn w + 1.
Proof.
  intros Ha Hst Hr Hp. unfold steal_log_undo. destruct (spilled_contains w p) eqn:E.
  { apply spilled_contains_spec in E. exists tail, w. do 6 (split; [done|]). split; [naive_solver|]. split; [unfold PAGE_SIZE; lia|split; [done|lia]]. }
  assert (Hns : p ∉ spilled w) by (rewrite <- spilled_contains_spec; congruence).
  assert (Hmem : forall l : list Z, forall q, q ∈ l ++ [p] <-> q ∈ l \/ q = p) by (intros; set_solver).
  rewrite (a_base _ _ _ _ _ Ha). destruct (Z.ltb_spec p n) as [Hlt|Hge].
  - assert (Hpg : pager_page (w_data w) p = C p) by (apply (a_pages _ _ _ _ _ Ha); [lia|done]).
    destruct (proj2 (pager_page_Some (w_data w) p (a_data _ _ _ _ _ Ha)) Hp) as [img Himg]. rewrite Himg.
    assert (Hok : page_ok img) by (eapply (law_read (w_data w) p); [apply Ha|done]).
    rewrite write_page_rec; [|done|apply Hok]. cbn [and_then].
    set (r := RUndo (next_lsn w) p img). change (REC_UNDO :: le_bytes 8 (next_lsn w) ++ le_bytes 8 p ++ img) with (enc_rec r).
    assert (Hbl : blen (enc_rec r) = 17 + PAGE_SIZE) by (apply blen_enc_page, Hok).
    assert (Hn64 : num_pages (w_data w) < 2 ^ 64) by (destruct (a_data _ _ _ _ _ Ha) as [Hpp Hll _]; unfold PAGE_SIZE in *; lia).
    assert (Ha' : active hist (tail ++ [r]) C n (append w (enc_rec r) 1)).
    { apply active_append; [done| | | |].
      - split; [lia|done]. - rewrite Hbl. by destruct Hr. - done. - simpl. split; [lia|]. congruence. }
    eexists _, _. split; [done|]. split; [apply add_spilled_active; [exact Ha'|done|]|].
    { intros _. rewrite undo_imgs_app, fmap_app. simpl. set_solver. }
    split; [simpl; set_solver|]. do 3 (split; [done|]). split; [intros q; simpl; apply Hmem|].
    split; [change (w_log (spilled_add ?x p)) with (w_log x); rewrite append_size; lia|]. split; [done|simpl; lia].
  - cbn [and_then]. eexists _, _. split; [done|]. split; [apply add_spilled_active; [exact Ha|done|lia]|].
    split; [simpl; set_solver|]. do 3 (split; [done|]). split; [intros q; simpl; apply Hmem|].
    split; [simpl; unfold PAGE_SIZE; lia|]. split; [done|simpl; lia].
Qed.

(** Changing the data file at a spilled page, or beyond the committed pages. *)
Lemma data_active hist tail C n w d :
  active hist tail C n w -> pager_wf d -> num_pages (w_data w) <= num_pages d ->
  (forall p, 0 <= p < n -> p ∉ spilled w -> pager_page d p = pager_page (w_data w) p) -> active hist tail C n (with_data w d).
Proof.
  intros [Hd Hl Hc Hwf Hcom Him Hre Hn Hp Hb Hst Ht Hbe Hsp Hfr] Hwd Hnd Hpd. split; simpl; try done; [lia|].
  intros p Hpn Hns. rewrite Hpd by done. auto.
Qed.

Lemma sync_active hist tail C n w : active hist tail C n w -> active hist tail C n (sync_log w).
Proof. intros [Hd Hl Hc Hwf Hcom Him Hre Hn Hp Hb Hst Ht Hbe Hsp Hfr]. by split. Qed.

Lemma staged_active hist tail C n w s : active hist tail C n w -> active hist tail C n (with_staged w s).
Proof. intros [Hd Hl Hc Hwf Hcom Him Hre Hn Hp Hb Hst Ht Hbe Hsp Hfr]. by split. Qed.

Definition STEAL_BYTES : Z := 34 + PAGE_SIZE.

Lemma wal_steal_spec hist tail C n w p buf :
  active hist tail C n w -> room w STEAL_BYTES 2 -> 0 <= p < num_pages (w_data w) -> page_ok buf ->
  exists tail' w', wal_steal w p buf = (w', 0) /\ active hist tail' C n w' /\ staged w' = staged w /\
    num_pages (w_data w') = num_pages (w_data w) /\
    (forall q, pager_page (w_data w') q = if decide (q = p) then Some buf else pager_page (w_data w) q) /\
    (forall q, q ∈ spilled w' <-> q ∈ spilled w \/ q = p) /\
    file_size (w_log w') <= file_size (w_log w) + STEAL_BYTES /\ limit (w_log w') = limit (w_log w) /\
    next_lsn w <= next_lsn w' <= next_lsn w + 2.
Proof.
  intros Ha (R1 & R2 & R3) Hp Hok. unfold wal_steal, STEAL_BYTES in *.
  destruct (steal_begin_ok _ _ _ _ _ Ha) as (t1 & w1 & -> & Ha1 & Hs1 & Hd1 & Hst1 & Hsp1 & Hf1 & Hl1 & Hn1).
  { split; [unfold PAGE_SIZE in *; lia|lia]. }
  cbn [and_then]. rewrite <- Hd1 in Hp.
  destruct (steal_undo_ok _ _ _ _ _ p Ha1 Hs1) as (t2 & w2 & -> & Ha2 & Hin & Hd2 & Hst2 & Hs2 & Hsp2 & Hf2 & Hl2 & Hn2); [|done|].
  { split; [unfold PAGE_SIZE in *; lia|lia]. }
  change (w_data (sync_log w2)) with (w_data w2). rewrite Hd2.
  destruct (pager_put_spec (w_data w1) p buf (a_data _ _ _ _ _ Ha1) Hok Hp) as (c & Hc & Hput).
  pose proof (pager_put_writes (w_data w1) p buf (a_data _ _ _ _ _ Ha1) Hok ltac:(by apply pager_page_Some; [apply Ha1|])) as (Hwf1 & Hne & _ & Heq).
  rewrite Hput in *. simpl in Hwf1, Hne, Heq. set (d := mkPager _ _) in *.
  exists t2, (with_data (sync_log w2) d). split; [done|].
  split.
  { apply data_active; [by apply sync_active|done|simpl; rewrite Hd2; done|].
    intros q Hq Hns. simpl in *. rewrite Hd2. apply Hne. intros ->. done. }
  split; [simpl; congruence|]. split; [simpl; by rewrite Hd1|]. split.
  { intros q. simpl. rewrite <- Hd1. case_decide as Hq; [subst; by apply Heq|by apply Hne]. }
  split; [intros q; simpl; rewrite Hsp2, Hsp1; done|]. split; [simpl; lia|]. split; [simpl; congruence|simpl; lia].
Qed.

(** ** A crash inside a transaction *)

Lemma patched_None ws p v : p ∉ ws.*1 -> patched ws p v = v.
Proof.
  unfold patched. revert v. induction ws as [|[q i] ws IH]; intros v Hn; [done|]. simpl in *.
  rewrite decide_False by set_solver. apply IH. set_solver.
Qed.

Lemma patched_app a b p v : patched (a ++ b) p v = patched b p (patched a p v).
Proof. unfold patched. by rewrite foldl_app. Qed.

Lemma patched_const ws p v c : p ∈ ws.*1 -> Forall (fun w => w.1 = p -> Some w.2 = c) ws -> patched ws p v = c.
Proof.
  unfold patched. revert v. induction ws as [|[q i] ws IH]; intros v Hin Hall; [by apply elem_of_nil in Hin|].
  inversion_clear Hall as [|? ? Hq Hws]. simpl in *. destruct (decide (p ∈ ws.*1)) as [Hin'|Hn]; [by apply IH|].
  destruct (decide (p = q)) as [->|]; [|set_solver]. change (patched ws q (Some i) = c). rewrite patched_None; [by apply Hq|done].
Qed.

Lemma pager_reopen d : pager_wf d -> pager_open (fd d) = d.
Proof.
  intros [Hp Hl _]. unfold pager_open. destruct d as [f n]. simpl in *. f_equal. unfold PAGE_SIZE in *.
  rewrite u64_small by lia. symmetry. apply (Z.div_unique _ _ _ (file_size f - n * 4096)); lia.
Qed.

(** The reopened database after a crash that leaves data file [d] and log bytes [log]. *)
Definition reopen (d : Pager) (log : bytes) (limit : Z) : Wal := wal_open no_hooks (fd d) (mkFile log limit).

Lemma reopen_spec d log lim hist tail t :
  pager_wf d -> blen log <= lim -> log = enc hist ++ enc tail ++ t ->
  Forall rec_wf (hist ++ tail) -> committed hist -> Forall (fun r => is_commit r = false) tail -> torn t ->
  imgs_ok (num_pages d) (seg_pages hist []) -> imgs_ok (num_pages d) (undo_imgs tail) ->
  let w := reopen d log lim in
  content (w_log w) = [] /\ pager_wf (w_data w) /\
  num_pages (w_data w) = (match last_base tail None with Some b => Z.min b (num_pages d) | None => num_pages d end) /\
  forall p, 0 <= p < num_pages (w_data w) -> wal_read w p = patched (undo_imgs tail) p (patched (seg_pages hist []) p (pager_page d p)).
Proof.
  intros Hd Hl Hlog Hwf Hcom Htail Ht Hredo Hundo w. unfold w, reopen, wal_open. rewrite pager_reopen by done.
  set (w0 := mkWal d _ _ _ _ _ _ _ _ _).
  destruct (wal_recover_spec w0 hist tail t) as (d' & -> & Hwf' & Hn' & Hp'); try done.
Qed.

(** Records of the unfinished transaction and of an unfinished commit. *)
Definition is_page_rec (r : log_rec) : Prop := match r with RPage _ _ _ => True | _ => False end.

Lemma undo_imgs_pages rs : Forall is_page_rec rs -> undo_imgs rs = [].
Proof. intros H. induction H as [|[] rs Hr _ IH]; done. Qed.

Lemma last_base_pages rs b : Forall is_page_rec rs -> last_base rs b = b.
Proof. intros H. induction H as [|[] rs Hr _ IH]; done. Qed.

Lemma imgs_ok_mono n m ws : n <= m -> imgs_ok n ws -> imgs_ok m ws.
Proof. intros Hnm H. eapply Forall_impl; [|exact H]. intros [q i] [? ?]. simpl in *. split; [lia|done]. Qed.

Lemma undo_imgs_ok hist tail C n w :
  active hist tail C n w -> Forall (fun x => 0 <= x.1 < n /\ C x.1 = Some x.2 /\ page_ok x.2) (undo_imgs tail).
Proof.
  intros [Hd Hl Hc Hwf0 Hcom Him Hre Hn Hp Hb Hst Htl Hbe Hsp Hfr]. apply Forall_app in Hwf0 as [_ Hwt]. clear -Htl Hwt.
  induction Htl as [|r tail Hr Ht IH]; [constructor|]. inversion_clear Hwt.
  destruct r; simpl; try done; [by apply IH|]. constructor; [|by apply IH]. simpl. destruct Hr. naive_solver.
Qed.

Lemma active_crash hist tail C n w pgs t lim :
  active hist tail C n w -> Forall rec_wf pgs -> Forall is_page_rec pgs -> torn t ->
  blen (content (w_log w) ++ enc pgs ++ t) <= lim ->
  let r := reopen (w_data w) (content (w_log w) ++ enc pgs ++ t) lim in
  content (w_log r) = [] /\ pager_wf (w_data r) /\ n <= num_pages (w_data r) /\ (stole w = true -> num_pages (w_data r) = n) /\
  forall p, 0 <= p < n -> wal_read r p = C p.
Proof.
  intros Ha Hwf Hpg Ht Hlim r. pose proof Ha as [Hd Hl Hc Hwf0 Hcom Him Hre Hn Hp Hb Hst Htl Hbe Hsp Hfr].
  assert (Hlog : content (w_log w) ++ enc pgs ++ t = enc hist ++ enc (tail ++ pgs) ++ t).
  { rewrite Hc, enc_app, <- !app_assoc. done. }
  assert (Hundo : undo_imgs (tail ++ pgs) = undo_imgs tail) by (rewrite undo_imgs_app, (undo_imgs_pages pgs), app_nil_r; done).
  pose proof (undo_imgs_ok _ _ _ _ _ Ha) as Huok.
  destruct (reopen_spec (w_data w) (content (w_log w) ++ enc pgs ++ t) lim hist (tail ++ pgs) t) as (R1 & R2 & R3 & R4); try done.
  - rewrite app_assoc. apply Forall_app. done.
  - apply Forall_app. split.
    + eapply Forall_impl; [|exact Htl]. intros [] Hx; done.
    + eapply Forall_impl; [|exact Hpg]. intros [] Hx; done.
  - eapply imgs_ok_mono; [|exact Him]. lia.
  - rewrite Hundo. eapply Forall_impl; [|exact Huok]. intros [q i] (? & ? & ?). simpl in *. split; [lia|done].
  - split; [done|]. split; [done|]. rewrite last_base_app, last_base_pages, Hbe in R3 by done.
    assert (Hnum : n <= num_pages (w_data r) /\ (stole w = true -> num_pages (w_data r) = n)).
    { unfold r. rewrite R3. destruct (stole w); [split; [lia|intros _; lia]|split; [lia|done]]. }
    split; [apply Hnum|]. split; [apply Hnum|]. intros p Hpn. unfold r in *. rewrite R4 by lia. rewrite Hundo.
    destruct (decide (p ∈ spilled w)) as [Hin|Hin].
    + apply patched_const; [auto|]. eapply Forall_impl; [|exact Huok]. intros [q i] (? & HC & ?) Hq. simpl in *. by subst.
    + rewrite Hp, Hre by done. destruct (decide (p ∈ (undo_imgs tail).*1)) as [Hu|Hu]; [|by apply patched_None].
      apply patched_const; [done|]. eapply Forall_impl; [|exact Huok]. intros [q i] (? & HC & ?) Hq. simpl in *. by subst.
Qed.

(** ** Commit *)

Fixpoint page_recs (lsn : Z) (ws : list (Z * bytes)) : list log_rec :=
  match ws with
  | [] => []
  | (pid, img) :: r => RPage lsn pid img :: page_recs (lsn + 1) r
  end.

Definition PAGE_REC : Z := 17 + PAGE_SIZE.

Lemma log_staged_ok ws : forall w,
  room w (blen ws * PAGE_REC) (blen ws) -> Forall (fun x => page_ok x.2) ws ->
  log_staged w ws = (append w (enc (page_recs (next_lsn w) ws)) (blen ws), true).
Proof.
  induction ws as [|[pid img] ws IH]; intros w Hr Hok; cbn [log_staged page_recs].
  { change (enc []) with (@nil Z). f_equal. unfold append. rewrite app_nil_r. change (blen []) with 0. rewrite Z.add_0_r.
    destruct w as [? [? ?]]. done. }
  inversion_clear Hok as [|? ? Hi Hok']. simpl in Hi.
  assert (Hb : blen ((pid, img) :: ws) = 1 + blen ws) by (unfold blen; simpl; lia). rewrite Hb in *.
  destruct Hr as (R1 & R2 & R3). unfold PAGE_REC in *. pose proof (blen_nonneg ws).
  rewrite write_page_rec; [|split; [unfold PAGE_SIZE in *; lia|lia]|apply Hi]. cbn [and_then].
  set (r := RPage (next_lsn w) pid img). change (REC_PAGE :: le_bytes 8 (next_lsn w) ++ le_bytes 8 pid ++ img) with (enc_rec r).
  assert (Hbl : blen (enc_rec r) = 17 + PAGE_SIZE) by (apply blen_enc_page, Hi).
  rewrite IH; [|apply room_append; [split; [rewrite Hbl; unfold PAGE_SIZE in *; lia|lia]|lia]|done].
  rewrite append_append, enc_cons. simpl next_lsn. done.
Qed.

Lemma page_recs_wf lsn ws n : imgs_ok n ws -> n <= 2 ^ 64 -> Forall rec_wf (page_recs lsn ws) /\ Forall is_page_rec (page_recs lsn ws).
Proof.
  intros Hok Hn. revert lsn. induction Hok as [|[p i] ws [Hp Hi] _ IH]; intros lsn; [done|]. simpl in *.
  destruct (IH (lsn + 1)). split; constructor; try done. split; [lia|done].
Qed.

(** Any prefix of encoded page records is whole records and a torn one. *)
Lemma enc_prefix rs (k : nat) :
  Forall rec_wf rs -> Forall is_page_rec rs -> exists j t, take k (enc rs) = enc (take j rs) ++ t /\ torn t.
Proof.
  intros Hwf Hp. revert k. induction Hwf as [|r rs Hr _ IH]; intros k.
  { exists 0%nat, []. split; [by destruct k|by left]. }
  inversion_clear Hp as [|? ? Hpr Hprs]. rewrite enc_cons. destruct (decide (k < length (enc_rec r))%nat) as [Hlt|Hge].
  - exists 0%nat, (take k (enc_rec r)). rewrite take_app_le by lia. split; [done|]. right. exists r, (drop k (enc_rec r)).
    split; [done|]. split; [by destruct r|]. split; [|by rewrite take_drop]. intros Hnil. apply (f_equal length) in Hnil.
    rewrite length_drop in Hnil. simpl in Hnil. lia.
  - destruct (IH Hprs (k - length (enc_rec r))%nat) as (j & t & Ht & Htorn). exists (S j), t. split; [|done].
    rewrite take_app_ge by lia. rewrite Ht. simpl. rewrite enc_cons, <- app_assoc. done.
Qed.

Fixpoint pend (rs : list log_rec) (redo : list (Z * bytes)) : list (Z * bytes) :=
  match rs with
  | [] => redo
  | RPage _ pid img :: r => pend r (if blen redo <? WAL_MAX_STAGED then redo ++ [(pid, img)] else redo)
  | RCommit _ :: r => pend r []
  | _ :: r => pend r redo
  end.

Lemma redo_pass_prefix rs : forall fuel pre z redo d rc ls,
  Forall rec_wf rs ->
  redo_pass (length rs + fuel) (pre ++ enc rs ++ z) (blen pre) redo d rc ls =
  let '(d, rc) := redo_writes d (seg_pages rs redo) rc in
  redo_pass fuel (pre ++ enc rs ++ z) (blen (pre ++ enc rs)) (pend rs redo) d rc (last_commit rs (blen pre) ls).
Proof.
  induction rs as [|r rs IH]; intros fuel pre z redo d rc ls Hwf.
  { simpl. change (enc []) with (@nil Z). by rewrite app_nil_r. }
  inversion_clear Hwf as [|? ? Hr Hrs]. rewrite enc_cons, <- app_assoc. cbn [length Nat.add].
  rewrite redo_pass_step by done. cbn zeta. rewrite !app_assoc, <- (app_assoc (pre ++ enc_rec r)).
  cbn [last_commit]. rewrite <- blen_app. destruct r as [lsn pid img|lsn|lsn base|lsn pid img]; cbn [seg_pages pend is_commit]; rewrite ?IH by done; try done.
  rewrite redo_writes_app. destruct (redo_writes d redo rc) as [d1 rc1]. by rewrite IH.
Qed.

(** A commit marker counts from its first byte on. *)
Lemma redo_pass_torn_commit rs fuel z d rc :
  Forall rec_wf rs -> blen z <= 8 ->
  redo_pass (length rs + S fuel) (enc rs ++ REC_COMMIT :: z) 0 [] d rc 0 =
  let '(d, rc) := redo_writes d (seg_pages rs [] ++ pend rs []) rc in (d, rc, blen (enc rs) + 9).
Proof.
  intros Hwf Hz. pose proof (redo_pass_prefix rs (S fuel) [] (REC_COMMIT :: z) [] d rc 0 Hwf) as Hp.
  change (blen []) with 0 in Hp. simpl app in Hp. rewrite Hp, redo_writes_app.
  destruct (redo_writes d (seg_pages rs []) rc) as [d1 rc1]. cbn [redo_pass]. rewrite get_type.
  change (REC_COMMIT =? REC_BEGIN) with false. change (REC_COMMIT =? REC_UNDO) with false.
  change (REC_COMMIT =? REC_PAGE) with false. change (REC_COMMIT =? REC_COMMIT) with true. cbn iota.
  destruct (redo_writes d1 (pend rs []) rc1) as [d2 rc2]. rewrite redo_pass_end; [f_equal; lia|].
  rewrite blen_app. unfold blen in *. cbn [length]. lia.
Qed.

Lemma seg_pages_skip tail x redo :
  Forall (fun r => match r with RBegin _ _ | RUndo _ _ _ => True | _ => False end) tail ->
  seg_pages (tail ++ x) redo = seg_pages x redo /\ pend (tail ++ x) redo = pend x redo.
Proof. intros H. induction H as [|[] tail Hr _ IH]; done. Qed.

Lemma pend_app a b redo : committed a -> a <> [] -> pend (a ++ b) redo = pend b [].
Proof.
  intros [->|(a' & lsn & ->)]; [done|]. intros _. revert redo. induction a' as [|r a' IH]; intros redo; [done|]. simpl. by destruct r; rewrite IH.
Qed.

Lemma seg_pages_snoc rs lsn : forall redo, seg_pages (rs ++ [RCommit lsn]) redo = seg_pages rs redo ++ pend rs redo.
Proof. induction rs as [|[] rs IH]; intros redo; simpl; rewrite ?IH, ?app_nil_r, <- ?app_assoc; done. Qed.

Lemma pend_page_recs ws : forall lsn redo,
  blen redo + blen ws <= WAL_MAX_STAGED ->
  pend (page_recs lsn ws) redo = redo ++ ws /\ seg_pages (page_recs lsn ws) redo = [].
Proof.
  induction ws as [|[p i] ws IH]; intros lsn redo Hb; simpl; [by rewrite app_nil_r|].
  assert (Hl : blen ((p, i) :: ws) = 1 + blen ws) by (unfold blen; simpl; lia). pose proof (blen_nonneg ws).
  destruct (Z.ltb_spec (blen redo) WAL_MAX_STAGED); [|lia].
  destruct (IH (lsn + 1) (redo ++ [(p, i)])) as [-> ->]; [rewrite blen_app; change (blen [(p, i)]) with 1; lia|].
  by rewrite <- app_assoc.
Qed.

Lemma committed_pages hist tail ws lsn :
  committed hist -> Forall (fun r => match r with RBegin _ _ | RUndo _ _ _ => True | _ => False end) tail -> blen ws <= WAL_MAX_STAGED ->
  seg_pages (hist ++ tail ++ page_recs lsn ws) [] = seg_pages hist [] /\ pend (hist ++ tail ++ page_recs lsn ws) [] = ws.
Proof.
  intros Hc Ht Hb. destruct (seg_pages_skip tail (page_recs lsn ws) [] Ht) as [H1 H2].
  destruct (pend_page_recs ws lsn []) as [H3 H4]; [change (blen []) with 0; lia|].
  destruct (decide (hist = [])) as [->|Hne]; [simpl; by rewrite H1, H2, H3, H4|].
  rewrite seg_pages_app, pend_app, H1, H2, H3, H4, app_nil_r by done. done.
Qed.

Lemma patched_in ws p v v' : p ∈ ws.*1 -> patched ws p v = patched ws p v'.
Proof.
  revert v v'. induction ws as [|[q i] ws IH]; intros v v' Hin; [by apply elem_of_nil in Hin|]. unfold patched. simpl in *.
  destruct (decide (p ∈ ws.*1)) as [Hw|Hw]; [by apply IH|]. destruct (decide (p = q)); [done|set_solver].
Qed.

(** A stolen page whose older image the log still holds must be staged again,
    otherwise the redo of the old image undoes the committed change. *)
Definition restaged (hist : list log_rec) (n : Z) (w : Wal) : Prop :=
  forall p, 0 <= p < n -> p ∈ spilled w -> p ∈ (staged w).*1 \/ p ∉ (seg_pages hist []).*1.

Definition committed_view (w : Wal) (p : Z) : option bytes := patched (staged w) p (pager_page (w_data w) p).

Lemma take_staged_view ws (j : nat) p v : p ∉ ws.*1 -> patched (take j ws) p v = v.
Proof.
  intros Hn. apply patched_None. intros Hin. apply Hn. rewrite <- (take_drop j ws), fmap_app. set_solver.
Qed.

Lemma redo_committed_view hist tail C n w (j : nat) p :
  active hist tail C n w -> restaged hist n w -> 0 <= p ->
  patched (staged w) p (patched (seg_pages hist []) p (patched (take j (staged w)) p (pager_page (w_data w) p))) = committed_view w p.
Proof.
  intros Ha Hre Hp. unfold committed_view. destruct (decide (p ∈ (staged w).*1)) as [Hs|Hs]; [by apply patched_in|]. f_equal.
  rewrite take_staged_view by done. destruct (decide (p ∈ (seg_pages hist []).*1)) as [Hh|Hh]; [|by apply patched_None].
  assert (Hpn : p < n).
  { apply list_elem_of_fmap in Hh as ([q i] & -> & Hin). pose proof (a_imgs _ _ _ _ _ Ha) as Him. unfold imgs_ok in Him.
    pose proof (proj1 (list.Forall_forall _ _) Him _ Hin) as Hx. simpl in *. lia. }
  destruct (decide (p ∈ spilled w)) as [Hsp|Hsp]; [destruct (Hre p ltac:(lia) Hsp); done|].
  rewrite (a_pages _ _ _ _ _ Ha) by (lia || done). by apply (a_redo _ _ _ _ _ Ha).
Qed.

Lemma tail_kinds hist tail C n w :
  active hist tail C n w -> Forall (fun r => match r with RBegin _ _ | RUndo _ _ _ => True | _ => False end) tail.
Proof. intros Ha. eapply Forall_impl; [|exact (a_tail _ _ _ _ _ Ha)]. intros [] Hx; done. Qed.

(** Recovery when (part of) the commit marker is in the log and some staged pages
    have been applied. *)
Lemma crash_after_marker hist tail C n w (j : nat) z lim :
  active hist tail C n w -> restaged hist n w -> imgs_ok (num_pages (w_data w)) (staged w) -> blen (staged w) <= WAL_MAX_STAGED ->
  blen z <= 8 ->
  let d := (apply_staged (w_data w) (take j (staged w))).1 in
  let r := reopen d (content (w_log w) ++ enc (page_recs (next_lsn w) (staged w)) ++ REC_COMMIT :: z) lim in
  pager_wf (w_data r) /\ num_pages (w_data r) = num_pages (w_data w) /\
  forall p, 0 <= p -> wal_read r p = committed_view w p.
Proof.
  intros Ha Hre Hok Hbound Hz d r. pose proof Ha as [Hd Hl Hc Hwf0 Hcom Him Hredo Hn Hp Hb Hst Htl Hbe Hsp Hfr].
  assert (Hn64 : num_pages (w_data w) <= 2 ^ 64) by (destruct Hd as [Hpp Hll _]; unfold PAGE_SIZE in *; lia).
  destruct (apply_staged_spec (take j (staged w)) (w_data w) Hd) as (d1 & Hap & Hwd1 & Hnd1 & Hpd1); [by apply Forall_take|].
  assert (Hdd : d = d1) by (unfold d; by rewrite Hap).
  destruct (page_recs_wf (next_lsn w) (staged w) _ Hok Hn64) as [Hpwf Hpk].
  set (rs := hist ++ tail ++ page_recs (next_lsn w) (staged w)).
  assert (Hlog : content (w_log w) ++ enc (page_recs (next_lsn w) (staged w)) ++ REC_COMMIT :: z = enc rs ++ REC_COMMIT :: z).
  { unfold rs. rewrite !enc_app, Hc, <- !app_assoc. done. }
  assert (Hrs : Forall rec_wf rs) by (unfold rs; rewrite app_assoc; apply Forall_app; done).
  destruct (committed_pages hist tail (staged w) (next_lsn w) Hcom (tail_kinds _ _ _ _ _ Ha) Hbound) as [Hseg Hpend]. fold rs in Hseg, Hpend.
  assert (Him' : imgs_ok (num_pages d1) (seg_pages hist [] ++ staged w)).
  { rewrite Hnd1. apply Forall_app. split; [|done]. eapply imgs_ok_mono; [|exact Him]. lia. }
  destruct (redo_writes_spec _ d1 0 Hwd1 Him') as (d2 & Hrw & Hwd2 & Hnd2 & _ & Hpd2).
  assert (Hr : w_data r = d2).
  { unfold r, reopen, wal_open. rewrite Hdd, pager_reopen, Hlog by done. unfold wal_recover. cbn [w_log w_data content].
    assert (Hfu : exists f, log_fuel (enc rs ++ REC_COMMIT :: z) = (length rs + S f)%nat).
    { exists (length (enc rs ++ REC_COMMIT :: z) - length rs)%nat. unfold log_fuel. rewrite length_app. pose proof (length_enc rs). lia. }
    destruct Hfu as [f Hfu]. rewrite Hfu, redo_pass_torn_commit by done. rewrite Hseg, Hpend, Hrw.
    rewrite undo_pass_end; [by destruct (ftruncate _ 0)|]. rewrite blen_app. unfold blen in *. cbn [length]. lia. }
  rewrite Hr. split; [done|]. split; [congruence|]. intros p Hp0. unfold wal_read. rewrite Hr, Hpd2, Hpd1, patched_app.
  by eapply redo_committed_view.
Qed.

(** The bytes a commit appends: the images of the staged pages, then the marker. *)
Definition commit_pages (w : Wal) : bytes := enc (page_recs (next_lsn w) (staged w)).
Definition commit_marker (w : Wal) : bytes := REC_COMMIT :: le_bytes 8 (next_lsn w + blen (staged w)).

Lemma blen_commit_pages w : Forall (fun x : Z * bytes => page_ok x.2) (staged w) -> blen (commit_pages w) = blen (staged w) * PAGE_REC.
Proof.
  unfold commit_pages. generalize (next_lsn w). intros l H. revert l. induction H as [|[p i] ws Hi _ IH]; intros lsn; [done|].
  cbn [page_recs]. rewrite enc_cons, blen_app, IH, (proj1 (blen_enc_page lsn p i (proj1 Hi))).
  assert (blen ((p, i) :: ws) = 1 + blen ws) as -> by (unfold blen; simpl; lia). unfold PAGE_REC, PAGE_SIZE. lia.
Qed.

(** After a successful commit: the new committed contents are those the
    transaction saw, and the log's history includes it (or was checkpointed). *)
Lemma wal_commit_spec hist tail C n w :
  active hist tail C n w -> restaged hist n w -> imgs_ok (num_pages (w_data w)) (staged w) -> blen (staged w) <= WAL_MAX_STAGED ->
  room w (blen (staged w) * PAGE_REC + 9) (blen (staged w) + 1) ->
  exists w' hist', wal_commit no_hooks w = (w', 0) /\ quiet hist' (committed_view w) (num_pages (w_data w)) w' /\
    (hist' = [] \/ seg_pages hist' [] = seg_pages hist [] ++ staged w) /\
    limit (w_log w') = limit (w_log w) /\ next_lsn w' = next_lsn w + blen (staged w) + 1 /\
    file_size (w_log w') <= file_size (w_log w) + blen (staged w) * PAGE_REC + 9 /\
    (file_size (w_log w) + blen (staged w) * PAGE_REC + 9 <= WAL_CHECKPOINT_BYTES ->
     hist' = hist ++ tail ++ page_recs (next_lsn w) (staged w) ++ [RCommit (next_lsn w + blen (staged w))]).
Proof.
  intros Ha Hre Hok Hbound (R1 & R2 & R3). pose proof Ha as [Hd Hl Hc Hwf0 Hcom Him Hredo Hn Hp Hb Hst Htl Hbe Hsp Hfr].
  assert (Hn64 : num_pages (w_data w) <= 2 ^ 64) by (destruct Hd as [Hpp Hll _]; unfold PAGE_SIZE in *; lia).
  pose proof (blen_nonneg (staged w)) as Hb0. unfold wal_commit.
  assert (Himg : Forall (fun x : Z * bytes => page_ok x.2) (staged w)) by (eapply Forall_impl; [|exact Hok]; intros ? [_ ?]; done).
  rewrite log_staged_ok; [|split; [lia|lia]|done]. cbn [negb crash_before_commit no_hooks].
  set (pgs := page_recs (next_lsn w) (staged w)). set (w1 := append w (enc pgs) (blen (staged w))).
  assert (Hbl : blen (enc pgs) = blen (staged w) * PAGE_REC) by (by apply blen_commit_pages).
  rewrite write_hdr_ok; [|split; [unfold w1; rewrite append_size; simpl; lia|simpl; lia]]. cbn [negb crash_after_log no_hooks].
  unfold w1. rewrite append_append. set (lsn := next_lsn (append w (enc pgs) (blen (staged w)))).
  change (w_data (sync_log (append w ?b ?k))) with (w_data w).
  destruct (apply_staged_spec (staged w) (w_data w) Hd Hok) as (d & -> & Hwd & Hnd & Hpd). cbn [negb].
  set (w2 := with_data (sync_log (append w (enc pgs ++ REC_COMMIT :: le_bytes 8 lsn) (blen (staged w) + 1))) d).
  set (hist2 := hist ++ tail ++ pgs ++ [RCommit lsn]).
  assert (Hlog2 : content (w_log w2) = enc hist2).
  { unfold w2, hist2. cbn [w_log with_data sync_log append with_lsn with_log content]. rewrite !enc_app, Hc, enc_cons.
    change (enc []) with (@nil Z). rewrite app_nil_r, <- !app_assoc. done. }
  assert (Hsize : file_size (w_log w2) = file_size (w_log w) + blen (staged w) * PAGE_REC + 9).
  { unfold w2. cbn [w_log with_data sync_log]. rewrite append_size, blen_app, Hbl. unfold blen at 2. cbn [length]. rewrite length_le_bytes. lia. }
  destruct (page_recs_wf (next_lsn w) (staged w) _ Hok Hn64) as [Hpwf Hpk].
  assert (Hcom2 : committed hist2) by (right; exists (hist ++ tail ++ pgs), lsn; unfold hist2; by rewrite <- !app_assoc).
  destruct (committed_pages hist tail (staged w) (next_lsn w) Hcom (tail_kinds _ _ _ _ _ Ha) Hbound) as [Hseg Hpend].
  assert (Hseg2 : seg_pages hist2 [] = seg_pages hist [] ++ staged w).
  { unfold hist2. rewrite !app_assoc, <- (app_assoc hist), seg_pages_snoc. fold pgs in Hseg, Hpend. by rewrite Hseg, Hpend. }
  assert (Hq2 : quiet hist2 (committed_view w) (num_pages (w_data w)) (end_txn w2)).
  { assert (Hlok : log_ok (w_log w2)) by (unfold log_ok; rewrite Hsize; change (limit (w_log w2)) with (limit (w_log w)); lia).
    split; try done.
    - unfold hist2. rewrite !Forall_app in *. destruct Hwf0. split; [done|]. split; [done|]. split; [done|]. by constructor.
    - rewrite Hseg2. apply Forall_app. split; [|done]. eapply imgs_ok_mono; [|exact Him]. lia.
    - intros p Hpr. rewrite Hseg2, patched_app.
      pose proof (redo_committed_view hist tail C n w 0 p Ha Hre ltac:(lia)) as Hx. change (take 0 (staged w)) with (@nil (Z * bytes)) in Hx.
      unfold committed_view in *. destruct (decide (p ∈ (staged w).*1)) as [Hin|Hin]; [by apply patched_in|].
      rewrite !(patched_None (staged w)) in * by done. exact Hx. }
  unfold wal_checkpoint. destruct (Z.ltb_spec WAL_CHECKPOINT_BYTES (file_size (w_log w2))) as [Hck|Hck].
  - assert (Htr : ftruncate (w_log w2) 0 = (mkFile [] (limit (w_log w)), 0)).
    { unfold ftruncate. unfold log_ok, file_size in *. pose proof (blen_nonneg (content (w_log w))).
      change (limit (w_log w2)) with (limit (w_log w)). destruct (Z.ltb_spec (limit (w_log w)) 0); [lia|done]. }
    rewrite Htr. simpl fst. eexists _, []. split; [done|]. split; [|split; [by left|split; [done|split; [simpl; lia|]]]].
    + destruct Hq2 as [A1 A2 A3 A4 A5 A6 A7 A8 A9]. split; simpl; try done; try (by left).
      unfold log_ok, file_size in *. simpl. change (blen []) with 0. pose proof (blen_nonneg (content (w_log w))). lia.
    + assert (0 <= file_size (w_log w)) by apply blen_nonneg. unfold file_size at 1. split; [simpl; change (blen []) with 0; unfold PAGE_REC, PAGE_SIZE|]; lia.
  - exists (end_txn w2), hist2. split; [done|]. split; [done|]. split; [by right|]. split; [done|]. split; [simpl; lia|].
    change (w_log (end_txn w2)) with (w_log w2). split; [lia|done].
Qed.

(** ** Rollback *)

Lemma wal_undo_spec hist tail C n w :
  active hist tail C n w -> stole w = true ->
  exists w', wal_undo w = (w', 0) /\ quiet hist C n w' /\ stole w' = false /\ spilled w' = [].
Proof.
  intros Ha Hs. pose proof (undo_imgs_ok _ _ _ _ _ Ha) as Huok. pose proof (tail_kinds _ _ _ _ _ Ha) as Hk.
  pose proof Ha as [Hd Hl Hc Hwf0 Hcom Him Hre Hn Hp Hb Hst Htl Hbe Hsp Hfr]. rewrite Hs in Hbe. unfold wal_undo. rewrite Hs, Hc, Hst.
  apply Forall_app in Hwf0 as [Hwh Hwt]. cbn [negb].
  rewrite rollback_pass_recs; [|done|done|unfold log_fuel; rewrite length_app; pose proof (length_enc tail); lia].
  assert (Hundo : imgs_ok (num_pages (w_data w)) (undo_imgs tail)).
  { eapply Forall_impl; [|exact Huok]. intros [q i] (? & ? & ?). simpl in *. split; [lia|done]. }
  destruct (redo_writes_spec _ (w_data w) 0 Hd Hundo) as (d & -> & Hwd & Hnd & _ & Hpd).
  assert (Hlb : default 0 (last_base tail (Some (base_pages w))) = n).
  { rewrite Hb. clear -Htl. assert (forall x, last_base tail x = Some n \/ last_base tail x = x) as Hx.
    { induction Htl as [|[] l Hr _ IH]; intros x; simpl; try done; [by right|]. subst. destruct (IH (Some n)); by left. }
    destruct (Hx (Some n)) as [->| ->]; done. }
  rewrite Hlb. destruct (truncate_to_spec d n Hwd ltac:(lia)) as (Tw & Tn & Tp). rewrite Hnd, Z.min_l in Tn by lia.
  eexists. split; [done|]. split; [|done].
  assert (Htr : (ftruncate (w_log w) (blen (enc hist))).1 = mkFile (enc hist) (limit (w_log w))).
  { pose proof (blen_nonneg (enc hist)). pose proof (blen_nonneg (enc tail)). unfold log_ok, file_size in Hl. rewrite Hc, blen_app in Hl.
    unfold ftruncate. destruct (Z.ltb_spec (blen (enc hist)) 0); [lia|]. destruct (Z.ltb_spec (limit (w_log w)) (blen (enc hist))); [lia|].
    simpl. unfold file_size. rewrite Hc, blen_app, zeros_nonpos, app_nil_r by lia. f_equal.
    unfold blen. rewrite Nat2Z.id. apply take_app_length. }
  split; simpl; rewrite ?Htr; simpl; try done.
  - unfold log_ok, file_size in *. simpl. rewrite Hc, blen_app in Hl. pose proof (blen_nonneg (enc tail)). lia.
  - intros p Hpr. rewrite Tp by lia. rewrite Hpd. destruct (decide (p ∈ (undo_imgs tail).*1)) as [Hin|Hin].
    + apply patched_const; [done|]. eapply Forall_impl; [|exact Huok]. intros [q i] (? & HC & ?) Hq. simpl in *. by subst.
    + rewrite patched_None by done. apply Hp; [done|]. intros Hsx. apply Hin. auto.
Qed.

(** ** Runs of a transaction *)

(** What the storage engine does between [wal_begin] and the end of the transaction:
    it stages pages, lets the buffer pool steal them and extends the data file. *)
Inductive txn_run (w0 : Wal) : Wal -> Prop :=
| run_begin : txn_run w0 (wal_begin w0)
| run_stage w p buf : txn_run w0 w -> 0 <= p < num_pages (w_data w) -> page_ok buf -> txn_run w0 (wal_stage w p buf).1
| run_steal w p buf : txn_run w0 w -> 0 <= p < num_pages (w_data w) -> page_ok buf -> room w STEAL_BYTES 2 ->
    txn_run w0 (wal_steal w p buf).1
| run_alloc w : txn_run w0 w -> txn_run w0 (with_data w (pager_new (w_data w)).1).

Lemma stage_into_spec s p buf s' :
  stage_into s p buf = Some s' -> blen s' = blen s /\ s'.*1 = s.*1 /\ forall n, imgs_ok n s -> page_ok buf -> imgs_ok n s'.
Proof.
  revert s'. induction s as [|[q d] s IH]; intros s' H; simpl in H; [done|]. destruct (Z.eqb_spec q p) as [->|Hne].
  - injection H as <-. split; [done|]. split; [done|]. intros n Hok Hb. inversion_clear Hok as [|? ? [? ?] ?]. constructor; [|done]. done.
  - destruct (stage_into s p buf) as [r|]; [|done]. injection H as <-. destruct (IH r eq_refl) as (H1 & H2 & H3).
    split; [unfold blen in *; simpl; lia|]. split; [simpl; by f_equal|]. intros n Hok Hb. inversion_clear Hok. constructor; [done|]. by apply H3.
Qed.

Lemma wal_stage_spec w p buf n :
  imgs_ok n (staged w) -> blen (staged w) <= WAL_MAX_STAGED -> 0 <= p < n -> page_ok buf ->
  let '(w', rc) := wal_stage w p buf in
  w' = with_staged w (staged w') /\ imgs_ok n (staged w') /\ blen (staged w') <= WAL_MAX_STAGED /\
  (rc = 0 -> p ∈ (staged w').*1 /\ forall q, q ∈ (staged w).*1 -> q ∈ (staged w').*1).
Proof.
  intros Hok Hb Hp Hbuf. unfold wal_stage. destruct (stage_into (staged w) p buf) as [s|] eqn:E.
  - destruct (stage_into_spec _ _ _ _ E) as (H1 & H2 & H3). simpl. split; [done|]. split; [auto|]. split; [lia|]. intros _.
    rewrite H2. split; [|done]. clear -E. revert s E. induction (staged w) as [|[q d] l IH]; intros s E; simpl in *; [done|].
    destruct (Z.eqb_spec q p) as [->|]; [set_solver|]. destruct (stage_into l p buf); [|done]. set_solver.
  - destruct (Z.leb_spec WAL_MAX_STAGED (blen (staged w))).
    + split; [by destruct w|]. split; [done|]. split; [done|]. done.
    + cbn [staged with_staged]. split; [done|]. split; [apply Forall_app; split; [done|]; by constructor|].
      split; [rewrite blen_app; change (blen [(p, buf)]) with 1; lia|]. intros _. rewrite fmap_app. set_solver.
Qed.

(** Extending the data file. *)
Lemma alloc_active hist tail C n w : active hist tail C n w ->
  active hist tail C n (with_data w (pager_new (w_data w)).1) /\ num_pages (w_data w) <= num_pages (pager_new (w_data w)).1.
Proof.
  intros Ha. pose proof (pager_new_spec (w_data w) (a_data _ _ _ _ _ Ha)) as Hnew. pose proof (a_n _ _ _ _ _ Ha) as Hn.
  assert (Hd : pager_wf (pager_new (w_data w)).1 /\ num_pages (w_data w) <= num_pages (pager_new (w_data w)).1 /\
               forall q, q < n -> pager_page (pager_new (w_data w)).1 q = pager_page (w_data w) q).
  { destruct (pager_new (w_data w)) as [d [q|]]; simpl.
    - destruct Hnew as (Hwd & _ & Hq1 & -> & Hne). split; [done|]. split.
      + pose proof (proj1 (pager_page_Some d (num_pages (w_data w)) Hwd) (ex_intro _ _ Hq1)). lia.
      + intros q Hqn. apply Hne. lia.
    - destruct Hnew as [Hwd Hsame]. split; [done|]. split; [|auto].
      destruct (decide (num_pages (w_data w) = 0)); [destruct Hwd as [Hx _ _]; unfold PAGE_SIZE in *; lia|].
      destruct (proj2 (pager_page_Some (w_data w) (num_pages (w_data w) - 1) (a_data _ _ _ _ _ Ha)) ltac:(lia)) as [x Hx].
      rewrite <- Hsame in Hx. pose proof (proj1 (pager_page_Some d _ Hwd) (ex_intro _ _ Hx)). lia. }
  destruct Hd as (Hwd & Hge & Hsame). split; [|done]. apply data_active; [done|done|done|]. intros q Hq1 _. apply Hsame. lia.
Qed.

Lemma txn_run_active hist C n w0 w :
  quiet hist C n w0 -> txn_run w0 w ->
  exists tail, active hist tail C n w /\ imgs_ok (num_pages (w_data w)) (staged w) /\ blen (staged w) <= WAL_MAX_STAGED.
Proof.
  intros Hq Hr. induction Hr as [|w p buf Hr (tail & Ha & Hok & Hb) Hp Hbuf|w p buf Hr (tail & Ha & Hok & Hb) Hp Hbuf Hroom|w Hr (tail & Ha & Hok & Hb)].
  - exists []. split; [by apply begin_active|]. split; [constructor|]. simpl. unfold blen, WAL_MAX_STAGED. simpl. lia.
  - pose proof (wal_stage_spec w p buf _ Hok Hb Hp Hbuf) as Hs. destruct (wal_stage w p buf) as [w' rc]. destruct Hs as (Hw & Hok' & Hb' & _).
    exists tail. rewrite Hw. split; [by apply staged_active|]. by split.
  - destruct (wal_steal_spec _ _ _ _ _ p buf Ha Hroom Hp Hbuf) as (tail' & w' & -> & Ha' & Hs & Hnp & _).
    exists tail'. split; [done|]. cbn [fst]. by rewrite Hs, Hnp.
  - exists tail. destruct (alloc_active hist tail C n w Ha) as [Ha' Hge]. split; [done|]. split; [eapply imgs_ok_mono; [|exact Hok]; done|done].
Qed.

(** ** What the log guarantees *)

Definition commit_room (w : Wal) : Prop := room w (blen (staged w) * PAGE_REC + 9) (blen (staged w) + 1).

(** The log right before the marker is written, and when the commit has written all it
    writes to the log: the commit itself, stopped by its two injected crashes. *)
Definition commit_stop_before (w : Wal) : Wal := (wal_commit (mkHooks false true false) w).1.
Definition commit_stop_after (w : Wal) : Wal := (wal_commit (mkHooks true false false) w).1.

(** The injected crashes leave exactly these bytes in the log and no change in the data file. *)
Lemma commit_crash_bytes w :
  Forall (fun x : Z * bytes => page_ok x.2) (staged w) -> commit_room w ->
  (let w1 := commit_stop_before w in content (w_log w1) = content (w_log w) ++ commit_pages w /\ w_data w1 = w_data w) /\
  (let w2 := commit_stop_after w in
     content (w_log w2) = content (w_log w) ++ commit_pages w ++ commit_marker w /\ w_data w2 = w_data w).
Proof.
  intros Himg (R1 & R2 & R3). pose proof (blen_nonneg (staged w)) as Hb0. unfold commit_stop_before, commit_stop_after, wal_commit.
  rewrite log_staged_ok; [|split; [lia|lia]|done]. cbn [negb crash_before_commit crash_after_log]. split; [done|].
  rewrite write_hdr_ok.
  - cbn [negb]. rewrite append_append. done.
  - split; [rewrite append_size; fold (commit_pages w); rewrite blen_commit_pages by done; simpl; lia|simpl; lia].
Qed.

Lemma page_oks n ws : imgs_ok n ws -> Forall (fun x : Z * bytes => page_ok x.2) ws.
Proof. intros H. eapply Forall_impl; [|exact H]. intros ? [_ ?]; done. Qed.

(** Cutting two parts written one after the other. *)
Lemma take_cut_le (m : nat) (a b : bytes) : Z.of_nat m <= blen a -> take m (a ++ b) = take m a.
Proof. intros H. unfold blen in H. rewrite take_app_le by lia. done. Qed.

Lemma take_cut_ge (m : nat) (a b : bytes) : blen a <= Z.of_nat m -> take m (a ++ b) = a ++ take (Z.to_nat (Z.of_nat m - blen a)) b.
Proof. intros H. unfold blen in *. rewrite take_app_ge by lia. do 2 f_equal. lia. Qed.

(** Every prefix of what the commit writes to the log. *)
Lemma commit_crash_prefix w (m : nat) :
  Forall (fun x : Z * bytes => page_ok x.2) (staged w) -> commit_room w ->
  let before := commit_stop_before w in
  let after := commit_stop_after w in
  w_data before = w_data w /\ w_data after = w_data w /\
  (file_size (w_log w) <= Z.of_nat m <= file_size (w_log before) ->
     exists k, take m (content (w_log after)) = content (w_log w) ++ take k (commit_pages w)) /\
  (file_size (w_log before) < Z.of_nat m ->
     exists k, take m (content (w_log after)) = content (w_log w) ++ commit_pages w ++ take (S k) (commit_marker w)).
Proof.
  intros Hok Hroom. cbn zeta. destruct (commit_crash_bytes w Hok Hroom) as ((B1 & B2) & (A1 & A2)).
  split; [done|]. split; [done|]. rewrite A1. unfold file_size. rewrite B1, blen_app. split; intros Hm.
  - exists (Z.to_nat (Z.of_nat m - blen (content (w_log w)))).
    rewrite (app_assoc _ (commit_pages w)), (take_cut_le _ _ (commit_marker w)) by (rewrite ?blen_app; lia). by rewrite take_cut_ge by lia.
  - exists (pred (Z.to_nat (Z.of_nat m - blen (content (w_log w) ++ commit_pages w)))).
    rewrite app_assoc, take_cut_ge, <- app_assoc by (rewrite blen_app; lia). do 3 f_equal. rewrite blen_app. lia.
Qed.

(** A crash while the page images are being appended. *)
Lemma crash_before_marker hist tail C n w (k : nat) lim :
  active hist tail C n w -> imgs_ok (num_pages (w_data w)) (staged w) -> file_size (w_log w) + blen (commit_pages w) <= lim ->
  let r := reopen (w_data w) (content (w_log w) ++ take k (commit_pages w)) lim in
  n <= num_pages (w_data r) /\ (stole w = true -> num_pages (w_data r) = n) /\ forall p, 0 <= p < n -> wal_read r p = C p.
Proof.
  intros Ha Hok Hlim. unfold commit_pages in *.
  assert (Hn64 : num_pages (w_data w) <= 2 ^ 64) by (destruct (a_data _ _ _ _ _ Ha) as [Hpp Hll _]; unfold PAGE_SIZE in *; lia).
  destruct (page_recs_wf (next_lsn w) (staged w) _ Hok Hn64) as [Hwf Hpk].
  destruct (enc_prefix _ k Hwf Hpk) as (j & t & Ht & Htorn).
  assert (Hbl : blen (take k (enc (page_recs (next_lsn w) (staged w)))) <= blen (enc (page_recs (next_lsn w) (staged w)))).
  { unfold blen. rewrite length_take. lia. }
  assert (Hlen : blen (content (w_log w) ++ take k (enc (page_recs (next_lsn w) (staged w)))) <= lim) by (rewrite blen_app; unfold file_size in *; lia).
  rewrite Ht in *. destruct (active_crash _ _ _ _ _ (take j (page_recs (next_lsn w) (staged w))) t lim Ha) as (_ & _ & A & B & D); try done.
  - by apply Forall_take.
  - by apply Forall_take.
Qed.

(** An interrupted recovery, or page writes that a power failure tore, may have left
    anything in the pages the log has an image of. *)
Lemma active_recrash hist tail C n w d lim :
  active hist tail C n w -> pager_wf d -> n <= num_pages d -> file_size (w_log w) <= lim ->
  (forall p, 0 <= p < n -> p ∉ (seg_pages hist []).*1 -> p ∉ (undo_imgs tail).*1 -> pager_page d p = pager_page (w_data w) p) ->
  let r := reopen d (content (w_log w)) lim in
  n <= num_pages (w_data r) /\ (stole w = true -> num_pages (w_data r) = n) /\ forall p, 0 <= p < n -> wal_read r p = C p.
Proof.
  intros Ha Hwd Hnd Hlim Hsame r. pose proof (undo_imgs_ok _ _ _ _ _ Ha) as Huok.
  pose proof Ha as [Hd Hl Hc Hwf0 Hcom Him Hre Hn Hp Hb Hst Htl Hbe Hsp Hfr].
  destruct (reopen_spec d (content (w_log w)) lim hist tail []) as (_ & R2 & R3 & R4); try done.
  - by rewrite app_nil_r.
  - eapply Forall_impl; [|exact Htl]. intros [] Hx; done.
  - by left.
  - by eapply imgs_ok_mono.
  - eapply Forall_impl; [|exact Huok]. intros [q i] (? & ? & ?). simpl in *. split; [lia|done].
  - assert (Hnum : n <= num_pages (w_data r) /\ (stole w = true -> num_pages (w_data r) = n)).
    { unfold r. rewrite R3, Hbe. destruct (stole w); [split; [lia|intros _; lia]|split; [lia|done]]. }
    split; [apply Hnum|]. split; [apply Hnum|]. intros p Hpn. unfold r in *. rewrite R4 by lia.
    destruct (decide (p ∈ (undo_imgs tail).*1)) as [Hu|Hu].
    + apply patched_const; [done|]. eapply Forall_impl; [|exact Huok]. intros [q i] (? & HC & ?) Hq. simpl in *. by subst.
    + rewrite (patched_None (undo_imgs tail)) by done. rewrite <- (Hre p Hpn).
      destruct (decide (p ∈ (seg_pages hist []).*1)) as [Hs|Hs]; [by apply patched_in|].
      rewrite Hsame, Hp by (done || auto). done.
Qed.

(** Any number of finished transactions of an open database.  [L] lists the pages with
    an image in the log, [C] and [n] are the committed contents. *)
Inductive session : list Z -> (Z -> option bytes) -> Z -> Wal -> Prop :=
| ses_open d lim : pager_wf d -> 0 <= lim -> session [] (pager_page d) (num_pages d) (reopen d [] lim)
| ses_commit L C n w0 w :
    session L C n w0 -> txn_run w0 w -> commit_room w ->
    (forall p, 0 <= p < n -> p ∈ spilled w -> p ∈ (staged w).*1 \/ p ∉ L) ->
    let w' := (wal_commit no_hooks w).1 in
    session (if decide (content (w_log w') = []) then [] else L ++ (staged w).*1) (committed_view w) (num_pages (w_data w)) w'
| ses_undo L C n w0 w : session L C n w0 -> txn_run w0 w -> stole w = true -> session L C n (wal_undo w).1.

Lemma reopen_quiet d lim : pager_wf d -> 0 <= lim -> quiet [] (pager_page d) (num_pages d) (reopen d [] lim).
Proof.
  intros Hd Hl. destruct (reopen_spec d [] lim [] [] []) as (R1 & R2 & R3 & R4); [done|done|done|constructor|by left|constructor|by left|constructor|constructor|].
  simpl in R3. split; try done; try (by left).
  - unfold reopen, wal_open. rewrite pager_reopen by done. unfold wal_recover, log_fuel, log_ok, ftruncate. simpl.
    destruct (Z.ltb_spec lim 0); [lia|]. unfold file_size, blen. simpl. lia.
  - intros p Hp. change (wal_read (reopen d [] lim) p = pager_page d p). rewrite R4 by lia. done.
Qed.

Lemma session_quiet L C n w : session L C n w -> exists hist, quiet hist C n w /\ (seg_pages hist []).*1 = L.
Proof.
  intros Hs. induction Hs as [d lim Hd Hl|L C n w0 w Hs (hist & Hq & HL) Hr Hroom Hre w'|L C n w0 w Hs (hist & Hq & HL) Hr Hst].
  - exists []. split; [by apply reopen_quiet|done].
  - destruct (txn_run_active _ _ _ _ _ Hq Hr) as (tail & Ha & Hok & Hb).
    assert (Hre' : restaged hist n w) by (intros p Hp Hsp; rewrite HL; by apply Hre).
    destruct (wal_commit_spec _ _ _ _ _ Ha Hre' Hok Hb Hroom) as (w1 & hist' & Hc & Hq' & Hh & _).
    unfold w'. rewrite Hc. cbn [fst]. exists hist'. split; [done|]. pose proof (q_content _ _ _ _ Hq') as Hc'.
    case_decide as Hnil; rewrite Hc' in Hnil.
    + destruct hist' as [|r rs]; [done|]. rewrite enc_cons in Hnil. by destruct r.
    + destruct Hh as [->|Hh]; [done|]. by rewrite Hh, fmap_app, HL.
  - destruct (txn_run_active _ _ _ _ _ Hq Hr) as (tail & Ha & Hok & Hb).
    destruct (wal_undo_spec _ _ _ _ _ Ha Hst) as (w' & -> & Hq' & _). by exists hist.
Qed.

(** C1. Commit is atomic: take whatever prefix of what [wal_commit] writes to the log is
    there when the process dies.  As long as no byte of the marker is there, reopening
    shows exactly the contents before the transaction, although the data file already
    holds stolen pages; from the first byte of the marker on it shows exactly what the
    transaction saw, whatever part of the staged pages had been applied; without a crash
    the commit succeeds and shows the same.  The last hypothesis is needed
    ([wal_stolen_update_lost]): a stolen page is staged again before the commit, or the
    log holds no older image of it. *)
Theorem wal_commit_atomic L C n w0 w :
  session L C n w0 -> txn_run w0 w -> commit_room w ->
  (forall p, 0 <= p < n -> p ∈ spilled w -> p ∈ (staged w).*1 \/ p ∉ L) ->
  let before := commit_stop_before w in
  let after := commit_stop_after w in
  (forall m, file_size (w_log w) <= Z.of_nat m <= file_size (w_log before) ->
     let r := reopen (w_data before) (take m (content (w_log after))) (limit (w_log w)) in
     n <= num_pages (w_data r) /\ (stole w = true -> num_pages (w_data r) = n) /\ forall p, 0 <= p < n -> wal_read r p = C p) /\
  (forall m j, file_size (w_log before) < Z.of_nat m <= file_size (w_log after) ->
     let r := reopen (apply_staged (w_data after) (take j (staged w))).1 (take m (content (w_log after))) (limit (w_log w)) in
     num_pages (w_data r) = num_pages (w_data w) /\ forall p, 0 <= p -> wal_read r p = committed_view w p) /\
  (let '(w', rc) := wal_commit no_hooks w in
     rc = 0 /\ num_pages (w_data w') = num_pages (w_data w) /\
     forall p, 0 <= p < num_pages (w_data w) -> wal_read w' p = committed_view w p).
Proof.
  intros Hs Hr Hroom Hre. cbn zeta. destruct (session_quiet _ _ _ _ Hs) as (hist & Hq & HL).
  destruct (txn_run_active _ _ _ _ _ Hq Hr) as (tail & Ha & Hok & Hb).
  assert (Hre' : restaged hist n w) by (intros p Hp Hsp; rewrite HL; by apply Hre).
  pose proof (fun m => commit_crash_prefix w m (page_oks _ _ Hok) Hroom) as Hpre. split; [|split].
  - intros m Hm. destruct (Hpre m) as (-> & _ & H1 & _). destruct (H1 Hm) as [k ->].
    apply (crash_before_marker hist tail); [done|done|]. rewrite blen_commit_pages by (by eapply page_oks). destruct Hroom. lia.
  - intros m j Hm. destruct (Hpre m) as (_ & -> & _ & H2). destruct (H2 (proj1 Hm)) as [k ->]. unfold commit_marker. rewrite firstn_cons.
    destruct (crash_after_marker hist tail C n w j (take k (le_bytes 8 (next_lsn w + blen (staged w)))) (limit (w_log w)) Ha Hre' Hok Hb) as (_ & R).
    { unfold blen. rewrite length_take, length_le_bytes. lia. }
    exact R.
  - destruct (wal_commit_spec _ _ _ _ _ Ha Hre' Hok Hb Hroom) as (w1 & hist' & -> & Hq' & _). split; [done|].
    split; [apply Hq'|]. intros p Hp. by apply Hq'.
Qed.

Lemma quiet_reopen hist C n w d :
  quiet hist C n w -> pager_wf d -> num_pages d = n ->
  (forall p, 0 <= p < n -> p ∉ (seg_pages hist []).*1 -> pager_page d p = pager_page (w_data w) p) ->
  let r := reopen d (content (w_log w)) (limit (w_log w)) in num_pages (w_data r) = n /\ forall p, 0 <= p < n -> wal_read r p = C p.
Proof.
  intros Hq Hd Hn Hsame. pose proof Hq as [Qd Ql Qc Qwf Qcom Qim Qre Qn Qp].
  destruct (reopen_spec d (content (w_log w)) (limit (w_log w)) hist [] []) as (_ & R2 & R3 & R4);
    rewrite ?app_nil_r; [done|done|done|done|done|constructor|by left|by rewrite Hn|constructor|].
  cbn zeta. simpl in R3. split; [by rewrite R3|]. intros p Hp. rewrite R4 by lia. simpl.
  change (patched [] p ?v) with v. rewrite <- (Qre p Hp).
  destruct (decide (p ∈ (seg_pages hist []).*1)) as [Hin|Hin]; [by apply patched_in|]. rewrite Hsame by done. by rewrite Qp.
Qed.

(** C24. Durability without forcing pages: after any number of committed and rolled back
    transactions, each of whose commits finds every page it had stolen staged again or
    the log without an older image of it (the condition of [ses_commit];
    [wal_stolen_update_lost] shows that it is needed), the data file holds the committed
    contents, and even if a crash leaves arbitrary bytes in the pages that the log has an
    image of, reopening restores exactly the committed pages. *)
Theorem wal_durable L C n w d :
  session L C n w -> pager_wf d -> num_pages d = n ->
  (forall p, 0 <= p < n -> p ∉ L -> pager_page d p = pager_page (w_data w) p) ->
  (num_pages (w_data w) = n /\ forall p, 0 <= p < n -> wal_read w p = C p) /\
  (let r := reopen d (content (w_log w)) (limit (w_log w)) in num_pages (w_data r) = n /\ forall p, 0 <= p < n -> wal_read r p = C p).
Proof.
  intros Hs Hd Hn Hsame. destruct (session_quiet _ _ _ _ Hs) as (hist & Hq & <-). split; [split; apply Hq|]. by eapply quiet_reopen.
Qed.

(** Rollback of a transaction that had pages stolen restores the committed state in
    full: every page, the number of pages and the log, which again holds only the
    committed history; a following crash finds the same contents. *)
Theorem wal_undo_restores L C n w0 w :
  session L C n w0 -> txn_run w0 w -> stole w = true ->
  let '(w', rc) := wal_undo w in
  rc = 0 /\ num_pages (w_data w') = n /\ content (w_log w') = content (w_log w0) /\
  (forall p, 0 <= p < n -> wal_read w' p = C p) /\
  (let r := reopen (w_data w') (content (w_log w')) (limit (w_log w')) in
     num_pages (w_data r) = n /\ forall p, 0 <= p < n -> wal_read r p = C p).
Proof.
  intros Hs Hr Hst. destruct (session_quiet _ _ _ _ Hs) as (hist & Hq & HL).
  destruct (txn_run_active _ _ _ _ _ Hq Hr) as (tail & Ha & Hok & Hb).
  destruct (wal_undo_spec _ _ _ _ _ Ha Hst) as (w' & -> & Hq' & _). split; [done|]. split; [apply Hq'|].
  split; [by rewrite (q_content _ _ _ _ Hq'), (q_content _ _ _ _ Hq)|]. split; [apply Hq'|].
  eapply quiet_reopen; [done|apply Hq'|apply Hq'|done].
Qed.

(** C25. Recovery can itself be interrupted: if a crash inside a transaction is followed by
    recoveries that die after writing any of the logged images (redo or undo), the
    next recovery still shows exactly the contents before the transaction. *)
Theorem wal_recovery_restartable L C n w0 w :
  session L C n w0 -> txn_run w0 w ->
  exists U : list Z, forall d, pager_wf d -> n <= num_pages d ->
    (forall p, 0 <= p < n -> p ∉ L -> p ∉ U -> pager_page d p = pager_page (w_data w) p) ->
    (forall p, 0 <= p < n -> p ∈ spilled w -> p ∈ U) /\
    (let r := reopen d (content (w_log w)) (limit (w_log w)) in
     n <= num_pages (w_data r) /\ (stole w = true -> num_pages (w_data r) = n) /\ forall p, 0 <= p < n -> wal_read r p = C p).
Proof.
  intros Hs Hr. destruct (session_quiet _ _ _ _ Hs) as (hist & Hq & <-).
  destruct (txn_run_active _ _ _ _ _ Hq Hr) as (tail & Ha & Hok & Hb). exists ((undo_imgs tail).*1). intros d Hd Hn Hsame.
  split; [apply Ha|]. eapply active_recrash; [done|done|done|apply Ha|done].
Qed.

(** ** Concrete runs *)

Definition full (b : Z) : bytes := replicate (Z.to_nat PAGE_SIZE) b.

Lemma full_ok b : 0 <= b < 256 -> page_ok (full b).
Proof. intros Hb. split; [done|]. unfold full. by apply Forall_replicate. Qed.

Definition demo_data : Pager := pager_open (mkFile (full 1 ++ full 2) (65536)).

Lemma demo_data_wf : pager_wf demo_data.
Proof.
  apply pager_open_wf; [by vm_compute|]. cbn [content]. apply Forall_app. split; apply full_ok; lia.
Qed.

Definition demo_wal : Wal := reopen demo_data [] (65536).
(** Page 0 is stolen with one change, then staged with another. *)
Definition demo_stolen : Wal := (wal_steal (wal_begin demo_wal) 0 (full 7)).1.
Definition demo_txn : Wal := (wal_stage demo_stolen 0 (full 8)).1.

Lemma demo_session : session [] (pager_page demo_data) 2 demo_wal.
Proof. apply (ses_open demo_data (65536)); [apply demo_data_wf|lia]. Qed.

Lemma demo_run : txn_run demo_wal demo_txn.
Proof.
  assert (H0 : 0 <= 0 < num_pages (w_data (wal_begin demo_wal))) by (by vm_compute).
  assert (H1 : 0 <= 0 < num_pages (w_data demo_stolen)) by (by vm_compute).
  assert (Hr : room (wal_begin demo_wal) STEAL_BYTES 2) by (by vm_compute).
  assert (Hs : txn_run demo_wal demo_stolen).
  { unfold demo_stolen. exact (run_steal demo_wal (wal_begin demo_wal) 0 (full 7) (run_begin demo_wal) H0 (full_ok 7 ltac:(lia)) Hr). }
  unfold demo_txn. exact (run_stage demo_wal demo_stolen 0 (full 8) Hs H1 (full_ok 8 ltac:(lia))).
Qed.

Lemma wal_commit_atomic_witness :
  let log := content (w_log (commit_stop_after demo_txn)) in
  let r m := reopen (w_data (commit_stop_before demo_txn)) (take m log) (limit (w_log demo_txn)) in
  let r' m := reopen (apply_staged (w_data (commit_stop_after demo_txn)) (take 0 (staged demo_txn))).1 (take m log) (limit (w_log demo_txn)) in
  wal_read demo_txn 0 = Some (full 7) /\ stole demo_txn = true /\
  wal_read (r (length log - 9)%nat) 0 = Some (full 1) /\ wal_read (r' (length log - 8)%nat) 0 = Some (full 8).
Proof.
  assert (Hroom : commit_room demo_txn) by (by vm_compute).
  assert (Hre : forall p, 0 <= p < 2 -> p ∈ spilled demo_txn -> p ∈ (staged demo_txn).*1 \/ p ∉ []).
  { intros p _ _. right. apply not_elem_of_nil. }
  destruct (wal_commit_atomic [] (pager_page demo_data) 2 demo_wal demo_txn demo_session demo_run Hroom Hre) as (A & B & _).
  split; [by vm_compute|]. split; [by vm_compute|]. split.
  - destruct (A (length (content (w_log (commit_stop_after demo_txn))) - 9)%nat) as (_ & _ & R); [by vm_compute|].
    etransitivity; [apply R; lia|by vm_compute].
  - destruct (B (length (content (w_log (commit_stop_after demo_txn))) - 8)%nat 0%nat) as (_ & R); [by vm_compute|].
    etransitivity; [apply R; lia|by vm_compute].
Defined.

Lemma wal_durable_witness :
  let w := (wal_commit no_hooks demo_txn).1 in
  let d := pager_open (mkFile (full 99 ++ full 2) (65536)) in
  wal_read (reopen d (content (w_log w)) (limit (w_log w))) 0 = Some (full 8).
Proof.
  assert (Hs : session ([] ++ (staged demo_txn).*1) (committed_view demo_txn) 2 (wal_commit no_hooks demo_txn).1).
  { pose proof (ses_commit [] (pager_page demo_data) 2 demo_wal demo_txn demo_session demo_run) as H. cbn zeta in H.
    rewrite decide_False in H; [apply H|]; [by vm_compute| |by vm_compute]. intros p _ _. right. apply not_elem_of_nil. }
  cbn zeta. set (d := pager_open (mkFile (full 99 ++ full 2) (65536))).
  assert (Hd : pager_wf d) by (apply pager_open_wf; [by vm_compute|cbn [content]; apply Forall_app; split; apply full_ok; lia]).
  destruct (wal_durable _ _ _ _ d Hs Hd) as (_ & _ & H); [by vm_compute| |].
  - intros p Hp Hn. assert (p = 1) as -> by (assert (p <> 0) by (intros ->; apply Hn; vm_compute; constructor); lia). by vm_compute.
  - etransitivity; [apply H; lia|by vm_compute].
Defined.

Lemma wal_undo_restores_witness : (wal_undo demo_txn).2 = 0 /\ wal_read (wal_undo demo_txn).1 0 = Some (full 1).
Proof.
  pose proof (wal_undo_restores [] (pager_page demo_data) 2 demo_wal demo_txn demo_session demo_run ltac:(by vm_compute)) as H.
  destruct (wal_undo demo_txn) as [w' rc]. destruct H as (-> & _ & _ & H & _). split; [done|].
  etransitivity; [apply H; lia|by vm_compute].
Defined.

Lemma wal_recovery_restartable_witness :
  exists U : list Z, 0 ∈ U /\ wal_read (reopen (w_data demo_txn) (content (w_log demo_txn)) (limit (w_log demo_txn))) 0 = Some (full 1).
Proof.
  destruct (wal_recovery_restartable [] (pager_page demo_data) 2 demo_wal demo_txn demo_session demo_run) as [U HU].
  destruct (txn_run_active [] (pager_page demo_data) 2 demo_wal demo_txn) as (t & Ha & _); [|apply demo_run|].
  { destruct (session_quiet _ _ _ _ demo_session) as (h & Hq & Hh). destruct Hq as [A1 A2 A3 A4 A5 A6 A7 A8 A9].
    split; try done; try (by left); try constructor; try (by vm_compute). }
  destruct (HU (w_data demo_txn) (a_data _ _ _ _ _ Ha)) as (H1 & _ & _ & H2); [by vm_compute|done|].
  exists U. split; [apply H1; [lia|vm_compute; constructor]|]. etransitivity; [apply H2; lia|by vm_compute].
Defined.

(** A committed change can be lost: the first transaction logs page 0; the second one
    changes it, the change is stolen (written and synced) but the page is clean when it
    commits, so it is not staged again.  Both commits report success and the change is
    visible, yet reopening the database redoes the older image over it. *)
Theorem wal_stolen_update_lost :
  let w1 := (wal_commit no_hooks (wal_stage (wal_begin demo_wal) 0 (full 7)).1).1 in
  let w2 := (wal_stage (wal_steal (wal_begin w1) 0 (full 8)).1 1 (full 9)).1 in
  let '(w3, rc) := wal_commit no_hooks w2 in
  rc = 0 /\ wal_read w3 0 = Some (full 8) /\
  wal_read (reopen (w_data w3) (content (w_log w3)) (limit (w_log w3))) 0 = Some (full 7).
Proof. by vm_compute. Qed.
