(* ===== verification/Lsm.v ===== *)
(** * The log-structured merge engine (src/src/lsm.c)

    An open directory is the map from sequence numbers to the bytes of the files
    [NNNNNN.sst], with a limit on the size of a file so that writes can be cut short.
    A table handle keeps the bytes of the file it opened (files are never changed after
    they were written, and an unlinked file stays readable through its handle).
    Memory allocation does not fail, so capacities are not modelled. *)
From stdpp Require Import sorting.
From S2P Require Import Prelude.

Record Entry := mkEntry { e_key : Z; e_val : Z; e_tomb : Z }.

Definition SST_MAGIC : Z := 0x314D534C6D696E64.
Definition SST_HDR_BYTES : Z := 16.
Definition SST_REC_BYTES : Z := 24.

Record SSTable := mkSST { sst_seq : Z; sst_fp : bytes; sst_count : Z; min_key : Z; max_key : Z }.

Record LSM := mkLSM {
  threshold : Z;
  multi : bool;
  lsm_mem : list Entry;
  ssts : list SSTable;   (* ascending sequence numbers, the newest last *)
  next_seq : Z }.

Record Dir := mkDir { files : gmap Z bytes; file_limit : Z }.

Definition with_mem (l : LSM) (m : list Entry) : LSM := mkLSM (threshold l) (multi l) m (ssts l) (next_seq l).
Definition with_ssts (l : LSM) (s : list SSTable) : LSM := mkLSM (threshold l) (multi l) (lsm_mem l) s (next_seq l).
Definition bump_seq (l : LSM) : LSM := mkLSM (threshold l) (multi l) (lsm_mem l) (ssts l) (u64 (next_seq l + 1)).

(** ** The memtable: a sorted array searched by halving *)

(** The loop of both searches: [less e] and [greater e] compare the entry with the key
    sought.  The range at least halves, so its length is enough fuel. *)
Fixpoint bsearch_loop (fuel : nat) (mem : list Entry) (less greater : Entry -> bool) (lo hi : nat) : nat * bool :=
  match fuel with
  | O => (lo, false)
  | S fuel =>
      if (lo <? hi)%nat then
        let mid := (lo + (hi - lo) / 2)%nat in
        match mem !! mid with
        | None => (lo, false)
        | Some e =>
            if less e then bsearch_loop fuel mem less greater (mid + 1) hi
            else if greater e then bsearch_loop fuel mem less greater lo mid
            else (mid, true)
        end
      else (lo, false)
  end.

Definition mem_bsearch (l : LSM) (key : Z) : nat * bool :=
  bsearch_loop (S (length (lsm_mem l))) (lsm_mem l) (fun e => e_key e <? key) (fun e => key <? e_key e) 0 (length (lsm_mem l)).

Definition mem_bsearch2 (l : LSM) (key val : Z) : nat * bool :=
  bsearch_loop (S (length (lsm_mem l))) (lsm_mem l)
    (fun e => (e_key e <? key) || ((e_key e =? key) && (e_val e <? val)))
    (fun e => (key <? e_key e) || ((e_key e =? key) && (val <? e_val e))) 0 (length (lsm_mem l)).

(** [memmove] of the tail and the store at [pos]. *)
Definition mem_insert (m : list Entry) (pos : nat) (e : Entry) : list Entry := take pos m ++ e :: drop pos m.

Definition mem_upsert (l : LSM) (key val tomb : Z) : LSM :=
  let '(pos, found) := mem_bsearch l key in
  if found then with_mem l (alter (fun e => mkEntry (e_key e) val tomb) pos (lsm_mem l))
  else with_mem l (mem_insert (lsm_mem l) pos (mkEntry key val tomb)).

Definition mem_upsert_dup (l : LSM) (key val tomb : Z) : LSM :=
  let '(pos, found) := mem_bsearch2 l key val in
  if found then with_mem l (alter (fun e => mkEntry (e_key e) (e_val e) tomb) pos (lsm_mem l))
  else with_mem l (mem_insert (lsm_mem l) pos (mkEntry key val tomb)).

(** ** Table files *)

Definition rec_bytes (e : Entry) : bytes := le_bytes 8 (e_key e) ++ le_bytes 8 (e_val e) ++ le_bytes 8 (e_tomb e).

Definition sst_image (es : list Entry) : bytes := le_bytes 8 SST_MAGIC ++ le_bytes 8 (blen es) ++ mjoin (rec_bytes <$> es).

(** A write that hits the limit leaves the part that fitted. *)
Definition sst_write_file (d : Dir) (seq : Z) (es : list Entry) : Dir * Z :=
  let img := sst_image es in
  (mkDir (<[seq := take (Z.to_nat (file_limit d)) img]> (files d)) (file_limit d), if blen img <=? file_limit d then 0 else -1).

Definition read_i64 (fp : bytes) (off : Z) : option Z := i64 <$> get_le 8 fp off.

(** [fread(rec, 8, 3, fp)] at record [i] *)
Definition read_rec (fp : bytes) (i : Z) : option (Z * Z * Z) :=
  let off := SST_HDR_BYTES + i * SST_REC_BYTES in
  match read_i64 fp off, read_i64 fp (off + 8), read_i64 fp (off + 16) with
  | Some k, Some v, Some t => Some (k, v, t)
  | _, _, _ => None
  end.

Definition sst_open (seq : Z) (fp : bytes) : option SSTable :=
  match get_le 8 fp 0, get_le 8 fp 8 with
  | Some magic, Some count =>
      if negb (magic =? SST_MAGIC) then None
      else if 0 <? count then
        match read_rec fp 0, read_rec fp (count - 1) with
        | Some (first, _, _), Some (last, _, _) => Some (mkSST seq fp count first last)
        | _, _ => None
        end
      else Some (mkSST seq fp count 0 0)
  | _, _ => None
  end.

(** A short read yields a tombstone of key 0. *)
Definition sst_read_rec (s : SSTable) (i : Z) : Entry :=
  match read_rec (sst_fp s) i with
  | Some (k, v, t) => mkEntry k v (i32 t)
  | None => mkEntry 0 0 1
  end.

Fixpoint sst_search (fuel : nat) (s : SSTable) (key lo hi : Z) : option (Z * Z) :=
  match fuel with
  | O => None
  | S fuel =>
      if lo <=? hi then
        let mid := lo + (hi - lo) / 2 in
        let e := sst_read_rec s mid in
        if e_key e =? key then Some (e_val e, e_tomb e)
        else if e_key e <? key then sst_search fuel s key (mid + 1) hi
        else sst_search fuel s key lo (mid - 1)
      else None
  end.

Definition sst_get (s : SSTable) (key : Z) : option (Z * Z) :=
  if (sst_count s =? 0) || (key <? min_key s) || (max_key s <? key) then None
  else sst_search (S (Z.to_nat (sst_count s))) s key 0 (sst_count s - 1).

Definition lsm_add_sst (l : LSM) (s : SSTable) : LSM := with_ssts l (ssts l ++ [s]).

(** ** Opening a directory *)

(** One [readdir] entry: files that do not open are skipped. *)
Definition discover (d : Dir) (l : LSM) (seq : Z) : LSM :=
  match files d !! seq ≫= sst_open seq with
  | Some s =>
      let l := lsm_add_sst l s in
      if next_seq l <=? seq then mkLSM (threshold l) (multi l) (lsm_mem l) (ssts l) (u64 (seq + 1)) else l
  | None => l
  end.

(** The inner loop of the exchange sort: [x] is slot [i], the list the slots after it. *)
Fixpoint exchange (x : SSTable) (r : list SSTable) : SSTable * list SSTable :=
  match r with
  | [] => (x, [])
  | y :: r => if sst_seq y <? sst_seq x then let '(m, r') := exchange y r in (m, x :: r')
              else let '(m, r') := exchange x r in (m, y :: r')
  end.

Fixpoint sort_ssts (n : nat) (l : list SSTable) : list SSTable :=
  match n, l with
  | S n, x :: r => let '(m, r') := exchange x r in m :: sort_ssts n r'
  | _, _ => l
  end.

(** [names] is the order in which [readdir] lists the table files. *)
Definition lsm_open_multi (d : Dir) (names : list Z) (memtable_threshold : Z) (mult : bool) : option LSM :=
  if memtable_threshold =? 0 then None
  else
    let l := foldl (discover d) (mkLSM memtable_threshold mult [] [] 1) names in
    Some (with_ssts l (sort_ssts (length (ssts l)) (ssts l))).

Definition lsm_open (d : Dir) (names : list Z) (memtable_threshold : Z) : option LSM := lsm_open_multi d names memtable_threshold false.

(** ** Writes *)

Definition lsm_flush (l : LSM) (d : Dir) : LSM * Dir * Z :=
  match lsm_mem l with
  | [] => (l, d, 0)
  | _ =>
      let seq := next_seq l in
      let l := bump_seq l in
      let '(d, rc) := sst_write_file d seq (lsm_mem l) in
      if negb (rc =? 0) then (l, d, -1)
      else match files d !! seq ≫= sst_open seq with
           | None => (l, d, -1)
           | Some s => (with_mem (lsm_add_sst l s) [], d, 0)
           end
  end.

Definition maybe_flush (l : LSM) (d : Dir) : LSM * Dir * Z :=
  if threshold l <=? blen (lsm_mem l) then lsm_flush l d else (l, d, 0).

Definition lsm_put (l : LSM) (d : Dir) (key val : Z) := maybe_flush (mem_upsert l key val 0) d.
Definition lsm_delete (l : LSM) (d : Dir) (key : Z) := maybe_flush (mem_upsert l key 0 1) d.
Definition lsm_put_dup (l : LSM) (d : Dir) (key val : Z) := maybe_flush (mem_upsert_dup l key val 0) d.
Definition lsm_delete_val (l : LSM) (d : Dir) (key val : Z) := maybe_flush (mem_upsert_dup l key val 1) d.

Definition unlink (d : Dir) (s : SSTable) : Dir := mkDir (delete (sst_seq s) (files d)) (file_limit d).

Definition lsm_clear (l : LSM) (d : Dir) : LSM * Dir := (with_mem (with_ssts l []) [], foldl unlink d (ssts l)).

(** ** Reads *)

(** Tables from the newest to the oldest. *)
Fixpoint get_ssts (newest_first : list SSTable) (key : Z) : option Z :=
  match newest_first with
  | [] => None
  | s :: r => match sst_get s key with
              | Some (v, tomb) => if negb (tomb =? 0) then None else Some v
              | None => get_ssts r key
              end
  end.

Definition lsm_get (l : LSM) (key : Z) : option Z :=
  let '(pos, found) := mem_bsearch l key in
  if found then
    match lsm_mem l !! pos with
    | Some e => if negb (e_tomb e =? 0) then None else Some (e_val e)
    | None => None
    end
  else get_ssts (reverse (ssts l)) key.

Record MEntry := mkM { m_key : Z; m_val : Z; m_tomb : Z; prio : Z }.

Definition mentry_cmp (x y : MEntry) : Z :=
  if m_key x <? m_key y then -1 else if m_key y <? m_key x then 1
  else if prio y <? prio x then -1 else if prio x <? prio y then 1 else 0.

Definition mentry_cmp_multi (x y : MEntry) : Z :=
  if m_key x <? m_key y then -1 else if m_key y <? m_key x then 1
  else if m_val x <? m_val y then -1 else if m_val y <? m_val x then 1
  else if prio y <? prio x then -1 else if prio x <? prio y then 1 else 0.

Definition same_group (a b : MEntry) (mult : bool) : bool := (m_key a =? m_key b) && (negb mult || (m_val a =? m_val b)).

(** [qsort] with a comparison function *)
Fixpoint qsort_insert (cmp : MEntry -> MEntry -> Z) (x : MEntry) (l : list MEntry) : list MEntry :=
  match l with
  | [] => [x]
  | y :: r => if cmp x y <=? 0 then x :: y :: r else y :: qsort_insert cmp x r
  end.
Definition qsort (cmp : MEntry -> MEntry -> Z) (l : list MEntry) : list MEntry := foldr (qsort_insert cmp) [] l.

Definition tag (p : Z) (e : Entry) : MEntry := mkM (e_key e) (e_val e) (e_tomb e) p.

Definition UINT64_MAX : Z := 2 ^ 64 - 1.

Definition sst_entries (s : SSTable) : list Entry := (fun j => sst_read_rec s (Z.of_nat j)) <$> seq 0 (Z.to_nat (sst_count s)).

Definition collect_ssts (l : LSM) : list MEntry := mjoin ((fun s => tag (sst_seq s) <$> sst_entries s) <$> ssts l).

Definition entry_cmp (mult : bool) : MEntry -> MEntry -> Z := if mult then mentry_cmp_multi else mentry_cmp.

Definition collect_all (l : LSM) : list MEntry :=
  qsort (entry_cmp (multi l)) ((tag UINT64_MAX <$> lsm_mem l) ++ collect_ssts l).

(** [while (i < n && same_group(&arr[i], &cur)) i++] *)
Fixpoint skip_group (mult : bool) (cur : MEntry) (arr : list MEntry) : list MEntry :=
  match arr with
  | [] => []
  | x :: r => if same_group x cur mult then skip_group mult cur r else arr
  end.

(** The first entry of every group of the sorted array. *)
Fixpoint groups (fuel : nat) (mult : bool) (arr : list MEntry) : list MEntry :=
  match fuel, arr with
  | S fuel, cur :: r => cur :: groups fuel mult (skip_group mult cur r)
  | _, _ => []
  end.

Definition heads (mult : bool) (arr : list MEntry) : list MEntry := groups (length arr) mult arr.

Definition lsm_compact (l : LSM) (d : Dir) : LSM * Dir * Z :=
  match collect_ssts l with
  | [] => (l, d, 0)
  | arr =>
      let arr := qsort (entry_cmp (multi l)) arr in
      let live := omap (fun m => if m_tomb m =? 0 then Some (mkEntry (m_key m) (m_val m) 0) else None) (heads (multi l) arr) in
      let seq := next_seq l in
      let l := bump_seq l in
      let '(d, rc) := sst_write_file d seq live in
      if negb (rc =? 0) then (l, d, -1)
      else match files d !! seq ≫= sst_open seq with
           | None => (l, d, -1)
           | Some merged => (lsm_add_sst (with_ssts l []) merged, foldl unlink d (ssts l), 0)
           end
  end.

(** The callback's arguments in order; the returned count is their number. *)
Definition lsm_scan (l : LSM) (lo hi : Z) : list (Z * Z) :=
  if hi <? lo then []
  else omap (fun m => if (m_key m <? lo) || (hi <? m_key m) then None else if negb (m_tomb m =? 0) then None else Some (m_key m, m_val m))
         (heads (multi l) (collect_all l)).

Definition lsm_find_all (l : LSM) (key : Z) : list (Z * Z) :=
  omap (fun m => if negb (m_key m =? key) then None else if negb (m_tomb m =? 0) then None else Some (m_key m, m_val m))
    (heads (multi l) (collect_all l)).

Definition lsm_sstable_count (l : LSM) : Z := blen (ssts l).

(** ** Groups: the unit of replacement is the key, in multi-value mode the pair *)

Definition gid (mult : bool) (k v : Z) : Z * Z := (k, if mult then v else 0).
Definition egid (mult : bool) (e : Entry) : Z * Z := gid mult (e_key e) (e_val e).

Definition glt (a b : Z * Z) : Prop := a.1 < b.1 \/ (a.1 = b.1 /\ a.2 < b.2).

#[global] Instance glt_trans : Transitive glt.
Proof. intros [a1 a2] [b1 b2] [c1 c2]. unfold glt. simpl. lia. Qed.

Lemma glt_irrefl a : ~ glt a a.
Proof. destruct a. unfold glt. simpl. lia. Qed.

Lemma glt_cases a b : glt a b \/ a = b \/ glt b a.
Proof.
  destruct a as [a1 a2], b as [b1 b2]. unfold glt. simpl.
  destruct (Z.lt_trichotomy a1 b1) as [|[->|]]; [lia| |lia]. destruct (Z.lt_trichotomy a2 b2) as [|[->|]]; auto.
Qed.

Definition esorted (mult : bool) : list Entry -> Prop := StronglySorted (fun a b => glt (egid mult a) (egid mult b)).

Definition is_i64 (z : Z) : Prop := - 2 ^ 63 <= z < 2 ^ 63.
Definition entry_ok (e : Entry) : Prop := is_i64 (e_key e) /\ is_i64 (e_val e) /\ (e_tomb e = 0 \/ e_tomb e = 1).

Fixpoint efind (mult : bool) (g : Z * Z) (es : list Entry) : option Entry :=
  match es with
  | [] => None
  | e :: r => if decide (egid mult e = g) then Some e else efind mult g r
  end.

Lemma efind_Some mult g es e : esorted mult es -> efind mult g es = Some e <-> e ∈ es /\ egid mult e = g.
Proof.
  intros Hs. induction Hs as [|x es Hs IH Hx]; simpl.
  { split; [done|]. intros [H _]. by apply elem_of_nil in H. }
  case_decide as Hg.
  - split; [intros [= ->]; split; [constructor|done]|]. intros [[->|Hin]%elem_of_cons He]; [done|].
    rewrite list.Forall_forall in Hx. specialize (Hx e Hin). rewrite Hg, He in Hx. by apply glt_irrefl in Hx.
  - rewrite IH, elem_of_cons. split; [naive_solver|]. intros [[->|Hin] He]; done.
Qed.

Lemma efind_None mult g es : efind mult g es = None <-> forall e, e ∈ es -> egid mult e <> g.
Proof.
  induction es as [|x es IH]; simpl.
  { split; [|done]. intros _ e H. by apply elem_of_nil in H. }
  case_decide as Hg; [split; [done|]; intros H; exfalso; apply (H x); [constructor|done]|]. rewrite IH.
  split; [intros H e [->|Hin]%elem_of_cons; auto|]. intros H e Hin. apply H. by constructor.
Qed.

(** ** Binary search in the memtable *)

Lemma sorted_lookup_lt {A} (R : A -> A -> Prop) (m : list A) (i j : nat) a b :
  StronglySorted R m -> m !! i = Some a -> m !! j = Some b -> (i < j)%nat -> R a b.
Proof.
  intros Hs. revert i j. induction Hs as [|x m Hs IH Hx]; intros i j Ha Hb Hij; [done|].
  destruct j as [|j]; [lia|]. destruct i as [|i]; simpl in *.
  - injection Ha as ->. rewrite list.Forall_forall in Hx. apply Hx. by apply list_elem_of_lookup_2 in Hb.
  - eapply IH; [done..|lia].
Qed.

Lemma bsearch_loop_spec mult m (less greater : Entry -> bool) g :
  esorted mult m ->
  (forall e, less e = true <-> glt (egid mult e) g) -> (forall e, greater e = true <-> glt g (egid mult e)) ->
  forall fuel lo hi, (lo <= hi <= length m)%nat -> (hi - lo < fuel)%nat ->
  (forall i e, (i < lo)%nat -> m !! i = Some e -> glt (egid mult e) g) ->
  (forall i e, (hi <= i)%nat -> m !! i = Some e -> glt g (egid mult e)) ->
  let '(pos, found) := bsearch_loop fuel m less greater lo hi in
  if found then exists e, m !! pos = Some e /\ egid mult e = g
  else (pos <= length m)%nat /\ (forall i e, (i < pos)%nat -> m !! i = Some e -> glt (egid mult e) g) /\
       (forall i e, (pos <= i)%nat -> m !! i = Some e -> glt g (egid mult e)).
Proof.
  intros Hs Hless Hgt fuel. induction fuel as [|fuel IH]; intros lo hi Hb Hf Hlo Hhi; [lia|]. cbn [bsearch_loop].
  destruct (Nat.ltb_spec lo hi) as [Hlt|Hge].
  2: { split; [lia|]. split; [done|]. intros i e Hi. apply Hhi. lia. }
  assert (Hmid : (lo <= lo + (hi - lo) / 2 < hi)%nat).
  { assert ((hi - lo) / 2 < hi - lo)%nat by (apply Nat.div_lt; lia). lia. }
  set (mid := (lo + (hi - lo) / 2)%nat) in *.
  destruct (m !! mid) as [e|] eqn:He; [|apply lookup_ge_None in He; lia].
  destruct (less e) eqn:El; [|destruct (greater e) eqn:Eg].
  - apply IH; [lia|lia| |done]. intros i e' Hi He'. apply Hless in El.
    destruct (decide (i = mid)) as [->|]; [congruence|]. etransitivity; [|exact El].
    exact (sorted_lookup_lt _ _ _ _ _ _ Hs He' He ltac:(lia)).
  - apply IH; [lia|lia|done|]. intros i e' Hi He'. apply Hgt in Eg.
    destruct (decide (i = mid)) as [->|]; [congruence|]. etransitivity; [exact Eg|].
    exact (sorted_lookup_lt _ _ _ _ _ _ Hs He He' ltac:(lia)).
  - exists e. split; [done|]. destruct (glt_cases (egid mult e) g) as [H|[H|H]]; [|done|].
    + apply Hless in H. congruence.
    + apply Hgt in H. congruence.
Qed.

(** Where the search ends: at the group's entry, or where it would be inserted. *)
Definition search_ok (mult : bool) (g : Z * Z) (m : list Entry) (r : nat * bool) : Prop :=
  if r.2 then exists e, m !! r.1 = Some e /\ egid mult e = g
  else Forall (fun e => glt (egid mult e) g) (take r.1 m) /\ Forall (fun e => glt g (egid mult e)) (drop r.1 m).

Lemma bsearch_ok mult m less greater g :
  esorted mult m ->
  (forall e, less e = true <-> glt (egid mult e) g) -> (forall e, greater e = true <-> glt g (egid mult e)) ->
  search_ok mult g m (bsearch_loop (S (length m)) m less greater 0 (length m)).
Proof.
  intros Hs Hl Hg. pose proof (bsearch_loop_spec mult m less greater g Hs Hl Hg (S (length m)) 0 (length m)) as H.
  unfold search_ok. destruct (bsearch_loop _ _ _ _ _ _) as [pos found]. simpl.
  destruct found; [apply H; try lia|destruct H as (Hp & H1 & H2); try lia].
  - intros i e Hi He. apply lookup_lt_Some in He. lia.
  - intros i e Hi He. apply lookup_lt_Some in He. lia.
  - split; apply Forall_lookup; intros i e.
    + intros [Hi Hlt]%lookup_take_Some. by eapply H1.
    + rewrite lookup_drop. apply H2. lia.
Qed.

Lemma mem_bsearch_ok l key : esorted false (lsm_mem l) -> search_ok false (gid false key 0) (lsm_mem l) (mem_bsearch l key).
Proof.
  intros Hs. apply bsearch_ok; [done|..]; intros e; rewrite Z.ltb_lt; unfold glt, egid, gid; simpl; lia.
Qed.

Lemma mem_bsearch2_ok l key val : esorted true (lsm_mem l) -> search_ok true (gid true key val) (lsm_mem l) (mem_bsearch2 l key val).
Proof.
  intros Hs. apply bsearch_ok; [done|..]; intros e; rewrite orb_true_iff, andb_true_iff, Z.eqb_eq, !Z.ltb_lt; unfold glt, egid, gid; simpl; lia.
Qed.

Lemma esorted_app mult a b :
  esorted mult (a ++ b) <-> esorted mult a /\ esorted mult b /\ forall x y, x ∈ a -> y ∈ b -> glt (egid mult x) (egid mult y).
Proof.
  unfold esorted. induction a as [|x a IH]; simpl.
  { split; [intros H; split; [constructor|]; split; [done|]; intros ? ? Hx; by apply elem_of_nil in Hx|naive_solver]. }
  split.
  - intros H. inversion_clear H as [|? ? Hs Hx]. apply IH in Hs as (Ha & Hb & Hab). apply Forall_app in Hx as [Hxa Hxb].
    split; [by constructor|]. split; [done|]. intros u y [->|Hu]%elem_of_cons Hy; [|auto]. rewrite list.Forall_forall in Hxb. auto.
  - intros (Ha & Hb & Hab). inversion_clear Ha as [|? ? Hs Hx]. constructor.
    + apply IH. split; [done|]. split; [done|]. intros u y Hu Hy. apply Hab; [by constructor|done].
    + apply Forall_app. split; [done|]. apply list.Forall_forall. intros y Hy. apply Hab; [constructor|done].
Qed.

(** Writing the entry of a group where the search ended. *)
Definition put_at (m : list Entry) (r : nat * bool) (e : Entry) : list Entry := if r.2 then <[r.1 := e]> m else mem_insert m r.1 e.

Lemma put_at_spec mult m r e :
  esorted mult m -> search_ok mult (egid mult e) m r ->
  esorted mult (put_at m r e) /\ forall x, x ∈ put_at m r e <-> x = e \/ (x ∈ m /\ egid mult x <> egid mult e).
Proof.
  intros Hs Hr. unfold search_ok, put_at in *. destruct r as [pos [|]]; simpl in *.
  - destruct Hr as (e0 & He0 & Hg). rewrite insert_take_drop by (by eapply lookup_lt_Some).
    rewrite <- (take_drop_middle m pos e0 He0) in Hs. apply esorted_app in Hs as (Ha & Hb & Hab). inversion_clear Hb as [|? ? Hbs Hbx].
    rewrite list.Forall_forall in Hbx. split.
    + apply esorted_app. split; [done|]. split; [constructor; [done|]; apply list.Forall_forall; intros y Hy; rewrite <- Hg; auto|].
      intros x y Hx [->|Hy]%elem_of_cons; [rewrite <- Hg|]; apply Hab; try done; by constructor.
    + intros x. rewrite <- (take_drop_middle m pos e0 He0) at 3. rewrite !elem_of_app, !elem_of_cons. split.
      * intros [Hx|[->|Hx]]; [right; split; [auto|]|by left|right; split; [auto|]]; rewrite <- Hg; intros Heq.
        -- apply (glt_irrefl (egid mult e0)). rewrite <- Heq at 1. apply Hab; [done|constructor].
        -- apply (glt_irrefl (egid mult e0)). rewrite <- Heq at 2. auto.
      * intros [->|[[Hx|[->|Hx]] Hne]]; auto. by rewrite Hg in Hne.
  - destruct Hr as [H1 H2]. unfold mem_insert. rewrite <- (take_drop pos m) in Hs. apply esorted_app in Hs as (Ha & Hb & Hab).
    rewrite list.Forall_forall in H1, H2. split.
    + apply esorted_app. split; [done|]. split; [constructor; [done|]; apply list.Forall_forall; auto|].
      intros x y Hx [->|Hy]%elem_of_cons; auto.
    + intros x. rewrite elem_of_app, elem_of_cons. rewrite <- (take_drop pos m) at 3. rewrite elem_of_app. split; [|naive_solver].
      intros [Hx|[->|Hx]]; [right; split; [auto|]|by left|right; split; [auto|]]; intros Heq.
      * apply (glt_irrefl (egid mult x)). rewrite Heq at 2. auto.
      * apply (glt_irrefl (egid mult x)). rewrite Heq at 1. auto.
Qed.

Lemma alter_insert {A} (f : A -> A) (m : list A) (i : nat) x y : m !! i = Some x -> f x = y -> alter f i m = <[i := y]> m.
Proof.
  intros Hx Hy. apply list_eq. intros j. destruct (decide (j = i)) as [->|Hne].
  - rewrite list_lookup_alter_eq, list_lookup_insert_eq, Hx by (by eapply lookup_lt_Some). simpl. by rewrite Hy.
  - by rewrite list_lookup_alter_ne, list_lookup_insert_ne by done.
Qed.

Lemma mem_upsert_put l k v t :
  esorted false (lsm_mem l) -> mem_upsert l k v t = with_mem l (put_at (lsm_mem l) (mem_bsearch l k) (mkEntry k v t)).
Proof.
  intros Hs. pose proof (mem_bsearch_ok l k Hs) as Hr. unfold mem_upsert, put_at, search_ok in *.
  destruct (mem_bsearch l k) as [pos [|]]; [|done]. simpl in *. destruct Hr as (e & He & [= Hk]). f_equal.
  eapply alter_insert; [done|]. by rewrite Hk.
Qed.

Lemma mem_upsert_dup_put l k v t :
  esorted true (lsm_mem l) -> mem_upsert_dup l k v t = with_mem l (put_at (lsm_mem l) (mem_bsearch2 l k v) (mkEntry k v t)).
Proof.
  intros Hs. pose proof (mem_bsearch2_ok l k v Hs) as Hr. unfold mem_upsert_dup, put_at, search_ok in *.
  destruct (mem_bsearch2 l k v) as [pos [|]]; [|done]. simpl in *. destruct Hr as (e & He & [= Hk Hv]). f_equal.
  eapply alter_insert; [done|]. by rewrite Hk, Hv.
Qed.

(** ** Table files read back what was written *)

Lemma blen_rec e : blen (rec_bytes e) = SST_REC_BYTES.
Proof. unfold rec_bytes. by rewrite !blen_app, !blen_le_bytes. Qed.

Lemma blen_recs es : blen (mjoin (rec_bytes <$> es)) = blen es * SST_REC_BYTES.
Proof.
  induction es as [|e es IH]; [done|]. change (mjoin (rec_bytes <$> (e :: es))) with (rec_bytes e ++ mjoin (rec_bytes <$> es)).
  rewrite blen_app, blen_rec, IH. unfold blen. simpl length. unfold SST_REC_BYTES. lia.
Qed.

Lemma i64_le z : is_i64 z -> i64 (le_val (le_bytes 8 z)) = z.
Proof.
  intros Hz. rewrite le_val_le_bytes. unfold i64. rewrite <- (signed_small 64 z) at 2 by (unfold is_i64 in Hz; lia).
  unfold signed. change (8 * Z.of_nat 8) with 64. by rewrite Z.mod_mod.
Qed.

Lemma read_i64_at (pre post : bytes) z off : blen pre = off -> is_i64 z -> read_i64 (pre ++ le_bytes 8 z ++ post) off = Some z.
Proof.
  intros <- Hz. unfold read_i64, get_le. rewrite mem_read_app_r by lia. rewrite Z.sub_diag, mem_read_app_l by (rewrite blen_le_bytes; lia).
  rewrite <- (blen_le_bytes 8 z), mem_read_all. simpl. f_equal. by apply i64_le.
Qed.

Lemma entry_tomb_i64 e : entry_ok e -> is_i64 (e_tomb e) /\ i32 (e_tomb e) = e_tomb e.
Proof. intros (_ & _ & Ht). split; [unfold is_i64; lia|]. apply signed_small; lia. Qed.

Lemma read_rec_at (pre post : bytes) e (i : nat) :
  blen pre = SST_HDR_BYTES + Z.of_nat i * SST_REC_BYTES -> entry_ok e ->
  read_rec (pre ++ rec_bytes e ++ post) (Z.of_nat i) = Some (e_key e, e_val e, e_tomb e).
Proof.
  intros Hp He. pose proof (entry_tomb_i64 e He) as [Ht _]. destruct He as (Hk & Hv & _). unfold read_rec, rec_bytes. rewrite <- Hp, <- !app_assoc.
  rewrite (read_i64_at pre) by done.
  rewrite (app_assoc pre), (read_i64_at (pre ++ le_bytes 8 (e_key e))) by (rewrite ?blen_app, ?blen_le_bytes; done || lia).
  rewrite (app_assoc (pre ++ _)), (read_i64_at ((pre ++ le_bytes 8 (e_key e)) ++ le_bytes 8 (e_val e))) by (rewrite ?blen_app, ?blen_le_bytes; done || lia).
  done.
Qed.

Lemma read_rec_image es (i : nat) e :
  Forall entry_ok es -> es !! i = Some e -> read_rec (sst_image es) (Z.of_nat i) = Some (e_key e, e_val e, e_tomb e).
Proof.
  intros Hok He. rewrite Forall_lookup in Hok. rewrite <- (take_drop_middle es i e He) at 1. unfold sst_image.
  rewrite fmap_app, join_app. change (mjoin (rec_bytes <$> e :: ?l)) with (rec_bytes e ++ mjoin (rec_bytes <$> l)).
  rewrite !app_assoc, <- (app_assoc _ (rec_bytes e)). apply read_rec_at; [|by eapply Hok].
  rewrite !blen_app, !blen_le_bytes, blen_recs. apply lookup_lt_Some in He. unfold blen. rewrite length_take. unfold SST_HDR_BYTES, SST_REC_BYTES. lia.
Qed.

Lemma image_magic (es : list Entry) post : get_le 8 (le_bytes 8 SST_MAGIC ++ le_bytes 8 (blen es) ++ post) 0 = Some SST_MAGIC.
Proof.
  unfold get_le. rewrite mem_read_app_l by (by rewrite blen_le_bytes). change (Z.of_nat 8) with (blen (le_bytes 8 SST_MAGIC)). by rewrite mem_read_all.
Qed.

Lemma image_count (es : list Entry) post : blen es < 2 ^ 63 -> get_le 8 (le_bytes 8 SST_MAGIC ++ le_bytes 8 (blen es) ++ post) 8 = Some (blen es).
Proof.
  intros H. unfold get_le. rewrite mem_read_app_r by (by rewrite blen_le_bytes). change (8 - blen (le_bytes 8 SST_MAGIC)) with 0.
  rewrite mem_read_app_l by (by rewrite blen_le_bytes). rewrite <- (blen_le_bytes 8 (blen es)), mem_read_all. cbn [fmap option_fmap option_map].
  rewrite le_val_le_bytes. f_equal. apply Z.mod_small. pose proof (blen_nonneg es). change (8 * Z.of_nat 8) with 64. lia.
Qed.

(** The handle of a table with the entries [es]. *)
Definition sst_of (seq : Z) (es : list Entry) : SSTable :=
  mkSST seq (sst_image es) (blen es) (default 0 (e_key <$> head es)) (default 0 (e_key <$> list.last es)).

Lemma sst_open_image seq es : Forall entry_ok es -> blen es < 2 ^ 63 -> sst_open seq (sst_image es) = Some (sst_of seq es).
Proof.
  intros Hok Hn. unfold sst_open. unfold sst_image at 1 2. rewrite image_magic, image_count by done.
  change (negb (SST_MAGIC =? SST_MAGIC)) with false. cbn iota.
  destruct (Z.ltb_spec 0 (blen es)) as [Hpos|Hz].
  - destruct es as [|e0 es]; [done|]. change 0 with (Z.of_nat 0) at 1. rewrite (read_rec_image _ 0 e0) by done.
    destruct (list.last (e0 :: es)) as [e1|] eqn:El; [|by apply last_None in El].
    replace (blen (e0 :: es) - 1) with (Z.of_nat (length es)) by (unfold blen; simpl; lia).
    rewrite (read_rec_image _ (length es) e1); [|done|by rewrite <- El, last_lookup].
    unfold sst_of. by rewrite El.
  - destruct es; [done|unfold blen in *; simpl in *; lia].
Qed.

Lemma sst_read_of seq es (i : nat) e : Forall entry_ok es -> es !! i = Some e -> sst_read_rec (sst_of seq es) (Z.of_nat i) = e.
Proof.
  intros Hok He. unfold sst_read_rec. cbn [sst_fp sst_of]. rewrite (read_rec_image es i e) by done.
  rewrite Forall_lookup in Hok. destruct (entry_tomb_i64 e (Hok i e He)) as [_ ->]. by destruct e.
Qed.

Lemma sst_entries_of seq es : Forall entry_ok es -> sst_entries (sst_of seq es) = es.
Proof.
  intros Hok. unfold sst_entries. cbn [sst_count sst_of]. apply list_eq. intros i. rewrite list_lookup_fmap.
  replace (Z.to_nat (blen es)) with (length es) by (unfold blen; lia).
  destruct (es !! i) as [e|] eqn:He.
  - rewrite lookup_seq_lt by (by eapply lookup_lt_Some). simpl. f_equal. by apply sst_read_of.
  - apply lookup_ge_None in He. rewrite lookup_seq_ge by done. done.
Qed.

(** ** Binary search in a table file *)

Lemma sst_search_spec seq es key :
  Forall entry_ok es -> esorted false es ->
  forall fuel lo hi, 0 <= lo -> hi < blen es -> hi - lo + 1 < Z.of_nat fuel ->
  (forall (i : nat) e, es !! i = Some e -> e_key e = key -> lo <= Z.of_nat i <= hi) ->
  sst_search fuel (sst_of seq es) key lo hi = (fun e => (e_val e, e_tomb e)) <$> efind false (key, 0) es.
Proof.
  intros Hok Hs fuel. induction fuel as [|fuel IH]; intros lo hi Hlo Hhi Hf Hin; cbn [sst_search].
  { destruct (efind false (key, 0) es) as [e|] eqn:E; [|done]. apply efind_Some in E as [[i Hi]%list_elem_of_lookup [= He]]; [|done].
    specialize (Hin i e Hi He). lia. }
  destruct (Z.leb_spec lo hi) as [Hle|Hgt].
  2: { destruct (efind false (key, 0) es) as [e|] eqn:E; [|done]. apply efind_Some in E as [[i Hi]%list_elem_of_lookup [= He]]; [|done].
       specialize (Hin i e Hi He). lia. }
  assert (Hmid : lo <= lo + (hi - lo) / 2 <= hi).
  { pose proof (Z.div_pos (hi - lo) 2 ltac:(lia) ltac:(lia)). pose proof (Z.div_le_upper_bound (hi - lo) 2 (hi - lo) ltac:(lia) ltac:(lia)). lia. }
  set (mid := lo + (hi - lo) / 2) in *.
  destruct (es !! Z.to_nat mid) as [e|] eqn:He; [|apply lookup_ge_None in He; unfold blen in *; lia].
  assert (Hrd : sst_read_rec (sst_of seq es) mid = e).
  { rewrite <- (Z2Nat.id mid) by lia. by apply sst_read_of. }
  rewrite Hrd. destruct (Z.eqb_spec (e_key e) key) as [Hk|Hk].
  - assert (efind false (key, 0) es = Some e) as ->; [|done]. apply efind_Some; [done|].
    split; [by apply list_elem_of_lookup_2 in He|]. unfold egid, gid. by rewrite Hk.
  - destruct (Z.ltb_spec (e_key e) key) as [Hlt|Hge]; apply IH; try lia.
    + intros i e' Hi He'. specialize (Hin i e' Hi He'). split; [|lia]. destruct (decide (Z.of_nat i <= mid)) as [Hb|]; [|lia]. exfalso.
      destruct (decide (Z.of_nat i = mid)) as [Hq|]; [|].
      { rewrite <- Hq, Nat2Z.id in He. congruence. }
      pose proof (sorted_lookup_lt _ _ _ _ _ _ Hs Hi He ltac:(lia)) as Hx. unfold glt, egid, gid in Hx. simpl in Hx. lia.
    + intros i e' Hi He'. specialize (Hin i e' Hi He'). split; [lia|]. destruct (decide (mid <= Z.of_nat i)) as [Hb|]; [|lia]. exfalso.
      destruct (decide (Z.of_nat i = mid)) as [Hq|]; [|].
      { rewrite <- Hq, Nat2Z.id in He. congruence. }
      pose proof (sorted_lookup_lt _ _ _ _ _ _ Hs He Hi ltac:(lia)) as Hx. unfold glt, egid, gid in Hx. simpl in Hx. lia.
Qed.

Lemma sst_get_of seq es key :
  Forall entry_ok es -> esorted false es ->
  sst_get (sst_of seq es) key = (fun e => (e_val e, e_tomb e)) <$> efind false (key, 0) es.
Proof.
  intros Hok Hs. unfold sst_get. cbn [sst_count sst_of min_key max_key].
  assert (Hrange : forall e, e ∈ es -> default 0 (e_key <$> head es) <= e_key e <= default 0 (e_key <$> list.last es)).
  { intros e [i Hi]%list_elem_of_lookup. destruct es as [|e0 es]; [done|].
    destruct (list.last (e0 :: es)) as [e1|] eqn:El; [|by apply last_None in El]. rewrite last_lookup in El. simpl head. simpl default.
    assert (H0 : forall a b, egid false a = egid false b \/ glt (egid false a) (egid false b) -> e_key a <= e_key b).
    { intros a b [[= H]|H]; [lia|]. unfold glt, egid, gid in H. simpl in H. lia. }
    split; apply H0.
    - destruct i as [|i]; [left; by injection Hi as ->|]. right. exact (sorted_lookup_lt _ _ 0 (S i) e0 e Hs eq_refl Hi ltac:(lia)).
    - simpl in El. pose proof (lookup_lt_Some _ _ _ Hi) as Hl. simpl in Hl. destruct (decide (i = length es)) as [->|]; [left; congruence|].
      right. exact (sorted_lookup_lt _ _ i (length es) e e1 Hs Hi El ltac:(lia)). }
  destruct (efind false (key, 0) es) as [e|] eqn:E.
  - pose proof E as Ef. apply efind_Some in E as [Hin [= He]]; [|done]. specialize (Hrange e Hin). rewrite He in Hrange.
    assert (Hb : blen es <> 0) by (destruct es; [by apply elem_of_nil in Hin|unfold blen; simpl; lia]).
    destruct (Z.eqb_spec (blen es) 0), (Z.ltb_spec key (default 0 (e_key <$> head es))), (Z.ltb_spec (default 0 (e_key <$> list.last es)) key); try lia.
    simpl orb. cbn iota. rewrite (sst_search_spec seq es key Hok Hs) by (pose proof (blen_nonneg es); try lia; intros i e' Hi _; apply lookup_lt_Some in Hi; unfold blen; lia).
    by rewrite Ef.
  - destruct (_ || _); [done|]. rewrite (sst_search_spec seq es key Hok Hs), E by (pose proof (blen_nonneg es); try lia; intros i e' Hi _; apply lookup_lt_Some in Hi; unfold blen; lia).
    done.
Qed.

(** ** Merging: the first entry of each group of the sorted array is the newest *)

Definition mgid (mult : bool) (m : MEntry) : Z * Z := gid mult (m_key m) (m_val m).
Definition mle (mult : bool) (x y : MEntry) : Prop :=
  glt (mgid mult x) (mgid mult y) \/ (mgid mult x = mgid mult y /\ prio y <= prio x).

Lemma entry_cmp_spec mult x y : entry_cmp mult x y <= 0 <-> mle mult x y.
Proof.
  unfold entry_cmp, mle, mgid, gid, glt. destruct x as [kx vx tx px], y as [ky vy ty py].
  destruct mult; unfold mentry_cmp, mentry_cmp_multi; cbn [m_key m_val prio fst snd];
    (split; [|intros [Hc|[[= ] Hc]]]; repeat case_cmp; try lia; intros _; try (left; lia); right; (split; [f_equal; lia|lia])).
Qed.

Lemma mle_total mult x y : mle mult x y \/ mle mult y x.
Proof.
  unfold mle. destruct (glt_cases (mgid mult x) (mgid mult y)) as [H|[H|H]]; [by left; left| |by right; left].
  destruct (Z.le_ge_cases (prio x) (prio y)); [right|left]; right; split; (done || lia).
Qed.

#[global] Instance mle_trans mult : Transitive (mle mult).
Proof.
  intros x y z [H1|[H1 P1]] [H2|[H2 P2]]; unfold mle.
  - left. by etransitivity. - left. by rewrite <- H2. - left. by rewrite H1. - right. split; [congruence|lia].
Qed.

Lemma qsort_insert_perm cmp x l : qsort_insert cmp x l ≡ₚ x :: l.
Proof. induction l as [|y l IH]; simpl; [done|]. destruct (_ <=? _); [done|]. rewrite IH. by rewrite Permutation_swap. Qed.

Lemma qsort_perm cmp l : qsort cmp l ≡ₚ l.
Proof. induction l as [|x l IH]; [done|]. unfold qsort in *. simpl. by rewrite qsort_insert_perm, IH. Qed.

Lemma qsort_sorted mult l : StronglySorted (mle mult) (qsort (entry_cmp mult) l).
Proof.
  induction l as [|x l IH]; [constructor|]. unfold qsort in *. simpl. set (s := foldr _ _ _) in *. clearbody s.
  induction IH as [|y s Hs IH' Hy]; simpl; [repeat constructor|].
  destruct (Z.leb_spec (entry_cmp mult x y) 0) as [H|H].
  - apply entry_cmp_spec in H. constructor; [by constructor|]. constructor; [done|]. eapply Forall_impl; [|exact Hy].
    intros z Hz. by etransitivity.
  - assert (Hyx : mle mult y x) by (destruct (mle_total mult x y) as [Hc%entry_cmp_spec|]; [lia|done]).
    constructor; [done|]. rewrite qsort_insert_perm. by constructor.
Qed.

Lemma same_group_spec mult a b : same_group a b mult = true <-> mgid mult a = mgid mult b.
Proof.
  unfold same_group, mgid, gid. rewrite andb_true_iff, orb_true_iff, !Z.eqb_eq.
  destruct mult; simpl; split; [intros [-> [H| ->]]; done|intros [= -> ->]; auto|intros [-> _]; done|intros [= ->]; auto].
Qed.

Lemma skip_group_spec mult cur r :
  StronglySorted (mle mult) (cur :: r) ->
  exists old, r = old ++ skip_group mult cur r /\ Forall (fun m => mgid mult m = mgid mult cur /\ prio m <= prio cur) old /\
    Forall (fun m => glt (mgid mult cur) (mgid mult m)) (skip_group mult cur r) /\ StronglySorted (mle mult) (skip_group mult cur r).
Proof.
  intros H. inversion_clear H as [|? ? Hs Hx]. induction Hs as [|y r Hs IH Hy]; simpl; [exists []; repeat split; constructor|].
  inversion_clear Hx as [|? ? Hcy Hcr]. destruct (same_group y cur mult) eqn:E.
  - apply same_group_spec in E. destruct (IH Hcr) as (old & Hr & Ho & Hg & Hss). exists (y :: old). split; [simpl; by f_equal|].
    split; [|done]. constructor; [|done]. split; [done|]. destruct Hcy as [Hlt|[_ ?]]; [|done]. rewrite E in Hlt. by apply glt_irrefl in Hlt.
  - assert (Hlt : glt (mgid mult cur) (mgid mult y)).
    { destruct Hcy as [|[He _]]; [done|]. symmetry in He. apply same_group_spec in He. congruence. }
    exists []. split; [done|]. split; [done|]. split; [|by constructor]. constructor; [done|].
    eapply Forall_impl; [|exact Hy]. intros z [Hz|[Hz _]]; [by etransitivity|by rewrite <- Hz].
Qed.

Lemma groups_spec mult fuel : forall arr,
  (length arr <= fuel)%nat -> StronglySorted (mle mult) arr ->
  StronglySorted (fun a b => glt (mgid mult a) (mgid mult b)) (groups fuel mult arr) /\
  (forall m, m ∈ groups fuel mult arr -> m ∈ arr /\ forall m', m' ∈ arr -> mgid mult m' = mgid mult m -> prio m' <= prio m) /\
  (forall m, m ∈ arr -> exists h, h ∈ groups fuel mult arr /\ mgid mult h = mgid mult m).
Proof.
  induction fuel as [|fuel IH]; intros arr Hf Hs.
  { destruct arr; [|simpl in Hf; lia]. split; [constructor|]. split; [by intros m H%elem_of_nil|by intros m H%elem_of_nil]. }
  destruct arr as [|cur r]; [split; [constructor|]; split; [by intros m H%elem_of_nil|by intros m H%elem_of_nil]|]. simpl.
  destruct (skip_group_spec mult cur r Hs) as (old & Hr & Ho & Hg & Hss). set (r' := skip_group mult cur r) in *.
  assert (Hlen : (length r' <= fuel)%nat).
  { apply (f_equal length) in Hr. rewrite length_app in Hr. simpl in Hf. lia. }
  destruct (IH r' Hlen Hss) as (H1 & H2 & H3). rewrite list.Forall_forall in Ho, Hg. split; [|split].
  - constructor; [done|]. apply list.Forall_forall. intros m Hm. apply Hg. by apply H2.
  - intros m [->|Hm]%elem_of_cons.
    + split; [constructor|]. intros m' [->|Hm']%elem_of_cons Heq; [lia|]. rewrite Hr in Hm'. apply elem_of_app in Hm' as [Hm'|Hm']; [by apply Ho|].
      specialize (Hg _ Hm'). rewrite Heq in Hg. by apply glt_irrefl in Hg.
    + destruct (H2 m Hm) as [Hin Hmax]. pose proof (Hg _ Hin) as Hgm. split; [rewrite Hr; set_solver|].
      intros m' Hm' Heq. rewrite Hr in Hm'. apply elem_of_cons in Hm' as [->|[Hm'|Hm']%elem_of_app]; [..|by apply Hmax].
      * rewrite Heq in Hgm. by apply glt_irrefl in Hgm.
      * destruct (Ho _ Hm') as [He _]. rewrite <- He, Heq in Hgm. by apply glt_irrefl in Hgm.
  - intros m [->|Hm]%elem_of_cons; [exists cur; split; [constructor|done]|]. rewrite Hr in Hm. apply elem_of_app in Hm as [Hm|Hm].
    + exists cur. split; [constructor|]. symmetry. by apply Ho.
    + destruct (H3 m Hm) as (h & Hh & He). exists h. split; [by constructor|done].
Qed.

Lemma heads_spec mult arr :
  StronglySorted (mle mult) arr ->
  StronglySorted (fun a b => glt (mgid mult a) (mgid mult b)) (heads mult arr) /\
  (forall m, m ∈ heads mult arr -> m ∈ arr /\ forall m', m' ∈ arr -> mgid mult m' = mgid mult m -> prio m' <= prio m) /\
  (forall m, m ∈ arr -> exists h, h ∈ heads mult arr /\ mgid mult h = mgid mult m).
Proof. by apply groups_spec. Qed.

(** ** Runs, the newest first *)

Definition run_entries (r : Z * list Entry) : list MEntry := tag r.1 <$> r.2.

Fixpoint rlookup (mult : bool) (g : Z * Z) (runs : list (Z * list Entry)) : option MEntry :=
  match runs with
  | [] => None
  | r :: rest => match efind mult g r.2 with Some e => Some (tag r.1 e) | None => rlookup mult g rest end
  end.

Definition runs_ok (mult : bool) (runs : list (Z * list Entry)) : Prop :=
  StronglySorted (fun a b => b.1 < a.1) runs /\ Forall (fun r => esorted mult r.2) runs.

(** The value a group has: that of its newest entry, unless it is a tombstone. *)
Definition live (m : option MEntry) : option Z := match m with Some m => if m_tomb m =? 0 then Some (m_val m) else None | None => None end.

Lemma mgid_tag mult p e : mgid mult (tag p e) = egid mult e.
Proof. done. Qed.

Lemma in_run mult m r : m ∈ run_entries r -> prio m = r.1 /\ exists e, e ∈ r.2 /\ m = tag r.1 e /\ mgid mult m = egid mult e.
Proof. unfold run_entries. intros (e & -> & He)%list_elem_of_fmap. split; [done|]. by exists e. Qed.

Lemma rlookup_newest mult runs m :
  runs_ok mult runs ->
  rlookup mult (mgid mult m) runs = Some m <->
  m ∈ mjoin (run_entries <$> runs) /\ forall m', m' ∈ mjoin (run_entries <$> runs) -> mgid mult m' = mgid mult m -> prio m' <= prio m.
Proof.
  intros [Hp Hs]. induction Hp as [|r runs Hp IH Hr]; simpl.
  { split; [done|]. intros [H _]. by apply elem_of_nil in H. }
  inversion_clear Hs as [|? ? Hr2 Hs']. specialize (IH Hs').
  assert (Hlow : forall m', m' ∈ mjoin (run_entries <$> runs) -> prio m' < r.1).
  { intros m' (r' & Hin & (x & -> & Hx)%list_elem_of_fmap)%list_elem_of_join. rewrite list.Forall_forall in Hr.
    destruct (in_run mult m' x Hin) as [-> _]. by apply Hr. }
  destruct (efind mult (mgid mult m) r.2) as [e|] eqn:E.
  - apply efind_Some in E as [Hin He]; [|done]. split.
    + intros [= <-]. split; [apply elem_of_app; left; unfold run_entries; by apply list_elem_of_fmap_2|].
      intros m' [Hm|Hm]%elem_of_app _; [by destruct (in_run mult m' r Hm) as [-> _]|]. apply Hlow in Hm. simpl. lia.
    + intros [[Hm|Hm]%elem_of_app Hmax].
      * destruct (in_run mult m r Hm) as (_ & e' & Hin' & -> & Hg). do 2 f_equal.
        assert (Some e = Some e') as [= ->]; [|done].
        rewrite <- (proj2 (efind_Some mult (mgid mult (tag r.1 e')) r.2 e Hr2)) by done.
        apply efind_Some; done.
      * exfalso. pose proof (Hlow m Hm). pose proof (Hmax (tag r.1 e)) as Hx. simpl in Hx.
        assert (r.1 <= prio m); [|lia]. apply Hx; [|by rewrite mgid_tag].
        apply elem_of_app. left. unfold run_entries. by apply list_elem_of_fmap_2.
  - rewrite IH. rewrite efind_None in E. split.
    + intros [Hm Hmax]. split; [apply elem_of_app; by right|]. intros m' [Hm'|Hm']%elem_of_app Hg; [|auto].
      destruct (in_run mult m' r Hm') as (_ & e' & Hin' & -> & Hg'). exfalso. apply (E e' Hin'). congruence.
    + intros [[Hm|Hm]%elem_of_app Hmax].
      * exfalso. destruct (in_run mult m r Hm) as (_ & e' & Hin' & -> & Hg'). by apply (E e' Hin').
      * split; [done|]. intros m' Hm' Hg. apply Hmax; [|done]. apply elem_of_app. by right.
Qed.

Lemma rlookup_gid mult g runs m : rlookup mult g runs = Some m -> mgid mult m = g.
Proof.
  induction runs as [|r rs IH]; intros E; [done|]. simpl in E. destruct (efind mult g r.2) as [x|] eqn:Ef; [|by apply IH].
  injection E as <-. rewrite mgid_tag. clear -Ef. induction r.2 as [|y es IH]; [done|]. simpl in Ef. case_decide; [by simplify_eq|by apply IH].
Qed.

(** The merge of all entries picks exactly the newest entry of every group. *)
Lemma heads_merge mult runs arr :
  runs_ok mult runs -> arr ≡ₚ mjoin (run_entries <$> runs) ->
  let h := heads mult (qsort (entry_cmp mult) arr) in
  StronglySorted (fun a b => glt (mgid mult a) (mgid mult b)) h /\ forall m, m ∈ h <-> rlookup mult (mgid mult m) runs = Some m.
Proof.
  intros Hr Harr h. destruct (heads_spec mult (qsort (entry_cmp mult) arr) (qsort_sorted mult arr)) as (H1 & H2 & H3). fold h in H1, H2, H3.
  split; [done|].
  assert (Hin : forall m, m ∈ qsort (entry_cmp mult) arr <-> m ∈ mjoin (run_entries <$> runs)) by (intros m; by rewrite qsort_perm, Harr).
  assert (Hfw : forall m, m ∈ h -> rlookup mult (mgid mult m) runs = Some m).
  { intros m Hm. apply rlookup_newest; [done|]. destruct (H2 m Hm) as [Ha Hmax]. split; [by apply Hin|].
    intros m' Hm' Hg. apply Hmax; [by apply Hin|done]. }
  intros m. split; [apply Hfw|]. intros Hm. pose proof Hm as Hm'. apply rlookup_newest in Hm' as [Ha _]; [|done].
  destruct (H3 m (proj2 (Hin m) Ha)) as (x & Hx & Hg). pose proof (Hfw x Hx) as Hx'. rewrite Hg in Hx'. congruence.
Qed.

(** ** The engine's invariant *)

Definition sst_run (s : SSTable) : Z * list Entry := (sst_seq s, sst_entries s).
Definition disk_runs (l : LSM) : list (Z * list Entry) := reverse (sst_run <$> ssts l).
Definition lsm_runs (l : LSM) : list (Z * list Entry) := (UINT64_MAX, lsm_mem l) :: disk_runs l.

Definition sst_ok (mult : bool) (s : SSTable) : Prop :=
  exists es, s = sst_of (sst_seq s) es /\ esorted mult es /\ Forall entry_ok es /\ blen es < 2 ^ 63.

(** Entries in the memtable and in all tables. *)
Definition lsm_size (l : LSM) : Z := blen (lsm_mem l) + blen (collect_ssts l).

(** After at most [n] operations. *)
Record lsm_ok (n : Z) (l : LSM) : Prop := {
  lo_mem : esorted (multi l) (lsm_mem l);
  lo_ents : Forall entry_ok (lsm_mem l);
  lo_ssts : Forall (sst_ok (multi l)) (ssts l);
  lo_seqs : StronglySorted (fun a b => sst_seq a < sst_seq b) (ssts l);
  lo_next : Forall (fun s => 1 <= sst_seq s < next_seq l) (ssts l);
  lo_seq : 1 <= next_seq l <= n + 1;
  lo_size : lsm_size l <= n;
  lo_bound : n < 2 ^ 63 }.

(** The directory holds the open tables and otherwise only files that do not open. *)
Record dir_ok (l : LSM) (d : Dir) : Prop := {
  do_tables : forall s, s ∈ ssts l -> files d !! sst_seq s = Some (sst_fp s);
  do_others : forall q f, files d !! q = Some f -> q ∈ (sst_seq <$> ssts l) \/ sst_open q f = None;
  do_limit : 0 <= file_limit d }.

Lemma sorted_snoc {A} (R : A -> A -> Prop) (l : list A) x : StronglySorted R l -> Forall (fun y => R y x) l -> StronglySorted R (l ++ [x]).
Proof.
  intros Hs. induction Hs as [|y l Hs IH Hy]; intros Hx; simpl; [repeat constructor|]. inversion_clear Hx.
  constructor; [by apply IH|]. apply Forall_app. split; [done|by constructor].
Qed.

Lemma sorted_reverse {A} (R : A -> A -> Prop) (l : list A) : StronglySorted R l -> StronglySorted (flip R) (reverse l).
Proof.
  induction 1 as [|x l Hs IH Hx]; [constructor|]. rewrite reverse_cons. apply sorted_snoc; [done|]. by rewrite reverse_Permutation.
Qed.

Lemma sorted_fmap {A B} (R : A -> A -> Prop) (Q : B -> B -> Prop) (f : A -> B) (l : list A) :
  (forall a b, R a b -> Q (f a) (f b)) -> StronglySorted R l -> StronglySorted Q (f <$> l).
Proof. intros H. induction 1 as [|x l Hs IH Hx]; [constructor|]. constructor; [done|]. apply Forall_fmap. eapply Forall_impl; [|exact Hx]. intros y. apply H. Qed.

Lemma sst_ok_run mult s : sst_ok mult s -> esorted mult (sst_run s).2.
Proof. intros (es & -> & Hs & Hok & _). simpl. by rewrite sst_entries_of. Qed.

Lemma disk_runs_ok n l : lsm_ok n l -> runs_ok (multi l) (disk_runs l).
Proof.
  intros [Hm He Hs Hq Hn Hsq Hsz Hb]. unfold disk_runs. split.
  - apply (sorted_reverse (fun a b => a.1 < b.1)). eapply sorted_fmap; [|exact Hq]. done.
  - rewrite reverse_Permutation. apply Forall_fmap. eapply Forall_impl; [|exact Hs]. intros s. apply sst_ok_run.
Qed.

Lemma lsm_runs_ok n l : lsm_ok n l -> runs_ok (multi l) (lsm_runs l).
Proof.
  intros Hok. destruct (disk_runs_ok n l Hok) as [H1 H2]. destruct Hok as [Hm He Hs Hq Hn Hsq Hsz Hb]. split.
  - constructor; [done|]. unfold disk_runs. rewrite reverse_Permutation. apply Forall_fmap. eapply Forall_impl; [|exact Hn].
    intros s [Hx1 Hx2]. simpl. unfold UINT64_MAX. lia.
  - by constructor.
Qed.

Lemma collect_disk l : collect_ssts l ≡ₚ mjoin (run_entries <$> disk_runs l).
Proof. unfold collect_ssts, disk_runs. rewrite reverse_Permutation, <- list_fmap_compose. done. Qed.

Lemma collect_runs l : (tag UINT64_MAX <$> lsm_mem l) ++ collect_ssts l ≡ₚ mjoin (run_entries <$> lsm_runs l).
Proof. simpl. by rewrite collect_disk. Qed.

(** ** The contract: a map from groups to values *)

Definition represents (l : LSM) (A : gmap (Z * Z) Z) : Prop := forall g, A !! g = live (rlookup (multi l) g (lsm_runs l)).

Lemma mem_upsert_ok mult l r e n A :
  lsm_ok n l -> multi l = mult -> represents l A -> entry_ok e -> n + 1 < 2 ^ 63 ->
  search_ok mult (egid mult e) (lsm_mem l) r ->
  let l' := with_mem l (put_at (lsm_mem l) r e) in
  lsm_ok (n + 1) l' /\
  represents l' (if e_tomb e =? 0 then <[egid mult e := e_val e]> A else delete (egid mult e) A).
Proof.
  intros Hok <- HA He Hn Hr l'. pose proof Hok as [Hm Hen Hs Hq Hnx Hsq Hsz Hb].
  destruct (put_at_spec _ _ _ _ Hm Hr) as [Hsort Hin]. split.
  - split; try done; try (simpl; lia).
    + simpl. rewrite list.Forall_forall in *. intros x [->|[Hx _]]%Hin; auto.
    + unfold lsm_size in *. change (collect_ssts l') with (collect_ssts l). simpl.
      assert (blen (put_at (lsm_mem l) r e) <= blen (lsm_mem l) + 1); [|lia]. unfold blen, put_at, mem_insert.
      destruct r.2; rewrite ?length_insert, ?length_app; simpl; rewrite ?length_take, ?length_drop; lia.
  - intros g. unfold lsm_runs. cbn [rlookup fst snd lsm_mem with_mem]. change (disk_runs l') with (disk_runs l). change (multi l') with (multi l).
    change (lsm_mem l') with (put_at (lsm_mem l) r e).
    assert (Hf : efind (multi l) g (put_at (lsm_mem l) r e) = if decide (egid (multi l) e = g) then Some e else efind (multi l) g (lsm_mem l)).
    { case_decide as Hg.
      - apply efind_Some; [done|]. split; [apply Hin; by left|done].
      - destruct (efind (multi l) g (lsm_mem l)) as [x|] eqn:E.
        + apply efind_Some in E as [Hx Hxg]; [|done]. apply efind_Some; [done|]. split; [|done]. apply Hin. right. split; [done|congruence].
        + rewrite efind_None in *. intros x [->|[Hx _]]%Hin; auto. }
    rewrite Hf. specialize (HA g). unfold lsm_runs in HA. cbn [rlookup fst snd] in HA. case_decide as Hg.
    + subst g. simpl. destruct (Z.eqb_spec (e_tomb e) 0); [by rewrite lookup_insert_eq|by rewrite lookup_delete_eq].
    + destruct (e_tomb e =? 0); [rewrite lookup_insert_ne by done|rewrite lookup_delete_ne by done]; exact HA.
Qed.

(** ** Files cut short do not open *)

Lemma get_le_short n (l : bytes) off : blen l < off + Z.of_nat n -> get_le n l off = None.
Proof.
  intros H. unfold get_le, mem_read. destruct (in_range l off (Z.of_nat n)) eqn:E; [|done]. apply in_range_spec in E. lia.
Qed.

Lemma get_le_take n (l : bytes) (k : nat) off : off + Z.of_nat n <= Z.of_nat k -> (k <= length l)%nat -> get_le n (take k l) off = get_le n l off.
Proof.
  intros H Hk. unfold get_le. f_equal. rewrite <- (take_drop k l) at 2. symmetry. apply mem_read_app_l. unfold blen. rewrite length_take. lia.
Qed.

Lemma blen_image es : blen (sst_image es) = SST_HDR_BYTES + blen es * SST_REC_BYTES.
Proof. unfold sst_image. rewrite !blen_app, !blen_le_bytes, blen_recs. unfold SST_HDR_BYTES. lia. Qed.

Lemma sst_open_torn q es (k : nat) : blen es < 2 ^ 63 -> Z.of_nat k < blen (sst_image es) -> sst_open q (take k (sst_image es)) = None.
Proof.
  intros Hes Hk. pose proof (blen_image es) as Hi. unfold sst_open.
  assert (Hlen : blen (take k (sst_image es)) = Z.of_nat k) by (unfold blen in *; rewrite length_take; lia).
  destruct (decide (k < 8)%nat); [rewrite (get_le_short 8 _ 0) by lia; done|].
  destruct (decide (k < 16)%nat); [rewrite (get_le_short 8 _ 8) by lia; by destruct (get_le 8 _ 0)|].
  rewrite !get_le_take by (unfold blen in *; lia). unfold sst_image at 1 2. rewrite image_magic, image_count by done.
  change (negb (SST_MAGIC =? SST_MAGIC)) with false. cbn iota. unfold SST_HDR_BYTES, SST_REC_BYTES in *.
  destruct (Z.ltb_spec 0 (blen es)) as [Hpos|Hz]; [|pose proof (blen_nonneg es); lia].
  assert (Hlast : read_rec (take k (sst_image es)) (blen es - 1) = None).
  { unfold read_rec, read_i64. rewrite (get_le_short 8 _ (_ + 16)) by (unfold SST_HDR_BYTES, SST_REC_BYTES; lia).
    by repeat destruct (get_le _ _ _). }
  rewrite Hlast. by destruct (read_rec _ 0) as [[[? ?] ?]|].
Qed.

(** Writing a table of fresh number [q]: complete and openable, or a file that does not open. *)
Lemma write_open d q es :
  Forall entry_ok es -> blen es < 2 ^ 63 -> 0 <= file_limit d ->
  let '(d', rc) := sst_write_file d q es in
  file_limit d' = file_limit d /\ (forall q', q' <> q -> files d' !! q' = files d !! q') /\
  (if rc =? 0 then blen (sst_image es) <= file_limit d /\ files d' !! q = Some (sst_image es) /\ sst_open q (sst_image es) = Some (sst_of q es)
   else file_limit d < blen (sst_image es) /\ forall f, files d' !! q = Some f -> sst_open q f = None).
Proof.
  intros Hok Hn Hl. unfold sst_write_file. split; [done|]. split; [intros q' Hq; simpl; by rewrite lookup_insert_ne|].
  destruct (Z.leb_spec (blen (sst_image es)) (file_limit d)) as [Hle|Hgt]; simpl.
  - split; [done|]. rewrite lookup_insert_eq, take_ge by (unfold blen in *; lia). split; [done|]. by apply sst_open_image.
  - split; [done|]. intros f. rewrite lookup_insert_eq. intros [= <-]. apply sst_open_torn; [done|lia].
Qed.

(** ** Flushing *)

Lemma live_prio g mult p q es runs : live (rlookup mult g ((p, es) :: runs)) = live (rlookup mult g ((q, es) :: runs)).
Proof. simpl. by destruct (efind mult g es). Qed.

Lemma disk_runs_add l q es m :
  Forall entry_ok es -> disk_runs (with_mem (lsm_add_sst (bump_seq l) (sst_of q es)) m) = (q, es) :: disk_runs l.
Proof.
  intros Hok. unfold disk_runs. change (ssts (with_mem (lsm_add_sst (bump_seq l) (sst_of q es)) m)) with (ssts l ++ [sst_of q es]).
  rewrite fmap_app, reverse_app. cbn [fmap list_fmap reverse rev_append app]. unfold sst_run at 1. by rewrite sst_entries_of.
Qed.

Lemma collect_snoc l s : collect_ssts (lsm_add_sst l s) = collect_ssts l ++ (tag (sst_seq s) <$> sst_entries s).
Proof. unfold collect_ssts. simpl. rewrite fmap_app, join_app. simpl. by rewrite app_nil_r. Qed.

(** What adding the table [es] as the newest one does, the memtable becoming [m]. *)
Lemma add_table_ok n l es m :
  lsm_ok n l -> next_seq l <= n -> esorted (multi l) es -> Forall entry_ok es -> esorted (multi l) m -> Forall entry_ok m ->
  blen m + blen (collect_ssts l) + blen es <= n ->
  lsm_ok n (with_mem (lsm_add_sst (bump_seq l) (sst_of (next_seq l) es)) m).
Proof.
  intros [Hm He Hs Hq Hn Hsq Hsz Hb] Hnx Hes Hok Hms Hmok Hsize.
  assert (Hu : u64 (next_seq l + 1) = next_seq l + 1) by (apply u64_small; lia).
  pose proof (blen_nonneg m). pose proof (blen_nonneg (collect_ssts l)).
  split; simpl; try done.
  - apply Forall_app. split; [done|]. constructor; [|done]. exists es. repeat split; try done. lia.
  - apply sorted_snoc; [done|]. eapply Forall_impl; [|exact Hn]. intros s [? ?]. simpl. lia.
  - rewrite Hu. apply Forall_app. split; [|by constructor; [simpl; lia|]]. eapply Forall_impl; [|exact Hn]. intros s [? ?]. lia.
  - rewrite Hu. lia.
  - unfold lsm_size. simpl. change (collect_ssts (with_mem (lsm_add_sst (bump_seq l) (sst_of (next_seq l) es)) m)) with (collect_ssts (lsm_add_sst l (sst_of (next_seq l) es))).
    rewrite collect_snoc, blen_app, blen_fmap, sst_entries_of by done. lia.
Qed.

Lemma bump_ok n l : lsm_ok n l -> next_seq l <= n -> lsm_ok n (bump_seq l).
Proof.
  intros [Hm He Hs Hq Hn Hsq Hsz Hb] Hnx. assert (Hu : u64 (next_seq l + 1) = next_seq l + 1) by (apply u64_small; lia).
  split; simpl; rewrite ?Hu; try done; [|lia]. eapply Forall_impl; [|exact Hn]. intros s [? ?]. lia.
Qed.

Lemma fresh_seq n l : lsm_ok n l -> next_seq l ∉ (sst_seq <$> ssts l).
Proof. intros Hok (s & Hq & Hs)%list_elem_of_fmap. pose proof (lo_next _ _ Hok) as Hn. rewrite list.Forall_forall in Hn. specialize (Hn s Hs). lia. Qed.

Lemma lsm_flush_ok n l d A :
  lsm_ok n l -> next_seq l <= n -> dir_ok l d -> represents l A ->
  let '(l', d', rc) := lsm_flush l d in
  lsm_ok n l' /\ dir_ok l' d' /\ represents l' A /\ multi l' = multi l /\ threshold l' = threshold l /\ file_limit d' = file_limit d /\
  (rc = 0 /\ lsm_mem l' = [] \/ rc = -1 /\ file_limit d < SST_HDR_BYTES + n * SST_REC_BYTES).
Proof.
  intros Hok Hnx Hd HA. pose proof Hok as [Hm He Hs Hq Hn Hsq Hsz Hb]. pose proof Hd as [D1 D2 D3].
  assert (Hbm : blen (lsm_mem l) <= n) by (unfold lsm_size in Hsz; pose proof (blen_nonneg (collect_ssts l)); lia).
  unfold lsm_flush. destruct (lsm_mem l) as [|e0 m0] eqn:Em; [do 6 (split; [done|]); by left|].
  change (lsm_mem (bump_seq l)) with (lsm_mem l). rewrite Em. set (m := e0 :: m0) in *.
  pose proof (write_open d (next_seq l) m He ltac:(lia) D3) as Hw. destruct (sst_write_file d (next_seq l) m) as [d1 rc].
  destruct Hw as (W1 & W2 & W3). destruct (Z.eqb_spec rc 0) as [->|Hrc]; cbn [negb].
  - destruct W3 as (W4 & W5 & W6). rewrite W5. cbn [mbind option_bind]. rewrite W6. split; [|split; [|split; [|do 3 (split; [done|]); by left]]].
    + apply add_table_ok; try done; [constructor|]. unfold lsm_size in Hsz. rewrite Em in Hsz. unfold blen at 1. simpl. lia.
    + split; cbn [ssts with_mem lsm_add_sst with_ssts bump_seq].
      * intros s [Hin| ->%list_elem_of_singleton]%elem_of_app; [|done]. rewrite W2; [by apply D1|]. intros Heq.
        apply (fresh_seq n l Hok). rewrite <- Heq. by apply list_elem_of_fmap_2.
      * intros q f Hf. rewrite fmap_app. destruct (decide (q = next_seq l)) as [->|Hne]; [left; simpl; set_solver|].
        rewrite W2 in Hf by done. destruct (D2 q f Hf); [left; set_solver|by right].
      * by rewrite W1.
    + intros g. rewrite HA. unfold lsm_runs. rewrite disk_runs_add, Em by done. apply (live_prio g (multi l) UINT64_MAX (next_seq l) m).
  - destruct W3 as [W4 W5]. rewrite blen_image in W4. split; [by apply bump_ok|]. split; [|do 4 (split; [done|]); right; split; [done|unfold SST_REC_BYTES in *; lia]].
    split; simpl.
    + intros s Hin. rewrite W2; [by apply D1|]. intros Heq. apply (fresh_seq n l Hok). rewrite <- Heq. by apply list_elem_of_fmap_2.
    + intros q f Hf. destruct (decide (q = next_seq l)) as [->|Hne]; [right; by apply W5|]. rewrite W2 in Hf by done. auto.
    + by rewrite W1.
Qed.

(** ** Reading *)

Lemma get_ssts_spec ts key :
  Forall (sst_ok false) ts -> get_ssts ts key = live (rlookup false (key, 0) (sst_run <$> ts)).
Proof.
  induction 1 as [|s ts (es & -> & Hs & Hok & _) _ IH]; [done|]. cbn [get_ssts fmap list_fmap rlookup]. rewrite sst_get_of by done.
  unfold sst_run at 1 2. cbn [fst snd]. change (sst_seq (sst_of (sst_seq s) es)) with (sst_seq s). rewrite sst_entries_of by done.
  destruct (efind false (key, 0) es) as [e|]; [|exact IH]. simpl. by destruct (e_tomb e =? 0).
Qed.

Lemma lsm_get_ok n l A key : lsm_ok n l -> multi l = false -> represents l A -> lsm_get l key = A !! (key, 0).
Proof.
  intros Hok Hmu HA. pose proof Hok as [Hm He Hs Hq Hn Hsq Hsz Hb]. rewrite Hmu in *. specialize (HA (key, 0)). rewrite Hmu in HA. rewrite HA.
  pose proof (mem_bsearch_ok l key Hm) as Hr. unfold lsm_get, lsm_runs, search_ok in *. cbn [rlookup fst snd].
  destruct (mem_bsearch l key) as [pos found]. cbn [fst snd] in *. destruct found.
  - destruct Hr as (e & Hpos & Hg). assert (efind false (key, 0) (lsm_mem l) = Some e) as ->.
    { apply efind_Some; [done|]. split; [by eapply list_elem_of_lookup_2|done]. }
    rewrite Hpos. simpl. by destruct (e_tomb e =? 0).
  - assert (efind false (key, 0) (lsm_mem l) = None) as ->.
    { apply efind_None. intros e Hin Hg. rewrite <- (take_drop pos (lsm_mem l)) in Hin. destruct Hr as [H1 H2]. rewrite list.Forall_forall in H1, H2.
      apply elem_of_app in Hin as [Hin|Hin]; [specialize (H1 e Hin) as Hx|specialize (H2 e Hin) as Hx]; simpl in Hx; rewrite Hg in Hx; by apply glt_irrefl in Hx. }
    unfold disk_runs. rewrite <- fmap_reverse. apply get_ssts_spec. by rewrite reverse_Permutation.
Qed.

Lemma sorted_omap {A B} (R : A -> A -> Prop) (Q : B -> B -> Prop) (f : A -> option B) (l : list A) :
  (forall a b a' b', R a b -> f a = Some a' -> f b = Some b' -> Q a' b') -> StronglySorted R l -> StronglySorted Q (omap f l).
Proof.
  intros H. induction 1 as [|x l Hs IH Hx]; [constructor|]. simpl. destruct (f x) as [y|] eqn:E; [|done]. constructor; [done|].
  rewrite list.Forall_forall in Hx. apply list.Forall_forall. intros z (w & Hw & Hz)%list_elem_of_omap. exact (H _ _ _ _ (Hx w Hw) E Hz).
Qed.

(** A selection of the newest entries that keeps keys in a range and drops tombstones. *)
Lemma select_ok n l A (keep : Z -> bool) :
  lsm_ok n l -> represents l A ->
  let out := omap (fun m => if negb (keep (m_key m)) then None else if negb (m_tomb m =? 0) then None else Some (m_key m, m_val m))
               (heads (multi l) (collect_all l)) in
  StronglySorted (fun a b => glt (gid (multi l) a.1 a.2) (gid (multi l) b.1 b.2)) out /\
  forall k v, (k, v) ∈ out <-> keep k = true /\ A !! gid (multi l) k v = Some v.
Proof.
  intros Hok HA out. destruct (heads_merge (multi l) (lsm_runs l) _ (lsm_runs_ok n l Hok) (collect_runs l)) as [Hs Hin].
  fold (collect_all l) in Hs, Hin. split.
  - eapply sorted_omap; [|exact Hs]. intros a b a' b' Hab Ha Hb.
    destruct (keep (m_key a)), (m_tomb a =? 0); try done. destruct (keep (m_key b)), (m_tomb b =? 0); try done. injection Ha as <-. injection Hb as <-. exact Hab.
  - intros k v. unfold out. rewrite list_elem_of_omap. setoid_rewrite Hin. rewrite HA. split.
    + intros (m & Hm & Hf). destruct (keep (m_key m)) eqn:Ek; [|done]. simpl in Hf. destruct (Z.eqb_spec (m_tomb m) 0) as [Ht|]; [|done]. injection Hf as <- <-.
      split; [done|]. fold (mgid (multi l) m). rewrite Hm. simpl. by rewrite Ht.
    + intros [Hk Hl]. destruct (rlookup (multi l) (gid (multi l) k v) (lsm_runs l)) as [m|] eqn:E; [|done]. simpl in Hl.
      destruct (Z.eqb_spec (m_tomb m) 0) as [Ht|]; [|done]. injection Hl as Hv.
      pose proof (rlookup_gid _ _ _ _ E) as Hg.
      assert (Hmk : m_key m = k) by (unfold mgid, gid in Hg; congruence).
      exists m. split; [by rewrite Hg|]. rewrite Hmk, Hk, Ht, Hv. done.
Qed.

Lemma lsm_scan_ok n l A lo hi :
  lsm_ok n l -> represents l A ->
  StronglySorted (fun a b => glt (gid (multi l) a.1 a.2) (gid (multi l) b.1 b.2)) (lsm_scan l lo hi) /\
  forall k v, (k, v) ∈ lsm_scan l lo hi <-> lo <= k <= hi /\ A !! gid (multi l) k v = Some v.
Proof.
  intros Hok HA. unfold lsm_scan. destruct (Z.ltb_spec hi lo).
  { split; [constructor|]. intros k v. split; [intros H1; by apply elem_of_nil in H1|lia]. }
  destruct (select_ok n l A (fun k => negb ((k <? lo) || (hi <? k))) Hok HA) as [H1 H2].
  assert (Heq : omap (fun m => if (m_key m <? lo) || (hi <? m_key m) then None else if negb (m_tomb m =? 0) then None else Some (m_key m, m_val m)) (heads (multi l) (collect_all l)) =
    omap (fun m => if negb (negb ((m_key m <? lo) || (hi <? m_key m))) then None else if negb (m_tomb m =? 0) then None else Some (m_key m, m_val m)) (heads (multi l) (collect_all l))).
  { apply list_omap_ext. apply list.Forall_Forall2_diag. apply list.Forall_forall. intros x _. by rewrite negb_involutive. }
  rewrite Heq. split; [exact H1|]. intros k v. rewrite H2. destruct (Z.ltb_spec k lo), (Z.ltb_spec hi k); simpl; split; intros [? ?]; split; (done || lia).
Qed.

Lemma lsm_find_all_ok n l A key :
  lsm_ok n l -> represents l A ->
  StronglySorted (fun a b => glt (gid (multi l) a.1 a.2) (gid (multi l) b.1 b.2)) (lsm_find_all l key) /\
  forall k v, (k, v) ∈ lsm_find_all l key <-> k = key /\ A !! gid (multi l) k v = Some v.
Proof.
  intros Hok HA. destruct (select_ok n l A (fun k => k =? key) Hok HA) as [H1 H2]. split; [exact H1|].
  intros k v. unfold lsm_find_all. rewrite H2, Z.eqb_eq. done.
Qed.

(** ** Compaction *)

Definition survivors (mult : bool) (arr : list MEntry) : list Entry :=
  omap (fun m => if m_tomb m =? 0 then Some (mkEntry (m_key m) (m_val m) 0) else None) (heads mult (qsort (entry_cmp mult) arr)).

Lemma collect_entry_ok n l m : lsm_ok n l -> m ∈ collect_ssts l -> is_i64 (m_key m) /\ is_i64 (m_val m).
Proof.
  intros Hok (x & Hx & (s & -> & Hs)%list_elem_of_fmap)%list_elem_of_join. apply list_elem_of_fmap in Hx as (e & -> & He).
  pose proof (lo_ssts _ _ Hok) as Hss. rewrite list.Forall_forall in Hss. destruct (Hss s Hs) as (es & Heq & _ & Hes & _).
  rewrite Heq, sst_entries_of in He by done. rewrite list.Forall_forall in Hes. destruct (Hes e He) as (? & ? & _). done.
Qed.

Lemma omap_length_le {A B} (f : A -> option B) (l : list A) : (length (omap f l) <= length l)%nat.
Proof. induction l as [|x l IH]; [done|]. change (omap f (x :: l)) with (match f x with Some y => y :: omap f l | None => omap f l end). destruct (f x); cbn [length]; lia. Qed.

Lemma groups_length mult fuel arr : (length (groups fuel mult arr) <= length arr)%nat.
Proof.
  revert arr. induction fuel as [|fuel IH]; intros arr; simpl; [lia|]. destruct arr as [|x r]; simpl; [lia|].
  specialize (IH (skip_group mult x r)). assert (length (skip_group mult x r) <= length r)%nat; [|lia].
  clear. induction r as [|y r IHr]; simpl; [lia|]. destruct (same_group y x mult); simpl; lia.
Qed.

(** The merged table: sorted, no larger than its sources, and with the same live values. *)
Lemma survivors_ok n l :
  lsm_ok n l ->
  let es := survivors (multi l) (collect_ssts l) in
  esorted (multi l) es /\ Forall entry_ok es /\ blen es <= blen (collect_ssts l) /\
  forall g e, efind (multi l) g es = Some e <-> live (rlookup (multi l) g (disk_runs l)) = Some (e_val e) /\ egid (multi l) e = g /\ e_tomb e = 0.
Proof.
  intros Hok es. destruct (heads_merge (multi l) (disk_runs l) _ (disk_runs_ok n l Hok) (collect_disk l)) as [Hs Hin].
  set (h := heads (multi l) (qsort (entry_cmp (multi l)) (collect_ssts l))) in *.
  assert (Hsort : esorted (multi l) es).
  { eapply sorted_omap; [|exact Hs]. intros a b a' b' Hab Ha Hb. destruct (m_tomb a =? 0), (m_tomb b =? 0); try done.
    injection Ha as <-. injection Hb as <-. exact Hab. }
  split; [done|]. split; [|split].
  - apply list.Forall_forall. intros e (m & Hm & He)%list_elem_of_omap. destruct (m_tomb m =? 0); [|done]. injection He as <-.
    apply Hin in Hm. apply rlookup_newest in Hm as [Hm _]; [|by eapply disk_runs_ok]. rewrite <- collect_disk in Hm.
    destruct (collect_entry_ok n l m Hok Hm). unfold entry_ok. simpl. auto.
  - unfold blen, es, survivors. pose proof (omap_length_le (fun m => if m_tomb m =? 0 then Some (mkEntry (m_key m) (m_val m) 0) else None) h) as H1.
    fold h. pose proof (groups_length (multi l) (length (qsort (entry_cmp (multi l)) (collect_ssts l))) (qsort (entry_cmp (multi l)) (collect_ssts l))) as H2.
    fold (heads (multi l) (qsort (entry_cmp (multi l)) (collect_ssts l))) in H2. fold h in H2. rewrite (qsort_perm (entry_cmp (multi l)) (collect_ssts l)) in H2. lia.
  - intros g e. rewrite efind_Some by done. unfold es, survivors. rewrite list_elem_of_omap. fold h. setoid_rewrite Hin. split.
    + intros [(m & Hm & He) Hg]. destruct (Z.eqb_spec (m_tomb m) 0) as [Ht|]; [|done]. injection He as <-. simpl.
      change (mgid (multi l) m = g) in Hg. rewrite Hg in Hm. rewrite Hm. simpl. by rewrite Ht.
    + intros (Hl & Hg & Ht). destruct (rlookup (multi l) g (disk_runs l)) as [m|] eqn:E; [|done]. simpl in Hl.
      destruct (Z.eqb_spec (m_tomb m) 0) as [Hmt|]; [|done]. injection Hl as Hv. split; [|done].
      pose proof (rlookup_gid _ _ _ _ E) as Hmg.
      exists m. rewrite Hmg. split; [done|]. rewrite Hmt. simpl. f_equal. destruct e as [k v t]. simpl in *. subst t v.
      rewrite <- Hg in Hmg. unfold mgid, egid, gid in Hmg. simpl in Hmg. by injection Hmg as ->.
Qed.

Lemma unlink_all old d q :
  files (foldl unlink d old) !! q = (if decide (q ∈ sst_seq <$> old) then None else files d !! q) /\ file_limit (foldl unlink d old) = file_limit d.
Proof.
  revert d. induction old as [|s old IH]; intros d; [done|]. simpl. destruct (IH (unlink d s)) as [-> ->]. split; [|done].
  cbn [files unlink]. destruct (decide (q = sst_seq s)) as [->|Hne].
  - rewrite lookup_delete_eq. repeat case_decide; try done; set_solver.
  - rewrite lookup_delete_ne by done. repeat case_decide; try done; set_solver.
Qed.

(** The merged table hides exactly what it was made of, also while some of the newest
    source tables are still there. *)
Lemma merged_live n l (newer older : list (Z * list Entry)) q g :
  lsm_ok n l -> disk_runs l = newer ++ older ->
  live (rlookup (multi l) g ((q, survivors (multi l) (collect_ssts l)) :: newer)) = live (rlookup (multi l) g (disk_runs l)).
Proof.
  intros Hok Hsplit. destruct (survivors_ok n l Hok) as (Hs & _ & _ & Hf). cbn [rlookup fst snd].
  destruct (efind (multi l) g (survivors (multi l) (collect_ssts l))) as [e|] eqn:E.
  - apply Hf in E as (-> & _ & Ht). simpl. by rewrite Ht.
  - assert (Hnone : live (rlookup (multi l) g (disk_runs l)) = None).
    { destruct (rlookup (multi l) g (disk_runs l)) as [m|] eqn:Em; [|done]. simpl. destruct (Z.eqb_spec (m_tomb m) 0) as [Ht|]; [|done]. exfalso.
      pose proof (rlookup_gid _ _ _ _ Em) as Hg.
      assert (Hc : efind (multi l) g (survivors (multi l) (collect_ssts l)) = Some (mkEntry (m_key m) (m_val m) 0)); [|congruence].
      apply Hf. rewrite Em. simpl. rewrite Ht. done. }
    rewrite Hnone. rewrite Hsplit in Hnone. clear -Hnone. induction newer as [|r rs IH]; [done|]. cbn [rlookup app] in *.
    destruct (efind (multi l) g r.2); [done|auto].
Qed.

Lemma lsm_compact_ok n l d A :
  lsm_ok n l -> next_seq l <= n -> dir_ok l d -> represents l A ->
  let '(l', d', rc) := lsm_compact l d in
  lsm_ok n l' /\ dir_ok l' d' /\ represents l' A /\ multi l' = multi l /\ threshold l' = threshold l /\ file_limit d' = file_limit d /\
  (rc = 0 /\ (collect_ssts l = [] \/ lsm_sstable_count l' = 1) \/ rc = -1 /\ file_limit d < SST_HDR_BYTES + n * SST_REC_BYTES).
Proof.
  intros Hok Hnx Hd HA. pose proof Hok as [Hm He Hs Hq Hn Hsq Hsz Hb]. pose proof Hd as [D1 D2 D3].
  destruct (survivors_ok n l Hok) as (Es & Eok & Elen & _). set (es := survivors (multi l) (collect_ssts l)) in *.
  assert (Hbe : blen es <= n) by (unfold lsm_size in Hsz; pose proof (blen_nonneg (lsm_mem l)); lia).
  unfold lsm_compact. destruct (collect_ssts l) as [|x0 arr0] eqn:Ec; [do 6 (split; [done|]); left; by split; [|left]|].
  change (multi (bump_seq l)) with (multi l). rewrite <- Ec. fold (survivors (multi l) (collect_ssts l)).
  replace (survivors (multi l) (collect_ssts l)) with es by (unfold es; by rewrite Ec).
  pose proof (write_open d (next_seq l) es Eok ltac:(lia) D3) as Hw. destruct (sst_write_file d (next_seq l) es) as [d1 rc].
  destruct Hw as (W1 & W2 & W3). destruct (Z.eqb_spec rc 0) as [->|Hrc]; cbn [negb].
  - destruct W3 as (W4 & W5 & W6). rewrite W5. cbn [mbind option_bind]. rewrite W6.
    change (ssts (bump_seq l)) with (ssts l).
    assert (Hok0 : lsm_ok n (with_ssts l [])).
    { split; try done; try constructor. unfold lsm_size in *. change (collect_ssts (with_ssts l [])) with (@nil MEntry). simpl.
      pose proof (blen_nonneg (collect_ssts l)). unfold blen at 2. simpl. lia. }
    change (lsm_add_sst (with_ssts (bump_seq l) []) (sst_of (next_seq l) es)) with
      (with_mem (lsm_add_sst (bump_seq (with_ssts l [])) (sst_of (next_seq (with_ssts l [])) es)) (lsm_mem l)).
    split; [|split; [|split; [|do 2 (split; [done|]); split; [rewrite (proj2 (unlink_all _ _ 0)); done|left; split; [done|by right]]]]].
    + apply add_table_ok; try done. change (blen (collect_ssts (with_ssts l []))) with 0. unfold lsm_size in Hsz. rewrite Ec in Hsz. lia.
    + split; cbn [ssts with_mem lsm_add_sst with_ssts bump_seq next_seq app].
      * intros s ->%list_elem_of_singleton. rewrite (proj1 (unlink_all _ _ _)). cbn [sst_seq sst_of].
        rewrite decide_False by (by eapply fresh_seq). exact W5.
      * intros q f. rewrite (proj1 (unlink_all _ _ _)). case_decide as Hin; [done|]. intros Hf.
        destruct (decide (q = next_seq l)) as [->|Hne]; [left; simpl; set_solver|]. rewrite W2 in Hf by done. destruct (D2 q f Hf); [done|by right].
      * rewrite (proj2 (unlink_all _ _ 0)). by rewrite W1.
    + intros g. rewrite HA. unfold lsm_runs. rewrite disk_runs_add by done. change (disk_runs (with_ssts l [])) with (@nil (Z * list Entry)).
      cbn [rlookup fst snd]. change (lsm_mem (with_mem ?a ?b)) with b.
      change (multi (with_mem ?a ?b)) with (multi l). destruct (efind (multi l) g (lsm_mem l)); [done|]. symmetry.
      replace es with (survivors (multi l) (collect_ssts l)) by (unfold es; by rewrite Ec).
      by apply (merged_live n l [] (disk_runs l) (next_seq l) g).
  - destruct W3 as [W4 W5]. rewrite blen_image in W4. split; [by apply bump_ok|]. split; [|do 4 (split; [done|]); right; split; [done|unfold SST_REC_BYTES in *; lia]].
    split; simpl.
    + intros s Hin. rewrite W2; [by apply D1|]. intros Heq. apply (fresh_seq n l Hok). rewrite <- Heq. by apply list_elem_of_fmap_2.
    + intros q f Hf. destruct (decide (q = next_seq l)) as [->|Hne]; [right; by apply W5|]. rewrite W2 in Hf by done. auto.
    + by rewrite W1.
Qed.

(** ** Opening a directory *)

Lemma exchange_spec r : forall x m r', exchange x r = (m, r') -> m :: r' ≡ₚ x :: r /\ Forall (fun s => sst_seq m <= sst_seq s) r'.
Proof.
  induction r as [|y r IH]; intros x m r' H; simpl in H.
  { injection H as <- <-. split; [done|constructor]. }
  destruct (Z.ltb_spec (sst_seq y) (sst_seq x)) as [Hlt|Hge].
  - destruct (exchange y r) as [m1 r1] eqn:E. injection H as <- <-. destruct (IH _ _ _ E) as [Hp Hall]. split.
    + rewrite Permutation_swap, Hp. by rewrite Permutation_swap.
    + constructor; [|done]. assert (Hy : y ∈ m1 :: r1) by (rewrite Hp; constructor). apply elem_of_cons in Hy as [->|Hy]; [lia|].
      rewrite list.Forall_forall in Hall. specialize (Hall y Hy). lia.
  - destruct (exchange x r) as [m1 r1] eqn:E. injection H as <- <-. destruct (IH _ _ _ E) as [Hp Hall]. split.
    + rewrite Permutation_swap, Hp. by rewrite Permutation_swap.
    + constructor; [|done]. assert (Hx : x ∈ m1 :: r1) by (rewrite Hp; constructor). apply elem_of_cons in Hx as [->|Hx]; [lia|].
      rewrite list.Forall_forall in Hall. specialize (Hall x Hx). lia.
Qed.

Lemma sort_ssts_spec n : forall l, (length l <= n)%nat ->
  sort_ssts n l ≡ₚ l /\ StronglySorted (fun a b => sst_seq a <= sst_seq b) (sort_ssts n l).
Proof.
  induction n as [|n IH]; intros l Hl; [destruct l; [split; [done|constructor]|simpl in Hl; lia]|].
  destruct l as [|x r]; simpl; [split; [done|constructor]|]. destruct (exchange x r) as [m r'] eqn:E. destruct (exchange_spec _ _ _ _ E) as [Hp Hall].
  destruct (IH r') as [Hp' Hs']. { pose proof (Permutation_length Hp) as Hlen. simpl in *. lia. }
  split; [by rewrite Hp', Hp|]. constructor; [done|]. by rewrite Hp'.
Qed.

Lemma sst_open_seq q f s : sst_open q f = Some s -> sst_seq s = q.
Proof.
  unfold sst_open. destruct (get_le 8 f 0); [|done]. destruct (get_le 8 f 8) as [c|]; [|done]. destruct (negb _); [done|].
  destruct (0 <? c); [|intros [= <-]; done]. destruct (read_rec f 0) as [[[? ?] ?]|]; [|done].
  destruct (read_rec f (c - 1)) as [[[? ?] ?]|]; [|done]. by intros [= <-].
Qed.

Definition found (d : Dir) (q : Z) : option SSTable := files d !! q ≫= sst_open q.

Lemma found_seq d q s : found d q = Some s -> sst_seq s = q.
Proof. unfold found. intros (f & _ & H)%bind_Some. by eapply sst_open_seq. Qed.

Lemma discover_all d names : forall l (n : Z),
  1 <= next_seq l <= n + 1 -> n < 2 ^ 63 -> (forall q s, q ∈ names -> found d q = Some s -> q <= n) ->
  exists nx, foldl (discover d) l names = mkLSM (threshold l) (multi l) (lsm_mem l) (ssts l ++ omap (found d) names) nx /\
    next_seq l <= nx <= n + 1 /\ Forall (fun s => sst_seq s < nx) (omap (found d) names).
Proof.
  induction names as [|q names IH]; intros l n Hnx Hn Hall; cbn [foldl].
  { exists (next_seq l). simpl. rewrite app_nil_r. split; [by destruct l|]. split; [lia|constructor]. }
  change (omap (found d) (q :: names)) with (match found d q with Some s => s :: omap (found d) names | None => omap (found d) names end).
  unfold discover at 2. fold (found d q). destruct (found d q) as [s|] eqn:E.
  - pose proof (Hall q s ltac:(constructor) E) as Hq. pose proof (found_seq _ _ _ E) as Hsq.
    assert (Hu : next_seq (lsm_add_sst l s) <= q -> u64 (q + 1) = q + 1) by (intros Hle; simpl in Hle; apply u64_small; lia).
    destruct (Z.leb_spec (next_seq (lsm_add_sst l s)) q) as [Hle|Hgt].
    + rewrite (Hu Hle). edestruct (IH (mkLSM (threshold (lsm_add_sst l s)) (multi (lsm_add_sst l s)) (lsm_mem (lsm_add_sst l s)) (ssts (lsm_add_sst l s)) (q + 1)) n) as (nx & -> & Hb & Hf);
        [simpl in *; lia|done|intros q' s' Hin; apply Hall; by constructor|].
      exists nx. simpl in *. rewrite <- app_assoc. split; [done|]. split; [lia|]. constructor; [lia|done].
    + edestruct (IH (lsm_add_sst l s) n) as (nx & -> & Hb & Hf); [done|done|intros q' s' Hin; apply Hall; by constructor|].
      exists nx. simpl in *. rewrite <- app_assoc. split; [done|]. split; [lia|]. constructor; [lia|done].
  - apply IH; [done|done|]. intros q' s' Hin. apply Hall. by constructor.
Qed.

Definition readdir (d : Dir) (names : list Z) : Prop := NoDup names /\ forall q, q ∈ names <-> is_Some (files d !! q).

(** Opening finds exactly the tables [T], in order. *)
Lemma open_tables n d names thr mult T :
  thr <> 0 -> readdir d names -> 0 <= n < 2 ^ 63 -> Forall (sst_ok mult) T -> StronglySorted (fun a b => sst_seq a < sst_seq b) T ->
  Forall (fun s => 1 <= sst_seq s <= n) T -> (forall s, s ∈ T -> files d !! sst_seq s = Some (sst_fp s)) ->
  (forall q f, files d !! q = Some f -> q ∈ (sst_seq <$> T) \/ sst_open q f = None) ->
  exists nx, lsm_open_multi d names thr mult = Some (mkLSM thr mult [] T nx) /\ 1 <= nx <= n + 1 /\ Forall (fun s => sst_seq s < nx) T.
Proof.
  intros Hthr [Hnd Hnames] Hn Hok Hsort Hseq Hfile Hother. unfold lsm_open_multi. destruct (Z.eqb_spec thr 0); [done|].
  assert (HT : forall s, s ∈ T <-> exists q, q ∈ names /\ found d q = Some s).
  { intros s. rewrite list.Forall_forall in Hok. split.
    - intros Hs. exists (sst_seq s). split; [apply Hnames; rewrite Hfile by done; done|]. unfold found. rewrite Hfile by done. simpl.
      destruct (Hok s Hs) as (es & Heq & _ & Hes & Hlen). rewrite Heq at 2 3. cbn [sst_fp sst_of]. by apply sst_open_image.
    - intros (q & Hq & Hf). pose proof (found_seq _ _ _ Hf) as Hsq. unfold found in Hf. apply bind_Some in Hf as (f & Hf & Ho).
      destruct (Hother q f Hf) as [(s' & Hs' & Hin)%list_elem_of_fmap|]; [|congruence].
      assert (Hf' : files d !! q = Some (sst_fp s')) by (rewrite Hs'; by apply Hfile). assert (f = sst_fp s') as -> by congruence.
      destruct (Hok s' Hin) as (es & Heq & _ & Hes & Hlen). rewrite Heq in Ho. cbn [sst_fp sst_of] in Ho. rewrite sst_open_image in Ho by done.
      assert (s = s') as ->; [|done]. rewrite Heq. rewrite <- Hs'. congruence. }
  destruct (discover_all d names (mkLSM thr mult [] [] 1) n) as (nx & -> & Hnx & Hlt); [simpl; lia|lia| |].
  { intros q s Hq Hf. rewrite <- (found_seq _ _ _ Hf). rewrite list.Forall_forall in Hseq. apply Hseq. apply HT. eauto. }
  simpl app. set (F := omap (found d) names) in *.
  assert (HF : F ≡ₚ T).
  { apply NoDup_Permutation.
    - unfold F. clear -Hnd. induction Hnd as [|q names Hq _ IH]; [constructor|].
      change (omap (found d) (q :: names)) with (match found d q with Some s => s :: omap (found d) names | None => omap (found d) names end).
      destruct (found d q) as [s|] eqn:E; [|done]. constructor; [|done]. intros (q' & Hq' & Hf)%list_elem_of_omap.
      apply Hq. rewrite <- (found_seq _ _ _ E), (found_seq _ _ _ Hf). done.
    - clear -Hsort. induction Hsort as [|s T Hs IH Hx]; [constructor|]. constructor; [|done]. intros Hin. rewrite list.Forall_forall in Hx.
      specialize (Hx s Hin). lia.
    - intros s. unfold F. rewrite list_elem_of_omap, HT. done. }
  destruct (sort_ssts_spec (length F) F ltac:(lia)) as [Hp Hs].
  assert (HTs : sort_ssts (length F) F = T).
  { apply (StronglySorted_unique_strong (fun a b => sst_seq a <= sst_seq b)); [|done| |by rewrite Hp].
    - intros x y Hx Hy Hxy Hyx. rewrite Hp, HF in Hx. apply list_elem_of_lookup in Hx as [i Hi], Hy as [j Hj].
      destruct (Nat.lt_trichotomy i j) as [H|[->|H]]; [|congruence|].
      + pose proof (sorted_lookup_lt _ _ _ _ _ _ Hsort Hi Hj H). simpl in *. lia.
      + pose proof (sorted_lookup_lt _ _ _ _ _ _ Hsort Hj Hi H). simpl in *. lia.
    - clear -Hsort. induction Hsort as [|s T Hs IH Hx]; constructor; [done|]. eapply Forall_impl; [|exact Hx]. intros y Hy. simpl in Hy. lia. }
  exists nx. unfold with_ssts. cbn [threshold multi lsm_mem ssts next_seq]. rewrite HTs. split; [done|]. split; [simpl in Hnx; lia|]. by rewrite <- HF.
Qed.

(** ** Histories of operations *)

Inductive lsm_op :=
| LPut (k v : Z) | LDelete (k : Z) | LPutDup (k v : Z) | LDeleteVal (k v : Z)
| LFlush | LCompact | LClear | LGet (k : Z) | LScan (lo hi : Z) | LFindAll (k : Z).

Inductive lsm_res := LCode (rc : Z) | LVal (v : option Z) | LList (l : list (Z * Z)).

Definition lsm_exec (l : LSM) (d : Dir) (op : lsm_op) : LSM * Dir * lsm_res :=
  let code r := let '(l, d, rc) := r in (l, d, LCode rc) in
  match op with
  | LPut k v => code (lsm_put l d k v)
  | LDelete k => code (lsm_delete l d k)
  | LPutDup k v => code (lsm_put_dup l d k v)
  | LDeleteVal k v => code (lsm_delete_val l d k v)
  | LFlush => code (lsm_flush l d)
  | LCompact => code (lsm_compact l d)
  | LClear => let '(l, d) := lsm_clear l d in (l, d, LCode 0)
  | LGet k => (l, d, LVal (lsm_get l k))
  | LScan lo hi => (l, d, LList (lsm_scan l lo hi))
  | LFindAll k => (l, d, LList (lsm_find_all l k))
  end.

Fixpoint lsm_run (l : LSM) (d : Dir) (ops : list lsm_op) : LSM * Dir * list lsm_res :=
  match ops with
  | [] => (l, d, [])
  | op :: r => let '(l, d, x) := lsm_exec l d op in let '(l, d, xs) := lsm_run l d r in (l, d, x :: xs)
  end.

(** Each mode has its own write and point-read operations; keys and values are 64-bit. *)
Definition lop_ok (mult : bool) (op : lsm_op) : Prop :=
  match op with
  | LPut k v => mult = false /\ is_i64 k /\ is_i64 v
  | LDelete k => mult = false /\ is_i64 k
  | LPutDup k v | LDeleteVal k v => mult = true /\ is_i64 k /\ is_i64 v
  | LGet _ => mult = false
  | _ => True
  end.

(** The contract: what an operation does to the map, and what it may answer. *)
Definition lspec (A : gmap (Z * Z) Z) (op : lsm_op) : gmap (Z * Z) Z :=
  match op with
  | LPut k v => <[(k, 0) := v]> A
  | LDelete k => delete (k, 0) A
  | LPutDup k v => <[(k, v) := v]> A
  | LDeleteVal k v => delete (k, v) A
  | LClear => ∅
  | _ => A
  end.

Definition lists (mult : bool) (A : gmap (Z * Z) Z) (keep : Z -> Prop) (out : list (Z * Z)) : Prop :=
  StronglySorted (fun a b => glt (gid mult a.1 a.2) (gid mult b.1 b.2)) out /\
  forall k v, (k, v) ∈ out <-> keep k /\ A !! gid mult k v = Some v.

Definition answer_ok (mult : bool) (lim n : Z) (A : gmap (Z * Z) Z) (op : lsm_op) (x : lsm_res) : Prop :=
  match op, x with
  | LGet k, LVal v => v = A !! (k, 0)
  | LScan lo hi, LList out => lists mult A (fun k => lo <= k <= hi) out
  | LFindAll key, LList out => lists mult A (fun k => k = key) out
  | (LPut _ _ | LDelete _ | LPutDup _ _ | LDeleteVal _ _ | LFlush | LCompact), LCode rc => rc = 0 \/ (rc = -1 /\ lim < SST_HDR_BYTES + n * SST_REC_BYTES)
  | LClear, LCode rc => rc = 0
  | _, _ => False
  end.

Fixpoint answers_ok (mult : bool) (lim n : Z) (A : gmap (Z * Z) Z) (ops : list lsm_op) (xs : list lsm_res) : Prop :=
  match ops, xs with
  | [], [] => True
  | op :: ops, x :: xs => answer_ok mult lim n A op x /\ answers_ok mult lim n (lspec A op) ops xs
  | _, _ => False
  end.

Record engine (n : Z) (A : gmap (Z * Z) Z) (mult : bool) (lim : Z) (l : LSM) (d : Dir) : Prop := {
  en_ok : lsm_ok n l; en_dir : dir_ok l d; en_rep : represents l A; en_multi : multi l = mult; en_lim : file_limit d = lim }.

Lemma engine_mono n m A mult lim l d : engine n A mult lim l d -> n <= m < 2 ^ 63 -> engine m A mult lim l d.
Proof. intros [[Hm He Hs Hq Hn Hsq Hsz Hb] Hd HA Hmu Hl] Hnm. split; try done. split; try done; lia. Qed.

(** A write: the memtable changes, then it may be flushed. *)
Lemma write_step n A mult lim l d l1 e :
  engine n A mult lim l d -> n + 1 < 2 ^ 63 -> entry_ok e ->
  (exists r, l1 = with_mem l (put_at (lsm_mem l) r e) /\ search_ok mult (egid mult e) (lsm_mem l) r) ->
  let '(l', d', rc) := maybe_flush l1 d in
  engine (n + 1) (if e_tomb e =? 0 then <[egid mult e := e_val e]> A else delete (egid mult e) A) mult lim l' d' /\
  (rc = 0 \/ (rc = -1 /\ lim < SST_HDR_BYTES + (n + 1) * SST_REC_BYTES)).
Proof.
  intros [Hok Hd HA Hmu Hl] Hn He (r & -> & Hr).
  destruct (mem_upsert_ok mult l r e n A Hok Hmu HA He Hn Hr) as [Hok1 HA1]. set (l1 := with_mem l _) in *.
  assert (Hd1 : dir_ok l1 d) by (destruct Hd; by split).
  unfold maybe_flush. destruct (threshold l1 <=? blen (lsm_mem l1)).
  - assert (Hnx : next_seq l1 <= n + 1) by (pose proof (lo_seq _ _ Hok); simpl; lia).
    pose proof (lsm_flush_ok (n + 1) l1 d _ Hok1 Hnx Hd1 HA1) as Hf. destruct (lsm_flush l1 d) as [[l' d'] rc].
    destruct Hf as (F1 & F2 & F3 & F4 & F5 & F6 & F7). split; [split; try done; [by rewrite F4|by rewrite F6]|].
    destruct F7 as [[-> _]|[-> Hlt]]; [by left|right; split; [done|lia]].
  - split; [by split|by left].
Qed.

Lemma exec_step n A mult lim l d op :
  engine n A mult lim l d -> n + 1 < 2 ^ 63 -> lop_ok mult op ->
  let '(l', d', x) := lsm_exec l d op in engine (n + 1) (lspec A op) mult lim l' d' /\ answer_ok mult lim (n + 1) A op x.
Proof.
  intros Hen Hn Hop. pose proof Hen as [Hok Hd HA Hmu Hl]. pose proof (lo_size _ _ Hok) as Hsz. pose proof (lo_mem _ _ Hok) as Hms. rewrite Hmu in Hms.
  assert (Hen1 : engine (n + 1) A mult lim l d) by (apply (engine_mono n); [done|lia]).
  assert (Hnx : next_seq l <= n + 1) by (pose proof (lo_seq _ _ Hok); lia).
  destruct op as [k v|k|k v|k v| | | |k|lo hi|k]; cbn [lsm_exec lspec answer_ok] in *.
  - destruct Hop as (-> & Hk & Hv). pose proof (write_step n A false lim l d (mem_upsert l k v 0) (mkEntry k v 0) Hen Hn) as Hw.
    unfold lsm_put. destruct (maybe_flush _ d) as [[l' d'] rc]. apply Hw; [unfold entry_ok; auto|].
    exists (mem_bsearch l k). split; [by apply mem_upsert_put|by apply mem_bsearch_ok].
  - destruct Hop as (-> & Hk). pose proof (write_step n A false lim l d (mem_upsert l k 0 1) (mkEntry k 0 1) Hen Hn) as Hw.
    unfold lsm_delete. destruct (maybe_flush _ d) as [[l' d'] rc]. apply Hw; [unfold entry_ok, is_i64 in *; simpl; lia|].
    exists (mem_bsearch l k). split; [by apply mem_upsert_put|by apply mem_bsearch_ok].
  - destruct Hop as (-> & Hk & Hv). pose proof (write_step n A true lim l d (mem_upsert_dup l k v 0) (mkEntry k v 0) Hen Hn) as Hw.
    unfold lsm_put_dup. destruct (maybe_flush _ d) as [[l' d'] rc]. apply Hw; [unfold entry_ok; auto|].
    exists (mem_bsearch2 l k v). split; [by apply mem_upsert_dup_put|by apply mem_bsearch2_ok].
  - destruct Hop as (-> & Hk & Hv). pose proof (write_step n A true lim l d (mem_upsert_dup l k v 1) (mkEntry k v 1) Hen Hn) as Hw.
    unfold lsm_delete_val. destruct (maybe_flush _ d) as [[l' d'] rc]. apply Hw; [unfold entry_ok; auto|].
    exists (mem_bsearch2 l k v). split; [by apply mem_upsert_dup_put|by apply mem_bsearch2_ok].
  - pose proof (lsm_flush_ok (n + 1) l d A (en_ok _ _ _ _ _ _ Hen1) Hnx Hd HA) as Hf. destruct (lsm_flush l d) as [[l' d'] rc].
    destruct Hf as (F1 & F2 & F3 & F4 & F5 & F6 & F7). split; [split; try done; [by rewrite F4|by rewrite F6]|].
    destruct F7 as [[-> _]|[-> Hlt]]; [by left|right; split; [done|lia]].
  - pose proof (lsm_compact_ok (n + 1) l d A (en_ok _ _ _ _ _ _ Hen1) Hnx Hd HA) as Hf. destruct (lsm_compact l d) as [[l' d'] rc].
    destruct Hf as (F1 & F2 & F3 & F4 & F5 & F6 & F7). split; [split; try done; [by rewrite F4|by rewrite F6]|].
    destruct F7 as [[-> _]|[-> Hlt]]; [by left|right; split; [done|lia]].
  - split; [|done]. destruct Hok as [Gm Ge Gs Gq Gn Gsq Gsz Gb], Hd as [D1 D2 D3]. unfold lsm_clear. split; [| | |done|].
    + split; try done; try constructor; try lia; try (simpl; lia). unfold lsm_size in *. pose proof (blen_nonneg (lsm_mem l)). pose proof (blen_nonneg (collect_ssts l)).
      simpl. unfold blen, collect_ssts. simpl. lia.
    + split; [intros s Hs; by apply elem_of_nil in Hs| |by rewrite (proj2 (unlink_all _ _ 0))].
      intros q f. rewrite (proj1 (unlink_all _ _ _)). case_decide; [done|]. intros Hf. destruct (D2 q f Hf); [done|by right].
    + intros g. done.
    + by rewrite (proj2 (unlink_all _ _ 0)).
  - split; [done|]. subst mult. by eapply lsm_get_ok.
  - split; [done|]. rewrite <- Hmu. by eapply lsm_scan_ok.
  - split; [done|]. rewrite <- Hmu. by eapply lsm_find_all_ok.
Qed.

Lemma answers_weaken mult lim n m A ops xs : n <= m -> answers_ok mult lim n A ops xs -> answers_ok mult lim m A ops xs.
Proof.
  intros Hnm. revert A xs. induction ops as [|op ops IH]; intros A [|x xs] H; simpl in *; try done. destruct H as [Hx H]. split; [|by apply IH].
  destruct op, x; simpl in *; try done; (destruct Hx as [?|[? ?]]; [by left|right; split; [done|unfold SST_REC_BYTES in *; lia]]).
Qed.

Lemma run_ok ops : forall n A mult lim l d,
  engine n A mult lim l d -> n + blen ops < 2 ^ 63 -> Forall (lop_ok mult) ops ->
  let '(l', d', xs) := lsm_run l d ops in
  engine (n + blen ops) (foldl lspec A ops) mult lim l' d' /\ answers_ok mult lim (n + blen ops) A ops xs.
Proof.
  induction ops as [|op ops IH]; intros n A mult lim l d Hen Hn Hops.
  { unfold blen. simpl. by rewrite Z.add_0_r. }
  inversion_clear Hops as [|? ? Hop Hrest]. cbn [lsm_run foldl].
  assert (Hb : blen (op :: ops) = 1 + blen ops) by (unfold blen; simpl; lia). rewrite Hb in *. pose proof (blen_nonneg ops).
  pose proof (exec_step n A mult lim l d op Hen ltac:(lia) Hop) as Hx. destruct (lsm_exec l d op) as [[l1 d1] x]. destruct Hx as [Hen1 Hx].
  specialize (IH (n + 1) (lspec A op) mult lim l1 d1 Hen1 ltac:(lia) Hrest). destruct (lsm_run l1 d1 ops) as [[l' d'] xs]. destruct IH as [IH1 IH2].
  replace (n + (1 + blen ops)) with (n + 1 + blen ops) by lia. split; [done|]. split; [|done].
  assert (Hw : answers_ok mult lim (n + 1) A [op] [x]) by done. apply (answers_weaken _ _ _ (n + 1 + blen ops)) in Hw; [|lia]. apply Hw.
Qed.

Definition empty_dir (lim : Z) : Dir := mkDir ∅ lim.

Lemma open_empty thr mult lim :
  0 < thr -> 0 <= lim -> lsm_open_multi (empty_dir lim) [] thr mult = Some (mkLSM thr mult [] [] 1) /\ engine 0 ∅ mult lim (mkLSM thr mult [] [] 1) (empty_dir lim).
Proof.
  intros Ht Hl. split; [unfold lsm_open_multi; destruct (Z.eqb_spec thr 0); [lia|done]|]. split; try done.
  - split; simpl; try constructor; try lia; done.
  - split; [intros s Hs; by apply elem_of_nil in Hs|intros q f Hf; change (files (empty_dir lim)) with (∅ : gmap Z bytes) in Hf; by rewrite lookup_empty in Hf|done].
Qed.

(** Reopening an engine whose tables are on disk: the memtable is lost, nothing else. *)
Lemma reopen_engine n A mult lim l d names thr T :
  engine n A mult lim l d -> thr <> 0 -> readdir d names -> 0 <= n -> T = ssts l ->
  (forall g, A !! g = live (rlookup mult g (disk_runs l))) ->
  exists l', lsm_open_multi d names thr mult = Some l' /\ ssts l' = T /\ lsm_mem l' = [] /\ engine n A mult lim l' d.
Proof.
  intros [Hok Hd HA Hmu Hl] Hthr Hrd Hn0 -> Hdisk. pose proof Hok as [Hm He Hs Hq Hn Hsq Hsz Hb]. pose proof Hd as [D1 D2 D3]. rewrite Hmu in *.
  destruct (open_tables n d names thr mult (ssts l)) as (nx & Ho & Hnx & Hlt); try done.
  { eapply Forall_impl; [|exact Hn]. intros s [? ?]. lia. }
  eexists. split; [exact Ho|]. split; [done|]. split; [done|]. split; try done.
  split; [constructor|constructor|done|done| | | |done]; simpl.
  - rewrite list.Forall_forall in *. intros s Hin. specialize (Hn s Hin). specialize (Hlt s Hin). simpl in *. lia.
  - lia.
  - unfold lsm_size in *. change (collect_ssts (mkLSM thr mult [] (ssts l) nx)) with (collect_ssts l). pose proof (blen_nonneg (lsm_mem l)).
    simpl. unfold blen at 1. simpl. lia.
Qed.

(** ** Correctness of the engine *)

(** C9. The engine is a map: from an empty directory, any history of writes, flushes,
    compactions, clears and reads in either mode gets the answers of a finite map,
    scans in ascending order without tombstones or shadowed versions included;
    operations that write a file fail only when it would exceed the file limit, and a
    failed write still takes effect. *)
Theorem lsm_refines thr lim mult ops :
  0 < thr -> 0 <= lim -> blen ops < 2 ^ 63 -> Forall (lop_ok mult) ops ->
  exists l, lsm_open_multi (empty_dir lim) [] thr mult = Some l /\
    answers_ok mult lim (blen ops) ∅ ops (lsm_run l (empty_dir lim) ops).2.
Proof.
  intros Ht Hl Hn Hops. destruct (open_empty thr mult lim Ht Hl) as [Ho Hen]. eexists. split; [exact Ho|].
  pose proof (run_ok ops 0 ∅ mult lim _ _ Hen ltac:(lia) Hops) as Hr. destruct (lsm_run _ _ ops) as [[l' d'] xs]. destruct Hr as [_ Hr].
  by rewrite Z.add_0_l in Hr.
Qed.

(** C26. Flushed data survives closing: after any history and a successful flush, opening
    the directory again, in whatever order its files are listed, gives an engine
    that goes on answering from the same contents. *)
Theorem lsm_durable thr thr' lim mult ops ops' names l :
  0 < thr -> 0 < thr' -> 0 <= lim -> blen ops + blen ops' + 1 < 2 ^ 63 -> Forall (lop_ok mult) ops -> Forall (lop_ok mult) ops' ->
  lsm_open_multi (empty_dir lim) [] thr mult = Some l ->
  let '(l1, d1, _) := lsm_run l (empty_dir lim) ops in
  let '(l2, d2, rc) := lsm_flush l1 d1 in
  rc = 0 -> readdir d2 names ->
  exists l3, lsm_open_multi d2 names thr' mult = Some l3 /\
    answers_ok mult lim (blen ops + blen ops' + 1) (foldl lspec ∅ ops) ops' (lsm_run l3 d2 ops').2.
Proof.
  intros Ht Ht' Hl Hn Hops Hops' Ho. destruct (open_empty thr mult lim Ht Hl) as [Ho' Hen]. rewrite Ho' in Ho. injection Ho as <-.
  pose proof (blen_nonneg ops) as Hb1. pose proof (blen_nonneg ops') as Hb2.
  pose proof (run_ok ops 0 ∅ mult lim _ _ Hen ltac:(lia) Hops) as Hr. destruct (lsm_run _ _ ops) as [[l1 d1] xs]. destruct Hr as [Hen1 _].
  pose proof (exec_step _ _ _ _ _ _ LFlush Hen1 ltac:(lia) I) as Hx. cbn [lsm_exec lspec] in Hx.
  pose proof Hen1 as [Hok1 Hd1 HA1 Hmu1 Hl1].
  pose proof (lsm_flush_ok (0 + blen ops + 1) l1 d1 _ (en_ok _ _ _ _ _ _ (engine_mono _ (0 + blen ops + 1) _ _ _ _ _ Hen1 ltac:(lia)))
    ltac:(pose proof (lo_seq _ _ Hok1); lia) Hd1 HA1) as Hf.
  destruct (lsm_flush l1 d1) as [[l2 d2] rc]. destruct Hx as [Hen2 _]. destruct Hf as (_ & _ & _ & _ & _ & _ & Hf). intros -> Hrd.
  destruct Hf as [[_ Hmem]|[? _]]; [|done].
  destruct (reopen_engine _ _ _ _ _ _ names thr' _ Hen2 ltac:(lia) Hrd ltac:(lia) eq_refl) as (l3 & Ho3 & _ & _ & Hen3).
  { intros g. rewrite (en_rep _ _ _ _ _ _ Hen2). unfold lsm_runs. rewrite Hmem, (en_multi _ _ _ _ _ _ Hen2). done. }
  exists l3. split; [done|]. pose proof (run_ok ops' _ _ _ _ _ _ Hen3 ltac:(lia) Hops') as Hr. destruct (lsm_run l3 d2 ops') as [[l4 d4] ys].
  destruct Hr as [_ Hr]. simpl. by replace (blen ops + blen ops' + 1) with (0 + blen ops + 1 + blen ops') by lia.
Qed.

(** The directory a compaction leaves when it dies after writing [k] bytes of the merged
    table, or after writing it all and removing [j] of the old ones. *)
Definition merged_image (l : LSM) : bytes := sst_image (survivors (multi l) (collect_ssts l)).
Definition compact_cut (l : LSM) (d : Dir) (k : nat) : Dir := mkDir (<[next_seq l := take k (merged_image l)]> (files d)) (file_limit d).
Definition compact_done (l : LSM) (d : Dir) (j : nat) : Dir :=
  foldl unlink (mkDir (<[next_seq l := merged_image l]> (files d)) (file_limit d)) (take j (ssts l)).

Lemma compact_cut_engine n A mult lim l d (k : nat) :
  engine n A mult lim l d -> Z.of_nat k < blen (merged_image l) -> engine n A mult lim l (compact_cut l d k).
Proof.
  intros [Hok [D1 D2 D3] HA Hmu Hl] Hk. split; try done. split; simpl; [| |done].
  - intros s Hs. rewrite lookup_insert_ne; [by apply D1|]. intros Heq. apply (fresh_seq n l Hok). rewrite Heq. by apply list_elem_of_fmap_2.
  - intros q f. destruct (decide (q = next_seq l)) as [->|Hne]; [|rewrite lookup_insert_ne by done; apply D2].
    rewrite lookup_insert_eq. intros [= <-]. right. apply sst_open_torn; [|done]. destruct (survivors_ok n l Hok) as (_ & _ & Hlen & _).
    pose proof (lo_size _ _ Hok). pose proof (lo_bound _ _ Hok). unfold lsm_size in *. pose proof (blen_nonneg (lsm_mem l)). lia.
Qed.

Lemma compact_done_engine n A mult lim l d (j : nat) :
  engine n A mult lim l d -> next_seq l <= n -> lsm_mem l = [] -> 2 * n < 2 ^ 63 ->
  exists l', ssts l' = drop j (ssts l) ++ [sst_of (next_seq l) (survivors (multi l) (collect_ssts l))] /\ lsm_mem l' = [] /\
    engine (2 * n) A mult lim l' (compact_done l d j).
Proof.
  intros [Hok Hd HA Hmu Hl] Hnx Hmem Hn2. pose proof Hok as [Hm He Hs Hq Hn Hsq Hsz Hb]. pose proof Hd as [D1 D2 D3].
  destruct (survivors_ok n l Hok) as (Es & Eok & Elen & _). set (es := survivors (multi l) (collect_ssts l)) in *.
  set (l0 := with_ssts l (drop j (ssts l))). pose proof (blen_nonneg (collect_ssts l)) as Hc0. unfold lsm_size in Hsz. rewrite Hmem in Hsz. change (blen []) with 0 in Hsz.
  assert (Hcol : blen (collect_ssts l0) <= blen (collect_ssts l)).
  { unfold collect_ssts, l0. cbn [ssts with_ssts]. rewrite <- (take_drop j (ssts l)) at 2. rewrite fmap_app, join_app, blen_app.
    pose proof (blen_nonneg (mjoin ((fun s => tag (sst_seq s) <$> sst_entries s) <$> take j (ssts l)))). lia. }
  assert (Hok0 : lsm_ok (2 * n) l0).
  { split; simpl; try done; try lia.
    - by apply Forall_drop. - clear -Hq. revert j. induction Hq as [|s T Hs IH Hx]; intros [|j]; simpl; [constructor..|by constructor|apply IH].
    - by apply Forall_drop. - unfold lsm_size. simpl. rewrite Hmem. change (blen []) with 0. lia. }
  exists (with_mem (lsm_add_sst (bump_seq l0) (sst_of (next_seq l0) es)) []). split; [done|]. split; [done|].
  assert (Hsub : forall s, s ∈ drop j (ssts l) -> s ∈ ssts l) by (intros s Hs'; rewrite <- (take_drop j (ssts l)); set_solver).
  split; [| | |done|].
  - apply add_table_ok; try done; try constructor; try lia. change (next_seq l0) with (next_seq l). lia.
    change (blen []) with 0. lia.
  - split; [| |unfold compact_done; rewrite (proj2 (unlink_all _ _ 0)); simpl; lia].
    + unfold compact_done. intros s [Hin| ->%list_elem_of_singleton]%elem_of_app; rewrite (proj1 (unlink_all _ _ _)); cbn [files sst_seq sst_of sst_fp].
      * rewrite decide_False, lookup_insert_ne; [by apply D1, Hsub| |].
        -- intros Heq. apply (fresh_seq n l Hok). rewrite Heq. by apply list_elem_of_fmap_2, Hsub.
        -- intros (s' & Hs' & Hin')%list_elem_of_fmap. cbn [ssts bump_seq l0 with_ssts] in Hin.
           apply list_elem_of_lookup in Hin as [a Ha], Hin' as [b Hb']. rewrite lookup_drop in Ha. apply lookup_take_Some in Hb' as [Hb' Hlt].
           pose proof (sorted_lookup_lt _ _ _ _ _ _ Hq Hb' Ha ltac:(lia)). simpl in *. lia.
      * change (next_seq l0) with (next_seq l). rewrite decide_False, lookup_insert_eq; [done|].
        intros (s' & Hs' & Hin')%list_elem_of_fmap. apply (fresh_seq n l Hok). rewrite Hs'. apply list_elem_of_fmap_2.
        rewrite <- (take_drop j (ssts l)). set_solver.
    + intros q f. unfold compact_done. rewrite (proj1 (unlink_all _ _ _)). case_decide as Hin; [done|]. cbn [files].
      change (ssts (with_mem ?a ?b)) with (drop j (ssts l) ++ [sst_of (next_seq l) es]). rewrite fmap_app.
      destruct (decide (q = next_seq l)) as [->|Hne]; [intros _; left; simpl; set_solver|]. rewrite lookup_insert_ne by done. intros Hf.
      destruct (D2 q f Hf) as [Hq'|]; [left|by right]. rewrite <- (take_drop j (ssts l)), fmap_app in Hq'. set_solver.
  - intros g. rewrite HA. unfold lsm_runs. rewrite disk_runs_add, Hmem by done. cbn [rlookup fst snd efind lsm_mem with_mem].
    change (multi (with_mem ?a ?b)) with (multi l). symmetry. apply (merged_live n l (disk_runs l0) (reverse (sst_run <$> take j (ssts l)))); [done|].
    unfold disk_runs, l0. cbn [ssts with_ssts]. rewrite <- reverse_app, <- fmap_app, take_drop. done.
  - unfold compact_done. by rewrite (proj2 (unlink_all _ _ 0)).
Qed.

(** Compaction can be interrupted anywhere: after any history that ends with an empty
    memtable, if it dies with the merged table cut short, or with it complete and any
    number of the old tables (the oldest first) already removed, opening the
    directory shows exactly the contents from before; no deleted key comes back. *)
Theorem lsm_compact_crash thr thr' lim mult ops ops' names l (k j : nat) :
  0 < thr -> 0 < thr' -> 0 <= lim -> 4 * (blen ops + 1) + blen ops' < 2 ^ 63 -> Forall (lop_ok mult) ops -> Forall (lop_ok mult) ops' ->
  lsm_open_multi (empty_dir lim) [] thr mult = Some l ->
  let '(l1, d1, _) := lsm_run l (empty_dir lim) ops in
  lsm_mem l1 = [] ->
  let d2 := if decide (Z.of_nat k < blen (merged_image l1)) then compact_cut l1 d1 k else compact_done l1 d1 j in
  readdir d2 names ->
  exists l3, lsm_open_multi d2 names thr' mult = Some l3 /\
    answers_ok mult lim (2 * (blen ops + 1) + blen ops') (foldl lspec ∅ ops) ops' (lsm_run l3 d2 ops').2.
Proof.
  intros Ht Ht' Hl Hn Hops Hops' Ho. destruct (open_empty thr mult lim Ht Hl) as [Ho' Hen]. rewrite Ho' in Ho. injection Ho as <-.
  pose proof (blen_nonneg ops) as Hb1. pose proof (blen_nonneg ops') as Hb2.
  pose proof (run_ok ops 0 ∅ mult lim _ _ Hen ltac:(lia) Hops) as Hr. destruct (lsm_run _ _ ops) as [[l1 d1] xs]. destruct Hr as [Hen1 _].
  rewrite Z.add_0_l in Hen1. intros Hmem d2 Hrd.
  assert (H2 : exists l2, lsm_mem l2 = [] /\ engine (2 * (blen ops + 1)) (foldl lspec ∅ ops) mult lim l2 d2).
  { unfold d2. case_decide as Hk.
    - exists l1. split; [done|]. apply (engine_mono (blen ops)); [|lia]. by apply compact_cut_engine.
    - destruct (compact_done_engine (blen ops + 1) (foldl lspec ∅ ops) mult lim l1 d1 j) as (l2 & _ & Hm2 & Hen2); [|..|by exists l2].
      + apply (engine_mono (blen ops)); [done|lia].
      + pose proof (lo_seq _ _ (en_ok _ _ _ _ _ _ Hen1)). lia.
      + done.
      + lia. }
  destruct H2 as (l2 & Hm2 & Hen2).
  destruct (reopen_engine _ _ _ _ _ _ names thr' _ Hen2 ltac:(lia) Hrd ltac:(lia) eq_refl) as (l3 & Ho3 & _ & _ & Hen3).
  { intros g. rewrite (en_rep _ _ _ _ _ _ Hen2). unfold lsm_runs. rewrite Hm2, (en_multi _ _ _ _ _ _ Hen2). done. }
  exists l3. split; [done|]. pose proof (run_ok ops' _ _ _ _ _ _ Hen3 ltac:(lia) Hops') as Hr. destruct (lsm_run l3 d2 ops') as [[l4 d4] ys].
  by destruct Hr as [_ Hr].
Qed.

(** ** Concrete histories *)

Definition demo_ops : list lsm_op := [LPut 5 50; LPut 3 30; LPut 5 51; LDelete 3; LPut 9 90; LFlush].
Definition demo_lsm : LSM := mkLSM 2 false [] [] 1.

Lemma demo_ops_ok : Forall (lop_ok false) demo_ops.
Proof. repeat constructor; unfold is_i64; lia. Qed.

Lemma lsm_refines_witness :
  exists l, lsm_open_multi (empty_dir 4096) [] 2 false = Some l /\
    answers_ok false 4096 8 ∅ (demo_ops ++ [LCompact; LGet 3]) (lsm_run l (empty_dir 4096) (demo_ops ++ [LCompact; LGet 3])).2.
Proof.
  apply (lsm_refines 2 4096 false (demo_ops ++ [LCompact; LGet 3])); [lia|lia|by vm_compute|].
  apply Forall_app. split; [apply demo_ops_ok|]. repeat constructor.
Defined.

Lemma demo_readdir (m : gmap Z bytes) lim : readdir (mkDir m lim) (map_to_list m).*1.
Proof.
  split; [apply NoDup_fst_map_to_list|]. intros q. rewrite list_elem_of_fmap. split.
  - intros ([q' f] & -> & H%elem_of_map_to_list). simpl. by eexists.
  - intros [f Hf]. exists (q, f). split; [done|]. by apply elem_of_map_to_list.
Qed.

Definition demo_state : LSM * Dir * list lsm_res := lsm_run demo_lsm (empty_dir 4096) demo_ops.
Definition demo_l1 : LSM := demo_state.1.1.
Definition demo_d1 : Dir := demo_state.1.2.

Lemma lsm_durable_witness :
  let d2 := (lsm_flush demo_l1 demo_d1).1.2 in
  exists l3, lsm_open_multi d2 (map_to_list (files d2)).*1 7 false = Some l3 /\
    answers_ok false 4096 8 (foldl lspec ∅ demo_ops) [LGet 5] (lsm_run l3 d2 [LGet 5]).2.
Proof.
  assert (Ho : lsm_open_multi (empty_dir 4096) [] 2 false = Some demo_lsm) by (by vm_compute).
  pose proof (lsm_durable 2 7 4096 false demo_ops [LGet 5]) as H.
  assert (Hl : [LGet 5] = [LGet 5] /\ Forall (lop_ok false) [LGet 5]) by (split; [done|repeat constructor]).
  specialize (H (map_to_list (files (lsm_flush demo_l1 demo_d1).1.2)).*1 demo_lsm ltac:(lia) ltac:(lia) ltac:(lia) ltac:(by vm_compute) demo_ops_ok (proj2 Hl) Ho).
  change (lsm_run demo_lsm (empty_dir 4096) demo_ops) with demo_state in H. unfold demo_l1, demo_d1 in *.
  destruct demo_state as [[l1 d1] xs] eqn:E. cbn [fst snd] in *. assert (Hrc : (lsm_flush demo_l1 demo_d1).2 = 0) by (by vm_compute).
  unfold demo_l1, demo_d1 in Hrc. rewrite E in Hrc. cbn [fst snd] in Hrc. destruct (lsm_flush l1 d1) as [[l2 d2] rc]. cbn [fst snd] in *.
  destruct d2 as [m lim]. apply H; [done|apply demo_readdir].
Defined.

Lemma lsm_compact_crash_witness :
  let d2 := compact_done demo_l1 demo_d1 1 in
  exists l3, lsm_open_multi d2 (map_to_list (files d2)).*1 7 false = Some l3 /\
    answers_ok false 4096 15 (foldl lspec ∅ demo_ops) [LGet 3] (lsm_run l3 d2 [LGet 3]).2.
Proof.
  assert (Ho : lsm_open_multi (empty_dir 4096) [] 2 false = Some demo_lsm) by (by vm_compute).
  assert (Hmem : lsm_mem demo_l1 = []) by (by vm_compute).
  assert (Hk : ~ Z.of_nat 500 < blen (merged_image demo_l1)) by (by vm_compute).
  pose proof (lsm_compact_crash 2 7 4096 false demo_ops [LGet 3] (map_to_list (files (compact_done demo_l1 demo_d1 1))).*1 demo_lsm 500 1
    ltac:(lia) ltac:(lia) ltac:(lia) ltac:(by vm_compute) demo_ops_ok ltac:(repeat constructor) Ho) as H.
  change (lsm_run demo_lsm (empty_dir 4096) demo_ops) with demo_state in H. unfold demo_l1, demo_d1 in *.
  destruct demo_state as [[l1 d1] xs]. cbn [fst snd] in *. specialize (H Hmem). rewrite decide_False in H by done. cbn zeta in *.
  apply H. destruct (compact_done l1 d1 1) as [m lim]. apply demo_readdir.
Defined.
