(* ===== verification/Btree.v ===== *)
(** * The B+tree index (src/src/btree.c)

    The tree's operations read and write node pages through the buffer pool.  By
    [BufPool.bufpool_transparent] the pool behaves as the plain array of pages, so the
    model works on that array, each node page being the struct the code overlays on it
    (the live prefixes of its arrays).  A fetch that yields no page is NULL; where the
    code dereferences the result unchecked the operation has no defined result. *)
From stdpp Require Import sorting.
From S2P Require Import Prelude.

Definition BT_MAX_KEYS : Z := 8.

(** [is_leaf] selects the union's member; [next_leaf] is only used in leaves. *)
Inductive BTNode :=
| BLeaf (keys values : list Z) (next_leaf : Z)
| BInner (keys children : list Z).

(** [pages] holds the node pages 1, 2, ...; page 0 is the meta page with the root's number
    [meta]; [root] is the in-memory copy.  [room] bounds the pages the file can hold. *)
Record BTree := mkBT { pages : gmap Z BTNode; meta : Z; num_pages : Z; room : Z; root : Z }.

Definition fetch (bt : BTree) (pid : Z) : option BTNode := pages bt !! pid.
Definition store (bt : BTree) (pid : Z) (n : BTNode) : BTree :=
  mkBT (<[pid := n]> (pages bt)) (meta bt) (num_pages bt) (room bt) (root bt).

(** [bufpool_new_page]: the next page, or NULL when the file cannot grow. *)
Definition new_page (bt : BTree) : option (BTree * Z) :=
  if num_pages bt <? room bt then Some (mkBT (pages bt) (meta bt) (num_pages bt + 1) (room bt) (root bt), num_pages bt) else None.

Definition write_root (bt : BTree) (r : Z) : BTree := mkBT (pages bt) r (num_pages bt) (room bt) (root bt).
Definition set_root (bt : BTree) (r : Z) : BTree := mkBT (pages bt) (meta bt) (num_pages bt) (room bt) r.

(** A new index gets its meta page and an empty root leaf; otherwise the root is read
    from the meta page. *)
Definition btree_open (bt : BTree) : option BTree :=
  if num_pages bt =? 0 then
    '(bt, _) ← new_page bt;
    '(bt, root_pid) ← new_page bt;
    let bt := store bt root_pid (BLeaf [] [] 0) in
    Some (write_root (set_root bt root_pid) root_pid)
  else Some (set_root bt (meta bt)).

Definition btree_reload_root (bt : BTree) : BTree := set_root bt (meta bt).

(** ** Positions in a node *)

(** [while (i < num_keys && p keys[i]) i++] *)
Fixpoint count_while (p : Z -> bool) (keys : list Z) : nat :=
  match keys with
  | [] => 0
  | k :: r => if p k then S (count_while p r) else 0
  end.

(** Shifting the tail of an array up and storing at [i]. *)
Definition put_in {A} (i : nat) (x : A) (l : list A) : list A := take i l ++ x :: drop i l.

(** ** Insertion *)

(** What a call returns: -1, 0 without a split, or 1 with the separator and the new right page. *)
Inductive ins_res := IError | INone | ISplit (sep rpid : Z).

Definition leaf_split (bt : BTree) (pid : Z) (keys values : list Z) (next : Z) : option (BTree * ins_res) :=
  let left := (length keys / 2)%nat in
  '(bt, rpid) ← new_page bt;
  sep ← drop left keys !! 0%nat;
  let bt := store bt rpid (BLeaf (drop left keys) (drop left values) next) in
  Some (store bt pid (BLeaf (take left keys) (take left values) rpid), ISplit sep rpid).

Definition leaf_insert (bt : BTree) (pid : Z) (keys values : list Z) (next key val : Z) (allow_dup : bool) : option (BTree * ins_res) :=
  let i := count_while (fun k => k <? key) keys in
  if negb allow_dup && bool_decide (keys !! i = Some key) then
    Some (store bt pid (BLeaf keys (<[i := val]> values) next), INone)
  else
    let keys := put_in i key keys in
    let values := put_in i val values in
    if blen keys <=? BT_MAX_KEYS then Some (store bt pid (BLeaf keys values next), INone)
    else leaf_split bt pid keys values next.

Definition inner_split (bt : BTree) (pid : Z) (keys children : list Z) : option (BTree * ins_res) :=
  let mid := (length keys / 2)%nat in
  push ← keys !! mid;
  '(bt, rpid) ← new_page bt;
  let bt := store bt rpid (BInner (drop (mid + 1) keys) (drop (mid + 1) children)) in
  Some (store bt pid (BInner (take mid keys) (take (mid + 1) children)), ISplit push rpid).

(** [None]: a page could not be allocated and the NULL is dereferenced. *)
Fixpoint node_insert (fuel : nat) (bt : BTree) (pid key val : Z) (allow_dup : bool) : option (BTree * ins_res) :=
  match fuel with
  | O => None
  | S fuel =>
      match fetch bt pid with
      | None => Some (bt, IError)
      | Some (BLeaf keys values next) => leaf_insert bt pid keys values next key val allow_dup
      | Some (BInner keys children) =>
          let i := count_while (fun k => k <=? key) keys in
          child ← children !! i;
          '(bt, r) ← node_insert fuel bt child key val allow_dup;
          match r with
          | IError => Some (bt, IError)
          | INone => Some (bt, INone)
          | ISplit sep cr =>
              let keys := put_in i sep keys in
              let children := put_in (i + 1) cr children in
              if blen keys <=? BT_MAX_KEYS then Some (store bt pid (BInner keys children), INone)
              else inner_split bt pid keys children
          end
      end
  end.

(** No path is longer than the number of pages. *)
Definition bt_fuel (bt : BTree) : nat := S (Z.to_nat (num_pages bt)).

Definition insert_root (bt : BTree) (key val : Z) (allow_dup : bool) : option (BTree * Z) :=
  '(bt, r) ← node_insert (bt_fuel bt) bt (root bt) key val allow_dup;
  match r with
  | IError => Some (bt, -1)
  | INone => Some (bt, 0)
  | ISplit sep rpid =>
      '(bt, nr) ← new_page bt;
      let bt := store bt nr (BInner [sep] [root bt; rpid]) in
      Some (write_root (set_root bt nr) nr, 0)
  end.

Definition btree_insert (bt : BTree) (key val : Z) : option (BTree * Z) := insert_root bt key val false.
Definition btree_insert_dup (bt : BTree) (key val : Z) : option (BTree * Z) := insert_root bt key val true.

(** ** Descents: the child is chosen by the separators that satisfy [p] *)

Fixpoint descend (fuel : nat) (bt : BTree) (p : Z -> bool) (pid : Z) : option Z :=
  match fuel with
  | O => None
  | S fuel =>
      n ← fetch bt pid;
      match n with
      | BLeaf _ _ _ => Some pid
      | BInner keys children => child ← children !! count_while p keys; descend fuel bt p child
      end
  end.

(** ** Removing one entry *)

Inductive del_leaf := DNext | DStop | DFound (i : nat).

(** The loop over one leaf. *)
Fixpoint del_scan (keys values : list Z) (i : nat) (key val : Z) : del_leaf :=
  match keys, values with
  | k :: ks, v :: vs =>
      if k <? key then del_scan ks vs (S i) key val
      else if key <? k then DStop
      else if v =? val then DFound i
      else del_scan ks vs (S i) key val
  | _, _ => DNext
  end.

Fixpoint del_chain (fuel : nat) (bt : BTree) (pid key val : Z) : option (BTree * Z) :=
  match fuel with
  | O => None
  | S fuel =>
      if pid =? 0 then Some (bt, -1)
      else match fetch bt pid with
           | Some (BLeaf keys values next) =>
               match del_scan keys values 0 key val with
               | DFound i => Some (store bt pid (BLeaf (delete i keys) (delete i values) next), 0)
               | DStop => Some (bt, -1)
               | DNext => del_chain fuel bt next key val
               end
           | _ => Some (bt, -1)
           end
  end.

Definition btree_delete_val (bt : BTree) (key val : Z) : option (BTree * Z) :=
  match descend (bt_fuel bt) bt (fun k => k <? key) (root bt) with
  | Some pid => del_chain (bt_fuel bt) bt pid key val
  | None => Some (bt, -1)
  end.

(** ** Searches and scans *)

Fixpoint leaf_find (keys values : list Z) (key : Z) : option Z :=
  match keys, values with
  | k :: ks, v :: vs => if k =? key then Some v else leaf_find ks vs key
  | _, _ => None
  end.

Definition btree_search (bt : BTree) (key : Z) : option Z :=
  pid ← descend (bt_fuel bt) bt (fun k => k <=? key) (root bt);
  match fetch bt pid with
  | Some (BLeaf keys values _) => leaf_find keys values key
  | _ => None
  end.

(** How an entry is treated by a scan: skipped, visited, or the end of the scan. *)
Inductive scan_act := Skip | Visit | Stop.

Section Scan.
Context {C : Type} (visit : Z -> Z -> C -> C * Z) (act : Z -> scan_act).

(** The loop over one leaf: [inl] the context when the leaf is exhausted, [inr] when the
    scan ends with a return code. *)
Fixpoint visit_leaf (keys values : list Z) (ctx : C) : C + C * Z :=
  match keys, values with
  | k :: ks, v :: vs =>
      match act k with
      | Skip => visit_leaf ks vs ctx
      | Stop => inr (ctx, 0)
      | Visit => let '(ctx, r) := visit k v ctx in if r =? 0 then visit_leaf ks vs ctx else inr (ctx, r)
      end
  | _, _ => inl ctx
  end.

Fixpoint visit_chain (fuel : nat) (bt : BTree) (pid : Z) (ctx : C) : option (C * Z) :=
  match fuel with
  | O => None
  | S fuel =>
      if pid =? 0 then Some (ctx, 0)
      else match fetch bt pid with
           | Some (BLeaf keys values next) =>
               match visit_leaf keys values ctx with
               | inl ctx => visit_chain fuel bt next ctx
               | inr r => Some r
               end
           | _ => None
           end
  end.
End Scan.

Definition btree_scan {C} (bt : BTree) (visit : Z -> Z -> C -> C * Z) (ctx : C) : option (C * Z) :=
  pid ← descend (bt_fuel bt) bt (fun _ => false) (root bt);
  visit_chain visit (fun _ => Visit) (bt_fuel bt) bt pid ctx.

Definition btree_seek_scan {C} (bt : BTree) (start : Z) (visit : Z -> Z -> C -> C * Z) (ctx : C) : option (C * Z) :=
  pid ← descend (bt_fuel bt) bt (fun k => k <=? start) (root bt);
  visit_chain visit (fun k => if k <? start then Skip else Visit) (bt_fuel bt) bt pid ctx.

Definition btree_find_all {C} (bt : BTree) (key : Z) (visit : Z -> Z -> C -> C * Z) (ctx : C) : option (C * Z) :=
  pid ← descend (bt_fuel bt) bt (fun k => k <? key) (root bt);
  visit_chain visit (fun k => if k <? key then Skip else if key <? k then Stop else Visit) (bt_fuel bt) bt pid ctx.

(** ** Trees of height [h]: the pages of a balanced tree *)

Fixpoint tree (h : nat) : Type :=
  match h with
  | O => (Z * list (Z * Z))%type                        (* a leaf page and its entries *)
  | S h => (Z * list Z * list (tree h))%type            (* page, separators, children *)
  end.

Definition tpid {h} : tree h -> Z := match h with O => fun t => t.1 | S _ => fun t => t.1.1 end.

Fixpoint leaves {h} : tree h -> list (Z * list (Z * Z)) :=
  match h with
  | O => fun t => [t]
  | S h => fun t => mjoin (leaves <$> t.2)
  end.

Definition entries {h} (t : tree h) : list (Z * Z) := mjoin ((leaves t).*2).

Fixpoint tpids {h} : tree h -> list Z :=
  match h with
  | O => fun t => [t.1]
  | S h => fun t => t.1.1 :: mjoin (tpids <$> t.2)
  end.

(** The leftmost leaf's page. *)
Definition first_leaf {h} (t : tree h) : Z := default 0 (fst <$> head (leaves t)).

Definition head_leaf {T} (first : T -> Z) (nxt : Z) (cs : list T) : Z := match cs with [] => nxt | c :: _ => first c end.

(** The leaves of a list of trees are linked: each one's last leaf points to the first
    leaf of the next, that of the last to [nxt]. *)
Fixpoint chain {T} (P : Z -> T -> Prop) (first : T -> Z) (nxt : Z) (cs : list T) : Prop :=
  match cs with
  | [] => True
  | c :: r => P (head_leaf first nxt r) c /\ chain P first nxt r
  end.

(** The pages hold the tree; [nxt] is the leaf after its last one. *)
Fixpoint rep (m : gmap Z BTNode) {h} : Z -> tree h -> Prop :=
  match h with
  | O => fun nxt t => m !! t.1 = Some (BLeaf t.2.*1 t.2.*2 nxt)
  | S h => fun nxt t => m !! t.1.1 = Some (BInner t.1.2 (tpid <$> t.2)) /\ chain (rep m) first_leaf nxt t.2
  end.

(** In a tree with unique keys the keys left of a separator are strictly smaller. *)
Definition kle (u : bool) (a b : Z) : Prop := if u then a < b else a <= b.

(** Separators [ks] between the trees [cs], all within [lo, hi]. *)
Fixpoint kids {T} (P : Z -> Z -> T -> Prop) (lo hi : Z) (ks : list Z) (cs : list T) : Prop :=
  match ks, cs with
  | [], [c] => P lo hi c
  | k :: ks, c :: cs => lo <= k <= hi /\ P lo k c /\ kids P k hi ks cs
  | _, _ => False
  end.

Fixpoint ordered (u : bool) {h} : Z -> Z -> tree h -> Prop :=
  match h with
  | O => fun lo hi t => Forall (fun e => lo <= e.1 /\ kle u e.1 hi) t.2 /\ StronglySorted (fun a b => kle u a.1 b.1) t.2 /\ blen t.2 <= BT_MAX_KEYS
  | S h => fun lo hi t => blen t.1.2 <= BT_MAX_KEYS /\ kids (ordered u) lo hi t.1.2 t.2
  end.

(** ** Lists of trees *)

Lemma chain_app {T} (Q : Z -> T -> Prop) first nxt a b : chain Q first nxt (a ++ b) <-> chain Q first (head_leaf first nxt b) a /\ chain Q first nxt b.
Proof.
  induction a as [|c a IH]; simpl; [tauto|]. rewrite IH.
  assert (head_leaf first nxt (a ++ b) = head_leaf first (head_leaf first nxt b) a) as -> by (by destruct a). tauto.
Qed.

Section Forests.
Context {T : Type} (P : Z -> Z -> T -> Prop).

Lemma kids_length lo hi ks cs : kids P lo hi ks cs -> length cs = S (length ks).
Proof. revert lo cs. induction ks as [|k ks IH]; intros lo [|c cs]; simpl; try done; [by destruct cs|]. intros (_ & _ & H). f_equal. by eapply IH. Qed.

Lemma kids_nonempty lo hi ks cs : kids P lo hi ks cs -> cs <> [].
Proof. intros H%kids_length. by destruct cs. Qed.

(** Cutting at a separator. *)
Lemma kids_cut lo hi k ks1 ks2 cs1 cs2 :
  length cs1 = S (length ks1) ->
  kids P lo hi (ks1 ++ k :: ks2) (cs1 ++ cs2) <-> (lo <= k <= hi) /\ kids P lo k ks1 cs1 /\ kids P k hi ks2 cs2.
Proof.
  revert lo cs1. induction ks1 as [|k1 ks1 IH]; intros lo [|c cs1] Hlen; simpl in *; try lia.
  - destruct cs1; [|simpl in Hlen; lia]. done.
  - rewrite IH by lia. split.
    + intros (H1 & H2 & H3 & H4 & H5). split; [lia|]. split; [|done]. split; [lia|]. done.
    + intros (H1 & (H2 & H3 & H4) & H5). split; [lia|]. split; [done|]. split; [lia|]. done.
Qed.

(** The child chosen by a condition on the separators, the bounds it has, and that any
    run of trees with these bounds can take its place. *)
Record chosen (lo hi : Z) (p : Z -> bool) (ks : list Z) (cs : list T) (A : list T) (c : T) (B : list T) (mid hc : Z) : Prop := {
  ch_split : cs = A ++ c :: B;
  ch_len : length A = count_while p ks;
  ch_here : P mid hc c;
  ch_mid : (A = [] /\ mid = lo) \/ p mid = true;
  ch_hi : (B = [] /\ hc = hi) \/ p hc = false;
  ch_bounds : lo <= mid /\ hc <= hi;
  ch_left : Forall (fun a => exists l r, P l r a /\ lo <= l /\ r <= mid) A;
  ch_right : Forall (fun b => exists l r, P l r b /\ hc <= l /\ r <= hi) B;
  ch_put : forall ks' cs', kids P mid hc ks' cs' ->
    kids P lo hi (take (length A) ks ++ ks' ++ drop (length A) ks) (A ++ cs' ++ B) }.

Lemma kids_all lo hi ks cs : kids P lo hi ks cs -> Forall (fun c => exists l r, P l r c /\ lo <= l /\ r <= hi) cs.
Proof.
  revert lo cs. induction ks as [|k ks IH]; intros lo [|c cs]; simpl; try done.
  - destruct cs; [|done]. intros H. constructor; [|done]. exists lo, hi. split; [done|lia].
  - intros (H1 & H2 & H3). constructor; [exists lo, k; split; [done|lia]|]. eapply Forall_impl; [|by apply (IH k)].
    intros c' (l & r & H & Hl & Hr). exists l, r. split; [done|lia].
Qed.

Lemma kids_choose lo hi p ks cs : kids P lo hi ks cs -> exists A c B mid hc, chosen lo hi p ks cs A c B mid hc.
Proof.
  revert lo cs. induction ks as [|k ks IH]; intros lo [|c cs] H; simpl in H; try done.
  - destruct cs; [|done]. exists [], c, [], lo, hi. split; try done; try (by left); try lia; try constructor.
    intros ks' cs' Hk. simpl. by rewrite !app_nil_r.
  - destruct H as (H1 & H2 & H3). destruct (p k) eqn:Ep.
    + destruct (IH k cs H3) as (A & c1 & B & mid & hc & [C1 C2 C3 C4 C5 C6 C7 C8 C9]).
      exists (c :: A), c1, B, mid, hc. split; simpl.
      * by rewrite C1.
      * by rewrite Ep, C2.
      * done.
      * right. destruct C4 as [[_ ->]|]; done.
      * done.
      * lia.
      * constructor; [exists lo, k; split; [done|lia]|]. eapply Forall_impl; [|exact C7]. intros a (l & r & Ha & Hl & Hr). exists l, r. split; [done|lia].
      * done.
      * intros ks' cs' Hk. split; [done|]. split; [done|]. by apply C9.
    + exists [], c, cs, lo, k. split; simpl.
      * done. * by rewrite Ep. * done. * by left. * by right. * lia. * constructor. * by apply (kids_all k hi ks).
      * intros ks' cs' Hk. apply kids_cut; [by apply kids_length in Hk|]. split; [lia|]. done.
Qed.
End Forests.

(** ** Entries *)

Lemma kle_trans u a b c : kle u a b -> kle u b c -> kle u a c.
Proof. unfold kle. destruct u; lia. Qed.
Lemma kle_le u a b : kle u a b -> a <= b.
Proof. unfold kle. destruct u; lia. Qed.
Lemma kle_le_trans u a b c : kle u a b -> b <= c -> kle u a c.
Proof. unfold kle. destruct u; lia. Qed.
Lemma le_kle_trans u a b c : a <= b -> kle u b c -> kle u a c.
Proof. unfold kle. destruct u; lia. Qed.

Definition fentries {h} (cs : list (tree h)) : list (Z * Z) := mjoin (entries <$> cs).

Lemma entries_node h (t : tree (S h)) : entries t = fentries t.2.
Proof.
  unfold fentries, entries. simpl. destruct t as [[pid ks] cs]. simpl. induction cs as [|c cs IH]; [done|].
  cbn [fmap list_fmap mjoin list_join]. rewrite fmap_app, join_app. f_equal. exact IH.
Qed.

Lemma fentries_app {h} (a b : list (tree h)) : fentries (a ++ b) = fentries a ++ fentries b.
Proof. unfold fentries. by rewrite fmap_app, join_app. Qed.

Lemma ordered_entries u h : forall lo hi (t : tree h), ordered u lo hi t -> Forall (fun e => lo <= e.1 /\ kle u e.1 hi) (entries t).
Proof.
  induction h as [|h IH]; intros lo hi t.
  - intros [H _]. destruct t as [pid es]. unfold entries. simpl. by rewrite app_nil_r.
  - rewrite entries_node. intros [_ Hk]. apply kids_all in Hk. unfold fentries. induction Hk as [|c cs (l & r & Hc & Hl & Hr) _ IH']; [constructor|].
    apply Forall_app. split; [|done]. eapply Forall_impl; [|by apply (IH l r)]. intros e [H1 H2]. split; [lia|by eapply kle_le_trans].
Qed.

Lemma ordered_mono u h : forall lo hi lo' hi' (t : tree h), ordered u lo hi t -> lo' <= lo -> hi <= hi' -> ordered u lo' hi' t.
Proof.
  induction h as [|h IH]; intros lo hi lo' hi' t.
  - intros (H1 & H2 & H3) Hl Hh. split; [|done]. eapply Forall_impl; [|exact H1]. intros e [? ?]. split; [lia|by eapply kle_le_trans].
  - intros [Hb Hk] Hl Hh. split; [done|]. destruct t as [[pid ks] cs]. simpl in *. clear Hb. revert lo lo' cs Hk Hl.
    induction ks as [|k ks IHk]; intros lo lo' [|c cs] Hk Hl; simpl in *; try done.
    + destruct cs; [|done]. by eapply IH.
    + destruct Hk as (H1 & H2 & H3). split; [lia|]. split; [eapply IH; [exact H2|lia|lia]|]. eapply IHk; [exact H3|lia].
Qed.

(** ** Pages of a tree *)

Definition fpids {h} (cs : list (tree h)) : list Z := mjoin (tpids <$> cs).

Lemma fpids_app {h} (a b : list (tree h)) : fpids (a ++ b) = fpids a ++ fpids b.
Proof. unfold fpids. by rewrite fmap_app, join_app. Qed.

Lemma tpid_in h (t : tree h) : tpid t ∈ tpids t.
Proof. destruct h; simpl; constructor. Qed.

Lemma leaves_nonempty u h : forall lo hi (t : tree h), ordered u lo hi t -> leaves t <> [].
Proof.
  induction h as [|h IH]; intros lo hi t; [done|]. intros [_ Hk]. destruct t as [[pid ks] cs]. simpl in *.
  destruct ks as [|k ks], cs as [|c cs]; simpl in Hk; try done.
  - destruct cs; [|done]. apply IH in Hk. simpl. destruct (leaves c); done.
  - destruct Hk as (_ & Hc & _). apply IH in Hc. simpl. destruct (leaves c); done.
Qed.

Lemma first_leaf_node u h lo hi pid ks (c : tree h) cs : ordered u lo hi c -> first_leaf ((pid, ks, c :: cs) : tree (S h)) = first_leaf c.
Proof. intros H%leaves_nonempty. unfold first_leaf. simpl. by destruct (leaves c). Qed.

Lemma leaf_pids h : forall (t : tree h) l, l ∈ leaves t -> l.1 ∈ tpids t.
Proof.
  induction h as [|h IH]; intros t l; simpl.
  - intros ->%list_elem_of_singleton. constructor.
  - intros (x & Hx & (c & -> & Hc)%list_elem_of_fmap)%list_elem_of_join. right. apply list_elem_of_join. exists (tpids c). split; [by apply IH|].
    by apply list_elem_of_fmap_2.
Qed.

Lemma chain_impl {T} (Q Q' : Z -> T -> Prop) first nxt cs :
  (forall n c, c ∈ cs -> Q n c -> Q' n c) -> chain Q first nxt cs -> chain Q' first nxt cs.
Proof.
  intros H. induction cs as [|c cs IH]; [done|]. simpl. intros [H1 H2]. split; [apply H; [constructor|done]|]. apply IH; [|done].
  intros n c' Hc. apply H. by constructor.
Qed.

Lemma fpids_in {h} (c : tree h) cs p : c ∈ cs -> p ∈ tpids c -> p ∈ fpids cs.
Proof. intros Hc Hp. apply list_elem_of_join. exists (tpids c). split; [done|by apply list_elem_of_fmap_2]. Qed.

(** Pages outside the tree do not matter. *)
Lemma rep_frame h : forall m m' nxt (t : tree h), rep m nxt t -> (forall p, p ∈ tpids t -> m' !! p = m !! p) -> rep m' nxt t.
Proof.
  induction h as [|h IH]; intros m m' nxt t; simpl.
  - intros H Hf. rewrite Hf; [done|constructor].
  - intros [H1 H2] Hf. split; [rewrite Hf; [done|constructor]|]. eapply chain_impl; [|exact H2]. intros n c Hc Hr. eapply IH; [exact Hr|].
    intros p Hp. apply Hf. right. by eapply fpids_in.
Qed.

Lemma chain_frame {h} m m' nxt (cs : list (tree h)) :
  chain (rep m) first_leaf nxt cs -> (forall p, p ∈ fpids cs -> m' !! p = m !! p) -> chain (rep m') first_leaf nxt cs.
Proof.
  intros H Hf. eapply chain_impl; [|exact H]. intros n c Hc Hr. eapply rep_frame; [exact Hr|]. intros p Hp. apply Hf. by eapply fpids_in.
Qed.

(** ** What an insertion does to the entries *)

Definition inserted (u : bool) (key val : Z) (L L' : list (Z * Z)) : Prop :=
  exists L1 L2, L' = L1 ++ (key, val) :: L2 /\ Forall (fun e => kle u e.1 key) L1 /\ Forall (fun e => kle u key e.1) L2 /\
    (L = L1 ++ L2 \/ u = true /\ exists v0, L = L1 ++ (key, v0) :: L2).

Lemma inserted_context u key val L L' A B :
  inserted u key val L L' -> Forall (fun e => kle u e.1 key) A -> Forall (fun e => kle u key e.1) B -> inserted u key val (A ++ L ++ B) (A ++ L' ++ B).
Proof.
  intros (L1 & L2 & -> & H1 & H2 & H3) HA HB. exists (A ++ L1), (L2 ++ B). rewrite <- !app_assoc. split; [done|].
  split; [by apply Forall_app|]. split; [by apply Forall_app|]. destruct H3 as [->|[-> [v0 ->]]]; [left|right; split; [done|exists v0]]; by rewrite <- ?app_assoc.
Qed.

Lemma sorted_app_iff {A} (R : A -> A -> Prop) (a b : list A) :
  StronglySorted R (a ++ b) <-> StronglySorted R a /\ StronglySorted R b /\ forall x y, x ∈ a -> y ∈ b -> R x y.
Proof.
  induction a as [|x a IH]; simpl.
  { split; [intros H; split; [constructor|]; split; [done|]; intros ? ? Hx; by apply elem_of_nil in Hx|naive_solver]. }
  split.
  - intros H. inversion_clear H as [|? ? Hs Hx]. apply IH in Hs as (Ha & Hb & Hab). apply Forall_app in Hx as [Hxa Hxb].
    split; [by constructor|]. split; [done|]. intros y z [->|Hy]%elem_of_cons Hz; [|auto]. rewrite list.Forall_forall in Hxb. auto.
  - intros (Ha & Hb & Hab). inversion_clear Ha as [|? ? Hs Hx]. constructor.
    + apply IH. split; [done|]. split; [done|]. intros y z Hy Hz. apply Hab; [by constructor|done].
    + apply Forall_app. split; [done|]. apply list.Forall_forall. intros y Hy. apply Hab; [constructor|done].
Qed.

Lemma inserted_sorted u key val L L' :
  inserted u key val L L' -> StronglySorted (fun a b => kle u a.1 b.1) L -> StronglySorted (fun a b => kle u a.1 b.1) L'.
Proof.
  intros (L1 & L2 & -> & H1 & H2 & H3) Hs. rewrite list.Forall_forall in H1, H2.
  assert (Hp : StronglySorted (fun a b => kle u a.1 b.1) L1 /\ StronglySorted (fun a b => kle u a.1 b.1) L2).
  { destruct H3 as [->|[-> [v0 ->]]]; apply sorted_app_iff in Hs as (Ha & Hb & _); [done|]. split; [done|]. by inversion_clear Hb. }
  destruct Hp as [Ha Hb]. apply sorted_app_iff. split; [done|]. split; [constructor; [done|]; by apply list.Forall_forall|].
  intros x y Hx [->|Hy]%elem_of_cons; [by apply H1|]. eapply kle_trans; [by apply H1|by apply H2].
Qed.

(** ** Leaves *)

Lemma count_while_split (p : Z -> bool) ks :
  Forall (fun k => p k = true) (take (count_while p ks) ks) /\ (forall k, ks !! count_while p ks = Some k -> p k = false) /\ (count_while p ks <= length ks)%nat.
Proof.
  induction ks as [|k ks (IH1 & IH2 & IH3)]; simpl; [split; [constructor|]; split; [done|lia]|]. destruct (p k) eqn:E; simpl.
  - split; [by constructor|]. split; [done|lia].
  - split; [constructor|]. split; [intros k' [= <-]; done|lia].
Qed.

Lemma put_in_fst i (k v : Z) (es : list (Z * Z)) : put_in i k es.*1 = (put_in i (k, v) es).*1 /\ put_in i v es.*2 = (put_in i (k, v) es).*2.
Proof. unfold put_in. by rewrite !fmap_app, !fmap_cons, !fmap_take, !fmap_drop. Qed.

Lemma length_put_in {A} i (x : A) l : length (put_in i x l) = S (length l).
Proof. unfold put_in. rewrite length_app. simpl. rewrite length_take, length_drop. lia. Qed.

(** The leaf-level step on the list of entries. *)
Lemma leaf_inserted u key val es :
  StronglySorted (fun a b => kle u a.1 b.1) es ->
  let i := count_while (fun k => k <? key) es.*1 in
  if negb (negb u) && bool_decide (es.*1 !! i = Some key) then inserted u key val es (<[i := (key, val)]> es)
  else inserted u key val es (put_in i (key, val) es).
Proof.
  intros Hs i. destruct (count_while_split (fun k => k <? key) es.*1) as (H1 & H2 & H3). fold i in H1, H2, H3. rewrite length_fmap in H3.
  rewrite <- fmap_take in H1. apply Forall_fmap in H1.
  assert (HL : Forall (fun e : Z * Z => kle u e.1 key) (take i es)).
  { eapply Forall_impl; [|exact H1]. intros e He. simpl in He. apply Z.ltb_lt in He. unfold kle. destruct u; lia. }
  rewrite list_lookup_fmap. setoid_rewrite list_lookup_fmap in H2.
  rewrite <- (take_drop i es) in Hs. apply sorted_app_iff in Hs as (_ & Hs & _). rewrite negb_involutive.
  destruct (es !! i) as [[k0 v0]|] eqn:E; simpl.
  - specialize (H2 k0 eq_refl). simpl in H2. apply Z.ltb_ge in H2. rewrite (drop_S es (k0, v0) i E) in Hs. inversion_clear Hs as [|? ? Hs' Hx].
    case_bool_decide as Hk; [injection Hk as ->|]; destruct u; simpl.
    + exists (take i es), (drop (S i) es). split; [by apply insert_take_drop; eapply lookup_lt_Some|]. split; [done|]. split; [exact Hx|].
      right. split; [done|]. exists v0. symmetry. by apply take_drop_middle.
    + exists (take i es), (drop i es). split; [done|]. split; [done|]. rewrite (drop_S es (key, v0) i E).
      split; [constructor; [simpl; lia|exact Hx]|]. left. rewrite <- (drop_S es (key, v0) i E). by rewrite take_drop.
    + exists (take i es), (drop i es). split; [done|]. split; [done|]. rewrite (drop_S es (k0, v0) i E).
      assert (key < k0) by (assert (k0 <> key) by congruence; lia).
      split; [constructor; [simpl; lia|]|left; rewrite <- (drop_S es (k0, v0) i E); by rewrite take_drop].
      eapply Forall_impl; [|exact Hx]. intros e He. simpl in *. lia.
    + exists (take i es), (drop i es). split; [done|]. split; [done|]. rewrite (drop_S es (k0, v0) i E).
      split; [constructor; [simpl; lia|]|left; rewrite <- (drop_S es (k0, v0) i E); by rewrite take_drop].
      eapply Forall_impl; [|exact Hx]. intros e He. simpl in *. lia.
  - rewrite andb_false_r. exists (take i es), (drop i es). split; [done|]. split; [done|].
    apply lookup_ge_None in E. rewrite (drop_ge es) by lia. split; [constructor|]. left. rewrite app_nil_r. symmetry. by apply take_ge.
Qed.

(** ** The contract of [node_insert] *)

Definition seps (r : ins_res) : list Z := match r with ISplit s _ => [s] | _ => [] end.
Definition rights (r : ins_res) : list Z := match r with ISplit _ p => [p] | _ => [] end.

(** The subtree [t] has become the one or two trees [ts]. *)
Record ins_ok (u : bool) {h} (bt bt' : BTree) (t : tree h) (nxt lo hi key val : Z) (r : ins_res) (ts : list (tree h)) : Prop := {
  io_err : r <> IError;
  io_kids : kids (ordered u) lo hi (seps r) ts;
  io_chain : chain (rep (pages bt')) first_leaf nxt ts;
  io_pids : tpid <$> ts = tpid t :: rights r;
  io_nodup : NoDup (fpids ts);
  io_fresh : forall p, p ∈ fpids ts -> p ∈ tpids t \/ num_pages bt <= p < num_pages bt';
  io_first : head_leaf first_leaf nxt ts = first_leaf t;
  io_ins : inserted u key val (entries t) (fentries ts);
  io_frame : forall p, p ∉ tpids t -> p < num_pages bt -> pages bt' !! p = pages bt !! p;
  io_same : meta bt' = meta bt /\ room bt' = room bt /\ root bt' = root bt;
  io_grow : num_pages bt <= num_pages bt' <= num_pages bt + Z.of_nat (S h) }.

Lemma entries_leaf (t : tree 0) : entries t = t.2.
Proof. unfold entries. simpl. apply app_nil_r. Qed.

Lemma inserted_bounds u key val L L' lo hi :
  inserted u key val L L' -> Forall (fun e => lo <= e.1 /\ kle u e.1 hi) L -> lo <= key -> kle u key hi -> Forall (fun e => lo <= e.1 /\ kle u e.1 hi) L'.
Proof.
  intros (L1 & L2 & -> & _ & _ & H) Hb Hlo Hhi. apply Forall_app.
  destruct H as [->|[-> [v0 ->]]]; apply Forall_app in Hb as [Hb1 Hb2]; (split; [done|]); constructor; try done. by inversion_clear Hb2.
Qed.

(** Storing the new entries in the leaf's page. *)
Lemma leaf_store_ok u bt (t : tree 0) nxt lo hi key val es :
  inserted u key val t.2 es -> ordered u lo hi t -> lo <= key -> kle u key hi -> blen es <= BT_MAX_KEYS ->
  ins_ok u bt (store bt t.1 (BLeaf es.*1 es.*2 nxt)) t nxt lo hi key val INone [((t.1, es) : tree 0)].
Proof.
  intros Hi (Hb & Hs & _) Hlo Hhi Hlen. split; simpl; try done.
  - split; [by eapply inserted_bounds|]. split; [by eapply inserted_sorted|done].
  - split; [|done]. by rewrite lookup_insert_eq.
  - apply NoDup_singleton.
  - intros p. intros ->%list_elem_of_singleton. left. constructor.
  - rewrite entries_leaf. unfold fentries. simpl. rewrite entries_leaf, app_nil_r. done.
  - intros p Hp Hlt. rewrite lookup_insert_ne; [done|]. set_solver.
  - lia.
Qed.

Lemma leaf_split_ok u bt (t : tree 0) nxt lo hi key val es :
  inserted u key val t.2 es -> ordered u lo hi t -> lo <= key -> kle u key hi -> blen es = BT_MAX_KEYS + 1 ->
  t.1 < num_pages bt -> num_pages bt < room bt ->
  exists bt' r ts, leaf_split bt t.1 es.*1 es.*2 nxt = Some (bt', r) /\ ins_ok u bt bt' t nxt lo hi key val r ts.
Proof.
  intros Hi (Hb & Hs & _) Hlo Hhi Hlen Hpid Hroom. unfold leaf_split, new_page. destruct (Z.ltb_spec (num_pages bt) (room bt)); [|lia].
  rewrite length_fmap. assert (Hl : length es = 9%nat) by (unfold blen, BT_MAX_KEYS in Hlen; lia). rewrite Hl. change (9 / 2)%nat with 4%nat.
  rewrite lookup_drop. change (4 + 0)%nat with 4%nat. rewrite list_lookup_fmap.
  destruct (es !! 4%nat) as [[sep sv]|] eqn:E4; [|apply lookup_ge_None in E4; lia]. simpl.
  pose proof (inserted_bounds _ _ _ _ _ _ _ Hi Hb Hlo Hhi) as Hb'. pose proof (inserted_sorted _ _ _ _ _ Hi Hs) as Hs'.
  rewrite <- (take_drop 4 es) in Hb', Hs'. apply Forall_app in Hb' as [Hb1 Hb2]. apply sorted_app_iff in Hs' as (Hs1 & Hs2 & Hs12).
  set (rp := num_pages bt). eexists _, _, [((t.1, take 4 es) : tree 0); ((rp, drop 4 es) : tree 0)]. split; [done|].
  assert (Hne : rp <> t.1) by (unfold rp; lia). rewrite <- !fmap_take, <- !fmap_drop.
  assert (Hsb : lo <= sep /\ kle u sep hi).
  { rewrite (drop_S es (sep, sv) 4 E4) in Hb2. inversion_clear Hb2 as [|? ? Hx _]. done. }
  split; simpl; try done.
  - split; [split; [lia|apply (kle_le u), Hsb]|]. rewrite (drop_S es (sep, sv) 4 E4) in *. inversion_clear Hs2 as [|? ? Hs2' Hx]. split; [|split].
    + split; [|split; [done|unfold blen; rewrite length_take; unfold BT_MAX_KEYS; lia]].
      apply list.Forall_forall. intros e He. rewrite list.Forall_forall in Hb1. split; [by apply Hb1|]. apply (Hs12 e (sep, sv) He). constructor.
    + constructor; [simpl; split; [lia|apply Hsb]|]. inversion_clear Hb2 as [|? ? _ Hb3].
      rewrite list.Forall_forall in Hb3, Hx. apply list.Forall_forall. intros e He. split; [|by apply Hb3]. apply (kle_le u). by apply (Hx e).
    + split; [by constructor|]. unfold blen. simpl. rewrite length_drop. unfold BT_MAX_KEYS. lia.
  - split; [rewrite lookup_insert_eq; done|]. split; [|done]. rewrite lookup_insert_ne by done. by rewrite lookup_insert_eq.
  - change (NoDup [t.1; rp]). apply list.NoDup_cons. split; [set_solver|apply NoDup_singleton].
  - intros p Hp. change (p ∈ [t.1; rp]) in Hp. rewrite !elem_of_cons in Hp. destruct Hp as [->|[->|Hx]]; [left; constructor|right; unfold rp; simpl; lia|by apply elem_of_nil in Hx].
  - rewrite entries_leaf. unfold fentries. simpl. rewrite !entries_leaf, app_nil_r. simpl. by rewrite take_drop.
  - intros p Hp Hlt. rewrite lookup_insert_ne by set_solver. rewrite lookup_insert_ne; [done|]. unfold rp. lia.
  - lia.
Qed.

(** ** Inner nodes *)

(** The children after the recursive call: [bt1] is the state it left. *)
Record spliced (u : bool) {h} (bt bt1 : BTree) (t : tree (S h)) (nxt lo hi key val : Z) (ks : list Z) (cs : list (tree h)) : Prop := {
  sp_kids : kids (ordered u) lo hi ks cs;
  sp_chain : chain (rep (pages bt1)) first_leaf nxt cs;
  sp_nodup : NoDup (tpid t :: fpids cs);
  sp_fresh : forall p, p ∈ fpids cs -> p ∈ tpids t \/ num_pages bt <= p < num_pages bt1;
  sp_first : head_leaf first_leaf nxt cs = first_leaf t;
  sp_ins : inserted u key val (entries t) (fentries cs);
  sp_frame : forall p, p ∉ tpids t -> p < num_pages bt -> pages bt1 !! p = pages bt !! p;
  sp_same : meta bt1 = meta bt /\ room bt1 = room bt /\ root bt1 = root bt;
  sp_grow : num_pages bt <= num_pages bt1 <= num_pages bt + Z.of_nat (S h);
  sp_old : forall p, p ∈ tpids t -> p < num_pages bt }.

Lemma head_leaf_node u {h} lo hi nxt pid ks (cs : list (tree h)) ks' :
  kids (ordered u) lo hi ks' cs -> first_leaf ((pid, ks, cs) : tree (S h)) = head_leaf first_leaf nxt cs.
Proof.
  intros H. destruct cs as [|c cs]; [by apply kids_nonempty in H|]. simpl. destruct ks' as [|k ks']; simpl in H.
  - destruct cs; [|done]. by eapply first_leaf_node.
  - destruct H as (_ & H & _). by eapply first_leaf_node.
Qed.

Lemma elem_tpids_node {h} (t : tree (S h)) p : p ∈ tpids t <-> p = tpid t \/ p ∈ fpids t.2.
Proof. simpl. unfold fpids. by rewrite elem_of_cons. Qed.

(** The node keeps its page, with the new separators and children in it. *)
Lemma inner_keep_ok u {h} bt bt1 bt' (t : tree (S h)) nxt lo hi key val ks cs :
  spliced u bt bt1 t nxt lo hi key val ks cs -> blen ks <= BT_MAX_KEYS ->
  pages bt' !! tpid t = Some (BInner ks (tpid <$> cs)) -> (forall p, p <> tpid t -> pages bt' !! p = pages bt1 !! p) ->
  num_pages bt' = num_pages bt1 -> meta bt' = meta bt1 /\ room bt' = room bt1 /\ root bt' = root bt1 ->
  ins_ok u bt bt' t nxt lo hi key val INone [((tpid t, ks, cs) : tree (S h))].
Proof.
  intros [S1 S2 S3 S4 S5 S6 S7 S8 S9 S10] Hlen Hpg Hother Hnp (Hm & Hr & Hrt). apply list.NoDup_cons in S3 as [S3a S3b].
  split; try done.
  - split; [|done]. split; [exact Hpg|]. simpl. eapply chain_frame; [exact S2|]. intros p Hp. apply Hother. intros ->. done.
  - unfold fpids. simpl. rewrite app_nil_r. apply list.NoDup_cons. done.
  - intros p. unfold fpids. simpl. rewrite app_nil_r. intros [->|Hp]%elem_of_cons; [left; apply (tpid_in (S h) t)|]. rewrite Hnp. by apply S4.
  - simpl. rewrite <- S5. by eapply head_leaf_node.
  - unfold fentries. cbn [fmap list_fmap mjoin list_join]. rewrite app_nil_r, (entries_node h (tpid t, ks, cs)). exact S6.
  - intros p Hp Hlt. rewrite Hother; [by apply S7|]. intros ->. apply Hp, (tpid_in (S h) t).
  - destruct S8 as (? & ? & ?). repeat split; congruence.
  - rewrite Hnp. lia.
Qed.

Lemma inner_split_ok u {h} bt bt1 (t : tree (S h)) nxt lo hi key val ks cs :
  spliced u bt bt1 t nxt lo hi key val ks cs -> blen ks = BT_MAX_KEYS + 1 -> num_pages bt1 < room bt1 ->
  exists bt' r ts, inner_split bt1 (tpid t) ks (tpid <$> cs) = Some (bt', r) /\ ins_ok u bt bt' t nxt lo hi key val r ts.
Proof.
  intros [S1 S2 S3 S4 S5 S6 S7 S8 S9 S10] Hlen Hroom. apply list.NoDup_cons in S3 as [S3a S3b].
  assert (Hl : length ks = 9%nat) by (unfold blen, BT_MAX_KEYS in Hlen; lia).
  assert (Hlc : length cs = 10%nat) by (apply kids_length in S1; lia).
  unfold inner_split, new_page. rewrite Hl. change (9 / 2)%nat with 4%nat. change (4 + 1)%nat with 5%nat.
  destruct (ks !! 4%nat) as [push|] eqn:E; [|apply lookup_ge_None in E; lia]. destruct (Z.ltb_spec (num_pages bt1) (room bt1)); [|lia]. simpl.
  set (rp := num_pages bt1). rewrite <- (take_drop_middle ks 4 push E) in S1. rewrite <- (take_drop 5 cs) in S1.
  apply kids_cut in S1 as (Hpush & K1 & K2); [|rewrite !length_take; lia].
  rewrite <- (take_drop 5 cs) in S2. apply chain_app in S2 as [C1 C2].
  assert (Hrp : rp ∉ fpids cs /\ rp <> tpid t).
  { pose proof (S10 _ (tpid_in (S h) t)). split; [|unfold rp; lia]. intros Hin. destruct (S4 rp Hin) as [Hp%S10|Hp]; unfold rp in Hp; lia. }
  destruct Hrp as [Hrp1 Hrp2]. pose proof (take_drop 5 cs) as Hcs.
  assert (Hsub : forall p, p ∈ fpids (take 5 cs) \/ p ∈ fpids (drop 5 cs) -> p ∈ fpids cs) by (intros p Hp; rewrite <- Hcs, fpids_app; set_solver).
  eexists _, _, [((tpid t, take 4 ks, take 5 cs) : tree (S h)); ((rp, drop 5 ks, drop 5 cs) : tree (S h))]. split; [done|].
  assert (Hf2 : first_leaf ((rp, drop 5 ks, drop 5 cs) : tree (S h)) = head_leaf first_leaf nxt (drop 5 cs)) by (by eapply head_leaf_node).
  split; try done.
  - simpl. split; [done|]. split; (split; [unfold blen; rewrite ?length_take, ?length_drop; unfold BT_MAX_KEYS; lia|done]).
  - cbn [chain head_leaf]. split; [|split; [|done]].
    + split; [cbn [pages store fst snd]; by rewrite lookup_insert_eq, fmap_take|]. cbn [snd]. rewrite Hf2. eapply chain_frame; [exact C1|].
      intros p Hp. assert (p ∈ fpids cs) by auto. cbn [pages store]. rewrite !lookup_insert_ne; [done|by intros <-|by intros <-].
    + split; [cbn [pages store fst snd]; rewrite lookup_insert_ne, lookup_insert_eq, fmap_drop by done; done|]. cbn [snd]. eapply chain_frame; [exact C2|].
      intros p Hp. assert (p ∈ fpids cs) by auto. cbn [pages store]. rewrite !lookup_insert_ne; [done|by intros <-|by intros <-].
  - unfold fpids. simpl. rewrite app_nil_r. fold (fpids (take 5 cs)) (fpids (drop 5 cs)). rewrite <- Hcs, fpids_app in S3a, S3b, Hrp1.
    apply list.NoDup_app in S3b as (N1 & N2 & N3). apply list.NoDup_cons. split; [set_solver|]. apply list.NoDup_app. split; [done|]. split; [set_solver|].
    apply list.NoDup_cons. split; [set_solver|done].
  - intros p. unfold fpids. simpl. rewrite app_nil_r. fold (fpids (take 5 cs)) (fpids (drop 5 cs)).
    rewrite elem_of_cons, elem_of_app, elem_of_cons. intros [->|[Hp|[->|Hp]]]; [left; apply (tpid_in (S h) t)| |right; unfold rp; lia|].
    + destruct (S4 p (Hsub p (or_introl Hp))); [by left|right; lia].
    + destruct (S4 p (Hsub p (or_intror Hp))); [by left|right; lia].
  - cbn [head_leaf]. rewrite <- S5, (head_leaf_node u lo push nxt _ _ _ (take 4 ks) K1). by destruct cs.
  - unfold fentries. cbn [fmap list_fmap mjoin list_join]. rewrite app_nil_r, (entries_node h (tpid t, take 4 ks, take 5 cs)), (entries_node h (rp, drop 5 ks, drop 5 cs)).
    cbn [snd]. rewrite <- fentries_app, Hcs. done.
  - intros p Hp Hlt. cbn [pages store]. rewrite !lookup_insert_ne; [by apply S7|unfold rp; lia|]. intros <-. apply Hp, (tpid_in (S h) t).
  - cbn [num_pages store]. lia.
Qed.

Lemma chosen_entries u {h} lo hi key ks (cs A B : list (tree h)) c mid hc :
  chosen (ordered u) lo hi (fun k => k <=? key) ks cs A c B mid hc -> lo <= key -> kle u key hi ->
  mid <= key /\ kle u key hc /\ Forall (fun e => kle u e.1 key) (fentries A) /\ Forall (fun e => kle u key e.1) (fentries B).
Proof.
  intros [C1 C2 C3 C4 C5 C6 C7 C8 C9] Hlo Hhi.
  assert (Hmid : mid <= key) by (destruct C4 as [[_ ->]|H%Z.leb_le]; lia).
  assert (Hhc : kle u key hc) by (destruct C5 as [[_ ->]|H%Z.leb_gt]; [done|unfold kle; destruct u; lia]).
  split; [done|]. split; [done|]. split.
  - clear -C7 Hmid. unfold fentries. induction C7 as [|a A' (l & r & Ha & Hl & Hr) _ IH]; [constructor|]. apply Forall_app. split; [|done].
    eapply Forall_impl; [|by eapply ordered_entries]. intros e [_ He]. simpl in *. eapply kle_le_trans; [exact He|lia].
  - destruct C5 as [[-> _]|Hp%Z.leb_gt]; [constructor|].
    clear -C8 Hp. unfold fentries. induction C8 as [|b B' (l & r & Hb & Hl & Hr) _ IH]; [constructor|]. apply Forall_app. split; [|done].
    eapply Forall_impl; [|by eapply ordered_entries]. intros e [He _]. simpl in *. unfold kle. destruct u; lia.
Qed.

(** Putting the trees of the recursive call in the child's place. *)
Lemma splice_ok u {h} bt bt1 pid ks (cs : list (tree h)) nxt lo hi key val A c B mid hc r ts :
  let t : tree (S h) := (pid, ks, cs) in
  rep (pages bt) nxt t -> ordered u lo hi t -> lo <= key -> kle u key hi -> NoDup (tpids t) -> (forall p, p ∈ tpids t -> p < num_pages bt) ->
  chosen (ordered u) lo hi (fun k => k <=? key) ks cs A c B mid hc ->
  ins_ok u bt bt1 c (head_leaf first_leaf nxt B) mid hc key val r ts ->
  spliced u bt bt1 t nxt lo hi key val (take (length A) ks ++ seps r ++ drop (length A) ks) (A ++ ts ++ B) /\
  tpid <$> (A ++ ts ++ B) = (tpid <$> A) ++ tpid c :: rights r ++ (tpid <$> B).
Proof.
  intros t [Hpg Hch] [Hlen Hkids] Hlo Hhi Hnd Hold Hch' [I1 I2 I3 I4 I5 I6 I7 I8 I9 I10 I11]. simpl in Hlen, Hkids, Hch.
  destruct (chosen_entries u lo hi key ks cs A B c mid hc Hch' Hlo Hhi) as (E1 & E2 & E3 & E4). destruct Hch' as [C1 C2 C3 C4 C5 C6 C7 C8 C9].
  change (tpids t) with (pid :: fpids cs) in Hnd, Hold. rewrite C1 in Hch, Hnd, Hold.
  apply chain_app in Hch as [HchA HchB]. destruct HchB as [_ HchB].
  change (A ++ c :: B) with (A ++ [c] ++ B) in Hnd, Hold. rewrite !fpids_app in Hnd, Hold.
  assert (Hc1 : fpids [c] = tpids c) by (unfold fpids; simpl; apply app_nil_r). rewrite Hc1 in Hnd, Hold.
  apply list.NoDup_cons in Hnd as [Hpid Hnd]. apply list.NoDup_app in Hnd as (N1 & N2 & N3). apply list.NoDup_app in N3 as (N4 & N5 & N6).
  assert (Hin : forall p, p ∈ tpids t <-> p = pid \/ p ∈ fpids A \/ p ∈ tpids c \/ p ∈ fpids B).
  { intros p. change (tpids t) with (pid :: fpids cs). rewrite C1. change (A ++ c :: B) with (A ++ [c] ++ B). rewrite !fpids_app, Hc1, elem_of_cons, !elem_of_app. done. }
  assert (Hfr : forall p, p ∈ fpids A \/ p ∈ fpids B -> pages bt1 !! p = pages bt !! p).
  { intros p Hp. apply I9; [|apply Hold; set_solver]. intros Hc. destruct Hp as [Hp|Hp]; [apply (N2 p Hp); set_solver|by apply (N5 p Hc)]. }
  assert (Hnew : forall p, p ∈ fpids ts -> p ∉ fpids A /\ p ∉ fpids B /\ p <> pid).
  { intros p Hp. destruct (I6 p Hp) as [Hc|Hc].
    - split; [intros Ha; apply (N2 p Ha); set_solver|]. split; [intros Hb; by apply (N5 p Hc)|]. intros ->. apply Hpid. set_solver.
    - assert (Hx : forall q, q = pid \/ q ∈ fpids A \/ q ∈ fpids B -> q < num_pages bt) by (intros q Hq; apply Hold; set_solver).
      split; [intros Ha; specialize (Hx p); lia || (assert (p < num_pages bt) by (apply Hx; auto); lia)|].
      split; [intros Hb; assert (p < num_pages bt) by (apply Hx; auto); lia|]. intros ->. assert (pid < num_pages bt) by (apply Hx; auto). lia. }
  assert (Hts : ts <> []) by (intros ->; done).
  split.
  - split.
    + by apply C9.
    + apply chain_app. split.
      * assert (head_leaf first_leaf nxt (ts ++ B) = first_leaf c) as ->.
        { rewrite <- I7. destruct ts; [done|]. done. }
        eapply chain_frame; [exact HchA|]. intros p Hp. apply Hfr. by left.
      * apply chain_app. split; [exact I3|]. eapply chain_frame; [exact HchB|]. intros p Hp. apply Hfr. by right.
    + simpl. rewrite !fpids_app. apply list.NoDup_cons. split.
      * rewrite !elem_of_app. intros [Hp|[Hp|Hp]]; [apply Hpid; set_solver|by destruct (Hnew _ Hp) as (_ & _ & ?)|apply Hpid; set_solver].
      * apply list.NoDup_app. split; [done|]. split; [|apply list.NoDup_app; split; [done|]; split; [|done]].
        -- intros p Hp. rewrite elem_of_app. intros [Hq|Hq]; [by destruct (Hnew _ Hq)|]. apply (N2 p Hp). set_solver.
        -- intros p Hp. by destruct (Hnew _ Hp) as (_ & ? & _).
    + intros p. rewrite !fpids_app, !elem_of_app, Hin. intros [Hp|[Hp|Hp]]; [by auto| |by auto]. destruct (I6 p Hp); auto.
    + assert (head_leaf first_leaf nxt (A ++ ts ++ B) = head_leaf first_leaf nxt cs) as ->.
      { rewrite C1. destruct A; [|done]. simpl. rewrite <- I7. by destruct ts. }
      symmetry. by eapply head_leaf_node.
    + rewrite entries_node. cbn [snd t]. rewrite C1. change (A ++ c :: B) with (A ++ [c] ++ B). rewrite !fentries_app.
      assert (fentries [c] = entries c) as -> by (unfold fentries; simpl; apply app_nil_r). by apply inserted_context.
    + intros p Hp Hlt. apply I9; [|done]. rewrite Hin in Hp. tauto.
    + done.
    + done.
    + intros p Hp. apply Hold. rewrite Hin in Hp. set_solver.
  - rewrite !fmap_app, I4. done.
Qed.

Lemma put_in_chosen {A} (i : nat) (x : A) (l : list A) : put_in i x l = take i l ++ [x] ++ drop i l.
Proof. done. Qed.

Lemma put_child (a b : list Z) (c cr : Z) : put_in (length a + 1) cr (a ++ c :: b) = a ++ c :: cr :: b.
Proof.
  unfold put_in. replace (length a + 1)%nat with (length (a ++ [c])) by (rewrite length_app; simpl; lia).
  replace (a ++ c :: b) with ((a ++ [c]) ++ b) by (by rewrite <- app_assoc). rewrite take_app_length, drop_app_length. by rewrite <- app_assoc.
Qed.

Lemma node_insert_ok u h : forall (t : tree h) fuel bt nxt lo hi key val,
  (h < fuel)%nat -> rep (pages bt) nxt t -> ordered u lo hi t -> lo <= key -> kle u key hi -> NoDup (tpids t) ->
  (forall p, p ∈ tpids t -> p < num_pages bt) -> num_pages bt + Z.of_nat (S h) <= room bt ->
  exists bt' r ts, node_insert fuel bt (tpid t) key val (negb u) = Some (bt', r) /\ ins_ok u bt bt' t nxt lo hi key val r ts.
Proof.
  induction h as [|h IH]; intros t fuel bt nxt lo hi key val Hf Hrep Hord Hlo Hhi Hnd Hold Hroom; (destruct fuel as [|fuel]; [lia|]); cbn [node_insert]; unfold fetch.
  - simpl in Hrep. change (tpid t) with t.1. rewrite Hrep. unfold leaf_insert. pose proof Hord as (Hb & Hs & Hlen).
    pose proof (leaf_inserted u key val t.2 Hs) as Hi. cbn zeta in Hi. set (i := count_while (fun k => k <? key) t.2.*1) in *.
    destruct (negb (negb u) && bool_decide (t.2.*1 !! i = Some key)) eqn:Eup.
    + assert (Hins : exists bt' r ts, Some (store bt t.1 (BLeaf t.2.*1 (<[i := val]> t.2.*2) nxt), INone) = Some (bt', r) /\ ins_ok u bt bt' t nxt lo hi key val r ts).
      { eexists _, _, _. split; [done|]. apply andb_true_iff in Eup as [_ Hk%bool_decide_eq_true_1]. rewrite list_lookup_fmap in Hk.
        destruct (t.2 !! i) as [[k0 v0]|] eqn:Ei; [|done]. injection Hk as ->.
        assert (Hes : t.2.*1 = (<[i := (key, val)]> t.2).*1 /\ <[i := val]> t.2.*2 = (<[i := (key, val)]> t.2).*2).
        { rewrite !list_fmap_insert. simpl. split; [|done]. symmetry. apply list_insert_id. by rewrite list_lookup_fmap, Ei. }
        destruct Hes as [-> ->]. apply leaf_store_ok; try done. unfold blen in *. by rewrite length_insert. }
      exact Hins.
    + destruct (put_in_fst i key val t.2) as [-> ->]. assert (Hl : blen (put_in i (key, val) t.2).*1 = blen t.2 + 1).
      { unfold blen. rewrite length_fmap, length_put_in. lia. }
      rewrite Hl. destruct (Z.leb_spec (blen t.2 + 1) BT_MAX_KEYS).
      * eexists _, _, _. split; [done|]. apply leaf_store_ok; try done. rewrite blen_fmap in Hl. lia.
      * apply leaf_split_ok with (u := u) (key := key) (val := val) (lo := lo) (hi := hi); try done; [rewrite blen_fmap in Hl; lia| |lia]. apply Hold. apply (tpid_in 0 t).
  - destruct t as [[pid ks] cs]. pose proof Hrep as [Hpg Hch]. simpl in Hpg, Hch. change (tpid ((pid, ks, cs) : tree (S h))) with pid. rewrite Hpg.
    pose proof Hord as [Hlen Hkids]. simpl in Hlen, Hkids.
    destruct (kids_choose (ordered u) lo hi (fun k => k <=? key) ks cs Hkids) as (A & c & B & mid & hc & Hcho).
    destruct (chosen_entries u lo hi key ks cs A B c mid hc Hcho Hlo Hhi) as (E1 & E2 & _ & _).
    assert (Hcs : cs = A ++ c :: B) by apply Hcho. assert (Hi : count_while (fun k => k <=? key) ks = length A) by (symmetry; apply Hcho). rewrite Hi.
    assert (Hchild : (tpid <$> cs) !! length A = Some (tpid c)).
    { rewrite Hcs, fmap_app, lookup_app_r by (by rewrite length_fmap). by rewrite length_fmap, Nat.sub_diag. }
    rewrite Hchild. cbn [mbind option_bind].
    assert (Hsub : forall p, p ∈ tpids c -> p ∈ tpids ((pid, ks, cs) : tree (S h))).
    { intros p Hp. right. eapply fpids_in; [|exact Hp]. rewrite Hcs. set_solver. }
    destruct (IH c fuel bt (head_leaf first_leaf nxt B) mid hc key val) as (bt1 & r & ts & -> & Hio); try done.
    + lia.
    + rewrite Hcs in Hch. apply chain_app in Hch as [_ [Hch _]]. done.
    + apply Hcho.
    + change (tpids ((pid, ks, cs) : tree (S h))) with (pid :: fpids cs) in Hnd. apply list.NoDup_cons in Hnd as [_ Hnd]. rewrite Hcs in Hnd.
      change (A ++ c :: B) with (A ++ [c] ++ B) in Hnd. rewrite !fpids_app in Hnd. apply list.NoDup_app in Hnd as (_ & _ & Hnd).
      apply list.NoDup_app in Hnd as (Hnd & _ & _). unfold fpids in Hnd. simpl in Hnd. by rewrite app_nil_r in Hnd.
    + intros p Hp. apply Hold. by apply Hsub.
    + lia.
    + destruct (splice_ok u bt bt1 pid ks cs nxt lo hi key val A c B mid hc r ts Hrep Hord Hlo Hhi Hnd Hold Hcho Hio) as [Hsp Hpids].
      cbn [mbind option_bind]. pose proof (io_grow _ _ _ _ _ _ _ _ _ _ _ Hio) as Hgr. pose proof (io_same _ _ _ _ _ _ _ _ _ _ _ Hio) as (Hm & Hrm & Hrt).
      destruct r as [| |sep cr]; [by destruct (io_err _ _ _ _ _ _ _ _ _ _ _ Hio)| |]; cbn [seps rights] in *.
      * assert (Hks : take (length A) ks ++ [] ++ drop (length A) ks = ks) by apply take_drop. rewrite Hks in Hsp.
        eexists _, _, _. split; [done|]. eapply inner_keep_ok; [exact Hsp|done| |done|done|done].
        change (tpid ((pid, ks, cs) : tree (S h))) with pid. rewrite Hpids. rewrite (io_frame _ _ _ _ _ _ _ _ _ _ _ Hio).
        -- rewrite Hpg, Hcs, fmap_app. done.
        -- intros Hp. change (tpids ((pid, ks, cs) : tree (S h))) with (pid :: fpids cs) in Hnd. apply list.NoDup_cons in Hnd as [Hnd _].
           apply Hnd. eapply fpids_in; [|exact Hp]. rewrite Hcs. set_solver.
        -- apply Hold. apply (tpid_in (S h) (pid, ks, cs)).
      * rewrite put_in_chosen. assert (Hpc : put_in (length A + 1) cr (tpid <$> cs) = tpid <$> (A ++ ts ++ B)).
        { rewrite Hpids, Hcs, fmap_app. rewrite <- (length_fmap tpid A). apply put_child. }
        rewrite Hpc. change ([sep] ++ drop (length A) ks) with (sep :: drop (length A) ks) in *.
        assert (Hbl : blen (take (length A) ks ++ sep :: drop (length A) ks) = blen ks + 1).
        { fold (put_in (length A) sep ks). unfold blen. rewrite length_put_in. lia. }
        rewrite Hbl. destruct (Z.leb_spec (blen ks + 1) BT_MAX_KEYS).
        -- eexists _, _, _. split; [done|]. eapply inner_keep_ok; [exact Hsp|lia| | |done|done].
           ++ cbn [pages store]. apply lookup_insert_eq.
           ++ intros p Hp. cbn [pages store]. by rewrite lookup_insert_ne.
        -- apply (inner_split_ok u bt bt1 _ nxt lo hi key val _ _ Hsp); lia.
Qed.

(** ** Descents reach a leaf that separates the entries *)

Definition leaf_at (m : gmap Z BTNode) (n : Z) (l : Z * list (Z * Z)) : Prop := m !! l.1 = Some (BLeaf l.2.*1 l.2.*2 n).

Lemma rep_linked u h : forall m nxt lo hi (t : tree h), rep m nxt t -> ordered u lo hi t -> chain (leaf_at m) fst nxt (leaves t).
Proof.
  induction h as [|h IH]; intros m nxt lo hi t Hr Ho; [done|]. destruct Hr as [_ Hc], Ho as [_ Hk]. destruct t as [[pid ks] cs]. simpl in *.
  revert lo ks Hk. induction cs as [|c cs IHc]; intros lo ks Hk; [done|]. destruct Hc as [Hc Hcs]. simpl.
  assert (Hord : exists hi', ordered u lo hi' c /\ (cs = [] \/ exists k ks', kids (ordered u) k hi ks' cs)).
  { destruct ks as [|k ks]; simpl in Hk; [destruct cs; [|done]; exists hi; auto|]. destruct Hk as (_ & H1 & H2). exists k. split; [done|]. right. eauto. }
  destruct Hord as (hi' & Hoc & Hrest). apply chain_app. split.
  - match goal with |- chain _ _ ?x _ => assert (x = head_leaf first_leaf nxt cs) as ->; [|by eapply IH] end.
    destruct cs as [|c' cs]; [done|]. destruct Hrest as [|(k & ks' & Hk')]; [done|]. simpl.
    assert (Hl : leaves c' <> []).
    { destruct ks'; simpl in Hk'; [destruct cs; [|done]; by eapply leaves_nonempty|]. destruct Hk' as (_ & Hk' & _). by eapply leaves_nonempty. }
    unfold first_leaf. by destruct (leaves c').
  - destruct Hrest as [->|(k & ks' & Hk')]; [done|]. by eapply IHc.
Qed.

Lemma descend_ok u h p : forall (t : tree h) fuel bt nxt lo hi,
  (h < fuel)%nat -> rep (pages bt) nxt t -> ordered u lo hi t ->
  exists pid A es B, descend fuel bt p (tpid t) = Some pid /\ leaves t = A ++ (pid, es) :: B /\
    Forall (fun e => exists k, kle u e.1 k /\ p k = true) (mjoin A.*2) /\ Forall (fun e => exists k, k <= e.1 /\ p k = false) (mjoin B.*2).
Proof.
  induction h as [|h IH]; intros t fuel bt nxt lo hi Hf Hrep Hord; (destruct fuel as [|fuel]; [lia|]); cbn [descend]; unfold fetch.
  - destruct t as [pid es]. simpl in *. rewrite Hrep. exists pid, [], es, []. split; [done|]. split; [done|]. split; constructor.
  - destruct t as [[pid ks] cs]. destruct Hrep as [Hpg Hch], Hord as [_ Hk]. simpl in Hpg, Hch, Hk. change (tpid ((pid, ks, cs) : tree (S h))) with pid. rewrite Hpg.
    cbn [mbind option_bind]. destruct (kids_choose (ordered u) lo hi p ks cs Hk) as (A & c & B & mid & hc & [C1 C2 C3 C4 C5 C6 C7 C8 C9]).
    rewrite <- C2. assert ((tpid <$> cs) !! length A = Some (tpid c)) as ->.
    { rewrite C1, fmap_app, lookup_app_r by (by rewrite length_fmap). by rewrite length_fmap, Nat.sub_diag. }
    rewrite C1 in Hch. apply chain_app in Hch as [_ [Hc _]]. cbn [mbind option_bind].
    destruct (IH c fuel bt _ mid hc ltac:(lia) Hc C3) as (lp & A' & es & B' & Hd & Hl & HA & HB).
    exists lp, (mjoin ((@leaves h) <$> A) ++ A'), es, (B' ++ mjoin ((@leaves h) <$> B)). split; [done|]. split.
    { simpl. rewrite C1, fmap_app, join_app. cbn [fmap list_fmap mjoin list_join]. rewrite Hl, <- !app_assoc. done. }
    rewrite !fmap_app, !join_app. split; apply Forall_app; split; [|done|done|].
    + destruct C4 as [[-> _]|Hm]; [constructor|]. clear -C7 Hm. induction C7 as [|a A (l & r & Ha & Hl & Hr) _ IH]; [constructor|].
      cbn [fmap list_fmap mjoin list_join]. rewrite fmap_app, join_app. apply Forall_app. split; [|done].
      eapply Forall_impl; [|by eapply ordered_entries]. intros e [_ He]. exists mid. split; [by eapply kle_le_trans|done].
    + destruct C5 as [[-> _]|Hm]; [constructor|]. clear -C8 Hm. induction C8 as [|b B (l & r & Hb & Hl & Hr) _ IH]; [constructor|].
      cbn [fmap list_fmap mjoin list_join]. rewrite fmap_app, join_app. apply Forall_app. split; [|done].
      eapply Forall_impl; [|by eapply ordered_entries]. intros e [He _]. exists hc. split; [simpl in He; lia|done].
Qed.

(** ** Walking the leaf chain *)

Section Walk.
Context {C : Type} (visit : Z -> Z -> C -> C * Z).

(** Visiting a list in order until the visitor stops. *)
Fixpoint visit_list (L : list (Z * Z)) (ctx : C) : C * Z :=
  match L with
  | [] => (ctx, 0)
  | (k, v) :: r => let '(ctx, x) := visit k v ctx in if x =? 0 then visit_list r ctx else (ctx, x)
  end.

Fixpoint act_list (act : Z -> scan_act) (L : list (Z * Z)) (ctx : C) : C + C * Z :=
  match L with
  | [] => inl ctx
  | (k, v) :: r =>
      match act k with
      | Skip => act_list act r ctx
      | Stop => inr (ctx, 0)
      | Visit => let '(ctx, x) := visit k v ctx in if x =? 0 then act_list act r ctx else inr (ctx, x)
      end
  end.

Definition finish (r : C + C * Z) : C * Z := match r with inl ctx => (ctx, 0) | inr x => x end.

Lemma visit_leaf_act act L ctx : visit_leaf visit act L.*1 L.*2 ctx = act_list act L ctx.
Proof.
  revert ctx. induction L as [|[k v] L IH]; intros ctx; simpl; [done|]. destruct (act k); auto. destruct (visit k v ctx) as [ctx' x]. by destruct (x =? 0).
Qed.

Lemma act_list_app act L1 L2 ctx : act_list act (L1 ++ L2) ctx = match act_list act L1 ctx with inl ctx => act_list act L2 ctx | inr x => inr x end.
Proof.
  revert ctx. induction L1 as [|[k v] L1 IH]; intros ctx; simpl; [done|]. destruct (act k); auto. destruct (visit k v ctx) as [ctx' x]. by destruct (x =? 0).
Qed.

Lemma visit_chain_ok act ls : forall fuel bt ctx,
  chain (leaf_at (pages bt)) fst 0 ls -> Forall (fun l => l.1 <> 0) ls -> (length ls < fuel)%nat ->
  visit_chain visit act fuel bt (head_leaf fst 0 ls) ctx = Some (finish (act_list act (mjoin ls.*2) ctx)).
Proof.
  induction ls as [|[pid es] ls IH]; intros fuel bt ctx Hc Hn Hf; (destruct fuel as [|fuel]; [simpl in Hf; lia|]); [done|].
  destruct Hc as [Hl Hc]. inversion_clear Hn as [|? ? Hp Hn']. simpl in Hp. cbn [head_leaf visit_chain fst]. destruct (Z.eqb_spec pid 0); [done|].
  unfold fetch. unfold leaf_at in Hl. cbn [fst snd] in Hl. rewrite Hl, visit_leaf_act. cbn [fmap list_fmap mjoin list_join snd]. rewrite act_list_app.
  destruct (act_list act es ctx) as [ctx'|x]; [|done]. apply IH; [done|done|simpl in Hf; lia].
Qed.

(** What the three kinds of scan visit. *)
Lemma act_scan L ctx : finish (act_list (fun _ => Visit) L ctx) = visit_list L ctx.
Proof. revert ctx. induction L as [|[k v] L IH]; intros ctx; simpl; [done|]. destruct (visit k v ctx) as [ctx' x]. by destruct (x =? 0). Qed.

Lemma act_from start L ctx :
  finish (act_list (fun k => if k <? start then Skip else Visit) L ctx) = visit_list (filter (fun e => start <= e.1) L) ctx.
Proof.
  revert ctx. induction L as [|[k v] L IH]; intros ctx; simpl; [done|]. destruct (Z.ltb_spec k start).
  - rewrite filter_cons_False by (simpl; lia). auto.
  - rewrite filter_cons_True by (simpl; lia). simpl. destruct (visit k v ctx) as [ctx' x]. by destruct (x =? 0).
Qed.

Lemma act_equal key L ctx :
  StronglySorted (fun a b => a.1 <= b.1) L ->
  finish (act_list (fun k => if k <? key then Skip else if key <? k then Stop else Visit) L ctx) = visit_list (filter (fun e => e.1 = key) L) ctx.
Proof.
  intros Hs. revert ctx. induction Hs as [|[k v] L Hs IH Hx]; intros ctx; simpl; [done|]. destruct (Z.ltb_spec k key); [|destruct (Z.ltb_spec key k)].
  - rewrite filter_cons_False by (simpl; lia). auto.
  - rewrite filter_cons_False by (simpl; lia). assert (filter (fun e : Z * Z => e.1 = key) L = []) as ->; [|done].
    clear -H0 Hx. induction Hx as [|e L He _ IH]; [done|]. rewrite filter_cons_False; [done|]. simpl in He. lia.
  - rewrite filter_cons_True by (simpl; lia). simpl. destruct (visit k v ctx) as [ctx' x]. by destruct (x =? 0).
Qed.
End Walk.

(** ** Removing an entry from a leaf *)

Lemma chain_update {T} (Q : Z -> T -> Prop) first nxt A c c' B :
  chain Q first nxt (A ++ c :: B) -> first c' = first c -> (forall n, Q n c -> Q n c') -> chain Q first nxt (A ++ c' :: B).
Proof.
  intros H Hf Hq. apply chain_app in H as [HA [Hc HB]]. apply chain_app. split; [simpl in *; by rewrite Hf|]. split; auto.
Qed.

Lemma kids_update {T} (P : Z -> Z -> T -> Prop) A c c' B : forall lo hi ks,
  kids P lo hi ks (A ++ c :: B) -> (forall l r, P l r c -> P l r c') -> kids P lo hi ks (A ++ c' :: B).
Proof.
  induction A as [|a A IH]; intros lo hi ks H Hp; destruct ks as [|k ks]; simpl in *; try done.
  - destruct B; [auto|done]. - naive_solver. - destruct (A ++ c :: B) eqn:E; [by destruct A|done]. - naive_solver.
Qed.

Lemma join_split {A} (ls : list (list A)) X y Y :
  mjoin ls = X ++ y :: Y -> exists L1 a b L2, ls = L1 ++ (a ++ y :: b) :: L2 /\ X = mjoin L1 ++ a /\ Y = b ++ mjoin L2.
Proof.
  revert X. induction ls as [|l ls IH]; intros X H; simpl in H; [by destruct X|].
  apply app_eq_app in H as (k & [[-> H]|[-> H]]).
  - destruct k as [|z k]; simpl in H.
    + symmetry in H. change (y :: Y) with ([] ++ y :: Y) in H. destruct (IH [] H) as (L1 & a & b & L2 & -> & Hx & ->).
      exists (X :: L1), a, b, L2. split; [by rewrite app_nil_r|]. split; [|done]. change (mjoin (X :: L1)) with (X ++ mjoin L1). rewrite <- app_assoc, <- Hx. by rewrite app_nil_r.
    + injection H as <- ->. exists [], X, k, ls. done.
  - destruct (IH k H) as (L1 & a & b & L2 & -> & -> & ->). exists (l :: L1), a, b, L2. split; [done|]. split; [change (mjoin (l :: L1)) with (l ++ mjoin L1); by rewrite <- app_assoc|done].
Qed.

Lemma rep_pids_ne m m' pid h : forall nxt (t : tree h), rep m nxt t -> pid ∉ tpids t -> (forall p, p <> pid -> m' !! p = m !! p) -> rep m' nxt t.
Proof. intros nxt t Hr Hn Hm. eapply rep_frame; [exact Hr|]. intros p Hp. apply Hm. by intros ->. Qed.

(** Writing a leaf of the tree with fewer entries. *)
Lemma update_leaf u h : forall (t : tree h) m m' nxt A B pid es es',
  rep m nxt t -> NoDup (tpids t) -> leaves t = A ++ (pid, es) :: B ->
  (forall n, m !! pid = Some (BLeaf es.*1 es.*2 n) -> m' !! pid = Some (BLeaf es'.*1 es'.*2 n)) -> (forall p, p <> pid -> m' !! p = m !! p) ->
  sublist es' es ->
  exists t' : tree h, rep m' nxt t' /\ (forall lo hi, ordered u lo hi t -> ordered u lo hi t') /\ tpids t' = tpids t /\ tpid t' = tpid t /\ leaves t' = A ++ (pid, es') :: B.
Proof.
  induction h as [|h IH]; intros t m m' nxt A B pid es es' Hr Hnd Hl Hm Hm' Hsub.
  - destruct t as [p0 es0]. simpl in Hl. destruct A as [|a A]; [|by destruct A]. injection Hl as -> -> <-.
    exists ((pid, es') : tree 0). simpl in *. split; [by apply Hm|]. split; [|done]. intros lo hi (H1 & H2 & H3). split; [|split].
    + apply list.Forall_forall. intros e He. rewrite list.Forall_forall in H1. apply H1.
      by apply (sublist_subseteq _ _ Hsub).
    + clear -Hsub H2. induction Hsub as [|x a b Hs IH|x a b Hs IH]; [done| |].
      * inversion_clear H2 as [|? ? Hs2 Hx]. constructor; [auto|]. apply list.Forall_forall. intros e He. rewrite list.Forall_forall in Hx. apply Hx.
        by apply (sublist_subseteq _ _ Hs).
      * inversion_clear H2. auto.
    + unfold blen in *. apply sublist_length in Hsub. lia.
  - destruct t as [[p0 ks] cs]. destruct Hr as [Hpg Hch]. simpl in Hpg, Hch, Hl.
    change (tpids ((p0, ks, cs) : tree (S h))) with (p0 :: fpids cs) in Hnd.
    apply join_split in Hl as (L1 & A' & B' & L2 & Hls & -> & ->).
    assert (Hcs : exists C1 c C2, cs = C1 ++ c :: C2 /\ leaves <$> C1 = L1 /\ leaves c = A' ++ (pid, es) :: B' /\ leaves <$> C2 = L2).
    { apply fmap_app_inv in Hls as (C1 & C2' & -> & Hr & ->). symmetry in Hr. apply fmap_cons_inv in Hr as (c & C2 & Hc & -> & ->). exists C1, c, C2. done. }
    destruct Hcs as (C1 & c & C2 & -> & <- & Hlc & <-).
    change (C1 ++ c :: C2) with (C1 ++ [c] ++ C2) in Hnd. rewrite !fpids_app in Hnd.
    assert (Hc1 : fpids [c] = tpids c) by (unfold fpids; simpl; apply app_nil_r). rewrite Hc1 in Hnd.
    apply list.NoDup_cons in Hnd as [Hp0 Hnd]. apply list.NoDup_app in Hnd as (N1 & N2 & N3). apply list.NoDup_app in N3 as (N4 & N5 & N6).
    assert (Hpc : pid ∈ tpids c) by (apply (leaf_pids h c (pid, es)); rewrite Hlc; set_solver).
    assert (Hcc : rep m (head_leaf first_leaf nxt C2) c) by (apply chain_app in Hch as [_ [? _]]; done).
    destruct (IH c m m' _ A' B' pid es es' Hcc N4 Hlc Hm Hm' Hsub) as (c' & Hr' & Ho' & Hpids & Hpid & Hl').
    assert (Hfl : first_leaf c' = first_leaf c) by (unfold first_leaf; rewrite Hl', Hlc; by destruct A').
    exists ((p0, ks, C1 ++ c' :: C2) : tree (S h)). split; [|split; [|split; [|split]]].
    + split.
      * simpl. rewrite Hm'; [rewrite Hpg; do 2 f_equal; rewrite !fmap_app; simpl; by rewrite Hpid|]. intros ->. apply Hp0. set_solver.
      * simpl. apply chain_app in Hch as [Ha [_ Hb]]. apply chain_app. split; [simpl; rewrite Hfl; eapply chain_frame; [exact Ha|]|split; [done|eapply chain_frame; [exact Hb|]]].
        -- intros p Hp. apply Hm'. intros ->. apply (N2 pid Hp). set_solver.
        -- intros p Hp. apply Hm'. intros ->. by apply (N5 pid Hpc).
    + intros lo hi [Hlen Hk]. split; [done|]. simpl in *. by eapply kids_update.
    + change (p0 :: fpids (C1 ++ c' :: C2) = p0 :: fpids (C1 ++ c :: C2)). f_equal. change (C1 ++ c' :: C2) with (C1 ++ [c'] ++ C2). change (C1 ++ c :: C2) with (C1 ++ [c] ++ C2).
      rewrite !fpids_app. unfold fpids. simpl. by rewrite !app_nil_r, Hpids.
    + done.
    + simpl. rewrite fmap_app, join_app. cbn [fmap list_fmap mjoin list_join]. rewrite Hl', <- !app_assoc. done.
Qed.

Lemma kids_sorted u {h} : (forall lo hi (t : tree h), ordered u lo hi t -> StronglySorted (fun a b => kle u a.1 b.1) (entries t)) ->
  forall ks lo hi (cs : list (tree h)), kids (ordered u) lo hi ks cs -> StronglySorted (fun a b => kle u a.1 b.1) (fentries cs).
Proof.
  intros IH ks. induction ks as [|k ks IHk]; intros lo hi [|c cs] H; simpl in H; try done.
  - destruct cs; [|done]. unfold fentries. simpl. rewrite app_nil_r. by eapply IH.
  - destruct H as (_ & Hc & Hcs). change (fentries (c :: cs)) with (entries c ++ fentries cs). apply sorted_app_iff.
    split; [by eapply IH|]. split; [by eapply IHk|]. intros x y Hx Hy.
    apply ordered_entries in Hc. rewrite list.Forall_forall in Hc. destruct (Hc x Hx) as [_ Hxk].
    assert (Hyk : k <= y.1).
    { apply kids_all in Hcs. clear -Hy Hcs. unfold fentries in Hy. induction Hcs as [|d ds (l & r & Hd & Hl & _) _ IH]; [by apply elem_of_nil in Hy|].
      simpl in Hy. apply elem_of_app in Hy as [Hy|Hy]; [|auto]. apply ordered_entries in Hd. rewrite list.Forall_forall in Hd. destruct (Hd y Hy). lia. }
    by eapply kle_le_trans.
Qed.

Lemma ordered_sorted u h : forall lo hi (t : tree h), ordered u lo hi t -> StronglySorted (fun a b => kle u a.1 b.1) (entries t).
Proof.
  induction h as [|h IH]; intros lo hi t Ho; [rewrite entries_leaf; apply Ho|]. rewrite entries_node. destruct Ho as [_ Hk]. by eapply kids_sorted.
Qed.

Lemma kle_sorted_le u L : StronglySorted (fun a b : Z * Z => kle u a.1 b.1) L -> StronglySorted (fun a b : Z * Z => a.1 <= b.1) L.
Proof. induction 1 as [|x L Hs IH Hx]; constructor; [done|]. eapply Forall_impl; [|exact Hx]. intros y. apply kle_le. Qed.

Lemma leaves_le_pids h : forall t : tree h, (length (leaves t) <= length (tpids t))%nat.
Proof.
  induction h as [|h IH]; intros t; [done|]. destruct t as [[pid ks] cs].
  change (length (mjoin ((@leaves h) <$> cs)) <= S (length (fpids cs)))%nat.
  assert (Hc : (length (mjoin ((@leaves h) <$> cs)) <= length (fpids cs))%nat); [|lia]. induction cs as [|c cs IHc]; [done|].
  change (length (leaves c ++ mjoin ((@leaves h) <$> cs)) <= length (tpids c ++ fpids cs))%nat. rewrite !length_app. specialize (IH c). lia.
Qed.

Lemma pids_bound (ps : list Z) n : NoDup ps -> (forall p, p ∈ ps -> 0 < p < n) -> Z.of_nat (length ps) <= Z.max 0 (n - 1).
Proof.
  intros Hnd Hb. assert (Hs : ps ⊆+ seqZ 1 (n - 1)).
  { apply NoDup_submseteq; [done|]. intros p Hp. apply elem_of_seqZ. specialize (Hb p Hp). lia. }
  apply submseteq_length in Hs. rewrite length_seqZ in Hs. lia.
Qed.

(** ** Removing along the chain *)

Lemma del_scan_ok key val es : StronglySorted (fun a b => a.1 <= b.1) es -> forall i,
  match del_scan es.*1 es.*2 i key val with
  | DFound j => exists a b, es = a ++ (key, val) :: b /\ j = (i + length a)%nat /\ (key, val) ∉ a
  | DStop => (key, val) ∉ es /\ exists e, e ∈ es /\ key < e.1
  | DNext => (key, val) ∉ es
  end.
Proof.
  induction 1 as [|[k v] es Hs IH Hx]; intros i; [apply not_elem_of_nil|]. rewrite !fmap_cons. cbn [del_scan fst snd].
  destruct (Z.ltb_spec k key); [|destruct (Z.ltb_spec key k)].
  - specialize (IH (S i)). destruct (del_scan es.*1 es.*2 (S i) key val).
    + apply not_elem_of_cons. split; [intros [= ]; lia|done].
    + destruct IH as [IH (e & He & Hlt)]. split; [apply not_elem_of_cons; split; [intros [= ]; lia|done]|]. exists e. split; [by constructor|done].
    + destruct IH as (a & b & -> & -> & Hn). exists ((k, v) :: a), b. split; [done|]. split; [simpl; lia|]. apply not_elem_of_cons. split; [intros [= ]; lia|done].
  - split; [|exists (k, v); split; [constructor|done]]. apply not_elem_of_cons. split; [intros [= ]; lia|]. intros Hin. rewrite list.Forall_forall in Hx.
    specialize (Hx _ Hin). simpl in Hx. lia.
  - assert (k = key) as -> by lia. destruct (Z.eqb_spec v val) as [->|Hv].
    + exists [], es. split; [done|]. split; [simpl; lia|apply not_elem_of_nil].
    + specialize (IH (S i)). destruct (del_scan es.*1 es.*2 (S i) key val).
      * apply not_elem_of_cons. split; [congruence|done].
      * destruct IH as [IH (e & He & Hlt)]. split; [apply not_elem_of_cons; split; [congruence|done]|]. exists e. split; [by constructor|done].
      * destruct IH as (a & b & -> & -> & Hn). exists ((key, v) :: a), b. split; [done|]. split; [simpl; lia|]. apply not_elem_of_cons. split; [congruence|done].
Qed.

Lemma delete_mid {A B} (f : A -> B) (a b : list A) x : delete (length a) (f <$> (a ++ x :: b)) = f <$> (a ++ b).
Proof.
  rewrite !fmap_app, fmap_cons, <- (length_fmap f a). generalize (f <$> a) as l. intros l. induction l as [|y l IH]; [done|]. simpl. f_equal. exact IH.
Qed.

Lemma del_chain_ok key val ls : forall fuel bt,
  chain (leaf_at (pages bt)) fst 0 ls -> Forall (fun l => l.1 <> 0) ls -> (length ls < fuel)%nat ->
  StronglySorted (fun a b => a.1 <= b.1) (mjoin ls.*2) ->
  (del_chain fuel bt (head_leaf fst 0 ls) key val = Some (bt, -1) /\ (key, val) ∉ mjoin ls.*2) \/
  exists A B pid a b n, ls = A ++ (pid, a ++ (key, val) :: b) :: B /\ (key, val) ∉ mjoin A.*2 ++ a /\
    pages bt !! pid = Some (BLeaf (a ++ (key, val) :: b).*1 (a ++ (key, val) :: b).*2 n) /\
    del_chain fuel bt (head_leaf fst 0 ls) key val = Some (store bt pid (BLeaf (a ++ b).*1 (a ++ b).*2 n), 0).
Proof.
  induction ls as [|[pid es] ls IH]; intros fuel bt Hc Hn Hf Hs; (destruct fuel as [|fuel]; [simpl in Hf; lia|]).
  { left. split; [done|apply not_elem_of_nil]. }
  destruct Hc as [Hl Hc]. inversion_clear Hn as [|? ? Hp Hn']. simpl in Hp. cbn [head_leaf del_chain fst]. destruct (Z.eqb_spec pid 0); [done|].
  unfold fetch. unfold leaf_at in Hl. cbn [fst snd] in Hl. rewrite Hl. cbn [fmap list_fmap mjoin list_join snd] in *.
  apply sorted_app_iff in Hs as (Hs1 & Hs2 & Hs12). pose proof (del_scan_ok key val es Hs1 0) as Hd.
  destruct (del_scan es.*1 es.*2 0 key val) as [| |j].
  - destruct (IH fuel bt Hc Hn' ltac:(simpl in Hf; lia) Hs2) as [[Hr Hni]|(A & B & p & a & b & nx & -> & Hni & Hpg & Hr)].
    + left. split; [done|]. rewrite elem_of_app. tauto.
    + right. exists ((pid, es) :: A), B, p, a, b, nx. split; [done|]. split; [|done]. simpl. rewrite !elem_of_app. rewrite elem_of_app in Hni. tauto.
  - left. destruct Hd as [Hni (e & He & Hlt)]. split; [done|]. rewrite elem_of_app. intros [Hin|Hin]; [done|]. specialize (Hs12 e _ He Hin). simpl in Hs12. lia.
  - destruct Hd as (a & b & -> & -> & Hni). right. exists [], ls, pid, a, b, (head_leaf fst 0 ls). split; [done|]. split; [done|]. split; [done|].
    simpl Nat.add. by rewrite !delete_mid.
Qed.

(** ** The index as a sorted list of entries *)

Record btree_holds (u : bool) (h : nat) (bt : BTree) (t : tree h) : Prop := {
  bh_rep : rep (pages bt) 0 t;
  bh_ord : exists lo hi, ordered u lo hi t;
  bh_nodup : NoDup (tpids t);
  bh_pids : forall p, p ∈ tpids t -> 0 < p < num_pages bt;
  bh_root : tpid t = root bt;
  bh_meta : meta bt = root bt;
  bh_height : Z.of_nat h < num_pages bt }.

Definition btree_rep (u : bool) (h : nat) (bt : BTree) (L : list (Z * Z)) : Prop := exists t : tree h, btree_holds u h bt t /\ entries t = L.

Lemma btree_rep_sorted u h bt L : btree_rep u h bt L -> StronglySorted (fun a b => kle u a.1 b.1) L.
Proof. intros (t & H & <-). destruct (bh_ord _ _ _ _ H) as (lo & hi & Ho). by eapply ordered_sorted. Qed.

Lemma open_rep u rm : 2 <= rm -> exists bt, btree_open (mkBT ∅ 0 0 rm 0) = Some bt /\ btree_rep u 0 bt [] /\ num_pages bt = 2 /\ room bt = rm.
Proof.
  intros Hr. unfold btree_open, new_page. simpl. destruct (Z.ltb_spec 0 rm); [|lia]. simpl. destruct (Z.ltb_spec (0 + 1) rm); [|lia].
  eexists. split; [done|]. split; [|done]. exists ((1, []) : tree 0). split; [|done]. split; simpl; try done.
  - exists 0, 0. split; [constructor|]. split; [constructor|by vm_compute].
  - apply NoDup_singleton.
  - intros p ->%list_elem_of_singleton. lia.
Qed.

Lemma insert_root_ok u h bt L key val :
  btree_rep u h bt L -> num_pages bt + Z.of_nat h + 2 <= room bt ->
  exists bt' h' L', insert_root bt key val (negb u) = Some (bt', 0) /\ btree_rep u h' bt' L' /\ inserted u key val L L' /\
    (h' <= S h)%nat /\ num_pages bt' <= num_pages bt + Z.of_nat h + 2 /\ room bt' = room bt.
Proof.
  intros (t & [Hr (lo0 & hi0 & Ho) Hnd Hp Hroot Hmeta Hh] & <-) Hroom.
  set (lo := Z.min lo0 key). set (hi := Z.max hi0 (key + 1)).
  assert (Hoi : ordered u lo hi t) by (eapply ordered_mono; [exact Ho|unfold lo; lia|unfold hi; lia]).
  destruct (node_insert_ok u h t (bt_fuel bt) bt 0 lo hi key val) as (bt1 & r & ts & Hi & Hio); try done.
  { unfold bt_fuel. lia. } { unfold lo. lia. } { unfold hi, kle. destruct u; lia. } { intros p Hin. apply Hp in Hin. lia. } { lia. }
  unfold insert_root. rewrite <- Hroot, Hi. cbn [mbind option_bind]. destruct Hio as [I1 I2 I3 I4 I5 I6 I7 I8 I9 (I10 & I11 & I12) I13].
  assert (Hpids : forall p, p ∈ fpids ts -> 0 < p < num_pages bt1).
  { intros p Hin. destruct (I6 p Hin) as [Hq|Hq]; [apply Hp in Hq; lia|]. pose proof (Hp _ (tpid_in h t)). lia. }
  destruct r as [| |sep rp]; [done| |]; cbn [seps rights] in *.
  - destruct ts as [|t' [|? ?]]; simpl in I2; try done. exists bt1, h, (entries t'). split; [done|].
    assert (Hf : fpids [t'] = tpids t') by (unfold fpids; simpl; apply app_nil_r). rewrite Hf in I5, Hpids.
    split; [|split; [|split; [lia|split; [lia|done]]]].
    + exists t'. split; [|done]. split; try done; [apply I3|by exists lo, hi| |congruence|lia]. injection I4 as I4. congruence.
    + unfold fentries in I8. simpl in I8. by rewrite app_nil_r in I8.
  - destruct ts as [|t1 [|t2 [|? ?]]]; simpl in I2; [done|by destruct I2 as (_ & _ & ?)| |by destruct I2 as (_ & _ & ?)]. destruct I2 as (Hsep & O1 & O2). injection I4 as Ht1 Ht2. destruct I3 as (R1 & R2 & _).
    unfold new_page. destruct (Z.ltb_spec (num_pages bt1) (room bt1)); [|lia]. cbn [mbind option_bind]. set (nr := num_pages bt1).
    set (t' := (nr, [sep], [t1; t2]) : tree (S h)). eexists _, (S h), (entries t'). split; [done|].
    assert (Hnr : nr ∉ fpids [t1; t2]) by (intros Hin; specialize (Hpids _ Hin); unfold nr in Hpids; lia).
    assert (Hin12 : forall p, p ∈ tpids t1 \/ p ∈ tpids t2 -> p ∈ fpids [t1; t2]) by (intros p; unfold fpids; simpl; rewrite app_nil_r; set_solver).
    split; [|split; [|split; [lia|split; [simpl; unfold nr; lia|done]]]].
    + exists t'. split; [|done]. split; try done.
      * split; [cbn [pages store write_root set_root]; rewrite lookup_insert_eq; simpl; congruence|]. cbn [snd]. split; [|split; [|done]].
        -- eapply rep_frame; [exact R1|]. intros p Hin. cbn [pages store write_root set_root]. rewrite lookup_insert_ne; [done|]. intros <-. apply Hnr, Hin12. by left.
        -- eapply rep_frame; [exact R2|]. intros p Hin. cbn [pages store write_root set_root]. rewrite lookup_insert_ne; [done|]. intros <-. apply Hnr, Hin12. by right.
      * exists lo, hi. split; [done|]. simpl. done.
      * change (NoDup (nr :: fpids [t1; t2])). apply list.NoDup_cons. done.
      * intros p. change (tpids t') with (nr :: fpids [t1; t2]). rewrite elem_of_cons. simpl. pose proof (Hp _ (tpid_in h t)).
        intros [->|Hin]; [unfold nr; lia|]. apply Hpids in Hin. unfold nr. lia.
      * simpl. unfold nr. lia.
    + rewrite entries_node. exact I8.
Qed.

Lemma leaf_ne_0 u h bt (t : tree h) : btree_holds u h bt t -> Forall (fun l => l.1 <> 0) (leaves t) /\ (length (leaves t) < bt_fuel bt)%nat.
Proof.
  intros H. split.
  - apply list.Forall_forall. intros l Hl. apply leaf_pids in Hl. apply (bh_pids _ _ _ _ H) in Hl. lia.
  - pose proof (leaves_le_pids h t). pose proof (pids_bound _ _ (bh_nodup _ _ _ _ H) (bh_pids _ _ _ _ H)) as Hb. pose proof (bh_height _ _ _ _ H). unfold bt_fuel. lia.
Qed.

(** Where a descent arrives: the chain from there covers all entries but a prefix [A]. *)
Lemma descend_rep u h bt (t : tree h) p :
  btree_holds u h bt t ->
  exists pid A es B, descend (bt_fuel bt) bt p (root bt) = Some pid /\ leaves t = A ++ (pid, es) :: B /\
    entries t = mjoin A.*2 ++ es ++ mjoin B.*2 /\
    Forall (fun e => exists k, kle u e.1 k /\ p k = true) (mjoin A.*2) /\ Forall (fun e => exists k, k <= e.1 /\ p k = false) (mjoin B.*2) /\
    chain (leaf_at (pages bt)) fst 0 ((pid, es) :: B) /\ Forall (fun l => l.1 <> 0) ((pid, es) :: B) /\ (length ((pid, es) :: B) < bt_fuel bt)%nat.
Proof.
  intros H. pose proof (leaf_ne_0 _ _ _ _ H) as [Hn Hf]. destruct H as [Hr (lo & hi & Ho) Hnd Hp Hroot Hmeta Hh].
  destruct (descend_ok u h p t (bt_fuel bt) bt 0 lo hi ltac:(unfold bt_fuel; lia) Hr Ho) as (pid & A & es & B & Hd & Hl & HA & HB).
  exists pid, A, es, B. rewrite <- Hroot. split; [done|]. split; [done|]. split; [unfold entries; rewrite Hl, fmap_app, join_app; done|].
  split; [done|]. split; [done|]. pose proof (rep_linked _ _ _ _ _ _ _ Hr Ho) as Hc. rewrite Hl in Hc, Hn, Hf. apply chain_app in Hc as [_ Hc].
  apply Forall_app in Hn as [_ Hn]. rewrite length_app in Hf. split; [done|]. split; [done|lia].
Qed.

(** The first occurrence of the pair is removed; -1 when there is none. *)
Lemma btree_delete_ok u h bt L key val :
  btree_rep u h bt L ->
  exists bt' rc L', btree_delete_val bt key val = Some (bt', rc) /\ btree_rep u h bt' L' /\ num_pages bt' = num_pages bt /\ room bt' = room bt /\
    ((rc = -1 /\ bt' = bt /\ L' = L /\ (key, val) ∉ L) \/
     (rc = 0 /\ exists L1 L2, L = L1 ++ (key, val) :: L2 /\ (key, val) ∉ L1 /\ L' = L1 ++ L2)).
Proof.
  intros Hrep. pose proof (btree_rep_sorted _ _ _ _ Hrep) as Hsort%kle_sorted_le. destruct Hrep as (t & Ht & <-).
  destruct (descend_rep u h bt t (fun k => k <? key) Ht) as (pid & A & es & B & Hd & Hl & He & HA & _ & Hc & Hn & Hf).
  unfold btree_delete_val. rewrite Hd.
  assert (HAn : (key, val) ∉ mjoin A.*2).
  { intros Hin. rewrite list.Forall_forall in HA. destruct (HA _ Hin) as (k & Hk & Hp%Z.ltb_lt). apply kle_le in Hk. simpl in Hk. lia. }
  rewrite He in Hsort. apply sorted_app_iff in Hsort as (_ & Hsort & _).
  destruct (del_chain_ok key val ((pid, es) :: B) (bt_fuel bt) bt Hc Hn Hf Hsort) as [[Hr Hni]|(A' & B' & p & a & b & nx & Hls & Hni & Hpg & Hr)].
  - exists bt, (-1), (entries t). split; [exact Hr|]. split; [by exists t|]. split; [done|]. split; [done|]. left. split; [done|]. split; [done|]. split; [done|].
    rewrite He, elem_of_app. intros [Hin|Hin]; [done|]. by apply Hni.
  - pose proof Ht as [Hrp (lo & hi & Ho) Hnd Hp Hroot Hmeta Hh].
    destruct (update_leaf u h t (pages bt) (pages (store bt p (BLeaf (a ++ b).*1 (a ++ b).*2 nx))) 0 (A ++ A') B' p (a ++ (key, val) :: b) (a ++ b))
      as (t' & R1 & R2 & R3 & R4 & R5); try done.
    { rewrite Hl, Hls, <- app_assoc. done. }
    { intros n Hpg'. rewrite Hpg in Hpg'. injection Hpg' as <-. apply lookup_insert_eq. }
    { intros q Hq. apply lookup_insert_ne. done. }
    { apply sublist_app; [done|]. by constructor. }
    exists (store bt p (BLeaf (a ++ b).*1 (a ++ b).*2 nx)), 0, (entries t'). split; [exact Hr|].
    assert (Hall : entries t = mjoin (A ++ A').*2 ++ (a ++ (key, val) :: b) ++ mjoin B'.*2).
    { unfold entries. rewrite Hl, Hls, app_assoc, fmap_app, join_app. done. }
    split; [exists t'; split; [|done]; split; rewrite ?R3, ?R4; try done; [exists lo, hi; by apply R2]|].
    split; [done|]. split; [done|]. right. split; [done|]. exists (mjoin (A ++ A').*2 ++ a), (b ++ mjoin B'.*2). split; [|split].
    + rewrite Hall, <- !app_assoc. done.
    + rewrite fmap_app, join_app. rewrite !elem_of_app in *. tauto.
    + unfold entries. rewrite R5, fmap_app, join_app. cbn [fmap list_fmap mjoin list_join snd]. by rewrite <- !app_assoc.
Qed.

Section Reads.
Context (u : bool) (h : nat) (bt : BTree) (L : list (Z * Z)) (Hrep : btree_rep u h bt L).

Lemma btree_scan_ok {C} (visit : Z -> Z -> C -> C * Z) ctx : btree_scan bt visit ctx = Some (visit_list visit L ctx).
Proof.
  destruct Hrep as (t & Ht & <-). destruct (descend_rep u h bt t (fun _ => false) Ht) as (pid & A & es & B & Hd & Hl & He & HA & _ & Hc & Hn & Hf).
  unfold btree_scan. rewrite Hd. cbn [mbind option_bind].
  pose proof (visit_chain_ok visit (fun _ => Visit) ((pid, es) :: B) (bt_fuel bt) bt ctx Hc Hn Hf) as Hv. cbn [head_leaf fst] in Hv. rewrite Hv, act_scan.
  do 2 f_equal. rewrite He. destruct (mjoin A.*2) as [|e X]; [done|]. inversion_clear HA as [|? ? (k & _ & Hk) _]. done.
Qed.

Lemma filter_prefix (P : Z * Z -> Prop) `{!forall x, Decision (P x)} (X Y : list (Z * Z)) : (forall e, e ∈ X -> ~ P e) -> filter P (X ++ Y) = filter P Y.
Proof.
  intros Hx. rewrite list.filter_app. assert (filter P X = []) as ->; [|done]. clear -Hx. induction X as [|x X IH]; [done|].
  rewrite filter_cons_False by (apply Hx; constructor). apply IH. intros e He. apply Hx. by constructor.
Qed.

Lemma btree_find_all_ok {C} (visit : Z -> Z -> C -> C * Z) key ctx : btree_find_all bt key visit ctx = Some (visit_list visit (filter (fun e => e.1 = key) L) ctx).
Proof.
  pose proof (btree_rep_sorted _ _ _ _ Hrep) as Hsort%kle_sorted_le. destruct Hrep as (t & Ht & <-).
  destruct (descend_rep u h bt t (fun k => k <? key) Ht) as (pid & A & es & B & Hd & Hl & He & HA & _ & Hc & Hn & Hf).
  unfold btree_find_all. rewrite Hd. cbn [mbind option_bind].
  pose proof (visit_chain_ok visit (fun k => if k <? key then Skip else if key <? k then Stop else Visit) ((pid, es) :: B) (bt_fuel bt) bt ctx Hc Hn Hf) as Hv.
  cbn [head_leaf fst] in Hv. rewrite He in *. apply sorted_app_iff in Hsort as (_ & Hsort & _). rewrite Hv, act_equal by exact Hsort.
  rewrite filter_prefix; [done|]. intros e Hin Hk. rewrite list.Forall_forall in HA. destruct (HA _ Hin) as (k & Hk' & Hp%Z.ltb_lt). apply kle_le in Hk'. lia.
Qed.

Lemma btree_seek_scan_ok {C} (visit : Z -> Z -> C -> C * Z) start ctx :
  u = true -> btree_seek_scan bt start visit ctx = Some (visit_list visit (filter (fun e => start <= e.1) L) ctx).
Proof.
  intros Hu. destruct Hrep as (t & Ht & <-).
  destruct (descend_rep u h bt t (fun k => k <=? start) Ht) as (pid & A & es & B & Hd & Hl & He & HA & _ & Hc & Hn & Hf).
  unfold btree_seek_scan. rewrite Hd. cbn [mbind option_bind].
  pose proof (visit_chain_ok visit (fun k => if k <? start then Skip else Visit) ((pid, es) :: B) (bt_fuel bt) bt ctx Hc Hn Hf) as Hv.
  cbn [head_leaf fst] in Hv. rewrite Hv, act_from, He. rewrite filter_prefix; [done|]. intros e Hin Hk.
  rewrite list.Forall_forall in HA. destruct (HA _ Hin) as (k & Hk' & Hp%Z.leb_le). rewrite Hu in Hk'. simpl in Hk'. lia.
Qed.

(** With several entries per key the seek may start after some entries equal to the bound. *)
Lemma btree_seek_scan_dup start : exists L1 L2, L = L1 ++ L2 /\ (forall e, e ∈ L1 -> e.1 <= start) /\
  forall C (visit : Z -> Z -> C -> C * Z) ctx, btree_seek_scan bt start visit ctx = Some (visit_list visit (filter (fun e => start <= e.1) L2) ctx).
Proof.
  destruct Hrep as (t & Ht & <-).
  destruct (descend_rep u h bt t (fun k => k <=? start) Ht) as (pid & A & es & B & Hd & Hl & He & HA & _ & Hc & Hn & Hf).
  eexists _, _. split; [exact He|]. split.
  - intros e Hin. rewrite list.Forall_forall in HA. destruct (HA _ Hin) as (k & Hk%kle_le & Hp%Z.leb_le). lia.
  - intros C visit ctx. unfold btree_seek_scan. rewrite Hd. cbn [mbind option_bind].
    pose proof (visit_chain_ok visit (fun k => if k <? start then Skip else Visit) ((pid, es) :: B) (bt_fuel bt) bt ctx Hc Hn Hf) as Hv.
    cbn [head_leaf fst] in Hv. rewrite Hv, act_from. done.
Qed.

Lemma leaf_find_pairs es key : leaf_find es.*1 es.*2 key = snd <$> head (filter (fun e => e.1 = key) es).
Proof.
  induction es as [|[k v] es IH]; [done|]. rewrite !fmap_cons. cbn [leaf_find fst snd]. destruct (Z.eqb_spec k key).
  - by rewrite filter_cons_True.
  - by rewrite filter_cons_False.
Qed.

Lemma btree_search_ok key : u = true -> btree_search bt key = snd <$> head (filter (fun e => e.1 = key) L).
Proof.
  intros Hu. destruct Hrep as (t & Ht & <-).
  destruct (descend_rep u h bt t (fun k => k <=? key) Ht) as (pid & A & es & B & Hd & Hl & He & HA & HB & Hc & Hn & Hf).
  unfold btree_search. rewrite Hd. cbn [mbind option_bind]. destruct Hc as [Hpg _]. unfold leaf_at in Hpg. cbn [fst snd] in Hpg. unfold fetch. rewrite Hpg, leaf_find_pairs.
  rewrite He, filter_prefix.
  - rewrite list.filter_app. assert (filter (fun e : Z * Z => e.1 = key) (mjoin B.*2) = []) as ->; [|by rewrite app_nil_r].
    rewrite <- (app_nil_r (mjoin B.*2)), filter_prefix; [done|]. intros e Hin Hk. rewrite list.Forall_forall in HB. destruct (HB _ Hin) as (k & Hk' & Hp%Z.leb_gt). lia.
  - intros e Hin Hk. rewrite list.Forall_forall in HA. destruct (HA _ Hin) as (k & Hk' & Hp%Z.leb_le). rewrite Hu in Hk'. simpl in Hk'. lia.
Qed.
End Reads.

(** ** Histories of writes *)

Inductive bt_op := BInsert (key val : Z) | BDelete (key val : Z) | BReload.

(** [u] selects [btree_insert] (unique keys) or [btree_insert_dup]. *)
Definition bt_exec (u : bool) (bt : BTree) (op : bt_op) : option (BTree * Z) :=
  match op with
  | BInsert k v => if u then btree_insert bt k v else btree_insert_dup bt k v
  | BDelete k v => btree_delete_val bt k v
  | BReload => Some (btree_reload_root bt, 0)
  end.

Fixpoint bt_run (u : bool) (bt : BTree) (ops : list bt_op) : option (BTree * list Z) :=
  match ops with
  | [] => Some (bt, [])
  | op :: r => '(bt, rc) ← bt_exec u bt op; '(bt, rcs) ← bt_run u bt r; Some (bt, rc :: rcs)
  end.

(** The contract on the list of entries: an insertion replaces the value of an existing
    key (unique) or adds the pair among its equals; a deletion removes the first
    occurrence of the pair. *)
Inductive bt_spec (u : bool) : list (Z * Z) -> list bt_op -> list Z -> list (Z * Z) -> Prop :=
| spec_nil L : bt_spec u L [] [] L
| spec_insert L L1 L' k v ops rcs : inserted u k v L L1 -> bt_spec u L1 ops rcs L' -> bt_spec u L (BInsert k v :: ops) (0 :: rcs) L'
| spec_delete L1 L2 L' k v ops rcs :
    (k, v) ∉ L1 -> bt_spec u (L1 ++ L2) ops rcs L' -> bt_spec u (L1 ++ (k, v) :: L2) (BDelete k v :: ops) (0 :: rcs) L'
| spec_absent L L' k v ops rcs : (k, v) ∉ L -> bt_spec u L ops rcs L' -> bt_spec u L (BDelete k v :: ops) (-1 :: rcs) L'
| spec_reload L L' ops rcs : bt_spec u L ops rcs L' -> bt_spec u L (BReload :: ops) (0 :: rcs) L'.

Lemma bt_run_ok u ops : forall h bt L,
  btree_rep u h bt L -> num_pages bt + blen ops * (Z.of_nat h + blen ops + 2) <= room bt ->
  exists bt' rcs L' h', bt_run u bt ops = Some (bt', rcs) /\ bt_spec u L ops rcs L' /\ btree_rep u h' bt' L'.
Proof.
  induction ops as [|op ops IH]; intros h bt L Hrep Hroom; [exists bt, [], L, h; split; [done|]; split; [constructor|done]|].
  assert (Hb : blen (op :: ops) = 1 + blen ops) by (unfold blen; simpl; lia). rewrite Hb in Hroom. pose proof (blen_nonneg ops). cbn [bt_run].
  destruct op as [k v|k v|]; cbn [bt_exec].
  - assert (Hi : (if u then btree_insert bt k v else btree_insert_dup bt k v) = insert_root bt k v (negb u)) by (by destruct u). rewrite Hi.
    destruct (insert_root_ok u h bt L k v Hrep ltac:(nia)) as (bt1 & h1 & L1 & -> & Hrep1 & Hins & Hh & Hnp & Hrm). cbn [mbind option_bind].
    destruct (IH h1 bt1 L1 Hrep1) as (bt' & rcs & L' & h' & -> & Hs & Hr'); [rewrite Hrm; nia|].
    exists bt', (0 :: rcs), L', h'. split; [done|]. split; [by econstructor|done].
  - destruct (btree_delete_ok u h bt L k v Hrep) as (bt1 & rc & L1 & -> & Hrep1 & Hnp & Hrm & Hcase). cbn [mbind option_bind].
    destruct (IH h bt1 L1 Hrep1) as (bt' & rcs & L' & h' & -> & Hs & Hr'); [rewrite Hrm, Hnp; nia|].
    exists bt', (rc :: rcs), L', h'. split; [done|]. split; [|done]. destruct Hcase as [(-> & -> & -> & Hni)|(-> & X & Y & -> & Hni & ->)]; by constructor.
  - destruct Hrep as (t & Ht & <-). destruct (IH h (btree_reload_root bt) (entries t)) as (bt' & rcs & L' & h' & Hrun & Hs & Hr').
    + exists t. split; [|done]. destruct Ht as [? ? ? ? ? Hm ?]. split; simpl; try done; congruence.
    + simpl. nia.
    + cbn [mbind option_bind]. rewrite Hrun. exists bt', (0 :: rcs), L', h'. split; [done|]. split; [by constructor|done].
Qed.

(** C6. The index is a sorted list of pairs: any history of insertions (all unique or all
    with duplicates), deletions and reloads on a new file does to the list what the
    contract says; afterwards a scan visits exactly the list in ascending order and a
    lookup exactly the entries of its key, for any visitor and up to the point where it
    stops.  Point searches and range scans are claimed exact only for unique keys: with
    duplicates a range scan can miss entries equal to its start
    ([btree_seek_scan_misses]).  The operations are total while the file can grow (a height's worth of pages each). *)
Theorem btree_refines u rm ops :
  2 + blen ops * (blen ops + 2) <= rm ->
  exists bt0 bt rcs L, btree_open (mkBT ∅ 0 0 rm 0) = Some bt0 /\ bt_run u bt0 ops = Some (bt, rcs) /\ bt_spec u [] ops rcs L /\
    StronglySorted (fun a b => kle u a.1 b.1) L /\
    (forall C (visit : Z -> Z -> C -> C * Z) ctx, btree_scan bt visit ctx = Some (visit_list visit L ctx)) /\
    (forall C (visit : Z -> Z -> C -> C * Z) key ctx, btree_find_all bt key visit ctx = Some (visit_list visit (filter (fun e => e.1 = key) L) ctx)) /\
    (u = true ->
      (forall key, btree_search bt key = snd <$> head (filter (fun e => e.1 = key) L)) /\
      (forall C (visit : Z -> Z -> C -> C * Z) start ctx, btree_seek_scan bt start visit ctx = Some (visit_list visit (filter (fun e => start <= e.1) L) ctx))).
Proof.
  intros Hrm. pose proof (blen_nonneg ops). destruct (open_rep u rm ltac:(nia)) as (bt0 & Ho & Hrep & Hnp & Hroom).
  destruct (bt_run_ok u ops 0 bt0 [] Hrep) as (bt & rcs & L & h & Hrun & Hs & Hr); [rewrite Hnp, Hroom; simpl Z.of_nat; nia|].
  exists bt0, bt, rcs, L. split; [done|]. split; [done|]. split; [done|]. split; [by eapply btree_rep_sorted|].
  split; [intros; by eapply btree_scan_ok|]. split; [intros; by eapply btree_find_all_ok|]. intros Hu.
  split; [intros; by eapply btree_search_ok|intros; by eapply btree_seek_scan_ok].
Qed.

Definition demo_inserts : list bt_op := (fun k => BInsert (k mod 11) k) <$> seqZ 0 30.

Lemma btree_refines_witness :
  exists bt0 bt rcs L, btree_open (mkBT ∅ 0 0 1000 0) = Some bt0 /\ bt_run true bt0 demo_inserts = Some (bt, rcs) /\ bt_spec true [] demo_inserts rcs L /\
    btree_search bt 7 = snd <$> head (filter (fun e => e.1 = 7) L).
Proof.
  destruct (btree_refines true 1000 demo_inserts ltac:(by vm_compute)) as (bt0 & bt & rcs & L & H1 & H2 & H3 & _ & _ & _ & H4).
  exists bt0, bt, rcs, L. split; [exact H1|]. split; [exact H2|]. split; [exact H3|]. by apply H4.
Defined.

(** Range scans of an index with duplicates can miss entries: nine pairs with key 5
    split into two leaves with separator 5, the scan from 5 starts in the right leaf and
    visits five of them, while a lookup of key 5 visits all nine. *)
Theorem btree_seek_scan_misses :
  let collect (k v : Z) (acc : list (Z * Z)) := (acc ++ [(k, v)], 0) in
  exists bt0 bt rcs, btree_open (mkBT ∅ 0 0 10 0) = Some bt0 /\ bt_run false bt0 ((fun i => BInsert 5 i) <$> seqZ 0 9) = Some (bt, rcs) /\
    (length <$> (fst <$> btree_find_all bt 5 collect [])) = Some 9%nat /\
    (length <$> (fst <$> btree_seek_scan bt 5 collect [])) = Some 5%nat.
Proof.
  cbn zeta. eexists _, _, _. split; [by vm_compute|]. split; [vm_compute; reflexivity|]. split; by vm_compute.
Qed.
