(* ===== verification/RaftState.v ===== *)
(** * Raft: the node's structure and its messages (src/src/raft.h)

    The C structures [RaftEntry], [RaftMsg] and [Raft] as records.  The log array
    is the list of its live prefix, so [log_len] is its length, and likewise
    [n_entries] is the length of [m_entries].  Terms, epochs and member masks are
    unsigned and wrap; indices and timers are unbounded.  A [set_] function is
    the assignment of one field. *)
From S2P Require Import Prelude.

Definition RAFT_MAX_NODES : nat := 7.
Definition RAFT_MAX_BATCH : nat := 16.

Inductive RaftRole := RAFT_FOLLOWER | RAFT_CANDIDATE | RAFT_LEADER.

#[export] Instance RaftRole_eq_dec : EqDecision RaftRole.
Proof. solve_decision. Defined.

Record RaftEntry := mkEnt { e_term : Z; e_command : Z; e_is_config : bool; e_is_noop : bool }.

#[export] Instance RaftEntry_eq_dec : EqDecision RaftEntry.
Proof. solve_decision. Defined.

Inductive RaftMsgType :=
  | MSG_REQUEST_VOTE | MSG_REQUEST_VOTE_REPLY
  | MSG_APPEND_ENTRIES | MSG_APPEND_ENTRIES_REPLY
  | MSG_INSTALL_SNAPSHOT | MSG_INSTALL_SNAPSHOT_REPLY.

#[export] Instance RaftMsgType_eq_dec : EqDecision RaftMsgType.
Proof. solve_decision. Defined.

Record RaftMsg := mkMsg {
  m_type : RaftMsgType; m_from : nat; m_to : nat; m_term : Z; m_last_log_index : Z;
  m_last_log_term : Z; m_vote_granted : bool; m_prev_log_index : Z; m_prev_log_term : Z;
  m_leader_commit : Z; m_entries : list RaftEntry; m_success : bool; m_match_index : Z;
  m_read_epoch : Z; m_last_included_index : Z; m_last_included_term : Z; m_snapshot_value : Z;
  m_member_mask : Z }.

#[export] Instance RaftMsg_eq_dec : EqDecision RaftMsg.
Proof. solve_decision. Defined.

(** The two callbacks of the host: what they were called with, in order, is the
    content of the context they share. *)
Inductive ApplyEvent :=
  | EvApply (node : nat) (index command : Z)
  | EvSnap (node : nat) (index value : Z).

Record Raft := mkRaft {
  node_id : nat; n_nodes : Z; member_mask : Z; base_member_mask : Z; pending_config_index : Z;
  current_term : Z; voted_for : Z; log : list RaftEntry; log_cap : Z; log_base : Z;
  snapshot_value : Z; role : RaftRole; commit_index : Z; last_applied : Z; votes_granted : Z;
  next_index : list Z; match_index : list Z; read_gate_index : Z; election_elapsed : Z;
  election_timeout : Z; heartbeat_elapsed : Z; heartbeat_timeout : Z; read_barrier_index : Z;
  read_ack_mask : Z; read_confirmed_index : Z; read_epoch : Z; has_apply : bool;
  has_snap_install : bool; apply_ctx : list ApplyEvent }.

(** [x |> f] passes a structure through a sequence of assignments. *)
Notation "x |> f" := (f x) (at level 50, left associativity, only parsing) : db_scope.

Definition entry0 : RaftEntry := mkEnt 0 0 false false.

(** [memset(&m, 0, sizeof(m))]. *)
Definition msg0 : RaftMsg :=
  mkMsg MSG_REQUEST_VOTE 0 0 0 0 0 false 0 0 0 [] false 0 0 0 0 0 0.

Definition set_m_type (x : RaftMsgType) (m : RaftMsg) : RaftMsg :=
  mkMsg x (m_from m) (m_to m) (m_term m) (m_last_log_index m) (m_last_log_term m)
    (m_vote_granted m) (m_prev_log_index m) (m_prev_log_term m) (m_leader_commit m) (m_entries m)
    (m_success m) (m_match_index m) (m_read_epoch m) (m_last_included_index m)
    (m_last_included_term m) (m_snapshot_value m) (m_member_mask m).
Definition set_m_from (x : nat) (m : RaftMsg) : RaftMsg :=
  mkMsg (m_type m) x (m_to m) (m_term m) (m_last_log_index m) (m_last_log_term m)
    (m_vote_granted m) (m_prev_log_index m) (m_prev_log_term m) (m_leader_commit m) (m_entries m)
    (m_success m) (m_match_index m) (m_read_epoch m) (m_last_included_index m)
    (m_last_included_term m) (m_snapshot_value m) (m_member_mask m).
Definition set_m_to (x : nat) (m : RaftMsg) : RaftMsg :=
  mkMsg (m_type m) (m_from m) x (m_term m) (m_last_log_index m) (m_last_log_term m)
    (m_vote_granted m) (m_prev_log_index m) (m_prev_log_term m) (m_leader_commit m) (m_entries m)
    (m_success m) (m_match_index m) (m_read_epoch m) (m_last_included_index m)
    (m_last_included_term m) (m_snapshot_value m) (m_member_mask m).
Definition set_m_term (x : Z) (m : RaftMsg) : RaftMsg :=
  mkMsg (m_type m) (m_from m) (m_to m) x (m_last_log_index m) (m_last_log_term m)
    (m_vote_granted m) (m_prev_log_index m) (m_prev_log_term m) (m_leader_commit m) (m_entries m)
    (m_success m) (m_match_index m) (m_read_epoch m) (m_last_included_index m)
    (m_last_included_term m) (m_snapshot_value m) (m_member_mask m).
Definition set_m_last_log_index (x : Z) (m : RaftMsg) : RaftMsg :=
  mkMsg (m_type m) (m_from m) (m_to m) (m_term m) x (m_last_log_term m) (m_vote_granted m)
    (m_prev_log_index m) (m_prev_log_term m) (m_leader_commit m) (m_entries m) (m_success m)
    (m_match_index m) (m_read_epoch m) (m_last_included_index m) (m_last_included_term m)
    (m_snapshot_value m) (m_member_mask m).
Definition set_m_last_log_term (x : Z) (m : RaftMsg) : RaftMsg :=
  mkMsg (m_type m) (m_from m) (m_to m) (m_term m) (m_last_log_index m) x (m_vote_granted m)
    (m_prev_log_index m) (m_prev_log_term m) (m_leader_commit m) (m_entries m) (m_success m)
    (m_match_index m) (m_read_epoch m) (m_last_included_index m) (m_last_included_term m)
    (m_snapshot_value m) (m_member_mask m).
Definition set_m_vote_granted (x : bool) (m : RaftMsg) : RaftMsg :=
  mkMsg (m_type m) (m_from m) (m_to m) (m_term m) (m_last_log_index m) (m_last_log_term m) x
    (m_prev_log_index m) (m_prev_log_term m) (m_leader_commit m) (m_entries m) (m_success m)
    (m_match_index m) (m_read_epoch m) (m_last_included_index m) (m_last_included_term m)
    (m_snapshot_value m) (m_member_mask m).
Definition set_m_prev_log_index (x : Z) (m : RaftMsg) : RaftMsg :=
  mkMsg (m_type m) (m_from m) (m_to m) (m_term m) (m_last_log_index m) (m_last_log_term m)
    (m_vote_granted m) x (m_prev_log_term m) (m_leader_commit m) (m_entries m) (m_success m)
    (m_match_index m) (m_read_epoch m) (m_last_included_index m) (m_last_included_term m)
    (m_snapshot_value m) (m_member_mask m).
Definition set_m_prev_log_term (x : Z) (m : RaftMsg) : RaftMsg :=
  mkMsg (m_type m) (m_from m) (m_to m) (m_term m) (m_last_log_index m) (m_last_log_term m)
    (m_vote_granted m) (m_prev_log_index m) x (m_leader_commit m) (m_entries m) (m_success m)
    (m_match_index m) (m_read_epoch m) (m_last_included_index m) (m_last_included_term m)
    (m_snapshot_value m) (m_member_mask m).
Definition set_m_leader_commit (x : Z) (m : RaftMsg) : RaftMsg :=
  mkMsg (m_type m) (m_from m) (m_to m) (m_term m) (m_last_log_index m) (m_last_log_term m)
    (m_vote_granted m) (m_prev_log_index m) (m_prev_log_term m) x (m_entries m) (m_success m)
    (m_match_index m) (m_read_epoch m) (m_last_included_index m) (m_last_included_term m)
    (m_snapshot_value m) (m_member_mask m).
Definition set_m_entries (x : list RaftEntry) (m : RaftMsg) : RaftMsg :=
  mkMsg (m_type m) (m_from m) (m_to m) (m_term m) (m_last_log_index m) (m_last_log_term m)
    (m_vote_granted m) (m_prev_log_index m) (m_prev_log_term m) (m_leader_commit m) x (m_success m)
    (m_match_index m) (m_read_epoch m) (m_last_included_index m) (m_last_included_term m)
    (m_snapshot_value m) (m_member_mask m).
Definition set_m_success (x : bool) (m : RaftMsg) : RaftMsg :=
  mkMsg (m_type m) (m_from m) (m_to m) (m_term m) (m_last_log_index m) (m_last_log_term m)
    (m_vote_granted m) (m_prev_log_index m) (m_prev_log_term m) (m_leader_commit m) (m_entries m) x
    (m_match_index m) (m_read_epoch m) (m_last_included_index m) (m_last_included_term m)
    (m_snapshot_value m) (m_member_mask m).
Definition set_m_match_index (x : Z) (m : RaftMsg) : RaftMsg :=
  mkMsg (m_type m) (m_from m) (m_to m) (m_term m) (m_last_log_index m) (m_last_log_term m)
    (m_vote_granted m) (m_prev_log_index m) (m_prev_log_term m) (m_leader_commit m) (m_entries m)
    (m_success m) x (m_read_epoch m) (m_last_included_index m) (m_last_included_term m)
    (m_snapshot_value m) (m_member_mask m).
Definition set_m_read_epoch (x : Z) (m : RaftMsg) : RaftMsg :=
  mkMsg (m_type m) (m_from m) (m_to m) (m_term m) (m_last_log_index m) (m_last_log_term m)
    (m_vote_granted m) (m_prev_log_index m) (m_prev_log_term m) (m_leader_commit m) (m_entries m)
    (m_success m) (m_match_index m) x (m_last_included_index m) (m_last_included_term m)
    (m_snapshot_value m) (m_member_mask m).
Definition set_m_last_included_index (x : Z) (m : RaftMsg) : RaftMsg :=
  mkMsg (m_type m) (m_from m) (m_to m) (m_term m) (m_last_log_index m) (m_last_log_term m)
    (m_vote_granted m) (m_prev_log_index m) (m_prev_log_term m) (m_leader_commit m) (m_entries m)
    (m_success m) (m_match_index m) (m_read_epoch m) x (m_last_included_term m) (m_snapshot_value m)
    (m_member_mask m).
Definition set_m_last_included_term (x : Z) (m : RaftMsg) : RaftMsg :=
  mkMsg (m_type m) (m_from m) (m_to m) (m_term m) (m_last_log_index m) (m_last_log_term m)
    (m_vote_granted m) (m_prev_log_index m) (m_prev_log_term m) (m_leader_commit m) (m_entries m)
    (m_success m) (m_match_index m) (m_read_epoch m) (m_last_included_index m) x
    (m_snapshot_value m) (m_member_mask m).
Definition set_m_snapshot_value (x : Z) (m : RaftMsg) : RaftMsg :=
  mkMsg (m_type m) (m_from m) (m_to m) (m_term m) (m_last_log_index m) (m_last_log_term m)
    (m_vote_granted m) (m_prev_log_index m) (m_prev_log_term m) (m_leader_commit m) (m_entries m)
    (m_success m) (m_match_index m) (m_read_epoch m) (m_last_included_index m)
    (m_last_included_term m) x (m_member_mask m).
Definition set_m_member_mask (x : Z) (m : RaftMsg) : RaftMsg :=
  mkMsg (m_type m) (m_from m) (m_to m) (m_term m) (m_last_log_index m) (m_last_log_term m)
    (m_vote_granted m) (m_prev_log_index m) (m_prev_log_term m) (m_leader_commit m) (m_entries m)
    (m_success m) (m_match_index m) (m_read_epoch m) (m_last_included_index m)
    (m_last_included_term m) (m_snapshot_value m) x.

Definition set_member_mask (x : Z) (r : Raft) : Raft :=
  mkRaft (node_id r) (n_nodes r) x (base_member_mask r) (pending_config_index r) (current_term r)
    (voted_for r) (log r) (log_cap r) (log_base r) (snapshot_value r) (role r) (commit_index r)
    (last_applied r) (votes_granted r) (next_index r) (match_index r) (read_gate_index r)
    (election_elapsed r) (election_timeout r) (heartbeat_elapsed r) (heartbeat_timeout r)
    (read_barrier_index r) (read_ack_mask r) (read_confirmed_index r) (read_epoch r) (has_apply r)
    (has_snap_install r) (apply_ctx r).
Definition set_base_member_mask (x : Z) (r : Raft) : Raft :=
  mkRaft (node_id r) (n_nodes r) (member_mask r) x (pending_config_index r) (current_term r)
    (voted_for r) (log r) (log_cap r) (log_base r) (snapshot_value r) (role r) (commit_index r)
    (last_applied r) (votes_granted r) (next_index r) (match_index r) (read_gate_index r)
    (election_elapsed r) (election_timeout r) (heartbeat_elapsed r) (heartbeat_timeout r)
    (read_barrier_index r) (read_ack_mask r) (read_confirmed_index r) (read_epoch r) (has_apply r)
    (has_snap_install r) (apply_ctx r).
Definition set_pending_config_index (x : Z) (r : Raft) : Raft :=
  mkRaft (node_id r) (n_nodes r) (member_mask r) (base_member_mask r) x (current_term r)
    (voted_for r) (log r) (log_cap r) (log_base r) (snapshot_value r) (role r) (commit_index r)
    (last_applied r) (votes_granted r) (next_index r) (match_index r) (read_gate_index r)
    (election_elapsed r) (election_timeout r) (heartbeat_elapsed r) (heartbeat_timeout r)
    (read_barrier_index r) (read_ack_mask r) (read_confirmed_index r) (read_epoch r) (has_apply r)
    (has_snap_install r) (apply_ctx r).
Definition set_current_term (x : Z) (r : Raft) : Raft :=
  mkRaft (node_id r) (n_nodes r) (member_mask r) (base_member_mask r) (pending_config_index r) x
    (voted_for r) (log r) (log_cap r) (log_base r) (snapshot_value r) (role r) (commit_index r)
    (last_applied r) (votes_granted r) (next_index r) (match_index r) (read_gate_index r)
    (election_elapsed r) (election_timeout r) (heartbeat_elapsed r) (heartbeat_timeout r)
    (read_barrier_index r) (read_ack_mask r) (read_confirmed_index r) (read_epoch r) (has_apply r)
    (has_snap_install r) (apply_ctx r).
Definition set_voted_for (x : Z) (r : Raft) : Raft :=
  mkRaft (node_id r) (n_nodes r) (member_mask r) (base_member_mask r) (pending_config_index r)
    (current_term r) x (log r) (log_cap r) (log_base r) (snapshot_value r) (role r) (commit_index r)
    (last_applied r) (votes_granted r) (next_index r) (match_index r) (read_gate_index r)
    (election_elapsed r) (election_timeout r) (heartbeat_elapsed r) (heartbeat_timeout r)
    (read_barrier_index r) (read_ack_mask r) (read_confirmed_index r) (read_epoch r) (has_apply r)
    (has_snap_install r) (apply_ctx r).
Definition set_log (x : list RaftEntry) (r : Raft) : Raft :=
  mkRaft (node_id r) (n_nodes r) (member_mask r) (base_member_mask r) (pending_config_index r)
    (current_term r) (voted_for r) x (log_cap r) (log_base r) (snapshot_value r) (role r)
    (commit_index r) (last_applied r) (votes_granted r) (next_index r) (match_index r)
    (read_gate_index r) (election_elapsed r) (election_timeout r) (heartbeat_elapsed r)
    (heartbeat_timeout r) (read_barrier_index r) (read_ack_mask r) (read_confirmed_index r)
    (read_epoch r) (has_apply r) (has_snap_install r) (apply_ctx r).
Definition set_log_cap (x : Z) (r : Raft) : Raft :=
  mkRaft (node_id r) (n_nodes r) (member_mask r) (base_member_mask r) (pending_config_index r)
    (current_term r) (voted_for r) (log r) x (log_base r) (snapshot_value r) (role r)
    (commit_index r) (last_applied r) (votes_granted r) (next_index r) (match_index r)
    (read_gate_index r) (election_elapsed r) (election_timeout r) (heartbeat_elapsed r)
    (heartbeat_timeout r) (read_barrier_index r) (read_ack_mask r) (read_confirmed_index r)
    (read_epoch r) (has_apply r) (has_snap_install r) (apply_ctx r).
Definition set_log_base (x : Z) (r : Raft) : Raft :=
  mkRaft (node_id r) (n_nodes r) (member_mask r) (base_member_mask r) (pending_config_index r)
    (current_term r) (voted_for r) (log r) (log_cap r) x (snapshot_value r) (role r)
    (commit_index r) (last_applied r) (votes_granted r) (next_index r) (match_index r)
    (read_gate_index r) (election_elapsed r) (election_timeout r) (heartbeat_elapsed r)
    (heartbeat_timeout r) (read_barrier_index r) (read_ack_mask r) (read_confirmed_index r)
    (read_epoch r) (has_apply r) (has_snap_install r) (apply_ctx r).
Definition set_snapshot_value (x : Z) (r : Raft) : Raft :=
  mkRaft (node_id r) (n_nodes r) (member_mask r) (base_member_mask r) (pending_config_index r)
    (current_term r) (voted_for r) (log r) (log_cap r) (log_base r) x (role r) (commit_index r)
    (last_applied r) (votes_granted r) (next_index r) (match_index r) (read_gate_index r)
    (election_elapsed r) (election_timeout r) (heartbeat_elapsed r) (heartbeat_timeout r)
    (read_barrier_index r) (read_ack_mask r) (read_confirmed_index r) (read_epoch r) (has_apply r)
    (has_snap_install r) (apply_ctx r).
Definition set_role (x : RaftRole) (r : Raft) : Raft :=
  mkRaft (node_id r) (n_nodes r) (member_mask r) (base_member_mask r) (pending_config_index r)
    (current_term r) (voted_for r) (log r) (log_cap r) (log_base r) (snapshot_value r) x
    (commit_index r) (last_applied r) (votes_granted r) (next_index r) (match_index r)
    (read_gate_index r) (election_elapsed r) (election_timeout r) (heartbeat_elapsed r)
    (heartbeat_timeout r) (read_barrier_index r) (read_ack_mask r) (read_confirmed_index r)
    (read_epoch r) (has_apply r) (has_snap_install r) (apply_ctx r).
Definition set_commit_index (x : Z) (r : Raft) : Raft :=
  mkRaft (node_id r) (n_nodes r) (member_mask r) (base_member_mask r) (pending_config_index r)
    (current_term r) (voted_for r) (log r) (log_cap r) (log_base r) (snapshot_value r) (role r) x
    (last_applied r) (votes_granted r) (next_index r) (match_index r) (read_gate_index r)
    (election_elapsed r) (election_timeout r) (heartbeat_elapsed r) (heartbeat_timeout r)
    (read_barrier_index r) (read_ack_mask r) (read_confirmed_index r) (read_epoch r) (has_apply r)
    (has_snap_install r) (apply_ctx r).
Definition set_last_applied (x : Z) (r : Raft) : Raft :=
  mkRaft (node_id r) (n_nodes r) (member_mask r) (base_member_mask r) (pending_config_index r)
    (current_term r) (voted_for r) (log r) (log_cap r) (log_base r) (snapshot_value r) (role r)
    (commit_index r) x (votes_granted r) (next_index r) (match_index r) (read_gate_index r)
    (election_elapsed r) (election_timeout r) (heartbeat_elapsed r) (heartbeat_timeout r)
    (read_barrier_index r) (read_ack_mask r) (read_confirmed_index r) (read_epoch r) (has_apply r)
    (has_snap_install r) (apply_ctx r).
Definition set_votes_granted (x : Z) (r : Raft) : Raft :=
  mkRaft (node_id r) (n_nodes r) (member_mask r) (base_member_mask r) (pending_config_index r)
    (current_term r) (voted_for r) (log r) (log_cap r) (log_base r) (snapshot_value r) (role r)
    (commit_index r) (last_applied r) x (next_index r) (match_index r) (read_gate_index r)
    (election_elapsed r) (election_timeout r) (heartbeat_elapsed r) (heartbeat_timeout r)
    (read_barrier_index r) (read_ack_mask r) (read_confirmed_index r) (read_epoch r) (has_apply r)
    (has_snap_install r) (apply_ctx r).
Definition set_next_index (x : list Z) (r : Raft) : Raft :=
  mkRaft (node_id r) (n_nodes r) (member_mask r) (base_member_mask r) (pending_config_index r)
    (current_term r) (voted_for r) (log r) (log_cap r) (log_base r) (snapshot_value r) (role r)
    (commit_index r) (last_applied r) (votes_granted r) x (match_index r) (read_gate_index r)
    (election_elapsed r) (election_timeout r) (heartbeat_elapsed r) (heartbeat_timeout r)
    (read_barrier_index r) (read_ack_mask r) (read_confirmed_index r) (read_epoch r) (has_apply r)
    (has_snap_install r) (apply_ctx r).
Definition set_match_index (x : list Z) (r : Raft) : Raft :=
  mkRaft (node_id r) (n_nodes r) (member_mask r) (base_member_mask r) (pending_config_index r)
    (current_term r) (voted_for r) (log r) (log_cap r) (log_base r) (snapshot_value r) (role r)
    (commit_index r) (last_applied r) (votes_granted r) (next_index r) x (read_gate_index r)
    (election_elapsed r) (election_timeout r) (heartbeat_elapsed r) (heartbeat_timeout r)
    (read_barrier_index r) (read_ack_mask r) (read_confirmed_index r) (read_epoch r) (has_apply r)
    (has_snap_install r) (apply_ctx r).
Definition set_read_gate_index (x : Z) (r : Raft) : Raft :=
  mkRaft (node_id r) (n_nodes r) (member_mask r) (base_member_mask r) (pending_config_index r)
    (current_term r) (voted_for r) (log r) (log_cap r) (log_base r) (snapshot_value r) (role r)
    (commit_index r) (last_applied r) (votes_granted r) (next_index r) (match_index r) x
    (election_elapsed r) (election_timeout r) (heartbeat_elapsed r) (heartbeat_timeout r)
    (read_barrier_index r) (read_ack_mask r) (read_confirmed_index r) (read_epoch r) (has_apply r)
    (has_snap_install r) (apply_ctx r).
Definition set_election_elapsed (x : Z) (r : Raft) : Raft :=
  mkRaft (node_id r) (n_nodes r) (member_mask r) (base_member_mask r) (pending_config_index r)
    (current_term r) (voted_for r) (log r) (log_cap r) (log_base r) (snapshot_value r) (role r)
    (commit_index r) (last_applied r) (votes_granted r) (next_index r) (match_index r)
    (read_gate_index r) x (election_timeout r) (heartbeat_elapsed r) (heartbeat_timeout r)
    (read_barrier_index r) (read_ack_mask r) (read_confirmed_index r) (read_epoch r) (has_apply r)
    (has_snap_install r) (apply_ctx r).
Definition set_heartbeat_elapsed (x : Z) (r : Raft) : Raft :=
  mkRaft (node_id r) (n_nodes r) (member_mask r) (base_member_mask r) (pending_config_index r)
    (current_term r) (voted_for r) (log r) (log_cap r) (log_base r) (snapshot_value r) (role r)
    (commit_index r) (last_applied r) (votes_granted r) (next_index r) (match_index r)
    (read_gate_index r) (election_elapsed r) (election_timeout r) x (heartbeat_timeout r)
    (read_barrier_index r) (read_ack_mask r) (read_confirmed_index r) (read_epoch r) (has_apply r)
    (has_snap_install r) (apply_ctx r).
Definition set_read_barrier_index (x : Z) (r : Raft) : Raft :=
  mkRaft (node_id r) (n_nodes r) (member_mask r) (base_member_mask r) (pending_config_index r)
    (current_term r) (voted_for r) (log r) (log_cap r) (log_base r) (snapshot_value r) (role r)
    (commit_index r) (last_applied r) (votes_granted r) (next_index r) (match_index r)
    (read_gate_index r) (election_elapsed r) (election_timeout r) (heartbeat_elapsed r)
    (heartbeat_timeout r) x (read_ack_mask r) (read_confirmed_index r) (read_epoch r) (has_apply r)
    (has_snap_install r) (apply_ctx r).
Definition set_read_ack_mask (x : Z) (r : Raft) : Raft :=
  mkRaft (node_id r) (n_nodes r) (member_mask r) (base_member_mask r) (pending_config_index r)
    (current_term r) (voted_for r) (log r) (log_cap r) (log_base r) (snapshot_value r) (role r)
    (commit_index r) (last_applied r) (votes_granted r) (next_index r) (match_index r)
    (read_gate_index r) (election_elapsed r) (election_timeout r) (heartbeat_elapsed r)
    (heartbeat_timeout r) (read_barrier_index r) x (read_confirmed_index r) (read_epoch r)
    (has_apply r) (has_snap_install r) (apply_ctx r).
Definition set_read_confirmed_index (x : Z) (r : Raft) : Raft :=
  mkRaft (node_id r) (n_nodes r) (member_mask r) (base_member_mask r) (pending_config_index r)
    (current_term r) (voted_for r) (log r) (log_cap r) (log_base r) (snapshot_value r) (role r)
    (commit_index r) (last_applied r) (votes_granted r) (next_index r) (match_index r)
    (read_gate_index r) (election_elapsed r) (election_timeout r) (heartbeat_elapsed r)
    (heartbeat_timeout r) (read_barrier_index r) (read_ack_mask r) x (read_epoch r) (has_apply r)
    (has_snap_install r) (apply_ctx r).
Definition set_read_epoch (x : Z) (r : Raft) : Raft :=
  mkRaft (node_id r) (n_nodes r) (member_mask r) (base_member_mask r) (pending_config_index r)
    (current_term r) (voted_for r) (log r) (log_cap r) (log_base r) (snapshot_value r) (role r)
    (commit_index r) (last_applied r) (votes_granted r) (next_index r) (match_index r)
    (read_gate_index r) (election_elapsed r) (election_timeout r) (heartbeat_elapsed r)
    (heartbeat_timeout r) (read_barrier_index r) (read_ack_mask r) (read_confirmed_index r) x
    (has_apply r) (has_snap_install r) (apply_ctx r).
Definition set_apply_ctx (x : list ApplyEvent) (r : Raft) : Raft :=
  mkRaft (node_id r) (n_nodes r) (member_mask r) (base_member_mask r) (pending_config_index r)
    (current_term r) (voted_for r) (log r) (log_cap r) (log_base r) (snapshot_value r) (role r)
    (commit_index r) (last_applied r) (votes_granted r) (next_index r) (match_index r)
    (read_gate_index r) (election_elapsed r) (election_timeout r) (heartbeat_elapsed r)
    (heartbeat_timeout r) (read_barrier_index r) (read_ack_mask r) (read_confirmed_index r)
    (read_epoch r) (has_apply r) (has_snap_install r) x.
