(* ===== verification/Raft.v ===== *)
(** * Raft: one node (src/src/raft.c)

    Every function of raft.c on the structure of RaftState: log helpers,
    membership, state transitions, the clock, the client entry points, the six
    message handlers, snapshots, restart and the persistent file.  Reading the
    log outside its bounds, which the handlers never do on a well-formed node,
    yields an empty entry. *)
From S2P Require Import Prelude RaftState.

(** ** Log helpers *)

Definition raft_last_log_index (r : Raft) : Z := log_base r + blen (log r) - 1.

Definition ent (r : Raft) (i : Z) : RaftEntry := nth (Z.to_nat (i - log_base r)) (log r) entry0.

Definition term_at (r : Raft) (i : Z) : Z := e_term (ent r i).

Definition raft_last_log_term (r : Raft) : Z := e_term (nth (length (log r) - 1) (log r) entry0).

(** ** Membership *)

Definition mask_has (m : Z) (i : nat) : bool := Z.testbit m (Z.of_nat i).

(** [(r->member_mask >> id) & 1u] *)
Definition raft_is_member (r : Raft) (i : nat) : bool := mask_has (member_mask r) i.

(** [for (m = mask; m; m &= m - 1) c++]: each round clears one of the 32 bits. *)
Fixpoint popcount_loop (fuel : nat) (m c : Z) : Z :=
  match fuel with
  | O => c
  | S f => if m =? 0 then c else popcount_loop f (Z.land m (m - 1)) (c + 1)
  end.

Definition member_count (r : Raft) : Z := popcount_loop 32 (member_mask r) 0.

Definition majority (r : Raft) : Z := member_count r / 2 + 1.

Definition maybe_adopt_config (r : Raft) (e : RaftEntry) : Raft :=
  if e_is_config e then set_member_mask (u32 (e_command e)) r else r.

(** The mask left by the config entries of a log suffix, in order. *)
Definition fold_config (m : Z) (es : list RaftEntry) : Z :=
  foldl (fun m e => if e_is_config e then u32 (e_command e) else m) m es.

Definition recompute_member_mask (r : Raft) : Raft :=
  set_member_mask (fold_config (base_member_mask r) (tail (log r))) r.

Definition candidate_log_up_to_date (r : Raft) (cand_idx cand_term : Z) : bool :=
  let my_term := raft_last_log_term r in
  let my_idx := raft_last_log_index r in
  if negb (cand_term =? my_term) then my_term <? cand_term else my_idx <=? cand_idx.

(** [for (i = 0; i < RAFT_MAX_NODES; i++)] *)
Definition for_nodes {S} (f : S -> nat -> S) (s : S) : S := foldl f s (seq 0 RAFT_MAX_NODES).

Definition become_follower (term : Z) (r : Raft) : Raft :=
  r |> set_role RAFT_FOLLOWER
    |> set_current_term term
    |> set_voted_for (-1)
    |> set_election_elapsed 0
    |> set_read_barrier_index (-1)
    |> set_read_confirmed_index (-1).

Definition step_down_if_higher (term : Z) (r : Raft) : Raft :=
  if current_term r <? term then become_follower term r else r.

(** The outbox holds [RAFT_MAX_NODES * 2] messages; a further one is dropped. *)
Definition push_msg (out : list RaftMsg) (m : RaftMsg) : list RaftMsg :=
  if (length out <? RAFT_MAX_NODES * 2)%nat then out ++ [m] else out.

Definition send_install_snapshot (r : Raft) (peer : nat) (out : list RaftMsg) : list RaftMsg :=
  push_msg out
    (msg0 |> set_m_type MSG_INSTALL_SNAPSHOT
          |> set_m_from (node_id r)
          |> set_m_to peer
          |> set_m_term (current_term r)
          |> set_m_last_included_index (log_base r)
          |> set_m_last_included_term (e_term (nth 0 (log r) entry0))
          |> set_m_snapshot_value (snapshot_value r)
          |> set_m_member_mask (base_member_mask r)).

Definition next_of (r : Raft) (peer : nat) : Z := nth peer (next_index r) 0.
Definition match_of (r : Raft) (peer : nat) : Z := nth peer (match_index r) 0.

Definition send_append_entries (r : Raft) (peer : nat) (out : list RaftMsg) : list RaftMsg :=
  let prev := next_of r peer - 1 in
  if prev <? log_base r then send_install_snapshot r peer out
  else
    push_msg out
      (msg0 |> set_m_type MSG_APPEND_ENTRIES
            |> set_m_from (node_id r)
            |> set_m_to peer
            |> set_m_term (current_term r)
            |> set_m_prev_log_index prev
            |> set_m_prev_log_term (term_at r prev)
            |> set_m_leader_commit (commit_index r)
            |> set_m_read_epoch (read_epoch r)
            |> set_m_entries
                 (take RAFT_MAX_BATCH (drop (Z.to_nat (next_of r peer - log_base r)) (log r)))).

Definition send_all (r : Raft) (out : list RaftMsg) : list RaftMsg :=
  for_nodes (fun out i =>
    if negb (Nat.eqb i (node_id r)) && raft_is_member r i
    then send_append_entries r i out else out) out.

(** [while (last_applied < commit_index)], which runs [commit_index - last_applied] times. *)
Fixpoint apply_loop (fuel : nat) (r : Raft) : Raft :=
  match fuel with
  | O => r
  | S f =>
      if last_applied r <? commit_index r then
        let r := set_last_applied (last_applied r + 1) r in
        let e := ent r (last_applied r) in
        let r := if has_apply r && negb (e_is_noop e)
                 then set_apply_ctx
                        (apply_ctx r ++ [EvApply (node_id r) (last_applied r) (e_command e)]) r
                 else r in
        apply_loop f r
      else r
  end.

Definition apply_committed (r : Raft) : Raft :=
  apply_loop (Z.to_nat (commit_index r - last_applied r)) r.

(** The members whose log is known to reach [N]. *)
Definition replicated_count (r : Raft) (N : Z) : Z :=
  for_nodes (fun c i => if raft_is_member r i && (N <=? match_of r i) then c + 1 else c) 0.

(** The body of the loop once [N] is replicated on a majority. *)
Definition commit_at (r : Raft) (N : Z) : Raft :=
  let r := set_commit_index N r in
  let r := if (0 <=? pending_config_index r) && (pending_config_index r <=? commit_index r)
           then set_pending_config_index (-1) r else r in
  let r := apply_committed r in
  if negb (raft_is_member r (node_id r)) then become_follower (current_term r) r else r.

(** [for (N = last; N > commit_index; N--)], with [N = commit_index + k]. *)
Fixpoint advance_loop (r : Raft) (k : nat) : Raft :=
  match k with
  | O => r
  | S k' =>
      let N := commit_index r + Z.of_nat k in
      if negb (term_at r N =? current_term r) then advance_loop r k'
      else if majority r <=? replicated_count r N then commit_at r N
      else advance_loop r k'
  end.

Definition leader_advance_commit (r : Raft) : Raft :=
  advance_loop r (Z.to_nat (raft_last_log_index r - commit_index r)).

Section Node.
(** Whether [realloc] grants a block of so many bytes. *)
Variable realloc_ok : Z -> bool.

Definition log_push (r : Raft) (e : RaftEntry) : Raft :=
  maybe_adopt_config (set_log (log r ++ [e]) r) e.

Definition log_append (r : Raft) (e : RaftEntry) : Raft * Z :=
  if log_cap r <=? blen (log r) then
    let cap := log_cap r * 2 in
    if realloc_ok (cap * 24) then (log_push (set_log_cap cap r) e, 0) else (r, -1)
  else (log_push r e, 0).

(** [next_index[i] = last + 1; match_index[i] = 0] for each member. *)
Definition reset_peers (r : Raft) : Raft :=
  for_nodes (fun r i =>
    if negb (raft_is_member r i) then r
    else r |> set_next_index (<[i := raft_last_log_index r + 1]> (next_index r))
           |> set_match_index (<[i := 0]> (match_index r))) r.

Definition take_leader_role (r : Raft) : Raft :=
  r |> set_role RAFT_LEADER |> set_read_barrier_index (-1) |> set_read_confirmed_index (-1).

(** A no-op of the new term, when the log has entries whose fate is unknown. *)
Definition append_noop (r : Raft) : Raft :=
  if commit_index r <? raft_last_log_index r
  then (log_append r (mkEnt (current_term r) 0 false true)).1 else r.

Definition claim_log (r : Raft) : Raft :=
  r |> set_read_gate_index (raft_last_log_index r)
    |> set_match_index (<[node_id r := raft_last_log_index r]> (match_index r)).

Definition become_leader (r : Raft) (out : list RaftMsg) : Raft * list RaftMsg :=
  let r := set_heartbeat_elapsed 0
             (leader_advance_commit (claim_log (append_noop (reset_peers (take_leader_role r))))) in
  (r, send_all r out).

Definition vote_request (r : Raft) (i : nat) : RaftMsg :=
  msg0 |> set_m_type MSG_REQUEST_VOTE
       |> set_m_from (node_id r)
       |> set_m_to i
       |> set_m_term (current_term r)
       |> set_m_last_log_index (raft_last_log_index r)
       |> set_m_last_log_term (raft_last_log_term r).

Definition become_candidate (r : Raft) (out : list RaftMsg) : Raft * list RaftMsg :=
  let r := r |> set_current_term (u64 (current_term r + 1))
             |> set_role RAFT_CANDIDATE
             |> set_voted_for (Z.of_nat (node_id r))
             |> set_votes_granted 1
             |> set_election_elapsed 0 in
  if majority r <=? votes_granted r then become_leader r out
  else (r, for_nodes (fun out i =>
              if Nat.eqb i (node_id r) || negb (raft_is_member r i) then out
              else push_msg out (vote_request r i)) out).

(** ** Initialisation *)

(** [None] is the return code -1; [malloc_ok] is whether the first block is granted. *)
Definition raft_init (malloc_ok : bool) (id : nat) (n el hb : Z) (apply : bool) : option Raft :=
  if (n <? 1) || (Z.of_nat RAFT_MAX_NODES <? n) then None
  else if negb malloc_ok then None
  else
    let mask := if 32 <=? n then 4294967295 else u32 (u32 (Z.shiftl 1 n) - 1) in
    Some (mkRaft id n mask mask (-1) 0 (-1) [entry0] 16 0 0 RAFT_FOLLOWER 0 0 0
            (replicate RAFT_MAX_NODES 0) (replicate RAFT_MAX_NODES 0) 0 0 el 0 hb
            (-1) 0 (-1) 0 apply false []).

(** ** The logical clock *)

Definition raft_tick (r : Raft) (out : list RaftMsg) : Raft * list RaftMsg :=
  if decide (role r = RAFT_LEADER) then
    let r := set_heartbeat_elapsed (heartbeat_elapsed r + 1) r in
    if heartbeat_timeout r <=? heartbeat_elapsed r then
      let r := set_heartbeat_elapsed 0 r in (r, send_all r out)
    else (r, out)
  else if raft_is_member r (node_id r) then
    let r := set_election_elapsed (election_elapsed r + 1) r in
    if election_timeout r <=? election_elapsed r then become_candidate r out else (r, out)
  else (r, out).

(** ** Client entry points *)

Definition raft_submit (r : Raft) (command : Z) : Raft * Z :=
  if negb (bool_decide (role r = RAFT_LEADER)) then (r, -1)
  else
    let '(r, rc) := log_append r (mkEnt (current_term r) command false false) in
    if negb (rc =? 0) then (r, -1)
    else
      let r := set_match_index (<[node_id r := raft_last_log_index r]> (match_index r)) r in
      (r, raft_last_log_index r).

(** Replication starts at 1 for a member that was never a peer before. *)
Definition start_new_peers (new_mask : Z) (r : Raft) : Raft :=
  for_nodes (fun r i =>
    if mask_has new_mask i && negb (Nat.eqb i (node_id r)) && (next_of r i =? 0)
    then r |> set_next_index (<[i := 1]> (next_index r))
           |> set_match_index (<[i := 0]> (match_index r))
    else r) r.

Definition raft_change_config (r : Raft) (new_mask : Z) : Raft * Z :=
  if negb (bool_decide (role r = RAFT_LEADER)) then (r, -1)
  else
    let diff := Z.lxor (member_mask r) new_mask in
    if (diff =? 0) || negb (Z.land diff (diff - 1) =? 0) then (r, -1)
    else if (0 <=? pending_config_index r) && (commit_index r <? pending_config_index r)
    then (r, -1)
    else
      let '(r, rc) := log_append r (mkEnt (current_term r) new_mask true false) in
      if negb (rc =? 0) then (r, -1)
      else
        let r := set_match_index (<[node_id r := raft_last_log_index r]> (match_index r)) r in
        let r := set_pending_config_index (raft_last_log_index r) r in
        let r := start_new_peers new_mask r in
        (r, raft_last_log_index r).

Definition start_barrier (r : Raft) : Raft :=
  r |> set_read_barrier_index (commit_index r)
    |> set_read_confirmed_index (-1)
    |> set_read_ack_mask (u32 (Z.shiftl 1 (Z.of_nat (node_id r))))
    |> set_read_epoch (u64 (read_epoch r + 1)).

(** A cluster of one needs no acknowledgement. *)
Definition confirm_alone (r : Raft) : Raft :=
  if member_count r =? 1
  then r |> set_read_confirmed_index (read_barrier_index r) |> set_read_barrier_index (-1)
  else r.

Definition raft_read_index (r : Raft) (out : list RaftMsg) : Raft * list RaftMsg * Z :=
  if negb (bool_decide (role r = RAFT_LEADER)) then (r, out, -1)
  else if commit_index r <? read_gate_index r then (r, out, -1)
  else
    let r := confirm_alone (start_barrier r) in
    (r, send_all r out, commit_index r).

Definition raft_read_confirmed (r : Raft) : Z := read_confirmed_index r.

(** ** Message handlers *)

Definition reply_to (r : Raft) (msg : RaftMsg) (t : RaftMsgType) : RaftMsg :=
  msg0 |> set_m_type t |> set_m_from (node_id r) |> set_m_to (m_from msg).

Definition handle_request_vote (r : Raft) (msg : RaftMsg) : Raft * RaftMsg :=
  let r := step_down_if_higher (m_term msg) r in
  let reply := reply_to r msg MSG_REQUEST_VOTE_REPLY in
  if m_term msg <? current_term r then (r, set_m_term (current_term r) reply)
  else
    let can_vote := (voted_for r =? -1) || (voted_for r =? Z.of_nat (m_from msg)) in
    if can_vote && candidate_log_up_to_date r (m_last_log_index msg) (m_last_log_term msg) then
      let r := r |> set_voted_for (Z.of_nat (m_from msg)) |> set_election_elapsed 0 in
      (r, reply |> set_m_vote_granted true |> set_m_term (current_term r))
    else (r, set_m_term (current_term r) reply).

Definition handle_request_vote_reply (r : Raft) (msg : RaftMsg) (out : list RaftMsg) :
    Raft * list RaftMsg :=
  if current_term r <? m_term msg then (become_follower (m_term msg) r, out)
  else if negb (bool_decide (role r = RAFT_CANDIDATE)) || negb (m_term msg =? current_term r)
  then (r, out)
  else if m_vote_granted msg then
    let r := set_votes_granted (votes_granted r + 1) r in
    if majority r <=? votes_granted r then become_leader r out else (r, out)
  else (r, out).

(** The loop over the entries: [idx] is the logical index of the first of them,
    the flag is [truncated]. *)
Fixpoint append_loop (r : Raft) (truncated : bool) (idx : Z) (es : list RaftEntry) : Raft * bool :=
  match es with
  | [] => (r, truncated)
  | e :: es =>
      if idx <=? log_base r then append_loop r truncated (idx + 1) es
      else if idx <=? raft_last_log_index r then
        if negb (term_at r idx =? e_term e) then
          let r := set_log (take (Z.to_nat (idx - log_base r)) (log r)) r in
          append_loop (log_append r e).1 true (idx + 1) es
        else append_loop r truncated (idx + 1) es
      else append_loop (log_append r e).1 truncated (idx + 1) es
  end.

Definition handle_append_entries (r : Raft) (msg : RaftMsg) : Raft * RaftMsg :=
  let r := step_down_if_higher (m_term msg) r in
  let reply := set_m_read_epoch (m_read_epoch msg) (reply_to r msg MSG_APPEND_ENTRIES_REPLY) in
  if m_term msg <? current_term r then (r, set_m_term (current_term r) reply)
  else
    let r := r |> set_role RAFT_FOLLOWER |> set_election_elapsed 0 in
    let reply := set_m_term (current_term r) reply in
    if raft_last_log_index r <? m_prev_log_index msg then (r, reply)
    else if (log_base r <=? m_prev_log_index msg) &&
            negb (term_at r (m_prev_log_index msg) =? m_prev_log_term msg)
    then (r, reply)
    else
      let '(r, truncated) := append_loop r false (m_prev_log_index msg + 1) (m_entries msg) in
      let reply := reply |> set_m_success true
                         |> set_m_match_index (m_prev_log_index msg + blen (m_entries msg)) in
      let r := if truncated then recompute_member_mask r else r in
      if commit_index r <? m_leader_commit msg then
        let last := raft_last_log_index r in
        let r := set_commit_index
                   (if m_leader_commit msg <? last then m_leader_commit msg else last) r in
        (apply_committed r, reply)
      else (r, reply).

(** The members whose acknowledgement of the current barrier was counted. *)
Definition ack_count (r : Raft) : Z :=
  for_nodes (fun c i => if raft_is_member r i && mask_has (read_ack_mask r) i then c + 1 else c) 0.

Definition record_match (r : Raft) (msg : RaftMsg) : Raft :=
  let r := if match_of r (m_from msg) <? m_match_index msg
           then set_match_index (<[m_from msg := m_match_index msg]> (match_index r)) r else r in
  set_next_index (<[m_from msg := match_of r (m_from msg) + 1]> (next_index r)) r.

Definition count_ack (r : Raft) (msg : RaftMsg) : Raft :=
  if (0 <=? read_barrier_index r) && (m_read_epoch msg =? read_epoch r) then
    let r := set_read_ack_mask
               (Z.lor (read_ack_mask r) (u32 (Z.shiftl 1 (Z.of_nat (m_from msg))))) r in
    if majority r <=? ack_count r then
      r |> set_read_confirmed_index (read_barrier_index r)
        |> set_read_barrier_index (-1)
    else r
  else r.

Definition handle_append_entries_reply (r : Raft) (msg : RaftMsg) : Raft :=
  if current_term r <? m_term msg then become_follower (m_term msg) r
  else if negb (bool_decide (role r = RAFT_LEADER)) || negb (m_term msg =? current_term r) then r
  else if m_success msg then count_ack (leader_advance_commit (record_match r msg)) msg
  else if 1 <? next_of r (m_from msg) then
    set_next_index (<[m_from msg := next_of r (m_from msg) - 1]> (next_index r)) r
  else r.

Definition handle_install_snapshot (r : Raft) (msg : RaftMsg) : Raft * RaftMsg :=
  let r := step_down_if_higher (m_term msg) r in
  let reply := set_m_term (current_term r) (reply_to r msg MSG_INSTALL_SNAPSHOT_REPLY) in
  if m_term msg <? current_term r then (r, reply)
  else
    let r := r |> set_role RAFT_FOLLOWER |> set_election_elapsed 0 in
    let reply := set_m_match_index (m_last_included_index msg) reply in
    if m_last_included_index msg <=? commit_index r then (r, reply)
    else
      let r := r |> set_log [mkEnt (m_last_included_term msg) 0 false false]
                 |> set_log_base (m_last_included_index msg)
                 |> set_commit_index (m_last_included_index msg)
                 |> set_last_applied (m_last_included_index msg)
                 |> set_snapshot_value (m_snapshot_value msg)
                 |> set_base_member_mask (m_member_mask msg)
                 |> set_member_mask (m_member_mask msg) in
      let r := if has_snap_install r
               then set_apply_ctx (apply_ctx r ++
                      [EvSnap (node_id r) (m_last_included_index msg) (m_snapshot_value msg)]) r
               else r in
      (r, reply).

Definition handle_install_snapshot_reply (r : Raft) (msg : RaftMsg) : Raft :=
  if current_term r <? m_term msg then become_follower (m_term msg) r
  else if negb (bool_decide (role r = RAFT_LEADER)) || negb (m_term msg =? current_term r) then r
  else leader_advance_commit (record_match r msg).

Definition raft_recv (r : Raft) (msg : RaftMsg) (out : list RaftMsg) :
    Raft * option RaftMsg * list RaftMsg :=
  match m_type msg with
  | MSG_REQUEST_VOTE => let '(r, reply) := handle_request_vote r msg in (r, Some reply, out)
  | MSG_REQUEST_VOTE_REPLY => let '(r, out) := handle_request_vote_reply r msg out in (r, None, out)
  | MSG_APPEND_ENTRIES => let '(r, reply) := handle_append_entries r msg in (r, Some reply, out)
  | MSG_APPEND_ENTRIES_REPLY => (handle_append_entries_reply r msg, None, out)
  | MSG_INSTALL_SNAPSHOT => let '(r, reply) := handle_install_snapshot r msg in (r, Some reply, out)
  | MSG_INSTALL_SNAPSHOT_REPLY => (handle_install_snapshot_reply r msg, None, out)
  end.

(** ** Snapshots and restart *)

Definition raft_snapshot (r : Raft) (index sm_state : Z) : Raft * Z :=
  if (index <=? log_base r) || (commit_index r <? index) || (raft_last_log_index r <? index)
  then (r, -1)
  else
    let inc_term := term_at r index in
    let src := Z.to_nat (index + 1 - log_base r) in
    let r' := r |> set_base_member_mask
                     (fold_config (base_member_mask r) (tail (take src (log r))))
                |> set_log (mkEnt inc_term 0 false false :: drop src (log r))
                |> set_log_base index
                |> set_snapshot_value sm_state in
    (r', 0).

Definition raft_crash_restart (r : Raft) : Raft :=
  r |> set_role RAFT_FOLLOWER
    |> set_commit_index (log_base r)
    |> set_last_applied (log_base r)
    |> set_votes_granted 0
    |> set_election_elapsed 0
    |> set_heartbeat_elapsed 0
    |> set_pending_config_index (-1)
    |> set_read_barrier_index (-1)
    |> set_read_confirmed_index (-1)
    |> set_next_index (replicate RAFT_MAX_NODES 0)
    |> set_match_index (replicate RAFT_MAX_NODES 0).

(** ** The persistent file

    A file is its bytes; [limit] is how long the device lets it grow, so that a
    [write] can be cut short. *)

Definition ENTRY_SIZE : Z := 24.

Definition encode_entry (e : RaftEntry) : bytes :=
  le_bytes 8 (e_term e) ++ le_bytes 8 (e_command e) ++
  le_bytes 4 (if e_is_config e then 1 else 0) ++ le_bytes 4 (if e_is_noop e then 1 else 0).

Definition wr_all (limit : Z) (file bs : bytes) : bytes * Z :=
  if blen file + blen bs <=? limit then (file ++ bs, 0)
  else (file ++ take (Z.to_nat (limit - blen file)) bs, -1).

(** [wr_all(..) != 0 || wr_all(..) != 0 || ...] *)
Fixpoint wr_seq (limit : Z) (file : bytes) (l : list bytes) : bytes * Z :=
  match l with
  | [] => (file, 0)
  | bs :: l =>
      let '(file, rc) := wr_all limit file bs in
      if negb (rc =? 0) then (file, -1) else wr_seq limit file l
  end.

Definition raft_fields (r : Raft) : list bytes :=
  [le_bytes 8 (current_term r); le_bytes 4 (voted_for r); le_bytes 4 (member_mask r);
   le_bytes 4 (base_member_mask r); le_bytes 8 (log_base r); le_bytes 8 (snapshot_value r);
   le_bytes 8 (blen (log r)); mjoin (encode_entry <$> log r)].

(** The file left behind and the return code; [O_TRUNC] discards the old content. *)
Definition raft_save (limit : Z) (fsync_ok : bool) (r : Raft) : bytes * Z :=
  let '(file, rc) := wr_seq limit [] (raft_fields r) in
  (file, if fsync_ok then rc else -1).

Definition rd_all (n : Z) (file : bytes) : option (bytes * bytes) :=
  if n <=? blen file then Some (take (Z.to_nat n) file, drop (Z.to_nat n) file) else None.

Definition decode_entry (bs : bytes) : RaftEntry :=
  mkEnt (le_val (take 8 bs)) (i64 (le_val (take 8 (drop 8 bs))))
    (negb (le_val (take 4 (drop 16 bs)) =? 0)) (negb (le_val (take 4 (drop 20 bs)) =? 0)).

Fixpoint decode_entries (n : nat) (bs : bytes) : list RaftEntry :=
  match n with
  | O => []
  | S n => decode_entry bs :: decode_entries n (drop (Z.to_nat ENTRY_SIZE) bs)
  end.

(** [None] is the return code -1, after which the node is not used. *)
Definition raft_load (r : Raft) (file : bytes) : option Raft :=
  '(term, file) ← rd_all 8 file;
  '(voted, file) ← rd_all 4 file;
  '(mask, file) ← rd_all 4 file;
  '(basemask, file) ← rd_all 4 file;
  '(base, file) ← rd_all 8 file;
  '(snap, file) ← rd_all 8 file;
  '(len, file) ← rd_all 8 file;
  let len := i64 (le_val len) in
  if len <? 1 then None
  else
    r ← (if log_cap r <? len then
           if realloc_ok (len * ENTRY_SIZE) then Some (set_log_cap len r) else None
         else Some r);
    '(es, _) ← rd_all (len * ENTRY_SIZE) file;
    let base := i64 (le_val base) in
    let snap := i64 (le_val snap) in
    let r := r |> set_log (decode_entries (Z.to_nat len) es)
               |> set_current_term (le_val term)
               |> set_voted_for (i32 (le_val voted))
               |> set_member_mask (le_val mask)
               |> set_base_member_mask (le_val basemask)
               |> set_pending_config_index (-1)
               |> set_log_base base
               |> set_snapshot_value snap
               |> set_commit_index base
               |> set_last_applied base in
    Some (if (0 <? base) && has_snap_install r
          then set_apply_ctx (apply_ctx r ++ [EvSnap (node_id r) base snap]) r else r).

End Node.

(** ** Counting members *)

(** The members a mask names, as the set of their ids. *)
Definition mask_nodes (m : Z) : list nat := filter (fun i => mask_has m i = true) (seq 0 32).

Fixpoint bitcount (k : nat) (m : Z) : Z :=
  match k with
  | O => 0
  | S k => (if Z.odd m then 1 else 0) + bitcount k (Z.div2 m)
  end.

Lemma clear_lowest_odd q : Z.land (2 * q + 1) (2 * q + 1 - 1) = 2 * q.
Proof.
  replace (2 * q + 1 - 1) with (2 * q) by lia. apply Z.bits_inj'. intros i Hi.
  rewrite Z.land_spec. destruct (decide (i = 0)) as [->|Hn].
  - rewrite Z.testbit_even_0, andb_false_r. done.
  - replace i with (Z.succ (Z.pred i)) by lia.
    rewrite Z.testbit_even_succ, Z.testbit_odd_succ by lia. apply andb_diag.
Qed.

Lemma clear_lowest_even q : Z.land (2 * q) (2 * q - 1) = 2 * Z.land q (q - 1).
Proof.
  replace (2 * q - 1) with (2 * (q - 1) + 1) by lia. apply Z.bits_inj'. intros i Hi.
  rewrite Z.land_spec. destruct (decide (i = 0)) as [->|Hn].
  - rewrite !Z.testbit_even_0. done.
  - replace i with (Z.succ (Z.pred i)) by lia.
    rewrite !Z.testbit_even_succ, Z.testbit_odd_succ, Z.land_spec by lia. done.
Qed.

Lemma bitcount_double k q : bitcount (S k) (2 * q) = bitcount k q.
Proof. cbn [bitcount]. rewrite Z.odd_even, Z.div2_div, Z.mul_comm, Z.div_mul by lia. lia. Qed.

Lemma bitcount_double1 k q : bitcount (S k) (2 * q + 1) = 1 + bitcount k q.
Proof.
  cbn [bitcount]. rewrite Z.odd_odd, Z.div2_div.
  replace ((2 * q + 1) / 2) with q by (apply (Z.div_unique _ _ _ 1); lia). done.
Qed.

Lemma bitcount_clear k m :
  0 < m < 2 ^ Z.of_nat k -> bitcount k (Z.land m (m - 1)) = bitcount k m - 1.
Proof.
  revert m. induction k as [|k IH]; intros m Hm; [simpl in Hm; lia|].
  rewrite Nat2Z.inj_succ, Z.pow_succ_r in Hm by lia.
  destruct (Z.Even_or_Odd m) as [[q ->]|[q ->]].
  - rewrite clear_lowest_even, !bitcount_double. apply IH. lia.
  - rewrite clear_lowest_odd, bitcount_double, bitcount_double1. lia.
Qed.

Lemma bitcount_bounds k m : 0 <= bitcount k m <= Z.of_nat k.
Proof.
  revert m. induction k as [|k IH]; intros m; [simpl; lia|].
  cbn [bitcount]. specialize (IH (Z.div2 m)). destruct (Z.odd m); lia.
Qed.

Lemma bitcount_pos k m : 0 < m < 2 ^ Z.of_nat k -> 0 < bitcount k m.
Proof. intros Hm. pose proof (bitcount_clear k m Hm). pose proof (bitcount_bounds k (Z.land m (m - 1))). lia. Qed.

Lemma bitcount_0 k : bitcount k 0 = 0.
Proof. induction k as [|k IH]; [done|]. exact IH. Qed.

Lemma land_pred_range m : 0 < m -> 0 <= Z.land m (m - 1) < m.
Proof.
  intros Hm. split; [apply Z.land_nonneg; lia|].
  assert (Z.land m (m - 1) <= m - 1); [|lia].
  assert (Hs : m - 1 = Z.land m (m - 1) + Z.ldiff (m - 1) m).
  { rewrite (Z.land_comm m). apply Z.bits_inj'. intros i Hi.
    rewrite Z.add_nocarry_lxor, Z.lxor_spec, Z.land_spec, Z.ldiff_spec.
    - destruct (Z.testbit (m - 1) i), (Z.testbit m i); done.
    - apply Z.bits_inj'. intros j Hj. rewrite !Z.land_spec, Z.ldiff_spec, Z.bits_0.
      destruct (Z.testbit (m - 1) j), (Z.testbit m j); done. }
  assert (0 <= Z.ldiff (m - 1) m) by (apply Z.ldiff_nonneg; lia). lia.
Qed.

Lemma popcount_loop_spec k m c fuel :
  0 <= m < 2 ^ Z.of_nat k -> bitcount k m <= Z.of_nat fuel ->
  popcount_loop fuel m c = c + bitcount k m.
Proof.
  revert m c. induction fuel as [|f IH]; intros m c Hm Hf; cbn [popcount_loop].
  - pose proof (bitcount_bounds k m). lia.
  - destruct (Z.eqb_spec m 0) as [->|Hn]; [rewrite bitcount_0; lia|].
    pose proof (land_pred_range m ltac:(lia)). pose proof (bitcount_clear k m ltac:(lia)).
    rewrite IH by lia. lia.
Qed.

Lemma mask_has_succ m i : mask_has m (S i) = mask_has (Z.div2 m) i.
Proof. unfold mask_has. rewrite Nat2Z.inj_succ, Z.div2_spec, Z.shiftr_spec by lia. f_equal. Qed.

Lemma filter_seq_succ m k :
  blen (filter (fun i => mask_has m i = true) (S <$> seq 0 k)) =
  blen (filter (fun i => mask_has (Z.div2 m) i = true) (seq 0 k)).
Proof.
  induction (seq 0 k) as [|i l IH]; [done|].
  rewrite fmap_cons, !filter_cons, mask_has_succ. unfold blen in *.
  case_decide; cbn [length]; lia.
Qed.

Lemma bitcount_filter k m :
  bitcount k m = blen (filter (fun i => mask_has m i = true) (seq 0 k)).
Proof.
  revert m. induction k as [|k IH]; intros m; [done|].
  cbn [bitcount]. rewrite IH, <- filter_seq_succ. cbn [seq]. rewrite filter_cons, <- fmap_S_seq.
  change (mask_has m 0) with (Z.testbit m 0). rewrite Z.bit0_odd.
  unfold blen. destruct (Z.odd m); case_decide; try done; cbn [length]; lia.
Qed.

Definition u32_range (m : Z) : Prop := 0 <= m < 2 ^ 32.

Lemma popcount_mask m : u32_range m -> popcount_loop 32 m 0 = blen (mask_nodes m).
Proof.
  intros Hm. rewrite (popcount_loop_spec 32) by (exact Hm || apply bitcount_bounds).
  unfold mask_nodes. rewrite bitcount_filter. done.
Qed.

Lemma for_nodes_inv {S} (P : S -> Prop) (f : S -> nat -> S) s :
  P s -> (forall s i, (i < RAFT_MAX_NODES)%nat -> P s -> P (f s i)) -> P (for_nodes f s).
Proof.
  intros Hs Hf. unfold for_nodes.
  assert (Hl : forall l s, P s -> Forall (fun i => (i < RAFT_MAX_NODES)%nat) l -> P (foldl f s l)).
  { induction l as [|i l IH]; intros s' Hs' Hl; simpl; [done|].
    apply list.Forall_cons in Hl as [Hi Hl]. auto. }
  apply Hl; [done|]. apply list.Forall_forall. intros i Hi. apply elem_of_seq in Hi. lia.
Qed.

(** Two predicates on a list: inclusion-exclusion through their exclusive or. *)
Lemma filter_xor_count (f g : nat -> bool) (l : list nat) :
  blen (filter (fun i => f i = true) l) + blen (filter (fun i => g i = true) l) +
  blen (filter (fun i => xorb (f i) (g i) = true) l) =
  2 * blen (filter (fun i => f i || g i = true) l).
Proof.
  induction l as [|i l IH]; [done|]. rewrite !filter_cons. unfold blen in *.
  destruct (f i), (g i); repeat case_decide; cbn [length xorb orb] in *; try done; lia.
Qed.

Lemma disjoint_size_le (A B : gset nat) (l : list nat) :
  A ∩ B = ∅ -> A ⊆ list_to_set l -> B ⊆ list_to_set l ->
  Z.of_nat (size A) + Z.of_nat (size B) <= blen l.
Proof.
  intros Hd HA HB. assert (Hs : (size (A ∪ B) <= size (list_to_set l : gset nat))%nat).
  { apply subseteq_size. set_solver. }
  rewrite size_union in Hs by set_solver.
  assert (Hl : (size (list_to_set l : gset nat) <= length l)%nat).
  { clear. induction l as [|x l IH]; [rewrite list_to_set_nil, size_empty; lia|].
    rewrite list_to_set_cons. pose proof (size_union_alt ({[x]} : gset nat) (list_to_set l)) as E.
    rewrite E, size_singleton. cbn [length].
    assert (size (list_to_set l ∖ {[x]} : gset nat) <= size (list_to_set l : gset nat))%nat
      by (apply subseteq_size; set_solver). lia. }
  unfold blen. lia.
Qed.

(** Masks that differ in one bit have overlapping majorities. *)
Lemma one_bit_quorums m n (A B : gset nat) :
  u32_range m -> u32_range n -> Z.lxor m n <> 0 -> Z.land (Z.lxor m n) (Z.lxor m n - 1) = 0 ->
  A ⊆ list_to_set (mask_nodes m) -> B ⊆ list_to_set (mask_nodes n) ->
  blen (mask_nodes m) / 2 + 1 <= Z.of_nat (size A) ->
  blen (mask_nodes n) / 2 + 1 <= Z.of_nat (size B) -> A ∩ B <> ∅.
Proof.
  intros Hm Hn Hd0 Hd1 HA HB HqA HqB Hdis.
  assert (Hd : u32_range (Z.lxor m n)).
  { split; [apply Z.lxor_nonneg; unfold u32_range in *; lia|].
    destruct (decide (Z.lxor m n = 0)) as [->|]; [lia|].
    assert (0 <= Z.lxor m n) by (apply Z.lxor_nonneg; unfold u32_range in *; lia).
    apply Z.log2_lt_pow2; [lia|]. eapply Z.le_lt_trans; [apply Z.log2_lxor; unfold u32_range in *; lia|].
    unfold u32_range in *. apply Z.max_lub_lt.
    all: match goal with |- Z.log2 ?x < _ => destruct (decide (x = 0)) as [->|]; [simpl; lia|] end.
    all: apply Z.log2_lt_pow2; lia. }
  assert (Hone : bitcount 32 (Z.lxor m n) = 1).
  { pose proof (bitcount_clear 32 (Z.lxor m n)) as Hc. unfold u32_range in Hd.
    rewrite Hd1, bitcount_0 in Hc. specialize (Hc ltac:(lia)). lia. }
  rewrite bitcount_filter in Hone.
  pose proof (filter_xor_count (mask_has m) (mask_has n) (seq 0 32)) as Hx.
  assert (He : filter (fun i => xorb (mask_has m i) (mask_has n i) = true) (seq 0 32) =
               filter (fun i => mask_has (Z.lxor m n) i = true) (seq 0 32)).
  { apply list_filter_iff. intros i. unfold mask_has. by rewrite Z.lxor_spec. }
  rewrite He, Hone in Hx. change (filter (fun i => mask_has m i = true) (seq 0 32)) with (mask_nodes m) in Hx.
  change (filter (fun i => mask_has n i = true) (seq 0 32)) with (mask_nodes n) in Hx.
  pose proof (disjoint_size_le A B
    (filter (fun i => mask_has m i || mask_has n i = true) (seq 0 32)) Hdis) as Hs.
  assert (Hsub : forall (X : gset nat) p, (p = m \/ p = n) -> X ⊆ list_to_set (mask_nodes p) ->
    X ⊆ list_to_set (filter (fun i => mask_has m i || mask_has n i = true) (seq 0 32))).
  { intros X p Hp HX i Hi. apply HX in Hi. rewrite elem_of_list_to_set in Hi |- *.
    unfold mask_nodes in Hi. rewrite list_elem_of_filter in Hi |- *. destruct Hi as [Hb Hi].
    split; [|done]. apply orb_true_iff. destruct Hp as [->| ->]; auto. }
  specialize (Hs (Hsub A m (or_introl eq_refl) HA) (Hsub B n (or_intror eq_refl) HB)).
  pose proof (Z.div_mod (blen (mask_nodes m)) 2 ltac:(lia)).
  pose proof (Z.mod_pos_bound (blen (mask_nodes m)) 2 ltac:(lia)).
  pose proof (Z.div_mod (blen (mask_nodes n)) 2 ltac:(lia)).
  pose proof (Z.mod_pos_bound (blen (mask_nodes n)) 2 ltac:(lia)). lia.
Qed.

(** ** Applying committed entries *)

(** What the host sees for the entries [lo+1 .. lo+k]: all but the no-ops, in order. *)
Definition apply_event (r : Raft) (i : Z) : list ApplyEvent :=
  if has_apply r && negb (e_is_noop (ent r i))
  then [EvApply (node_id r) i (e_command (ent r i))] else [].

Definition applied_events (r : Raft) (lo : Z) (k : nat) : list ApplyEvent :=
  mjoin ((fun i => apply_event r (lo + Z.of_nat i)) <$> seq 1 k).

Lemma applied_events_S r lo k :
  applied_events r lo (S k) = apply_event r (lo + 1) ++ applied_events r (lo + 1) k.
Proof.
  unfold applied_events. cbn [seq]. rewrite fmap_cons. cbn [mjoin list_join].
  f_equal. f_equal. rewrite <- fmap_S_seq, <- list_fmap_compose. apply list_fmap_ext.
  intros ? i _. unfold compose. f_equal. lia.
Qed.

Lemma apply_event_ext r r' i :
  log r = log r' -> log_base r = log_base r' -> has_apply r = has_apply r' ->
  node_id r = node_id r' -> apply_event r i = apply_event r' i.
Proof. intros H1 H2 H3 H4. unfold apply_event, ent. by rewrite H1, H2, H3, H4. Qed.

Lemma applied_events_ext r r' lo k :
  log r = log r' -> log_base r = log_base r' -> has_apply r = has_apply r' ->
  node_id r = node_id r' -> applied_events r lo k = applied_events r' lo k.
Proof.
  intros. unfold applied_events. f_equal. apply list_fmap_ext. intros ? i _. by apply apply_event_ext.
Qed.

Lemma Raft_eta_applied r : set_apply_ctx (apply_ctx r) (set_last_applied (last_applied r) r) = r.
Proof. destruct r; reflexivity. Qed.

Lemma apply_loop_eq k r :
  last_applied r + Z.of_nat k = commit_index r ->
  apply_loop k r = r |> set_last_applied (commit_index r)
                     |> set_apply_ctx (apply_ctx r ++ applied_events r (last_applied r) k).
Proof.
  revert r. induction k as [|k IH]; intros r Hk.
  - cbn [apply_loop]. rewrite <- Hk. cbn. rewrite app_nil_r, Z.add_0_r. symmetry. apply Raft_eta_applied.
  - cbn [apply_loop]. destruct (Z.ltb_spec (last_applied r) (commit_index r)); [|lia].
    rewrite IH by (destruct (_ && _); cbn; lia).
    rewrite applied_events_S. unfold apply_event.
    change (has_apply (set_last_applied _ r)) with (has_apply r).
    change (last_applied (set_last_applied ?x r)) with x.
    change (ent (set_last_applied _ r)) with (ent r).
    destruct (has_apply r && negb (e_is_noop (ent r (last_applied r + 1)))); cbn.
    + rewrite <- app_assoc. reflexivity.
    + reflexivity.
Qed.

Lemma apply_committed_eq r :
  apply_committed r =
  r |> set_last_applied (Z.max (last_applied r) (commit_index r))
    |> set_apply_ctx (apply_ctx r ++
         applied_events r (last_applied r) (Z.to_nat (commit_index r - last_applied r))).
Proof.
  unfold apply_committed. destruct (decide (last_applied r <= commit_index r)) as [H|H].
  - rewrite apply_loop_eq by lia. by rewrite Z.max_r by lia.
  - rewrite Z.max_l by lia. replace (Z.to_nat (commit_index r - last_applied r)) with 0%nat by lia.
    cbn. rewrite app_nil_r. symmetry. apply Raft_eta_applied.
Qed.

(** ** The leader's commit rule *)

(** [N] is replicated on a majority and belongs to the leader's own term. *)
Definition committable (r : Raft) (N : Z) : bool :=
  (term_at r N =? current_term r) && (majority r <=? replicated_count r N).

(** Reference: the highest committable index above the commit index, if any. *)
Definition quorum_commit (r : Raft) : Z :=
  foldl Z.max (commit_index r)
    (filter (fun N => committable r N = true)
       (seqZ (commit_index r + 1) (raft_last_log_index r - commit_index r))).

Lemma advance_loop_spec r k :
  (exists N, commit_index r < N <= commit_index r + Z.of_nat k /\ committable r N = true /\
     (forall N', N < N' <= commit_index r + Z.of_nat k -> committable r N' = false) /\
     advance_loop r k = commit_at r N) \/
  ((forall N', commit_index r < N' <= commit_index r + Z.of_nat k -> committable r N' = false) /\
   advance_loop r k = r).
Proof.
  induction k as [|k IH]; [right; split; [intros; lia|done]|].
  cbn [advance_loop]. set (N := commit_index r + Z.of_nat (S k)).
  assert (Hstep : committable r N = false -> advance_loop r (S k) = advance_loop r k).
  { unfold committable. cbn [advance_loop]. fold N.
    destruct (term_at r N =? current_term r); cbn [negb andb]; [|done].
    destruct (majority r <=? replicated_count r N); done. }
  destruct (committable r N) eqn:E.
  - left. exists N. split; [lia|]. split; [done|]. split; [intros; lia|].
    unfold committable in E. apply andb_true_iff in E as [-> ->]. done.
  - specialize (Hstep eq_refl). cbn [advance_loop] in Hstep. fold N in Hstep. rewrite Hstep.
    destruct IH as [(N' & H1 & H2 & H3 & H4)|[H1 H2]].
    + left. exists N'. split; [lia|]. split; [done|]. split; [|done].
      intros M HM. destruct (decide (M = N)) as [->|]; [done|]. apply H3. lia.
    + right. split; [|done]. intros M HM. destruct (decide (M = N)) as [->|]; [done|]. apply H1. lia.
Qed.

Lemma foldl_max_in b (l : list Z) : foldl Z.max b l = b \/ foldl Z.max b l ∈ l.
Proof.
  revert b. induction l as [|x l IH]; intros b; simpl; [by left|].
  destruct (IH (Z.max b x)) as [->|H]; [|right; by right].
  destruct (Z.max_spec b x) as [[_ ->]|[_ ->]]; [right; left|by left].
Qed.

Lemma foldl_max_ge b (l : list Z) : b <= foldl Z.max b l /\ Forall (fun x => x <= foldl Z.max b l) l.
Proof.
  revert b. induction l as [|x l IH]; intros b; simpl; [split; [lia|constructor]|].
  destruct (IH (Z.max b x)) as [H1 H2]. split; [lia|]. constructor; [lia|done].
Qed.

Lemma leader_advance_cases r :
  (commit_index r < quorum_commit r <= raft_last_log_index r /\
   committable r (quorum_commit r) = true /\
   leader_advance_commit r = commit_at r (quorum_commit r)) \/
  (quorum_commit r = commit_index r /\ leader_advance_commit r = r).
Proof.
  unfold quorum_commit, leader_advance_commit.
  set (l := filter _ _). set (k := Z.to_nat (raft_last_log_index r - commit_index r)).
  assert (Hl : forall N, N ∈ l <-> committable r N = true /\
            commit_index r < N <= raft_last_log_index r).
  { intros N. unfold l. rewrite list_elem_of_filter, elem_of_seqZ. split; intros []; split; try done; lia. }
  pose proof (foldl_max_in (commit_index r) l) as Hin.
  pose proof (foldl_max_ge (commit_index r) l) as [Hge Hall].
  rewrite list.Forall_forall in Hall. set (q := foldl Z.max (commit_index r) l) in *.
  destruct (advance_loop_spec r k) as [(N & H1 & H2 & H3 & H4)|[H1 H2]].
  - left. assert (HN : N ∈ l) by (apply Hl; unfold k in *; split; [done|lia]).
    pose proof (Hall _ HN). assert (Hq : q ∈ l) by (destruct Hin; [lia|done]).
    apply Hl in Hq as [Hq1 Hq2]. assert (q = N) as ->; [|split; [lia|done]].
    destruct (decide (q = N)); [done|]. rewrite H3 in Hq1; [done|unfold k; lia].
  - right. split; [|done]. destruct Hin as [|Hq]; [done|]. apply Hl in Hq as [Hq1 Hq2].
    rewrite H1 in Hq1; [done|unfold k; lia].
Qed.

(** The members whose recorded match index reaches [N]. *)
Definition replicas (r : Raft) (N : Z) : list nat :=
  filter (fun i => raft_is_member r i && (N <=? match_of r i) = true) (seq 0 RAFT_MAX_NODES).

Lemma foldl_count (f : nat -> bool) (l : list nat) c :
  foldl (fun c i => if f i then c + 1 else c) c l = c + blen (filter (fun i => f i = true) l).
Proof.
  revert c. induction l as [|i l IH]; intros c; [cbn [foldl]; rewrite filter_nil; unfold blen; cbn [length]; lia|].
  cbn [foldl]. rewrite IH, filter_cons. unfold blen.
  destruct (f i); case_decide; try done; cbn [length]; lia.
Qed.

Lemma replicated_count_eq r N : replicated_count r N = blen (replicas r N).
Proof. unfold replicated_count, for_nodes. rewrite foldl_count. done. Qed.

Lemma majority_mask r : u32_range (member_mask r) ->
  majority r = blen (mask_nodes (member_mask r)) / 2 + 1.
Proof. intros Hm. unfold majority, member_count. by rewrite popcount_mask. Qed.

Lemma u32_small z : u32_range z -> u32 z = z.
Proof. unfold u32_range, u32. intros H. by apply Z.mod_small. Qed.

Lemma majority_le r c : u32_range (member_mask r) ->
  (majority r <=? c) = true <-> blen (mask_nodes (member_mask r)) < 2 * c.
Proof.
  intros Hm. rewrite majority_mask, Z.leb_le by done.
  set (n := blen _). pose proof (Z.div_mod n 2 ltac:(lia)). pose proof (Z.mod_pos_bound n 2 ltac:(lia)). lia.
Qed.

Lemma committable_spec r N : u32_range (member_mask r) ->
  committable r N = true <->
  term_at r N = current_term r /\ blen (mask_nodes (member_mask r)) < 2 * blen (replicas r N).
Proof.
  intros Hm. unfold committable. rewrite andb_true_iff, Z.eqb_eq, majority_le by done.
  by rewrite replicated_count_eq.
Qed.

Lemma commit_at_fields r N :
  let r' := commit_at r N in
  commit_index r' = N /\ last_applied r' = Z.max (last_applied r) N /\
  apply_ctx r' = apply_ctx r ++ applied_events r (last_applied r) (Z.to_nat (N - last_applied r)) /\
  log r' = log r /\ log_base r' = log_base r /\ current_term r' = current_term r /\
  member_mask r' = member_mask r /\ base_member_mask r' = base_member_mask r /\
  next_index r' = next_index r /\ match_index r' = match_index r /\ node_id r' = node_id r /\
  votes_granted r' = votes_granted r /\ log_cap r' = log_cap r /\ has_apply r' = has_apply r /\
  (role r' = role r /\ voted_for r' = voted_for r \/
   raft_is_member r (node_id r) = false /\ role r' = RAFT_FOLLOWER /\ voted_for r' = -1).
Proof.
  cbv zeta. unfold commit_at.
  destruct (_ && _); rewrite apply_committed_eq;
    match goal with |- context [if negb ?b then _ else _] => destruct b eqn:E end;
    cbn in E |- *; repeat split; auto.
Qed.

Lemma leader_advance_frame r :
  let r' := leader_advance_commit r in
  commit_index r <= commit_index r' /\ (commit_index r <= last_applied r -> commit_index r' <= last_applied r') /\
  log r' = log r /\ log_base r' = log_base r /\ current_term r' = current_term r /\
  member_mask r' = member_mask r /\ base_member_mask r' = base_member_mask r /\
  next_index r' = next_index r /\ match_index r' = match_index r /\ node_id r' = node_id r /\
  votes_granted r' = votes_granted r /\ log_cap r' = log_cap r /\ has_apply r' = has_apply r /\
  (role r' = role r /\ voted_for r' = voted_for r \/
   raft_is_member r (node_id r) = false /\ role r' = RAFT_FOLLOWER /\ voted_for r' = -1).
Proof.
  cbv zeta. destruct (leader_advance_cases r) as [(H1 & _ & ->)|[_ ->]].
  - destruct (commit_at_fields r (quorum_commit r)) as (-> & -> & _ & -> & -> & -> & -> & -> & -> & -> & -> & -> & -> & -> & H).
    repeat split; auto; lia.
  - repeat split; auto; lia.
Qed.

(** ** The events a node reacts to *)

Inductive NodeOp :=
  | OpTick
  | OpRecv (msg : RaftMsg)
  | OpSubmit (command : Z)
  | OpConfig (new_mask : Z)
  | OpRead
  | OpSnapshot (index sm_state : Z)
  | OpRestart.

(** One event with an empty outbox; the messages to be routed are the reply, if
    there is one, and the outbox. *)
Definition node_step (realloc_ok : Z -> bool) (r : Raft) (op : NodeOp) : Raft * list RaftMsg :=
  match op with
  | OpTick => raft_tick realloc_ok r []
  | OpRecv msg =>
      let '(r, reply, out) := raft_recv realloc_ok r msg [] in
      (r, match reply with Some m => m :: out | None => out end)
  | OpSubmit c => ((raft_submit realloc_ok r c).1, [])
  | OpConfig m => ((raft_change_config realloc_ok r m).1, [])
  | OpRead => let '(r, out, _) := raft_read_index r [] in (r, out)
  | OpSnapshot i v => ((raft_snapshot r i v).1, [])
  | OpRestart => (raft_crash_restart r, [])
  end.

(** What the fields of the C structures can hold. *)
Definition op_ok (op : NodeOp) : Prop :=
  match op with
  | OpRecv m => 0 <= m_term m < 2 ^ 64 /\ u32_range (m_member_mask m)
  | OpConfig m => u32_range m
  | _ => True
  end.

(** The node's invariant. *)
Record raft_wf (r : Raft) : Prop := {
  wf_id : (node_id r < RAFT_MAX_NODES)%nat;
  wf_log : log r <> [];
  wf_mask : member_mask r = fold_config (base_member_mask r) (tail (log r));
  wf_base_mask : u32_range (base_member_mask r);
  wf_base : 0 <= log_base r <= commit_index r;
  wf_applied : commit_index r <= last_applied r;
  wf_next : length (next_index r) = RAFT_MAX_NODES;
  wf_match : length (match_index r) = RAFT_MAX_NODES;
  wf_term : 0 <= current_term r < 2 ^ 64;
  wf_voted : -1 <= voted_for r;
  wf_self : role r <> RAFT_FOLLOWER -> voted_for r = Z.of_nat (node_id r) }.

Lemma u32_in_range z : u32_range (u32 z).
Proof. unfold u32_range, u32. apply Z.mod_pos_bound. lia. Qed.

Lemma fold_config_range m es : u32_range m -> u32_range (fold_config m es).
Proof.
  unfold fold_config. revert m. induction es as [|e es IH]; intros m Hm; cbn [foldl]; [done|].
  apply IH. destruct (e_is_config e); [apply u32_in_range|done].
Qed.

Lemma fold_config_app m es es' : fold_config m (es ++ es') = fold_config (fold_config m es) es'.
Proof. unfold fold_config. apply foldl_app. Qed.

Lemma wf_mask_range r : raft_wf r -> u32_range (member_mask r).
Proof. intros H. rewrite (wf_mask _ H). apply fold_config_range, H. Qed.

Lemma tail_app_ne {A} (l k : list A) : l <> [] -> tail (l ++ k) = tail l ++ k.
Proof. by destruct l. Qed.

Section Preserved.
Variable realloc_ok : Z -> bool.

(** The log with one more entry, the mask following it. *)
Lemma log_append_cases r e :
  (exists cap, log_append realloc_ok r e = (log_push (set_log_cap cap r) e, 0)) \/
  log_append realloc_ok r e = (r, -1).
Proof.
  unfold log_append. destruct (_ <=? _).
  - destruct (realloc_ok _); [left; eauto|by right].
  - left. exists (log_cap r). by destruct r.
Qed.

Lemma wf_push r cap e : raft_wf r -> raft_wf (log_push (set_log_cap cap r) e).
Proof.
  intros [H1 H2 H3 H4 H5 H6 H7 H8 H9 H10 H11]. unfold log_push, maybe_adopt_config.
  destruct (e_is_config e) eqn:E; constructor; cbn -[tail fold_config app]; try done.
  all: try (by intros [_ ?]%app_nil).
  all: rewrite tail_app_ne, fold_config_app by done; cbn; rewrite E; auto.
Qed.

Lemma wf_log_append r e : raft_wf r -> raft_wf (log_append realloc_ok r e).1.
Proof. intros H. destruct (log_append_cases r e) as [[cap ->]| ->]; [by apply wf_push|done]. Qed.

Lemma wf_become_follower r t : raft_wf r -> 0 <= t < 2 ^ 64 -> raft_wf (become_follower t r).
Proof. intros [] Ht. constructor; cbn; try done; lia. Qed.

Lemma wf_step_down r t : raft_wf r -> 0 <= t < 2 ^ 64 -> raft_wf (step_down_if_higher t r).
Proof. intros H Ht. unfold step_down_if_higher. case_cmp; [by apply wf_become_follower|done]. Qed.

Lemma wf_advance r : raft_wf r -> raft_wf (leader_advance_commit r).
Proof.
  intros [? ? ? ? ? Ha ? ? ? ? ?]. pose proof (leader_advance_frame r) as H. cbv zeta in H.
  destruct H as (H1 & H2%(fun f => f Ha) & H3 & H4 & H5 & H6 & H7 & H8 & H9 & H10 & H11 & H12 & H13 & H14).
  constructor; rewrite ?H3, ?H4, ?H5, ?H6, ?H7, ?H8, ?H9, ?H10; try done; try lia.
  destruct H14 as [[-> ->]|(_ & -> & _)]; [done|by intros []].
Qed.

(** Changes of fields the invariant does not read, or keeps. *)
Definition wf_same (r r' : Raft) : Prop :=
  node_id r' = node_id r /\ log r' = log r /\ member_mask r' = member_mask r /\
  base_member_mask r' = base_member_mask r /\ log_base r' = log_base r /\
  commit_index r' = commit_index r /\ last_applied r' = last_applied r /\
  length (next_index r') = length (next_index r) /\
  length (match_index r') = length (match_index r) /\ current_term r' = current_term r /\
  voted_for r' = voted_for r /\ (role r' = role r \/ role r' = RAFT_FOLLOWER).

Lemma wf_same_wf r r' : wf_same r r' -> raft_wf r -> raft_wf r'.
Proof.
  intros (E1 & E2 & E3 & E4 & E5 & E6 & E7 & E8 & E9 & E10 & E11 & E12) [].
  constructor; rewrite ?E1, ?E2, ?E3, ?E4, ?E5, ?E6, ?E7, ?E8, ?E9, ?E10, ?E11; try done.
  destruct E12 as [-> | ->]; done.
Qed.

Lemma wf_same_refl r : wf_same r r.
Proof. unfold wf_same. auto 20. Qed.

Lemma wf_same_trans r1 r2 r3 : wf_same r1 r2 -> wf_same r2 r3 -> wf_same r1 r3.
Proof.
  unfold wf_same. intros (?&?&?&?&?&?&?&?&?&?&?&H) (?&?&?&?&?&?&?&?&?&?&?&H').
  repeat split; try congruence. destruct H', H; (left; congruence) || (right; congruence).
Qed.

Ltac wf_same_tac :=
  try match goal with |- wf_same ?x _ => tryif is_var x then idtac else (generalize x; intros ?) end;
  unfold wf_same; cbn; rewrite ?length_insert; auto 20.

Lemma wf_reset_peers r : raft_wf r -> raft_wf (reset_peers r).
Proof.
  intros H. eapply wf_same_wf; [|exact H]. unfold reset_peers.
  apply (for_nodes_inv (wf_same r)); [apply wf_same_refl|]. intros s i _ Hs.
  destruct (negb _); [done|]. eapply wf_same_trans; [exact Hs|]. wf_same_tac.
Qed.

Lemma reset_peers_same r : wf_same r (reset_peers r).
Proof.
  unfold reset_peers. apply (for_nodes_inv (wf_same r)); [apply wf_same_refl|]. intros s i _ Hs.
  destruct (negb _); [done|]. eapply wf_same_trans; [exact Hs|]. wf_same_tac.
Qed.

Lemma wf_same_heartbeat r x : wf_same r (set_heartbeat_elapsed x r).
Proof. wf_same_tac. Qed.

Lemma wf_same_claim r : wf_same r (claim_log r).
Proof. unfold claim_log. wf_same_tac. Qed.

Lemma wf_become_leader r out :
  raft_wf r -> voted_for r = Z.of_nat (node_id r) -> raft_wf (become_leader realloc_ok r out).1.
Proof.
  intros H Hv. unfold become_leader. cbn [fst].
  eapply wf_same_wf; [|apply wf_advance]; [apply wf_same_heartbeat|].
  eapply wf_same_wf; [apply wf_same_claim|].
  assert (H1 : raft_wf (reset_peers (take_leader_role r))).
  { apply wf_reset_peers. destruct H. constructor; cbn; done. }
  unfold append_noop. destruct (_ <? _); [by apply wf_log_append|done].
Qed.

Lemma wf_become_candidate r out : raft_wf r -> raft_wf (become_candidate realloc_ok r out).1.
Proof.
  intros H. unfold become_candidate. cbv zeta.
  match goal with |- context [become_leader _ ?x] => set (r1 := x) end.
  assert (H1 : raft_wf r1).
  { destruct H. constructor; cbn; try done; [apply Z.mod_pos_bound|]; lia. }
  destruct (_ <=? _); [|done]. apply wf_become_leader; done.
Qed.

Lemma wf_tick r out : raft_wf r -> raft_wf (raft_tick realloc_ok r out).1.
Proof.
  intros H. unfold raft_tick. destruct (decide _).
  - destruct (_ <=? _); cbn [fst]; (eapply wf_same_wf; [|exact H]); wf_same_tac.
  - destruct (raft_is_member _ _); [|done].
    destruct (_ <=? _); [apply wf_become_candidate|cbn [fst]]; (eapply wf_same_wf; [|exact H]); wf_same_tac.
Qed.

Lemma wf_submit r c : raft_wf r -> raft_wf (raft_submit realloc_ok r c).1.
Proof.
  intros H. unfold raft_submit. destruct (negb _); [done|].
  pose proof (wf_log_append r (mkEnt (current_term r) c false false) H) as H1.
  destruct (log_append _ _ _) as [r1 rc]. cbn [fst] in H1. destruct (negb _); [done|].
  eapply wf_same_wf; [|exact H1]. wf_same_tac.
Qed.

Lemma start_new_peers_same m r : wf_same r (start_new_peers m r).
Proof.
  unfold start_new_peers. apply (for_nodes_inv (wf_same r)); [apply wf_same_refl|]. intros s i _ Hs.
  destruct (_ && _); [|done]. eapply wf_same_trans; [exact Hs|]. wf_same_tac.
Qed.

Lemma wf_change_config r m : raft_wf r -> raft_wf (raft_change_config realloc_ok r m).1.
Proof.
  intros H. unfold raft_change_config. destruct (negb _); [done|]. cbv zeta.
  destruct (_ || _); [done|]. destruct (_ && _); [done|].
  pose proof (wf_log_append r (mkEnt (current_term r) m true false) H) as H1.
  destruct (log_append _ _ _) as [r1 rc]. cbn [fst] in H1. destruct (negb _); [done|].
  cbn [fst]. eapply wf_same_wf; [apply start_new_peers_same|].
  eapply wf_same_wf; [|exact H1]. wf_same_tac.
Qed.

Lemma wf_read_index r out : raft_wf r -> raft_wf (raft_read_index r out).1.1.
Proof.
  intros H. unfold raft_read_index. destruct (negb _); [done|]. destruct (_ <? _); [done|].
  cbn [fst]. apply (wf_same_wf r); [|done]. eapply (wf_same_trans _ (start_barrier r)).
  - unfold start_barrier. wf_same_tac.
  - generalize (start_barrier r). intros r1. unfold confirm_alone. destruct (_ =? 1); wf_same_tac.
Qed.

Lemma wf_request_vote r msg :
  raft_wf r -> 0 <= m_term msg < 2 ^ 64 -> raft_wf (handle_request_vote r msg).1.
Proof.
  intros H Ht. unfold handle_request_vote. cbv zeta.
  pose proof (wf_step_down r _ H Ht) as H1. set (r1 := step_down_if_higher _ _) in *.
  destruct (_ <? _); [done|]. destruct (_ && _) eqn:E; [|done]. cbn [fst].
  apply andb_true_iff in E as [E _]. rewrite orb_true_iff, !Z.eqb_eq in E.
  destruct H1. constructor; cbn; try done; [lia|]. intros Hr. specialize (wf_self0 Hr). lia.
Qed.

Lemma wf_request_vote_reply r msg out :
  raft_wf r -> 0 <= m_term msg < 2 ^ 64 -> raft_wf (handle_request_vote_reply realloc_ok r msg out).1.
Proof.
  intros H Ht. unfold handle_request_vote_reply.
  destruct (_ <? _); [by apply wf_become_follower|].
  destruct (bool_decide_reflect (role r = RAFT_CANDIDATE)) as [Hc|]; [|done]. cbn [negb orb].
  destruct (negb _); [done|]. destruct (m_vote_granted msg); [|done]. cbv zeta.
  assert (H1 : raft_wf (set_votes_granted (votes_granted r + 1) r)).
  { eapply wf_same_wf; [|exact H]. wf_same_tac. }
  destruct (_ <=? _); [|done]. apply wf_become_leader; [done|]. cbn.
  apply (wf_self _ H). by rewrite Hc.
Qed.

Lemma recompute_fix r : raft_wf r -> recompute_member_mask r = r.
Proof.
  intros H. unfold recompute_member_mask. rewrite <- (wf_mask _ H). by destruct r.
Qed.

Lemma recompute_push r cap e : log r <> [] ->
  recompute_member_mask (log_push (set_log_cap cap r) e) =
  log_push (set_log_cap cap (recompute_member_mask r)) e.
Proof.
  intros H. unfold recompute_member_mask, log_push, maybe_adopt_config.
  destruct (e_is_config e) eqn:E; cbn -[tail fold_config app];
    rewrite tail_app_ne, fold_config_app by done; cbn; rewrite E; done.
Qed.

Lemma append_wf r e : raft_wf (recompute_member_mask r) ->
  raft_wf (recompute_member_mask (log_append realloc_ok r e).1) /\
  (recompute_member_mask r = r ->
   recompute_member_mask (log_append realloc_ok r e).1 = (log_append realloc_ok r e).1).
Proof.
  intros H. pose proof (wf_log _ H) as Hl. change (log (recompute_member_mask r)) with (log r) in Hl.
  destruct (log_append_cases r e) as [[cap ->]| ->]; [|done]. cbn [fst].
  rewrite recompute_push by done. split; [by apply wf_push|]. by intros ->.
Qed.

Lemma append_loop_wf es r t idx :
  raft_wf (recompute_member_mask r) -> (t = false -> recompute_member_mask r = r) ->
  let '(r', t') := append_loop realloc_ok r t idx es in
  raft_wf (recompute_member_mask r') /\ (t' = false -> recompute_member_mask r' = r').
Proof.
  revert r t idx. induction es as [|e es IH]; intros r t idx H Ht; cbn [append_loop]; [done|].
  destruct (Z.leb_spec idx (log_base r)); [by apply IH|].
  destruct (Z.leb_spec idx (raft_last_log_index r)).
  - destruct (negb _); [|by apply IH].
    destruct (append_wf (set_log (take (Z.to_nat (idx - log_base r)) (log r)) r) e) as [Ha _].
    { destruct H. constructor; cbn -[tail fold_config] in *; try done.
      destruct (log r); [done|]. destruct (Z.to_nat (idx - log_base r)) eqn:E; [lia|done]. }
    apply IH; [exact Ha|done].
  - destruct (append_wf r e H) as [Ha Hb]. apply IH; [exact Ha|]. intros ->. auto.
Qed.

Lemma raft_last_ge_base r : log r <> [] -> log_base r <= raft_last_log_index r.
Proof. intros H. unfold raft_last_log_index, blen. destruct (log r); [done|]. cbn [length]. lia. Qed.

Lemma wf_commit_to r n :
  raft_wf r -> commit_index r < n -> raft_wf (apply_committed (set_commit_index
    (if n <? raft_last_log_index r then n else raft_last_log_index r) r)).
Proof.
  intros H Hn. rewrite apply_committed_eq. pose proof (raft_last_ge_base r (wf_log _ H)).
  destruct H. constructor; cbn -[Z.max tail fold_config] in *; try done; case_cmp; lia.
Qed.

Lemma wf_append_entries r msg :
  raft_wf r -> 0 <= m_term msg < 2 ^ 64 -> raft_wf (handle_append_entries realloc_ok r msg).1.
Proof.
  intros H Ht. unfold handle_append_entries. cbv zeta.
  pose proof (wf_step_down r _ H Ht) as H1. set (r1 := step_down_if_higher _ _) in *.
  clearbody r1. destruct (_ <? _); [done|].
  assert (H2 : raft_wf (set_election_elapsed 0 (set_role RAFT_FOLLOWER r1))).
  { apply (wf_same_wf r1); [wf_same_tac|done]. }
  set (r2 := set_election_elapsed 0 _) in *. clearbody r2.
  destruct (_ <? _); [done|]. destruct (_ && _); [done|].
  pose proof (append_loop_wf (m_entries msg) r2 false (m_prev_log_index msg + 1)) as H3.
  rewrite recompute_fix in H3 by done. specialize (H3 H2 (fun _ => eq_refl)).
  destruct (append_loop _ _ _ _ _) as [r3 t]. destruct H3 as [H3 Hf].
  assert (H4 : raft_wf (if t then recompute_member_mask r3 else r3)).
  { destruct t; [done|]. by rewrite <- Hf. }
  set (r4 := if t then _ else _) in *. clearbody r4.
  destruct (Z.ltb_spec (commit_index r4) (m_leader_commit msg)); [|done].
  by apply wf_commit_to.
Qed.

Lemma record_match_same r msg : wf_same r (record_match r msg).
Proof. unfold record_match. destruct (_ <? _); wf_same_tac. Qed.

Lemma count_ack_same r msg : wf_same r (count_ack r msg).
Proof.
  unfold count_ack. destruct (_ && _); [|apply wf_same_refl]. cbv zeta.
  destruct (_ <=? _); wf_same_tac.
Qed.

Lemma wf_append_entries_reply r msg :
  raft_wf r -> 0 <= m_term msg < 2 ^ 64 -> raft_wf (handle_append_entries_reply r msg).
Proof.
  intros H Ht. unfold handle_append_entries_reply.
  destruct (_ <? _); [by apply wf_become_follower|]. destruct (_ || _); [done|].
  destruct (m_success msg).
  - eapply wf_same_wf; [apply count_ack_same|]. apply wf_advance.
    eapply wf_same_wf; [apply record_match_same|done].
  - destruct (_ <? _); [|done]. apply (wf_same_wf r); [wf_same_tac|done].
Qed.

Lemma wf_install_snapshot r msg :
  raft_wf r -> 0 <= m_term msg < 2 ^ 64 -> u32_range (m_member_mask msg) ->
  raft_wf (handle_install_snapshot r msg).1.
Proof.
  intros H Ht Hm. unfold handle_install_snapshot. cbv zeta.
  pose proof (wf_step_down r _ H Ht) as H1. set (r1 := step_down_if_higher _ _) in *. clearbody r1.
  destruct (_ <? _); [done|]. destruct (Z.leb_spec (m_last_included_index msg)
    (commit_index (set_election_elapsed 0 (set_role RAFT_FOLLOWER r1)))) as [|Hlt]; cbn [fst].
  - apply (wf_same_wf r1); [wf_same_tac|done].
  - destruct H1. cbn in Hlt.
    match goal with |- raft_wf (if ?b then _ else _) => destruct b end;
      constructor; cbn; try done; lia.
Qed.

Lemma wf_install_snapshot_reply r msg :
  raft_wf r -> 0 <= m_term msg < 2 ^ 64 -> raft_wf (handle_install_snapshot_reply r msg).
Proof.
  intros H Ht. unfold handle_install_snapshot_reply.
  destruct (_ <? _); [by apply wf_become_follower|]. destruct (_ || _); [done|].
  apply wf_advance. eapply wf_same_wf; [apply record_match_same|done].
Qed.

Lemma wf_recv r msg out :
  raft_wf r -> 0 <= m_term msg < 2 ^ 64 -> u32_range (m_member_mask msg) ->
  raft_wf (raft_recv realloc_ok r msg out).1.1.
Proof.
  intros H Ht Hm. unfold raft_recv. destruct (m_type msg).
  - pose proof (wf_request_vote r msg H Ht). by destruct (handle_request_vote r msg).
  - pose proof (wf_request_vote_reply r msg out H Ht). by destruct (handle_request_vote_reply _ _ _ _).
  - pose proof (wf_append_entries r msg H Ht). by destruct (handle_append_entries _ _ _).
  - by apply wf_append_entries_reply.
  - pose proof (wf_install_snapshot r msg H Ht Hm). by destruct (handle_install_snapshot r msg).
  - by apply wf_install_snapshot_reply.
Qed.

Lemma tail_split {A} (n : nat) (l : list A) :
  (0 < n <= length l)%nat -> tail l = tail (take n l) ++ drop n l.
Proof.
  intros Hn. destruct l as [|x l], n as [|n]; cbn in *; try lia. by rewrite take_drop.
Qed.

Lemma wf_snapshot r i v : raft_wf r -> raft_wf (raft_snapshot r i v).1.
Proof.
  intros H. unfold raft_snapshot. destruct (_ || _) eqn:E; [done|].
  rewrite !orb_false_iff in E. destruct E as [[E1 E2] E3]. apply Z.leb_gt in E1.
  apply Z.ltb_ge in E2, E3. cbv zeta. cbn [fst].
  destruct H as [H1 H2 H3 H4 H5 H6 H7 H8 H9 H10 H11].
  constructor; cbn -[tail fold_config take drop] in *; try done; try lia.
  - cbn [tail]. rewrite <- fold_config_app, <- tail_split; [done|].
    unfold raft_last_log_index, blen in E3. lia.
  - by apply fold_config_range.
Qed.

Lemma wf_crash_restart r : raft_wf r -> raft_wf (raft_crash_restart r).
Proof. intros []. constructor; cbn -[tail fold_config] in *; try done; lia. Qed.

Lemma wf_node_step r op : raft_wf r -> op_ok op -> raft_wf (node_step realloc_ok r op).1.
Proof.
  intros H Hop. destruct op as [|msg|c|m| |i v|]; cbn [node_step op_ok] in *.
  - by apply wf_tick.
  - destruct Hop as [Ht Hm]. pose proof (wf_recv r msg [] H Ht Hm) as H1.
    destruct (raft_recv _ _ _ _) as [[r1 rep] out]. done.
  - by apply wf_submit.
  - by apply wf_change_config.
  - pose proof (wf_read_index r [] H) as H1. destruct (raft_read_index r []) as [[r1 out] z]. done.
  - by apply wf_snapshot.
  - by apply wf_crash_restart.
Qed.

Lemma wf_init id n el hb apply r :
  raft_init true id n el hb apply = Some r -> (id < RAFT_MAX_NODES)%nat -> raft_wf r.
Proof.
  unfold raft_init. destruct (_ || _) eqn:E; [done|]. intros [= <-] Hid.
  apply orb_false_iff in E as [E1 E2]. apply Z.ltb_ge in E1, E2.
  constructor; cbn -[u32] in *; try done; try lia.
  destruct (_ <=? _); [done|apply u32_in_range].
Qed.
End Preserved.

(** A run of a node: its state after a sequence of events. *)
Definition node_run (realloc_ok : Z -> bool) (r : Raft) (ops : list NodeOp) : Raft :=
  foldl (fun r op => (node_step realloc_ok r op).1) r ops.

Lemma wf_node_run realloc_ok r ops :
  raft_wf r -> Forall op_ok ops -> raft_wf (node_run realloc_ok r ops).
Proof.
  intros H Hops. unfold node_run. revert r H.
  induction Hops as [|op ops Hop _ IH]; intros r H; cbn [foldl]; [done|].
  apply IH. by apply wf_node_step.
Qed.

(** ** Replication: what an AppendEntries does to the log *)

Lemma ent_lookup r i : ent r i = default entry0 (log r !! Z.to_nat (i - log_base r)).
Proof. unfold ent. apply nth_lookup. Qed.

(** The entries [es] placed at [idx], [idx+1], ... are already in the log (those
    inside the snapshot are taken for granted). *)
Definition entries_agree (r : Raft) (idx : Z) (es : list RaftEntry) : Prop :=
  forall k e, es !! k = Some e -> log_base r < idx + Z.of_nat k ->
    idx + Z.of_nat k <= raft_last_log_index r /\ term_at r (idx + Z.of_nat k) = e_term e.

Lemma log_append_ok realloc_ok r e : (forall n, realloc_ok n = true) ->
  log (log_append realloc_ok r e).1 = log r ++ [e] /\
  log_base (log_append realloc_ok r e).1 = log_base r.
Proof.
  intros Hok. unfold log_append. rewrite Hok.
  destruct (_ <=? _); cbn [fst]; unfold log_push, maybe_adopt_config; destruct (e_is_config e); done.
Qed.

Lemma append_loop_base realloc_ok es r t idx :
  log_base (append_loop realloc_ok r t idx es).1 = log_base r.
Proof.
  revert r t idx. induction es as [|e es IH]; intros r t idx; cbn [append_loop]; [done|].
  assert (Hb : forall r, log_base (log_append realloc_ok r e).1 = log_base r).
  { intros r0. destruct (log_append_cases realloc_ok r0 e) as [[cap ->]| ->]; [|done].
    cbn [fst]. unfold log_push, maybe_adopt_config. by destruct (e_is_config e). }
  destruct (_ <=? _); [apply IH|]. destruct (_ <=? _); [destruct (negb _)|]; rewrite IH, ?Hb; done.
Qed.

Lemma append_loop_commit realloc_ok es r t idx :
  commit_index (append_loop realloc_ok r t idx es).1 = commit_index r.
Proof.
  revert r t idx. induction es as [|e es IH]; intros r t idx; cbn [append_loop]; [done|].
  assert (Hb : forall r, commit_index (log_append realloc_ok r e).1 = commit_index r).
  { intros r0. destruct (log_append_cases realloc_ok r0 e) as [[cap ->]| ->]; [|done].
    cbn [fst]. unfold log_push, maybe_adopt_config. by destruct (e_is_config e). }
  destruct (_ <=? _); [apply IH|]. destruct (_ <=? _); [destruct (negb _)|]; rewrite IH, ?Hb; done.
Qed.

Section Replication.
Variable realloc_ok : Z -> bool.
Hypothesis Hok : forall n, realloc_ok n = true.

(** Past the end of the log every entry is appended. *)
Lemma append_loop_push es r t :
  log r <> [] ->
  log (append_loop realloc_ok r t (raft_last_log_index r + 1) es).1 = log r ++ es /\
  (append_loop realloc_ok r t (raft_last_log_index r + 1) es).2 = t.
Proof.
  revert r. induction es as [|e es IH]; intros r Hl; cbn [append_loop]; [by rewrite app_nil_r|].
  pose proof (raft_last_ge_base r Hl).
  destruct (Z.leb_spec (raft_last_log_index r + 1) (log_base r)); [lia|].
  destruct (Z.leb_spec (raft_last_log_index r + 1) (raft_last_log_index r)); [lia|].
  destruct (log_append_ok realloc_ok r e Hok) as [Hlog Hb].
  set (r1 := (log_append realloc_ok r e).1) in *.
  assert (Hlast : raft_last_log_index r1 = raft_last_log_index r + 1).
  { unfold raft_last_log_index. rewrite Hlog, Hb, blen_app. unfold blen. cbn [length]. lia. }
  rewrite <- Hlast. destruct (IH r1) as [-> ->]; [rewrite Hlog; by destruct (log r)|].
  rewrite Hlog, <- app_assoc. done.
Qed.

(** The log after placing [es] at [idx]: the entries split into a part the log
    already has and a part that replaces the log from the first conflict, or
    extends it. *)
Definition append_split (r : Raft) (idx : Z) (es l' : list RaftEntry) : Prop :=
  exists es1 es2, es = es1 ++ es2 /\ entries_agree r idx es1 /\
    l' = (if decide (es2 = []) then log r
          else take (Z.to_nat (idx + blen es1 - log_base r)) (log r) ++ es2) /\
    (es2 <> [] -> log_base r < idx + blen es1 <= raft_last_log_index r + 1) /\
    (forall e, head es2 = Some e -> idx + blen es1 <= raft_last_log_index r ->
       term_at r (idx + blen es1) <> e_term e).

(** An entry the log has moves to the part that is kept. *)
Lemma append_split_keep r idx e es l' :
  (log_base r < idx -> idx <= raft_last_log_index r /\ term_at r idx = e_term e) ->
  append_split r (idx + 1) es l' -> append_split r idx (e :: es) l'.
Proof.
  intros He (es1 & es2 & -> & Ha & Hlog & Hr & Hc).
  exists (e :: es1), es2. assert (Hb : idx + blen (e :: es1) = idx + 1 + blen es1).
  { unfold blen. cbn [length]. lia. }
  rewrite !Hb. split; [done|]. split; [|done].
  intros [|k] x Hx Hxb; cbn in Hx.
  - injection Hx as <-. rewrite Z.add_0_r in *. auto.
  - replace (idx + Z.of_nat (S k)) with (idx + 1 + Z.of_nat k) in * by lia. by apply Ha.
Qed.

(** The first entry the log does not have starts the new tail. *)
Lemma append_split_new r r1 idx e es t :
  log_base r < idx <= raft_last_log_index r + 1 ->
  (idx <= raft_last_log_index r -> term_at r idx <> e_term e) ->
  log r1 = take (Z.to_nat (idx - log_base r)) (log r) -> log_base r1 = log_base r ->
  append_split r idx (e :: es)
    (log (append_loop realloc_ok (log_append realloc_ok r1 e).1 t (idx + 1) es).1).
Proof.
  intros Hb Hconf Hl1 Hb1. exists [], (e :: es).
  rewrite decide_False by done. change (blen []) with 0. rewrite Z.add_0_r. cbn [app].
  split; [done|]. split; [by intros k x Hx|]. split; [|split; [lia|intros ? [= <-]; done]].
  destruct (log_append_ok realloc_ok r1 e Hok) as [Hlog Hbase].
  set (r2 := (log_append realloc_ok r1 e).1) in *.
  assert (Hlast : raft_last_log_index r2 + 1 = idx + 1).
  { unfold raft_last_log_index in *. rewrite Hlog, Hbase, Hl1, Hb1. unfold blen in *.
    rewrite length_app, length_take. cbn [length]. lia. }
  rewrite <- Hlast. destruct (append_loop_push es r2 t) as [-> _].
  { rewrite Hlog. by intros [_ ?]%app_nil. }
  by rewrite Hlog, Hl1, <- app_assoc.
Qed.

Lemma append_loop_log es r t idx :
  log r <> [] -> idx <= raft_last_log_index r + 1 ->
  append_split r idx es (log (append_loop realloc_ok r t idx es).1).
Proof.
  revert idx t. induction es as [|e es IH]; intros idx t Hl Hidx.
  { exists [], []. split; [done|]. split; [by intros k e Hk|]. cbn [append_loop fst].
    rewrite decide_True by done. done. }
  cbn [append_loop]. destruct (Z.leb_spec idx (log_base r)) as [Hle|Hgt].
  { pose proof (raft_last_ge_base r Hl). apply append_split_keep; [lia|]. apply IH; [done|lia]. }
  destruct (Z.leb_spec idx (raft_last_log_index r)) as [Hin|Hout].
  - destruct (Z.eqb_spec (term_at r idx) (e_term e)) as [He|He]; cbn [negb].
    + apply append_split_keep; [done|]. apply IH; [done|lia].
    + apply append_split_new; done.
  - apply append_split_new; [lia|lia| |done].
    rewrite take_ge; [done|]. unfold raft_last_log_index, blen in *. lia.
Qed.
End Replication.

(** Two logs that have an entry of the same term at some index are equal up to
    that index, as far as neither has compacted it away. *)
Definition log_matching (a b : Raft) : Prop :=
  forall i, log_base a <= i -> log_base b <= i ->
    i <= raft_last_log_index a -> i <= raft_last_log_index b -> term_at a i = term_at b i ->
    forall j, log_base a < j -> log_base b < j -> j <= i -> ent a j = ent b j.

Lemma blen_batch (l : Raft) (n : nat) i k e :
  take n (drop (Z.to_nat (i - log_base l)) (log l)) !! k = Some e -> log_base l <= i ->
  i + Z.of_nat k <= raft_last_log_index l /\ ent l (i + Z.of_nat k) = e.
Proof.
  intros Hk Hi. apply lookup_take_Some in Hk as [Hk _]. rewrite lookup_drop in Hk.
  pose proof (lookup_lt_Some _ _ _ Hk). rewrite ent_lookup. unfold raft_last_log_index, blen.
  replace (Z.to_nat (i + Z.of_nat k - log_base l)) with (Z.to_nat (i - log_base l) + k)%nat by lia.
  rewrite Hk. split; [lia|done].
Qed.

Section Match.
Variables (l r r' : Raft) (prev : Z) (n : nat).
Let es := take n (drop (Z.to_nat (prev + 1 - log_base l)) (log l)).
Hypothesis Hprev : log_base l <= prev <= raft_last_log_index r.
Hypothesis Hlm : log_matching l r.
Hypothesis Hpl : prev <= raft_last_log_index l.
Hypothesis Hterm : log_base r <= prev -> term_at r prev = term_at l prev.
Hypothesis Hbase : log_base r' = log_base r.
Hypothesis Hsplit : append_split r (prev + 1) es (log r').

(** The part of the follower's log that is kept is the leader's. *)
Lemma kept_agrees es1 es2 j :
  es = es1 ++ es2 -> entries_agree r (prev + 1) es1 ->
  log_base l < j -> log_base r < j -> j <= prev + blen es1 ->
  j <= raft_last_log_index r /\ ent r j = ent l j.
Proof.
  intros Hes Ha Hj1 Hj2 Hj3. destruct (decide (j <= prev)) as [Hle|Hgt].
  { split; [lia|]. symmetry. apply (Hlm prev); lia. }
  unfold blen in Hj3. set (k := Z.to_nat (j - (prev + 1))).
  destruct (es1 !! k) as [e|] eqn:Hk; [|apply lookup_ge_None in Hk; lia].
  destruct (Ha k e Hk ltac:(lia)) as [Hlast Ht]. replace (prev + 1 + Z.of_nat k) with j in * by lia.
  destruct (blen_batch l n (prev + 1) k e) as [Hll He]; [|lia|].
  { fold es. rewrite Hes. by apply lookup_app_l_Some. }
  replace (prev + 1 + Z.of_nat k) with j in * by lia. split; [done|].
  symmetry. apply (Hlm j); try lia. unfold term_at in *. by rewrite He.
Qed.

Lemma replicated_agrees j :
  log_base l < j -> log_base r < j -> j <= prev + blen es ->
  j <= raft_last_log_index r' /\ ent r' j = ent l j.
Proof.
  intros Hj1 Hj2 Hj3. destruct Hsplit as (es1 & es2 & Hes & Ha & Hlog & Hr & _).
  unfold raft_last_log_index. rewrite Hbase, ent_lookup, Hbase.
  destruct (decide (es2 = [])) as [->|Hne].
  - rewrite app_nil_r in Hes. rewrite Hlog. rewrite Hes in Hj3.
    destruct (kept_agrees es1 [] j) as [H1 H2]; try done; [by rewrite app_nil_r|].
    rewrite <- ent_lookup. done.
  - specialize (Hr Hne). rewrite Hlog.
    set (k := Z.to_nat (prev + 1 + blen es1 - log_base r)) in *.
    assert (Hk : length (take k (log r)) = k).
    { rewrite length_take. unfold raft_last_log_index, blen in *. lia. }
    assert (Hes' : blen es = blen es1 + blen es2) by (by rewrite Hes, blen_app).
    unfold blen in *. rewrite length_app, Hk.
    split; [lia|]. destruct (decide (j <= prev + Z.of_nat (length es1))) as [Hle|Hgt].
    + destruct (kept_agrees es1 es2 j) as [H1 H2]; try done.
      rewrite lookup_app_l by lia. rewrite lookup_take_lt by lia.
      rewrite <- ent_lookup. done.
    + rewrite lookup_app_r by lia. rewrite Hk.
      replace (Z.to_nat (j - log_base r) - k)%nat
        with (Z.to_nat (j - (prev + 1)) - length es1)%nat by lia.
      destruct (es2 !! (Z.to_nat (j - (prev + 1)) - length es1)%nat) as [e|] eqn:He;
        [|apply lookup_ge_None in He; lia].
      destruct (blen_batch l n (prev + 1) (Z.to_nat (j - (prev + 1))) e) as [_ Hent]; [|lia|].
      { fold es. rewrite Hes, lookup_app_r by lia. done. }
      replace (prev + 1 + Z.of_nat (Z.to_nat (j - (prev + 1)))) with j in Hent by lia. done.
Qed.

Lemma replicated_matching : log_matching l r'.
Proof.
  intros i Hi1 Hi2 Hi3 Hi4 Ht j Hj1 Hj2 Hj3. rewrite Hbase in *.
  destruct (decide (j <= prev + blen es)) as [Hle|Hgt].
  { symmetry. by apply replicated_agrees. }
  destruct Hsplit as (es1 & es2 & Hes & Ha & Hlog & Hr & _).
  destruct (decide (es2 = [])) as [->|Hne].
  - unfold raft_last_log_index, term_at in *. rewrite (ent_lookup r') in *.
    rewrite Hbase, Hlog in *. rewrite <- (ent_lookup r) in *. by apply (Hlm i).
  - exfalso. specialize (Hr Hne).
    assert (Hes' : blen es = blen es1 + blen es2) by (by rewrite Hes, blen_app).
    unfold raft_last_log_index in *. rewrite Hlog, Hbase, blen_app in Hi4.
    unfold blen in *. rewrite length_take in Hi4. lia.
Qed.

Lemma replicated_extends :
  (forall j, prev < j <= prev + blen es -> log_base r < j -> j <= raft_last_log_index r ->
     term_at r j = term_at l j) -> exists k, log r' = log r ++ k.
Proof.
  intros Hag. destruct Hsplit as (es1 & es2 & Hes & Ha & Hlog & Hr & Hc).
  destruct es2 as [|e es2]; [rewrite decide_True in Hlog by done; exists []; by rewrite app_nil_r|].
  rewrite decide_False in Hlog by done. specialize (Hr ltac:(done)).
  destruct (decide (prev + 1 + blen es1 <= raft_last_log_index r)) as [Hle|Hgt].
  - exfalso. apply (Hc e eq_refl Hle). rewrite Hag; try lia.
    + destruct (blen_batch l n (prev + 1) (length es1) e) as [_ Hent]; [|lia|].
      { fold es. rewrite Hes. apply list_lookup_middle. done. }
      unfold term_at, blen. by rewrite Hent.
    + rewrite Hes, blen_app. unfold blen. cbn [length]. lia.
  - exists (e :: es2). rewrite Hlog, take_ge; [done|].
    unfold raft_last_log_index, blen in *. lia.
Qed.
End Match.

(** ** The handler as a whole *)

Definition prev_matches (r : Raft) (msg : RaftMsg) : bool :=
  (m_prev_log_index msg <=? raft_last_log_index r) &&
  negb ((log_base r <=? m_prev_log_index msg) &&
        negb (term_at r (m_prev_log_index msg) =? m_prev_log_term msg)).

Lemma prev_matches_spec r msg :
  prev_matches r msg = true <->
  m_prev_log_index msg <= raft_last_log_index r /\
  (log_base r <= m_prev_log_index msg -> term_at r (m_prev_log_index msg) = m_prev_log_term msg).
Proof.
  unfold prev_matches. rewrite andb_true_iff, Z.leb_le, negb_true_iff, andb_false_iff, Z.leb_gt, negb_false_iff, Z.eqb_eq.
  split; intros [H1 H2]; (split; [done|]); [intros; destruct H2; [lia|done]|].
  destruct (decide (log_base r <= m_prev_log_index msg)); [right; auto|left; lia].
Qed.

Lemma apply_committed_log r : log (apply_committed r) = log r /\ log_base (apply_committed r) = log_base r.
Proof. rewrite apply_committed_eq. done. Qed.

(** The logs, the commit index and the reply of the handler for a current term. *)
Lemma handle_append_cases realloc_ok r msg :
  current_term r <= m_term msg ->
  let '(r', reply) := handle_append_entries realloc_ok r msg in
  log_base r' = log_base r /\ m_success reply = prev_matches r msg /\
  (prev_matches r msg = false -> log r' = log r /\ commit_index r' = commit_index r) /\
  (prev_matches r msg = true ->
   m_match_index reply = m_prev_log_index msg + blen (m_entries msg) /\
   (exists r0, log r0 = log r /\ log_base r0 = log_base r /\
    log r' = log (append_loop realloc_ok r0 false (m_prev_log_index msg + 1) (m_entries msg)).1) /\
   commit_index r' = if commit_index r <? m_leader_commit msg
                     then Z.min (m_leader_commit msg) (raft_last_log_index r') else commit_index r).
Proof.
  intros Ht. unfold handle_append_entries. cbv zeta.
  set (v := step_down_if_higher (m_term msg) r).
  assert (Hs : current_term v <= m_term msg /\ log v = log r /\ log_base v = log_base r /\
      commit_index v = commit_index r).
  { unfold v, step_down_if_higher. case_cmp; repeat split; cbn; lia. }
  destruct Hs as (Hct & Hl & Hb & Hc). clearbody v.
  destruct (Z.ltb_spec (m_term msg) (current_term v)); [lia|].
  set (r0 := set_election_elapsed 0 (set_role RAFT_FOLLOWER v)).
  assert (Hl0 : log r0 = log r) by done. assert (Hb0 : log_base r0 = log_base r) by done.
  assert (Hc0 : commit_index r0 = commit_index r) by done.
  assert (Hpm : prev_matches r0 msg = prev_matches r msg).
  { unfold prev_matches, raft_last_log_index, term_at, ent. by rewrite Hl0, Hb0. }
  clearbody r0. rewrite <- Hpm. unfold prev_matches.
  destruct (Z.ltb_spec (raft_last_log_index r0) (m_prev_log_index msg)) as [Hlt|Hge].
  { destruct (Z.leb_spec (m_prev_log_index msg) (raft_last_log_index r0)); [lia|]. cbn. done. }
  destruct (Z.leb_spec (m_prev_log_index msg) (raft_last_log_index r0)); [|lia]. cbn [andb].
  match goal with |- context [if ?b then (r0, _) else _] => destruct b eqn:E end; cbn [negb].
  { done. }
  pose proof (append_loop_base realloc_ok (m_entries msg) r0 false (m_prev_log_index msg + 1)) as Hb1.
  assert (Hc1 : commit_index (append_loop realloc_ok r0 false (m_prev_log_index msg + 1) (m_entries msg)).1
                = commit_index r0) by apply append_loop_commit.
  destruct (append_loop _ _ _ _ _) as [r1 tr] eqn:Ea. cbn [fst] in Hb1, Hc1.
  set (r2 := if tr then recompute_member_mask r1 else r1).
  assert (H2 : log r2 = log r1 /\ log_base r2 = log_base r0 /\ commit_index r2 = commit_index r).
  { unfold r2. destruct tr; cbn; split; try done; by rewrite Hc1. }
  clearbody r2. destruct H2 as (Hl2 & Hb2 & Hc2). rewrite Hc2.
  destruct (Z.ltb_spec (commit_index r) (m_leader_commit msg)).
  - rewrite apply_committed_eq. cbn. rewrite Hb2. split; [done|]. split; [done|]. split; [done|].
    intros _. split; [done|]. split; [by exists r0; rewrite Ea|].
    change (raft_last_log_index (set_apply_ctx _ _)) with (raft_last_log_index r2).
    destruct (Z.ltb_spec (m_leader_commit msg) (raft_last_log_index r2)); lia.
  - rewrite Hb2. split; [done|]. split; [done|]. split; [done|]. intros _.
    split; [done|]. split; [|done]. by exists r0; rewrite Ea.
Qed.

Lemma send_append_msg l peer msg :
  send_append_entries l peer [] = [msg] -> m_type msg = MSG_APPEND_ENTRIES ->
  log_base l <= next_of l peer - 1 /\ m_term msg = current_term l /\
  m_prev_log_index msg = next_of l peer - 1 /\
  m_prev_log_term msg = term_at l (next_of l peer - 1) /\ m_leader_commit msg = commit_index l /\
  m_entries msg = take RAFT_MAX_BATCH (drop (Z.to_nat (next_of l peer - 1 + 1 - log_base l)) (log l)).
Proof.
  unfold send_append_entries, send_install_snapshot, push_msg.
  replace (next_of l peer - 1 + 1) with (next_of l peer) by lia.
  case_cmp; cbn; intros [= <-]; done.
Qed.

(** C27. A follower that receives what the leader sends it answers success exactly
    when its log reaches the previous entry with the same term (or has compacted
    it).  On success, if the two logs satisfied the log-matching property, the
    follower's log holds the leader's entries up to the acknowledged index,
    log matching still holds, and entries are dropped only when one of them
    conflicts with the message.  On failure its log is unchanged. *)
Theorem raft_append_replicates (realloc_ok : Z -> bool) (l r r' : Raft) (peer : nat) (msg reply : RaftMsg) :
  (forall n, realloc_ok n = true) -> log r <> [] ->
  next_of l peer <= raft_last_log_index l + 1 ->
  send_append_entries l peer [] = [msg] -> m_type msg = MSG_APPEND_ENTRIES ->
  current_term r <= current_term l -> log_matching l r ->
  handle_append_entries realloc_ok r msg = (r', reply) ->
  (m_success reply = true <->
     m_prev_log_index msg <= raft_last_log_index r /\
     (log_base r <= m_prev_log_index msg ->
      term_at r (m_prev_log_index msg) = term_at l (m_prev_log_index msg))) /\
  (m_success reply = false -> log r' = log r) /\
  (m_success reply = true ->
     (forall j, log_base l < j -> log_base r < j -> j <= m_match_index reply ->
        j <= raft_last_log_index r' /\ ent r' j = ent l j) /\
     log_matching l r' /\
     ((forall j, m_prev_log_index msg < j <= m_match_index reply -> log_base r < j ->
         j <= raft_last_log_index r -> term_at r j = term_at l j) -> exists k, log r' = log r ++ k)).
Proof.
  intros Hok Hlog Hnext Hsend Hty Hterm Hlm Hh.
  destruct (send_append_msg l peer msg Hsend Hty) as (Hbl & Hmt & Hp & Hpt & _ & Hes).
  pose proof (handle_append_cases realloc_ok r msg ltac:(lia)) as Hc. rewrite Hh in Hc.
  destruct Hc as (Hb & Hsucc & Hfail & Hgood). rewrite Hsucc.
  rewrite <- Hp in *. rewrite <- Hpt.
  split; [apply prev_matches_spec|]. split; [intros Hf; by destruct (Hfail Hf)|]. intros Hpm.
  destruct (Hgood Hpm) as (Hmi & (r0 & Hl0 & Hb0 & Hl') & _).
  apply prev_matches_spec in Hpm as [Hpm1 Hpm2]. rewrite Hpt in Hpm2.
  assert (Hsplit : append_split r (m_prev_log_index msg + 1) (m_entries msg) (log r')).
  { rewrite Hl'. pose proof (append_loop_log realloc_ok Hok (m_entries msg) r0 false
      (m_prev_log_index msg + 1)) as Hs.
    unfold append_split, entries_agree, term_at, ent, raft_last_log_index in *.
    rewrite Hl0, Hb0 in Hs. apply Hs; [done|lia]. }
  rewrite Hmi. rewrite Hes in *. split; [|split].
  - intros j. apply (replicated_agrees l r r' (m_prev_log_index msg) RAFT_MAX_BATCH); done || lia.
  - apply (replicated_matching l r r' (m_prev_log_index msg) RAFT_MAX_BATCH); done || lia.
  - apply (replicated_extends l r r' (m_prev_log_index msg) RAFT_MAX_BATCH); done || lia.
Qed.

(** C28. The leader's commit rule: the commit index becomes the highest index of an
    entry of the current term that a majority of the members hold (or stays, when
    there is none), and the host is given exactly the newly committed entries
    that are not no-ops, in order. *)
Theorem raft_commit_rule (r : Raft) :
  u32_range (member_mask r) -> commit_index r <= last_applied r ->
  let r' := leader_advance_commit r in
  let majority_holds N :=
    term_at r N = current_term r /\
    blen (mask_nodes (member_mask r)) < 2 * blen (replicas r N) in
  (commit_index r' = commit_index r \/
   commit_index r < commit_index r' <= raft_last_log_index r /\ majority_holds (commit_index r')) /\
  (forall N, commit_index r' < N <= raft_last_log_index r -> commit_index r < N -> ~ majority_holds N) /\
  last_applied r' = Z.max (last_applied r) (commit_index r') /\
  apply_ctx r' = apply_ctx r ++
    applied_events r (last_applied r) (Z.to_nat (commit_index r' - last_applied r)) /\
  log r' = log r /\ current_term r' = current_term r.
Proof.
  intros Hm Ha. cbv zeta.
  assert (Hmax : forall N, quorum_commit r < N <= raft_last_log_index r -> commit_index r < N ->
    ~ (term_at r N = current_term r /\ blen (mask_nodes (member_mask r)) < 2 * blen (replicas r N))).
  { intros N H1 H2. rewrite <- committable_spec by done. intros Hc.
    unfold quorum_commit in H1. match type of H1 with foldl _ _ ?l < _ <= _ =>
      pose proof (foldl_max_ge (commit_index r) l) as [_ Hall] end.
    rewrite list.Forall_forall in Hall. specialize (Hall N).
    rewrite list_elem_of_filter, elem_of_seqZ in Hall. specialize (Hall ltac:(split; [done|lia])). lia. }
  destruct (leader_advance_cases r) as [(H1 & H2 & ->)|[H1 ->]].
  - destruct (commit_at_fields r (quorum_commit r)) as (-> & -> & -> & -> & _ & -> & _).
    split; [right; split; [done|by apply committable_spec]|]. done.
  - rewrite H1 in Hmax. split; [by left|]. split; [done|]. split; [lia|]. split; [|done].
    replace (Z.to_nat (commit_index r - last_applied r)) with 0%nat by lia. by rewrite app_nil_r.
Qed.

Lemma change_config_accepted realloc_ok r m r' i :
  raft_change_config realloc_ok r m = (r', i) -> i <> -1 ->
  Z.lxor (member_mask r) m <> 0 /\
  Z.land (Z.lxor (member_mask r) m) (Z.lxor (member_mask r) m - 1) = 0 /\ member_mask r' = u32 m.
Proof.
  intros Hch Hi. unfold raft_change_config in Hch.
  destruct (negb _); [by injection Hch as _ <-|]. cbv zeta in Hch.
  destruct (_ || _) eqn:Ed; [by injection Hch as _ <-|].
  apply orb_false_iff in Ed as [Ed1 Ed2]. apply Z.eqb_neq in Ed1.
  apply negb_false_iff, Z.eqb_eq in Ed2.
  destruct (_ && _); [by injection Hch as _ <-|].
  destruct (log_append_cases realloc_ok r (mkEnt (current_term r) m true false)) as [[cap E]|E];
    rewrite E in Hch; cbn [negb Z.eqb] in Hch; [|by injection Hch as _ <-].
  injection Hch as <- _. split; [done|]. split; [done|].
  match goal with |- context [start_new_peers m ?x] =>
    destruct (start_new_peers_same m x) as (_ & _ & -> & _) end. done.
Qed.

(** A single-server membership change that is accepted keeps majorities
    overlapping: any majority of the configuration before it and any majority of
    the configuration after it share a node. *)
Theorem raft_config_quorums_overlap (realloc_ok : Z -> bool) (r r' : Raft) (new_mask i : Z) (A B : gset nat) :
  u32_range (member_mask r) -> u32_range new_mask ->
  raft_change_config realloc_ok r new_mask = (r', i) -> i <> -1 ->
  A ⊆ list_to_set (mask_nodes (member_mask r)) -> majority r <= Z.of_nat (size A) ->
  B ⊆ list_to_set (mask_nodes (member_mask r')) -> majority r' <= Z.of_nat (size B) ->
  member_mask r' = new_mask /\ A ∩ B <> ∅.
Proof.
  intros Hm Hn Hch Hi HA HqA HB HqB.
  destruct (change_config_accepted _ _ _ _ _ Hch Hi) as (Hd1 & Hd2 & Hmask).
  rewrite u32_small in Hmask by done. split; [done|].
  rewrite majority_mask in HqA, HqB by (rewrite ?Hmask; done). rewrite Hmask in HB, HqB.
  exact (one_bit_quorums _ _ A B Hm Hn Hd1 Hd2 HA HB HqA HqB).
Qed.

(** C29. Whatever events and messages a node receives after [raft_init], its
    structure stays well formed: the log is never empty, the member mask is the
    one of the last config entry of the log (or of the snapshot), also after
    truncation, compaction and snapshot installation; snapshot point, commit
    index and applied index stay in order; a candidate or leader has voted for
    itself. *)
Theorem raft_node_invariant (realloc_ok : Z -> bool) (id : nat) (n el hb : Z) (apply : bool)
    (r : Raft) (ops : list NodeOp) :
  raft_init true id n el hb apply = Some r -> (id < RAFT_MAX_NODES)%nat -> Forall op_ok ops ->
  raft_wf (node_run realloc_ok r ops).
Proof. intros Hi Hid Hops. apply wf_node_run; [by eapply wf_init|done]. Qed.

(** ** The persistent file *)

(** The values fit the fields they are written to. *)
Record persist_ok (r : Raft) : Prop := {
  pk_term : 0 <= current_term r < 2 ^ 64;
  pk_voted : - 2 ^ 31 <= voted_for r < 2 ^ 31;
  pk_mask : u32_range (member_mask r);
  pk_base_mask : u32_range (base_member_mask r);
  pk_base : - 2 ^ 63 <= log_base r < 2 ^ 63;
  pk_snap : - 2 ^ 63 <= snapshot_value r < 2 ^ 63;
  pk_len : 1 <= blen (log r) < 2 ^ 63;
  pk_entries : Forall (fun e => 0 <= e_term e < 2 ^ 64 /\ - 2 ^ 63 <= e_command e < 2 ^ 63) (log r) }.

Definition raft_file_size (r : Raft) : Z := 44 + ENTRY_SIZE * blen (log r).

Lemma le_val_unsigned n z : 0 <= z < 2 ^ (8 * Z.of_nat n) -> le_val (le_bytes n z) = z.
Proof. intros H. rewrite le_val_le_bytes. by apply Z.mod_small. Qed.

Lemma signed_mod w z : 0 <= w -> signed w (z mod 2 ^ w) = signed w z.
Proof. intros H. unfold signed. by rewrite Z.mod_mod by lia. Qed.

Lemma le_val_i64 z : - 2 ^ 63 <= z < 2 ^ 63 -> i64 (le_val (le_bytes 8 z)) = z.
Proof.
  intros H. rewrite le_val_le_bytes. unfold i64. change (8 * Z.of_nat 8) with 64.
  rewrite signed_mod by lia. apply signed_small; [lia|exact H].
Qed.

Lemma le_val_i32 z : - 2 ^ 31 <= z < 2 ^ 31 -> i32 (le_val (le_bytes 4 z)) = z.
Proof.
  intros H. rewrite le_val_le_bytes. unfold i32. change (8 * Z.of_nat 4) with 32.
  rewrite signed_mod by lia. apply signed_small; [lia|exact H].
Qed.

Lemma take_le_bytes n z l : take n (le_bytes n z ++ l) = le_bytes n z.
Proof. rewrite take_app_le, take_ge; rewrite ?length_le_bytes; done. Qed.

Lemma drop_le_bytes n z l : drop n (le_bytes n z ++ l) = l.
Proof. rewrite drop_app_length'; [done|]. by rewrite length_le_bytes. Qed.

Lemma mjoin_cons {A} (x : list A) (l : list (list A)) : mjoin (x :: l) = x ++ mjoin l.
Proof. done. Qed.

Lemma blen_encode_entry e : blen (encode_entry e) = ENTRY_SIZE.
Proof. unfold encode_entry. rewrite !blen_app, !blen_le_bytes. done. Qed.

Lemma decode_encode_entry e l :
  0 <= e_term e < 2 ^ 64 -> - 2 ^ 63 <= e_command e < 2 ^ 63 ->
  decode_entry (encode_entry e ++ l) = e.
Proof.
  intros Ht Hc. unfold decode_entry, encode_entry. rewrite <- !app_assoc.
  change (drop 16) with (fun l : bytes => drop (8 + 8) l). change (drop 20) with (fun l : bytes => drop (8 + (8 + 4)) l).
  cbv beta. rewrite <- !drop_drop, !drop_le_bytes, !take_le_bytes.
  rewrite le_val_i64 by done. rewrite !le_val_unsigned; try exact Ht.
  - destruct e as [t c [] []]; done.
  - destruct (e_is_noop e); done.
  - destruct (e_is_config e); done.
Qed.

Lemma decode_encode_entries es l :
  Forall (fun e => 0 <= e_term e < 2 ^ 64 /\ - 2 ^ 63 <= e_command e < 2 ^ 63) es ->
  decode_entries (length es) (mjoin (encode_entry <$> es) ++ l) = es.
Proof.
  induction 1 as [|e es [Ht Hc] _ IH]; [done|].
  cbn [length decode_entries]. rewrite fmap_cons, mjoin_cons, <- app_assoc.
  rewrite decode_encode_entry by done. f_equal.
  rewrite drop_app_length'; [exact IH|]. pose proof (blen_encode_entry e). unfold blen in *. lia.
Qed.

Lemma blen_encode_entries es : blen (mjoin (encode_entry <$> es)) = ENTRY_SIZE * blen es.
Proof.
  induction es as [|e es IH]; [done|]. rewrite fmap_cons, mjoin_cons.
  rewrite blen_app, blen_encode_entry, IH. unfold blen, ENTRY_SIZE. cbn [length]. lia.
Qed.

Lemma wr_seq_spec limit l file : blen file <= limit ->
  wr_seq limit file l =
  (take (Z.to_nat limit) (file ++ mjoin l), if blen (file ++ mjoin l) <=? limit then 0 else -1).
Proof.
  revert file. induction l as [|bs l IH]; intros file Hf; cbn [wr_seq].
  - change (mjoin []) with (@nil Z). rewrite app_nil_r. destruct (Z.leb_spec (blen file) limit); [|lia].
    rewrite take_ge; [done|]. unfold blen in *. lia.
  - unfold wr_all. rewrite mjoin_cons, app_assoc. destruct (Z.leb_spec (blen file + blen bs) limit) as [Hle|Hgt].
    + cbn [negb Z.eqb]. apply IH. rewrite blen_app. lia.
    + cbn [negb Z.eqb]. rewrite !blen_app. pose proof (blen_nonneg (mjoin l)).
      destruct (Z.leb_spec (blen file + blen bs + blen (mjoin l)) limit); [lia|].
      unfold blen in *. rewrite take_app_le by (rewrite length_app; lia).
      rewrite take_app_ge by lia. repeat f_equal. lia.
Qed.

Lemma rd_all_app n bs rest : blen bs = n -> rd_all n (bs ++ rest) = Some (bs, rest).
Proof.
  intros H. unfold rd_all. rewrite blen_app. pose proof (blen_nonneg rest).
  destruct (Z.leb_spec n (blen bs + blen rest)); [|lia].
  unfold blen in *. rewrite take_app_length', drop_app_length' by lia. done.
Qed.

(** The fixed part of the file, before the entries. *)
Definition raft_header (r : Raft) : bytes := mjoin (take 7 (raft_fields r)).

Lemma blen_header r : blen (raft_header r) = 44.
Proof. unfold raft_header. cbn [raft_fields take]. rewrite !mjoin_cons, !blen_app, !blen_le_bytes. done. Qed.

Lemma fields_split r : mjoin (raft_fields r) = raft_header r ++ mjoin (encode_entry <$> log r).
Proof.
  unfold raft_header, raft_fields. cbn [take].
  rewrite !mjoin_cons. change (mjoin []) with (@nil Z). rewrite !app_nil_r, <- !app_assoc. done.
Qed.

Lemma rd_all_length n file bs rest : rd_all n file = Some (bs, rest) -> 0 <= n -> blen rest = blen file - n.
Proof.
  unfold rd_all. case_cmp; intros [= <- <-] ?. unfold blen in *. rewrite length_drop. lia.
Qed.

Lemma raft_load_short realloc_ok r0 file : blen file < 44 -> raft_load realloc_ok r0 file = None.
Proof.
  intros H. destruct (raft_load realloc_ok r0 file) as [r1|] eqn:E; [|done]. exfalso.
  unfold raft_load in E. inv_opt.
  repeat match goal with
  | E : rd_all _ _ = Some ?p |- _ =>
      is_var p; destruct p as [? ?]; cbn in *; inv_opt
  end.
  repeat match goal with
  | E : rd_all _ _ = Some (_, ?rest) |- _ =>
      apply rd_all_length in E; [pose proof (blen_nonneg rest)|lia]
  end. lia.
Qed.

Lemma raft_load_header realloc_ok r0 r rest : (forall n, realloc_ok n = true) -> persist_ok r ->
  raft_load realloc_ok r0 (raft_header r ++ rest) =
  ('(es, _) ← rd_all (blen (log r) * ENTRY_SIZE) rest;
   let r1 := (if log_cap r0 <? blen (log r) then set_log_cap (blen (log r)) r0 else r0)
             |> set_log (decode_entries (length (log r)) es)
             |> set_current_term (current_term r)
             |> set_voted_for (voted_for r)
             |> set_member_mask (member_mask r)
             |> set_base_member_mask (base_member_mask r)
             |> set_pending_config_index (-1)
             |> set_log_base (log_base r)
             |> set_snapshot_value (snapshot_value r)
             |> set_commit_index (log_base r)
             |> set_last_applied (log_base r) in
   Some (if (0 <? log_base r) && has_snap_install r1
         then set_apply_ctx (apply_ctx r1 ++ [EvSnap (node_id r1) (log_base r) (snapshot_value r)]) r1
         else r1)).
Proof.
  intros Hok [H1 H2 H3 H4 H5 H6 H7 H8]. unfold raft_header, raft_fields. cbn [take].
  rewrite !mjoin_cons. change (mjoin []) with (@nil Z). rewrite app_nil_r, <- !app_assoc. unfold raft_load.
  do 7 (rewrite rd_all_app by apply blen_le_bytes; cbn [mbind option_bind]).
  rewrite (le_val_i64 (blen (log r))) by lia.
  destruct (Z.ltb_spec (blen (log r)) 1); [lia|]. rewrite Hok.
  rewrite !le_val_i64, le_val_i32 by done.
  rewrite (le_val_unsigned 8) by exact H1. rewrite !(le_val_unsigned 4) by (exact H3 || exact H4).
  replace (Z.to_nat (blen (log r))) with (length (log r)) by (unfold blen; lia).
  destruct (log_cap r0 <? blen (log r)); cbn [mbind option_bind];
    destruct (rd_all _ rest) as [[es ?]|]; reflexivity.
Qed.

(** Saving and loading the persistent state.  A file that was written completely
    restores term, vote, membership, snapshot and log exactly, with commit and
    applied index at the snapshot point.  Whatever shorter part of it reached the
    device, saving reports an error and loading refuses the file instead of
    restoring something else. *)
Theorem raft_save_load (realloc_ok : Z -> bool) (r r0 : Raft) (limit : Z) :
  (forall n, realloc_ok n = true) -> persist_ok r -> 0 <= limit ->
  let '(file, rc) := raft_save limit true r in
  if raft_file_size r <=? limit then
    rc = 0 /\ exists r1, raft_load realloc_ok r0 file = Some r1 /\
      current_term r1 = current_term r /\ voted_for r1 = voted_for r /\
      member_mask r1 = member_mask r /\ base_member_mask r1 = base_member_mask r /\
      log r1 = log r /\ log_base r1 = log_base r /\ snapshot_value r1 = snapshot_value r /\
      commit_index r1 = log_base r /\ last_applied r1 = log_base r /\ role r1 = role r0
  else rc = -1 /\ raft_load realloc_ok r0 file = None.
Proof.
  intros Hok Hp Hlim. unfold raft_save. rewrite wr_seq_spec by (unfold blen; cbn [length]; lia).
  cbn [app]. rewrite fields_split. set (body := mjoin (encode_entry <$> log r)).
  assert (Hb : blen body = ENTRY_SIZE * blen (log r)) by apply blen_encode_entries.
  assert (Hlen : blen (raft_header r ++ body) = raft_file_size r).
  { rewrite blen_app, blen_header, Hb. done. }
  rewrite Hlen. destruct (Z.leb_spec (raft_file_size r) limit) as [Hle|Hgt].
  - rewrite take_ge by (unfold blen in *; lia). split; [done|].
    rewrite raft_load_header by done. rewrite <- (app_nil_r body), rd_all_app by (rewrite Hb; lia).
    cbn [mbind option_bind]. eexists. split; [reflexivity|].
    pose proof (decode_encode_entries (log r) [] (pk_entries _ Hp)) as Hd.
    rewrite app_nil_r in Hd. fold body in Hd. rewrite Hd.
    destruct (log_cap r0 <? _), (_ && _); cbn; done.
  - split; [done|]. destruct (decide (limit < 44)) as [Hs|Hs].
    + apply raft_load_short. unfold blen. rewrite length_take. lia.
    + pose proof (blen_header r) as Hh. rewrite take_app_ge by (unfold blen in *; lia).
      rewrite raft_load_header by done. unfold rd_all.
      destruct (Z.leb_spec (blen (log r) * ENTRY_SIZE)
        (blen (take (Z.to_nat limit - length (raft_header r)) body))) as [H|]; [|done].
      exfalso. unfold blen in *. rewrite length_take in H. unfold raft_file_size, blen in *. lia.
Qed.

(** ** Witnesses *)

(** Node [id] of a cluster of three, with a given role, term and log. *)
Definition demo_node (id : nat) (ro : RaftRole) (t : Z) (es : list RaftEntry) : Raft :=
  default (mkRaft 0 0 0 0 0 0 0 [] 0 0 0 RAFT_FOLLOWER 0 0 0 [] [] 0 0 0 0 0 0 0 0 0 false false [])
    (raft_init true id 3 10 2 true)
  |> set_role ro |> set_current_term t |> set_voted_for (Z.of_nat id) |> set_log (entry0 :: es).

Definition demo_cmd (t c : Z) : RaftEntry := mkEnt t c false false.

(** A leader of term 2 with three entries, whose node 1 is to get entries from index 2. *)
Definition demo_leader : Raft :=
  demo_node 0 RAFT_LEADER 2 [demo_cmd 1 10; demo_cmd 2 20; demo_cmd 2 30]
  |> set_next_index [4; 2; 4; 0; 0; 0; 0] |> set_match_index [3; 0; 0; 0; 0; 0; 0].

(** A follower with a conflicting entry at index 2. *)
Definition demo_follower : Raft := demo_node 1 RAFT_FOLLOWER 1 [demo_cmd 1 10; demo_cmd 1 99].

Definition demo_append : RaftMsg := default msg0 (head (send_append_entries demo_leader 1 [])).

Lemma demo_matching : log_matching demo_leader demo_follower.
Proof.
  intros i H1 H2 H3 H4 Ht j Hj1 Hj2 Hj3.
  change (log_base demo_leader) with 0 in *. change (log_base demo_follower) with 0 in *.
  change (raft_last_log_index demo_leader) with 3 in *.
  change (raft_last_log_index demo_follower) with 2 in *.
  assert (Hi : i = 0 \/ i = 1 \/ i = 2) by lia. destruct Hi as [->|[->| ->]]; [lia| |discriminate Ht].
  replace j with 1 by lia. reflexivity.
Qed.

Lemma raft_append_replicates_witness :
  let '(r', reply) := handle_append_entries (fun _ => true) demo_follower demo_append in
  m_success reply = true /\ raft_last_log_index r' = 3 /\ log_matching demo_leader r'.
Proof.
  destruct (handle_append_entries (fun _ => true) demo_follower demo_append) as [r' reply] eqn:E.
  assert (Hs : m_success reply = true) by (vm_compute in E; injection E as <- <-; reflexivity).
  split; [exact Hs|]. split; [vm_compute in E; injection E as <- <-; reflexivity|].
  apply (raft_append_replicates (fun _ => true) demo_leader demo_follower r' 1 demo_append reply).
  - reflexivity.
  - discriminate.
  - vm_compute. discriminate.
  - vm_compute. reflexivity.
  - vm_compute. reflexivity.
  - vm_compute. discriminate.
  - exact demo_matching.
  - exact E.
  - exact Hs.
Defined.

Lemma raft_commit_rule_witness :
  commit_index (leader_advance_commit (set_match_index [3; 2; 0; 0; 0; 0; 0] demo_leader)) = 2 /\
  apply_ctx (leader_advance_commit (set_match_index [3; 2; 0; 0; 0; 0; 0] demo_leader)) =
    [EvApply 0 1 10; EvApply 0 2 20].
Proof.
  destruct (raft_commit_rule (set_match_index [3; 2; 0; 0; 0; 0; 0] demo_leader)) as (_ & _ & _ & Ha & _).
  - split; vm_compute; [discriminate|reflexivity].
  - vm_compute. discriminate.
  - split; [vm_compute; reflexivity|]. etransitivity; [exact Ha|]. vm_compute. reflexivity.
Defined.

Lemma raft_config_quorums_overlap_witness :
  ({[0; 1]} : gset nat)%nat ∩ {[1; 2; 3]}%nat <> ∅.
Proof.
  destruct (raft_config_quorums_overlap (fun _ => true) demo_leader
    (raft_change_config (fun _ => true) demo_leader 15).1 15 4 {[0; 1]}%nat {[1; 2; 3]}%nat) as [_ H].
  - split; vm_compute; [discriminate|reflexivity].
  - split; vm_compute; [discriminate|reflexivity].
  - vm_compute. reflexivity.
  - discriminate.
  - apply (bool_decide_unpack _). vm_compute. exact I.
  - vm_compute. discriminate.
  - apply (bool_decide_unpack _). vm_compute. exact I.
  - vm_compute. discriminate.
  - exact H.
Defined.

Lemma raft_node_invariant_witness :
  exists r, raft_init true 0 3 1 1 true = Some r /\
    raft_wf (node_run (fun _ => true) r [OpTick; OpRecv demo_append; OpSubmit 7; OpRestart]).
Proof.
  eexists. split; [vm_compute; reflexivity|].
  eapply (raft_node_invariant (fun _ => true) 0 3 1 1 true).
  - vm_compute. reflexivity.
  - unfold RAFT_MAX_NODES. lia.
  - repeat constructor; vm_compute; discriminate || reflexivity.
Defined.

Lemma raft_save_load_witness :
  (raft_save 200 true demo_leader).2 = 0 /\
  (raft_save 100 true demo_leader).2 = -1 /\
  raft_load (fun _ => true) demo_follower (raft_save 100 true demo_leader).1 = None.
Proof.
  assert (Hp : persist_ok demo_leader).
  { constructor; [split; [vm_compute; discriminate|vm_compute; reflexivity]..|].
    change (log demo_leader) with [entry0; demo_cmd 1 10; demo_cmd 2 20; demo_cmd 2 30].
    repeat apply Forall_cons; [..|apply Forall_nil].
    all: cbn [e_term e_command entry0 demo_cmd]; lia. }
  pose proof (raft_save_load (fun _ => true) demo_leader demo_follower 200 (fun _ => eq_refl) Hp ltac:(lia)) as H1.
  pose proof (raft_save_load (fun _ => true) demo_leader demo_follower 100 (fun _ => eq_refl) Hp ltac:(lia)) as H2.
  destruct (raft_save 200 true demo_leader) as [f1 rc1]. destruct (raft_save 100 true demo_leader) as [f2 rc2].
  change (raft_file_size demo_leader <=? 200) with true in H1.
  change (raft_file_size demo_leader <=? 100) with false in H2.
  destruct H1 as [H1 _]. destruct H2 as [H2 H3]. auto.
Defined.
