(* ===== verification/RaftCluster.v ===== *)
(** * Raft: a cluster of nodes over an adversarial network (src/src/raft.c)

    The harness of raft.h: nodes that only react to events, and a router that
    owns the messages in flight.  A message may be delivered at any time, in any
    order, or be lost; nodes may crash and restart.  The network does not
    duplicate messages (the vote counter of [handle_request_vote_reply] relies on
    that).  The first part shows that a term has at most one leader; the second
    runs a schedule in which the commit rule of [handle_append_entries] makes two
    nodes apply different commands at one index. *)
From S2P Require Import Prelude RaftState Raft.

Record Cluster := mkCluster { nodes : list Raft; net : list RaftMsg }.

Inductive ClusterOp :=
  | CTick (i : nat)
  | CDeliver (k : nat)
  | CDrop (k : nat)
  | CSubmit (i : nat) (command : Z)
  | CConfig (i : nat) (new_mask : Z)
  | CRead (i : nat)
  | CSnapshot (i : nat) (index sm_state : Z)
  | CRestart (i : nat).

Section Cluster.
Variable realloc_ok : Z -> bool.

(** One node reacts; what it sends joins the messages in flight. *)
Definition node_event (c : Cluster) (i : nat) (op : NodeOp) : Cluster :=
  match nodes c !! i with
  | None => c
  | Some r =>
      let '(r', out) := node_step realloc_ok r op in
      mkCluster (<[i := r']> (nodes c)) (net c ++ out)
  end.

Definition take_msg (c : Cluster) (k : nat) : Cluster := mkCluster (nodes c) (delete k (net c)).

Definition cluster_step (c : Cluster) (op : ClusterOp) : Cluster :=
  match op with
  | CTick i => node_event c i OpTick
  | CDeliver k =>
      match net c !! k with
      | None => c
      | Some m => node_event (take_msg c k) (m_to m) (OpRecv m)
      end
  | CDrop k => take_msg c k
  | CSubmit i x => node_event c i (OpSubmit x)
  | CConfig i m => node_event c i (OpConfig m)
  | CRead i => node_event c i OpRead
  | CSnapshot i x v => node_event c i (OpSnapshot x v)
  | CRestart i => node_event c i OpRestart
  end.

Definition cluster_run (c : Cluster) (ops : list ClusterOp) : Cluster := foldl cluster_step c ops.
End Cluster.

(** [n] nodes from [raft_init]; node [i] has the election timeout [el i]. *)
Definition cluster_init (n : nat) (el : nat -> Z) (hb : Z) : Cluster :=
  mkCluster (omap (fun i => raft_init true i (Z.of_nat n) (el i) hb true) (seq 0 n)) [].

Definition no_config (op : ClusterOp) : Prop := match op with CConfig _ _ => False | _ => True end.

(** ** Fixed membership *)

Definition full_mask (n : nat) : Z := u32 (u32 (Z.shiftl 1 (Z.of_nat n)) - 1).

Definition no_cfg (es : list RaftEntry) : Prop := Forall (fun e => e_is_config e = false) es.

Definition fixed (M : Z) (r : Raft) : Prop :=
  member_mask r = M /\ base_member_mask r = M /\ no_cfg (log r).

Definition msg_fixed (M : Z) (m : RaftMsg) : Prop :=
  no_cfg (m_entries m) /\ (m_type m = MSG_INSTALL_SNAPSHOT -> m_member_mask m = M).

(** A message that carries a vote, or asks for one. *)
Definition vote_msg (m : RaftMsg) : bool :=
  match m_type m with
  | MSG_REQUEST_VOTE => true
  | MSG_REQUEST_VOTE_REPLY => m_vote_granted m
  | _ => false
  end.

(** What a node sends: in its own name and term, nothing about membership. *)
Definition out_ok (M : Z) (r : Raft) (out : list RaftMsg) : Prop :=
  Forall (fun m => m_from m = node_id r /\ m_term m = current_term r /\ msg_fixed M m) out.

Definition quiet (out : list RaftMsg) : Prop := Forall (fun m => vote_msg m = false) out.

Lemma push_msg_Forall (P : RaftMsg -> Prop) out m : Forall P out -> P m -> Forall P (push_msg out m).
Proof.
  intros Ho Hm. unfold push_msg. destruct (_ <? _)%nat; [|done].
  apply list.Forall_app. split; [done|]. by constructor.
Qed.

Lemma no_cfg_nth es k : no_cfg es -> e_is_config (nth k es entry0) = false.
Proof.
  intros H. rewrite nth_lookup. destruct (es !! k) as [e|] eqn:E; [|done].
  by eapply (Forall_lookup_1 _ _ _ _ H).
Qed.

(** Heartbeats carry no votes. *)
Lemma send_all_ok M r out : fixed M r ->
  out_ok M r out /\ quiet out -> out_ok M r (send_all r out) /\ quiet (send_all r out).
Proof.
  intros (_ & Hb & Hl) Hout. unfold send_all.
  apply (for_nodes_inv (fun out => out_ok M r out /\ quiet out)); [done|].
  intros s i _ [Ho Hq]. destruct (_ && _); [|done]. unfold send_append_entries.
  destruct (_ <? _).
  - split; apply push_msg_Forall; try done. cbn. split; [done|]. split; [done|]. split; [constructor|].
    by intros _.
  - split; apply push_msg_Forall; try done. cbn. split; [done|]. split; [done|]. split; [|done].
    apply Forall_take, Forall_drop, Hl.
Qed.

(** ** What an event does to term, vote and role *)

(** Same node, same configuration. *)
Definition same_id (M : Z) (r r' : Raft) : Prop := node_id r' = node_id r /\ fixed M r'.

(** The term may grow, which forgets the vote and the role; in the same term the
    vote stays and the role can only drop to follower. *)
Definition follows (r r' : Raft) : Prop :=
  (current_term r' = current_term r /\ voted_for r' = voted_for r /\
   (role r' = role r /\ votes_granted r' = votes_granted r \/ role r' = RAFT_FOLLOWER)) \/
  (current_term r < current_term r' /\ voted_for r' = -1 /\ role r' = RAFT_FOLLOWER).

Lemma follows_refl r : follows r r.
Proof. left. auto. Qed.

Section Events.
Variables (realloc_ok : Z -> bool) (M : Z).

Lemma fixed_log_append r e : fixed M r -> e_is_config e = false ->
  fixed M (log_append realloc_ok r e).1 /\ follows r (log_append realloc_ok r e).1 /\
  node_id (log_append realloc_ok r e).1 = node_id r.
Proof.
  intros (H1 & H2 & H3) He.
  destruct (log_append_cases realloc_ok r e) as [[cap ->]| ->]; [|split; [done|split; [apply follows_refl|done]]].
  cbn [fst]. unfold log_push, maybe_adopt_config. rewrite He. cbn.
  split; [|split; [left; auto|done]]. split; [done|]. split; [done|]. cbn.
  apply list.Forall_app. split; [done|]. by constructor.
Qed.

Lemma fixed_advance r : fixed M r -> raft_is_member r (node_id r) = true ->
  let r' := leader_advance_commit r in
  same_id M r r' /\ current_term r' = current_term r /\ voted_for r' = voted_for r /\
  role r' = role r /\ votes_granted r' = votes_granted r.
Proof.
  intros (H1 & H2 & H3) Hs. cbv zeta. pose proof (leader_advance_frame r) as H. cbv zeta in H.
  destruct H as (_ & _ & Hl & _ & Ht & Hm & Hb & _ & _ & Hi & Hg & _ & _ & [[Hr Hv]|(Hn & _)]); [|congruence].
  unfold same_id, fixed. rewrite Hl. repeat split; congruence || done.
Qed.

(** The fields the votes depend on, after a role was taken. *)
Definition as_leader (r r' : Raft) : Prop :=
  node_id r' = node_id r /\ fixed M r' /\ current_term r' = current_term r /\
  voted_for r' = voted_for r /\ votes_granted r' = votes_granted r /\ role r' = RAFT_LEADER.

Lemma leader_reset r : fixed M r ->
  as_leader r (reset_peers (take_leader_role r)).
Proof.
  intros Hf. unfold reset_peers. apply for_nodes_inv; [done|].
  intros s i _ H. destruct (negb _); exact H.
Qed.

Lemma leader_noop r r1 : as_leader r r1 ->
  as_leader r (append_noop realloc_ok r1).
Proof.
  intros H. unfold append_noop. destruct (_ <? _); [|exact H]. revert H. intros (Hi & Hf & Ht & Hv & Hg & Hr).
  destruct (fixed_log_append r1 (mkEnt (current_term r1) 0 false true) Hf eq_refl) as [Hf2 _].
  unfold as_leader. destruct (log_append_cases realloc_ok r1 (mkEnt (current_term r1) 0 false true))
    as [[cap E]|E]; rewrite E in *; cbn in *; done.
Qed.

Lemma leader_commit r r1 : as_leader r r1 -> raft_is_member r1 (node_id r1) = true ->
  as_leader r (leader_advance_commit r1).
Proof.
  intros (Hi & Hf & Ht & Hv & Hg & Hr) Hs.
  destruct (fixed_advance r1 Hf Hs) as ([H1 H2] & H3 & H4 & H5 & H6).
  unfold as_leader. split; [congruence|]. split; [exact H2|]. repeat split; congruence.
Qed.

Lemma leader_claim r r1 : as_leader r r1 -> as_leader r (claim_log r1).
Proof. intros H. exact H. Qed.

Lemma leader_heartbeat r r1 : as_leader r r1 -> as_leader r (set_heartbeat_elapsed 0 r1).
Proof. intros H. exact H. Qed.

Lemma leader_member r r1 : as_leader r r1 -> fixed M r -> raft_is_member r (node_id r) = true ->
  raft_is_member r1 (node_id r1) = true.
Proof.
  intros (-> & (Hm & _) & _) (Hm' & _) Hs. unfold raft_is_member in *. by rewrite Hm, <- Hm'.
Qed.

(** Everything [become_leader] does besides taking the role. *)
Lemma become_leader_spec r out : fixed M r -> raft_is_member r (node_id r) = true ->
  out_ok M r out -> quiet out ->
  exists r' out', become_leader realloc_ok r out = (r', out') /\ as_leader r r' /\
    out_ok M r' out' /\ quiet out'.
Proof.
  intros Hf Hs Ho Hq.
  assert (H : exists r5, become_leader realloc_ok r out = (r5, send_all r5 out) /\ as_leader r r5).
  { eexists. split; [reflexivity|]. apply leader_heartbeat, leader_commit.
    - apply leader_claim, leader_noop, leader_reset, Hf.
    - eapply leader_member; [|exact Hf|exact Hs].
      apply leader_claim, leader_noop, leader_reset, Hf. }
  destruct H as (r5 & -> & H5). exists r5, (send_all r5 out). split; [reflexivity|]. split; [exact H5|].
  apply send_all_ok; [apply H5|]. split; [|exact Hq].
  destruct H5 as (Hi & _ & Ht & _). unfold out_ok. rewrite Hi, Ht. exact Ho.
Qed.

(** A node that runs for election asks every other member once. *)
Definition vote_targets (r : Raft) : list nat :=
  filter (fun i => Nat.eqb i (node_id r) || negb (raft_is_member r i) = false) (seq 0 RAFT_MAX_NODES).

Lemma request_loop r l out : (length out + length l <= RAFT_MAX_NODES * 2)%nat ->
  foldl (fun out i => if Nat.eqb i (node_id r) || negb (raft_is_member r i) then out
                      else push_msg out (vote_request r i)) out l =
  out ++ (vote_request r <$>
          filter (fun i => Nat.eqb i (node_id r) || negb (raft_is_member r i) = false) l).
Proof.
  revert out. induction l as [|i l IH]; intros out Hl; cbn [foldl]; [by rewrite app_nil_r|].
  rewrite filter_cons. cbn [length] in Hl.
  destruct (_ || _); case_decide; try done; [apply IH; lia|].
  unfold push_msg. destruct (Nat.ltb_spec (length out) (RAFT_MAX_NODES * 2)); [|lia].
  rewrite IH by (rewrite length_app; cbn [length]; lia). rewrite <- app_assoc. done.
Qed.

(** The four ways an event concerns an election. *)
Inductive vote_event (r : Raft) (op : NodeOp) (r' : Raft) (out : list RaftMsg) : Prop :=
  | ve_follow :
      follows r r' -> quiet out ->
      (current_term r' = current_term r \/ exists msg, op = OpRecv msg /\ current_term r' = m_term msg) ->
      vote_event r op r' out
  | ve_grant msg r1 reply :
      op = OpRecv msg -> m_type msg = MSG_REQUEST_VOTE -> follows r r1 ->
      current_term r1 = m_term msg -> voted_for r1 = -1 \/ voted_for r1 = Z.of_nat (m_from msg) ->
      current_term r' = m_term msg -> voted_for r' = Z.of_nat (m_from msg) ->
      role r' = role r1 -> votes_granted r' = votes_granted r1 ->
      out = [reply] -> m_type reply = MSG_REQUEST_VOTE_REPLY -> m_vote_granted reply = true ->
      m_to reply = m_from msg -> vote_event r op r' out
  | ve_count msg :
      op = OpRecv msg -> m_type msg = MSG_REQUEST_VOTE_REPLY -> m_vote_granted msg = true ->
      role r = RAFT_CANDIDATE -> m_term msg = current_term r ->
      current_term r' = current_term r -> voted_for r' = voted_for r ->
      votes_granted r' = votes_granted r + 1 ->
      role r' = RAFT_CANDIDATE \/ role r' = RAFT_LEADER /\ majority r <= votes_granted r + 1 ->
      quiet out -> vote_event r op r' out
  | ve_candidate :
      op = OpTick -> current_term r' = u64 (current_term r + 1) ->
      voted_for r' = Z.of_nat (node_id r) -> votes_granted r' = 1 ->
      role r' = RAFT_LEADER /\ majority r <= 1 /\ quiet out \/
      role r' = RAFT_CANDIDATE /\ out = vote_request r' <$> vote_targets r' ->
      vote_event r op r' out.

Definition event_ok (r : Raft) (op : NodeOp) (r' : Raft) (out : list RaftMsg) : Prop :=
  same_id M r r' /\ out_ok M r' out /\ vote_event r op r' out.

(** An event that sends nothing and moves neither term nor vote nor role. *)
Lemma event_silent r op r' :
  same_id M r r' -> current_term r' = current_term r -> voted_for r' = voted_for r ->
  role r' = role r /\ votes_granted r' = votes_granted r \/ role r' = RAFT_FOLLOWER ->
  event_ok r op r' [].
Proof.
  intros Hid Ht Hv Hr. split; [done|]. split; [constructor|].
  apply ve_follow; [left; auto|constructor|by left].
Qed.

Lemma candidate_event r : fixed M r -> raft_is_member r (node_id r) = true ->
  let '(r', out) := become_candidate realloc_ok r [] in event_ok r OpTick r' out.
Proof.
  intros Hf Hs. unfold become_candidate.
  set (r1 := set_election_elapsed 0 _).
  assert (H1 : node_id r1 = node_id r /\ fixed M r1 /\ current_term r1 = u64 (current_term r + 1) /\
     voted_for r1 = Z.of_nat (node_id r) /\ votes_granted r1 = 1 /\ role r1 = RAFT_CANDIDATE /\
     majority r1 = majority r).
  { split; [reflexivity|]. split; [exact Hf|]. do 4 (split; [reflexivity|]).
    unfold majority, member_count. reflexivity. }
  clearbody r1. destruct H1 as (Hi & Hf1 & Ht & Hv & Hg & Hr & Hm).
  assert (Hs1 : raft_is_member r1 (node_id r1) = true).
  { rewrite Hi. unfold raft_is_member in *. destruct Hf as (Hf & _), Hf1 as (-> & _). by rewrite <- Hf. }
  destruct (Z.leb_spec (majority r1) (votes_granted r1)) as [Hle|Hgt].
  - destruct (become_leader_spec r1 [] Hf1 Hs1) as (r2 & out & -> & Hl & Ho & Hq);
      [constructor|constructor|].
    destruct Hl as (H1 & H2 & H3 & H4 & H5 & H6).
    split; [split; [congruence|done]|]. split; [done|].
    apply ve_candidate; try congruence. left. split; [done|]. split; [lia|done].
  - split; [split; done|]. split.
    + unfold for_nodes. rewrite request_loop by (cbn; lia). cbn [app]. apply list.Forall_fmap.
      apply list.Forall_forall. intros i _. cbn. split; [done|]. split; [done|]. split; [constructor|done].
    + apply ve_candidate; try done. right. split; [done|].
      unfold for_nodes. rewrite request_loop by (cbn; lia). done.
Qed.

Lemma majority_ext r r' : member_mask r = member_mask r' -> majority r = majority r'.
Proof. unfold majority, member_count. by intros ->. Qed.

(** The election timer is not part of what an event is about. *)
Lemma event_elapsed r x op r' out :
  event_ok (set_election_elapsed x r) op r' out -> event_ok r op r' out.
Proof.
  intros (H1 & H2 & H3). split; [exact H1|]. split; [exact H2|].
  destruct H3 as [A B C|msg r1 reply A B C D E F G H I J K L N|msg A B C D E F G H I J|A B C D E].
  - exact (ve_follow r op r' out A B C).
  - exact (ve_grant r op r' out msg r1 reply A B C D E F G H I J K L N).
  - rewrite (majority_ext _ r) in I by reflexivity.
    exact (ve_count r op r' out msg A B C D E F G H I J).
  - rewrite (majority_ext _ r) in E by reflexivity. exact (ve_candidate r op r' out A B C D E).
Qed.

Lemma tick_event r : fixed M r -> raft_is_member r (node_id r) = true ->
  let '(r', out) := raft_tick realloc_ok r [] in event_ok r OpTick r' out.
Proof.
  intros Hf Hs. unfold raft_tick. destruct (decide _).
  - destruct (_ <=? _).
    + destruct (send_all_ok M (set_heartbeat_elapsed 0 (set_heartbeat_elapsed (heartbeat_elapsed r + 1) r)) [])
        as [Ho Hq]; [done|split; constructor|].
      split; [done|]. split; [done|]. apply ve_follow; [left; auto|done|by left].
    + apply event_silent; try done. by left.
  - rewrite Hs. destruct (_ <=? _).
    + pose proof (candidate_event (set_election_elapsed (election_elapsed r + 1) r) Hf Hs) as H.
      destruct (become_candidate _ _ _) as [r' out]. by eapply event_elapsed.
    + apply event_silent; try done. by left.
Qed.

Lemma step_down_follows r t : fixed M r ->
  let r1 := step_down_if_higher t r in
  same_id M r r1 /\ follows r r1 /\ (current_term r1 = current_term r \/ current_term r1 = t) /\
  t <= current_term r1.
Proof.
  intros Hf. unfold step_down_if_higher. cbv zeta. case_cmp.
  - split; [done|]. split; [right; done|]. split; [by right|]. cbn. lia.
  - split; [done|]. split; [apply follows_refl|]. split; [by left|lia].
Qed.

(** A reply without a vote, from a node that at most followed the sender's term. *)
Lemma event_reply r msg r' reply :
  same_id M r r' -> follows r r' ->
  current_term r' = current_term r \/ current_term r' = m_term msg ->
  m_from reply = node_id r' -> m_term reply = current_term r' -> msg_fixed M reply ->
  vote_msg reply = false -> event_ok r (OpRecv msg) r' [reply].
Proof.
  intros Hid Hf Ht H1 H2 H3 H4. split; [done|]. split; [by apply list.Forall_singleton|].
  apply ve_follow; [done|by apply list.Forall_singleton|]. destruct Ht; [by left|right; eauto].
Qed.

Lemma request_vote_event r msg : fixed M r -> m_type msg = MSG_REQUEST_VOTE ->
  let '(r', reply) := handle_request_vote r msg in event_ok r (OpRecv msg) r' [reply].
Proof.
  intros Hf Hty. unfold handle_request_vote.
  destruct (step_down_follows r (m_term msg) Hf) as (Hid & Hfo & Ht & Hge).
  set (r1 := step_down_if_higher _ _) in *. clearbody r1.
  destruct (Z.ltb_spec (m_term msg) (current_term r1)).
  { apply event_reply; try done. split; [constructor|done]. }
  destruct (_ && _) eqn:E; [|apply event_reply; try done; split; [constructor|done]].
  apply andb_true_iff in E as [E _]. rewrite orb_true_iff, !Z.eqb_eq in E.
  assert (Ht1 : current_term r1 = m_term msg) by lia.
  split; [exact Hid|]. split.
  { apply list.Forall_singleton. split; [done|]. split; [done|]. split; [constructor|done]. }
  eapply (ve_grant _ _ _ _ msg r1); try done.
Qed.

Lemma request_vote_reply_event r msg : fixed M r -> raft_is_member r (node_id r) = true ->
  m_type msg = MSG_REQUEST_VOTE_REPLY ->
  let '(r', out) := handle_request_vote_reply realloc_ok r msg [] in event_ok r (OpRecv msg) r' out.
Proof.
  intros Hf Hs Hty. unfold handle_request_vote_reply.
  assert (Hskip : event_ok r (OpRecv msg) r []) by (apply event_silent; try done; by left).
  destruct (Z.ltb_spec (current_term r) (m_term msg)).
  { split; [done|]. split; [constructor|]. apply ve_follow; [by right|constructor|right; eauto]. }
  destruct (bool_decide_reflect (role r = RAFT_CANDIDATE)) as [Hc|]; [|exact Hskip].
  destruct (Z.eqb_spec (m_term msg) (current_term r)) as [Ht|]; [|exact Hskip]. cbn [negb orb].
  destruct (m_vote_granted msg) eqn:Hg; [|exact Hskip].
  set (r1 := set_votes_granted _ _).
  assert (H1 : node_id r1 = node_id r /\ fixed M r1 /\ current_term r1 = current_term r /\
    voted_for r1 = voted_for r /\ votes_granted r1 = votes_granted r + 1 /\ role r1 = role r /\
    member_mask r1 = member_mask r).
  { split; [reflexivity|]. split; [exact Hf|]. repeat split; reflexivity. }
  clearbody r1. destruct H1 as (Hi & Hf1 & Ht1 & Hv & Hg1 & Hr & Hm).
  rewrite (majority_ext r1 r Hm).
  destruct (Z.leb_spec (majority r) (votes_granted r1)) as [Hle|Hgt].
  - destruct (become_leader_spec r1 [] Hf1) as (r2 & out & -> & Hl & Ho & Hq).
    { unfold raft_is_member in *. by rewrite Hm, Hi. } { constructor. } { constructor. }
    destruct Hl as (H1 & H2 & H3 & H4 & H5 & H6).
    split; [split; [congruence|exact H2]|]. split; [exact Ho|].
    apply (ve_count _ _ _ _ msg); try congruence; try exact Hq. right. split; [exact H6|lia].
  - split; [split; [exact Hi|exact Hf1]|]. split; [constructor|].
    apply (ve_count _ _ _ _ msg); try congruence; [|constructor]. left. congruence.
Qed.

Lemma fold_config_no_cfg es : no_cfg es -> fold_config M es = M.
Proof. unfold fold_config. induction 1 as [|e es He _ IH]; cbn [foldl]; [done|]. by rewrite He. Qed.

Lemma recompute_fixed r : fixed M r -> recompute_member_mask r = r.
Proof.
  intros (H1 & H2 & H3). unfold recompute_member_mask.
  rewrite H2, fold_config_no_cfg; [rewrite <- H1; by destruct r|].
  destruct (log r); [done|]. by inversion H3.
Qed.

(** Same term, vote, role and tally. *)
Definition same_vote (r r' : Raft) : Prop :=
  node_id r' = node_id r /\ fixed M r' /\ current_term r' = current_term r /\
  voted_for r' = voted_for r /\ votes_granted r' = votes_granted r /\ role r' = role r.

Lemma same_vote_trans r1 r2 r3 : same_vote r1 r2 -> same_vote r2 r3 -> same_vote r1 r3.
Proof. unfold same_vote. intros (?&?&?&?&?&?) (?&?&?&?&?&?). repeat split; congruence || apply H6. Qed.

Lemma same_vote_append r e : fixed M r -> e_is_config e = false ->
  same_vote r (log_append realloc_ok r e).1.
Proof.
  intros Hf He. destruct (fixed_log_append r e Hf He) as (Hf' & _ & Hi).
  destruct (log_append_cases realloc_ok r e) as [[cap E]|E]; rewrite E in *; [|done].
  cbn [fst] in *. unfold log_push, maybe_adopt_config in *. rewrite He in *. done.
Qed.

Lemma append_loop_vote es r t idx : fixed M r -> no_cfg es ->
  same_vote r (append_loop realloc_ok r t idx es).1.
Proof.
  intros Hf Hes. revert r t idx Hf. induction Hes as [|e es He _ IH]; intros r t idx Hf; cbn [append_loop].
  { done. }
  destruct (_ <=? _); [by apply IH|]. destruct (_ <=? _); [destruct (negb _); [|by apply IH]|].
  - assert (Hf1 : fixed M (set_log (take (Z.to_nat (idx - log_base r)) (log r)) r)).
    { destruct Hf as (H1 & H2 & H3). split; [exact H1|]. split; [exact H2|]. by apply Forall_take. }
    pose proof (same_vote_append _ e Hf1 He) as Hv.
    eapply same_vote_trans; [|apply IH; apply Hv]. exact Hv.
  - pose proof (same_vote_append r e Hf He) as Hv. eapply same_vote_trans; [exact Hv|apply IH; apply Hv].
Qed.

Lemma follows_drop r r1 r' : follows r r1 ->
  current_term r' = current_term r1 -> voted_for r' = voted_for r1 -> role r' = RAFT_FOLLOWER ->
  follows r r'.
Proof.
  intros [(H1 & H2 & _)|(H1 & H2 & _)] H3 H4 H5; [left|right].
  - split; [congruence|]. split; [congruence|]. by right.
  - rewrite H3. split; [done|]. split; [congruence|done].
Qed.

Lemma same_vote_applied r n : fixed M r -> same_vote r (apply_committed (set_commit_index n r)).
Proof. intros Hf. rewrite apply_committed_eq. done. Qed.

Lemma append_entries_event r msg : fixed M r -> msg_fixed M msg ->
  let '(r', reply) := handle_append_entries realloc_ok r msg in event_ok r (OpRecv msg) r' [reply].
Proof.
  intros Hf [Hes _]. unfold handle_append_entries.
  destruct (step_down_follows r (m_term msg) Hf) as (Hid & Hfo & Ht & Hge).
  set (r1 := step_down_if_higher _ _) in *. clearbody r1.
  destruct (Z.ltb_spec (m_term msg) (current_term r1)).
  { apply event_reply; try done. split; [constructor|done]. }
  set (r2 := set_election_elapsed 0 _).
  assert (H2 : node_id r2 = node_id r1 /\ fixed M r2 /\ current_term r2 = current_term r1 /\
     voted_for r2 = voted_for r1 /\ role r2 = RAFT_FOLLOWER).
  { split; [reflexivity|]. split; [apply Hid|]. repeat split; reflexivity. }
  clearbody r2. destruct H2 as (Hi2 & Hf2 & Ht2 & Hv2 & Hr2).
  assert (Hfin : forall r' reply, same_vote r2 r' -> m_from reply = node_id r2 ->
    m_term reply = current_term r2 -> m_entries reply = [] -> m_type reply = MSG_APPEND_ENTRIES_REPLY ->
    event_ok r (OpRecv msg) r' [reply]).
  { intros r' reply (A & B & C & D & _ & E) F G I J. destruct Hid as [Hid _].
    apply event_reply; try congruence.
    - split; [congruence|exact B].
    - eapply follows_drop; [exact Hfo| | |]; congruence.
    - split; [rewrite I; constructor|congruence].
    - unfold vote_msg. by rewrite J. }
  destruct (_ <? _); [by apply Hfin|]. destruct (_ && _); [by apply Hfin|].
  pose proof (append_loop_vote (m_entries msg) r2 false (m_prev_log_index msg + 1) Hf2 Hes) as Hv.
  destruct (append_loop _ _ _ _ _) as [r3 tr]. cbn [fst] in Hv.
  set (r4 := if tr then _ else r3).
  assert (H4 : same_vote r2 r4).
  { unfold r4. destruct tr; [|exact Hv]. rewrite recompute_fixed; [exact Hv|apply Hv]. }
  clearbody r4. destruct (_ <? _); apply Hfin; try done.
  eapply same_vote_trans; [exact H4|]. apply same_vote_applied, H4.
Qed.

Lemma install_snapshot_event r msg : fixed M r -> msg_fixed M msg ->
  m_type msg = MSG_INSTALL_SNAPSHOT ->
  let '(r', reply) := handle_install_snapshot r msg in event_ok r (OpRecv msg) r' [reply].
Proof.
  intros Hf [_ Hmask] Hty. specialize (Hmask Hty). unfold handle_install_snapshot.
  destruct (step_down_follows r (m_term msg) Hf) as (Hid & Hfo & Ht & Hge).
  set (r1 := step_down_if_higher _ _) in *. clearbody r1.
  destruct (Z.ltb_spec (m_term msg) (current_term r1)).
  { apply event_reply; try done. split; [constructor|done]. }
  destruct (_ <=? _).
  - apply event_reply; try done; [|split; [constructor|done]]. eapply follows_drop; [exact Hfo|..]; done.
  - match goal with |- context [if ?b then set_apply_ctx _ _ else _] => destruct b end.
    all: apply event_reply; try done; [| |split; [constructor|done]];
      [|eapply follows_drop; [exact Hfo|..]; done].
    all: split; [apply Hid|]; split; [exact Hmask|]; split; [exact Hmask|]; cbn; by repeat constructor.
Qed.

Lemma same_vote_event r r' op : same_vote r r' -> event_ok r op r' [].
Proof. intros (H1 & H2 & H3 & H4 & H5 & H6). apply event_silent; try done. by left. Qed.

Lemma advance_vote r : fixed M r -> raft_is_member r (node_id r) = true ->
  same_vote r (leader_advance_commit r).
Proof.
  intros Hf Hs. destruct (fixed_advance r Hf Hs) as ([A1 A2] & A3 & A4 & A5 & A6).
  unfold same_vote. split; [congruence|]. split; [exact A2|]. repeat split; congruence.
Qed.

Lemma record_match_vote r msg : fixed M r -> same_vote r (record_match r msg).
Proof. intros Hf. unfold record_match. destruct (_ <? _); done. Qed.

Lemma record_match_member r msg : raft_is_member r (node_id r) = true ->
  raft_is_member (record_match r msg) (node_id (record_match r msg)) = true.
Proof. intros Hs. unfold record_match. destruct (_ <? _); exact Hs. Qed.

Lemma count_ack_vote r msg : fixed M r -> same_vote r (count_ack r msg).
Proof. intros Hf. unfold count_ack. destruct (_ && _); [|done]. destruct (_ <=? _); done. Qed.

Lemma replied_vote r msg : fixed M r -> raft_is_member r (node_id r) = true ->
  same_vote r (leader_advance_commit (record_match r msg)).
Proof.
  intros Hf Hs. pose proof (record_match_vote r msg Hf) as H1.
  eapply same_vote_trans; [exact H1|]. apply advance_vote; [apply H1|by apply record_match_member].
Qed.

Lemma append_entries_reply_event r msg : fixed M r -> raft_is_member r (node_id r) = true ->
  event_ok r (OpRecv msg) (handle_append_entries_reply r msg) [].
Proof.
  intros Hf Hs. unfold handle_append_entries_reply.
  assert (Hskip : event_ok r (OpRecv msg) r []) by (apply event_silent; try done; by left).
  destruct (Z.ltb_spec (current_term r) (m_term msg)).
  { split; [done|]. split; [constructor|]. apply ve_follow; [by right|constructor|right; eauto]. }
  destruct (_ || _); [exact Hskip|]. destruct (m_success msg).
  - pose proof (replied_vote r msg Hf Hs) as Hv. apply same_vote_event.
    eapply same_vote_trans; [exact Hv|]. apply count_ack_vote, Hv.
  - destruct (_ <? _); [|exact Hskip]. apply event_silent; try done. by left.
Qed.

Lemma install_snapshot_reply_event r msg : fixed M r -> raft_is_member r (node_id r) = true ->
  event_ok r (OpRecv msg) (handle_install_snapshot_reply r msg) [].
Proof.
  intros Hf Hs. unfold handle_install_snapshot_reply.
  assert (Hskip : event_ok r (OpRecv msg) r []) by (apply event_silent; try done; by left).
  destruct (Z.ltb_spec (current_term r) (m_term msg)).
  { split; [done|]. split; [constructor|]. apply ve_follow; [by right|constructor|right; eauto]. }
  destruct (_ || _); [exact Hskip|].
  by apply same_vote_event, replied_vote.
Qed.

Lemma submit_event r c : fixed M r -> event_ok r (OpSubmit c) (raft_submit realloc_ok r c).1 [].
Proof.
  intros Hf. unfold raft_submit.
  assert (Hskip : event_ok r (OpSubmit c) r []) by (apply event_silent; try done; by left).
  destruct (negb _); [exact Hskip|].
  pose proof (same_vote_append r (mkEnt (current_term r) c false false) Hf eq_refl) as Hv.
  destruct (log_append _ _ _) as [r1 rc]. cbn [fst] in Hv.
  destruct Hv as (H1 & H2 & H3 & H4 & H5 & H6).
  destruct (negb _); apply event_silent; try done; by left.
Qed.

Lemma read_event r : fixed M r ->
  let '(r', out, _) := raft_read_index r [] in event_ok r OpRead r' out.
Proof.
  intros Hf. unfold raft_read_index.
  assert (Hskip : event_ok r OpRead r []) by (apply event_silent; try done; by left).
  destruct (negb _); [exact Hskip|]. destruct (_ <? _); [exact Hskip|].
  assert (Hc : forall r1, same_vote r r1 -> same_vote r (confirm_alone r1)).
  { intros r1 H1. unfold confirm_alone. destruct (_ =? 1); exact H1. }
  assert (H1 : same_vote r (confirm_alone (start_barrier r))) by (apply Hc; done).
  clear Hc. set (r1 := confirm_alone _) in *. clearbody r1.
  destruct H1 as (H1 & H2 & H3 & H4 & H5 & H6).
  destruct (send_all_ok M r1 [] H2) as [Ho Hq]; [split; constructor|].
  split; [done|]. split; [exact Ho|]. apply ve_follow; [left; auto|exact Hq|by left].
Qed.

Lemma snapshot_event r i v : fixed M r -> event_ok r (OpSnapshot i v) (raft_snapshot r i v).1 [].
Proof.
  intros Hf. unfold raft_snapshot. destruct (_ || _).
  { apply event_silent; try done. by left. }
  cbn [fst]. apply event_silent; try done; [|by left].
  destruct Hf as (H1 & H2 & H3). split; [done|]. split; [exact H1|].
  set (k := Z.to_nat _). cbn -[tail fold_config take]. split.
  - rewrite H2. apply fold_config_no_cfg. destruct (log r); [destruct k; constructor|]. destruct k; [constructor|].
    cbn. apply Forall_take. by inversion H3.
  - constructor; [done|]. by apply Forall_drop.
Qed.

Lemma restart_event r : fixed M r -> event_ok r OpRestart (raft_crash_restart r) [].
Proof. intros Hf. apply event_silent; try done. by right. Qed.

(** Every event of a cluster whose membership does not change. *)
Lemma node_event_ok r op : fixed M r -> raft_is_member r (node_id r) = true ->
  (forall m, op <> OpConfig m) -> (forall msg, op = OpRecv msg -> msg_fixed M msg) ->
  event_ok r op (node_step realloc_ok r op).1 (node_step realloc_ok r op).2.
Proof.
  intros Hf Hs Hc Hm. destruct op as [|msg|c|m| |i v|]; cbn [node_step].
  - pose proof (tick_event r Hf Hs) as H. by destruct (raft_tick _ _ _).
  - specialize (Hm msg eq_refl). unfold raft_recv. destruct (m_type msg) eqn:E.
    + pose proof (request_vote_event r msg Hf E) as H. by destruct (handle_request_vote _ _).
    + pose proof (request_vote_reply_event r msg Hf Hs E) as H. by destruct (handle_request_vote_reply _ _ _ _).
    + pose proof (append_entries_event r msg Hf Hm) as H. by destruct (handle_append_entries _ _ _).
    + by apply append_entries_reply_event.
    + pose proof (install_snapshot_event r msg Hf Hm E) as H. by destruct (handle_install_snapshot _ _).
    + by apply install_snapshot_reply_event.
  - by apply submit_event.
  - by destruct (Hc m).
  - pose proof (read_event r Hf) as H. by destruct (raft_read_index r []) as [[r' out] z].
  - by apply snapshot_event.
  - by apply restart_event.
Qed.
End Events.

(** ** Votes in flight *)

(** The message asks node [v] for its vote for [c] in term [t], or brings that vote. *)
Definition is_token (t : Z) (c v : nat) (m : RaftMsg) : bool :=
  (m_term m =? t) &&
  match m_type m with
  | MSG_REQUEST_VOTE => Nat.eqb (m_from m) c && Nat.eqb (m_to m) v
  | MSG_REQUEST_VOTE_REPLY => m_vote_granted m && Nat.eqb (m_from m) v && Nat.eqb (m_to m) c
  | _ => false
  end.

Definition tokens (t : Z) (c v : nat) (ms : list RaftMsg) : nat :=
  length (filter (fun m => is_token t c v m = true) ms).

Lemma tokens_app t c v ms ms' : tokens t c v (ms ++ ms') = (tokens t c v ms + tokens t c v ms')%nat.
Proof. unfold tokens. by rewrite list.filter_app, length_app. Qed.

Lemma tokens_cons t c v m ms :
  tokens t c v (m :: ms) = ((if is_token t c v m then 1 else 0) + tokens t c v ms)%nat.
Proof. unfold tokens. rewrite filter_cons. destruct (is_token t c v m); case_decide; done. Qed.

Lemma is_token_vote t c v m : is_token t c v m = true -> vote_msg m = true.
Proof.
  unfold is_token, vote_msg. destruct (m_type m); rewrite ?andb_false_r; try done.
  rewrite !andb_true_iff. tauto.
Qed.

Lemma tokens_quiet t c v out : quiet out -> tokens t c v out = 0%nat.
Proof.
  induction 1 as [|m out Hm _ IH]; [done|]. rewrite tokens_cons, IH.
  destruct (is_token t c v m) eqn:E; [|done]. apply is_token_vote in E. congruence.
Qed.

Lemma tokens_perm t c v ms ms' : ms ≡ₚ ms' -> tokens t c v ms = tokens t c v ms'.
Proof. intros H. unfold tokens. by rewrite H. Qed.

(** A candidate's requests: one per node at most, none to itself. *)
Lemma tokens_requests t c v r l : NoDup l ->
  (tokens t c v (vote_request r <$> l) <= if decide (v ∈ l) then 1 else 0)%nat.
Proof.
  induction 1 as [|i l Hi Hnd IH]; [cbn; lia|].
  rewrite fmap_cons, tokens_cons. unfold is_token at 1. cbn [vote_request m_type m_from m_to m_term].
  cbn. destruct (decide (v ∈ l)) as [Hv|Hv].
  - assert (v <> i) by (by intros ->). destruct (Nat.eqb_spec i v); [congruence|].
    rewrite !andb_false_r. destruct (decide (v ∈ i :: l)) as [|Hn]; [lia|]. destruct Hn. by right.
  - destruct (decide (v ∈ i :: l)) as [Hin|Hn]; [destruct (_ && _); lia|].
    destruct (Nat.eqb_spec i v) as [->|]; [destruct Hn; left|]. rewrite !andb_false_r. lia.
Qed.

Lemma tokens_requests_from t c v r l : c <> node_id r \/ t <> current_term r ->
  tokens t c v (vote_request r <$> l) = 0%nat.
Proof.
  intros Hc. induction l as [|i l IH]; [done|]. rewrite fmap_cons, tokens_cons, IH.
  unfold is_token. cbn. destruct Hc as [Hc|Hc].
  - destruct (Nat.eqb_spec (node_id r) c); [congruence|]. by rewrite andb_false_r.
  - destruct (Z.eqb_spec (current_term r) t); [congruence|]. done.
Qed.

(** ** At most one leader per term *)

Section Election.
Variable n : nat.
Hypothesis Hn : (1 <= n <= RAFT_MAX_NODES)%nat.

(** Who voted for whom in which term, and whose votes a candidate has counted. *)
Abbreviation votes := (Z -> nat -> option nat).
Abbreviation tally := (Z -> nat -> gset nat).

Record node_inv (k : Z) (V : votes) (C : tally) (ms : list RaftMsg) (i : nat) (r : Raft) : Prop := {
  ni_id : node_id r = i;
  ni_fixed : fixed (full_mask n) r;
  ni_term : 0 <= current_term r <= k;
  ni_vote : voted_for r = from_option Z.of_nat (-1) (V (current_term r) i);
  ni_future : forall t, current_term r < t ->
    V t i = None /\ C t i = ∅ /\ forall v, tokens t i v ms = 0%nat;
  ni_cand : role r = RAFT_CANDIDATE -> votes_granted r = Z.of_nat (size (C (current_term r) i));
  ni_lead : role r = RAFT_LEADER -> Z.of_nat n < 2 * Z.of_nat (size (C (current_term r) i)) }.

Record msg_inv (k : Z) (V : votes) (m : RaftMsg) : Prop := {
  mi_fixed : msg_fixed (full_mask n) m;
  mi_term : 0 <= m_term m <= k;
  mi_vote : m_type m = MSG_REQUEST_VOTE_REPLY -> m_vote_granted m = true ->
    V (m_term m) (m_from m) = Some (m_to m) }.

Record cluster_inv (k : Z) (V : votes) (C : tally) (c : Cluster) : Prop := {
  ci_len : length (nodes c) = n;
  ci_nodes : forall i r, nodes c !! i = Some r -> node_inv k V C (net c) i r;
  ci_net : Forall (msg_inv k V) (net c);
  ci_voter : forall t v x, V t v = Some x -> (v < n)%nat;
  ci_tally : forall t x v, v ∈ C t x -> V t v = Some x;
  ci_tokens : forall t x v, (tokens t x v (net c) + (if decide (v ∈ C t x) then 1 else 0) <= 1)%nat }.

Lemma full_mask_member i : (i < n)%nat -> mask_has (full_mask n) i = true.
Proof.
  intros Hi. assert (Hall : forallb (fun n => forallb (mask_has (full_mask n)) (seq 0 n)) (seq 1 7) = true)
    by (vm_compute; reflexivity).
  rewrite forallb_forall in Hall. specialize (Hall n). rewrite in_seq in Hall.
  unfold RAFT_MAX_NODES in Hn. specialize (Hall ltac:(lia)). rewrite forallb_forall in Hall.
  apply Hall. apply in_seq. lia.
Qed.

Lemma fixed_majority r : fixed (full_mask n) r -> majority r = Z.of_nat n / 2 + 1.
Proof.
  intros (Hm & _). unfold majority, member_count. rewrite Hm.
  assert (Hall : forallb (fun n => popcount_loop 32 (full_mask n) 0 =? Z.of_nat n) (seq 1 7) = true)
    by (vm_compute; reflexivity).
  rewrite forallb_forall in Hall. specialize (Hall n). rewrite in_seq, Z.eqb_eq in Hall.
  unfold RAFT_MAX_NODES in Hn. rewrite Hall by lia. done.
Qed.

Lemma majority_half x : Z.of_nat n / 2 + 1 <= x -> Z.of_nat n < 2 * x.
Proof.
  intros H. pose proof (Z.div_mod (Z.of_nat n) 2 ltac:(lia)).
  pose proof (Z.mod_pos_bound (Z.of_nat n) 2 ltac:(lia)). lia.
Qed.

(** Two majorities share a voter, and a voter has one vote per term. *)
Lemma one_majority k V C c t x y : cluster_inv k V C c ->
  Z.of_nat n < 2 * Z.of_nat (size (C t x)) -> Z.of_nat n < 2 * Z.of_nat (size (C t y)) -> x = y.
Proof.
  intros H Hx Hy. destruct (decide (x = y)) as [|Hne]; [done|]. exfalso.
  assert (Hd : C t x ## C t y).
  { intros v Hv1 Hv2. apply (ci_tally _ _ _ _ H) in Hv1, Hv2. congruence. }
  assert (Hs : (size (C t x ∪ C t y) <= size (set_seq 0 n : gset nat))%nat).
  { apply subseteq_size. intros v Hv. apply elem_of_set_seq. split; [lia|].
    apply elem_of_union in Hv as [Hv|Hv]; apply (ci_tally _ _ _ _ H) in Hv;
      by eapply (ci_voter _ _ _ _ H). }
  rewrite size_union in Hs by done. rewrite size_set_seq in Hs. lia.
Qed.

(** A node keeps its invariant when the clock advances, other votes are recorded
    and messages that concern other nodes appear. *)
Lemma node_inv_mono k k' V V' C C' ms ms' i r :
  node_inv k V C ms i r -> k <= k' -> (forall t, V' t i = V t i) -> (forall t, C' t i = C t i) ->
  (forall t v, current_term r < t -> (tokens t i v ms' <= tokens t i v ms)%nat) ->
  node_inv k' V' C' ms' i r.
Proof.
  intros [H1 H2 H3 H4 H5 H6 H7] Hk HV HC Hms. constructor; rewrite ?HV, ?HC; try done; [lia|].
  intros t Ht. destruct (H5 t Ht) as (A & B & D). rewrite HV, HC. split; [done|]. split; [done|].
  intros v. specialize (D v). specialize (Hms t v Ht). lia.
Qed.

Lemma msg_inv_mono k k' V V' m :
  msg_inv k V m -> k <= k' -> (forall t v x, V t v = Some x -> V' t v = Some x) -> msg_inv k' V' m.
Proof. intros [H1 H2 H3] Hk HV. constructor; [done|lia|auto]. Qed.

Lemma net_inv_mono k k' V V' ms ms' :
  Forall (msg_inv k V) ms -> k <= k' -> (forall t v x, V t v = Some x -> V' t v = Some x) ->
  ms' ⊆ ms -> Forall (msg_inv k' V') ms'.
Proof.
  intros H Hk HV Hsub. rewrite !list.Forall_forall in *. intros m Hm.
  eapply msg_inv_mono; [apply H, Hsub, Hm|done|done].
Qed.

Section Step.
Variables (k : Z) (V : votes) (C : tally) (ns : list Raft) (ms ms0 : list RaftMsg) (i : nat).
Variables (r r' : Raft) (out : list RaftMsg).
Hypothesis Hinv : cluster_inv k V C (mkCluster ns ms).
Hypothesis Hr : ns !! i = Some r.
Hypothesis Hsub : ms0 ⊆ ms.
Hypothesis Hless : forall t c v, (tokens t c v ms0 <= tokens t c v ms)%nat.
Hypothesis Hid : same_id (full_mask n) r r'.
Hypothesis Hout : out_ok (full_mask n) r' out.

Let Hi : node_inv k V C ms i r := ci_nodes _ _ _ _ Hinv i r Hr.

Lemma step_lookup j s : <[i := r']> ns !! j = Some s -> j = i /\ s = r' \/ j <> i /\ ns !! j = Some s.
Proof.
  destruct (decide (j = i)) as [->|Hne].
  - rewrite list_lookup_insert_eq by (by eapply lookup_lt_Some). intros [= <-]. by left.
  - rewrite list_lookup_insert_ne by done. auto.
Qed.

Lemma step_id : node_id r' = i.
Proof. destruct Hid as [-> _]. apply Hi. Qed.

(** The new messages satisfy the invariant when the votes they carry were recorded. *)
Lemma out_inv V' : 0 <= current_term r' <= k + 1 ->
  Forall (fun m => m_type m = MSG_REQUEST_VOTE_REPLY -> m_vote_granted m = true ->
            V' (m_term m) (m_from m) = Some (m_to m)) out ->
  Forall (msg_inv (k + 1) V') out.
Proof.
  intros Ht Hv. unfold out_ok in Hout. rewrite !list.Forall_forall in *. intros m Hm.
  destruct (Hout m Hm) as (_ & Htm & Hf). constructor; [done|lia|by apply Hv].
Qed.

Lemma quiet_votes V' : quiet out ->
  Forall (fun m => m_type m = MSG_REQUEST_VOTE_REPLY -> m_vote_granted m = true ->
            V' (m_term m) (m_from m) = Some (m_to m)) out.
Proof.
  intros Hq. eapply Forall_impl; [|exact Hq]. intros m Hm Hty Hg. cbn in Hm.
  unfold vote_msg in Hm. rewrite Hty in Hm. congruence.
Qed.

Lemma inv_follow :
  follows r r' -> quiet out -> 0 <= current_term r' <= k + 1 ->
  cluster_inv (k + 1) V C (mkCluster (<[i := r']> ns) (ms0 ++ out)).
Proof.
  intros Hf Hq Ht. assert (Htok : forall t c v, (tokens t c v (ms0 ++ out) <= tokens t c v ms)%nat).
  { intros t c v. rewrite tokens_app, (tokens_quiet t c v out Hq). specialize (Hless t c v). lia. }
  constructor; cbn [nodes net].
  - rewrite length_insert. apply (ci_len _ _ _ _ Hinv).
  - intros j s [[-> ->]|[Hne Hj]]%step_lookup.
    + destruct Hi as [H1 H2 H3 H4 H5 H6 H7].
      assert (Hfut : forall t, current_term r' < t -> current_term r < t).
      { intros t Hlt. destruct Hf as [(E & _)|(E & _)]; lia. }
      constructor; try done; [apply step_id|apply Hid|..].
      * destruct Hf as [(-> & -> & _)|(Hlt & -> & _)]; [done|]. destruct (H5 _ Hlt) as [-> _]. done.
      * intros t Hlt%Hfut. destruct (H5 t Hlt) as (A & B & D). split; [done|]. split; [done|].
        intros v. specialize (D v). specialize (Htok t i v). lia.
      * intros Hc. destruct Hf as [(-> & _ & [[E1 E2]|E])|(_ & _ & E)]; [|congruence..].
        rewrite E2. apply H6. congruence.
      * intros Hc. destruct Hf as [(-> & _ & [[E1 E2]|E])|(_ & _ & E)]; [|congruence..].
        apply H7. congruence.
    + eapply node_inv_mono; [by apply (ci_nodes _ _ _ _ Hinv)|lia|done|done|auto].
  - apply list.Forall_app. split; [|apply out_inv; [done|by apply quiet_votes]].
    eapply net_inv_mono; [apply (ci_net _ _ _ _ Hinv)|lia|done|done].
  - apply (ci_voter _ _ _ _ Hinv).
  - apply (ci_tally _ _ _ _ Hinv).
  - intros t x v. pose proof (ci_tokens _ _ _ _ Hinv t x v) as H. cbn [net] in H.
    specialize (Htok t x v). lia.
Qed.

(** A vote is granted: it is recorded, and the request turns into the reply. *)
Definition record_vote (t0 : Z) (x : nat) : votes :=
  fun t v => if decide (t = t0 /\ v = i) then Some x else V t v.

Lemma inv_grant msg r1 reply :
  ms = msg :: ms0 -> m_to msg = i -> m_type msg = MSG_REQUEST_VOTE -> follows r r1 ->
  current_term r1 = m_term msg -> voted_for r1 = -1 \/ voted_for r1 = Z.of_nat (m_from msg) ->
  current_term r' = m_term msg -> voted_for r' = Z.of_nat (m_from msg) ->
  role r' = role r1 -> votes_granted r' = votes_granted r1 ->
  out = [reply] -> m_type reply = MSG_REQUEST_VOTE_REPLY -> m_vote_granted reply = true ->
  m_to reply = m_from msg ->
  cluster_inv (k + 1) (record_vote (m_term msg) (m_from msg)) C
    (mkCluster (<[i := r']> ns) (ms0 ++ out)).
Proof.
  intros Hms Hto Hty Hf Ht1 Hv1 Ht' Hv' Hr' Hg' -> Hrt Hrg Hrto.
  destruct Hi as [H1 H2 H3 H4 H5 H6 H7].
  assert (Hm : msg_inv k V msg).
  { pose proof (ci_net _ _ _ _ Hinv) as Hnet. cbn in Hnet. rewrite Hms in Hnet. by inversion Hnet. }
  assert (Hge : current_term r <= m_term msg) by (destruct Hf as [(E & _)|(E & _)]; lia).
  assert (Hold : V (m_term msg) i = None \/ V (m_term msg) i = Some (m_from msg)).
  { destruct Hf as [(E1 & E2 & _)|(E1 & _)].
    - rewrite <- Ht1, E1. rewrite E2, H4 in Hv1. destruct (V (current_term r) i) as [y|]; [|by left].
      right. cbn in Hv1. f_equal. lia.
    - left. destruct (H5 (m_term msg)) as [E _]; [lia|done]. }
  assert (Hup : forall t v x, V t v = Some x -> record_vote (m_term msg) (m_from msg) t v = Some x).
  { intros t v x Hx. unfold record_vote. case_decide as E; [|done]. destruct E as [-> ->].
    destruct Hold; congruence. }
  pose proof step_id as Hid'. unfold out_ok in Hout. rewrite list.Forall_singleton in Hout.
  destruct Hout as (Hrf & Hrtm & Hrfix).
  assert (Htok : forall t c v, tokens t c v (ms0 ++ [reply]) = tokens t c v ms).
  { intros t c v. rewrite Hms, tokens_app, !tokens_cons. unfold is_token.
    rewrite Hrt, Hty, Hrg, Hrto, Hrf, Hid', Hrtm, Ht', Hto. cbn [tokens]. cbn -[tokens].
    rewrite (andb_comm (i =? v)%nat). cbn. lia. }
  constructor; cbn [nodes net].
  - rewrite length_insert. apply (ci_len _ _ _ _ Hinv).
  - intros j s [[-> ->]|[Hne Hj]]%step_lookup.
    + constructor; try done; [apply Hid|..].
      * rewrite Ht'. pose proof (mi_term _ _ _ Hm). lia.
      * rewrite Ht', Hv'. unfold record_vote. by rewrite decide_True.
      * intros t Hlt. destruct (H5 t ltac:(lia)) as (A & B & D). unfold record_vote.
        rewrite decide_False by (intros [-> _]; lia). split; [done|]. split; [done|].
        intros v. rewrite Htok. apply D.
      * rewrite Hr', Hg', Ht'. intros Hc. destruct Hf as [(E1 & _ & [[E3 E4]|E])|(_ & _ & E)]; [|congruence..].
        rewrite E4, <- Ht1, E1. apply H6. congruence.
      * rewrite Hr', Ht'. intros Hc. destruct Hf as [(E1 & _ & [[E3 E4]|E])|(_ & _ & E)]; [|congruence..].
        rewrite <- Ht1, E1. apply H7. congruence.
    + eapply node_inv_mono; [by apply (ci_nodes _ _ _ _ Hinv)|lia| |done|].
      * intros t. unfold record_vote. rewrite decide_False by tauto. done.
      * intros t v _. cbn [net]. rewrite Htok. lia.
  - apply list.Forall_app. split.
    + eapply net_inv_mono; [apply (ci_net _ _ _ _ Hinv)|lia|done|done].
    + apply list.Forall_singleton. constructor; [done| |].
      * pose proof (mi_term _ _ _ Hm). lia.
      * intros _ _. rewrite Hrtm, Ht', Hrf, Hid', Hrto. unfold record_vote. by rewrite decide_True.
  - intros t v x. unfold record_vote. case_decide as E; [|apply (ci_voter _ _ _ _ Hinv)].
    intros _. destruct E as [_ ->]. rewrite <- (ci_len _ _ _ _ Hinv). by eapply lookup_lt_Some.
  - intros t x v Hv. apply Hup. by apply (ci_tally _ _ _ _ Hinv).
  - intros t x v. rewrite Htok. apply (ci_tokens _ _ _ _ Hinv).
Qed.

(** A granted vote is counted: the voter joins the tally. *)
Definition count_vote (t0 : Z) (w : nat) : tally :=
  fun t x => if decide (t = t0 /\ x = i) then {[w]} ∪ C t x else C t x.

Lemma inv_count msg :
  ms = msg :: ms0 -> m_to msg = i -> m_type msg = MSG_REQUEST_VOTE_REPLY -> m_vote_granted msg = true ->
  role r = RAFT_CANDIDATE -> m_term msg = current_term r ->
  current_term r' = current_term r -> voted_for r' = voted_for r ->
  votes_granted r' = votes_granted r + 1 ->
  role r' = RAFT_CANDIDATE \/ role r' = RAFT_LEADER /\ majority r <= votes_granted r + 1 ->
  quiet out ->
  cluster_inv (k + 1) V (count_vote (current_term r) (m_from msg))
    (mkCluster (<[i := r']> ns) (ms0 ++ out)).
Proof.
  intros Hms Hto Hty Hg Hc Ht Ht' Hv' Hg' Hr' Hq.
  destruct Hi as [H1 H2 H3 H4 H5 H6 H7].
  assert (Hm : msg_inv k V msg).
  { pose proof (ci_net _ _ _ _ Hinv) as Hnet. cbn in Hnet. rewrite Hms in Hnet. by inversion Hnet. }
  assert (Htk : is_token (current_term r) i (m_from msg) msg = true).
  { unfold is_token. rewrite Hty, Hg, Ht, Hto, Z.eqb_refl, !Nat.eqb_refl. done. }
  assert (Hnew : m_from msg ∉ C (current_term r) i).
  { intros Hin. pose proof (ci_tokens _ _ _ _ Hinv (current_term r) i (m_from msg)) as H.
    cbn [net] in H. rewrite Hms, tokens_cons, Htk, decide_True in H by done. lia. }
  assert (Htok : forall t c v, tokens t c v (ms0 ++ out) = tokens t c v ms0).
  { intros t c v. rewrite tokens_app, (tokens_quiet t c v out Hq). lia. }
  assert (Hsize : size (count_vote (current_term r) (m_from msg) (current_term r) i) =
                  S (size (C (current_term r) i))).
  { unfold count_vote. rewrite decide_True by done. rewrite size_union by set_solver.
    rewrite size_singleton. lia. }
  constructor; cbn [nodes net].
  - rewrite length_insert. apply (ci_len _ _ _ _ Hinv).
  - intros j s [[-> ->]|[Hne Hj]]%step_lookup.
    + constructor; rewrite ?Ht'; try done; [apply step_id|apply Hid|lia|congruence|..].
      * intros t Hlt. destruct (H5 t Hlt) as (A & B & D). unfold count_vote.
        rewrite decide_False by (intros [-> _]; lia). split; [done|]. split; [done|].
        intros v. rewrite Htok. specialize (D v). specialize (Hless t i v). lia.
      * intros _. rewrite Hsize, Hg', H6 by done. lia.
      * intros Hl. destruct Hr' as [E|[_ E]]; [congruence|]. rewrite Hsize.
        apply majority_half. rewrite <- (fixed_majority r H2). rewrite H6 in E by done. lia.
    + eapply node_inv_mono; [by apply (ci_nodes _ _ _ _ Hinv)|lia|done| |].
      * intros t. unfold count_vote. rewrite decide_False by tauto. done.
      * intros t v _. cbn [net]. rewrite Htok. apply Hless.
  - apply list.Forall_app. split; [|apply out_inv; [lia|by apply quiet_votes]].
    eapply net_inv_mono; [apply (ci_net _ _ _ _ Hinv)|lia|done|done].
  - apply (ci_voter _ _ _ _ Hinv).
  - intros t x v. unfold count_vote. case_decide as E; [|apply (ci_tally _ _ _ _ Hinv)].
    destruct E as [-> ->]. intros [->%elem_of_singleton|Hv]%elem_of_union; [|by apply (ci_tally _ _ _ _ Hinv)].
    pose proof (mi_vote _ _ _ Hm Hty Hg) as Hv. by rewrite Ht, Hto in Hv.
  - intros t x v. rewrite Htok. pose proof (ci_tokens _ _ _ _ Hinv t x v) as H. cbn [net] in H.
    rewrite Hms, tokens_cons in H. unfold count_vote. destruct (decide (t = current_term r /\ x = i)) as [[-> ->]|].
    + destruct (decide (v = m_from msg)) as [->|Hne].
      * rewrite Htk in H. rewrite decide_True by set_solver. rewrite decide_False in H by done. lia.
      * destruct (decide (v ∈ {[m_from msg]} ∪ C (current_term r) i)) as [Hin|]; [|case_decide; lia].
        rewrite decide_True in H by set_solver. lia.
    + case_decide; lia.
Qed.

(** A node runs for election in a fresh term: it votes for itself. *)
Definition self_tally (t0 : Z) : tally :=
  fun t x => if decide (t = t0 /\ x = i) then {[i]} else C t x.

Lemma inv_candidate :
  k + 1 < 2 ^ 64 ->
  current_term r' = u64 (current_term r + 1) -> voted_for r' = Z.of_nat (node_id r) ->
  votes_granted r' = 1 ->
  role r' = RAFT_LEADER /\ majority r <= 1 /\ quiet out \/
  role r' = RAFT_CANDIDATE /\ out = vote_request r' <$> vote_targets r' ->
  cluster_inv (k + 1) (record_vote (current_term r') i) (self_tally (current_term r'))
    (mkCluster (<[i := r']> ns) (ms0 ++ out)).
Proof.
  intros Hk Ht' Hv' Hg' Hr'. destruct Hi as [H1 H2 H3 H4 H5 H6 H7].
  rewrite u64_small in Ht' by lia.
  destruct (H5 (current_term r') ltac:(lia)) as (HV0 & HC0 & Htok0). pose proof step_id as Hid'.
  assert (Hup : forall t v x, V t v = Some x -> record_vote (current_term r') i t v = Some x).
  { intros t v x Hx. unfold record_vote. case_decide as E; [|done]. destruct E as [-> ->]. congruence. }
  assert (Htok : forall t c v, c <> i \/ t <> current_term r' ->
    (tokens t c v (ms0 ++ out) <= tokens t c v ms)%nat).
  { intros t c v Hcv. rewrite tokens_app. specialize (Hless t c v).
    destruct Hr' as [(_ & _ & Hq)|[_ ->]]; [rewrite (tokens_quiet t c v out Hq); lia|].
    rewrite tokens_requests_from by (rewrite Hid'; done). lia. }
  assert (Htok1 : forall v, (tokens (current_term r') i v (ms0 ++ out) + (if decide (v = i) then 1 else 0) <= 1)%nat).
  { intros v. rewrite tokens_app. specialize (Hless (current_term r') i v). rewrite Htok0 in Hless.
    destruct Hr' as [(_ & _ & Hq)|[_ ->]]; [rewrite (tokens_quiet _ _ v out Hq); case_decide; lia|].
    pose proof (tokens_requests (current_term r') i v r' (vote_targets r')
      ltac:(apply list.NoDup_filter, NoDup_seq)) as Hreq.
    destruct (decide (v = i)) as [->|E]; [|destruct (decide (v ∈ vote_targets r')); lia].
    rewrite decide_False in Hreq; [lia|]. unfold vote_targets. rewrite list_elem_of_filter, Hid', Nat.eqb_refl.
    by intros [? _]. }
  constructor; cbn [nodes net].
  - rewrite length_insert. apply (ci_len _ _ _ _ Hinv).
  - intros j s [[-> ->]|[Hne Hj]]%step_lookup.
    + assert (Hst : self_tally (current_term r') (current_term r') i = {[i]}).
      { unfold self_tally. by rewrite decide_True. }
      constructor; rewrite ?Hst, ?size_singleton; try done; [apply Hid|lia|..].
      * unfold record_vote. rewrite decide_True by done. cbn. congruence.
      * intros t Hlt. destruct (H5 t ltac:(lia)) as (A & B & D). unfold record_vote, self_tally.
        rewrite !decide_False by (intros [-> _]; lia). split; [done|]. split; [done|].
        intros v. specialize (D v). pose proof (Htok t i v ltac:(right; lia)). lia.
      * intros Hl. destruct Hr' as [(_ & E & _)|[E _]]; [|congruence].
        apply majority_half. rewrite <- (fixed_majority r H2). lia.
    + eapply node_inv_mono; [by apply (ci_nodes _ _ _ _ Hinv)|lia|..].
      * intros t. unfold record_vote. rewrite decide_False by tauto. done.
      * intros t. unfold self_tally. rewrite decide_False by tauto. done.
      * intros t v _. apply Htok. by left.
  - apply list.Forall_app. split.
    + eapply net_inv_mono; [apply (ci_net _ _ _ _ Hinv)|lia|done|done].
    + apply out_inv; [lia|]. destruct Hr' as [(_ & _ & Hq)|[_ ->]]; [by apply quiet_votes|].
      apply list.Forall_fmap, list.Forall_forall. done.
  - intros t v x. unfold record_vote. case_decide as E; [|apply (ci_voter _ _ _ _ Hinv)].
    intros _. destruct E as [_ ->]. rewrite <- (ci_len _ _ _ _ Hinv). by eapply lookup_lt_Some.
  - intros t x v. unfold self_tally. case_decide as E.
    + destruct E as [-> ->]. intros ->%elem_of_singleton. unfold record_vote. by rewrite decide_True.
    + intros Hv. apply Hup. by apply (ci_tally _ _ _ _ Hinv).
  - intros t x v. unfold self_tally. destruct (decide (t = current_term r' /\ x = i)) as [[-> ->]|Hne].
    + specialize (Htok1 v). destruct (decide (v = i)) as [->|E].
      * rewrite decide_True by set_solver. lia.
      * rewrite decide_False by set_solver. lia.
    + pose proof (ci_tokens _ _ _ _ Hinv t x v) as H. cbn [net] in H.
      pose proof (Htok t x v ltac:(destruct (decide (x = i)); [right; tauto|by left])).
      case_decide; lia.
Qed.
End Step.

Lemma cluster_inv_perm k V C ns ms ms' :
  ms ≡ₚ ms' -> cluster_inv k V C (mkCluster ns ms) -> cluster_inv k V C (mkCluster ns ms').
Proof.
  intros Hp [H1 H2 H3 H4 H5 H6]. constructor; cbn [nodes net] in *; try done.
  - intros i r Hr. eapply node_inv_mono; [by apply H2|done..|].
    intros t v _. by rewrite (tokens_perm t i v _ _ Hp).
  - by rewrite <- Hp.
  - intros t x v. rewrite <- (tokens_perm t x v _ _ Hp). apply H6.
Qed.

Lemma cluster_inv_less k V C ns ms ms0 :
  cluster_inv k V C (mkCluster ns ms) -> ms0 ⊆ ms ->
  (forall t c v, (tokens t c v ms0 <= tokens t c v ms)%nat) ->
  cluster_inv (k + 1) V C (mkCluster ns ms0).
Proof.
  intros [H1 H2 H3 H4 H5 H6] Hsub Hless. constructor; cbn [nodes net] in *; try done.
  - intros i r Hr. eapply node_inv_mono; [by apply H2|lia|done|done|auto].
  - eapply net_inv_mono; [exact H3|lia|done|done].
  - intros t x v. specialize (Hless t x v). specialize (H6 t x v). lia.
Qed.

Section Run.
Variable realloc_ok : Z -> bool.

Definition some_inv (k : Z) (c : Cluster) : Prop := exists V C, cluster_inv k V C c.

Lemma event_inv k c ms i op :
  some_inv k (mkCluster (nodes c) ms) -> k + 1 < 2 ^ 64 -> (forall m, op <> OpConfig m) ->
  (exists msg, op = OpRecv msg /\ m_to msg = i /\ ms = msg :: net c) \/
  ((forall msg, op <> OpRecv msg) /\ ms = net c) ->
  some_inv (k + 1) (node_event realloc_ok c i op).
Proof.
  intros (V & C & Hinv) Hk Hcfg Hop. destruct c as [ns ms0]. cbn [nodes net] in *.
  assert (Hsub : ms0 ⊆ ms).
  { destruct Hop as [(msg & _ & _ & ->)|[_ ->]]; set_solver. }
  assert (Hless : forall t c v, (tokens t c v ms0 <= tokens t c v ms)%nat).
  { intros t c v. destruct Hop as [(msg & _ & _ & ->)|[_ ->]]; [rewrite tokens_cons|]; lia. }
  unfold node_event. cbn [nodes net]. destruct (ns !! i) as [r|] eqn:Hr.
  2: { exists V, C. by eapply cluster_inv_less. }
  pose proof (ci_nodes _ _ _ _ Hinv i r Hr) as Hi. cbn [net] in Hi.
  assert (Hlt : (i < n)%nat) by (rewrite <- (ci_len _ _ _ _ Hinv); by eapply lookup_lt_Some).
  assert (Hms : forall msg, op = OpRecv msg -> ms = msg :: ms0 /\ m_to msg = i /\ msg_inv k V msg).
  { intros msg ->. destruct Hop as [(m & [= <-] & Hto & ->)|[H _]]; [|by destruct (H msg)].
    split; [done|]. split; [done|]. pose proof (ci_net _ _ _ _ Hinv) as Hnet. by inversion Hnet. }
  pose proof (node_event_ok realloc_ok (full_mask n) r op (ni_fixed _ _ _ _ _ _ Hi)) as Hev.
  destruct Hev as (Hid & Hout & Hve); try done.
  { unfold raft_is_member. destruct (ni_fixed _ _ _ _ _ _ Hi) as (-> & _).
    rewrite (ni_id _ _ _ _ _ _ Hi). by apply full_mask_member. }
  { intros msg E. by destruct (Hms msg E) as (_ & _ & []). }
  pose proof (ni_term _ _ _ _ _ _ Hi) as Hterm.
  destruct (node_step realloc_ok r op) as [r' out]. cbn [fst snd] in *.
  destruct Hve as [A B D|msg r1 reply A B D E F G H I J K L N O|msg A B D E F G H I J K|A B D E F].
  - exists V, C. eapply inv_follow; try done.
    destruct D as [->|(msg & E & ->)]; [lia|]. destruct (Hms msg E) as (_ & _ & Hm).
    pose proof (mi_term _ _ _ Hm). lia.
  - destruct (Hms msg A) as (Hm1 & Hm2 & _). do 2 eexists. eapply inv_grant; done.
  - destruct (Hms msg A) as (Hm1 & Hm2 & _). do 2 eexists. eapply inv_count; done.
  - do 2 eexists. eapply inv_candidate; done.
Qed.

Lemma delete_none (ms : list RaftMsg) j : ms !! j = None -> delete j ms = ms.
Proof.
  intros E%lookup_ge_None. rewrite delete_take_drop, take_ge, drop_ge by lia. by rewrite app_nil_r.
Qed.

Lemma tokens_delete t c v ms j : (tokens t c v (delete j ms) <= tokens t c v ms)%nat.
Proof.
  destruct (ms !! j) as [m|] eqn:E.
  - rewrite (tokens_perm t c v ms (m :: delete j ms)) by (by apply delete_Permutation).
    rewrite tokens_cons. lia.
  - by rewrite delete_none.
Qed.

Lemma delete_subset (ms : list RaftMsg) j : delete j ms ⊆ ms.
Proof.
  destruct (ms !! j) as [m|] eqn:E.
  - intros x Hx. rewrite (delete_Permutation ms j m E). by right.
  - by rewrite delete_none.
Qed.

Lemma step_inv k c op : some_inv k c -> k + 1 < 2 ^ 64 -> no_config op ->
  some_inv (k + 1) (cluster_step realloc_ok c op).
Proof.
  intros Hinv Hk Hop.
  assert (Hc : mkCluster (nodes c) (net c) = c) by (by destruct c).
  destruct op as [i|j|j|i x|i m|i|i x v|i]; cbn [cluster_step no_config] in *; try done.
  2: { destruct (net c !! j) as [m|] eqn:Hj.
       2: { destruct Hinv as (V & C & Hinv). rewrite <- Hc in Hinv |- *.
            exists V, C. by eapply cluster_inv_less. }
       apply (event_inv k (take_msg c j) (m :: delete j (net c))); try done.
       - cbn. destruct Hinv as (V & C & Hinv). exists V, C. rewrite <- Hc in Hinv.
         eapply cluster_inv_perm; [|exact Hinv]. by apply delete_Permutation.
       - left. by exists m. }
  2: { destruct Hinv as (V & C & Hinv). rewrite <- Hc in Hinv. exists V, C.
       eapply cluster_inv_less; [exact Hinv|apply delete_subset|intros; apply tokens_delete]. }
  all: apply (event_inv k c (net c)); try done; [by rewrite Hc|by right].
Qed.

Lemma run_inv ops k c : some_inv k c -> 0 <= k -> k + Z.of_nat (length ops) < 2 ^ 64 ->
  Forall no_config ops -> some_inv (k + Z.of_nat (length ops)) (cluster_run realloc_ok c ops).
Proof.
  intros Hinv Hk Hlen Hops. revert k c Hinv Hk Hlen.
  induction Hops as [|op ops Hop _ IH]; intros k c Hinv Hk Hlen; cbn [cluster_run foldl length] in *.
  - by rewrite Z.add_0_r.
  - replace (k + Z.of_nat (S (length ops))) with (k + 1 + Z.of_nat (length ops)) by lia.
    apply IH; [|lia|lia]. apply step_inv; [done|lia|done].
Qed.
End Run.

Lemma raft_init_some j el hb : exists r, raft_init true j (Z.of_nat n) el hb true = Some r.
Proof.
  unfold raft_init. unfold RAFT_MAX_NODES in *.
  destruct (Z.ltb_spec (Z.of_nat n) 1); [lia|]. destruct (Z.ltb_spec (Z.of_nat 7) (Z.of_nat n)); [lia|].
  cbn [orb negb]. eauto.
Qed.

Lemma length_omap_some {A B} (f : A -> option B) (l : list A) :
  (forall x, exists y, f x = Some y) -> length (omap f l) = length l.
Proof.
  intros Hf. induction l as [|x l IH]; [done|]. destruct (Hf x) as [y Hy].
  change (omap f (x :: l)) with (match f x with Some y => y :: omap f l | None => omap f l end).
  rewrite Hy. cbn [length]. by rewrite IH.
Qed.

Lemma init_lookup el hb i r : nodes (cluster_init n el hb) !! i = Some r ->
  raft_init true i (Z.of_nat n) (el i) hb true = Some r.
Proof.
  unfold cluster_init. cbn [nodes].
  set (f := fun i => raft_init true i (Z.of_nat n) (el i) hb true).
  assert (Hf : forall j, exists x, f j = Some x) by (intros j; apply raft_init_some).
  assert (Hl : forall m s, omap f (seq s m) !! i = (if decide (i < m)%nat then f (s + i)%nat else None)).
  { clear -Hf. intros m. revert i. induction m as [|m IH]; intros i s; [done|].
    change (omap f (seq s (S m))) with (match f s with Some x => x :: omap f (seq (S s) m) | None => omap f (seq (S s) m) end).
    destruct (Hf s) as [x Hx]. rewrite Hx. destruct i as [|i]; cbn.
    - by rewrite Nat.add_0_r.
    - rewrite IH. replace (S s + i)%nat with (s + S i)%nat by lia.
      destruct (decide (i < m)%nat), (decide (S i < S m)%nat); done || lia. }
  rewrite Hl. case_decide; [|done]. done.
Qed.

Lemma init_inv el hb : some_inv 0 (cluster_init n el hb).
Proof.
  exists (fun _ _ => None), (fun _ _ => ∅). constructor; cbn [nodes net]; try done.
  - unfold cluster_init. cbn [nodes]. rewrite length_omap_some, length_seq; [done|].
    intros i. apply raft_init_some.
  - intros i r Hr%init_lookup. unfold raft_init in Hr. unfold RAFT_MAX_NODES in *.
    destruct (Z.ltb_spec (Z.of_nat n) 1); [lia|]. destruct (Z.ltb_spec (Z.of_nat 7) (Z.of_nat n)); [lia|].
    cbn [orb negb] in Hr. destruct (Z.leb_spec 32 (Z.of_nat n)); [lia|]. injection Hr as <-.
    constructor; cbn [current_term role node_id voted_for]; try done.
    split; [done|]. split; [done|]. by apply list.Forall_singleton.
  - intros t x v. cbn. case_decide; set_solver.
Qed.
End Election.

(** C3. Election safety.  In a cluster whose membership does not change, over a
    network that may delay, reorder and lose messages, and with crashes and
    restarts at any time, two leaders of the same term are the same node.  (Fewer
    than 2^64 events, so that the term counter has not wrapped.) *)
Theorem raft_election_safety (realloc_ok : Z -> bool) (n : nat) (el : nat -> Z) (hb : Z)
    (ops : list ClusterOp) (i j : nat) (ri rj : Raft) :
  (1 <= n <= RAFT_MAX_NODES)%nat -> Forall no_config ops -> Z.of_nat (length ops) < 2 ^ 64 ->
  let c := cluster_run realloc_ok (cluster_init n el hb) ops in
  nodes c !! i = Some ri -> nodes c !! j = Some rj ->
  role ri = RAFT_LEADER -> role rj = RAFT_LEADER -> current_term ri = current_term rj -> i = j.
Proof.
  intros Hn Hops Hlen c Hi Hj Hri Hrj Ht.
  destruct (run_inv n Hn realloc_ok ops 0 _ (init_inv n Hn el hb)) as (V & C & Hinv); [lia|lia|done|].
  fold c in Hinv.
  pose proof (ni_lead _ _ _ _ _ _ _ (ci_nodes _ _ _ _ _ Hinv i ri Hi) Hri) as H1.
  pose proof (ni_lead _ _ _ _ _ _ _ (ci_nodes _ _ _ _ _ Hinv j rj Hj) Hrj) as H2.
  rewrite <- Ht in H2. by eapply one_majority.
Qed.

(** ** A schedule that breaks state machine safety

    [handle_append_entries] raises the follower's commit index to the leader's,
    limited by the follower's last log index, and not by the last entry the
    message confirmed.  Node 2 keeps an uncommitted tail of term 2; node 0, leader
    of term 5, moves [next_index] of node 2 one step back for each of 41 delayed
    refusals and then sends entries 1..16, which node 2 has: it then commits and
    applies its own tail. *)

Definition deliver_all (k : nat) : list ClusterOp := replicate k (CDeliver 0).
Definition submits (i : nat) (base : Z) (k : nat) : list ClusterOp :=
  (fun j => CSubmit i (base + Z.of_nat j)) <$> seq 1 k.

Definition demo_timeouts (i : nat) : Z := if Nat.eqb i 1 then 50 else 2.

(** Node 0 is elected in term 1 and replicates 17 entries everywhere. *)
Definition phase1 : list ClusterOp :=
  [CTick 0; CTick 0] ++ deliver_all 12 ++ submits 0 0 17 ++
  CTick 0 :: deliver_all 6 ++ CTick 0 :: deliver_all 6 ++ CTick 0 :: deliver_all 6.

(** Node 2 is elected in term 2 and appends 24 entries it never sends. *)
Definition phase2 : list ClusterOp :=
  [CTick 2; CTick 2] ++ deliver_all 4 ++ replicate 8 (CDrop 0) ++ submits 2 200 24.

(** Node 0 is elected in term 3 and commits 24 other entries with node 1. *)
Definition phase3 : list ClusterOp :=
  [CTick 0; CTick 0; CDrop 1; CDeliver 0; CDeliver 0; CDrop 1; CDeliver 0; CDeliver 0] ++ submits 0 300 24 ++
  [CTick 0; CDrop 1; CDeliver 0; CDeliver 0; CTick 0; CDrop 1; CDeliver 0; CDeliver 0].

(** Node 1 hears nothing, becomes a candidate of term 4 and makes node 0 step down; no
    other message of its arrives.  Node 0 is elected in term 5 and commits its no-op
    with node 1; 41 heartbeats to node 2 are under way before any answer arrives. *)
Definition phase4 : list ClusterOp :=
  replicate 50 (CTick 1) ++ [CDeliver 0; CDrop 0; CDrop 0] ++
  [CTick 0; CTick 0; CDrop 1; CDeliver 0; CDeliver 0; CDeliver 0; CDeliver 1] ++
  mjoin ((fun p => [CTick 0; CDrop p]) <$> seq 1 40) ++ deliver_all 82 ++ [CTick 0; CDeliver 1].

Definition demo_final : Cluster :=
  cluster_run (fun _ => true) (cluster_init 3 demo_timeouts 1) (phase1 ++ phase2 ++ phase3 ++ phase4).

(** Clock ticks, commands, and messages delivered in any order or lost: no node crashes,
    restarts or takes a snapshot, and the membership does not change. *)
Definition only_network (op : ClusterOp) : Prop :=
  match op with CTick _ | CDeliver _ | CDrop _ | CSubmit _ _ => True | _ => False end.
#[export] Instance only_network_dec op : Decision (only_network op).
Proof. destruct op; apply _. Defined.

(** The commands node [i] has applied at index [idx]. *)
Definition applied_at (c : Cluster) (i : nat) (idx : Z) : list Z :=
  match nodes c !! i with
  | None => []
  | Some r => omap (fun ev => match ev with
                              | EvApply _ j x => if j =? idx then Some x else None
                              | EvSnap _ _ _ => None
                              end) (apply_ctx r)
  end.

(** C30. The commit index a follower takes from a heartbeat is not limited to what
    the message confirmed: in a cluster of three that never restarts, with messages
    that are only delayed or lost, node 0 commits and applies command 301 at index 18 while
    node 2 commits and applies command 201 there. *)
Theorem raft_commit_diverges :
  exists ops, Forall only_network ops /\
    let c := cluster_run (fun _ => true) (cluster_init 3 demo_timeouts 1) ops in
    301 ∈ applied_at c 0 18 /\ 201 ∈ applied_at c 2 18.
Proof.
  exists (phase1 ++ phase2 ++ phase3 ++ phase4). split.
  - apply (bool_decide_unpack _). vm_compute. exact I.
  - cbv zeta. split; apply (bool_decide_unpack _); vm_compute; exact I.
Qed.

(** *** Witness of election safety: node 0 wins term 1 of a cluster of three *)
Definition demo_election : Cluster :=
  cluster_run (fun _ => true) (cluster_init 3 demo_timeouts 1)
    [CTick 0; CTick 0; CDeliver 0; CDeliver 0; CDeliver 0].

Lemma raft_election_safety_witness :
  exists r0, nodes demo_election !! 0%nat = Some r0 /\ role r0 = RAFT_LEADER /\
    current_term r0 = 1 /\ (0 = 0)%nat.
Proof.
  eexists. split; [vm_compute; reflexivity|]. split; [vm_compute; reflexivity|].
  split; [vm_compute; reflexivity|].
  eapply (raft_election_safety (fun _ => true) 3 demo_timeouts 1
    [CTick 0; CTick 0; CDeliver 0; CDeliver 0; CDeliver 0] 0 0).
  - unfold RAFT_MAX_NODES. lia.
  - repeat constructor.
  - cbn. lia.
  - vm_compute; reflexivity.
  - vm_compute; reflexivity.
  - vm_compute; reflexivity.
  - vm_compute; reflexivity.
  - reflexivity.
Defined.
