(* ===== verification/Lock.v ===== *)
(** * Two-phase lock manager and deadlock detection (src/src/lock.c)

    The manager keeps an array of at most [LOCK_MAX] entries (a released entry has
    transaction 0 and is reused) and at most [LOCK_MAX_WAITS] wait records.  The
    first part models acquisition and release and proves mutual exclusion; the
    second models the wait-for graph search and proves it finds exactly the
    deadlocks. *)
From stdpp Require Import strings.
From S2P Require Import Prelude.

Definition LOCK_MAX : Z := 256.
Definition LOCK_MAX_WAITS : Z := 64.
Definition LOCK_NAME_LEN : nat := 64.

Inductive LockMode := LOCK_S | LOCK_X.

#[export] Instance LockMode_eq_dec : EqDecision LockMode.
Proof. solve_decision. Defined.

Record LockEntry := mkEntry { le_txn : Z; le_table : string; le_key : Z; le_mode : LockMode }.
Record LockWait := mkWait { lw_txn : Z; lw_table : string; lw_key : Z; lw_mode : LockMode }.

(** The live prefixes [entries[0..n)] and [waits[0..nwaits)]. *)
Record LockManager := mkLM { entries : list LockEntry; waits : list LockWait }.

(** [snprintf(dst, LOCK_NAME_LEN, "%s", name)] keeps at most 63 characters. *)
Definition copy_name (name : string) : string := String.substring 0 (LOCK_NAME_LEN - 1) name.

Definition lock_init : LockManager := mkLM [] [].

Definition same_obj (e : LockEntry) (table : string) (key : Z) : bool :=
  (le_key e =? key) && bool_decide (le_table e = table).

(** One pass of the scan that looks for the caller's entry and other holders:
    the state is (index of mine, other_s, other_x). *)
Definition scan_entry (txn : Z) (table : string) (key : Z)
    (acc : option nat * bool * bool) (ie : nat * LockEntry) : option nat * bool * bool :=
  let '(mine, os, ox) := acc in
  let '(i, e) := ie in
  if (le_txn e =? 0) || negb (same_obj e table key) then acc
  else if le_txn e =? txn then (Some i, os, ox)
  else if decide (le_mode e = LOCK_X) then (mine, os, true)
  else (mine, true, ox).

Definition scan_entries (es : list LockEntry) (txn : Z) (table : string) (key : Z) :
    option nat * bool * bool :=
  foldl (scan_entry txn table key) (None, false, false) (imap pair es).

Fixpoint first_free (es : list LockEntry) (i : nat) : option nat :=
  match es with
  | [] => None
  | e :: r => if le_txn e =? 0 then Some i else first_free r (S i)
  end.

Definition set_mode (e : LockEntry) (m : LockMode) : LockEntry :=
  mkEntry (le_txn e) (le_table e) (le_key e) m.

Definition lock_acquire (lm : LockManager) (txn : Z) (table : string) (key : Z) (mode : LockMode) :
    LockManager * Z :=
  let es := entries lm in
  let '(mine, other_s, other_x) := scan_entries es txn table key in
  match mine ≫= (fun i => (pair i) <$> es !! i) with
  | Some (i, e) =>
      if bool_decide (mode = LOCK_S) || bool_decide (le_mode e = LOCK_X) then (lm, 0)
      else if other_s || other_x then (lm, -1)
      else (mkLM (<[i := set_mode e LOCK_X]> es) (waits lm), 0)
  | None =>
      if bool_decide (mode = LOCK_X) && (other_s || other_x) then (lm, -1)
      else if bool_decide (mode = LOCK_S) && other_x then (lm, -1)
      else
        let e := mkEntry txn (copy_name table) key mode in
        match first_free es 0 with
        | Some i => (mkLM (<[i := e]> es) (waits lm), 0)
        | None => if LOCK_MAX <=? blen es then (lm, -1)
                  else (mkLM (es ++ [e]) (waits lm), 0)
        end
  end.

Definition clear_txn (txn : Z) (e : LockEntry) : LockEntry :=
  if le_txn e =? txn then mkEntry 0 (le_table e) (le_key e) (le_mode e) else e.

Definition lock_release_all (lm : LockManager) (txn : Z) : LockManager :=
  mkLM (clear_txn txn <$> entries lm) (waits lm).

Definition lock_held (lm : LockManager) (txn : Z) (table : string) (key : Z) : bool :=
  existsb (fun e => (le_txn e =? txn) && same_obj e table key) (entries lm).

(** ** Waits *)

Fixpoint find_wait (ws : list LockWait) (txn : Z) (i : nat) : option nat :=
  match ws with
  | [] => None
  | w :: r => if lw_txn w =? txn then Some i else find_wait r txn (S i)
  end.

Definition lock_wait_add (lm : LockManager) (txn : Z) (table : string) (key : Z) (mode : LockMode) :
    LockManager :=
  let ws := waits lm in
  let w := mkWait txn (copy_name table) key mode in
  match find_wait ws txn 0 with
  | Some i => mkLM (entries lm) (<[i := w]> ws)
  | None => if LOCK_MAX_WAITS <=? blen ws then lm else mkLM (entries lm) (ws ++ [w])
  end.

(** Removes the record by moving the last one into its place. *)
Definition lock_wait_clear (lm : LockManager) (txn : Z) : LockManager :=
  let ws := waits lm in
  match find_wait ws txn 0, ws !! (length ws - 1)%nat with
  | Some i, Some l => mkLM (entries lm) (take (length ws - 1) (<[i := l]> ws))
  | _, _ => lm
  end.

Definition conflicts (w : LockWait) (e : LockEntry) : bool :=
  bool_decide (lw_mode w = LOCK_X) || bool_decide (le_mode e = LOCK_X).

(** The loop over the entries collects distinct conflicting holders, at most [max]. *)
Definition target_step (txn : Z) (w : LockWait) (max : Z) (out : list Z) (e : LockEntry) : list Z :=
  if (le_txn e =? 0) || (le_txn e =? txn) || negb (le_key e =? lw_key w)
     || negb (bool_decide (le_table e = lw_table w)) then out
  else if negb (conflicts w e) then out
  else if bool_decide (le_txn e ∈ out) then out
  else if blen out <? max then out ++ [le_txn e] else out.

Definition wait_targets (lm : LockManager) (txn max : Z) : list Z :=
  match find_wait (waits lm) txn 0 ≫= (fun i => waits lm !! i) with
  | None => []
  | Some w => foldl (target_step txn w max) [] (entries lm)
  end.

(** The recursion of [dfs_cycle] is bounded by [LOCK_MAX_WAITS]: fuel 65 is the
    largest depth the code reaches plus one. *)
Fixpoint first_nonzero {A} (f : A -> Z) (l : list A) : Z :=
  match l with
  | [] => 0
  | x :: r => let v := f x in if v =? 0 then first_nonzero f r else v
  end.

Fixpoint dfs_cycle (fuel : nat) (lm : LockManager) (txn : Z) (path : list Z) : Z :=
  match fuel with
  | O => 0
  | S fuel' =>
      if bool_decide (txn ∈ path) then txn
      else if LOCK_MAX_WAITS <=? blen path then 0
      else first_nonzero (fun t => dfs_cycle fuel' lm t (path ++ [txn])) (wait_targets lm txn LOCK_MAX)
  end.

Definition dfs_fuel : nat := 65.

Definition lock_deadlock_victim (lm : LockManager) : Z :=
  first_nonzero (fun w => dfs_cycle dfs_fuel lm (lw_txn w) []) (waits lm).

(** ** Mutual exclusion *)

Definition holds (e : LockEntry) (table : string) (key : Z) : Prop :=
  le_txn e <> 0 /\ le_key e = key /\ le_table e = table.

(** At most one entry per transaction and object, and two different
    transactions holding the same object both hold it in shared mode. *)
Record lock_inv (es : list LockEntry) : Prop := {
  li_uniq : forall i j e f, es !! i = Some e -> es !! j = Some f -> i <> j ->
      le_txn e <> 0 -> le_txn e = le_txn f -> le_table e = le_table f -> le_key e <> le_key f;
  li_excl : forall e f, e ∈ es -> f ∈ es -> le_txn e <> 0 -> le_txn f <> 0 -> le_txn e <> le_txn f ->
      le_table e = le_table f -> le_key e = le_key f -> le_mode e = LOCK_S /\ le_mode f = LOCK_S;
  li_len : blen es <= LOCK_MAX }.

Lemma same_obj_spec e table key : same_obj e table key = true <-> le_key e = key /\ le_table e = table.
Proof. unfold same_obj. rewrite andb_true_iff, Z.eqb_eq, bool_decide_eq_true. done. Qed.

Lemma scan_skip e table key :
  (le_txn e =? 0) || negb (same_obj e table key) = false <-> holds e table key.
Proof.
  unfold holds. rewrite orb_false_iff, Z.eqb_neq, negb_false_iff, same_obj_spec. done.
Qed.

(** What the scan of [lock_acquire] computes. *)
Lemma scan_entries_spec es txn table key mine os ox :
  scan_entries es txn table key = (mine, os, ox) ->
  match mine with
  | Some i => exists e, es !! i = Some e /\ holds e table key /\ le_txn e = txn
  | None => forall e, e ∈ es -> holds e table key -> le_txn e <> txn
  end /\
  (os = true <-> exists e, e ∈ es /\ holds e table key /\ le_txn e <> txn /\ le_mode e = LOCK_S) /\
  (ox = true <-> exists e, e ∈ es /\ holds e table key /\ le_txn e <> txn /\ le_mode e = LOCK_X).
Proof.
  revert mine os ox. induction es as [|e es IH] using rev_ind; intros mine os ox; unfold scan_entries.
  - intros [= <- <- <-]. split; [intros e He; set_solver|]. split; split; try discriminate; intros (e & He & _); set_solver.
  - rewrite imap_app, foldl_app. fold (scan_entries es txn table key).
    destruct (scan_entries es txn table key) as [[m s] x] eqn:E. specialize (IH _ _ _ eq_refl) as (Hm & Hs & Hx).
    simpl. rewrite Nat.add_0_r.
    assert (Hsub : forall P : LockEntry -> Prop, (exists e0, e0 ∈ es ++ [e] /\ P e0) <-> (exists e0, e0 ∈ es /\ P e0) \/ P e).
    { intros P. setoid_rewrite elem_of_app. setoid_rewrite list_elem_of_singleton. naive_solver. }
    rewrite !Hsub.
    destruct ((le_txn e =? 0) || negb (same_obj e table key)) eqn:Esk.
    { intros [= <- <- <-]. assert (Hn : ~ holds e table key) by (rewrite <- scan_skip; congruence).
      split; [|naive_solver]. destruct m as [i|].
      - destruct Hm as (e0 & Hi & ?). exists e0. split; [|done]. by apply lookup_app_l_Some.
      - intros e0 [He0|Hq%list_elem_of_singleton]%elem_of_app; [by apply Hm|subst e0; done]. }
    apply scan_skip in Esk. destruct (Z.eqb_spec (le_txn e) txn) as [Et|Et].
    { intros [= <- <- <-]. split; [|naive_solver].
      exists e. split; [|done]. rewrite lookup_app_r, Nat.sub_diag by lia. done. }
    assert (Hm' : match m with
        | Some i => exists e0, (es ++ [e]) !! i = Some e0 /\ holds e0 table key /\ le_txn e0 = txn
        | None => forall e0, e0 ∈ es ++ [e] -> holds e0 table key -> le_txn e0 <> txn end).
    { destruct m as [i|].
      - destruct Hm as (e0 & Hi & ?). exists e0. split; [|done]. by apply lookup_app_l_Some.
      - intros e0 [He0|Hq%list_elem_of_singleton]%elem_of_app; [by apply Hm|subst e0; done]. }
    destruct (decide (le_mode e = LOCK_X)) as [EX|EX]; intros [= <- <- <-]; (split; [done|]).
    + split; [|naive_solver]. rewrite Hs. split; [naive_solver|]. intros [?|(_ & _ & ?)]; [done|congruence].
    + split; [|rewrite Hx; naive_solver]. split; [|done]. intros _. right. destruct (le_mode e); naive_solver.
Qed.

Lemma first_free_spec es k i :
  first_free es k = Some i -> (k <= i)%nat /\ exists e, es !! (i - k)%nat = Some e /\ le_txn e = 0.
Proof.
  revert k. induction es as [|e es IH]; intros k; simpl; [done|].
  destruct (Z.eqb_spec (le_txn e) 0) as [Ez|Ez].
  - intros [= <-]. split; [lia|]. exists e. rewrite Nat.sub_diag. done.
  - intros (Hk & e' & Hl & Hz)%IH. split; [lia|]. exists e'. split; [|done].
    replace (i - k)%nat with (S (i - S k)) by lia. done.
Qed.

Lemma clear_txn_txn txn e : le_txn (clear_txn txn e) <> 0 -> clear_txn txn e = e /\ le_txn e <> txn.
Proof. unfold clear_txn. destruct (Z.eqb_spec (le_txn e) txn); simpl; [lia|done]. Qed.

(** Replacing a slot by a new entry that is compatible with every other entry. *)
Lemma lock_inv_insert es i e' :
  lock_inv es -> (i < length es)%nat ->
  (forall j f, es !! j = Some f -> j <> i -> le_txn f <> 0 -> le_table f = le_table e' -> le_key f = le_key e' ->
     le_txn f <> le_txn e' /\ (le_txn e' <> 0 -> le_mode f = LOCK_S /\ le_mode e' = LOCK_S)) ->
  lock_inv (<[i := e']> es).
Proof.
  intros [Hu He Hl] Hi Hc.
  assert (Hcase : forall j f, <[i:=e']> es !! j = Some f -> (j = i /\ f = e') \/ (j <> i /\ es !! j = Some f)).
  { intros j f Hj. destruct (decide (j = i)) as [->|]; [|rewrite list_lookup_insert_ne in Hj by done; by right].
    rewrite list_lookup_insert_eq in Hj by done. left. by simplify_eq. }
  split.
  - intros j k f g [[-> ->]|[Hj Hf]]%Hcase [[-> ->]|[Hk Hg]]%Hcase Hjk H0 Ht Htb Hke; try done.
    + destruct (Hc k g) as [Hne _]; try done; congruence.
    + destruct (Hc j f) as [Hne _]; try done; congruence.
    + by apply (Hu j k f g).
  - intros f g [j Hj]%list_elem_of_lookup [k Hk]%list_elem_of_lookup H0 H1 Hne Htb Hke.
    apply Hcase in Hj as [[-> ->]|[Hj Hf]]; apply Hcase in Hk as [[-> ->]|[Hk Hg]]; try done.
    + destruct (Hc k g) as [_ Hm]; try done. destruct (Hm H0). done.
    + destruct (Hc j f) as [_ Hm]; try done. destruct (Hm H1). done.
    + apply (He f g); try done; eapply list_elem_of_lookup_2; eauto.
  - unfold blen in *. by rewrite length_insert.
Qed.

Lemma lock_inv_snoc_free es :
  lock_inv es -> blen es < LOCK_MAX -> lock_inv (es ++ [mkEntry 0 EmptyString 0 LOCK_S]).
Proof.
  intros [Hu He Hl] Hlt. set (z := mkEntry 0 EmptyString 0 LOCK_S).
  assert (Hcase : forall j f, (es ++ [z]) !! j = Some f -> es !! j = Some f \/ f = z).
  { intros j f [Hj|[_ Hj]]%lookup_app_Some; [by left|]. apply list_lookup_singleton_Some in Hj as [_ <-]. by right. }
  split.
  - intros j k f g Hj Hk Hjk H0 Ht. apply Hcase in Hj as [Hj| ->]; [|done]. apply Hcase in Hk as [Hk| ->]; [|done].
    by apply (Hu j k f g).
  - intros f g Hf Hg H0 H1. apply elem_of_app in Hf as [Hf|Hf]; [|apply list_elem_of_singleton in Hf as ->; done].
    apply elem_of_app in Hg as [Hg|Hg]; [|apply list_elem_of_singleton in Hg as ->; done]. by apply He.
  - rewrite blen_app. change (blen [z]) with 1. lia.
Qed.

(** Names as the parser produces them: at most 63 characters. *)
Definition name_ok (name : string) : Prop := copy_name name = name.

Lemma scan_no_others es txn table key mine :
  scan_entries es txn table key = (mine, false, false) ->
  forall f, f ∈ es -> holds f table key -> le_txn f = txn.
Proof.
  intros (_ & Hs & Hx)%scan_entries_spec f Hf Hh. destruct (decide (le_txn f = txn)) as [|Hne]; [done|].
  destruct (le_mode f) eqn:Em; [destruct Hs as [_ Hs]; discriminate Hs|destruct Hx as [_ Hx]; discriminate Hx]; eauto 10.
Qed.

Lemma scan_others_S es txn table key mine os :
  scan_entries es txn table key = (mine, os, false) ->
  forall f, f ∈ es -> holds f table key -> le_txn f <> txn -> le_mode f = LOCK_S.
Proof.
  intros (_ & _ & Hx)%scan_entries_spec f Hf Hh Hne. destruct (le_mode f) eqn:Em; [done|].
  destruct Hx as [_ Hx]. discriminate Hx. eauto 10.
Qed.

(** The new entry granted by step 3 is compatible with the rest of the table. *)
Lemma grant_inv es txn table key mode os ox :
  lock_inv es -> txn <> 0 -> name_ok table ->
  scan_entries es txn table key = (None, os, ox) ->
  (mode = LOCK_X -> os = false /\ ox = false) -> (mode = LOCK_S -> ox = false) ->
  forall i, (i < length es)%nat -> (forall e, es !! i = Some e -> le_txn e = 0) ->
  lock_inv (<[i := mkEntry txn (copy_name table) key mode]> es).
Proof.
  intros Hinv H0 Hn Hscan HX HS i Hi Hfree. rewrite Hn. apply lock_inv_insert; [done..|].
  intros j f Hj Hji Hf0 Ht Hk. simpl in *. pose proof Hscan as (Hm & _ & _)%scan_entries_spec.
  assert (Hf : f ∈ es) by (eapply list_elem_of_lookup_2; eauto).
  assert (Hh : holds f table key) by done. pose proof (Hm f Hf Hh) as Hne. split; [done|]. intros _.
  destruct mode.
  - rewrite HS in Hscan by done. split; [|done]. eapply scan_others_S; eauto.
  - destruct HX as [-> ->]; [done|]. destruct Hne. eapply scan_no_others; eauto.
Qed.

Lemma lock_acquire_inv lm txn table key mode lm' rc :
  lock_inv (entries lm) -> txn <> 0 -> name_ok table ->
  lock_acquire lm txn table key mode = (lm', rc) -> lock_inv (entries lm').
Proof.
  intros Hinv H0 Hn. unfold lock_acquire.
  destruct (scan_entries (entries lm) txn table key) as [[mine os] ox] eqn:Hscan.
  pose proof Hscan as (Hm & _ & _)%scan_entries_spec. destruct mine as [i|]; simpl.
  - destruct Hm as (e & Hi & Hh & He). rewrite Hi. simpl.
    destruct (bool_decide (mode = LOCK_S) || bool_decide (le_mode e = LOCK_X)); [by intros [= <- _]|].
    destruct (os || ox) eqn:Eo; [by intros [= <- _]|]. intros [= <- _]. simpl.
    apply orb_false_iff in Eo as [-> ->]. apply lock_inv_insert; [done|by eapply lookup_lt_Some|].
    intros j f Hj Hji Hf0 Ht Hk. simpl in *. destruct Hh as (_ & Hk' & Ht').
    assert (Hff : le_txn f = txn).
    { apply (scan_no_others _ _ _ _ _ Hscan); [by eapply list_elem_of_lookup_2|]. split; [done|]. split; congruence. }
    exfalso. apply (li_uniq _ Hinv i j e f Hi Hj); try done; congruence.
  - destruct (bool_decide (mode = LOCK_X) && (os || ox)) eqn:E1; [by intros [= <- _]|].
    destruct (bool_decide (mode = LOCK_S) && ox) eqn:E2; [by intros [= <- _]|].
    assert (HX : mode = LOCK_X -> os = false /\ ox = false).
    { intros ->. rewrite bool_decide_eq_true_2 in E1 by done. by apply orb_false_iff in E1. }
    assert (HS : mode = LOCK_S -> ox = false).
    { intros ->. by rewrite bool_decide_eq_true_2 in E2 by done. }
    destruct (first_free (entries lm) 0) as [i|] eqn:Ef.
    + intros [= <- _]. simpl. apply first_free_spec in Ef as (_ & e & He & Hz). rewrite Nat.sub_0_r in He.
      eapply grant_inv; eauto; [by eapply lookup_lt_Some|]. intros e' He'. congruence.
    + destruct (Z.leb_spec LOCK_MAX (blen (entries lm))) as [Hge|Hlt]; intros [= <- _]; [done|]. simpl.
      replace (entries lm ++ [mkEntry txn (copy_name table) key mode]) with
        (<[length (entries lm) := mkEntry txn (copy_name table) key mode]> (entries lm ++ [mkEntry 0 EmptyString 0 LOCK_S]))
        by (rewrite insert_app_r_alt, Nat.sub_diag by lia; done).
      assert (Hsc : scan_entries (entries lm ++ [mkEntry 0 EmptyString 0 LOCK_S]) txn table key = (None, os, ox)).
      { unfold scan_entries in *. rewrite imap_app, foldl_app, Hscan. done. }
      eapply grant_inv; eauto using lock_inv_snoc_free.
      * rewrite length_app. simpl. lia.
      * intros e' He'. rewrite lookup_app_r, Nat.sub_diag in He' by lia. by simplify_eq/=.
Qed.

Lemma lock_release_inv lm txn : lock_inv (entries lm) -> lock_inv (entries (lock_release_all lm txn)).
Proof.
  intros [Hu He Hl]. split; simpl.
  - intros i j e f Hi Hj Hij H0 Ht Htb. rewrite list_lookup_fmap in Hi, Hj.
    apply fmap_Some in Hi as (e0 & Hi & ->). apply fmap_Some in Hj as (f0 & Hj & ->).
    pose proof (clear_txn_txn _ _ H0) as [Ee _]. rewrite Ht in H0. pose proof (clear_txn_txn _ _ H0) as [Ef _].
    rewrite Ee, Ef in *. apply (Hu i j); try done. congruence.
  - intros e f (e0 & -> & Hi)%list_elem_of_fmap (f0 & -> & Hj)%list_elem_of_fmap H0 H1.
    pose proof (clear_txn_txn _ _ H0) as [-> _]. pose proof (clear_txn_txn _ _ H1) as [-> _]. 
    rewrite (proj1 (clear_txn_txn _ _ H0)) in H0. rewrite (proj1 (clear_txn_txn _ _ H1)) in H1. by apply He.
  - by rewrite blen_fmap.
Qed.

Lemma lock_held_spec lm txn table key :
  txn <> 0 -> lock_held lm txn table key = true <-> exists e, e ∈ entries lm /\ holds e table key /\ le_txn e = txn.
Proof.
  intros H0. unfold lock_held. rewrite existsb_exists. setoid_rewrite andb_true_iff. setoid_rewrite same_obj_spec.
  setoid_rewrite Z.eqb_eq. setoid_rewrite <- list_elem_of_In. unfold holds. naive_solver.
Qed.

(** ** Histories of the manager *)

Inductive lm_step : LockManager -> LockManager -> Prop :=
| step_acquire lm txn table key mode lm' rc :
    txn <> 0 -> name_ok table -> lock_acquire lm txn table key mode = (lm', rc) -> lm_step lm lm'
| step_release lm txn : lm_step lm (lock_release_all lm txn)
| step_wait_add lm txn table key mode : lm_step lm (lock_wait_add lm txn table key mode)
| step_wait_clear lm txn : lm_step lm (lock_wait_clear lm txn).

Definition lm_reachable (lm : LockManager) : Prop := rtc lm_step lock_init lm.

Record lm_inv (lm : LockManager) : Prop := {
  lmi_locks : lock_inv (entries lm);
  lmi_waits : blen (waits lm) <= LOCK_MAX_WAITS }.

Lemma lock_acquire_waits lm txn table key mode lm' rc :
  lock_acquire lm txn table key mode = (lm', rc) -> waits lm' = waits lm.
Proof.
  unfold lock_acquire. destruct (scan_entries _ _ _ _) as [[mine os] ox].
  destruct (mine ≫= _) as [[i e]|].
  - repeat case_match; intros [= <- _]; done.
  - repeat case_match; intros [= <- _]; done.
Qed.

Lemma lm_step_inv lm lm' : lm_step lm lm' -> lm_inv lm -> lm_inv lm'.
Proof.
  intros Hs [Hl Hw]. destruct Hs as [lm txn table key mode lm' rc H0 Hn Ha|lm txn|lm txn table key mode|lm txn].
  - split; [by eapply lock_acquire_inv|]. by rewrite (lock_acquire_waits _ _ _ _ _ _ _ Ha).
  - split; [by apply lock_release_inv|done].
  - unfold lock_wait_add. destruct (find_wait (waits lm) txn 0) as [i|].
    + split; [done|]. simpl. unfold blen in *. by rewrite length_insert.
    + destruct (Z.leb_spec LOCK_MAX_WAITS (blen (waits lm))); split; simpl; try done.
      rewrite blen_app. change (blen [_]) with 1. lia.
  - unfold lock_wait_clear. destruct (find_wait (waits lm) txn 0) as [i|]; [|by split].
    destruct (waits lm !! _) as [l|]; split; simpl; try done.
    unfold blen in *. rewrite length_take, length_insert. lia.
Qed.

Lemma lm_reachable_inv lm : lm_reachable lm -> lm_inv lm.
Proof.
  intros Hr. assert (Hi : lm_inv lock_init).
  { split; [split|]; try (intros; set_solver); done. }
  revert Hi. unfold lm_reachable in Hr. induction Hr as [|a b c Hab _ IH]; eauto using lm_step_inv.
Qed.

(** C10. Mutual exclusion: after any history of acquisitions, releases and wait
    bookkeeping, when a transaction holds an object in exclusive mode no other
    transaction holds it in any mode. *)
Theorem lock_mutual_exclusion (lm : LockManager) (e f : LockEntry) :
  lm_reachable lm -> e ∈ entries lm -> f ∈ entries lm -> le_txn e <> 0 -> le_txn f <> 0 ->
  le_table e = le_table f -> le_key e = le_key f -> le_mode e = LOCK_X -> le_txn e = le_txn f.
Proof.
  intros Hr He Hf He0 Hf0 Ht Hk HX. apply lm_reachable_inv in Hr as [Hl _].
  destruct (decide (le_txn e = le_txn f)) as [|Hne]; [done|].
  destruct (li_excl _ Hl e f) as [HS _]; congruence.
Qed.

Lemma lock_mutual_exclusion_witness :
  exists lm e f, lm_reachable lm /\ e ∈ entries lm /\ f ∈ entries lm /\ le_mode e = LOCK_X /\ le_txn e = le_txn f.
Proof.
  set (lm1 := fst (lock_acquire lock_init 1 "users" 0 LOCK_X)).
  set (lm2 := fst (lock_acquire lm1 2 "users" 0 LOCK_S)).
  assert (Hr : lm_reachable lm2).
  { apply (rtc_l _ _ lm1); [|apply rtc_once].
    - eapply (step_acquire _ 1 "users" 0 LOCK_X lm1 0); [lia|vm_compute; reflexivity..].
    - eapply (step_acquire _ 2 "users" 0 LOCK_S lm2 (-1)); [lia|vm_compute; reflexivity..]. }
  exists lm2, (mkEntry 1 "users" 0 LOCK_X), (mkEntry 1 "users" 0 LOCK_X).
  assert (Hin : mkEntry 1 "users" 0 LOCK_X ∈ entries lm2) by (vm_compute; constructor).
  split; [exact Hr|]. split; [exact Hin|]. split; [exact Hin|]. split; [reflexivity|].
  apply (lock_mutual_exclusion lm2 _ _ Hr Hin Hin); simpl; try reflexivity; lia.
Defined.

Definition conflict_with (txn : Z) (mode : LockMode) (e : LockEntry) : Prop :=
  le_txn e <> txn /\ (mode = LOCK_X \/ le_mode e = LOCK_X).

(** [lock_acquire] on a reachable manager: it succeeds exactly when no other
    holder conflicts (unless the 256-entry table is full and a new entry is needed);
    on success the caller holds the object, in exclusive mode if it asked for it,
    and on failure nothing changes. *)
Theorem lock_acquire_correct (lm lm' : LockManager) (txn : Z) (table : string) (key : Z) (mode : LockMode) (rc : Z) :
  lm_reachable lm -> 0 < txn -> name_ok table -> lock_acquire lm txn table key mode = (lm', rc) ->
  (rc = 0 /\ (exists e, e ∈ entries lm' /\ holds e table key /\ le_txn e = txn /\ (mode = LOCK_X -> le_mode e = LOCK_X)) /\
   (forall e, e ∈ entries lm -> holds e table key -> ~ conflict_with txn mode e)) \/
  (rc = -1 /\ lm' = lm /\
   ((exists e, e ∈ entries lm /\ holds e table key /\ conflict_with txn mode e) \/ blen (entries lm) = LOCK_MAX)).
Proof.
  intros Hr H0 Hn. apply lm_reachable_inv in Hr as [Hl _]. unfold lock_acquire.
  destruct (scan_entries (entries lm) txn table key) as [[mine os] ox] eqn:Hscan.
  pose proof Hscan as (Hm & Hs & Hx)%scan_entries_spec.
  assert (Hconf : mode = LOCK_X -> os || ox = true -> exists e, e ∈ entries lm /\ holds e table key /\ conflict_with txn mode e).
  { intros HX [Ho|Ho]%orb_true_iff; [apply Hs in Ho|apply Hx in Ho]; destruct Ho as (e & He & Hh & Hne & _);
      exists e; split; [done| |done|]; split; try done; split; auto. }
  destruct mine as [i|]; simpl.
  - destruct Hm as (e & Hi & Hh & He). rewrite Hi. simpl.
    assert (Hie : e ∈ entries lm) by (eapply list_elem_of_lookup_2; eauto).
    destruct (bool_decide (mode = LOCK_S) || bool_decide (le_mode e = LOCK_X)) eqn:E1.
    + intros [= <- <-]. left. split; [done|]. apply orb_true_iff in E1. rewrite !bool_decide_eq_true in E1. split.
      * exists e. do 3 (split; [done|]). intros ->. by destruct E1.
      * intros f Hf Hhf [Hne Hc]. destruct Hh as (H1 & H2 & H3), Hhf as (H4 & H5 & H6).
        destruct (li_excl _ Hl e f) as [He' Hf']; try congruence. destruct E1 as [->|E1], Hc as [Hc|Hc]; congruence.
    + apply orb_false_iff in E1. rewrite !bool_decide_eq_false in E1. destruct E1 as [E1 E2].
      assert (mode = LOCK_X) as -> by (destruct mode; done).
      destruct (os || ox) eqn:Eo; intros [= <- <-]; [right; auto|]. left. split; [done|].
      apply orb_false_iff in Eo as [-> ->]. simpl. split.
      * exists (set_mode e LOCK_X). split; [|by destruct Hh].
        eapply list_elem_of_lookup_2. apply list_lookup_insert_eq. by eapply lookup_lt_Some.
      * intros f Hf Hhf [Hne _]. destruct Hne. by eapply scan_no_others.
  - destruct (bool_decide (mode = LOCK_X) && (os || ox)) eqn:E1.
    { intros [= <- <-]. apply andb_true_iff in E1 as [->%bool_decide_eq_true Eo]. right. auto. }
    destruct (bool_decide (mode = LOCK_S) && ox) eqn:E2.
    { intros [= <- <-]. apply andb_true_iff in E2 as [->%bool_decide_eq_true ->]. right. split; [done|]. split; [done|].
      left. destruct Hx as [Hx _]. destruct (Hx eq_refl) as (e & He & Hh & Hne & HX). exists e.
      split; [done|]. split; [done|]. split; auto. }
    assert (Hnc : forall f, f ∈ entries lm -> holds f table key -> ~ conflict_with txn mode f).
    { intros f Hf Hhf [Hne Hc]. destruct mode.
      - rewrite bool_decide_eq_true_2 in E2 by done. simpl in E2. subst ox.
        destruct Hc as [Hc|Hc]; [done|]. rewrite (scan_others_S _ _ _ _ _ _ Hscan f) in Hc; done.
      - rewrite bool_decide_eq_true_2 in E1 by done. simpl in E1. apply orb_false_iff in E1 as [-> ->].
        destruct Hne. by eapply scan_no_others. }
    set (ne := mkEntry txn (copy_name table) key mode).
    assert (Hne : holds ne table key) by (split; simpl; [lia|done]).
    destruct (first_free (entries lm) 0) as [i|] eqn:Ef.
    + intros [= <- <-]. left. split; [done|]. split; [|done]. exists ne. split; [|done]. simpl.
      apply first_free_spec in Ef as (_ & e & He & _). rewrite Nat.sub_0_r in He.
      eapply list_elem_of_lookup_2. apply list_lookup_insert_eq. by eapply lookup_lt_Some.
    + destruct (Z.leb_spec LOCK_MAX (blen (entries lm))) as [Hge|Hlt]; intros [= <- <-].
      * right. split; [done|]. split; [done|]. right. pose proof (li_len _ Hl). lia.
      * left. split; [done|]. split; [|done]. exists ne. split; [|done]. simpl. set_solver.
Qed.

Lemma lock_acquire_correct_witness :
  exists lm' rc, lock_acquire lock_init 7 "orders" 0 LOCK_X = (lm', rc) /\
  ((rc = 0 /\ (exists e, e ∈ entries lm' /\ holds e "orders" 0 /\ le_txn e = 7 /\ (LOCK_X = LOCK_X -> le_mode e = LOCK_X)) /\
   (forall e, e ∈ entries lock_init -> holds e "orders" 0 -> ~ conflict_with 7 LOCK_X e)) \/
  (rc = -1 /\ lm' = lock_init /\
   ((exists e, e ∈ entries lock_init /\ holds e "orders" 0 /\ conflict_with 7 LOCK_X e) \/ blen (entries lock_init) = LOCK_MAX))).
Proof.
  exists (fst (lock_acquire lock_init 7 "orders" 0 LOCK_X)), 0. split; [vm_compute; reflexivity|].
  apply (lock_acquire_correct lock_init _ 7 "orders" 0 LOCK_X 0); [apply rtc_refl|lia|vm_compute; reflexivity..].
Defined.

(** ** The wait-for graph *)

(** [edge lm t u]: transaction [t] has a wait record and [u] holds the awaited
    object in a conflicting mode. *)
Definition edge (lm : LockManager) (t u : Z) : Prop :=
  exists i w e, find_wait (waits lm) t 0 = Some i /\ waits lm !! i = Some w /\ e ∈ entries lm /\
    le_txn e = u /\ u <> 0 /\ u <> t /\ le_key e = lw_key w /\ le_table e = lw_table w /\ conflicts w e = true.

Definition is_target (txn : Z) (w : LockWait) (e : LockEntry) : Prop :=
  le_txn e <> 0 /\ le_txn e <> txn /\ le_key e = lw_key w /\ le_table e = lw_table w /\ conflicts w e = true.

Lemma target_step_spec txn w max out e :
  blen out < max ->
  (forall u, u ∈ target_step txn w max out e <-> u ∈ out \/ (u = le_txn e /\ is_target txn w e)) /\
  blen (target_step txn w max out e) <= blen out + 1.
Proof.
  intros Hmax. unfold target_step, is_target.
  destruct (Z.eqb_spec (le_txn e) 0); simpl; [split; [naive_solver|lia]|].
  destruct (Z.eqb_spec (le_txn e) txn); simpl; [split; [naive_solver|lia]|].
  destruct (Z.eqb_spec (le_key e) (lw_key w)); simpl; [|split; [naive_solver|lia]].
  case_bool_decide as Ht; simpl; [|split; [naive_solver|lia]].
  destruct (conflicts w e) eqn:Ec; simpl; [|split; [naive_solver|lia]].
  case_bool_decide as Hin; [split; [naive_solver|lia]|].
  destruct (Z.ltb_spec (blen out) max); [|lia]. rewrite blen_app. change (blen [_]) with 1.
  split; [|lia]. intros u. rewrite elem_of_app, list_elem_of_singleton. naive_solver.
Qed.

Lemma wait_targets_spec lm txn u :
  blen (entries lm) <= LOCK_MAX -> u ∈ wait_targets lm txn LOCK_MAX <-> edge lm txn u.
Proof.
  intros Hlen. unfold wait_targets, edge.
  destruct (find_wait (waits lm) txn 0) as [i|]; simpl; [|split; [set_solver|naive_solver]].
  destruct (waits lm !! i) as [w|] eqn:Hw; [|split; [set_solver|naive_solver]].
  assert (Hf : forall es, blen es <= LOCK_MAX ->
    (u ∈ foldl (target_step txn w LOCK_MAX) [] es <-> exists e, e ∈ es /\ le_txn e = u /\ is_target txn w e) /\
    blen (foldl (target_step txn w LOCK_MAX) [] es) <= blen es).
  { induction es as [|e es IH] using rev_ind; intros Hes.
    - simpl. split; [|done]. split; [set_solver|]. intros (e & He & _). set_solver.
    - rewrite blen_app in Hes. change (blen [e]) with 1 in Hes. destruct IH as [IH1 IH2]; [lia|].
      rewrite foldl_app. simpl. rewrite blen_app. change (blen [e]) with 1.
      destruct (target_step_spec txn w LOCK_MAX (foldl (target_step txn w LOCK_MAX) [] es) e) as [H1 H2]; [lia|].
      split; [|lia]. rewrite H1, IH1. setoid_rewrite elem_of_app. setoid_rewrite list_elem_of_singleton. naive_solver. }
  destruct (Hf _ Hlen) as [-> _]. unfold is_target. split.
  - intros (e & He & <- & Ht). exists i, w, e. naive_solver.
  - intros (i' & w' & e & Hi & Hw' & He & <- & Ht). exists e. assert (w' = w) by congruence. naive_solver.
Qed.

Lemma first_nonzero_zero {A} (f : A -> Z) l : first_nonzero f l = 0 <-> forall x, x ∈ l -> f x = 0.
Proof.
  induction l as [|x l IH]; simpl; [split; [set_solver|done]|].
  destruct (Z.eqb_spec (f x) 0) as [E|E].
  - rewrite IH. setoid_rewrite elem_of_cons. naive_solver.
  - split; [done|]. intros H. apply H. set_solver.
Qed.

Lemma first_nonzero_some {A} (f : A -> Z) l :
  first_nonzero f l <> 0 -> exists x, x ∈ l /\ first_nonzero f l = f x /\ f x <> 0.
Proof.
  induction l as [|x l IH]; simpl; [done|]. destruct (Z.eqb_spec (f x) 0) as [E|E].
  - intros (y & Hy & ? & ?)%IH. exists y. set_solver.
  - intros _. exists x. set_solver.
Qed.

Lemma dfs_sound fuel lm txn path :
  blen (entries lm) <= LOCK_MAX -> (forall x, x ∈ path -> tc (edge lm) x txn) ->
  dfs_cycle fuel lm txn path <> 0 -> tc (edge lm) (dfs_cycle fuel lm txn path) (dfs_cycle fuel lm txn path).
Proof.
  intros Hlen. revert txn path. induction fuel as [|fuel IH]; intros txn path Hp; simpl; [done|].
  case_bool_decide as Hin; [auto|]. destruct (LOCK_MAX_WAITS <=? blen path); [done|].
  intros (t & Ht & -> & Hnz)%first_nonzero_some. apply wait_targets_spec in Ht; [|done]. apply IH; [|done].
  intros x [Hx|Hx%list_elem_of_singleton]%elem_of_app; [|subst; by constructor]. eapply tc_r; eauto.
Qed.

Lemma tc_edge_nonzero lm x y : tc (edge lm) x y -> y <> 0.
Proof. induction 1 as [x y H|]; [|done]. by destruct H as (i & w & e & _ & _ & _ & _ & Hu & _). Qed.

Fixpoint walk (lm : LockManager) (t : Z) (l : list Z) : Prop :=
  match l with [] => True | u :: r => edge lm t u /\ walk lm u r end.

Lemma dfs_zero_nodup lm l : forall fuel t path,
  blen (entries lm) <= LOCK_MAX -> dfs_cycle fuel lm t path = 0 -> t <> 0 -> walk lm t l ->
  blen path + blen l <= LOCK_MAX_WAITS -> (length l < fuel)%nat -> NoDup path -> NoDup (path ++ t :: l).
Proof.
  induction l as [|u r IH]; intros fuel t path Hlen Hd H0 Hw Hb Hf Hnd; (destruct fuel as [|fuel]; [lia|]); simpl in Hd;
    (case_bool_decide as Hin; [done|]).
  - apply list.NoDup_app. split; [done|]. split; [set_solver|]. apply NoDup_singleton.
  - destruct Hw as [He Hw]. unfold blen in Hb; simpl in Hb, Hf.
    destruct (Z.leb_spec LOCK_MAX_WAITS (blen path)) as [Hge|_]; [unfold blen, LOCK_MAX_WAITS in *; lia|].
    rewrite first_nonzero_zero in Hd. apply wait_targets_spec in He as Ht; [|done].
    replace (path ++ t :: u :: r) with ((path ++ [t]) ++ u :: r) by (by rewrite <- app_assoc).
    apply (IH fuel); try done.
    + by apply Hd.
    + destruct He as (i & w & e & _ & _ & _ & _ & Hu & _). done.
    + rewrite blen_app. unfold blen. simpl. lia.
    + lia.
    + apply list.NoDup_app. split; [done|]. split; [set_solver|]. apply NoDup_singleton.
Qed.

(** A vertex on a cycle starts walks of every length, all of whose vertices wait. *)
Lemma cycle_walk lm t n :
  tc (edge lm) t t -> forall x, tc (edge lm) t x -> tc (edge lm) x t ->
  exists l, length l = n /\ walk lm x l /\ forall y, y ∈ x :: l -> exists z, edge lm y z.
Proof.
  intros Hc. induction n as [|n IH]; intros x Htx Hxt.
  - exists []. split; [done|]. split; [done|]. intros y Hy. apply list_elem_of_singleton in Hy as ->.
    destruct Hxt as [a b Hab|a b c Hab _]; eauto.
  - assert (Hnext : exists u, edge lm x u /\ tc (edge lm) t u /\ tc (edge lm) u t).
    { destruct Hxt as [x t Hxt|x u t Hxu Hut]; [exists t|exists u]; split; try done. split; [by eapply tc_r|done]. }
    destruct Hnext as (u & Hxu & Htu & Hut). destruct (IH u Htu Hut) as (l & Hl & Hw & Hy).
    exists (u :: l). split; [simpl; lia|]. split; [done|].
    intros y [->|Hyl]%elem_of_cons; eauto.
Qed.

Lemma find_wait_elem ws txn k i : find_wait ws txn k = Some i -> txn ∈ (lw_txn <$> ws).
Proof.
  revert k. induction ws as [|w ws IH]; intros k; simpl; [done|].
  destruct (Z.eqb_spec (lw_txn w) txn) as [->|]; [intros; apply elem_of_cons; by left|].
  intros H. apply elem_of_cons. right. eauto.
Qed.

(** C22. Deadlock detection is exact: on every reachable manager
    [lock_deadlock_victim] returns a transaction lying on a cycle of the wait-for
    graph when there is one, and 0 when the graph has no cycle (the depth bound of
    the search never hides a deadlock). *)
Theorem lock_deadlock_victim_exact (lm : LockManager) :
  lm_reachable lm ->
  (lock_deadlock_victim lm <> 0 -> tc (edge lm) (lock_deadlock_victim lm) (lock_deadlock_victim lm)) /\
  ((exists t, tc (edge lm) t t) -> lock_deadlock_victim lm <> 0).
Proof.
  intros [Hl Hw]%lm_reachable_inv. pose proof (li_len _ Hl) as Hlen. unfold lock_deadlock_victim. split.
  - intros (w & Hin & -> & Hnz)%first_nonzero_some. apply dfs_sound; [done|set_solver|done].
  - intros (t & Ht) Hz. rewrite first_nonzero_zero in Hz.
    destruct (cycle_walk lm t 64 Ht t Ht Ht) as (l & Hll & Hwalk & Hall).
    assert (Hwait : forall y, y ∈ t :: l -> y ∈ (lw_txn <$> waits lm)).
    { intros y Hy. destruct (Hall y Hy) as (z & i & w & e & Hf & _). eapply find_wait_elem; eauto. }
    assert (Hnd : NoDup ([] ++ t :: l)).
    { pose proof (Hwait t ltac:(set_solver)) as (w & Htw & Hw')%list_elem_of_fmap. subst t.
      apply (dfs_zero_nodup lm l dfs_fuel); try done; [by apply Hz|by eapply tc_edge_nonzero| | |constructor].
      - unfold blen. rewrite Hll. done.
      - rewrite Hll. unfold dfs_fuel. lia. }
    pose proof (NoDup_submseteq _ _ Hnd Hwait) as Hsub. apply submseteq_length in Hsub.
    rewrite length_fmap in Hsub. simpl in Hsub. unfold blen, LOCK_MAX_WAITS in Hw. lia.
Qed.

(** Two transactions that each wait for the other's exclusive lock. *)
Definition deadlocked : LockManager :=
  let lm1 := fst (lock_acquire lock_init 1 "a" 0 LOCK_X) in
  let lm2 := fst (lock_acquire lm1 2 "b" 0 LOCK_X) in
  lock_wait_add (lock_wait_add lm2 1 "b" 0 LOCK_X) 2 "a" 0 LOCK_S.

Lemma lock_deadlock_victim_exact_witness :
  lm_reachable deadlocked /\ lock_deadlock_victim deadlocked = 1 /\ tc (edge deadlocked) 1 1.
Proof.
  set (lm1 := fst (lock_acquire lock_init 1 "a" 0 LOCK_X)).
  set (lm2 := fst (lock_acquire lm1 2 "b" 0 LOCK_X)).
  assert (Hr : lm_reachable deadlocked).
  { apply (rtc_l _ _ lm1); [|apply (rtc_l _ _ lm2); [|apply (rtc_l _ _ (lock_wait_add lm2 1 "b" 0 LOCK_X)); [|apply rtc_once]]].
    - apply (step_acquire _ 1 "a" 0 LOCK_X lm1 0); [lia|vm_compute; reflexivity..].
    - apply (step_acquire _ 2 "b" 0 LOCK_X lm2 0); [lia|vm_compute; reflexivity..].
    - apply step_wait_add.
    - apply step_wait_add. }
  split; [exact Hr|]. assert (Hv : lock_deadlock_victim deadlocked = 1) by (vm_compute; reflexivity).
  split; [exact Hv|].
  pose proof (proj1 (lock_deadlock_victim_exact deadlocked Hr)) as H. rewrite Hv in H. apply H. lia.
Defined.

(** Exclusive entries survive other acquisitions, and releases by others. *)
Lemma lock_acquire_keeps_X lm txn table key mode lm' rc e :
  lock_acquire lm txn table key mode = (lm', rc) -> e ∈ entries lm -> le_txn e <> 0 -> le_mode e = LOCK_X ->
  e ∈ entries lm'.
Proof.
  intros Ha He H0 HX. apply list_elem_of_lookup in He as [j Hj].
  assert (Hkeep : forall i e0 e', entries lm !! i = Some e0 -> e0 <> e -> e ∈ <[i := e']> (entries lm)).
  { intros i e0 e' Hi Hne. apply list_elem_of_lookup_2 with j. rewrite list_lookup_insert_ne; [done|]. intros ->. congruence. }
  assert (Hj' := list_elem_of_lookup_2 _ _ _ Hj). unfold lock_acquire in Ha.
  destruct (scan_entries (entries lm) txn table key) as [[mine os] ox] eqn:Hscan.
  destruct mine as [i|]; simpl in Ha.
  - destruct (entries lm !! i) as [e0|] eqn:Hi; simpl in Ha.
    + destruct (bool_decide (mode = LOCK_S) || bool_decide (le_mode e0 = LOCK_X)) eqn:E; [by simplify_eq|].
      apply orb_false_iff in E as [_ E%bool_decide_eq_false]. destruct (os || ox); simplify_eq/=; [done|].
      apply (Hkeep _ _ _ Hi). congruence.
    + pose proof Hscan as (Hm & _)%scan_entries_spec. destruct Hm as (e0 & Hi' & _). congruence.
  - destruct (bool_decide (mode = LOCK_X) && (os || ox)); [by simplify_eq|].
    destruct (bool_decide (mode = LOCK_S) && ox); [by simplify_eq|].
    destruct (first_free (entries lm) 0) as [i|] eqn:Ef.
    + apply first_free_spec in Ef as (_ & e0 & Hi & Hz). rewrite Nat.sub_0_r in Hi. simplify_eq/=.
      apply (Hkeep _ _ _ Hi). congruence.
    + destruct (LOCK_MAX <=? blen (entries lm)); simplify_eq/=; set_solver.
Qed.

Lemma lock_release_keeps lm txn e : e ∈ entries lm -> le_txn e <> txn -> e ∈ entries (lock_release_all lm txn).
Proof.
  intros He Hne. simpl. apply list_elem_of_fmap. exists e. split; [|done]. unfold clear_txn.
  by rewrite (proj2 (Z.eqb_neq _ _) Hne).
Qed.

(** What the callers in the executor need from [lock_acquire]. *)
Lemma lock_acquire_X lm txn table key lm' rc :
  lm_reachable lm -> 0 < txn -> name_ok table -> lock_acquire lm txn table key LOCK_X = (lm', rc) ->
  lm_reachable lm' /\
  ((rc = 0 /\ (exists e, e ∈ entries lm' /\ holds e table key /\ le_txn e = txn /\ le_mode e = LOCK_X) /\
    (forall e, e ∈ entries lm -> holds e table key -> le_txn e = txn)) \/ (rc = -1 /\ lm' = lm)).
Proof.
  intros Hr H0 Hn Ha. split.
  - eapply rtc_r; [exact Hr|]. eapply step_acquire; eauto. lia.
  - pose proof Ha as Ha2. unfold lock_acquire in Ha2.
    apply lm_reachable_inv in Hr as [Hl _].
    destruct (scan_entries (entries lm) txn table key) as [[mine os] ox] eqn:Hscan.
    pose proof Hscan as (Hm & Hs & Hx)%scan_entries_spec.
    assert (Hno : os || ox = false -> forall e, e ∈ entries lm -> holds e table key -> le_txn e = txn).
    { intros [-> ->]%orb_false_iff. eapply scan_no_others; eauto. }
    destruct mine as [i|]; simpl in Ha2.
    + destruct Hm as (e & Hi & Hh & He). rewrite Hi in Ha2. simpl in Ha2. case_bool_decide as EX.
      * simplify_eq. left. split; [done|]. assert (e ∈ entries lm') by (eapply list_elem_of_lookup_2; eauto).
        split; [by exists e|]. intros f Hf Hhf. destruct (decide (le_txn f = le_txn e)) as [|Hne]; [done|].
        destruct Hh as (? & ? & ?), Hhf as (? & ? & ?). destruct (li_excl _ Hl e f) as [HS _]; congruence.
      * destruct (os || ox) eqn:Eo; simplify_eq; [by right|]. left. split; [done|]. split; [|by apply Hno].
        exists (set_mode e LOCK_X). simpl. split; [|done]. eapply list_elem_of_lookup_2. apply list_lookup_insert_eq.
        by eapply lookup_lt_Some.
    + destruct (os || ox) eqn:Eo; simpl in Ha2; [simplify_eq; by right|].
      set (ne := mkEntry txn (copy_name table) key LOCK_X) in *.
      assert (Hne : holds ne table key) by (split; simpl; [lia|done]).
      destruct (first_free (entries lm) 0) as [i|] eqn:Ef.
      * apply first_free_spec in Ef as (_ & e & He & _). rewrite Nat.sub_0_r in He. simplify_eq.
        left. split; [done|]. split; [|by apply Hno]. exists ne. split; [|done]. simpl.
        eapply list_elem_of_lookup_2. apply list_lookup_insert_eq. by eapply lookup_lt_Some.
      * destruct (LOCK_MAX <=? blen (entries lm)); simplify_eq; [by right|].
        left. split; [done|]. split; [|by apply Hno]. exists ne. split; [|done]. simpl. set_solver.
Qed.
