(* ===== verification/Mvcc.v ===== *)
(** * Transaction status log and the visibility rule (src/src/mvcc.c)

    [TxnLog.status] is an array indexed by transaction id; [txnlog_init] zeroes it,
    so an id never written reads [TXN_INPROGRESS]. *)
From S2P Require Import Prelude.

Inductive TxnStatus := TXN_INPROGRESS | TXN_COMMITTED | TXN_ABORTED.

#[export] Instance TxnStatus_eq_dec : EqDecision TxnStatus.
Proof. solve_decision. Defined.

Definition TXN_MAX : Z := 65536.

Record TxnLog := mkTxnLog { status : gmap Z TxnStatus }.

Definition txnlog_init : TxnLog := mkTxnLog ∅.

Definition txn_valid (txn : Z) : bool := (0 <? txn) && (txn <? TXN_MAX).

Definition txnlog_set (log : TxnLog) (txn : Z) (s : TxnStatus) : TxnLog :=
  if txn_valid txn then mkTxnLog (<[txn := s]> (status log)) else log.

Definition txnlog_begin (log : TxnLog) (txn : Z) : TxnLog := txnlog_set log txn TXN_INPROGRESS.
Definition txnlog_commit (log : TxnLog) (txn : Z) : TxnLog := txnlog_set log txn TXN_COMMITTED.
Definition txnlog_abort (log : TxnLog) (txn : Z) : TxnLog := txnlog_set log txn TXN_ABORTED.

Definition txnlog_status (log : TxnLog) (txn : Z) : TxnStatus :=
  if txn_valid txn then default TXN_INPROGRESS (status log !! txn) else TXN_INPROGRESS.

Definition mvcc_visible (log : TxnLog) (xmin xmax : Z) : bool :=
  if decide (txnlog_status log xmin <> TXN_COMMITTED) then false
  else if decide (xmax <> 0 /\ txnlog_status log xmax = TXN_COMMITTED) then false
  else true.

Lemma txn_valid_spec txn : txn_valid txn = true <-> 0 < txn < TXN_MAX.
Proof. unfold txn_valid. rewrite andb_true_iff, !Z.ltb_lt. done. Qed.

Lemma txnlog_status_set_eq log txn s : 0 < txn < TXN_MAX -> txnlog_status (txnlog_set log txn s) txn = s.
Proof.
  intros H%txn_valid_spec. unfold txnlog_status, txnlog_set. rewrite H. simpl. by rewrite lookup_insert_eq.
Qed.

Lemma txnlog_status_set_ne log txn s x : x <> txn -> txnlog_status (txnlog_set log txn s) x = txnlog_status log x.
Proof.
  intros H. unfold txnlog_status, txnlog_set. destruct (txn_valid txn); [|done]. simpl.
  by rewrite lookup_insert_ne by done.
Qed.

Lemma txnlog_status_set_range log txn s x :
  ~ 0 < txn < TXN_MAX -> txnlog_status (txnlog_set log txn s) x = txnlog_status log x.
Proof.
  intros H. unfold txnlog_set. destruct (txn_valid txn) eqn:E; [|done]. by apply txn_valid_spec in E.
Qed.

Lemma txnlog_status_oob log txn : ~ 0 < txn < TXN_MAX -> txnlog_status log txn = TXN_INPROGRESS.
Proof.
  intros H. unfold txnlog_status. destruct (txn_valid txn) eqn:E; [|done]. by apply txn_valid_spec in E.
Qed.

#[export] Hint Rewrite txnlog_status_set_eq txnlog_status_set_ne using lia : db.
