(* ===== verification/Txn.v ===== *)
(** * Sessions, snapshots and the transaction shell of the executor (src/src/db.c)

    [Database] keeps what decides isolation: the sessions with their snapshots,
    the lock manager, the transaction log, the id counter and, for every table,
    the transaction that has uncommitted writes on it.  [db_exec] is the shell
    around a statement: id allocation, locking, autocommit and rollback.  What the
    statement itself does to the storage is in the storage components; here its
    body contributes its return code and the point at which it fails. *)
From stdpp Require Import strings.
From S2P Require Import Prelude Lock Mvcc.

Definition DB_MAX_SESSIONS : nat := 8.
Definition DB_MAX_TABLES : Z := 16.

Record DbSession := mkSession {
  in_txn : bool;
  s_txn : Z;
  snap_next : Z;
  snap_inprog : list Z }.

Record Database := mkDb {
  sessions : list DbSession;
  cur_session : nat;
  lm : LockManager;
  cur_txn : Z;
  next_txn : Z;
  committed_below : Z;
  txnlog : TxnLog;
  tables : gmap string Z (* table name to writer_txn *) }.

Definition no_session : DbSession := mkSession false 0 0 [].

Definition session (db : Database) (k : nat) : DbSession := default no_session (sessions db !! k).
Definition cur (db : Database) : DbSession := session db (cur_session db).

(** Field updates of [Database]. *)
Definition with_session (db : Database) (k : nat) (s : DbSession) : Database :=
  mkDb (<[k := s]> (sessions db)) (cur_session db) (lm db) (cur_txn db) (next_txn db) (committed_below db) (txnlog db) (tables db).
Definition with_cur_session (db : Database) (k : nat) : Database :=
  mkDb (sessions db) k (lm db) (cur_txn db) (next_txn db) (committed_below db) (txnlog db) (tables db).
Definition with_lm (db : Database) (l : LockManager) : Database :=
  mkDb (sessions db) (cur_session db) l (cur_txn db) (next_txn db) (committed_below db) (txnlog db) (tables db).
Definition with_cur_txn (db : Database) (t : Z) : Database :=
  mkDb (sessions db) (cur_session db) (lm db) t (next_txn db) (committed_below db) (txnlog db) (tables db).
Definition with_next_txn (db : Database) (t : Z) : Database :=
  mkDb (sessions db) (cur_session db) (lm db) (cur_txn db) t (committed_below db) (txnlog db) (tables db).
Definition with_txnlog (db : Database) (l : TxnLog) : Database :=
  mkDb (sessions db) (cur_session db) (lm db) (cur_txn db) (next_txn db) (committed_below db) l (tables db).
Definition with_tables (db : Database) (t : gmap string Z) : Database :=
  mkDb (sessions db) (cur_session db) (lm db) (cur_txn db) (next_txn db) (committed_below db) (txnlog db) t.

(** ** Visibility *)

Definition txn_committed_view (db : Database) (txn : Z) : bool :=
  if txn <=? 0 then false
  else if txn <? committed_below db then true
  else if decide (txnlog_status (txnlog db) txn <> TXN_COMMITTED) then false
  else let s := cur db in
       if in_txn s then
         if snap_next s <=? txn then false
         else negb (bool_decide (txn ∈ snap_inprog s))
       else true.

Definition row_visible (db : Database) (xmin xmax my_txn : Z) : bool :=
  if negb ((xmin =? my_txn) || txn_committed_view db xmin) then false
  else if negb (xmax =? 0) && ((xmax =? my_txn) || txn_committed_view db xmax) then false
  else true.

(** [rec_visible] on a record whose MVCC header holds [xmin] and [xmax]. *)
Definition rec_visible (db : Database) (xmin xmax : Z) : bool := row_visible db xmin xmax (cur_txn db).

Definition rec_dead (db : Database) (xmax : Z) : bool := negb (xmax =? 0) && txn_committed_view db xmax.

(** ** Transaction control *)

(** Only the tables the transaction wrote change; their storage effect is the
    commit or undo of each table's log. *)
Definition release_tables (db : Database) (txn : Z) : Database :=
  with_tables db ((fun w => if w =? txn then 0 else w) <$> tables db).
Definition txn_commit_tables (db : Database) (txn : Z) : Database := release_tables db txn.
Definition txn_abort_tables (db : Database) (txn : Z) : Database := release_tables db txn.

Definition table_begin_write (db : Database) (t : string) (txn : Z) : Database :=
  with_tables db (<[t := txn]> (tables db)).

Definition others_in_progress (db : Database) : list Z :=
  omap (fun '(i, s) => if negb (Nat.eqb i (cur_session db)) && in_txn s then Some (s_txn s) else None)
       (imap pair (sessions db)).

Definition exec_begin (db : Database) : Database * Z :=
  if in_txn (cur db) then (db, -1)
  else
    let t := next_txn db in
    let db1 := with_txnlog (with_next_txn db (t + 1)) (txnlog_begin (txnlog db) t) in
    let db2 := with_cur_txn db1 t in
    (with_session db2 (cur_session db2) (mkSession true t (next_txn db2) (others_in_progress db2)), 0).

Definition end_session (s : DbSession) : DbSession :=
  mkSession false (s_txn s) (snap_next s) (snap_inprog s).

Definition exec_commit (db : Database) : Database * Z :=
  let s := cur db in
  if negb (in_txn s) then (db, -1)
  else
    let db1 := txn_commit_tables db (s_txn s) in
    let db2 := with_txnlog db1 (txnlog_commit (txnlog db1) (s_txn s)) in
    let db3 := with_lm db2 (lock_release_all (lm db2) (s_txn s)) in
    (with_cur_txn (with_session db3 (cur_session db3) (end_session s)) 0, 0).

Definition exec_rollback (db : Database) : Database * Z :=
  let s := cur db in
  if negb (in_txn s) then (db, -1)
  else
    let db1 := txn_abort_tables db (s_txn s) in
    let db2 := with_txnlog db1 (txnlog_abort (txnlog db1) (s_txn s)) in
    let db3 := with_lm db2 (lock_release_all (lm db2) (s_txn s)) in
    (with_cur_txn (with_session db3 (cur_session db3) (end_session s)) 0, 0).

(** ** Statements *)

Inductive stmt :=
| STMT_CREATE (table : string) | STMT_CREATE_INDEX | STMT_INSERT (table : string)
| STMT_SELECT | STMT_DELETE (table : string) | STMT_UPDATE (table : string)
| STMT_BEGIN | STMT_COMMIT | STMT_ROLLBACK
| STMT_VACUUM (table : option string) | STMT_ANALYZE | STMT_SESSION (n : Z).

(** Where the body of a statement stops: before the table's write transaction is
    opened, after it with an error, or successfully. *)
Inductive outcome := FailEarly | FailLate | Done.

Definition is_write (st : stmt) : bool :=
  match st with
  | STMT_INSERT _ | STMT_DELETE _ | STMT_UPDATE _ | STMT_VACUUM _ | STMT_CREATE _ => true
  | _ => false
  end.

Definition is_create (st : stmt) : bool := match st with STMT_CREATE _ => true | _ => false end.

Definition lock_one (db : Database) (table : string) (mode : LockMode) (txn : Z) : Database * Z :=
  let '(l, rc) := lock_acquire (lm db) txn table 0 mode in (with_lm db l, rc).

Definition acquire_stmt_locks (db : Database) (st : stmt) (txn : Z) : Database * Z :=
  match st with
  | STMT_INSERT t | STMT_DELETE t | STMT_UPDATE t => lock_one db t LOCK_X txn
  | _ => (db, 0)
  end.

(** INSERT, DELETE and UPDATE: the table must exist, then (unless a check fails
    first) its write transaction is opened. *)
Definition exec_dml (db : Database) (t : string) (o : outcome) : Database * Z :=
  match tables db !! t with
  | None => (db, -1)
  | Some _ =>
      match o with
      | FailEarly => (db, -1)
      | FailLate => (table_begin_write db t (cur_txn db), -1)
      | Done => (table_begin_write db t (cur_txn db), 0)
      end
  end.

Definition exec_create (db : Database) (t : string) (o : outcome) : Database * Z :=
  match tables db !! t with
  | Some _ => (db, -1)
  | None =>
      if DB_MAX_TABLES <=? Z.of_nat (size (tables db)) then (db, -1)
      else match o with
           | Done => (table_begin_write (with_tables db (<[t := 0]> (tables db))) t (cur_txn db), 0)
           | _ => (db, -1)
           end
  end.

Definition vacuum_table (db : Database) (t : string) (o : outcome) : Database * Z :=
  (table_begin_write db t (cur_txn db), match o with Done => 0 | _ => -1 end).

Definition exec_vacuum (db : Database) (t : option string) (o : outcome) : Database * Z :=
  if existsb in_txn (sessions db) then (db, -1)
  else match t with
       | Some t => match tables db !! t with None => (db, -1) | Some _ => vacuum_table db t o end
       | None =>
           (* every table in turn; a failure is reported by the last one reached *)
           if decide (tables db = ∅) then (db, 0)
           else (with_tables db ((fun _ => cur_txn db) <$> tables db), match o with Done => 0 | _ => -1 end)
       end.

Definition exec_session (db : Database) (n : Z) : Database * Z :=
  if (n <? 0) || (Z.of_nat DB_MAX_SESSIONS <=? n) then (db, -1) else (with_cur_session db (Z.to_nat n), 0).

Definition exec_body (db : Database) (st : stmt) (o : outcome) : Database * Z :=
  match st with
  | STMT_CREATE t => exec_create db t o
  | STMT_INSERT t | STMT_DELETE t | STMT_UPDATE t => exec_dml db t o
  | STMT_BEGIN => exec_begin db
  | STMT_COMMIT => exec_commit db
  | STMT_ROLLBACK => exec_rollback db
  | STMT_VACUUM t => exec_vacuum db t o
  | STMT_SESSION n => exec_session db n
  | STMT_CREATE_INDEX | STMT_SELECT | STMT_ANALYZE => (db, match o with Done => 0 | _ => -1 end)
  end.

Definition txn_of (s : DbSession) : Z := if in_txn s then s_txn s else 0.

Definition db_exec (db : Database) (st : stmt) (o : outcome) : Database * Z :=
  let sess := cur db in
  if is_write st then
    let autocommit := negb (in_txn sess) || is_create st in
    let '(db1, stmt_txn) :=
      if autocommit then
        (with_txnlog (with_next_txn db (next_txn db + 1)) (txnlog_begin (txnlog db) (next_txn db)), next_txn db)
      else (db, s_txn sess) in
    let db2 := with_cur_txn db1 stmt_txn in
    let '(db3, lrc) := acquire_stmt_locks db2 st stmt_txn in
    if negb (lrc =? 0) then
      let db4 := if autocommit then
                   let d := with_txnlog db3 (txnlog_abort (txnlog db3) stmt_txn) in
                   with_lm d (lock_release_all (lm d) stmt_txn)
                 else db3 in
      (with_cur_txn db4 (txn_of sess), -1)
    else
      let '(db4, rc) := exec_body db3 st o in
      if autocommit then
        let db5 := if rc =? 0
                   then let d := txn_commit_tables db4 stmt_txn in with_txnlog d (txnlog_commit (txnlog d) stmt_txn)
                   else let d := txn_abort_tables db4 stmt_txn in with_txnlog d (txnlog_abort (txnlog d) stmt_txn) in
        (with_cur_txn (with_lm db5 (lock_release_all (lm db5) stmt_txn)) (txn_of sess), rc)
      else (db4, rc)
  else
    exec_body (with_cur_txn db (txn_of sess)) st o.

(** Opening: [catalog] is the transaction counter and the tables the catalog file
    holds, if there is one. *)
Definition db_open (catalog : option (Z * list string)) : Database :=
  let nt := match catalog with Some (nt, _) => if 1 <? nt then nt else 1 | None => 1 end in
  mkDb (replicate DB_MAX_SESSIONS no_session) 0 lock_init 0 nt nt txnlog_init
       (match catalog with Some (_, ts) => list_to_map ((fun t => (t, 0)) <$> ts) | None => ∅ end).

(** [catalog_write]: the part of the catalog file that concerns transactions. *)
Definition catalog_write (db : Database) : Z * list string := (next_txn db, (map_to_list (tables db)).*1).

(** ** Effect of a statement on the fields that decide visibility *)

Definition open_txn (db : Database) (k : nat) (t : Z) : Prop :=
  exists s, sessions db !! k = Some s /\ in_txn s = true /\ s_txn s = t.

Definition same_log_except (l l' : TxnLog) (t : Z) : Prop :=
  forall x, x <> t -> txnlog_status l' x = txnlog_status l x.

(** Every statement is one of four kinds of step. *)
Inductive core_step (db db' : Database) : Prop :=
| core_same :
    sessions db' = sessions db -> next_txn db' = next_txn db -> txnlog db' = txnlog db -> core_step db db'
| core_auto :
    sessions db' = sessions db -> next_txn db' = next_txn db + 1 ->
    same_log_except (txnlog db) (txnlog db') (next_txn db) -> core_step db db'
| core_begin s :
    sessions db !! cur_session db = Some s -> in_txn s = false ->
    sessions db' = <[cur_session db := mkSession true (next_txn db) (next_txn db + 1) (others_in_progress db)]> (sessions db) ->
    next_txn db' = next_txn db + 1 -> txnlog db' = txnlog_begin (txnlog db) (next_txn db) -> core_step db db'
| core_end s st :
    sessions db !! cur_session db = Some s -> in_txn s = true ->
    sessions db' = <[cur_session db := end_session s]> (sessions db) ->
    next_txn db' = next_txn db -> txnlog db' = txnlog_set (txnlog db) (s_txn s) st -> core_step db db'.

Definition wf_sessions (db : Database) : Prop :=
  length (sessions db) = DB_MAX_SESSIONS /\ (cur_session db < DB_MAX_SESSIONS)%nat.

Lemma cur_lookup db : wf_sessions db -> sessions db !! cur_session db = Some (cur db).
Proof.
  intros [Hl Hc]. unfold cur, session. destruct (lookup_lt_is_Some_2 (sessions db) (cur_session db)) as [s Hs]; [lia|].
  by rewrite Hs.
Qed.

Lemma same_log_set l t s s' : same_log_except l (txnlog_set (txnlog_set l t s) t s') t.
Proof. intros x Hx. by rewrite !txnlog_status_set_ne by done. Qed.

(** Bodies of write statements touch only tables. *)
Lemma exec_body_write db st o db' rc :
  is_write st = true -> exec_body db st o = (db', rc) -> exists ts, db' = with_tables db ts.
Proof.
  assert (Hid : exists ts, db = with_tables db ts) by (exists (tables db); by destruct db).
  destruct st as [t| |t| |t|t| | | |t| |n]; simpl; try discriminate; intros _;
    unfold exec_create, exec_dml, exec_vacuum, vacuum_table, table_begin_write; intros H;
    repeat case_match; simplify_eq/=; eauto.
Qed.

Lemma acquire_stmt_locks_db db st txn db' rc :
  acquire_stmt_locks db st txn = (db', rc) -> exists l, db' = with_lm db l.
Proof.
  assert (Hid : exists l, db = with_lm db l) by (exists (lm db); by destruct db).
  destruct st; simpl; unfold lock_one; intros H; repeat case_match; simplify_eq; eauto.
Qed.

Lemma exec_body_control db st o db' rc :
  wf_sessions db -> is_write st = false -> exec_body db st o = (db', rc) ->
  core_step db db' /\ committed_below db' = committed_below db /\ wf_sessions db'.
Proof.
  intros Hwf Hw. pose proof (cur_lookup _ Hwf) as Hcur. destruct Hwf as [Hl Hc].
  assert (Hsame : core_step db db) by (by apply core_same).
  destruct st as [t| |t| |t|t| | | |t| |n]; simpl in *; try discriminate; try (intros [= <- _]; done).
  - unfold exec_begin. destruct (in_txn (cur db)) eqn:E; intros [= <- _]; [done|].
    split; [eapply core_begin; eauto|]. split; [done|]. split; simpl; [by rewrite length_insert|done].
  - unfold exec_commit. destruct (in_txn (cur db)) eqn:E; simpl; intros [= <- _]; [|done].
    split; [eapply core_end; eauto; done|]. split; [done|]. split; simpl; [by rewrite length_insert|done].
  - unfold exec_rollback. destruct (in_txn (cur db)) eqn:E; simpl; intros [= <- _]; [|done].
    split; [eapply core_end; eauto; done|]. split; [done|]. split; simpl; [by rewrite length_insert|done].
  - unfold exec_session. destruct ((n <? 0) || (Z.of_nat DB_MAX_SESSIONS <=? n)) eqn:E; intros [= <- _]; [done|].
    apply orb_false_iff in E as [E1%Z.ltb_ge E2%Z.leb_gt]. split; [by apply core_same|]. split; [done|].
    split; simpl; [done|lia].
Qed.

Lemma db_exec_core db st o db' rc :
  wf_sessions db -> db_exec db st o = (db', rc) ->
  core_step db db' /\ committed_below db' = committed_below db /\ wf_sessions db'.
Proof.
  intros Hwf. unfold db_exec. destruct (is_write st) eqn:Ew.
  2: { intros H. apply (exec_body_control (with_cur_txn db (txn_of (cur db)))) in H; [|done..].
       destruct H as (Hc & Hcb & Hw). split; [|done]. destruct Hc; [eapply core_same|eapply core_auto|eapply core_begin|eapply core_end]; eauto. }
  destruct (negb (in_txn (cur db)) || is_create st) eqn:Ea.
  - destruct (acquire_stmt_locks _ st (next_txn db)) as [db3 lrc] eqn:El.
    apply acquire_stmt_locks_db in El as [l ->]. destruct (negb (lrc =? 0)).
    + intros [= <- _]. split; [|done]. apply core_auto; [done..|]. simpl. apply same_log_set.
    + destruct (exec_body _ st o) as [db4 rc4] eqn:Eb. apply exec_body_write in Eb as [ts ->]; [|done].
      destruct (rc4 =? 0); intros [= <- _]; (split; [|done]); apply core_auto; try done; simpl; apply same_log_set.
  - destruct (acquire_stmt_locks _ st _) as [db3 lrc] eqn:El. apply acquire_stmt_locks_db in El as [l ->].
    destruct (negb (lrc =? 0)); [intros [= <- _]; split; [by apply core_same|done]|].
    destruct (exec_body _ st o) as [db4 rc4] eqn:Eb. apply exec_body_write in Eb as [ts ->]; [|done].
    intros [= <- _]. split; [by apply core_same|done].
Qed.

(** ** Invariant of the sessions *)

Record db_inv (db : Database) : Prop := {
  di_wf : wf_sessions db;
  di_ids : 1 <= committed_below db <= next_txn db;
  di_open : forall k s, sessions db !! k = Some s -> in_txn s = true ->
      committed_below db <= s_txn s < snap_next s /\ snap_next s <= next_txn db /\
      txnlog_status (txnlog db) (s_txn s) = TXN_INPROGRESS;
  di_distinct : forall j k s r, sessions db !! j = Some s -> sessions db !! k = Some r -> j <> k ->
      in_txn s = true -> in_txn r = true -> s_txn s <> s_txn r;
  di_snap : forall j k s r, sessions db !! j = Some s -> sessions db !! k = Some r -> j <> k ->
      in_txn s = true -> in_txn r = true -> s_txn s < snap_next r -> s_txn s ∈ snap_inprog r }.

Lemma others_in_progress_spec db k s :
  sessions db !! k = Some s -> k <> cur_session db -> in_txn s = true -> s_txn s ∈ others_in_progress db.
Proof.
  intros Hk Hne Ho. unfold others_in_progress. apply list_elem_of_omap. exists (k, s). split.
  - apply list_elem_of_lookup_2 with k. by rewrite list_lookup_imap, Hk.
  - rewrite (proj2 (Nat.eqb_neq _ _) Hne), Ho. done.
Qed.

Lemma core_step_inv db db' :
  db_inv db -> core_step db db' -> committed_below db' = committed_below db -> wf_sessions db' -> db_inv db'.
Proof.
  intros [Hwf Hids Hopen Hdist Hsnap] Hc Hcb Hwf'. destruct Hwf as [Hl Hcs].
  assert (Hlt : forall s, sessions db !! cur_session db = Some s -> (cur_session db < length (sessions db))%nat)
    by (intros s Hs; eapply lookup_lt_Some; eauto).
  destruct Hc as [Hs Hn Hlog|Hs Hn Hlog|s0 H0 Hc0 Hs Hn Hlog|s0 st H0 Hc0 Hs Hn Hlog].
  - split; rewrite ?Hcb, ?Hs, ?Hn, ?Hlog; try done.
  - split; rewrite ?Hcb, ?Hs, ?Hn; try done; try lia. intros k s Hk Ho. destruct (Hopen k s Hk Ho) as (H1 & H2 & H3).
    split; [done|]. split; [lia|]. rewrite Hlog by lia. done.
  - specialize (Hlt _ H0).
    assert (Hcase : forall k s, sessions db' !! k = Some s ->
       (k = cur_session db /\ s = mkSession true (next_txn db) (next_txn db + 1) (others_in_progress db)) \/
       (k <> cur_session db /\ sessions db !! k = Some s)).
    { intros k s Hk. rewrite Hs in Hk. destruct (decide (k = cur_session db)) as [->|Hne].
      - rewrite list_lookup_insert_eq in Hk by done. left. by simplify_eq.
      - rewrite list_lookup_insert_ne in Hk by done. by right. }
    split; rewrite ?Hcb, ?Hn, ?Hlog; try done; try lia.
    + intros k s [[-> ->]|[Hne Hk]]%Hcase Ho; simpl.
      * split; [lia|]. split; [lia|]. unfold txnlog_begin.
        destruct (decide (0 < next_txn db < TXN_MAX)); [by apply txnlog_status_set_eq|by apply txnlog_status_oob].
      * destruct (Hopen k s Hk Ho) as (H1 & H2 & H3). split; [done|]. split; [lia|].
        unfold txnlog_begin. rewrite txnlog_status_set_ne by lia. done.
    + intros j k s r [[-> ->]|[Hj Hsj]]%Hcase [[-> ->]|[Hk Hsk]]%Hcase Hjk Ho Hp; simpl; try done.
      * destruct (Hopen k r Hsk Hp). lia.
      * destruct (Hopen j s Hsj Ho). lia.
      * by apply (Hdist j k).
    + intros j k s r [[-> ->]|[Hj Hsj]]%Hcase [[-> ->]|[Hk Hsk]]%Hcase Hjk Ho Hp; simpl; try done.
      * destruct (Hopen k r Hsk Hp). lia.
      * intros _. by eapply others_in_progress_spec.
      * by apply (Hsnap j k).
  - specialize (Hlt _ H0).
    assert (Hcase : forall k s, sessions db' !! k = Some s -> in_txn s = true -> k <> cur_session db /\ sessions db !! k = Some s).
    { intros k s Hk Ho. rewrite Hs in Hk. destruct (decide (k = cur_session db)) as [->|Hne].
      - rewrite list_lookup_insert_eq in Hk by done. by simplify_eq.
      - by rewrite list_lookup_insert_ne in Hk by done. }
    split; rewrite ?Hcb, ?Hn; try done; try lia.
    + intros k s Hk Ho. destruct (Hcase _ _ Hk Ho) as [Hne Hk']. destruct (Hopen k s Hk' Ho) as (H1 & H2 & H3).
      split; [done|]. split; [done|]. rewrite Hlog, txnlog_status_set_ne; [done|]. by apply (Hdist k (cur_session db)).
    + intros j k s r Hj Hk Hjk Ho Hp. destruct (Hcase _ _ Hj Ho), (Hcase _ _ Hk Hp). by apply (Hdist j k).
    + intros j k s r Hj Hk Hjk Ho Hp. destruct (Hcase _ _ Hj Ho), (Hcase _ _ Hk Hp). by apply (Hsnap j k).
Qed.

Definition db_step (db db' : Database) : Prop := exists st o rc, db_exec db st o = (db', rc).

Lemma db_step_inv db db' : db_inv db -> db_step db db' -> db_inv db'.
Proof.
  intros Hi (st & o & rc & He). destruct (db_exec_core _ _ _ _ _ (di_wf _ Hi) He) as (Hc & Hcb & Hw).
  eapply core_step_inv; eauto.
Qed.

Lemma db_steps_inv db db' : db_inv db -> rtc db_step db db' -> db_inv db'.
Proof. intros Hi Hr. induction Hr; eauto using db_step_inv. Qed.

Lemma db_open_inv catalog : db_inv (db_open catalog).
Proof.
  assert (Hnone : forall k s, replicate DB_MAX_SESSIONS no_session !! k = Some s -> in_txn s = false).
  { intros k s [-> _]%lookup_replicate. done. }
  split; simpl.
  - split; simpl; [done|unfold DB_MAX_SESSIONS; lia].
  - destruct catalog as [[nt ts]|]; [|lia]. destruct (Z.ltb_spec 1 nt); lia.
  - intros k s Hk Ho. by rewrite (Hnone _ _ Hk) in Ho.
  - intros j k s r Hj _ _ Ho. by rewrite (Hnone _ _ Hj) in Ho.
  - intros j k s r Hj _ _ Ho. by rewrite (Hnone _ _ Hj) in Ho.
Qed.

(** A transaction id that is finished: issued, and not that of an open session. *)
Definition settled (db : Database) (x : Z) : Prop := x < next_txn db /\ forall k, ~ open_txn db k x.

Lemma settled_core db db' x :
  db_inv db -> core_step db db' -> settled db x ->
  settled db' x /\ txnlog_status (txnlog db') x = txnlog_status (txnlog db) x.
Proof.
  intros Hi Hc [Hx Hno]. pose proof (di_wf _ Hi) as [Hl Hcs].
  destruct Hc as [Hs Hn Hlog|Hs Hn Hlog|s0 H0 Hc0 Hs Hn Hlog|s0 st H0 Hc0 Hs Hn Hlog]; unfold settled, open_txn in *; rewrite Hs, Hn.
  - by rewrite Hlog.
  - split; [split; [lia|done]|]. apply Hlog. lia.
  - split; [split; [lia|]|rewrite Hlog; apply txnlog_status_set_ne; lia].
    intros k (s & Hk & Ho & Ht). destruct (decide (k = cur_session db)) as [->|Hne].
    + rewrite list_lookup_insert_eq in Hk by (apply lookup_lt_Some in H0; done). simplify_eq/=. lia.
    + rewrite list_lookup_insert_ne in Hk by done. apply (Hno k). eauto.
  - split; [split; [done|]|rewrite Hlog; apply txnlog_status_set_ne; intros ->; apply (Hno (cur_session db)); eauto].
    intros k (s & Hk & Ho & Ht). destruct (decide (k = cur_session db)) as [->|Hne].
    + rewrite list_lookup_insert_eq in Hk by (apply lookup_lt_Some in H0; done). by simplify_eq/=.
    + rewrite list_lookup_insert_ne in Hk by done. apply (Hno k). eauto.
Qed.

Lemma settled_steps db db' x :
  db_inv db -> rtc db_step db db' -> settled db x ->
  settled db' x /\ txnlog_status (txnlog db') x = txnlog_status (txnlog db) x.
Proof.
  intros Hi Hr. induction Hr as [|a b c Hab Hbc IH]; [done|]. intros Hs.
  pose proof Hab as (st & o & rc & He). destruct (db_exec_core _ _ _ _ _ (di_wf _ Hi) He) as (Hc & _ & _).
  destruct (settled_core _ _ _ Hi Hc Hs) as [Hs' Hlog].
  destruct (IH (db_step_inv _ _ Hi Hab) Hs') as [? Hlog']. split; [done|]. by rewrite Hlog'.
Qed.

(** While a transaction stays open its session record, snapshot included, does not change. *)
Lemma open_core db db' k s :
  db_inv db -> core_step db db' -> sessions db !! k = Some s -> in_txn s = true ->
  sessions db' !! k = Some s \/ settled db' (s_txn s).
Proof.
  intros Hi Hc Hk Ho. destruct (di_open _ Hi _ _ Hk Ho) as (H1 & H2 & _).
  destruct Hc as [Hs Hn Hlog|Hs Hn Hlog|s0 H0 Hc0 Hs Hn Hlog|s0 st H0 Hc0 Hs Hn Hlog]; unfold settled, open_txn; rewrite Hs, Hn; auto.
  - left. rewrite list_lookup_insert_ne; [done|]. intros <-. congruence.
  - destruct (decide (k = cur_session db)) as [->|Hne]; [right|left; by rewrite list_lookup_insert_ne by done].
    split; [lia|]. intros j (r & Hj & Hr & Ht). destruct (decide (j = cur_session db)) as [->|Hne].
    + rewrite list_lookup_insert_eq in Hj by (apply lookup_lt_Some in H0; done). by simplify_eq/=.
    + rewrite list_lookup_insert_ne in Hj by done. by apply (di_distinct _ Hi j (cur_session db) r s).
Qed.

Lemma open_steps db db' k s :
  db_inv db -> rtc db_step db db' -> sessions db !! k = Some s -> in_txn s = true ->
  sessions db' !! k = Some s \/ settled db' (s_txn s).
Proof.
  intros Hi Hr. induction Hr as [|a b c Hab Hbc IH]; [by left|]. intros Hk Ho.
  pose proof Hab as (st & o & rc & He). destruct (db_exec_core _ _ _ _ _ (di_wf _ Hi) He) as (Hc & _ & _).
  pose proof (db_step_inv _ _ Hi Hab) as Hib. destruct (open_core _ _ _ _ Hi Hc Hk Ho) as [Hk'|Hs]; [auto|].
  right. by apply (settled_steps _ _ _ Hib Hbc).
Qed.

Lemma committed_below_steps db db' : db_inv db -> rtc db_step db db' -> committed_below db' = committed_below db.
Proof.
  intros Hi Hr. induction Hr as [|a b c Hab Hbc IH]; [done|]. pose proof Hab as (st & o & rc & He).
  destruct (db_exec_core _ _ _ _ _ (di_wf _ Hi) He) as (_ & Hcb & _). rewrite IH; eauto using db_step_inv.
Qed.

(** A sequence of statements, and the state it leads to. *)
Fixpoint run (db : Database) (l : list (stmt * outcome)) : Database :=
  match l with [] => db | (st, o) :: r => run (fst (db_exec db st o)) r end.

Lemma run_steps db l : rtc db_step db (run db l).
Proof.
  revert db. induction l as [|[st o] l IH]; intros db; simpl; [done|].
  eapply rtc_l; [|apply IH]. exists st, o, (snd (db_exec db st o)). by destruct (db_exec db st o).
Qed.

(** What session [k] sees of a version stamped [xmin], [xmax]. *)
Definition view (db : Database) (k : nat) (xmin xmax : Z) : bool :=
  row_visible (with_cur_session db k) xmin xmax (txn_of (session db k)).

Lemma committed_view_stable db db' k s x :
  db_inv db -> rtc db_step db db' -> sessions db !! k = Some s -> sessions db' !! k = Some s ->
  in_txn s = true -> x <> s_txn s ->
  txn_committed_view (with_cur_session db' k) x = txn_committed_view (with_cur_session db k) x.
Proof.
  intros Hi Hr Hk Hk' Ho Hx. unfold txn_committed_view. simpl. rewrite (committed_below_steps _ _ Hi Hr).
  unfold cur, session. simpl. rewrite Hk, Hk'. simpl. rewrite Ho.
  destruct (x <=? 0); [done|]. destruct (x <? committed_below db); [done|].
  destruct (Z.leb_spec (snap_next s) x) as [Hge|Hlt]; [by do 2 destruct (decide _)|].
  destruct (decide (x ∈ snap_inprog s)) as [Hin|Hin].
  { rewrite bool_decide_eq_true_2 by done. by do 2 destruct (decide _). }
  assert (Hs : settled db x).
  { destruct (di_open _ Hi _ _ Hk Ho) as (_ & Hsn & _). split; [lia|]. intros j (r & Hj & Hro & <-).
    destruct (decide (j = k)) as [->|Hne]; [congruence|]. apply Hin. by eapply (di_snap _ Hi j k). }
  destruct (settled_steps _ _ _ Hi Hr Hs) as [_ ->]. done.
Qed.

Definition demo_pre : list (stmt * outcome) :=
  [(STMT_CREATE "t", Done); (STMT_INSERT "t", Done); (STMT_BEGIN, Done); (STMT_SESSION 1, Done); (STMT_BEGIN, Done)].
Definition demo_post : list (stmt * outcome) :=
  [(STMT_UPDATE "t", Done); (STMT_COMMIT, Done); (STMT_SESSION 2, Done); (STMT_DELETE "t", Done); (STMT_SESSION 0, Done)].

(** No dirty reads: the versions an open transaction of another session
    created are invisible to session [k], and its deletions are ignored. *)
Theorem no_dirty_read (catalog : option (Z * list string)) (db : Database) (j k : nat) (t xmin xmax : Z) :
  rtc db_step (db_open catalog) db -> open_txn db j t -> j <> k -> (k < DB_MAX_SESSIONS)%nat ->
  view db k t xmax = false /\ view db k xmin t = view db k xmin 0.
Proof.
  intros H0 (s & Hj & Ho & <-) Hne Hk. pose proof (db_steps_inv _ _ (db_open_inv catalog) H0) as Hi.
  destruct (di_open _ Hi _ _ Hj Ho) as (H1 & H2 & H3). pose proof (di_ids _ Hi).
  destruct (lookup_lt_is_Some_2 (sessions db) k) as [r Hr]; [rewrite (proj1 (di_wf _ Hi)); done|].
  assert (Hcv : txn_committed_view (with_cur_session db k) (s_txn s) = false).
  { unfold txn_committed_view. simpl. rewrite H3. destruct (Z.leb_spec (s_txn s) 0); [done|].
    destruct (Z.ltb_spec (s_txn s) (committed_below db)); [lia|]. done. }
  assert (Hmine : (s_txn s =? txn_of r) = false).
  { apply Z.eqb_neq. unfold txn_of. destruct (in_txn r) eqn:Er; [|lia]. by apply (di_distinct _ Hi j k). }
  unfold view, row_visible, session. rewrite Hr. simpl. rewrite Hmine, Hcv. simpl.
  split; [done|]. rewrite andb_false_r. done.
Qed.

Lemma no_dirty_read_witness :
  let db := run (db_open None) (demo_pre ++ [(STMT_INSERT "t", Done)]) in
  view db 0 4 0 = false /\ view db 0 2 4 = view db 0 2 0.
Proof.
  intros db. apply (no_dirty_read None db 1 0 4 2 0); [apply run_steps| |lia|unfold DB_MAX_SESSIONS; lia].
  eexists. split; [vm_compute; reflexivity|split; vm_compute; reflexivity].
Defined.

Lemma session_insert_ne (db : Database) (k : nat) s j :
  j <> k -> default no_session (<[k := s]> (sessions db) !! j) = session db j.
Proof. intros H. unfold session. by rewrite list_lookup_insert_ne. Qed.

(** C23. COMMIT publishes and ROLLBACK hides: after COMMIT of transaction [t], every
    session outside a transaction sees the versions [t] created, provided
    [t < TXN_MAX]; after ROLLBACK nobody sees them, and [t]'s deletions count for
    nobody.  (From id [TXN_MAX] on a commit is not recorded and its rows stay
    invisible to everyone.) *)
Theorem commit_rollback_visibility (catalog : option (Z * list string)) (db dbc dbr : Database) (o : outcome) (t rc rc' : Z) :
  rtc db_step (db_open catalog) db -> open_txn db (cur_session db) t ->
  db_exec db STMT_COMMIT o = (dbc, rc) -> db_exec db STMT_ROLLBACK o = (dbr, rc') ->
  rc = 0 /\ rc' = 0 /\
  (forall j, in_txn (session dbc j) = false -> view dbc j t 0 = (t <? TXN_MAX)) /\
  (forall j xmin xmax, view dbr j t xmax = false /\ view dbr j xmin t = view dbr j xmin 0).
Proof.
  intros H0 (s & Hc & Ho & <-). pose proof (db_steps_inv _ _ (db_open_inv catalog) H0) as Hi.
  destruct (di_open _ Hi _ _ Hc Ho) as (H1 & H2 & H3). pose proof (di_ids _ Hi).
  assert (Hcur : cur db = s) by (unfold cur, session; by rewrite Hc).
  unfold db_exec. simpl. unfold exec_commit, exec_rollback.
  change (cur (with_cur_txn db (txn_of (cur db)))) with (cur db). rewrite Hcur, Ho. simpl.
  intros [= <- <-] [= <- <-]. split; [done|]. split; [done|]. split.
  - intros j Hj. match type of Hj with in_txn (session ?d j) = false => set (dbc := d) in * end.
    unfold view, row_visible, txn_of, txn_committed_view.
    change (cur (with_cur_session dbc j)) with (session dbc j). rewrite Hj.
    change (committed_below (with_cur_session dbc j)) with (committed_below db).
    change (txnlog (with_cur_session dbc j)) with (txnlog_commit (txnlog db) (s_txn s)).
    destruct (Z.eqb_spec (s_txn s) 0); [lia|]. destruct (Z.leb_spec (s_txn s) 0); [lia|].
    destruct (Z.ltb_spec (s_txn s) (committed_below db)); [lia|].
    unfold txnlog_commit. destruct (Z.ltb_spec (s_txn s) TXN_MAX) as [Hlt|Hge].
    + rewrite txnlog_status_set_eq by lia. done.
    + rewrite txnlog_status_oob by lia. done.
  - intros j xmin xmax. match goal with |- view ?d _ _ _ = false /\ _ => set (dbr := d) end. unfold view.
    assert (Hcv : txn_committed_view (with_cur_session dbr j) (s_txn s) = false).
    { unfold txn_committed_view. change (committed_below (with_cur_session dbr j)) with (committed_below db).
      change (txnlog (with_cur_session dbr j)) with (txnlog_abort (txnlog db) (s_txn s)).
      destruct (Z.leb_spec (s_txn s) 0); [done|].
      destruct (Z.ltb_spec (s_txn s) (committed_below db)); [lia|]. unfold txnlog_abort.
      destruct (decide (0 < s_txn s < TXN_MAX)); [by rewrite txnlog_status_set_eq|by rewrite txnlog_status_oob]. }
    assert (Hmine : (s_txn s =? txn_of (session dbr j)) = false).
    { apply Z.eqb_neq. unfold txn_of. destruct (in_txn (session dbr j)) eqn:Er; [|lia].
      unfold session in Er |- *. change (sessions dbr) with (<[cur_session db := end_session s]> (sessions db)) in *. destruct (decide (j = cur_session db)) as [->|Hne].
      - rewrite list_lookup_insert_eq in Er by (by eapply lookup_lt_Some). done.
      - rewrite list_lookup_insert_ne in Er |- * by done. destruct (sessions db !! j) as [r|] eqn:Hj; [|done].
        simpl in *. by apply (di_distinct _ Hi (cur_session db) j s r). }
    unfold row_visible. rewrite Hmine, Hcv. simpl. split; [done|]. by rewrite andb_false_r.
Qed.

Lemma commit_rollback_visibility_witness :
  let db := run (db_open None) (demo_pre ++ [(STMT_INSERT "t", Done)]) in
  view (fst (db_exec db STMT_COMMIT Done)) 1 4 0 = (4 <? TXN_MAX) /\ view (fst (db_exec db STMT_ROLLBACK Done)) 1 4 0 = false.
Proof.
  intros db.
  destruct (commit_rollback_visibility None db (fst (db_exec db STMT_COMMIT Done)) (fst (db_exec db STMT_ROLLBACK Done)) Done 4 0 0)
    as (_ & _ & Hc & Hr);
    [apply run_steps|eexists; split; [vm_compute; reflexivity|split; vm_compute; reflexivity]|vm_compute; reflexivity|vm_compute; reflexivity|].
  split; [apply Hc; vm_compute; reflexivity|apply (Hr 1%nat 0 0)].
Defined.

(** What a reopened database shows depends only on the transaction counter of
    the last catalog write: the versions of the ids below it are visible to every
    session, the later ones to nobody.  [catalog_write] runs at CREATE TABLE, CREATE
    INDEX, ANALYZE and close only, so rows committed after the last of them are
    invisible when the process dies before closing the database. *)
Theorem reopen_visibility (catalog : option (Z * list string)) (saved : Database) (j : nat) (t : Z) :
  rtc db_step (db_open catalog) saved -> 0 < t ->
  view (db_open (Some (catalog_write saved))) j t 0 = (t <? next_txn saved).
Proof.
  intros H0 Ht. pose proof (di_ids _ (db_steps_inv _ _ (db_open_inv catalog) H0)) as Hids.
  unfold view, row_visible, txn_committed_view. set (db := db_open _).
  assert (Hs : session db j = no_session).
  { unfold session. destruct (sessions db !! j) as [s|] eqn:E; [|done]. by apply lookup_replicate in E as [-> _]. }
  assert (Hcb : committed_below db = next_txn saved) by (cbn; destruct (Z.ltb_spec 1 (next_txn saved)); lia).
  change (cur (with_cur_session db j)) with (session db j).
  change (committed_below (with_cur_session db j)) with (committed_below db). rewrite Hs, Hcb. simpl.
  change (txn_of no_session) with 0. destruct (Z.eqb_spec t 0), (Z.leb_spec t 0); try lia. simpl.
  destruct (Z.ltb_spec t (next_txn saved)); [done|].
  assert (Hst : txnlog_status txnlog_init t = TXN_INPROGRESS) by (unfold txnlog_status; by case_match).
  rewrite Hst. done.
Qed.

(** A row inserted and committed after CREATE TABLE, before and after a crash. *)
Lemma reopen_visibility_witness :
  let saved := run (db_open None) [(STMT_CREATE "t", Done)] in
  let db := run saved [(STMT_INSERT "t", Done)] in
  view db 0 2 0 = true /\ view (db_open (Some (catalog_write saved))) 0 2 0 = (2 <? next_txn saved) /\
  view (db_open (Some (catalog_write db))) 0 2 0 = (2 <? next_txn db).
Proof.
  intros saved db. split; [vm_compute; reflexivity|].
  split; apply (reopen_visibility None); try lia; [|change db with (run (db_open None) [(STMT_CREATE "t", Done); (STMT_INSERT "t", Done)])];
    apply run_steps.
Defined.

(** ** One writer per table *)

Definition stmt_ok (st : stmt) : Prop :=
  match st with
  | STMT_CREATE t | STMT_INSERT t | STMT_DELETE t | STMT_UPDATE t | STMT_VACUUM (Some t) => name_ok t
  | _ => True
  end.

Definition ok_step (db db' : Database) : Prop := exists st o rc, stmt_ok st /\ db_exec db st o = (db', rc).

Definition x_locked (l : LockManager) (t : string) (w : Z) : Prop :=
  exists e, e ∈ entries l /\ holds e t 0 /\ le_txn e = w /\ le_mode e = LOCK_X.

Definition writers_ok (ss : list DbSession) (l : LockManager) (ts : gmap string Z) : Prop :=
  forall t w, ts !! t = Some w -> w <> 0 ->
    x_locked l t w /\ exists k s, ss !! k = Some s /\ in_txn s = true /\ s_txn s = w.

Record wr_inv (db : Database) : Prop := {
  wi_db : db_inv db;
  wi_lm : lm_reachable (lm db);
  wi_writers : writers_ok (sessions db) (lm db) (tables db) }.

Lemma release_writers ss l ts txn :
  (forall t w, ts !! t = Some w -> w <> 0 -> w <> txn ->
    x_locked l t w /\ exists k s, ss !! k = Some s /\ in_txn s = true /\ s_txn s = w) ->
  writers_ok ss (lock_release_all l txn) ((fun w => if w =? txn then 0 else w) <$> ts).
Proof.
  intros H t w Hw H0. rewrite lookup_fmap in Hw. destruct (ts !! t) as [w'|] eqn:Et; [|done].
  simpl in Hw. destruct (Z.eqb_spec w' txn) as [|Hne]; simplify_eq.
  destruct (H t w Et H0 Hne) as [(e & He & Hh & Hx & Hm) Ho]. split; [|done].
  exists e. split; [|done]. apply lock_release_keeps; [done|congruence].
Qed.

Lemma x_locked_acquire l txn table key mode l' rc t w :
  lock_acquire l txn table key mode = (l', rc) -> x_locked l t w -> x_locked l' t w.
Proof.
  intros Ha (e & He & Hh & Hw & Hm). exists e. split; [|done].
  eapply lock_acquire_keeps_X; eauto. by destruct Hh.
Qed.

(** The locking step of a statement, whatever the statement. *)
Lemma acquire_stmt_locks_writers db st txn db' rc :
  lm_reachable (lm db) -> 0 < txn -> stmt_ok st -> acquire_stmt_locks db st txn = (db', rc) ->
  lm_reachable (lm db') /\ (forall t w, x_locked (lm db) t w -> x_locked (lm db') t w) /\
  (rc = 0 -> match st with
             | STMT_INSERT t | STMT_DELETE t | STMT_UPDATE t =>
                 x_locked (lm db') t txn /\ (forall w, x_locked (lm db) t w -> w = txn)
             | _ => True end).
Proof.
  intros Hr H0 Hok Ha.
  assert (HX : forall t, name_ok t -> lock_one db t LOCK_X txn = (db', rc) ->
    lm_reachable (lm db') /\ (forall t w, x_locked (lm db) t w -> x_locked (lm db') t w) /\
    (rc = 0 -> x_locked (lm db') t txn /\ (forall w, x_locked (lm db) t w -> w = txn))).
  { intros t Ht. unfold lock_one. destruct (lock_acquire (lm db) txn t 0 LOCK_X) as [l' r] eqn:El. intros [= <- <-].
    destruct (lock_acquire_X _ _ _ _ _ _ Hr H0 Ht El) as [Hr' Hcase]. split; [done|]. split.
    - intros ? ?. by eapply x_locked_acquire.
    - intros ->. destruct Hcase as [(_ & Hx & Hall)|[? _]]; [|lia]. split; [done|].
      intros w (e & He & Hh & <- & _). eauto. }
  destruct st as [t| |t| |t|t| | | |t| |n]; simpl in *; try (by apply HX); simplify_eq; eauto.
Qed.

Lemma in_txn_existsb db : wf_sessions db -> in_txn (cur db) = true -> existsb in_txn (sessions db) = true.
Proof.
  intros Hw Ho. apply existsb_exists. exists (cur db). split; [|done].
  apply list_elem_of_In. eapply list_elem_of_lookup_2, cur_lookup, Hw.
Qed.

(** A body only makes the current transaction a writer; inside an open
    transaction, only of the table its statement names. *)
Lemma exec_body_tables db st o db' rc t w :
  is_write st = true -> exec_body db st o = (db', rc) -> tables db' !! t = Some w -> w <> 0 ->
  tables db !! t = Some w \/
  (w = cur_txn db /\
   (wf_sessions db -> in_txn (cur db) = true -> is_create st = false ->
    st = STMT_INSERT t \/ st = STMT_DELETE t \/ st = STMT_UPDATE t)).
Proof.
  assert (Hins : forall (ts : gmap string Z) t0, <[t0 := cur_txn db]> ts !! t = Some w -> w <> 0 -> t = t0 /\ w = cur_txn db \/ ts !! t = Some w).
  { intros ts t0 H. destruct (decide (t0 = t)) as [->|Hne]; [rewrite lookup_insert_eq in H|rewrite lookup_insert_ne in H by done];
      simplify_eq; auto. }
  destruct st as [t0| |t0| |t0|t0| | | |t0| |n]; simpl; try discriminate; intros _;
    unfold exec_create, exec_dml, exec_vacuum, vacuum_table, table_begin_write; intros Hb Ht Hw.
  1: repeat case_match; simplify_eq/=; try (by left); apply Hins in Ht as [[-> ->]|Ht]; [naive_solver| |done].
  1: { destruct (decide (t0 = t)) as [->|Hne]; [rewrite lookup_insert_eq in Ht; by simplify_eq|].
       rewrite lookup_insert_ne in Ht by done. by left. }
  1-3: repeat case_match; simplify_eq/=; try (by left); apply Hins in Ht as [[-> ->]|Ht]; auto.
  destruct (existsb in_txn (sessions db)) eqn:Ex; [simplify_eq; by left|].
  assert (Hno : wf_sessions db -> in_txn (cur db) = true -> False).
  { intros Hwf Ho. by rewrite in_txn_existsb in Ex. }
  destruct t0 as [t0|].
  - repeat case_match; simplify_eq/=; try (by left); apply Hins in Ht as [[-> ->]|Ht]; naive_solver.
  - case_decide; simplify_eq/=; [by left|]. rewrite lookup_fmap in Ht.
    destruct (tables db !! t); simplify_eq/=. right. naive_solver.
Qed.

Lemma writers_ok_mono ss l l' ts :
  (forall t w, x_locked l t w -> x_locked l' t w) -> writers_ok ss l ts -> writers_ok ss l' ts.
Proof. intros Hm H t w Ht Hw. destruct (H t w Ht Hw). auto. Qed.

Lemma open_lt_next db k s : db_inv db -> sessions db !! k = Some s -> in_txn s = true -> 0 < s_txn s < next_txn db.
Proof. intros Hi Hk Ho. pose proof (di_ids _ Hi). destruct (di_open _ Hi _ _ Hk Ho) as (? & ? & _). lia. Qed.

Lemma release_reachable l txn : lm_reachable l -> lm_reachable (lock_release_all l txn).
Proof. intros H. eapply rtc_r; [exact H|constructor]. Qed.

(** A write statement that autocommits leaves the other writers alone. *)
Lemma autocommit_writers db st o db' rc :
  wr_inv db -> stmt_ok st -> is_write st = true -> negb (in_txn (cur db)) || is_create st = true ->
  db_exec db st o = (db', rc) -> lm_reachable (lm db') /\ writers_ok (sessions db') (lm db') (tables db').
Proof.
  intros [Hi Hlm Hwr] Hok Hw Ha. unfold db_exec. rewrite Hw, Ha. pose proof (di_ids _ Hi).
  set (d2 := with_cur_txn _ (next_txn db)).
  destruct (acquire_stmt_locks d2 st (next_txn db)) as [db3 lrc] eqn:El.
  pose proof (acquire_stmt_locks_db _ _ _ _ _ El) as [l ->].
  destruct (acquire_stmt_locks_writers d2 _ _ _ _ Hlm (ltac:(lia) : 0 < next_txn db) Hok El) as (Hr & Hmono & _). simpl in Hr.
  assert (Hold : forall t w, tables db !! t = Some w -> w <> 0 -> x_locked l t w /\
      exists k s, sessions db !! k = Some s /\ in_txn s = true /\ s_txn s = w).
  { intros t w Ht H0. destruct (Hwr t w Ht H0). auto. }
  destruct (negb (lrc =? 0)).
  - intros [= <- _]. simpl. split; [by apply release_reachable|].
    intros t w Ht H0. destruct (Hold t w Ht H0) as [(e & He & Hh & Hx & Hm) (k & s & Hk & Ho & Hs)].
    pose proof (open_lt_next _ _ _ Hi Hk Ho). split; [|by exists k, s]. exists e. split; [|done].
    apply (lock_release_keeps (mkLM (entries l) (waits l))); [by destruct l|lia].
  - destruct (exec_body _ st o) as [db4 rc4] eqn:Eb. pose proof (exec_body_write _ _ _ _ _ Hw Eb) as [ts ->].
    assert (Hrel : writers_ok (sessions db) (lock_release_all l (next_txn db))
                     ((fun w => if w =? next_txn db then 0 else w) <$> ts)).
    { apply release_writers. intros t w Ht H0 Hne.
      destruct (exec_body_tables _ _ _ _ _ t w Hw Eb Ht H0) as [Hb|[Hb _]]; [by apply Hold|done]. }
    destruct (rc4 =? 0); intros [= <- _]; simpl; (split; [by apply release_reachable|done]).
Qed.

Lemma in_txn_writers db st o db' rc :
  wr_inv db -> stmt_ok st -> is_write st = true -> negb (in_txn (cur db)) || is_create st = false ->
  db_exec db st o = (db', rc) -> lm_reachable (lm db') /\ writers_ok (sessions db') (lm db') (tables db').
Proof.
  intros [Hi Hlm Hwr] Hok Hw Ha. unfold db_exec. rewrite Hw, Ha.
  apply orb_false_iff in Ha as [Ho%negb_false_iff Hc]. pose proof (di_wf _ Hi) as Hwf.
  pose proof (cur_lookup _ Hwf) as Hcur. pose proof (open_lt_next _ _ _ Hi Hcur Ho).
  set (d2 := with_cur_txn _ _). destruct (acquire_stmt_locks d2 st _) as [db3 lrc] eqn:El.
  pose proof (acquire_stmt_locks_db _ _ _ _ _ El) as [l ->].
  destruct (acquire_stmt_locks_writers d2 _ _ _ _ Hlm (ltac:(lia) : 0 < s_txn (cur db)) Hok El) as (Hr & Hmono & Hgot).
  pose proof (writers_ok_mono _ _ _ _ Hmono Hwr) as Hwr'.
  destruct (Z.eqb_spec lrc 0) as [->|]; simpl; [|intros [= <- _]; done].
  destruct (exec_body _ st o) as [db4 rc4] eqn:Eb. pose proof (exec_body_write _ _ _ _ _ Hw Eb) as [ts ->].
  intros [= <- _]. split; [done|]. intros t w Ht H0. simpl in Ht.
  destruct (exec_body_tables _ _ _ _ _ t w Hw Eb Ht H0) as [Hb|[-> Hst]]; [by apply Hwr'|].
  split; [|exists (cur_session db), (cur db); done].
  destruct (Hst Hwf Ho Hc) as [ -> | [-> | ->]]; by apply Hgot.
Qed.

Lemma control_writers db st o db' rc :
  wr_inv db -> is_write st = false ->
  db_exec db st o = (db', rc) -> lm_reachable (lm db') /\ writers_ok (sessions db') (lm db') (tables db').
Proof.
  intros [Hi Hlm Hwr] Hw. unfold db_exec. rewrite Hw. pose proof (di_wf _ Hi) as Hwf.
  pose proof (cur_lookup _ Hwf) as Hcur.
  assert (Hend : in_txn (cur db) = true -> writers_ok (<[cur_session db := end_session (cur db)]> (sessions db))
     (lock_release_all (lm db) (s_txn (cur db))) ((fun w => if w =? s_txn (cur db) then 0 else w) <$> tables db)).
  { intros Ho. apply release_writers. intros t w Ht H0 Hne. destruct (Hwr t w Ht H0) as [Hx (k & s & Hk & Hs & Hw0)].
    split; [done|]. exists k, s. split; [|done]. rewrite list_lookup_insert_ne; [done|]. intros <-. congruence. }
  destruct st as [t| |t| |t|t| | | |t| |n]; simpl in *; try discriminate; try (intros [= <- _]; done).
  - unfold exec_begin. change (cur (with_cur_txn db _)) with (cur db).
    destruct (in_txn (cur db)) eqn:E; intros [= <- _]; [done|]. split; [done|].
    intros t w Ht H0. destruct (Hwr t w Ht H0) as [Hx (k & s & Hk & Hs & Hw0)]. split; [done|].
    exists k, s. split; [|done]. simpl. rewrite list_lookup_insert_ne; [done|]. intros <-. congruence.
  - unfold exec_commit. change (cur (with_cur_txn db _)) with (cur db).
    destruct (in_txn (cur db)) eqn:E; simpl; intros [= <- _]; [|done]. split; [by apply release_reachable|auto].
  - unfold exec_rollback. change (cur (with_cur_txn db _)) with (cur db).
    destruct (in_txn (cur db)) eqn:E; simpl; intros [= <- _]; [|done]. split; [by apply release_reachable|auto].
  - unfold exec_session. destruct (_ || _); intros [= <- _]; done.
Qed.

Lemma ok_step_inv db db' : wr_inv db -> ok_step db db' -> wr_inv db'.
Proof.
  intros Hi (st & o & rc & Hok & He).
  assert (Hd : db_inv db') by (eapply db_step_inv; [apply Hi|by exists st, o, rc]).
  destruct (is_write st) eqn:Ew; [destruct (negb (in_txn (cur db)) || is_create st) eqn:Ea|].
  - destruct (autocommit_writers _ _ _ _ _ Hi Hok Ew Ea He). by split.
  - destruct (in_txn_writers _ _ _ _ _ Hi Hok Ew Ea He). by split.
  - destruct (control_writers _ _ _ _ _ Hi Ew He). by split.
Qed.

Lemma db_open_wr_inv catalog : wr_inv (db_open catalog).
Proof.
  split; [apply db_open_inv|apply rtc_refl|]. intros t w Ht H0. simpl in Ht.
  destruct catalog as [[nt ts]|]; [|done]. apply elem_of_list_to_map_2 in Ht.
  apply list_elem_of_fmap in Ht as (t' & [= -> ->] & _). done.
Qed.

(** First updater wins: once a transaction has uncommitted writes on a table,
    INSERT, DELETE and UPDATE on that table by anyone else fail with -1 and leave
    every table as it was. *)
Theorem single_writer (catalog : option (Z * list string)) (db db' : Database) (st : stmt) (o : outcome) (t : string) (w rc : Z) :
  rtc ok_step (db_open catalog) db -> tables db !! t = Some w -> w <> 0 -> w <> txn_of (cur db) -> name_ok t ->
  st ∈ [STMT_INSERT t; STMT_DELETE t; STMT_UPDATE t] -> db_exec db st o = (db', rc) ->
  rc = -1 /\ tables db' = tables db /\ sessions db' = sessions db.
Proof.
  intros H0 Ht Hw Hne Hn Hst.
  assert (Hi : wr_inv db).
  { pose proof (db_open_wr_inv catalog) as Hi. revert Hi. clear -H0. induction H0; eauto using ok_step_inv. }
  destruct Hi as [Hi Hlm Hwr]. destruct (Hwr t w Ht Hw) as [Hx (k & s & Hk & Ho & Hs)].
  pose proof (open_lt_next _ _ _ Hi Hk Ho). pose proof (cur_lookup _ (di_wf _ Hi)) as Hcur.
  assert (HW : is_write st = true /\ is_create st = false /\ stmt_ok st) by (clear -Hst Hn; set_solver).
  destruct HW as (HW & HC & Hok). unfold db_exec. rewrite HW, HC, orb_false_r. unfold txn_of in Hne.
  destruct (in_txn (cur db)) eqn:Ei; simpl.
  - pose proof (open_lt_next _ _ _ Hi Hcur Ei). set (d2 := with_cur_txn _ _).
    destruct (acquire_stmt_locks d2 st _) as [db3 lrc] eqn:El.
    pose proof (acquire_stmt_locks_db _ _ _ _ _ El) as [l ->].
    destruct (acquire_stmt_locks_writers d2 _ _ _ _ Hlm (ltac:(lia) : 0 < s_txn (cur db)) Hok El) as (_ & _ & Hgot).
    destruct (Z.eqb_spec lrc 0) as [->|]; simpl; [|intros [= <- <-]; done].
    exfalso. specialize (Hgot eq_refl). apply Hne.
    rewrite !elem_of_cons, elem_of_nil in Hst. destruct Hst as [ -> | [ -> | [ -> |[]]]]; by apply Hgot.
  - set (d2 := with_cur_txn _ _). pose proof (di_ids _ Hi).
    destruct (acquire_stmt_locks d2 st _) as [db3 lrc] eqn:El.
    pose proof (acquire_stmt_locks_db _ _ _ _ _ El) as [l ->].
    destruct (acquire_stmt_locks_writers d2 _ _ _ _ Hlm (ltac:(lia) : 0 < next_txn db) Hok El) as (_ & _ & Hgot).
    destruct (Z.eqb_spec lrc 0) as [->|]; simpl; [|intros [= <- <-]; done].
    exfalso. specialize (Hgot eq_refl). assert (w = next_txn db); [|lia].
    rewrite !elem_of_cons, elem_of_nil in Hst. destruct Hst as [ -> | [ -> | [ -> |[]]]]; by apply Hgot.
Qed.

(** ** A row version through the statements of all sessions

    A version of table [tb], created by [xmin], is followed through a history: its
    deletion stamp, and [saved], the stamp that a rollback of the transaction that
    is writing it restores. *)

Definition write_txn (db : Database) : Z := if in_txn (cur db) then s_txn (cur db) else next_txn db.

(** The state in which DELETE and UPDATE look at the rows, and the result of locking. *)
Definition stmt_start (db : Database) (st : stmt) : Database * Z :=
  let db1 := if in_txn (cur db) then db
             else with_txnlog (with_next_txn db (next_txn db + 1)) (txnlog_begin (txnlog db) (next_txn db)) in
  acquire_stmt_locks (with_cur_txn db1 (write_txn db)) st (write_txn db).

Definition stamps (st : stmt) (tb : string) : Prop := st = STMT_DELETE tb \/ st = STMT_UPDATE tb.

(** The statement ends the open transaction [x]. *)
Definition ends (db : Database) (st : stmt) (x : Z) : Prop :=
  (st = STMT_COMMIT \/ st = STMT_ROLLBACK) /\ in_txn (cur db) = true /\ s_txn (cur db) = x.

Record VState := mkV { vdb : Database; xmax_now : Z; saved : Z }.

(** [Stamp]: the statement sees the version and marks it deleted; a failing autocommit
    statement is undone at once, and then is a [Keep]. *)
Inductive change := Keep | Stamp | Undo.

Inductive vstep (tb : string) (xmin : Z) : VState -> change -> VState -> Prop :=
| v_keep db st o db' rc x y : stmt_ok st -> db_exec db st o = (db', rc) -> ~ ends db st x ->
    vstep tb xmin (mkV db x y) Keep (mkV db' x y)
| v_commit db o db' rc x y : db_exec db STMT_COMMIT o = (db', rc) -> ends db STMT_COMMIT x ->
    vstep tb xmin (mkV db x y) Keep (mkV db' x x)
| v_rollback db o db' rc x y : db_exec db STMT_ROLLBACK o = (db', rc) -> ends db STMT_ROLLBACK x ->
    vstep tb xmin (mkV db x y) Undo (mkV db' y y)
| v_stamp db st o db' rc d x y : stamps st tb -> db_exec db st o = (db', rc) -> stmt_start db st = (d, 0) ->
    is_Some (tables db !! tb) -> o <> FailEarly -> row_visible d xmin x (write_txn db) = true -> (in_txn (cur db) = true \/ rc = 0) ->
    vstep tb xmin (mkV db x y) Stamp (mkV db' (write_txn db) (if in_txn (cur db) then y else write_txn db)).

(** The deletion by [x] is final. *)
Definition committed (db : Database) (x : Z) : Prop :=
  0 < x /\ (x < committed_below db \/ txnlog_status (txnlog db) x = TXN_COMMITTED).

(** Steps that do not stamp over a final deletion. *)
Definition orderly (tb : string) (xmin : Z) (a : VState) (c : change) (b : VState) : Prop :=
  vstep tb xmin a c b /\ (c = Stamp -> ~ committed (vdb a) (xmax_now a)).

Lemma vstep_exec tb xmin a c b : name_ok tb -> vstep tb xmin a c b -> exists st o rc, stmt_ok st /\ db_exec (vdb a) st o = (vdb b, rc).
Proof.
  intros Hn [db st o db' rc x y Hok He _|db o db' rc x y He _|db o db' rc x y He _|db st o db' rc d x y Hst He _ _ _ _ _]; cbn;
    eexists _, _, _; (split; [|exact He]); try done. by destruct Hst as [-> | ->].
Qed.

(** DELETE and UPDATE that get their lock. *)
Lemma stamps_exec db st o db' rc d tb : stamps st tb -> db_exec db st o = (db', rc) -> stmt_start db st = (d, 0) ->
  sessions db' = sessions db /\ (in_txn (cur db) = true -> lm db' = lm d /\ next_txn db' = next_txn db /\ txnlog db' = txnlog db) /\
  (in_txn (cur db) = false -> next_txn db' = next_txn db + 1).
Proof.
  intros Hst. assert (HW : is_write st = true /\ is_create st = false) by (by destruct Hst as [-> | ->]). destruct HW as [HW HC].
  unfold db_exec, stmt_start, write_txn. rewrite HW, HC, orb_false_r. destruct (in_txn (cur db)) eqn:Ei; cbn [negb].
  - intros He Hd. rewrite Hd in He. cbn in He. destruct (exec_body d st o) as [d4 r4] eqn:Eb. apply exec_body_write in Eb as [ts ->]; [|done].
    apply acquire_stmt_locks_db in Hd as [l ->]. by injection He as <- <-.
  - intros He Hd. rewrite Hd in He. cbn in He. destruct (exec_body d st o) as [d4 r4] eqn:Eb. apply exec_body_write in Eb as [ts ->]; [|done].
    apply acquire_stmt_locks_db in Hd as [l ->]. destruct (r4 =? 0); by injection He as <- <-.
Qed.

(** The lock of an open transaction stays until its end. *)
Lemma db_exec_locked db st o db' rc j w tb : db_inv db -> open_txn db j w -> db_exec db st o = (db', rc) -> x_locked (lm db) tb w ->
  x_locked (lm db') tb w \/ ends db st w.
Proof.
  intros Hi (s & Hj & Ho & Hs). pose proof (open_lt_next _ _ _ Hi Hj Ho) as Hlt. rewrite Hs in Hlt.
  assert (Hrel : forall l t, t <> w -> x_locked l tb w -> x_locked (lock_release_all l t) tb w).
  { intros l t Hne (e & He & Hh & Hw & Hm). exists e. split; [|done]. apply lock_release_keeps; [done|congruence]. }
  assert (Hacq : forall d t d' r, acquire_stmt_locks d st t = (d', r) -> x_locked (lm d) tb w -> x_locked (lm d') tb w).
  { intros d t d' r Ha Hx. destruct st; cbn in Ha; try (by injection Ha as <- <-);
      unfold lock_one in Ha; destruct (lock_acquire _ _ _ _ _) as [l' r'] eqn:El; injection Ha as <- <-; by eapply x_locked_acquire. }
  intros He Hx. unfold db_exec in He. destruct (is_write st) eqn:Ew.
  - left. destruct (negb (in_txn (cur db)) || is_create st).
    + destruct (acquire_stmt_locks _ st (next_txn db)) as [d3 lrc] eqn:El. apply Hacq in El; [|exact Hx].
      destruct (negb (lrc =? 0)); [injection He as <- <-; apply Hrel; [lia|exact El]|].
      destruct (exec_body d3 st o) as [d4 r4] eqn:Eb. apply exec_body_write in Eb as [ts ->]; [|done].
      destruct (r4 =? 0); injection He as <- <-; (apply Hrel; [lia|exact El]).
    + destruct (acquire_stmt_locks _ st _) as [d3 lrc] eqn:El. apply Hacq in El; [|exact Hx].
      destruct (negb (lrc =? 0)); [by injection He as <- <-|].
      destruct (exec_body d3 st o) as [d4 r4] eqn:Eb. apply exec_body_write in Eb as [ts ->]; [|done]. by injection He as <- <-.
  - destruct st as [t| |t| |t|t| | | |t| |n]; cbn in Ew, He; try discriminate; try (left; by injection He as <- <-).
    + unfold exec_begin in He. left. change (cur (with_cur_txn db _)) with (cur db) in He. destruct (in_txn (cur db)); by injection He as <- <-.
    + unfold exec_commit in He. change (cur (with_cur_txn db _)) with (cur db) in He. destruct (in_txn (cur db)) eqn:E; cbn in He; injection He as <- <-; [|by left].
      destruct (decide (s_txn (cur db) = w)) as [Hw|Hw]; [right; split; [by left|done]|left; by apply Hrel].
    + unfold exec_rollback in He. change (cur (with_cur_txn db _)) with (cur db) in He. destruct (in_txn (cur db)) eqn:E; cbn in He; injection He as <- <-; [|by left].
      destruct (decide (s_txn (cur db) = w)) as [Hw|Hw]; [right; split; [by right|done]|left; by apply Hrel].
    + left. unfold exec_session in He. destruct (_ || _); by injection He as <- <-.
Qed.

Lemma write_sessions db st o db' rc : is_write st = true -> db_exec db st o = (db', rc) -> sessions db' = sessions db.
Proof.
  intros Hw. unfold db_exec. rewrite Hw. destruct (negb _ || _).
  - destruct (acquire_stmt_locks _ st _) as [d3 lrc] eqn:El. apply acquire_stmt_locks_db in El as [l ->].
    destruct (negb _); [by intros [= <- _]|]. destruct (exec_body _ st o) as [d4 r4] eqn:Eb. apply exec_body_write in Eb as [ts ->]; [|done].
    destruct (r4 =? 0); by intros [= <- _].
  - destruct (acquire_stmt_locks _ st _) as [d3 lrc] eqn:El. apply acquire_stmt_locks_db in El as [l ->].
    destruct (negb _); [by intros [= <- _]|]. destruct (exec_body _ st o) as [d4 r4] eqn:Eb. apply exec_body_write in Eb as [ts ->]; [|done].
    by intros [= <- _].
Qed.

(** A transaction stays open until a statement ends it. *)
Lemma db_exec_open db st o db' rc j w : db_inv db -> open_txn db j w -> db_exec db st o = (db', rc) -> open_txn db' j w \/ ends db st w.
Proof.
  intros Hi (s & Hj & Ho & Hs) He. pose proof (cur_lookup _ (di_wf _ Hi)) as Hcur.
  destruct (is_write st) eqn:Ew; [left; exists s; by rewrite (write_sessions _ _ _ _ _ Ew He)|].
  assert (Hend : in_txn (cur db) = true -> sessions db' = <[cur_session db := end_session (cur db)]> (sessions db) -> open_txn db' j w \/ s_txn (cur db) = w).
  { intros Hin Hss. destruct (decide (j = cur_session db)) as [->|Hne]; [right; congruence|left]. exists s. by rewrite Hss, list_lookup_insert_ne. }
  unfold db_exec in He. rewrite Ew in He. destruct st as [t| |t| |t|t| | | |t| |n]; cbn in Ew, He; try discriminate; try (left; exists s; by injection He as <- <-).
  - left. exists s. unfold exec_begin in He. change (cur (with_cur_txn db _)) with (cur db) in He. destruct (in_txn (cur db)) eqn:E; injection He as <- <-; [done|].
    cbn. rewrite list_lookup_insert_ne; [done|]. intros <-. congruence.
  - unfold exec_commit in He. change (cur (with_cur_txn db _)) with (cur db) in He. destruct (in_txn (cur db)) eqn:E; cbn in He; injection He as <- <-; [|left; by exists s].
    destruct (Hend eq_refl eq_refl); [by left|right]. split; [by left|done].
  - unfold exec_rollback in He. change (cur (with_cur_txn db _)) with (cur db) in He. destruct (in_txn (cur db)) eqn:E; cbn in He; injection He as <- <-; [|left; by exists s].
    destruct (Hend eq_refl eq_refl); [by left|right]. split; [by right|done].
  - left. exists s. unfold exec_session in He. destruct (_ || _); by injection He as <- <-.
Qed.

Lemma ended_settled db st o db' rc w : db_inv db -> db_exec db st o = (db', rc) -> ends db st w -> settled db' w.
Proof.
  intros Hi He (Hst & Hin & <-). pose proof (cur_lookup _ (di_wf _ Hi)) as Hcur. destruct (db_exec_core _ _ _ _ _ (di_wf _ Hi) He) as (Hc & _ & _).
  destruct (open_core _ _ _ _ Hi Hc Hcur Hin) as [Hk|Hs]; [exfalso|done].
  assert (Hlt : (cur_session db < length (sessions db))%nat) by (by eapply lookup_lt_Some).
  unfold db_exec in He. destruct Hst as [-> | ->]; cbn in He; unfold exec_commit, exec_rollback in He; change (cur (with_cur_txn db _)) with (cur db) in He;
    rewrite Hin in He; cbn in He; injection He as <- <-; cbn in Hk; rewrite list_lookup_insert_eq in Hk by done; injection Hk as Hk; by rewrite <- Hk in Hin.
Qed.

Lemma ends_open db st w : db_inv db -> ends db st w -> open_txn db (cur_session db) w.
Proof. intros Hi (_ & Hin & <-). exists (cur db). split; [by apply cur_lookup, Hi|done]. Qed.

Lemma open_same db j k w : db_inv db -> open_txn db j w -> open_txn db k w -> j = k.
Proof.
  intros Hi (s & Hj & Hs & <-) (r & Hk & Hr & Er). destruct (decide (j = k)) as [|Hne]; [done|]. by destruct (di_distinct _ Hi j k s r Hj Hk Hne Hs Hr).
Qed.

Lemma committed_core db db' x : db_inv db -> db_step db db' -> settled db x -> (committed db' x <-> committed db x).
Proof.
  intros Hi Hst Hs. pose proof Hst as (st & o & rc & He). destruct (db_exec_core _ _ _ _ _ (di_wf _ Hi) He) as (Hc & Hcb & _).
  unfold committed. rewrite Hcb. by destruct (settled_core _ _ _ Hi Hc Hs) as [_ ->].
Qed.

(** What is known of a version in an orderly history: a stamp that can still be undone
    is that of an open transaction, which has the table locked. *)
Record vinv (tb : string) (v : VState) : Prop := {
  vi_saved : settled (vdb v) (saved v);
  vi_now : xmax_now v = saved v \/
    (exists j, open_txn (vdb v) j (xmax_now v)) /\ x_locked (lm (vdb v)) tb (xmax_now v) /\ ~ committed (vdb v) (saved v) }.

(** The stamping statement's lock, and that it did not see its own deletions. *)
Lemma stamp_free tb db st d xmin x y : wr_inv db -> name_ok tb -> stamps st tb -> stmt_start db st = (d, 0) ->
  row_visible d xmin x (write_txn db) = true -> vinv tb (mkV db x y) ->
  0 < write_txn db /\ x_locked (lm d) tb (write_txn db) /\ x = y.
Proof.
  intros [Hi Hlm Hwr] Hn Hst Hd Hv [_ Hnow]. cbn in Hnow. pose proof (di_ids _ Hi) as Hids.
  assert (Hpos : 0 < write_txn db).
  { unfold write_txn. destruct (in_txn (cur db)) eqn:E; [|lia]. pose proof (open_lt_next _ _ _ Hi (cur_lookup _ (di_wf _ Hi)) E). lia. }
  unfold stmt_start in Hd. set (d2 := with_cur_txn _ (write_txn db)) in Hd.
  assert (Hl2 : lm d2 = lm db) by (unfold d2; by destruct (in_txn (cur db))).
  destruct (acquire_stmt_locks_writers d2 st (write_txn db) d 0) as (_ & _ & Hgot); [by rewrite Hl2|done|by destruct Hst as [-> | ->]|done|].
  assert (Hg : x_locked (lm d) tb (write_txn db) /\ forall w, x_locked (lm db) tb w -> w = write_txn db).
  { rewrite <- Hl2. destruct Hst as [-> | ->]; by apply Hgot. }
  destruct Hg as [Hx Hall]. split; [done|]. split; [done|]. destruct Hnow as [|(_ & Hlx & _)]; [done|exfalso].
  rewrite (Hall _ Hlx) in Hv. unfold row_visible in Hv. rewrite (proj2 (Z.eqb_neq (write_txn db) 0)), Z.eqb_refl in Hv by lia.
  destruct (negb _) in Hv; done.
Qed.

Lemma vinv_step tb xmin a c b : wr_inv (vdb a) -> name_ok tb -> vinv tb a -> orderly tb xmin a c b -> wr_inv (vdb b) /\ vinv tb b.
Proof.
  intros Hw Hn Hv [Hs Hord]. pose proof (wi_db _ Hw) as Hi.
  assert (Hw' : wr_inv (vdb b)).
  { destruct (vstep_exec _ _ _ _ _ Hn Hs) as (st & o & rc & Hok & He). eapply ok_step_inv; [exact Hw|]. by exists st, o, rc. }
  assert (Hset : forall x, settled (vdb a) x -> settled (vdb b) x /\ (committed (vdb b) x <-> committed (vdb a) x)).
  { intros x Hx. destruct (vstep_exec _ _ _ _ _ Hn Hs) as (st & o & rc & _ & He). destruct (db_exec_core _ _ _ _ _ (di_wf _ Hi) He) as (Hc & _ & _).
    split; [by apply (settled_core _ _ _ Hi Hc)|]. apply committed_core; [done| |done]. by exists st, o, rc. }
  split; [done|]. destruct Hv as [Hsv Hnow].
  destruct Hs as [db st o db' rc x y Hok He Hne|db o db' rc x y He Hen|db o db' rc x y He Hen|db st o db' rc d x y Hst He Hd Htb Hfo Hvis Hok]; cbn [vdb xmax_now saved] in *.
  - destruct (Hset y Hsv) as [Hs' Hc']. split; cbn; [done|]. destruct Hnow as [->|((j & Hj) & Hl & Hnc)]; [by left|right].
    split; [|split; [|by rewrite Hc']].
    + destruct (db_exec_open _ _ _ _ _ _ _ Hi Hj He); [by exists j|done].
    + by destruct (db_exec_locked _ _ _ _ _ _ _ _ Hi Hj He Hl).
  - split; cbn; [exact (ended_settled _ _ _ _ _ _ Hi He Hen)|by left].
  - split; cbn; [by apply Hset|by left].
  - destruct (stamp_free tb db st d xmin x y Hw Hn Hst Hd Hvis) as (Hpos & Hl & ->); [by split|].
    destruct (stamps_exec _ _ _ _ _ _ _ Hst He Hd) as (Hss & Hin & Hout). unfold write_txn in *. destruct (in_txn (cur db)) eqn:E.
    + destruct (Hin eq_refl) as (Hlm & _ & _). split; cbn; [by apply Hset|right]. rewrite Hlm. split; [|split; [done|]].
      * exists (cur_session db), (cur db). rewrite Hss. split; [by apply cur_lookup, Hi|done].
      * destruct (Hset y Hsv) as [_ ->]. by apply Hord.
    + split; cbn; [|by left]. split; [rewrite Hout by done; lia|]. intros k (s & Hk & Ho & Hx). rewrite Hss in Hk.
      pose proof (open_lt_next _ _ _ Hi Hk Ho). lia.
Qed.

(** Session [k], inside transaction [t], takes the stamp [x] for a deletion. *)
Definition deleted_for (db : Database) (k : nat) (t x : Z) : bool :=
  negb (x =? 0) && ((x =? t) || txn_committed_view (with_cur_session db k) x).

Lemma not_committed_view db k x : ~ committed db x -> txn_committed_view (with_cur_session db k) x = false.
Proof.
  intros Hn. unfold txn_committed_view. cbn. destruct (Z.leb_spec x 0); [done|]. destruct (Z.ltb_spec x (committed_below db)); [by destruct Hn; split; [|left]|].
  case_decide; [done|]. destruct Hn. split; [done|right]. by destruct (decide (txnlog_status (txnlog db) x = TXN_COMMITTED)).
Qed.

Lemma open_uncommitted db j w : db_inv db -> open_txn db j w -> ~ committed db w.
Proof.
  intros Hi (s & Hj & Ho & <-) [_ Hc]. destruct (di_open _ Hi _ _ Hj Ho) as (H1 & _ & H3). destruct Hc as [|Hc]; [lia|]. by rewrite H3 in Hc.
Qed.

(** A transaction that is not in the snapshot. *)
Lemma later_uncommitted db k s w : db_inv db -> sessions db !! k = Some s -> in_txn s = true -> snap_next s <= w \/ w ∈ snap_inprog s /\ committed_below db <= w ->
  txn_committed_view (with_cur_session db k) w = false.
Proof.
  intros Hi Hk Ho Hw. destruct (di_open _ Hi _ _ Hk Ho) as (H1 & H2 & _). unfold txn_committed_view, cur, session. cbn. rewrite Hk. cbn. rewrite Ho.
  destruct (w <=? 0); [done|]. destruct (Z.ltb_spec w (committed_below db)); [lia|]. case_decide; [done|].
  destruct (Z.leb_spec (snap_next s) w); [done|]. destruct Hw as [|[Hw _]]; [lia|]. by rewrite bool_decide_eq_true_2.
Qed.

Lemma deleted_stable db db' k s x : db_inv db -> rtc db_step db db' -> sessions db !! k = Some s -> sessions db' !! k = Some s -> in_txn s = true ->
  deleted_for db' k (s_txn s) x = deleted_for db k (s_txn s) x.
Proof.
  intros Hi Hr Hk Hk' Ho. unfold deleted_for. destruct (Z.eqb_spec x (s_txn s)) as [|Hne]; [done|].
  by rewrite (committed_view_stable _ _ _ _ x Hi Hr Hk Hk' Ho Hne).
Qed.

Lemma deleted_not db k t x : x <> t -> ~ committed db x -> deleted_for db k t x = false.
Proof. intros Hne Hn. unfold deleted_for. rewrite (proj2 (Z.eqb_neq _ _) Hne), not_committed_view by done. by rewrite andb_false_r. Qed.

(** One step of the version while session [k]'s transaction stays open. *)
Lemma deleted_step tb xmin a c b k s : wr_inv (vdb a) -> name_ok tb -> vinv tb a -> orderly tb xmin a c b -> (c = Stamp -> cur_session (vdb a) <> k) ->
  sessions (vdb a) !! k = Some s -> sessions (vdb b) !! k = Some s -> in_txn s = true ->
  deleted_for (vdb b) k (s_txn s) (xmax_now b) = deleted_for (vdb a) k (s_txn s) (xmax_now a).
Proof.
  intros Hw Hn Hv Hstep Hother Hk Hk' Ho. pose proof (wi_db _ Hw) as Hi. destruct (vinv_step _ _ _ _ _ Hw Hn Hv Hstep) as [Hw' Hv']. pose proof (wi_db _ Hw') as Hi'.
  destruct Hstep as [Hs Hord]. pose proof (vstep_exec _ _ _ _ _ Hn Hs) as (st0 & o0 & rc0 & _ & He0).
  assert (Hr : rtc db_step (vdb a) (vdb b)) by (apply rtc_once; by exists st0, o0, rc0).
  assert (Hopen : open_txn (vdb a) k (s_txn s)) by (by exists s). assert (Hopen' : open_txn (vdb b) k (s_txn s)) by (by exists s).
  assert (Hstab : forall x, deleted_for (vdb b) k (s_txn s) x = deleted_for (vdb a) k (s_txn s) x) by (intros x; by apply deleted_stable).
  destruct Hv as [Hsv Hnow]. destruct Hs as [db st o db' rc x y Hok He Hne|db o db' rc x y He Hen|db o db' rc x y He Hen|db st o db' rc d x y Hst He Hd Htb Hfo Hvis Hok];
    cbn [vdb xmax_now saved] in *; [apply Hstab|apply Hstab| |].
  - rewrite Hstab. pose proof (ends_open _ _ _ Hi Hen) as Hox. destruct Hnow as [->|(_ & _ & Hnc)]; [destruct Hsv as [_ Hno]; by destruct (Hno _ Hox)|].
    rewrite !deleted_not; try done.
    + intros ->. pose proof (open_same _ _ _ _ Hi Hox Hopen) as <-. destruct (ended_settled _ _ _ _ _ _ Hi He Hen) as [_ Hno]. by apply (Hno (cur_session db)).
    + by apply (open_uncommitted _ _ _ Hi Hox).
    + intros ->. destruct Hsv as [_ Hno]. by apply (Hno k).
  - destruct (stamp_free tb db st d xmin x y Hw Hn Hst Hd Hvis) as (Hpos & Hl & ->); [by split|].
    rewrite (deleted_not db k (s_txn s) y); [|intros ->; destruct Hsv as [_ Hno]; by apply (Hno k)|by apply Hord].
    destruct (stamps_exec _ _ _ _ _ _ _ Hst He Hd) as (Hss & Hin & Hout). specialize (Hother eq_refl). unfold write_txn in *. destruct (in_txn (cur db)) eqn:E.
    + assert (Hoc : open_txn db' (cur_session db) (s_txn (cur db))) by (exists (cur db); rewrite Hss; split; [by apply cur_lookup, Hi|done]).
      apply deleted_not; [|by apply (open_uncommitted _ _ _ Hi' Hoc)]. intros Heq. rewrite Heq in Hoc. by destruct (Hother (open_same _ _ _ _ Hi' Hoc Hopen')).
    + destruct (di_open _ Hi _ _ Hk Ho) as (_ & Hsn & _). pose proof (open_lt_next _ _ _ Hi Hk Ho). unfold deleted_for.
      rewrite (proj2 (Z.eqb_neq (next_txn db) (s_txn s))) by lia. rewrite (later_uncommitted _ _ _ _ Hi' Hk' Ho) by (left; lia). by rewrite andb_false_r.
Qed.

Definition v_orderly (tb : string) (xmin : Z) (a b : VState) : Prop := exists c, orderly tb xmin a c b.
(** Session [k] itself does not delete the version. *)
Definition v_others (tb : string) (xmin : Z) (k : nat) (a b : VState) : Prop :=
  exists c, orderly tb xmin a c b /\ (c = Stamp -> cur_session (vdb a) <> k).

Lemma v_orderly_inv tb xmin a b : name_ok tb -> wr_inv (vdb a) -> vinv tb a -> rtc (v_orderly tb xmin) a b -> wr_inv (vdb b) /\ vinv tb b.
Proof. intros Hn Hw Hv Hr. induction Hr as [|a b c [ch Hs] _ IH]; [done|]. destruct (vinv_step _ _ _ _ _ Hw Hn Hv Hs). by apply IH. Qed.

Lemma v_others_steps tb xmin k a b : name_ok tb -> rtc (v_others tb xmin k) a b -> rtc db_step (vdb a) (vdb b).
Proof.
  intros Hn Hr. induction Hr as [|a b c (ch & [Hs _] & _) _ IH]; [done|]. eapply rtc_l; [|exact IH].
  destruct (vstep_exec _ _ _ _ _ Hn Hs) as (st & o & rc & _ & He). by exists st, o, rc.
Qed.

Lemma deleted_steps tb xmin k s a b : name_ok tb -> wr_inv (vdb a) -> vinv tb a -> rtc (v_others tb xmin k) a b ->
  sessions (vdb a) !! k = Some s -> sessions (vdb b) !! k = Some s -> in_txn s = true ->
  deleted_for (vdb b) k (s_txn s) (xmax_now b) = deleted_for (vdb a) k (s_txn s) (xmax_now a).
Proof.
  intros Hn Hw Hv Hr. induction Hr as [|a b c (ch & Hs & Hot) Hbc IH]; [done|]. intros Hk Hk' Ho. pose proof (wi_db _ Hw) as Hi.
  destruct (vinv_step _ _ _ _ _ Hw Hn Hv Hs) as [Hw' Hv']. destruct (vstep_exec _ _ _ _ _ Hn (proj1 Hs)) as (st & o & rc & _ & He).
  assert (Hkb : sessions (vdb b) !! k = Some s).
  { destruct (db_exec_core _ _ _ _ _ (di_wf _ Hi) He) as (Hc & _ & _). destruct (open_core _ _ _ _ Hi Hc Hk Ho) as [|Hset]; [done|exfalso].
    destruct (settled_steps _ _ _ (wi_db _ Hw') (v_others_steps _ _ _ _ _ Hn Hbc) Hset) as [[_ Hno] _]. apply (Hno k). by exists s. }
  rewrite (IH Hw' Hv' Hkb Hk' Ho). by eapply deleted_step.
Qed.

Lemma view_deleted db k s xmin x : sessions db !! k = Some s -> in_txn s = true ->
  view db k xmin x = ((xmin =? s_txn s) || txn_committed_view (with_cur_session db k) xmin) && negb (deleted_for db k (s_txn s) x).
Proof.
  intros Hk Ho. unfold view, row_visible, deleted_for, session, txn_of. rewrite Hk. cbn. rewrite Ho.
  destruct ((xmin =? s_txn s) || _); [|done]. cbn. by destruct (negb (x =? 0) && _).
Qed.

(** C4. Snapshot isolation.  While a session's transaction stays open, it keeps seeing
    the row versions it saw and no others, whatever the statements of the other
    sessions: not the versions that other transactions insert, and of a version whose
    deletion stamp they set, commit and roll back it sees as much as before.  Its own
    INSERT, DELETE and UPDATE are the exception, and the histories are those in which
    nobody stamps over a deletion that was committed, which the code does not prevent. *)
Theorem snapshot_stable (catalog : option (Z * list string)) (db0 : Database) (x0 : Z) (tb : string) (xmin : Z) (v v' : VState) (k : nat) (t : Z) :
  rtc ok_step (db_open catalog) db0 -> x0 < committed_below db0 -> name_ok tb ->
  rtc (v_orderly tb xmin) (mkV db0 x0 x0) v -> rtc (v_others tb xmin k) v v' ->
  open_txn (vdb v) k t -> open_txn (vdb v') k t ->
  view (vdb v') k xmin (xmax_now v') = view (vdb v) k xmin (xmax_now v) /\
  (forall w x, w <> t -> next_txn (vdb v) <= w \/ (exists j, open_txn (vdb v) j w) -> view (vdb v') k w x = false).
Proof.
  intros H0 Hx0 Hn Hr1 Hr2 (s & Hk & Ho & <-) Hopen'.
  assert (Hw0 : wr_inv db0) by (pose proof (db_open_wr_inv catalog) as Hw; revert Hw; clear -H0; induction H0; eauto using ok_step_inv).
  assert (Hv0 : vinv tb (mkV db0 x0 x0)).
  { split; cbn; [|by left]. pose proof (di_ids _ (wi_db _ Hw0)). split; [lia|]. intros j (r & Hj & Hrj & E). destruct (di_open _ (wi_db _ Hw0) _ _ Hj Hrj). lia. }
  destruct (v_orderly_inv tb xmin (mkV db0 x0 x0) v Hn Hw0 Hv0 Hr1) as [Hw Hv]. pose proof (wi_db _ Hw) as Hi. pose proof (v_others_steps _ _ _ _ _ Hn Hr2) as Hst.
  destruct (open_steps _ _ _ _ Hi Hst Hk Ho) as [Hk'|[_ Hno]]; [|by destruct (Hno k)]. pose proof (db_steps_inv _ _ Hi Hst) as Hi'. split.
  - rewrite !(view_deleted _ _ s) by done. rewrite (deleted_steps _ _ _ _ _ _ Hn Hw Hv Hr2 Hk Hk' Ho). f_equal.
    destruct (Z.eqb_spec xmin (s_txn s)); [done|]. by apply (committed_view_stable (vdb v) (vdb v') k s).
  - intros w x Hne Hw1. rewrite (view_deleted _ _ s) by done. rewrite (proj2 (Z.eqb_neq _ _) Hne). cbn.
    destruct (di_open _ Hi _ _ Hk Ho) as (_ & Hsn & _). rewrite (later_uncommitted _ _ _ w Hi' Hk' Ho); [done|].
    destruct Hw1 as [|(j & r & Hj & Hrj & <-)]; [left; lia|]. destruct (decide (snap_next s <= s_txn r)) as [|Hlt]; [by left|right].
    rewrite (committed_below_steps _ _ Hi Hst). destruct (di_open _ Hi _ _ Hj Hrj). split; [|lia].
    apply (di_snap _ Hi j k r s Hj Hk); [|done|done|lia]. intros ->. congruence.
Qed.

Lemma run_ok_steps db l : Forall (fun p => stmt_ok (fst p)) l -> rtc ok_step db (run db l).
Proof.
  intros Hl. revert db. induction Hl as [|[st o] l Hok _ IH]; intros db; simpl; [done|].
  eapply rtc_l; [|apply IH]. exists st, o, (snd (db_exec db st o)). split; [done|]. by destruct (db_exec db st o).
Qed.

(** Session 1 opens a transaction, session 2 deletes the row and commits, session 1 comes back. *)
Definition demo_row : Database := run (db_open None) [(STMT_CREATE "t", Done); (STMT_INSERT "t", Done)].
Definition demo_in1 : Database := run demo_row [(STMT_SESSION 1, Done)].
Definition demo_begun : Database := run demo_in1 [(STMT_BEGIN, Done)].
Definition demo_in2 : Database := run demo_begun [(STMT_SESSION 2, Done)].
Definition demo_gone : Database := run demo_in2 [(STMT_DELETE "t", Done)].
Definition demo_window : VState := mkV demo_begun 0 0.
Definition demo_deleted : VState := mkV (run demo_gone [(STMT_SESSION 1, Done)]) 4 4.

Lemma keep_step tb xmin k db x y st o : stmt_ok st -> st <> STMT_COMMIT -> st <> STMT_ROLLBACK ->
  v_others tb xmin k (mkV db x y) (mkV (run db [(st, o)]) x y).
Proof.
  intros Hok Hc Hr. exists Keep. split; [split; [|done]|done]. cbn. destruct (db_exec db st o) as [db' rc] eqn:E.
  apply (v_keep tb xmin db st o db' rc); [done|done|]. by intros [[?|?] _].
Qed.

Lemma v_others_orderly tb xmin k a b : v_others tb xmin k a b -> v_orderly tb xmin a b.
Proof. intros (c & Hs & _). by exists c. Qed.

Lemma demo_deleted_steps : rtc (v_others "t" 2 1) demo_window demo_deleted.
Proof.
  apply (rtc_l _ _ (mkV demo_in2 0 0)); [apply keep_step; done|].
  apply (rtc_l _ _ (mkV demo_gone 4 4)); [|apply rtc_once, keep_step; done].
  exists Stamp. split; [split|intros _; vm_compute; discriminate].
  - refine (v_stamp "t" 2 demo_in2 (STMT_DELETE "t") Done demo_gone 0 (stmt_start demo_in2 (STMT_DELETE "t")).1 0 0 _ _ _ _ _ _ _);
      [by left|vm_compute; reflexivity|vm_compute; reflexivity|vm_compute; by eexists|done|vm_compute; reflexivity|by right].
  - intros _ [Hpos _]. cbn in Hpos. lia.
Qed.

Lemma demo_row_ok : rtc ok_step (db_open None) demo_row.
Proof. apply run_ok_steps. repeat constructor. Qed.
Lemma demo_window_steps : rtc (v_orderly "t" 2) (mkV demo_row 0 0) demo_window.
Proof.
  apply (rtc_l _ _ (mkV demo_in1 0 0)); [apply (v_others_orderly _ _ 1), keep_step; done|].
  apply rtc_once, (v_others_orderly _ _ 1), keep_step; done.
Qed.
Lemma demo_open : open_txn (vdb demo_window) 1 3 /\ open_txn (vdb demo_deleted) 1 3.
Proof. split; (eexists; split; [vm_compute; reflexivity|split; vm_compute; reflexivity]). Qed.

Lemma snapshot_stable_witness :
  view (vdb demo_deleted) 1 2 4 = view (vdb demo_window) 1 2 0 /\ view (vdb demo_window) 1 2 0 = true /\ view (vdb demo_deleted) 2 2 4 = false.
Proof.
  split; [|split; vm_compute; reflexivity].
  apply (snapshot_stable None demo_row 0 "t" 2 demo_window demo_deleted 1 3 demo_row_ok ltac:(vm_compute; reflexivity) ltac:(vm_compute; reflexivity)
    demo_window_steps demo_deleted_steps (proj1 demo_open) (proj2 demo_open)).
Defined.

(** Stamping over a committed deletion: session 0's transaction began before the row was
    deleted and still sees it; session 2's began after and does not see it, until
    session 0 deletes the row again, which nothing refuses.  It stays back when session 0
    commits. *)
Theorem deletion_overwritten :
  let db := run demo_row [(STMT_SESSION 0, Done); (STMT_BEGIN, Done); (STMT_SESSION 1, Done); (STMT_DELETE "t", Done);
                          (STMT_SESSION 2, Done); (STMT_BEGIN, Done); (STMT_SESSION 0, Done)] in
  let '(d, lrc) := stmt_start db (STMT_DELETE "t") in
  let '(db1, rc) := db_exec db (STMT_DELETE "t") Done in
  view db 2 2 4 = false /\ lrc = 0 /\ row_visible d 2 4 (write_txn db) = true /\ rc = 0 /\
  view db1 2 2 (write_txn db) = true /\ view (run db1 [(STMT_COMMIT, Done)]) 2 2 (write_txn db) = true.
Proof. by vm_compute. Qed.

Lemma single_writer_witness :
  let db := run (db_open None) (demo_pre ++ [(STMT_UPDATE "t", Done); (STMT_SESSION 0, Done)]) in
  tables db !! "t" = Some 4 /\ tables (fst (db_exec db (STMT_DELETE "t") Done)) = tables db.
Proof.
  intros db. assert (Ht : tables db !! "t" = Some 4) by (vm_compute; reflexivity). split; [exact Ht|].
  apply (single_writer None db (fst (db_exec db (STMT_DELETE "t") Done)) (STMT_DELETE "t") Done "t" 4 (-1));
    [|exact Ht|lia|vm_compute; lia|vm_compute; reflexivity|right; left|vm_compute; reflexivity].
  apply run_ok_steps. repeat constructor.
Defined.

(** For an autocommit read on a database without earlier runs, the executor's
    visibility test is the rule of [mvcc_visible]. *)
Theorem row_visible_mvcc (db : Database) (xmin xmax : Z) :
  in_txn (cur db) = false -> committed_below db = 1 -> xmin <> 0 ->
  row_visible db xmin xmax 0 = mvcc_visible (txnlog db) xmin xmax.
Proof.
  intros Ho Hcb H0.
  assert (Hcv : forall x, txn_committed_view db x = bool_decide (txnlog_status (txnlog db) x = TXN_COMMITTED)).
  { intros x. unfold txn_committed_view. rewrite Ho, Hcb.
    destruct (Z.leb_spec x 0); [by rewrite txnlog_status_oob by lia|].
    destruct (Z.ltb_spec x 1); [lia|]. repeat case_decide; case_bool_decide; done. }
  unfold row_visible, mvcc_visible. rewrite !Hcv. destruct (Z.eqb_spec xmin 0); [done|].
  destruct (Z.eqb_spec xmax 0); repeat case_decide; repeat case_bool_decide; simpl; naive_solver.
Qed.

Lemma row_visible_mvcc_witness :
  let db := run (db_open None) [(STMT_CREATE "t", Done); (STMT_INSERT "t", Done)] in
  row_visible db 2 0 0 = mvcc_visible (txnlog db) 2 0 /\ mvcc_visible (txnlog db) 2 0 = true.
Proof.
  intros db. split; [apply (row_visible_mvcc db 2 0); [reflexivity|reflexivity|lia]|vm_compute; reflexivity].
Defined.
