(* ===== verification/SqlLex.v ===== *)
(** * SQL lexer (src/src/sql.c, first part)

    The source text is the list of its bytes (without the terminating NUL, which
    is what reading past the end yields), and the lexer's position is the suffix
    still to be read.  SqlParse runs the parser on it; SqlGrammar proves that every
    token is read back from its spelling. *)
From stdpp Require Import strings.
From S2P Require Import Prelude.

Definition SQL_MAX_COLS : nat := 32.
Definition SQL_NAME_LEN : nat := 64.
Definition SQL_TEXT_LEN : nat := 256.

(** The bytes of a string constant. *)
Definition str (s : string) : bytes := (fun a => Z.of_nat (Ascii.nat_of_ascii a)) <$> String.list_ascii_of_string s.

Inductive TokType :=
  | TOK_EOF | TOK_IDENT | TOK_INT | TOK_STRING
  | TOK_LPAREN | TOK_RPAREN | TOK_COMMA | TOK_STAR | TOK_EQ | TOK_SEMI | TOK_DOT
  | TOK_LT | TOK_GT | TOK_LE | TOK_GE | TOK_NE
  | TOK_CREATE | TOK_TABLE | TOK_INSERT | TOK_INTO | TOK_VALUES
  | TOK_SELECT | TOK_FROM | TOK_WHERE | TOK_INT_TYPE | TOK_TEXT_TYPE
  | TOK_BEGIN | TOK_COMMIT | TOK_ROLLBACK | TOK_VACUUM | TOK_SESSION | TOK_ANALYZE
  | TOK_DELETE | TOK_UPDATE | TOK_SET | TOK_AND | TOK_OR
  | TOK_ORDER | TOK_BY | TOK_ASC | TOK_DESC | TOK_LIMIT
  | TOK_JOIN | TOK_ON | TOK_GROUP | TOK_HAVING | TOK_LEFT | TOK_OUTER
  | TOK_IS | TOK_NOT | TOK_NULL | TOK_DISTINCT | TOK_IN | TOK_OFFSET | TOK_BETWEEN | TOK_LIKE
  | TOK_EXPLAIN | TOK_INDEX
  | TOK_ERROR.

#[export] Instance TokType_eq_dec : EqDecision TokType.
Proof. solve_decision. Defined.

Record Token := mkTok { t_type : TokType; t_text : bytes; t_int_val : Z }.

(** [memset(&t, 0, sizeof(t))] with the type set afterwards. *)
Definition tok (ty : TokType) : Token := mkTok ty [] 0.

(** ** Characters (C locale) *)

Definition isspace (c : Z) : bool := (c =? 32) || ((9 <=? c) && (c <=? 13)).
Definition isdigit (c : Z) : bool := (48 <=? c) && (c <=? 57).
Definition isalpha (c : Z) : bool := ((65 <=? c) && (c <=? 90)) || ((97 <=? c) && (c <=? 122)).
Definition isalnum (c : Z) : bool := isalpha c || isdigit c.
Definition tolower (c : Z) : Z := if (65 <=? c) && (c <=? 90) then c + 32 else c.

(** [!strcasecmp(a, b)] *)
Definition same_case (a b : bytes) : bool := bool_decide (tolower <$> a = tolower <$> b).

Definition keywords : list (string * TokType) :=
  [("CREATE", TOK_CREATE); ("TABLE", TOK_TABLE); ("INSERT", TOK_INSERT); ("INTO", TOK_INTO);
   ("VALUES", TOK_VALUES); ("SELECT", TOK_SELECT); ("FROM", TOK_FROM); ("WHERE", TOK_WHERE);
   ("INT", TOK_INT_TYPE); ("TEXT", TOK_TEXT_TYPE); ("BEGIN", TOK_BEGIN); ("COMMIT", TOK_COMMIT);
   ("ROLLBACK", TOK_ROLLBACK); ("VACUUM", TOK_VACUUM); ("SESSION", TOK_SESSION);
   ("ANALYZE", TOK_ANALYZE); ("DELETE", TOK_DELETE); ("UPDATE", TOK_UPDATE); ("SET", TOK_SET);
   ("AND", TOK_AND); ("OR", TOK_OR); ("ORDER", TOK_ORDER); ("BY", TOK_BY); ("ASC", TOK_ASC);
   ("DESC", TOK_DESC); ("LIMIT", TOK_LIMIT); ("JOIN", TOK_JOIN); ("ON", TOK_ON);
   ("GROUP", TOK_GROUP); ("HAVING", TOK_HAVING); ("LEFT", TOK_LEFT); ("OUTER", TOK_OUTER);
   ("IS", TOK_IS); ("NOT", TOK_NOT); ("NULL", TOK_NULL); ("DISTINCT", TOK_DISTINCT);
   ("IN", TOK_IN); ("OFFSET", TOK_OFFSET); ("BETWEEN", TOK_BETWEEN); ("LIKE", TOK_LIKE);
   ("EXPLAIN", TOK_EXPLAIN); ("INDEX", TOK_INDEX)]%string.

(** The chain of comparisons, in order. *)
Fixpoint keyword_in (kws : list (string * TokType)) (s : bytes) : TokType :=
  match kws with
  | [] => TOK_IDENT
  | (k, t) :: kws => if same_case s (str k) then t else keyword_in kws s
  end.

Definition keyword_of (s : bytes) : TokType := keyword_in keywords s.

(** [while (p(src[pos])) pos++]: the bytes read and the rest. *)
Fixpoint span (p : Z -> bool) (s : bytes) : bytes * bytes :=
  match s with
  | [] => ([], [])
  | c :: s' => if p c then let '(a, b) := span p s' in (c :: a, b) else ([], s)
  end.

(** [strtol(buf, NULL, 10)] on an optional sign and digits, saturating at the
    bounds of [long]. *)
Definition digits_val (s : bytes) : Z := foldl (fun n c => 10 * n + (c - 48)) 0 s.

Definition clamp_long (z : Z) : Z := Z.max (- 2 ^ 63) (Z.min (2 ^ 63 - 1) z).

Definition strtol10 (s : bytes) : Z :=
  match s with
  | 45 :: s' => clamp_long (- digits_val s')
  | _ => clamp_long (digits_val s)
  end.

(** [src[pos]] and [src[pos + 1]] *)
Definition peek (s : bytes) : Z := match s with [] => 0 | c :: _ => c end.

Definition is_ident_char (c : Z) : bool := isalnum c || (c =? 95).

(** The operators, longest first; a lone [!] is an error that consumes nothing. *)
Definition lex_op (c : Z) (s : bytes) : Token * bytes :=
  let nx := peek (tail s) in
  if (c =? 60) && (nx =? 61) then (tok TOK_LE, drop 2 s)
  else if (c =? 60) && (nx =? 62) then (tok TOK_NE, drop 2 s)
  else if (c =? 62) && (nx =? 61) then (tok TOK_GE, drop 2 s)
  else if (c =? 33) && (nx =? 61) then (tok TOK_NE, drop 2 s)
  else if c =? 61 then (tok TOK_EQ, drop 1 s)
  else if c =? 60 then (tok TOK_LT, drop 1 s)
  else if c =? 62 then (tok TOK_GT, drop 1 s)
  else (tok TOK_ERROR, s).

(** A string literal, after its opening quote; the text keeps 255 bytes. *)
Definition lex_string (s : bytes) : Token * bytes :=
  let '(body, rest) := span (fun c => negb (c =? 39)) s in
  if negb (peek rest =? 39) then (mkTok TOK_ERROR (take (SQL_TEXT_LEN - 1) body) 0, rest)
  else (mkTok TOK_STRING (take (SQL_TEXT_LEN - 1) body) 0, drop 1 rest).

(** Digits after an optional minus sign; the conversion sees 63 bytes. *)
Definition lex_int (c : Z) (s : bytes) : Token * bytes :=
  let sign := if c =? 45 then [45] else [] in
  let '(ds, rest) := span isdigit (if c =? 45 then drop 1 s else s) in
  (mkTok TOK_INT [] (strtol10 (take 63 (sign ++ ds))), rest).

(** An identifier keeps 63 bytes; a keyword is recognised by what was kept. *)
Definition lex_ident (s : bytes) : Token * bytes :=
  let '(name, rest) := span is_ident_char s in
  let text := take (SQL_NAME_LEN - 1) name in
  (mkTok (keyword_of text) text 0, rest).

Definition lex_next (s : bytes) : Token * bytes :=
  let s := (span isspace s).2 in
  match s with
  | [] => (tok TOK_EOF, s)
  | c :: s' =>
      if (c =? 61) || (c =? 60) || (c =? 62) || (c =? 33) then lex_op c s
      else if c =? 40 then (tok TOK_LPAREN, s')
      else if c =? 41 then (tok TOK_RPAREN, s')
      else if c =? 44 then (tok TOK_COMMA, s')
      else if c =? 42 then (tok TOK_STAR, s')
      else if c =? 59 then (tok TOK_SEMI, s')
      else if c =? 46 then (tok TOK_DOT, s')
      else if c =? 39 then lex_string s'
      else if isdigit c || ((c =? 45) && isdigit (peek s')) then lex_int c s
      else if isalpha c || (c =? 95) then lex_ident s
      else (tok TOK_ERROR, s)
  end.

Definition lex1 (x : string) : Token := (lex_next (str x)).1.

Example lex_examples :
  lex1 " Select x" = mkTok TOK_SELECT (str "Select") 0 /\ lex1 "-12)" = mkTok TOK_INT [] (-12) /\
  lex1 "99999999999999999999" = mkTok TOK_INT [] (2 ^ 63 - 1) /\
  lex1 "'it' s" = mkTok TOK_STRING (str "it") 0 /\ lex1 "'it" = mkTok TOK_ERROR (str "it") 0 /\
  t_type (lex1 "!x") = TOK_ERROR /\ t_type (lex1 "<>") = TOK_NE.
Proof. vm_compute. repeat split. Qed.
