(* ===== verification/SqlParse.v ===== *)
(** * SQL parser (src/src/sql.c, second part; AST of src/src/sql.h)

    The recursive-descent parser as functions in a state monad over the C
    structure [Parser].  As in the source, a failure is only recorded ([ok], [err])
    and parsing goes on, so every function also says what it does after a
    failure.  An array with a counter is the list of its used elements; a
    structure that is never filled keeps its zeroed value.  The fuel bounds the
    nesting of subqueries and the length of IN lists; [None] means it ran out,
    which [sql_parse] never does (sql_parse_total).  Allocation does not fail. *)
From stdpp Require Import strings.
From S2P Require Import Prelude SqlLex.

(** ** The syntax tree *)

Inductive ColType := COL_INT | COL_TEXT.

Inductive CmpOp :=
  | CMP_EQ | CMP_NE | CMP_LT | CMP_GT | CMP_LE | CMP_GE
  | CMP_IS_NULL | CMP_IS_NOT_NULL | CMP_LIKE | CMP_NOT_LIKE.

#[export] Instance CmpOp_eq_dec : EqDecision CmpOp.
Proof. solve_decision. Defined.

Inductive Value := VAL_INT (z : Z) | VAL_TEXT (s : bytes) | VAL_NULL.

#[export] Instance Value_eq_dec : EqDecision Value.
Proof. solve_decision. Defined.

(** A zeroed [Value]: the type tag 0 is [VAL_INT]. *)
Definition value0 : Value := VAL_INT 0.

Record ColumnDef := mkColumn { cd_name : bytes; cd_type : ColType; cd_not_null : bool }.

Inductive AggFunc := AGG_NONE | AGG_COUNT | AGG_SUM | AGG_MIN | AGG_MAX | AGG_AVG.

#[export] Instance AggFunc_eq_dec : EqDecision AggFunc.
Proof. solve_decision. Defined.

Record SelectItem := mkItem { si_agg : AggFunc; si_star : bool; si_tbl : bytes; si_col : bytes }.
#[export] Instance SelectItem_eq_dec : EqDecision SelectItem.
Proof. solve_decision. Defined.

Definition item0 : SelectItem := mkItem AGG_NONE false [] [].

Record JoinClause := mkJoin {
  j_is_left : bool; j_table : bytes; j_alias : bytes;
  j_l_tbl : bytes; j_l_col : bytes; j_r_tbl : bytes; j_r_col : bytes }.

Record OrderKey := mkOrder { o_tbl : bytes; o_col : bytes; o_pos : Z; o_desc : bool }.

Definition SQL_MAX_CONDS : nat := 8.
Definition SQL_MAX_GROUPS : nat := 8.
Definition SQL_MAX_JOINS : nat := 4.
Definition SQL_MAX_ORDER : nat := 4.

(** The fields of [SelectStmt] apart from its WHERE clause, which is recursive. *)
Record SelectHead := mkHead {
  s_explain : bool; s_table : bytes; s_alias : bytes; s_joins : list JoinClause;
  s_distinct : bool; s_star : bool; s_items : list SelectItem; s_has_aggregate : bool;
  s_group_tbl : bytes; s_group_col : bytes;
  s_has_having : bool; s_having_agg : SelectItem; s_having_op : CmpOp; s_having_val : Value;
  s_order : list OrderKey; s_limit : Z; s_offset : Z }.

(** A [Where] is the list of its AND groups, joined by OR. *)
Inductive Condition :=
  | mkCond (tbl col : bytes) (op : CmpOp) (val : Value) (in_sub in_negate scalar_sub : bool)
      (sub : option SelectStmt) (in_set : list Value)
with SelectStmt :=
  | mkSelect (head : SelectHead) (where_ : list (list Condition)).

Abbreviation Where := (list (list Condition)).

Record CreateStmt := mkCreate { c_table : bytes; c_columns : list ColumnDef; c_index_kind : Z }.

Inductive Statement :=
  | STMT_CREATE (c : CreateStmt)
  | STMT_INSERT (table : bytes) (values : list Value)
  | STMT_SELECT (s : SelectStmt)
  | STMT_DELETE (table : bytes) (w : Where)
  | STMT_UPDATE (table set_col : bytes) (set_val : Value) (w : Where)
  | STMT_BEGIN | STMT_COMMIT | STMT_ROLLBACK
  | STMT_CREATE_INDEX (name table column : bytes)
  | STMT_VACUUM (table : bytes)
  | STMT_SESSION (n : Z)
  | STMT_ANALYZE (table : bytes).

(** ** The parser's state *)

Record Parser := mkParser { lex : bytes; cur : Token; ok : bool; err : string }.

Definition P (A : Type) : Type := Parser -> option (A * Parser).

#[export] Instance P_ret : MRet P := fun A a p => Some (a, p).
#[export] Instance P_bind : MBind P := fun A B f m p =>
  match m p with Some (a, p') => f a p' | None => None end.

Definition out_of_fuel {A} : P A := fun _ => None.

Definition cur_tok : P Token := fun p => Some (cur p, p).
Definition cur_type : P TokType := fun p => Some (t_type (cur p), p).
Definition p_ok : P bool := fun p => Some (ok p, p).
Definition input_left : P nat := fun p => Some (length (lex p), p).

(** The first failure is the one reported. *)
Definition fail_in (msg : string) (p : Parser) : Parser :=
  if ok p then mkParser (lex p) (cur p) false msg else p.

Definition p_fail (msg : string) : P unit := fun p => Some (tt, fail_in msg p).

Definition advance_in (p : Parser) : Parser :=
  let '(t, rest) := lex_next (lex p) in
  let p := mkParser rest t (ok p) (err p) in
  if decide (t_type t = TOK_ERROR) then fail_in "토큰을 해석할 수 없습니다" p else p.

Definition p_advance : P unit := fun p => Some (tt, advance_in p).

Definition p_accept (t : TokType) : P bool := fun p =>
  if decide (t_type (cur p) = t) then Some (true, advance_in p) else Some (false, p).

Definition p_expect (t : TokType) (what : string) : P unit :=
  b ← p_accept t; if (b : bool) then mret tt else p_fail what.

(** [snprintf(out, SQL_NAME_LEN, "%s", text)] *)
Definition copy_name63 (text : bytes) : bytes := take (SQL_NAME_LEN - 1) text.

(** ** Names, values, operators *)

Definition parse_name : P bytes :=
  t ← cur_tok;
  if decide (t_type t = TOK_IDENT) then _ ← p_advance; mret (copy_name63 (t_text t))
  else _ ← p_fail "이름(식별자)이 필요합니다"; mret [].

Definition parse_colref : P (bytes * bytes) :=
  t ← cur_tok;
  if decide (t_type t = TOK_IDENT) then
    let first := copy_name63 (t_text t) in
    _ ← p_advance;
    dot ← p_accept TOK_DOT;
    if (dot : bool) then
      t ← cur_tok;
      if decide (t_type t = TOK_IDENT) then _ ← p_advance; mret (first, copy_name63 (t_text t))
      else _ ← p_fail ". 다음에 컬럼 이름이 필요합니다"; mret (first, [])
    else mret ([], first)
  else _ ← p_fail "컬럼 이름이 필요합니다"; mret ([], []).

Definition parse_value : P Value :=
  t ← cur_tok;
  match t_type t with
  | TOK_INT => _ ← p_advance; mret (VAL_INT (t_int_val t))
  | TOK_STRING => _ ← p_advance; mret (VAL_TEXT (take (SQL_TEXT_LEN - 1) (t_text t)))
  | TOK_NULL => _ ← p_advance; mret VAL_NULL
  | _ => _ ← p_fail "값(정수, '문자열', 또는 NULL)이 필요합니다"; mret value0
  end.

Definition parse_where_op : P CmpOp :=
  t ← cur_type;
  match t with
  | TOK_EQ => _ ← p_advance; mret CMP_EQ
  | TOK_NE => _ ← p_advance; mret CMP_NE
  | TOK_LT => _ ← p_advance; mret CMP_LT
  | TOK_GT => _ ← p_advance; mret CMP_GT
  | TOK_LE => _ ← p_advance; mret CMP_LE
  | TOK_GE => _ ← p_advance; mret CMP_GE
  | _ => _ ← p_fail "비교 연산자(=, !=, <, >, <=, >=)가 필요합니다"; mret CMP_EQ
  end.

(** [do { parse_value } while (p_accept(COMMA))] *)
Fixpoint in_list (fuel : nat) (acc : list Value) : P (list Value) :=
  match fuel with
  | O => out_of_fuel
  | S fuel =>
      v ← parse_value;
      more ← p_accept TOK_COMMA;
      if (more : bool) then in_list fuel (acc ++ [v]) else mret (acc ++ [v])
  end.

(** ** Conditions

    [sel] parses the body of a subquery. *)
Section Conditions.
Variable sel : P SelectStmt.

(** What follows the column of a condition; the result is the conditions it adds to
    the group and whether the group ends here because of a failure.  [full] is
    whether a second condition would not fit. *)
Definition parse_pred (full : bool) (tbl col : bytes) (negate : bool) : P (list Condition * bool) :=
  like ← p_accept TOK_LIKE;
  if (like : bool) then
    v ← parse_value;
    match v with
    | VAL_TEXT _ =>
        mret ([mkCond tbl col (if negate then CMP_NOT_LIKE else CMP_LIKE) v false false false None []], false)
    | _ => _ ← p_fail "LIKE 패턴은 문자열이어야 합니다"; mret ([], true)
    end
  else
    in_ ← p_accept TOK_IN;
    if (in_ : bool) then
      _ ← p_expect TOK_LPAREN "IN 다음에 ( 가 필요합니다";
      ty ← cur_type;
      if decide (ty = TOK_SELECT) then
        _ ← p_advance;
        sub ← sel;
        _ ← p_expect TOK_RPAREN "서브쿼리 뒤에 ) 가 필요합니다";
        mret ([mkCond tbl col CMP_EQ value0 true negate false (Some sub) []], false)
      else
        n ← input_left;
        vs ← in_list (S (S n)) [];
        _ ← p_expect TOK_RPAREN "IN 값 목록 뒤에 ) 가 필요합니다";
        mret ([mkCond tbl col CMP_EQ value0 true negate false None vs], false)
    else
      between ← p_accept TOK_BETWEEN;
      if (between : bool) then
        lo ← parse_value;
        _ ← p_expect TOK_AND "BETWEEN <값> 다음에 AND가 필요합니다";
        let c1 := mkCond tbl col CMP_GE lo false false false None [] in
        if (full : bool) then _ ← p_fail "AND 조건이 너무 많습니다"; mret ([c1], true)
        else
          hi ← parse_value;
          mret ([c1; mkCond (copy_name63 tbl) (copy_name63 col) CMP_LE hi false false false None []], false)
      else
        isk ← p_accept TOK_IS;
        if (isk : bool) then
          notk ← p_accept TOK_NOT;
          _ ← p_expect TOK_NULL "IS [NOT] 다음에 NULL이 필요합니다";
          mret ([mkCond tbl col (if (notk : bool) then CMP_IS_NOT_NULL else CMP_IS_NULL) value0
                   false false false None []], false)
        else
          op ← parse_where_op;
          ty ← cur_type;
          if decide (ty = TOK_LPAREN) then
            _ ← p_advance;
            _ ← p_expect TOK_SELECT "( 다음에 SELECT 서브쿼리가 필요합니다";
            sub ← sel;
            _ ← p_expect TOK_RPAREN "서브쿼리 뒤에 ) 가 필요합니다";
            mret ([mkCond tbl col op value0 true false true (Some sub) []], false)
          else
            v ← parse_value;
            mret ([mkCond tbl col op v false false false None []], false).

Definition parse_cond (full : bool) : P (list Condition * bool) :=
  '(tbl, col) ← parse_colref;
  negate ← p_accept TOK_NOT;
  ty ← cur_type;
  if negate && negb (bool_decide (ty = TOK_IN)) && negb (bool_decide (ty = TOK_LIKE)) then
    _ ← p_fail "NOT 다음에 IN 또는 LIKE가 필요합니다"; mret ([], true)
  else parse_pred full tbl col negate.

(** cond (AND cond)*; at most [SQL_MAX_CONDS] conditions.  Every round adds a
    condition, so [rounds] = [SQL_MAX_CONDS + 1] rounds are enough. *)
Fixpoint and_loop (rounds : nat) (acc : list Condition) : P (list Condition) :=
  match rounds with
  | O => out_of_fuel
  | S rounds =>
      if (SQL_MAX_CONDS <=? length acc)%nat then
        _ ← p_fail "AND 조건이 너무 많습니다"; mret acc
      else
        '(cs, stop) ← parse_cond (SQL_MAX_CONDS <=? length acc + 1)%nat;
        if (stop : bool) then mret (acc ++ cs)
        else
          more ← p_accept TOK_AND;
          if (more : bool) then and_loop rounds (acc ++ cs) else mret (acc ++ cs)
  end.

Definition parse_and_group : P (list Condition) := and_loop (S SQL_MAX_CONDS) [].

Fixpoint or_loop (rounds : nat) (acc : Where) : P Where :=
  match rounds with
  | O => out_of_fuel
  | S rounds =>
      if (SQL_MAX_GROUPS <=? length acc)%nat then
        _ ← p_fail "OR 묶음이 너무 많습니다"; mret acc
      else
        g ← parse_and_group;
        more ← p_accept TOK_OR;
        if (more : bool) then or_loop rounds (acc ++ [g]) else mret (acc ++ [g])
  end.

Definition parse_where : P Where := or_loop (S SQL_MAX_GROUPS) [].
End Conditions.

(** ** Statements *)

(** The columns of CREATE TABLE: [while (ok && cur != RPAREN)]. *)
Fixpoint column_loop (rounds : nat) (acc : list ColumnDef) : P (list ColumnDef) :=
  match rounds with
  | O => out_of_fuel
  | S rounds =>
      good ← p_ok;
      ty ← cur_type;
      if negb good || bool_decide (ty = TOK_RPAREN) then mret acc
      else if (SQL_MAX_COLS <=? length acc)%nat then
        _ ← p_fail "컬럼이 너무 많습니다"; mret acc
      else
        name ← parse_name;
        int ← p_accept TOK_INT_TYPE;
        text ← (if (int : bool) then mret false else p_accept TOK_TEXT_TYPE);
        if negb int && negb text then
          _ ← p_fail "컬럼 타입(INT 또는 TEXT)이 필요합니다"; mret acc
        else
          notk ← p_accept TOK_NOT;
          _ ← (if (notk : bool) then p_expect TOK_NULL "NOT 다음에 NULL이 필요합니다" else mret tt);
          let acc := acc ++ [mkColumn name (if int then COL_INT else COL_TEXT) notk] in
          more ← p_accept TOK_COMMA;
          if (more : bool) then column_loop rounds acc else mret acc
  end.

Definition parse_create : P Statement :=
  _ ← p_expect TOK_TABLE "CREATE 다음에 TABLE이 필요합니다";
  table ← parse_name;
  _ ← p_expect TOK_LPAREN "( 가 필요합니다";
  cols ← column_loop (S SQL_MAX_COLS) [];
  _ ← p_expect TOK_RPAREN ") 가 필요합니다";
  good ← p_ok;
  t ← cur_tok;
  if good && bool_decide (t_type t = TOK_IDENT) && same_case (t_text t) (str "USING") then
    _ ← p_advance;
    eng ← parse_name;
    if same_case eng (str "lsm") then mret (STMT_CREATE (mkCreate table cols 1))
    else if same_case eng (str "btree") then mret (STMT_CREATE (mkCreate table cols 0))
    else
      _ ← p_fail "USING 다음에는 lsm 또는 btree가 필요합니다";
      mret (STMT_CREATE (mkCreate table cols 0))
  else mret (STMT_CREATE (mkCreate table cols 0)).

Definition parse_create_index : P Statement :=
  _ ← p_expect TOK_INDEX "CREATE 다음에 TABLE 또는 INDEX가 필요합니다";
  name ← parse_name;
  _ ← p_expect TOK_ON "INDEX <이름> 다음에 ON이 필요합니다";
  table ← parse_name;
  _ ← p_expect TOK_LPAREN "테이블명 다음에 ( 가 필요합니다";
  column ← parse_name;
  _ ← p_expect TOK_RPAREN ") 가 필요합니다";
  mret (STMT_CREATE_INDEX name table column).

Fixpoint value_loop (rounds : nat) (acc : list Value) : P (list Value) :=
  match rounds with
  | O => out_of_fuel
  | S rounds =>
      good ← p_ok;
      ty ← cur_type;
      if negb good || bool_decide (ty = TOK_RPAREN) then mret acc
      else if (SQL_MAX_COLS <=? length acc)%nat then
        _ ← p_fail "값이 너무 많습니다"; mret acc
      else
        v ← parse_value;
        more ← p_accept TOK_COMMA;
        if (more : bool) then value_loop rounds (acc ++ [v]) else mret (acc ++ [v])
  end.

Definition parse_insert : P Statement :=
  _ ← p_expect TOK_INTO "INSERT 다음에 INTO가 필요합니다";
  table ← parse_name;
  _ ← p_expect TOK_VALUES "VALUES가 필요합니다";
  _ ← p_expect TOK_LPAREN "( 가 필요합니다";
  vs ← value_loop (S SQL_MAX_COLS) [];
  _ ← p_expect TOK_RPAREN ") 가 필요합니다";
  mret (STMT_INSERT table vs).

Definition agg_of (s : bytes) : AggFunc :=
  if same_case s (str "COUNT") then AGG_COUNT
  else if same_case s (str "SUM") then AGG_SUM
  else if same_case s (str "MIN") then AGG_MIN
  else if same_case s (str "MAX") then AGG_MAX
  else if same_case s (str "AVG") then AGG_AVG
  else AGG_NONE.

Definition parse_select_item : P SelectItem :=
  t ← cur_tok;
  if negb (bool_decide (t_type t = TOK_IDENT)) then
    _ ← p_fail "컬럼 또는 집계 함수가 필요합니다"; mret item0
  else
    let name := copy_name63 (t_text t) in
    _ ← p_advance;
    ty ← cur_type;
    if decide (ty = TOK_LPAREN) then
      let af := agg_of name in
      if decide (af = AGG_NONE) then
        _ ← p_fail "알 수 없는 집계 함수입니다"; mret item0
      else
        _ ← p_advance;
        star ← p_accept TOK_STAR;
        if (star : bool) then
          if decide (af = AGG_COUNT) then
            _ ← p_expect TOK_RPAREN ") 가 필요합니다"; mret (mkItem af true [] [])
          else
            _ ← p_fail "*는 COUNT에만 쓸 수 있습니다"; mret (mkItem af true [] [])
        else
          '(tbl, col) ← parse_colref;
          _ ← p_expect TOK_RPAREN ") 가 필요합니다";
          mret (mkItem af false tbl col)
    else
      dot ← p_accept TOK_DOT;
      if (dot : bool) then
        t ← cur_tok;
        if decide (t_type t = TOK_IDENT) then
          _ ← p_advance; mret (mkItem AGG_NONE false name (copy_name63 (t_text t)))
        else _ ← p_fail ". 다음에 컬럼 이름이 필요합니다"; mret item0
      else mret (mkItem AGG_NONE false [] name).

Fixpoint item_loop (rounds : nat) (acc : list SelectItem) : P (list SelectItem) :=
  match rounds with
  | O => out_of_fuel
  | S rounds =>
      if (SQL_MAX_COLS <=? length acc)%nat then
        _ ← p_fail "SELECT 항목이 너무 많습니다"; mret acc
      else
        it ← parse_select_item;
        more ← p_accept TOK_COMMA;
        if (more : bool) then item_loop rounds (acc ++ [it]) else mret (acc ++ [it])
  end.

(** distinct, select_star, items *)
Definition parse_select_list : P (bool * bool * list SelectItem) :=
  distinct ← p_accept TOK_DISTINCT;
  star ← p_accept TOK_STAR;
  if (star : bool) then mret (distinct, true, [])
  else items ← item_loop (S SQL_MAX_COLS) []; mret (distinct, false, items).

Definition any_aggregate (items : list SelectItem) : bool :=
  existsb (fun it => negb (bool_decide (si_agg it = AGG_NONE))) items.

(** An optional alias: an identifier after a table name. *)
Definition parse_alias : P bytes :=
  ty ← cur_type; if decide (ty = TOK_IDENT) then parse_name else mret [].

Fixpoint join_loop (rounds : nat) (acc : list JoinClause) : P (list JoinClause) :=
  match rounds with
  | O => out_of_fuel
  | S rounds =>
      left_ ← p_accept TOK_LEFT;
      go ← (if (left_ : bool) then
              _ ← p_accept TOK_OUTER;
              _ ← p_expect TOK_JOIN "LEFT 다음에 JOIN이 필요합니다";
              mret true
            else p_accept TOK_JOIN);
      if negb go then mret acc
      else if (SQL_MAX_JOINS <=? length acc)%nat then
        _ ← p_fail "JOIN이 너무 많습니다"; mret acc
      else
        table ← parse_name;
        alias ← parse_alias;
        _ ← p_expect TOK_ON "JOIN 다음에 ON이 필요합니다";
        '(lt, lc) ← parse_colref;
        _ ← p_expect TOK_EQ "ON 조건은 <컬럼> = <컬럼> 형태여야 합니다";
        '(rt, rc) ← parse_colref;
        join_loop rounds (acc ++ [mkJoin left_ table alias lt lc rt rc])
  end.

Definition parse_order_key : P OrderKey :=
  t ← cur_tok;
  k ← (if decide (t_type t = TOK_INT) then
         _ ← p_advance; mret (([], []), i32 (t_int_val t))
       else tc ← parse_colref; mret (tc, 0));
  desc ← p_accept TOK_DESC;
  _ ← (if (desc : bool) then mret true else p_accept TOK_ASC);
  mret (mkOrder k.1.1 k.1.2 k.2 desc).

Fixpoint order_loop (rounds : nat) (acc : list OrderKey) : P (list OrderKey) :=
  match rounds with
  | O => out_of_fuel
  | S rounds =>
      if (SQL_MAX_ORDER <=? length acc)%nat then
        _ ← p_fail "ORDER BY 키가 너무 많습니다"; mret acc
      else
        k ← parse_order_key;
        more ← p_accept TOK_COMMA;
        if (more : bool) then order_loop rounds (acc ++ [k]) else mret (acc ++ [k])
  end.

(** LIMIT and OFFSET: a nonnegative integer, or the default. *)
Definition parse_count (kw : TokType) (dflt : Z) (msg : string) : P Z :=
  b ← p_accept kw;
  if (b : bool) then
    t ← cur_tok;
    if negb (bool_decide (t_type t = TOK_INT)) || (t_int_val t <? 0) then
      _ ← p_fail msg; mret dflt
    else _ ← p_advance; mret (t_int_val t)
  else mret dflt.

(** The clauses before and after WHERE. *)
Definition parse_having : P (bool * SelectItem * CmpOp * Value) :=
  b ← p_accept TOK_HAVING;
  if (b : bool) then
    it ← parse_select_item;
    op ← parse_where_op;
    v ← parse_value;
    mret (true, it, op, v)
  else mret (false, item0, CMP_EQ, value0).

Definition parse_group : P (bytes * bytes) :=
  b ← p_accept TOK_GROUP;
  if (b : bool) then _ ← p_expect TOK_BY "GROUP 다음에 BY가 필요합니다"; parse_colref
  else mret ([], []).

Definition parse_order : P (list OrderKey) :=
  b ← p_accept TOK_ORDER;
  if (b : bool) then
    _ ← p_expect TOK_BY "ORDER 다음에 BY가 필요합니다"; order_loop (S SQL_MAX_ORDER) []
  else mret [].

Definition parse_opt_where (sel : P SelectStmt) : P Where :=
  b ← p_accept TOK_WHERE; if (b : bool) then parse_where sel else mret [].

Fixpoint parse_select_stmt (fuel : nat) : P SelectStmt :=
  match fuel with
  | O => out_of_fuel
  | S fuel =>
      '(distinct, star, items) ← parse_select_list;
      _ ← p_expect TOK_FROM "FROM이 필요합니다";
      table ← parse_name;
      alias ← parse_alias;
      joins ← join_loop (S SQL_MAX_JOINS) [];
      w ← parse_opt_where (parse_select_stmt fuel);
      '(gt, gc) ← parse_group;
      '(hh, hi, ho, hv) ← parse_having;
      order ← parse_order;
      limit ← parse_count TOK_LIMIT (-1) "LIMIT 뒤에는 0 이상의 정수가 필요합니다";
      offset ← parse_count TOK_OFFSET 0 "OFFSET 뒤에는 0 이상의 정수가 필요합니다";
      mret (mkSelect (mkHead false table alias joins distinct star items (any_aggregate items)
                        gt gc hh hi ho hv order limit offset) w)
  end.

Definition set_explain (s : SelectStmt) : SelectStmt :=
  let 'mkSelect h w := s in
  mkSelect (mkHead true (s_table h) (s_alias h) (s_joins h) (s_distinct h) (s_star h) (s_items h)
              (s_has_aggregate h) (s_group_tbl h) (s_group_col h) (s_has_having h) (s_having_agg h)
              (s_having_op h) (s_having_val h) (s_order h) (s_limit h) (s_offset h)) w.

Definition parse_delete (fuel : nat) : P Statement :=
  _ ← p_expect TOK_FROM "DELETE 다음에 FROM이 필요합니다";
  table ← parse_name;
  w ← parse_opt_where (parse_select_stmt fuel);
  mret (STMT_DELETE table w).

Definition parse_update (fuel : nat) : P Statement :=
  table ← parse_name;
  _ ← p_expect TOK_SET "SET이 필요합니다";
  col ← parse_name;
  _ ← p_expect TOK_EQ "= 가 필요합니다";
  v ← parse_value;
  w ← parse_opt_where (parse_select_stmt fuel);
  mret (STMT_UPDATE table col v w).

(** VACUUM and ANALYZE: an optional table. *)
Definition parse_opt_table : P bytes :=
  t ← cur_tok;
  if decide (t_type t = TOK_IDENT) then _ ← p_advance; mret (copy_name63 (t_text t)) else mret [].

Definition parse_statement (fuel : nat) : P Statement :=
  ty ← cur_type;
  match ty with
  | TOK_CREATE =>
      _ ← p_advance; ty ← cur_type;
      if decide (ty = TOK_INDEX) then parse_create_index else parse_create
  | TOK_INSERT => _ ← p_advance; parse_insert
  | TOK_SELECT => _ ← p_advance; s ← parse_select_stmt fuel; mret (STMT_SELECT s)
  | TOK_EXPLAIN =>
      _ ← p_advance;
      _ ← p_expect TOK_SELECT "EXPLAIN 다음에 SELECT가 필요합니다";
      s ← parse_select_stmt fuel; mret (STMT_SELECT (set_explain s))
  | TOK_DELETE => _ ← p_advance; parse_delete fuel
  | TOK_UPDATE => _ ← p_advance; parse_update fuel
  | TOK_BEGIN => _ ← p_advance; mret STMT_BEGIN
  | TOK_COMMIT => _ ← p_advance; mret STMT_COMMIT
  | TOK_ROLLBACK => _ ← p_advance; mret STMT_ROLLBACK
  | TOK_SESSION =>
      _ ← p_advance; t ← cur_tok;
      if decide (t_type t = TOK_INT) then _ ← p_advance; mret (STMT_SESSION (i32 (t_int_val t)))
      else _ ← p_fail "SESSION 다음에 세션 번호가 필요합니다"; mret (STMT_SESSION 0)
  | TOK_VACUUM => _ ← p_advance; t ← parse_opt_table; mret (STMT_VACUUM t)
  | TOK_ANALYZE => _ ← p_advance; t ← parse_opt_table; mret (STMT_ANALYZE t)
  | _ =>
      _ ← p_fail "CREATE / INSERT / SELECT / BEGIN / COMMIT / ROLLBACK / VACUUM 로 시작해야 합니다";
      mret (STMT_CREATE (mkCreate [] [] 0))
  end.

(** An optional semicolon, then the end of the text. *)
Definition parse_end : P unit :=
  good ← p_ok;
  if (good : bool) then
    _ ← p_accept TOK_SEMI;
    ty ← cur_type;
    if decide (ty = TOK_EOF) then mret tt else p_fail "문장 끝에 예상치 못한 토큰이 있습니다"
  else mret tt.

(** The statement, or the error message that goes with the return code -1. *)
Definition sql_parse (sql : bytes) : option (string + Statement) :=
  let p0 := mkParser sql (tok TOK_EOF) true "" in
  match (_ ← p_advance; st ← parse_statement (S (length sql)); _ ← parse_end; mret st) p0 with
  | None => None
  | Some (st, p) => Some (if ok p then inr st else inl (err p))
  end.

Example parse_example :
  sql_parse (str "SELECT a, COUNT(*) FROM t x WHERE a BETWEEN 1 AND 2 OR x.b NOT IN (1, 'q') GROUP BY a LIMIT 3;") =
  Some (inr (STMT_SELECT (mkSelect
    (mkHead false (str "t") (str "x") [] false false
       [mkItem AGG_NONE false [] (str "a"); mkItem AGG_COUNT true [] []] true [] (str "a")
       false item0 CMP_EQ value0 [] 3 0)
    [[mkCond [] (str "a") CMP_GE (VAL_INT 1) false false false None [];
      mkCond [] (str "a") CMP_LE (VAL_INT 2) false false false None []];
     [mkCond (str "x") (str "b") CMP_EQ value0 true true false None [VAL_INT 1; VAL_TEXT (str "q")]]]))).
Proof. vm_compute. reflexivity. Qed.

(** ** Progress of the lexer *)

Lemma span_length p s : (length (span p s).1 + length (span p s).2 = length s)%nat.
Proof.
  induction s as [|c s IH]; [done|]. cbn [span]. destruct (p c); [|done].
  destruct (span p s) as [a b]. cbn in *. lia.
Qed.

Lemma span_head p c s : p c = true -> (1 <= length (span p (c :: s)).1)%nat.
Proof. intros H. cbn [span]. rewrite H. destruct (span p s). cbn. lia. Qed.

(** A token that ends nothing: neither the end of the text nor an error. *)
Definition solid (t : TokType) : bool :=
  match t with TOK_EOF | TOK_ERROR => false | _ => true end.

Lemma lex_rest s : (length (lex_next s).2 + (if solid (t_type (lex_next s).1) then 1 else 0) <= length s)%nat.
Proof.
  unfold lex_next. pose proof (span_length isspace s) as Hs.
  destruct (span isspace s) as [sp s1]. cbn [fst snd] in *.
  destruct s1 as [|c s']; [cbn; lia|]. cbn [length] in Hs.
  destruct (_ || _ || _ || _).
  { unfold lex_op. do 4 (destruct (_ && _); [cbn [fst snd t_type tok solid]; rewrite length_drop; cbn [length]; lia|]).
    do 3 (destruct (_ =? _); [cbn [fst snd t_type tok solid]; rewrite length_drop; cbn [length]; lia|]).
    cbn. lia. }
  do 6 (destruct (_ =? _); [cbn; lia|]). destruct (_ =? _).
  { unfold lex_string. pose proof (span_length (fun c => negb (c =? 39)) s') as H.
    destruct (span _ s') as [body rest]. cbn [fst snd] in H.
    destruct (negb _); cbn [fst snd t_type solid]; rewrite ?length_drop; lia. }
  destruct (isdigit c || _) eqn:Ed.
  { unfold lex_int. destruct (c =? 45) eqn:Em.
    - change (drop 1 (c :: s')) with s'. pose proof (span_length isdigit s') as H.
      destruct (span isdigit s') as [ds rest]. cbn [fst snd t_type solid] in *. lia.
    - cbn [andb] in Ed. rewrite orb_false_r in Ed.
      pose proof (span_length isdigit (c :: s')) as H. pose proof (span_head isdigit c s' Ed) as Hh.
      destruct (span isdigit _) as [ds rest]. cbn [fst snd t_type solid length] in *. lia. }
  destruct (isalpha c || _) eqn:Ea; [|cbn; lia].
  unfold lex_ident. assert (Hc : is_ident_char c = true).
  { unfold is_ident_char, isalnum. destruct (isalpha c), (isdigit c), (c =? 95); done. }
  pose proof (span_length is_ident_char (c :: s')) as H. pose proof (span_head _ c s' Hc) as Hh.
  destruct (span is_ident_char _) as [nm rest]. cbn [fst snd t_type length] in *.
  destruct (solid _); lia.
Qed.

(** What is left to read: the text and the current token. *)
Definition left_over (p : Parser) : nat :=
  (length (lex p) + if solid (t_type (cur p)) then 1 else 0)%nat.

Lemma fail_left msg p : left_over (fail_in msg p) = left_over p.
Proof. unfold fail_in. by destruct (ok p). Qed.

Lemma advance_left p : (left_over (advance_in p) <= length (lex p))%nat.
Proof.
  unfold advance_in. pose proof (lex_rest (lex p)) as H. destruct (lex_next (lex p)) as [t rest].
  cbn [fst snd] in H. destruct (decide _); rewrite ?fail_left; unfold left_over; cbn; lia.
Qed.

(** ** Total correctness of the parser functions

    [safe n m Q]: started with at most [n] bytes and tokens left, [m] returns, has
    not put anything back, and its result satisfies [Q]. *)
Definition safe {A} (n : nat) (m : P A) (Q : A -> Prop) : Prop :=
  forall p, (left_over p <= n)%nat -> exists a p', m p = Some (a, p') /\ (left_over p' <= left_over p)%nat /\ Q a.

Lemma safe_ret {A} n (a : A) (Q : A -> Prop) : Q a -> safe n (mret a) Q.
Proof. intros H p _. by exists a, p. Qed.

Lemma safe_bind {A B} n (m : P A) (f : A -> P B) (R : A -> Prop) (Q : B -> Prop) :
  safe n m R -> (forall a, R a -> safe n (f a) Q) -> safe n (m ≫= f) Q.
Proof.
  intros Hm Hf p Hp. destruct (Hm p Hp) as (a & p1 & E1 & H1 & Ha).
  destruct (Hf a Ha p1 ltac:(lia)) as (b & p2 & E2 & H2 & Hb).
  exists b, p2. unfold mbind, P_bind. rewrite E1. split; [done|]. split; [lia|done].
Qed.

Lemma safe_weaken {A} n n' (m : P A) (Q Q' : A -> Prop) :
  safe n m Q -> (n' <= n)%nat -> (forall a, Q a -> Q' a) -> safe n' m Q'.
Proof. intros H Hn HQ p Hp. destruct (H p ltac:(lia)) as (a & p' & E & Hl & Ha). eauto 6. Qed.

Lemma safe_fail n msg : safe n (p_fail msg) (fun _ => True).
Proof. intros p _. exists tt, (fail_in msg p). rewrite fail_left. done. Qed.

Lemma safe_advance n : safe n p_advance (fun _ => True).
Proof.
  intros p _. exists tt, (advance_in p). split; [done|]. split; [|done].
  pose proof (advance_left p). unfold left_over at 2. lia.
Qed.

Lemma safe_cur_tok n : safe n cur_tok (fun _ => True).
Proof. intros p _. by exists (cur p), p. Qed.

Lemma safe_cur_type n : safe n cur_type (fun _ => True).
Proof. intros p _. by exists (t_type (cur p)), p. Qed.

Lemma safe_p_ok n : safe n p_ok (fun _ => True).
Proof. intros p _. by exists (ok p), p. Qed.

(** Accepting a token uses it up. *)
Lemma safe_accept {B} n t (k : bool -> P B) (Q : B -> Prop) :
  solid t = true -> safe n (k false) Q -> (forall n', n = S n' -> safe n' (k true) Q) ->
  safe n (p_accept t ≫= k) Q.
Proof.
  intros Ht Hf Hk p Hp. unfold mbind, P_bind, p_accept. destruct (decide _) as [E|E]; [|by apply Hf].
  pose proof (advance_left p) as Ha.
  assert (Hs : left_over p = S (length (lex p))) by (unfold left_over; rewrite E, Ht; lia).
  destruct n as [|n']; [lia|].
  destruct (Hk n' eq_refl (advance_in p) ltac:(lia)) as (b & p' & E2 & H2 & Hb).
  exists b, p'. split; [done|]. split; [lia|done].
Qed.

Lemma safe_accept_simple n t : safe n (p_accept t) (fun _ => True).
Proof.
  intros p _. unfold p_accept. pose proof (advance_left p) as H.
  destruct (decide _); [exists true, (advance_in p)|by exists false, p].
  split; [done|]. split; [|done]. unfold left_over at 2. lia.
Qed.

Lemma safe_expect n t msg : safe n (p_expect t msg) (fun _ => True).
Proof.
  unfold p_expect. eapply safe_bind; [apply safe_accept_simple|]. intros [] _; [by apply safe_ret|apply safe_fail].
Qed.

(** ** What fits in the C structures *)

Definition name_fits (s : bytes) : Prop := (length s < SQL_NAME_LEN)%nat.
Definition value_fits (v : Value) : Prop :=
  match v with VAL_TEXT s => (length s < SQL_TEXT_LEN)%nat | _ => True end.
Definition item_fits (it : SelectItem) : Prop := name_fits (si_tbl it) /\ name_fits (si_col it).
Definition join_fits (j : JoinClause) : Prop :=
  name_fits (j_table j) /\ name_fits (j_alias j) /\ name_fits (j_l_tbl j) /\ name_fits (j_l_col j) /\
  name_fits (j_r_tbl j) /\ name_fits (j_r_col j).
Definition order_fits (o : OrderKey) : Prop := name_fits (o_tbl o) /\ name_fits (o_col o).
Definition column_fits (c : ColumnDef) : Prop := name_fits (cd_name c).

(** At most [n] elements, each of which fits. *)
Definition array_fits {A} (n : nat) (fits : A -> Prop) (l : list A) : Prop :=
  (length l <= n)%nat /\ Forall fits l.

Definition head_fits (h : SelectHead) : Prop :=
  name_fits (s_table h) /\ name_fits (s_alias h) /\ array_fits SQL_MAX_JOINS join_fits (s_joins h) /\
  array_fits SQL_MAX_COLS item_fits (s_items h) /\ name_fits (s_group_tbl h) /\
  name_fits (s_group_col h) /\ item_fits (s_having_agg h) /\ value_fits (s_having_val h) /\
  array_fits SQL_MAX_ORDER order_fits (s_order h) /\ -1 <= s_limit h /\ 0 <= s_offset h.

Inductive cond_fits : Condition -> Prop :=
  | cond_fits_plain tbl col op val a b c set :
      name_fits tbl -> name_fits col -> value_fits val -> Forall value_fits set ->
      cond_fits (mkCond tbl col op val a b c None set)
  | cond_fits_sub tbl col op val a b c s set :
      name_fits tbl -> name_fits col -> value_fits val -> Forall value_fits set -> select_fits s ->
      cond_fits (mkCond tbl col op val a b c (Some s) set)
with select_fits : SelectStmt -> Prop :=
  | select_fits_intro h w : head_fits h -> where_fits w -> select_fits (mkSelect h w)
with where_fits : Where -> Prop :=
  | where_fits_intro w : (length w <= SQL_MAX_GROUPS)%nat -> groups_fit w -> where_fits w
with groups_fit : Where -> Prop :=
  | groups_nil : groups_fit []
  | groups_cons g w : (length g <= SQL_MAX_CONDS)%nat -> conds_fit g -> groups_fit w -> groups_fit (g :: w)
with conds_fit : list Condition -> Prop :=
  | conds_nil : conds_fit []
  | conds_cons c g : cond_fits c -> conds_fit g -> conds_fit (c :: g).

Lemma conds_fit_app g g' : conds_fit g -> conds_fit g' -> conds_fit (g ++ g').
Proof. intros H H'. induction g as [|c g IH]; [done|]. inversion H; subst. constructor; auto. Qed.

Lemma groups_fit_snoc w g :
  groups_fit w -> (length g <= SQL_MAX_CONDS)%nat -> conds_fit g -> groups_fit (w ++ [g]).
Proof.
  intros H Hl Hg. induction w as [|g0 w IH]; [constructor; [done|done|constructor]|].
  inversion H; subst. constructor; auto.
Qed.

Definition stmt_fits (st : Statement) : Prop :=
  match st with
  | STMT_CREATE c => name_fits (c_table c) /\ array_fits SQL_MAX_COLS column_fits (c_columns c)
  | STMT_INSERT t vs => name_fits t /\ array_fits SQL_MAX_COLS value_fits vs
  | STMT_SELECT s => select_fits s
  | STMT_DELETE t w => name_fits t /\ where_fits w
  | STMT_UPDATE t c v w => name_fits t /\ name_fits c /\ value_fits v /\ where_fits w
  | STMT_CREATE_INDEX a b c => name_fits a /\ name_fits b /\ name_fits c
  | STMT_VACUUM t | STMT_ANALYZE t => name_fits t
  | STMT_SESSION n => - 2 ^ 31 <= n < 2 ^ 31
  | STMT_BEGIN | STMT_COMMIT | STMT_ROLLBACK => True
  end.

Lemma name_fits_copy s : name_fits (copy_name63 s).
Proof. unfold name_fits, copy_name63. rewrite length_take. unfold SQL_NAME_LEN. lia. Qed.

Lemma name_fits_nil : name_fits [].
Proof. unfold name_fits, SQL_NAME_LEN. cbn. lia. Qed.

Lemma array_fits_nil {A} n (f : A -> Prop) : array_fits n f [].
Proof. split; [cbn; lia|constructor]. Qed.

Lemma array_fits_snoc {A} n (f : A -> Prop) l x :
  array_fits n f l -> (length l < n)%nat -> f x -> array_fits n f (l ++ [x]).
Proof.
  intros [H1 H2] Hl Hx. split; [rewrite length_app; cbn; lia|].
  apply list.Forall_app. split; [done|]. by constructor.
Qed.

Create HintDb safe.
#[export] Hint Resolve safe_fail safe_advance safe_cur_tok safe_cur_type safe_p_ok safe_expect
  safe_accept_simple name_fits_copy name_fits_nil array_fits_nil groups_nil conds_nil : safe.

(** One step through a parser function. *)
Ltac safe_step :=
  lazymatch goal with
  | |- safe _ (mret _) _ => apply safe_ret
  | |- safe _ (mbind _ (p_accept _)) _ => apply safe_accept; [reflexivity| |intros ? ->]
  | |- safe _ (mbind _ _) _ => eapply safe_bind; [solve [eauto with safe]|cbv beta; intros]
  | |- safe _ (if ?b then _ else _) _ => destruct b
  | |- safe _ (match ?x with _ => _ end) _ => destruct x
  | |- safe _ (let _ := _ in _) _ => cbv zeta
  end.
Ltac safe_run := repeat safe_step; eauto with safe.

Lemma safe_name n : safe n parse_name name_fits.
Proof. unfold parse_name. safe_run. Qed.

Lemma safe_colref n : safe n parse_colref (fun tc => name_fits tc.1 /\ name_fits tc.2).
Proof. unfold parse_colref. safe_run. Qed.

Lemma safe_value n : safe n parse_value value_fits.
Proof.
  unfold parse_value. safe_run; try exact I. cbn. rewrite length_take. unfold SQL_TEXT_LEN. lia.
Qed.

Lemma safe_where_op n : safe n parse_where_op (fun _ => True).
Proof. unfold parse_where_op. safe_run. Qed.

#[export] Hint Resolve safe_name safe_colref safe_value safe_where_op : safe.

Lemma safe_in_list fuel n acc : (n < fuel)%nat -> Forall value_fits acc ->
  safe n (in_list fuel acc) (Forall value_fits).
Proof.
  revert n acc. induction fuel as [|fuel IH]; intros n acc Hn Hacc; [lia|]. cbn [in_list].
  safe_step. assert (Forall value_fits (acc ++ [a])) by (apply list.Forall_app; by repeat constructor).
  repeat safe_step; [done|]. apply IH; [lia|done].
Qed.

Lemma safe_input_left {B} n (f : nat -> P B) (Q : B -> Prop) :
  (forall m n', (n' <= S m)%nat -> (n' <= n)%nat -> safe n' (f m) Q) -> safe n (input_left ≫= f) Q.
Proof.
  intros H p Hp. unfold mbind, P_bind, input_left.
  apply (H (length (lex p)) (left_over p)); [|done|done]. unfold left_over. destruct (solid _); lia.
Qed.

Section SafeConditions.
Variables (sel : P SelectStmt) (n0 : nat).
Hypothesis Hsel : safe n0 sel select_fits.

Lemma safe_sel n : (n <= n0)%nat -> safe n sel select_fits.
Proof. intros Hn. by eapply safe_weaken. Qed.

(** What a condition contributes: one or two conditions that fit, at least one
    when the group goes on. *)
Definition cond_result (full : bool) (r : list Condition * bool) : Prop :=
  conds_fit r.1 /\ (r.2 = false -> r.1 <> []) /\ (length r.1 <= if full then 1 else 2)%nat.

Lemma cond_result_one full c : cond_fits c -> cond_result full ([c], false).
Proof. intros H. split; [by repeat constructor|]. split; [done|]. destruct full; cbn; lia. Qed.

Lemma cond_result_none full : cond_result full ([], true).
Proof. split; [constructor|]. split; [done|]. cbn. lia. Qed.

Lemma plain_fits tbl col op v : name_fits tbl -> name_fits col -> value_fits v ->
  cond_fits (mkCond tbl col op v false false false None []).
Proof. intros. apply cond_fits_plain; done. Qed.

Lemma safe_pred n full tbl col negate : (n <= n0)%nat -> name_fits tbl -> name_fits col ->
  safe n (parse_pred sel full tbl col negate) (cond_result full).
Proof.
  intros Hn Ht Hc.
  assert (Hplain : forall op v, value_fits v ->
     cond_result full ([mkCond tbl col op v false false false None []], false)).
  { intros op v Hv. apply cond_result_one. constructor; try done; constructor. }
  assert (Hsub : forall op a b s, select_fits s ->
     cond_result full ([mkCond tbl col op value0 true a b (Some s) []], false)).
  { intros op a b s Hs. apply cond_result_one. constructor; try done; constructor. }
  assert (Hin : forall vs, Forall value_fits vs ->
     cond_result full ([mkCond tbl col CMP_EQ value0 true negate false None vs], false)).
  { intros vs Hvs. apply cond_result_one. constructor; done. }
  unfold parse_pred. safe_step.
  2: { safe_step. destruct a; [safe_run; apply cond_result_none|apply safe_ret; by apply Hplain|].
       safe_run. apply cond_result_none. }
  safe_step.
  2: { do 2 safe_step. safe_step.
       - safe_step. eapply safe_bind; [apply safe_sel; lia|]. intros sub Hs. safe_run.
       - apply safe_input_left. intros m n1 Hm Hn1.
         eapply safe_bind; [apply safe_in_list; [lia|constructor]|]. intros vs Hvs. safe_run. }
  safe_step.
  2: { do 2 safe_step. safe_step. safe_step.
       - safe_run. split; [|split; [done|cbn; lia]]. apply conds_cons; [by apply plain_fits|constructor].
       - safe_run. split; [|split; [done|cbn; lia]]. apply conds_cons; [by apply plain_fits|].
         apply conds_cons; [apply plain_fits; try done; apply name_fits_copy|constructor]. }
  safe_step.
  2: { safe_step; safe_run; by apply Hplain. }
  do 2 safe_step. safe_step.
  - do 2 safe_step. eapply safe_bind; [apply safe_sel; lia|]. intros sub Hs. safe_run.
  - safe_run.
Qed.

Lemma safe_cond n full : (n <= n0)%nat -> safe n (parse_cond sel full) (cond_result full).
Proof.
  intros Hn. unfold parse_cond. eapply safe_bind; [apply safe_colref|]. intros [tbl col] [Ht Hc].
  safe_step; safe_step; safe_step.
  - safe_run. apply cond_result_none.
  - by apply safe_pred.
  - safe_run. apply cond_result_none.
  - apply safe_pred; [lia|done|done].
Qed.

Lemma safe_and_loop rounds n acc : (n <= n0)%nat ->
  (SQL_MAX_CONDS < rounds + length acc)%nat -> (length acc <= SQL_MAX_CONDS)%nat -> conds_fit acc ->
  safe n (and_loop sel rounds acc) (fun g => (length g <= SQL_MAX_CONDS)%nat /\ conds_fit g).
Proof.
  revert n acc. induction rounds as [|rounds IH]; intros n acc Hn Hr Hl Hacc; [lia|]. cbn [and_loop].
  destruct (Nat.leb_spec SQL_MAX_CONDS (length acc)); [safe_run|].
  eapply safe_bind; [by apply safe_cond|]. intros [cs stop] (H1 & H2 & H3). cbn [fst snd] in *.
  assert (Hlen : (length (acc ++ cs) <= SQL_MAX_CONDS)%nat).
  { rewrite length_app. destruct (Nat.leb_spec SQL_MAX_CONDS (length acc + 1)); lia. }
  assert (Hfit : conds_fit (acc ++ cs)) by (by apply conds_fit_app).
  destruct stop; [safe_run|]. specialize (H2 eq_refl).
  repeat safe_step; [done|]. apply IH; try done; [lia|].
  rewrite length_app. destruct cs; [done|]. cbn [length]. lia.
Qed.

Lemma safe_and_group n : (n <= n0)%nat ->
  safe n (parse_and_group sel) (fun g => (length g <= SQL_MAX_CONDS)%nat /\ conds_fit g).
Proof. intros Hn. apply safe_and_loop; [done|unfold SQL_MAX_CONDS; cbn [length]; lia|unfold SQL_MAX_CONDS; cbn [length]; lia|constructor]. Qed.

Lemma safe_or_loop rounds n acc : (n <= n0)%nat ->
  (SQL_MAX_GROUPS < rounds + length acc)%nat -> (length acc <= SQL_MAX_GROUPS)%nat -> groups_fit acc ->
  safe n (or_loop sel rounds acc) where_fits.
Proof.
  revert n acc. induction rounds as [|rounds IH]; intros n acc Hn Hr Hl Hacc; [lia|]. cbn [or_loop].
  destruct (Nat.leb_spec SQL_MAX_GROUPS (length acc)); [safe_run; by constructor|].
  eapply safe_bind; [by apply safe_and_group|]. intros g [H1 H2].
  assert (Hfit : groups_fit (acc ++ [g])) by (by apply groups_fit_snoc).
  repeat safe_step; [constructor; [rewrite length_app; cbn; lia|done]|].
  apply IH; [lia|rewrite length_app; cbn; lia|rewrite length_app; cbn; lia|done].
Qed.

Lemma safe_where n : (n <= n0)%nat -> safe n (parse_where sel) where_fits.
Proof. intros Hn. apply safe_or_loop; [done|unfold SQL_MAX_GROUPS; cbn [length]; lia|unfold SQL_MAX_GROUPS; cbn [length]; lia|constructor]. Qed.
End SafeConditions.

(** ** The rest of the parser *)

Ltac array_room := unfold SQL_MAX_COLS, SQL_MAX_JOINS, SQL_MAX_ORDER in *;
  rewrite ?length_app in *; cbn [length] in *; lia.

Lemma safe_column_loop rounds n acc :
  (SQL_MAX_COLS < rounds + length acc)%nat -> array_fits SQL_MAX_COLS column_fits acc ->
  safe n (column_loop rounds acc) (array_fits SQL_MAX_COLS column_fits).
Proof.
  revert n acc. induction rounds as [|rounds IH]; intros n acc Hr Hacc; [destruct Hacc; lia|].
  cbn [column_loop]. do 3 safe_step; [safe_run|].
  destruct (Nat.leb_spec SQL_MAX_COLS (length acc)); [safe_run|]. safe_step.
  assert (Hrest : forall n ty (b : bool), safe n
     (_ ← (if b then p_expect TOK_NULL "NOT 다음에 NULL이 필요합니다" else mret tt);
      more ← p_accept TOK_COMMA;
      if (more : bool) then column_loop rounds (acc ++ [mkColumn a1 ty b])
      else mret (acc ++ [mkColumn a1 ty b])) (array_fits SQL_MAX_COLS column_fits)).
  { intros n1 ty b. eapply (safe_bind _ _ _ (fun _ => True)); [destruct b; safe_run|]. intros _ _.
    assert (Hfit : array_fits SQL_MAX_COLS column_fits (acc ++ [mkColumn a1 ty b])) by (by apply array_fits_snoc).
    repeat safe_step; [done|]. apply IH; [array_room|done]. }
  assert (Hrun : forall n (int text : bool), safe n
     (if negb int && negb text then _ ← p_fail "컬럼 타입(INT 또는 TEXT)이 필요합니다"; mret acc
      else notk ← p_accept TOK_NOT;
           _ ← (if (notk : bool) then p_expect TOK_NULL "NOT 다음에 NULL이 필요합니다" else mret tt);
           more ← p_accept TOK_COMMA;
           if (more : bool) then column_loop rounds (acc ++ [mkColumn a1 (if int then COL_INT else COL_TEXT) notk])
           else mret (acc ++ [mkColumn a1 (if int then COL_INT else COL_TEXT) notk]))
     (array_fits SQL_MAX_COLS column_fits)).
  { intros n1 int text. destruct (_ && _); [safe_run|]. safe_step; apply Hrest. }
  eapply safe_bind; [apply safe_accept_simple|]. intros int _.
  eapply (safe_bind _ _ _ (fun _ => True)); [destruct int; safe_run|]. intros text _. apply Hrun.
Qed.

Lemma safe_create n : safe n parse_create stmt_fits.
Proof.
  unfold parse_create. do 3 safe_step.
  eapply safe_bind; [apply safe_column_loop; [unfold SQL_MAX_COLS; cbn [length]; lia|apply array_fits_nil]|].
  intros cols Hcols. safe_run; done.
Qed.

Lemma safe_create_index n : safe n parse_create_index stmt_fits.
Proof. unfold parse_create_index. safe_run. done. Qed.

Lemma safe_value_loop rounds n acc :
  (SQL_MAX_COLS < rounds + length acc)%nat -> array_fits SQL_MAX_COLS value_fits acc ->
  safe n (value_loop rounds acc) (array_fits SQL_MAX_COLS value_fits).
Proof.
  revert n acc. induction rounds as [|rounds IH]; intros n acc Hr Hacc; [destruct Hacc; lia|].
  cbn [value_loop]. do 3 safe_step; [safe_run|].
  destruct (Nat.leb_spec SQL_MAX_COLS (length acc)); [safe_run|]. safe_step.
  assert (Hfit : array_fits SQL_MAX_COLS value_fits (acc ++ [a1])) by (by apply array_fits_snoc).
  repeat safe_step; [done|]. apply IH; [array_room|done].
Qed.

Lemma safe_insert n : safe n parse_insert stmt_fits.
Proof.
  unfold parse_insert. do 4 safe_step.
  eapply safe_bind; [apply safe_value_loop; [unfold SQL_MAX_COLS; cbn [length]; lia|apply array_fits_nil]|].
  intros vs Hvs. safe_run. done.
Qed.

Lemma item_fits_intro af b t c : name_fits t -> name_fits c -> item_fits (mkItem af b t c).
Proof. done. Qed.
#[export] Hint Resolve item_fits_intro : safe.

Lemma safe_select_item n : safe n parse_select_item item_fits.
Proof.
  unfold parse_select_item. safe_run; try apply item_fits_intro; auto with safe; naive_solver.
Qed.
#[export] Hint Resolve safe_select_item : safe.

Lemma safe_item_loop rounds n acc :
  (SQL_MAX_COLS < rounds + length acc)%nat -> array_fits SQL_MAX_COLS item_fits acc ->
  safe n (item_loop rounds acc) (array_fits SQL_MAX_COLS item_fits).
Proof.
  revert n acc. induction rounds as [|rounds IH]; intros n acc Hr Hacc; [destruct Hacc; lia|].
  cbn [item_loop]. destruct (Nat.leb_spec SQL_MAX_COLS (length acc)); [safe_run|]. safe_step.
  assert (Hfit : array_fits SQL_MAX_COLS item_fits (acc ++ [a])) by (by apply array_fits_snoc).
  repeat safe_step; [done|]. apply IH; [array_room|done].
Qed.

Lemma safe_select_list n :
  safe n parse_select_list (fun r => array_fits SQL_MAX_COLS item_fits r.2).
Proof.
  unfold parse_select_list. repeat safe_step; try apply array_fits_nil.
  all: eapply safe_bind; [apply safe_item_loop; [unfold SQL_MAX_COLS; cbn [length]; lia|apply array_fits_nil]|].
  all: intros; by apply safe_ret.
Qed.

Lemma safe_alias n : safe n parse_alias name_fits.
Proof. unfold parse_alias. safe_run. Qed.
#[export] Hint Resolve safe_alias : safe.

Lemma safe_join_loop rounds n acc :
  (SQL_MAX_JOINS < rounds + length acc)%nat -> array_fits SQL_MAX_JOINS join_fits acc ->
  safe n (join_loop rounds acc) (array_fits SQL_MAX_JOINS join_fits).
Proof.
  revert n acc. induction rounds as [|rounds IH]; intros n acc Hr Hacc; [destruct Hacc; lia|].
  cbn [join_loop]. eapply safe_bind; [apply safe_accept_simple|]. intros l _.
  eapply (safe_bind _ _ _ (fun _ => True)); [destruct l; safe_run|]. intros go _.
  destruct (negb go); [safe_run|]. destruct (Nat.leb_spec SQL_MAX_JOINS (length acc)); [safe_run|].
  do 3 safe_step. eapply safe_bind; [apply safe_colref|]. intros [lt lc] [Hlt Hlc]. cbn [fst snd] in *.
  safe_step. eapply safe_bind; [apply safe_colref|]. intros [rt rc] [Hrt Hrc]. cbn [fst snd] in *.
  apply IH; [array_room|]. apply array_fits_snoc; done.
Qed.

Lemma safe_order_key n : safe n parse_order_key order_fits.
Proof.
  unfold parse_order_key. safe_step.
  eapply (safe_bind _ _ _ (fun k => name_fits k.1.1 /\ name_fits k.1.2)).
  { safe_step; [safe_run|]. eapply safe_bind; [apply safe_colref|]. intros [t c] Htc. by apply safe_ret. }
  intros k [H1 H2]. eapply safe_bind; [apply safe_accept_simple|]. intros d _.
  eapply (safe_bind _ _ _ (fun _ => True)); [destruct d; safe_run|]. intros _ _. by apply safe_ret.
Qed.

Lemma safe_order_loop rounds n acc :
  (SQL_MAX_ORDER < rounds + length acc)%nat -> array_fits SQL_MAX_ORDER order_fits acc ->
  safe n (order_loop rounds acc) (array_fits SQL_MAX_ORDER order_fits).
Proof.
  revert n acc. induction rounds as [|rounds IH]; intros n acc Hr Hacc; [destruct Hacc; lia|].
  cbn [order_loop]. destruct (Nat.leb_spec SQL_MAX_ORDER (length acc)); [safe_run|].
  eapply safe_bind; [apply safe_order_key|]. intros k Hk.
  assert (Hfit : array_fits SQL_MAX_ORDER order_fits (acc ++ [k])) by (by apply array_fits_snoc).
  repeat safe_step; [done|]. apply IH; [array_room|done].
Qed.

Lemma safe_count n kw d msg : safe n (parse_count kw d msg) (fun z => z = d \/ 0 <= z).
Proof.
  unfold parse_count. eapply safe_bind; [apply safe_accept_simple|]. intros b _. destruct b; [|safe_run].
  safe_step. destruct (negb _ || _) eqn:E; [safe_run|]. safe_step. apply safe_ret.
  apply orb_false_iff in E as [_ E]. apply Z.ltb_ge in E. by right.
Qed.

Lemma safe_having n : safe n parse_having (fun h => item_fits h.1.1.2 /\ value_fits h.2).
Proof.
  unfold parse_having. repeat safe_step; [split; [apply item_fits_intro; auto with safe|done]|done].
Qed.

Lemma safe_group n : safe n parse_group (fun tc => name_fits tc.1 /\ name_fits tc.2).
Proof. unfold parse_group. safe_run. Qed.

Lemma safe_order n : safe n parse_order (array_fits SQL_MAX_ORDER order_fits).
Proof.
  unfold parse_order. safe_step; [safe_run|]. safe_step.
  apply safe_order_loop; [unfold SQL_MAX_ORDER; cbn [length]; lia|apply array_fits_nil].
Qed.

Lemma where_fits_nil : where_fits [].
Proof. constructor; [cbn; lia|constructor]. Qed.

Lemma safe_opt_where sel n : (forall n', n = S n' -> safe n' sel select_fits) ->
  safe n (parse_opt_where sel) where_fits.
Proof.
  intros Hsel. unfold parse_opt_where. safe_step; [apply safe_ret, where_fits_nil|].
  apply (safe_where _ n'); [by apply Hsel|done].
Qed.

Lemma safe_select fuel n : (n < fuel)%nat -> safe n (parse_select_stmt fuel) select_fits.
Proof.
  revert n. induction fuel as [|fuel IH]; intros n Hn; [lia|]. cbn [parse_select_stmt].
  eapply safe_bind; [apply safe_select_list|]. intros [[d st] items] Hitems. cbn [snd] in Hitems.
  do 3 safe_step.
  eapply safe_bind; [apply safe_join_loop; [unfold SQL_MAX_JOINS; cbn [length]; lia|apply array_fits_nil]|].
  intros joins Hjoins.
  eapply safe_bind; [apply safe_opt_where; intros n' ->; apply IH; lia|]. intros w Hw.
  eapply safe_bind; [apply safe_group|]. intros [gt gc] [Hgt Hgc].
  eapply safe_bind; [apply safe_having|]. intros [[[hh hi] ho] hv] [Hhi Hhv].
  eapply safe_bind; [apply safe_order|]. intros order Horder.
  eapply safe_bind; [apply safe_count|]. intros limit Hlimit.
  eapply safe_bind; [apply safe_count|]. intros offset Hoffset.
  apply safe_ret. constructor; [|done]. unfold head_fits. cbn in *. repeat split; try done; try apply Hjoins;
    try apply Hitems; try apply Hhi; try apply Horder; lia.
Qed.

Lemma select_fits_explain s : select_fits s -> select_fits (set_explain s).
Proof. intros H. inversion H; subst. constructor; done. Qed.

Lemma i32_fits z : - 2 ^ 31 <= i32 z < 2 ^ 31.
Proof.
  unfold i32, signed. pose proof (Z.mod_pos_bound z (2 ^ 32) ltac:(lia)).
  change (2 ^ (32 - 1)) with (2 ^ 31). destruct (Z.ltb_spec (z mod 2 ^ 32) (2 ^ 31)); lia.
Qed.

Lemma safe_opt_table n : safe n parse_opt_table name_fits.
Proof. unfold parse_opt_table. safe_run. Qed.

Lemma safe_delete fuel n : (n < fuel)%nat -> safe n (parse_delete fuel) stmt_fits.
Proof.
  intros Hn. unfold parse_delete. do 2 safe_step.
  eapply safe_bind; [apply safe_opt_where; intros n' ->; apply safe_select; lia|]. intros w Hw.
  by apply safe_ret.
Qed.

Lemma safe_update fuel n : (n < fuel)%nat -> safe n (parse_update fuel) stmt_fits.
Proof.
  intros Hn. unfold parse_update. do 5 safe_step.
  eapply safe_bind; [apply safe_opt_where; intros n' ->; apply safe_select; lia|]. intros w Hw.
  by apply safe_ret.
Qed.

Lemma safe_statement fuel n : (n < fuel)%nat -> safe n (parse_statement fuel) stmt_fits.
Proof.
  intros Hn. unfold parse_statement. safe_step.
  assert (Hdef : stmt_fits (STMT_CREATE (mkCreate [] [] 0))) by (split; [apply name_fits_nil|apply array_fits_nil]).
  destruct a; try (safe_run; done).
  - do 2 safe_step. safe_step; [apply safe_create_index|apply safe_create].
  - safe_step. apply safe_insert.
  - safe_step. eapply safe_bind; [by apply safe_select|]. intros; by apply safe_ret.
  - safe_step. eapply safe_bind; [apply safe_opt_table|]. intros; by apply safe_ret.
  - do 2 safe_step. safe_step; safe_run; [apply i32_fits|cbn; lia].
  - safe_step. eapply safe_bind; [apply safe_opt_table|]. intros; by apply safe_ret.
  - safe_step. by apply safe_delete.
  - safe_step. by apply safe_update.
  - do 2 safe_step. eapply safe_bind; [by apply safe_select|]. intros.
    apply safe_ret. by apply select_fits_explain.
Qed.

Lemma safe_end n : safe n parse_end (fun _ => True).
Proof. unfold parse_end. safe_run. Qed.

(** C31. Parsing terminates on every text: the recursion over subqueries and IN lists
    never runs out of input-sized fuel.  It yields an error message or a
    statement, and a statement always fits the fixed-size arrays of the C
    structures: names below 64 bytes, texts below 256, at most 32 columns, 8
    groups of 8 conditions, 4 joins and 4 sort keys, at every depth. *)
Theorem sql_parse_total (sql : bytes) :
  exists res, sql_parse sql = Some res /\ forall st, res = inr st -> stmt_fits st.
Proof.
  unfold sql_parse. set (p0 := mkParser sql (tok TOK_EOF) true "").
  assert (Hs : safe (length sql) (st ← parse_statement (S (length sql)); _ ← parse_end; mret st) stmt_fits).
  { eapply safe_bind; [apply safe_statement; lia|]. intros st Hst.
    eapply safe_bind; [apply safe_end|]. intros _ _. by apply safe_ret. }
  destruct (Hs (advance_in p0) (advance_left p0)) as (st & p & E & _ & Hst).
  change (mbind (M := P) ?f p_advance p0) with (f tt (advance_in p0)). cbv beta.
  rewrite E. eexists. split; [done|]. destruct (ok p); [by intros ? [= <-]|done].
Qed.
