(* ===== verification/SqlGrammar.v ===== *)
(** * SQL grammar: what the parser accepts, and what it makes of it (src/src/sql.h)

    The grammar that the parser accepts, which is the one of sql.h without NOT
    BETWEEN ([not_between_refused]), as a type of abstract sentences, their spelling as
    tokens and text, and their meaning as syntax trees: precedence of AND over
    OR, BETWEEN as two comparisons, subqueries at any depth.  The theorem
    [sql_parse_grammar] says that [sql_parse] maps the spelling of a sentence to
    its meaning. *)
From stdpp Require Import strings.
From S2P Require Import Prelude SqlLex SqlParse.

(** ** Spelling of tokens *)

(** Decimal digits of a nonnegative number below [10 ^ fuel]. *)
Fixpoint dec (fuel : nat) (n : Z) : bytes :=
  match fuel with
  | O => []
  | S f => if n <? 10 then [48 + n] else dec f (n / 10) ++ [48 + n mod 10]
  end.

Definition spell_int (z : Z) : bytes := if z <? 0 then 45 :: dec 20 (- z) else dec 20 z.

Fixpoint keyword_text (kws : list (string * TokType)) (t : TokType) : bytes :=
  match kws with
  | [] => []
  | (k, t') :: kws => if decide (t = t') then str k else keyword_text kws t
  end.

Definition symbol_text (t : TokType) : bytes :=
  match t with
  | TOK_LPAREN => str "(" | TOK_RPAREN => str ")" | TOK_COMMA => str "," | TOK_STAR => str "*"
  | TOK_EQ => str "=" | TOK_SEMI => str ";" | TOK_DOT => str "."
  | TOK_LT => str "<" | TOK_GT => str ">" | TOK_LE => str "<=" | TOK_GE => str ">=" | TOK_NE => str "!="
  | _ => []
  end.

(** The token a keyword or symbol is read as. *)
Definition ktok (t : TokType) : Token := mkTok t (keyword_text keywords t) 0.
Definition ident (s : bytes) : Token := mkTok TOK_IDENT s 0.

Definition spell (t : Token) : bytes :=
  match t_type t with
  | TOK_IDENT => t_text t
  | TOK_INT => spell_int (t_int_val t)
  | TOK_STRING => 39 :: t_text t ++ [39]
  | ty => keyword_text keywords ty ++ symbol_text ty
  end.

(** Tokens separated by blanks. *)
Definition render (ts : list Token) : bytes := mjoin ((fun t => spell t ++ [32]) <$> ts).

Definition ident_ok (s : bytes) : bool :=
  (length s <? SQL_NAME_LEN)%nat && (isalpha (peek s) || (peek s =? 95)) &&
  forallb is_ident_char s && bool_decide (keyword_of s = TOK_IDENT).
Definition text_ok (s : bytes) : bool :=
  (length s <? SQL_TEXT_LEN)%nat && forallb (fun c => (0 <? c) && negb (c =? 39)) s.
Definition int_ok (z : Z) : bool := (- 2 ^ 63 <=? z) && (z <? 2 ^ 63).

Definition plain_types : list TokType :=
  (snd <$> keywords) ++ [TOK_LPAREN; TOK_RPAREN; TOK_COMMA; TOK_STAR; TOK_EQ; TOK_SEMI; TOK_DOT;
                         TOK_LT; TOK_GT; TOK_LE; TOK_GE; TOK_NE].

Inductive token_ok : Token -> Prop :=
  | ok_ident s : ident_ok s = true -> token_ok (ident s)
  | ok_int z : int_ok z = true -> token_ok (mkTok TOK_INT [] z)
  | ok_string s : text_ok s = true -> token_ok (mkTok TOK_STRING s 0)
  | ok_plain t : t ∈ plain_types -> token_ok (ktok t).

(** ** Reading tokens back *)

Lemma digits_val_app s c : digits_val (s ++ [c]) = 10 * digits_val s + (c - 48).
Proof. unfold digits_val. by rewrite foldl_app. Qed.

Lemma dec_spec fuel n : 0 <= n < 10 ^ Z.of_nat fuel -> (0 < fuel)%nat ->
  digits_val (dec fuel n) = n /\ forallb isdigit (dec fuel n) = true /\
  (1 <= length (dec fuel n) <= fuel)%nat.
Proof.
  revert n. induction fuel as [|fuel IH]; intros n Hn Hf; [lia|]. cbn [dec].
  destruct (Z.ltb_spec n 10) as [Hlt|Hge].
  - cbn -[Z.add]. split; [unfold digits_val; cbn [foldl]; lia|]. split; [|lia].
    unfold isdigit. rewrite andb_true_r, andb_true_iff, !Z.leb_le. lia.
  - rewrite Nat2Z.inj_succ, Z.pow_succ_r in Hn by lia.
    assert (Hd : 0 <= n / 10 < 10 ^ Z.of_nat fuel).
    { split; [apply Z.div_pos; lia|apply Z.div_lt_upper_bound; lia]. }
    destruct fuel as [|fuel]; [change (10 ^ Z.of_nat 0) with 1 in Hn; lia|].
    destruct (IH (n / 10) Hd ltac:(lia)) as (H1 & H2 & H3).
    pose proof (Z.div_mod n 10 ltac:(lia)). pose proof (Z.mod_pos_bound n 10 ltac:(lia)).
    rewrite digits_val_app, forallb_app, length_app, H1, H2. cbn [length forallb].
    split; [lia|]. split; [|lia]. unfold isdigit. rewrite andb_true_r. cbn [andb].
    rewrite andb_true_iff, !Z.leb_le. lia.
Qed.

Lemma span_all p s c rest : forallb p s = true -> p c = false -> span p (s ++ c :: rest) = (s, c :: rest).
Proof.
  intros Hs Hc. induction s as [|x s IH]; cbn [app span].
  - by rewrite Hc.
  - cbn [forallb] in Hs. apply andb_true_iff in Hs as [Hx Hs]. rewrite Hx, (IH Hs). done.
Qed.

Lemma lex_space s : lex_next (32 :: s) = lex_next s.
Proof.
  unfold lex_next. change (span isspace (32 :: s)) with (let '(a, b) := span isspace s in (32 :: a, b)).
  by destruct (span isspace s).
Qed.

(** A text that does not start with a blank is read from its first byte. *)
Lemma span_noblank c s : isspace c = false -> (span isspace (c :: s)).2 = c :: s.
Proof. intros H. cbn [span]. by rewrite H. Qed.

Lemma isdigit_range c : isdigit c = true <-> 48 <= c <= 57.
Proof. unfold isdigit. rewrite andb_true_iff, !Z.leb_le. lia. Qed.

Lemma lex_digit c s rest ds : isdigit c = true -> forallb isdigit ds = true ->
  s = c :: ds ->
  lex_next (s ++ 32 :: rest) = (mkTok TOK_INT [] (strtol10 (take 63 s)), 32 :: rest).
Proof.
  intros Hc Hds ->. pose proof (proj1 (isdigit_range c) Hc) as Hr. unfold lex_next. cbn [app].
  rewrite span_noblank by (unfold isspace; rewrite orb_false_iff, andb_false_iff, Z.eqb_neq, !Z.leb_gt; lia).
  repeat match goal with |- context [c =? ?k] => destruct (Z.eqb_spec c k); [lia|] end.
  cbn [orb]. rewrite Hc. cbn [orb]. unfold lex_int. destruct (Z.eqb_spec c 45); [lia|].
  rewrite app_comm_cons, span_all; [done| |done]. cbn [forallb]. by rewrite Hc.
Qed.

Lemma lex_spell_int z rest : int_ok z = true ->
  lex_next (spell_int z ++ 32 :: rest) = (mkTok TOK_INT [] z, 32 :: rest).
Proof.
  unfold int_ok. rewrite andb_true_iff, Z.leb_le, Z.ltb_lt. intros Hz.
  assert (Hclamp : clamp_long z = z) by (unfold clamp_long; lia).
  unfold spell_int. destruct (Z.ltb_spec z 0) as [Hneg|Hpos].
  - destruct (dec_spec 20 (- z)) as (H1 & H2 & H3); [change (Z.of_nat 20) with 20; lia|lia|].
    destruct (dec 20 (- z)) as [|d ds] eqn:E; [cbn in H3; lia|].
    cbn [forallb] in H2. apply andb_true_iff in H2 as [Hd Hds].
    unfold lex_next. cbn [app]. rewrite span_noblank by done. cbn [orb Z.eqb Pos.eqb peek].
    change (isdigit 45) with false. rewrite Hd. cbn [orb andb]. unfold lex_int. cbn [Z.eqb Pos.eqb drop].
    rewrite app_comm_cons, span_all; [|by cbn [forallb]; rewrite Hd|done].
    rewrite take_ge by (cbn [length app] in *; lia). cbn [app strtol10]. rewrite H1.
    replace (- - z) with z by lia. by rewrite Hclamp.
  - destruct (dec_spec 20 z) as (H1 & H2 & H3); [change (Z.of_nat 20) with 20; lia|lia|].
    destruct (dec 20 z) as [|d ds] eqn:E; [cbn in H3; lia|].
    cbn [forallb] in H2. apply andb_true_iff in H2 as [Hd Hds].
    rewrite (lex_digit d (d :: ds) rest ds) by done. rewrite take_ge by lia.
    assert (Hs : strtol10 (d :: ds) = clamp_long (digits_val (d :: ds))).
    { apply isdigit_range in Hd. unfold strtol10. destruct d as [|d|d]; try lia.
      destruct (decide (Z.pos d = 45)) as [Heq|Hne]; [lia|].
      repeat (destruct d as [d|d|]; try reflexivity; try lia). }
    rewrite Hs, H1. by rewrite Hclamp.
Qed.

Lemma lex_spell_ident s rest : ident_ok s = true ->
  lex_next (s ++ 32 :: rest) = (ident s, 32 :: rest).
Proof.
  unfold ident_ok. rewrite !andb_true_iff, Nat.ltb_lt, bool_decide_eq_true.
  intros [[[Hl Hc] Hall] Hk]. destruct s as [|c s]; [done|]. cbn [peek] in Hc.
  assert (Hr : 65 <= c <= 90 \/ 95 <= c <= 122).
  { unfold isalpha in Hc. rewrite !orb_true_iff, !andb_true_iff, !Z.leb_le, Z.eqb_eq in Hc. lia. }
  unfold lex_next. cbn [app]. rewrite span_noblank
    by (unfold isspace; rewrite orb_false_iff, andb_false_iff, Z.eqb_neq, !Z.leb_gt; lia).
  repeat match goal with |- context [c =? ?k] =>
    lazymatch k with 95 => fail | _ => destruct (Z.eqb_spec c k); [lia|] end end.
  assert (isdigit c = false) as -> by (unfold isdigit; rewrite andb_false_iff, !Z.leb_gt; lia).
  cbn [orb andb]. rewrite Hc. unfold lex_ident. rewrite app_comm_cons, span_all by done.
  rewrite take_ge by (unfold SQL_NAME_LEN in *; cbn [length] in *; lia). by rewrite Hk.
Qed.

Lemma lex_spell_string s rest : text_ok s = true ->
  lex_next ((39 :: s ++ [39]) ++ 32 :: rest) = (mkTok TOK_STRING s 0, 32 :: rest).
Proof.
  unfold text_ok. rewrite andb_true_iff, Nat.ltb_lt. intros [Hl Hall].
  unfold lex_next. cbn [app]. rewrite span_noblank by done. cbn [orb Z.eqb Pos.eqb].
  unfold lex_string. rewrite <- app_assoc. cbn [app]. rewrite span_all; [|clear Hl|done].
  - cbn [peek Z.eqb Pos.eqb negb drop].
    rewrite take_ge by (unfold SQL_TEXT_LEN in *; lia). done.
  - induction s as [|c s IH]; [done|]. cbn [forallb] in *.
    apply andb_true_iff in Hall as [Hc Hs]. apply andb_true_iff in Hc as [_ ->]. by rewrite IH.
Qed.

Lemma lex_spell_plain t rest : t ∈ plain_types ->
  lex_next (spell (ktok t) ++ 32 :: rest) = (ktok t, 32 :: rest).
Proof.
  intros Ht. unfold plain_types in Ht. cbn [app fmap list_fmap keywords snd] in Ht.
  repeat (apply elem_of_cons in Ht as [->|Ht]; [vm_compute; reflexivity|]).
  by apply not_elem_of_nil in Ht.
Qed.

(** Every token is read back from its spelling. *)
Lemma lex_spell t rest : token_ok t -> lex_next (spell t ++ 32 :: rest) = (t, 32 :: rest).
Proof.
  intros [s Hs|z Hz|s Hs|ty Hty].
  - by apply lex_spell_ident.
  - by apply lex_spell_int.
  - by apply lex_spell_string.
  - by apply lex_spell_plain.
Qed.

Lemma render_cons t ts : render (t :: ts) = spell t ++ 32 :: render ts.
Proof. unfold render. rewrite fmap_cons. cbn [mjoin list_join]. by rewrite <- app_assoc. Qed.

Lemma token_not_error t : token_ok t -> t_type t <> TOK_ERROR.
Proof.
  intros [s Hs|z Hz|s Hs|ty Hty]; try done. cbn. intros ->.
  unfold plain_types in Hty. cbn [app fmap list_fmap keywords snd] in Hty.
  repeat (apply elem_of_cons in Hty as [?|Hty]; [discriminate|]). by apply not_elem_of_nil in Hty.
Qed.

(** ** The parser at a stream of tokens *)

Definition hd_tok (ts : list Token) : Token := match ts with [] => tok TOK_EOF | t :: _ => t end.
Definition hd_type (ts : list Token) : TokType := t_type (hd_tok ts).

(** The state whose current token is the first of [ts], the rest being unread text. *)
Definition parser_at (ts : list Token) : Parser :=
  match ts with
  | [] => mkParser [] (tok TOK_EOF) true ""
  | t :: ts => mkParser (32 :: render ts) t true ""
  end.

Lemma advance_render ts e : Forall token_ok ts -> e = render ts \/ e = 32 :: render ts ->
  forall t, advance_in (mkParser e t true "") = parser_at ts.
Proof.
  intros Hts He t. unfold advance_in. cbn [lex ok err].
  assert (Hlex : lex_next e = match ts with [] => (tok TOK_EOF, []) | t :: ts => (t, 32 :: render ts) end).
  { assert (Hr : lex_next (render ts) = match ts with [] => (tok TOK_EOF, []) | t :: ts => (t, 32 :: render ts) end).
    { destruct ts as [|t0 ts]; [done|]. rewrite render_cons. apply lex_spell. by inversion Hts. }
    destruct He as [->| ->]; [done|]. by rewrite lex_space. }
  rewrite Hlex. destruct ts as [|t0 ts]; [done|].
  rewrite decide_False; [done|]. apply token_not_error. by inversion Hts.
Qed.

(** [m] reads [ts] up to [k] and returns [a], without failure. *)
Definition reads {A} (m : P A) (ts : list Token) (a : A) (k : list Token) : Prop :=
  Forall token_ok ts -> m (parser_at ts) = Some (a, parser_at k) /\ Forall token_ok k.

Lemma reads_ret {A} (a : A) ts : reads (mret a) ts a ts.
Proof. by intros H. Qed.

Lemma reads_bind {A B} (m : P A) (f : A -> P B) ts a k b k' :
  reads m ts a k -> reads (f a) k b k' -> reads (m ≫= f) ts b k'.
Proof.
  intros Hm Hf Hts. destruct (Hm Hts) as [E Hk]. destruct (Hf Hk) as [E' Hk'].
  unfold mbind, P_bind. by rewrite E.
Qed.

Lemma reads_advance t ts : reads p_advance (t :: ts) tt ts.
Proof.
  intros Hts. inversion Hts as [|? ? _ Hts']; subst. split; [|done]. unfold p_advance.
  cbn [parser_at]. rewrite (advance_render ts) by auto. done.
Qed.

Lemma reads_accept t ts : reads (p_accept (t_type t)) (t :: ts) true ts.
Proof.
  intros Hts. destruct (reads_advance t ts Hts) as [E Hk]. split; [|done].
  unfold p_accept. cbn [parser_at cur]. rewrite decide_True by done.
  unfold p_advance in E. cbn [parser_at] in E. by injection E as ->.
Qed.

Lemma reads_reject ty ts : hd_type ts <> ty -> reads (p_accept ty) ts false ts.
Proof.
  intros Hne Hts. split; [|done]. unfold p_accept. destruct ts; cbn in *; by rewrite decide_False.
Qed.

Lemma reads_expect t msg ts : reads (p_expect (t_type t) msg) (t :: ts) tt ts.
Proof. unfold p_expect. eapply reads_bind; [apply reads_accept|]. apply reads_ret. Qed.

Lemma reads_cur_tok ts : reads cur_tok ts (hd_tok ts) ts.
Proof. intros Hts. split; [|done]. by destruct ts. Qed.

Lemma reads_cur_type ts : reads cur_type ts (hd_type ts) ts.
Proof. intros Hts. split; [|done]. by destruct ts. Qed.

Lemma reads_p_ok ts : reads p_ok ts true ts.
Proof. intros Hts. split; [|done]. by destruct ts. Qed.

(** ** Sentences *)

(** Conditions of a WHERE clause; a column reference is a qualifier, possibly
    empty, and a column. *)
Inductive GCond :=
  | GCmp (tc : bytes * bytes) (op : CmpOp) (v : Value)
  | GNull (tc : bytes * bytes) (neg : bool)
  | GLike (tc : bytes * bytes) (neg : bool) (pat : bytes)
  | GBetween (tc : bytes * bytes) (lo hi : Value)
  | GIn (tc : bytes * bytes) (neg : bool) (v : Value) (vs : list Value)
  | GInSub (tc : bytes * bytes) (neg : bool) (s : GSelect)
  | GCmpSub (tc : bytes * bytes) (op : CmpOp) (s : GSelect)
with GSelect :=
  | mkG (h : SelectHead) (w : list (list GCond)).

(** *** Meaning *)

Fixpoint denote_cond (c : GCond) : list Condition :=
  match c with
  | GCmp (t, c) op v => [mkCond t c op v false false false None []]
  | GNull (t, c) neg => [mkCond t c (if neg then CMP_IS_NOT_NULL else CMP_IS_NULL) value0 false false false None []]
  | GLike (t, c) neg p => [mkCond t c (if neg then CMP_NOT_LIKE else CMP_LIKE) (VAL_TEXT p) false false false None []]
  | GBetween (t, c) lo hi => [mkCond t c CMP_GE lo false false false None [];
                              mkCond t c CMP_LE hi false false false None []]
  | GIn (t, c) neg v vs => [mkCond t c CMP_EQ value0 true neg false None (v :: vs)]
  | GInSub (t, c) neg s => [mkCond t c CMP_EQ value0 true neg false (Some (denote_select s)) []]
  | GCmpSub (t, c) op s => [mkCond t c op value0 true false true (Some (denote_select s)) []]
  end
with denote_select (s : GSelect) : SelectStmt :=
  match s with
  | mkG h w => mkSelect h (List.map (fun g => List.concat (List.map denote_cond g)) w)
  end.

(** *** Spelling *)

Fixpoint sep_by (s : TokType) (l : list (list Token)) : list Token :=
  match l with
  | [] => []
  | x :: r => x ++ match r with [] => [] | _ => ktok s :: sep_by s r end
  end.

Definition colref_toks (tc : bytes * bytes) : list Token :=
  match tc.1 with [] => [ident tc.2] | _ => [ident tc.1; ktok TOK_DOT; ident tc.2] end.

Definition value_tok (v : Value) : Token :=
  match v with
  | VAL_INT z => mkTok TOK_INT [] z
  | VAL_TEXT s => mkTok TOK_STRING s 0
  | VAL_NULL => ktok TOK_NULL
  end.

Definition op_type (op : CmpOp) : TokType :=
  match op with
  | CMP_EQ => TOK_EQ | CMP_NE => TOK_NE | CMP_LT => TOK_LT
  | CMP_GT => TOK_GT | CMP_LE => TOK_LE | CMP_GE => TOK_GE
  | _ => TOK_EOF
  end.

Definition agg_text (a : AggFunc) : bytes :=
  match a with
  | AGG_NONE => [] | AGG_COUNT => str "COUNT" | AGG_SUM => str "SUM" | AGG_MIN => str "MIN"
  | AGG_MAX => str "MAX" | AGG_AVG => str "AVG"
  end.

Definition item_toks (it : SelectItem) : list Token :=
  if decide (si_agg it = AGG_NONE) then colref_toks (si_tbl it, si_col it)
  else ident (agg_text (si_agg it)) :: ktok TOK_LPAREN ::
         (if si_star it then [ktok TOK_STAR] else colref_toks (si_tbl it, si_col it)) ++ [ktok TOK_RPAREN].

Definition opt_ident (s : bytes) : list Token := match s with [] => [] | _ => [ident s] end.

Definition join_toks (j : JoinClause) : list Token :=
  (if j_is_left j then [ktok TOK_LEFT; ktok TOK_JOIN] else [ktok TOK_JOIN]) ++
  ident (j_table j) :: opt_ident (j_alias j) ++
  ktok TOK_ON :: colref_toks (j_l_tbl j, j_l_col j) ++ ktok TOK_EQ :: colref_toks (j_r_tbl j, j_r_col j).

Definition order_toks (o : OrderKey) : list Token :=
  match o_col o with
  | [] => [mkTok TOK_INT [] (o_pos o)]
  | _ => colref_toks (o_tbl o, o_col o)
  end ++ (if o_desc o then [ktok TOK_DESC] else []).

(** An optional clause. *)
Definition clause (present : bool) (kw : TokType) (body : list Token) : list Token :=
  if present then ktok kw :: body else [].

Definition nonempty {A} (l : list A) : bool := match l with [] => false | _ => true end.

Definition before_where (h : SelectHead) : list Token :=
  (if s_distinct h then [ktok TOK_DISTINCT] else []) ++
  (if s_star h then [ktok TOK_STAR] else sep_by TOK_COMMA (item_toks <$> s_items h)) ++
  ktok TOK_FROM :: ident (s_table h) :: opt_ident (s_alias h) ++ mjoin (join_toks <$> s_joins h).

Definition after_where (h : SelectHead) : list Token :=
  clause (nonempty (s_group_col h)) TOK_GROUP (ktok TOK_BY :: colref_toks (s_group_tbl h, s_group_col h)) ++
  clause (s_has_having h) TOK_HAVING
    (item_toks (s_having_agg h) ++ [ktok (op_type (s_having_op h)); value_tok (s_having_val h)]) ++
  clause (nonempty (s_order h)) TOK_ORDER (ktok TOK_BY :: sep_by TOK_COMMA (order_toks <$> s_order h)) ++
  clause (0 <=? s_limit h) TOK_LIMIT [mkTok TOK_INT [] (s_limit h)] ++
  clause (negb (s_offset h =? 0)) TOK_OFFSET [mkTok TOK_INT [] (s_offset h)].

Definition neg_toks (neg : bool) : list Token := if neg then [ktok TOK_NOT] else [].

Fixpoint cond_toks (c : GCond) : list Token :=
  match c with
  | GCmp tc op v => colref_toks tc ++ [ktok (op_type op); value_tok v]
  | GNull tc neg => colref_toks tc ++ ktok TOK_IS :: neg_toks neg ++ [ktok TOK_NULL]
  | GLike tc neg p => colref_toks tc ++ neg_toks neg ++ [ktok TOK_LIKE; value_tok (VAL_TEXT p)]
  | GBetween tc lo hi => colref_toks tc ++ [ktok TOK_BETWEEN; value_tok lo; ktok TOK_AND; value_tok hi]
  | GIn tc neg v vs => colref_toks tc ++ neg_toks neg ++ ktok TOK_IN :: ktok TOK_LPAREN ::
      sep_by TOK_COMMA (List.map (fun v => [value_tok v]) (v :: vs)) ++ [ktok TOK_RPAREN]
  | GInSub tc neg s => colref_toks tc ++ neg_toks neg ++ ktok TOK_IN :: ktok TOK_LPAREN ::
      ktok TOK_SELECT :: select_toks s ++ [ktok TOK_RPAREN]
  | GCmpSub tc op s => colref_toks tc ++ ktok (op_type op) :: ktok TOK_LPAREN ::
      ktok TOK_SELECT :: select_toks s ++ [ktok TOK_RPAREN]
  end
with select_toks (s : GSelect) : list Token :=
  match s with
  | mkG h w =>
      before_where h ++
      clause (nonempty w) TOK_WHERE
        (sep_by TOK_OR (List.map (fun g => sep_by TOK_AND (List.map cond_toks g)) w)) ++
      after_where h
  end.

(** *** Well-formed sentences *)

Definition colref_ok (tc : bytes * bytes) : bool := (negb (nonempty tc.1) || ident_ok tc.1) && ident_ok tc.2.
Definition value_ok (v : Value) : bool :=
  match v with VAL_INT z => int_ok z | VAL_TEXT s => text_ok s | VAL_NULL => true end.
Definition cmp_ok (op : CmpOp) : bool := solid (op_type op).
Definition alias_ok (s : bytes) : bool := negb (nonempty s) || ident_ok s.

Definition item_ok (it : SelectItem) : bool :=
  if si_star it then bool_decide (si_agg it = AGG_COUNT) && negb (nonempty (si_tbl it)) && negb (nonempty (si_col it))
  else colref_ok (si_tbl it, si_col it).

Definition join_ok (j : JoinClause) : bool :=
  ident_ok (j_table j) && alias_ok (j_alias j) && colref_ok (j_l_tbl j, j_l_col j) &&
  colref_ok (j_r_tbl j, j_r_col j).

Definition order_ok (o : OrderKey) : bool :=
  if nonempty (o_col o) then colref_ok (o_tbl o, o_col o) && (o_pos o =? 0)
  else negb (nonempty (o_tbl o)) && (- 2 ^ 31 <=? o_pos o) && (o_pos o <? 2 ^ 31).

Definition head_ok (h : SelectHead) : bool :=
  negb (s_explain h) && ident_ok (s_table h) && alias_ok (s_alias h) &&
  (length (s_joins h) <=? SQL_MAX_JOINS)%nat && forallb join_ok (s_joins h) &&
  (if s_star h then negb (nonempty (s_items h)) else nonempty (s_items h)) &&
  (length (s_items h) <=? SQL_MAX_COLS)%nat && forallb item_ok (s_items h) &&
  Bool.eqb (s_has_aggregate h) (any_aggregate (s_items h)) &&
  (if nonempty (s_group_col h) then colref_ok (s_group_tbl h, s_group_col h)
   else negb (nonempty (s_group_tbl h))) &&
  (if s_has_having h then item_ok (s_having_agg h) && cmp_ok (s_having_op h) && value_ok (s_having_val h)
   else bool_decide (s_having_agg h = item0) && bool_decide (s_having_op h = CMP_EQ) &&
        bool_decide (s_having_val h = value0)) &&
  (length (s_order h) <=? SQL_MAX_ORDER)%nat && forallb order_ok (s_order h) &&
  (-1 <=? s_limit h) && (s_limit h <? 2 ^ 63) && (0 <=? s_offset h) && (s_offset h <? 2 ^ 63).

(** A BETWEEN takes two places in its group. *)
Definition cond_places (c : GCond) : nat := match c with GBetween _ _ _ => 2 | _ => 1 end.

Fixpoint cond_ok (c : GCond) : bool :=
  match c with
  | GCmp tc op v => colref_ok tc && cmp_ok op && value_ok v
  | GNull tc _ => colref_ok tc
  | GLike tc _ p => colref_ok tc && text_ok p
  | GBetween tc lo hi => colref_ok tc && value_ok lo && value_ok hi
  | GIn tc _ v vs => colref_ok tc && value_ok v && forallb value_ok vs
  | GInSub tc _ s => colref_ok tc && select_ok s
  | GCmpSub tc op s => colref_ok tc && cmp_ok op && select_ok s
  end
with select_ok (s : GSelect) : bool :=
  match s with
  | mkG h w =>
      head_ok h && (length w <=? SQL_MAX_GROUPS)%nat &&
      forallb (fun g => nonempty g && (List.list_sum (List.map cond_places g) <=? SQL_MAX_CONDS)%nat &&
                        forallb cond_ok g) w
  end.

(** ** Reading the pieces *)

(** The place of a token in the order of the clauses of a SELECT. *)
Definition rank (t : TokType) : nat :=
  match t with
  | TOK_LEFT | TOK_JOIN => 1 | TOK_WHERE => 2 | TOK_GROUP => 3 | TOK_HAVING => 4 | TOK_ORDER => 5
  | TOK_LIMIT => 6 | TOK_OFFSET => 7 | TOK_RPAREN | TOK_SEMI | TOK_EOF => 8
  | _ => 0
  end.

Definition after (n : nat) (k : list Token) : Prop := (n < rank (hd_type k))%nat.

Lemma after_ne n k t : after n k -> (rank t <= n)%nat -> hd_type k <> t.
Proof. unfold after. intros H Hr <-. lia. Qed.

Lemma after_le n m k : after n k -> (m <= n)%nat -> after m k.
Proof. unfold after. lia. Qed.

Lemma after_clause n b kw body k : rank kw = S n -> after (S n) k -> after n (clause b kw body ++ k).
Proof.
  intros Hr Hk. unfold clause. destruct b; cbn [app]; [|eapply after_le; [exact Hk|lia]].
  unfold after, hd_type. cbn [hd_tok ktok t_type]. lia.
Qed.

Lemma ident_copy s : ident_ok s = true -> copy_name63 s = s.
Proof.
  unfold ident_ok. rewrite !andb_true_iff, Nat.ltb_lt. intros [[[Hl _] _] _].
  unfold copy_name63. apply take_ge. unfold SQL_NAME_LEN in *. lia.
Qed.

Lemma ident_nonempty s : ident_ok s = true -> s <> [].
Proof. by destruct s. Qed.

Lemma reads_name s k : ident_ok s = true -> reads parse_name (ident s :: k) s k.
Proof.
  intros Hs. unfold parse_name. eapply reads_bind; [apply reads_cur_tok|]. cbn [hd_tok].
  rewrite decide_True by done. eapply reads_bind; [apply reads_advance|].
  cbn [ident t_text]. rewrite ident_copy by done. apply reads_ret.
Qed.

Lemma reads_colref tc k : colref_ok tc = true -> hd_type k <> TOK_DOT ->
  reads parse_colref (colref_toks tc ++ k) tc k.
Proof.
  destruct tc as [t c]. unfold colref_ok, colref_toks. cbn [fst snd]. intros Hok Hk.
  apply andb_true_iff in Hok as [Ht Hc]. unfold parse_colref.
  destruct t as [|b t].
  - cbn [app]. eapply reads_bind; [apply reads_cur_tok|]. cbn [hd_tok]. rewrite decide_True by done.
    eapply reads_bind; [apply reads_advance|]. eapply reads_bind; [by apply reads_reject|].
    cbn [ident t_text]. rewrite ident_copy by done. apply reads_ret.
  - cbn [nonempty negb orb] in Ht. cbn [app].
    eapply reads_bind; [apply reads_cur_tok|]. cbn [hd_tok]. rewrite decide_True by done.
    eapply reads_bind; [apply reads_advance|].
    eapply reads_bind; [apply (reads_accept (ktok TOK_DOT))|].
    eapply reads_bind; [apply reads_cur_tok|]. cbn [hd_tok]. rewrite decide_True by done.
    eapply reads_bind; [apply reads_advance|]. cbn [ident t_text]. rewrite !ident_copy by done.
    apply reads_ret.
Qed.

Lemma reads_value v k : value_ok v = true -> reads parse_value (value_tok v :: k) v k.
Proof.
  intros Hv. unfold parse_value. eapply reads_bind; [apply reads_cur_tok|]. cbn [hd_tok].
  destruct v as [z|s|]; cbn [value_tok t_type t_int_val t_text ktok].
  1,3: eapply reads_bind; [apply reads_advance|]; apply reads_ret.
  eapply reads_bind; [apply reads_advance|]. cbn in Hv. unfold text_ok in Hv.
  rewrite andb_true_iff, Nat.ltb_lt in Hv. rewrite take_ge by (unfold SQL_TEXT_LEN in *; lia). apply reads_ret.
Qed.

Lemma reads_where_op op k : cmp_ok op = true -> reads parse_where_op (ktok (op_type op) :: k) op k.
Proof.
  intros Hop. unfold parse_where_op. eapply reads_bind; [apply reads_cur_type|].
  destruct op; try discriminate; cbn; (eapply reads_bind; [apply reads_advance|apply reads_ret]).
Qed.

Lemma reads_alias s k : alias_ok s = true -> hd_type k <> TOK_IDENT ->
  reads parse_alias (opt_ident s ++ k) s k.
Proof.
  intros Hs Hk. unfold parse_alias, opt_ident. eapply reads_bind; [apply reads_cur_type|].
  destruct s as [|b s]; cbn [app].
  - rewrite decide_False by done. apply reads_ret.
  - rewrite decide_True by done. by apply reads_name.
Qed.

Lemma agg_of_text a : a <> AGG_NONE -> agg_of (agg_text a) = a /\ ident_ok (agg_text a) = true.
Proof. intros H. destruct a; try done; vm_compute; done. Qed.

Lemma reads_item it k : item_ok it = true -> hd_type k <> TOK_DOT -> hd_type k <> TOK_LPAREN ->
  reads parse_select_item (item_toks it ++ k) it k.
Proof.
  intros Hok Hk1 Hk2. destruct it as [a star t c]. unfold item_ok, item_toks in *. cbn [si_agg si_star si_tbl si_col] in *.
  unfold parse_select_item. destruct (decide (a = AGG_NONE)) as [->|Ha].
  - destruct star; [rewrite bool_decide_false in Hok by done; discriminate|].
    unfold colref_ok in Hok. cbn [fst snd] in Hok. apply andb_true_iff in Hok as [Ht Hc].
    unfold colref_toks. cbn [fst snd]. destruct t as [|b t]; cbn [app].
    + eapply reads_bind; [apply reads_cur_tok|]. cbn [hd_tok ident t_type bool_decide decide].
      rewrite bool_decide_true by done. cbn [negb]. eapply reads_bind; [apply reads_advance|].
      eapply reads_bind; [apply reads_cur_type|]. rewrite decide_False by done.
      eapply reads_bind; [by apply reads_reject|]. cbn [ident t_text]. rewrite ident_copy by done. apply reads_ret.
    + cbn [nonempty negb orb] in Ht.
      eapply reads_bind; [apply reads_cur_tok|]. cbn [hd_tok]. rewrite bool_decide_true by done. cbn [negb].
      eapply reads_bind; [apply reads_advance|]. eapply reads_bind; [apply reads_cur_type|].
      rewrite decide_False by done. eapply reads_bind; [apply (reads_accept (ktok TOK_DOT))|].
      eapply reads_bind; [apply reads_cur_tok|]. cbn [hd_tok]. rewrite decide_True by done.
      eapply reads_bind; [apply reads_advance|]. cbn [ident t_text]. rewrite !ident_copy by done. apply reads_ret.
  - destruct (agg_of_text a Ha) as [Hagg Hid].
    cbn [app].
    eapply reads_bind; [apply reads_cur_tok|]. cbn [hd_tok]. rewrite bool_decide_true by done. cbn [negb].
    eapply reads_bind; [apply reads_advance|]. eapply reads_bind; [apply reads_cur_type|].
    rewrite decide_True by done. cbn [ident t_text]. rewrite ident_copy, Hagg by done.
    rewrite decide_False by done. eapply reads_bind; [apply reads_advance|].
    destruct star.
    + rewrite !andb_true_iff, bool_decide_eq_true in Hok. destruct Hok as [[-> Ht] Hc].
      destruct t, c; try discriminate. cbn [app].
      eapply reads_bind; [apply (reads_accept (ktok TOK_STAR))|]. rewrite decide_True by done.
      eapply reads_bind; [apply (reads_expect (ktok TOK_RPAREN))|]. apply reads_ret.
    + rewrite <- app_assoc. cbn [app]. eapply reads_bind; [apply reads_reject|].
      { unfold colref_toks. cbn. by destruct t. }
      eapply reads_bind; [by apply reads_colref|]. cbn [fst snd].
      eapply reads_bind; [apply (reads_expect (ktok TOK_RPAREN))|]. apply reads_ret.
Qed.

(** *** Lists with commas *)

Section CommaLoop.
Context {A : Type}.
Variables (loop : nat -> list A -> P (list A)) (toks : A -> list Token) (max : nat).
Variables (good : A -> bool) (stops : list Token -> Prop).
Hypothesis Hcomma : forall k, stops (ktok TOK_COMMA :: k).
(** One round of the loop, with a comma after the element and without. *)
Hypothesis Hmore : forall rounds acc x k res k', good x = true -> (length acc < max)%nat ->
  reads (loop rounds (acc ++ [x])) k res k' ->
  reads (loop (S rounds) acc) (toks x ++ ktok TOK_COMMA :: k) res k'.
Hypothesis Hlast : forall rounds acc x k, good x = true -> (length acc < max)%nat ->
  stops k -> hd_type k <> TOK_COMMA ->
  reads (loop (S rounds) acc) (toks x ++ k) (acc ++ [x]) k.

Lemma reads_comma_loop l rounds acc k : l <> [] -> forallb good l = true ->
  (length acc + length l <= max)%nat -> (length l <= rounds)%nat -> stops k -> hd_type k <> TOK_COMMA ->
  reads (loop rounds acc) (sep_by TOK_COMMA (toks <$> l) ++ k) (acc ++ l) k.
Proof.
  intros Hne. revert rounds acc. induction l as [|x l IH]; [done|].
  intros rounds acc Hg Hmax Hr Hs Hk. cbn [forallb length] in *. apply andb_true_iff in Hg as [Hx Hg].
  destruct rounds as [|rounds]; [lia|]. rewrite fmap_cons. cbn [sep_by].
  destruct l as [|y l].
  - cbn [fmap list_fmap]. rewrite app_nil_r. apply Hlast; [done|lia|done|done].
  - rewrite fmap_cons in *. rewrite <- app_assoc. cbn [app]. apply Hmore; [done|lia|].
    replace (acc ++ x :: y :: l) with ((acc ++ [x]) ++ y :: l) by (by rewrite <- app_assoc).
    apply IH; try done; [rewrite length_app; cbn [length] in *; lia|cbn [length] in *; lia].
Qed.
End CommaLoop.

Lemma reads_in_list vs fuel k : vs <> [] -> forallb value_ok vs = true -> (length vs <= fuel)%nat ->
  hd_type k <> TOK_COMMA ->
  reads (in_list fuel []) (sep_by TOK_COMMA ((fun v => [value_tok v]) <$> vs) ++ k) vs k.
Proof.
  intros Hne Hvs Hf Hk.
  apply (reads_comma_loop in_list (fun v => [value_tok v]) (length vs) value_ok (fun _ => True)); try done.
  - intros rounds acc x k0 res k' Hx _ Hr. cbn [in_list app].
    eapply reads_bind; [by apply reads_value|]. eapply reads_bind; [apply (reads_accept (ktok TOK_COMMA))|]. done.
  - intros rounds acc x k0 Hx _ _ Hk0. cbn [in_list app].
    eapply reads_bind; [by apply reads_value|]. eapply reads_bind; [by apply reads_reject|]. apply reads_ret.
Qed.

Definition item_stop (k : list Token) : Prop := hd_type k <> TOK_DOT /\ hd_type k <> TOK_LPAREN.

Lemma reads_item_loop l k : l <> [] -> forallb item_ok l = true -> (length l <= SQL_MAX_COLS)%nat ->
  item_stop k -> hd_type k <> TOK_COMMA ->
  reads (item_loop (S SQL_MAX_COLS) []) (sep_by TOK_COMMA (item_toks <$> l) ++ k) l k.
Proof.
  intros Hne Hl Hlen Hs Hk.
  apply (reads_comma_loop item_loop item_toks SQL_MAX_COLS item_ok item_stop); try done; [..|lia].
  - intros rounds acc x k0 res k' Hx Hacc Hr. cbn [item_loop].
    destruct (Nat.leb_spec SQL_MAX_COLS (length acc)); [lia|].
    eapply reads_bind; [by apply reads_item|]. eapply reads_bind; [apply (reads_accept (ktok TOK_COMMA))|]. done.
  - intros rounds acc x k0 Hx Hacc [Hs1 Hs2] Hk0. cbn [item_loop].
    destruct (Nat.leb_spec SQL_MAX_COLS (length acc)); [lia|].
    eapply reads_bind; [by apply reads_item|]. eapply reads_bind; [by apply reads_reject|]. apply reads_ret.
Qed.

Lemma reads_value_loop l k : forallb value_ok l = true -> (length l <= SQL_MAX_COLS)%nat ->
  hd_type k = TOK_RPAREN ->
  reads (value_loop (S SQL_MAX_COLS) []) (sep_by TOK_COMMA ((fun v => [value_tok v]) <$> l) ++ k) l k.
Proof.
  intros Hl Hlen Hk. destruct (decide (l = [])) as [->|Hne].
  { cbn [fmap list_fmap sep_by app value_loop]. eapply reads_bind; [apply reads_p_ok|].
    eapply reads_bind; [apply reads_cur_type|]. rewrite bool_decide_true by done. apply reads_ret. }
  assert (Hno : forall x k0, value_ok x = true -> hd_type ([value_tok x] ++ k0) <> TOK_RPAREN).
  { intros x k0 _. by destruct x. }
  apply (reads_comma_loop value_loop (fun v => [value_tok v]) SQL_MAX_COLS value_ok (fun _ => True)); try done;
    [..|lia|by rewrite Hk].
  - intros rounds acc x k0 res k' Hx Hacc Hr. cbn [value_loop].
    eapply reads_bind; [apply reads_p_ok|]. eapply reads_bind; [apply reads_cur_type|].
    rewrite bool_decide_false by (by apply Hno). cbn [negb orb].
    destruct (Nat.leb_spec SQL_MAX_COLS (length acc)); [lia|]. cbn [app].
    eapply reads_bind; [by apply reads_value|]. eapply reads_bind; [apply (reads_accept (ktok TOK_COMMA))|]. done.
  - intros rounds acc x k0 Hx Hacc _ Hk0. cbn [value_loop].
    eapply reads_bind; [apply reads_p_ok|]. eapply reads_bind; [apply reads_cur_type|].
    rewrite bool_decide_false by (by apply Hno). cbn [negb orb].
    destruct (Nat.leb_spec SQL_MAX_COLS (length acc)); [lia|]. cbn [app].
    eapply reads_bind; [by apply reads_value|]. eapply reads_bind; [by apply reads_reject|]. apply reads_ret.
Qed.

(** *** Sort keys *)

Definition order_stop (k : list Token) : Prop :=
  hd_type k <> TOK_DOT /\ hd_type k <> TOK_DESC /\ hd_type k <> TOK_ASC.

Lemma reads_order_key o k : order_ok o = true -> order_stop k ->
  reads parse_order_key (order_toks o ++ k) o k.
Proof.
  intros Ho (Hk1 & Hk2 & Hk3). destruct o as [t c pos desc]. unfold order_ok, order_toks in *.
  cbn [o_tbl o_col o_pos o_desc] in *. unfold parse_order_key. rewrite <- app_assoc.
  assert (Hend : forall tc z, reads
    (desc0 ← p_accept TOK_DESC; _ ← (if (desc0 : bool) then mret true else p_accept TOK_ASC);
     mret (mkOrder tc.1 tc.2 z desc0)) ((if desc then [ktok TOK_DESC] else []) ++ k) (mkOrder tc.1 tc.2 z desc) k).
  { intros tc z. destruct desc; cbn [app].
    - eapply reads_bind; [apply (reads_accept (ktok TOK_DESC))|]. eapply reads_bind; [apply reads_ret|]. apply reads_ret.
    - eapply reads_bind; [by apply reads_reject|]. eapply reads_bind; [by apply reads_reject|]. apply reads_ret. }
  destruct c as [|b c]; cbn [nonempty] in Ho.
  - rewrite !andb_true_iff, Z.leb_le, Z.ltb_lt in Ho. destruct Ho as [[Ht H1] H2]. destruct t; [|discriminate].
    cbn [app]. eapply reads_bind; [apply reads_cur_tok|]. cbn [hd_tok t_type t_int_val].
    rewrite decide_True by done. eapply reads_bind.
    { eapply reads_bind; [apply reads_advance|]. apply reads_ret. }
    unfold i32. rewrite signed_small by lia. apply (Hend ([], []) pos).
  - apply andb_true_iff in Ho as [Hc Hp]. apply Z.eqb_eq in Hp as ->.
    eapply reads_bind; [apply reads_cur_tok|]. rewrite decide_False.
    2: { unfold colref_toks. cbn. by destruct t. }
    eapply reads_bind.
    { eapply reads_bind; [apply reads_colref; [exact Hc|by destruct desc]|]. apply reads_ret. }
    apply (Hend (t, b :: c) 0).
Qed.

Lemma reads_order_loop l k : l <> [] -> forallb order_ok l = true -> (length l <= SQL_MAX_ORDER)%nat ->
  order_stop k -> hd_type k <> TOK_COMMA ->
  reads (order_loop (S SQL_MAX_ORDER) []) (sep_by TOK_COMMA (order_toks <$> l) ++ k) l k.
Proof.
  intros Hne Hl Hlen Hs Hk.
  apply (reads_comma_loop order_loop order_toks SQL_MAX_ORDER order_ok order_stop); try done; [..|lia].
  - intros rounds acc x k0 res k' Hx Hacc Hr. cbn [order_loop].
    destruct (Nat.leb_spec SQL_MAX_ORDER (length acc)); [lia|].
    eapply reads_bind; [by apply reads_order_key|]. eapply reads_bind; [apply (reads_accept (ktok TOK_COMMA))|]. done.
  - intros rounds acc x k0 Hx Hacc Hs0 Hk0. cbn [order_loop].
    destruct (Nat.leb_spec SQL_MAX_ORDER (length acc)); [lia|].
    eapply reads_bind; [by apply reads_order_key|]. eapply reads_bind; [by apply reads_reject|]. apply reads_ret.
Qed.

(** *** Clauses *)

Lemma length_render ts : (length ts <= length (render ts))%nat.
Proof.
  induction ts as [|t ts IH]; [cbn; lia|]. rewrite render_cons, length_app. cbn [length]. lia.
Qed.

Lemma reads_input_left {B} (f : nat -> P B) ts b k :
  (forall n, (length ts <= n)%nat -> reads (f n) ts b k) -> reads (input_left ≫= f) ts b k.
Proof.
  intros H Hts. unfold mbind, P_bind, input_left. apply H; [|done].
  destruct ts as [|t ts]; cbn [parser_at lex length]; [lia|]. pose proof (length_render ts). lia.
Qed.

Lemma length_sep_by s l : Forall (fun x => x <> []) l -> (length l <= length (sep_by s l))%nat.
Proof.
  induction 1 as [|x l Hx Hl IH]; [cbn; lia|]. cbn [sep_by]. rewrite length_app.
  destruct x; [done|]. destruct l; cbn [length] in *; lia.
Qed.

Lemma hd_colref tc k : hd_type (colref_toks tc ++ k) = TOK_IDENT.
Proof. unfold colref_toks. by destruct tc.1. Qed.

Lemma hd_items l k : l <> [] -> hd_type (sep_by TOK_COMMA (item_toks <$> l) ++ k) = TOK_IDENT.
Proof.
  destruct l as [|it l]; [done|]. intros _. rewrite fmap_cons. cbn [sep_by]. rewrite <- app_assoc.
  unfold item_toks at 1. case_decide; [apply hd_colref|done].
Qed.

Lemma reads_select_list h k : head_ok h = true -> hd_type k = TOK_FROM ->
  reads parse_select_list
    ((if s_distinct h then [ktok TOK_DISTINCT] else []) ++
     (if s_star h then [ktok TOK_STAR] else sep_by TOK_COMMA (item_toks <$> s_items h)) ++ k)
    (s_distinct h, s_star h, s_items h) k.
Proof.
  unfold head_ok. rewrite !andb_true_iff. intros Hh Hk. destruct_and! Hh.
  assert (Hitems : reads (star ← p_accept TOK_STAR;
     if (star : bool) then mret (s_distinct h, true, [])
     else items ← item_loop (S SQL_MAX_COLS) []; mret (s_distinct h, false, items))
     ((if s_star h then [ktok TOK_STAR] else sep_by TOK_COMMA (item_toks <$> s_items h)) ++ k)
     (s_distinct h, s_star h, s_items h) k).
  { destruct (s_star h).
    - destruct (s_items h); [|discriminate]. cbn [app].
      eapply reads_bind; [apply (reads_accept (ktok TOK_STAR))|]. apply reads_ret.
    - eapply reads_bind.
      { apply reads_reject. rewrite hd_items; [done|]. by destruct (s_items h). }
      eapply reads_bind; [apply reads_item_loop|apply reads_ret]; try done.
      + by destruct (s_items h).
      + by apply Nat.leb_le.
      + split; by rewrite Hk.
      + by rewrite Hk. }
  unfold parse_select_list. destruct (s_distinct h); cbn [app].
  - eapply reads_bind; [apply (reads_accept (ktok TOK_DISTINCT))|]. exact Hitems.
  - eapply reads_bind; [apply reads_reject|exact Hitems].
    destruct (s_star h); [done|]. rewrite hd_items; [done|]. by destruct (s_items h).
Qed.

Lemma reads_join_loop js rounds acc k : forallb join_ok js = true ->
  (length acc + length js <= SQL_MAX_JOINS)%nat -> (length js < rounds)%nat -> after 1 k ->
  reads (join_loop rounds acc) (mjoin (join_toks <$> js) ++ k) (acc ++ js) k.
Proof.
  revert rounds acc. induction js as [|j js IH]; intros rounds acc Hjs Hmax Hr Hk.
  { destruct rounds as [|rounds]; [cbn in Hr; lia|]. cbn [join_loop fmap list_fmap]. rewrite app_nil_r.
    change (mjoin [] ++ k) with k.
    eapply reads_bind; [apply reads_reject; by eapply after_ne|].
    eapply reads_bind; [apply reads_reject; by eapply after_ne|]. apply reads_ret. }
  cbn [forallb length] in *. apply andb_true_iff in Hjs as [Hj Hjs].
  unfold join_ok in Hj. rewrite !andb_true_iff in Hj. destruct Hj as [[[Hj1 Hj2] Hj3] Hj4].
  destruct rounds as [|rounds]; [lia|]. cbn [join_loop]. rewrite fmap_cons. cbn [mjoin list_join].
  change (list_join (join_toks <$> js)) with (mjoin (join_toks <$> js)).
  set (rest := mjoin (join_toks <$> js) ++ k).
  assert (Hrest : after 0 rest).
  { unfold rest. destruct js as [|j' js']; [by eapply after_le; [exact Hk|lia]|].
    rewrite fmap_cons. cbn [mjoin list_join]. unfold join_toks, after. destruct (j_is_left j'); cbn; lia. }
  destruct j as [isl tb al lt lc rt rc]. unfold join_toks in *. cbn [j_is_left j_table j_alias j_l_tbl j_l_col j_r_tbl j_r_col] in *.
  assert (Hbody : reads
    (if (SQL_MAX_JOINS <=? length acc)%nat then _ ← p_fail "JOIN이 너무 많습니다"; mret acc
     else table ← parse_name; alias ← parse_alias;
          _ ← p_expect TOK_ON "JOIN 다음에 ON이 필요합니다";
          '(lt0, lc0) ← parse_colref;
          _ ← p_expect TOK_EQ "ON 조건은 <컬럼> = <컬럼> 형태여야 합니다";
          '(rt0, rc0) ← parse_colref;
          join_loop rounds (acc ++ [mkJoin isl table alias lt0 lc0 rt0 rc0]))
    ((ident tb :: opt_ident al ++ ktok TOK_ON :: colref_toks (lt, lc) ++ ktok TOK_EQ :: colref_toks (rt, rc)) ++ rest)
    (acc ++ mkJoin isl tb al lt lc rt rc :: js) k).
  { destruct (Nat.leb_spec SQL_MAX_JOINS (length acc)); [lia|]. cbn [app].
    eapply reads_bind; [by apply reads_name|]. rewrite <- app_assoc. cbn [app].
    eapply reads_bind; [by apply reads_alias|].
    eapply reads_bind; [apply (reads_expect (ktok TOK_ON))|]. rewrite <- app_assoc. cbn [app].
    eapply reads_bind; [by apply reads_colref|]. cbn [fst snd].
    eapply reads_bind; [apply (reads_expect (ktok TOK_EQ))|].
    eapply reads_bind; [apply reads_colref; [done|by eapply after_ne]|]. cbn [fst snd].
    replace (acc ++ mkJoin isl tb al lt lc rt rc :: js) with ((acc ++ [mkJoin isl tb al lt lc rt rc]) ++ js)
      by (by rewrite <- app_assoc).
    apply IH; try done; [rewrite length_app; cbn [length]; lia|lia]. }
  rewrite <- !app_assoc. destruct isl; cbn [app].
  - eapply reads_bind; [apply (reads_accept (ktok TOK_LEFT))|]. cbv iota.
    eapply reads_bind.
    { eapply reads_bind; [by apply reads_reject|].
      eapply reads_bind; [apply (reads_expect (ktok TOK_JOIN))|]. apply reads_ret. }
    cbn [negb]. exact Hbody.
  - eapply reads_bind; [by apply reads_reject|]. cbv iota.
    eapply reads_bind; [apply (reads_accept (ktok TOK_JOIN))|]. cbn [negb]. exact Hbody.
Qed.

Lemma reads_group t c k : (if nonempty c then colref_ok (t, c) else negb (nonempty t)) = true ->
  after 3 k ->
  reads parse_group (clause (nonempty c) TOK_GROUP (ktok TOK_BY :: colref_toks (t, c)) ++ k) (t, c) k.
Proof.
  intros H Hk. unfold parse_group, clause. destruct c as [|b c]; cbn [nonempty app] in *.
  - destruct t; [|discriminate]. eapply reads_bind; [apply reads_reject; by eapply after_ne|]. apply reads_ret.
  - eapply reads_bind; [apply (reads_accept (ktok TOK_GROUP))|]. cbv iota.
    eapply reads_bind; [apply (reads_expect (ktok TOK_BY))|].
    apply reads_colref; [done|by eapply after_ne; [|cbn; lia]].
Qed.

Lemma reads_having h k :
  (if s_has_having h then item_ok (s_having_agg h) && cmp_ok (s_having_op h) && value_ok (s_having_val h)
   else bool_decide (s_having_agg h = item0) && bool_decide (s_having_op h = CMP_EQ) &&
        bool_decide (s_having_val h = value0)) = true -> after 4 k ->
  reads parse_having
    (clause (s_has_having h) TOK_HAVING
       (item_toks (s_having_agg h) ++ [ktok (op_type (s_having_op h)); value_tok (s_having_val h)]) ++ k)
    (s_has_having h, s_having_agg h, s_having_op h, s_having_val h) k.
Proof.
  intros H Hk. unfold parse_having, clause. destruct (s_has_having h).
  - rewrite !andb_true_iff in H. destruct H as [[H1 H2] H3]. cbn [app]. rewrite <- app_assoc. cbn [app].
    eapply reads_bind; [apply (reads_accept (ktok TOK_HAVING))|]. cbv iota.
    eapply reads_bind; [apply reads_item; [done|by destruct (s_having_op h)..]|].
    eapply reads_bind; [by apply reads_where_op|]. eapply reads_bind; [by apply reads_value|]. apply reads_ret.
  - rewrite !andb_true_iff, !bool_decide_eq_true in H. destruct H as [[-> ->] ->]. cbn [app].
    eapply reads_bind; [apply reads_reject; by eapply after_ne|]. apply reads_ret.
Qed.

Lemma reads_order l k : forallb order_ok l = true -> (length l <= SQL_MAX_ORDER)%nat -> after 5 k ->
  reads parse_order
    (clause (nonempty l) TOK_ORDER (ktok TOK_BY :: sep_by TOK_COMMA (order_toks <$> l)) ++ k) l k.
Proof.
  intros Hl Hlen Hk. unfold parse_order, clause. destruct (decide (l = [])) as [->|Hne].
  - cbn [nonempty app]. eapply reads_bind; [apply reads_reject; by eapply after_ne|]. apply reads_ret.
  - destruct l as [|o l]; [done|]. cbn [nonempty app].
    eapply reads_bind; [apply (reads_accept (ktok TOK_ORDER))|]. cbv iota.
    eapply reads_bind; [apply (reads_expect (ktok TOK_BY))|].
    apply reads_order_loop; try done; [repeat split|]; (eapply after_ne; [exact Hk|cbn; lia]).
Qed.

Lemma reads_count kw d msg z b k : (b = false -> z = d /\ hd_type k <> kw) -> (b = true -> 0 <= z) ->
  reads (parse_count kw d msg) (clause b kw [mkTok TOK_INT [] z] ++ k) z k.
Proof.
  intros H0 H1. unfold parse_count, clause. destruct b; cbn [app].
  - eapply reads_bind; [apply (reads_accept (ktok kw))|]. cbv iota.
    eapply reads_bind; [apply reads_cur_tok|]. cbn [hd_tok t_type t_int_val].
    rewrite bool_decide_true by done. destruct (Z.ltb_spec z 0); [specialize (H1 eq_refl); lia|]. cbn [negb orb].
    eapply reads_bind; [apply reads_advance|]. apply reads_ret.
  - destruct (H0 eq_refl) as [-> Hk]. eapply reads_bind; [by apply reads_reject|]. apply reads_ret.
Qed.

(** *** Conditions *)

Section ReadConditions.
Variables (sel : P SelectStmt) (bound : nat).
(** Subqueries shorter than the bound are read correctly. *)
Hypothesis Hsel : forall s k, select_ok s = true -> (length (select_toks s) < bound)%nat -> after 7 k ->
  reads sel (select_toks s ++ k) (denote_select s) k.

Lemma cmp_type_ne op t : cmp_ok op = true ->
  t ∈ [TOK_LIKE; TOK_IN; TOK_BETWEEN; TOK_IS; TOK_NOT; TOK_DOT] -> op_type op <> t.
Proof.
  intros Hop Ht. repeat (apply elem_of_cons in Ht as [->|Ht]; [by destruct op|]).
  by apply not_elem_of_nil in Ht.
Qed.

Lemma reads_pred c full k : cond_ok c = true -> (length (cond_toks c) <= bound)%nat ->
  (full = true -> cond_places c = 1%nat) ->
  reads (parse_cond sel full) (cond_toks c ++ k) (denote_cond c, false) k.
Proof.
  intros Hc Hlen Hfull. unfold parse_cond.
  assert (Hneg : forall tc neg ty r res, colref_ok tc = true ->
    ty = TOK_LIKE \/ ty = TOK_IN ->
    reads (parse_pred sel full tc.1 tc.2 neg) (ktok ty :: r ++ k) res k ->
    reads (parse_cond sel full) ((colref_toks tc ++ neg_toks neg ++ ktok ty :: r) ++ k) res k).
  { intros tc neg ty r res Htc Hty Hr. unfold parse_cond. rewrite <- !app_assoc. cbn [app].
    eapply reads_bind; [apply reads_colref; [done|]|].
    { destruct neg; cbn; [done|]. destruct Hty; subst; done. }
    destruct tc as [t c0]. cbn [fst snd] in Hr. destruct neg; cbn [neg_toks app].
    - eapply reads_bind; [apply (reads_accept (ktok TOK_NOT))|].
      eapply reads_bind; [apply reads_cur_type|]. unfold hd_type. cbn [hd_tok ktok t_type andb].
      destruct Hty; subst; exact Hr.
    - eapply reads_bind; [apply reads_reject; by destruct Hty; subst|].
      eapply reads_bind; [apply reads_cur_type|]. exact Hr. }
  assert (Hpos : forall tc ty r res, colref_ok tc = true -> ty <> TOK_DOT -> ty <> TOK_NOT ->
    reads (parse_pred sel full tc.1 tc.2 false) (ktok ty :: r ++ k) res k ->
    reads (parse_cond sel full) ((colref_toks tc ++ ktok ty :: r) ++ k) res k).
  { intros tc ty r res Htc H1 H2 Hr. unfold parse_cond. rewrite <- app_assoc. cbn [app].
    eapply reads_bind; [by apply reads_colref|]. destruct tc as [t c0]. cbn [fst snd] in Hr.
    eapply reads_bind; [by apply reads_reject|]. eapply reads_bind; [apply reads_cur_type|]. exact Hr. }
  change (reads (parse_cond sel full) (cond_toks c ++ k) (denote_cond c, false) k).
  destruct c as [tc op v|tc neg|tc neg p|tc lo hi|tc neg v vs|tc neg s|tc op s]; cbn [cond_ok cond_toks cond_places] in *.
  - rewrite !andb_true_iff in Hc. destruct Hc as [[Htc Hop] Hv].
    apply Hpos; [done|apply cmp_type_ne; [done|set_solver]..|]. destruct tc as [t c]. cbn [fst snd denote_cond app].
    unfold parse_pred. do 4 (eapply reads_bind; [apply reads_reject, cmp_type_ne; [done|set_solver]|]).
    eapply reads_bind; [by apply reads_where_op|]. eapply reads_bind; [apply reads_cur_type|].
    rewrite decide_False by (by destruct v). eapply reads_bind; [by apply reads_value|]. apply reads_ret.
  - apply Hpos; [done..|]. destruct tc as [t c]. cbn [fst snd denote_cond].
    unfold parse_pred. do 3 (eapply reads_bind; [by apply reads_reject|]).
    eapply reads_bind; [apply (reads_accept (ktok TOK_IS))|]. cbv iota. destruct neg; cbn [neg_toks app].
    + eapply reads_bind; [apply (reads_accept (ktok TOK_NOT))|].
      eapply reads_bind; [apply (reads_expect (ktok TOK_NULL))|]. apply reads_ret.
    + eapply reads_bind; [by apply reads_reject|].
      eapply reads_bind; [apply (reads_expect (ktok TOK_NULL))|]. apply reads_ret.
  - apply andb_true_iff in Hc as [Htc Hp]. apply Hneg; [done|by left|]. destruct tc as [t c]. cbn [fst snd denote_cond app].
    unfold parse_pred. eapply reads_bind; [apply (reads_accept (ktok TOK_LIKE))|]. cbv iota.
    eapply reads_bind; [by apply (reads_value (VAL_TEXT p))|]. apply reads_ret.
  - rewrite !andb_true_iff in Hc. destruct Hc as [[Htc Hlo] Hhi]. apply Hpos; [done..|].
    destruct full; [by specialize (Hfull eq_refl)|].
    assert (Hcopy : copy_name63 tc.1 = tc.1 /\ copy_name63 tc.2 = tc.2).
    { unfold colref_ok in Htc. apply andb_true_iff in Htc as [Ht Hc]. split; [|by apply ident_copy].
      destruct (tc.1) eqn:E; [done|]. rewrite <- E in *. apply ident_copy. rewrite E in Ht |- *. done. }
    destruct tc as [t c]. cbn [fst snd denote_cond app] in *. destruct Hcopy as [Hc1 Hc2].
    unfold parse_pred. do 2 (eapply reads_bind; [by apply reads_reject|]).
    eapply reads_bind; [apply (reads_accept (ktok TOK_BETWEEN))|]. cbv iota.
    eapply reads_bind; [by apply reads_value|]. eapply reads_bind; [apply (reads_expect (ktok TOK_AND))|].
    cbv zeta iota. eapply reads_bind; [by apply reads_value|]. rewrite Hc1, Hc2. apply reads_ret.
  - rewrite !andb_true_iff in Hc. destruct Hc as [[Htc Hv] Hvs]. apply Hneg; [done|by right|].
    destruct tc as [t c]. cbn [fst snd denote_cond].
    unfold parse_pred. eapply reads_bind; [by apply reads_reject|].
    eapply reads_bind; [apply (reads_accept (ktok TOK_IN))|]. cbv iota. cbn [app].
    eapply reads_bind; [apply (reads_expect (ktok TOK_LPAREN))|]. eapply reads_bind; [apply reads_cur_type|].
    rewrite decide_False by (by destruct v, vs).
    apply reads_input_left. intros m Hm.
    change (List.map (fun v => [value_tok v]) (v :: vs)) with ((fun v => [value_tok v]) <$> v :: vs) in *.
    rewrite <- app_assoc in Hm |- *.
    eapply reads_bind; [apply reads_in_list; [done|cbn [forallb]; by rewrite Hv| |done]|].
    { pose proof (length_sep_by TOK_COMMA ((fun v => [value_tok v]) <$> v :: vs)) as Hl.
      rewrite length_fmap in Hl. rewrite length_app in Hm. cbn [length app] in *.
      specialize (Hl ltac:(apply list.Forall_fmap, list.Forall_forall; done)). lia. }
    cbn [app]. eapply reads_bind; [apply (reads_expect (ktok TOK_RPAREN))|]. apply reads_ret.
  - apply andb_true_iff in Hc as [Htc Hs]. apply Hneg; [done|by right|]. destruct tc as [t c]. cbn [fst snd denote_cond].
    unfold parse_pred. eapply reads_bind; [by apply reads_reject|].
    eapply reads_bind; [apply (reads_accept (ktok TOK_IN))|]. cbv iota. cbn [app].
    eapply reads_bind; [apply (reads_expect (ktok TOK_LPAREN))|]. eapply reads_bind; [apply reads_cur_type|].
    rewrite decide_True by done. eapply reads_bind; [apply reads_advance|]. rewrite <- app_assoc. cbn [app].
    eapply reads_bind; [apply Hsel; [done| |unfold after; cbn; lia]|].
    { rewrite !length_app in Hlen. cbn [length] in Hlen. rewrite length_app in Hlen. cbn [length] in Hlen. lia. }
    eapply reads_bind; [apply (reads_expect (ktok TOK_RPAREN))|]. apply reads_ret.
  - rewrite !andb_true_iff in Hc. destruct Hc as [[Htc Hop] Hs].
    apply Hpos; [done|apply cmp_type_ne; [done|set_solver]..|]. destruct tc as [t c]. cbn [fst snd denote_cond app].
    unfold parse_pred. do 4 (eapply reads_bind; [apply reads_reject, cmp_type_ne; [done|set_solver]|]).
    eapply reads_bind; [by apply reads_where_op|]. eapply reads_bind; [apply reads_cur_type|].
    rewrite decide_True by done. eapply reads_bind; [apply reads_advance|].
    eapply reads_bind; [apply (reads_expect (ktok TOK_SELECT))|]. rewrite <- app_assoc. cbn [app].
    eapply reads_bind; [apply Hsel; [done| |unfold after; cbn; lia]|].
    { rewrite !length_app in Hlen. cbn [length] in Hlen. rewrite length_app in Hlen. cbn [length] in Hlen. lia. }
    eapply reads_bind; [apply (reads_expect (ktok TOK_RPAREN))|]. apply reads_ret.
Qed.

Lemma cond_places_denote c : length (denote_cond c) = cond_places c.
Proof. destruct c as [[]|[]|[]|[]|[]|[]|[]]; done. Qed.

Lemma reads_and_loop g rounds acc k : g <> [] -> forallb cond_ok g = true ->
  (length acc + List.list_sum (List.map cond_places g) <= SQL_MAX_CONDS)%nat ->
  (length g < rounds)%nat -> (length (sep_by TOK_AND (List.map cond_toks g)) <= bound)%nat ->
  hd_type k <> TOK_AND ->
  reads (and_loop sel rounds acc) (sep_by TOK_AND (List.map cond_toks g) ++ k)
    (acc ++ List.concat (List.map denote_cond g)) k.
Proof.
  intros Hne. revert rounds acc. induction g as [|c g IH]; [done|]. clear Hne.
  intros rounds acc Hg Hsum Hr Hlen Hk.
  change (List.list_sum (List.map cond_places (c :: g)))
    with (cond_places c + List.list_sum (List.map cond_places g))%nat in Hsum.
  change (List.map cond_toks (c :: g)) with (cond_toks c :: List.map cond_toks g) in *.
  change (List.map denote_cond (c :: g)) with (denote_cond c :: List.map denote_cond g).
  cbn [forallb length] in *.
  apply andb_true_iff in Hg as [Hc Hg]. destruct rounds as [|rounds]; [lia|]. cbn [and_loop].
  assert (Hp : (1 <= cond_places c)%nat) by (destruct c; cbn; lia).
  destruct (Nat.leb_spec SQL_MAX_CONDS (length acc)); [lia|].
  cbn [sep_by List.concat]. cbn [sep_by] in Hlen. rewrite length_app in Hlen. rewrite <- app_assoc.
  eapply reads_bind; [apply reads_pred; [done|lia|]|].
  { intros Hfull%Nat.leb_le. lia. }
  cbv iota. destruct g as [|c' g].
  - cbn [List.map app]. eapply reads_bind; [by apply reads_reject|]. rewrite app_nil_r. apply reads_ret.
  - change (List.map cond_toks (c' :: g)) with (cond_toks c' :: List.map cond_toks g) in *.
    cbn [app]. eapply reads_bind; [apply (reads_accept (ktok TOK_AND))|]. cbv iota. rewrite app_assoc.
    apply IH; [done|done| |lia| |done].
    + rewrite length_app, cond_places_denote. lia.
    + cbn [length] in Hlen. lia.
Qed.

Lemma places_length g : (length g <= List.list_sum (List.map cond_places g))%nat.
Proof.
  induction g as [|c g IH]; [done|].
  change (List.list_sum (List.map cond_places (c :: g)))
    with (cond_places c + List.list_sum (List.map cond_places g))%nat.
  assert (1 <= cond_places c)%nat by (destruct c; cbn; lia). cbn [length]. lia.
Qed.

Definition group_ok (g : list GCond) : bool :=
  nonempty g && (List.list_sum (List.map cond_places g) <=? SQL_MAX_CONDS)%nat && forallb cond_ok g.
Definition group_toks (g : list GCond) : list Token := sep_by TOK_AND (List.map cond_toks g).
Definition denote_group (g : list GCond) : list Condition := List.concat (List.map denote_cond g).

Lemma reads_and_group g k : group_ok g = true -> (length (group_toks g) <= bound)%nat ->
  hd_type k <> TOK_AND -> reads (parse_and_group sel) (group_toks g ++ k) (denote_group g) k.
Proof.
  unfold group_ok. rewrite !andb_true_iff, Nat.leb_le. intros [[Hne Hsum] Hg] Hlen Hk.
  pose proof (places_length g). apply (reads_and_loop g (S SQL_MAX_CONDS) []); try done; [|cbn [length]; lia..].
  by destruct g.
Qed.

Lemma reads_or_loop w rounds acc k : w <> [] -> forallb group_ok w = true ->
  (length acc + length w <= SQL_MAX_GROUPS)%nat -> (length w < rounds)%nat ->
  (length (sep_by TOK_OR (List.map group_toks w)) <= bound)%nat ->
  hd_type k <> TOK_AND -> hd_type k <> TOK_OR ->
  reads (or_loop sel rounds acc) (sep_by TOK_OR (List.map group_toks w) ++ k)
    (acc ++ List.map denote_group w) k.
Proof.
  intros Hne. revert rounds acc. induction w as [|g w IH]; [done|]. clear Hne.
  intros rounds acc Hw Hmax Hr Hlen Hk1 Hk2. cbn [forallb List.map length] in *.
  apply andb_true_iff in Hw as [Hg Hw]. destruct rounds as [|rounds]; [lia|]. cbn [or_loop].
  destruct (Nat.leb_spec SQL_MAX_GROUPS (length acc)); [lia|].
  cbn [sep_by] in Hlen |- *. rewrite length_app in Hlen. rewrite <- app_assoc.
  eapply reads_bind; [apply reads_and_group; [done|lia|by destruct w]|].
  destruct w as [|g' w].
  - cbn [List.map app]. eapply reads_bind; [by apply reads_reject|]. apply reads_ret.
  - change (List.map group_toks (g' :: w)) with (group_toks g' :: List.map group_toks w) in *.
    cbn [app]. eapply reads_bind; [apply (reads_accept (ktok TOK_OR))|]. cbv iota.
    replace (acc ++ denote_group g :: List.map denote_group (g' :: w))
      with ((acc ++ [denote_group g]) ++ List.map denote_group (g' :: w)) by (by rewrite <- app_assoc).
    apply IH; try done; [rewrite length_app; cbn [length] in *; lia|lia|cbn [length] in *; lia].
Qed.

(** The WHERE clause of a statement. *)
Definition where_ok (w : list (list GCond)) : bool := (length w <=? SQL_MAX_GROUPS)%nat && forallb group_ok w.
Definition where_toks (w : list (list GCond)) : list Token :=
  clause (nonempty w) TOK_WHERE (sep_by TOK_OR (List.map group_toks w)).

Lemma reads_opt_where w k : where_ok w = true -> (length (where_toks w) <= S bound)%nat -> after 2 k ->
  reads (parse_opt_where sel) (where_toks w ++ k) (List.map denote_group w) k.
Proof.
  unfold where_ok, where_toks, clause. rewrite andb_true_iff, Nat.leb_le. intros [Hmax Hw] Hlen Hk.
  unfold parse_opt_where. destruct w as [|g w]; cbn [nonempty app] in *.
  - eapply reads_bind; [apply reads_reject; by eapply after_ne|]. apply reads_ret.
  - cbn [length] in Hlen. eapply reads_bind; [apply (reads_accept (ktok TOK_WHERE))|]. cbv iota.
    apply (reads_or_loop (g :: w) (S SQL_MAX_GROUPS) []); try done.
    + cbn [length] in *. lia.
    + lia.
    + eapply after_ne; [exact Hk|cbn; lia].
    + eapply after_ne; [exact Hk|cbn; lia].
Qed.
End ReadConditions.

(** *** SELECT, with subqueries *)

Lemma select_toks_eq h w : select_toks (mkG h w) = before_where h ++ where_toks w ++ after_where h.
Proof. reflexivity. Qed.

Lemma select_ok_eq h w : select_ok (mkG h w) = head_ok h && (length w <=? SQL_MAX_GROUPS)%nat && forallb group_ok w.
Proof. reflexivity. Qed.

Lemma before_where_length h : (2 <= length (before_where h))%nat.
Proof.
  unfold before_where. rewrite !length_app. cbn [length]. lia.
Qed.

Lemma reads_select fuel s k : select_ok s = true -> (length (select_toks s) < fuel)%nat -> after 7 k ->
  reads (parse_select_stmt fuel) (select_toks s ++ k) (denote_select s) k.
Proof.
  revert s k. induction fuel as [|fuel IH]; intros [h w] k Hok Hlen Hk; [lia|].
  rewrite select_ok_eq, <- andb_assoc in Hok. apply andb_true_iff in Hok as [Hh Hw].
  rewrite select_toks_eq in Hlen |- *. rewrite !length_app in Hlen. pose proof (before_where_length h).
  pose proof Hh as Hh0. unfold head_ok in Hh. rewrite !andb_true_iff in Hh. destruct_and! Hh.
  assert (A6 : after 6 (clause (negb (s_offset h =? 0)) TOK_OFFSET [mkTok TOK_INT [] (s_offset h)] ++ k)) by (by apply after_clause).
  set (k6 := _ ++ k) in A6.
  assert (A5 : after 5 (clause (0 <=? s_limit h) TOK_LIMIT [mkTok TOK_INT [] (s_limit h)] ++ k6)) by (by apply after_clause).
  set (k5 := _ ++ k6) in A5.
  assert (A4 : after 4 (clause (nonempty (s_order h)) TOK_ORDER (ktok TOK_BY :: sep_by TOK_COMMA (order_toks <$> s_order h)) ++ k5))
    by (by apply after_clause).
  set (k4 := _ ++ k5) in A4.
  assert (A3 : after 3 (clause (s_has_having h) TOK_HAVING
    (item_toks (s_having_agg h) ++ [ktok (op_type (s_having_op h)); value_tok (s_having_val h)]) ++ k4))
    by (by apply after_clause).
  set (k3 := _ ++ k4) in A3.
  assert (A2 : after 2 (clause (nonempty (s_group_col h)) TOK_GROUP (ktok TOK_BY :: colref_toks (s_group_tbl h, s_group_col h)) ++ k3))
    by (by apply after_clause).
  set (k2 := _ ++ k3) in A2.
  assert (A1 : after 1 (where_toks w ++ k2)) by (by apply after_clause).
  assert (A0 : after 0 (mjoin (join_toks <$> s_joins h) ++ where_toks w ++ k2)).
  { destruct (s_joins h) as [|j js]; [by eapply after_le; [exact A1|lia]|].
    rewrite fmap_cons. cbn [mjoin list_join]. unfold join_toks, after. destruct (j_is_left j); cbn; lia. }
  cbn [parse_select_stmt]. unfold before_where. rewrite <- !app_assoc.
  eapply reads_bind; [by apply reads_select_list|]. cbv iota.
  cbn [app]. eapply reads_bind; [apply (reads_expect (ktok TOK_FROM))|].
  eapply reads_bind; [by apply reads_name|]. rewrite <- !app_assoc.
  assert (Haw : after_where h ++ k = k2) by (unfold after_where; rewrite <- !app_assoc; reflexivity).
  rewrite Haw.
  eapply reads_bind; [apply reads_alias; [done|by eapply after_ne]|].
  eapply reads_bind; [apply (reads_join_loop (s_joins h) (S SQL_MAX_JOINS) []); try done|].
  { cbn [length]. by apply Nat.leb_le. }
  { apply Nat.lt_succ_r. by apply Nat.leb_le. }
  eapply reads_bind; [apply (reads_opt_where _ fuel); [|exact Hw|lia|done]|].
  { intros s k0 Hs Hl Hk0. by apply IH. }
  eapply reads_bind; [by apply reads_group|]. cbv iota.
  eapply reads_bind; [by apply reads_having|]. cbv iota.
  eapply reads_bind; [apply reads_order; [done|by apply Nat.leb_le|done]|].
  eapply reads_bind.
  { apply reads_count; [intros Hl%Z.leb_gt; split; [|by eapply after_ne]|intros; by apply Z.leb_le].
    match goal with H : (-1 <=? s_limit h) = true |- _ => apply Z.leb_le in H end. lia. }
  eapply reads_bind.
  { apply reads_count; [intros Hl%negb_false_iff%Z.eqb_eq; split; [done|by eapply after_ne]|intros; by apply Z.leb_le]. }
  match goal with H : Bool.eqb _ _ = true |- _ => apply Bool.eqb_prop in H; rewrite <- H end.
  match goal with H : negb (s_explain h) = true |- _ => apply negb_true_iff in H end.
  cbn [denote_select app]. destruct h. cbn in *. subst. apply reads_ret.
Qed.

(** ** Spellings consist of readable tokens *)

Ltac plain_ok :=
  lazymatch goal with
  | |- token_ok (ktok (op_type _)) => fail
  | |- _ => apply ok_plain, (bool_decide_unpack _); vm_compute; exact I
  end.
Ltac toks_ok := repeat first [apply list.Forall_nil; exact I | apply list.Forall_cons; split; [try plain_ok|] | apply list.Forall_app; split].

Lemma op_token_ok op : cmp_ok op = true -> token_ok (ktok (op_type op)).
Proof. destruct op; try done; intros _; cbn [op_type]; plain_ok. Qed.

Lemma value_token_ok v : value_ok v = true -> token_ok (value_tok v).
Proof. destruct v; intros H; [by constructor|by constructor|plain_ok]. Qed.

Lemma colref_tokens_ok tc : colref_ok tc = true -> Forall token_ok (colref_toks tc).
Proof.
  unfold colref_ok, colref_toks. intros [Ht Hc]%andb_true_iff. destruct (tc.1) as [|b t]; toks_ok; by constructor.
Qed.

Lemma sep_tokens_ok s l : token_ok (ktok s) -> Forall (Forall token_ok) l -> Forall token_ok (sep_by s l).
Proof.
  intros Hs. induction 1 as [|x l Hx Hl IH]; [constructor|]. cbn [sep_by].
  apply list.Forall_app. split; [done|]. destruct l; [constructor|]. constructor; done.
Qed.

Lemma clause_tokens_ok b kw body : token_ok (ktok kw) -> (b = true -> Forall token_ok body) ->
  Forall token_ok (clause b kw body).
Proof. intros Hk Hb. unfold clause. destruct b; [|constructor]. constructor; auto. Qed.

Lemma forallb_Forall_impl {A} (f : A -> bool) (Q : A -> Prop) l :
  (forall x, f x = true -> Q x) -> forallb f l = true -> Forall Q l.
Proof.
  intros H. induction l as [|x l IH]; [constructor|]. cbn [forallb]. intros [Hx Hl]%andb_true_iff.
  constructor; auto.
Qed.

Lemma item_tokens_ok it : item_ok it = true -> Forall token_ok (item_toks it).
Proof.
  unfold item_ok, item_toks. intros H. destruct (decide (si_agg it = AGG_NONE)) as [Ha|Ha].
  - destruct (si_star it); [rewrite bool_decide_false in H by congruence; discriminate|]. by apply colref_tokens_ok.
  - toks_ok; [apply ok_ident; by apply agg_of_text|].
    destruct (si_star it); [toks_ok|by apply colref_tokens_ok].
Qed.

Lemma alias_tokens_ok s : alias_ok s = true -> Forall token_ok (opt_ident s).
Proof. unfold alias_ok, opt_ident. destruct s; intros H; toks_ok; by constructor. Qed.

Lemma join_tokens_ok j : join_ok j = true -> Forall token_ok (join_toks j).
Proof.
  unfold join_ok, join_toks. rewrite !andb_true_iff. intros [[[H1 H2] H3] H4].
  apply list.Forall_app. split; [destruct (j_is_left j); toks_ok|].
  constructor; [by constructor|]. toks_ok; auto using alias_tokens_ok, colref_tokens_ok.
Qed.

Lemma order_tokens_ok o : order_ok o = true -> Forall token_ok (order_toks o).
Proof.
  unfold order_ok, order_toks. intros H. apply list.Forall_app. split; [|destruct (o_desc o); toks_ok].
  destruct (o_col o) as [|b c] eqn:E; cbn [nonempty] in H.
  - rewrite !andb_true_iff, Z.leb_le, Z.ltb_lt in H. toks_ok. constructor.
    unfold int_ok. rewrite andb_true_iff, Z.leb_le, Z.ltb_lt. lia.
  - apply andb_true_iff in H as [H _]. by apply colref_tokens_ok.
Qed.

Lemma before_tokens_ok h : head_ok h = true -> Forall token_ok (before_where h).
Proof.
  unfold head_ok. rewrite !andb_true_iff. intros Hh. destruct_and! Hh. unfold before_where.
  apply list.Forall_app. split; [destruct (s_distinct h); toks_ok|].
  apply list.Forall_app. split.
  - destruct (s_star h); [toks_ok|]. apply sep_tokens_ok; [plain_ok|].
    apply list.Forall_fmap. eapply forallb_Forall_impl; [apply item_tokens_ok|done].
  - toks_ok; [by constructor|by apply alias_tokens_ok|].
    match goal with H : forallb join_ok _ = true |- _ => revert H end. clear.
    induction (s_joins h) as [|j js IH]; [constructor|]. cbn [forallb]. intros [Hj Hjs]%andb_true_iff.
    rewrite fmap_cons. apply list.Forall_app. split; [by apply join_tokens_ok|auto].
Qed.

Lemma int_ok_nonneg z : (0 <=? z) = true -> (z <? 2 ^ 63) = true -> int_ok z = true.
Proof. unfold int_ok. rewrite Z.leb_le, andb_true_iff, Z.leb_le, Z.ltb_lt. lia. Qed.

Lemma after_tokens_ok h : head_ok h = true -> Forall token_ok (after_where h).
Proof.
  unfold head_ok. rewrite !andb_true_iff. intros Hh. destruct_and! Hh. unfold after_where.
  repeat (apply list.Forall_app; split); apply clause_tokens_ok; try plain_ok; intros E.
  - constructor; [plain_ok|]. apply colref_tokens_ok. by rewrite E in *.
  - rewrite E in *. match goal with H : _ && _ && _ = true |- _ => rewrite !andb_true_iff in H; destruct H as [[? ?] ?] end.
    apply list.Forall_app. split; [by apply item_tokens_ok|].
    toks_ok; [by apply op_token_ok|by apply value_token_ok].
  - constructor; [plain_ok|]. apply sep_tokens_ok; [plain_ok|].
    apply list.Forall_fmap. eapply forallb_Forall_impl; [apply order_tokens_ok|done].
  - toks_ok. constructor. by apply int_ok_nonneg.
  - toks_ok. constructor. by apply int_ok_nonneg.
Qed.

(** A part of a list is shorter than its joined spelling. *)
Lemma sep_by_part s l x : x ∈ l -> (length x <= length (sep_by s l))%nat.
Proof.
  induction l as [|y l IH]; [by intros ?%not_elem_of_nil|]. cbn [sep_by]. rewrite length_app.
  intros [->|Hx]%elem_of_cons; [lia|]. specialize (IH Hx). destruct l; [by apply not_elem_of_nil in Hx|].
  cbn [length]. lia.
Qed.

Lemma neg_tokens_ok neg : Forall token_ok (neg_toks neg).
Proof. destruct neg; cbn; toks_ok. Qed.

Lemma value_tokens_ok vs : forallb value_ok vs = true ->
  Forall token_ok (sep_by TOK_COMMA ((fun v => [value_tok v]) <$> vs)).
Proof.
  intros Hvs. apply sep_tokens_ok; [plain_ok|]. apply list.Forall_fmap.
  eapply forallb_Forall_impl; [|exact Hvs]. intros v Hv. cbn. toks_ok. by apply value_token_ok.
Qed.

Section NestedTokens.
Variable n : nat.
Hypothesis Hsub : forall s, (length (select_toks s) < n)%nat -> select_ok s = true -> Forall token_ok (select_toks s).

Lemma cond_tokens_ok c : (length (cond_toks c) <= n)%nat -> cond_ok c = true -> Forall token_ok (cond_toks c).
Proof.
  intros Hn Hc. destruct c as [tc op v|tc neg|tc neg p|tc lo hi|tc neg v vs|tc neg s|tc op s];
    cbn [cond_ok cond_toks] in *; rewrite ?andb_true_iff in Hc; rewrite ?length_app in Hn;
    cbn [length] in Hn; rewrite ?length_app in Hn; cbn [length] in Hn.
  - destruct Hc as [[? ?] ?]. toks_ok; auto using colref_tokens_ok, op_token_ok, value_token_ok.
  - toks_ok; auto using colref_tokens_ok, neg_tokens_ok.
  - destruct Hc as [? ?]. toks_ok; auto using colref_tokens_ok, neg_tokens_ok. by constructor.
  - destruct Hc as [[? ?] ?]. toks_ok; auto using colref_tokens_ok, value_token_ok.
  - destruct Hc as [[? ?] ?].
    assert (Hs : Forall token_ok (sep_by TOK_COMMA (List.map (fun v => [value_tok v]) (v :: vs)))).
    { apply value_tokens_ok. cbn [forallb]. by apply andb_true_iff. }
    set (ts := sep_by _ _) in *. clearbody ts. toks_ok; auto using colref_tokens_ok, neg_tokens_ok.
  - destruct Hc as [? ?]. toks_ok; auto using colref_tokens_ok, neg_tokens_ok. apply Hsub; [lia|done].
  - destruct Hc as [[? ?] ?]. toks_ok; auto using colref_tokens_ok, op_token_ok. apply Hsub; [lia|done].
Qed.

Lemma where_tokens_ok w : (length (where_toks w) <= S n)%nat -> where_ok w = true -> Forall token_ok (where_toks w).
Proof.
  unfold where_toks, where_ok. intros Hn [_ Hw]%andb_true_iff. apply clause_tokens_ok; [plain_ok|]. intros Hne.
  unfold clause in Hn. rewrite Hne in Hn. cbn [length] in Hn. apply sep_tokens_ok; [plain_ok|].
  apply list.Forall_forall. intros ts Hts. apply list_elem_of_fmap in Hts as (g & -> & Hg).
  assert (Hlen : (length (group_toks g) <= n)%nat).
  { pose proof (sep_by_part TOK_OR (List.map group_toks w) (group_toks g)) as H.
    specialize (H ltac:(apply list_elem_of_fmap; eauto)). lia. }
  rewrite forallb_forall in Hw. specialize (Hw g (proj1 (list_elem_of_In _ _) Hg)).
  unfold group_ok in Hw. rewrite !andb_true_iff in Hw. destruct Hw as [_ Hw].
  apply sep_tokens_ok; [plain_ok|]. apply list.Forall_forall. intros ts Hts.
  apply list_elem_of_fmap in Hts as (c & -> & Hc).
  rewrite forallb_forall in Hw. apply cond_tokens_ok; [|by apply Hw, list_elem_of_In].
  pose proof (sep_by_part TOK_AND (List.map cond_toks g) (cond_toks c)) as H.
  specialize (H ltac:(apply list_elem_of_fmap; eauto)). unfold group_toks in Hlen. lia.
Qed.
End NestedTokens.

Lemma select_tokens_ok s : select_ok s = true -> Forall token_ok (select_toks s).
Proof.
  remember (length (select_toks s)) as n eqn:Hn. revert s Hn.
  induction (lt_wf n) as [n _ IH]. intros [h w] Hn Hok.
  rewrite select_ok_eq, <- andb_assoc in Hok. apply andb_true_iff in Hok as [Hh Hw].
  rewrite select_toks_eq in *. rewrite !length_app in Hn. pose proof (before_where_length h).
  apply list.Forall_app. split; [by apply before_tokens_ok|].
  apply list.Forall_app. split; [|by apply after_tokens_ok].
  apply (where_tokens_ok (n - 1)); [|lia|done].
  intros s Hs. apply (IH (length (select_toks s))); [lia|done].
Qed.

(** ** Statements *)

Inductive GStmt :=
  | GCreate (table : bytes) (cols : list ColumnDef) (lsm : bool)
  | GInsert (table : bytes) (vs : list Value)
  | GQuery (explain : bool) (s : GSelect)
  | GDelete (table : bytes) (w : list (list GCond))
  | GUpdate (table col : bytes) (v : Value) (w : list (list GCond))
  | GBegin | GCommit | GRollback
  | GCreateIndex (name table column : bytes)
  | GVacuum (table : bytes)
  | GSession (n : Z)
  | GAnalyze (table : bytes).

Definition denote_stmt (g : GStmt) : Statement :=
  match g with
  | GCreate t cols lsm => STMT_CREATE (mkCreate t cols (if lsm then 1 else 0))
  | GInsert t vs => STMT_INSERT t vs
  | GQuery e s => STMT_SELECT (if e then set_explain (denote_select s) else denote_select s)
  | GDelete t w => STMT_DELETE t (List.map denote_group w)
  | GUpdate t c v w => STMT_UPDATE t c v (List.map denote_group w)
  | GBegin => STMT_BEGIN | GCommit => STMT_COMMIT | GRollback => STMT_ROLLBACK
  | GCreateIndex n t c => STMT_CREATE_INDEX n t c
  | GVacuum t => STMT_VACUUM t
  | GSession n => STMT_SESSION n
  | GAnalyze t => STMT_ANALYZE t
  end.

Definition column_toks (c : ColumnDef) : list Token :=
  ident (cd_name c) :: ktok (match cd_type c with COL_INT => TOK_INT_TYPE | COL_TEXT => TOK_TEXT_TYPE end) ::
  (if cd_not_null c then [ktok TOK_NOT; ktok TOK_NULL] else []).

Definition stmt_toks (g : GStmt) : list Token :=
  match g with
  | GCreate t cols lsm =>
      [ktok TOK_CREATE; ktok TOK_TABLE; ident t; ktok TOK_LPAREN] ++
      sep_by TOK_COMMA (column_toks <$> cols) ++
      ktok TOK_RPAREN :: (if lsm then [ident (str "USING"); ident (str "lsm")] else [])
  | GInsert t vs =>
      [ktok TOK_INSERT; ktok TOK_INTO; ident t; ktok TOK_VALUES; ktok TOK_LPAREN] ++
      sep_by TOK_COMMA ((fun v => [value_tok v]) <$> vs) ++ [ktok TOK_RPAREN]
  | GQuery e s => (if e then [ktok TOK_EXPLAIN] else []) ++ ktok TOK_SELECT :: select_toks s
  | GDelete t w => [ktok TOK_DELETE; ktok TOK_FROM; ident t] ++ where_toks w
  | GUpdate t c v w =>
      [ktok TOK_UPDATE; ident t; ktok TOK_SET; ident c; ktok TOK_EQ; value_tok v] ++ where_toks w
  | GBegin => [ktok TOK_BEGIN] | GCommit => [ktok TOK_COMMIT] | GRollback => [ktok TOK_ROLLBACK]
  | GCreateIndex n t c =>
      [ktok TOK_CREATE; ktok TOK_INDEX; ident n; ktok TOK_ON; ident t; ktok TOK_LPAREN; ident c; ktok TOK_RPAREN]
  | GVacuum t => ktok TOK_VACUUM :: opt_ident t
  | GSession n => [ktok TOK_SESSION; mkTok TOK_INT [] n]
  | GAnalyze t => ktok TOK_ANALYZE :: opt_ident t
  end.

Definition stmt_ok (g : GStmt) : bool :=
  match g with
  | GCreate t cols _ =>
      ident_ok t && (length cols <=? SQL_MAX_COLS)%nat && forallb (fun c => ident_ok (cd_name c)) cols
  | GInsert t vs => ident_ok t && (length vs <=? SQL_MAX_COLS)%nat && forallb value_ok vs
  | GQuery _ s => select_ok s
  | GDelete t w => ident_ok t && where_ok w
  | GUpdate t c v w => ident_ok t && ident_ok c && value_ok v && where_ok w
  | GBegin | GCommit | GRollback => true
  | GCreateIndex n t c => ident_ok n && ident_ok t && ident_ok c
  | GVacuum t | GAnalyze t => alias_ok t
  | GSession n => (- 2 ^ 31 <=? n) && (n <? 2 ^ 31)
  end.

Lemma column_tokens_ok c : ident_ok (cd_name c) = true -> Forall token_ok (column_toks c).
Proof.
  intros H. unfold column_toks. constructor; [by constructor|].
  constructor; [destruct (cd_type c); plain_ok|]. destruct (cd_not_null c); toks_ok.
Qed.

Lemma where_toks_ok w : where_ok w = true -> Forall token_ok (where_toks w).
Proof.
  intros Hw. apply (where_tokens_ok (length (where_toks w))); [|lia|done].
  intros s _. apply select_tokens_ok.
Qed.

Lemma stmt_tokens_ok g : stmt_ok g = true -> Forall token_ok (stmt_toks g).
Proof.
  destruct g as [t cols lsm|t vs|e s|t w|t c v w| | | |n t c|t|n|t]; cbn [stmt_ok stmt_toks]; rewrite ?andb_true_iff; intros H.
  - destruct H as [[Ht _] Hc]. apply list.Forall_app. split; [toks_ok; by constructor|].
    apply list.Forall_app. split.
    + apply sep_tokens_ok; [plain_ok|]. apply list.Forall_fmap.
      eapply forallb_Forall_impl; [|exact Hc]. apply column_tokens_ok.
    + constructor; [plain_ok|]. destruct lsm; toks_ok; constructor; vm_compute; reflexivity.
  - destruct H as [[Ht _] Hv]. apply list.Forall_app. split; [toks_ok; by constructor|].
    apply list.Forall_app. split; [by apply value_tokens_ok|toks_ok].
  - apply list.Forall_app. split; [destruct e; toks_ok|]. constructor; [plain_ok|by apply select_tokens_ok].
  - destruct H as [Ht Hw]. apply list.Forall_app. split; [toks_ok; by constructor|by apply where_toks_ok].
  - destruct H as [[[Ht Hc] Hv] Hw]. apply list.Forall_app. split; [|by apply where_toks_ok].
    toks_ok; [by constructor..|by apply value_token_ok].
  - toks_ok.
  - toks_ok.
  - toks_ok.
  - destruct H as [[H1 H2] H3]. toks_ok; by constructor.
  - constructor; [plain_ok|by apply alias_tokens_ok].
  - rewrite Z.leb_le, Z.ltb_lt in H. toks_ok. constructor. unfold int_ok.
    rewrite andb_true_iff, Z.leb_le, Z.ltb_lt. lia.
  - constructor; [plain_ok|by apply alias_tokens_ok].
Qed.

(** *** Reading statements *)

Lemma reads_column_loop cols k : forallb (fun c => ident_ok (cd_name c)) cols = true ->
  (length cols <= SQL_MAX_COLS)%nat -> hd_type k = TOK_RPAREN ->
  reads (column_loop (S SQL_MAX_COLS) []) (sep_by TOK_COMMA (column_toks <$> cols) ++ k) cols k.
Proof.
  intros Hc Hlen Hk. destruct (decide (cols = [])) as [->|Hne].
  { cbn [fmap list_fmap sep_by app column_loop]. eapply reads_bind; [apply reads_p_ok|].
    eapply reads_bind; [apply reads_cur_type|]. rewrite bool_decide_true by done. apply reads_ret. }
  assert (Hround : forall rounds acc c k0 res k', ident_ok (cd_name c) = true -> (length acc < SQL_MAX_COLS)%nat ->
     hd_type k0 <> TOK_NOT ->
     reads (more ← p_accept TOK_COMMA;
            if (more : bool) then column_loop rounds (acc ++ [c]) else mret (acc ++ [c])) k0 res k' ->
     reads (column_loop (S rounds) acc) (column_toks c ++ k0) res k').
  { intros rounds acc [nm ty nn] k0 res k' Hn Hacc Hk0 Hr. cbn [column_loop cd_name] in *.
    unfold column_toks. cbn [cd_name cd_type cd_not_null app].
    eapply reads_bind; [apply reads_p_ok|]. eapply reads_bind; [apply reads_cur_type|].
    rewrite bool_decide_false by done. cbn [negb orb].
    destruct (Nat.leb_spec SQL_MAX_COLS (length acc)); [lia|].
    eapply reads_bind; [by apply reads_name|]. destruct ty; cbn [app].
    - eapply reads_bind; [apply (reads_accept (ktok TOK_INT_TYPE))|]. cbv iota.
      eapply reads_bind; [apply reads_ret|]. cbn [negb andb]. destruct nn; cbn [app].
      + eapply reads_bind; [apply (reads_accept (ktok TOK_NOT))|]. cbv iota.
        eapply reads_bind; [apply (reads_expect (ktok TOK_NULL))|]. exact Hr.
      + eapply reads_bind; [by apply reads_reject|]. cbv iota. eapply reads_bind; [apply reads_ret|]. exact Hr.
    - eapply reads_bind; [by apply reads_reject|]. cbv iota.
      eapply reads_bind; [apply (reads_accept (ktok TOK_TEXT_TYPE))|]. cbn [negb andb]. destruct nn; cbn [app].
      + eapply reads_bind; [apply (reads_accept (ktok TOK_NOT))|]. cbv iota.
        eapply reads_bind; [apply (reads_expect (ktok TOK_NULL))|]. exact Hr.
      + eapply reads_bind; [by apply reads_reject|]. cbv iota. eapply reads_bind; [apply reads_ret|]. exact Hr. }
  apply (reads_comma_loop column_loop column_toks SQL_MAX_COLS (fun c => ident_ok (cd_name c))
           (fun k => hd_type k <> TOK_NOT)); try done; [..|lia|by rewrite Hk|by rewrite Hk].
  - intros rounds acc c k0 res k' Hn Hacc Hr. apply Hround; try done.
    eapply reads_bind; [apply (reads_accept (ktok TOK_COMMA))|]. exact Hr.
  - intros rounds acc c k0 Hn Hacc Hs Hk0. apply Hround; try done.
    eapply reads_bind; [by apply reads_reject|]. apply reads_ret.
Qed.

Lemma reads_opt_table t k : alias_ok t = true -> hd_type k <> TOK_IDENT -> reads parse_opt_table (opt_ident t ++ k) t k.
Proof.
  intros Ht Hk. unfold parse_opt_table, opt_ident. destruct t as [|b t]; cbn [app].
  - eapply reads_bind; [apply reads_cur_tok|]. rewrite decide_False by done. apply reads_ret.
  - eapply reads_bind; [apply reads_cur_tok|]. rewrite decide_True by done.
    eapply reads_bind; [apply reads_advance|]. cbn [hd_tok ident t_text]. rewrite ident_copy by done. apply reads_ret.
Qed.

Lemma reads_create (t : bytes) (cols : list ColumnDef) (lsm : bool) k : ident_ok t = true -> (length cols <= SQL_MAX_COLS)%nat ->
  forallb (fun c => ident_ok (cd_name c)) cols = true -> after 7 k ->
  reads parse_create
    (ktok TOK_TABLE :: ident t :: ktok TOK_LPAREN :: sep_by TOK_COMMA (column_toks <$> cols) ++
     (ktok TOK_RPAREN :: (if lsm then [ident (str "USING"); ident (str "lsm")] else [])) ++ k)
    (STMT_CREATE (mkCreate t cols (if lsm then 1 else 0))) k.
Proof.
  intros Ht Hl Hc Hk. unfold parse_create.
  eapply reads_bind; [apply (reads_expect (ktok TOK_TABLE))|]. eapply reads_bind; [by apply reads_name|].
  eapply reads_bind; [apply (reads_expect (ktok TOK_LPAREN))|].
  eapply reads_bind; [by apply reads_column_loop|]. cbn [app].
  eapply reads_bind; [apply (reads_expect (ktok TOK_RPAREN))|].
  eapply reads_bind; [apply reads_p_ok|]. eapply reads_bind; [apply reads_cur_tok|].
  destruct lsm; cbn [app].
  - change (true && bool_decide (t_type (hd_tok (ident (str "USING") :: ident (str "lsm") :: k)) = TOK_IDENT) &&
      same_case (t_text (hd_tok (ident (str "USING") :: ident (str "lsm") :: k))) (str "USING")) with true.
    eapply reads_bind; [apply reads_advance|]. eapply reads_bind; [by apply reads_name|]. apply reads_ret.
  - change (t_type (hd_tok k)) with (hd_type k). rewrite bool_decide_false by (eapply after_ne; [exact Hk|cbn; lia]).
    apply reads_ret.
Qed.

Lemma reads_statement g fuel k : stmt_ok g = true -> (length (stmt_toks g) <= fuel)%nat -> after 7 k ->
  reads (parse_statement fuel) (stmt_toks g ++ k) (denote_stmt g) k.
Proof.
  intros Hg Hf Hk.
  assert (Hsel : forall s k0, select_ok s = true -> (length (select_toks s) < fuel)%nat -> after 7 k0 ->
    reads (parse_select_stmt fuel) (select_toks s ++ k0) (denote_select s) k0) by (intros; by apply reads_select).
  assert (Hk2 : after 2 k) by (by eapply after_le; [exact Hk|lia]).
  unfold parse_statement.
  destruct g as [t cols lsm|t vs|e s|t w|t c v w| | | |n t c|t|n|t]; cbn [stmt_ok stmt_toks app denote_stmt] in *;
    rewrite ?andb_true_iff in Hg; try (eapply reads_bind; [apply reads_cur_type|]);
    try (unfold hd_type; cbn [hd_tok ktok t_type]; eapply reads_bind; [apply reads_advance|]); try apply reads_ret.
  - destruct Hg as [[Ht Hl] Hc]. eapply reads_bind; [apply reads_cur_type|]. rewrite decide_False by done.
    rewrite <- app_assoc. apply reads_create; [done|by apply Nat.leb_le|done|done].
  - destruct Hg as [[Ht Hl] Hv]. unfold parse_insert. rewrite <- app_assoc.
    eapply reads_bind; [apply (reads_expect (ktok TOK_INTO))|]. eapply reads_bind; [by apply reads_name|].
    eapply reads_bind; [apply (reads_expect (ktok TOK_VALUES))|].
    eapply reads_bind; [apply (reads_expect (ktok TOK_LPAREN))|].
    eapply reads_bind; [apply reads_value_loop; [done|by apply Nat.leb_le|done]|]. cbn [app].
    eapply reads_bind; [apply (reads_expect (ktok TOK_RPAREN))|]. apply reads_ret.
  - rewrite <- app_assoc. destruct e; cbn [app] in *.
    + unfold hd_type. cbn [hd_tok ktok t_type]. eapply reads_bind; [apply reads_advance|].
      eapply reads_bind; [apply (reads_expect (ktok TOK_SELECT))|].
      eapply reads_bind; [apply Hsel; [done|cbn [length] in Hf; lia|done]|]. apply reads_ret.
    + unfold hd_type. cbn [hd_tok ktok t_type]. eapply reads_bind; [apply reads_advance|].
      eapply reads_bind; [apply Hsel; [done|cbn [length] in Hf; lia|done]|]. apply reads_ret.
  - destruct Hg as [Ht Hw]. unfold parse_delete.
    eapply reads_bind; [apply (reads_expect (ktok TOK_FROM))|]. eapply reads_bind; [by apply reads_name|].
    eapply reads_bind; [apply (reads_opt_where _ fuel); [done|done|cbn [length] in Hf; lia|done]|]. apply reads_ret.
  - destruct Hg as [[[Ht Hc] Hv] Hw]. unfold parse_update. eapply reads_bind; [by apply reads_name|].
    eapply reads_bind; [apply (reads_expect (ktok TOK_SET))|]. eapply reads_bind; [by apply reads_name|].
    eapply reads_bind; [apply (reads_expect (ktok TOK_EQ))|]. eapply reads_bind; [by apply reads_value|].
    eapply reads_bind; [apply (reads_opt_where _ fuel); [done|done|cbn [length] in Hf; lia|done]|]. apply reads_ret.
  - destruct Hg as [[H1 H2] H3]. eapply reads_bind; [apply reads_cur_type|]. rewrite decide_True by done.
    unfold parse_create_index. eapply reads_bind; [apply (reads_expect (ktok TOK_INDEX))|].
    eapply reads_bind; [by apply reads_name|]. eapply reads_bind; [apply (reads_expect (ktok TOK_ON))|].
    eapply reads_bind; [by apply reads_name|]. eapply reads_bind; [apply (reads_expect (ktok TOK_LPAREN))|].
    eapply reads_bind; [by apply reads_name|]. eapply reads_bind; [apply (reads_expect (ktok TOK_RPAREN))|]. apply reads_ret.
  - eapply reads_bind; [apply reads_opt_table; [done|by eapply after_ne; [exact Hk|cbn; lia]]|]. apply reads_ret.
  - eapply reads_bind; [apply reads_cur_tok|]. rewrite decide_True by done.
    eapply reads_bind; [apply reads_advance|]. cbn [hd_tok t_int_val].
    rewrite Z.leb_le, Z.ltb_lt in Hg. unfold i32. rewrite signed_small by lia. apply reads_ret.
  - eapply reads_bind; [apply reads_opt_table; [done|by eapply after_ne; [exact Hk|cbn; lia]]|]. apply reads_ret.
Qed.

Definition semicolon (semi : bool) : list Token := if semi then [ktok TOK_SEMI] else [].

(** The grammar comment of sql.h also lists [<colref> NOT BETWEEN <val> AND <val>].  The
    parser takes only IN or LIKE after NOT and refuses it. *)
Lemma not_between_refused :
  sql_parse (str "SELECT a FROM t WHERE a NOT BETWEEN 1 AND 2") = Some (inl "NOT 다음에 IN 또는 LIKE가 필요합니다") /\
  sql_parse (str "DELETE FROM t WHERE t.a NOT BETWEEN 1 AND 2;") = Some (inl "NOT 다음에 IN 또는 LIKE가 필요합니다").
Proof. split; vm_compute; reflexivity. Qed.


(** *** Witness: a query with a subquery *)
Definition demo_head (cols : list bytes) (t : bytes) : SelectHead :=
  mkHead false t [] [] false false (mkItem AGG_NONE false [] <$> cols) false [] [] false item0 CMP_EQ value0 [] (-1) 0.

Definition demo_query : GStmt :=
  GQuery false (mkG (demo_head [str "a"; str "b"] (str "t"))
    [[GBetween (str "t", str "a") (VAL_INT (-3)) (VAL_INT 7); GLike ([], str "b") true (str "x%")];
     [GInSub ([], str "a") false (mkG (demo_head [str "c"] (str "u")) [[GNull ([], str "c") true]])]]).

