(* ===== verification/Row.v ===== *)
(** * The row format (src/src/db.c: encode_row, decode_row, rid_encode, rid_decode)

    A row is stored as the MVCC header (xmin, xmax), one null bit per column, and
    the non-null values in column order: four bytes for an integer, a two-byte
    length and the text for a text.  The encoder writes into a caller's buffer of
    [PAGE_SIZE] bytes; [None] is a write outside it, [Some None] the return code
    -1. *)
From stdpp Require Import strings.
From S2P Require Import Prelude Page Pager BufPool Heap SqlLex SqlParse.

Definition MVCC_HDR : Z := 8.

(** [(num_columns + 7) / 8] *)
Definition null_bytes (cols : list ColumnDef) : Z := (blen cols + 7) / 8.

Definition null_bit (i : Z) : Z := u8 (Z.shiftl 1 (i mod 8)).

Definition encode_col (ty : ColType) (i : Z) (v : Value) (buf : bytes) (off : Z) : option (option (bytes * Z)) :=
  match v with
  | VAL_NULL =>
      b ← get_le 1 buf (MVCC_HDR + i / 8);
      buf ← put_le 1 buf (MVCC_HDR + i / 8) (Z.lor b (null_bit i));
      Some (Some (buf, off))
  | VAL_INT z =>
      match ty with
      | COL_INT => buf ← put_le 4 buf off (i32 z); Some (Some (buf, u16 (off + 4)))
      | COL_TEXT => Some None
      end
  | VAL_TEXT s =>
      match ty with
      | COL_INT => Some None
      | COL_TEXT =>
          let len := u16 (blen s) in
          buf ← put_le 2 buf off len;
          let off := u16 (off + 2) in
          src ← mem_read s 0 len;
          buf ← mem_write buf off src;
          Some (Some (buf, u16 (off + len)))
      end
  end.

Fixpoint encode_cols (cols : list ColumnDef) (vals : list Value) (i : Z) (buf : bytes) (off : Z) : option (option (bytes * Z)) :=
  match cols, vals with
  | [], _ => Some (Some (buf, off))
  | c :: cols, v :: vals =>
      r ← encode_col (cd_type c) i v buf off;
      match r with
      | Some (buf, off) => encode_cols cols vals (i + 1) buf off
      | None => Some None
      end
  | _ :: _, [] => None
  end.

Definition encode_row (schema : CreateStmt) (vals : list Value) (xmin xmax : Z) (buf : bytes) : option (option (bytes * Z)) :=
  let cols := c_columns schema in
  if negb (blen vals =? blen cols) then Some None
  else
    buf ← put_le 4 buf 0 xmin;
    buf ← put_le 4 buf 4 xmax;
    buf ← mem_write buf MVCC_HDR (zeros (null_bytes cols));
    encode_cols cols vals 0 buf (u16 (MVCC_HDR + null_bytes cols)).

(** A text read back is a C string: it ends at the first NUL. *)
Definition c_string (s : bytes) : bytes := (span (fun c => negb (c =? 0)) s).1.

Definition decode_col (ty : ColType) (rec : bytes) (off : Z) : option (Value * Z) :=
  match ty with
  | COL_INT => x ← get_le 4 rec off; Some (VAL_INT (i32 x), u16 (off + 4))
  | COL_TEXT =>
      len ← get_le 2 rec off;
      let off := u16 (off + 2) in
      s ← mem_read rec off len;
      if Z.of_nat SQL_TEXT_LEN <=? len then None
      else Some (VAL_TEXT (c_string s), u16 (off + len))
  end.

Fixpoint decode_cols (cols : list ColumnDef) (rec : bytes) (i off : Z) : option (list Value) :=
  match cols with
  | [] => Some []
  | c :: cols =>
      b ← get_le 1 rec (MVCC_HDR + i / 8);
      '(v, off) ← (if negb (Z.land b (null_bit i) =? 0) then Some (VAL_NULL, off)
                   else decode_col (cd_type c) rec off);
      vs ← decode_cols cols rec (i + 1) off;
      Some (v :: vs)
  end.

Definition decode_row (schema : CreateStmt) (rec : bytes) : option (list Value) :=
  decode_cols (c_columns schema) rec 0 (u16 (MVCC_HDR + null_bytes (c_columns schema))).

Definition db_rec_xmin (rec : bytes) : option Z := i32 <$> get_le 4 rec 0.
Definition db_rec_xmax (rec : bytes) : option Z := i32 <$> get_le 4 rec 4.

(** C division truncates towards zero. *)
Definition rid_encode (r : RID) : Z := i64 (rid_page r * 65536 + rid_slot r).
Definition rid_decode (v : Z) : RID := mkRID (u64 (Z.quot v 65536)) (u16 (Z.rem v 65536)).

Definition demo_schema : CreateStmt :=
  mkCreate (str "t") [mkColumn (str "id") COL_INT true; mkColumn (str "name") COL_TEXT false; mkColumn (str "n") COL_INT false] 0.

Example encode_example :
  (r ← encode_row demo_schema [VAL_INT (-2); VAL_TEXT (str "kim"); VAL_NULL] 7 0 (zeros PAGE_SIZE);
   '(buf, len) ← r; rec ← mem_read buf 0 len; vs ← decode_row demo_schema rec; Some (rec, vs)) =
  Some ([7;0;0;0; 0;0;0;0; 4; 254;255;255;255; 3;0; 107;105;109], [VAL_INT (-2); VAL_TEXT (str "kim"); VAL_NULL]).
Proof. vm_compute. reflexivity. Qed.

(** ** Buffers as concatenations *)

Lemma mem_write_at {A} (pre rest src : list A) off : off = blen pre ->
  mem_write (pre ++ rest) off src =
  if blen src <=? blen rest then Some (pre ++ src ++ drop (length src) rest) else None.
Proof.
  intros ->. unfold mem_write, in_range. rewrite blen_app.
  pose proof (blen_nonneg pre). pose proof (blen_nonneg src).
  destruct (Z.leb_spec 0 (blen pre)), (Z.leb_spec 0 (blen src)); try lia. cbn [andb].
  destruct (Z.leb_spec (blen pre + blen src) (blen pre + blen rest)), (Z.leb_spec (blen src) (blen rest)); try lia; [|done].
  f_equal. unfold splice, blen. rewrite Nat2Z.id, take_app_length, drop_app_add'; done.
Qed.

Lemma mem_read_at {A} (pre src post : list A) off len : off = blen pre -> len = blen src ->
  mem_read (pre ++ src ++ post) off len = Some src.
Proof.
  intros -> ->. rewrite mem_read_app_r, Z.sub_diag, mem_read_app_l by lia. apply mem_read_all.
Qed.

Lemma get_le_at n (pre post : bytes) z off : off = blen pre ->
  get_le n (pre ++ le_bytes n z ++ post) off = Some (z mod 2 ^ (8 * Z.of_nat n)).
Proof.
  intros ->. unfold get_le. rewrite mem_read_at by (by rewrite ?blen_le_bytes). cbn [fmap option_fmap option_map].
  by rewrite le_val_le_bytes.
Qed.

Lemma get_byte (l : bytes) (n : nat) : get_le 1 l (Z.of_nat n) = l !! n.
Proof.
  unfold get_le, mem_read, in_range. destruct (Z.leb_spec 0 (Z.of_nat n)); [|lia]. cbn [andb Z.leb].
  destruct (l !! n) as [b|] eqn:E.
  - pose proof (lookup_lt_Some _ _ _ E). destruct (Z.leb_spec (Z.of_nat n + Z.of_nat 1) (blen l)); [|unfold blen in *; lia].
    rewrite (Nat2Z.id n), (drop_S _ _ _ E). change (take (Z.to_nat (Z.of_nat 1)) ?x) with (take 1 x).
    cbn [take]. change (Some (b + 256 * 0) = Some b). f_equal. lia.
  - apply lookup_ge_None_1 in E. destruct (Z.leb_spec (Z.of_nat n + Z.of_nat 1) (blen l)); [unfold blen in *; lia|done].
Qed.

Lemma put_byte (l : bytes) (n : nat) v : (n < length l)%nat -> put_le 1 l (Z.of_nat n) v = Some (<[n := v mod 256]> l).
Proof.
  intros H. unfold put_le. cbn [le_bytes]. rewrite <- (take_drop n l) at 1.
  rewrite mem_write_at by (unfold blen; rewrite length_take; lia).
  destruct (Z.leb_spec (blen [v mod 256]) (blen (drop n l))) as [_|Hl]; [|unfold blen in Hl; rewrite length_drop in Hl; cbn in Hl; lia].
  rewrite drop_drop, insert_take_drop by done. by rewrite Nat.add_1_r.
Qed.

(** ** The null bitmap *)

Definition null_at (bm : bytes) (i : nat) : bool := Z.testbit (nth (i / 8) bm 0) (Z.of_nat (i mod 8)).

Definition is_null (v : Value) : bool := match v with VAL_NULL => true | _ => false end.

(** The bits of the columns [vals], and no others, are those of the null values. *)
Definition bitmap_of (bm : bytes) (vals : list Value) : Prop :=
  forall i, (i < 8 * length bm)%nat -> null_at bm i = match vals !! i with Some v => is_null v | None => false end.

Lemma null_bit_spec (i : nat) k : 0 <= k < 8 -> Z.testbit (null_bit (Z.of_nat i)) k = (k =? Z.of_nat (i mod 8)).
Proof.
  intros Hk. unfold null_bit, u8. rewrite Z.mod_pow2_bits_low by lia. rewrite Z.shiftl_1_l.
  replace (Z.of_nat i mod 8) with (Z.of_nat (i mod 8)) by (rewrite Nat2Z.inj_mod; done).
  rewrite Z.pow2_bits_eqb by lia. apply Z.eqb_sym.
Qed.

Lemma bitmap_set bm i : (i < 8 * length bm)%nat -> forall k,
  null_at (<[(i / 8)%nat := Z.lor (nth (i / 8) bm 0) (null_bit (Z.of_nat i)) mod 256]> bm) k = null_at bm k || bool_decide (k = i).
Proof.
  intros Hi k. unfold null_at. assert (Hlt : (i / 8 < length bm)%nat) by (apply Nat.Div0.div_lt_upper_bound; lia).
  rewrite !(nth_lookup (<[_ := _]> bm)).
  pose proof (Nat.mod_upper_bound k 8 ltac:(lia)). pose proof (Nat.mod_upper_bound i 8 ltac:(lia)).
  destruct (decide (k / 8 = i / 8)%nat) as [He|Hne].
  - rewrite He, list_lookup_insert_eq by done. cbn [from_option id].
    change 256 with (2 ^ 8). rewrite Z.mod_pow2_bits_low by lia. rewrite Z.lor_spec, null_bit_spec by lia. f_equal.
    destruct (Z.eqb_spec (Z.of_nat (k mod 8)) (Z.of_nat (i mod 8))) as [E|E]; symmetry.
    + apply bool_decide_eq_true_2. rewrite (Nat.div_mod_eq k 8), (Nat.div_mod_eq i 8). lia.
    + apply bool_decide_eq_false_2. intros ->. done.
  - rewrite list_lookup_insert_ne by done. rewrite bool_decide_eq_false_2 by congruence.
    rewrite orb_false_r. by rewrite nth_lookup.
Qed.

Lemma bitmap_null bm vals : bitmap_of bm vals -> (length vals < 8 * length bm)%nat ->
  bitmap_of (<[(length vals / 8)%nat := Z.lor (nth (length vals / 8) bm 0) (null_bit (blen vals)) mod 256]> bm) (vals ++ [VAL_NULL]).
Proof.
  intros Hb Hl i Hi. rewrite length_insert in Hi. unfold blen. rewrite bitmap_set, Hb by done.
  destruct (decide (i < length vals)%nat) as [H|H].
  - rewrite lookup_app_l by done. rewrite bool_decide_eq_false_2 by lia. apply orb_false_r.
  - rewrite (lookup_ge_None_2 vals) by lia. destruct (decide (i = length vals)) as [->|Hne].
    + rewrite bool_decide_eq_true_2, list_lookup_middle by done. done.
    + rewrite bool_decide_eq_false_2 by done. rewrite lookup_ge_None_2; [done|]. rewrite length_app. cbn. lia.
Qed.

Lemma bitmap_more bm vals v : bitmap_of bm vals -> is_null v = false -> bitmap_of bm (vals ++ [v]).
Proof.
  intros Hb Hv i Hi. rewrite Hb by done. destruct (decide (i < length vals)%nat) as [H|H].
  - by rewrite lookup_app_l.
  - rewrite (lookup_ge_None_2 vals) by lia. destruct (decide (i = length vals)) as [->|Hne].
    + by rewrite list_lookup_middle.
    + rewrite lookup_ge_None_2; [done|]. rewrite length_app. cbn. lia.
Qed.

Lemma bitmap_zeros n : bitmap_of (zeros n) [].
Proof.
  intros i Hi. unfold null_at, zeros. rewrite nth_lookup, lookup_replicate_2; [by rewrite Z.testbit_0_l|].
  apply Nat.Div0.div_lt_upper_bound. unfold zeros in Hi. rewrite length_replicate in Hi. lia.
Qed.

(** The test of the decoder. *)
Lemma null_test bm i : (i < 8 * length bm)%nat ->
  exists b, bm !! (i / 8)%nat = Some b /\ negb (Z.land b (null_bit (Z.of_nat i)) =? 0) = null_at bm i.
Proof.
  intros Hi. assert (Hlt : (i / 8 < length bm)%nat) by (apply Nat.Div0.div_lt_upper_bound; lia).
  destruct (lookup_lt_is_Some_2 bm (i / 8) Hlt) as [b Hb]. exists b. split; [done|].
  unfold null_at. rewrite nth_lookup, Hb. cbn [from_option id]. pose proof (Nat.mod_upper_bound i 8 ltac:(lia)).
  destruct (Z.testbit b (Z.of_nat (i mod 8))) eqn:E.
  - apply negb_true_iff, Z.eqb_neq. intros H0. apply (f_equal (fun z => Z.testbit z (Z.of_nat (i mod 8)))) in H0.
    rewrite Z.land_spec, E, null_bit_spec, Z.eqb_refl, Z.testbit_0_l in H0 by lia. done.
  - apply negb_false_iff, Z.eqb_eq. apply Z.bits_inj'. intros k Hk. rewrite Z.land_spec, Z.testbit_0_l.
    destruct (decide (k < 8)) as [H8|H8].
    + rewrite null_bit_spec by lia. destruct (Z.eqb_spec k (Z.of_nat (i mod 8))) as [->|]; [by rewrite E|apply andb_false_r].
    + unfold null_bit, u8. rewrite Z.mod_pow2_bits_high by lia. apply andb_false_r.
Qed.

(** ** The encoder *)

(** The bytes a value takes in the body of the row. *)
Definition enc_val (v : Value) : bytes :=
  match v with
  | VAL_NULL => []
  | VAL_INT z => le_bytes 4 (i32 z)
  | VAL_TEXT s => le_bytes 2 (blen s) ++ s
  end.
Definition enc_body (vals : list Value) : bytes := mjoin (enc_val <$> vals).

Definition row_size (cols : list ColumnDef) (vals : list Value) : Z :=
  MVCC_HDR + null_bytes cols + blen (enc_body vals).

(** A value of the column's type, or NULL. *)
Definition matches_col (c : ColumnDef) (v : Value) : bool :=
  match v, cd_type c with
  | VAL_NULL, _ | VAL_INT _, COL_INT | VAL_TEXT _, COL_TEXT => true
  | _, _ => false
  end.

Fixpoint matches_row (cols : list ColumnDef) (vals : list Value) : bool :=
  match cols, vals with
  | [], [] => true
  | c :: cols, v :: vals => matches_col c v && matches_row cols vals
  | _, _ => false
  end.

(** Texts fit [text_val] and are C strings. *)
Definition val_ok (v : Value) : Prop :=
  match v with VAL_TEXT s => (length s < SQL_TEXT_LEN)%nat /\ Forall (fun c => 0 < c < 256) s | _ => True end.

(** What comes back: an [int32_t]. *)
Definition stored (v : Value) : Value := match v with VAL_INT z => VAL_INT (i32 z) | _ => v end.

Lemma enc_body_cons v vals : enc_body (v :: vals) = enc_val v ++ enc_body vals.
Proof. done. Qed.

(** The state of the loop: header, bitmap and body written so far, the rest of the buffer. *)
Section EncodeLoop.
Variables (hdr : bytes) (total : Z).
Hypothesis Hhdr : blen hdr = MVCC_HDR.
Hypothesis Htotal : total < 65536.

Lemma encode_col_spec c v bm body rest done :
  matches_col c v = true -> val_ok v -> bitmap_of bm done -> (length done < 8 * length bm)%nat ->
  MVCC_HDR + blen bm + blen body + blen rest = total ->
  encode_col (cd_type c) (blen done) v (hdr ++ bm ++ body ++ rest) (MVCC_HDR + blen bm + blen body) =
  if blen (enc_val v) <=? blen rest then
    Some (Some (hdr ++ (if is_null v then <[(length done / 8)%nat := Z.lor (nth (length done / 8) bm 0) (null_bit (blen done)) mod 256]> bm else bm) ++
                (body ++ enc_val v) ++ drop (length (enc_val v)) rest, MVCC_HDR + blen bm + blen (body ++ enc_val v)))
  else None.
Proof.
  intros Hm Hv Hb Hd Ht. pose proof (blen_nonneg rest). pose proof (blen_nonneg bm). pose proof (blen_nonneg body).
  assert (Hpre : forall src off, off = MVCC_HDR + blen bm + blen body ->
    mem_write (hdr ++ bm ++ body ++ rest) off src =
    if blen src <=? blen rest then Some ((hdr ++ bm ++ body) ++ src ++ drop (length src) rest) else None).
  { intros src off ->. rewrite <- mem_write_at with (off := MVCC_HDR + blen bm + blen body); [by rewrite <- !app_assoc|].
    rewrite !blen_app. lia. }
  destruct v as [z|s|]; cbn [matches_col encode_col enc_val is_null] in *.
  - destruct (cd_type c); [|done]. unfold put_le. rewrite Hpre by done. rewrite blen_le_bytes.
    destruct (Z.leb_spec (Z.of_nat 4) (blen rest)); [|done]. cbn [mbind option_bind].
    rewrite blen_app, blen_le_bytes. rewrite u16_small by (unfold MVCC_HDR in *; lia).
    rewrite <- !app_assoc. do 3 f_equal. lia.
  - destruct (cd_type c); [done|]. destruct Hv as [Hl _]. unfold SQL_TEXT_LEN in Hl.
    assert (Hs : 0 <= blen s < 256) by (unfold blen; lia).
    rewrite (u16_small (blen s)) by lia. unfold put_le. rewrite Hpre by done. rewrite blen_le_bytes, blen_app, blen_le_bytes.
    destruct (Z.leb_spec (Z.of_nat 2) (blen rest)); [|destruct (Z.leb_spec (Z.of_nat 2 + blen s) (blen rest)); [lia|done]].
    cbn [mbind option_bind]. rewrite mem_read_all. cbn [mbind option_bind].
    rewrite (u16_small (_ + 2)) by (unfold MVCC_HDR in *; lia).
    rewrite (app_assoc (hdr ++ bm ++ body)), mem_write_at by (rewrite !blen_app, blen_le_bytes; lia).
    assert (Hdrop : blen (drop (length (le_bytes 2 (blen s))) rest) = blen rest - 2) by (unfold blen; rewrite length_drop, length_le_bytes; unfold blen in *; lia).
    rewrite Hdrop. destruct (Z.leb_spec (blen s) (blen rest - 2)), (Z.leb_spec (Z.of_nat 2 + blen s) (blen rest)); try lia; [|done].
    cbn [mbind option_bind]. rewrite u16_small by (unfold MVCC_HDR in *; lia).
    rewrite drop_drop, length_app, length_le_bytes, !blen_app, blen_le_bytes, <- !app_assoc. do 3 f_equal. lia.
  - rewrite app_nil_r. cbn [length]. rewrite drop_0.
    destruct (Z.leb_spec (@blen Z []) (blen rest)) as [_|Hx]; [|change (@blen Z []) with 0 in Hx; lia].
    assert (Hlt : (length done / 8 < length bm)%nat) by (apply Nat.Div0.div_lt_upper_bound; lia).
    assert (Hoff : MVCC_HDR + blen done / 8 = Z.of_nat (length hdr + length done / 8)).
    { unfold blen in *. rewrite Nat2Z.inj_add, Nat2Z.inj_div. lia. }
    rewrite Hoff, get_byte. rewrite lookup_app_r, Nat.add_sub_swap, Nat.sub_diag by lia. cbn [Nat.add].
    rewrite lookup_app_l by done. destruct (lookup_lt_is_Some_2 bm (length done / 8) Hlt) as [b E]. rewrite E. cbn [mbind option_bind].
    rewrite put_byte by (rewrite !length_app; lia). cbn [mbind option_bind].
    rewrite insert_app_r, insert_app_l by done. by rewrite (nth_lookup_Some _ _ _ _ E).
Qed.

(** The whole loop: the row is written when its values match and fit, the code -1
    comes back when a value does not match, and the buffer overflows otherwise. *)
Lemma encode_cols_spec cols : forall vals bm body rest done,
  length vals = length cols -> Forall val_ok vals -> bitmap_of bm done -> (length done + length cols <= 8 * length bm)%nat ->
  MVCC_HDR + blen bm + blen body + blen rest = total ->
  let r := encode_cols cols vals (blen done) (hdr ++ bm ++ body ++ rest) (MVCC_HDR + blen bm + blen body) in
  if matches_row cols vals then
    if blen (enc_body vals) <=? blen rest then
      exists bm' rest', r = Some (Some (hdr ++ bm' ++ (body ++ enc_body vals) ++ rest', MVCC_HDR + blen bm + blen (body ++ enc_body vals))) /\
        bitmap_of bm' (done ++ vals) /\ blen bm' = blen bm
    else r = None
  else blen (enc_body vals) <= blen rest -> r = Some None.
Proof.
  induction cols as [|c cols IH]; intros [|v vals] bm body rest done Hlen Hok Hb Hd Ht; try (cbn in Hlen; lia); cbn zeta.
  { cbn [matches_row]. pose proof (blen_nonneg rest). destruct (Z.leb_spec (blen (enc_body [])) (blen rest)) as [_|Hx];
      [|change (blen (enc_body [])) with 0 in Hx; lia].
    exists bm, rest. change (enc_body []) with (@nil Z). rewrite !app_nil_r. done. }
  inversion_clear Hok as [|? ? Hv Hvs]. cbn [length] in Hd, Hlen. cbn [matches_row encode_cols]. rewrite enc_body_cons, blen_app.
  pose proof (blen_nonneg (enc_val v)). pose proof (blen_nonneg (enc_body vals)).
  destruct (matches_col c v) eqn:Hm; cbn [andb].
  2: { intros _. destruct v; cbn [matches_col encode_col] in *; destruct (cd_type c); done. }
  rewrite encode_col_spec by (done || lia). destruct (Z.leb_spec (blen (enc_val v)) (blen rest)) as [Hf|Hf].
  2: { destruct (matches_row cols vals); [|intros; lia]. destruct (Z.leb_spec (blen (enc_val v) + blen (enc_body vals)) (blen rest)); [lia|done]. }
  cbn [mbind option_bind]. set (bm1 := if is_null v then _ else bm).
  assert (Hbl : blen bm1 = blen bm) by (unfold bm1, blen; destruct (is_null v); [by rewrite length_insert|done]).
  assert (Hb1 : bitmap_of bm1 (done ++ [v])).
  { unfold bm1. destruct (is_null v) eqn:En; [|by apply bitmap_more]. destruct v; try done. apply bitmap_null; [done|lia]. }
  assert (Hrest : blen (drop (length (enc_val v)) rest) = blen rest - blen (enc_val v)) by (unfold blen in *; rewrite length_drop; lia).
  replace (blen done + 1) with (blen (done ++ [v])) by (rewrite blen_app; done).
  assert (Hlb : length bm1 = length bm) by (unfold blen in Hbl; lia).
  clearbody bm1.
  specialize (IH vals bm1 (body ++ enc_val v) (drop (length (enc_val v)) rest) (done ++ [v])). cbn zeta in IH.
  rewrite Hrest, Hbl in IH.
  specialize (IH ltac:(lia) Hvs Hb1 ltac:(rewrite length_app, Hlb; cbn [length]; lia) ltac:(rewrite blen_app; lia)).
  rewrite <- !app_assoc in IH |- *. destruct (matches_row cols vals); [|intros Hle; apply IH; lia].
  destruct (Z.leb_spec (blen (enc_body vals)) (blen rest - blen (enc_val v))),
    (Z.leb_spec (blen (enc_val v) + blen (enc_body vals)) (blen rest)); try lia; [|done].
  destruct IH as (bm' & rest' & -> & Hb' & Hl'). exists bm', rest'. rewrite <- !app_assoc in *. done.
Qed.
End EncodeLoop.

(** ** The decoder *)

Lemma c_string_id s : Forall (fun c => 0 < c < 256) s -> c_string s = s.
Proof.
  unfold c_string. induction 1 as [|c s Hc _ IH]; [done|]. cbn [span].
  rewrite (proj2 (Z.eqb_neq c 0)) by lia. cbn [negb]. destruct (span _ s) as [a b]. cbn in *. by rewrite IH.
Qed.

Lemma i32_le z : i32 (i32 z mod 2 ^ (8 * Z.of_nat 4)) = i32 z.
Proof.
  unfold i32 at 1. unfold signed. change (8 * Z.of_nat 4) with 32. rewrite Z.mod_mod by lia.
  unfold i32, signed. destruct (Z.ltb_spec (z mod 2 ^ 32) (2 ^ (32 - 1))) as [H|H].
  - rewrite Z.mod_mod by lia. destruct (Z.ltb_spec (z mod 2 ^ 32) (2 ^ (32 - 1))); lia.
  - assert (E : (z mod 2 ^ 32 - 2 ^ 32) mod 2 ^ 32 = z mod 2 ^ 32).
    { replace (z mod 2 ^ 32 - 2 ^ 32) with (z mod 2 ^ 32 + (-1) * 2 ^ 32) by lia. rewrite Z.mod_add, Z.mod_mod by lia. done. }
    rewrite E. destruct (Z.ltb_spec (z mod 2 ^ 32) (2 ^ (32 - 1))); lia.
Qed.

Lemma decode_col_spec c v pre post off :
  matches_col c v = true -> is_null v = false -> val_ok v -> off = blen pre -> blen pre + blen (enc_val v) < 65536 ->
  decode_col (cd_type c) (pre ++ enc_val v ++ post) off = Some (stored v, blen (pre ++ enc_val v)).
Proof.
  intros Hm Hn Hv -> Hl. pose proof (blen_nonneg pre).
  destruct v as [z|s|]; [| |done]; cbn [matches_col enc_val stored] in *; destruct (cd_type c); try done; cbn [decode_col].
  - rewrite get_le_at by done. cbn [mbind option_bind]. rewrite i32_le, blen_app, blen_le_bytes in *. rewrite u16_small by lia. done.
  - destruct Hv as [Hs Hc]. rewrite blen_app, blen_le_bytes in Hl. pose proof (blen_nonneg s). unfold SQL_TEXT_LEN in *.
    rewrite <- app_assoc, get_le_at by done. cbn [mbind option_bind].
    rewrite Z.mod_small by (unfold blen; change (2 ^ (8 * Z.of_nat 2)) with 65536; lia).
    rewrite (u16_small (_ + 2)) by lia. rewrite app_assoc, mem_read_at by (rewrite ?blen_app, ?blen_le_bytes; lia).
    cbn [mbind option_bind]. destruct (Z.leb_spec (Z.of_nat 256) (blen s)); [unfold blen in *; lia|].
    rewrite c_string_id, u16_small, !blen_app, blen_le_bytes by (done || lia). do 2 f_equal. lia.
Qed.

Lemma decode_cols_spec hdr bm : blen hdr = MVCC_HDR ->
  forall cols vals done,
  matches_row cols vals = true -> Forall val_ok vals -> bitmap_of bm (done ++ vals) -> (length done + length cols <= 8 * length bm)%nat ->
  MVCC_HDR + blen bm + blen (enc_body done) + blen (enc_body vals) < 65536 ->
  decode_cols cols (hdr ++ bm ++ enc_body done ++ enc_body vals) (blen done) (MVCC_HDR + blen bm + blen (enc_body done)) = Some (stored <$> vals).
Proof.
  intros Hh. induction cols as [|c cols IH]; intros [|v vals] done Hm Hok Hb Hd Hl; try discriminate Hm; [reflexivity|].
  cbn [matches_row length] in Hm, Hd. apply andb_true_iff in Hm as [Hm Hms]. inversion_clear Hok as [|? ? Hv Hvs].
  rewrite enc_body_cons, blen_app in Hl. pose proof (blen_nonneg (enc_body vals)). pose proof (blen_nonneg (enc_val v)).
  assert (Hdone : enc_body (done ++ [v]) = enc_body done ++ enc_val v).
  { unfold enc_body. rewrite fmap_app, join_app. cbn. by rewrite app_nil_r. }
  cbn [decode_cols]. destruct (null_test bm (length done)) as (b & Hbl & Hbit); [lia|].
  assert (Hoff : MVCC_HDR + blen done / 8 = Z.of_nat (length hdr + length done / 8)).
  { unfold blen in *. rewrite Nat2Z.inj_add, Nat2Z.inj_div. lia. }
  rewrite Hoff, get_byte, lookup_app_r, Nat.add_sub_swap, Nat.sub_diag by lia. cbn [Nat.add].
  rewrite (lookup_app_l_Some _ _ _ _ Hbl). cbn [mbind option_bind]. change (Z.of_nat (length done)) with (blen done) in Hbit.
  rewrite Hbit, Hb, list_lookup_middle by (done || lia).
  assert (Hstep : (if is_null v then Some (VAL_NULL, MVCC_HDR + blen bm + blen (enc_body done))
    else decode_col (cd_type c) (hdr ++ bm ++ enc_body done ++ enc_body (v :: vals)) (MVCC_HDR + blen bm + blen (enc_body done))) =
    Some (stored v, MVCC_HDR + blen bm + blen (enc_body (done ++ [v])))).
  { rewrite Hdone. destruct (is_null v) eqn:En; [destruct v; try done; by rewrite app_nil_r|].
    rewrite enc_body_cons, !app_assoc. rewrite <- (app_assoc _ (enc_val v)).
    rewrite decode_col_spec; rewrite ?blen_app; (done || (try lia)). f_equal. f_equal. lia. }
  rewrite Hstep. cbn [mbind option_bind].
  replace (blen done + 1) with (blen (done ++ [v])) by (rewrite blen_app; done).
  rewrite enc_body_cons. rewrite (app_assoc (enc_body done)), <- Hdone. rewrite IH; [done|done|done| |rewrite length_app; cbn [length]; lia|].
  - by rewrite <- app_assoc.
  - rewrite Hdone, blen_app. lia.
Qed.

Lemma null_bytes_enough cols : (length cols <= 8 * Z.to_nat (null_bytes cols))%nat /\ 0 <= null_bytes cols.
Proof.
  unfold null_bytes, blen. pose proof (Z.div_mod (Z.of_nat (length cols) + 7) 8 ltac:(lia)).
  pose proof (Z.mod_pos_bound (Z.of_nat (length cols) + 7) 8 ltac:(lia)). lia.
Qed.

(** ** The round trip *)

Lemma matches_row_length cols : forall vals, matches_row cols vals = true -> length vals = length cols.
Proof.
  induction cols as [|c cols IH]; intros [|v vals] Hm; try done. cbn in Hm. apply andb_true_iff in Hm as [_ Hm].
  cbn. by rewrite (IH vals Hm).
Qed.

Lemma encode_head cols xmin xmax buf : blen buf = PAGE_SIZE -> blen cols <= Z.of_nat SQL_MAX_COLS ->
  exists rest, (buf ← put_le 4 buf 0 xmin; buf ← put_le 4 buf 4 xmax; mem_write buf MVCC_HDR (zeros (null_bytes cols))) =
    Some ((le_bytes 4 xmin ++ le_bytes 4 xmax) ++ zeros (null_bytes cols) ++ rest) /\
    blen rest = PAGE_SIZE - MVCC_HDR - null_bytes cols.
Proof.
  intros Hb Hc. destruct (null_bytes_enough cols) as [_ Hnn].
  assert (Hn4 : null_bytes cols <= 4).
  { unfold null_bytes, SQL_MAX_COLS in *. change 4 with ((Z.of_nat 32 + 7) / 8). apply Z.div_le_mono; lia. }
  exists (drop (length (zeros (null_bytes cols))) (drop 4 (drop 4 buf))).
  assert (Hd : forall n : nat, Z.of_nat n <= PAGE_SIZE -> blen (drop n buf) = PAGE_SIZE - Z.of_nat n).
  { intros n Hn. unfold blen in *. rewrite length_drop. lia. }
  assert (Hz : Z.of_nat (length (zeros (null_bytes cols))) = null_bytes cols) by (unfold zeros; rewrite length_replicate; lia).
  unfold put_le, MVCC_HDR. change buf with ([] ++ buf) at 1. rewrite mem_write_at by done. rewrite blen_le_bytes.
  rewrite (proj2 (Z.leb_le _ _)) by (rewrite Hb; done). cbn [mbind option_bind app]. rewrite length_le_bytes.
  rewrite mem_write_at by (by rewrite blen_le_bytes). rewrite blen_le_bytes, (proj2 (Z.leb_le _ _)) by (rewrite Hd; done).
  cbn [mbind option_bind]. rewrite length_le_bytes, app_assoc.
  rewrite mem_write_at by (by rewrite blen_app, !blen_le_bytes). rewrite drop_drop.
  rewrite blen_zeros, (proj2 (Z.leb_le _ _)) by (rewrite ?Hd; unfold PAGE_SIZE; lia). split; [done|].
  rewrite drop_drop, Hd by (unfold PAGE_SIZE; lia). lia.
Qed.

(** The bytes of a record that holds the row [vals]. *)
Definition row_rep (schema : CreateStmt) (xmin xmax : Z) (vals : list Value) (rec : bytes) : Prop :=
  exists bm, rec = (le_bytes 4 xmin ++ le_bytes 4 xmax) ++ bm ++ enc_body vals /\ bitmap_of bm vals /\
    blen bm = null_bytes (c_columns schema) /\ blen rec = row_size (c_columns schema) vals.

(** The three outcomes of the encoder. *)
Lemma encode_row_spec schema vals xmin xmax buf :
  blen (c_columns schema) <= Z.of_nat SQL_MAX_COLS -> blen buf = PAGE_SIZE -> Forall val_ok vals ->
  if matches_row (c_columns schema) vals then
    if row_size (c_columns schema) vals <=? PAGE_SIZE then
      exists buf' rec, encode_row schema vals xmin xmax buf = Some (Some (buf', row_size (c_columns schema) vals)) /\
        mem_read buf' 0 (row_size (c_columns schema) vals) = Some rec /\ row_rep schema xmin xmax vals rec
    else encode_row schema vals xmin xmax buf = None
  else row_size (c_columns schema) vals <= PAGE_SIZE -> encode_row schema vals xmin xmax buf = Some None.
Proof.
  intros Hc Hb Hok. set (cols := c_columns schema) in *.
  destruct (null_bytes_enough cols) as [Hbits Hnn]. destruct (encode_head cols xmin xmax buf Hb Hc) as (rest & Hhead & Hrest).
  unfold encode_row. fold cols. destruct (Z.eqb_spec (blen vals) (blen cols)) as [Hlen|Hlen]; cbn [negb].
  2: { destruct (matches_row cols vals) eqn:Hm; [|done]. apply matches_row_length in Hm. unfold blen in Hlen. lia. }
  set (hdr := le_bytes 4 xmin ++ le_bytes 4 xmax) in *.
  assert (Hhdr : blen hdr = MVCC_HDR) by (unfold hdr; by rewrite blen_app, !blen_le_bytes).
  assert (Hz : blen (zeros (null_bytes cols)) = null_bytes cols) by (by apply blen_zeros).
  pose proof (encode_cols_spec hdr PAGE_SIZE Hhdr ltac:(done) cols vals (zeros (null_bytes cols)) [] rest []) as He. cbn zeta in He.
  rewrite Hz, Hrest in He. change (blen (@nil Value)) with 0 in He. change (blen (@nil Z)) with 0 in He. rewrite Z.add_0_r in He.
  cbn [app length Nat.add] in He.
  specialize (He ltac:(unfold blen in Hlen; lia) Hok (bitmap_zeros _) ltac:(unfold zeros; rewrite length_replicate; lia) ltac:(lia)).
  assert (Hnb : null_bytes cols <= PAGE_SIZE - MVCC_HDR) by (pose proof (blen_nonneg rest); lia).
  assert (Hrun : (buf ← put_le 4 buf 0 xmin; buf ← put_le 4 buf 4 xmax; buf ← mem_write buf MVCC_HDR (zeros (null_bytes cols));
     encode_cols cols vals 0 buf (u16 (MVCC_HDR + null_bytes cols))) =
     encode_cols cols vals 0 (hdr ++ zeros (null_bytes cols) ++ rest) (MVCC_HDR + null_bytes cols)).
  { rewrite u16_small by (unfold PAGE_SIZE, MVCC_HDR in *; lia).
    destruct (put_le 4 buf 0 xmin) as [b1|]; [|done]. cbn [mbind option_bind] in Hhead |- *.
    destruct (put_le 4 b1 4 xmax) as [b2|]; [|done]. cbn [mbind option_bind] in Hhead |- *. by rewrite Hhead. }
  rewrite Hrun. clear Hrun Hhead. unfold row_size. destruct (matches_row cols vals) eqn:Hm.
  2: { intros Hs. apply He. lia. }
  destruct (Z.leb_spec (blen (enc_body vals)) (PAGE_SIZE - MVCC_HDR - null_bytes cols)),
    (Z.leb_spec (MVCC_HDR + null_bytes cols + blen (enc_body vals)) PAGE_SIZE); try lia; [|done].
  destruct He as (bm & rest' & -> & Hbm & Hbl). cbn [app]. eexists _, (hdr ++ bm ++ enc_body vals). split; [done|].
  assert (Htot : blen (hdr ++ bm ++ enc_body vals) = MVCC_HDR + null_bytes cols + blen (enc_body vals)) by (rewrite !blen_app; lia).
  split; [|by exists bm]. rewrite (app_assoc bm), (app_assoc hdr), mem_read_app_l by lia. rewrite <- Htot. apply mem_read_all.
Qed.

Lemma row_rep_decode schema xmin xmax vals rec :
  row_rep schema xmin xmax vals rec -> matches_row (c_columns schema) vals = true -> Forall val_ok vals -> blen rec <= PAGE_SIZE ->
  decode_row schema rec = Some (stored <$> vals).
Proof.
  intros (bm & -> & Hbm & Hbl & Hsz) Hm Hok Hl. set (cols := c_columns schema) in *.
  destruct (null_bytes_enough cols) as [Hbits Hnn]. rewrite Hsz in Hl. unfold row_size in Hl. pose proof (blen_nonneg (enc_body vals)).
  unfold decode_row. fold cols. rewrite u16_small by (unfold PAGE_SIZE, MVCC_HDR in *; lia).
  assert (Hhdr : blen (le_bytes 4 xmin ++ le_bytes 4 xmax) = MVCC_HDR) by (by rewrite blen_app, !blen_le_bytes).
  pose proof (decode_cols_spec _ bm Hhdr cols vals [] Hm Hok Hbm) as Hd. cbn [app length] in Hd.
  change (enc_body []) with (@nil Z) in Hd. change (blen (@nil Value)) with 0 in Hd. change (blen (@nil Z)) with 0 in Hd.
  rewrite Z.add_0_r, Hbl in Hd. cbn [app] in Hd. apply Hd; [unfold blen in Hbl; lia|unfold PAGE_SIZE in *; lia].
Qed.

Lemma i32_mod z : - 2 ^ 31 <= z < 2 ^ 31 -> i32 (z mod 2 ^ (8 * Z.of_nat 4)) = z.
Proof. intros H. rewrite <- (signed_small 32 z) at 2 by lia. unfold i32, signed. change (8 * Z.of_nat 4) with 32. by rewrite Z.mod_mod. Qed.

Lemma row_rep_head schema xmin xmax vals rec :
  row_rep schema xmin xmax vals rec -> - 2 ^ 31 <= xmin < 2 ^ 31 -> - 2 ^ 31 <= xmax < 2 ^ 31 ->
  db_rec_xmin rec = Some xmin /\ db_rec_xmax rec = Some xmax.
Proof.
  intros (bm & -> & _) Hmin Hmax. rewrite <- !app_assoc. unfold db_rec_xmin, db_rec_xmax. split.
  - change (le_bytes 4 xmin ++ ?x) with ([] ++ le_bytes 4 xmin ++ x). rewrite get_le_at by done.
    cbn [fmap option_fmap option_map]. by rewrite i32_mod.
  - rewrite get_le_at by (by rewrite blen_le_bytes). cbn [fmap option_fmap option_map]. by rewrite i32_mod.
Qed.

(** Stamping [xmax] replaces the second field of the header. *)
Lemma row_rep_stamp schema xmin xmax xmax' vals rec :
  row_rep schema xmin xmax vals rec ->
  exists rec', put_le 4 rec 4 xmax' = Some rec' /\ row_rep schema xmin xmax' vals rec' /\ blen rec' = blen rec.
Proof.
  intros (bm & -> & Hbm & Hbl & Hsz). unfold put_le. rewrite <- !app_assoc.
  rewrite mem_write_at by (by rewrite blen_le_bytes). rewrite blen_le_bytes.
  rewrite (proj2 (Z.leb_le _ _)) by (rewrite blen_app, blen_le_bytes; pose proof (blen_nonneg (bm ++ enc_body vals)); lia).
  rewrite (length_le_bytes 4 xmax'), drop_app_length' by (by rewrite length_le_bytes).
  eexists. split; [done|]. rewrite !app_assoc. split.
  - exists bm. rewrite <- !app_assoc. split; [done|]. split; [done|]. split; [done|].
    rewrite <- Hsz, !blen_app, !blen_le_bytes. lia.
  - rewrite !blen_app, !blen_le_bytes. lia.
Qed.

(** C32. The row format: for a row of values of the schema's types that fits a page,
    [encode_row] succeeds and reading the record back gives the values, integers
    reduced to 32 bits, and the transaction ids; when the number or a type does
    not match it returns -1; and when the row is larger than the caller's
    page-sized buffer it writes outside that buffer. *)
Theorem encode_decode_row (schema : CreateStmt) (vals : list Value) (xmin xmax : Z) (buf : bytes) :
  let cols := c_columns schema in
  blen cols <= Z.of_nat SQL_MAX_COLS -> blen buf = PAGE_SIZE -> Forall val_ok vals ->
  - 2 ^ 31 <= xmin < 2 ^ 31 -> - 2 ^ 31 <= xmax < 2 ^ 31 ->
  if matches_row cols vals then
    if row_size cols vals <=? PAGE_SIZE then
      exists buf' rec, encode_row schema vals xmin xmax buf = Some (Some (buf', row_size cols vals)) /\
        mem_read buf' 0 (row_size cols vals) = Some rec /\
        decode_row schema rec = Some (stored <$> vals) /\
        db_rec_xmin rec = Some xmin /\ db_rec_xmax rec = Some xmax
    else encode_row schema vals xmin xmax buf = None
  else row_size cols vals <= PAGE_SIZE -> encode_row schema vals xmin xmax buf = Some None.
Proof.
  cbn zeta. intros Hc Hb Hok Hmin Hmax. pose proof (encode_row_spec schema vals xmin xmax buf Hc Hb Hok) as H.
  destruct (matches_row _ _) eqn:Hm; [|done]. destruct (Z.leb_spec (row_size (c_columns schema) vals) PAGE_SIZE); [|done].
  destruct H as (buf' & rec & He & Hr & Hrep). exists buf', rec. split; [done|]. split; [done|].
  split; [|by eapply row_rep_head]. eapply row_rep_decode; [done..|]. destruct Hrep as (? & _ & _ & _ & ->). done.
Qed.

Lemma encode_decode_row_witness :
  (exists buf' rec, encode_row demo_schema [VAL_INT (2 ^ 32 - 5); VAL_TEXT (str "kim"); VAL_NULL] 7 0 (zeros PAGE_SIZE) = Some (Some (buf', 18)) /\
     mem_read buf' 0 18 = Some rec /\ decode_row demo_schema rec = Some [VAL_INT (-5); VAL_TEXT (str "kim"); VAL_NULL] /\
     db_rec_xmin rec = Some 7 /\ db_rec_xmax rec = Some 0) /\
  encode_row (mkCreate (str "w") (replicate 17 (mkColumn (str "c") COL_TEXT false)) 0) (replicate 17 (VAL_TEXT (replicate 255 65))) 1 0 (zeros PAGE_SIZE) = None.
Proof.
  split.
  - apply (encode_decode_row demo_schema [VAL_INT (2 ^ 32 - 5); VAL_TEXT (str "kim"); VAL_NULL] 7 0 (zeros PAGE_SIZE));
      [vm_compute; discriminate|vm_compute; reflexivity| |lia|lia].
    repeat constructor; cbn; lia.
  - apply (encode_decode_row (mkCreate (str "w") (replicate 17 (mkColumn (str "c") COL_TEXT false)) 0) (replicate 17 (VAL_TEXT (replicate 255 65))) 1 0 (zeros PAGE_SIZE));
      [vm_compute; discriminate|vm_compute; reflexivity| |lia|lia].
    apply Forall_replicate. split; [rewrite length_replicate; unfold SQL_TEXT_LEN; lia|apply Forall_replicate; lia].
Defined.

(** ** Row addresses as index values *)

Lemma rid_decode_encode r : 0 <= rid_page r < 2 ^ 47 -> 0 <= rid_slot r < 65536 -> rid_decode (rid_encode r) = r.
Proof.
  destruct r as [p s]. cbn [rid_page rid_slot]. intros Hp Hs. unfold rid_decode, rid_encode. cbn [rid_page rid_slot].
  unfold i64. rewrite signed_small by lia. rewrite Z.quot_div_nonneg, Z.rem_mod_nonneg by lia.
  rewrite Z.add_comm, Z.div_add, Z.mod_add, Z.div_small, Z.mod_small by lia.
  rewrite u64_small, u16_small by lia. done.
Qed.
