(* ===== verification/Where.v ===== *)
(** * Evaluation of WHERE (src/src/db.c: cmp_apply, like_match, cond_eval, where_matches, value_cmp)

    Cells are values or absent (a column the row does not have).  Conditions are
    those of the parser; the values of an IN subquery are in [in_set] once the
    executor has run it.  The pattern matcher keeps the code's two pointers and
    its restart position; its fuel counts iterations, and [like_match_correct] says
    that the bound is enough and that the answer is that of the pattern language. *)
From stdpp Require Import strings.
From S2P Require Import Prelude SqlLex SqlParse.

(** ** Comparisons *)

(** The sign of [strcmp] on C strings of unsigned bytes. *)
Fixpoint strcmp (a b : bytes) : Z :=
  match a, b with
  | [], [] => 0
  | [], _ => -1
  | _, [] => 1
  | x :: a, y :: b => if x <? y then -1 else if y <? x then 1 else strcmp a b
  end.

Definition int_sign (x y : Z) : Z := if x <? y then -1 else if y <? x then 1 else 0.

Definition cmp_apply (op : CmpOp) (sign : Z) : bool :=
  match op with
  | CMP_EQ => sign =? 0
  | CMP_NE => negb (sign =? 0)
  | CMP_LT => sign <? 0
  | CMP_GT => 0 <? sign
  | CMP_LE => sign <=? 0
  | CMP_GE => 0 <=? sign
  | CMP_IS_NULL | CMP_IS_NOT_NULL | CMP_LIKE | CMP_NOT_LIKE => false
  end.

(** ** LIKE *)

Fixpoint skip_percents (pat : bytes) : bytes :=
  match pat with
  | 37 :: pat => skip_percents pat
  | _ => pat
  end.

(** [star] holds [star + 1] and [ss]. *)
Fixpoint like_loop (fuel : nat) (s pat : bytes) (star : option (bytes * bytes)) : option bool :=
  match fuel with
  | O => None
  | S fuel =>
      match s with
      | [] => Some (bool_decide (skip_percents pat = []))
      | c :: s' =>
          if peek pat =? 37 then like_loop fuel s (tail pat) (Some (tail pat, s))
          else if (peek pat =? 95) || (peek pat =? c) then like_loop fuel s' (tail pat) star
          else match star with
               | Some (p1, ss) => like_loop fuel (tail ss) p1 (Some (p1, tail ss))
               | None => Some false
               end
      end
  end.

(** Every iteration shortens the pattern or moves the restart position. *)
Definition like_fuel (s pat : bytes) : nat := S ((length s + 1) * (length pat + 1) + length pat).

Definition like_match (s pat : bytes) : option bool := like_loop (like_fuel s pat) s pat None.

(** ** Conditions *)

(** The position of a column in a schema, by name. *)
Fixpoint col_index (cols : list ColumnDef) (col : bytes) : option nat :=
  match cols with
  | [] => None
  | c :: cols => if decide (cd_name c = col) then Some O else S <$> col_index cols col
  end.

Definition cell_in (schema : CreateStmt) (tname qtbl col : bytes) (row : list Value) : option Value :=
  if negb (bool_decide (qtbl = [])) && negb (bool_decide (qtbl = tname)) then None
  else i ← col_index (c_columns schema) col; row !! i.

(** Comparison of two values of one type; other pairs have none. *)
Definition compare_values (x y : Value) : option Z :=
  match x, y with
  | VAL_INT a, VAL_INT b => Some (int_sign a b)
  | VAL_TEXT a, VAL_TEXT b => Some (strcmp a b)
  | _, _ => None
  end.

Definition member (cell : Value) (set : list Value) : bool :=
  existsb (fun v => match compare_values cell v with Some s => s =? 0 | None => false end) set.

Definition cond_eval (cell : option Value) (cond : Condition) : option bool :=
  let 'mkCond _ _ op val in_sub in_negate scalar_sub _ in_set := cond in
  if in_sub then
    match cell with
    | None | Some VAL_NULL => Some false
    | Some v =>
        if scalar_sub then
          Some (match in_set with
                | [] => false
                | w :: _ => match compare_values v w with Some s => cmp_apply op s | None => false end
                end)
        else Some (if in_negate then negb (member v in_set) else member v in_set)
    end
  else
    match op with
    | CMP_IS_NULL => Some (match cell with Some VAL_NULL => true | _ => false end)
    | CMP_IS_NOT_NULL => Some (match cell with Some VAL_NULL | None => false | _ => true end)
    | CMP_LIKE | CMP_NOT_LIKE =>
        match cell, val with
        | Some (VAL_TEXT s), VAL_TEXT p => m ← like_match s p; Some (if decide (op = CMP_NOT_LIKE) then negb m else m)
        | _, _ => Some false
        end
    | _ =>
        Some (match cell with
              | Some v => match compare_values v val with Some s => cmp_apply op s | None => false end
              | None => false
              end)
    end.

Definition values_equal (a b : Value) : bool :=
  match compare_values a b with Some s => s =? 0 | None => false end.

Definition cond_matches (schema : CreateStmt) (tname : bytes) (cond : Condition) (row : list Value) : option bool :=
  let 'mkCond tbl col _ _ _ _ _ _ _ := cond in cond_eval (cell_in schema tname tbl col row) cond.

Fixpoint group_matches (schema : CreateStmt) (tname : bytes) (g : list Condition) (row : list Value) : option bool :=
  match g with
  | [] => Some true
  | c :: g => b ← cond_matches schema tname c row; if (b : bool) then group_matches schema tname g row else Some false
  end.

Fixpoint groups_match (schema : CreateStmt) (tname : bytes) (w : Where) (row : list Value) : option bool :=
  match w with
  | [] => Some false
  | g :: w => b ← group_matches schema tname g row; if (b : bool) then Some true else groups_match schema tname w row
  end.

Definition where_matches (schema : CreateStmt) (tname : bytes) (w : Where) (row : list Value) : option bool :=
  match w with [] => Some true | _ => groups_match schema tname w row end.

Example like_examples :
  like_match (str "database") (str "d%ba_e") = Some true /\ like_match (str "aaab") (str "%ab") = Some true /\
  like_match (str "abc") (str "a_") = Some false /\ like_match [] (str "%%") = Some true /\
  like_match (str "mississippi") (str "%is%pi_") = Some false.
Proof. vm_compute. repeat split. Qed.

(** ** The pattern language *)

Inductive like : bytes -> bytes -> Prop :=
  | like_nil : like [] []
  | like_any pat s1 s2 : like pat s2 -> like (37 :: pat) (s1 ++ s2)
  | like_one c pat s : like pat s -> like (95 :: pat) (c :: s)
  | like_char c pat s : c <> 37 -> c <> 95 -> like pat s -> like (c :: pat) (c :: s).

(** A pattern symbol that stands for exactly the character [c]. *)
Definition sym_ok (p c : Z) : Prop := p <> 37 /\ (p = 95 \/ p = c).

Lemma like_sym p c pat s : sym_ok p c -> like pat s -> like (p :: pat) (c :: s).
Proof.
  intros [Hp [->| ->]] H; [by constructor|]. destruct (decide (c = 95)) as [->|]; by constructor.
Qed.

Lemma like_sym_inv p pat s : p <> 37 -> like (p :: pat) s -> exists c s', s = c :: s' /\ sym_ok p c /\ like pat s'.
Proof. unfold sym_ok. intros Hp H. inversion H; subst; try done; eauto 10. Qed.

Lemma like_any_inv pat s : like (37 :: pat) s <-> exists s1 s2, s = s1 ++ s2 /\ like pat s2.
Proof.
  split; [|intros (s1 & s2 & -> & H); by constructor]. intros H. inversion H; subst; eauto; done.
Qed.

Lemma like_any_suffix pat s1 s2 : like (37 :: pat) s2 -> like (37 :: pat) (s1 ++ s2).
Proof. rewrite !like_any_inv. intros (a & b & -> & H). exists (s1 ++ a), b. by rewrite app_assoc. Qed.

(** A stretch of symbols matched one to one. *)
Lemma like_lits q u pat s : Forall2 sym_ok q u -> like (q ++ pat) (u ++ s) <-> like pat s.
Proof.
  induction 1 as [|p c q u Hs _ IH]; [done|]. cbn [app]. rewrite <- IH. split; [|by apply like_sym].
  intros H. apply like_sym_inv in H as (c' & s' & [= <- <-] & _ & H); [done|apply Hs].
Qed.

Lemma like_lits_inv q u pat t : Forall2 sym_ok q u -> like (q ++ pat) t -> exists u' t', t = u' ++ t' /\ length u' = length u /\ like pat t'.
Proof.
  intros Hq. revert t. induction Hq as [|p c q u Hs _ IH]; intros t H; [by exists [], t|]. cbn [app] in H.
  apply like_sym_inv in H as (c' & s' & -> & _ & H); [|apply Hs]. destruct (IH _ H) as (u' & t' & -> & Hl & Ht).
  exists (c' :: u'), t'. cbn. by rewrite Hl.
Qed.

Lemma like_percents pat : like pat [] <-> skip_percents pat = [].
Proof.
  induction pat as [|p pat IH]; [split; [done|constructor]|].
  destruct (decide (p = 37)) as [->|Hp].
  - cbn [skip_percents]. rewrite <- IH. split.
    + rewrite like_any_inv. intros (a & b & H & Hb). symmetry in H. apply app_eq_nil in H as [-> ->]. done.
    + intros H. by apply (like_any pat [] []).
  - split; [intros H; apply like_sym_inv in H as (? & ? & ? & _); done|].
    intros H. exfalso. revert H. cbn [skip_percents]. repeat case_match; congruence.
Qed.

(** Between two percent signs the leftmost match is as good as any. *)
Lemma like_leftmost q u pat s : Forall2 sym_ok q u -> like (37 :: q ++ 37 :: pat) (u ++ s) <-> like (37 :: pat) s.
Proof.
  intros Hq. split; intros H.
  - apply like_any_inv in H as (v & t & He & Ht). apply (like_lits_inv q u) in Ht as (u' & t' & -> & Hl & Ht); [|done].
    assert (Hlen : (length u <= length (v ++ u'))%nat) by (rewrite length_app; lia).
    assert (Hs : s = drop (length u) (v ++ u') ++ t').
    { apply (f_equal (drop (length u))) in He. rewrite drop_app_length in He. rewrite He, app_assoc, drop_app_le by done. done. }
    rewrite Hs. by apply like_any_suffix.
  - apply (like_any _ []). by apply like_lits.
Qed.

(** The least length of a text that matches. *)
Lemma like_lits_short q u pat t : Forall2 sym_ok q u -> like (q ++ pat) t -> (length t <= length u)%nat -> like pat [].
Proof.
  intros Hq H Hl. apply (like_lits_inv q u) in H as (u' & t' & -> & Hu & Ht); [|done].
  rewrite length_app in Hl. destruct t'; [done|cbn in Hl; lia].
Qed.

(** ** The matcher *)

(** What the current state stands for. *)
Definition like_state (s pat : bytes) (star : option (bytes * bytes)) : Prop :=
  match star with None => like pat s | Some (p1, ss) => like (37 :: p1) ss end.

(** The attempt since the restart position has matched one to one. *)
Definition like_inv (s pat : bytes) (star : option (bytes * bytes)) : Prop :=
  match star with
  | None => True
  | Some (p1, ss) => exists q u, p1 = q ++ pat /\ ss = u ++ s /\ Forall2 sym_ok q u
  end.

Definition like_rank (P : nat) (s pat : bytes) (star : option (bytes * bytes)) : nat :=
  match star with
  | None => (length s + 1) * (P + 1) + length pat
  | Some (p1, ss) => length ss * (P + 1) + length pat
  end.

Definition like_answer (r : option bool) (Q : Prop) : Prop := exists b, r = Some b /\ (b = true <-> Q).

(** At the end of the text only percent signs may be left. *)
Lemma like_end_spec pat star : like_inv [] pat star ->
  like_answer (Some (bool_decide (skip_percents pat = []))) (like_state [] pat star).
Proof.
  intros Hinv. eexists. split; [done|]. rewrite bool_decide_eq_true, <- like_percents. destruct star as [[p1 ss]|]; [|done].
  destruct Hinv as (q & u & -> & -> & Hq). cbn [like_state]. split.
  - intros H. apply (like_any _ []). by apply like_lits.
  - rewrite like_any_inv. intros (a & t & He & Ht). eapply like_lits_short; [exact Hq|exact Ht|].
    apply (f_equal length) in He. rewrite app_nil_r, length_app in He. lia.
Qed.

(** A failed attempt at the restart position rules that position out. *)
Lemma like_restart q u pat c s c0 t : Forall2 sym_ok q u -> ~ like pat (c :: s) -> u ++ c :: s = c0 :: t ->
  like (37 :: q ++ pat) t <-> like (37 :: q ++ pat) (c0 :: t).
Proof.
  intros Hq Hno Et. split; [apply (like_any_suffix _ [c0])|].
  rewrite !like_any_inv. intros ([|x a] & b' & He & H); cbn [app] in He.
  - subst b'. exfalso. apply Hno. apply (like_lits q u); [done|]. by rewrite Et.
  - injection He as <- ->. eauto.
Qed.

Lemma like_loop_spec P fuel : forall s pat star,
  Forall (fun c => 0 < c) s -> Forall (fun c => 0 < c) (default [] (snd <$> star)) ->
  like_inv s pat star -> (length pat <= P)%nat -> (length (default [] (fst <$> star)) <= P)%nat ->
  (like_rank P s pat star < fuel)%nat -> like_answer (like_loop fuel s pat star) (like_state s pat star).
Proof.
  induction fuel as [|fuel IH]; intros s pat star Hs Hss Hinv Hp Hp1 Hf; [lia|]. cbn [like_loop].
  destruct s as [|c s]; [by apply like_end_spec|]. inversion Hs as [|? ? Hc Hs']; subst.
  destruct (Z.eqb_spec (peek pat) 37) as [E37|E37].
  { destruct pat as [|p pat]; [done|]. cbn in E37. subst p. cbn [tail length] in *.
    destruct (IH (c :: s) pat (Some (pat, c :: s))) as (b & -> & Hb); [done|done|by exists [], []|lia|cbn; lia| |].
    { destruct star as [[p1 ss]|]; cbn [like_rank length] in *; [|nia].
      destruct Hinv as (q & u & -> & -> & Hq). rewrite length_app in Hf. cbn [length] in Hf. nia. }
    exists b. split; [done|]. rewrite Hb. cbn [like_state]. destruct star as [[p1 ss]|]; [|done].
    destruct Hinv as (q & u & -> & -> & Hq). cbn [like_state]. by rewrite like_leftmost. }
  destruct ((peek pat =? 95) || (peek pat =? c)) eqn:Em.
  { destruct pat as [|p pat]; [cbn [peek] in Em; rewrite (proj2 (Z.eqb_neq 0 c)) in Em by lia; done|]. cbn [peek tail length] in *.
    assert (Hsym : sym_ok p c).
    { split; [done|]. apply orb_true_iff in Em as [H%Z.eqb_eq|H%Z.eqb_eq]; auto. }
    destruct (IH s pat star) as (b & -> & Hb); [done|done| |lia|done| |].
    { destruct star as [[p1 ss]|]; [|done]. destruct Hinv as (q & u & -> & -> & Hq).
      exists (q ++ [p]), (u ++ [c]). rewrite <- !app_assoc. split; [done|]. split; [done|]. by apply Forall2_app; [|constructor]. }
    { destruct star as [[p1 ss]|]; cbn [like_rank length] in *; lia. }
    exists b. split; [done|]. rewrite Hb. destruct star as [[p1 ss]|]; [done|]. cbn [like_state].
    assert (Hl : Forall2 sym_ok [p] [c]) by (constructor; [exact Hsym|constructor]).
    by rewrite <- (like_lits [p] [c] pat s Hl). }
  assert (Hno : ~ like pat (c :: s)).
  { intros H. destruct pat as [|p pat]; [by inversion H|]. cbn [peek] in *.
    apply like_sym_inv in H as (c' & s' & [= <- <-] & [_ Hpc] & _); [|done].
    apply orb_false_iff in Em as [H95%Z.eqb_neq Hc'%Z.eqb_neq]. naive_solver. }
  destruct star as [[p1 ss]|].
  2: { exists false. split; [done|]. cbn [like_state]. split; done. }
  destruct Hinv as (q & u & -> & -> & Hq).
  assert (Hss2 : exists c0 t, u ++ c :: s = c0 :: t) by (destruct u; eauto). destruct Hss2 as (c0 & t & Et).
  cbn in Hss. rewrite Et in *. inversion Hss as [|? ? _ Ht]; subst. cbn [tail].
  destruct (IH t (q ++ pat) (Some (q ++ pat, t))) as (b & -> & Hb); [done|done|by exists [], []|done|done| |].
  { cbn [like_rank length] in *. cbn in Hp1. nia. }
  exists b. split; [done|]. rewrite Hb. by eapply like_restart.
Qed.

Lemma like_match_spec s pat : Forall (fun c => 0 < c) s -> exists b, like_match s pat = Some b /\ (b = true <-> like pat s).
Proof.
  intros Hs. apply (like_loop_spec (length pat)); [done|constructor|done|lia|cbn; lia|].
  unfold like_fuel. cbn [like_rank]. lia.
Qed.

(** C33. The iterative LIKE matcher with its single restart position decides the
    pattern language (percent for any text, underscore for one character), for
    every text and pattern, and always terminates within its bound. *)
Theorem like_match_correct (s pat : bytes) :
  Forall (fun c => 0 < c) s -> exists b, like_match s pat = Some b /\ (b = true <-> like pat s).
Proof. apply like_match_spec. Qed.

Lemma like_match_correct_witness :
  like (str "%is%pi") (str "mississippi") /\ ~ like (str "a_") (str "abc").
Proof.
  split.
  - destruct (like_match_correct (str "mississippi") (str "%is%pi")) as (b & E & H); [vm_compute; repeat constructor|].
    apply H. vm_compute in E. congruence.
  - destruct (like_match_correct (str "abc") (str "a_")) as (b & E & H); [vm_compute; repeat constructor|].
    intros Hl. apply H in Hl. vm_compute in E. congruence.
Defined.

(** ** Conditions always have an answer *)

(** Texts in a cell are C strings. *)
Definition cell_ok (v : Value) : Prop := match v with VAL_TEXT s => Forall (fun c => 0 < c) s | _ => True end.

Lemma cond_eval_total cell cond : (forall v, cell = Some v -> cell_ok v) -> is_Some (cond_eval cell cond).
Proof.
  intros Hc. destruct cond as [tbl col op val in_sub neg scal sub set]. unfold cond_eval.
  destruct in_sub; [destruct cell as [[]|]; [destruct scal..| |]; by eexists|].
  assert (Hlike : forall f : bool -> bool, is_Some (match cell, val with
    | Some (VAL_TEXT s), VAL_TEXT p => m ← like_match s p; Some (f m) | _, _ => Some false end)).
  { intros f. destruct cell as [[z|s|]|]; [by eexists| |by eexists|by eexists]. destruct val as [z|p|]; try by eexists.
    destruct (like_match_spec s p) as (b & -> & _); [exact (Hc _ eq_refl)|by eexists]. }
  destruct op; try (by eexists); apply Hlike.
Qed.

Lemma cell_in_ok schema tname qtbl col row v : Forall cell_ok row -> cell_in schema tname qtbl col row = Some v -> cell_ok v.
Proof.
  unfold cell_in. intros Hr. destruct (_ && _); [done|]. intros (i & _ & Hi)%bind_Some. by eapply Forall_lookup_1.
Qed.

Lemma where_matches_total schema tname w row : Forall cell_ok row -> is_Some (where_matches schema tname w row).
Proof.
  intros Hr.
  assert (Hg : forall g, is_Some (group_matches schema tname g row)).
  { induction g as [|c g IH]; [by eexists|]. cbn [group_matches].
    assert (Hc : is_Some (cond_matches schema tname c row)).
    { destruct c. apply cond_eval_total. intros v Hv. by eapply cell_in_ok. }
    destruct Hc as [[] ->]; cbn [mbind option_bind]; [done|by eexists]. }
  unfold where_matches. destruct w as [|g w]; [by eexists|]. generalize (g :: w). clear g w.
  induction l as [|g w IH]; [by eexists|]. cbn [groups_match].
  destruct (Hg g) as [[] ->]; cbn [mbind option_bind]; [by eexists|done].
Qed.
