(* ===== verification/Storage.v ===== *)
(** * What the executor needs from heaps and indexes (src/src/db.c: pidx_insert, pidx_find_all, pidx_range)

    Two interfaces with their laws: a store of records under row addresses, which
    heap files implement, and an index with several entries per key, which the
    B+tree and the LSM engine implement, alone or behind the dispatch of
    [pidx_insert], [pidx_find_all] and [pidx_range].  The number in a representation predicate is
    how many more insertions are certain not to exhaust page numbers or sequence
    numbers. *)
From stdpp Require Import strings sorting.
From S2P Require Import SqlParse Where Prelude Page Pager BufPool Heap Lsm Btree Row.

(** ** Records *)

Class RecordStore (H : Type) := {
  rs_insert : H -> bytes -> option (H * option RID);
  rs_get : H -> RID -> option (H * option bytes);
  rs_overwrite : H -> RID -> bytes -> option (H * Z);
  rs_scan : forall {C}, (RID -> bytes -> C -> C * Z) -> H -> C -> option (H * C * Z) }.

(** An address the index can hold, with bytes. *)
Definition row_ok (e : RID * bytes) : Prop :=
  0 <= rid_page e.1 < 2 ^ 47 /\ 0 <= rid_slot e.1 < 65536 /\ Forall is_byte e.2.

Definition set_row (rid : RID) (rec : bytes) (rows : list (RID * bytes)) : list (RID * bytes) :=
  (fun e => if decide (e.1 = rid) then (rid, rec) else e) <$> rows.

Definition new_row (r : option RID) (rec : bytes) : list (RID * bytes) := match r with Some rid => [(rid, rec)] | None => [] end.

Class RecordStoreLaws (H : Type) `{RecordStore H} := {
  rs_rep : nat -> H -> list (RID * bytes) -> Prop;
  law_rs_rows : forall n h rows, rs_rep n h rows -> NoDup rows.*1 /\ Forall row_ok rows;
  law_rs_mono : forall n m h rows, rs_rep n h rows -> (m <= n)%nat -> rs_rep m h rows;
  law_rs_insert : forall n h rows rec, rs_rep (S n) h rows -> rec_ok rec ->
    exists h' r, rs_insert h rec = Some (h', r) /\ rs_rep n h' (rows ++ new_row r rec);
  law_rs_get : forall n h rows rid, rs_rep n h rows -> rid_ok 0 rid ->
    exists h' r, rs_get h rid = Some (h', r) /\ rs_rep n h' rows /\ forall rec, r = Some rec <-> (rid, rec) ∈ rows;
  law_rs_overwrite : forall n h rows rid old rec, rs_rep n h rows -> (rid, old) ∈ rows -> blen rec = blen old -> Forall is_byte rec ->
    exists h', rs_overwrite h rid rec = Some (h', 0) /\ rs_rep n h' (set_row rid rec rows);
  law_rs_scan : forall C (visit : RID -> bytes -> C -> C * Z) n h rows ctx, rs_rep n h rows ->
    exists h', rs_scan visit h ctx = Some (h', (visit_all visit rows ctx).1, (visit_all visit rows ctx).2) /\ rs_rep n h' rows }.

(** A callback that never stops the scan is a fold over the rows. *)
Lemma visit_all_total {C} (g : RID -> bytes -> C -> C) rows : forall ctx,
  visit_all (fun rid rec c => (g rid rec c, 0)) rows ctx = (foldl (fun c e => g e.1 e.2 c) ctx rows, 0).
Proof. induction rows as [|[rid rec] rows IH]; intros ctx; cbn [visit_all foldl]; [done|]. apply IH. Qed.

(** ** The rows of an abstract heap *)

Lemma page_rows_elem pid recs : forall slot rid rec,
  (rid, rec) ∈ page_rows pid slot recs <-> exists i : nat, recs !! i = Some (Some rec) /\ rid = mkRID pid (slot + Z.of_nat i).
Proof.
  induction recs as [|[b|] recs IH]; intros slot rid rec; cbn [page_rows].
  - split; [by intros ?%elem_of_nil|by intros (i & Hi & _)].
  - rewrite elem_of_cons, IH. split.
    + intros [[= -> ->]|(i & Hi & ->)]; [exists O; rewrite Z.add_0_r; done|exists (S i); split; [done|f_equal; lia]].
    + intros ([|i] & Hi & ->); [left; injection Hi as ->; by rewrite Z.add_0_r|right; exists i; split; [done|f_equal; lia]].
  - rewrite IH. split.
    + intros (i & Hi & ->). exists (S i). split; [done|f_equal; lia].
    + intros ([|i] & Hi & ->); [done|exists i; split; [done|f_equal; lia]].
Qed.

Lemma aheap_rows_elem (a : aheap) : forall pid rid rec,
  (rid, rec) ∈ aheap_rows pid a <->
  exists (j i : nat) p, a !! j = Some p /\ ap_recs p !! i = Some (Some rec) /\ rid = mkRID (pid + Z.of_nat j) (Z.of_nat i).
Proof.
  induction a as [|p a IH]; intros pid rid rec; cbn [aheap_rows].
  - split; [by intros ?%elem_of_nil|by intros (j & i & p & Hj & _)].
  - rewrite elem_of_app, page_rows_elem, IH. split.
    + intros [(i & Hi & ->)|(j & i & q & Hj & Hi & ->)].
      * exists O, i, p. rewrite Z.add_0_r. done.
      * exists (S j), i, q. split; [done|]. split; [done|]. f_equal; lia.
    + intros ([|j] & i & q & Hj & Hi & ->).
      * injection Hj as ->. left. exists i. rewrite Z.add_0_r. done.
      * right. exists j, i, q. split; [done|]. split; [done|]. f_equal; lia.
Qed.

Lemma aheap_get_elem first (a : aheap) rid rec : 0 <= rid_slot rid -> aheap_get first a rid = Some rec <-> (rid, rec) ∈ aheap_rows first a.
Proof.
  intros Hs. rewrite aheap_rows_elem. unfold aheap_get, aheap_page. destruct rid as [pg sl]. cbn [rid_page rid_slot] in *. split.
  - destruct (Z.leb_spec first pg); [|done]. intros (p & Hp & Hr)%bind_Some. exists (Z.to_nat (pg - first)), (Z.to_nat sl), p.
    destruct (ap_recs p !! Z.to_nat sl) as [[b|]|] eqn:E; try done. injection Hr as ->. split; [done|]. split; [done|]. f_equal; lia.
  - intros (j & i & p & Hp & Hi & [= -> ->]). destruct (Z.leb_spec first (first + Z.of_nat j)); [|lia].
    replace (Z.to_nat (first + Z.of_nat j - first)) with j by lia. rewrite Hp. cbn [mbind option_bind]. by rewrite Nat2Z.id, Hi.
Qed.

Lemma page_rows_nodup pid recs : forall slot, NoDup (page_rows pid slot recs).*1.
Proof.
  induction recs as [|[b|] recs IH]; intros slot; cbn [page_rows]; [constructor| |apply IH]. rewrite fmap_cons. constructor; [|apply IH].
  intros ([rid rec] & Hr & Hin)%list_elem_of_fmap. cbn in Hr. subst rid. apply page_rows_elem in Hin as (i & _ & [=]). lia.
Qed.

Lemma aheap_rows_nodup (a : aheap) : forall pid, NoDup (aheap_rows pid a).*1.
Proof.
  induction a as [|p a IH]; intros pid; cbn [aheap_rows]; [constructor|]. rewrite fmap_app. apply list.NoDup_app.
  split; [apply page_rows_nodup|]. split; [|apply IH].
  intros rid ([r1 b1] & E1 & H1)%list_elem_of_fmap ([r2 b2] & E2 & H2)%list_elem_of_fmap. cbn in *. subst r1 r2.
  apply page_rows_elem in H1 as (i & _ & ->). apply aheap_rows_elem in H2 as (j & i' & q & _ & _ & [=]). lia.
Qed.

Lemma page_rows_app pid r1 r2 : forall slot, page_rows pid slot (r1 ++ r2) = page_rows pid slot r1 ++ page_rows pid (slot + blen r1) r2.
Proof.
  induction r1 as [|[b|] r1 IH]; intros slot; cbn [page_rows app].
  - change (blen []) with 0. by rewrite Z.add_0_r.
  - rewrite IH. cbn [app]. do 3 f_equal. unfold blen. cbn [length]. lia.
  - rewrite IH. f_equal. unfold blen. cbn [length]. f_equal. lia.
Qed.

Lemma aheap_rows_app (a b : aheap) : forall pid, aheap_rows pid (a ++ b) = aheap_rows pid a ++ aheap_rows (pid + blen a) b.
Proof.
  induction a as [|p a IH]; intros pid; cbn [aheap_rows app].
  - change (blen []) with 0. by rewrite Z.add_0_r.
  - rewrite IH, <- app_assoc. do 3 f_equal. unfold blen. cbn [length]. lia.
Qed.

(** Insertion appends to the scan order. *)
Lemma aheap_rows_insert first room (a : aheap) rec :
  aheap_rows first (aheap_insert first room a rec).1 = aheap_rows first a ++ new_row (aheap_insert first room a rec).2 rec.
Proof.
  assert (Hnew : aheap_rows first (aheap_new first room a rec).1 = aheap_rows first a ++ new_row (aheap_new first room a rec).2 rec).
  { unfold aheap_new. destruct room; cbn [fst snd new_row]; [|by rewrite app_nil_r].
    destruct (_ <? _); cbn [fst snd new_row]; rewrite aheap_rows_app; done. }
  unfold aheap_insert. destruct (list.last a) as [p|] eqn:El; [|done].
  destruct (ap_free p <? blen rec + 4) eqn:Ef; [done|]. apply last_Some in El as [a' ->]. cbn [fst snd new_row aop].
  rewrite length_app, Nat.add_sub, insert_app_r_alt, Nat.sub_diag by (cbn; lia). cbn [list_insert insert].
  rewrite !aheap_rows_app, <- app_assoc. cbn [aheap_rows]. rewrite !app_nil_r, Ef. cbn [fst ap_recs].
  rewrite page_rows_app. do 2 f_equal. cbn [page_rows].
  rewrite blen_app. change (blen [p]) with 1. do 3 f_equal; lia.
Qed.

Lemma set_row_ne rid rec rows : rid ∉ rows.*1 -> set_row rid rec rows = rows.
Proof.
  intros Hn. unfold set_row. rewrite <- (list_fmap_id rows) at 2. apply list_fmap_ext. intros i e He.
  rewrite decide_False; [done|]. intros <-. apply Hn, list_elem_of_fmap. exists e. split; [done|]. by eapply list_elem_of_lookup_2.
Qed.

Lemma set_row_app rid rec r1 r2 : set_row rid rec (r1 ++ r2) = set_row rid rec r1 ++ set_row rid rec r2.
Proof. apply fmap_app. Qed.

(** Overwriting changes one record in place. *)
Lemma page_rows_set pid slot recs (i : nat) old rec : recs !! i = Some (Some old) ->
  page_rows pid slot (<[i := Some rec]> recs) = set_row (mkRID pid (slot + Z.of_nat i)) rec (page_rows pid slot recs).
Proof.
  intros Hi. apply list_elem_of_split_length in Hi as (r1 & r2 & -> & ->).
  rewrite insert_app_r_alt, Nat.sub_diag by done. cbn [insert list_insert].
  rewrite !page_rows_app, set_row_app. f_equal; [|cbn [page_rows]].
  - symmetry. apply set_row_ne. intros ([r b] & Hr & Hin)%list_elem_of_fmap. cbn in Hr. subst r.
    apply page_rows_elem in Hin as (j & Hj & [=]). apply lookup_lt_Some in Hj. lia.
  - rewrite (set_row_app _ _ [_] _ : set_row _ _ (_ :: _) = _). unfold set_row at 1. cbn [fmap list_fmap fst]. rewrite decide_True by done.
    cbn [app]. f_equal. symmetry. apply set_row_ne. intros ([r b] & Hr & Hin)%list_elem_of_fmap. cbn in Hr. subst r.
    apply page_rows_elem in Hin as (j & Hj & [=]). unfold blen in *. lia.
Qed.

Lemma aheap_rows_set (a : aheap) : forall pid (j i : nat) p old rec, a !! j = Some p -> ap_recs p !! i = Some (Some old) ->
  aheap_rows pid (<[j := mkAPage (<[i := Some rec]> (ap_recs p)) (ap_free p)]> a) =
  set_row (mkRID (pid + Z.of_nat j) (Z.of_nat i)) rec (aheap_rows pid a).
Proof.
  intros pid j i p old rec Hj Hi. apply list_elem_of_split_length in Hj as (a1 & a2 & -> & ->).
  rewrite insert_app_r_alt, Nat.sub_diag by done. cbn [insert list_insert].
  rewrite !aheap_rows_app. cbn [aheap_rows ap_recs]. rewrite !set_row_app, (page_rows_set _ _ _ _ old) by done. f_equal; [|f_equal].
  - symmetry. apply set_row_ne. intros ([r b] & Hr & Hin)%list_elem_of_fmap. cbn in Hr. subst r.
    apply aheap_rows_elem in Hin as (k & ? & ? & Hk & _ & [=]). apply lookup_lt_Some in Hk. lia.
  - symmetry. apply set_row_ne. intros ([r b] & Hr & Hin)%list_elem_of_fmap. cbn in Hr. subst r.
    apply aheap_rows_elem in Hin as (k & ? & ? & _ & _ & [=]). unfold blen in *. lia.
Qed.

Lemma aheap_overwrite first (a : aheap) rid old rec : (rid, old) ∈ aheap_rows first a -> blen rec = blen old ->
  (aheap_update first a rid (OpOverwrite (rid_slot rid) rec)).2 = 0 /\
  aheap_rows first (aheap_update first a rid (OpOverwrite (rid_slot rid) rec)).1 = set_row rid rec (aheap_rows first a).
Proof.
  intros (j & i & p & Hj & Hi & ->)%aheap_rows_elem Hl. unfold aheap_update, aheap_page. cbn [rid_page rid_slot].
  destruct (Z.leb_spec first (first + Z.of_nat j)); [|lia].
  replace (Z.to_nat (first + Z.of_nat j - first)) with j by lia. rewrite Hj. cbn [aop]. rewrite Nat2Z.id, Hi. cbn [mjoin option_join].
  rewrite Hl, Z.eqb_refl. cbn [fst snd]. split; [done|]. by apply (aheap_rows_set a first j i p old rec).
Qed.

Lemma aheap_insert_grows first room (a : aheap) rec : blen (aheap_insert first room a rec).1 <= blen a + 1.
Proof.
  assert (Hn : blen (aheap_new first room a rec).1 <= blen a + 1).
  { unfold aheap_new. destruct room; [|cbn; lia]. destruct (_ <? _); cbn [fst]; rewrite blen_app; done. }
  unfold aheap_insert. destruct (list.last a); [|done]. destruct (_ <? _); [done|]. cbn [fst].
  unfold blen. rewrite length_insert. lia.
Qed.

Lemma aheap_update_length first (a : aheap) rid op : blen (aheap_update first a rid op).1 = blen a.
Proof.
  unfold aheap_update. destruct (aheap_page first a rid); [|done]. destruct (aop _ _). cbn [fst]. unfold blen. by rewrite length_insert.
Qed.

(** ** Heap files are record stores *)

Section HeapStore.
Context {S : Type} `{PageStoreLaws S} (Hrel : reliable S).

(** A table's heap starts at page 0. *)
Definition heap_state : Type := BufferPool * S.

#[export] Instance heap_store : RecordStore heap_state := {
  rs_insert h rec := '(bp, s, r) ← heap_insert (mkHeap 0) h.1 h.2 rec (blen rec); Some ((bp, s), r);
  rs_get h rid := '(bp, s, r) ← heap_get h.1 h.2 rid; Some ((bp, s), r);
  rs_overwrite h rid rec := '(bp, s, rc) ← heap_overwrite h.1 h.2 rid rec (blen rec); Some ((bp, s), rc);
  rs_scan C visit h ctx := '(bp, s, c, rc) ← heap_scan visit (mkHeap 0) h.1 h.2 ctx; Some ((bp, s), c, rc) }.

Definition heap_holds (n : nat) (h : heap_state) (rows : list (RID * bytes)) : Prop :=
  exists a, heap_rep 0 h.1 h.2 a /\ rows = aheap_rows 0 a /\ blen a + Z.of_nat n <= 2 ^ 47.

Lemma heap_rows_ok h a : heap_rep 0 h.1 h.2 a -> blen a <= 2 ^ 47 -> Forall row_ok (aheap_rows 0 a).
Proof.
  intros Hr Hn. apply list.Forall_forall. intros [rid rec] (j & i & p & Hj & Hi & ->)%aheap_rows_elem. unfold row_ok. cbn.
  destruct (hr_page _ _ _ _ Hr j p Hj) as (d & _ & Hp). pose proof (page_refines_ok _ _ Hp) as [_ Hb].
  destruct Hp as (fe & slots & R & Hrecs & _). rewrite Hrecs, list_lookup_fmap in Hi.
  apply lookup_lt_Some in Hj. destruct (slots !! i) as [sl|] eqn:Hsl; [|done]. cbn in Hi. injection Hi as Hi.
  pose proof (lookup_lt_Some _ _ _ Hsl). pose proof (pr_fe _ _ _ R) as Hfe. unfold blen, PAGE_SIZE in *. split; [lia|]. split; [lia|].
  unfold slot_rec in Hi. destruct (s_offset sl =? 0); [done|]. by eapply mem_read_Forall.
Qed.

#[export] Instance heap_store_laws : RecordStoreLaws heap_state.
Proof.
  refine {| rs_rep := heap_holds |}.
  - intros n h rows (a & Hr & -> & Hn). split; [apply aheap_rows_nodup|eapply heap_rows_ok; [done|lia]].
  - intros n m h rows (a & Hr & -> & Hn) Hm. exists a. split; [done|]. split; [done|lia].
  - intros n [bp s] rows rec (a & Hr & -> & Hn) Hrec.
    destruct (heap_insert_spec 0 bp s a rec Hrel Hr Hrec) as (bp' & s' & room & _ & Hi & Hr'). cbn [rs_insert heap_store fst snd].
    rewrite Hi. eexists _, _. split; [done|]. eexists. split; [exact Hr'|]. split; [symmetry; apply aheap_rows_insert|].
    pose proof (aheap_insert_grows 0 room a rec). lia.
  - intros n [bp s] rows rid (a & Hr & -> & Hn) [Hp Hs].
    destruct (heap_get_spec 0 bp s a rid Hrel Hr Hp ltac:(lia)) as (bp' & s' & Hg & Hr'). cbn [rs_get heap_store fst snd]. rewrite Hg.
    eexists _, _. split; [done|]. split; [by exists a|]. intros rec. apply aheap_get_elem. lia.
  - intros n [bp s] rows rid old rec (a & Hr & -> & Hn) Hin Hl Hb. pose proof (heap_rows_ok _ _ Hr ltac:(cbn; lia)) as Hok.
    rewrite list.Forall_forall in Hok. destruct (Hok _ Hin) as ((Hp & _) & Hs & _). cbn in Hp, Hs.
    destruct (heap_update_spec 0 bp s a rid (OpOverwrite (rid_slot rid) rec) (fun d => slotpage_overwrite d (rid_slot rid) rec (blen rec)) Hrel Hr Hp)
      as (bp' & s' & He & Hr'); [done|done|right; eauto|].
    destruct (aheap_overwrite 0 a rid old rec Hin Hl) as [Hrc Hrows]. cbn [rs_overwrite heap_store fst snd]. unfold heap_overwrite. rewrite He, Hrc.
    eexists. split; [done|]. eexists. split; [exact Hr'|]. split; [by rewrite Hrows|]. rewrite aheap_update_length. lia.
  - intros C visit n [bp s] rows ctx (a & Hr & -> & Hn).
    destruct (heap_scan_spec visit 0 bp s a ctx Hrel Hr) as (bp' & s' & Hs & Hr'). cbn [rs_scan heap_store fst snd]. rewrite Hs.
    eexists. split; [done|]. by exists a.
Defined.
End HeapStore.

(** ** Indexes with several entries per key *)

Class MultiIndex (I : Type) := {
  ix_insert : I -> Z -> Z -> option I;
  ix_find_all : forall {C}, I -> Z -> (Z -> Z -> C -> C) -> C -> option C }.

Class MultiIndexLaws (I : Type) `{MultiIndex I} := {
  ix_rep : nat -> I -> list (Z * Z) -> Prop;
  law_ix_mono : forall n m i L, ix_rep n i L -> (m <= n)%nat -> ix_rep m i L;
  law_ix_insert : forall n i L k v, ix_rep (S n) i L -> is_i64 k -> is_i64 v -> (k, v) ∉ L ->
    exists i' L', ix_insert i k v = Some i' /\ L' ≡ₚ (k, v) :: L /\ ix_rep n i' L';
  law_ix_find : forall n i L key, ix_rep n i L ->
    exists es, es ≡ₚ filter (fun e => e.1 = key) L /\
      forall C (f : Z -> Z -> C -> C) ctx, ix_find_all i key f ctx = Some (foldl (fun c e => f e.1 e.2 c) ctx es) }.

(** The B+tree; the callbacks of the executor never stop a lookup. *)
#[export] Instance btree_index : MultiIndex BTree := {
  ix_insert bt k v := fst <$> btree_insert_dup bt k v;
  ix_find_all C bt key f ctx := fst <$> btree_find_all bt key (fun k v c => (f k v c, 0)) ctx }.

Lemma visit_list_foldl {C} (f : Z -> Z -> C -> C) L : forall ctx,
  visit_list (fun k v c => (f k v c, 0)) L ctx = (foldl (fun c e => f e.1 e.2 c) ctx L, 0).
Proof. induction L as [|[k v] L IH]; intros ctx; cbn [visit_list foldl fst snd]; [done|]. apply IH. Qed.

#[export] Instance btree_index_laws : MultiIndexLaws BTree.
Proof.
  refine {| ix_rep n bt L := exists h, btree_rep false h bt L /\ num_pages bt + Z.of_nat n * (Z.of_nat h + Z.of_nat n + 2) <= room bt |}.
  - intros n m bt L (h & Hr & Hn) Hm. exists h. split; [done|]. nia.
  - intros n bt L k v (h & Hr & Hn) _ _ _.
    destruct (insert_root_ok false h bt L k v Hr) as (bt' & h' & L' & Hi & Hr' & Hin & Hh & Hp & Hroom); [nia|].
    cbn [ix_insert btree_index]. unfold btree_insert_dup. cbn [negb] in Hi. rewrite Hi. exists bt', L'. split; [done|]. split; [|exists h'; split; [done|rewrite Hroom; nia]].
    destruct Hin as (L1 & L2 & -> & _ & _ & [->|[? _]]); [|done]. symmetry. apply Permutation_middle.
  - intros n bt L key (h & Hr & _). exists (filter (fun e => e.1 = key) L). split; [done|]. intros C f ctx.
    cbn [ix_find_all btree_index]. rewrite (btree_find_all_ok _ _ _ _ Hr), visit_list_foldl. done.
Defined.

(** The LSM engine in its multi-value mode, with its directory.  Return codes are
    ignored, as in [pidx_insert]. *)
#[export] Instance lsm_index : MultiIndex (LSM * Dir) := {
  ix_insert i k v := let '(l, d, _) := lsm_put_dup i.1 i.2 k v in Some (l, d);
  ix_find_all C i key f ctx := Some (foldl (fun c e => f e.1 e.2 c) ctx (lsm_find_all i.1 key)) }.

Lemma sorted_glt_nodup (L : list (Z * Z)) : StronglySorted (fun a b => glt (gid true a.1 a.2) (gid true b.1 b.2)) L -> NoDup L.
Proof.
  induction 1 as [|e L Hs IH He]; constructor; [|done]. intros Hin. rewrite list.Forall_forall in He.
  specialize (He e Hin). unfold glt, gid in He. cbn in He. lia.
Qed.

#[export] Instance lsm_index_laws : MultiIndexLaws (LSM * Dir).
Proof.
  refine {| ix_rep n i L := exists m A lim, engine m A true lim i.1 i.2 /\ m + Z.of_nat n < 2 ^ 63 /\ NoDup L /\
              (forall k v, (k, v) ∈ L <-> A !! (k, v) = Some v) /\ Forall (fun e => is_i64 e.1) L |}.
  - intros n m i L (q & A & lim & He & Hq & Hnd & HA) Hm. exists q, A, lim. split; [done|]. split; [lia|done].
  - intros n [l d] L k v (q & A & lim & He & Hq & Hnd & HA & H64) Hk Hv Hnew. cbn [fst snd] in He.
    pose proof (exec_step q A true lim l d (LPutDup k v) He ltac:(lia) ltac:(done)) as Hx. cbn [lsm_exec] in Hx.
    cbn [ix_insert lsm_index fst snd]. destruct (lsm_put_dup l d k v) as [[l' d'] rc]. destruct Hx as [He' _].
    exists (l', d'), ((k, v) :: L). split; [done|]. split; [done|]. eexists _, _, lim. split; [exact He'|]. split; [lia|].
    split; [by constructor|]. split; [|by constructor]. intros k' v'. cbn [lspec]. rewrite elem_of_cons, HA.
    destruct (decide ((k', v') = (k, v))) as [[= -> ->]|Hne]; [rewrite lookup_insert_eq; naive_solver|].
    rewrite lookup_insert_ne by congruence. naive_solver.
  - intros n [l d] L key (q & A & lim & [Hok _ Hrep Hmu _] & _ & Hnd & HA & _). cbn [fst snd] in *.
    exists (lsm_find_all l key). split; [|done]. destruct (lsm_find_all_ok q l A key Hok Hrep) as [Hs Hin]. rewrite Hmu in *.
    apply NoDup_Permutation; [by apply sorted_glt_nodup|by apply list.NoDup_filter|].
    intros [k v]. rewrite Hin, list_elem_of_filter, HA. done.
Defined.

(** The primary-key index of a table: [index_kind] selects the engine. *)
Inductive Pidx := PBtree (bt : BTree) | PLsm (l : LSM) (d : Dir).

Definition pidx_put (t : Pidx) (key val : Z) : option Pidx :=
  match t with
  | PLsm l d => let '(l, d, _) := lsm_put_dup l d key val in Some (PLsm l d)
  | PBtree bt => '(bt, _) ← btree_insert_dup bt key val; Some (PBtree bt)
  end.

Definition pidx_insert (t : Pidx) (key : Z) (rid : RID) : option Pidx := pidx_put t key (rid_encode rid).

Definition pidx_find_all {C} (t : Pidx) (key : Z) (f : Z -> Z -> C -> C) (ctx : C) : option C :=
  match t with
  | PLsm l _ => Some (foldl (fun c e => f e.1 e.2 c) ctx (lsm_find_all l key))
  | PBtree bt => '(ctx, _) ← btree_find_all bt key (fun k v c => (f k v c, 0)) ctx; Some ctx
  end.

#[export] Instance pidx_index : MultiIndex Pidx := { ix_insert := pidx_put; ix_find_all := @pidx_find_all }.

#[export] Instance pidx_index_laws : MultiIndexLaws Pidx.
Proof.
  refine {| ix_rep n t L := match t with PBtree bt => ix_rep n bt L | PLsm l d => ix_rep n (l, d) L end |}.
  - intros n m [bt|l d] L; [apply (law_ix_mono (I := BTree))|apply (law_ix_mono (I := LSM * Dir))].
  - intros n [bt|l d] L k v Hr Hk Hv Hn; cbn [ix_insert pidx_index pidx_put].
    + destruct (law_ix_insert n bt L k v Hr Hk Hv Hn) as (bt' & L' & Hi & Hp & Hr'). cbn [ix_insert btree_index] in Hi.
      destruct (btree_insert_dup bt k v) as [[b rc]|]; [|done]. injection Hi as ->. by exists (PBtree bt'), L'.
    + destruct (law_ix_insert n (l, d) L k v Hr Hk Hv Hn) as ([l' d'] & L' & Hi & Hp & Hr'). cbn [ix_insert lsm_index fst snd] in Hi.
      destruct (lsm_put_dup l d k v) as [[l1 d1] rc]. injection Hi as -> ->. by exists (PLsm l' d'), L'.
  - intros n [bt|l d] L key Hr; cbn [ix_find_all pidx_index pidx_find_all].
    + destruct (law_ix_find n bt L key Hr) as (es & Hp & Hf). exists es. split; [done|]. intros C f ctx. specialize (Hf C f ctx).
      cbn [ix_find_all btree_index] in Hf. destruct (btree_find_all bt key _ ctx) as [[c rc]|]; [|done]. cbn [mbind option_bind]. by injection Hf as ->.
    + destruct (law_ix_find n (l, d) L key Hr) as (es & Hp & Hf). by exists es.
Defined.

(** ** Ranges of the primary key *)

(** The part of [range_visit] that depends on the key: entries outside the range are
    skipped, and a return code stops the scan where the index heeds it. *)
Definition range_key {C} (op : CmpOp) (bound : Z) (f : Z -> Z -> C -> C) (key val : Z) (ctx : C) : C * Z :=
  match op with
  | CMP_GT => if key =? bound then (ctx, 0) else (f key val ctx, 0)
  | CMP_LT => if bound <=? key then (ctx, 1) else (f key val ctx, 0)
  | CMP_LE => if bound <? key then (ctx, 1) else (f key val ctx, 0)
  | _ => (f key val ctx, 0)
  end.

Definition pidx_range {C} (t : Pidx) (op : CmpOp) (bound : Z) (visit : Z -> Z -> C -> C * Z) (ctx : C) : option C :=
  let lower := match op with CMP_GT | CMP_GE => true | _ => false end in
  match t with
  | PLsm l _ =>
      let lo := if lower then bound else - 2 ^ 63 in
      let hi := if lower then 2 ^ 63 - 1 else bound in
      Some (foldl (fun c e => (visit e.1 e.2 c).1) ctx (lsm_scan l lo hi))
  | PBtree bt => fst <$> (if lower then btree_seek_scan bt bound visit ctx else btree_scan bt visit ctx)
  end.

Definition is_range (op : CmpOp) : bool := match op with CMP_GT | CMP_GE | CMP_LT | CMP_LE => true | _ => false end.

Definition in_key_range (op : CmpOp) (bound : Z) (e : Z * Z) : Prop := cmp_apply op (int_sign e.1 bound) = true.

#[export] Instance in_key_range_dec op bound e : Decision (in_key_range op bound e).
Proof. unfold in_key_range. apply _. Defined.

(** A B+tree seeks past versions of the bound itself, so [>=] is exact on an LSM index only. *)
Definition range_exact (t : Pidx) (op : CmpOp) : bool :=
  match t, op with PBtree _, CMP_GE => false | _, _ => is_range op end.

Class RangeIndex (I : Type) `{MultiIndex I} := {
  ix_range : forall {C}, I -> CmpOp -> Z -> (Z -> Z -> C -> C * Z) -> C -> option C;
  ix_exact : I -> CmpOp -> bool }.

Class RangeIndexLaws (I : Type) `{RangeIndex I} `{!MultiIndexLaws I} := {
  law_ix_range : forall n i L op bound, ix_rep n i L -> ix_exact i op = true ->
    exists es, es ≡ₚ filter (in_key_range op bound) L /\
      forall C (f : Z -> Z -> C -> C) ctx, ix_range i op bound (range_key op bound f) ctx = Some (foldl (fun c e => f e.1 e.2 c) ctx es);
  law_ix_exact : forall i op, is_range op = true -> op <> CMP_GE -> ix_exact i op = true }.

#[export] Instance pidx_range_index : RangeIndex Pidx := { ix_range := @pidx_range; ix_exact := range_exact }.

Lemma int_sign_spec x y : (x < y /\ int_sign x y = -1) \/ (x = y /\ int_sign x y = 0) \/ (y < x /\ int_sign x y = 1).
Proof. unfold int_sign. destruct (Z.ltb_spec x y), (Z.ltb_spec y x); lia. Qed.

Ltac range_cases x y := unfold in_key_range, cmp_apply; cbn [fst]; destruct (int_sign_spec x y) as [[? ->]|[[? ->]|[? ->]]]; cbn.

(** A sorted list visited up to the first key above the bound. *)
Lemma visit_below {C} op bound (f : Z -> Z -> C -> C) L : op = CMP_LT \/ op = CMP_LE -> StronglySorted (fun a b => a.1 <= b.1) L -> forall ctx,
  (visit_list (range_key op bound f) L ctx).1 = foldl (fun c e => f e.1 e.2 c) ctx (filter (in_key_range op bound) L).
Proof.
  intros Hop. induction 1 as [|[k v] L Hs IH Hx]; intros ctx; [done|]. cbn [visit_list].
  destruct (decide (in_key_range op bound (k, v))) as [Hin|Hout].
  - rewrite filter_cons_True by done. cbn [foldl fst snd]. rewrite <- IH. unfold in_key_range in Hin.
    destruct Hop as [-> | ->]; cbn [range_key]; revert Hin; cbn [fst]; range_cases k bound; try done; intros _.
    + destruct (Z.leb_spec bound k); [lia|]. done.
    + destruct (Z.ltb_spec bound k); [lia|]. done.
    + destruct (Z.ltb_spec bound k); [lia|]. done.
  - rewrite filter_cons_False by done.
    assert (Hnil : filter (in_key_range op bound) L = []).
    { clear IH Hs. revert Hout. induction Hx as [|[k' v'] L He _ IH]; intros Hout; [done|]. cbn [fst] in He. rewrite filter_cons_False; [by apply IH|].
      revert Hout. destruct Hop as [-> | ->]; unfold in_key_range; cbn [fst]; range_cases k bound; range_cases k' bound; intros; (done || lia). }
    rewrite Hnil. cbn [foldl]. destruct Hop as [-> | ->]; cbn [range_key]; revert Hout; cbn [fst]; range_cases k bound; try done; intros _.
    + destruct (Z.leb_spec bound k); [done|lia].
    + destruct (Z.leb_spec bound k); [done|lia].
    + destruct (Z.ltb_spec bound k); [done|lia].
Qed.

(** Entries that the callback skips or visits without stopping. *)
Lemma visit_above {C} op bound (f : Z -> Z -> C -> C) L : op = CMP_GT \/ op = CMP_GE -> Forall (fun e => bound <= e.1) L -> forall ctx,
  (visit_list (range_key op bound f) L ctx).1 = foldl (fun c e => f e.1 e.2 c) ctx (filter (in_key_range op bound) L).
Proof.
  intros Hop. induction 1 as [|[k v] L Hk _ IH]; intros ctx; [done|]. cbn [visit_list]. cbn [fst] in Hk.
  destruct Hop as [-> | ->]; cbn [range_key].
  - destruct (Z.eqb_spec k bound); [rewrite filter_cons_False|rewrite filter_cons_True]; try (cbn [Z.eqb foldl fst snd]; apply IH); cbn [fst]; range_cases k bound; lia || done.
  - rewrite filter_cons_True; [cbn [Z.eqb foldl fst snd]; apply IH|]. unfold in_key_range. cbn [fst]. range_cases k bound; lia || done.
Qed.

Lemma foldl_omit {C} op bound (f : Z -> Z -> C -> C) es : Forall (in_key_range op bound) es -> forall ctx,
  foldl (fun c e => (range_key op bound f e.1 e.2 c).1) ctx es = foldl (fun c e => f e.1 e.2 c) ctx es.
Proof.
  induction 1 as [|[k v] es Hk _ IH]; intros ctx; [done|]. cbn [foldl fst snd]. rewrite <- IH. f_equal.
  destruct op; cbn [range_key]; try done; revert Hk; range_cases k bound; try done; intros _.
  - destruct (Z.leb_spec bound k); [lia|done].
  - destruct (Z.eqb_spec k bound); [lia|done].
  - destruct (Z.ltb_spec bound k); [lia|done].
  - destruct (Z.ltb_spec bound k); [lia|done].
Qed.

(** Skipped entries leave the context alone, so only those in the range count. *)
Lemma foldl_range {C} op bound (f : Z -> Z -> C -> C) es : is_range op = true ->
  (match op with CMP_GT | CMP_GE => Forall (fun e => bound <= e.1) es | _ => True end) -> forall ctx,
  foldl (fun c e => (range_key op bound f e.1 e.2 c).1) ctx es = foldl (fun c e => f e.1 e.2 c) ctx (filter (in_key_range op bound) es).
Proof.
  intros Hop Hlow. induction es as [|[k v] es IH]; intros ctx; [done|].
  assert (Hlow' : match op with CMP_GT | CMP_GE => Forall (fun e : Z * Z => bound <= e.1) es | _ => True end) by (destruct op; try done; by inversion_clear Hlow).
  specialize (IH Hlow'). cbn [foldl fst snd]. destruct (decide (in_key_range op bound (k, v))) as [Hin|Hout].
  - rewrite filter_cons_True by done. cbn [foldl fst snd]. rewrite IH. f_equal.
    apply (foldl_omit op bound f [(k, v)]). by constructor.
  - rewrite filter_cons_False by done. rewrite IH. f_equal.
    destruct op; try done; cbn [range_key]; revert Hout; try (apply list.Forall_cons in Hlow as [Hk _]; cbn [fst] in Hk);
      range_cases k bound; intros Hout; try done; try lia;
      match goal with |- context [if ?b then _ else _] => destruct b eqn:?; [done|lia] end.
Qed.

#[export] Instance pidx_range_laws : RangeIndexLaws Pidx.
Proof.
  constructor; [|intros [bt|l d] [] Hop Hne; done].
  intros n [bt|l d] L op bound Hr Hex; cbn [ix_range pidx_range_index ix_exact range_exact] in *; cbn [ix_rep pidx_index_laws] in Hr.
  - destruct Hr as (h & Hr & _). pose proof (btree_rep_sorted _ _ _ _ Hr) as Hs%kle_sorted_le.
    assert (Hbelow : op = CMP_LT \/ op = CMP_LE -> exists es, es ≡ₚ filter (in_key_range op bound) L /\
      forall C (f : Z -> Z -> C -> C) ctx, pidx_range (PBtree bt) op bound (range_key op bound f) ctx = Some (foldl (fun c e => f e.1 e.2 c) ctx es)).
    { intros Hop. exists (filter (in_key_range op bound) L). split; [done|]. intros C f ctx. cbn [pidx_range].
      replace (match op with CMP_GT | CMP_GE => true | _ => false end) with false by (by destruct Hop as [-> | ->]).
      rewrite (btree_scan_ok _ _ _ _ Hr). cbn [fmap option_fmap option_map]. f_equal. by apply visit_below. }
    destruct op; try done; [apply Hbelow; auto| |apply Hbelow; auto].
    destruct (btree_seek_scan_dup _ _ _ _ Hr bound) as (L1 & L2 & -> & H1 & Hscan).
    exists (filter (in_key_range CMP_GT bound) L2). split.
    + rewrite filter_prefix; [done|]. intros [k v] He. specialize (H1 _ He). cbn [fst] in H1. range_cases k bound; lia || done.
    + intros C f ctx. cbn [pidx_range]. rewrite Hscan. cbn [fmap option_fmap option_map]. f_equal.
      rewrite (visit_above CMP_GT); [|by left|apply list.Forall_forall; intros e [He _]%list_elem_of_filter; done].
      f_equal. rewrite list_filter_filter. apply list_filter_iff. intros [k v]. cbn [fst]. range_cases k bound; split; try done; intros; (done || lia || split; (done || lia)).
  - destruct Hr as (q & A & lim & [Hok _ Hrep Hmu _] & _ & Hnd & HA & H64). cbn [fst snd] in *. cbn [pidx_range].
    set (lower := match op with CMP_GT | CMP_GE => true | _ => false end). set (lo := if lower then bound else - 2 ^ 63).
    set (hi := if lower then 2 ^ 63 - 1 else bound). destruct (lsm_scan_ok q l A lo hi Hok Hrep) as [Hs Hin]. rewrite Hmu in Hs, Hin.
    exists (filter (in_key_range op bound) (lsm_scan l lo hi)). split.
    + apply NoDup_Permutation; [by apply list.NoDup_filter, sorted_glt_nodup|by apply list.NoDup_filter|]. intros [k v].
      rewrite !list_elem_of_filter, Hin, HA. split; [naive_solver|]. intros [Hk Hv]. split; [done|]. split; [|done].
      apply HA in Hv. rewrite list.Forall_forall in H64. specialize (H64 _ Hv). unfold is_i64 in H64. cbn [fst] in H64.
      unfold lo, hi, lower. destruct op; try done; revert Hk; range_cases k bound; intros; (done || lia).
    + intros C f ctx. f_equal. apply foldl_range; [done|]. destruct op; try done; apply list.Forall_forall; intros [k v] He; apply Hin in He as [He _]; unfold lo, lower in He; cbn in *; lia.
Qed.
