(* ===== verification/Nested.v ===== *)
(** * Scans whose callback reads tables itself (src/src/heap.c: heap_scan)

    A join scans one table inside the scan of another, or of the same one: the page of
    each outer scan stays pinned meanwhile.  Here [heap_scan] is written again with a
    callback that gets the pool and the store, and the invariants of an idle pool are
    extended to pools with pinned pages.  The class [NestedStore] is what the join needs. *)
From S2P Require Import Prelude Page Pager BufPool Heap Storage.

(** ** heap_scan with a callback that uses the pool *)

Section Ops.
Context {S : Type} `{PageStore S} {C : Type} (visit : RID -> bytes -> BufferPool * S -> C -> option (BufferPool * S * C * Z)).

(** [i] is the frame of the page, which is read anew for every slot. *)
Fixpoint nested_slots (i : nat) (pid : Z) (n : nat) (k : Z) (bp : BufferPool) (s : S) (ctx : C) : option (BufferPool * S * C * Z) :=
  match n with
  | O => Some (bp, s, ctx, 0)
  | Datatypes.S n' =>
      page ← frame_data bp i;
      g ← slotpage_get page k;
      match g with
      | Some (off, len) =>
          rec ← mem_read page off len;
          '(bp, s, ctx, r) ← visit (mkRID pid k) rec (bp, s) ctx;
          if r =? 0 then nested_slots i pid n' (k + 1) bp s ctx else Some (bp, s, ctx, r)
      | None => nested_slots i pid n' (k + 1) bp s ctx
      end
  end.

Fixpoint nested_pages (n : nat) (pid : Z) (bp : BufferPool) (s : S) (ctx : C) : option (BufferPool * S * C * Z) :=
  match n with
  | O => Some (bp, s, ctx, 0)
  | Datatypes.S n' =>
      let '(bp, s, r) := bufpool_fetch bp s pid in
      match r with
      | None => Some (bp, s, ctx, -1)
      | Some i =>
          page ← frame_data bp i;
          n_slots ← slotpage_num_slots page;
          '(bp, s, ctx, rc) ← nested_slots i pid (Z.to_nat n_slots) 0 bp s ctx;
          let bp := bufpool_unpin bp pid false in
          if rc =? 0 then nested_pages n' (pid + 1) bp s ctx else Some (bp, s, ctx, rc)
      end
  end.

Definition nested_scan (h : Heap) (bp : BufferPool) (s : S) (ctx : C) : option (BufferPool * S * C * Z) :=
  nested_pages (Z.to_nat (st_pages s - first_page h)) (first_page h) bp s ctx.
End Ops.

(** A callback that leaves the pool alone: this is [heap_scan]. *)
Section Plain.
Context {S : Type} `{PageStore S} {C : Type} (visit : RID -> bytes -> C -> C * Z).
Definition lift_visit (rid : RID) (rec : bytes) (st : BufferPool * S) (c : C) : option (BufferPool * S * C * Z) :=
  let '(c, r) := visit rid rec c in Some (st.1, st.2, c, r).

Lemma nested_slots_plain i pid page n : forall k bp s c, frame_data bp i = Some page ->
  nested_slots lift_visit i pid n k bp s c = ('(c, r) ← scan_slots visit page pid n k c; Some (bp, s, c, r)).
Proof.
  induction n as [|n IH]; intros k bp s c Hp; [done|]. cbn [nested_slots scan_slots]. rewrite Hp. cbn [mbind option_bind].
  destruct (slotpage_get page k) as [[[off len]|]|]; cbn [mbind option_bind]; [|by apply IH|done].
  destruct (mem_read page off len) as [rec|]; [|done]. cbn [mbind option_bind].
  destruct (visit (mkRID pid k) rec c) as [c' r] eqn:Ev.
  assert (Hl : lift_visit (mkRID pid k) rec (bp, s) c = Some (bp, s, c', r)) by (unfold lift_visit; by rewrite Ev).
  rewrite Hl. cbn [mbind option_bind]. destruct (r =? 0); [by apply IH|done].
Qed.

Lemma nested_pages_plain n : forall pid bp s c, nested_pages lift_visit n pid bp s c = scan_pages visit bp s n pid c.
Proof.
  induction n as [|n IH]; intros pid bp s c; [done|]. cbn [nested_pages scan_pages].
  destruct (bufpool_fetch bp s pid) as [[bp1 s1] [i|]]; [|done].
  destruct (frame_data bp1 i) as [page|] eqn:Hp; [|done]. cbn [mbind option_bind].
  destruct (slotpage_num_slots page) as [k|]; [|done]. cbn [mbind option_bind]. rewrite (nested_slots_plain _ _ _ _ _ _ _ _ Hp).
  destruct (scan_slots visit page pid (Z.to_nat k) 0 c) as [[c' r]|]; [|done]. cbn [mbind option_bind]. by rewrite IH.
Qed.

Lemma nested_scan_plain h bp s c : nested_scan lift_visit h bp s c = heap_scan visit h bp s c.
Proof. apply nested_pages_plain. Qed.
End Plain.

(** ** Pools with pinned pages *)

(** How often a page is pinned; a pin is a page and its frame. *)
Abbreviation Pins := (list (Z * nat)).
Definition pin_total (pins : Pins) (p : Z) : Z := Z.of_nat (length (filter (fun q => q.1 = p) pins)).

Lemma pin_total_cons p k pins q : pin_total ((p, k) :: pins) q = (if decide (p = q) then 1 else 0) + pin_total pins q.
Proof. unfold pin_total. destruct (decide (p = q)); [rewrite filter_cons_True by done; cbn [length]; lia|by rewrite filter_cons_False]. Qed.

Lemma pin_total_zero pins p : (forall k, (p, k) ∉ pins) -> pin_total pins p = 0.
Proof.
  intros Hn. unfold pin_total. destruct (filter _ pins) as [|[q k] l] eqn:E; [done|].
  assert (Hin : (q, k) ∈ filter (fun q => q.1 = p) pins) by (rewrite E; left). apply list_elem_of_filter in Hin as [<- Hin]. by destruct (Hn k).
Qed.

Lemma pin_total_pos pins p : 0 < pin_total pins p -> p ∈ pins.*1.
Proof.
  unfold pin_total. destruct (filter _ pins) as [|[q k] l] eqn:E; [cbn; lia|intros _].
  assert (Hin : (q, k) ∈ filter (fun q => q.1 = p) pins) by (rewrite E; left). apply list_elem_of_filter in Hin as [<- Hin].
  by apply (list_elem_of_fmap_2 fst).
Qed.

Lemma pin_total_in pins p k : (p, k) ∈ pins -> 0 < pin_total pins p.
Proof.
  intros Hin. unfold pin_total. destruct (filter _ pins) eqn:E; [|cbn; lia].
  assert (Hf : (p, k) ∈ filter (fun q => q.1 = p) pins) by (by apply list_elem_of_filter). rewrite E in Hf. by apply elem_of_nil in Hf.
Qed.

Definition pins_are (pins : Pins) (fs : list Frame) : Prop :=
  (forall j g, fs !! j = Some g -> pin_count g = if valid g then pin_total pins (page_id g) else 0) /\
  (forall p k, (p, k) ∈ pins -> exists g, fs !! k = Some g /\ valid g = true /\ page_id g = p).

(** The frame [i] is replaced. *)
Lemma pins_replace pins pins' (fs : list Frame) i f' : pins_are pins fs -> (i < length fs)%nat ->
  pin_count f' = (if valid f' then pin_total pins' (page_id f') else 0) ->
  (forall j g, j <> i -> fs !! j = Some g -> valid g = true -> pin_total pins' (page_id g) = pin_total pins (page_id g)) ->
  (forall p k, (p, k) ∈ pins' -> if decide (k = i) then valid f' = true /\ page_id f' = p else (p, k) ∈ pins) ->
  pins_are pins' (<[i := f']> fs).
Proof.
  intros [Hc Hr] Hi Hf Hsame Hin. split.
  - intros j g Hj. destruct (decide (j = i)) as [->|Hne].
    + rewrite list_lookup_insert_eq in Hj by done. by simplify_eq.
    + rewrite list_lookup_insert_ne in Hj by done. rewrite (Hc _ _ Hj). destruct (valid g) eqn:Hv; [|done]. symmetry. by eapply Hsame.
  - intros p k Hp. specialize (Hin _ _ Hp). destruct (decide (k = i)) as [->|Hne].
    + exists f'. rewrite list_lookup_insert_eq by done. naive_solver.
    + destruct (Hr _ _ Hin) as (g & Hg & ? & ?). exists g. by rewrite list_lookup_insert_ne.
Qed.

Section Pinned.
Context {S : Type} `{PageStoreLaws S}.
Implicit Types (bp : BufferPool) (s : S) (pins : Pins).

Record pinned pins bp s : Prop := {
  pd_inv : pool_inv nobody (frames bp) s;
  pd_quiet : quiet (frames bp);
  pd_pins : pins_are pins (frames bp) }.

Lemma idle_pinned bp s : idle bp s <-> pinned [] bp s /\ frames bp <> [].
Proof.
  split.
  - intros [Hi Hq Hz Hne]. split; [|done]. split; [done|done|]. split; [|by intros p k ?%elem_of_nil].
    intros j g Hj. rewrite (Hz j g Hj) by done. by destruct (valid g).
  - intros [[Hi Hq [Hc _]] Hne]. split; [done|done| |done]. intros j g Hj _. rewrite (Hc _ _ Hj). by destruct (valid g).
Qed.

(** A freed frame was not pinned. *)
Lemma pick_frame_pins_are pins bp s bp' s' r :
  pins_are pins (frames bp) -> pick_frame bp s = (bp', s', r) -> pins_are pins (frames bp').
Proof.
  intros Hp. unfold pick_frame. pose proof (find_victim_spec bp) as Hv. destruct (first_index _ (frames bp)) eqn:Ef; [by intros [= <- <- <-]|].
  destruct (find_victim bp) as [[i v]|]; [|by intros [= <- <- <-]]. destruct Hv as (Hv & [Hz _] & _).
  pose proof (first_index_None _ _ Ef _ _ Hv) as Hval%negb_false_iff.
  assert (Hev : forall b, pins_are pins (<[i := set_valid (set_dirty v b) false]> (frames bp))).
  { intros b. apply (pins_replace pins); [done|by eapply lookup_lt_Some|done|done|]. intros p k Hin. case_decide as Hk; [|done]. subst k.
    destruct (proj2 Hp _ _ Hin) as (g & Hg & _ & <-). simplify_eq. apply pin_total_in in Hin. rewrite (proj1 Hp _ _ Hv), Hval in Hz. lia. }
  destruct (dirty v) eqn:Ed.
  - destruct (if no_steal bp && steal bp then _ else _) as [s1 ok]. destruct ok; intros [= <- <- <-]; [apply Hev|done].
  - intros [= <- <- <-]. specialize (Hev false). assert (set_dirty v false = v) as Hsd by (destruct v; cbn in *; by subst). by rewrite Hsd in Hev.
Qed.

(** Page [p] is given the free frame [i]. *)
Lemma pins_assign pins (fs : list Frame) i g f p : pins_are pins fs -> fs !! i = Some g -> valid g = false ->
  (forall j h, fs !! j = Some h -> valid h = true -> page_id h <> p) -> valid f = true -> page_id f = p -> pin_count f = 1 ->
  pins_are ((p, i) :: pins) (<[i := f]> fs).
Proof.
  intros Hp Hg Hv Hfree Hvf Hpf Hpin. assert (Hnp : forall k, (p, k) ∉ pins).
  { intros k Hin. destruct (proj2 Hp _ _ Hin) as (h & Hh & Hvh & Hph). by apply (Hfree _ _ Hh Hvh). }
  apply (pins_replace pins); [done|by eapply lookup_lt_Some| | |].
  - rewrite Hvf, Hpf, Hpin, pin_total_cons, decide_True, pin_total_zero by done. done.
  - intros j h _ Hj Hvh. rewrite pin_total_cons, decide_False; [done|]. intros E. by apply (Hfree j h Hj Hvh).
  - intros q k [[= -> ->]|Hin]%elem_of_cons; [by rewrite decide_True|]. case_decide as Hk; [|done]. subst k.
    destruct (proj2 Hp _ _ Hin) as (h & Hh & Hvh & _). congruence.
Qed.

(** A free frame stays free. *)
Lemma pins_unassign pins (fs : list Frame) i g f : pins_are pins fs -> fs !! i = Some g -> valid g = false ->
  valid f = false -> pin_count f = 0 -> pins_are pins (<[i := f]> fs).
Proof.
  intros Hp Hg Hv Hvf Hpin. apply (pins_replace pins); [done|by eapply lookup_lt_Some|by rewrite Hvf|done|].
  intros q k Hin. case_decide as Hk; [|done]. subst k. destruct (proj2 Hp _ _ Hin) as (h & Hh & Hvh & _). congruence.
Qed.

Lemma fetch_pins_are pins bp s p bp' s' r :
  pool_inv nobody (frames bp) s -> pins_are pins (frames bp) -> fetch_locked bp s p = (bp', s', r) ->
  pins_are (match r with Some i => (p, i) :: pins | None => pins end) (frames bp').
Proof.
  intros Hi Hp. unfold fetch_locked, fetch_begin. destruct (find_frame bp p ≫= _) as [[i f]|] eqn:Ef.
  - apply find_frame_Some in Ef as (Hf & Hv & Hpf). destruct (io_pending f); intros [= <- <- <-]; [done|]. cbn [frames set_frame with_frames].
    apply (pins_replace pins); [done|by eapply lookup_lt_Some| | |].
    + cbn. rewrite Hv, Hpf, pin_total_cons, decide_True by done. rewrite (proj1 Hp _ _ Hf), Hv, Hpf. lia.
    + intros j g Hne Hj Hvg. rewrite pin_total_cons, decide_False; [done|]. intros E. apply Hne. eapply (pi_dist _ _ _ Hi); eauto. congruence.
    + intros q k [[= -> ->]|Hin]%elem_of_cons; [by rewrite decide_True|]. case_decide as Hk; [|done]. subst k.
      destruct (proj2 Hp _ _ Hin) as (h & Hh & Hvh & Hph). simplify_eq. done.
  - destruct (pick_frame _ _) as [[b2 s2] r2] eqn:Ep. pose proof (pick_frame_spec nobody (count_miss bp) s _ _ _ Hi Ep) as (_ & _ & (_ & _ & Hpg) & _ & Hfree).
    apply (pick_frame_pins_are pins) in Ep; [|done]. destruct (r2 ≫= _) as [[i f]|] eqn:Er; [|by intros [= <- <- <-]].
    apply bind_Some in Er as (k & -> & (g & Hg & [= <- <-])%fmap_Some). destruct (Hfree _ eq_refl) as (g' & Hg' & Hvg). simplify_eq.
    pose proof (lookup_lt_Some _ _ _ Hg) as Hlt. pose proof (proj1 Ep _ _ Hg) as Hz. rewrite Hvg in Hz.
    assert (Hno : forall j h, frames b2 !! j = Some h -> valid h = true -> page_id h <> p).
    { intros j h Hh Hvh. by apply (find_frame_None _ _ Ef j h); [apply Hpg|]. }
    destruct (io_in_latch b2); [destruct (st_read s2 p)|]; cbn.
    + intros [= <- <- <-]. by eapply pins_assign.
    + intros [= <- <- <-]. by eapply pins_unassign.
    + unfold fetch_read, fetch_end. cbn. rewrite list_lookup_insert_eq by done.
      destruct (st_read s2 p) as [d|]; cbn; rewrite list_lookup_insert_eq by (by rewrite ?length_insert); cbn; intros [= <- <- <-]; cbn; rewrite ?list_insert_insert_eq.
      * by eapply pins_assign.
      * by eapply pins_unassign.
Qed.

(** A fetch keeps every page; on success the page is pinned once more. *)
Lemma fetch_pinned pins bp s p bp' s' r :
  pinned pins bp s -> fetch_locked bp s p = (bp', s', r) ->
  (forall q, view bp' s' q = view bp s q) /\ length (frames bp') = length (frames bp) /\
  match r with
  | None => pinned pins bp' s'
  | Some i => pinned ((p, i) :: pins) bp' s' /\ is_Some (view bp s p)
  end.
Proof.
  intros [Hi Hq Hp] Ef. pose proof (fetch_locked_spec _ _ _ _ _ _ _ Hi Hq Ef) as (Hi' & Hq' & Hlen & Hv & Hr).
  pose proof (fetch_pins_are _ _ _ _ _ _ _ Hi Hp Ef) as Hp'. split; [done|]. split; [done|]. destruct r as [i|]; [|done].
  split; [done|]. destruct (Hr i eq_refl) as (f & _ & _ & _ & Hd). unfold view. rewrite Hd. by eexists.
Qed.

(** The frame of a pinned page holds it. *)
Lemma pinned_data pins bp s p i d : pinned pins bp s -> (p, i) ∈ pins -> view bp s p = Some d -> frame_data bp i = Some d.
Proof.
  intros [Hi Hq [_ Hr]] Hin Hd. destruct (Hr _ _ Hin) as (g & Hg & Hv & Hpg). unfold frame_data. rewrite Hg. cbn. f_equal.
  assert (Hl : live g p) by (split; [done|]; split; [by eapply Hq|done]). unfold view in Hd. rewrite (view_live _ _ _ _ _ _ Hi Hg Hl) in Hd. congruence.
Qed.

Lemma unpin_pinned pins bp s p i : pinned ((p, i) :: pins) bp s ->
  pinned pins (bufpool_unpin bp p false) s /\ (forall q, view (bufpool_unpin bp p false) s q = view bp s q) /\
  length (frames (bufpool_unpin bp p false)) = length (frames bp).
Proof.
  intros [Hi Hq Hp]. destruct (proj2 Hp p i) as (f & Hf & Hv & Hpf); [left|].
  pose proof (proj1 Hp _ _ Hf) as Hpin. rewrite Hv, Hpf, pin_total_cons, decide_True in Hpin by done.
  assert (Hnn : 0 <= pin_total pins p) by (unfold pin_total; lia).
  assert (Hl : live f p) by (split; [done|]; split; [by eapply Hq|done]).
  destruct (bufpool_unpin_spec nobody nobody bp s i f p false) as (f' & Hfs & Hl' & Hp' & _ & Hi' & Hv'); try done; [lia|].
  split; [|split; [done|by rewrite Hfs, length_insert]]. split; [done|rewrite Hfs; apply quiet_insert; [done|apply Hl']|].
  rewrite Hfs. destruct Hl' as (Hvf & _ & Hpf'). apply (pins_replace ((p, i) :: pins)); [done|by eapply lookup_lt_Some| | |].
  - rewrite Hvf, Hpf', Hp'. lia.
  - intros j g Hne Hj Hvg. rewrite pin_total_cons, decide_False; [done|]. intros E. apply Hne. eapply (pi_dist _ _ _ Hi); eauto. congruence.
  - intros q k Hin. case_decide as Hk; [|by right]. subst k. destruct (proj2 Hp q i) as (h & Hh & _ & Hph); [by right|]. simplify_eq. done.
Qed.

(** With more frames than pins one frame can be given away. *)
Lemma unpinned_frame pins (fs : list Frame) s : pool_inv nobody fs s -> pins_are pins fs -> (length pins < length fs)%nat ->
  exists j g, fs !! j = Some g /\ (valid g = false \/ pin_count g = 0).
Proof.
  intros Hi [Hc _] Hlen. destruct (decide (Exists (fun g => valid g = false \/ pin_count g = 0) fs)) as [He|Hn].
  { apply list.Exists_exists in He as (g & (j & Hj)%list_elem_of_lookup & Hg). eauto. }
  exfalso. assert (Hall : forall j g, fs !! j = Some g -> valid g = true /\ page_id g ∈ pins.*1).
  { intros j g Hj. destruct (valid g) eqn:Hv.
    - split; [done|]. apply pin_total_pos. pose proof (Hc _ _ Hj) as E. rewrite Hv in E. rewrite <- E.
      destruct (pi_frame _ _ _ Hi _ _ Hj) as (_ & Hnn & _). destruct (decide (pin_count g = 0)); [|lia].
      destruct Hn. apply list.Exists_exists. exists g. split; [by eapply list_elem_of_lookup_2|by right].
    - destruct Hn. apply list.Exists_exists. exists g. split; [by eapply list_elem_of_lookup_2|by left]. }
  assert (Hnd : NoDup (page_id <$> fs)).
  { apply NoDup_alt. intros i j p Hx Hy. rewrite list_lookup_fmap in Hx, Hy.
    apply fmap_Some in Hx as (f & Hf & Hpf). apply fmap_Some in Hy as (g & Hg & Hpg).
    eapply (pi_dist _ _ _ Hi); [exact Hf|exact Hg|by apply (Hall _ _ Hf)|by apply (Hall _ _ Hg)|congruence]. }
  assert (Hle : (length (page_id <$> fs) <= length (pins.*1))%nat).
  { apply submseteq_length, NoDup_submseteq; [done|]. intros p (g & -> & (j & Hj)%list_elem_of_lookup)%list_elem_of_fmap. by eapply Hall. }
  rewrite !length_fmap in Hle. lia.
Qed.

Lemma pick_frame_pinned pins bp s : reliable S -> pinned pins bp s -> (length pins < length (frames bp))%nat -> stealable bp = true ->
  exists bp' s' i, pick_frame bp s = (bp', s', Some i).
Proof.
  intros Hrel [Hi Hq Hp] Hlen Hst. destruct (unpinned_frame _ _ _ Hi Hp Hlen) as (j & g & Hj & Hg). unfold pick_frame.
  destruct (first_index _ (frames bp)) as [i|] eqn:Ef; [eauto|].
  pose proof (first_index_None _ _ Ef _ _ Hj) as Hvg%negb_false_iff. destruct Hg as [?|Hg]; [congruence|].
  pose proof (find_victim_spec bp) as Hv. unfold stealable in Hst. rewrite Hst in Hv. destruct (find_victim bp) as [[i v]|].
  - destruct Hv as (Hv & _). pose proof (first_index_None _ _ Ef _ _ Hv) as Hval%negb_false_iff.
    pose proof (pi_frame _ _ _ Hi _ _ Hv) as (A & B & C & D & E). destruct (E Hval (Hq _ _ Hv)) as [Hs _].
    destruct (Hrel s (page_id v) (data v) (pi_wf _ _ _ Hi) Hs A) as [Hw Hst'].
    destruct (dirty v); [|eauto]. destruct (no_steal bp && steal bp).
    + destruct (st_steal s (page_id v) (data v)) as [s1 ok]. cbn in Hst'. subst ok. eauto.
    + destruct (st_write s (page_id v) (data v)) as [s1 ok]. cbn in Hw. subst ok. eauto.
  - destruct (Hv j g Hj). by split.
Qed.

Lemma fetch_pinned_total pins bp s p d : reliable S -> pinned pins bp s -> (length pins < length (frames bp))%nat -> stealable bp = true ->
  view bp s p = Some d -> exists bp' s' i, fetch_locked bp s p = (bp', s', Some i).
Proof.
  intros Hrel Hid Hlen Hst Hd. unfold fetch_locked, fetch_begin. destruct (find_frame bp p ≫= _) as [[i f]|] eqn:Ef.
  - apply find_frame_Some in Ef as (Hf & _). rewrite (pd_quiet _ _ _ Hid _ _ Hf). eauto.
  - destruct (pick_frame_pinned pins (count_miss bp) s Hrel) as (b1 & s1 & i & Ep); [by destruct Hid; split|done|done|].
    rewrite Ep. pose proof (pick_frame_spec nobody (count_miss bp) s _ _ _ (pd_inv _ _ _ Hid) Ep) as (Hi1 & Hv1 & (_ & _ & Hpg) & _ & Hi).
    destruct (Hi i eq_refl) as (f & Hf & _). cbn. rewrite Hf. cbn. pose proof (lookup_lt_Some _ _ _ Hf) as Hlt.
    assert (Hread : st_read s1 p = Some d).
    { rewrite <- Hd. unfold view. change (frames bp) with (frames (count_miss bp)). rewrite <- Hv1. symmetry. apply view_store.
      intros j g Hg Hvg Hp. by destruct (find_frame_None _ _ Ef j g (Hpg j g Hg Hvg) Hvg). }
    destruct (io_in_latch b1).
    + rewrite Hread. eauto.
    + unfold fetch_read, fetch_end. cbn. rewrite list_lookup_insert_eq by done. rewrite Hread. cbn.
      rewrite list_lookup_insert_eq by (by rewrite length_insert). cbn. eauto.
Qed.

Lemma pinned_exists pins bp s p : pinned pins bp s -> is_Some (view bp s p) <-> 0 <= p < st_pages s.
Proof.
  intros [Hi Hq _]. rewrite <- law_pages by apply Hi. unfold view.
  destruct (view_elim _ _ _ p Hi) as [(i & f & Hf & Hl)|Hn].
  - rewrite (view_live _ _ _ _ _ _ Hi Hf Hl). destruct Hl as (Hv & Hp & <-).
    destruct (pi_frame _ _ _ Hi _ _ Hf) as (_ & _ & _ & _ & E). destruct (E Hv Hp). split; [done|by eexists].
  - by rewrite (view_not_live _ _ _ _ Hi Hn).
Qed.

Lemma pinned_pages pins pins' bp bp' s s' : pinned pins bp s -> pinned pins' bp' s' -> (forall q, view bp' s' q = view bp s q) -> st_pages s' = st_pages s.
Proof.
  intros Hp Hp' Hv. pose proof (law_pages_nonneg s (pi_wf _ _ _ (pd_inv _ _ _ Hp))). pose proof (law_pages_nonneg s' (pi_wf _ _ _ (pd_inv _ _ _ Hp'))).
  assert (Hq : forall q, 0 <= q < st_pages s' <-> 0 <= q < st_pages s).
  { intros q. by rewrite <- (pinned_exists _ _ _ _ Hp), <- (pinned_exists _ _ _ _ Hp'), Hv. }
  pose proof (Hq (st_pages s')). pose proof (Hq (st_pages s)). lia.
Qed.

(** ** Heap files with pinned pages *)

Record heap_open (first : Z) pins bp s (a : aheap) : Prop := {
  ho_pinned : pinned pins bp s;
  ho_steal : stealable bp = true;
  ho_first : 0 <= first;
  ho_pages : st_pages s = first + blen a;
  ho_page : forall (i : nat) p, a !! i = Some p -> exists d, view bp s (first + Z.of_nat i) = Some d /\ page_refines d p }.

Lemma heap_rep_open first bp s a : heap_rep first bp s a <-> heap_open first [] bp s a /\ frames bp <> [].
Proof.
  split.
  - intros [Hid ? ? ? ?]. apply idle_pinned in Hid as [Hp Hne]. by split.
  - intros [[? ? ? ? ?] Hne]. split; try done. by apply idle_pinned.
Qed.

Lemma open_step first pins pins' bp bp' s s' a : heap_open first pins bp s a -> pinned pins' bp' s' ->
  stealable bp' = stealable bp -> (forall q, view bp' s' q = view bp s q) -> heap_open first pins' bp' s' a.
Proof.
  intros [Hp Hst Hf Hn Hpg] Hp' Hst' Hv. split; [done|by rewrite Hst'|done|by rewrite (pinned_pages _ _ _ _ _ _ Hp Hp' Hv)|].
  intros i p Hi. rewrite Hv. by apply Hpg.
Qed.

Lemma open_fetch first pins bp s a (i : nat) p : reliable S -> heap_open first pins bp s a -> a !! i = Some p -> (length pins < length (frames bp))%nat ->
  exists bp1 s1 k, fetch_locked bp s (first + Z.of_nat i) = (bp1, s1, Some k) /\
    heap_open first ((first + Z.of_nat i, k) :: pins) bp1 s1 a /\ length (frames bp1) = length (frames bp).
Proof.
  intros Hrel Ho Hi Hlen. destruct (ho_page _ _ _ _ _ Ho i p Hi) as (d & Hd & Hp).
  destruct (fetch_pinned_total _ _ _ _ _ Hrel (ho_pinned _ _ _ _ _ Ho) Hlen (ho_steal _ _ _ _ _ Ho) Hd) as (bp1 & s1 & k & Hf). exists bp1, s1, k.
  destruct (fetch_pinned _ _ _ _ _ _ _ (ho_pinned _ _ _ _ _ Ho) Hf) as (Hv & Hl & Hp1 & _). split; [done|]. split; [|done].
  eapply open_step; [exact Ho|done|by eapply fetch_flags|done].
Qed.

Lemma open_data first pins bp s a (i k : nat) p : heap_open first pins bp s a -> a !! i = Some p -> (first + Z.of_nat i, k) ∈ pins ->
  exists d, frame_data bp k = Some d /\ page_refines d p.
Proof.
  intros Ho Hi Hin. destruct (ho_page _ _ _ _ _ Ho i p Hi) as (d & Hd & Hp). exists d. split; [|done].
  eapply pinned_data; [apply Ho|exact Hin|done].
Qed.

Lemma open_unpin first pins bp s a q k : heap_open first ((q, k) :: pins) bp s a ->
  heap_open first pins (bufpool_unpin bp q false) s a /\ length (frames (bufpool_unpin bp q false)) = length (frames bp).
Proof.
  intros Ho. destruct (unpin_pinned _ _ _ _ _ (ho_pinned _ _ _ _ _ Ho)) as (Hp & Hv & Hl). split; [|done].
  eapply open_step; [exact Ho|done|apply unpin_flags'|done].
Qed.
End Pinned.

(** A slot of a page, and the abstract record in it. *)
Lemma slot_lookup d p k : page_refines d p -> 0 <= k ->
  exists g, slotpage_get d k = Some g /\
    match g with
    | Some (off, len) => exists rec, mem_read d off len = Some rec /\ mjoin (ap_recs p !! Z.to_nat k) = Some rec
    | None => mjoin (ap_recs p !! Z.to_nat k) = None
    end.
Proof.
  intros Hp Hk. pose proof (page_lookup_abs d (ap_recs p) k (page_refines_abs _ _ Hp) Hk) as Hl. unfold page_lookup in Hl.
  destruct Hp as (fe & slots & R & Hrecs & _). unfold slotpage_get in *. rewrite (pr_header _ _ _ R) in *. simpl in *.
  destruct (Z.leb_spec (blen slots) k) as [Hge|Hlt]; simpl in *; [by exists None|].
  destruct (lookup_lt_is_Some_2 slots (Z.to_nat k)) as [sl Hsl]; [unfold blen in Hlt; lia|].
  pose proof (pr_slots _ _ _ R _ _ Hsl) as Hat. rewrite Z2Nat.id in Hat by lia. rewrite Hat in *. simpl in *.
  destruct (Z.eqb_spec (s_offset sl) 0) as [E0|E0]; simpl in *; [by exists None|].
  destruct (slot_rec_Some _ _ _ _ _ R Hsl E0) as (b & Hb & _). unfold slot_rec in Hb. rewrite (proj2 (Z.eqb_neq _ _) E0) in Hb.
  eexists. split; [done|]. exists b. split; [done|]. congruence.
Qed.

Lemma page_rows_drop pid (recs : list (option bytes)) k : 0 <= k < blen recs ->
  page_rows pid k (drop (Z.to_nat k) recs) =
  match mjoin (recs !! Z.to_nat k) with
  | Some rec => (mkRID pid k, rec) :: page_rows pid (k + 1) (drop (Z.to_nat (k + 1)) recs)
  | None => page_rows pid (k + 1) (drop (Z.to_nat (k + 1)) recs)
  end.
Proof.
  intros Hk. destruct (lookup_lt_is_Some_2 recs (Z.to_nat k)) as [r Hr]; [unfold blen in Hk; lia|].
  rewrite (drop_S _ r) by done. replace (S (Z.to_nat k)) with (Z.to_nat (k + 1)) by lia. rewrite Hr. by destruct r.
Qed.

Section Scan.
Context {S : Type} `{PageStoreLaws S} (Hrel : reliable S) {C A : Type}.
Context (visit : RID -> bytes -> BufferPool * S -> C -> option (BufferPool * S * C * Z)) (step : RID -> bytes -> A -> A * Z).
Context (R : C -> A -> Prop) (first : Z) (pins : Pins) (a : aheap) (nf : nat) (Hroom : (length pins < nf)%nat).
Implicit Types (bp : BufferPool) (s : S).

(** What a call of the scan or of its callback does: an abstract step, with the heap as it was. *)
Definition does (pins : Pins) (r : option (BufferPool * S * C * Z)) (y : A * Z) : Prop :=
  exists bp s c, r = Some (bp, s, c, y.2) /\ R c y.1 /\ heap_open first pins bp s a /\ length (frames bp) = nf.

Context (Hvisit : forall pin bp s c x rid rec, (rid, rec) ∈ aheap_rows first a -> heap_open first (pin :: pins) bp s a -> length (frames bp) = nf -> R c x ->
  does (pin :: pins) (visit rid rec (bp, s) c) (step rid rec x)).

Lemma nested_slots_spec (i f : nat) p n : a !! i = Some p -> (forall rid rec, (rid, rec) ∈ page_rows (first + Z.of_nat i) 0 (ap_recs p) -> (rid, rec) ∈ aheap_rows first a) ->
  forall k bp s c x, 0 <= k -> n = (length (ap_recs p) - Z.to_nat k)%nat ->
  heap_open first ((first + Z.of_nat i, f) :: pins) bp s a -> length (frames bp) = nf -> R c x ->
  does ((first + Z.of_nat i, f) :: pins) (nested_slots visit f (first + Z.of_nat i) n k bp s c)
    (visit_all step (page_rows (first + Z.of_nat i) k (drop (Z.to_nat k) (ap_recs p))) x).
Proof.
  intros Hi Hsub. induction n as [|n IH]; intros k bp s c x Hk Hn Ho Hf HR.
  { rewrite drop_ge by lia. by exists bp, s, c. }
  destruct (open_data _ _ _ _ _ i f p Ho Hi) as (d & Hd & Hp); [left|]. cbn [nested_slots]. rewrite Hd. cbn [mbind option_bind].
  rewrite page_rows_drop by (unfold blen; lia). destruct (slot_lookup d p k Hp Hk) as ([[off len]|] & Hg & Hm); rewrite Hg; cbn [mbind option_bind].
  - destruct Hm as (rec & Hrd & Hm). rewrite Hrd, Hm. cbn [mbind option_bind visit_all].
    destruct (Hvisit (first + Z.of_nat i, f) bp s c x (mkRID (first + Z.of_nat i) k) rec) as (bp1 & s1 & c1 & Hv & HR1 & Ho1 & Hf1); [|done..|].
    { apply Hsub, page_rows_elem. exists (Z.to_nat k). destruct (ap_recs p !! Z.to_nat k) as [r|]; [|done]. cbn in Hm. subst r.
      split; [done|]. f_equal. lia. }
    rewrite Hv. cbn [mbind option_bind]. destruct (step (mkRID (first + Z.of_nat i) k) rec x) as [x1 r]. cbn [fst snd] in *.
    destruct (r =? 0); [apply IH; [lia|lia|done..]|]. by exists bp1, s1, c1.
  - rewrite Hm. apply IH; [lia|lia|done..].
Qed.

Lemma nested_pages_spec : forall rest pre bp s c x, pre ++ rest = a -> heap_open first pins bp s a -> length (frames bp) = nf -> R c x ->
  does pins (nested_pages visit (length rest) (first + blen pre) bp s c) (visit_all step (aheap_rows (first + blen pre) rest) x).
Proof.
  induction rest as [|p rest IH]; intros pre bp s c x Ha Ho Hf HR; [by exists bp, s, c|].
  assert (Hlk : a !! length pre = Some p) by (rewrite <- Ha; by apply list_lookup_middle).
  cbn [length nested_pages aheap_rows]. unfold bufpool_fetch. rewrite visit_all_app.
  destruct (open_fetch _ _ _ _ _ _ _ Hrel Ho Hlk) as (bp1 & s1 & k & Hfe & Ho1 & Hl1); [lia|]. fold (blen pre) in Hfe, Ho1. rewrite Hfe.
  destruct (open_data _ _ _ _ _ (length pre) k p Ho1 Hlk) as (d & Hd & Hp); [left|]. rewrite Hd. cbn [mbind option_bind].
  pose proof Hp as (fe & slots & Rp & Hrecs & _). unfold slotpage_num_slots. rewrite (pr_header _ _ _ Rp). cbn [mbind option_bind num_slots fmap option_fmap option_map].
  destruct (nested_slots_spec (length pre) k p (Z.to_nat (blen slots))) with (k := 0) (bp := bp1) (s := s1) (c := c) (x := x)
    as (bp2 & s2 & c2 & Hs & HR2 & Ho2 & Hl2); [done| |done|rewrite Hrecs, length_fmap; unfold blen; lia|done|lia|done|].
  { intros rid rec (j & Hj & ->)%page_rows_elem. apply aheap_rows_elem. exists (length pre), j, p. done. }
  fold (blen pre) in Hs, Ho2, HR2. rewrite Hs. rewrite drop_0 in *. cbn [mbind option_bind].
  destruct (visit_all step (page_rows (first + blen pre) 0 (ap_recs p)) x) as [x2 rc]. cbn [fst snd] in *.
  destruct (open_unpin _ _ _ _ _ _ _ Ho2) as [Ho3 Hl3]. destruct (rc =? 0); [|exists (bufpool_unpin bp2 (first + blen pre) false), s2, c2; split; [done|]; split; [done|]; split; [done|lia]].
  replace (first + blen pre + 1) with (first + blen (pre ++ [p])) by (rewrite blen_app; change (blen [p]) with 1; lia).
  apply IH; [by rewrite <- app_assoc|done|by rewrite Hl3|done].
Qed.

Lemma nested_scan_spec bp s c x : heap_open first pins bp s a -> length (frames bp) = nf -> R c x ->
  does pins (nested_scan visit (mkHeap first) bp s c) (visit_all step (aheap_rows first a) x).
Proof.
  intros Ho Hf HR. unfold nested_scan. cbn [first_page]. rewrite (ho_pages _ _ _ _ _ Ho).
  replace (Z.to_nat (first + blen a - first)) with (length a) by (unfold blen; lia).
  pose proof (nested_pages_spec a [] bp s c x eq_refl Ho Hf HR) as Hs. change (blen (@nil apage)) with 0 in Hs. by rewrite Z.add_0_r in Hs.
Qed.
End Scan.

Lemma heap_get_open {S} `{PageStoreLaws S} first pins bp (s : S) a rid : reliable S -> heap_open first pins bp s a -> (length pins < length (frames bp))%nat ->
  first <= rid_page rid -> 0 <= rid_slot rid ->
  exists bp' s', heap_get bp s rid = Some (bp', s', aheap_get first a rid) /\ heap_open first pins bp' s' a /\ length (frames bp') = length (frames bp).
Proof.
  intros Hrel Ho Hroom Hf Hs. unfold heap_get, bufpool_fetch, aheap_get, aheap_page. rewrite (proj2 (Z.leb_le _ _)) by done.
  destruct (a !! Z.to_nat (rid_page rid - first)) as [p|] eqn:Ea; cbn [mbind option_bind].
  - destruct (open_fetch _ _ _ _ _ _ _ Hrel Ho Ea Hroom) as (bp1 & s1 & k & Hfe & Ho1 & Hl1).
    destruct (open_data _ _ _ _ _ _ k p Ho1 Ea) as (d & Hd & Hp); [left|].
    replace (first + Z.of_nat (Z.to_nat (rid_page rid - first))) with (rid_page rid) in * by lia.
    rewrite Hfe, Hd. cbn [mbind option_bind]. destruct (open_unpin _ _ _ _ _ _ _ Ho1) as [Ho2 Hl2].
    destruct (slot_lookup d p (rid_slot rid) Hp Hs) as ([[off len]|] & Hg & Hm); rewrite Hg; cbn [mbind option_bind].
    + destruct Hm as (rec & Hrd & Hm). rewrite Hrd, Hm. cbn [mbind option_bind]. eexists _, _. split; [done|]. split; [done|lia].
    + rewrite Hm. eexists _, _. split; [done|]. split; [done|lia].
  - destruct (fetch_locked bp s (rid_page rid)) as [[bp' s'] r] eqn:Hfe.
    destruct (fetch_pinned _ _ _ _ _ _ _ (ho_pinned _ _ _ _ _ Ho) Hfe) as (Hv & Hl & Hc). destruct r as [i|].
    + destruct Hc as [_ Hc]. apply (pinned_exists _ _ _ _ (ho_pinned _ _ _ _ _ Ho)) in Hc. rewrite (ho_pages _ _ _ _ _ Ho) in Hc.
      apply lookup_ge_None_1 in Ea. unfold blen in Hc. pose proof (ho_first _ _ _ _ _ Ho). lia.
    + exists bp', s'. split; [done|]. split; [|done]. eapply open_step; [exact Ho|done|by eapply fetch_flags|done].
Qed.

(** ** What a join needs from the heap of a table *)

Class NestedStore (H : Type) `{RecordStore H} := {
  rs_frames : H -> nat;
  rs_nested : forall {C}, (RID -> bytes -> H -> C -> option (H * C * Z)) -> H -> C -> option (H * C * Z) }.

(** [rs_open n pins h a]: the heap holds [a] and its pool has [pins] pages pinned; as long
    as they are fewer than the frames, the heap can be read and scanned. *)
Class NestedStoreLaws (H : Type) `{NestedStore H} `{!RecordStoreLaws H} := {
  rs_abs : Type;
  rs_rows : rs_abs -> list (RID * bytes);
  rs_open : nat -> Pins -> H -> rs_abs -> Prop;
  law_open : forall n h rows, rs_rep n h rows <-> exists a, rows = rs_rows a /\ rs_open n [] h a /\ (0 < rs_frames h)%nat;
  law_open_get : forall n pins h a rid, rs_open n pins h a -> (length pins < rs_frames h)%nat -> rid_ok 0 rid ->
    exists h' r, rs_get h rid = Some (h', r) /\ rs_open n pins h' a /\ rs_frames h' = rs_frames h /\ forall rec, r = Some rec <-> (rid, rec) ∈ rs_rows a;
  law_open_nested : forall C A (R : C -> A -> Prop) (visit : RID -> bytes -> H -> C -> option (H * C * Z)) (step : RID -> bytes -> A -> A * Z) n pins h a c x,
    rs_open n pins h a -> (length pins < rs_frames h)%nat -> R c x ->
    (forall pin h1 c x rid rec, (rid, rec) ∈ rs_rows a -> rs_open n (pin :: pins) h1 a -> rs_frames h1 = rs_frames h -> R c x ->
      exists h2 c', visit rid rec h1 c = Some (h2, c', (step rid rec x).2) /\ R c' (step rid rec x).1 /\ rs_open n (pin :: pins) h2 a /\ rs_frames h2 = rs_frames h) ->
    exists h' c', rs_nested visit h c = Some (h', c', (visit_all step (rs_rows a) x).2) /\ R c' (visit_all step (rs_rows a) x).1 /\
      rs_open n pins h' a /\ rs_frames h' = rs_frames h }.

Section HeapNested.
Context {S : Type} `{PageStoreLaws S} (Hrel : reliable S).

#[export] Instance heap_nested : NestedStore (BufferPool * S) := {
  rs_frames h := length (frames h.1);
  rs_nested C visit h c :=
    '(bp, s, c, r) ← nested_scan (fun rid rec st c => '(st, c, r) ← visit rid rec st c; Some (st.1, st.2, c, r)) (mkHeap 0) h.1 h.2 c;
    Some ((bp, s), c, r) }.

Definition heap_holds_open (n : nat) (pins : Pins) (h : BufferPool * S) (a : aheap) : Prop :=
  heap_open 0 pins h.1 h.2 a /\ blen a + Z.of_nat n <= 2 ^ 47.

Lemma heap_nested_laws : @NestedStoreLaws (BufferPool * S) _ heap_nested (heap_store_laws Hrel).
Proof.
  refine {| rs_rows := aheap_rows 0; rs_open := heap_holds_open : nat -> Pins -> (BufferPool * S) -> aheap -> Prop |}.
  - intros n [bp s] rows. split.
    + intros (a & Hr & -> & Hn). exists a. apply heap_rep_open in Hr as [Ho Hne]. split; [done|]. split; [done|]. cbn in *. destruct (frames bp); [done|cbn; lia].
    + intros (a & -> & [Ho Hn] & Hne). exists a. split; [|done]. apply heap_rep_open. split; [done|]. cbn in *. intros E. rewrite E in Hne. cbn in Hne. lia.
  - intros n pins [bp s] a rid [Ho Hn] Hroom [Hp Hs].
    destruct (heap_get_open 0 pins bp s a rid Hrel Ho Hroom Hp ltac:(lia)) as (bp' & s' & Hg & Ho' & Hl). cbn [rs_get heap_store fst snd]. rewrite Hg.
    eexists _, _. split; [done|]. split; [done|]. split; [exact Hl|]. intros rec. apply aheap_get_elem. lia.
  - intros C A R visit step n pins [bp s] a c x [Ho Hn] Hroom HR Hv. cbn [rs_nested heap_nested fst snd].
    set (lifted := fun rid rec st c => '(st, c, r) ← visit rid rec st c; Some (st.1, st.2, c, r)).
    destruct (nested_scan_spec Hrel lifted step R 0 pins a (length (frames bp)) Hroom) with (bp := bp) (s := s) (c := c) (x := x)
      as (bp' & s' & c' & Hs & HR' & Ho' & Hl'); [|done..|].
    { intros pin bp1 s1 c1 x1 rid rec Hin Ho1 Hl1 HR1.
      destruct (Hv pin (bp1, s1) c1 x1 rid rec) as ([bp2 s2] & c2 & Hvis & HR2 & [Ho2 _] & Hl2); [done..|].
      exists bp2, s2, c2. unfold lifted. rewrite Hvis. by split. }
    rewrite Hs. eexists _, _. by split.
Qed.
End HeapNested.
