(* ===== verification/Parscan.v ===== *)
(** * The parallel heap scan (src/src/parscan.c)

    Workers scan disjoint ranges of pages through the shared buffer pool, whose
    latch orders their fetches and unpins.  A schedule names the worker that takes
    the next step: the critical section of a fetch, the read outside the latch, its
    completion, the evaluation of a pinned page, or the unpin.  A worker that waits
    for another's read stays where it is.  [None] is an access outside a page. *)
From S2P Require Import Prelude Page Pager BufPool Heap Storage.

(** ** Workers *)

#[export] Instance thread_eq_dec : EqDecision thread.
Proof. solve_decision. Defined.

Record Worker (C : Type) := mkWorker {
  w_lo : Z;       (* the page scanned next *)
  w_hi : Z;
  w_ctx : C;      (* the worker's own context or result buffer *)
  w_seen : bool;  (* the pinned page has been evaluated *)
  w_rc : Z;
  w_done : bool }.
Arguments mkWorker {C}.
Arguments w_lo {C}.
Arguments w_hi {C}.
Arguments w_ctx {C}.
Arguments w_seen {C}.
Arguments w_rc {C}.
Arguments w_done {C}.

Section Scan.
Context {S : Type} `{PageStore S} {C : Type} (visit : RID -> bytes -> C -> C).

Record PSys := mkPSys { ps_sys : @system S; ps_workers : list (Worker C) }.

Definition w_fail (w : Worker C) : Worker C := mkWorker (w_lo w) (w_hi w) (w_ctx w) (w_seen w) (-1) true.
Definition w_finish (w : Worker C) : Worker C := mkWorker (w_lo w) (w_hi w) (w_ctx w) (w_seen w) (w_rc w) true.
Definition w_visited (w : Worker C) (c : C) : Worker C := mkWorker (w_lo w) (w_hi w) c true (w_rc w) (w_done w).
Definition w_next (w : Worker C) : Worker C := mkWorker (w_lo w + 1) (w_hi w) (w_ctx w) false (w_rc w) (w_done w).

Definition put_worker (y : PSys) (k : nat) (bp : BufferPool) (s : S) (t : thread) (w : Worker C) : PSys :=
  mkPSys (mkSys bp s (<[k := t]> (threads (ps_sys y)))) (<[k := w]> (ps_workers y)).

(** One step of worker [k]. *)
Definition fe_worker_step (k : nat) (y : PSys) : option PSys :=
  let bp := pool (ps_sys y) in
  let s := store (ps_sys y) in
  match threads (ps_sys y) !! k, ps_workers y !! k with
  | Some TIdle, Some w =>
      if w_done w then Some y
      else if w_lo w <? w_hi w then
        let '(bp, s, r) := fetch_begin bp s (w_lo w) in
        Some (put_worker y k bp s (after_begin (w_lo w) r) (match r with FFail => w_fail w | _ => w end))
      else Some (put_worker y k bp s TIdle (w_finish w))
  | Some (TLoading i p), Some w =>
      let '(bp, ok) := fetch_read bp s i p in Some (put_worker y k bp s (TLoaded i p ok) w)
  | Some (TLoaded i p ok), Some w =>
      let '(bp, r) := fetch_end bp i ok in
      Some (put_worker y k bp s (after_end p r) (match r with None => w_fail w | Some _ => w end))
  | Some (THolding i p b), Some w =>
      if w_seen w then Some (put_worker y k (bufpool_unpin bp p false) s TIdle (w_next w))
      else
        page ← frame_data bp i;
        n ← slotpage_num_slots page;
        '(c, _) ← scan_slots (fun rid rec c => (visit rid rec c, 0)) page p (Z.to_nat n) 0 (w_ctx w);
        Some (put_worker y k bp s (THolding i p b) (w_visited w c))
  | _, _ => Some y
  end.

Fixpoint run_workers (sched : list nat) (y : PSys) : option PSys :=
  match sched with
  | [] => Some y
  | k :: sched => y ← fe_worker_step k y; run_workers sched y
  end.

(** Contiguous blocks of pages, in the order of the workers. *)
Definition chunk_size (total nworkers : Z) : Z := (total + nworkers - 1) / nworkers.

Definition worker_range (first np chunk i : Z) : Z * Z :=
  let lo := first + i * chunk in
  let hi := Z.min (first + (i + 1) * chunk) np in
  (Z.min lo hi, hi).

Definition clamp_workers (nworkers total : Z) : Z := Z.min (Z.max nworkers 1) total.

Definition start_workers (first np nworkers : Z) (ctxs : list C) : list (Worker C) :=
  imap (fun i c => let '(lo, hi) := worker_range first np (chunk_size (np - first) nworkers) (Z.of_nat i) in
                   mkWorker lo hi c false 0 false) ctxs.

(** The contexts after every worker has been joined, with the return code; [Some None]
    is a schedule that leaves a worker running. *)
Definition parscan_foreach (h : Heap) (bp : BufferPool) (s : S) (nworkers : Z) (ctxs : list C) (sched : list nat) :
  option (option (BufferPool * S * list C * Z)) :=
  let np := st_pages s in
  let first := first_page h in
  let total := if first <? np then np - first else 0 in
  if total =? 0 then Some (Some (bp, s, ctxs, 0))
  else
    let n := clamp_workers nworkers total in
    run ← mem_read ctxs 0 n;
    y ← run_workers sched (mkPSys (mkSys bp s (replicate (Z.to_nat n) TIdle)) (start_workers first np n run));
    if forallb w_done (ps_workers y) then
      Some (Some (pool (ps_sys y), store (ps_sys y), (w_ctx <$> ps_workers y) ++ drop (Z.to_nat n) ctxs,
                  if forallb (fun w => w_rc w =? 0) (ps_workers y) then 0 else -1))
    else Some None.
End Scan.

(** [worker_main]: the rows the predicate accepts, in the worker's own buffer.  The
    predicate is partial as a model of [parsel_pred]; its failure is kept. *)
Definition worker_visit (pred : RID -> bytes -> option bool) (rid : RID) (rec : bytes) (res : option (list RID)) : option (list RID) :=
  res ← res; b ← pred rid rec; Some (if (b : bool) then res ++ [rid] else res).

(** Joining the workers and merging their results in worker order; [Some None] when a
    worker is still running, [Some (Some (bp, s, None))] for the return code -1. *)
Definition join_results {S} (y : @PSys S (option (list RID))) : option (option (BufferPool * S * option (list RID))) :=
  if forallb w_done (ps_workers y) then
    if forallb (fun w => w_rc w =? 0) (ps_workers y) then
      parts ← mapM w_ctx (ps_workers y);
      Some (Some (pool (ps_sys y), store (ps_sys y), Some (mjoin parts)))
    else Some (Some (pool (ps_sys y), store (ps_sys y), None))
  else Some None.

Definition parscan_collect {S} `{PageStore S} (h : Heap) (bp : BufferPool) (s : S) (nworkers : Z) (pred : RID -> bytes -> option bool)
  (sched : list nat) : option (option (BufferPool * S * option (list RID))) :=
  let np := st_pages s in
  let first := first_page h in
  let total := if first <? np then np - first else 0 in
  if total =? 0 then Some (Some (bp, s, Some []))
  else
    let n := clamp_workers nworkers total in
    y ← run_workers (worker_visit pred) sched
          (mkPSys (mkSys bp s (replicate (Z.to_nat n) TIdle)) (start_workers first np n (replicate (Z.to_nat n) (Some []))));
    join_results y.

(** ** The invariant of the workers *)

Section Inv.
Context {S : Type} `{PageStoreLaws S} {C : Type} (visit : RID -> bytes -> C -> C) (first : Z) (a : aheap).
Context (V : Z -> option bytes) (HV : forall (i : nat) p, a !! i = Some p -> exists d, V (first + Z.of_nat i) = Some d /\ page_refines d p).
Implicit Types (y : @PSys S C) (w : Worker C).

Definition rows_between (lo hi : Z) : list (RID * bytes) :=
  aheap_rows lo (take (Z.to_nat (hi - lo)) (drop (Z.to_nat (lo - first)) a)).

Definition upto w : Z := if w_seen w then w_lo w + 1 else w_lo w.

Definition visit_rows (c : C) (rows : list (RID * bytes)) : C := foldl (fun c e => visit e.1 e.2 c) c rows.

(** Where a thread is with respect to its worker's page. *)
Definition at_page (t : thread) w : Prop :=
  match t with
  | TIdle => w_seen w = false
  | TLoading _ p | TLoaded _ p _ => p = w_lo w /\ w_lo w < w_hi w /\ w_done w = false /\ w_seen w = false
  | THolding _ p wrote => p = w_lo w /\ w_lo w < w_hi w /\ w_done w = false /\ wrote = false
  end.

Record worker_inv (r : Z * Z * C) (t : thread) w : Prop := {
  wi_hi : w_hi w = r.1.2;
  wi_lo : r.1.1 <= w_lo w <= w_hi w;
  wi_ctx : w_ctx w = visit_rows r.2 (rows_between r.1.1 (upto w));
  wi_at : at_page t w;
  wi_rc : w_done w = false -> w_rc w = 0;
  wi_done : w_done w = true -> w_rc w = 0 -> w_lo w = w_hi w }.

Definition pages_held (z : @system S) : Prop := forall q, view (pool z) (store z) q = V q.

Definition range_ok (r : Z * Z * C) : Prop := first <= r.1.1 <= r.1.2 /\ r.1.2 <= first + blen a.

(** Frames that hold no page are not pinned. *)
Definition unpinned (bp : BufferPool) : Prop := forall i f, frames bp !! i = Some f -> valid f = false -> pin_count f = 0.

(** What the pool keeps through the steps of a scan. *)
Definition kept (bp bp' : BufferPool) : Prop :=
  stealable bp' = stealable bp /\ length (frames bp') = length (frames bp) /\ (unpinned bp -> unpinned bp').

Record pscan_inv (rs : list (Z * Z * C)) y : Prop := {
  ps_inv : sys_inv (ps_sys y);
  ps_pages : pages_held (ps_sys y);
  ps_steal : stealable (pool (ps_sys y)) = true;
  ps_frames : frames (pool (ps_sys y)) <> [];
  ps_unpinned : unpinned (pool (ps_sys y));
  ps_threads : length (threads (ps_sys y)) = length rs;
  ps_len : length (ps_workers y) = length rs;
  ps_each : forall k r t w, rs !! k = Some r -> threads (ps_sys y) !! k = Some t -> ps_workers y !! k = Some w -> worker_inv r t w }.

Lemma put_worker_inv rs y k r bp s t w :
  pscan_inv rs y -> rs !! k = Some r -> worker_inv r t w ->
  sys_inv (mkSys bp s (<[k := t]> (threads (ps_sys y)))) /\ (forall q, view bp s q = view (pool (ps_sys y)) (store (ps_sys y)) q) ->
  kept (pool (ps_sys y)) bp ->
  pscan_inv rs (put_worker y k bp s t w).
Proof.
  intros [Hi Hp Hst Hfr Hun Ht Hl He] Hr Hw [Hi' Hv] (Hs & Hlen & Hu). split; cbn; [done| |by rewrite Hs| |auto|by rewrite length_insert..|].
  - intros q. cbn. rewrite Hv. apply Hp.
  - destruct (frames bp); [|done]. by destruct (frames (pool (ps_sys y))).
  - intros j r' t' w' Hr' Ht' Hw'. destruct (decide (j = k)) as [->|Hne].
    + rewrite list_lookup_insert_eq in Ht' by (rewrite Ht; by eapply lookup_lt_Some).
      rewrite list_lookup_insert_eq in Hw' by (rewrite Hl; by eapply lookup_lt_Some). by simplify_eq.
    + rewrite list_lookup_insert_ne in Ht' by done. rewrite list_lookup_insert_ne in Hw' by done. by eapply He.
Qed.

Lemma kept_refl bp : kept bp bp.
Proof. done. Qed.

Lemma kept_set bp bp' i f : stealable bp' = stealable bp -> frames bp' = <[i := f]> (frames bp) -> (valid f = false -> pin_count f = 0 \/ (exists g, frames bp !! i = Some g /\ valid g = false /\ pin_count f = pin_count g)) -> kept bp bp'.
Proof.
  intros Hs Hf Hv. split; [done|]. split; [by rewrite Hf, length_insert|]. intros Hu j g Hg Hvg. rewrite Hf in Hg.
  destruct (decide (j = i)) as [->|Hne]; [|rewrite list_lookup_insert_ne in Hg by done; by eapply Hu].
  destruct (decide (i < length (frames bp))%nat); [|rewrite list_insert_ge in Hg by lia; by eapply Hu].
  rewrite list_lookup_insert_eq in Hg by done. injection Hg as <-. destruct (Hv Hvg) as [?|(g' & Hg' & Hvg' & ->)]; [done|by eapply Hu].
Qed.

Lemma kept_trans bp1 bp2 bp3 : kept bp1 bp2 -> kept bp2 bp3 -> kept bp1 bp3.
Proof. intros (A1 & A2 & A3) (B1 & B2 & B3). split; [congruence|]. split; [congruence|auto]. Qed.

Lemma pick_frame_kept bp s bp' s' r : pick_frame bp s = (bp', s', r) -> kept bp bp' /\ forall i f, r = Some i -> frames bp' !! i = Some f -> valid f = false.
Proof.
  unfold pick_frame. intros Hp. destruct (first_index _ (frames bp)) as [i0|] eqn:Ei.
  - injection Hp as <- <- <-. split; [done|]. intros i f [= <-] Hf. apply first_index_Some in Ei as (g & Hg & Hx). rewrite Hf in Hg. injection Hg as ->. by destruct (valid g).
  - pose proof (find_victim_spec bp) as Hv. destruct (find_victim bp) as [[i0 v]|]; [|injection Hp as <- <- <-; done]. destruct Hv as (Hv & [Hpin _] & _).
    pose proof (lookup_lt_Some _ _ _ Hv) as Hlt. repeat case_match; simplify_eq; try done.
    all: split; [eapply kept_set; [done|done|by left]|]; intros i f [= <-]; cbn; rewrite list_lookup_insert_eq by done; by intros [= <-].
Qed.

Lemma fetch_begin_kept bp s p bp' s' r : fetch_begin bp s p = (bp', s', r) -> kept bp bp'.
Proof.
  unfold fetch_begin. intros Hf. destruct (find_frame bp p ≫= _) as [[i f]|] eqn:Ef.
  - apply find_frame_Some in Ef as (Hl & Hv & _). destruct (io_pending f); simplify_eq; [apply kept_refl|].
    eapply kept_set; [done|done|]. cbn. congruence.
  - destruct (pick_frame (count_miss bp) s) as [[b1 s1] r1] eqn:Ep. apply pick_frame_kept in Ep as [Hk Hi].
    assert (Hk' : kept bp b1) by exact Hk. destruct (r1 ≫= _) as [[i f]|] eqn:Er; [|by simplify_eq].
    apply bind_Some in Er as (i' & -> & (g & Hg & [= <- <-])%fmap_Some).
    eapply kept_trans; [exact Hk'|]. specialize (Hi _ _ eq_refl Hg). destruct (io_in_latch b1); [destruct (st_read s1 p)|]; simplify_eq; (eapply kept_set; [done|done|]); cbn; try done.
    intros _. right. eexists. split; [exact Hg|]. done.
Qed.

Lemma fetch_read_kept bp s i p bp' ok : fetch_read bp s i p = (bp', ok) -> kept bp bp'.
Proof.
  unfold fetch_read. intros Hf. destruct (frames bp !! i) as [f|] eqn:Ei; [|by simplify_eq]. destruct (st_read s p); simplify_eq; [|done].
  eapply kept_set; [done|done|]. cbn. right. by exists f.
Qed.

Lemma fetch_end_kept bp i ok bp' r : fetch_end bp i ok = (bp', r) -> kept bp bp'.
Proof.
  unfold fetch_end. intros Hf. destruct (frames bp !! i) as [f|] eqn:Ei; [|by simplify_eq]. destruct ok; simplify_eq; (eapply kept_set; [done|done|]); cbn; [|by left].
  intros Hv. right. by exists f.
Qed.

Lemma unpin_kept bp p b : kept bp (bufpool_unpin bp p b).
Proof.
  unfold bufpool_unpin. destruct (find_frame bp p ≫= _) as [[i f]|] eqn:Ef; [|done].
  apply find_frame_Some in Ef as (Hl & Hv & _). repeat case_match; try done; (eapply kept_set; [done|done|]); cbn; congruence.
Qed.

(** One more page. *)
Lemma rows_between_next lo hi p : first <= lo -> lo <= hi -> a !! Z.to_nat (hi - first) = Some p ->
  rows_between lo (hi + 1) = rows_between lo hi ++ page_rows hi 0 (ap_recs p).
Proof.
  intros Hf Hl Hp. unfold rows_between. replace (Z.to_nat (hi + 1 - lo)) with (Datatypes.S (Z.to_nat (hi - lo))) by lia.
  rewrite (take_S_r _ _ p).
  - rewrite aheap_rows_app. cbn [aheap_rows]. rewrite app_nil_r. do 2 f_equal. apply lookup_lt_Some in Hp.
    unfold blen. rewrite length_take, length_drop. lia.
  - rewrite lookup_drop. rewrite <- Hp. f_equal. lia.
Qed.

Lemma scan_page_ok z i p w : sys_inv z -> pages_held z -> first <= p < first + blen a ->
  (exists f, frames (pool z) !! i = Some f /\ live f p) ->
  exists page n pg, frame_data (pool z) i = Some page /\ slotpage_num_slots page = Some n /\ a !! Z.to_nat (p - first) = Some pg /\
    scan_slots (fun rid rec c => (visit rid rec c, 0)) page p (Z.to_nat n) 0 (w_ctx w) = Some (visit_rows (w_ctx w) (page_rows p 0 (ap_recs pg)), 0).
Proof.
  intros Hi Hp Hr (f & Hf & Hl). destruct (lookup_lt_is_Some_2 a (Z.to_nat (p - first))) as [pg Hpg]; [unfold blen in Hr; lia|].
  destruct (HV _ _ Hpg) as (d & Hd & Href). replace (first + Z.of_nat (Z.to_nat (p - first))) with p in Hd by lia. rewrite <- Hp in Hd.
  unfold view in Hd. rewrite (view_live _ _ _ _ _ _ (si_pool _ Hi) Hf Hl) in Hd. injection Hd as <-.
  pose proof Href as (fe & slots & R & Hrecs & _). exists (data f), (blen slots), pg. split; [unfold frame_data; by rewrite Hf|].
  split; [unfold slotpage_num_slots; by rewrite (pr_header _ _ _ R)|]. split; [done|].
  rewrite (scan_slots_spec _ (data f) pg) by (done || (rewrite Hrecs, length_fmap; unfold blen; lia)). by rewrite drop_0, visit_all_total.
Qed.

Lemma fe_worker_step_inv rs k y : Forall range_ok rs -> pscan_inv rs y -> exists y', fe_worker_step visit k y = Some y' /\ pscan_inv rs y'.
Proof.
  intros Hrs Hy. unfold fe_worker_step. destruct (threads (ps_sys y) !! k) as [t|] eqn:Et; [|eauto].
  destruct (ps_workers y !! k) as [w|] eqn:Ew; [|destruct t; eauto].
  destruct (lookup_lt_is_Some_2 rs k) as [r Hr]; [rewrite <- (ps_len _ _ Hy); by eapply lookup_lt_Some|].
  pose proof (ps_each _ _ Hy k r t w Hr Et Ew) as [Whi Wlo Wctx Wat Wrc Wdone]. pose proof (Forall_lookup_1 _ _ _ _ Hrs Hr) as [[R1 R2] R3].
  destruct (ps_sys y) as [bp s ts] eqn:Ey. cbn [pool store threads] in *.
  assert (Hsys : sys_inv (mkSys bp s ts)) by (rewrite <- Ey; apply Hy).
  assert (Hput : forall bp' s' t' w', worker_inv r t' w' -> sys_inv (mkSys bp' s' (<[k := t']> ts)) /\ (forall q, view bp' s' q = view bp s q) ->
    kept bp bp' -> exists y', Some (put_worker y k bp' s' t' w') = Some y' /\ pscan_inv rs y').
  { intros bp' s' t' w' Hw Hi Hk. eexists. split; [done|]. eapply put_worker_inv; [done|exact Hr|done|rewrite Ey; done|by rewrite Ey]. }
  destruct t as [|i p|i p ok|i p b]; cbn [at_page] in Wat.
  - destruct (w_done w) eqn:Ed; [eauto|]. destruct (Z.ltb_spec (w_lo w) (w_hi w)).
    + destruct (fetch_begin bp s (w_lo w)) as [[bp' s'] f] eqn:Ef. apply Hput; [|by eapply begin_inv|by eapply fetch_begin_kept].
      destruct f; split; cbn; try done; rewrite ?Ed; auto; done.
    + apply Hput; [|rewrite list_insert_id by done; done|done]. split; cbn; try done. intros _ _. lia.
  - destruct (fetch_read bp s i p) as [bp' ok] eqn:Ef. apply Hput; [|by eapply read_inv|by eapply fetch_read_kept]. split; cbn; try done; auto.
  - destruct (fetch_end bp i ok) as [bp' f] eqn:Ef. apply Hput; [|by eapply end_inv|by eapply fetch_end_kept].
    destruct Wat as (-> & Hlt & Hd & Hs). destruct f; split; cbn; try done; rewrite ?Hd; auto; done.
  - destruct Wat as (-> & Hlt & Hd & ->). destruct (w_seen w) eqn:Es.
    + apply Hput; [|eapply unpin_inv; [done|exact Et|done]|apply unpin_kept].
      split; cbn; try done; try lia; try congruence. rewrite Wctx. unfold upto. by rewrite Es.
    + pose proof (si_threads _ Hsys k _ Et) as Hth. cbn in Hth.
      destruct (scan_page_ok (mkSys bp s ts) i (w_lo w) w Hsys) as (page & n & pg & Hfd & Hns & Hpg & Hsc); [rewrite <- Ey; apply Hy|lia|exact Hth|].
      cbn [pool] in Hfd. rewrite Hfd. cbn [mbind option_bind]. rewrite Hns. cbn [mbind option_bind]. rewrite Hsc. cbn [mbind option_bind]. apply Hput; [|rewrite list_insert_id by done; done|done].
      split; cbn; try done; auto; try congruence. rewrite Wctx. unfold upto. cbn. rewrite Es. rewrite (rows_between_next _ _ pg) by (done || lia).
      unfold visit_rows. by rewrite foldl_app.
Qed.

Lemma run_workers_inv rs sched : forall y, Forall range_ok rs -> pscan_inv rs y -> exists y', run_workers visit sched y = Some y' /\ pscan_inv rs y'.
Proof.
  induction sched as [|k sched IH]; intros y Hrs Hy; [eauto|]. cbn [run_workers].
  destruct (fe_worker_step_inv rs k y Hrs Hy) as (y' & -> & Hy'). cbn [mbind option_bind]. by apply IH.
Qed.

(** ** Start and end *)

Lemma users_idle ts i : Forall (fun t => t = TIdle) ts -> users ts i = 0.
Proof. induction 1 as [|t ts -> _ IH]; [done|]. change (users (TIdle :: ts) i) with (0 + users ts i). by rewrite IH. Qed.

Lemma idle_threads bp s m : idle bp s -> sys_inv (mkSys bp s (replicate m TIdle)).
Proof.
  intros [Hi Hq Hz _].
  assert (Ht : forall k t, replicate m TIdle !! k = Some t -> t = TIdle) by (intros k t Hk; by apply lookup_replicate in Hk as [-> _]).
  split; cbn [threads pool store].
  - eapply pool_inv_iff; [|exact Hi]. intros i. split; [intros []|]. intros (k & p & Hk). by apply Ht in Hk.
  - intros i f Hf _. rewrite (Hz i f Hf) by done. symmetry. apply users_idle. by apply Forall_replicate.
  - intros i f Hf Hp. by rewrite (Hq i f Hf) in Hp.
  - intros k t Hk. by rewrite (Ht k t Hk).
Qed.

Lemma threads_idle z : sys_inv z -> Forall (fun t => t = TIdle) (threads z) -> frames (pool z) <> [] -> unpinned (pool z) -> idle (pool z) (store z).
Proof.
  intros Hz Hi Hne Hinv. split; [| | |done].
  - eapply pool_inv_iff; [|apply Hz]. intros i. split; [|intros []]. intros (k & p & Hk). by rewrite list.Forall_forall in Hi; apply list_elem_of_lookup_2, Hi in Hk.
  - intros i f Hf. destruct (io_pending f) eqn:Ep; [|done]. pose proof (si_pend _ Hz _ _ Hf Ep) as Hp.
    destruct (pi_frame _ _ _ (si_pool _ Hz) _ _ Hf) as (_ & _ & Hx & _). destruct (Hx Ep) as (Hv & _).
    rewrite (si_pins _ Hz _ _ Hf Hv), users_idle in Hp by done. done.
  - intros i f Hf _. destruct (valid f) eqn:Ev; [|by eapply Hinv]. by rewrite (si_pins _ Hz _ _ Hf Ev), users_idle.
Qed.

Lemma rows_between_nil lo : rows_between lo lo = [].
Proof. unfold rows_between. by rewrite Z.sub_diag. Qed.

Lemma rows_between_app lo mid hi : first <= lo -> lo <= mid <= hi -> mid <= first + blen a ->
  rows_between lo mid ++ rows_between mid hi = rows_between lo hi.
Proof.
  intros Hf Hm Hb. unfold rows_between. rewrite <- (take_drop (Z.to_nat (mid - lo)) (take (Z.to_nat (hi - lo)) _)).
  rewrite aheap_rows_app. rewrite take_take, Nat.min_l by lia. f_equal. rewrite skipn_firstn_comm, drop_drop. f_equal.
  - unfold blen in *. rewrite length_take, length_drop. lia.
  - f_equal; [lia|]. f_equal. lia.
Qed.

Lemma rows_between_all : rows_between first (first + blen a) = aheap_rows first a.
Proof. unfold rows_between. rewrite Z.sub_diag, drop_0, take_ge by (unfold blen; lia). done. Qed.

Definition ranges (n : Z) (ctxs : list C) : list (Z * Z * C) :=
  imap (fun i c => (worker_range first (first + blen a) (chunk_size (blen a) n) (Z.of_nat i), c)) ctxs.

Section Ranges.
Context (n : Z) (Hn : 0 < n).

Lemma chunk_enough : 0 <= chunk_size (blen a) n /\ blen a <= n * chunk_size (blen a) n.
Proof.
  unfold chunk_size. pose proof (blen_nonneg a). pose proof (Z.div_mod (blen a + n - 1) n ltac:(lia)). pose proof (Z.mod_pos_bound (blen a + n - 1) n Hn).
  split; [apply Z.div_pos; lia|lia].
Qed.

Lemma ranges_ok ctxs : Forall range_ok (ranges n ctxs).
Proof.
  apply Forall_lookup_2. intros i r Hr. unfold ranges in Hr. rewrite list_lookup_imap in Hr. apply fmap_Some in Hr as (c & _ & ->).
  destruct chunk_enough as [Hc _]. pose proof (blen_nonneg a). unfold range_ok, worker_range. cbn. nia.
Qed.

Lemma ranges_cover ctxs : mjoin ((fun r : Z * Z * C => rows_between r.1.1 r.1.2) <$> ranges n ctxs) =
  rows_between first (Z.min (first + blen ctxs * chunk_size (blen a) n) (first + blen a)).
Proof.
  destruct chunk_enough as [Hc _]. pose proof (blen_nonneg a). induction ctxs as [|c ctxs IH] using rev_ind.
  - change (@blen C []) with 0. rewrite Z.mul_0_l, Z.add_0_r, Z.min_l by lia. by rewrite rows_between_nil.
  - unfold ranges. rewrite imap_app, fmap_app, join_app. fold (ranges n ctxs). rewrite IH. cbn. rewrite app_nil_r, Nat.add_0_r, blen_app. change (blen [c]) with 1.
    fold (blen ctxs). pose proof (blen_nonneg ctxs).
    replace (Z.min (first + blen ctxs * chunk_size (blen a) n) (Z.min (first + (blen ctxs + 1) * chunk_size (blen a) n) (first + blen a)))
      with (Z.min (first + blen ctxs * chunk_size (blen a) n) (first + blen a)) by nia.
    apply rows_between_app; nia.
Qed.
End Ranges.

Lemma start_pscan bp s n ctxs : heap_rep first bp s a -> (forall q, view bp s q = V q) -> 0 < n ->
  pscan_inv (ranges n ctxs) (mkPSys (mkSys bp s (replicate (length ctxs) TIdle)) (start_workers first (st_pages s) n ctxs)).
Proof.
  intros Hr Hview Hn. pose proof (hr_idle _ _ _ _ Hr) as Hid. split; cbn.
  - by apply idle_threads.
  - exact Hview.
  - apply Hr.
  - apply Hid.
  - intros i f Hf _. by eapply (id_pins _ _ Hid).
  - unfold ranges. by rewrite length_replicate, length_imap.
  - unfold start_workers, ranges. by rewrite !length_imap.
  - intros k r t w Hk Ht Hw. apply lookup_replicate in Ht as [-> _]. unfold start_workers in Hw. rewrite list_lookup_imap in Hw.
    unfold ranges in Hk. rewrite list_lookup_imap in Hk. apply fmap_Some in Hw as (c & Hc & ->). rewrite Hc in Hk. cbn in Hk. injection Hk as <-.
    rewrite (hr_pages _ _ _ _ Hr). replace (first + blen a - first) with (blen a) by lia.
    split; cbn; try done; [lia|]. by rewrite rows_between_nil.
Qed.

(** Every worker done: the pool is as a sequential scan leaves it. *)
Lemma finished_heap rs bp s y : heap_rep first bp s a -> (forall q, view bp s q = V q) -> pscan_inv rs y -> forallb w_done (ps_workers y) = true ->
  heap_rep first (pool (ps_sys y)) (store (ps_sys y)) a.
Proof.
  intros Hr Hview Hy Hd. rewrite forallb_forall in Hd.
  assert (Hidle : Forall (fun t => t = TIdle) (threads (ps_sys y))).
  { apply Forall_lookup_2. intros k t Ht. destruct (lookup_lt_is_Some_2 (ps_workers y) k) as [w Hw].
    { rewrite (ps_len _ _ Hy), <- (ps_threads _ _ Hy). by eapply lookup_lt_Some. }
    destruct (lookup_lt_is_Some_2 rs k) as [r Hrk]; [rewrite <- (ps_len _ _ Hy); by eapply lookup_lt_Some|].
    pose proof (wi_at _ _ _ (ps_each _ _ Hy k r t w Hrk Ht Hw)) as Hat. specialize (Hd w (proj1 (list_elem_of_In _ _) (list_elem_of_lookup_2 _ _ _ Hw))).
    destruct t; cbn in Hat; [done|..]; destruct Hat as (_ & _ & Hx & _); congruence. }
  pose proof (threads_idle _ (ps_inv _ _ Hy) Hidle (ps_frames _ _ Hy) (ps_unpinned _ _ Hy)) as Hid.
  split; [done|apply Hy|apply Hr| |].
  - rewrite <- (hr_pages _ _ _ _ Hr). eapply st_pages_same; [apply Hr|done|]. intros q. by rewrite (ps_pages _ _ Hy), Hview.
  - intros i p Hi. rewrite (ps_pages _ _ Hy). by apply HV.
Qed.

(** ** Progress *)

Definition phase (t : thread) w : nat :=
  match t with TIdle => 0 | TLoading _ _ => 1 | TLoaded _ _ _ => 2 | THolding _ _ _ => if w_seen w then 4 else 3 end.

(** Steps left to a worker. *)
Definition steps_left (t : thread) w : nat :=
  if w_done w then 0 else 1 + 5 * Z.to_nat (w_hi w - w_lo w) - phase t w.

Definition work_left y : nat := sum_list (zip_with steps_left (threads (ps_sys y)) (ps_workers y)).

Lemma sum_list_insert_lt (l : list nat) k x x' : l !! k = Some x -> (x' < x)%nat -> (sum_list (<[k := x']> l) < sum_list l)%nat.
Proof.
  intros Hk Hx. apply list_elem_of_split_length in Hk as (l1 & l2 & -> & ->).
  rewrite insert_app_r_alt, Nat.sub_diag by done. cbn [insert list_insert]. rewrite !sum_list_with_app. cbn [sum_list_with id]. lia.
Qed.

Lemma put_work y k bp s t t' w w' : threads (ps_sys y) !! k = Some t -> ps_workers y !! k = Some w -> (steps_left t' w' < steps_left t w)%nat ->
  (work_left (put_worker y k bp s t' w') < work_left y)%nat.
Proof.
  intros Ht Hw Hlt. unfold work_left, put_worker. cbn [ps_sys ps_workers threads]. rewrite <- insert_zip_with.
  eapply sum_list_insert_lt; [|exact Hlt]. by rewrite lookup_zip_with, Ht, Hw.
Qed.

Lemma step_progress rs y k t w : Forall range_ok rs -> pscan_inv rs y -> threads (ps_sys y) !! k = Some t -> ps_workers y !! k = Some w -> w_done w = false ->
  (t = TIdle -> w_lo w < w_hi w -> (fetch_begin (pool (ps_sys y)) (store (ps_sys y)) (w_lo w)).2 <> FWait) ->
  exists y', fe_worker_step visit k y = Some y' /\ (work_left y' < work_left y)%nat.
Proof.
  intros Hrs Hy Ht Hw Hd Hwait. destruct (fe_worker_step_inv rs k y Hrs Hy) as (y' & Hs & _). exists y'. split; [done|].
  destruct (lookup_lt_is_Some_2 rs k) as [r Hr]; [rewrite <- (ps_len _ _ Hy); by eapply lookup_lt_Some|].
  pose proof (ps_each _ _ Hy k r t w Hr Ht Hw) as [_ _ _ Wat _ _]. unfold fe_worker_step in Hs. rewrite Ht, Hw in Hs.
  assert (Hput : forall bp s t' w', y' = put_worker y k bp s t' w' -> (steps_left t' w' < steps_left t w)%nat -> (work_left y' < work_left y)%nat).
  { intros bp s t' w' ->. by eapply put_work. }
  destruct t as [|i p|i p ok|i p b]; cbn [at_page] in Wat.
  - rewrite Hd in Hs. destruct (Z.ltb_spec (w_lo w) (w_hi w)) as [Hlt|Hge].
    + destruct (fetch_begin _ _ _) as [[bp s] f] eqn:Ef. injection Hs as <-. eapply Hput; [done|]. specialize (Hwait eq_refl Hlt). rewrite ?Ef in Hwait. cbn in Hwait.
      unfold steps_left. destruct f; cbn; rewrite ?Hd, ?Wat; try done; cbn [phase]; lia.
    + injection Hs as <-. eapply Hput; [done|]. unfold steps_left. cbn. rewrite Hd. lia.
  - destruct (fetch_read _ _ _ _) as [bp ok]. injection Hs as <-. eapply Hput; [done|]. destruct Wat as (_ & Hlt & _). unfold steps_left. rewrite Hd. cbn [phase]. lia.
  - destruct (fetch_end _ _ _) as [bp f]. injection Hs as <-. eapply Hput; [done|]. destruct Wat as (_ & Hlt & _ & Hseen). unfold steps_left.
    destruct f; cbn; rewrite Hd, ?Hseen; cbn [phase]; lia.
  - destruct Wat as (-> & Hlt & _ & _). destruct (w_seen w) eqn:Es.
    + injection Hs as <-. eapply Hput; [done|]. unfold steps_left. cbn. rewrite Hd, Es. lia.
    + apply bind_Some in Hs as (page & _ & Hs). apply bind_Some in Hs as (n & _ & Hs). apply bind_Some in Hs as ([c rc] & _ & [= <-]).
      eapply Hput; [done|]. unfold steps_left. cbn. rewrite Hd, Es. lia.
Qed.

Lemma users_exists ts i : 0 < users ts i -> exists k t, ts !! k = Some t /\ uses i t = true.
Proof.
  induction ts as [|t ts IH]; [cbn; lia|]. change (users (t :: ts) i) with ((if uses i t then 1 else 0) + users ts i).
  destruct (uses i t) eqn:E; [by exists 0%nat, t|]. intros Hu. destruct IH as (k & t' & Hk & Ht); [lia|]. by exists (Datatypes.S k), t'.
Qed.

(** A worker that waits, waits for a worker that reads. *)
Lemma wait_reader rs y p : pscan_inv rs y -> (fetch_begin (pool (ps_sys y)) (store (ps_sys y)) p).2 = FWait ->
  exists k t, threads (ps_sys y) !! k = Some t /\ (exists i q, t = TLoading i q \/ exists ok, t = TLoaded i q ok).
Proof.
  intros Hy Hf. unfold fetch_begin in Hf. destruct (find_frame _ _ ≫= _) as [[i f]|] eqn:Ef.
  - apply find_frame_Some in Ef as (Hl & Hv & _). destruct (io_pending f) eqn:Ep; [|done].
    pose proof (si_pend _ (ps_inv _ _ Hy) _ _ Hl Ep) as H1. rewrite (si_pins _ (ps_inv _ _ Hy) _ _ Hl Hv) in H1.
    destruct (users_exists (threads (ps_sys y)) i ltac:(lia)) as (k & t & Hk & Hu). exists k, t. split; [done|].
    pose proof (si_threads _ (ps_inv _ _ Hy) _ _ Hk) as Hok. destruct t as [|j q|j q ok|j q b]; cbn in Hu, Hok; [done|eauto|eauto|].
    apply Nat.eqb_eq in Hu as ->. destruct Hok as (g & Hg & _ & Hx & _). congruence.
  - destruct (pick_frame _ _) as [[b1 s1] r1]. repeat case_match; done.
Qed.

Lemma progress rs y : Forall range_ok rs -> pscan_inv rs y -> forallb w_done (ps_workers y) = false ->
  exists k y', fe_worker_step visit k y = Some y' /\ (work_left y' < work_left y)%nat.
Proof.
  intros Hrs Hy Hd.
  assert (Hex : exists k w, ps_workers y !! k = Some w /\ w_done w = false).
  { clear -Hd. induction (ps_workers y) as [|w ws IH]; [done|]. cbn in Hd. destruct (w_done w) eqn:E; [|by exists 0%nat, w].
    destruct (IH Hd) as (k & w' & Hk & Hw'). by exists (Datatypes.S k), w'. }
  destruct Hex as (k & w & Hw & Hdw). destruct (lookup_lt_is_Some_2 (threads (ps_sys y)) k) as [t Ht].
  { rewrite (ps_threads _ _ Hy), <- (ps_len _ _ Hy). by eapply lookup_lt_Some. }
  destruct (decide (t = TIdle /\ (fetch_begin (pool (ps_sys y)) (store (ps_sys y)) (w_lo w)).2 = FWait)) as [[-> Hf]|Hno].
  - destruct (wait_reader rs y _ Hy Hf) as (k' & t' & Ht' & Hshape). exists k'.
    destruct (lookup_lt_is_Some_2 (ps_workers y) k') as [w' Hw']; [rewrite (ps_len _ _ Hy), <- (ps_threads _ _ Hy); by eapply lookup_lt_Some|].
    destruct (lookup_lt_is_Some_2 rs k') as [r' Hr']; [rewrite <- (ps_len _ _ Hy); by eapply lookup_lt_Some|].
    pose proof (wi_at _ _ _ (ps_each _ _ Hy k' r' t' w' Hr' Ht' Hw')) as Hat.
    eapply step_progress; [done|done|exact Ht'|exact Hw'| |].
    + destruct Hshape as (i & q & [->|[ok ->]]); apply Hat.
    + intros ->. destruct Hshape as (i & q & [?|[ok ?]]); done.
  - exists k. eapply step_progress; [done|done|exact Ht|exact Hw|done|]. intros -> _ Hf. by apply Hno.
Qed.

(** No deadlock: from any state some schedule ends the scan. *)
Lemma run_workers_finish rs m : forall y, (work_left y < m)%nat -> Forall range_ok rs -> pscan_inv rs y ->
  exists sched y', run_workers visit sched y = Some y' /\ forallb w_done (ps_workers y') = true.
Proof.
  induction m as [|m IH]; intros y Hm Hrs Hy; [lia|]. destruct (forallb w_done (ps_workers y)) eqn:Hd; [by exists [], y|].
  destruct (progress rs y Hrs Hy Hd) as (k & y1 & Hs & Hlt). destruct (fe_worker_step_inv rs k y Hrs Hy) as (y1' & Hs' & Hy1).
  rewrite Hs in Hs'. injection Hs' as <-. destruct (IH y1 ltac:(lia) Hrs Hy1) as (sched & y2 & Hr & Hd2).
  exists (k :: sched), y2. split; [|done]. cbn [run_workers]. by rewrite Hs.
Qed.

Lemma run_workers_app s1 s2 y : run_workers visit (s1 ++ s2) y = y ← run_workers visit s1 y; run_workers visit s2 y.
Proof. revert y. induction s1 as [|k s1 IH]; intros y; [done|]. cbn [run_workers app]. destruct (fe_worker_step visit k y); [apply IH|done]. Qed.

(** ** A frame for every worker *)

(** With as many frames as threads, an idle thread leaves one of them unused. *)
Lemma free_frame (ts : list thread) k m : ts !! k = Some TIdle -> (length ts <= m)%nat -> exists j, (j < m)%nat /\ users ts j = 0.
Proof.
  intros Hk Hm. destruct (decide (Exists (fun j => users ts j = 0) (seq 0 m))) as [(j & Hj%elem_of_seq & Hu)%list.Exists_exists|Hno]; [exists j; split; [lia|done]|].
  exfalso. set (f j := default 0%nat (first_index (uses j) ts)).
  assert (Hf : forall j, (j < m)%nat -> exists t, ts !! f j = Some t /\ uses j t = true).
  { intros j Hj. unfold f. destruct (first_index (uses j) ts) as [i|] eqn:E; [apply first_index_Some in E; exact E|]. exfalso. apply Hno, list.Exists_exists.
    exists j. split; [apply elem_of_seq; lia|]. pose proof (users_nonneg ts j). destruct (decide (0 < users ts j)) as [Hp|]; [|lia].
    apply users_exists in Hp as (k' & t & Ht & Hu). by rewrite (first_index_None _ _ E _ _ Ht) in Hu. }
  assert (Hnd : NoDup (k :: (f <$> seq 0 m))).
  { constructor.
    - intros (j & E & Hj%elem_of_seq)%list_elem_of_fmap. destruct (Hf j ltac:(lia)) as (t & Ht & Hu). rewrite <- E, Hk in Ht. injection Ht as <-. done.
    - apply NoDup_fmap_2_strong; [|apply NoDup_seq]. intros i j Hi%elem_of_seq Hj%elem_of_seq E.
      destruct (Hf i ltac:(lia)) as (t & Ht & Hu), (Hf j ltac:(lia)) as (t' & Ht' & Hu'). rewrite E, Ht' in Ht. injection Ht as ->.
      destruct t; cbn in Hu, Hu'; [done|..]; apply Nat.eqb_eq in Hu, Hu'; congruence. }
  apply NoDup_submseteq with (k := seq 0 (length ts)) in Hnd.
  - apply submseteq_length in Hnd. cbn in Hnd. rewrite length_fmap, !length_seq in Hnd. lia.
  - intros x [->|(j & -> & Hj%elem_of_seq)%list_elem_of_fmap]%elem_of_cons; apply elem_of_seq; (split; [lia|]).
    + by eapply lookup_lt_Some.
    + destruct (Hf j ltac:(lia)) as (t & Ht & _). by eapply lookup_lt_Some.
Qed.

Lemma pick_frame_free bp s ts k : reliable S -> sys_inv (mkSys bp s ts) -> unpinned bp -> stealable bp = true ->
  ts !! k = Some TIdle -> (length ts <= length (frames bp))%nat -> exists bp' s' i, pick_frame bp s = (bp', s', Some i).
Proof.
  intros Hrel Hi Hun Hst Hk Hlen. pose proof (si_pool _ Hi) as Hp. unfold pick_frame.
  destruct (first_index _ (frames bp)) as [i|] eqn:Ef; [eauto|].
  pose proof (find_victim_spec bp) as Hv. fold (stealable bp) in Hv. rewrite Hst in Hv. destruct (find_victim bp) as [[i v]|].
  - destruct Hv as (Hv & [Hpin _] & _). pose proof (first_index_None _ _ Ef _ _ Hv) as Hval%negb_false_iff.
    pose proof (pi_frame _ _ _ Hp _ _ Hv) as (A & B & C' & D & E).
    assert (Hq : io_pending v = false). { destruct (io_pending v) eqn:Ep; [|done]. destruct (C' eq_refl) as (_ & _ & ? & _). lia. }
    destruct (E Hval Hq) as [Hs _]. destruct (Hrel s (page_id v) (data v) (pi_wf _ _ _ Hp) Hs A) as [Hw Hst'].
    destruct (dirty v); [|eauto]. destruct (no_steal bp && steal bp).
    + destruct (st_steal s (page_id v) (data v)) as [s1 ok]. cbn in Hst'. subst ok. eauto.
    + destruct (st_write s (page_id v) (data v)) as [s1 ok]. cbn in Hw. subst ok. eauto.
  - exfalso. destruct (free_frame ts k _ Hk Hlen) as (j & Hj & Hu). destruct (lookup_lt_is_Some_2 (frames bp) j Hj) as [g Hg].
    apply (Hv j g Hg). split; [|done]. pose proof (first_index_None _ _ Ef _ _ Hg) as Hval%negb_false_iff. by rewrite (si_pins _ Hi _ _ Hg Hval).
Qed.

Definition no_fail y : Prop :=
  (forall k i p ok, threads (ps_sys y) !! k = Some (TLoaded i p ok) -> ok = true) /\ Forall (fun w => w_rc w = 0) (ps_workers y).

Lemma put_no_fail y k bp s t w : no_fail y -> (forall i p ok, t = TLoaded i p ok -> ok = true) -> w_rc w = 0 -> no_fail (put_worker y k bp s t w).
Proof.
  intros [Ht Hw] Hok Hrc. split; cbn; [|by apply Forall_insert]. intros k' i p ok Hk. destruct (decide (k' = k)) as [->|Hne].
  - destruct (decide (k < length (threads (ps_sys y)))%nat); [rewrite list_lookup_insert_eq in Hk by done; injection Hk as ->; by eapply Hok|].
    rewrite list_insert_ge in Hk by lia. by eapply Ht.
  - rewrite list_lookup_insert_ne in Hk by done. by eapply Ht.
Qed.

Lemma fetch_begin_ok bp s ts k p d : reliable S -> sys_inv (mkSys bp s ts) -> unpinned bp -> stealable bp = true ->
  ts !! k = Some TIdle -> (length ts <= length (frames bp))%nat -> view bp s p = Some d -> (fetch_begin bp s p).2 <> FFail.
Proof.
  intros Hrel Hi Hun Hst Hk Hlen Hd. unfold fetch_begin. destruct (find_frame bp p ≫= _) as [[i f]|] eqn:Ef; [by destruct (io_pending f)|].
  assert (Hi' : sys_inv (mkSys (count_miss bp) s ts)) by (destruct Hi; split; done).
  destruct (pick_frame_free (count_miss bp) s ts k Hrel Hi' Hun Hst Hk Hlen) as (b1 & s1 & i & Ep). rewrite Ep.
  pose proof (pick_frame_spec _ (count_miss bp) s _ _ _ (si_pool _ Hi) Ep) as (Hi1 & Hv1 & (Hl & _ & Hpg) & _ & Hx).
  destruct (Hx i eq_refl) as (f & Hf & _). cbn [mbind option_bind]. rewrite Hf. cbn [fmap option_fmap option_map]. destruct (io_in_latch b1); [|done].
  assert (Hread : st_read s1 p = Some d); [|by rewrite Hread].
  rewrite <- Hd. unfold view. change (frames bp) with (frames (count_miss bp)). rewrite <- Hv1. symmetry. apply view_store.
  intros j g Hg Hvg Hp. by destruct (find_frame_None _ _ Ef j g (Hpg j g Hg Hvg) Hvg).
Qed.

Lemma step_no_fail rs k y y' : reliable S -> Forall range_ok rs -> pscan_inv rs y -> (length rs <= length (frames (pool (ps_sys y))))%nat ->
  no_fail y -> fe_worker_step visit k y = Some y' -> no_fail y' /\ length (frames (pool (ps_sys y'))) = length (frames (pool (ps_sys y))).
Proof.
  intros Hrel Hrs Hy Hlen Hnf Hs. unfold fe_worker_step in Hs. destruct (threads (ps_sys y) !! k) as [t|] eqn:Et; [|injection Hs as <-; done].
  destruct (ps_workers y !! k) as [w|] eqn:Ew; [|destruct t; injection Hs as <-; done].
  destruct (lookup_lt_is_Some_2 rs k) as [r Hr]; [rewrite <- (ps_len _ _ Hy); by eapply lookup_lt_Some|].
  pose proof (ps_each _ _ Hy k r t w Hr Et Ew) as [Whi Wlo _ Wat _ _]. pose proof (Forall_lookup_1 _ _ _ _ Hrs Hr) as [[R1 R2] R3].
  pose proof (Forall_lookup_1 _ _ _ _ (proj2 Hnf) Ew) as Hrc. cbn in Hrc.
  assert (Hpage : forall p, p = w_lo w -> w_lo w < w_hi w -> exists d, view (pool (ps_sys y)) (store (ps_sys y)) p = Some d).
  { intros p -> Hlt. rewrite (ps_pages _ _ Hy). destruct (lookup_lt_is_Some_2 a (Z.to_nat (w_lo w - first))) as [pg Hpg]; [unfold blen in R3; lia|].
    destruct (HV _ _ Hpg) as (d & Hd & _). exists d. rewrite <- Hd. f_equal. lia. }
  destruct t as [|i p|i p ok|i p b]; cbn [at_page] in Wat.
  - destruct (w_done w); [injection Hs as <-; done|]. destruct (Z.ltb_spec (w_lo w) (w_hi w)) as [Hlt|].
    + destruct (fetch_begin _ _ _) as [[bp s] f] eqn:Ef. injection Hs as <-. destruct (Hpage _ eq_refl Hlt) as [d Hd].
      pose proof (fetch_begin_ok (pool (ps_sys y)) (store (ps_sys y)) (threads (ps_sys y)) k (w_lo w) d Hrel) as Hok. rewrite Ef in Hok. cbn in Hok.
      assert (Hne : f <> FFail).
      { apply Hok; [|apply Hy|apply Hy|done|by rewrite (ps_threads _ _ Hy)|done]. pose proof (ps_inv _ _ Hy) as Hz. by destruct (ps_sys y). }
      split; [|cbn; by apply fetch_begin_kept in Ef as (_ & -> & _)]. apply put_no_fail; [done|by destruct f|by destruct f].
    + injection Hs as <-. split; [|done]. by apply put_no_fail.
  - destruct (fetch_read _ _ _ _) as [bp ok] eqn:Ef. injection Hs as <-. split; [|cbn; by apply fetch_read_kept in Ef as (_ & -> & _)].
    apply put_no_fail; [done| |done]. intros i' p' ok' [= _ _ <-]. destruct Wat as (-> & Hlt & _). destruct (Hpage _ eq_refl Hlt) as [d Hd].
    pose proof (si_threads _ (ps_inv _ _ Hy) _ _ Et) as (f & Hf & Hv & Hpe & Hp). unfold fetch_read in Ef. rewrite Hf in Ef.
    assert (Hread : st_read (store (ps_sys y)) (w_lo w) = Some d); [|rewrite Hread in Ef; by injection Ef].
    rewrite <- Hd. symmetry. apply view_store. intros j g Hg Hvg Hpg. assert (j = i) as ->; [|rewrite Hf in Hg; congruence].
    eapply (pi_dist _ _ _ (si_pool _ (ps_inv _ _ Hy))); [exact Hg|exact Hf|done|done|congruence].
  - destruct (fetch_end _ _ _) as [bp f] eqn:Ef. injection Hs as <-. split; [|cbn; by apply fetch_end_kept in Ef as (_ & -> & _)].
    pose proof (proj1 Hnf _ _ _ _ Et) as ->. pose proof (si_threads _ (ps_inv _ _ Hy) _ _ Et) as (g & Hg & _). unfold fetch_end in Ef. rewrite Hg in Ef.
    injection Ef as _ <-. by apply put_no_fail.
  - destruct (w_seen w).
    + injection Hs as <-. split; [by apply put_no_fail|]. cbn. by destruct (unpin_kept (pool (ps_sys y)) p false) as (_ & -> & _).
    + apply bind_Some in Hs as (page & _ & Hs). apply bind_Some in Hs as (n & _ & Hs). apply bind_Some in Hs as ([c rc] & _ & [= <-]). split; [|done]. by apply put_no_fail.
Qed.

Lemma run_no_fail rs sched : forall y y', reliable S -> Forall range_ok rs -> pscan_inv rs y -> (length rs <= length (frames (pool (ps_sys y))))%nat ->
  no_fail y -> run_workers visit sched y = Some y' -> no_fail y'.
Proof.
  induction sched as [|k sched IH]; intros y y' Hrel Hrs Hy Hlen Hnf Hr; cbn [run_workers] in Hr; [by injection Hr as <-|].
  destruct (fe_worker_step_inv rs k y Hrs Hy) as (y1 & Hs & Hy1). rewrite Hs in Hr. cbn [mbind option_bind] in Hr.
  destruct (step_no_fail rs k y y1 Hrel Hrs Hy Hlen Hnf Hs) as [Hnf1 Hlen1]. eapply IH; [done|exact Hrs|exact Hy1| |exact Hnf1|exact Hr]. by rewrite Hlen1.
Qed.

(** What the contexts hold when every worker has succeeded. *)
Lemma finished_ctxs rs y : pscan_inv rs y -> forallb w_done (ps_workers y) = true -> forallb (fun w => w_rc w =? 0) (ps_workers y) = true ->
  w_ctx <$> ps_workers y = (fun r => visit_rows r.2 (rows_between r.1.1 r.1.2)) <$> rs.
Proof.
  intros Hy Hd Hrc. apply list_eq_same_length with (n := length rs); [by rewrite length_fmap|by rewrite length_fmap, (ps_len _ _ Hy)|].
  intros k c c' Hk Hc Hc'. apply list_lookup_fmap_Some in Hc as (w & -> & Hw). apply list_lookup_fmap_Some in Hc' as (r & -> & Hr).
  destruct (lookup_lt_is_Some_2 (threads (ps_sys y)) k) as [t Ht]; [rewrite (ps_threads _ _ Hy); done|].
  destruct (ps_each _ _ Hy k r t w Hr Ht Hw) as [Whi _ Wctx Wat _ Wdone].
  rewrite forallb_forall in Hd, Hrc. pose proof (proj1 (list_elem_of_In _ _) (list_elem_of_lookup_2 _ _ _ Hw)) as Hin.
  specialize (Hd w Hin). specialize (Hrc w Hin). apply Z.eqb_eq in Hrc. rewrite Wctx. unfold upto.
  assert (Hseen : w_seen w = false) by (destruct t; cbn in Wat; [done|..]; destruct Wat as (_ & _ & Hx & _); congruence).
  by rewrite Hseen, (Wdone Hd Hrc), Whi.
Qed.
End Inv.

(** ** The scan as a whole *)

Definition accepted (pred : RID -> bytes -> option bool) (rows : list (RID * bytes)) : list RID :=
  (filter (fun e => pred e.1 e.2 = Some true) rows).*1.

Lemma accepted_app pred r1 r2 : accepted pred (r1 ++ r2) = accepted pred r1 ++ accepted pred r2.
Proof. unfold accepted. by rewrite list.filter_app, fmap_app. Qed.

Lemma visit_accepted pred rows : Forall (fun e => is_Some (pred e.1 e.2)) rows -> forall res,
  visit_rows (worker_visit pred) (Some res) rows = Some (res ++ accepted pred rows).
Proof.
  induction 1 as [|e rows [b Hb] _ IH]; intros res; [unfold accepted; cbn; by rewrite app_nil_r|].
  unfold visit_rows. cbn [foldl]. unfold worker_visit at 2. cbn [mbind option_bind]. rewrite Hb. cbn [mbind option_bind].
  fold (visit_rows (worker_visit pred)). change (foldl (fun c e => worker_visit pred e.1 e.2 c)) with (visit_rows (worker_visit pred)).
  rewrite IH. unfold accepted. rewrite filter_cons. rewrite Hb. destruct b.
  - rewrite decide_True by done. cbn. by rewrite <- app_assoc.
  - rewrite decide_False by done. done.
Qed.

Lemma rows_between_subset first a lo hi e : first <= lo -> e ∈ rows_between first a lo hi -> e ∈ aheap_rows first a.
Proof.
  intros Hl He. rewrite <- (take_drop (Z.to_nat (lo - first)) a), aheap_rows_app. apply elem_of_app. right. unfold rows_between in He.
  destruct (decide (Z.of_nat (length a) < lo - first)) as [Hlt|Hge].
  { rewrite (drop_ge a), take_nil in He by lia. by apply elem_of_nil in He. }
  replace (first + blen (take (Z.to_nat (lo - first)) a)) with lo by (unfold blen; rewrite length_take; lia).
  rewrite <- (take_drop (Z.to_nat (hi - lo)) (drop (Z.to_nat (lo - first)) a)), aheap_rows_app. apply elem_of_app. by left.
Qed.

Section Collect.
Context {S : Type} `{PageStoreLaws S} (first : Z) (a : aheap) (bp : BufferPool) (s : S) (nworkers : Z) (pred : RID -> bytes -> option bool).
Hypotheses (Hrel : reliable S) (Hrep : heap_rep first bp s a) (Hpred : Forall (fun e => is_Some (pred e.1 e.2)) (aheap_rows first a)).

Definition buffers (n : Z) : list (option (list RID)) := replicate (Z.to_nat n) (Some []).

Lemma ctxs_collect n : 0 < n ->
  mapM id ((fun r => visit_rows (worker_visit pred) r.2 (rows_between first a r.1.1 r.1.2)) <$> ranges first a n (buffers n)) =
  Some ((fun r => accepted pred (rows_between first a r.1.1 r.1.2)) <$> ranges first a n (buffers n)).
Proof.
  intros Hn. pose proof (ranges_ok first a n Hn (buffers n)) as Hok.
  assert (Hctx : Forall (fun r => r.2 = Some []) (ranges first a n (buffers n))).
  { apply Forall_lookup_2. intros i r Hr. unfold ranges in Hr. rewrite list_lookup_imap in Hr. apply fmap_Some in Hr as (c & Hc & ->).
    by apply lookup_replicate in Hc as [-> _]. }
  apply mapM_Some_2. apply Forall2_fmap, Forall_Forall2_diag. apply Forall_lookup_2. intros i r Hi.
  pose proof (Forall_lookup_1 _ _ _ _ Hctx Hi) as Hc. pose proof (Forall_lookup_1 _ _ _ _ Hok Hi) as Hr. cbn in Hc. unfold id. rewrite Hc, visit_accepted; [done|].
  rewrite list.Forall_forall in Hpred |- *. intros e He. apply Hpred. eapply rows_between_subset; [|exact He]. apply Hr.
Qed.

Lemma buffers_cover n : 0 < n -> mjoin ((fun r => accepted pred (rows_between first a r.1.1 r.1.2)) <$> ranges first a n (buffers n)) = accepted pred (aheap_rows first a).
Proof.
  intros Hn. rewrite <- rows_between_all. destruct (chunk_enough a n Hn) as [_ Hc].
  pose proof (ranges_cover first a n Hn (buffers n)) as Hr.
  replace (blen (buffers n)) with n in Hr by (unfold blen, buffers; rewrite length_replicate; lia).
  rewrite Z.min_r in Hr by lia. rewrite <- Hr. clear. induction (ranges first a n (buffers n)) as [|r l IH]; [done|].
  rewrite !fmap_cons, !join_cons. by rewrite IH, accepted_app.
Qed.

Definition start_collect (n : Z) : PSys :=
  mkPSys (mkSys bp s (replicate (Z.to_nat n) TIdle)) (start_workers first (st_pages s) n (buffers n)).

(** What joining gives after any schedule. *)
Definition collect_post (n : Z) (r : option (BufferPool * S * option (list RID))) : Prop :=
  forall bp' s' res, r = Some (bp', s', res) -> heap_rep first bp' s' a /\
    (res = None \/ res = Some (accepted pred (aheap_rows first a))) /\ (n <= blen (frames bp) -> res = Some (accepted pred (aheap_rows first a))).

Lemma collect_run n sched : 0 < n ->
  exists y r, run_workers (worker_visit pred) sched (start_collect n) = Some y /\ join_results y = Some r /\ collect_post n r /\
    (forallb w_done (ps_workers y) = true -> is_Some r) /\
    exists sched' y', run_workers (worker_visit pred) sched' y = Some y' /\ forallb w_done (ps_workers y') = true.
Proof.
  intros Hn. set (V := view bp s). assert (HV : forall (i : nat) p, a !! i = Some p -> exists d, V (first + Z.of_nat i) = Some d /\ page_refines d p) by apply Hrep.
  pose proof (ranges_ok first a n Hn (buffers n)) as Hok.
  pose proof (start_pscan (worker_visit pred) first a V bp s n (buffers n) Hrep ltac:(done) Hn) as Hy0.
  assert (Hlb : length (buffers n) = Z.to_nat n) by apply length_replicate. rewrite Hlb in Hy0. fold (start_collect n) in Hy0.
  destruct (run_workers_inv (worker_visit pred) first a V HV _ sched _ Hok Hy0) as (y & Hr & Hy).
  pose proof (run_workers_finish (worker_visit pred) first a V HV _ (Datatypes.S (work_left y)) y ltac:(lia) Hok Hy) as Hfin.
  assert (Hpost : exists r, join_results y = Some r /\ collect_post n r /\ (forallb w_done (ps_workers y) = true -> is_Some r)).
  2: { destruct Hpost as (r & Hj & Hp & Hs). by exists y, r. }
  unfold join_results. destruct (forallb w_done (ps_workers y)) eqn:Hd; [|exists None; split; [done|]; split; [done|done]].
  assert (Hheap : heap_rep first (pool (ps_sys y)) (store (ps_sys y)) a) by (by eapply (finished_heap (worker_visit pred) first a V HV)).
  destruct (forallb (fun w => w_rc w =? 0) (ps_workers y)) eqn:Hrc.
  - pose proof (finished_ctxs (worker_visit pred) first a V _ y Hy Hd Hrc) as Hc.
    change (mapM w_ctx (ps_workers y)) with (mapM (fun w => id (w_ctx w)) (ps_workers y)). rewrite <- mapM_fmap, Hc, ctxs_collect by done.
    cbn [mbind option_bind]. rewrite buffers_cover by done. eexists. split; [done|]. split; [|done]. intros ? ? ? [= <- <- <-]. auto.
  - eexists. split; [done|]. split; [|done]. intros ? ? ? [= <- <- <-]. split; [done|]. split; [by left|]. intros Hf. exfalso.
    apply Bool.not_true_iff_false in Hrc. apply Hrc, forallb_forall. intros w Hw. apply Z.eqb_eq.
    assert (Hnf : no_fail y).
    { eapply (run_no_fail (worker_visit pred) first a V HV); [done|exact Hok|exact Hy0| | |exact Hr].
      - unfold ranges. rewrite length_imap, Hlb. cbn. unfold blen in Hf. lia.
      - split; cbn; [intros k i p ok Hk; by apply lookup_replicate in Hk as [? _]|]. unfold start_workers. apply Forall_lookup_2. intros i w' Hi.
        rewrite list_lookup_imap in Hi. apply fmap_Some in Hi as (c & _ & ->). done. }
    destruct Hnf as [_ Hnf]. rewrite list.Forall_forall in Hnf. apply Hnf. by apply list_elem_of_In.
Qed.

Lemma parscan_collect_spec sched :
  exists r, parscan_collect (mkHeap first) bp s nworkers pred sched = Some r /\ collect_post (Z.max nworkers 1) r /\
    exists sched' out, parscan_collect (mkHeap first) bp s nworkers pred (sched ++ sched') = Some (Some out).
Proof.
  unfold parscan_collect. cbn [first_page]. pose proof (hr_pages _ _ _ _ Hrep) as Hnp. pose proof (blen_nonneg a) as Hna.
  destruct (Z.eqb_spec (if first <? st_pages s then st_pages s - first else 0) 0) as [E|E].
  - assert (a = []) as Hnil.
    { apply length_zero_iff_nil. rewrite Hnp in E. unfold blen in *. destruct (Z.ltb_spec first (first + Z.of_nat (length a))); lia. }
    eexists. split; [done|]. split; [|by exists [], (bp, s, Some [])]. intros ? ? ? [= <- <- <-]. split; [done|]. rewrite Hnil. auto.
  - set (total := if first <? st_pages s then st_pages s - first else 0) in *. set (n := clamp_workers nworkers total).
    assert (Hn : 0 < n <= Z.max nworkers 1) by (unfold n, total, clamp_workers in *; destruct (Z.ltb_spec first (st_pages s)); lia).
    fold (buffers n). fold (start_collect n).
    destruct (collect_run n sched ltac:(lia)) as (y & r & Hr & Hj & Hp & Hs & sched' & y' & Hr' & Hd').
    destruct (collect_run n (sched ++ sched') ltac:(lia)) as (y2 & r2 & Hr2 & Hj2 & _ & Hs2 & _).
    exists r. rewrite Hr. cbn [mbind option_bind]. split; [done|]. split.
    + intros bp' s' res Hres. destruct (Hp _ _ _ Hres) as (H1 & H2 & H3). split; [done|]. split; [done|]. intros Hf. apply H3. lia.
    + exists sched'. rewrite Hr2. cbn [mbind option_bind]. rewrite Hj2. rewrite run_workers_app, Hr in Hr2. cbn [mbind option_bind] in Hr2. rewrite Hr' in Hr2.
      injection Hr2 as <-. destruct (Hs2 Hd') as [out ->]. by exists out.
Qed.
End Collect.

(** C12. The parallel scan is the serial scan: whatever the number of workers and the
    interleaving of their steps through the shared buffer pool, when every worker has
    been joined the heap is unchanged and the merged result, unless a fetch failed, is
    exactly what one serial scan collects, in its order; with a frame for every worker
    no fetch fails; and no interleaving deadlocks. *)
Theorem parscan_collect_serial {S} `{PageStoreLaws S} (first : Z) (a : aheap) (bp : BufferPool) (s : S) (nworkers : Z)
    (pred : RID -> bytes -> option bool) (sched : list nat) :
  reliable S -> heap_rep first bp s a -> Forall (fun e => is_Some (pred e.1 e.2)) (aheap_rows first a) ->
  exists bp1 s1 rids, heap_scan (fun rid rec res => (worker_visit pred rid rec res, 0)) (mkHeap first) bp s (Some []) = Some (bp1, s1, Some rids, 0) /\
  exists r, parscan_collect (mkHeap first) bp s nworkers pred sched = Some r /\
    (forall bp' s' res, r = Some (bp', s', res) ->
       heap_rep first bp' s' a /\ (res = None \/ res = Some rids) /\ (Z.max nworkers 1 <= blen (frames bp) -> res = Some rids)) /\
    exists sched' out, parscan_collect (mkHeap first) bp s nworkers pred (sched ++ sched') = Some (Some out).
Proof.
  intros Hrel Hrep Hpred.
  destruct (heap_scan_spec (fun rid rec res => (worker_visit pred rid rec res, 0)) first bp s a (Some []) Hrel Hrep) as (bp1 & s1 & Hscan & _).
  rewrite visit_all_total in Hscan. pose proof (visit_accepted pred _ Hpred []) as Hacc. unfold visit_rows in Hacc. rewrite Hacc in Hscan. cbn [fst snd app] in Hscan.
  exists bp1, s1, (accepted pred (aheap_rows first a)). split; [exact Hscan|]. by apply parscan_collect_spec.
Qed.

(** Two workers on three pages, their steps interleaved. *)
Definition demo_rows : list heap_op := [HInsert [1; 2; 3]; HInsert (replicate 4084 5); HInsert [4; 5]].
Definition demo_pred (rid : RID) (rec : bytes) : option bool := Some (blen rec <? 10).
Definition demo_sched : list nat := [0; 1; 1; 0; 0; 1; 1; 0; 1; 0; 0; 1; 0; 0; 0; 0; 0; 0; 1]%nat.
Definition two_frames : BufferPool := mkPool (replicate 2 empty_frame) 0 0 0 false false false.
Definition demo_state : BufferPool * Pager :=
  match heap_run (mkHeap 0) two_frames demo_store demo_rows with Some (b, t, _) => (b, t) | None => (two_frames, demo_store) end.

Lemma demo_state_rep : exists a, heap_rep 0 demo_state.1 demo_state.2 a.
Proof.
  assert (Hwf : st_wf demo_store) by (apply pager_open_wf; [vm_compute; split; discriminate|constructor]).
  destruct (heap_run_spec 0 demo_rows two_frames demo_store [] pager_reliable (heap_empty_rep 2 _ _ eq_refl Hwf))
    as (bp & s & rooms & _ & _ & Hrun & Hr).
  { assert (Hok : forall rec, Forall is_byte rec -> blen rec < 5000 -> rec_ok rec) by (intros rec Hb Hl; split; [done|unfold SLOT_SIZE; lia]).
    constructor; [apply Hok; [repeat constructor; unfold is_byte; lia|vm_compute; reflexivity]|].
    constructor; [apply Hok; [apply Forall_replicate; unfold is_byte; lia|vm_compute; reflexivity]|].
    constructor; [apply Hok; [repeat constructor; unfold is_byte; lia|vm_compute; reflexivity]|constructor]. }
  unfold demo_state. rewrite Hrun. eexists. exact Hr.
Qed.

Lemma parscan_collect_serial_witness :
  exists a bp' s', heap_rep 0 demo_state.1 demo_state.2 a /\
    parscan_collect (mkHeap 0) demo_state.1 demo_state.2 2 demo_pred demo_sched = Some (Some (bp', s', Some [mkRID 0 0; mkRID 2 0])) /\ heap_rep 0 bp' s' a.
Proof.
  destruct demo_state_rep as [a Hr].
  destruct (parscan_collect_serial 0 a demo_state.1 demo_state.2 2 demo_pred demo_sched pager_reliable Hr) as (bp1 & s1 & rids & Hscan & r & Hpar & Hpost & _).
  { apply list.Forall_forall. intros e _. by eexists. }
  assert (Hfin : (r ← parscan_collect (mkHeap 0) demo_state.1 demo_state.2 2 demo_pred demo_sched; Some (bool_decide (r = None))) = Some false) by (vm_compute; reflexivity).
  rewrite Hpar in Hfin. destruct r as [[[b t] c]|]; [|discriminate Hfin]. destruct (Hpost b t c eq_refl) as (Hh & _ & Hres).
  assert (Hf : Z.max 2 1 <= blen (frames demo_state.1)) by (vm_compute; discriminate). rewrite (Hres Hf) in Hpar.
  apply (f_equal (fmap (fun x => x.1.2))) in Hscan.
  assert (Hrids : (fun x => x.1.2) <$> heap_scan (fun rid rec res => (worker_visit demo_pred rid rec res, 0)) (mkHeap 0) demo_state.1 demo_state.2 (Some []) =
    Some (Some [mkRID 0 0; mkRID 2 0])) by (vm_compute; reflexivity).
  rewrite Hrids in Hscan. injection Hscan as <-. exists a, b, t. split; [exact Hr|]. split; [exact Hpar|exact Hh].
Defined.

(** ** Scans with a context per worker *)

Section Foreach.
Context {S : Type} `{PageStoreLaws S} {C : Type} (visit : RID -> bytes -> C -> C) (first : Z) (a : aheap) (bp : BufferPool) (s : S).
Hypotheses (Hrel : reliable S) (Hrep : heap_rep first bp s a).

(** Each context has seen a part of the rows, the parts in order being all of them. *)
Definition shared_out (ctxs cs : list C) : Prop :=
  exists parts, mjoin parts = aheap_rows first a /\ length parts = length ctxs /\ cs = zip_with (visit_rows visit) ctxs parts.

Lemma visit_ranges n ctxs : 0 < n -> blen ctxs = n ->
  shared_out ctxs ((fun r => visit_rows visit r.2 (rows_between first a r.1.1 r.1.2)) <$> ranges first a n ctxs).
Proof.
  intros Hn Hl. exists ((fun r => rows_between first a r.1.1 r.1.2) <$> ranges first a n ctxs). destruct (chunk_enough a n Hn) as [_ Hc].
  split; [|split].
  - rewrite (ranges_cover first a n Hn), Hl, Z.min_r by lia. apply rows_between_all.
  - unfold ranges. by rewrite length_fmap, length_imap.
  - assert (Hsnd : (ranges first a n ctxs).*2 = ctxs).
    { unfold ranges. clear. assert (Hg : forall g : nat -> Z * Z, (imap (fun i c => (g i, c)) ctxs).*2 = ctxs); [|exact (Hg _)].
      induction ctxs as [|c l IH]; intros g; [done|]. cbn. f_equal. exact (IH (g ∘ Datatypes.S)). }
    assert (Hz : forall l : list (Z * Z * C), (fun r => visit_rows visit r.2 (rows_between first a r.1.1 r.1.2)) <$> l =
      zip_with (visit_rows visit) l.*2 ((fun r => rows_between first a r.1.1 r.1.2) <$> l)); [|rewrite Hz; by rewrite Hsnd].
    induction l as [|r l IH]; [done|]. rewrite !fmap_cons. cbn [zip_with]. by rewrite <- IH.
Qed.

Definition start_foreach (n : Z) (ctxs : list C) : PSys :=
  mkPSys (mkSys bp s (replicate (Z.to_nat n) TIdle)) (start_workers first (st_pages s) n ctxs).

Lemma foreach_run n ctxs sched : 0 < n -> blen ctxs = n ->
  exists y, run_workers visit sched (start_foreach n ctxs) = Some y /\ length (ps_workers y) = length ctxs /\
    (forallb w_done (ps_workers y) = true -> heap_rep first (pool (ps_sys y)) (store (ps_sys y)) a /\
       (forallb (fun w => w_rc w =? 0) (ps_workers y) = true -> shared_out ctxs (w_ctx <$> ps_workers y))) /\
    exists sched' y', run_workers visit sched' y = Some y' /\ forallb w_done (ps_workers y') = true.
Proof.
  intros Hn Hl. set (V := view bp s). assert (HV : forall (i : nat) p, a !! i = Some p -> exists d, V (first + Z.of_nat i) = Some d /\ page_refines d p) by apply Hrep.
  pose proof (ranges_ok first a n Hn ctxs) as Hok.
  pose proof (start_pscan visit first a V bp s n ctxs Hrep ltac:(done) Hn) as Hy0.
  replace (length ctxs) with (Z.to_nat n) in Hy0 by (unfold blen in Hl; lia). fold (start_foreach n ctxs) in Hy0.
  destruct (run_workers_inv visit first a V HV _ sched _ Hok Hy0) as (y & Hr & Hy). exists y. split; [done|].
  split; [rewrite (ps_len _ _ _ _ _ _ Hy); unfold ranges; by rewrite length_imap|]. split.
  - intros Hd. split; [by eapply (finished_heap visit first a V HV)|]. intros Hrc. rewrite (finished_ctxs visit first a V _ y Hy Hd Hrc). by apply visit_ranges.
  - exact (run_workers_finish visit first a V HV _ (Datatypes.S (work_left y)) y ltac:(lia) Hok Hy).
Qed.

Lemma parscan_foreach_spec nworkers ctxs sched : Z.max nworkers 1 <= blen ctxs ->
  exists r, parscan_foreach visit (mkHeap first) bp s nworkers ctxs sched = Some r /\
    (forall bp' s' cs rc, r = Some (bp', s', cs, rc) -> heap_rep first bp' s' a /\ (rc <> 0 \/ shared_out ctxs cs)) /\
    exists sched' out, parscan_foreach visit (mkHeap first) bp s nworkers ctxs (sched ++ sched') = Some (Some out).
Proof.
  intros Hctx. unfold parscan_foreach. cbn [first_page]. pose proof (hr_pages _ _ _ _ Hrep) as Hnp. pose proof (blen_nonneg a) as Hna.
  destruct (Z.eqb_spec (if first <? st_pages s then st_pages s - first else 0) 0) as [E|E].
  - assert (a = []) as Hnil.
    { apply length_zero_iff_nil. rewrite Hnp in E. unfold blen in *. destruct (Z.ltb_spec first (first + Z.of_nat (length a))); lia. }
    eexists. split; [done|]. split; [|by exists [], (bp, s, ctxs, 0)]. intros ? ? ? ? [= <- <- <- <-]. split; [done|]. right.
    exists (replicate (length ctxs) []). rewrite Hnil. split; [|split; [apply length_replicate|]].
    + clear. induction (length ctxs) as [|k IH]; [done|]. cbn [replicate]. by rewrite join_cons, IH.
    + clear. induction ctxs as [|c l IH]; [done|]. cbn [length replicate zip_with]. by rewrite <- IH.
  - set (total := if first <? st_pages s then st_pages s - first else 0) in *. set (n := clamp_workers nworkers total).
    assert (Hn : 0 < n <= Z.max nworkers 1) by (unfold n, total, clamp_workers in *; destruct (Z.ltb_spec first (st_pages s)); lia).
    assert (Hread : mem_read ctxs 0 n = Some (take (Z.to_nat n) ctxs)).
    { destruct (mem_read_Some ctxs 0 n) as [bs Hbs]; [lia..|]. rewrite Hbs. by destruct (mem_read_inv _ _ _ _ Hbs) as (_ & _ & _ & ->). }
    rewrite Hread. cbn [mbind option_bind]. fold (start_foreach n (take (Z.to_nat n) ctxs)).
    assert (Hlen : blen (take (Z.to_nat n) ctxs) = n) by (unfold blen in *; rewrite length_take; lia).
    destruct (foreach_run n (take (Z.to_nat n) ctxs) sched ltac:(lia) Hlen) as (y & Hr & _ & Hy & sched' & y' & Hr' & Hd').
    assert (Hnext : exists sched' out, (y ← run_workers visit (sched ++ sched') (start_foreach n (take (Z.to_nat n) ctxs));
      if forallb w_done (ps_workers y) then Some (Some (pool (ps_sys y), store (ps_sys y), (w_ctx <$> ps_workers y) ++ drop (Z.to_nat n) ctxs,
        if forallb (fun w => w_rc w =? 0) (ps_workers y) then 0 else -1)) else Some None) = Some (Some out)).
    { exists sched'. destruct (foreach_run n (take (Z.to_nat n) ctxs) (sched ++ sched') ltac:(lia) Hlen) as (y2 & Hr2 & _).
      rewrite Hr2. cbn [mbind option_bind]. rewrite run_workers_app, Hr in Hr2. cbn [mbind option_bind] in Hr2. rewrite Hr' in Hr2. injection Hr2 as <-. rewrite Hd'. eauto. }
    rewrite Hr. cbn [mbind option_bind]. destruct (forallb w_done (ps_workers y)); eexists; (split; [done|]); (split; [|exact Hnext]); [|done].
    intros bp' s' cs rc [= <- <- <- <-]. destruct (Hy eq_refl) as [Hh Hc]. split; [done|].
    destruct (forallb (fun w => w_rc w =? 0) (ps_workers y)); [right|by left]. destruct (Hc eq_refl) as (parts & Hj & Hlp & Hcs).
    exists (parts ++ replicate (length (drop (Z.to_nat n) ctxs)) []). split; [|split].
    + rewrite join_app, Hj. clear. induction (length (drop (Z.to_nat n) ctxs)) as [|k IH]; [apply app_nil_r|]. cbn [replicate]. by rewrite join_cons.
    + rewrite length_app, length_replicate, Hlp, <- length_app, take_drop. done.
    + rewrite <- (take_drop (Z.to_nat n) ctxs) at 2. rewrite zip_with_app by done. rewrite <- Hcs. f_equal.
      clear. induction (drop (Z.to_nat n) ctxs) as [|c l IH]; [done|]. cbn [length replicate zip_with]. by rewrite <- IH.
Qed.
End Foreach.

(** ** What the executor needs from the parallel scan *)

Class ParallelScan (H : Type) `{RecordStore H} := {
  par_pages : H -> Z;
  par_collect : H -> Z -> (RID -> bytes -> option bool) -> list nat -> option (option (H * option (list RID)));
  par_foreach : forall {C}, (RID -> bytes -> C -> C) -> H -> Z -> list C -> list nat -> option (option (H * list C * Z)) }.

Class ParallelScanLaws (H : Type) `{ParallelScan H} `{!RecordStoreLaws H} := {
  law_par_collect : forall n h rows nworkers pred sched, rs_rep n h rows -> Forall (fun e => is_Some (pred e.1 e.2)) rows ->
    exists r, par_collect h nworkers pred sched = Some r /\
      (forall h' res, r = Some (h', res) -> rs_rep n h' rows /\ (res = None \/ res = Some (accepted pred rows))) /\
      exists sched' out, par_collect h nworkers pred (sched ++ sched') = Some (Some out);
  law_par_foreach : forall C (visit : RID -> bytes -> C -> C) n h rows nworkers ctxs sched, rs_rep n h rows -> Z.max nworkers 1 <= blen ctxs ->
    exists r, par_foreach visit h nworkers ctxs sched = Some r /\
      (forall h' cs rc, r = Some (h', cs, rc) -> rs_rep n h' rows /\
         (rc <> 0 \/ exists parts, mjoin parts = rows /\ length parts = length ctxs /\ cs = zip_with (visit_rows visit) ctxs parts)) /\
      exists sched' out, par_foreach visit h nworkers ctxs (sched ++ sched') = Some (Some out) }.

Section HeapScan.
Context {S : Type} `{PageStoreLaws S} (Hrel : reliable S).

#[export] Instance heap_parallel : ParallelScan (@heap_state S) := {
  par_pages h := st_pages h.2;
  par_collect h nworkers pred sched :=
    r ← parscan_collect (mkHeap 0) h.1 h.2 nworkers pred sched;
    Some ('(bp, s, res) ← r; Some ((bp, s), res));
  par_foreach C visit h nworkers ctxs sched :=
    r ← parscan_foreach visit (mkHeap 0) h.1 h.2 nworkers ctxs sched;
    Some ('(bp, s, cs, rc) ← r; Some ((bp, s), cs, rc)) }.

Lemma heap_parallel_laws : @ParallelScanLaws heap_state heap_store heap_parallel (heap_store_laws Hrel).
Proof.
  split.
  - intros n [bp s] rows nworkers pred sched (a & Hr & -> & Hn) Hp. cbn [fst snd] in *.
    destruct (parscan_collect_spec 0 a bp s nworkers pred Hrel Hr Hp sched) as (r & Hc & Hpost & sched' & out & Hfin).
    cbn [par_collect heap_parallel fst snd]. rewrite Hc. cbn [mbind option_bind]. eexists. split; [done|]. split.
    + intros h' res Hres. apply bind_Some in Hres as ([[bp' s'] c] & -> & [= <- <-]). destruct (Hpost _ _ _ eq_refl) as (Hh & Hcase & _).
      split; [by exists a|done].
    + exists sched'. destruct out as [[bp' s'] c]. rewrite Hfin. cbn [mbind option_bind]. eauto.
  - intros C visit n [bp s] rows nworkers ctxs sched (a & Hr & -> & Hn) Hc. cbn [fst snd] in *.
    destruct (parscan_foreach_spec visit 0 a bp s Hr nworkers ctxs sched Hc) as (r & Hf & Hpost & sched' & out & Hfin).
    cbn [par_foreach heap_parallel fst snd]. rewrite Hf. cbn [mbind option_bind]. eexists. split; [done|]. split.
    + intros h' cs rc Hres. apply bind_Some in Hres as ([[[bp' s'] c] k] & -> & [= <- <- <-]). destruct (Hpost _ _ _ _ eq_refl) as (Hh & Hcase).
      split; [by exists a|done].
    + exists sched'. destruct out as [[[bp' s'] c] k]. rewrite Hfin. cbn [mbind option_bind]. eauto.
Qed.
End HeapScan.
