(* ===== verification/Exec.v ===== *)
(** * The statement executor on one table (src/src/db.c: exec_insert, exec_delete, exec_update)

    A table is its schema, its heap, its primary-key index and its secondary
    indexes.  The executor is written against the interfaces of [Storage.v]; the
    transaction shell around it (locks, snapshots, the write transaction of the
    table) is [Txn.v], whose [Database] decides visibility here.  [None] is an
    access outside a buffer or an exhausted bound of a component; [buf] stands for
    the uninitialised page-sized buffer on the stack.  Rows printed to the output
    are a list, and error messages the return code -1. *)
From stdpp Require Import strings.
From S2P Require Import Prelude Page Pager BufPool Heap Lsm Btree SqlLex SqlParse Row Where Storage Lock Mvcc Txn.

(** ** Operations *)

Section Executor.
Context {H I J : Type} `{RecordStore H} `{MultiIndex I} `{MultiIndex J}.

Record SecIndex := mkSec { sec_name : bytes; sec_col : nat; sec_tree : J }.

Record Table := mkTable {
  t_schema : CreateStmt;
  t_heap : H;
  has_index : bool;
  t_index : I;
  t_sec : list SecIndex }.

Definition with_heap (t : Table) (h : H) : Table := mkTable (t_schema t) h (has_index t) (t_index t) (t_sec t).
Definition with_index (t : Table) (i : I) : Table := mkTable (t_schema t) (t_heap t) (has_index t) i (t_sec t).
Definition with_sec (t : Table) (s : list SecIndex) : Table := mkTable (t_schema t) (t_heap t) (has_index t) (t_index t) s.

(** The NOT NULL check; [pk] is true at a column that is the primary key. *)
Fixpoint nulls_ok (pk : bool) (cols : list ColumnDef) (vals : list Value) : bool :=
  match cols, vals with
  | c :: cols, v :: vals => if (pk || cd_not_null c) && is_null v then false else nulls_ok false cols vals
  | _, _ => true
  end.

(** Entries for a new version: in the primary-key index, then in each secondary index. *)
Definition pk_insert (t : Table) (row : list Value) (rid : RID) : option Table :=
  if has_index t then
    v ← row !! 0%nat;
    match v with
    | VAL_INT k => i ← ix_insert (t_index t) k (rid_encode rid); Some (with_index t i)
    | _ => Some t
    end
  else Some t.

Fixpoint sec_insert (secs : list SecIndex) (row : list Value) (rid : RID) : option (list SecIndex) :=
  match secs with
  | [] => Some []
  | s :: secs =>
      v ← row !! sec_col s;
      s ← match v with
          | VAL_INT k => b ← ix_insert (sec_tree s) k (rid_encode rid); Some (mkSec (sec_name s) (sec_col s) b)
          | _ => Some s
          end;
      secs ← sec_insert secs row rid;
      Some (s :: secs)
  end.

Definition index_row (t : Table) (row : list Value) (rid : RID) : option Table :=
  t ← pk_insert t row rid; secs ← sec_insert (t_sec t) row rid; Some (with_sec t secs).

(** [encode_row] of a version created by [txn], as the bytes handed to the heap. *)
Definition encode_new (t : Table) (row : list Value) (txn : Z) (buf : bytes) : option (option bytes) :=
  r ← encode_row (t_schema t) row txn 0 buf;
  match r with
  | None => Some None
  | Some (buf, len) => rec ← mem_read buf 0 len; Some (Some rec)
  end.

Definition exec_insert (db : Database) (t : Table) (vals : list Value) (buf : bytes) : option (Table * Z) :=
  if negb (nulls_ok (has_index t) (c_columns (t_schema t)) vals) then Some (t, -1)
  else
    r ← encode_new t vals (cur_txn db) buf;
    match r with
    | None => Some (t, -1)
    | Some rec =>
        '(h, rid) ← rs_insert (t_heap t) rec;
        match rid with
        | None => Some (with_heap t h, -1)
        | Some rid => t ← index_row (with_heap t h) vals rid; Some (t, 0)
        end
    end.

(** The row of a record, when the statement's transaction sees the version. *)
Definition visible_row (db : Database) (schema : CreateStmt) (rec : bytes) : option (option (list Value)) :=
  xmin ← db_rec_xmin rec;
  xmax ← db_rec_xmax rec;
  if rec_visible db xmin xmax then row ← decode_row schema rec; Some (Some row) else Some None.

(** [rec_visible], [decode_row] and [where_matches] in the order of the scan callbacks. *)
Definition matching_row (db : Database) (schema : CreateStmt) (tname : bytes) (w : Where) (rec : bytes) : option (option (list Value)) :=
  r ← visible_row db schema rec;
  match r with
  | None => Some None
  | Some row => m ← where_matches schema tname w row; Some (if (m : bool) then Some row else None)
  end.

Definition DML_MAX_ROWS : nat := 4096.

Definition collect_visit (db : Database) (schema : CreateStmt) (w : Where) (rid : RID) (rec : bytes) (ctx : option (list RID)) :
  option (list RID) * Z :=
  (rids ← ctx;
   r ← matching_row db schema (c_table schema) w rec;
   Some (if bool_decide (is_Some r) && bool_decide (length rids < DML_MAX_ROWS)%nat then rids ++ [rid] else rids), 0).

Definition collect_rids (db : Database) (t : Table) (w : Where) : option (Table * list RID) :=
  '(h, rids, _) ← rs_scan (collect_visit db (t_schema t) w) (t_heap t) (Some []);
  rids ← rids;
  Some (with_heap t h, rids).

Definition stamp_xmax (t : Table) (rid : RID) (xmax : Z) : option (Table * Z) :=
  '(h, r) ← rs_get (t_heap t) rid;
  match r with
  | None => Some (with_heap t h, -1)
  | Some rec =>
      rec ← put_le 4 rec 4 xmax;
      '(h, rc) ← rs_overwrite h rid rec;
      Some (with_heap t h, rc)
  end.

Fixpoint delete_rows (db : Database) (t : Table) (rids : list RID) : option Table :=
  match rids with
  | [] => Some t
  | rid :: rids => '(t, _) ← stamp_xmax t rid (cur_txn db); delete_rows db t rids
  end.

(** The number of rows reported comes with the return code. *)
Definition exec_delete (db : Database) (t : Table) (w : Where) : option (Table * Z * nat) :=
  '(t, rids) ← collect_rids db t w;
  t ← delete_rows db t rids;
  Some (t, 0, length rids).

(** The last column of that name. *)
Fixpoint last_col (cols : list ColumnDef) (name : bytes) (i : nat) (found : option nat) : option nat :=
  match cols with
  | [] => found
  | c :: cols => last_col cols name (S i) (if decide (cd_name c = name) then Some i else found)
  end.

Definition update_row (db : Database) (t : Table) (sci : nat) (v : Value) (rid : RID) (buf : bytes) : option (Table * bool) :=
  '(h, r) ← rs_get (t_heap t) rid;
  let t := with_heap t h in
  match r with
  | None => Some (t, false)
  | Some rec =>
      row ← decode_row (t_schema t) rec;
      let row := <[sci := v]> row in
      r ← encode_new t row (cur_txn db) buf;
      match r with
      | None => Some (t, false)
      | Some rec =>
          '(t, _) ← stamp_xmax t rid (cur_txn db);
          '(h, newrid) ← rs_insert (t_heap t) rec;
          match newrid with
          | None => Some (with_heap t h, false)
          | Some newrid => t ← index_row (with_heap t h) row newrid; Some (t, true)
          end
      end
  end.

Fixpoint update_rows (db : Database) (t : Table) (sci : nat) (v : Value) (rids : list RID) (buf : bytes) : option (Table * nat) :=
  match rids with
  | [] => Some (t, 0%nat)
  | rid :: rids =>
      '(t, ok) ← update_row db t sci v rid buf;
      '(t, n) ← update_rows db t sci v rids buf;
      Some (t, if (ok : bool) then S n else n)
  end.

Definition exec_update (db : Database) (t : Table) (set_col : bytes) (set_val : Value) (w : Where) (buf : bytes) :
  option (Table * Z * nat) :=
  match last_col (c_columns (t_schema t)) set_col 0 None with
  | None => Some (t, -1, 0%nat)
  | Some sci =>
      c ← c_columns (t_schema t) !! sci;
      match cd_type c, set_val with
      | COL_INT, VAL_INT _ | COL_TEXT, VAL_TEXT _ =>
          '(t, rids) ← collect_rids db t w;
          '(t, n) ← update_rows db t sci set_val rids buf;
          Some (t, 0, n)
      | _, _ => Some (t, -1, 0%nat)
      end
  end.

(** CREATE INDEX: the new tree is filled from the rows the statement sees; [tree] is
    the freshly opened index file, [writer] the table's [writer_txn]. *)
Definition secidx_build_visit (db : Database) (schema : CreateStmt) (col : nat) (rid : RID) (rec : bytes) (ctx : option (J * nat)) : option (J * nat) * Z :=
  ('(b, count) ← ctx;
   r ← visible_row db schema rec;
   match r with
   | None => Some (b, count)
   | Some row =>
       v ← row !! col;
       match v with
       | VAL_INT k => b ← ix_insert b k (rid_encode rid); Some (b, S count)
       | _ => Some (b, count)
       end
   end, 0).

Definition DB_MAX_SEC_IDX : nat := 4.

Definition exec_create_index (db : Database) (t : Table) (writer : Z) (name column : bytes) (tree : option J) : option (Table * Z * nat) :=
  if negb (writer =? 0) then Some (t, -1, 0%nat)
  else
    match col_index (c_columns (t_schema t)) column with
    | None => Some (t, -1, 0%nat)
    | Some col =>
        c ← c_columns (t_schema t) !! col;
        match cd_type c with
        | COL_TEXT => Some (t, -1, 0%nat)
        | COL_INT =>
            if Nat.eqb col 0 && has_index t then Some (t, -1, 0%nat)
            else if bool_decide (DB_MAX_SEC_IDX <= length (t_sec t))%nat then Some (t, -1, 0%nat)
            else if existsb (fun s => bool_decide (sec_name s = name)) (t_sec t) then Some (t, -1, 0%nat)
            else
              match tree with
              | None => Some (t, -1, 0%nat)
              | Some b =>
                  '(h, r, _) ← rs_scan (secidx_build_visit db (t_schema t) col) (t_heap t) (Some (b, 0%nat));
                  '(b, count) ← r;
                  Some (with_sec (with_heap t h) (t_sec t ++ [mkSec name col b]), 0, count)
              end
        end
    end.

End Executor.

Arguments SecIndex : clear implicits.
Arguments Table : clear implicits.

(** ** The encoder writes bytes *)

Lemma encode_cols_bytes cols : forall vals i buf off buf' len,
  Forall is_byte buf -> Forall val_ok vals -> encode_cols cols vals i buf off = Some (Some (buf', len)) -> Forall is_byte buf'.
Proof.
  induction cols as [|c cols IH]; intros [|v vals] i buf off buf' len Hb Hv He; cbn [encode_cols] in He; [congruence..|].
  inversion_clear Hv as [|? ? Hv0 Hvs]. apply bind_Some in He as ([[b1 o1]|] & Hc & He); [|done]. eapply IH; [|exact Hvs|exact He]. clear He.
  destruct v as [z|s|]; cbn [encode_col] in Hc.
  - destruct (cd_type c); [|done]. apply bind_Some in Hc as (b2 & Hp & [= <- _]). by eapply put_le_bytes.
  - destruct (cd_type c); [done|]. apply bind_Some in Hc as (b2 & Hp & Hc). apply bind_Some in Hc as (src & Hs & Hc).
    apply bind_Some in Hc as (b3 & Hw & [= <- _]). eapply mem_write_Forall; [exact Hw|eapply put_le_bytes; [exact Hp|exact Hb]|].
    eapply mem_read_Forall; [exact Hs|]. destruct Hv0 as [_ Ht]. revert Ht. apply Forall_impl. unfold is_byte. cbn. lia.
  - apply bind_Some in Hc as (b & Hg & Hc). apply bind_Some in Hc as (b2 & Hp & [= <- _]). by eapply put_le_bytes.
Qed.

Lemma encode_row_bytes schema vals xmin xmax buf buf' len :
  Forall is_byte buf -> Forall val_ok vals -> encode_row schema vals xmin xmax buf = Some (Some (buf', len)) -> Forall is_byte buf'.
Proof.
  unfold encode_row. intros Hb Hv. destruct (negb _); [done|]. intros (b1 & H1 & He)%bind_Some.
  apply bind_Some in He as (b2 & H2 & He). apply bind_Some in He as (b3 & H3 & He). eapply encode_cols_bytes; [|exact Hv|exact He].
  eapply mem_write_Forall; [exact H3|eapply put_le_bytes; [exact H2|eapply put_le_bytes; [exact H1|exact Hb]]|].
  apply Forall_replicate. unfold is_byte. lia.
Qed.

(** A row that does not match is only read up to its first wrong value. *)
Fixpoint trim (cols : list ColumnDef) (vals : list Value) : list Value :=
  match cols, vals with
  | c :: cols, v :: vals =>
      if matches_col c v then v :: trim cols vals
      else (match cd_type c with COL_INT => VAL_TEXT [] | COL_TEXT => VAL_INT 0 end) :: replicate (length cols) VAL_NULL
  | _, _ => []
  end.

Lemma trim_spec cols : forall vals, length vals = length cols -> matches_row cols vals = false ->
  length (trim cols vals) = length cols /\ matches_row cols (trim cols vals) = false /\
  (Forall val_ok vals -> Forall val_ok (trim cols vals)) /\
  forall i buf off, encode_cols cols (trim cols vals) i buf off = encode_cols cols vals i buf off.
Proof.
  induction cols as [|c cols IH]; intros [|v vals] Hl Hm; try done. cbn [matches_row trim length] in *.
  destruct (matches_col c v) eqn:Ec; cbn [andb] in Hm.
  - destruct (IH vals ltac:(lia) Hm) as (H1 & H2 & H3 & H4). cbn [length matches_row encode_cols]. rewrite H1, Ec, H2. split; [done|]. split; [done|].
    split; [intros Hv; inversion_clear Hv; constructor; auto|]. intros i buf off. destruct (encode_col _ _ _ _ _) as [[[b o]|]|]; [apply H4|done..].
  - split; [cbn; by rewrite length_replicate|]. split; [cbn; unfold matches_col; by destruct (cd_type c)|]. split.
    + intros _. constructor; [destruct (cd_type c); cbn; [split; [unfold SQL_TEXT_LEN; lia|constructor]|done]|apply Forall_replicate; done].
    + intros i buf off. cbn [encode_cols]. unfold matches_col in Ec. destruct v as [z|s0|], (cd_type c); done.
Qed.

(** The largest row a schema allows. *)
Definition col_max (c : ColumnDef) : Z := match cd_type c with COL_INT => 4 | COL_TEXT => 257 end.
Definition max_size (cols : list ColumnDef) : Z := MVCC_HDR + null_bytes cols + foldr (fun c n => col_max c + n) 0 cols.

Lemma enc_nulls n : enc_body (replicate n VAL_NULL) = [].
Proof. induction n; [done|]. cbn [replicate]. by rewrite enc_body_cons, IHn. Qed.

Lemma col_max_nonneg cols : 0 <= foldr (fun c n => col_max c + n) 0 cols.
Proof. induction cols as [|c cols IH]; cbn [foldr]; [done|]. unfold col_max at 1. destruct (cd_type c); lia. Qed.

Lemma enc_val_max c v : matches_col c v = true -> val_ok v -> blen (enc_val v) <= col_max c.
Proof.
  unfold matches_col, col_max. intros Hc Hv. destruct v as [z|s|], (cd_type c); try done. destruct Hv as [Hl _]. cbn [enc_val].
  rewrite blen_app, blen_le_bytes. unfold blen, SQL_TEXT_LEN in *. lia.
Qed.

Lemma matches_size cols : forall row, matches_row cols row = true -> Forall val_ok row -> row_size cols row <= max_size cols.
Proof.
  intros row Hr Hv. unfold row_size, max_size. apply Z.add_le_mono_l.
  revert row Hr Hv. induction cols as [|c cols IH]; intros [|v row] Hr Hv; try done. cbn [matches_row] in Hr.
  apply andb_true_iff in Hr as [Hc Hr]. inversion_clear Hv as [|? ? Hv0 Hvs]. rewrite enc_body_cons, blen_app. cbn [foldr].
  specialize (IH row Hr Hvs). pose proof (enc_val_max c v Hc Hv0). lia.
Qed.

Lemma trim_size cols : forall row, Forall val_ok row -> row_size cols (trim cols row) <= max_size cols.
Proof.
  intros row Hv. unfold row_size, max_size. apply Z.add_le_mono_l.
  revert row Hv. induction cols as [|c cols IH]; intros [|v row] Hv; cbn [trim]; try done.
  { change (blen (enc_body [])) with 0. apply col_max_nonneg. }
  inversion_clear Hv as [|? ? Hv0 Hvs]. specialize (IH row Hvs). cbn [foldr]. pose proof (col_max_nonneg cols).
  destruct (matches_col c v) eqn:Ec; rewrite enc_body_cons, blen_app.
  - pose proof (enc_val_max c v Ec Hv0). lia.
  - rewrite enc_nulls. change (@blen Z []) with 0. unfold col_max at 1. destruct (cd_type c); cbn [enc_val]; rewrite ?blen_app, blen_le_bytes; change (@blen Z []) with 0; lia.
Qed.

Lemma encode_row_mismatch schema vals xmin xmax buf :
  blen (c_columns schema) <= Z.of_nat SQL_MAX_COLS -> max_size (c_columns schema) <= PAGE_SIZE -> blen buf = PAGE_SIZE -> Forall val_ok vals ->
  matches_row (c_columns schema) vals = false -> encode_row schema vals xmin xmax buf = Some None.
Proof.
  intros Hc Hm Hb Hv Hr. unfold encode_row. destruct (Z.eqb_spec (blen vals) (blen (c_columns schema))) as [Hl|Hl]; cbn [negb]; [|done].
  destruct (trim_spec (c_columns schema) vals ltac:(unfold blen in Hl; lia) Hr) as (Hl' & Hr' & Hv' & He).
  pose proof (encode_row_spec schema (trim (c_columns schema) vals) xmin xmax buf Hc Hb (Hv' Hv)) as Hs. rewrite Hr' in Hs.
  specialize (Hs (Z.le_trans _ _ _ (trim_size _ _ Hv) Hm)). unfold encode_row in Hs.
  replace (blen (trim (c_columns schema) vals)) with (blen (c_columns schema)) in Hs by (unfold blen; by rewrite Hl').
  rewrite Z.eqb_refl in Hs. cbn [negb] in Hs. rewrite <- Hs.
  destruct (put_le 4 buf 0 xmin) as [b1|]; [|done]. cbn [mbind option_bind]. destruct (put_le 4 b1 4 xmax) as [b2|]; [|done]. cbn [mbind option_bind].
  destruct (mem_write b2 _ _) as [b3|]; [|done]. cbn [mbind option_bind]. by rewrite He.
Qed.

(** ** Versions of rows *)

Record Version := mkVer { v_rid : RID; v_xmin : Z; v_xmax : Z; v_row : list Value }.

Definition is_i32 (z : Z) : Prop := - 2 ^ 31 <= z < 2 ^ 31.
Definition int_ok (v : Value) : Prop := match v with VAL_INT z => is_i32 z | _ => True end.

(** Rows of the schema's types, whose texts are C strings and whose integers are 32 bits wide. *)
Definition good_row (schema : CreateStmt) (row : list Value) : Prop :=
  matches_row (c_columns schema) row = true /\ Forall val_ok row /\ Forall int_ok row.

Definition stores (schema : CreateStmt) (v : Version) (e : RID * bytes) : Prop :=
  e.1 = v_rid v /\ row_rep schema (v_xmin v) (v_xmax v) (v_row v) (e.2) /\ good_row schema (v_row v) /\ is_i32 (v_xmin v) /\ is_i32 (v_xmax v).

Definition schema_ok (schema : CreateStmt) : Prop :=
  blen (c_columns schema) <= Z.of_nat SQL_MAX_COLS /\ max_size (c_columns schema) <= PAGE_SIZE /\ NoDup (cd_name <$> c_columns schema).

Lemma good_row_size schema row : schema_ok schema -> matches_row (c_columns schema) row = true -> Forall val_ok row ->
  row_size (c_columns schema) row <= PAGE_SIZE.
Proof.
  intros (_ & Hm & _) Hr Hv. etransitivity; [|exact Hm]. by apply matches_size.
Qed.

Lemma int_stored row : Forall int_ok row -> stored <$> row = row.
Proof.
  induction 1 as [|v row Hv _ IH]; [done|]. rewrite fmap_cons, IH. f_equal. destruct v as [z| |]; try done. cbn [stored]. f_equal.
  apply signed_small; [lia|exact Hv].
Qed.

Lemma val_cell row : Forall val_ok row -> Forall cell_ok row.
Proof. apply Forall_impl. intros [z|s|]; try done. intros [_ H]. revert H. apply Forall_impl. lia. Qed.

(** A statement sees a version; a version answers its WHERE. *)
Definition sees (db : Database) (v : Version) : bool := rec_visible db (v_xmin v) (v_xmax v).
Definition satisfies (schema : CreateStmt) (tname : bytes) (w : Where) (row : list Value) : bool :=
  default false (where_matches schema tname w row).
Definition hits (db : Database) (schema : CreateStmt) (tname : bytes) (w : Where) (v : Version) : bool :=
  sees db v && satisfies schema tname w (v_row v).

Lemma stores_decode schema v e : schema_ok schema -> stores schema v e -> decode_row schema e.2 = Some (v_row v).
Proof.
  intros Hs (_ & Hr & (Hm & Hv & Hi) & _). pose proof (good_row_size schema _ Hs Hm Hv) as Hsz.
  rewrite (row_rep_decode _ _ _ _ _ Hr Hm Hv), int_stored by (done || (destruct Hr as (? & _ & _ & _ & ->); done)). done.
Qed.

Lemma stores_visible db schema v e : schema_ok schema -> stores schema v e ->
  visible_row db schema e.2 = Some (if sees db v then Some (v_row v) else None).
Proof.
  intros Hs Hst. pose proof (stores_decode _ _ _ Hs Hst) as Hd. destruct Hst as (_ & Hr & _ & Hmin & Hmax).
  destruct (row_rep_head _ _ _ _ _ Hr Hmin Hmax) as [E1 E2]. unfold visible_row. rewrite E1, E2. cbn [mbind option_bind].
  unfold sees. destruct (rec_visible _ _ _); [|done]. by rewrite Hd.
Qed.

Lemma stores_matching db schema tname w v e : schema_ok schema -> stores schema v e ->
  matching_row db schema tname w e.2 = Some (if hits db schema tname w v then Some (v_row v) else None).
Proof.
  intros Hs Hst. unfold matching_row, hits. rewrite (stores_visible db _ _ _ Hs Hst). cbn [mbind option_bind].
  destruct (sees db v); [|done]. destruct Hst as (_ & _ & (_ & Hv & _) & _). unfold satisfies.
  destruct (where_matches_total schema tname w (v_row v)) as [b ->]; [by apply val_cell|]. done.
Qed.

(** Versions with [xmax] stamped; entries of an index on a column. *)
Definition with_xmax (x : Z) (v : Version) : Version := mkVer (v_rid v) (v_xmin v) x (v_row v).
Definition stamp_all (x : Z) (rids : list RID) (vs : list Version) : list Version :=
  (fun v => if decide (v_rid v ∈ rids) then with_xmax x v else v) <$> vs.

Definition key_of (col : nat) (v : Version) : option (Z * Z) :=
  match v_row v !! col with Some (VAL_INT k) => Some (k, rid_encode (v_rid v)) | _ => None end.
Definition keys_of (col : nat) (vs : list Version) : list (Z * Z) := omap (key_of col) vs.

Lemma keys_of_stamp col x rids vs : keys_of col (stamp_all x rids vs) = keys_of col vs.
Proof.
  unfold keys_of, stamp_all. induction vs as [|v vs IH]; [done|]. cbn [fmap list_fmap omap list_omap]. rewrite IH.
  destruct (decide _); done.
Qed.

Lemma stamp_all_rids x rids vs : v_rid <$> stamp_all x rids vs = v_rid <$> vs.
Proof. unfold stamp_all. rewrite <- list_fmap_compose. apply list_fmap_ext. intros i v _. cbn. by destruct (decide _). Qed.

Lemma matches_lookup cols row (i : nat) c v : matches_row cols row = true -> cols !! i = Some c -> row !! i = Some v -> matches_col c v = true.
Proof.
  revert row i. induction cols as [|c0 cols IH]; intros [|v0 row] [|i] Hm Hc Hv; try done; cbn in *; apply andb_true_iff in Hm as [H0 Hm]; [congruence|by eapply IH].
Qed.

Lemma matches_set cols row (i : nat) c v : matches_row cols row = true -> cols !! i = Some c -> matches_col c v = true ->
  matches_row cols (<[i := v]> row) = true.
Proof.
  revert row i. induction cols as [|c0 cols IH]; intros [|v0 row] [|i] Hm Hc Hv; try done; cbn in *; apply andb_true_iff in Hm as [H0 Hm].
  - injection Hc as ->. by rewrite Hv.
  - rewrite H0. cbn. by eapply IH.
Qed.

Lemma rid_encode_i64 rid : is_i64 (rid_encode rid).
Proof.
  unfold is_i64, rid_encode, i64, signed. pose proof (Z.mod_pos_bound (rid_page rid * 65536 + rid_slot rid) (2 ^ 64) ltac:(lia)).
  cbv zeta. destruct (Z.ltb_spec ((rid_page rid * 65536 + rid_slot rid) mod 2 ^ 64) (2 ^ (64 - 1))); lia.
Qed.

Definition addr_ok (rid : RID) : Prop := 0 <= rid_page rid < 2 ^ 47 /\ 0 <= rid_slot rid < 65536.

Lemma keys_of_fresh col vs k rid : Forall addr_ok (v_rid <$> vs) -> addr_ok rid -> rid ∉ v_rid <$> vs -> (k, rid_encode rid) ∉ keys_of col vs.
Proof.
  intros Hok [Hp Hs] Hn (v & Hv & Hk)%list_elem_of_omap. apply Hn. unfold key_of in Hk.
  assert (Hin : v_rid v ∈ v_rid <$> vs) by (by apply list_elem_of_fmap_2). rewrite list.Forall_forall in Hok. destruct (Hok _ Hin) as [Hp' Hs'].
  destruct (v_row v !! col) as [[z| |]|]; try done. injection Hk as _ Hk.
  rewrite <- (rid_decode_encode rid Hp Hs), <- Hk, rid_decode_encode by done. done.
Qed.

(** ** What a table holds *)

(** The part of a table that statements do not change. *)
Record Shape := mkShape { sh_schema : CreateStmt; sh_pk : bool; sh_sec : list (bytes * nat) }.

Definition shape_ok (sh : Shape) : Prop :=
  schema_ok (sh_schema sh) /\ (sh_pk sh = true -> (0 < length (c_columns (sh_schema sh)))%nat) /\
  Forall (fun s => (s.2 < length (c_columns (sh_schema sh)))%nat) (sh_sec sh).

Section Refinement.
Context {H I J : Type} `{RecordStoreLaws H} `{MultiIndexLaws I} `{MultiIndexLaws J}.

Definition shape (t : Table H I J) : Shape :=
  mkShape (t_schema t) (has_index t) ((fun s => (sec_name s, sec_col s)) <$> t_sec t).

Definition indexed {K} `{MultiIndexLaws K} (n : nat) (i : K) (col : nat) (vs : list Version) : Prop :=
  exists L, ix_rep n i L /\ L ≡ₚ keys_of col vs.

Definition indexes_hold (n : nat) (t : Table H I J) (vs : list Version) : Prop :=
  (has_index t = true -> indexed n (t_index t) 0 vs) /\ Forall (fun s => indexed n (sec_tree s) (sec_col s) vs) (t_sec t).

(** [n] more rows can certainly be inserted without exhausting a component. *)
Definition table_rep (sh : Shape) (n : nat) (t : Table H I J) (vs : list Version) : Prop :=
  shape t = sh /\ shape_ok sh /\
  (exists rows, rs_rep n (t_heap t) rows /\ Forall2 (stores (sh_schema sh)) vs rows) /\
  indexes_hold n t vs.

Lemma indexed_keys {K} `{MultiIndexLaws K} n (i : K) col vs vs' : keys_of col vs' ≡ₚ keys_of col vs -> indexed n i col vs -> indexed n i col vs'.
Proof. intros He (L & Hr & HL). exists L. split; [done|]. by rewrite He. Qed.

Lemma indexed_mono {K} `{MultiIndexLaws K} n m (i : K) col vs : (m <= n)%nat -> indexed n i col vs -> indexed m i col vs.
Proof. intros Hm (L & Hr & HL). exists L. split; [|done]. by eapply law_ix_mono. Qed.

Lemma indexes_keys n t vs vs' : (forall col, keys_of col vs' ≡ₚ keys_of col vs) -> indexes_hold n t vs -> indexes_hold n t vs'.
Proof.
  intros He [Hp Hs]. split; [intros Hi; eapply indexed_keys; [apply He|auto]|].
  revert Hs. apply Forall_impl. intros s. by apply indexed_keys.
Qed.

Lemma table_rep_mono sh n m t vs : (m <= n)%nat -> table_rep sh n t vs -> table_rep sh m t vs.
Proof.
  intros Hm (Hs & Hok & (rows & Hr & Hst) & Hi1 & Hi2). split; [done|]. split; [done|]. split.
  { exists rows. split; [by eapply law_rs_mono|done]. }
  split; [intros Hx; eapply indexed_mono; [done|auto]|]. revert Hi2. apply Forall_impl. intros s. by apply indexed_mono.
Qed.

Lemma stores_rids schema vs rows : Forall2 (stores schema) vs rows -> v_rid <$> vs = rows.*1.
Proof. induction 1 as [|v e vs rows Hv _ IH]; [done|]. rewrite !fmap_cons, IH. destruct Hv as [-> _]. done. Qed.

(** Row addresses are distinct and can be held by an index. *)
Lemma table_rids sh n t vs : table_rep sh n t vs -> NoDup (v_rid <$> vs) /\ Forall addr_ok (v_rid <$> vs).
Proof.
  intros (_ & _ & (rows & Hr & Hst) & _). destruct (law_rs_rows _ _ _ Hr) as [Hnd Hok]. rewrite (stores_rids _ _ _ Hst).
  split; [done|]. apply Forall_fmap. revert Hok. apply Forall_impl. intros e (Hp & Hs & _). by split.
Qed.

Lemma stores_elem schema vs rows v : Forall2 (stores schema) vs rows -> v ∈ vs -> exists rec, (v_rid v, rec) ∈ rows /\ stores schema v (v_rid v, rec).
Proof.
  intros Hst Hv. apply list_elem_of_lookup in Hv as [i Hi]. destruct (Forall2_lookup_l _ _ _ _ _ Hst Hi) as ([rid rec] & Hr & Hs).
  pose proof Hs as [E _]. cbn in E. subst rid. exists rec. split; [by eapply list_elem_of_lookup_2|done].
Qed.

(** ** Reading, scanning, stamping *)

(** A change of the heap that leaves the keys alone. *)
Lemma put_heap sh n t vs h' rows' vs' : table_rep sh n t vs -> rs_rep n h' rows' -> Forall2 (stores (sh_schema sh)) vs' rows' ->
  (forall col, keys_of col vs' = keys_of col vs) -> table_rep sh n (with_heap t h') vs'.
Proof.
  intros (Hs & Hok & _ & Hi) Hr Hst Hk. split; [done|]. split; [done|]. split; [by exists rows'|].
  eapply indexes_keys; [|exact Hi]. intros col. by rewrite Hk.
Qed.

Lemma get_rows sh n t vs v : table_rep sh n t vs -> v ∈ vs ->
  exists h' rec rows, rs_get (t_heap t) (v_rid v) = Some (h', Some rec) /\ stores (sh_schema sh) v (v_rid v, rec) /\
    (v_rid v, rec) ∈ rows /\ rs_rep n h' rows /\ Forall2 (stores (sh_schema sh)) vs rows.
Proof.
  intros (_ & _ & (rows & Hr & Hst) & _) Hv. destruct (stores_elem _ _ _ _ Hst Hv) as (rec & Hin & Hsv).
  destruct (law_rs_rows _ _ _ Hr) as [_ Hrow]. rewrite list.Forall_forall in Hrow. destruct (Hrow _ Hin) as (Hp & Hsl & _). cbn in Hp, Hsl.
  destruct (law_rs_get n (t_heap t) rows (v_rid v) Hr) as (h' & r & Hg & Hr' & Hx); [split; lia|].
  rewrite (proj2 (Hx rec) Hin) in Hg. by exists h', rec, rows.
Qed.

Lemma get_spec sh n t vs v : table_rep sh n t vs -> v ∈ vs ->
  exists h' rec, rs_get (t_heap t) (v_rid v) = Some (h', Some rec) /\ stores (sh_schema sh) v (v_rid v, rec) /\ table_rep sh n (with_heap t h') vs.
Proof.
  intros Hrep Hv. destruct (get_rows sh n t vs v Hrep Hv) as (h' & rec & rows & Hg & Hsv & _ & Hr & Hst).
  exists h', rec. split; [done|]. split; [done|]. by eapply put_heap.
Qed.

Lemma scan_spec {C} (g : RID -> bytes -> C -> C) sh n t vs ctx : table_rep sh n t vs ->
  exists h' rows, rs_scan (fun rid rec c => (g rid rec c, 0)) (t_heap t) ctx = Some (h', foldl (fun c e => g e.1 e.2 c) ctx rows, 0) /\
    Forall2 (stores (sh_schema sh)) vs rows /\ table_rep sh n (with_heap t h') vs.
Proof.
  intros (Hs & Hok & (rows & Hr & Hst) & Hi). destruct (law_rs_scan C (fun rid rec c => (g rid rec c, 0)) n (t_heap t) rows ctx Hr) as (h' & He & Hr').
  rewrite visit_all_total in He. exists h', rows. split; [done|]. split; [done|]. split; [done|]. split; [done|]. split; [by exists rows|done].
Qed.

Lemma stores_stamp schema v e x : schema_ok schema -> stores schema v e -> is_i32 x -> Forall is_byte e.2 ->
  exists rec', put_le 4 e.2 4 x = Some rec' /\ stores schema (with_xmax x v) (v_rid v, rec') /\ blen rec' = blen e.2 /\ Forall is_byte rec'.
Proof.
  intros Hs (E & Hr & Hg & Hmin & Hmax) Hx Hb. destruct (row_rep_stamp _ _ _ x _ _ Hr) as (rec' & Hp & Hr' & Hl).
  exists rec'. split; [done|]. split; [done|]. split; [done|]. by eapply put_le_bytes.
Qed.

Lemma stamp_rows schema x vs rows v rec' : Forall2 (stores schema) vs rows -> NoDup (v_rid <$> vs) -> v ∈ vs ->
  stores schema (with_xmax x v) (v_rid v, rec') ->
  Forall2 (stores schema) (stamp_all x [v_rid v] vs) (set_row (v_rid v) rec' rows).
Proof.
  intros Hst Hnd Hv Hs. unfold stamp_all, set_row. apply Forall2_fmap. 
  assert (Hsub : forall u, u ∈ vs -> v_rid u = v_rid v -> u = v).
  { intros u Hu E. apply list_elem_of_lookup in Hu as [i Hi]. apply list_elem_of_lookup in Hv as [j Hj].
    assert (i = j); [|congruence]. eapply (NoDup_lookup (v_rid <$> vs)); [done|rewrite list_lookup_fmap, Hi; cbn; by rewrite E|by rewrite list_lookup_fmap, Hj]. }
  clear Hnd Hv. induction Hst as [|u e vs rows Hu Hst IH]; constructor.
  - pose proof Hu as [E _]. destruct (decide (v_rid u = v_rid v)) as [Ev|Hne].
    + rewrite (Hsub u) by (done || left). rewrite decide_True by set_solver. rewrite decide_True by congruence. done.
    + rewrite decide_False by set_solver. rewrite decide_False by congruence. done.
  - apply IH. intros u' Hu'. apply Hsub. by right.
Qed.

Lemma stamp_spec sh n t vs v x : table_rep sh n t vs -> v ∈ vs -> is_i32 x ->
  exists t', stamp_xmax t (v_rid v) x = Some (t', 0) /\ table_rep sh n t' (stamp_all x [v_rid v] vs).
Proof.
  intros Hrep Hv Hx. pose proof (table_rids _ _ _ _ Hrep) as [Hnd _]. pose proof Hrep as (_ & [Hsch _] & _).
  destruct (get_rows sh n t vs v Hrep Hv) as (h1 & rec & rows & Hg & Hsv & Hin & Hr & Hst).
  destruct (law_rs_rows _ _ _ Hr) as [_ Hrow]. rewrite list.Forall_forall in Hrow. destruct (Hrow _ Hin) as (_ & _ & Hb).
  destruct (stores_stamp _ _ _ x Hsch Hsv Hx Hb) as (rec' & Hp & Hs' & Hl & Hb'). cbn [snd] in Hp.
  destruct (law_rs_overwrite n h1 rows (v_rid v) rec rec' Hr Hin Hl Hb') as (h2 & Ho & Hr2).
  unfold stamp_xmax. rewrite Hg. cbn [mbind option_bind]. rewrite Hp. cbn [mbind option_bind]. rewrite Ho. cbn [mbind option_bind].
  eexists. split; [done|]. eapply put_heap; [exact Hrep|exact Hr2|by apply stamp_rows|]. intros col. apply keys_of_stamp.
Qed.

(** ** DELETE *)

Definition matched (db : Database) (schema : CreateStmt) (w : Where) (vs : list Version) : list Version :=
  filter (fun v => hits db schema (c_table schema) w v = true) vs.

Definition targets (db : Database) (schema : CreateStmt) (w : Where) (vs : list Version) : list RID :=
  take DML_MAX_ROWS (v_rid <$> matched db schema w vs).

Lemma collect_fold db schema w vs rows : schema_ok schema -> Forall2 (stores schema) vs rows -> forall acc, (length acc <= DML_MAX_ROWS)%nat ->
  foldl (fun c e => (collect_visit db schema w e.1 e.2 c).1) (Some acc) rows =
  Some (acc ++ take (DML_MAX_ROWS - length acc) (v_rid <$> matched db schema w vs)).
Proof.
  intros Hs. unfold matched. induction 1 as [|v e vs rows Hv Hst IH]; intros acc Hl; [by rewrite filter_nil, fmap_nil, take_nil, app_nil_r|].
  cbn [foldl]. unfold collect_visit at 2. cbn [fst mbind option_bind]. rewrite (stores_matching db _ _ w _ _ Hs Hv). cbn [mbind option_bind].
  rewrite filter_cons. destruct (hits db schema (c_table schema) w v) eqn:Eh.
  - rewrite decide_True, bool_decide_eq_true_2 by done. cbn [andb]. case_bool_decide as Hlt.
    + rewrite IH by (rewrite length_app; cbn [length]; lia). rewrite length_app, <- app_assoc. cbn [length app].
      destruct Hv as [-> _]. rewrite fmap_cons. destruct (DML_MAX_ROWS - length acc)%nat as [|m] eqn:Em; [lia|]. cbn [take]. do 4 f_equal. lia.
    + rewrite IH by done. replace (DML_MAX_ROWS - length acc)%nat with 0%nat by lia. done.
  - rewrite decide_False by congruence. cbn [andb]. rewrite bool_decide_eq_false_2 by (by intros [? ?]). by apply IH.
Qed.

Lemma collect_rids_spec db sh n t vs w : table_rep sh n t vs ->
  exists t', collect_rids db t w = Some (t', targets db (sh_schema sh) w vs) /\ table_rep sh n t' vs.
Proof.
  intros Hrep. pose proof Hrep as (Hsh & [Hok _] & _). assert (Hs : t_schema t = sh_schema sh) by (by rewrite <- Hsh).
  destruct (scan_spec (fun rid rec c => (collect_visit db (t_schema t) w rid rec c).1) sh n t vs (Some []) Hrep) as (h' & rows & He & Hst & Hrep').
  rewrite Hs in He. rewrite (collect_fold db _ w _ _ Hok Hst) in He by (cbn [length]; lia).
  unfold collect_rids. rewrite Hs. change (rs_scan (collect_visit db (sh_schema sh) w)) with
    (rs_scan (fun rid rec c => ((collect_visit db (sh_schema sh) w rid rec c).1, 0))). rewrite He. cbn [mbind option_bind].
  exists (with_heap t h'). split; [|done]. by rewrite Nat.sub_0_r.
Qed.

Lemma stamp_all_app x r1 r2 vs : stamp_all x r2 (stamp_all x r1 vs) = stamp_all x (r1 ++ r2) vs.
Proof.
  unfold stamp_all. rewrite <- list_fmap_compose. apply list_fmap_ext. intros i v _. cbn [compose].
  destruct (decide (v_rid v ∈ r1)); cbn [v_rid with_xmax]; repeat case_decide; set_solver.
Qed.

Lemma rid_elem rid (vs : list Version) : rid ∈ v_rid <$> vs -> exists v, v ∈ vs /\ v_rid v = rid.
Proof. intros (v & -> & Hv)%list_elem_of_fmap. eauto. Qed.

Lemma delete_rows_spec db sh n rids : forall t vs, table_rep sh n t vs -> is_i32 (cur_txn db) -> rids ⊆ v_rid <$> vs ->
  exists t', delete_rows db t rids = Some t' /\ table_rep sh n t' (stamp_all (cur_txn db) rids vs).
Proof.
  induction rids as [|rid rids IH]; intros t vs Hrep Hx Hin.
  - exists t. split; [done|]. unfold stamp_all. rewrite (list_fmap_ext _ id); [by rewrite list_fmap_id|].
    intros i v _. by rewrite decide_False by (by intros ?%elem_of_nil).
  - destruct (rid_elem rid vs) as (v & Hv & <-); [set_solver|].
    destruct (stamp_spec sh n t vs v (cur_txn db) Hrep Hv Hx) as (t1 & Hs & Hrep1). cbn [delete_rows]. rewrite Hs. cbn [mbind option_bind].
    destruct (IH t1 _ Hrep1 Hx) as (t2 & Hd & Hrep2); [rewrite stamp_all_rids; set_solver|].
    exists t2. split; [done|]. by rewrite stamp_all_app in Hrep2.
Qed.

Lemma targets_rids db schema w vs : targets db schema w vs ⊆ v_rid <$> vs.
Proof. intros rid Hin%elem_of_take. destruct Hin as (i & Hi & _). apply list_elem_of_lookup_2, rid_elem in Hi as (v & Hv & <-).
  apply list_elem_of_filter in Hv as [_ Hv]. by apply list_elem_of_fmap_2. Qed.

Lemma delete_spec db sh n t vs w : table_rep sh n t vs -> is_i32 (cur_txn db) ->
  let rids := targets db (sh_schema sh) w vs in
  exists t', exec_delete db t w = Some (t', 0, length rids) /\ table_rep sh n t' (stamp_all (cur_txn db) rids vs).
Proof.
  intros Hrep Hx rids. destruct (collect_rids_spec db sh n t vs w Hrep) as (t1 & Hc & Hrep1).
  destruct (delete_rows_spec db sh n rids t1 vs Hrep1 Hx (targets_rids _ _ _ _)) as (t2 & Hd & Hrep2).
  exists t2. split; [|done]. unfold exec_delete. rewrite Hc. cbn [mbind option_bind]. fold rids. by rewrite Hd.
Qed.

(** ** INSERT *)

Lemma i32_i64 z : is_i32 z -> is_i64 z.
Proof. unfold is_i32, is_i64. lia. Qed.

(** The entry of a new version, when its column holds an integer. *)
Lemma indexed_add {K} `{MultiIndexLaws K} n (i : K) col vs v k : indexed (S n) i col vs -> v_row v !! col = Some (VAL_INT k) -> is_i32 k ->
  Forall addr_ok (v_rid <$> vs) -> addr_ok (v_rid v) -> v_rid v ∉ v_rid <$> vs ->
  exists i', ix_insert i k (rid_encode (v_rid v)) = Some i' /\ indexed n i' col (vs ++ [v]).
Proof.
  intros (L & Hr & HL) Hk Hk32 Hok Ha Hn.
  destruct (law_ix_insert n i L k (rid_encode (v_rid v)) Hr (i32_i64 _ Hk32) (rid_encode_i64 _)) as (i' & L' & Hi & HL' & Hr').
  { rewrite HL. by apply keys_of_fresh. }
  exists i'. split; [done|]. exists L'. split; [done|]. rewrite HL', HL. unfold keys_of. rewrite omap_app. cbn [omap list_omap].
  unfold key_of at 3. rewrite Hk. cbn [app]. apply Permutation_cons_append.
Qed.

Lemma indexed_skip {K} `{MultiIndexLaws K} n (i : K) col vs v : indexed (S n) i col vs -> key_of col v = None -> indexed n i col (vs ++ [v]).
Proof.
  intros Hi Hk. eapply indexed_mono; [|eapply indexed_keys; [|exact Hi]]; [lia|]. unfold keys_of. rewrite omap_app. cbn [omap list_omap].
  rewrite Hk. by rewrite app_nil_r.
Qed.

Section IndexRow.
Variables (vs : list Version) (v : Version) (n : nat).
Hypotheses (Hok : Forall addr_ok (v_rid <$> vs)) (Ha : addr_ok (v_rid v)) (Hn : v_rid v ∉ v_rid <$> vs) (Hint : Forall int_ok (v_row v)).

Lemma row_int col k : v_row v !! col = Some (VAL_INT k) -> is_i32 k.
Proof. intros Hk. exact (Forall_lookup_1 _ _ _ _ Hint Hk). Qed.

Lemma pk_insert_spec (t : Table H I J) : (has_index t = true -> indexed (S n) (t_index t) 0 vs) -> (has_index t = true -> (0 < length (v_row v))%nat) ->
  exists i', pk_insert t (v_row v) (v_rid v) = Some (with_index t i') /\ (has_index t = true -> indexed n i' 0 (vs ++ [v])).
Proof.
  intros Hi Hl. unfold pk_insert. destruct (has_index t) eqn:E; [|exists (t_index t); by destruct t].
  specialize (Hi eq_refl). destruct (lookup_lt_is_Some_2 (v_row v) 0 (Hl eq_refl)) as [x Hx]. rewrite Hx. cbn [mbind option_bind].
  assert (Hskip : key_of 0 v = None -> exists i', Some t = Some (with_index t i') /\ (true = true -> indexed n i' 0 (vs ++ [v]))).
  { intros Hk. exists (t_index t). split; [by destruct t|]. intros _. by apply indexed_skip. }
  destruct x as [k|s0|]; [|apply Hskip; unfold key_of; by rewrite Hx..].
  destruct (indexed_add n (t_index t) 0 vs v k Hi Hx (row_int _ _ Hx) Hok Ha Hn) as (i' & -> & Hi'). by exists i'.
Qed.

Lemma sec_insert_spec (secs : list (SecIndex J)) : Forall (fun s => indexed (S n) (sec_tree s) (sec_col s) vs) secs ->
  Forall (fun s => (sec_col s < length (v_row v))%nat) secs ->
  exists secs', sec_insert secs (v_row v) (v_rid v) = Some secs' /\ Forall (fun s => indexed n (sec_tree s) (sec_col s) (vs ++ [v])) secs' /\
    (fun s => (sec_name s, sec_col s)) <$> secs' = (fun s => (sec_name s, sec_col s)) <$> secs.
Proof.
  induction 1 as [|s secs Hs _ IH]; intros Hl; [by exists []|]. apply list.Forall_cons in Hl as [Hl0 Hl].
  destruct (IH Hl) as (secs' & He & Hi & Hsh). cbn [sec_insert]. destruct (lookup_lt_is_Some_2 (v_row v) _ Hl0) as [x Hx]. rewrite Hx. cbn [mbind option_bind].
  assert (Hskip : key_of (sec_col s) v = None -> exists secs', (s ← Some s; secs ← sec_insert secs (v_row v) (v_rid v); Some (s :: secs)) = Some secs' /\
    Forall (fun s => indexed n (sec_tree s) (sec_col s) (vs ++ [v])) secs' /\
    (fun s => (sec_name s, sec_col s)) <$> secs' = (sec_name s, sec_col s) :: ((fun s => (sec_name s, sec_col s)) <$> secs)).
  { intros Hk. cbn [mbind option_bind]. rewrite He. exists (s :: secs'). split; [done|]. split; [constructor; [by apply indexed_skip|done]|]. by rewrite fmap_cons, Hsh. }
  rewrite fmap_cons. destruct x as [k|s0|]; [|apply Hskip; unfold key_of; by rewrite Hx..].
  destruct (indexed_add n (sec_tree s) _ vs v k Hs Hx (row_int _ _ Hx) Hok Ha Hn) as (i' & -> & Hi'). cbn [mbind option_bind]. rewrite He.
  eexists. split; [done|]. split; [by constructor|]. by rewrite fmap_cons, Hsh.
Qed.

Lemma index_row_spec (t : Table H I J) : shape_ok (shape t) -> indexes_hold (S n) t vs -> length (v_row v) = length (c_columns (t_schema t)) ->
  exists t', index_row t (v_row v) (v_rid v) = Some t' /\ shape t' = shape t /\ t_heap t' = t_heap t /\ indexes_hold n t' (vs ++ [v]).
Proof.
  intros (_ & Hpk & Hsec) [Hi1 Hi2] Hl. cbn [shape sh_schema sh_pk sh_sec] in *.
  destruct (pk_insert_spec t Hi1) as (i' & Hp & Hi'); [by rewrite Hl|].
  destruct (sec_insert_spec (t_sec t) Hi2) as (secs' & Hs & Hsi & Hsh).
  { rewrite Forall_fmap in Hsec. revert Hsec. apply Forall_impl. cbn. intros s. by rewrite Hl. }
  unfold index_row. rewrite Hp. cbn [mbind option_bind]. change (t_sec (with_index t i')) with (t_sec t). rewrite Hs. cbn [mbind option_bind].
  eexists. split; [done|]. unfold shape. cbn. rewrite Hsh. split; [done|]. split; [done|]. by split.
Qed.
End IndexRow.

Lemma encode_new_spec (t : Table H I J) row txn buf : schema_ok (t_schema t) -> blen buf = PAGE_SIZE -> Forall is_byte buf -> Forall val_ok row ->
  if matches_row (c_columns (t_schema t)) row then
    exists rec, encode_new t row txn buf = Some (Some rec) /\ row_rep (t_schema t) txn 0 row rec /\ rec_ok rec
  else encode_new t row txn buf = Some None.
Proof.
  intros Hs Hb Hbb Hv. pose proof Hs as (Hc & Hm & _). unfold encode_new. destruct (matches_row _ _) eqn:E.
  - pose proof (encode_row_spec (t_schema t) row txn 0 buf Hc Hb Hv) as He. rewrite E in He.
    rewrite (proj2 (Z.leb_le _ _)) in He by (by apply good_row_size). destruct He as (buf' & rec & He & Hrd & Hr).
    rewrite He. cbn [mbind option_bind]. rewrite Hrd. cbn [mbind option_bind]. exists rec. split; [done|]. split; [done|]. split.
    + eapply mem_read_Forall; [exact Hrd|]. eapply encode_row_bytes; [exact Hbb|exact Hv|exact He].
    + destruct Hr as (_ & _ & _ & _ & ->). pose proof (good_row_size _ _ Hs E Hv). unfold SLOT_SIZE, PAGE_SIZE in *. lia.
  - by rewrite encode_row_mismatch.
Qed.

(** A new version is appended to the heap and indexed, or the heap has no room for it. *)
Lemma add_version sh n t vs row txn rec : table_rep sh (S n) t vs -> good_row (sh_schema sh) row -> is_i32 txn ->
  row_rep (sh_schema sh) txn 0 row rec -> rec_ok rec ->
  exists h' r, rs_insert (t_heap t) rec = Some (h', r) /\
    match r with
    | None => table_rep sh n (with_heap t h') vs
    | Some rid => exists t', index_row (with_heap t h') row rid = Some t' /\ table_rep sh n t' (vs ++ [mkVer rid txn 0 row])
    end.
Proof.
  intros Hrep Hg Ht Hr Hrec. pose proof (table_rids _ _ _ _ Hrep) as [Hnd Hok]. pose proof (table_rep_mono sh (S n) n t vs ltac:(lia) Hrep) as Hrep1.
  destruct Hrep as (Hsh & Hshok & (rows & Hrs & Hst) & Hi).
  destruct (law_rs_insert n (t_heap t) rows rec Hrs Hrec) as (h' & r & He & Hrs'). exists h', r. split; [done|].
  destruct r as [rid|]; cbn [new_row] in Hrs'.
  2: { rewrite app_nil_r in Hrs'. eapply put_heap; [exact Hrep1|exact Hrs'|exact Hst|done]. }
  destruct (law_rs_rows _ _ _ Hrs') as [Hnd' Hrow']. rewrite fmap_app, <- (stores_rids _ _ _ Hst) in Hnd'.
  apply list.NoDup_app in Hnd' as (_ & Hdis & _). apply list.Forall_app in Hrow' as [_ Hrow']. apply list.Forall_cons in Hrow' as [(Hp & Hsl & _) _].
  set (v := mkVer rid txn 0 row) in *.
  assert (Hfresh : v_rid v ∉ v_rid <$> vs) by (intros Hin; apply (Hdis _ Hin); cbn; set_solver).
  pose proof Hg as (Hgm & Hgv & Hgi).
  destruct (index_row_spec vs v n Hok (conj Hp Hsl) Hfresh Hgi (with_heap t h')) as (t' & Hix & Hsh' & Hh' & Hi').
  - change (shape (with_heap t h')) with (shape t). by rewrite Hsh.
  - exact Hi.
  - cbn [v_row v with_heap t_schema]. rewrite (matches_row_length _ _ Hgm). by rewrite <- Hsh.
  - exists t'. split; [exact Hix|]. split; [by rewrite Hsh'|]. split; [done|]. split; [|exact Hi'].
    rewrite Hh'. eexists. split; [exact Hrs'|]. apply Forall2_app; [done|]. constructor; [|constructor].
    split; [done|]. split; [done|]. split; [done|]. split; [done|]. unfold is_i32. cbn. lia.
Qed.

Definition new_version (r : option RID) (txn : Z) (row : list Value) : list Version :=
  match r with Some rid => [mkVer rid txn 0 row] | None => [] end.

Lemma insert_spec db sh n t vs vals buf : table_rep sh (S n) t vs -> is_i32 (cur_txn db) -> blen buf = PAGE_SIZE -> Forall is_byte buf ->
  Forall val_ok vals -> Forall int_ok vals ->
  let accepted := nulls_ok (sh_pk sh) (c_columns (sh_schema sh)) vals && matches_row (c_columns (sh_schema sh)) vals in
  exists t' (r : option RID), exec_insert db t vals buf = Some (t', if r then 0 else -1) /\
    table_rep sh n t' (vs ++ new_version r (cur_txn db) vals) /\ (accepted = false -> r = None /\ t' = t).
Proof.
  intros Hrep Hx Hb Hbb Hv Hi accepted. pose proof Hrep as (Hsh & [Hok _] & _).
  assert (Hs : t_schema t = sh_schema sh) by (by rewrite <- Hsh). assert (Hp : has_index t = sh_pk sh) by (by rewrite <- Hsh).
  assert (Hfail : accepted = false -> exec_insert db t vals buf = Some (t, -1) -> exists t' (r : option RID), exec_insert db t vals buf = Some (t', if r then 0 else -1) /\
    table_rep sh n t' (vs ++ new_version r (cur_txn db) vals) /\ (accepted = false -> r = None /\ t' = t)).
  { intros Ha He. exists t, None. split; [done|]. cbn [new_version]. rewrite app_nil_r. split; [|done]. eapply table_rep_mono; [|exact Hrep]. lia. }
  unfold accepted in *. unfold exec_insert in *. rewrite Hs, Hp in *. destruct (nulls_ok _ _ _) eqn:En; cbn [negb andb] in *; [|by apply Hfail].
  pose proof (encode_new_spec t vals (cur_txn db) buf) as Henc. rewrite Hs in Henc. specialize (Henc Hok Hb Hbb Hv).
  destruct (matches_row _ _) eqn:Em; [|rewrite Henc in *; by apply Hfail]. destruct Henc as (rec & Henc & Hr & Hrec). clear Hfail.
  rewrite Henc. cbn [mbind option_bind].
  destruct (add_version sh n t vs vals (cur_txn db) rec Hrep (conj Em (conj Hv Hi)) Hx Hr Hrec) as (h' & r & Hins & Hres). rewrite Hins. cbn [mbind option_bind].
  destruct r as [rid|].
  - destruct Hres as (t' & -> & Hrep'). by exists t', (Some rid).
  - exists (with_heap t h'), None. cbn [new_version]. rewrite app_nil_r. done.
Qed.

(** ** UPDATE *)

(** The new versions of the rows [us]; a row whose new version found no room has none. *)
Definition new_versions (txn : Z) (sci : nat) (val : Value) (rs : list (option RID)) (us : list Version) : list Version :=
  mjoin (zip_with (fun r u => new_version r txn (<[sci := val]> (v_row u))) rs us).

Definition stored_count (rs : list (option RID)) : nat := length (omap id rs).

Section Update.
Context (db : Database) (sh : Shape) (sci : nat) (c : ColumnDef) (val : Value) (buf : bytes).
Hypotheses (Hc : c_columns (sh_schema sh) !! sci = Some c) (Hty : matches_col c val = true) (Hv : val_ok val) (Hi : int_ok val).
Hypotheses (Hx : is_i32 (cur_txn db)) (Hb : blen buf = PAGE_SIZE) (Hbb : Forall is_byte buf).

Lemma set_good_row row : good_row (sh_schema sh) row -> good_row (sh_schema sh) (<[sci := val]> row).
Proof. intros (Hm & Hvs & His). split; [by eapply matches_set|]. split; by apply Forall_insert. Qed.

Lemma update_row_spec n t vs v : table_rep sh (S n) t vs -> v ∈ vs ->
  exists t' (r : option RID), update_row db t sci val (v_rid v) buf = Some (t', bool_decide (is_Some r)) /\
    table_rep sh n t' (stamp_all (cur_txn db) [v_rid v] vs ++ new_version r (cur_txn db) (<[sci := val]> (v_row v))).
Proof.
  intros Hrep Hin. pose proof Hrep as (Hsh & [Hok _] & _). assert (Hs : t_schema t = sh_schema sh) by (by rewrite <- Hsh).
  destruct (get_spec sh (S n) t vs v Hrep Hin) as (h1 & rec & Hg & Hst & Hrep1). unfold update_row. rewrite Hg. cbn [mbind option_bind t_schema with_heap].
  rewrite Hs. pose proof (stores_decode _ _ _ Hok Hst) as Hd. cbn [snd] in Hd. rewrite Hd. cbn [mbind option_bind].
  destruct Hst as (_ & _ & Hgood & _). pose proof (set_good_row _ Hgood) as Hgood'. pose proof Hgood' as (Hm' & Hv' & _).
  pose proof (encode_new_spec (with_heap t h1) (<[sci := val]> (v_row v)) (cur_txn db) buf) as Henc. cbn [t_schema with_heap] in Henc.
  rewrite Hs in Henc. specialize (Henc Hok Hb Hbb Hv'). rewrite Hm' in Henc. destruct Henc as (rec' & Henc & Hr' & Hrec').
  rewrite Henc. cbn [mbind option_bind]. destruct (stamp_spec sh (S n) _ vs v (cur_txn db) Hrep1 Hin Hx) as (t2 & Hst2 & Hrep2).
  rewrite Hst2. cbn [mbind option_bind]. destruct (add_version sh n t2 _ _ (cur_txn db) rec' Hrep2 Hgood' Hx Hr' Hrec') as (h3 & r & Hins & Hres).
  rewrite Hins. cbn [mbind option_bind]. destruct r as [rid|].
  - destruct Hres as (t' & -> & Hrep'). by exists t', (Some rid).
  - exists (with_heap t2 h3), None. cbn [new_version]. rewrite app_nil_r. done.
Qed.

Lemma stamp_all_ne x rids vs : (forall v, v ∈ vs -> v_rid v ∉ rids) -> stamp_all x rids vs = vs.
Proof.
  intros Hn. unfold stamp_all. rewrite <- (list_fmap_id vs) at 2. apply list_fmap_ext. intros i v Hiv.
  rewrite decide_False; [done|]. apply Hn. by eapply list_elem_of_lookup_2.
Qed.

Lemma update_rows_spec n us : forall t vs, table_rep sh (length us + n) t vs -> us ⊆ vs -> NoDup (v_rid <$> us) ->
  exists t' rs, update_rows db t sci val (v_rid <$> us) buf = Some (t', stored_count rs) /\ length rs = length us /\
    table_rep sh n t' (stamp_all (cur_txn db) (v_rid <$> us) vs ++ new_versions (cur_txn db) sci val rs us).
Proof.
  induction us as [|u us IH]; intros t vs Hrep Hin Hnd.
  { exists t, []. split; [done|]. split; [done|]. cbn [fmap list_fmap new_versions zip_with mjoin list_join]. rewrite app_nil_r.
    rewrite stamp_all_ne; [done|]. intros v _ ?%elem_of_nil. done. }
  rewrite fmap_cons in *. apply list.NoDup_cons in Hnd as [Hu Hnd]. cbn [length Nat.add] in Hrep.
  destruct (update_row_spec (length us + n) t vs u Hrep) as (t1 & r & Hup & Hrep1); [set_solver|].
  pose proof (table_rids _ _ _ _ Hrep1) as [Hnd1 _]. rewrite fmap_app, stamp_all_rids in Hnd1. apply list.NoDup_app in Hnd1 as (_ & Hdis & _).
  cbn [update_rows]. rewrite Hup. cbn [mbind option_bind].
  destruct (IH t1 _ Hrep1) as (t2 & rs & Hrest & Hlen & Hrep2); [|done|].
  { intros w Hw. apply elem_of_app. left. unfold stamp_all. apply list_elem_of_fmap. exists w. split; [|set_solver].
    rewrite decide_False; [done|]. intros Hr%list_elem_of_singleton. apply Hu. rewrite <- Hr. by apply list_elem_of_fmap_2. }
  rewrite Hrest. cbn [mbind option_bind]. exists t2, (r :: rs). split; [by destruct r|]. split; [cbn; lia|].
  assert (Hnew : stamp_all (cur_txn db) (v_rid <$> us) (new_version r (cur_txn db) (<[sci := val]> (v_row u))) = new_version r (cur_txn db) (<[sci := val]> (v_row u))).
  { apply stamp_all_ne. intros w Hw Hr. apply (Hdis (v_rid w)); [|by apply list_elem_of_fmap_2].
    apply rid_elem in Hr as (w' & Hw' & <-). apply list_elem_of_fmap_2. set_solver. }
  unfold stamp_all in Hrep2 at 1. rewrite fmap_app in Hrep2. fold (stamp_all (cur_txn db) (v_rid <$> us) (stamp_all (cur_txn db) [v_rid u] vs)) in Hrep2.
  fold (stamp_all (cur_txn db) (v_rid <$> us) (new_version r (cur_txn db) (<[sci := val]> (v_row u)))) in Hrep2.
  rewrite Hnew, stamp_all_app, <- app_assoc in Hrep2. exact Hrep2.
Qed.
End Update.

Lemma last_col_lookup cols name : forall i found j, last_col cols name i found = Some j ->
  found = Some j \/ exists c, (i <= j)%nat /\ cols !! (j - i)%nat = Some c /\ cd_name c = name.
Proof.
  induction cols as [|c cols IH]; intros i found j Hl; cbn [last_col] in Hl; [by left|].
  destruct (IH _ _ _ Hl) as [Hf|(c' & Hij & Hc & Hn)].
  - destruct (decide (cd_name c = name)); [|by left]. injection Hf as <-. right. exists c. rewrite Nat.sub_diag. done.
  - right. exists c'. split; [lia|]. destruct (j - i)%nat as [|m] eqn:Em; [lia|]. cbn. by replace m with (j - S i)%nat by lia.
Qed.

(** The column an UPDATE sets, when the statement is accepted. *)
Definition set_column (schema : CreateStmt) (set_col : bytes) (set_val : Value) : option nat :=
  sci ← last_col (c_columns schema) set_col 0 None;
  c ← c_columns schema !! sci;
  if matches_col c set_val && negb (is_null set_val) then Some sci else None.

Lemma update_spec db sh n t vs set_col set_val w buf : table_rep sh (DML_MAX_ROWS + n) t vs -> is_i32 (cur_txn db) -> blen buf = PAGE_SIZE ->
  Forall is_byte buf -> val_ok set_val -> int_ok set_val ->
  match set_column (sh_schema sh) set_col set_val with
  | None => exec_update db t set_col set_val w buf = Some (t, -1, 0%nat)
  | Some sci =>
      let us := take DML_MAX_ROWS (matched db (sh_schema sh) w vs) in
      exists t' rs, exec_update db t set_col set_val w buf = Some (t', 0, stored_count rs) /\ length rs = length us /\
        table_rep sh n t' (stamp_all (cur_txn db) (v_rid <$> us) vs ++ new_versions (cur_txn db) sci set_val rs us)
  end.
Proof.
  intros Hrep Hx Hb Hbb Hv Hi. pose proof Hrep as (Hsh & _). assert (Hs : t_schema t = sh_schema sh) by (by rewrite <- Hsh).
  unfold set_column, exec_update. rewrite Hs. destruct (last_col _ _ _ _) as [sci|] eqn:El; [|done]. cbn [mbind option_bind].
  destruct (last_col_lookup _ _ _ _ _ El) as [?|(c & _ & Hc & _)]; [done|]. rewrite Nat.sub_0_r in Hc. rewrite Hc. cbn [mbind option_bind].
  destruct (matches_col c set_val && negb (is_null set_val)) eqn:Em.
  2: { unfold matches_col in Em. destruct (cd_type c), set_val; done. }
  apply andb_true_iff in Em as [Em Enn]. cbn zeta. set (us := take DML_MAX_ROWS (matched db (sh_schema sh) w vs)).
  destruct (collect_rids_spec db sh _ t vs w Hrep) as (t1 & Hcol & Hrep1).
  assert (Hlen : (length us <= DML_MAX_ROWS)%nat) by (unfold us; rewrite length_take; lia).
  assert (Hus : us ⊆ vs). { intros u Hu. unfold us in Hu. apply elem_of_take in Hu as (k & Hk & _). apply list_elem_of_lookup_2, list_elem_of_filter in Hk as [_ Hk]. done. }
  pose proof (table_rids _ _ _ _ Hrep) as [Hnd _].
  destruct (update_rows_spec db sh sci c set_val buf Hc Em Hv Hi Hx Hb Hbb n us t1 vs) as (t2 & rs & Hup & Hl & Hrep2).
  - eapply table_rep_mono; [|exact Hrep1]. lia.
  - done.
  - eapply sublist_NoDup; [exact Hnd|]. apply fmap_sublist. unfold us. etransitivity; [apply sublist_take|apply sublist_filter].
  - unfold targets in Hcol. rewrite <- fmap_take in Hcol. fold us in Hcol. exists t2, rs. split; [|done].
    rewrite Hcol. cbn [mbind option_bind]. rewrite Hup. unfold matches_col in Em. destruct (cd_type c), set_val; done.
Qed.

(** ** CREATE INDEX *)

Definition seen (db : Database) (vs : list Version) : list Version := filter (fun v => sees db v = true) vs.

Definition adds (name : bytes) (col : nat) (sh : Shape) : Shape := mkShape (sh_schema sh) (sh_pk sh) (sh_sec sh ++ [(name, col)]).

Lemma build_fold db sh col n (b : J) vs rows : schema_ok (sh_schema sh) -> (col < length (c_columns (sh_schema sh)))%nat ->
  Forall2 (stores (sh_schema sh)) vs rows -> Forall addr_ok (v_rid <$> vs) -> NoDup (v_rid <$> vs) ->
  forall ws count, indexed (length vs + n) b col ws -> Forall addr_ok (v_rid <$> ws) -> (forall v, v ∈ vs -> v_rid v ∉ v_rid <$> ws) ->
  exists b', foldl (fun c e => (secidx_build_visit db (sh_schema sh) col e.1 e.2 c).1) (Some (b, count)) rows =
    Some (b', (count + length (keys_of col (seen db vs)))%nat) /\ indexed n b' col (ws ++ seen db vs).
Proof.
  intros Hs Hcol Hst. revert b. induction Hst as [|v e vs rows Hv Hst IH]; intros b Hok Hnd ws count Hix Hws Hdis.
  { exists b. cbn [foldl]. change (keys_of col (seen db [])) with (@nil (Z * Z)). unfold seen. rewrite filter_nil, app_nil_r. by rewrite Nat.add_0_r. }
  rewrite fmap_cons in Hok, Hnd. apply list.Forall_cons in Hok as [Ha Hok]. apply list.NoDup_cons in Hnd as [Hn Hnd]. cbn [length Nat.add] in Hix.
  cbn [foldl]. unfold secidx_build_visit at 2. cbn [fst mbind option_bind]. rewrite (stores_visible db _ _ _ Hs Hv). cbn [mbind option_bind]. unfold seen. rewrite filter_cons.
  pose proof Hv as (Hrid & _ & (Hm & _ & Hint) & _). rewrite Hrid.
  destruct (lookup_lt_is_Some_2 (v_row v) col) as [x Hx]; [by rewrite (matches_row_length _ _ Hm)|].
  assert (Hnext : forall b1 c1, indexed (length vs + n) b1 col (ws ++ [v]) ->
    exists b', foldl (fun c e => (secidx_build_visit db (sh_schema sh) col e.1 e.2 c).1) (Some (b1, c1)) rows =
      Some (b', (c1 + length (keys_of col (seen db vs)))%nat) /\ indexed n b' col (ws ++ v :: seen db vs)).
  { intros b1 c1 Hb1. destruct (IH b1 Hok Hnd (ws ++ [v]) c1 Hb1) as (b' & He & Hb').
    - rewrite fmap_app. apply list.Forall_app. split; [done|by constructor].
    - intros u Hu. rewrite fmap_app. intros [Hin|Hin]%elem_of_app; [by eapply Hdis; [right|]|]. apply list_elem_of_singleton in Hin.
      apply Hn. rewrite <- Hin. by apply list_elem_of_fmap_2.
    - exists b'. split; [done|]. by rewrite <- app_assoc in Hb'. }
  destruct (sees db v) eqn:Ev.
  - rewrite decide_True by done. fold (seen db vs). rewrite Hx. cbn [mbind option_bind].
    assert (Hkeys : keys_of col (v :: seen db vs) = match x with VAL_INT k => (k, rid_encode (v_rid v)) :: keys_of col (seen db vs) | _ => keys_of col (seen db vs) end).
    { unfold keys_of. cbn [omap list_omap]. unfold key_of at 1. rewrite Hx. by destruct x. }
    rewrite Hkeys. destruct x as [k|s0|].
    + destruct (indexed_add (length vs + n) b col ws v k Hix Hx (Forall_lookup_1 _ _ _ _ Hint Hx) Hws Ha) as (b1 & Hi & Hb1); [apply Hdis; left|].
      rewrite Hi. cbn [mbind option_bind length]. destruct (Hnext b1 (S count) Hb1) as (b' & He & Hb'). exists b'. rewrite He. split; [|done]. do 2 f_equal. lia.
    + apply Hnext. apply indexed_skip; [done|]. unfold key_of. by rewrite Hx.
    + apply Hnext. apply indexed_skip; [done|]. unfold key_of. by rewrite Hx.
  - rewrite decide_False by done. fold (seen db vs). apply (IH b Hok Hnd ws count); [eapply indexed_mono; [|exact Hix]; lia|done|]. intros u Hu. apply Hdis. by right.
Qed.

(** The index has an entry for every version the statement sees, and for no other. *)
Lemma create_index_spec db sh n t vs name column (b : J) col c : table_rep sh n t vs -> indexed (length vs + n) b col [] ->
  col_index (c_columns (sh_schema sh)) column = Some col -> c_columns (sh_schema sh) !! col = Some c -> cd_type c = COL_INT ->
  (sh_pk sh = true -> col <> 0%nat) -> (length (t_sec t) < DB_MAX_SEC_IDX)%nat -> name ∉ (sh_sec sh).*1 ->
  exists h' b', exec_create_index db t 0 name column (Some b) =
      Some (with_sec (with_heap t h') (t_sec t ++ [mkSec name col b']), 0, length (keys_of col (seen db vs))) /\
    table_rep sh n (with_heap t h') vs /\ indexed n b' col (seen db vs).
Proof.
  intros Hrep Hb Hcol Hc Hty Hpk Hmax Hname. pose proof (table_rids _ _ _ _ Hrep) as [Hnd Hok]. pose proof Hrep as (Hsh & [Hsok _] & _).
  assert (Hs : t_schema t = sh_schema sh) by (by rewrite <- Hsh). assert (Hp : has_index t = sh_pk sh) by (by rewrite <- Hsh).
  unfold exec_create_index. rewrite Hs, Hp, Hcol. cbn [negb Z.eqb]. rewrite Hc. cbn [mbind option_bind]. rewrite Hty.
  assert (Hz : Nat.eqb col 0 && sh_pk sh = false). { destruct (sh_pk sh); [|apply andb_false_r]. rewrite andb_true_r. apply Nat.eqb_neq. auto. }
  rewrite Hz, bool_decide_eq_false_2 by lia.
  assert (Hex : existsb (fun s => bool_decide (sec_name s = name)) (t_sec t) = false).
  { apply Bool.not_true_iff_false. intros (sx & Hin & Hx%bool_decide_eq_true)%existsb_exists. apply Hname. rewrite <- Hsh. cbn. rewrite <- list_fmap_compose.
    apply list_elem_of_fmap. exists sx. split; [done|]. by apply list_elem_of_In. }
  rewrite Hex.
  destruct (scan_spec (fun rid rec c => (secidx_build_visit db (sh_schema sh) col rid rec c).1) sh n t vs (Some (b, 0%nat)) Hrep) as (h' & rows & He & Hst & Hrep').
  destruct (build_fold db sh col n b vs rows Hsok (lookup_lt_Some _ _ _ Hc) Hst Hok Hnd [] 0%nat Hb) as (b' & Hf & Hb'); [constructor|intros v _ ?%elem_of_nil; done|].
  change (rs_scan (secidx_build_visit db (sh_schema sh) col)) with (rs_scan (fun rid rec c => ((secidx_build_visit db (sh_schema sh) col rid rec c).1, 0))).
  rewrite He, Hf. cbn [mbind option_bind]. exists h', b'. done.
Qed.

Lemma seen_all db vs : Forall (fun v => sees db v = true) vs -> seen db vs = vs.
Proof. unfold seen. induction 1 as [|v vs Hv _ IH]; [done|]. by rewrite filter_cons_True, IH. Qed.

(** When it sees every version, the table is complete again. *)
Lemma create_index_rep db sh n t vs name col (b' : J) : table_rep sh n t vs -> indexed n b' col (seen db vs) -> Forall (fun v => sees db v = true) vs ->
  (col < length (c_columns (sh_schema sh)))%nat -> table_rep (adds name col sh) n (with_sec t (t_sec t ++ [mkSec name col b'])) vs.
Proof.
  intros (Hsh & (Hok & Hpk & Hsec) & Hh & Hi1 & Hi2) Hb Hall Hcol. split; [unfold shape, adds; cbn; rewrite fmap_app, <- Hsh; done|].
  split; [split; [done|]; split; [done|]; apply list.Forall_app; split; [done|by constructor]|]. split; [done|]. split; [done|]. cbn [t_sec with_sec].
  apply list.Forall_app. split; [done|]. constructor; [|done]. cbn. by rewrite seen_all in Hb.
Qed.
End Refinement.
