(* ===== verification/Select.v ===== *)
(** * SELECT * on one table and its access paths (src/src/db.c: exec_select)

    The executor answers from the primary-key index, from a secondary index, by a
    parallel scan or by a serial scan.  The choice between index and scan for a key
    range is a cost estimate in floating point; it is an argument here, as are the
    number of workers and the schedule of the parallel scan.  The output is the list
    of rows printed, with the flag [used_index]. *)
From stdpp Require Import strings.
From S2P Require Import Prelude Page Pager BufPool Heap Lsm Btree SqlLex SqlParse Row Where Storage Parscan Lock Mvcc Txn Exec.

(** ** Operations *)

Section Select.
Context {H I J : Type} `{RecordStore H} `{!ParallelScan H} `{MultiIndex I} `{!RangeIndex I} `{MultiIndex J}.

Abbreviation rows_out := (list (list Value)).

(** A row is printed and counted. *)
Definition emit (out : rows_out) (r : option (list Value)) : rows_out := match r with Some row => out ++ [row] | None => out end.

Definition select_visit (db : Database) (schema : CreateStmt) (tname : bytes) (w : Where) (rid : RID) (rec : bytes) (ctx : option rows_out) :
  option rows_out * Z :=
  (out ← ctx; r ← matching_row db schema tname w rec; Some (emit out r), 0).

Definition select_scan (db : Database) (t : Table H I J) (tname : bytes) (w : Where) : option (Table H I J * rows_out) :=
  '(h, out, _) ← rs_scan (select_visit db (t_schema t) tname w) (t_heap t) (Some []);
  out ← out;
  Some (with_heap t h, out).

(** [point_visit], and [range_visit] past its tests on the key. *)
Definition point_visit (db : Database) (schema : CreateStmt) (key val : Z) (ctx : option (H * rows_out)) : option (H * rows_out) :=
  '(h, out) ← ctx;
  '(h, r) ← rs_get h (rid_decode val);
  match r with
  | None => Some (h, out)
  | Some rec => r ← visible_row db schema rec; Some (h, emit out r)
  end.

Definition range_visit (db : Database) (schema : CreateStmt) (op : CmpOp) (bound key val : Z) (ctx : option (H * rows_out)) : option (H * rows_out) * Z :=
  range_key op bound (point_visit db schema) key val ctx.

Definition sec_scan_visit (db : Database) (schema : CreateStmt) (tname : bytes) (w : Where) (key val : Z) (ctx : option (H * rows_out)) :
  option (H * rows_out) :=
  '(h, out) ← ctx;
  '(h, r) ← rs_get h (rid_decode val);
  match r with
  | None => Some (h, out)
  | Some rec => r ← matching_row db schema tname w rec; Some (h, emit out r)
  end.

Definition indexed_result (t : Table H I J) (r : option (option (H * rows_out))) : option (Table H I J * rows_out) :=
  r ← r; '(h, out) ← r; Some (with_heap t h, out).

(** ** The parallel scan *)

Definition PARSCAN_MIN_PAGES : Z := 16.

Definition has_sub (c : Condition) : bool := let 'mkCond _ _ _ _ _ _ _ sub _ := c in bool_decide (is_Some sub).
Definition where_has_subquery (w : Where) : bool := existsb (existsb has_sub) w.

Definition parsel_pred (db : Database) (schema : CreateStmt) (tname : bytes) (w : Where) (rid : RID) (rec : bytes) : option bool :=
  r ← matching_row db schema tname w rec; Some (bool_decide (is_Some r)).

(** The leader prints the rows of the collected addresses. *)
Fixpoint print_rids (schema : CreateStmt) (h : H) (rids : list RID) (out : rows_out) : option (H * rows_out) :=
  match rids with
  | [] => Some (h, out)
  | rid :: rids =>
      '(h, r) ← rs_get h rid;
      match r with
      | None => print_rids schema h rids out
      | Some rec => row ← decode_row schema rec; print_rids schema h rids (out ++ [row])
      end
  end.

(** [Some (Some (t, None))] tells the caller to scan serially; [Some None] is a
    schedule that leaves a worker running. *)
Definition parallel_fullscan (db : Database) (t : Table H I J) (tname : bytes) (w : Where) (nworkers : Z) (sched : list nat) :
  option (option (Table H I J * option rows_out)) :=
  if par_pages (t_heap t) <? PARSCAN_MIN_PAGES then Some (Some (t, None))
  else if where_has_subquery w then Some (Some (t, None))
  else
    r ← par_collect (t_heap t) nworkers (parsel_pred db (t_schema t) tname w) sched;
    match r with
    | None => Some None
    | Some (h, None) => Some (Some (with_heap t h, None))
    | Some (h, Some rids) => '(h, out) ← print_rids (t_schema t) h rids []; Some (Some (with_heap t h, Some out))
    end.

(** ** The choice of the access path *)

(** The only condition, as (table, column, operator, value, in_sub). *)
Definition single_cond (w : Where) : option (bytes * bytes * CmpOp * Value * bool) :=
  match w with
  | [[mkCond tbl col op val in_sub _ _ _ _]] => Some (tbl, col, op, val, in_sub)
  | _ => None
  end.

Definition for_table (tbl tname : bytes) : bool := bool_decide (tbl = []) || bool_decide (tbl = tname).

(** [pk_cond], with the operator and the constant. *)
Definition pk_cond (t : Table H I J) (tname : bytes) (w : Where) : option (CmpOp * Z) :=
  match single_cond w, c_columns (t_schema t) with
  | Some (tbl, col, op, VAL_INT k, false), c :: _ =>
      if has_index t && for_table tbl tname && bool_decide (col = cd_name c) then Some (op, k) else None
  | _, _ => None
  end.

Fixpoint find_sec (cols : list ColumnDef) (secs : list (SecIndex J)) (col : bytes) : option (SecIndex J) :=
  match secs with
  | [] => None
  | s :: secs => if decide (cd_name <$> cols !! sec_col s = Some col) then Some s else find_sec cols secs col
  end.

(** The secondary index with its key; the primary key takes precedence. *)
Definition sec_index_for (t : Table H I J) (tname : bytes) (w : Where) : option (SecIndex J * Z) :=
  match pk_cond t tname w, single_cond w with
  | None, Some (tbl, col, CMP_EQ, VAL_INT k, false) =>
      if for_table tbl tname then (fun s => (s, k)) <$> find_sec (c_columns (t_schema t)) (t_sec t) col else None
  | _, _ => None
  end.

Inductive plan := PointPlan (k : Z) | RangePlan (op : CmpOp) (k : Z) | SecPlan (s : SecIndex J) (k : Z) | ScanPlan.

Definition choose_plan (t : Table H I J) (tname : bytes) (w : Where) (range_use_idx : bool) : plan :=
  match pk_cond t tname w with
  | Some (CMP_EQ, k) => PointPlan k
  | Some (op, k) => if is_range op && range_use_idx then RangePlan op k else ScanPlan
  | None => match sec_index_for t tname w with Some (s, k) => SecPlan s k | None => ScanPlan end
  end.

(** [Some None]: the schedule leaves a worker of the parallel scan running. *)
Definition exec_select (db : Database) (t : Table H I J) (tname : bytes) (w : Where) (range_use_idx : bool) (nworkers : Z) (sched : list nat) :
  option (option (Table H I J * rows_out * bool)) :=
  match choose_plan t tname w range_use_idx with
  | PointPlan k =>
      '(t, out) ← indexed_result t (ix_find_all (t_index t) k (point_visit db (t_schema t)) (Some (t_heap t, [])));
      Some (Some (t, out, true))
  | RangePlan op k =>
      '(t, out) ← indexed_result t (ix_range (t_index t) op k (range_visit db (t_schema t) op k) (Some (t_heap t, [])));
      Some (Some (t, out, true))
  | SecPlan s k =>
      '(t, out) ← indexed_result t (ix_find_all (sec_tree s) k (sec_scan_visit db (t_schema t) tname w) (Some (t_heap t, [])));
      Some (Some (t, out, true))
  | ScanPlan =>
      r ← parallel_fullscan db t tname w nworkers sched;
      match r with
      | None => Some None
      | Some (t, Some out) => Some (Some (t, out, false))
      | Some (t, None) => '(t, out) ← select_scan db t tname w; Some (Some (t, out, false))
      end
  end.
End Select.

(** ** Answers *)

Section Answers.
Context {H I J : Type} `{RecordStoreLaws H} `{!ParallelScan H} `{!ParallelScanLaws H} `{MultiIndexLaws I} `{!RangeIndex I} `{!RangeIndexLaws I} `{MultiIndexLaws J}.
Implicit Types (t : Table H I J) (vs us : list Version).

(** The rows a statement sees and selects. *)
Definition answer (db : Database) (schema : CreateStmt) (tname : bytes) (w : Where) (vs : list Version) : list (list Value) :=
  v_row <$> filter (fun v => hits db schema tname w v = true) vs.

(** *** Scans *)

Lemma select_fold db schema tname w vs rows : schema_ok schema -> Forall2 (stores schema) vs rows -> forall out,
  foldl (fun c e => (select_visit db schema tname w e.1 e.2 c).1) (Some out) rows = Some (out ++ answer db schema tname w vs).
Proof.
  intros Hs. unfold answer. induction 1 as [|v e vs rows Hv Hst IH]; intros out; [by rewrite filter_nil, fmap_nil, app_nil_r|].
  cbn [foldl]. unfold select_visit at 2. cbn [fst mbind option_bind]. rewrite (stores_matching db _ _ w _ _ Hs Hv). cbn [mbind option_bind].
  rewrite IH, filter_cons. destruct (hits db schema tname w v); cbn [emit].
  - rewrite decide_True by done. by rewrite fmap_cons, <- app_assoc.
  - by rewrite decide_False.
Qed.

Lemma table_schema sh n t vs : table_rep sh n t vs -> t_schema t = sh_schema sh /\ schema_ok (sh_schema sh) /\ has_index t = sh_pk sh.
Proof. intros (Hsh & [Hok _] & _). split; [by rewrite <- Hsh|]. split; [done|]. by rewrite <- Hsh. Qed.

Lemma select_scan_spec db sh n t vs tname w : table_rep sh n t vs ->
  exists t', select_scan db t tname w = Some (t', answer db (sh_schema sh) tname w vs) /\ table_rep sh n t' vs.
Proof.
  intros Hrep. destruct (table_schema _ _ _ _ Hrep) as (Hs & Hok & _).
  destruct (scan_spec (fun rid rec c => (select_visit db (t_schema t) tname w rid rec c).1) sh n t vs (Some []) Hrep) as (h' & rows & He & Hst & Hrep').
  rewrite Hs in He. rewrite (select_fold db _ tname w _ _ Hok Hst) in He.
  unfold select_scan. rewrite Hs. change (rs_scan (select_visit db (sh_schema sh) tname w)) with
    (rs_scan (fun rid rec c => ((select_visit db (sh_schema sh) tname w rid rec c).1, 0))). rewrite He. cbn [mbind option_bind app]. by eexists.
Qed.

(** *** Lookups of versions by address *)

(** The entry of a version in an index on [col]. *)
Definition entry_of (col : nat) (v : Version) : Z * Z := default (0, rid_encode (v_rid v)) (key_of col v).

Definition key_sat (P : Z -> bool) (col : nat) (v : Version) : bool :=
  match v_row v !! col with Some (VAL_INT k) => P k | _ => false end.

Lemma keys_filter (Q : Z * Z -> Prop) `{!forall e, Decision (Q e)} (P : Z -> bool) col vs : (forall k x, Q (k, x) <-> P k = true) ->
  filter Q (keys_of col vs) = entry_of col <$> filter (fun v => key_sat P col v = true) vs.
Proof.
  intros HQ. unfold keys_of. induction vs as [|v vs IH]; [done|]. cbn [omap list_omap]. rewrite filter_cons.
  unfold key_of at 1. destruct (v_row v !! col) as [[k| |]|] eqn:E.
  2-4: rewrite decide_False; [exact IH|unfold key_sat; by rewrite E].
  assert (Hk : key_sat P col v = P k) by (unfold key_sat; by rewrite E). rewrite Hk, filter_cons. destruct (P k) eqn:Ep.
  - rewrite decide_True by (by apply HQ). rewrite decide_True by done. rewrite fmap_cons. f_equal; [|exact IH]. unfold entry_of, key_of. by rewrite E.
  - rewrite decide_False by (rewrite HQ; congruence). rewrite decide_False by done. exact IH.
Qed.

Lemma entry_rid col v : addr_ok (v_rid v) -> rid_decode (entry_of col v).2 = v_rid v.
Proof.
  intros [Hp Hs]. unfold entry_of, key_of. destruct (v_row v !! col) as [[k| |]|]; cbn; by apply rid_decode_encode.
Qed.

(** Entries of an index that satisfy a test on the key are those of some versions. *)
Lemma index_entries col vs (Q : Z * Z -> Prop) `{!forall e, Decision (Q e)} (P : Z -> bool) es L :
  L ≡ₚ keys_of col vs -> es ≡ₚ filter Q L -> (forall k x, Q (k, x) <-> P k = true) ->
  exists us, es = entry_of col <$> us /\ us ≡ₚ filter (fun v => key_sat P col v = true) vs.
Proof.
  intros HL Hes HQ. rewrite HL, (keys_filter Q P) in Hes by done. apply Permutation_map_inv in Hes as (us & -> & Hus). by exists us.
Qed.

Definition printed (pass : Version -> bool) us : list (list Value) := v_row <$> filter (fun v => pass v = true) us.

(** A callback that reads the version of an entry and prints it when it passes. *)
Lemma entries_fold (f : Z -> Z -> option (H * list (list Value)) -> option (H * list (list Value))) (pass : Version -> bool) sh n col vs :
  (forall t v h out, table_rep sh n t vs -> v ∈ vs -> t_heap t = h -> exists h', table_rep sh n (with_heap t h') vs /\
     f (entry_of col v).1 (entry_of col v).2 (Some (h, out)) = Some (h', if pass v then out ++ [v_row v] else out)) ->
  forall us t out, us ⊆ vs -> table_rep sh n t vs -> exists h', table_rep sh n (with_heap t h') vs /\
    foldl (fun c e => f e.1 e.2 c) (Some (t_heap t, out)) (entry_of col <$> us) = Some (h', out ++ printed pass us).
Proof.
  intros Hf. induction us as [|u us IH]; intros t out Hin Hrep.
  - exists (t_heap t). split; [by destruct t|]. unfold printed. cbn. by rewrite app_nil_r.
  - destruct (Hf t u (t_heap t) out Hrep) as (h1 & Hrep1 & He); [set_solver|done|]. rewrite fmap_cons. cbn [foldl]. rewrite He.
    destruct (IH (with_heap t h1) (if pass u then out ++ [v_row u] else out)) as (h2 & Hrep2 & He2); [set_solver|exact Hrep1|].
    exists h2. split; [exact Hrep2|]. cbn [t_heap with_heap] in He2. rewrite He2. f_equal. f_equal. unfold printed. rewrite filter_cons.
    destruct (pass u); [rewrite decide_True by done; by rewrite fmap_cons, <- app_assoc|by rewrite decide_False].
Qed.

Lemma point_step db sh n col vs t v h out : table_rep sh n t vs -> v ∈ vs -> t_heap t = h ->
  exists h', table_rep sh n (with_heap t h') vs /\
    point_visit db (sh_schema sh) (entry_of col v).1 (entry_of col v).2 (Some (h, out)) = Some (h', if sees db v then out ++ [v_row v] else out).
Proof.
  intros Hrep Hv <-. destruct (table_rids _ _ _ _ Hrep) as [_ Hok]. destruct (table_schema _ _ _ _ Hrep) as (_ & Hs & _).
  assert (Ha : addr_ok (v_rid v)) by (rewrite list.Forall_forall in Hok; by apply Hok, list_elem_of_fmap_2).
  destruct (get_spec sh n t vs v Hrep Hv) as (h' & rec & Hg & Hst & Hrep'). exists h'. split; [done|]. unfold point_visit. cbn [mbind option_bind].
  rewrite entry_rid, Hg by done. cbn [mbind option_bind]. pose proof (stores_visible db _ _ _ Hs Hst) as Hvis. cbn [snd] in Hvis. rewrite Hvis. cbn [mbind option_bind].
  by destruct (sees db v).
Qed.

Lemma sec_step db sh n col vs tname w t v h out : table_rep sh n t vs -> v ∈ vs -> t_heap t = h ->
  exists h', table_rep sh n (with_heap t h') vs /\
    sec_scan_visit db (sh_schema sh) tname w (entry_of col v).1 (entry_of col v).2 (Some (h, out)) =
    Some (h', if hits db (sh_schema sh) tname w v then out ++ [v_row v] else out).
Proof.
  intros Hrep Hv <-. destruct (table_rids _ _ _ _ Hrep) as [_ Hok]. destruct (table_schema _ _ _ _ Hrep) as (_ & Hs & _).
  assert (Ha : addr_ok (v_rid v)) by (rewrite list.Forall_forall in Hok; by apply Hok, list_elem_of_fmap_2).
  destruct (get_spec sh n t vs v Hrep Hv) as (h' & rec & Hg & Hst & Hrep'). exists h'. split; [done|]. unfold sec_scan_visit. cbn [mbind option_bind].
  rewrite entry_rid, Hg by done. cbn [mbind option_bind]. pose proof (stores_matching db _ tname w _ _ Hs Hst) as Hm. cbn [snd] in Hm. rewrite Hm. cbn [mbind option_bind].
  by destruct (hits db (sh_schema sh) tname w v).
Qed.

(** *** What the chosen condition says *)

Definition comparison (op : CmpOp) : bool := match op with CMP_EQ => true | _ => is_range op end.

Lemma single_cond_sat schema tname w tbl col op k v i : single_cond w = Some (tbl, col, op, VAL_INT k, false) -> comparison op = true ->
  for_table tbl tname = true -> col_index (c_columns schema) col = Some i ->
  satisfies schema tname w (v_row v) = key_sat (fun x => cmp_apply op (int_sign x k)) i v.
Proof.
  intros Hw Hop Ht Hi. unfold single_cond in Hw. destruct w as [|[|[tbl' col' op' val' insub a b sub set] [|? ?]] [|? ?]]; try done. injection Hw as -> -> -> -> ->.
  unfold satisfies. cbn [where_matches groups_match group_matches cond_matches].
  assert (Hc : cell_in schema tname tbl col (v_row v) = v_row v !! i).
  { unfold cell_in. rewrite Hi. unfold for_table in Ht. destruct (bool_decide (tbl = [])), (bool_decide (tbl = tname)); done. }
  rewrite Hc. unfold key_sat.
  assert (Hx : cond_eval (v_row v !! i) (mkCond tbl col op (VAL_INT k) false a b sub set) =
    Some (match v_row v !! i with Some (VAL_INT x) => cmp_apply op (int_sign x k) | _ => false end)).
  { unfold cond_eval. destruct op; try done; by destruct (v_row v !! i) as [[]|]. }
  rewrite Hx. cbn [mbind option_bind]. destruct (v_row v !! i) as [[x| |]|]; try done. by destruct (cmp_apply op (int_sign x k)).
Qed.

Lemma col_index_nodup cols i c : NoDup (cd_name <$> cols) -> cols !! i = Some c -> col_index cols (cd_name c) = Some i.
Proof.
  revert i. induction cols as [|c0 cols IH]; intros [|i] Hnd Hc; try done; cbn [col_index]; rewrite fmap_cons in Hnd; apply list.NoDup_cons in Hnd as [Hn Hnd].
  - injection Hc as ->. by rewrite decide_True.
  - rewrite decide_False; [by rewrite (IH i Hnd Hc)|]. intros E. apply Hn. rewrite E. apply list_elem_of_fmap_2. by eapply list_elem_of_lookup_2.
Qed.

(** Printing what passes among the entries of a key test answers the query. *)
Lemma printed_answer db schema tname w vs us P col (pass : Version -> bool) :
  us ≡ₚ filter (fun v => key_sat P col v = true) vs ->
  (forall v, v ∈ vs -> hits db schema tname w v = key_sat P col v && pass v) -> printed pass us ≡ₚ answer db schema tname w vs.
Proof.
  intros Hus Hh. unfold printed, answer. rewrite Hus, list_filter_filter. apply Permutation_map.
  rewrite (filter_ext_elem _ (fun v => hits db schema tname w v = true) vs); [done|]. intros v Hv. rewrite (Hh v Hv), andb_true_iff. naive_solver.
Qed.

(** *** The index paths *)

Lemma index_path (f : Z -> Z -> option (H * list (list Value)) -> option (H * list (list Value))) (pass : Version -> bool) db sh n t vs ws tname w P col (r : option (option (H * list (list Value)))) L es (Q : Z * Z -> Prop) `{!forall e, Decision (Q e)} :
  table_rep sh n t vs -> ws ⊆ vs -> L ≡ₚ keys_of col ws -> es ≡ₚ filter Q L -> (forall k x, Q (k, x) <-> P k = true) ->
  r = Some (foldl (fun c e => f e.1 e.2 c) (Some (t_heap t, [])) es) ->
  (forall t v h out, table_rep sh n t vs -> v ∈ vs -> t_heap t = h -> exists h', table_rep sh n (with_heap t h') vs /\
     f (entry_of col v).1 (entry_of col v).2 (Some (h, out)) = Some (h', if pass v then out ++ [v_row v] else out)) ->
  (forall v, v ∈ ws -> hits db (sh_schema sh) tname w v = key_sat P col v && pass v) ->
  exists h' out, r = Some (Some (h', out)) /\ table_rep sh n (with_heap t h') vs /\ out ≡ₚ answer db (sh_schema sh) tname w ws.
Proof.
  intros Hrep Hws HL Hes HQ -> Hf Hh. destruct (index_entries col ws Q P es L HL Hes HQ) as (us & -> & Hus).
  destruct (entries_fold f pass sh n col vs Hf us t []) as (h' & Hrep' & He); [|done|].
  { intros u Hu. rewrite Hus in Hu. apply list_elem_of_filter in Hu as [_ Hu]. by apply Hws. }
  rewrite He. cbn [app]. eexists _, _. split; [done|]. split; [done|]. by eapply printed_answer.
Qed.

Lemma indexed_found t vs sh n r P : (exists h' out, r = Some (Some (h', out)) /\ table_rep sh n (with_heap t h') vs /\ P out) ->
  exists t' out, indexed_result t r = Some (t', out) /\ table_rep sh n t' vs /\ P out.
Proof. intros (h' & out & -> & Hrep & Hp). by exists (with_heap t h'), out. Qed.

Lemma pk_cond_inv t tname w op k : pk_cond t tname w = Some (op, k) ->
  exists tbl c cols, single_cond w = Some (tbl, cd_name c, op, VAL_INT k, false) /\ c_columns (t_schema t) = c :: cols /\ has_index t = true /\ for_table tbl tname = true.
Proof.
  unfold pk_cond. destruct (single_cond w) as [[[[[tbl col] op'] val] []]|]; try (by destruct val); [|done].
  destruct val as [k'| |]; try done. destruct (c_columns (t_schema t)) as [|c cols]; [done|].
  destruct (has_index t) eqn:Hi, (for_table tbl tname) eqn:Hf; try done. cbn [andb]. case_bool_decide as Hc; [|done]. intros [= -> ->]. subst col. by exists tbl, c, cols.
Qed.

Lemma cmp_eq_sign x k : cmp_apply CMP_EQ (int_sign x k) = (x =? k).
Proof. destruct (int_sign_spec x k) as [[? ->]|[[? ->]|[? ->]]]; cbn; symmetry; [apply Z.eqb_neq|apply Z.eqb_eq|apply Z.eqb_neq]; lia. Qed.

Lemma point_path db sh n t vs tname w k : table_rep sh n t vs -> pk_cond t tname w = Some (CMP_EQ, k) ->
  exists t' out, indexed_result t (ix_find_all (t_index t) k (point_visit db (t_schema t)) (Some (t_heap t, []))) = Some (t', out) /\
    table_rep sh n t' vs /\ out ≡ₚ answer db (sh_schema sh) tname w vs.
Proof.
  intros Hrep Hpk. destruct (pk_cond_inv _ _ _ _ _ Hpk) as (tbl & c & cols & Hw & Hcols & Hi & Hft). destruct (table_schema _ _ _ _ Hrep) as (Hs & _).
  pose proof Hrep as (_ & _ & _ & Hix & _). destruct (Hix Hi) as (L & Hr & HL). destruct (law_ix_find n (t_index t) L k Hr) as (es & Hes & Hfind).
  apply indexed_found. eapply (index_path (point_visit db (t_schema t)) (sees db) db sh n t vs vs tname w (fun x => cmp_apply CMP_EQ (int_sign x k)) 0); [done|done|exact HL|exact Hes| |apply Hfind| |].
  - intros x y. cbn [fst]. rewrite cmp_eq_sign, Z.eqb_eq. done.
  - intros t1 v h out. rewrite Hs. apply point_step.
  - intros v _. unfold hits. rewrite (single_cond_sat _ _ _ _ _ _ _ v 0%nat Hw); [apply andb_comm|done|done|].
    rewrite <- Hs, Hcols. cbn [col_index]. by rewrite decide_True.
Qed.

Lemma range_path db sh n t vs tname w op k : table_rep sh n t vs -> pk_cond t tname w = Some (op, k) -> ix_exact (t_index t) op = true -> is_range op = true ->
  exists t' out, indexed_result t (ix_range (t_index t) op k (range_visit db (t_schema t) op k) (Some (t_heap t, []))) = Some (t', out) /\
    table_rep sh n t' vs /\ out ≡ₚ answer db (sh_schema sh) tname w vs.
Proof.
  intros Hrep Hpk Hex Hop. destruct (pk_cond_inv _ _ _ _ _ Hpk) as (tbl & c & cols & Hw & Hcols & Hi & Hft). destruct (table_schema _ _ _ _ Hrep) as (Hs & _).
  pose proof Hrep as (_ & _ & _ & Hix & _). destruct (Hix Hi) as (L & Hr & HL). destruct (law_ix_range n (t_index t) L op k Hr Hex) as (es & Hes & Hfind).
  apply indexed_found. eapply (index_path (point_visit db (t_schema t)) (sees db) db sh n t vs vs tname w (fun x => cmp_apply op (int_sign x k)) 0); [done|done|exact HL|exact Hes| |apply Hfind| |].
  - intros x y. done.
  - intros t1 v h out. rewrite Hs. apply point_step.
  - intros v _. unfold hits. rewrite (single_cond_sat _ _ _ _ _ _ _ v 0%nat Hw); [apply andb_comm|by destruct op|done|].
    rewrite <- Hs, Hcols. cbn [col_index]. by rewrite decide_True.
Qed.

Lemma find_sec_inv cols (secs : list (SecIndex J)) col sx : find_sec cols secs col = Some sx -> sx ∈ secs /\ exists c, cols !! sec_col sx = Some c /\ cd_name c = col.
Proof.
  induction secs as [|s0 secs IH]; cbn [find_sec]; [done|]. destruct (decide _) as [Hc|]; [|intros Hf; destruct (IH Hf) as [? ?]; split; [by right|done]].
  intros [= ->]. split; [left|]. by apply fmap_Some in Hc as (c & Hc & ->); exists c.
Qed.

Lemma sec_index_inv t tname w sx k : sec_index_for t tname w = Some (sx, k) ->
  exists tbl c, sx ∈ t_sec t /\ c_columns (t_schema t) !! sec_col sx = Some c /\ single_cond w = Some (tbl, cd_name c, CMP_EQ, VAL_INT k, false) /\ for_table tbl tname = true.
Proof.
  intros Hsec. unfold sec_index_for in Hsec. destruct (pk_cond t tname w); [done|].
  destruct (single_cond w) as [[[[[tbl col] op] val] insub]|] eqn:Hw; [|done]. destruct op; try done. destruct val as [k'| |]; try done. destruct insub; [done|].
  destruct (for_table tbl tname) eqn:Hft; [|done]. apply fmap_Some in Hsec as (s1 & Hf & [= <- <-]). apply find_sec_inv in Hf as (Hin & c & Hc & <-).
  by exists tbl, c.
Qed.

(** The rows an index finds are those of the versions it has entries for. *)
Lemma sec_path_part db sh n t vs ws tname w (b : J) col c tbl k : table_rep sh n t vs -> ws ⊆ vs -> indexed n b col ws ->
  c_columns (t_schema t) !! col = Some c -> single_cond w = Some (tbl, cd_name c, CMP_EQ, VAL_INT k, false) -> for_table tbl tname = true ->
  exists h' out, ix_find_all b k (sec_scan_visit db (t_schema t) tname w) (Some (t_heap t, [])) = Some (Some (h', out)) /\
    table_rep sh n (with_heap t h') vs /\ out ≡ₚ answer db (sh_schema sh) tname w ws.
Proof.
  intros Hrep Hws (L & Hr & HL) Hc Hw Hft. destruct (table_schema _ _ _ _ Hrep) as (Hs & (_ & _ & Hnd) & _). rewrite Hs in Hc.
  destruct (law_ix_find n b L k Hr) as (es & Hes & Hfind).
  eapply (index_path (sec_scan_visit db (t_schema t) tname w) (hits db (sh_schema sh) tname w) db sh n t vs ws tname w (fun x => cmp_apply CMP_EQ (int_sign x k)) col);
    [done|done|exact HL|exact Hes| |apply Hfind| |].
  - intros x y. cbn [fst]. rewrite cmp_eq_sign, Z.eqb_eq. done.
  - intros t1 v h out. rewrite Hs. apply sec_step.
  - intros v _. unfold hits. rewrite (single_cond_sat _ _ _ _ _ _ _ v col Hw); [|done|done|by apply col_index_nodup].
    by destruct (sees db v), (key_sat _ _ v).
Qed.

Lemma sec_path db sh n t vs tname w sx k : table_rep sh n t vs -> sec_index_for t tname w = Some (sx, k) ->
  exists t' out, indexed_result t (ix_find_all (sec_tree sx) k (sec_scan_visit db (t_schema t) tname w) (Some (t_heap t, []))) = Some (t', out) /\
    table_rep sh n t' vs /\ out ≡ₚ answer db (sh_schema sh) tname w vs.
Proof.
  intros Hrep Hsec. destruct (sec_index_inv _ _ _ _ _ Hsec) as (tbl & c & Hin & Hc & Hw & Hft). apply indexed_found.
  eapply sec_path_part; [done|done| |exact Hc|exact Hw|exact Hft]. pose proof Hrep as (_ & _ & _ & _ & Hix). rewrite list.Forall_forall in Hix. by apply Hix.
Qed.

(** *** The parallel path *)

Lemma accepted_hits db schema tname w vs rows : schema_ok schema -> Forall2 (stores schema) vs rows ->
  accepted (parsel_pred db schema tname w) rows = v_rid <$> filter (fun v => hits db schema tname w v = true) vs.
Proof.
  intros Hs. unfold accepted. induction 1 as [|v e vs rows Hv _ IH]; [done|].
  assert (Hp : parsel_pred db schema tname w e.1 e.2 = Some (hits db schema tname w v)).
  { unfold parsel_pred. rewrite (stores_matching db _ tname w _ _ Hs Hv). cbn [mbind option_bind]. by destruct (hits db schema tname w v). }
  destruct (hits db schema tname w v) eqn:Eh.
  - rewrite !filter_cons_True, !fmap_cons, IH by done. destruct Hv as [-> _]. done.
  - rewrite !filter_cons_False by congruence. exact IH.
Qed.

Lemma parsel_total db schema tname w vs rows : schema_ok schema -> Forall2 (stores schema) vs rows ->
  Forall (fun e => is_Some (parsel_pred db schema tname w e.1 e.2)) rows.
Proof.
  intros Hs. induction 1 as [|v e vs rows Hv _ IH]; constructor; [|done]. unfold parsel_pred. rewrite (stores_matching db _ tname w _ _ Hs Hv). by eexists.
Qed.

Lemma print_rids_spec sh n vs us : forall t out, us ⊆ vs -> table_rep sh n t vs ->
  exists h', print_rids (sh_schema sh) (t_heap t) (v_rid <$> us) out = Some (h', out ++ (v_row <$> us)) /\ table_rep sh n (with_heap t h') vs.
Proof.
  induction us as [|u us IH]; intros t out Hin Hrep.
  { exists (t_heap t). cbn. rewrite app_nil_r. split; [done|by destruct t]. }
  destruct (get_spec sh n t vs u Hrep) as (h1 & rec & Hg & Hst & Hrep1); [set_solver|]. destruct (table_schema _ _ _ _ Hrep) as (_ & Hs & _).
  rewrite !fmap_cons. cbn [print_rids]. rewrite Hg. cbn [mbind option_bind]. pose proof (stores_decode _ _ _ Hs Hst) as Hd. cbn [snd] in Hd. rewrite Hd. cbn [mbind option_bind].
  destruct (IH (with_heap t h1) (out ++ [v_row u])) as (h2 & He & Hrep2); [set_solver|exact Hrep1|]. exists h2. cbn [t_heap with_heap] in He. rewrite He, <- app_assoc. done.
Qed.

Lemma parallel_spec db sh n t vs tname w nworkers sched : table_rep sh n t vs ->
  exists r, parallel_fullscan db t tname w nworkers sched = Some r /\
    (forall t' out, r = Some (t', out) -> table_rep sh n t' vs /\ (out = None \/ out = Some (answer db (sh_schema sh) tname w vs))) /\
    exists sched' out, parallel_fullscan db t tname w nworkers (sched ++ sched') = Some (Some out).
Proof.
  intros Hrep. destruct (table_schema _ _ _ _ Hrep) as (Hs & Hok & _). unfold parallel_fullscan. rewrite Hs.
  destruct (par_pages (t_heap t) <? PARSCAN_MIN_PAGES).
  { eexists. split; [done|]. split; [intros ? ? [= <- <-]; auto|by exists [], (t, None)]. }
  destruct (where_has_subquery w).
  { eexists. split; [done|]. split; [intros ? ? [= <- <-]; auto|by exists [], (t, None)]. }
  pose proof Hrep as (_ & _ & (rows & Hr & Hst) & _). pose proof (parsel_total db _ tname w _ _ Hok Hst) as Hp.
  assert (Htail : forall r, (forall h' res, r = Some (h', res) -> rs_rep n h' rows /\ (res = None \/ res = Some (accepted (parsel_pred db (sh_schema sh) tname w) rows))) ->
    exists r', (match r with
      | None => Some None
      | Some (h, None) => Some (Some (with_heap t h, None))
      | Some (h, Some rids) => '(h, out) ← print_rids (sh_schema sh) h rids []; Some (Some (with_heap t h, Some out))
      end) = Some r' /\
      (forall t' out, r' = Some (t', out) -> table_rep sh n t' vs /\ (out = None \/ out = Some (answer db (sh_schema sh) tname w vs))) /\ (is_Some r -> is_Some r')).
  { intros [[h res]|] Hx; [|exists None; done]. destruct (Hx _ _ eq_refl) as [Hr' Hcase]. pose proof (put_heap sh n t vs h rows vs Hrep Hr' Hst ltac:(done)) as Hrep'.
    destruct Hcase as [->| ->]; [eexists; split; [done|]; split; [intros ? ? [= <- <-]; auto|done]|].
    rewrite (accepted_hits db _ tname w _ _ Hok Hst).
    destruct (print_rids_spec sh n vs (filter (fun v => hits db (sh_schema sh) tname w v = true) vs) (with_heap t h) []) as (h2 & He & Hrep2).
    { intros v Hv. by apply list_elem_of_filter in Hv as [_ Hv]. }
    { exact Hrep'. }
    cbn [t_heap with_heap] in He. rewrite He. cbn [mbind option_bind app]. eexists. split; [done|]. split; [|done]. intros ? ? [= <- <-]. split; [exact Hrep2|by right]. }
  destruct (law_par_collect n (t_heap t) rows nworkers _ sched Hr Hp) as (r & Hc & Hpost & sched' & out & Hfin).
  destruct (law_par_collect n (t_heap t) rows nworkers _ (sched ++ sched') Hr Hp) as (r2 & Hc2 & Hpost2 & _). rewrite Hc2 in Hfin. injection Hfin as ->.
  destruct (Htail r Hpost) as (r' & He & Hr' & _). exists r'. rewrite Hc. cbn [mbind option_bind]. split; [exact He|]. split; [exact Hr'|].
  exists sched'. rewrite Hc2. cbn [mbind option_bind]. destruct (Htail _ Hpost2) as (r2' & He2 & _ & Hs2). destruct Hs2 as [out' ->]; [done|]. rewrite He2. by exists out'.
Qed.

(** *** All paths *)

(** Only a range on [>=] over a B+tree may be answered inexactly by the index. *)
Definition exact_plan (p : plan (J := J)) (i : I) : Prop := match p with RangePlan op _ => ix_exact i op = true | _ => True end.

Lemma choose_plan_inv t tname w b :
  match choose_plan t tname w b with
  | PointPlan k => pk_cond t tname w = Some (CMP_EQ, k)
  | RangePlan op k => pk_cond t tname w = Some (op, k) /\ is_range op = true
  | SecPlan sx k => sec_index_for t tname w = Some (sx, k)
  | ScanPlan => True
  end.
Proof.
  unfold choose_plan. destruct (pk_cond t tname w) as [[op k]|].
  - destruct op; cbn; try done; by destruct b.
  - by destruct (sec_index_for t tname w) as [[? ?]|].
Qed.

Lemma select_spec db sh n t vs tname w b nworkers sched : table_rep sh n t vs -> exact_plan (choose_plan t tname w b) (t_index t) ->
  exists r, exec_select db t tname w b nworkers sched = Some r /\
    (forall t' out ui, r = Some (t', out, ui) -> table_rep sh n t' vs /\ out ≡ₚ answer db (sh_schema sh) tname w vs) /\
    exists sched' out, exec_select db t tname w b nworkers (sched ++ sched') = Some (Some out).
Proof.
  intros Hrep Hex. pose proof (choose_plan_inv t tname w b) as Hplan. unfold exec_select.
  assert (Hindex : forall r, (exists t' out, r = Some (t', out) /\ table_rep sh n t' vs /\ out ≡ₚ answer db (sh_schema sh) tname w vs) ->
    exists r', ('(t, out) ← r; Some (Some (t, out, true))) = Some r' /\
      (forall t' out ui, r' = Some (t', out, ui) -> table_rep sh n t' vs /\ out ≡ₚ answer db (sh_schema sh) tname w vs) /\
      exists (sched' : list nat) out, ('(t, out) ← r; Some (Some (t, out, true))) = Some (Some out)).
  { intros r (t' & out & -> & Hrep' & Hout). cbn [mbind option_bind]. eexists. split; [done|]. split; [intros ? ? ? [= <- <- <-]; auto|]. by exists [], (t', out, true). }
  destruct (choose_plan t tname w b) as [k|op k|sx k|].
  - apply Hindex. by apply point_path.
  - destruct Hplan as [Hpk Hop]. apply Hindex. by apply range_path.
  - apply Hindex. by apply sec_path.
  - clear Hindex Hplan Hex.
    assert (Htail : forall r, (forall t' out, r = Some (t', out) -> table_rep sh n t' vs /\ (out = None \/ out = Some (answer db (sh_schema sh) tname w vs))) ->
      exists r', (match r with
        | None => Some None
        | Some (t, Some out) => Some (Some (t, out, false))
        | Some (t, None) => '(t, out) ← select_scan db t tname w; Some (Some (t, out, false))
        end) = Some r' /\ (forall t' out ui, r' = Some (t', out, ui) -> table_rep sh n t' vs /\ out ≡ₚ answer db (sh_schema sh) tname w vs) /\ (is_Some r -> is_Some r')).
    { intros [[t1 out]|] Hx; [|exists None; done]. destruct (Hx _ _ eq_refl) as [Hrep1 [->| ->]].
      - destruct (select_scan_spec db sh n t1 vs tname w Hrep1) as (t2 & -> & Hrep2). cbn [mbind option_bind]. eexists. split; [done|]. split; [|done]. intros ? ? ? [= <- <- <-]. done.
      - eexists. split; [done|]. split; [|done]. intros ? ? ? [= <- <- <-]. done. }
    destruct (parallel_spec db sh n t vs tname w nworkers sched Hrep) as (r & Hr & Hpost & sched' & out & Hfin).
    destruct (parallel_spec db sh n t vs tname w nworkers (sched ++ sched') Hrep) as (r2 & Hr2 & Hpost2 & _). rewrite Hr2 in Hfin. injection Hfin as ->.
    destruct (Htail r Hpost) as (r' & He & Hr' & _). exists r'. rewrite Hr. cbn [mbind option_bind]. split; [exact He|]. split; [exact Hr'|].
    exists sched'. rewrite Hr2. cbn [mbind option_bind]. destruct (Htail _ Hpost2) as (r2' & He2 & _ & Hs2). destruct Hs2 as [out' ->]; [done|]. rewrite He2. by exists out'.
Qed.
End Answers.
