(* ===== verification/Statements.v ===== *)
(** * Histories of statements on a table

    INSERT, DELETE, UPDATE and SELECT as the executor runs them, against what they
    mean: a list of row versions.  A run may choose the schedule of a parallel scan
    and the contents of an uninitialised buffer. *)
From stdpp Require Import strings.
From S2P Require Import Prelude Page Pager BufPool Heap Lsm Btree SqlLex SqlParse Row Where Storage Parscan Lock Mvcc Txn Exec Select.

(** The first bool is the cost model's choice for a key range. *)
Inductive Stmt :=
| SInsert (vals : list Value)
| SDelete (w : Where)
| SUpdate (set_col : bytes) (set_val : Value) (w : Where)
| SSelect (tname : bytes) (w : Where) (range_use_idx : bool) (nworkers : Z).

Inductive Result := ResCode (rc : Z) | ResCount (rc : Z) (n : nat) | ResRows (out : list (list Value)).

Section Run.
Context {H I J : Type} `{RecordStore H} `{!ParallelScan H} `{MultiIndex I} `{!RangeIndex I} `{MultiIndex J}.

Definition run_stmt (db : Database) (t : Table H I J) (st : Stmt) (buf : bytes) (sched : list nat) : option (option (Table H I J * Result)) :=
  match st with
  | SInsert vals => '(t, rc) ← exec_insert db t vals buf; Some (Some (t, ResCode rc))
  | SDelete w => '(t, rc, n) ← exec_delete db t w; Some (Some (t, ResCount rc n))
  | SUpdate col v w => '(t, rc, n) ← exec_update db t col v w buf; Some (Some (t, ResCount rc n))
  | SSelect tname w b nworkers =>
      r ← exec_select db t tname w b nworkers sched;
      Some (match r with Some (t, out, _) => Some (t, ResRows out) | None => None end)
  end.

Definition page_buf (buf : bytes) : Prop := blen buf = PAGE_SIZE /\ Forall is_byte buf.

(** A history of statements, each in the state of the database at its time. *)
Inductive runs : Table H I J -> list (Database * Stmt) -> list Result -> Table H I J -> Prop :=
| runs_nil t : runs t [] [] t
| runs_cons t db st buf sched t1 r hist rs t2 :
    page_buf buf -> run_stmt db t st buf sched = Some (Some (t1, r)) -> runs t1 hist rs t2 -> runs t ((db, st) :: hist) (r :: rs) t2.
End Run.

(** ** What statements mean *)

Definition fresh (r : option RID) (vs : list Version) : Prop := forall rid, r = Some rid -> rid ∉ v_rid <$> vs.

Definition accepts (sh : Shape) (vals : list Value) : bool :=
  nulls_ok (sh_pk sh) (c_columns (sh_schema sh)) vals && matches_row (c_columns (sh_schema sh)) vals.

(** The versions an UPDATE replaces. *)
Definition updated (db : Database) (sh : Shape) (w : Where) (vs : list Version) : list Version :=
  take DML_MAX_ROWS (matched db (sh_schema sh) w vs).

(** An INSERT or the new version of an UPDATE may find no room in the heap. *)
Inductive vstep (sh : Shape) (db : Database) (vs : list Version) : Stmt -> Result -> list Version -> Prop :=
| v_insert vals r : fresh r vs -> (accepts sh vals = false -> r = None) ->
    vstep sh db vs (SInsert vals) (ResCode (if r then 0 else -1)) (vs ++ new_version r (cur_txn db) vals)
| v_delete w :
    vstep sh db vs (SDelete w) (ResCount 0 (length (targets db (sh_schema sh) w vs)))
      (stamp_all (cur_txn db) (targets db (sh_schema sh) w vs) vs)
| v_update_none col v w : set_column (sh_schema sh) col v = None -> vstep sh db vs (SUpdate col v w) (ResCount (-1) 0) vs
| v_update col v w sci rs : set_column (sh_schema sh) col v = Some sci -> length rs = length (updated db sh w vs) ->
    vstep sh db vs (SUpdate col v w) (ResCount 0 (stored_count rs))
      (stamp_all (cur_txn db) (v_rid <$> updated db sh w vs) vs ++ new_versions (cur_txn db) sci v rs (updated db sh w vs))
| v_select tname w b nw out : out ≡ₚ answer db (sh_schema sh) tname w vs -> vstep sh db vs (SSelect tname w b nw) (ResRows out) vs.

Inductive vsteps (sh : Shape) : list Version -> list (Database * Stmt) -> list Result -> list Version -> Prop :=
| vsteps_nil vs : vsteps sh vs [] [] vs
| vsteps_cons vs db st r vs1 hist rs vs2 : vstep sh db vs st r vs1 -> vsteps sh vs1 hist rs vs2 -> vsteps sh vs ((db, st) :: hist) (r :: rs) vs2.

(** Values as the parser makes them, integers within 32 bits; transaction ids are
    positive; and an index never serves a range on [>=], which a B+tree answers
    inexactly. *)
Definition value_fits (v : Value) : Prop := val_ok v /\ int_ok v.

Definition no_ge_index (w : Where) (b : bool) : Prop :=
  match single_cond w with Some (_, _, CMP_GE, _, _) => b = false | _ => True end.

Definition stmt_fits (e : Database * Stmt) : Prop :=
  is_i32 (cur_txn e.1) /\
  match e.2 with
  | SInsert vals => Forall value_fits vals
  | SDelete _ => True
  | SUpdate _ v _ => value_fits v
  | SSelect _ w b _ => no_ge_index w b
  end.

#[export] Instance val_ok_dec v : Decision (val_ok v).
Proof. destruct v; apply _. Defined.

#[export] Instance value_fits_dec v : Decision (value_fits v).
Proof. apply and_dec; [apply _|]. destruct v; apply _. Defined.

#[export] Instance stmt_fits_dec e : Decision (stmt_fits e).
Proof.
  apply and_dec; [apply _|]. destruct (e.2) as [vals|w|col v w|tname w b nw]; try apply _.
  unfold no_ge_index. destruct (single_cond w) as [[[[[? ?] op] ?] ?]|]; [destruct op|]; apply _.
Defined.

Section Refines.
Context {H I J : Type} `{RecordStoreLaws H} `{!ParallelScan H} `{!ParallelScanLaws H} `{MultiIndexLaws I} `{!RangeIndex I} `{!RangeIndexLaws I} `{MultiIndexLaws J}.

Lemma plan_exact (t : Table H I J) tname w b : no_ge_index w b -> exact_plan (choose_plan t tname w b) (t_index t).
Proof.
  intros Hn. pose proof (choose_plan_inv t tname w b) as Hp. destruct (choose_plan t tname w b) as [k|op k|sx k|] eqn:E; try done.
  destruct Hp as [Hpk Hop]. cbn. apply law_ix_exact; [done|]. intros ->. destruct (pk_cond_inv _ _ _ _ _ Hpk) as (tbl & c & cols & Hw & _).
  unfold no_ge_index in Hn. rewrite Hw in Hn. subst b. unfold choose_plan in E. by rewrite Hpk in E.
Qed.

Lemma fits_split vals : Forall value_fits vals -> Forall val_ok vals /\ Forall int_ok vals.
Proof. intros Hf. split; (revert Hf; apply Forall_impl); by intros v [? ?]. Qed.

(** One statement: never undefined, correct when it returns, and able to return. *)
Lemma run_stmt_spec sh n (t : Table H I J) vs db st buf sched : table_rep sh (DML_MAX_ROWS + n) t vs -> stmt_fits (db, st) -> page_buf buf ->
  exists r, run_stmt db t st buf sched = Some r /\
    (forall t' res, r = Some (t', res) -> exists vs', vstep sh db vs st res vs' /\ table_rep sh n t' vs') /\
    exists sched' out, run_stmt db t st buf (sched ++ sched') = Some (Some out).
Proof.
  intros Hrep [Hx Hst] [Hb Hbb]. cbn [fst snd] in *. destruct st as [vals|w|col v w|tname w b nw]; cbn [run_stmt].
  - destruct (fits_split _ Hst) as [Hv Hi].
    destruct (insert_spec db sh n t vs vals buf) as (t' & r & He & Hrep' & Hacc); try done; [eapply table_rep_mono; [|exact Hrep]; unfold DML_MAX_ROWS; lia|].
    rewrite He. cbn [mbind option_bind]. eexists. split; [done|]. split; [|by exists [], (t', ResCode (if r then 0 else -1))].
    intros t1 res [= <- <-]. eexists. split; [|exact Hrep']. apply v_insert; [|intros Ha; by destruct (Hacc Ha)].
    intros rid ->. destruct (table_rids _ _ _ _ Hrep') as [Hnd _]. rewrite fmap_app in Hnd. apply list.NoDup_app in Hnd as (_ & Hd & _).
    intros Hin. apply (Hd _ Hin). cbn. set_solver.
  - destruct (delete_spec db sh n t vs w) as (t' & He & Hrep'); [eapply table_rep_mono; [|exact Hrep]; lia|done|].
    rewrite He. cbn [mbind option_bind]. eexists. split; [done|]. split; [|eexists [], _; done].
    intros t1 res [= <- <-]. eexists. split; [|exact Hrep']. constructor.
  - destruct Hst as [Hv Hi]. pose proof (update_spec db sh n t vs col v w buf Hrep Hx Hb Hbb Hv Hi) as Hu.
    destruct (set_column (sh_schema sh) col v) as [sci|] eqn:Ec.
    + destruct Hu as (t' & rs & He & Hl & Hrep'). rewrite He. cbn [mbind option_bind]. eexists. split; [done|]. split; [|eexists [], _; done].
      intros t1 res [= <- <-]. eexists. split; [|exact Hrep']. by apply v_update.
    + rewrite Hu. cbn [mbind option_bind]. eexists. split; [done|]. split; [|eexists [], _; done].
      intros t1 res [= <- <-]. exists vs. split; [by constructor|]. eapply table_rep_mono; [|exact Hrep]. lia.
  - destruct (select_spec db sh _ t vs tname w b nw sched Hrep (plan_exact t tname w b Hst)) as (r & He & Hpost & sched' & out & Hfin).
    rewrite He. cbn [mbind option_bind]. eexists. split; [done|]. split.
    + intros t1 res Hr. destruct r as [[[t2 out2] ui]|]; [|done]. injection Hr as <- <-. destruct (Hpost _ _ _ eq_refl) as [Hrep' Hout]. exists vs.
      split; [by constructor|]. eapply table_rep_mono; [|exact Hrep']. lia.
    + exists sched'. rewrite Hfin. cbn [mbind option_bind]. destruct out as [[t2 out2] ui]. eexists. done.
Qed.

Lemma runs_refine sh hist : forall n (t : Table H I J) vs, table_rep sh (length hist * DML_MAX_ROWS + n) t vs -> Forall stmt_fits hist ->
  (forall rs t', runs t hist rs t' -> exists vs', vsteps sh vs hist rs vs' /\ table_rep sh n t' vs') /\ exists rs t', runs t hist rs t'.
Proof.
  induction hist as [|[db st] hist IH]; intros n t vs Hrep Hfit.
  { split; [|eexists _, _; constructor]. intros rs t' Hr. inversion Hr; subst. exists vs. split; [apply vsteps_nil|exact Hrep]. }
  apply list.Forall_cons in Hfit as [Hst Hfit]. cbn [length Nat.mul] in Hrep. rewrite <- Nat.add_assoc in Hrep. split.
  - intros rs t' Hr. inversion_clear Hr as [|? ? ? buf sched t1 r ? rs' ? Hbuf He Hrest].
    destruct (run_stmt_spec sh _ t vs db st buf sched Hrep Hst Hbuf) as (r' & He' & Hpost & _). rewrite He in He'. injection He' as <-.
    destruct (Hpost _ _ eq_refl) as (vs1 & Hstep & Hrep1). destruct (IH n t1 vs1 Hrep1 Hfit) as [Hall _].
    destruct (Hall _ _ Hrest) as (vs2 & Hsteps & Hrep2). exists vs2. split; [by econstructor|done].
  - assert (Hbuf : page_buf (zeros PAGE_SIZE)).
    { split; [by apply blen_zeros|]. apply Forall_replicate. unfold is_byte. lia. }
    destruct (run_stmt_spec sh _ t vs db st _ [] Hrep Hst Hbuf) as (_ & _ & _ & sched & [t1 r] & He).
    destruct (run_stmt_spec sh _ t vs db st _ ([] ++ sched) Hrep Hst Hbuf) as (r' & He' & Hpost & _). rewrite He in He'. injection He' as <-.
    destruct (Hpost _ _ eq_refl) as (vs1 & _ & Hrep1). destruct (IH n t1 vs1 Hrep1 Hfit) as [_ (rs & t2 & Hrest)].
    exists (r :: rs), t2. by econstructor.
Qed.

(** Every statement of a history is defined, whatever the schedule. *)
Lemma runs_defined sh n (t : Table H I J) vs pre db st post rs t1 buf sched :
  table_rep sh (length (pre ++ (db, st) :: post) * DML_MAX_ROWS + n) t vs -> Forall stmt_fits (pre ++ (db, st) :: post) ->
  runs t pre rs t1 -> page_buf buf -> is_Some (run_stmt db t1 st buf sched).
Proof.
  intros Hrep Hfit Hr Hbuf. apply list.Forall_app in Hfit as [Hpre Hfit]. apply list.Forall_cons in Hfit as [Hst _].
  rewrite length_app in Hrep. cbn [length] in Hrep.
  destruct (runs_refine sh pre (DML_MAX_ROWS + n) t vs) as [Hall _]; [eapply table_rep_mono; [|exact Hrep]; rewrite Nat.mul_add_distr_r; cbn [Nat.mul]; lia|done|].
  destruct (Hall _ _ Hr) as (vs1 & _ & Hrep1). destruct (run_stmt_spec sh n t1 vs1 db st buf sched Hrep1 Hst Hbuf) as (r & -> & _). by eexists.
Qed.
End Refines.

(** ** What a transaction sees of its own writes *)

Section OwnWrites.
Context (db : Database) (Htxn : 0 < cur_txn db).

Lemma sees_stamped v : sees db (with_xmax (cur_txn db) v) = false.
Proof.
  unfold sees, rec_visible, row_visible. cbn. destruct (negb _); [done|].
  rewrite Z.eqb_refl. destruct (Z.eqb_spec (cur_txn db) 0); [lia|done].
Qed.

Lemma sees_new rid row : sees db (mkVer rid (cur_txn db) 0 row) = true.
Proof. unfold sees, rec_visible, row_visible. cbn. by rewrite Z.eqb_refl. Qed.

Lemma seen_app vs1 vs2 : seen db (vs1 ++ vs2) = seen db vs1 ++ seen db vs2.
Proof. apply list.filter_app. Qed.

Lemma seen_stamp rids vs : seen db (stamp_all (cur_txn db) rids vs) = filter (fun v => v_rid v ∉ rids) (seen db vs).
Proof.
  unfold seen, stamp_all. induction vs as [|v vs IH]; [done|]. rewrite fmap_cons. destruct (decide (v_rid v ∈ rids)) as [Hin|Hout].
  - rewrite filter_cons_False by (rewrite sees_stamped; done). rewrite IH, (filter_cons _ v vs). destruct (decide (sees db v = true)); [|done].
    by rewrite filter_cons_False by tauto.
  - rewrite !(filter_cons _ v), IH. destruct (decide (sees db v = true)); [|done]. by rewrite filter_cons_True.
Qed.

Lemma seen_new_versions sci val rs us : length rs = length us -> stored_count rs = length us ->
  v_row <$> seen db (new_versions (cur_txn db) sci val rs us) = (fun u => <[sci := val]> (v_row u)) <$> us.
Proof.
  unfold new_versions. revert rs. induction us as [|u us IH]; intros [|r rs] Hl Hc; try done. cbn [length] in Hl.
  destruct r as [rid|].
  - cbn [zip_with]. rewrite join_cons, seen_app, fmap_app, fmap_cons, IH; [|lia|unfold stored_count in *; cbn in Hc; lia].
    cbn [new_version]. unfold seen at 1. rewrite filter_cons_True by apply sees_new. done.
  - exfalso. unfold stored_count in Hc. cbn in Hc. assert (length (omap id rs) <= length rs)%nat; [|lia].
    clear. induction rs as [|[] rs IH]; cbn; lia.
Qed.

Definition rows_seen (vs : list Version) : list (list Value) := v_row <$> seen db vs.

Lemma filter_rows (P : list Value -> bool) (vs : list Version) : filter (fun row => P row = true) (v_row <$> vs) = v_row <$> filter (fun v => P (v_row v) = true) vs.
Proof.
  induction vs as [|v vs IH]; [done|]. rewrite fmap_cons, !filter_cons. destruct (decide (P (v_row v) = true)) as [E|E]; rewrite IH; done.
Qed.

Lemma matched_seen schema w vs : matched db schema w vs = filter (fun v => satisfies schema (c_table schema) w (v_row v) = true) (seen db vs).
Proof.
  unfold matched, seen. rewrite list_filter_filter. apply list_filter_iff. intros v. unfold hits. rewrite andb_true_iff. tauto.
Qed.
End OwnWrites.

Definition chosen (sh : Shape) (w : Where) (row : list Value) : bool := satisfies (sh_schema sh) (c_table (sh_schema sh)) w row.

(** The effect of a statement on the rows its transaction sees. *)
Definition expected (sh : Shape) (st : Stmt) (out : list (list Value)) : list (list Value) :=
  match st with
  | SInsert vals => out ++ [vals]
  | SDelete w => filter (fun row => negb (chosen sh w row) = true) out
  | SUpdate col v w =>
      match set_column (sh_schema sh) col v with
      | Some sci => filter (fun row => negb (chosen sh w row) = true) out ++ (<[sci := v]> <$> filter (fun row => chosen sh w row = true) out)
      | None => out
      end
  | SSelect _ _ _ _ => out
  end.

(** The statement reports that it did all its work. *)
Definition complete (sh : Shape) (st : Stmt) (res : Result) (out : list (list Value)) : Prop :=
  match st, res with
  | SInsert _, ResCode rc => rc = 0
  | SDelete w, ResCount _ n | SUpdate _ _ w, ResCount _ n => n = length (filter (fun row => chosen sh w row = true) out)
  | _, _ => True
  end.

Lemma not_chosen sh w (vs us : list Version) : NoDup (v_rid <$> vs) -> (forall v, v ∈ vs -> v ∈ us <-> chosen sh w (v_row v) = true) -> us ⊆ vs ->
  filter (fun v => v_rid v ∉ v_rid <$> us) vs = filter (fun v => negb (chosen sh w (v_row v)) = true) vs.
Proof.
  intros Hnd Hus Hsub. apply filter_ext_elem. intros v Hv. rewrite negb_true_iff. split.
  - intros Hn. apply Bool.not_true_iff_false. intros Hc. apply Hn. apply list_elem_of_fmap_2. by apply Hus.
  - intros Hc (u & E & Hu)%list_elem_of_fmap. assert (v = u) as <-; [|apply Hus in Hu; [congruence|done]].
    apply list_elem_of_lookup in Hv as [i Hi]. pose proof (Hsub u Hu) as Hu'. apply list_elem_of_lookup in Hu' as [j Hj].
    assert (i = j); [|congruence]. eapply (NoDup_lookup (v_rid <$> vs)); [done|by rewrite list_lookup_fmap, Hi|rewrite list_lookup_fmap, Hj; cbn; by rewrite E].
Qed.

Lemma vstep_seen sh db vs st res vs' : 0 < cur_txn db -> NoDup (v_rid <$> vs) -> vstep sh db vs st res vs' ->
  complete sh st res (rows_seen db vs) -> rows_seen db vs' ≡ₚ expected sh st (rows_seen db vs).
Proof.
  intros Ht Hnd Hstep Hc.
  assert (Hnds : NoDup (v_rid <$> seen db vs)) by (eapply sublist_NoDup; [exact Hnd|]; apply fmap_sublist, sublist_filter).
  (* when no matching row is left out, the rows that stay are those the condition rejects *)
  assert (Hrest : forall w us, us = matched db (sh_schema sh) w vs ->
    rows_seen db (stamp_all (cur_txn db) (v_rid <$> us) vs) = filter (fun row => negb (chosen sh w row) = true) (rows_seen db vs)).
  { intros w us ->. unfold rows_seen. rewrite seen_stamp by done. rewrite matched_seen.
    rewrite (not_chosen sh w); [|done| |].
    - symmetry. apply (filter_rows (fun row => negb (chosen sh w row))).
    - intros v Hv. rewrite list_elem_of_filter. unfold chosen. tauto.
    - intros v Hv. by apply list_elem_of_filter in Hv as [_ Hv]. }
  assert (Hrows : forall w, filter (fun row => chosen sh w row = true) (rows_seen db vs) = v_row <$> matched db (sh_schema sh) w vs).
  { intros w. unfold rows_seen. by rewrite (filter_rows (chosen sh w)), matched_seen. }
  assert (Hcount : forall w, length (filter (fun row => chosen sh w row = true) (rows_seen db vs)) = length (matched db (sh_schema sh) w vs)).
  { intros w. by rewrite Hrows, length_fmap. }
  destruct Hstep as [vals r Hf Ha|w|col v w Hn|col v w sci rs Hsc Hl|tname w b nw out Ho]; cbn [expected complete] in *.
  - destruct r as [rid|]; [|done]. unfold rows_seen. rewrite seen_app, fmap_app. cbn [new_version]. unfold seen at 2. by rewrite filter_cons_True by apply sees_new.
  - rewrite Hcount in Hc. unfold targets in *. rewrite length_take, length_fmap in Hc. rewrite take_ge by (rewrite length_fmap; lia). by rewrite (Hrest w).
  - by rewrite Hn.
  - rewrite Hsc. rewrite Hcount in Hc. unfold updated in *. rewrite length_take in Hl.
    assert (Hle : (stored_count rs <= length rs)%nat) by (unfold stored_count; clear; induction rs as [|[] rs IH]; cbn; lia).
    rewrite take_ge in * by lia. unfold rows_seen at 1. rewrite seen_app, fmap_app. fold (rows_seen db (stamp_all (cur_txn db) (v_rid <$> matched db (sh_schema sh) w vs) vs)).
    rewrite (Hrest w) by done. rewrite seen_new_versions by lia. by rewrite Hrows, <- list_fmap_compose.
  - done.
Qed.

(** ** The theorems *)

Section Theorems.
Context {H I J : Type} `{RecordStoreLaws H} `{!ParallelScan H} `{!ParallelScanLaws H} `{MultiIndexLaws I} `{!RangeIndex I} `{!RangeIndexLaws I} `{MultiIndexLaws J}.

(** C2. The executor refines a list of row versions.  For a table over any lawful heap
    and indexes, every history of INSERT, DELETE, UPDATE and SELECT, each in any state
    of the transactions around it, is defined at every step and for every schedule of
    the parallel scans, can be run to its end, and every run gives the results of the
    version list: an insert appends a version, a delete stamps [xmax] on the versions
    its transaction sees and its condition selects, an update does both, and a select
    returns the visible matching rows whatever access path it takes.  Afterwards heap,
    primary-key index and secondary indexes again hold exactly those versions.
    [stmt_fits] excludes SELECTs whose [>=] condition on a key the index answers
    ([select_ge_misses]), texts that do not fit and integers and transaction ids outside
    32 bits; [table_rep] asks for a schema whose largest row fits a page. *)
Theorem exec_refines (sh : Shape) (n : nat) (t : Table H I J) (vs : list Version) (hist : list (Database * Stmt)) :
  table_rep sh (length hist * DML_MAX_ROWS + n) t vs -> Forall stmt_fits hist ->
  (forall rs t', runs t hist rs t' -> exists vs', vsteps sh vs hist rs vs' /\ table_rep sh n t' vs') /\
  (exists rs t', runs t hist rs t') /\
  (forall pre db st post rs t1 buf sched, hist = pre ++ (db, st) :: post -> runs t pre rs t1 -> page_buf buf -> is_Some (run_stmt db t1 st buf sched)).
Proof.
  intros Hrep Hfit. destruct (runs_refine sh hist n t vs Hrep Hfit) as [Hall Hex]. split; [done|]. split; [done|].
  intros pre db st post rs t1 buf sched -> Hr Hb. by eapply runs_defined.
Qed.

Lemma answer_all db schema tname vs : answer db schema tname [] vs = rows_seen db vs.
Proof. unfold answer, rows_seen, seen. f_equal. apply list_filter_iff. intros v. unfold hits, satisfies. cbn. by rewrite andb_true_r. Qed.

Lemma expected_perm sh st out out' : out ≡ₚ out' -> expected sh st out ≡ₚ expected sh st out'.
Proof.
  intros Hp. destruct st; cbn [expected]; try done; [by rewrite Hp|by rewrite Hp|]. destruct (set_column _ _ _); [|done]. by rewrite Hp.
Qed.

Lemma complete_perm sh st res out out' : out ≡ₚ out' -> complete sh st res out -> complete sh st res out'.
Proof. intros Hp. destruct st, res; cbn [complete]; try done; by rewrite Hp. Qed.

(** C35. A transaction reads its own writes: between two full SELECTs of one statement
    context, an INSERT that returns success adds exactly its row, a DELETE that reports
    as many rows as its condition selects removes exactly those, and an UPDATE that
    reports as many rows as its condition selects replaces exactly those by the rows
    with the column set; nothing else changes. *)
Theorem read_own_writes (sh : Shape) (n : nat) (t t' : Table H I J) (vs : list Version) (db : Database) (st : Stmt) (res : Result)
    (tname tname' : bytes) (b b' : bool) (nw nw' : Z) (before after : list (list Value)) :
  table_rep sh (3 * DML_MAX_ROWS + n) t vs -> 0 < cur_txn db -> stmt_fits (db, st) ->
  runs t [(db, SSelect tname [] b nw); (db, st); (db, SSelect tname' [] b' nw')] [ResRows before; res; ResRows after] t' ->
  complete sh st res before -> after ≡ₚ expected sh st before.
Proof.
  intros Hrep Ht Hfit Hr Hc. destruct (runs_refine sh [(db, SSelect tname [] b nw); (db, st); (db, SSelect tname' [] b' nw')] n t vs Hrep) as [Hall _].
  { pose proof Hfit as [Hi _]. constructor; [split; [exact Hi|done]|]. constructor; [exact Hfit|]. constructor; [split; [exact Hi|done]|constructor]. }
  destruct (Hall _ _ Hr) as (vs' & Hsteps & _). inversion_clear Hsteps as [|? ? ? ? vs1 ? ? ? S1 Hrest]. inversion_clear Hrest as [|? ? ? ? vs2 ? ? ? S2 Hrest'].
  inversion_clear Hrest' as [|? ? ? ? vs3 ? ? ? S3 Hend]. inversion S1; subst. inversion S3; subst.
  match goal with Hb : before ≡ₚ answer _ _ _ _ ?v, Ha : after ≡ₚ answer _ _ _ _ ?v' |- _ => rewrite answer_all in Hb, Ha; rewrite Ha; rename Hb into Hbefore end.
  rewrite (expected_perm sh st _ _ Hbefore). eapply vstep_seen; [done| |exact S2|by eapply complete_perm]. by destruct (table_rids _ _ _ _ Hrep) as [? _].
Qed.


(** CREATE INDEX indexes what its statement sees: the index is filled from the rows
    visible to the statement that creates it, so a later query answered by the index,
    in any transaction, finds exactly the matching rows among those; a version the
    creator did not see (committed after its snapshot, or deleted but still visible to
    an older snapshot) is never found through the index.  When it sees every version
    the table is complete with the new index. *)
Theorem create_index_contents (sh : Shape) (n : nat) (t : Table H I J) (vs : list Version) (db reader : Database) (name column tname tbl : bytes) (tree : J)
    (col : nat) (c : ColumnDef) (w : Where) (k : Z) :
  table_rep sh n t vs -> indexed (length vs + n) tree col [] ->
  c_columns (sh_schema sh) !! col = Some c -> column = cd_name c -> cd_type c = COL_INT -> (sh_pk sh = true -> col <> 0%nat) ->
  (length (t_sec t) < DB_MAX_SEC_IDX)%nat -> name ∉ (sh_sec sh).*1 ->
  single_cond w = Some (tbl, column, CMP_EQ, VAL_INT k, false) -> for_table tbl tname = true ->
  exists t1 tree1 count, exec_create_index db t 0 name column (Some tree) = Some (t1, 0, count) /\
    t_sec t1 = t_sec t ++ [mkSec name col tree1] /\
    (exists h out, ix_find_all tree1 k (sec_scan_visit reader (t_schema t1) tname w) (Some (t_heap t1, [])) = Some (Some (h, out)) /\
       out ≡ₚ answer reader (sh_schema sh) tname w (seen db vs)) /\
    (Forall (fun v => sees db v = true) vs -> table_rep (adds name col sh) n t1 vs).
Proof.
  intros Hrep Htree Hc -> Hty Hpk Hmax Hname Hw Hft. destruct (table_schema _ _ _ _ Hrep) as (Hs & (_ & _ & Hnd) & _).
  destruct (create_index_spec db sh n t vs name (cd_name c) tree col c Hrep Htree) as (h' & tree1 & He & Hrep1 & Hix); try done; [by apply col_index_nodup|].
  eexists _, tree1, _. split; [exact He|]. split; [done|]. split.
  - destruct (sec_path_part reader sh n (with_heap t h') vs (seen db vs) tname w tree1 col c tbl k) as (h2 & out & Hf & _ & Hout); try done.
    + intros v Hv. by apply list_elem_of_filter in Hv as [_ Hv].
    + cbn. by rewrite Hs.
    + exists h2, out. split; [exact Hf|exact Hout].
  - intros Hall. eapply (create_index_rep db sh n (with_heap t h') vs name col tree1); [done|done|done|by eapply lookup_lt_Some].
Qed.
End Theorems.

(** ** A concrete table *)

Section Demo.

Definition empty_tree : BTree := default (mkBT ∅ 0 0 (2 ^ 40) 0) (btree_open (mkBT ∅ 0 0 (2 ^ 40) 0)).

Definition empty_file : Pager := pager_open (mkFile [] (100 * PAGE_SIZE)).

Abbreviation DemoTable := (Table (BufferPool * Pager) Pidx BTree).

(** A pool of four pages over an empty file, an empty B+tree on [id] and, with [sec],
    one on [n]. *)
Definition empty_table (sec : bool) : DemoTable :=
  mkTable demo_schema (mkPool (replicate 4 empty_frame) 0 0 0 false false false, empty_file) true (PBtree empty_tree)
    (if sec then [mkSec (str "i") 2 empty_tree] else []).

#[local] Instance demo_store_laws : RecordStoreLaws (BufferPool * Pager) := heap_store_laws pager_reliable.
#[local] Instance demo_parallel_laws : ParallelScanLaws (BufferPool * Pager) := heap_parallel_laws pager_reliable.

Lemma empty_tree_rep (n : nat) : Z.of_nat n <= 2 ^ 19 -> ix_rep n empty_tree [].
Proof.
  intros Hn. destruct (open_rep false (2 ^ 40) ltac:(lia)) as (bt & Ho & Hrep & Hp & Hr). assert (E : empty_tree = bt) by (unfold empty_tree; by rewrite Ho). rewrite E.
  exists 0%nat. split; [exact Hrep|]. rewrite Hp, Hr. nia.
Qed.

Lemma empty_table_rep (sec : bool) (n : nat) : Z.of_nat n <= 2 ^ 19 -> table_rep (shape (empty_table sec)) n (empty_table sec) [].
Proof.
  intros Hn. split; [done|]. split; [|split; [|split]].
  - split; [split; [by vm_compute|split; [by vm_compute|]]|split].
    + apply (bool_decide_unpack _). by vm_compute.
    + intros _. cbn. lia.
    + destruct sec; repeat constructor; cbn; lia.
  - exists []. split; [|constructor]. exists []. split; [|split; [done|change (blen (@nil apage)) with 0; lia]].
    assert (Hwf : st_wf empty_file) by (apply pager_open_wf; [vm_compute; split; discriminate|constructor]).
    pose proof (heap_empty_rep 4 _ empty_file eq_refl Hwf) as Hh. by replace (st_pages empty_file) with 0 in Hh by (vm_compute; reflexivity).
  - intros _. exists []. split; [by apply empty_tree_rep|done].
  - destruct sec; [constructor; [|constructor]|constructor]. exists []. split; [by apply empty_tree_rep|done].
Qed.

(** A history run with zeroed buffers and no parallel scan. *)
Fixpoint run_all (t : DemoTable) (hist : list (Database * Stmt)) : option (option (DemoTable * list Result)) :=
  match hist with
  | [] => Some (Some (t, []))
  | (db, st) :: hist =>
      r ← run_stmt db t st (zeros PAGE_SIZE) [];
      match r with
      | None => Some None
      | Some (t, res) => r ← run_all t hist; Some (r ← r; Some (r.1, res :: r.2))
      end
  end.

Lemma zeros_page_buf : page_buf (zeros PAGE_SIZE).
Proof. split; [by vm_compute|]. apply Forall_replicate. unfold is_byte. lia. Qed.

Lemma run_all_runs hist : forall t t' rs, run_all t hist = Some (Some (t', rs)) -> runs t hist rs t'.
Proof.
  induction hist as [|[db st] hist IH]; intros t t' rs; cbn [run_all].
  - intros [= <- <-]. constructor.
  - intros (r & Hr & Hrest)%bind_Some. destruct r as [[t1 res]|]; [|done]. apply bind_Some in Hrest as (r & Hr2 & [= Hr3]).
    apply bind_Some in Hr3 as ([t2 rs2] & -> & [= <- <-]). eapply runs_cons; [exact zeros_page_buf|exact Hr|by apply IH].
Qed.

Lemma run_all_results hist t rs : option_map (option_map snd) (run_all t hist) = Some (Some rs) -> exists t', runs t hist rs t'.
Proof.
  destruct (run_all t hist) as [r|] eqn:Hr; [|done]. intros [= Hrs]. destruct r as [[t' rs']|]; [|done]. injection Hrs as ->. exists t'. by apply run_all_runs.
Qed.

Definition txn_db (x : Z) : Database := let db := db_open None in
  mkDb (sessions db) (cur_session db) (lm db) x (x + 1) (committed_below db) (txnlog db) (tables db).
Definition row (id : Z) (name : string) (n : Value) : list Value := [VAL_INT id; VAL_TEXT (str name); n].
Definition by_col (col : string) (op : CmpOp) (z : Z) : Where := [[mkCond [] (str col) op (VAL_INT z) false false false None []]].

Definition demo_hist : list (Database * Stmt) :=
  (txn_db 3,.) <$>
  [SInsert (row 5 "kim" (VAL_INT 30)); SInsert (row 7 "lee" VAL_NULL); SInsert (row 6 "han" (VAL_INT 30)); SInsert (row 6 "oh" (VAL_INT 9));
   SUpdate (str "n") (VAL_INT 30) (by_col "id" CMP_EQ 7); SDelete (by_col "n" CMP_LT 10); SInsert [VAL_NULL; VAL_NULL; VAL_NULL];
   SSelect (str "t") (by_col "id" CMP_EQ 6) false 2; SSelect (str "t") (by_col "id" CMP_GT 5) true 2; SSelect (str "t") (by_col "n" CMP_EQ 30) false 2].

Definition demo_results : list Result :=
  [ResCode 0; ResCode 0; ResCode 0; ResCode 0; ResCount 0 1; ResCount 0 1; ResCode (-1);
   ResRows [row 6 "han" (VAL_INT 30)];
   ResRows [row 6 "han" (VAL_INT 30); row 7 "lee" (VAL_INT 30)];
   ResRows [row 7 "lee" (VAL_INT 30); row 6 "han" (VAL_INT 30); row 5 "kim" (VAL_INT 30)]].

Lemma demo_fits : Forall stmt_fits demo_hist.
Proof. apply (bool_decide_unpack _). by vm_compute. Qed.

Lemma exec_refines_witness :
  exists t' vs', runs (empty_table true) demo_hist demo_results t' /\
    vsteps (shape (empty_table true)) [] demo_hist demo_results vs' /\ table_rep (shape (empty_table true)) 0 t' vs'.
Proof.
  destruct (exec_refines (shape (empty_table true)) 0 (empty_table true) [] demo_hist) as (Hall & _ & _);
    [apply empty_table_rep; vm_compute; discriminate|exact demo_fits|].
  destruct (run_all_results demo_hist (empty_table true) demo_results) as [t' Hr]; [vm_compute; reflexivity|].
  destruct (Hall _ _ Hr) as (vs' & Hs & Ht). by exists t', vs'.
Defined.

Lemma vstep_length sh db vs st r vs' : vstep sh db vs st r vs' -> (length vs' <= length vs + DML_MAX_ROWS)%nat.
Proof.
  assert (H1 : forall r x vals, (length (new_version r x vals) <= 1)%nat) by (intros [|] x vals; cbn; lia).
  assert (Hs : forall x rids l, length (stamp_all x rids l) = length l) by (intros; apply length_fmap).
  destruct 1 as [vals r _ _|w|col v w _|col v w sci rs _ Hl|tname w b nw out _]; rewrite ?length_app, ?Hs; try lia.
  - pose proof (H1 r (cur_txn db) vals). unfold DML_MAX_ROWS. lia.
  - apply Nat.add_le_mono_l. transitivity (length rs).
    + clear Hl. generalize (updated db sh w vs). induction rs as [|r rs IH]; intros [|u us]; cbn [new_versions zip_with]; try (cbn; lia).
      unfold new_versions. cbn [zip_with]. rewrite join_cons, length_app. specialize (IH us). unfold new_versions in IH. pose proof (H1 r (cur_txn db) (<[sci:=v]> (v_row u))). cbn [length]. lia.
    + rewrite Hl. unfold updated. rewrite length_take. lia.
Qed.

Lemma vsteps_length sh vs hist rs vs' : vsteps sh vs hist rs vs' -> (length vs' <= length vs + length hist * DML_MAX_ROWS)%nat.
Proof.
  induction 1 as [|vs db st r vs1 hist rs vs2 Hs _ IH]; [cbn; lia|]. apply vstep_length in Hs. cbn [length]. rewrite Nat.mul_succ_l. lia.
Qed.

Definition demo_update : Stmt := SUpdate (str "n") (VAL_INT 30) (by_col "id" CMP_EQ 7).


(** The table after a history, and after the four inserts. *)
Definition hist_table (hist : list (Database * Stmt)) : DemoTable :=
  match run_all (empty_table true) hist with Some (Some (t, _)) => t | _ => empty_table true end.

Definition demo_table : DemoTable := hist_table (take 4 demo_hist).

Lemma hist_table_rep hist (n : nat) : Forall stmt_fits hist -> Z.of_nat (length hist * DML_MAX_ROWS + n) <= 2 ^ 19 ->
  exists vs, table_rep (shape (empty_table true)) n (hist_table hist) vs /\ (length vs <= length hist * DML_MAX_ROWS)%nat.
Proof.
  intros Hf Hn. destruct (runs_refine (shape (empty_table true)) hist n (empty_table true) []) as [Hall _]; [by apply empty_table_rep|done|].
  unfold hist_table. destruct (run_all (empty_table true) hist) as [[[t rs]|]|] eqn:E.
  - destruct (Hall _ _ (run_all_runs _ _ _ _ E)) as (vs & Hs & Hr). apply vsteps_length in Hs. exists vs. split; [exact Hr|exact Hs].
  - exists []. split; [apply empty_table_rep; lia|cbn; lia].
  - exists []. split; [apply empty_table_rep; lia|cbn; lia].
Qed.

Lemma demo_table_rep (n : nat) : Z.of_nat n <= 2 ^ 18 -> exists vs, table_rep (shape (empty_table true)) n demo_table vs /\ (length vs <= 4 * DML_MAX_ROWS)%nat.
Proof.
  intros Hn. apply (hist_table_rep (take 4 demo_hist) n); [apply Forall_take, demo_fits|]. change (length (take 4 demo_hist)) with 4%nat. unfold DML_MAX_ROWS. lia.
Qed.

Lemma read_own_writes_witness :
  exists t', runs demo_table [(txn_db 3, SSelect (str "t") [] false 2); (txn_db 3, demo_update); (txn_db 3, SSelect (str "t") [] false 2)]
    [ResRows [row 5 "kim" (VAL_INT 30); row 7 "lee" VAL_NULL; row 6 "han" (VAL_INT 30); row 6 "oh" (VAL_INT 9)]; ResCount 0 1;
     ResRows [row 5 "kim" (VAL_INT 30); row 6 "han" (VAL_INT 30); row 6 "oh" (VAL_INT 9); row 7 "lee" (VAL_INT 30)]] t' /\
    [row 5 "kim" (VAL_INT 30); row 6 "han" (VAL_INT 30); row 6 "oh" (VAL_INT 9); row 7 "lee" (VAL_INT 30)] ≡ₚ
    expected (shape (empty_table true)) demo_update [row 5 "kim" (VAL_INT 30); row 7 "lee" VAL_NULL; row 6 "han" (VAL_INT 30); row 6 "oh" (VAL_INT 9)].
Proof.
  destruct (demo_table_rep (3 * DML_MAX_ROWS + 0)) as (vs & Hrep & _); [vm_compute; discriminate|].
  match goal with |- exists t', runs _ ?h ?rs t' /\ _ => destruct (run_all_results h demo_table rs) as [t' Hr]; [vm_compute; reflexivity|] end.
  exists t'. split; [exact Hr|]. refine (read_own_writes _ 0 _ _ _ _ _ _ _ _ _ _ _ _ _ _ Hrep _ _ Hr _).
  - reflexivity.
  - apply (bool_decide_unpack _). by vm_compute.
  - vm_compute. reflexivity.
Defined.


(** Transaction 3 has committed; the creator's transaction 2 took its snapshot before. *)
Definition creator_db : Database := let db := db_open None in
  mkDb (<[0%nat := mkSession true 2 3 []]> (sessions db)) 0 (lm db) 2 5 (committed_below db) (txnlog_commit (txnlog db) 3) (tables db).
Definition reader_db : Database := let db := db_open None in
  mkDb (sessions db) 1 (lm db) 4 5 (committed_below db) (txnlog_commit (txnlog db) 3) (tables db).

Lemma create_index_contents_witness :
  exists vs t1 (tree1 : BTree) count, table_rep (shape (empty_table true)) 0 demo_table vs /\
    exec_create_index creator_db demo_table 0 (str "j") (str "n") (Some empty_tree) = Some (t1, 0, count) /\
    (exists h out, ix_find_all tree1 30 (sec_scan_visit reader_db (t_schema t1) (str "t") (by_col "n" CMP_EQ 30)) (Some (t_heap t1, [])) = Some (Some (h, out)) /\
       out ≡ₚ answer reader_db demo_schema (str "t") (by_col "n" CMP_EQ 30) (seen creator_db vs)).
Proof.
  destruct (demo_table_rep 0) as (vs & Hrep & Hlen); [lia|].
  destruct (create_index_contents _ 0 demo_table vs creator_db reader_db (str "j") (str "n") (str "t") [] empty_tree 2
    (mkColumn (str "n") COL_INT false) (by_col "n" CMP_EQ 30) 30 Hrep) as (t1 & tree1 & count & He & _ & Hfind & _); try reflexivity.
  - exists []. split; [apply empty_tree_rep; unfold DML_MAX_ROWS in Hlen; lia|reflexivity].
  - discriminate.
  - vm_compute. lia.
  - apply (bool_decide_unpack _). by vm_compute.
  - exists vs, t1, tree1, count. split; [exact Hrep|]. split; [exact He|exact Hfind].
Defined.

(** The committed rows are found by the scan before, and by the index after, the index
    is created: two rows against none. *)
Example create_index_hole :
  (t ← option_map fst (mjoin (run_all (empty_table false) (take 4 demo_hist)));
   '(t1, rc, _) ← exec_create_index creator_db t 0 (str "j") (str "n") (Some empty_tree);
   before ← exec_select reader_db t (str "t") (by_col "n" CMP_EQ 30) false 2 [];
   after ← exec_select reader_db t1 (str "t") (by_col "n" CMP_EQ 30) false 2 [];
   '(_, out1, ix1) ← before; '(_, out2, ix2) ← after; Some (rc, length out1, ix1, length out2, ix2)) = Some (0, 2%nat, false, 0%nat, true).
Proof. vm_compute. reflexivity. Qed.

(** A heap whose file can hold one page. *)
Definition small_table : DemoTable :=
  mkTable demo_schema (mkPool (replicate 4 empty_frame) 0 0 0 false false false, pager_open (mkFile [] PAGE_SIZE)) true (PBtree empty_tree) [].

(** An UPDATE whose new version finds no room returns success, and the row is gone. *)
Example update_loses_row :
  option_map (option_map snd) (run_all small_table ((txn_db 3,.) <$>
    (replicate 14 (SInsert [VAL_INT 1; VAL_TEXT (replicate 255 120); VAL_NULL]) ++
     [SInsert (row 5 "kim" VAL_NULL); SUpdate (str "name") (VAL_TEXT (replicate 255 120)) (by_col "id" CMP_EQ 5); SSelect (str "t") (by_col "id" CMP_EQ 5) false 2])))
  = Some (Some (replicate 14 (ResCode 0) ++ [ResCode 0; ResCount 0 0; ResRows []])).
Proof. vm_compute. reflexivity. Qed.

Definition nine : list (Database * Stmt) := replicate 9 (txn_db 3, SInsert (row 5 "kim" VAL_NULL)).

(** A key range on [>=] answered by the B+tree misses rows: the executor does not
    enforce that primary keys are unique, and after nine inserts of the key 5 the query
    [id >= 5] returns nine rows when it scans the heap and five when it uses the
    index, which [id = 5] does answer with all nine. *)
Theorem select_ge_misses :
  exists t, runs (empty_table false)
    (nine ++ [(txn_db 3, SSelect (str "t") (by_col "id" CMP_GE 5) false 2); (txn_db 3, SSelect (str "t") (by_col "id" CMP_EQ 5) false 2);
              (txn_db 3, SSelect (str "t") (by_col "id" CMP_GE 5) true 2)])
    (replicate 9 (ResCode 0) ++ [ResRows (replicate 9 (row 5 "kim" VAL_NULL)); ResRows (replicate 9 (row 5 "kim" VAL_NULL));
                                 ResRows (replicate 5 (row 5 "kim" VAL_NULL))]) t.
Proof. apply run_all_results. vm_compute. reflexivity. Qed.
End Demo.
