(* ===== verification/Double.v ===== *)
(** * The C type [double] and [qsort], as the executor uses them

    A double is an IEEE 754 binary64 number of the Standard Library's [SpecFloat],
    with the operations the code uses: conversion from and to integers, comparison
    and division.  Conversion is exact and monotone on integers below 2^53.  [qsort]
    is given by its contract: for a consistent comparison the result is a
    permutation in ascending order; which of two equal elements comes first is not
    specified. *)
From Stdlib Require Import SpecFloat.
From stdpp Require Import sorting.
From S2P Require Import Prelude.

Abbreviation double := spec_float.

Definition double_of (z : Z) : double := binary_normalize 53 1024 z 0 false.
Definition double_div (x y : double) : double := SFdiv 53 1024 x y.
Definition double_lt (x y : double) : bool := SFltb x y.
Definition double_eq (x y : double) : bool := SFeqb x y.

(** The cast to [long] drops the fraction; it is undefined outside the range. *)
Definition long_of (x : double) : option Z :=
  match x with
  | S754_zero _ => Some 0
  | S754_finite s m e =>
      let a := if 0 <=? e then Z.pos m * 2 ^ e else Z.pos m / 2 ^ (- e) in
      let z := if s then - a else a in
      if (- 2 ^ 63 <=? z) && (z <? 2 ^ 63) then Some z else None
  | _ => None
  end.

Example double_examples :
  long_of (double_div (double_of 7) (double_of 2)) = Some 3 /\ long_of (double_of (-5)) = Some (-5) /\
  long_of (double_of (2 ^ 53 + 1)) = Some (2 ^ 53) /\ double_lt (double_of (-3)) (double_of 2) = true.
Proof. vm_compute. done. Qed.

(** ** Comparison is an order on numbers *)

Definition is_number (x : double) : Prop := x <> S754_nan.

(** The sign of a comparison. *)
Definition double_sign (x y : double) : Z := if double_lt x y then -1 else if double_lt y x then 1 else 0.

Definition double_key (x : double) : Z * Z * Z :=
  match x with
  | S754_nan => (0, 0, 0)
  | S754_zero _ => (0, 0, 0)
  | S754_infinity s => (if s then -2 else 2, 0, 0)
  | S754_finite s m e => if s then (-1, - e, - Z.pos m) else (1, e, Z.pos m)
  end.

Definition lex3 (a b : Z * Z * Z) : Prop :=
  a.1.1 < b.1.1 \/ a.1.1 = b.1.1 /\ (a.1.2 < b.1.2 \/ a.1.2 = b.1.2 /\ a.2 < b.2).

Lemma double_lt_key x y : is_number x -> is_number y -> double_lt x y = true <-> lex3 (double_key x) (double_key y).
Proof.
  unfold is_number, double_lt, SFltb, lex3. intros Hx Hy.
  destruct x as [sx|sx| |sx mx ex], y as [sy|sy| |sy my ey]; try done; try destruct sx; try destruct sy; cbn; try (split; [intros; try done; lia|intros; try done; lia]).
  - destruct (Z.compare_spec ex ey); try (split; [intros; try done; lia|intros; try done; lia]).
    change (Pos.compare_cont Eq mx my) with (Pos.compare mx my). destruct (Pos.compare_spec mx my); cbn; split; intros; try done; lia.
  - destruct (Z.compare_spec ex ey); try (split; [intros; try done; lia|intros; try done; lia]).
    change (Pos.compare_cont Eq mx my) with (Pos.compare mx my). destruct (Pos.compare_spec mx my); cbn; split; intros; try done; lia.
Qed.

Lemma double_eq_key x y : is_number x -> is_number y -> double_eq x y = true <-> double_key x = double_key y.
Proof.
  unfold is_number, double_eq, SFeqb. intros Hx Hy.
  destruct x as [sx|sx| |sx mx ex], y as [sy|sy| |sy my ey]; try done; try destruct sx; try destruct sy; cbn; try (split; [intros; try done; lia|intros; try done; lia]).
  - destruct (Z.compare_spec ex ey); try (split; [done|intros E; exfalso; injection E; lia]).
    change (Pos.compare_cont Eq mx my) with (Pos.compare mx my). destruct (Pos.compare_spec mx my); cbn; subst; split; intros E; try done; exfalso; injection E; lia.
  - destruct (Z.compare_spec ex ey); try (split; [done|intros E; exfalso; injection E; lia]).
    change (Pos.compare_cont Eq mx my) with (Pos.compare mx my). destruct (Pos.compare_spec mx my); cbn; subst; split; intros E; try done; exfalso; injection E; lia.
Qed.

(** ** Integers as doubles *)

Lemma digits_size m : digits2_pos m = Pos.size m.
Proof. induction m as [m IH|m IH|]; cbn; [by rewrite IH|by rewrite IH|done]. Qed.

Lemma digits_bounds m : 2 ^ (Z.pos (digits2_pos m) - 1) <= Z.pos m < 2 ^ Z.pos (digits2_pos m).
Proof.
  rewrite digits_size. pose proof (Pos.size_gt m) as Hg. pose proof (Pos.size_le m) as Hl.
  apply Pos2Z.pos_lt_pos in Hg. rewrite Pos2Z.inj_pow in Hg. apply Pos2Z.pos_le_pos in Hl. rewrite Pos2Z.inj_pow, (Pos2Z.inj_xO m) in Hl.
  generalize dependent (Pos.size m). intros d Hg Hl. replace (Z.pos d) with (Z.succ (Z.pos d - 1)) in Hl by lia.
  rewrite Z.pow_succ_r in Hl by lia. lia.
Qed.

Lemma iter_xO m k : Z.pos (Pos.iter xO m k) = Z.pos m * 2 ^ Z.pos k.
Proof.
  induction k as [|k IH] using Pos.peano_ind; [cbn; lia|]. rewrite Pos.iter_succ. rewrite Pos2Z.inj_xO, IH, Pos2Z.inj_succ, Z.pow_succ_r by lia. lia.
Qed.

Lemma digits_unique m d : 0 < d -> 2 ^ (d - 1) <= Z.pos m < 2 ^ d -> Z.pos (digits2_pos m) = d.
Proof.
  intros Hd [H1 H2]. destruct (digits_bounds m) as [H3 H4].
  destruct (Z.lt_trichotomy (Z.pos (digits2_pos m)) d) as [H|[H|H]]; [|done|].
  - pose proof (Z.pow_le_mono_r 2 (Z.pos (digits2_pos m)) (d - 1) ltac:(lia) ltac:(lia)). lia.
  - pose proof (Z.pow_le_mono_r 2 d (Z.pos (digits2_pos m) - 1) ltac:(lia) ltac:(lia)). lia.
Qed.

(** A mantissa of exactly 53 bits is not rounded. *)
Lemma round_aux_exact s m e : Z.pos (digits2_pos m) = 53 -> -1074 <= e <= 971 -> binary_round_aux 53 1024 s (Z.pos m) e loc_Exact = S754_finite s m e.
Proof.
  intros Hd He. assert (Hf : fexp 53 1024 (Zdigits2 (Z.pos m) + e) - e = 0) by (cbn [Zdigits2]; rewrite Hd; unfold fexp, emin; lia).
  unfold binary_round_aux, shr_fexp. rewrite Hf. cbn [shr shr_record_of_loc shr_m loc_of_shr_record round_nearest_even].
  rewrite Hf. cbn [shr shr_record_of_loc shr_m]. destruct (Z.leb_spec e (1024 - 53)); [done|lia].
Qed.

Lemma double_pos s m : Z.pos m < 2 ^ 53 ->
  exists m', binary_round 53 1024 s m 0 = S754_finite s m' (Z.pos (digits2_pos m) - 53) /\ Z.pos m' = Z.pos m * 2 ^ (53 - Z.pos (digits2_pos m)).
Proof.
  intros Hm. destruct (digits_bounds m) as [H1 H2]. set (d := Z.pos (digits2_pos m)) in *.
  assert (Hd : d <= 53). { destruct (Z.le_gt_cases d 53); [done|]. pose proof (Z.pow_le_mono_r 2 53 (d - 1) ltac:(lia) ltac:(lia)). lia. }
  assert (Hd0 : 0 < d) by lia. unfold binary_round. fold d.
  replace (fexp 53 1024 (d + 0)) with (d - 53) by (unfold fexp, emin; lia).
  unfold shl_align. replace (d - 53 - 0) with (d - 53) by lia. destruct (d - 53) as [|p|p] eqn:E; [|lia|].
  - exists m. split; [|replace (53 - d) with 0 by lia; lia]. apply round_aux_exact; [fold d; lia|lia].
  - exists (Pos.iter xO m p). split; [|rewrite iter_xO; f_equal; f_equal; lia]. apply round_aux_exact; [|lia].
    apply digits_unique; [lia|]. rewrite iter_xO. replace (Z.pos p) with (53 - d) by lia.
    replace (2 ^ (53 - 1)) with (2 ^ (d - 1) * 2 ^ (53 - d)) by (rewrite <- Z.pow_add_r by lia; f_equal; lia).
    replace (2 ^ 53) with (2 ^ d * 2 ^ (53 - d)) by (rewrite <- Z.pow_add_r by lia; f_equal; lia).
    pose proof (Z.pow_pos_nonneg 2 (53 - d) ltac:(lia) ltac:(lia)). nia.
Qed.

Definition exact_int (z : Z) : Prop := - 2 ^ 53 < z < 2 ^ 53.

Lemma double_of_exact z : exact_int z -> z <> 0 ->
  exists m', double_of z = S754_finite (z <? 0) m' (Z.pos (digits2_pos (Z.to_pos (Z.abs z))) - 53) /\
    Z.pos m' = Z.abs z * 2 ^ (53 - Z.pos (digits2_pos (Z.to_pos (Z.abs z)))).
Proof. intros [H1 H2] H0. destruct z as [|p|p]; [done| |]; cbn; apply double_pos; lia. Qed.

Lemma digits_small m : Z.pos m < 2 ^ 53 -> 0 < Z.pos (digits2_pos m) <= 53.
Proof.
  intros Hm. destruct (digits_bounds m) as [H1 _]. split; [lia|]. destruct (Z.le_gt_cases (Z.pos (digits2_pos m)) 53); [done|].
  pose proof (Z.pow_le_mono_r 2 53 (Z.pos (digits2_pos m) - 1) ltac:(lia) ltac:(lia)). lia.
Qed.

(** An integer below 2^53 survives the conversions. *)
Lemma long_of_double z : exact_int z -> long_of (double_of z) = Some z.
Proof.
  intros Hz. destruct (Z.eq_dec z 0) as [->|H0]; [done|]. destruct (double_of_exact z Hz H0) as (m' & -> & Hm). cbn [long_of].
  pose proof (digits_small (Z.to_pos (Z.abs z))) as Hd. unfold exact_int in Hz. rewrite Z2Pos.id in Hd by lia. specialize (Hd ltac:(lia)).
  set (d := Z.pos (digits2_pos (Z.to_pos (Z.abs z)))) in *.
  assert (Ha : (if 0 <=? d - 53 then Z.pos m' * 2 ^ (d - 53) else Z.pos m' / 2 ^ (- (d - 53))) = Z.abs z).
  { rewrite Hm. destruct (Z.leb_spec 0 (d - 53)).
    - replace (d - 53) with 0 by lia. replace (53 - d) with 0 by lia. lia.
    - replace (- (d - 53)) with (53 - d) by lia. apply Z.div_mul. apply Z.pow_nonzero; lia. }
  rewrite Ha. cbv zeta. replace (if z <? 0 then - Z.abs z else Z.abs z) with z by (destruct (Z.ltb_spec z 0); lia).
  destruct (Z.leb_spec (- 2 ^ 63) z), (Z.ltb_spec z (2 ^ 63)); try done; lia.
Qed.

Lemma iter_pos_inv {A} (f : A -> A) (P : A -> Prop) k : (forall x, P x -> P (f x)) -> forall x, P x -> P (SpecFloat.iter_pos f k x).
Proof. intros Hf. induction k as [k IH|k IH|]; intros x Hx; cbn [SpecFloat.iter_pos]; auto. Qed.

Lemma shr_nonneg r e n : 0 <= shr_m r -> 0 <= shr_m (shr r e n).1.
Proof.
  intros Hr. destruct n as [|p|p]; [done| |done]. cbn [shr fst].
  apply (iter_pos_inv shr_1 (fun r => 0 <= shr_m r)); [|done]. intros [m a b]. cbn. destruct m as [|[]|]; cbn; lia.
Qed.

Lemma shr_fexp_nonneg m e l : 0 <= m -> 0 <= shr_m (shr_fexp 53 1024 m e l).1.
Proof. intros Hm. apply shr_nonneg. by destruct l as [|[]]. Qed.

(** Rounding gives a number. *)
Lemma round_aux_number s m e l : 0 <= m -> is_number (binary_round_aux 53 1024 s m e l).
Proof.
  intros Hm. unfold binary_round_aux, is_number. pose proof (shr_fexp_nonneg m e l Hm) as H1.
  destruct (shr_fexp 53 1024 m e l) as [r1 e1]. cbn [fst] in H1.
  assert (H2 : 0 <= round_nearest_even (shr_m r1) (loc_of_shr_record r1)).
  { destruct r1 as [m1 [|] [|]]; cbn in *; try (destruct (Z.even m1)); lia. }
  pose proof (shr_fexp_nonneg _ e1 loc_Exact H2) as H3. destruct (shr_fexp 53 1024 _ e1 loc_Exact) as [r2 e2]. cbn [fst] in H3.
  destruct (shr_m r2); [done| |lia]. by destruct (e2 <=? _).
Qed.

Lemma binary_round_number s m e : is_number (binary_round 53 1024 s m e).
Proof. unfold binary_round. destruct (shl_align m e _) as [m' e']. by apply round_aux_number. Qed.

Lemma double_of_number z : is_number (double_of z).
Proof. destruct z; cbn; [done|apply binary_round_number..]. Qed.

(** Magnitudes of doubles follow those of the integers. *)
Lemma exact_order a b m1 m2 : 0 < a < 2 ^ 53 -> 0 < b < 2 ^ 53 ->
  let d1 := Z.pos (digits2_pos (Z.to_pos a)) in let d2 := Z.pos (digits2_pos (Z.to_pos b)) in
  m1 = a * 2 ^ (53 - d1) -> m2 = b * 2 ^ (53 - d2) -> a < b <-> d1 - 53 < d2 - 53 \/ d1 - 53 = d2 - 53 /\ m1 < m2.
Proof.
  intros Ha Hb d1 d2 -> ->. destruct (digits_bounds (Z.to_pos a)) as [A1 A2]. destruct (digits_bounds (Z.to_pos b)) as [B1 B2].
  pose proof (digits_small (Z.to_pos a)) as D1. pose proof (digits_small (Z.to_pos b)) as D2. rewrite Z2Pos.id in * by lia. fold d1 in A1, A2, D1. fold d2 in B1, B2, D2.
  specialize (D1 ltac:(lia)). specialize (D2 ltac:(lia)).
  destruct (Z.lt_trichotomy d1 d2) as [E|[E|E]].
  - pose proof (Z.pow_le_mono_r 2 d1 (d2 - 1) ltac:(lia) ltac:(lia)). lia.
  - rewrite E. pose proof (Z.pow_pos_nonneg 2 (53 - d2) ltac:(lia) ltac:(lia)). split; [intros; right; split; [done|nia]|intros [?|[_ ?]]; [lia|nia]].
  - pose proof (Z.pow_le_mono_r 2 d2 (d1 - 1) ltac:(lia) ltac:(lia)). lia.
Qed.

Lemma double_lt_int a b : exact_int a -> exact_int b -> double_lt (double_of a) (double_of b) = (a <? b).
Proof.
  intros Ha Hb. apply eq_true_iff_eq. rewrite (double_lt_key _ _ (double_of_number a) (double_of_number b)), Z.ltb_lt. unfold exact_int in *.
  destruct (Z.eq_dec a 0) as [->|Ha0]; destruct (Z.eq_dec b 0) as [->|Hb0].
  - unfold lex3. cbn. lia.
  - destruct (double_of_exact b Hb Hb0) as (m & -> & _). unfold lex3. destruct (Z.ltb_spec b 0); cbn; lia.
  - destruct (double_of_exact a Ha Ha0) as (m & -> & _). unfold lex3. destruct (Z.ltb_spec a 0); cbn; lia.
  - destruct (double_of_exact a Ha Ha0) as (m1 & -> & H1). destruct (double_of_exact b Hb Hb0) as (m2 & -> & H2).
    pose proof (exact_order (Z.abs a) (Z.abs b) _ _ ltac:(lia) ltac:(lia) H1 H2) as Hab.
    pose proof (exact_order (Z.abs b) (Z.abs a) _ _ ltac:(lia) ltac:(lia) H2 H1) as Hba. cbv zeta in Hab, Hba. unfold lex3.
    destruct (Z.ltb_spec a 0), (Z.ltb_spec b 0); cbn [double_key fst snd]; lia.
Qed.

(** The quotient of integers as doubles, by a positive one. *)
Lemma double_div_number a b : 0 < b < 2 ^ 53 -> is_number (double_div (double_of a) (double_of b)).
Proof.
  intros Hb. assert (Hb' : exact_int b) by (unfold exact_int; lia). destruct (double_of_exact b Hb' ltac:(lia)) as (mb & -> & _).
  pose proof (double_of_number a) as Ha. destruct (double_of a) as [s|s| |s m e]; try done. unfold double_div, SFdiv.
  destruct (SFdiv_core_binary 53 1024 (Z.pos m) e (Z.pos mb) _) as [[q e'] l] eqn:E. apply round_aux_number.
  unfold SFdiv_core_binary in E. match type of E with (let '(_, _) := Z.div_eucl ?x ?y in _) = _ => set (n := x) in E end.
  assert (Hn : 0 <= n) by (subst n; match goal with |- context [match ?k with _ => _ end] => destruct k end; try lia; apply Z.shiftl_nonneg; lia).
  pose proof (Z.div_pos n (Z.pos mb) Hn ltac:(lia)) as Hq. unfold Z.div in Hq. destruct (Z.div_eucl n (Z.pos mb)). by injection E as <- _ _.
Qed.

(** ** [qsort] *)

(** A comparison as [qsort] requires it, on the elements of a list. *)
Definition consistent {A} (cmp : A -> A -> Z) (l : list A) : Prop :=
  (forall x y, x ∈ l -> y ∈ l -> cmp x y <= 0 \/ cmp y x <= 0) /\
  (forall x y z, x ∈ l -> y ∈ l -> z ∈ l -> cmp x y <= 0 -> cmp y z <= 0 -> cmp x z <= 0).

Class QSort := qsort : forall {A : Type}, (A -> A -> Z) -> list A -> list A.

Class QSortLaws `{QSort} := law_qsort : forall A (cmp : A -> A -> Z) (l : list A), consistent cmp l ->
  qsort cmp l ≡ₚ l /\ StronglySorted (fun x y => cmp x y <= 0) (qsort cmp l).

(** An implementation: insertion sort. *)
Fixpoint insert_sorted {A} (cmp : A -> A -> Z) (x : A) (l : list A) : list A :=
  match l with
  | [] => [x]
  | y :: l => if cmp x y <=? 0 then x :: y :: l else y :: insert_sorted cmp x l
  end.

Definition insertion_sort {A} (cmp : A -> A -> Z) (l : list A) : list A := foldr (insert_sorted cmp) [] l.

Lemma insert_sorted_perm {A} (cmp : A -> A -> Z) x l : insert_sorted cmp x l ≡ₚ x :: l.
Proof. induction l as [|y l IH]; cbn; [done|]. destruct (cmp x y <=? 0); [done|]. rewrite IH. constructor. Qed.

Lemma insertion_sort_perm {A} (cmp : A -> A -> Z) l : insertion_sort cmp l ≡ₚ l.
Proof. induction l as [|x l IH]; cbn; [done|]. by rewrite insert_sorted_perm, IH. Qed.

Lemma insert_sorted_sorted {A} (cmp : A -> A -> Z) x l : consistent cmp (x :: l) -> StronglySorted (fun x y => cmp x y <= 0) l ->
  StronglySorted (fun x y => cmp x y <= 0) (insert_sorted cmp x l).
Proof.
  intros [Htot Htr] Hs. revert Htot Htr. induction Hs as [|y l Hs IH Hy]; intros Htot Htr; cbn; [repeat constructor|].
  destruct (Z.leb_spec (cmp x y) 0) as [Hc|Hc].
  - constructor; [by constructor|]. constructor; [done|]. rewrite list.Forall_forall in Hy |- *. intros z Hz.
    apply (Htr x y z); [set_solver..|done|by apply Hy].
  - constructor.
    + apply IH; [intros; apply Htot; set_solver|intros ? b ?; intros; eapply (Htr _ b); set_solver].
    + rewrite list.Forall_forall in Hy |- *. intros z Hz. rewrite insert_sorted_perm in Hz. apply elem_of_cons in Hz as [->|Hz]; [|by apply Hy].
      destruct (Htot x y); [set_solver..|lia|done].
Qed.

Definition insertion_qsort : QSort := @insertion_sort.

Lemma insertion_qsort_laws : @QSortLaws insertion_qsort.
Proof.
  intros A cmp l Hc. split; [apply insertion_sort_perm|]. unfold qsort, insertion_qsort.
  induction l as [|x l IH]; cbn; [constructor|]. destruct Hc as [Htot Htr]. apply insert_sorted_sorted.
  - assert (Hp : forall a, a ∈ x :: insertion_sort cmp l -> a ∈ x :: l) by (intros a; by rewrite insertion_sort_perm).
    split; [intros a b Ha Hb; apply Htot; by apply Hp|intros a b c Ha Hb Hd; apply Htr; by apply Hp].
  - apply IH. split; [intros; apply Htot; set_solver|intros ? b ?; intros; eapply (Htr _ b); set_solver].
Qed.

(** ** Orders given by comparison functions *)

Record ordering {A} (P : A -> Prop) (cmp : A -> A -> Z) : Prop := mkOrdering {
  ord_anti : forall x y, P x -> P y -> cmp y x = - cmp x y;
  ord_trans : forall x y z, P x -> P y -> P z -> cmp x y <= 0 -> cmp y z <= 0 -> cmp x z <= 0 }.

Lemma ordering_consistent {A} (P : A -> Prop) cmp l : ordering P cmp -> Forall P l -> consistent cmp l.
Proof.
  intros [Ha Ht] Hl. rewrite list.Forall_forall in Hl. split.
  - intros x y Hx Hy. rewrite (Ha x y) by auto. lia.
  - intros x y z Hx Hy Hz. apply Ht; auto.
Qed.

Lemma ordering_neg {A} (P : A -> Prop) cmp : ordering P cmp -> ordering P (fun x y => - cmp x y).
Proof.
  intros [Ha Ht]. split; [intros x y Hx Hy; rewrite (Ha x y) by done; lia|].
  intros x y z Hx Hy Hz H1 H2. rewrite <- Ha in H1, H2 |- * by done. by apply (Ht z y x).
Qed.

Lemma ordering_map {A B} (f : A -> B) (P : B -> Prop) (Q : A -> Prop) cmp : ordering P cmp -> (forall x, Q x -> P (f x)) -> ordering Q (fun x y => cmp (f x) (f y)).
Proof. intros [Ha Ht] HQ. split; [intros; apply Ha; auto|intros x y z; intros; apply (Ht _ (f y)); auto]. Qed.

Lemma ordering_zero {A} (P : A -> Prop) : ordering P (fun _ _ => 0).
Proof. split; [done|lia]. Qed.

Lemma ordering_lex {A} (P : A -> Prop) c1 c2 : ordering P c1 -> ordering P c2 -> ordering P (fun x y => if c1 x y =? 0 then c2 x y else c1 x y).
Proof.
  intros [A1 T1] [A2 T2]. split.
  - intros x y Hx Hy. rewrite (A1 x y), (A2 x y) by done. destruct (Z.eqb_spec (- c1 x y) 0), (Z.eqb_spec (c1 x y) 0); lia.
  - intros x y z Hx Hy Hz.
    pose proof (T1 x y z Hx Hy Hz) as Hxz. pose proof (T1 z x y Hz Hx Hy) as Hzy. pose proof (T1 y z x Hy Hz Hx) as Hyx.
    pose proof (A1 x z Hx Hz). pose proof (A1 y z Hy Hz). pose proof (A1 x y Hx Hy). pose proof (T2 x y z Hx Hy Hz).
    destruct (Z.eqb_spec (c1 x y) 0), (Z.eqb_spec (c1 y z) 0), (Z.eqb_spec (c1 x z) 0); lia.
Qed.

Lemma ordering_ext {A} (P : A -> Prop) c1 c2 : (forall x y, P x -> P y -> c1 x y = c2 x y) -> ordering P c1 -> ordering P c2.
Proof.
  intros He [Ha Ht]. split; [intros x y Hx Hy; rewrite <- !He by done; auto|]. intros x y z Hx Hy Hz. rewrite <- !He by done. by apply Ht.
Qed.

Lemma ordering_double : ordering is_number double_sign.
Proof.
  unfold double_sign. split.
  - intros x y Hx Hy. pose proof (double_lt_key x y Hx Hy) as H1. pose proof (double_lt_key y x Hy Hx) as H2. unfold lex3 in *.
    destruct (double_lt x y), (double_lt y x); lia.
  - intros x y z Hx Hy Hz. pose proof (double_lt_key x y Hx Hy) as H1. pose proof (double_lt_key y x Hy Hx) as H2.
    pose proof (double_lt_key y z Hy Hz) as H3. pose proof (double_lt_key z y Hz Hy) as H4. pose proof (double_lt_key x z Hx Hz) as H5. pose proof (double_lt_key z x Hz Hx) as H6.
    unfold lex3 in *. generalize dependent (double_key x). intros kx H1 H2. generalize dependent (double_key y). intros ky. generalize dependent (double_key z). intros kz.
    destruct (double_lt x y), (double_lt y x), (double_lt y z), (double_lt z y), (double_lt x z), (double_lt z x); lia.
Qed.
