(* ===== verification/Rowset.v ===== *)
(** * Sorting, projection and aggregation of a set of rows (src/src/db.c: value_cmp, compute_cell, emit_out_rows, aggregate_rowset)

    The rows are those a scan or a join has collected.  The sort keys that the code
    keeps in file-static arrays are arguments.  [None] is a read of something
    undefined: a field of a value of the other type, the first row of an empty set,
    a sum outside [long].  An error message with the return code -1 is [Some None];
    otherwise the result is the list of printed rows. *)
From stdpp Require Import strings sorting.
From S2P Require Import Prelude SqlLex SqlParse Where Double.

Definition SELECT_MAX_ROWS : nat := 4096.

(** ** Comparison of rows *)

Definition null_value (v : Value) : bool := match v with VAL_NULL => true | _ => false end.

(** NULL is the greatest value. *)
Definition value_cmp (x y : Value) : option Z :=
  match x, y with
  | VAL_NULL, VAL_NULL => Some 0
  | VAL_NULL, _ => Some 1
  | _, VAL_NULL => Some (-1)
  | VAL_INT a, VAL_INT b => Some (int_sign a b)
  | VAL_TEXT a, VAL_TEXT b => Some (strcmp a b)
  | _, _ => None
  end.

(** A sort key: the position of a column and whether it is descending. *)
Abbreviation SortKey := (nat * bool)%type.

Fixpoint row_cmp (keys : list SortKey) (x y : list Value) : option Z :=
  match keys with
  | [] => Some 0
  | (i, desc) :: keys =>
      a ← x !! i; b ← y !! i;
      c ← value_cmp a b;
      if c =? 0 then row_cmp keys x y else Some (if (desc : bool) then - c else c)
  end.

(** ** Output cells *)

Record OutCell := mkCell { oc_null : bool; oc_text : bool; oc_num : double; oc_str : bytes }.

Definition cell0 : OutCell := mkCell false false (double_of 0) [].
Definition null_cell : OutCell := mkCell true false (double_of 0) [].
Definition num_cell (x : double) : OutCell := mkCell false false x [].
Definition text_cell (s : bytes) : OutCell := mkCell false true (double_of 0) s.

Definition cell_of (v : Value) : OutCell :=
  match v with VAL_NULL => null_cell | VAL_TEXT s => text_cell s | VAL_INT z => num_cell (double_of z) end.

(** NULL is the least value here. *)
Definition value_less (a b : Value) : option bool :=
  match a, b with
  | VAL_NULL, VAL_NULL => Some false
  | VAL_NULL, _ => Some true
  | _, VAL_NULL => Some false
  | VAL_INT x, VAL_INT y => Some (x <? y)
  | VAL_TEXT x, VAL_TEXT y => Some (strcmp x y <? 0)
  | _, _ => None
  end.

(** The column of the item in the rows of the interval. *)
Definition column (ci : option nat) (rows : list (list Value)) : option (list Value) := ci ← ci; mapM (fun r => r !! ci) rows.

Definition long_add (a b : Z) : option Z := if (- 2 ^ 63 <=? a + b) && (a + b <? 2 ^ 63) then Some (a + b) else None.

Fixpoint sum_cells (vals : list Value) (sum cnt : Z) : option (Z * Z) :=
  match vals with
  | [] => Some (sum, cnt)
  | VAL_NULL :: vals => sum_cells vals sum cnt
  | VAL_INT z :: vals => sum ← long_add sum z; sum_cells vals sum (cnt + 1)
  | VAL_TEXT _ :: _ => None
  end.

Fixpoint best_cell (least : bool) (vals : list Value) (best : option Value) : option (option Value) :=
  match vals with
  | [] => Some best
  | VAL_NULL :: vals => best_cell least vals best
  | v :: vals =>
      match best with
      | None => best_cell least vals (Some v)
      | Some b => better ← (if (least : bool) then value_less v b else value_less b v);
                  best_cell least vals (if (better : bool) then Some v else Some b)
      end
  end.

Definition compute_cell (it : SelectItem) (ci : option nat) (rows : list (list Value)) : option OutCell :=
  match si_agg it with
  | AGG_NONE => r ← head rows; i ← ci; v ← r !! i; Some (cell_of v)
  | AGG_COUNT =>
      if si_star it then Some (num_cell (double_of (Z.of_nat (length rows))))
      else vals ← column ci rows; Some (num_cell (double_of (Z.of_nat (length (filter (fun v => null_value v = false) vals)))))
  | AGG_SUM | AGG_AVG =>
      vals ← column ci rows;
      '(sum, cnt) ← sum_cells vals 0 0;
      Some (if cnt =? 0 then null_cell
            else match si_agg it with AGG_SUM => num_cell (double_of sum) | _ => num_cell (double_div (double_of sum) (double_of cnt)) end)
  | AGG_MIN | AGG_MAX =>
      vals ← column ci rows;
      best ← best_cell (bool_decide (si_agg it = AGG_MIN)) vals None;
      Some (match best with None => null_cell | Some v => cell_of v end)
  end.

(** What a cell prints as: %g for an average, %ld for other numbers. *)
Inductive Printed := PNull | PText (s : bytes) | PG (x : double) | PLong (z : Z).

Definition print_cell (it : SelectItem) (c : OutCell) : option Printed :=
  if oc_null c then Some PNull
  else if oc_text c then Some (PText (oc_str c))
  else if decide (si_agg it = AGG_AVG) then Some (PG (oc_num c))
  else PLong <$> long_of (oc_num c).

Definition print_out (items : list SelectItem) (row : list OutCell) : option (list Printed) := mapM (fun p => print_cell p.1 p.2) (zip items row).

(** ** Ordering and windows of output rows *)

Definition b2z (b : bool) : Z := if b then 1 else 0.

Definition outcell_cmp (x y : OutCell) : Z :=
  if oc_null x || oc_null y then b2z (oc_null x) - b2z (oc_null y)
  else if oc_text x then strcmp (oc_str x) (oc_str y)
  else double_sign (oc_num x) (oc_num y).

Definition out_at (row : list OutCell) (i : nat) : OutCell := default cell0 (row !! i).

Fixpoint outrow_cmp (keys : list SortKey) (x y : list OutCell) : Z :=
  match keys with
  | [] => 0
  | (i, desc) :: keys =>
      let c := outcell_cmp (out_at x i) (out_at y i) in
      if c =? 0 then outrow_cmp keys x y else if (desc : bool) then - c else c
  end.

(** DISTINCT: rows of the same width compared cell by cell. *)
Fixpoint outrow_cmp_all (x y : list OutCell) : Z :=
  match x, y with
  | a :: x, b :: y =>
      if oc_null a || oc_null b then
        let d := b2z (oc_null a) - b2z (oc_null b) in if d =? 0 then outrow_cmp_all x y else d
      else if oc_text a then
        let d := strcmp (oc_str a) (oc_str b) in if d =? 0 then outrow_cmp_all x y else d
      else if double_lt (oc_num a) (oc_num b) then -1
      else if double_lt (oc_num b) (oc_num a) then 1
      else outrow_cmp_all x y
  | _, _ => 0
  end.

Definition outcells_equal (a b : OutCell) : bool :=
  if negb (Bool.eqb (oc_null a) (oc_null b)) then false
  else if oc_null a then true
  else if negb (Bool.eqb (oc_text a) (oc_text b)) then false
  else if oc_text a then strcmp (oc_str a) (oc_str b) =? 0
  else double_eq (oc_num a) (oc_num b).

Fixpoint outrows_equal (x y : list OutCell) : bool :=
  match x, y with
  | a :: x, b :: y => if outcells_equal a b then outrows_equal x y else false
  | _, _ => true
  end.

(** The printing loop with OFFSET and LIMIT; [i] counts rows, [printed] those printed. *)
Fixpoint window {A} (limit offset : Z) (i printed : Z) (rows : list A) : list A :=
  match rows with
  | [] => []
  | r :: rows =>
      if i <? offset then window limit offset (i + 1) printed rows
      else if (0 <=? limit) && (limit <=? printed) then []
      else r :: window limit offset (i + 1) (printed + 1) rows
  end.

(** Adjacent duplicates removed; [last] is the last row kept. *)
Fixpoint uniq (last : option (list OutCell)) (rows : list (list OutCell)) : list (list OutCell) :=
  match rows with
  | [] => []
  | r :: rows =>
      if match last with None => true | Some l => negb (outrows_equal l r) end then r :: uniq (Some r) rows else uniq last rows
  end.

Section Rowset.
Context `{QSort}.

(** [qsort] on a comparison that is defined for every pair of rows. *)
Definition comparable (keys : list SortKey) (rows : list (list Value)) : bool :=
  forallb (fun x => forallb (fun y => bool_decide (is_Some (row_cmp keys x y))) rows) rows.

Definition sort_rows (keys : list SortKey) (rows : list (list Value)) : option (list (list Value)) :=
  if comparable keys rows then Some (qsort (fun x y => default 0 (row_cmp keys x y)) rows) else None.

(** The output column of an ORDER BY key, the last of that name. *)
Fixpoint last_item (items : list SelectItem) (col : bytes) (j : nat) (found : option nat) : option nat :=
  match items with
  | [] => found
  | it :: items => last_item items col (S j) (if decide (si_agg it = AGG_NONE /\ si_col it = col) then Some j else found)
  end.

Definition out_key (items : list SelectItem) (ok : OrderKey) : option SortKey :=
  if 0 <? o_pos ok then
    if Z.of_nat (length items) <? o_pos ok then None else Some (Z.to_nat (o_pos ok - 1), o_desc ok)
  else j ← last_item items (o_col ok) 0 None; Some (j, o_desc ok).

Definition emit_out_rows (h : SelectHead) (outbuf : list (list OutCell)) : option (option (list (list Printed))) :=
  match (match s_order h with [] => Some outbuf | order => keys ← mapM (out_key (s_items h)) order; Some (qsort (outrow_cmp keys) outbuf) end) with
  | None => Some None
  | Some outbuf => out ← mapM (print_out (s_items h)) (window (s_limit h) (s_offset h) 0 0 outbuf); Some (Some out)
  end.

(** ** Columns of the rows *)

Record ColRef := mkColRef { cr_tbl : bytes; cr_col : bytes; cr_is_int : bool }.

Fixpoint find_col (cols : list ColRef) (qtbl col : bytes) : option nat :=
  match cols with
  | [] => None
  | c :: cols =>
      if negb (bool_decide (qtbl = [])) && negb (bool_decide (qtbl = cr_tbl c)) then S <$> find_col cols qtbl col
      else if decide (cr_col c = col) then Some O
      else S <$> find_col cols qtbl col
  end.

Definition count_star (it : SelectItem) : bool := bool_decide (si_agg it = AGG_COUNT) && si_star it.

(** [Some None] is the position -1 of a COUNT of all rows. *)
Definition item_col (cols : list ColRef) (it : SelectItem) : option (option nat) :=
  if count_star it then Some None
  else
    ci ← find_col cols (si_tbl it) (si_col it);
    c ← cols !! ci;
    if match si_agg it with AGG_SUM | AGG_AVG => negb (cr_is_int c) | _ => false end then None else Some (Some ci).

Definition grouped (h : SelectHead) : bool := negb (bool_decide (s_group_col h = [])).

Definition having_col (h : SelectHead) (cols : list ColRef) : option (option nat) :=
  if s_has_having h && negb (count_star (s_having_agg h)) then Some <$> find_col cols (si_tbl (s_having_agg h)) (si_col (s_having_agg h))
  else Some None.

(** ** Projection *)

Definition project (items : list SelectItem) (cis : list (option nat)) (rows : list (list Value)) : option (list OutCell) :=
  mapM (fun p => compute_cell p.1 p.2 rows) (zip items cis).

Definition distinct_rows (h : SelectHead) (cis : list (option nat)) (rows : list (list Value)) : option (list (list OutCell)) :=
  outbuf ← mapM (fun r => project (s_items h) cis [r]) (take SELECT_MAX_ROWS rows);
  Some (uniq None (qsort outrow_cmp_all outbuf)).

(** The position of an ORDER BY key in the rows. *)
Definition proj_key (cols : list ColRef) (cis : list (option nat)) (ok : OrderKey) : option SortKey :=
  if 0 <? o_pos ok then
    if Z.of_nat (length cis) <? o_pos ok then None
    else ci ← cis !! Z.to_nat (o_pos ok - 1); ci ← ci; Some (ci, o_desc ok)
  else i ← find_col cols (o_tbl ok) (o_col ok); Some (i, o_desc ok).

Definition project_rows (h : SelectHead) (cols : list ColRef) (cis : list (option nat)) (rows : list (list Value)) :
  option (option (list (list Printed))) :=
  match mapM (proj_key cols cis) (s_order h) with
  | None => Some None
  | Some keys =>
      rows ← (match keys with [] => Some rows | _ => sort_rows keys rows end);
      out ← mapM (fun r => cells ← project (s_items h) cis [r]; print_out (s_items h) cells) (window (s_limit h) (s_offset h) 0 0 rows);
      Some (Some out)
  end.

(** ** Groups *)

Definition cell_at (gci : nat) (r : list Value) : Value := default VAL_NULL (r !! gci).

(** The run that starts at the first row, and the rest. *)
Fixpoint take_run (gci : nat) (key : Value) (rows : list (list Value)) : list (list Value) * list (list Value) :=
  match rows with
  | [] => ([], [])
  | r :: rows' =>
      if values_equal key (cell_at gci r) then let '(run, rest) := take_run gci key rows' in (r :: run, rest) else ([], rows)
  end.

(** Fuel: a run is not empty. *)
Fixpoint key_groups (fuel : nat) (gci : nat) (rows : list (list Value)) : list (list (list Value)) :=
  match fuel, rows with
  | S fuel, r :: rows => let '(run, rest) := take_run gci (cell_at gci r) rows in (r :: run) :: key_groups fuel gci rest
  | _, _ => []
  end.

Definition having_pass (h : SelectHead) (hci : option nat) (grp : list (list Value)) : option bool :=
  if s_has_having h then
    hc ← compute_cell (s_having_agg h) hci grp;
    Some (if oc_text hc then match s_having_val h with VAL_TEXT s => cmp_apply (s_having_op h) (strcmp (oc_str hc) s) | _ => false end
          else match s_having_val h with VAL_INT z => cmp_apply (s_having_op h) (double_sign (oc_num hc) (double_of z)) | _ => false end)
  else Some true.

(** One output row per group that passes, up to the size of the buffer. *)
Fixpoint group_rows (h : SelectHead) (cis : list (option nat)) (hci : option nat) (grps : list (list (list Value))) (out : list (list OutCell)) :
  option (list (list OutCell)) :=
  match grps with
  | [] => Some out
  | g :: grps =>
      pass ← having_pass h hci g;
      if (pass : bool) && bool_decide (length out < SELECT_MAX_ROWS)%nat then
        row ← project (s_items h) cis g; group_rows h cis hci grps (out ++ [row])
      else group_rows h cis hci grps out
  end.

Definition aggregate_rowset (h : SelectHead) (rows : list (list Value)) (cols : list ColRef) : option (option (list (list Printed))) :=
  match mapM (item_col cols) (s_items h) with
  | None => Some None
  | Some cis =>
      match (if grouped h then Some <$> find_col cols (s_group_tbl h) (s_group_col h) else Some None) with
      | None => Some None
      | Some gci =>
          match having_col h cols with
          | None => Some None
          | Some hci =>
              if negb (grouped h) && negb (s_has_aggregate h) then
                if s_distinct h then outbuf ← distinct_rows h cis rows; emit_out_rows h outbuf
                else project_rows h cols cis rows
              else
                grps ← (match gci with
                        | Some gci => rows ← sort_rows [(gci, false)] rows; Some (key_groups (length rows) gci rows)
                        | None => Some [rows]
                        end);
                outbuf ← group_rows h cis hci grps [];
                emit_out_rows h outbuf
          end
      end
  end.
End Rowset.

(** ** Orders *)

Lemma int_sign_ordering : ordering (fun _ => True) int_sign.
Proof.
  unfold int_sign. split; [intros x y _ _; destruct (Z.ltb_spec x y), (Z.ltb_spec y x); lia|].
  intros x y z _ _ _. destruct (Z.ltb_spec x y), (Z.ltb_spec y x), (Z.ltb_spec y z), (Z.ltb_spec z y), (Z.ltb_spec x z), (Z.ltb_spec z x); lia.
Qed.

Lemma strcmp_anti a : forall b, strcmp b a = - strcmp a b.
Proof. induction a as [|x a IH]; intros [|y b]; cbn; try done. destruct (Z.ltb_spec x y), (Z.ltb_spec y x); try lia. apply IH. Qed.

Lemma strcmp_zero a : forall b, strcmp a b = 0 <-> a = b.
Proof.
  induction a as [|x a IH]; intros [|y b]; cbn; try done. destruct (Z.ltb_spec x y); [split; [done|intros [=]; lia]|].
  destruct (Z.ltb_spec y x); [split; [done|intros [=]; lia]|]. rewrite IH. split; [intros ->; f_equal; lia|by intros [= _ ->]].
Qed.

Lemma strcmp_trans a : forall b c, strcmp a b <= 0 -> strcmp b c <= 0 -> strcmp a c <= 0.
Proof.
  induction a as [|x a IH]; intros [|y b] [|z c]; cbn; try lia.
  destruct (Z.ltb_spec x y), (Z.ltb_spec y z), (Z.ltb_spec x z), (Z.ltb_spec y x), (Z.ltb_spec z y), (Z.ltb_spec z x); try lia. apply IH.
Qed.

Lemma strcmp_ordering : ordering (fun _ => True) strcmp.
Proof. split; [intros; apply strcmp_anti|intros ? b ? _ _ _; apply strcmp_trans]. Qed.

(** A column holds values of one type, or NULL. *)
Definition has_type (int : bool) (v : Value) : Prop :=
  match v with VAL_INT _ => int = true | VAL_TEXT _ => int = false | VAL_NULL => True end.

Lemma value_cmp_some int x y : has_type int x -> has_type int y -> is_Some (value_cmp x y).
Proof. destruct x, y; cbn; intros; subst; done || by eexists. Qed.

Lemma value_cmp_ordering int : ordering (has_type int) (fun x y => default 0 (value_cmp x y)).
Proof.
  split.
  - intros [] []; cbn; intros; subst; try done; [by apply (ord_anti _ _ int_sign_ordering)|apply strcmp_anti].
  - intros [a|a|] [b|b|] [c|c|]; cbn; intros; subst; try done; try lia; [by apply (ord_trans _ _ int_sign_ordering a b c)|by apply (strcmp_trans a b c)].
Qed.

Definition typed_row (ints : list bool) (row : list Value) : Prop := Forall2 has_type ints row.
Definition key_ok (ints : list bool) (k : SortKey) : Prop := (k.1 < length ints)%nat.

Lemma typed_lookup ints row i : typed_row ints row -> (i < length ints)%nat -> exists int v, ints !! i = Some int /\ row !! i = Some v /\ has_type int v.
Proof.
  intros Hr Hi. destruct (lookup_lt_is_Some_2 ints i Hi) as [int Hint]. destruct (Forall2_lookup_l _ _ _ _ _ Hr Hint) as (v & Hv & Ht). eauto.
Qed.

Definition cell_cmp (i : nat) (x y : list Value) : Z := default 0 (a ← x !! i; b ← y !! i; value_cmp a b).

Lemma cell_cmp_ordering ints i : (i < length ints)%nat -> ordering (typed_row ints) (cell_cmp i).
Proof.
  intros Hi. destruct (lookup_lt_is_Some_2 ints i Hi) as [int Hint].
  apply (ordering_ext _ (fun x y => default 0 (value_cmp (default VAL_NULL (x !! i)) (default VAL_NULL (y !! i))))).
  - intros x y Hx Hy. destruct (typed_lookup _ _ _ Hx Hi) as (? & a & _ & Ha & _). destruct (typed_lookup _ _ _ Hy Hi) as (? & b & _ & Hb & _).
    unfold cell_cmp. by rewrite Ha, Hb.
  - apply (ordering_map (fun x : list Value => default VAL_NULL (x !! i)) (has_type int) _ (fun x y => default 0 (value_cmp x y))); [apply value_cmp_ordering|].
    intros x Hx. destruct (typed_lookup _ _ _ Hx Hi) as (int' & a & Hint' & Ha & Ht). rewrite Ha. cbn. congruence.
Qed.

Lemma row_cmp_step ints i desc keys x y : typed_row ints x -> typed_row ints y -> (i < length ints)%nat ->
  row_cmp ((i, desc) :: keys) x y = if cell_cmp i x y =? 0 then row_cmp keys x y else Some (if desc then - cell_cmp i x y else cell_cmp i x y).
Proof.
  intros Hx Hy Hi. destruct (typed_lookup _ _ _ Hx Hi) as (int & a & Hint & Ha & Hta). destruct (typed_lookup _ _ _ Hy Hi) as (int' & b & Hint' & Hb & Htb).
  assert (int' = int) as -> by congruence. destruct (value_cmp_some int a b Hta Htb) as [c Hc]. unfold cell_cmp. cbn [row_cmp]. rewrite Ha, Hb. cbn [mbind option_bind]. by rewrite Hc.
Qed.

Lemma row_cmp_some ints keys x y : typed_row ints x -> typed_row ints y -> Forall (key_ok ints) keys -> is_Some (row_cmp keys x y).
Proof.
  intros Hx Hy. induction 1 as [|[i desc] keys Hk _ IH]; [by eexists|]. rewrite (row_cmp_step ints) by done. destruct (_ =? 0); [done|by eexists].
Qed.

Lemma row_cmp_ordering ints keys : Forall (key_ok ints) keys -> ordering (typed_row ints) (fun x y => default 0 (row_cmp keys x y)).
Proof.
  induction 1 as [|[i desc] keys Hk _ IH]; [apply ordering_zero|].
  apply (ordering_ext _ (fun x y => if (if desc then - cell_cmp i x y else cell_cmp i x y) =? 0 then default 0 (row_cmp keys x y)
    else if desc then - cell_cmp i x y else cell_cmp i x y)).
  - intros x y Hx Hy. rewrite (row_cmp_step ints) by done. destruct desc; [|by destruct (Z.eqb_spec (cell_cmp i x y) 0)].
    destruct (Z.eqb_spec (- cell_cmp i x y) 0), (Z.eqb_spec (cell_cmp i x y) 0); try lia; done.
  - apply ordering_lex; [|exact IH]. pose proof (cell_cmp_ordering ints i Hk) as Ho. destruct desc; [by apply ordering_neg|done].
Qed.

(** *** What the order means *)

Definition text_lt (a b : bytes) : Prop :=
  (exists y s, b = a ++ y :: s) \/ (exists p x y s t, a = p ++ x :: s /\ b = p ++ y :: t /\ x < y).

Definition value_lt (x y : Value) : Prop :=
  match x, y with
  | VAL_INT a, VAL_INT b => a < b
  | VAL_TEXT a, VAL_TEXT b => text_lt a b
  | VAL_NULL, _ => False
  | _, VAL_NULL => True
  | _, _ => False
  end.

(** The first key on which the rows differ decides. *)
Fixpoint row_lt (keys : list SortKey) (x y : list Value) : Prop :=
  match keys with
  | [] => False
  | (i, desc) :: keys =>
      match x !! i, y !! i with
      | Some a, Some b => (if (desc : bool) then value_lt b a else value_lt a b) \/ a = b /\ row_lt keys x y
      | _, _ => False
      end
  end.

Lemma strcmp_lt a : forall b, strcmp a b < 0 <-> text_lt a b.
Proof.
  induction a as [|x a IH]; intros [|y b]; cbn.
  - split; [lia|]. intros [(? & ? & [=])|([|? ?] & ? & ? & ? & ? & [=] & _)].
  - split; [|lia]. intros _. left. by exists y, b.
  - split; [lia|]. intros [(? & ? & [=])|([|? ?] & ? & ? & ? & ? & ? & [=] & _)].
  - destruct (Z.ltb_spec x y); [|destruct (Z.ltb_spec y x)].
    + split; [|lia]. intros _. right. by exists [], x, y, a, b.
    + split; [lia|]. intros [(? & ? & [= -> _])|(p & u & v & s & t & E1 & E2 & ?)]; [lia|]. destruct p; cbn in *; simplify_eq; lia.
    + assert (x = y) as -> by lia. rewrite IH. unfold text_lt. split.
      * intros [(? & ? & ->)|(p & u & v & s & t & -> & -> & ?)]; [left; eauto|right]. by exists (y :: p), u, v, s, t.
      * intros [(? & ? & [= ->])|(p & u & v & s & t & E1 & E2 & ?)]; [left; eauto|right]. destruct p as [|z p]; cbn in *; simplify_eq; [lia|].
        by exists p, u, v, s, t.
Qed.

Lemma value_cmp_lt int x y : has_type int x -> has_type int y -> default 0 (value_cmp x y) < 0 <-> value_lt x y.
Proof.
  destruct x as [a|a|], y as [b|b|]; cbn; intros; subst; try done; try lia; [|apply strcmp_lt].
  unfold int_sign. destruct (Z.ltb_spec a b), (Z.ltb_spec b a); lia.
Qed.

Lemma value_cmp_zero int x y : has_type int x -> has_type int y -> default 0 (value_cmp x y) = 0 <-> x = y.
Proof.
  destruct x as [a|a|], y as [b|b|]; cbn; intros; subst; try done; try (split; [lia|done]).
  - unfold int_sign. destruct (Z.ltb_spec a b), (Z.ltb_spec b a); split; try lia; try (intros [=]; lia). intros _. f_equal. lia.
  - rewrite strcmp_zero. split; [by intros ->|by intros [=]].
Qed.

Lemma row_cmp_lt ints keys x y : typed_row ints x -> typed_row ints y -> Forall (key_ok ints) keys ->
  default 0 (row_cmp keys x y) < 0 <-> row_lt keys x y.
Proof.
  intros Hx Hy. induction 1 as [|[i desc] keys Hk _ IH]; [cbn; lia|]. rewrite (row_cmp_step ints) by done. cbn [row_lt]. unfold cell_cmp.
  destruct (typed_lookup _ _ _ Hx Hk) as (int & a & Hint & Ha & Hta). destruct (typed_lookup _ _ _ Hy Hk) as (int' & b & Hint' & Hb & Htb).
  cbn [fst] in *. assert (int' = int) as -> by congruence. rewrite Ha, Hb. cbn [mbind option_bind].
  pose proof (value_cmp_lt int a b Hta Htb) as H1. pose proof (value_cmp_lt int b a Htb Hta) as H2. pose proof (value_cmp_zero int a b Hta Htb) as H3.
  pose proof (ord_anti _ _ (value_cmp_ordering int) a b Hta Htb) as H4. cbn in H4. rewrite H4 in H2.
  destruct (value_cmp_some int a b Hta Htb) as [c Hc]. rewrite Hc in *. cbn [default from_option id] in *.
  destruct (Z.eqb_spec c 0) as [->|Hne].
  - rewrite IH. destruct H3 as [H3 _]. specialize (H3 eq_refl). destruct desc; naive_solver lia.
  - destruct desc; cbn [default from_option id]; naive_solver lia.
Qed.

Section Sorted.
Context `{QSortLaws}.

(** Sorting gives the rows in an order in which no row comes after a greater one. *)
Lemma sort_rows_spec ints keys rows : Forall (typed_row ints) rows -> Forall (key_ok ints) keys ->
  exists rows', sort_rows keys rows = Some rows' /\ rows' ≡ₚ rows /\ StronglySorted (fun x y => ~ row_lt keys y x) rows'.
Proof.
  intros Hr Hk. pose proof (row_cmp_ordering ints keys Hk) as Ho.
  destruct (law_qsort _ _ rows (ordering_consistent _ _ _ Ho Hr)) as [Hp Hs]. unfold sort_rows.
  assert (Hc : comparable keys rows = true).
  { rewrite list.Forall_forall in Hr. apply forallb_forall. intros x Hx%list_elem_of_In. apply forallb_forall. intros y Hy%list_elem_of_In.
    apply bool_decide_eq_true. eapply row_cmp_some; eauto. }
  rewrite Hc. eexists. split; [done|]. split; [exact Hp|]. revert Hs.
  assert (Hr' : Forall (typed_row ints) (qsort (fun x y => default 0 (row_cmp keys x y)) rows)) by (by rewrite Hp).
  generalize dependent (qsort (fun x y => default 0 (row_cmp keys x y)) rows). intros l _ Hl. induction 1 as [|x l Hs IH Hx]; [constructor|].
  inversion_clear Hl as [|? ? Hx1 Hl1]. constructor; [by apply IH|]. rewrite list.Forall_forall in Hl1, Hx |- *. intros y Hy Hlt.
  specialize (Hx y Hy). cbn in Hx. apply (row_cmp_lt ints) in Hlt; [|auto..]. rewrite (ord_anti _ _ Ho x y) in Hlt by auto. lia.
Qed.
End Sorted.

(** ** LIMIT and OFFSET *)

Definition limited {A} (limit : Z) (rows : list A) : list A := if 0 <=? limit then take (Z.to_nat limit) rows else rows.

Lemma window_past {A} limit offset (rows : list A) : forall i printed, offset <= i -> 0 <= printed ->
  window limit offset i printed rows = limited (if 0 <=? limit then Z.max 0 (limit - printed) else limit) rows.
Proof.
  unfold limited. induction rows as [|r rows IH]; intros i printed Hi Hp; cbn [window]; [by destruct (0 <=? _); rewrite ?take_nil|].
  destruct (Z.ltb_spec i offset); [lia|]. destruct (Z.leb_spec 0 limit) as [Hl|Hl]; cbn [andb].
  - destruct (Z.leb_spec limit printed) as [Hle|Hgt].
    + rewrite Z.max_l by lia. done.
    + rewrite IH by lia. destruct (Z.leb_spec 0 limit); [|lia]. rewrite !Z.max_r by lia. destruct (Z.leb_spec 0 (limit - (printed + 1))), (Z.leb_spec 0 (limit - printed)); try lia.
      replace (Z.to_nat (limit - printed)) with (S (Z.to_nat (limit - (printed + 1)))) by lia. done.
  - rewrite IH by lia. destruct (Z.leb_spec 0 limit); [lia|]. by destruct (Z.leb_spec 0 limit); [lia|].
Qed.

Lemma window_skip {A} limit offset (rows : list A) : forall i, 0 <= i <= offset ->
  window limit offset i 0 rows = window limit offset offset 0 (drop (Z.to_nat (offset - i)) rows).
Proof.
  induction rows as [|r rows IH]; intros i Hi; [by rewrite drop_nil|]. cbn [window]. destruct (Z.ltb_spec i offset).
  - rewrite IH by lia. f_equal. replace (Z.to_nat (offset - i)) with (S (Z.to_nat (offset - (i + 1)))) by lia. done.
  - assert (i = offset) as -> by lia. rewrite Z.sub_diag. cbn [Z.to_nat]. rewrite drop_0. cbn [window]. by destruct (Z.ltb_spec offset offset); [lia|].
Qed.

(** The loop prints the rows after the offset, up to the limit. *)
Lemma window_spec {A} limit offset (rows : list A) : window limit offset 0 0 rows = limited limit (drop (Z.to_nat offset) rows).
Proof.
  destruct (Z.le_gt_cases offset 0) as [Hn|Hp].
  - rewrite window_past by lia. replace (Z.to_nat offset) with 0%nat by lia. rewrite drop_0. unfold limited.
    destruct (Z.leb_spec 0 limit); [|by destruct (Z.leb_spec 0 limit); [lia|]]. rewrite Z.max_r, Z.sub_0_r by lia. by destruct (Z.leb_spec 0 limit); [|lia].
  - rewrite window_skip by lia. rewrite Z.sub_0_r, window_past by lia. unfold limited.
    destruct (Z.leb_spec 0 limit); [|by destruct (Z.leb_spec 0 limit); [lia|]]. rewrite Z.max_r, Z.sub_0_r by lia. by destruct (Z.leb_spec 0 limit); [|lia].
Qed.

(** ** Groups *)

Lemma values_equal_spec a b : values_equal a b = true <-> a = b /\ a <> VAL_NULL.
Proof.
  unfold values_equal. destruct a as [x|x|], b as [y|y|]; cbn; split; try done; try (by intros [[=] _]).
  - unfold int_sign. destruct (Z.ltb_spec x y), (Z.ltb_spec y x); try done. intros _. split; [f_equal; lia|done].
  - intros [[= ->] _]. unfold int_sign. destruct (Z.ltb_spec y y); [lia|done].
  - intros Hz%Z.eqb_eq%strcmp_zero. by subst.
  - intros [[= ->] _]. apply Z.eqb_eq. by apply strcmp_zero.
  - by intros [_ ?].
Qed.

(** Rows with equal keys together, except that rows whose key is NULL stand alone. *)
Record is_grouping (gci : nat) (rows : list (list Value)) (grps : list (list (list Value))) : Prop := {
  gr_rows : mjoin grps ≡ₚ rows;
  gr_key : forall g x y, g ∈ grps -> x ∈ g -> y ∈ g -> cell_at gci x = cell_at gci y;
  gr_null : forall g x, g ∈ grps -> x ∈ g -> cell_at gci x = VAL_NULL -> g = [x];
  gr_one : forall (i j : nat) g g' x y, grps !! i = Some g -> grps !! j = Some g' -> x ∈ g -> y ∈ g' ->
    cell_at gci x = cell_at gci y -> cell_at gci x <> VAL_NULL -> i = j;
  gr_nonempty : [] ∉ grps }.

Lemma take_run_spec gci key rows : forall run rest, take_run gci key rows = (run, rest) ->
  rows = run ++ rest /\ (forall r, r ∈ run -> cell_at gci r = key /\ key <> VAL_NULL) /\
  match rest with [] => True | r :: _ => values_equal key (cell_at gci r) = false end.
Proof.
  induction rows as [|r rows IH]; intros run rest; cbn [take_run]; [intros [= <- <-]; set_solver|].
  destruct (values_equal key (cell_at gci r)) eqn:E; [|intros [= <- <-]; set_solver].
  destruct (take_run gci key rows) as [run' rest']. intros [= <- <-]. destruct (IH _ _ eq_refl) as (-> & Hrun & Hrest).
  split; [done|]. split; [|done]. intros r' [->|Hr]%elem_of_cons; [|auto]. apply values_equal_spec in E as [-> ?]. done.
Qed.

Lemma value_lt_total int a b : has_type int a -> has_type int b -> ~ value_lt b a -> a <> b -> value_lt a b.
Proof.
  intros Ha Hb Hn Hne. apply (value_cmp_lt int); [done..|]. rewrite <- (value_cmp_lt int) in Hn by done.
  rewrite <- (value_cmp_zero int) in Hne by done. pose proof (ord_anti _ _ (value_cmp_ordering int) a b Ha Hb) as E. cbn in E. lia.
Qed.

Section Groups.
Context (ints : list bool) (gci : nat) (Hg : (gci < length ints)%nat).
Local Abbreviation key_le := (fun x y : list Value => ~ row_lt [(gci, false)] y x).

Lemma cell_typed r : typed_row ints r -> exists int, ints !! gci = Some int /\ r !! gci = Some (cell_at gci r) /\ has_type int (cell_at gci r).
Proof. intros Hr. destruct (typed_lookup _ _ _ Hr Hg) as (int & v & Hi & Hv & Ht). exists int. unfold cell_at. rewrite Hv. done. Qed.

Lemma key_le_spec x y : typed_row ints x -> typed_row ints y -> key_le x y <-> ~ value_lt (cell_at gci y) (cell_at gci x).
Proof.
  intros Hx Hy. destruct (cell_typed x Hx) as (? & _ & Ex & _). destruct (cell_typed y Hy) as (? & _ & Ey & _). cbn [row_lt]. rewrite Ex, Ey. tauto.
Qed.

(** In sorted rows the key of a finished run does not come back. *)
Lemma run_ends r run rest : Forall (typed_row ints) (r :: run ++ rest) -> StronglySorted key_le (r :: run ++ rest) ->
  (match rest with [] => True | r' :: _ => values_equal (cell_at gci r) (cell_at gci r') = false end) -> cell_at gci r <> VAL_NULL ->
  forall y, y ∈ rest -> cell_at gci y <> cell_at gci r.
Proof.
  intros Ht Hs Hend Hnull y Hy. destruct rest as [|r' rest]; [by apply elem_of_nil in Hy|]. rewrite list.Forall_forall in Ht.
  assert (Hr' : cell_at gci r <> cell_at gci r').
  { intros E. apply Bool.not_true_iff_false in Hend. apply Hend. by apply values_equal_spec. }
  assert (H1 : typed_row ints r) by (apply Ht; set_solver). assert (H2 : typed_row ints r') by (apply Ht; set_solver).
  destruct (cell_typed r H1) as (int & Hint & _ & T1). destruct (cell_typed r' H2) as (int' & Hint' & _ & T2).
  assert (int' = int) as -> by congruence. apply StronglySorted_inv in Hs as [Hs Hle]. rewrite list.Forall_forall in Hle.
  assert (Hlt : value_lt (cell_at gci r) (cell_at gci r')).
  { apply (value_lt_total int); [done|done| |done]. apply key_le_spec; [done..|]. apply Hle. set_solver. }
  intros E. rewrite <- E in Hlt. apply elem_of_cons in Hy as [->|Hy]; [congruence|].
  apply StronglySorted_app in Hs as (_ & _ & Hs). apply StronglySorted_inv in Hs as [_ Hs]. rewrite list.Forall_forall in Hs.
  specialize (Hs y Hy). apply key_le_spec in Hs; [done|done|]. apply Ht. set_solver.
Qed.

Lemma key_groups_spec fuel : forall rows, (length rows <= fuel)%nat -> Forall (typed_row ints) rows -> StronglySorted key_le rows ->
  mjoin (key_groups fuel gci rows) = rows /\ is_grouping gci rows (key_groups fuel gci rows).
Proof.
  induction fuel as [|fuel IH]; intros [|r rows] Hf Ht Hs; cbn [length] in Hf; try lia.
  1, 2: split; [done|split; cbn; set_solver by (try done)].
  cbn [key_groups]. destruct (take_run gci (cell_at gci r) rows) as [run rest] eqn:E. destruct (take_run_spec _ _ _ _ _ E) as (-> & Hrun & Hend).
  rewrite length_app in Hf. destruct (IH rest) as [Hj [G1 G2 G3 G4 G5]]; [lia| | |].
  { apply list.Forall_cons in Ht as [_ Ht]. by apply list.Forall_app in Ht as [_ Ht]. }
  { apply StronglySorted_inv in Hs as [Hs _]. by apply StronglySorted_app in Hs as (_ & _ & Hs). }
  assert (Hin : forall g x, g ∈ key_groups fuel gci rest -> x ∈ g -> x ∈ rest) by (intros g x Hgr Hx; rewrite <- Hj; apply list_elem_of_join; eauto).
  assert (Hkey : forall x, x ∈ r :: run -> cell_at gci x = cell_at gci r) by (intros x [->|Hx]%elem_of_cons; [done|by apply Hrun]).
  assert (Hsep : forall g x y, x ∈ r :: run -> g ∈ key_groups fuel gci rest -> y ∈ g -> cell_at gci x = cell_at gci y -> cell_at gci x = VAL_NULL).
  { intros g x y Hx Hgr Hy Exy. destruct (decide (cell_at gci x = VAL_NULL)) as [|Hn]; [done|]. exfalso. rewrite (Hkey _ Hx) in *.
    eapply (run_ends r run rest Ht Hs Hend Hn y); [by eapply Hin|done]. }
  split; [rewrite join_cons, Hj; done|]. split.
  - rewrite join_cons, Hj. done.
  - intros g x y [->|Hgr]%elem_of_cons Hx Hy; [by rewrite (Hkey x), (Hkey y)|by eapply G2].
  - intros g x [->|Hgr]%elem_of_cons Hx Hn; [|by apply G3]. rewrite (Hkey x Hx) in Hn. destruct run as [|r1 run]; [set_solver|].
    destruct (Hrun r1) as [_ Hnn]; [set_solver|done].
  - intros [|i] [|j] g g' x y Hi Hj' Hx Hy Exy Hn; cbn in Hi, Hj'; [done| | |f_equal; by eapply G4].
    + injection Hi as <-. exfalso. apply Hn. eapply Hsep; [done|by eapply list_elem_of_lookup_2|done|done].
    + injection Hj' as <-. exfalso. apply Hn. rewrite Exy. eapply Hsep; [done|by eapply list_elem_of_lookup_2|done|done].
  - intros [?|?]%elem_of_cons; done.
Qed.
End Groups.

(** ** Aggregates *)

Definition ints_of (vals : list Value) : list Z := omap (fun v => match v with VAL_INT z => Some z | _ => None end) vals.
Definition sum_of (zs : list Z) : Z := foldr Z.add 0 zs.
Definition non_null (vals : list Value) : list Value := filter (fun v => null_value v = false) vals.
Definition printed_of (v : Value) : Printed := match v with VAL_NULL => PNull | VAL_TEXT s => PText s | VAL_INT z => PLong z end.

Definition small_int (v : Value) : Prop := match v with VAL_INT z => - 2 ^ 31 <= z < 2 ^ 31 | _ => True end.

(** What an aggregate of a column prints. *)
Definition agg_spec (agg : AggFunc) (vals : list Value) (p : Printed) : Prop :=
  let nn := non_null vals in
  match agg with
  | AGG_NONE => exists v, head vals = Some v /\ p = printed_of v
  | AGG_COUNT => p = PLong (Z.of_nat (length nn))
  | AGG_SUM => p = match nn with [] => PNull | _ => PLong (sum_of (ints_of vals)) end
  | AGG_AVG => p = match nn with [] => PNull | _ => PG (double_div (double_of (sum_of (ints_of vals))) (double_of (Z.of_nat (length nn)))) end
  | AGG_MIN => nn = [] /\ p = PNull \/ exists v, v ∈ nn /\ p = printed_of v /\ forall w, w ∈ nn -> ~ value_lt w v
  | AGG_MAX => nn = [] /\ p = PNull \/ exists v, v ∈ nn /\ p = printed_of v /\ forall w, w ∈ nn -> ~ value_lt v w
  end.

Lemma sum_bound zs : Forall (fun z => - 2 ^ 31 <= z < 2 ^ 31) zs -> - 2 ^ 31 * Z.of_nat (length zs) <= sum_of zs <= 2 ^ 31 * Z.of_nat (length zs).
Proof. induction 1 as [|z zs Hz _ IH]; cbn [sum_of foldr length]; [lia|]. fold (sum_of zs). lia. Qed.

Lemma ints_small vals : Forall small_int vals -> Forall (fun z => - 2 ^ 31 <= z < 2 ^ 31) (ints_of vals).
Proof. induction 1 as [|[z|s|] vals Hv _ IH]; cbn; [constructor|by constructor|done|done]. Qed.

Lemma ints_length vals : (length (ints_of vals) <= length vals)%nat.
Proof.
  induction vals as [|[z|t|] vals IH]; [done| | |]; cbn [length]; [change (ints_of (VAL_INT z :: vals)) with (z :: ints_of vals); cbn [length]; lia| |];
    cbn; fold (ints_of vals); lia.
Qed.

Lemma non_null_cons v vals : non_null (v :: vals) = if null_value v then non_null vals else v :: non_null vals.
Proof. unfold non_null. rewrite filter_cons. by destruct v. Qed.

Lemma non_null_int vals : Forall (has_type true) vals -> length (non_null vals) = length (ints_of vals).
Proof.
  induction 1 as [|[z|s|] vals Hv _ IH]; [done| |done|]; rewrite non_null_cons; cbn [null_value length]; [|done].
  change (ints_of (VAL_INT z :: vals)) with (z :: ints_of vals). cbn [length]. lia.
Qed.

Lemma sum_cells_spec vals : Forall (has_type true) vals -> Forall small_int vals -> forall s n,
  Z.abs s + 2 ^ 31 * Z.of_nat (length vals) < 2 ^ 63 ->
  sum_cells vals s n = Some (s + sum_of (ints_of vals), n + Z.of_nat (length (ints_of vals))).
Proof.
  induction 1 as [|[z|t|] vals Hv Ht IH]; intros Hs s n Hb; cbn [sum_cells]; try done.
  - cbn. by rewrite !Z.add_0_r.
  - inversion_clear Hs as [|? ? Hz Hs']. cbn [small_int length] in *. unfold long_add.
    destruct (Z.leb_spec (- 2 ^ 63) (s + z)), (Z.ltb_spec (s + z) (2 ^ 63)); try lia. cbn [andb mbind option_bind].
    rewrite IH by (done || lia). change (ints_of (VAL_INT z :: vals)) with (z :: ints_of vals). cbn [sum_of foldr length]. fold (sum_of (ints_of vals)).
    f_equal. f_equal; lia.
  - inversion_clear Hs. cbn [length] in Hb. by rewrite IH by (done || lia).
Qed.

Lemma value_less_lt int a b : has_type int a -> has_type int b -> a <> VAL_NULL -> b <> VAL_NULL -> exists r, value_less a b = Some r /\ (r = true <-> value_lt a b).
Proof.
  destruct a as [x|x|], b as [y|y|]; cbn; intros; subst; try done; (eexists; split; [done|]); [apply Z.ltb_lt|]. rewrite Z.ltb_lt. apply strcmp_lt.
Qed.

Lemma value_lt_trans int a b c : has_type int a -> has_type int b -> has_type int c -> ~ value_lt b a -> ~ value_lt c b -> ~ value_lt c a.
Proof.
  intros Ha Hb Hc. rewrite <- !(value_cmp_lt int) by done. pose proof (value_cmp_ordering int) as [Han Htr].
  pose proof (Htr a b c Ha Hb Hc) as Ht. pose proof (Han a b Ha Hb). pose proof (Han b c Hb Hc). pose proof (Han a c Ha Hc). cbn in *. lia.
Qed.

Lemma value_lt_irrefl a : ~ value_lt a a.
Proof. intros Hl. destruct a as [x|x|]; cbn in Hl; [lia| |done]. apply strcmp_lt in Hl. assert (strcmp x x = 0) by (by apply strcmp_zero). lia. Qed.

Lemma value_lt_asym int a b : has_type int a -> has_type int b -> value_lt a b -> ~ value_lt b a.
Proof.
  intros Ha Hb. rewrite <- !(value_cmp_lt int) by done. pose proof (ord_anti _ _ (value_cmp_ordering int) a b Ha Hb) as E. cbn in E. lia.
Qed.

(** The value kept beats those seen so far. *)
Definition beats (least : bool) (v w : Value) : Prop := if least then ~ value_lt w v else ~ value_lt v w.

Lemma best_cell_spec int least vals : Forall (has_type int) vals -> forall best seen,
  (match best with None => seen = [] | Some b => b ∈ seen /\ forall w, w ∈ seen -> beats least b w end) ->
  Forall (fun v => v <> VAL_NULL /\ has_type int v) seen ->
  exists r, best_cell least vals best = Some r /\
    match r with None => seen ++ non_null vals = [] | Some b => b ∈ seen ++ non_null vals /\ forall w, w ∈ seen ++ non_null vals -> beats least b w end.
Proof.
  induction 1 as [|v vals Hv Hvs IH]; intros best seen Hb Hseen.
  - exists best. split; [done|]. change (non_null []) with (@nil Value). rewrite app_nil_r. by destruct best.
  - assert (Hstep : forall best', v <> VAL_NULL -> (match best' with None => False | Some b => b ∈ seen ++ [v] /\ forall w, w ∈ seen ++ [v] -> beats least b w end) ->
      exists r, best_cell least vals best' = Some r /\
        match r with None => seen ++ non_null (v :: vals) = [] | Some b => b ∈ seen ++ non_null (v :: vals) /\ forall w, w ∈ seen ++ non_null (v :: vals) -> beats least b w end).
    { intros best' Hn Hb'. replace (non_null (v :: vals)) with ([v] ++ non_null vals) by (unfold non_null; rewrite filter_cons_True by (by destruct v); done).
      rewrite app_assoc. apply IH; [by destruct best'|]. apply list.Forall_app. split; [done|]. by repeat constructor. }
    destruct (decide (v = VAL_NULL)) as [->|Hn]; [apply IH; done|].
    assert (He : best_cell least (v :: vals) best = match best with None => best_cell least vals (Some v) | Some b =>
      better ← (if least then value_less v b else value_less b v); best_cell least vals (if (better : bool) then Some v else Some b) end) by (by destruct v).
    rewrite He. clear He. destruct best as [b|].
    + destruct Hb as [Hbin Hbeat]. rewrite list.Forall_forall in Hseen. destruct (Hseen b Hbin) as [Hbn Hbt].
      destruct least.
      * destruct (value_less_lt int v b) as (r & -> & Hr); try done. cbn [mbind option_bind]. apply Hstep; [done|]. destruct r.
        -- split; [set_solver|]. intros w [Hw|Hw]%elem_of_app; cbn; [|apply list_elem_of_singleton in Hw as ->; apply value_lt_irrefl].
           destruct (Hseen w Hw) as [_ Hwt]. eapply (value_lt_trans int v b w); try done; [|by apply Hbeat]. by apply (value_lt_asym int), Hr.
        -- split; [set_solver|]. intros w [Hw|Hw]%elem_of_app; [by apply Hbeat|]. apply list_elem_of_singleton in Hw as ->. cbn. intros Hl. by apply Hr in Hl.
      * destruct (value_less_lt int b v) as (r & -> & Hr); try done. cbn [mbind option_bind]. apply Hstep; [done|]. destruct r.
        -- split; [set_solver|]. intros w [Hw|Hw]%elem_of_app; cbn; [|apply list_elem_of_singleton in Hw as ->; apply value_lt_irrefl].
           destruct (Hseen w Hw) as [_ Hwt]. eapply (value_lt_trans int w b v); try done; [by apply Hbeat|]. by apply (value_lt_asym int), Hr.
        -- split; [set_solver|]. intros w [Hw|Hw]%elem_of_app; [by apply Hbeat|]. apply list_elem_of_singleton in Hw as ->. cbn. intros Hl. by apply Hr in Hl.
    + subst seen. apply Hstep; [done|]. split; [set_solver|]. intros w Hw. cbn in Hw. apply list_elem_of_singleton in Hw as ->. destruct least; cbn; apply value_lt_irrefl.
Qed.

Lemma column_spec ints ci int rows : Forall (typed_row ints) rows -> ints !! ci = Some int ->
  column (Some ci) rows = Some (cell_at ci <$> rows) /\ Forall (has_type int) (cell_at ci <$> rows).
Proof.
  intros Hr Hi. unfold column. cbn [mbind option_bind]. induction Hr as [|r rows Hr _ [IH1 IH2]]; [done|].
  destruct (Forall2_lookup_l _ _ _ _ _ Hr Hi) as (v & Hv & Ht). assert (E : cell_at ci r = v) by (unfold cell_at; by rewrite Hv).
  rewrite fmap_cons, E. split; [|by constructor]. cbn [mapM]. rewrite Hv. cbn [mbind option_bind]. by rewrite IH1.
Qed.

Lemma column_small ci rows : Forall (Forall small_int) rows -> Forall small_int (cell_at ci <$> rows).
Proof.
  intros Hr. rewrite Forall_fmap. revert Hr. apply Forall_impl. intros r Hr. unfold compose, cell_at. destruct (r !! ci) as [v|] eqn:E; [|done].
  by eapply Forall_lookup_1.
Qed.

Lemma find_col_lookup cols qtbl col : forall ci, find_col cols qtbl col = Some ci -> exists c, cols !! ci = Some c.
Proof.
  induction cols as [|c cols IH]; intros ci; cbn [find_col]; [done|]. destruct (_ && _).
  - intros (i & Hi & ->)%fmap_Some. cbn. eauto.
  - destruct (decide _); [intros [= <-]; by exists c|]. intros (i & Hi & ->)%fmap_Some. cbn. eauto.
Qed.

(** Rows of typed columns with 32-bit integers, as tables and joins provide them;
    their sums are exact as doubles. *)
Record good_rows (ints : list bool) (rows : list (list Value)) : Prop := {
  rows_typed : Forall (typed_row ints) rows;
  rows_small : Forall (Forall small_int) rows;
  rows_few : Z.of_nat (length rows) <= 2 ^ 21 }.

Definition item_ok (ints : list bool) (it : SelectItem) (ci : option nat) : Prop :=
  match ci with
  | None => count_star it = true
  | Some i => count_star it = false /\ exists int, ints !! i = Some int /\ (si_agg it = AGG_SUM \/ si_agg it = AGG_AVG -> int = true)
  end.

Lemma item_col_ok cols it ci : item_col cols it = Some ci -> item_ok (cr_is_int <$> cols) it ci.
Proof.
  unfold item_col. destruct (count_star it) eqn:E; [by intros [= <-]|]. intros (i & Hi & Hc)%bind_Some. apply bind_Some in Hc as (c & Hc & Hr).
  destruct (match si_agg it with AGG_SUM | AGG_AVG => negb (cr_is_int c) | _ => false end) eqn:Ea; [done|]. injection Hr as <-. split; [done|].
  exists (cr_is_int c). split; [by rewrite list_lookup_fmap, Hc|]. intros [Hs|Hs]; rewrite Hs in Ea; by destruct (cr_is_int c).
Qed.

(** What a cell of the item prints for the rows of its interval. *)
Definition item_spec (it : SelectItem) (ci : option nat) (rows : list (list Value)) (p : Printed) : Prop :=
  match ci with None => p = PLong (Z.of_nat (length rows)) | Some i => agg_spec (si_agg it) (cell_at i <$> rows) p end.

Definition item_text (ints : list bool) (it : SelectItem) (ci : option nat) : bool :=
  match si_agg it, ci with (AGG_NONE | AGG_MIN | AGG_MAX), Some i => negb (default true (ints !! i)) | _, _ => false end.

Definition good_cell (text : bool) (c : OutCell) : Prop := is_number (oc_num c) /\ (oc_null c = false -> oc_text c = text).

Lemma cell_of_good int v : has_type int v -> good_cell (negb int) (cell_of v).
Proof. destruct v; cbn; intros; subst; split; cbn; try done; apply double_of_number. Qed.

Lemma num_cell_good x : is_number x -> good_cell false (num_cell x).
Proof. by split. Qed.

Lemma null_cell_good text : good_cell text null_cell.
Proof. by split. Qed.

(** The cell behind a printed value: numbers are exact, or an average. *)
Definition shows_cell (c : OutCell) (p : Printed) : Prop :=
  match p with
  | PNull => c = null_cell
  | PText s => c = text_cell s
  | PLong z => exact_int z /\ c = num_cell (double_of z)
  | PG x => is_number x /\ c = num_cell x
  end.

Lemma shows_value v : small_int v -> shows_cell (cell_of v) (printed_of v).
Proof. intros Hv. destruct v; cbn in *; try done. split; [unfold exact_int; lia|done]. Qed.

Lemma print_value it v : small_int v -> si_agg it <> AGG_AVG -> print_cell it (cell_of v) = Some (printed_of v).
Proof.
  intros Hv Ha. destruct v as [z|s|]; cbn; try done. unfold print_cell. cbn. rewrite decide_False by done.
  rewrite long_of_double; [done|]. unfold exact_int. cbn in Hv. lia.
Qed.

Lemma print_int it z : exact_int z -> si_agg it <> AGG_AVG -> print_cell it (num_cell (double_of z)) = Some (PLong z).
Proof. intros Hz Ha. unfold print_cell. cbn. rewrite decide_False by done. by rewrite long_of_double. Qed.

Lemma count_star_spec it : count_star it = true <-> si_agg it = AGG_COUNT /\ si_star it = true.
Proof. unfold count_star. by rewrite andb_true_iff, bool_decide_eq_true. Qed.

Lemma best_printed it int vals least : si_agg it <> AGG_AVG -> Forall (has_type int) vals -> Forall small_int vals ->
  exists best, best_cell least vals None = Some best /\
    let c := match best with None => null_cell | Some v => cell_of v end in
    exists p, print_cell it c = Some p /\ good_cell (negb int) c /\ shows_cell c p /\
      (non_null vals = [] /\ p = PNull \/ exists v, v ∈ non_null vals /\ p = printed_of v /\ forall w, w ∈ non_null vals -> beats least v w).
Proof.
  intros Ha Ht Hs. destruct (best_cell_spec int least vals Ht None [] eq_refl) as (r & Hr & Hpost); [constructor|]. cbn [app] in Hpost. exists r. split; [done|]. cbv zeta.
  destruct r as [v|]; [|exists PNull; split; [done|]; split; [apply null_cell_good|]; split; [done|by left]]. destruct Hpost as [Hin Hb].
  apply list_elem_of_filter in Hin as Hin'. destruct Hin' as [_ Hin']. rewrite list.Forall_forall in Ht, Hs.
  exists (printed_of v). split; [apply print_value; auto|]. split; [apply cell_of_good; auto|]. split; [apply shows_value; auto|]. right. by exists v.
Qed.

(** The cell of an item is defined, printable, of one type per column, and right. *)
Lemma compute_cell_spec ints it ci rows : good_rows ints rows -> item_ok ints it ci -> (si_agg it = AGG_NONE -> rows <> []) ->
  exists c p, compute_cell it ci rows = Some c /\ print_cell it c = Some p /\ good_cell (item_text ints it ci) c /\ shows_cell c p /\ item_spec it ci rows p.
Proof.
  intros [Ht Hs Hf] Hit Hne. destruct ci as [ci|]; cbn [item_ok item_spec] in *.
  2: { apply count_star_spec in Hit as [Ha Hst]. unfold compute_cell, item_text. rewrite Ha, Hst. eexists _, _. split; [done|].
       split; [apply print_int; [unfold exact_int; lia|congruence]|]. split; [apply num_cell_good, double_of_number|]. split; [split; [unfold exact_int; lia|done]|done]. }
  destruct Hit as (Hst & int & Hint & Hsum). destruct (column_spec ints ci int rows Ht Hint) as [Hcol Hct]. pose proof (column_small ci rows Hs) as Hcs.
  unfold compute_cell, item_text. rewrite Hint. change (default true (Some int)) with int. destruct (si_agg it) eqn:Ea; cbn [agg_spec].
  - destruct rows as [|r rows]; [by destruct Hne|]. cbn [head mbind option_bind]. inversion_clear Ht as [|? ? Hr _].
    destruct (Forall2_lookup_l _ _ _ _ _ Hr Hint) as (v & Hv & Htv). rewrite Hv. cbn [mbind option_bind]. inversion_clear Hs as [|? ? Hrs _].
    exists (cell_of v), (printed_of v). split; [done|]. split; [apply print_value; [by eapply Forall_lookup_1|congruence]|]. split; [by apply cell_of_good|].
    split; [apply shows_value; by eapply Forall_lookup_1|]. exists v. unfold cell_at. rewrite fmap_cons, Hv. done.
  - destruct (si_star it) eqn:Es; [unfold count_star in Hst; rewrite Ea, Es in Hst; done|]. rewrite Hcol. cbn [mbind option_bind]. eexists _, _. split; [done|].
    assert (He : exact_int (Z.of_nat (length (filter (fun v => null_value v = false) (cell_at ci <$> rows))))); [|split; [apply print_int; [done|congruence]|split; [apply num_cell_good, double_of_number|done]]].
    fold (non_null (cell_at ci <$> rows)). pose proof (length_filter (fun v => null_value v = false) (cell_at ci <$> rows)) as Hl. rewrite length_fmap in Hl.
    fold (non_null (cell_at ci <$> rows)) in Hl. unfold exact_int. lia.
  - assert (int = true) as -> by auto. rewrite Hcol. cbn [mbind option_bind].
    assert (Hlen : (length (ints_of (cell_at ci <$> rows)) <= length rows)%nat) by (rewrite <- (length_fmap (cell_at ci) rows); apply ints_length).
    rewrite (sum_cells_spec _ Hct Hcs) by (rewrite length_fmap; lia). cbn [mbind option_bind]. rewrite !Z.add_0_l.
    pose proof (sum_bound _ (ints_small _ Hcs)) as Hb. pose proof (non_null_int _ Hct) as Hnn.
    destruct (Z.eqb_spec (Z.of_nat (length (ints_of (cell_at ci <$> rows)))) 0) as [E0|E0].
    + eexists _, _. split; [done|]. split; [done|]. split; [apply null_cell_good|]. split; [done|]. destruct (non_null (cell_at ci <$> rows)); [done|cbn in Hnn; lia].
    + eexists _, _. split; [done|]. split; [apply print_int; [unfold exact_int; lia|congruence]|]. split; [apply num_cell_good, double_of_number|]. split; [split; [unfold exact_int; lia|done]|].
      destruct (non_null (cell_at ci <$> rows)); [cbn in Hnn; lia|done].
  - assert (Hnavg : si_agg it <> AGG_AVG) by congruence. destruct (best_printed it int _ true Hnavg Hct Hcs) as (best & Hbest & p & Hp & Hgood & Hspec).
    rewrite Hcol. cbn [mbind option_bind]. rewrite bool_decide_eq_true_2 by done. rewrite Hbest. cbn [mbind option_bind]. eexists _, p. done.
  - assert (Hnavg : si_agg it <> AGG_AVG) by congruence. destruct (best_printed it int _ false Hnavg Hct Hcs) as (best & Hbest & p & Hp & Hgood & Hspec).
    rewrite Hcol. cbn [mbind option_bind]. rewrite bool_decide_eq_false_2 by done. rewrite Hbest. cbn [mbind option_bind]. eexists _, p. done.
  - assert (int = true) as -> by auto. rewrite Hcol. cbn [mbind option_bind].
    assert (Hlen : (length (ints_of (cell_at ci <$> rows)) <= length rows)%nat) by (rewrite <- (length_fmap (cell_at ci) rows); apply ints_length).
    rewrite (sum_cells_spec _ Hct Hcs) by (rewrite length_fmap; lia). cbn [mbind option_bind]. rewrite !Z.add_0_l. pose proof (non_null_int _ Hct) as Hnn.
    destruct (Z.eqb_spec (Z.of_nat (length (ints_of (cell_at ci <$> rows)))) 0) as [E0|E0].
    + eexists _, _. split; [done|]. split; [done|]. split; [apply null_cell_good|]. split; [done|]. destruct (non_null (cell_at ci <$> rows)); [done|cbn in Hnn; lia].
    + eexists _, _. split; [done|]. split; [unfold print_cell; cbn; by rewrite decide_True|]. split; [apply num_cell_good, double_div_number; lia|].
      split; [split; [rewrite <- Hnn; apply double_div_number; lia|by rewrite <- Hnn]|]. rewrite <- Hnn. destruct (non_null (cell_at ci <$> rows)); [cbn in Hnn; lia|done].
Qed.

(** ** Output rows *)

Definition row_spec (items : list SelectItem) (cis : list (option nat)) (g : list (list Value)) (ps : list Printed) : Prop :=
  Forall3 (fun it ci p => item_spec it ci g p) items cis ps.

Definition texts (ints : list bool) (items : list SelectItem) (cis : list (option nat)) : list bool := zip_with (item_text ints) items cis.

Lemma project_spec ints items cis g : good_rows ints g -> Forall2 (item_ok ints) items cis -> (g <> [] \/ Forall (fun it => si_agg it <> AGG_NONE) items) ->
  exists row ps, project items cis g = Some row /\ print_out items row = Some ps /\ Forall2 good_cell (texts ints items cis) row /\ row_spec items cis g ps.
Proof.
  intros Hg Hit Hne. unfold project, print_out, texts, row_spec. induction Hit as [|it ci items cis Hi Hits IH].
  - exists [], []. repeat split; constructor.
  - destruct IH as (row & ps & Hp & Hpr & Hgood & Hsp); [destruct Hne as [?|Hn]; [by left|right; by inversion_clear Hn]|].
    destruct (compute_cell_spec ints it ci g Hg Hi) as (c & p & Hc & Hcp & Hcg & _ & Hcs).
    { intros E. destruct Hne as [?|Hn]; [done|]. inversion_clear Hn. done. }
    exists (c :: row), (p :: ps). cbn [zip zip_with mapM fst snd]. rewrite Hc. cbn [mbind option_bind]. change (zip items cis) with (zip_with pair items cis) in Hp. rewrite Hp.
    cbn [mbind option_bind]. split; [done|]. rewrite Hcp. cbn [mbind option_bind]. change (zip items row) with (zip_with pair items row) in Hpr. rewrite Hpr.
    split; [done|]. split; by constructor.
Qed.

Lemma outcell_ordering text : ordering (good_cell text) outcell_cmp.
Proof.
  unfold outcell_cmp. split.
  - intros x y [Hx Tx] [Hy Ty]. destruct (oc_null x), (oc_null y); cbn [orb b2z]; try done. rewrite Tx, Ty by done. destruct text; [apply strcmp_anti|by apply (ord_anti _ _ ordering_double)].
  - intros x y z [Hx Tx] [Hy Ty] [Hz Tz]. destruct (oc_null x), (oc_null y), (oc_null z); cbn [orb b2z]; try lia. rewrite Tx, Ty by done.
    destruct text; [apply strcmp_trans|by apply (ord_trans _ _ ordering_double)].
Qed.

Lemma out_at_good texts row i : Forall2 good_cell texts row -> (i < length texts)%nat -> exists text, texts !! i = Some text /\ good_cell text (out_at row i).
Proof.
  intros Hr Hi. destruct (lookup_lt_is_Some_2 texts i Hi) as [text Ht]. destruct (Forall2_lookup_l _ _ _ _ _ Hr Ht) as (c & Hc & Hg).
  exists text. unfold out_at. by rewrite Hc.
Qed.

Lemma outrow_ordering texts keys : Forall (fun k : SortKey => (k.1 < length texts)%nat) keys -> ordering (Forall2 good_cell texts) (outrow_cmp keys).
Proof.
  induction 1 as [|[i desc] keys Hk _ IH]; [apply ordering_zero|]. cbn [fst] in Hk. destruct (lookup_lt_is_Some_2 texts i Hk) as [text Ht].
  assert (Ho : ordering (Forall2 good_cell texts) (fun x y => outcell_cmp (out_at x i) (out_at y i))).
  { apply (ordering_map (fun x => out_at x i) (good_cell text)); [apply outcell_ordering|]. intros x Hx.
    destruct (out_at_good _ _ _ Hx Hk) as (text' & Ht' & Hg). by replace text with text' by congruence. }
  apply (ordering_ext _ (fun x y => if (if desc then - outcell_cmp (out_at x i) (out_at y i) else outcell_cmp (out_at x i) (out_at y i)) =? 0 then outrow_cmp keys x y
    else if desc then - outcell_cmp (out_at x i) (out_at y i) else outcell_cmp (out_at x i) (out_at y i))).
  - intros x y _ _. cbn [outrow_cmp]. destruct desc; [|done]. destruct (Z.eqb_spec (- outcell_cmp (out_at x i) (out_at y i)) 0), (Z.eqb_spec (outcell_cmp (out_at x i) (out_at y i)) 0); done || lia.
  - apply ordering_lex; [|exact IH]. destruct desc; [by apply ordering_neg|done].
Qed.

(** *** The order of printed rows: NULL last, numbers by value, text by bytes *)

Definition printed_lt (a b : Printed) : Prop :=
  match a, b with
  | PNull, _ => False
  | _, PNull => True
  | PText s, PText t => text_lt s t
  | PLong x, PLong y => x < y
  | PG x, PG y => double_lt x y = true
  | _, _ => False
  end.

(** The first key on which the rows differ decides. *)
Fixpoint out_lt (keys : list SortKey) (p q : list Printed) : Prop :=
  match keys with
  | [] => False
  | (i, desc) :: keys =>
      match p !! i, q !! i with
      | Some a, Some b => (if (desc : bool) then printed_lt b a else printed_lt a b) \/ ~ printed_lt a b /\ ~ printed_lt b a /\ out_lt keys p q
      | _, _ => False
      end
  end.

(** Averages and other numbers do not meet in one column. *)
Definition kind_ok (it : SelectItem) (p : Printed) : Prop :=
  match p with PG _ => si_agg it = AGG_AVG | PLong _ => si_agg it <> AGG_AVG | _ => True end.

Lemma print_kind it c p : print_cell it c = Some p -> kind_ok it p.
Proof.
  unfold print_cell. destruct (oc_null c); [by intros [= <-]|]. destruct (oc_text c); [by intros [= <-]|].
  case_decide; [by intros [= <-]|]. by intros (z & _ & ->)%fmap_Some.
Qed.

Lemma double_sign_lt x y : double_sign x y < 0 <-> double_lt x y = true.
Proof. unfold double_sign. repeat case_match; split; intros; done || lia. Qed.

Lemma outcell_printed it text c d p q : good_cell text c -> good_cell text d -> shows_cell c p -> shows_cell d q -> kind_ok it p -> kind_ok it q ->
  outcell_cmp c d < 0 <-> printed_lt p q.
Proof.
  intros [_ Tc] [_ Td] Hp Hq Kp Kq. unfold outcell_cmp.
  destruct p as [|s|x|z], q as [|t|y|w]; cbn in Hp, Hq, Kp, Kq; destruct_and?; subst; cbn in Tc, Td |- *; try (split; [intros; try done; lia|intros; try done; lia]); try congruence.
  - apply strcmp_lt.
  - specialize (Tc eq_refl). specialize (Td eq_refl). congruence.
  - specialize (Tc eq_refl). specialize (Td eq_refl). congruence.
  - specialize (Tc eq_refl). specialize (Td eq_refl). congruence.
  - apply double_sign_lt.
  - specialize (Tc eq_refl). specialize (Td eq_refl). congruence.
  - rewrite double_sign_lt, double_lt_int by done. apply Z.ltb_lt.
Qed.

Lemma outrow_printed txts items keys x y p q : Forall (fun k : SortKey => (k.1 < length txts)%nat) keys ->
  Forall2 good_cell txts x -> Forall2 good_cell txts y -> Forall2 shows_cell x p -> Forall2 shows_cell y q -> Forall2 kind_ok items p -> Forall2 kind_ok items q ->
  outrow_cmp keys x y < 0 <-> out_lt keys p q.
Proof.
  intros Hk Hx Hy Hp Hq Kp Kq. induction Hk as [|[i desc] keys Hi _ IH]; cbn [outrow_cmp out_lt]; [lia|]. cbn [fst] in Hi.
  destruct (lookup_lt_is_Some_2 txts i Hi) as [text Ht]. destruct (Forall2_lookup_l _ _ _ _ _ Hx Ht) as (c & Hc & Gc). destruct (Forall2_lookup_l _ _ _ _ _ Hy Ht) as (d & Hd & Gd).
  destruct (Forall2_lookup_l _ _ _ _ _ Hp Hc) as (a & Ha & Sa). destruct (Forall2_lookup_l _ _ _ _ _ Hq Hd) as (b & Hb & Sb).
  destruct (Forall2_lookup_r _ _ _ _ _ Kp Ha) as (it & Hit & Ka). destruct (Forall2_lookup_l _ _ _ _ _ Kq Hit) as (b' & Hb' & Kb). assert (b' = b) as -> by congruence.
  unfold out_at. rewrite Hc, Hd, Ha, Hb. change (default cell0 (Some c)) with c. change (default cell0 (Some d)) with d.
  pose proof (outcell_printed it text c d a b Gc Gd Sa Sb Ka Kb) as E1. pose proof (outcell_printed it text d c b a Gd Gc Sb Sa Kb Ka) as E2.
  pose proof (ord_anti _ _ (outcell_ordering text) c d Gc Gd) as Han. cbn in Han. rewrite Han in E2. clear Han.
  destruct (Z.eqb_spec (outcell_cmp c d) 0) as [E0|E0].
  - rewrite E0 in E1, E2. rewrite IH. assert (~ printed_lt a b) by (rewrite <- E1; lia). assert (~ printed_lt b a) by (rewrite <- E2; lia). destruct desc; tauto.
  - assert (printed_lt a b \/ printed_lt b a) by (rewrite <- E1, <- E2; lia). destruct desc; tauto.
Qed.

Lemma last_item_bound items col : forall j found k, last_item items col j found = Some k ->
  found = Some k \/ (j <= k < j + length items)%nat.
Proof.
  induction items as [|it items IH]; intros j found k; cbn [last_item length]; [by left|]. intros [Hf|Hr]%IH; [|right; lia].
  destruct (decide _); [injection Hf as <-; right; lia|by left].
Qed.

Lemma out_key_bound items ok k : out_key items ok = Some k -> (k.1 < length items)%nat.
Proof.
  unfold out_key. destruct (Z.ltb_spec 0 (o_pos ok)).
  - destruct (Z.ltb_spec (Z.of_nat (length items)) (o_pos ok)); [done|]. intros [= <-]. cbn. lia.
  - intros (j & Hj & [= <-])%bind_Some. apply last_item_bound in Hj as [?|?]; [done|cbn; lia].
Qed.

Lemma limited_sub {A} limit offset (rows : list A) : limited limit (drop offset rows) ⊆ rows.
Proof.
  unfold limited. intros x Hx. destruct (0 <=? limit).
  - eapply sublist_subseteq; [|exact Hx]. etransitivity; [apply sublist_take|apply sublist_drop].
  - eapply sublist_subseteq; [|exact Hx]. apply sublist_drop.
Qed.

Section Emit.
Context `{QSortLaws}.

(** ORDER BY, OFFSET and LIMIT of output rows. *)
Lemma emit_spec h txts outs keys : length txts = length (s_items h) -> Forall (Forall2 good_cell txts) outs ->
  Forall (fun row => is_Some (print_out (s_items h) row)) outs -> mapM (out_key (s_items h)) (s_order h) = Some keys ->
  exists outs' out, emit_out_rows h outs = Some (Some out) /\ outs' ≡ₚ outs /\ StronglySorted (fun x y => outrow_cmp keys x y <= 0) outs' /\
    mapM (print_out (s_items h)) (limited (s_limit h) (drop (Z.to_nat (s_offset h)) outs')) = Some out.
Proof.
  intros Hl Hgood Hpr Hkeys. unfold emit_out_rows.
  assert (Hb : Forall (fun k : SortKey => (k.1 < length txts)%nat) keys).
  { rewrite Hl. apply mapM_Some in Hkeys. apply list.Forall_forall. intros k Hk. apply list_elem_of_lookup in Hk as [i Hi].
    destruct (Forall2_lookup_r _ _ _ _ _ Hkeys Hi) as (ok & _ & Hok). by eapply out_key_bound. }
  set (outs' := match s_order h with [] => outs | _ => qsort (outrow_cmp keys) outs end).
  assert (Hs : outs' ≡ₚ outs /\ StronglySorted (fun x y => outrow_cmp keys x y <= 0) outs').
  { subst outs'. destruct (s_order h).
    - injection Hkeys as <-. split; [done|]. clear. induction outs; constructor; [done|]. by apply list.Forall_true.
    - apply law_qsort. eapply ordering_consistent; [by apply outrow_ordering|done]. }
  destruct Hs as [Hp Hs].
  assert (Hout : is_Some (mapM (print_out (s_items h)) (limited (s_limit h) (drop (Z.to_nat (s_offset h)) outs')))).
  { apply mapM_is_Some_2. apply list.Forall_forall. intros row Hrow. rewrite list.Forall_forall in Hpr. apply Hpr. rewrite <- Hp. by apply limited_sub in Hrow. }
  destruct Hout as [out Hout]. exists outs', out. split; [|done].
  assert (E : match s_order h with [] => Some outs | order => keys ← mapM (out_key (s_items h)) order; Some (qsort (outrow_cmp keys) outs) end = Some outs').
  { subst outs'. destruct (s_order h); [done|]. rewrite Hkeys. done. }
  rewrite E, window_spec, Hout. done.
Qed.
End Emit.

(** ** GROUP BY and aggregates *)

Section Aggregates.
Context `{QSortLaws}.

(** *** HAVING *)

Definition op_holds (op : CmpOp) (lt gt : Prop) : Prop :=
  match op with
  | CMP_EQ => ~ lt /\ ~ gt
  | CMP_NE => lt \/ gt
  | CMP_LT => lt
  | CMP_GT => gt
  | CMP_LE => ~ gt
  | CMP_GE => ~ lt
  | _ => False
  end.

(** The printed value of the aggregate against the constant; NULL counts as 0. *)
Definition having_holds (h : SelectHead) (p : Printed) : Prop :=
  let op := op_holds (s_having_op h) in
  match p, s_having_val h with
  | PText s, VAL_TEXT t => op (text_lt s t) (text_lt t s)
  | PLong z, VAL_INT k => op (z < k) (k < z)
  | PG x, VAL_INT k => op (double_lt x (double_of k) = true) (double_lt (double_of k) x = true)
  | PNull, VAL_INT k => op (0 < k) (k < 0)
  | _, _ => False
  end.

Definition having_true (h : SelectHead) (hci : option nat) (g : list (list Value)) : Prop :=
  s_has_having h = true -> exists p, item_spec (s_having_agg h) hci g p /\ having_holds h p.
Definition having_false (h : SelectHead) (hci : option nat) (g : list (list Value)) : Prop :=
  s_has_having h = true /\ exists p, item_spec (s_having_agg h) hci g p /\ ~ having_holds h p.

(** The elements that satisfy [P], in order; the others satisfy [Q]. *)
Inductive keeps {A} (P Q : A -> Prop) : list A -> list A -> Prop :=
| keeps_nil : keeps P Q [] []
| keeps_yes x l k : P x -> keeps P Q l k -> keeps P Q (x :: l) (x :: k)
| keeps_no x l k : Q x -> keeps P Q l k -> keeps P Q (x :: l) k.

Lemma cmp_apply_holds op sign lt gt : (sign < 0 <-> lt) -> (0 < sign <-> gt) -> cmp_apply op sign = true <-> op_holds op lt gt.
Proof.
  intros Hl Hg. destruct op; cbn; rewrite <- ?Hl, <- ?Hg, ?negb_true_iff, ?Z.eqb_eq, ?Z.eqb_neq, ?Z.ltb_lt, ?Z.leb_le; try done; lia.
Qed.

Lemma double_sign_gt x y : is_number x -> is_number y -> 0 < double_sign x y <-> double_lt y x = true.
Proof. intros Hx Hy. rewrite <- double_sign_lt, (ord_anti _ _ ordering_double y x Hy Hx). lia. Qed.

Lemma having_pass_spec ints h hci g : good_rows ints g -> (s_has_having h = true -> item_ok ints (s_having_agg h) hci) ->
  (s_has_having h = true -> match s_having_val h with VAL_INT k => exact_int k | _ => True end) ->
  g <> [] \/ (s_has_having h = true -> si_agg (s_having_agg h) <> AGG_NONE) ->
  (having_pass h hci g = Some true /\ having_true h hci g) \/ (having_pass h hci g = Some false /\ having_false h hci g).
Proof.
  intros Hg Hi Hv Hne. unfold having_pass, having_true, having_false. destruct (s_has_having h); [|by left].
  destruct (compute_cell_spec ints (s_having_agg h) hci g Hg) as (c & p & -> & _ & _ & Hs & Hspec); [auto|naive_solver|]. cbn [mbind option_bind].
  match goal with |- (Some ?b = _ /\ _) \/ _ => assert (Hb : b = true <-> having_holds h p) end.
  { specialize (Hv eq_refl). unfold having_holds. assert (Hz0 : exact_int 0) by (unfold exact_int; lia).
    destruct p as [|t|x|z]; cbn in Hs; destruct_and?; subst; cbn [oc_text oc_num oc_str null_cell text_cell num_cell]; destruct (s_having_val h) as [k|u|]; try done.
    - apply cmp_apply_holds; [rewrite double_sign_lt|rewrite double_sign_gt by apply double_of_number]; rewrite double_lt_int by done; apply Z.ltb_lt.
    - apply cmp_apply_holds; [apply strcmp_lt|]. rewrite <- strcmp_lt, strcmp_anti. lia.
    - apply cmp_apply_holds; [apply double_sign_lt|apply double_sign_gt; [done|apply double_of_number]].
    - apply cmp_apply_holds; [rewrite double_sign_lt|rewrite double_sign_gt by apply double_of_number]; rewrite double_lt_int by done; apply Z.ltb_lt. }
  match goal with |- (Some ?b = _ /\ _) \/ _ => destruct b end; [left|right]; (split; [done|]).
  - intros _. exists p. split; [done|by apply Hb].
  - split; [done|]. exists p. split; [done|]. by intros ?%Hb.
Qed.

Lemma group_rows_spec h cis hci grps : Forall (fun g => is_Some (having_pass h hci g)) grps -> Forall (fun g => is_Some (project (s_items h) cis g)) grps ->
  forall out, group_rows h cis hci grps out =
    Some (out ++ take (SELECT_MAX_ROWS - length out) ((fun g => default [] (project (s_items h) cis g)) <$> filter (fun g => having_pass h hci g = Some true) grps)).
Proof.
  induction 1 as [|g grps [b Hb] _ IH]; intros Hpr out; [cbn; by rewrite take_nil, app_nil_r|]. inversion_clear Hpr as [|? ? [row Hrow] Hpr'].
  cbn [group_rows]. rewrite Hb. cbn [mbind option_bind]. destruct b; cbn [andb].
  - rewrite filter_cons_True by done. rewrite fmap_cons. rewrite Hrow. cbn [from_option id].
    destruct (bool_decide_reflect (length out < SELECT_MAX_ROWS)%nat) as [Hlt|Hge].
    + cbn [mbind option_bind]. rewrite IH by done. rewrite length_app. cbn [length].
      replace (SELECT_MAX_ROWS - length out)%nat with (S (SELECT_MAX_ROWS - (length out + 1))) by lia. by rewrite <- app_assoc.
    + rewrite IH by done. replace (SELECT_MAX_ROWS - length out)%nat with 0%nat by lia. by rewrite !take_0.
  - rewrite filter_cons_False by congruence. by apply IH.
Qed.

Lemma good_rows_sub ints rows rows' : good_rows ints rows -> rows' ⊆ rows -> (length rows' <= length rows)%nat -> good_rows ints rows'.
Proof.
  intros [H1 H2 H3] Hs Hl. rewrite list.Forall_forall in H1, H2. split; [apply list.Forall_forall; auto..|lia].
Qed.

Lemma group_length (grps : list (list (list Value))) rows g : mjoin grps ≡ₚ rows -> g ∈ grps -> (length g <= length rows)%nat /\ g ⊆ rows.
Proof.
  intros Hp Hg. apply list_elem_of_split in Hg as (l1 & l2 & ->). rewrite join_app, join_cons in Hp. split.
  - apply Permutation_length in Hp. rewrite !length_app in Hp. lia.
  - intros x Hx. rewrite <- Hp. set_solver.
Qed.

(** The groups of a query. *)
Definition query_groups (h : SelectHead) (gci : option nat) (rows : list (list Value)) (grps : list (list (list Value))) : Prop :=
  match gci with Some gci => is_grouping gci rows grps | None => grps = [rows] end.

Lemma grouping_perm gci rows rows' grps : rows' ≡ₚ rows -> is_grouping gci rows' grps -> is_grouping gci rows grps.
Proof. intros Hp [G1 G2 G3 G4 G5]. split; [by rewrite G1|done..]. Qed.

(** The rows are cut into groups on which every cell is defined. *)
Lemma groups_defined (ints : list bool) (h : SelectHead) (rows : list (list Value)) (gci : option nat) :
  good_rows ints rows -> match gci with Some g => (g < length ints)%nat | None => True end ->
  exists grps, query_groups h gci rows grps /\
    (match gci with Some gci => rows ← sort_rows [(gci, false)] rows; Some (key_groups (length rows) gci rows) | None => Some [rows] end) = Some grps /\
    Forall (fun g => good_rows ints g /\ (rows <> [] \/ gci <> None -> g <> [])) grps.
Proof.
  intros Hg Hk. destruct gci as [gci|]; [|exists [rows]; split; [done|]; split; [done|]; constructor; [split; [done|naive_solver]|constructor]].
  destruct (sort_rows_spec ints [(gci, false)] rows (rows_typed _ _ Hg)) as (rows' & Hs & Hp & Hsort); [by repeat constructor|].
  assert (Ht : Forall (typed_row ints) rows') by (rewrite Hp; apply Hg).
  destruct (key_groups_spec ints gci Hk (length rows') rows' (le_n _) Ht Hsort) as [_ Hgr]. apply (grouping_perm _ _ _ _ Hp) in Hgr.
  exists (key_groups (length rows') gci rows'). split; [done|]. rewrite Hs. split; [done|]. apply list.Forall_forall. intros g Hin.
  destruct (group_length _ _ _ (gr_rows _ _ _ Hgr) Hin) as [Hl Hsub]. split; [by eapply good_rows_sub|].
  intros _ ->. by apply (gr_nonempty _ _ _ Hgr).
Qed.

Lemma cells_sorted_fmap {A B} (f : A -> B) (R : B -> B -> Prop) l : StronglySorted R (f <$> l) -> StronglySorted (fun x y => R (f x) (f y)) l.
Proof.
  induction l as [|x l IH]; [constructor|]. rewrite fmap_cons. intros [Hs Hx]%StronglySorted_inv. constructor; [by apply IH|]. by rewrite Forall_fmap in Hx.
Qed.

Lemma limited_fmap {A B} (f : A -> B) limit l : limited limit (f <$> l) = f <$> limited limit l.
Proof. unfold limited. destruct (0 <=? limit); [|done]. symmetry. apply fmap_take. Qed.

(** Only aggregates: defined on an empty set of rows too. *)
Definition no_bare_columns (h : SelectHead) : Prop :=
  Forall (fun it => si_agg it <> AGG_NONE) (s_items h) /\ (s_has_having h = true -> si_agg (s_having_agg h) <> AGG_NONE).

Lemma keeps_filter {A} (P Q : A -> Prop) (f : A -> option bool) l :
  Forall (fun x => (f x = Some true /\ P x) \/ (f x = Some false /\ Q x)) l -> keeps P Q l (filter (fun x => f x = Some true) l).
Proof.
  induction 1 as [|x l [[E Hx]|[E Hx]] _ IH]; [constructor| |].
  - rewrite filter_cons_True by done. by constructor.
  - rewrite filter_cons_False by congruence. by apply keeps_no.
Qed.

(** The printed rows of sorted cells are sorted. *)
Lemma printed_sorted txts items keys xs ps : Forall (fun k : SortKey => (k.1 < length txts)%nat) keys ->
  Forall2 (fun x p => Forall2 good_cell txts x /\ Forall2 shows_cell x p /\ Forall2 kind_ok items p) xs ps ->
  StronglySorted (fun x y => outrow_cmp keys x y <= 0) xs -> StronglySorted (fun p q => ~ out_lt keys q p) ps.
Proof.
  intros Hk. induction 1 as [|x p xs ps (Hg & Hs & Hki) Hrest IH]; intros Hsort; [constructor|]. apply StronglySorted_inv in Hsort as [Hsort Hx].
  constructor; [by apply IH|]. apply list.Forall_forall. intros q (i & Hq)%list_elem_of_lookup. destruct (Forall2_lookup_r _ _ _ _ _ Hrest Hq) as (y & Hy & Hyg & Hys & Hyk).
  rewrite <- (outrow_printed txts items keys y x q p) by done. rewrite (ord_anti _ _ (outrow_ordering txts keys Hk) x y) by done.
  pose proof (Forall_lookup_1 _ _ _ _ Hx Hy) as Hle. cbn in Hle. lia.
Qed.

Lemma project_shows ints items cis g row ps : good_rows ints g -> Forall2 (item_ok ints) items cis -> (g <> [] \/ Forall (fun it => si_agg it <> AGG_NONE) items) ->
  project items cis g = Some row -> print_out items row = Some ps -> Forall2 shows_cell row ps /\ Forall2 kind_ok items ps.
Proof.
  intros Hg Hit Hne. revert row ps. unfold project, print_out. induction Hit as [|it ci items cis Hi Hits IH]; intros row ps Hrow Hps.
  { cbn in Hrow. injection Hrow as <-. cbn in Hps. injection Hps as <-. by split; constructor. }
  destruct (compute_cell_spec ints it ci g Hg Hi) as (c & p & Hc & Hcp & _ & Hs & _).
  { intros E. destruct Hne as [?|Hn]; [done|]. inversion_clear Hn. done. }
  cbn [zip zip_with mapM fst snd] in Hrow. rewrite Hc in Hrow. cbn [mbind option_bind] in Hrow. apply bind_Some in Hrow as (row' & Hrow' & [= <-]).
  cbn [zip zip_with mapM fst snd] in Hps. rewrite Hcp in Hps. cbn [mbind option_bind] in Hps. apply bind_Some in Hps as (ps' & Hps' & [= <-]).
  destruct (IH ltac:(destruct Hne as [?|Hn]; [by left|right; by inversion_clear Hn]) row' ps' Hrow' Hps') as [A B]. split; constructor; try done. by eapply print_kind.
Qed.

End Aggregates.

(** ** DISTINCT *)

Lemma cmp_all_step a b x y : outrow_cmp_all (a :: x) (b :: y) = if outcell_cmp a b =? 0 then outrow_cmp_all x y else outcell_cmp a b.
Proof.
  cbn [outrow_cmp_all]. unfold outcell_cmp. destruct (oc_null a || oc_null b); [done|]. destruct (oc_text a); [done|]. unfold double_sign.
  by destruct (double_lt (oc_num a) (oc_num b)), (double_lt (oc_num b) (oc_num a)).
Qed.

Lemma cmp_all_ordering txts : ordering (Forall2 good_cell txts) outrow_cmp_all.
Proof.
  induction txts as [|t txts IH].
  - apply (ordering_ext _ (fun _ _ => 0)); [|apply ordering_zero]. intros x y Hx Hy. by inversion_clear Hx.
  - apply (ordering_ext _ (fun x y => if outcell_cmp (out_at x 0) (out_at y 0) =? 0 then outrow_cmp_all (tail x) (tail y) else outcell_cmp (out_at x 0) (out_at y 0))).
    + intros x y Hx Hy. inversion_clear Hx. inversion_clear Hy. by rewrite cmp_all_step.
    + apply ordering_lex.
      * apply (ordering_map (fun x => out_at x 0) (good_cell t)); [apply outcell_ordering|]. intros x Hx. by inversion_clear Hx.
      * apply (ordering_map (fun x => tail x) (Forall2 good_cell txts)); [exact IH|]. intros x Hx. by inversion_clear Hx.
Qed.

Lemma double_eq_sign x y : is_number x -> is_number y -> double_eq x y = true <-> double_sign x y = 0.
Proof.
  intros Hx Hy. rewrite double_eq_key by done. unfold double_sign. pose proof (double_lt_key x y Hx Hy) as H1. pose proof (double_lt_key y x Hy Hx) as H2. unfold lex3 in *.
  destruct (double_key x) as [[a1 a2] a3], (double_key y) as [[b1 b2] b3]. cbn [fst snd] in *.
  destruct (double_lt x y), (double_lt y x); split; try done; try (intros [= -> -> ->]); try lia. intros _. f_equal; [f_equal|]; lia.
Qed.

Lemma cells_equal_cmp text a b : good_cell text a -> good_cell text b -> outcells_equal a b = true <-> outcell_cmp a b = 0.
Proof.
  intros [Ha Ta] [Hb Tb]. unfold outcells_equal, outcell_cmp. destruct (oc_null a), (oc_null b); cbn [Bool.eqb negb orb b2z]; try (split; done).
  rewrite Ta, Tb by done. destruct text; cbn [Bool.eqb negb]; [apply Z.eqb_eq|by apply double_eq_sign].
Qed.

Lemma rows_equal_cmp txts x y : Forall2 good_cell txts x -> Forall2 good_cell txts y -> outrows_equal x y = true <-> outrow_cmp_all x y = 0.
Proof.
  intros Hx. revert y. induction Hx as [|t a txts x Ha Hx IH]; intros y Hy; [inversion_clear Hy; done|]. inversion Hy as [|? b ? y' Hb Hy']; subst.
  rewrite cmp_all_step. cbn [outrows_equal]. pose proof (cells_equal_cmp t a b Ha Hb) as E. destruct (outcells_equal a b).
  - destruct (Z.eqb_spec (outcell_cmp a b) 0); [by apply IH|naive_solver].
  - destruct (Z.eqb_spec (outcell_cmp a b) 0); naive_solver.
Qed.

(** On sorted rows one row of every class of equal rows is kept. *)
Lemma uniq_spec txts rows : Forall (Forall2 good_cell txts) rows -> StronglySorted (fun x y => outrow_cmp_all x y <= 0) rows ->
  forall last, (match last with None => True | Some l => Forall2 good_cell txts l /\ Forall (fun y => outrow_cmp_all l y <= 0) rows end) ->
  uniq last rows ⊆ rows /\
  StronglySorted (fun x y => outrow_cmp_all x y < 0) (match last with None => uniq last rows | Some l => l :: uniq last rows end) /\
  forall r, r ∈ rows -> exists r', r' ∈ (match last with None => uniq last rows | Some l => l :: uniq last rows end) /\ outrow_cmp_all r' r = 0.
Proof.
  intros Hg Hs. induction Hs as [|r rows Hs IH Hr]; intros last Hlast.
  - cbn [uniq]. split; [set_solver|]. split; [destruct last; repeat constructor|set_solver].
  - inversion_clear Hg as [|? ? Hgr Hgs]. specialize (IH Hgs). destruct (cmp_all_ordering txts) as [Han Htr]. rewrite list.Forall_forall in Hgs, Hr.
    assert (Hself : outrow_cmp_all r r = 0) by (pose proof (Han r r Hgr Hgr); lia).
    cbn [uniq]. destruct last as [l|].
    + destruct Hlast as [Hl Hle]. pose proof (rows_equal_cmp txts l r Hl Hgr) as Heq. inversion_clear Hle as [|? ? Hlr Hls].
      destruct (outrows_equal l r) eqn:E; cbn [negb].
      * destruct (IH (Some l)) as (I1 & I2 & I3); [done|]. split; [set_solver|]. split; [done|]. intros r' [->|Hr']%elem_of_cons; [|by apply I3].
        exists l. split; [set_solver|]. by apply Heq.
      * destruct (IH (Some r)) as (I1 & I2 & I3); [split; [done|by apply list.Forall_forall]|]. split; [set_solver|].
        assert (Hlt : outrow_cmp_all l r < 0) by (assert (outrow_cmp_all l r <> 0) by (intros H0; apply Heq in H0; congruence); lia). split.
        -- constructor; [done|]. constructor; [done|]. apply list.Forall_forall. intros y Hy. specialize (I1 y Hy). specialize (Hgs y I1).
           rewrite list.Forall_forall in Hls. specialize (Hls y I1). specialize (Hr y I1).
           pose proof (Htr y l r Hgs Hl Hgr) as Ht. pose proof (Han l y Hl Hgs). pose proof (Han r y Hgr Hgs). pose proof (Htr r y l Hgr Hgs Hl). pose proof (Han l r Hl Hgr). lia.
        -- intros r' [->|Hr']%elem_of_cons; [exists r; split; [set_solver|done]|]. destruct (I3 r' Hr') as (r'' & Hin & H0). exists r''. split; [set_solver|done].
    + destruct (IH (Some r)) as (I1 & I2 & I3); [split; [done|by apply list.Forall_forall]|]. split; [set_solver|]. split; [done|].
      intros r' [->|Hr']%elem_of_cons; [exists r; split; [set_solver|done]|]. destruct (I3 r' Hr') as (r'' & Hin & H0). exists r''. split; [set_solver|done].
Qed.

(** The values of a projected row. *)
Definition vals_of (cis : list (option nat)) (r : list Value) : list Value :=
  (fun ci => match ci with Some i => cell_at i r | None => VAL_NULL end) <$> cis.

Definition typed_val (text : bool) (v : Value) : Prop := has_type (negb text) v /\ small_int v.

Lemma project_row ints items cis r : typed_row ints r -> Forall small_int r -> Forall2 (item_ok ints) items cis -> Forall (fun it => si_agg it = AGG_NONE) items ->
  project items cis [r] = Some (cell_of <$> vals_of cis r) /\ print_out items (cell_of <$> vals_of cis r) = Some (printed_of <$> vals_of cis r) /\
  Forall2 typed_val (texts ints items cis) (vals_of cis r).
Proof.
  intros Hr Hs Hit Hn. unfold project, print_out, texts, vals_of. induction Hit as [|it ci items cis Hi Hits IH]; [done|]. inversion_clear Hn as [|? ? Ha Hn'].
  destruct (IH Hn') as (H1 & H2 & H3). destruct ci as [ci|]; [|apply count_star_spec in Hi as [? _]; congruence]. destruct Hi as (_ & int & Hint & _).
  destruct (Forall2_lookup_l _ _ _ _ _ Hr Hint) as (v & Hv & Ht). assert (E : cell_at ci r = v) by (unfold cell_at; by rewrite Hv).
  assert (Hv' : small_int v) by (by eapply Forall_lookup_1). rewrite !fmap_cons, E. cbn [zip_with zip mapM fst snd].
  change (zip items cis) with (zip_with pair items cis) in H1. rewrite H1. unfold compute_cell at 1. rewrite Ha. cbn [head mbind option_bind]. rewrite Hv. cbn [mbind option_bind].
  split; [done|]. rewrite print_value by (done || congruence). cbn [mbind option_bind]. rewrite H2. split; [done|]. constructor; [|done].
  unfold item_text. rewrite Ha, Hint. cbn. split; [by rewrite negb_involutive|done].
Qed.

Lemma cells_good txts vs : Forall2 typed_val txts vs -> Forall2 good_cell txts (cell_of <$> vs).
Proof.
  intros Hv. apply Forall2_fmap_r. revert Hv. apply Forall2_impl. intros t v [Ht _]. rewrite <- (negb_involutive t). by apply cell_of_good.
Qed.

(** Different values make different cells. *)
Lemma cell_of_inj text v w : typed_val text v -> typed_val text w -> outcell_cmp (cell_of v) (cell_of w) = 0 -> v = w.
Proof.
  intros [Tv Sv] [Tw Sw]. destruct v as [a|a|], w as [b|b|]; cbn in *; intros E; try done; try congruence.
  - unfold outcell_cmp in E. cbn in E. unfold double_sign in E. unfold small_int in *. rewrite !double_lt_int in E by (unfold exact_int; lia).
    destruct (Z.ltb_spec a b), (Z.ltb_spec b a); try done. f_equal. lia.
  - unfold outcell_cmp in E. cbn in E. f_equal. by apply strcmp_zero.
Qed.

Lemma cells_inj txts vs ws : Forall2 typed_val txts vs -> Forall2 typed_val txts ws -> outrow_cmp_all (cell_of <$> vs) (cell_of <$> ws) = 0 -> vs = ws.
Proof.
  intros Hv. revert ws. induction Hv as [|t v txts vs Hv Hvs IH]; intros ws Hw; inversion_clear Hw as [|? w ? ws' Hw' Hws']; [done|].
  rewrite !fmap_cons, cmp_all_step. destruct (Z.eqb_spec (outcell_cmp (cell_of v) (cell_of w)) 0) as [E|E]; [|done].
  intros Hr. f_equal; [by eapply cell_of_inj|by apply IH].
Qed.

Lemma fmap_preimage {A B} (f : A -> B) (Q : A -> Prop) (l : list B) : (forall x, x ∈ l -> exists v, x = f v /\ Q v) -> exists vs, l = f <$> vs /\ Forall Q vs.
Proof.
  induction l as [|x l IH]; intros Hl; [by exists []|]. destruct IH as (vs & -> & Hvs); [set_solver|]. destruct (Hl x) as (v & -> & Hv); [set_solver|].
  exists (v :: vs). split; [done|by constructor].
Qed.

Lemma mapM_values {A B C} (g : B -> option C) (f : A -> B) (p : A -> C) l : (forall v, v ∈ l -> g (f v) = Some (p v)) -> mapM g (f <$> l) = Some (p <$> l).
Proof. intros Hl. apply mapM_Some, Forall2_fmap_l, Forall2_fmap_r, Forall_Forall2_diag, list.Forall_forall. exact Hl. Qed.

Section Distinct.
Context `{QSortLaws}.

(** DISTINCT: for rows of typed columns with 32-bit integers the projected rows are
    printed without duplicates: every projection of one of the (first 4096) rows occurs
    exactly once, in the order that ORDER BY asks for, cut to OFFSET and LIMIT. *)
Theorem distinct_correct (h : SelectHead) (rows : list (list Value)) (cols : list ColRef) (cis : list (option nat)) (hci : option nat) (keys : list SortKey) :
  good_rows (cr_is_int <$> cols) rows -> grouped h = false -> s_has_aggregate h = false -> s_distinct h = true ->
  Forall (fun it => si_agg it = AGG_NONE) (s_items h) -> mapM (item_col cols) (s_items h) = Some cis -> having_col h cols = Some hci ->
  mapM (out_key (s_items h)) (s_order h) = Some keys ->
  exists all, NoDup all /\ (forall vs, vs ∈ all <-> exists r, r ∈ take SELECT_MAX_ROWS rows /\ vs = vals_of cis r) /\
    StronglySorted (fun x y => outrow_cmp keys (cell_of <$> x) (cell_of <$> y) <= 0) all /\
    aggregate_rowset h rows cols = Some (Some (fmap printed_of <$> limited (s_limit h) (drop (Z.to_nat (s_offset h)) all))).
Proof.
  intros [Htyped Hsmall _] Hg Ha Hd Hnone Hcis Hhci Hkeys. set (ints := cr_is_int <$> cols) in *. set (txts := texts ints (s_items h) cis).
  assert (Hitems : Forall2 (item_ok ints) (s_items h) cis) by (apply mapM_Some in Hcis; revert Hcis; apply Forall2_impl; intros it ci; apply item_col_ok).
  set (top := take SELECT_MAX_ROWS rows). set (f := fmap cell_of : list Value -> list OutCell).
  assert (Hrow : forall r, r ∈ top -> project (s_items h) cis [r] = Some (f (vals_of cis r)) /\ print_out (s_items h) (f (vals_of cis r)) = Some (printed_of <$> vals_of cis r) /\
    Forall2 typed_val txts (vals_of cis r)).
  { intros r Hr. assert (Hr' : r ∈ rows) by (by eapply sublist_subseteq; [apply sublist_take|]). rewrite list.Forall_forall in Htyped, Hsmall. apply project_row; auto. }
  set (outbuf := f <$> (vals_of cis <$> top)).
  assert (Hbuf : mapM (fun r => project (s_items h) cis [r]) top = Some outbuf).
  { subst outbuf. rewrite <- list_fmap_compose. apply mapM_Some. apply Forall2_fmap_r, Forall_Forall2_diag, list.Forall_forall. intros r Hr. by destruct (Hrow r Hr). }
  assert (Hgood : Forall (Forall2 good_cell txts) outbuf).
  { apply list.Forall_forall. intros x (vs & -> & (r & -> & Hr)%list_elem_of_fmap)%list_elem_of_fmap. apply cells_good. by destruct (Hrow r Hr) as (_ & _ & ?). }
  destruct (law_qsort _ outrow_cmp_all outbuf (ordering_consistent _ _ _ (cmp_all_ordering txts) Hgood)) as [Hp Hs].
  destruct (uniq_spec txts (qsort outrow_cmp_all outbuf)) with (last := @None (list OutCell)) as (U1 & U2 & U3); [by rewrite Hp|done|done|].
  destruct (fmap_preimage f (fun vs => Forall2 typed_val txts vs /\ exists r, r ∈ top /\ vs = vals_of cis r) (uniq None (qsort outrow_cmp_all outbuf))) as (us & Hus & Hq).
  { intros x Hx. apply U1 in Hx. rewrite Hp in Hx. apply list_elem_of_fmap in Hx as (vs & -> & (r & -> & Hr)%list_elem_of_fmap).
    exists (vals_of cis r). split; [done|]. split; [by destruct (Hrow r Hr) as (_ & _ & ?)|eauto]. }
  rewrite Hus in U2, U3. rewrite list.Forall_forall in Hq.
  destruct (emit_spec h txts (f <$> us) keys) as (outs' & out & Hemit & Hp' & Hsort & Hout); [| | |done|].
  { unfold txts, texts. rewrite length_zip_with. apply Forall2_length in Hitems. lia. }
  { rewrite Forall_fmap. apply list.Forall_forall. intros vs Hvs. by apply cells_good, Hq. }
  { rewrite Forall_fmap. apply list.Forall_forall. intros vs Hvs. destruct (Hq vs Hvs) as (_ & r & Hr & ->). destruct (Hrow r Hr) as (_ & Hpr & _). by eexists. }
  apply Permutation_map_inv in Hp' as (all & -> & Hall). exists all. split; [|split; [|split]].
  - rewrite <- Hall. apply cells_sorted_fmap in U2. clear -U2 Hq. induction U2 as [|v us Hs IH Hv]; [constructor|]. constructor; [|apply IH; set_solver].
    intros Hin. rewrite list.Forall_forall in Hv. specialize (Hv v Hin). destruct (Hq v) as [Ht _]; [set_solver|]. apply cells_good in Ht.
    pose proof (ord_anti _ _ (cmp_all_ordering _) _ _ Ht Ht). unfold f in Hv. lia.
  - intros vs. rewrite <- Hall. split; [intros Hvs; by apply Hq|]. intros (r & Hr & ->).
    destruct (U3 (f (vals_of cis r))) as (x & (us1 & -> & Hin)%list_elem_of_fmap & Hz); [rewrite Hp; apply list_elem_of_fmap_2, list_elem_of_fmap_2, Hr|].
    destruct (Hq us1 Hin) as [Ht _]. destruct (Hrow r Hr) as (_ & _ & Ht'). by rewrite <- (cells_inj _ _ _ Ht Ht' Hz).
  - by apply cells_sorted_fmap in Hsort.
  - unfold aggregate_rowset. rewrite Hcis, Hg, Ha, Hd. cbn [negb andb]. rewrite Hhci. unfold distinct_rows. fold top. rewrite Hbuf. cbn [mbind option_bind]. rewrite Hus, Hemit.
    f_equal. f_equal. rewrite <- fmap_drop, limited_fmap, (mapM_values _ _ (fmap printed_of)) in Hout; [congruence|].
    intros vs Hvs%limited_sub. rewrite <- Hall in Hvs. destruct (Hq vs Hvs) as (_ & r & Hr & ->). by destruct (Hrow r Hr) as (_ & ? & _).
Qed.
End Distinct.

(** ** Concrete queries *)

(** The head of a parsed SELECT. *)
Definition head_of (sql : string) : SelectHead :=
  match sql_parse (str sql) with
  | Some (inr (STMT_SELECT (mkSelect h _))) => h
  | _ => mkHead false [] [] [] false false [] false [] [] false item0 CMP_EQ VAL_NULL [] (-1) 0
  end.

Definition demo_cols : list ColRef := [mkColRef (str "t") (str "id") true; mkColRef (str "t") (str "city") false; mkColRef (str "t") (str "n") true].

Definition demo_rows : list (list Value) :=
  [[VAL_INT 1; VAL_TEXT (str "seoul"); VAL_INT 30]; [VAL_INT 2; VAL_TEXT (str "busan"); VAL_NULL]; [VAL_INT 3; VAL_NULL; VAL_INT (-7)];
   [VAL_INT 4; VAL_TEXT (str "seoul"); VAL_INT 12]; [VAL_INT 5; VAL_TEXT (str "busan"); VAL_INT 9]; [VAL_INT 6; VAL_NULL; VAL_INT (-7)]].

Lemma demo_rows_good : good_rows (cr_is_int <$> demo_cols) demo_rows.
Proof. split; [repeat constructor|repeat constructor; vm_compute; done|vm_compute; discriminate]. Qed.

Definition demo_group : SelectHead :=
  head_of "SELECT city, COUNT(*), SUM(n), MIN(n), AVG(n) FROM t GROUP BY city HAVING COUNT(*) > 1 ORDER BY 3 DESC LIMIT 5;".


Definition demo_distinct : SelectHead := head_of "SELECT DISTINCT city, n FROM t ORDER BY n;".

Lemma distinct_correct_witness : exists all : list (list Value), NoDup all /\
  (forall vs, vs ∈ all <-> exists r, r ∈ take SELECT_MAX_ROWS demo_rows /\ vs = vals_of [Some 1%nat; Some 2%nat] r) /\
  @aggregate_rowset insertion_qsort demo_distinct demo_rows demo_cols = Some (Some (fmap (M:=list) printed_of <$> all)) /\ length all = 5%nat.
Proof.
  destruct (@distinct_correct insertion_qsort insertion_qsort_laws demo_distinct demo_rows demo_cols [Some 1%nat; Some 2%nat] None [(1%nat, false)])
    as (all & Hnd & Hall & _ & Hres);
    [exact demo_rows_good|vm_compute; reflexivity|vm_compute; reflexivity|vm_compute; reflexivity|vm_compute; repeat constructor|vm_compute; reflexivity..|].
  - assert (El : s_limit demo_distinct = -1) by (vm_compute; reflexivity). assert (Eo : s_offset demo_distinct = 0) by (vm_compute; reflexivity).
    rewrite El, Eo in Hres. exists all. split; [exact Hnd|]. split; [exact Hall|]. split; [exact Hres|].
    assert (Hlen : (length <$> mjoin (@aggregate_rowset insertion_qsort demo_distinct demo_rows demo_cols)) = Some 5%nat) by (vm_compute; reflexivity).
    rewrite Hres in Hlen. cbn [fmap option_fmap option_map mjoin option_join] in Hlen. apply (inj Some) in Hlen. rewrite <- Hlen. symmetry. apply (length_fmap (fmap (M:=list) printed_of)).
Defined.
