(* ===== verification/Aggregate.v ===== *)
(** * ORDER BY, projection and aggregation on one table (src/src/db.c: exec_select_sorted, exec_select_project)

    Rows are collected by a serial scan into a buffer of [SELECT_MAX_ROWS], or, for
    aggregates on large tables, by a parallel scan without that limit, or not at all:
    the workers of [try_parallel_partial_aggregate] only keep partial sums.  [None] is
    a read of something undefined, [Some None] a schedule that leaves a worker
    running. *)
From stdpp Require Import strings sorting.
From S2P Require Import Prelude Page Pager BufPool Heap Lsm Btree SqlLex SqlParse Row Where Storage Parscan Lock Mvcc Txn Exec Select Double Rowset Statements.

Section Operations.
Context {H I J : Type} `{RecordStore H} `{!ParallelScan H} `{MultiIndex I} `{!RangeIndex I} `{MultiIndex J} `{QSort}.

(** ** Serial collection *)

Definition mat_visit (db : Database) (schema : CreateStmt) (tname : bytes) (w : Where) (rid : RID) (rec : bytes) (ctx : option (list (list Value))) :
  option (list (list Value)) * Z :=
  (rows ← ctx;
   xmin ← db_rec_xmin rec;
   xmax ← db_rec_xmax rec;
   if negb (rec_visible db xmin xmax) then Some rows
   else if bool_decide (SELECT_MAX_ROWS <= length rows)%nat then Some rows
   else
     row ← decode_row schema rec;
     m ← where_matches schema tname w row;
     Some (if (m : bool) then rows ++ [row] else rows), 0).

Definition materialize (db : Database) (t : Table H I J) (tname : bytes) (w : Where) : option (Table H I J * list (list Value)) :=
  '(h, rows, _) ← rs_scan (mat_visit db (t_schema t) tname w) (t_heap t) (Some []);
  rows ← rows;
  Some (with_heap t h, rows).

(** ** ORDER BY, LIMIT and OFFSET of SELECT * *)

Definition order_key (schema : CreateStmt) (tname : bytes) (ok : OrderKey) : option SortKey :=
  if 0 <? o_pos ok then
    if Z.of_nat (length (c_columns schema)) <? o_pos ok then None else Some (Z.to_nat (o_pos ok - 1), o_desc ok)
  else if for_table (o_tbl ok) tname then i ← last_col (c_columns schema) (o_col ok) 0 None; Some (i, o_desc ok)
  else None.

(** The rows printed, or an error. *)
Definition exec_select_sorted (db : Database) (t : Table H I J) (tname : bytes) (h : SelectHead) (w : Where) :
  option (Table H I J * option (list (list Value))) :=
  '(t, rows) ← materialize db t tname w;
  match mapM (order_key (t_schema t) tname) (s_order h) with
  | None => Some (t, None)
  | Some keys =>
      rows ← (match s_order h with [] => Some rows | _ => sort_rows keys rows end);
      Some (t, Some (window (s_limit h) (s_offset h) 0 0 rows))
  end.

(** ** Partial aggregates *)

Record AggPart := mkPart { p_total : Z; p_cnt : Z; p_sum : Z; p_min : Z; p_max : Z; p_seen : bool }.

Definition part0 : AggPart := mkPart 0 0 0 0 0 false.

Definition add_value (p : AggPart) (v : Value) : option AggPart :=
  match v with
  | VAL_NULL => Some p
  | VAL_INT iv =>
      sum ← long_add (p_sum p) iv;
      Some (mkPart (p_total p) (p_cnt p + 1) sum
              (if p_seen p then Z.min iv (p_min p) else iv) (if p_seen p then Z.max iv (p_max p) else iv) true)
  | VAL_TEXT _ => None
  end.

Definition add_row (p : AggPart) (it : SelectItem) (ci : option nat) (row : list Value) : option AggPart :=
  let p := mkPart (p_total p + 1) (p_cnt p) (p_sum p) (p_min p) (p_max p) (p_seen p) in
  if count_star it then Some p else ci ← ci; v ← row !! ci; add_value p v.

Fixpoint add_rows (parts : list AggPart) (items : list SelectItem) (cis : list (option nat)) (row : list Value) : option (list AggPart) :=
  match parts, items, cis with
  | p :: parts, it :: items, ci :: cis => p ← add_row p it ci row; ps ← add_rows parts items cis row; Some (p :: ps)
  | _, _, _ => Some []
  end.

Definition agg_worker_visit (db : Database) (schema : CreateStmt) (tname : bytes) (w : Where) (items : list SelectItem) (cis : list (option nat))
  (rid : RID) (rec : bytes) (ctx : option (list AggPart)) : option (list AggPart) :=
  parts ← ctx;
  r ← matching_row db schema tname w rec;
  match r with None => Some parts | Some row => add_rows parts items cis row end.

(** The partial aggregates of two workers. *)
Definition merge_part (p q : AggPart) : option AggPart :=
  sum ← long_add (p_sum p) (p_sum q);
  Some (mkPart (p_total p + p_total q) (p_cnt p + p_cnt q) sum
          (if p_seen q then if p_seen p then Z.min (p_min q) (p_min p) else p_min q else p_min p)
          (if p_seen q then if p_seen p then Z.max (p_max q) (p_max p) else p_max q else p_max p)
          (p_seen p || p_seen q)).

Fixpoint merge_parts (p : AggPart) (qs : list AggPart) : option AggPart :=
  match qs with [] => Some p | q :: qs => p ← merge_part p q; merge_parts p qs end.

Definition finalize (it : SelectItem) (p : AggPart) : OutCell :=
  match si_agg it with
  | AGG_COUNT => num_cell (double_of (if si_star it then p_total p else p_cnt p))
  | AGG_SUM => if p_seen p then num_cell (double_of (p_sum p)) else null_cell
  | AGG_AVG => if p_seen p then num_cell (double_div (double_of (p_sum p)) (double_of (p_cnt p))) else null_cell
  | AGG_MIN => if p_seen p then num_cell (double_of (p_min p)) else null_cell
  | _ => if p_seen p then num_cell (double_of (p_max p)) else null_cell
  end.

Definition cols_of (schema : CreateStmt) (tname : bytes) : list ColRef :=
  (fun c => mkColRef tname (cd_name c) (match cd_type c with COL_INT => true | COL_TEXT => false end)) <$> c_columns schema.

(** Items the workers can aggregate: integer columns and COUNT of all rows. *)
Definition part_col (cols : list ColRef) (it : SelectItem) : option (option nat) :=
  if decide (si_agg it = AGG_NONE) then None
  else if count_star it then Some None
  else ci ← find_col cols (si_tbl it) (si_col it); c ← cols !! ci; if cr_is_int c then Some (Some ci) else None.

(** The cells of the only output row, from the workers' parts of every item. *)
Fixpoint combine (items : list SelectItem) (k : nat) (parts : list (list AggPart)) : option (list OutCell) :=
  match items with
  | [] => Some []
  | it :: items =>
      ps ← mapM (fun ps => ps !! k) parts;
      p ← merge_parts part0 ps;
      cs ← combine items (S k) parts;
      Some (finalize it p :: cs)
  end.

(** A table and what was printed, or the table alone when the caller has to go on. *)
Definition try_parallel_partial_aggregate (db : Database) (t : Table H I J) (tname : bytes) (h : SelectHead) (w : Where) (nworkers : Z) (sched : list nat) :
  option (option (Table H I J * option (option (list (list Printed))))) :=
  if negb (s_has_aggregate h) || grouped h || s_has_having h || s_distinct h || where_has_subquery w then Some (Some (t, None))
  else if par_pages (t_heap t) <? PARSCAN_MIN_PAGES then Some (Some (t, None))
  else
    match mapM (part_col (cols_of (t_schema t) tname)) (s_items h) with
    | None => Some (Some (t, None))
    | Some cis =>
        r ← par_foreach (agg_worker_visit db (t_schema t) tname w (s_items h) cis) (t_heap t) nworkers
              (replicate (Z.to_nat nworkers) (Some (replicate (length (s_items h)) part0))) sched;
        match r with
        | None => Some None
        | Some (hp, ctxs, rc) =>
            if negb (rc =? 0) then Some (Some (with_heap t hp, None))
            else
              parts ← mapM id ctxs;
              row ← combine (s_items h) 0 parts;
              out ← emit_out_rows h [row];
              Some (Some (with_heap t hp, Some out))
        end
    end.

Definition try_parallel_aggregate (db : Database) (t : Table H I J) (tname : bytes) (h : SelectHead) (w : Where) (nworkers : Z) (sched : list nat) :
  option (option (Table H I J * option (option (list (list Printed))))) :=
  if negb (s_has_aggregate h || grouped h) || where_has_subquery w then Some (Some (t, None))
  else if par_pages (t_heap t) <? PARSCAN_MIN_PAGES then Some (Some (t, None))
  else
    r ← par_collect (t_heap t) nworkers (parsel_pred db (t_schema t) tname w) sched;
    match r with
    | None => Some None
    | Some (hp, None) => Some (Some (with_heap t hp, None))
    | Some (hp, Some rids) =>
        '(hp, rows) ← print_rids (t_schema t) hp rids [];
        out ← aggregate_rowset h rows (cols_of (t_schema t) tname);
        Some (Some (with_heap t hp, Some out))
    end.

(** The return code and the output; the parallel paths return 0 even after an error message. *)
Definition exec_select_project (db : Database) (t : Table H I J) (tname : bytes) (h : SelectHead) (w : Where) (nworkers : Z) (sched1 sched2 : list nat) :
  option (option (Table H I J * Z * option (list (list Printed)))) :=
  r ← try_parallel_partial_aggregate db t tname h w nworkers sched1;
  match r with
  | None => Some None
  | Some (t, Some out) => Some (Some (t, 0, out))
  | Some (t, None) =>
      r ← try_parallel_aggregate db t tname h w nworkers sched2;
      match r with
      | None => Some None
      | Some (t, Some out) => Some (Some (t, 0, out))
      | Some (t, None) =>
          '(t, rows) ← materialize db t tname w;
          out ← aggregate_rowset h rows (cols_of (t_schema t) tname);
          Some (Some (t, match out with Some _ => 0 | None => -1 end, out))
      end
  end.
End Operations.

(** ** Partial aggregates of rows *)

(** The integers an item aggregates. *)
Definition part_ints (ci : option nat) (rows : list (list Value)) : list Z :=
  match ci with Some i => ints_of (cell_at i <$> rows) | None => [] end.

Record part_spec (ci : option nat) (rows : list (list Value)) (p : AggPart) : Prop := {
  ps_total : p_total p = Z.of_nat (length rows);
  ps_cnt : p_cnt p = Z.of_nat (length (part_ints ci rows));
  ps_sum : p_sum p = sum_of (part_ints ci rows);
  ps_seen : p_seen p = negb (bool_decide (part_ints ci rows = []));
  ps_min : part_ints ci rows <> [] -> p_min p ∈ part_ints ci rows /\ forall z, z ∈ part_ints ci rows -> p_min p <= z;
  ps_max : part_ints ci rows <> [] -> p_max p ∈ part_ints ci rows /\ forall z, z ∈ part_ints ci rows -> z <= p_max p }.

Lemma part_ints_app ci r1 r2 : part_ints ci (r1 ++ r2) = part_ints ci r1 ++ part_ints ci r2.
Proof. destruct ci; [|done]. cbn. unfold ints_of. by rewrite fmap_app, omap_app. Qed.

Lemma sum_of_app a b : sum_of (a ++ b) = sum_of a + sum_of b.
Proof. induction a as [|z a IH]; cbn; [done|]. fold (sum_of (a ++ b)). fold (sum_of a). lia. Qed.

Definition few_small (rows : list (list Value)) : Prop := Forall (Forall small_int) rows /\ Z.of_nat (length rows) <= 2 ^ 21.

Lemma part_bound ci rows : few_small rows -> Z.abs (sum_of (part_ints ci rows)) <= 2 ^ 52.
Proof.
  intros [Hs Hl]. destruct ci as [i|]; unfold part_ints; [|change (sum_of []) with 0; lia]. pose proof (sum_bound _ (ints_small _ (column_small i rows Hs))) as Hb.
  pose proof (ints_length (cell_at i <$> rows)) as Hn. rewrite length_fmap in Hn. lia.
Qed.

Lemma long_add_some a b : Z.abs (a + b) <= 2 ^ 52 -> long_add a b = Some (a + b).
Proof. intros Hb. unfold long_add. destruct (Z.leb_spec (- 2 ^ 63) (a + b)), (Z.ltb_spec (a + b) (2 ^ 63)); try done; lia. Qed.

Lemma few_small_app r1 r2 : few_small (r1 ++ r2) -> few_small r1 /\ few_small r2.
Proof. intros [Hs Hl]. apply list.Forall_app in Hs as [H1 H2]. rewrite length_app in Hl. split; (split; [done|lia]). Qed.

Lemma part0_spec ci : part_spec ci [] part0.
Proof. by destruct ci. Qed.

(** Parts of two sets of rows make the part of both. *)
Lemma merge_part_spec ci r1 r2 p q : few_small (r1 ++ r2) -> part_spec ci r1 p -> part_spec ci r2 q ->
  exists r, merge_part p q = Some r /\ part_spec ci (r1 ++ r2) r.
Proof.
  intros Hf [T1 C1 S1 E1 M1 X1] [T2 C2 S2 E2 M2 X2]. unfold merge_part. pose proof (part_bound ci _ Hf) as Hb. rewrite part_ints_app, sum_of_app in Hb.
  rewrite S1, S2, long_add_some by done. cbn [mbind option_bind]. eexists. split; [done|]. rewrite E1, E2.
  split; cbn [p_total p_cnt p_sum p_seen p_min p_max]; rewrite ?part_ints_app, ?length_app, ?sum_of_app; try lia.
  - destruct (part_ints ci r1), (part_ints ci r2); done.
  - destruct (bool_decide_reflect (part_ints ci r1 = [])) as [Z1|Z1], (bool_decide_reflect (part_ints ci r2 = [])) as [Z2|Z2]; cbn [negb];
      rewrite ?Z1, ?Z2, ?app_nil_r; try done; try (by intros _; apply M2); try (by intros _; apply M1). intros _. destruct (M1 Z1) as [I1 L1], (M2 Z2) as [I2 L2].
    split; [destruct (Z.min_spec (p_min q) (p_min p)) as [[_ ->]|[_ ->]]; set_solver|]. intros z [Hz|Hz]%elem_of_app; [specialize (L1 z Hz)|specialize (L2 z Hz)]; lia.
  - destruct (bool_decide_reflect (part_ints ci r1 = [])) as [Z1|Z1], (bool_decide_reflect (part_ints ci r2 = [])) as [Z2|Z2]; cbn [negb];
      rewrite ?Z1, ?Z2, ?app_nil_r; try done; try (by intros _; apply X2); try (by intros _; apply X1). intros _. destruct (X1 Z1) as [I1 L1], (X2 Z2) as [I2 L2].
    split; [destruct (Z.max_spec (p_max q) (p_max p)) as [[_ ->]|[_ ->]]; set_solver|]. intros z [Hz|Hz]%elem_of_app; [specialize (L1 z Hz)|specialize (L2 z Hz)]; lia.
Qed.

(** Items the workers aggregate. *)
Definition part_ok (ints : list bool) (it : SelectItem) (ci : option nat) : Prop :=
  si_agg it <> AGG_NONE /\ match ci with None => count_star it = true | Some i => count_star it = false /\ ints !! i = Some true end.

(** One row is a part of its own. *)
Lemma add_row_spec ints it ci rows row p : part_ok ints it ci -> typed_row ints row -> few_small (rows ++ [row]) -> part_spec ci rows p ->
  exists p', add_row p it ci row = Some p' /\ part_spec ci (rows ++ [row]) p'.
Proof.
  intros [_ Hok] Ht Hf Hp. pose proof (part_bound ci _ Hf) as Hb. rewrite part_ints_app, sum_of_app in Hb. unfold add_row. destruct ci as [i|].
  - destruct Hok as [-> Hi]. destruct (Forall2_lookup_l _ _ _ _ _ Ht Hi) as (v & Hv & Htv). cbn [mbind option_bind]. rewrite Hv. cbn [mbind option_bind].
    assert (Hc : cell_at i row = v) by (unfold cell_at; by rewrite Hv). destruct Hp as [T C S E M X]. destruct v as [z| |]; [|done|].
    + assert (Hz : part_ints (Some i) [row] = [z]) by (cbn; by rewrite Hc). rewrite Hz in Hb. cbn [add_value p_total p_cnt p_sum p_seen p_min p_max].
      change (sum_of [z]) with (z + 0) in Hb. rewrite S, long_add_some by lia. cbn [mbind option_bind]. eexists. split; [done|]. rewrite E.
      split; cbn [p_total p_cnt p_sum p_seen p_min p_max]; rewrite ?part_ints_app, ?Hz, ?length_app, ?sum_of_app; cbn [length]; try (change (sum_of [z]) with (z + 0)); try lia.
      * rewrite bool_decide_eq_false_2; [done|]. intros E0%(f_equal length). rewrite length_app in E0. cbn in E0. lia.
      * intros _. destruct (bool_decide_reflect (part_ints (Some i) rows = [])) as [Z1|Z1]; cbn [negb]; [rewrite Z1; cbn; set_solver by lia|]. destruct (M Z1) as [I1 L1].
        split; [destruct (Z.min_spec z (p_min p)) as [[_ ->]|[_ ->]]; set_solver|]. intros y [Hy|Hy%list_elem_of_singleton]%elem_of_app; [specialize (L1 y Hy)|]; lia.
      * intros _. destruct (bool_decide_reflect (part_ints (Some i) rows = [])) as [Z1|Z1]; cbn [negb]; [rewrite Z1; cbn; set_solver by lia|]. destruct (X Z1) as [I1 L1].
        split; [destruct (Z.max_spec z (p_max p)) as [[_ ->]|[_ ->]]; set_solver|]. intros y [Hy|Hy%list_elem_of_singleton]%elem_of_app; [specialize (L1 y Hy)|]; lia.
    + assert (Hz : part_ints (Some i) [row] = []) by (cbn; by rewrite Hc). cbn [add_value]. eexists. split; [done|].
      split; cbn [p_total p_cnt p_sum p_seen p_min p_max]; rewrite ?part_ints_app, ?Hz, ?app_nil_r, ?length_app; try done; cbn; lia.
  - rewrite Hok. destruct Hp as [T C S E M X]. eexists. split; [done|]. split; cbn [p_total p_cnt p_sum p_seen p_min p_max]; rewrite ?length_app; try done; cbn; lia.
Qed.

(** The cell made of a part is the cell of the rows. *)
Lemma finalize_spec ints it ci rows p : good_rows ints rows -> part_ok ints it ci -> part_spec ci rows p -> compute_cell it ci rows = Some (finalize it p).
Proof.
  intros [Ht Hs Hf] [Hn Hok] [T C S E M X]. unfold compute_cell, finalize. destruct ci as [i|]; cbn [part_ints] in *.
  2: { apply count_star_spec in Hok as [-> ->]. by rewrite T. }
  destruct Hok as [Hcs Hi]. destruct (column_spec ints i true rows Ht Hi) as [Hcol Hct]. pose proof (column_small i rows Hs) as Hsm.
  pose proof (non_null_int _ Hct) as Hnn. rewrite E, Hcol. cbn [mbind option_bind].
  assert (Hsum : sum_cells (cell_at i <$> rows) 0 0 = Some (p_sum p, p_cnt p)).
  { rewrite (sum_cells_spec _ Hct Hsm) by (rewrite length_fmap; lia). rewrite S, C, !Z.add_0_l. done. }
  assert (Hzero : (p_cnt p =? 0) = bool_decide (ints_of (cell_at i <$> rows) = [])).
  { rewrite C. destruct (ints_of (cell_at i <$> rows)); [done|]. cbn [length]. apply Z.eqb_neq. lia. }
  assert (Hbest : forall least, exists r, best_cell least (cell_at i <$> rows) None = Some r /\
    match r with
    | None => ints_of (cell_at i <$> rows) = []
    | Some v => exists z, v = VAL_INT z /\ z ∈ ints_of (cell_at i <$> rows) /\ forall y, y ∈ ints_of (cell_at i <$> rows) -> if least : bool then z <= y else y <= z
    end).
  { intros least. destruct (best_cell_spec true least _ Hct None [] eq_refl) as (r & Hr & Hpost); [constructor|]. cbn [app] in Hpost. exists r. split; [done|].
    assert (Hin : forall v, v ∈ non_null (cell_at i <$> rows) <-> exists z, v = VAL_INT z /\ z ∈ ints_of (cell_at i <$> rows)).
    { intros v. unfold non_null, ints_of. rewrite list_elem_of_filter. rewrite list.Forall_forall in Hct. split.
      - intros [Hv Hin]. specialize (Hct v Hin). destruct v as [z| |]; try done. exists z. split; [done|]. apply list_elem_of_omap. by exists (VAL_INT z).
      - intros (z & -> & (u & Hu & Hz)%list_elem_of_omap). destruct u; try done. injection Hz as ->. done. }
    destruct r as [v|].
    - destruct Hpost as [Hv Hb]. apply Hin in Hv as (z & -> & Hz). exists z. split; [done|]. split; [done|]. intros y Hy.
      specialize (Hb (VAL_INT y) ltac:(apply Hin; eauto)). destruct least; cbn in Hb; lia.
    - rewrite Hpost in Hnn. destruct (ints_of (cell_at i <$> rows)); [done|]. cbn in Hnn. lia. }
  destruct (si_agg it) eqn:Ea; try done.
  - destruct (si_star it) eqn:Es; [unfold count_star in Hcs; rewrite Ea, Es in Hcs; done|]. fold (non_null (cell_at i <$> rows)). by rewrite Hnn, C.
  - rewrite Hsum. cbn [mbind option_bind]. rewrite Hzero. by destruct (bool_decide _).
  - rewrite bool_decide_eq_true_2 by done. destruct (Hbest true) as (r & -> & Hr). cbn [mbind option_bind]. destruct r as [v|].
    + destruct Hr as (z & -> & Hz & Hle). rewrite bool_decide_eq_false_2 by (intros E0; rewrite E0 in Hz; by apply elem_of_nil in Hz). cbn [negb cell_of].
      destruct M as [Hm1 Hm2]; [intros E0; rewrite E0 in Hz; by apply elem_of_nil in Hz|]. do 2 f_equal. f_equal. specialize (Hle _ Hm1). specialize (Hm2 _ Hz). lia.
    + by rewrite bool_decide_eq_true_2.
  - rewrite bool_decide_eq_false_2 by done. destruct (Hbest false) as (r & -> & Hr). cbn [mbind option_bind]. destruct r as [v|].
    + destruct Hr as (z & -> & Hz & Hle). rewrite bool_decide_eq_false_2 by (intros E0; rewrite E0 in Hz; by apply elem_of_nil in Hz). cbn [negb cell_of].
      destruct X as [Hm1 Hm2]; [intros E0; rewrite E0 in Hz; by apply elem_of_nil in Hz|]. do 2 f_equal. f_equal. specialize (Hle _ Hm1). specialize (Hm2 _ Hz). lia.
    + by rewrite bool_decide_eq_true_2.
  - rewrite Hsum. cbn [mbind option_bind]. rewrite Hzero. by destruct (bool_decide _).
Qed.

(** ** What the scans collect *)

Section Theory.
Context {H I J : Type} `{RecordStoreLaws H} `{!ParallelScan H} `{!ParallelScanLaws H} `{MultiIndexLaws I} `{!RangeIndex I} `{!RangeIndexLaws I} `{MultiIndexLaws J} `{QSortLaws}.
Implicit Types (t : Table H I J) (vs : list Version).

Lemma mat_fold db schema tname w vs rows : schema_ok schema -> Forall2 (stores schema) vs rows -> forall acc, (length acc <= SELECT_MAX_ROWS)%nat ->
  foldl (fun c e => (mat_visit db schema tname w e.1 e.2 c).1) (Some acc) rows =
  Some (acc ++ take (SELECT_MAX_ROWS - length acc) (answer db schema tname w vs)).
Proof.
  intros Hs. unfold answer. induction 1 as [|v e vs rows Hv Hst IH]; intros acc Hacc; [cbn; by rewrite take_nil, app_nil_r|].
  cbn [foldl]. assert (Hstep : (mat_visit db schema tname w e.1 e.2 (Some acc)).1 =
    Some (if hits db schema tname w v && bool_decide (length acc < SELECT_MAX_ROWS)%nat then acc ++ [v_row v] else acc)).
  { pose proof (stores_decode _ _ _ Hs Hv) as Hd. pose proof Hv as (_ & Hr & (_ & Hvals & _) & Hmin & Hmax).
    destruct (row_rep_head _ _ _ _ _ Hr Hmin Hmax) as [E1 E2]. unfold mat_visit. cbn [fst mbind option_bind]. rewrite E1, E2. cbn [mbind option_bind].
    unfold hits, sees. destruct (rec_visible db (v_xmin v) (v_xmax v)); [|done]. cbn [negb andb].
    destruct (bool_decide_reflect (SELECT_MAX_ROWS <= length acc)%nat).
    - rewrite bool_decide_eq_false_2 by lia. by rewrite andb_false_r.
    - rewrite bool_decide_eq_true_2 by lia. rewrite andb_true_r, Hd. cbn [mbind option_bind]. unfold satisfies.
      destruct (where_matches_total schema tname w (v_row v)) as [b ->]; [by apply val_cell|]. done. }
  rewrite Hstep. rewrite filter_cons. destruct (hits db schema tname w v); cbn [andb].
  - rewrite decide_True by done. destruct (bool_decide_reflect (length acc < SELECT_MAX_ROWS)%nat) as [Hlt|Hge].
    + rewrite IH by (rewrite length_app; cbn; lia). rewrite fmap_cons, length_app. cbn [length].
      replace (SELECT_MAX_ROWS - length acc)%nat with (S (SELECT_MAX_ROWS - (length acc + 1))) by lia. by rewrite <- app_assoc.
    + rewrite IH by done. replace (SELECT_MAX_ROWS - length acc)%nat with 0%nat by lia. by rewrite !take_0.
  - rewrite decide_False by done. by apply IH.
Qed.

Lemma materialize_spec db sh n t vs tname w : table_rep sh n t vs ->
  exists t', materialize db t tname w = Some (t', take SELECT_MAX_ROWS (answer db (sh_schema sh) tname w vs)) /\ table_rep sh n t' vs.
Proof.
  intros Hrep. destruct (table_schema _ _ _ _ Hrep) as (Hs & Hok & _).
  destruct (scan_spec (fun rid rec c => (mat_visit db (t_schema t) tname w rid rec c).1) sh n t vs (Some []) Hrep) as (h' & rows & He & Hst & Hrep').
  rewrite Hs in He. rewrite (mat_fold db _ tname w _ _ Hok Hst) in He by (cbn; lia).
  unfold materialize. rewrite Hs. change (rs_scan (mat_visit db (sh_schema sh) tname w)) with
    (rs_scan (fun rid rec c => ((mat_visit db (sh_schema sh) tname w rid rec c).1, 0))). rewrite He. cbn [mbind option_bind app length]. rewrite Nat.sub_0_r. by eexists.
Qed.

(** Rows of a table have typed columns and 32-bit integers. *)
Lemma cols_typed schema tname row : good_row schema row -> typed_row (cr_is_int <$> cols_of schema tname) row /\ Forall small_int row.
Proof.
  intros (Hm & _ & Hi). split; [|revert Hi; apply Forall_impl; by intros []]. unfold cols_of, typed_row. rewrite <- list_fmap_compose.
  revert row Hm Hi. induction (c_columns schema) as [|c cols IH]; intros [|v row] Hm Hi; try done. cbn in Hm. apply andb_true_iff in Hm as [Hc Hm].
  rewrite fmap_cons. inversion_clear Hi. constructor; [|by apply IH]. unfold matches_col in Hc. cbn. destruct v, (cd_type c); done.
Qed.

Lemma answer_good db sh n t vs tname w : table_rep sh n t vs ->
  Forall (typed_row (cr_is_int <$> cols_of (sh_schema sh) tname)) (answer db (sh_schema sh) tname w vs) /\ Forall (Forall small_int) (answer db (sh_schema sh) tname w vs).
Proof.
  intros (_ & _ & (rows & _ & Hst) & _).
  assert (Hg : Forall (fun v => good_row (sh_schema sh) (v_row v)) vs).
  { clear -Hst. induction Hst as [|v e vs rows Hv _ IH]; constructor; [by destruct Hv as (_ & _ & ? & _)|done]. }
  rewrite list.Forall_forall in Hg. unfold answer. split; rewrite Forall_fmap; apply list.Forall_forall; intros v [_ Hv]%list_elem_of_filter; by destruct (cols_typed _ tname _ (Hg v Hv)).
Qed.

(** *** SELECT * with ORDER BY *)

Lemma order_key_bound schema tname ok k : order_key schema tname ok = Some k -> (k.1 < length (c_columns schema))%nat.
Proof.
  unfold order_key. destruct (Z.ltb_spec 0 (o_pos ok)).
  - destruct (Z.ltb_spec (Z.of_nat (length (c_columns schema))) (o_pos ok)); [done|]. intros [= <-]. cbn. lia.
  - destruct (for_table _ _); [|done]. intros (i & Hi & [= <-])%bind_Some. apply last_col_lookup in Hi as [?|(c & _ & Hc & _)]; [done|].
    apply lookup_lt_Some in Hc. cbn. lia.
Qed.

(** C34. SELECT * with ORDER BY, OFFSET and LIMIT prints exactly the requested slice of the
    visible matching rows (the first 4096 of them) sorted by the keys, each ascending
    or descending, integers by value, texts bytewise, NULLs last; a key that does
    not resolve is an error, and the table is unchanged. *)
Theorem select_sorted (sh : Shape) (n : nat) t vs (db : Database) (tname : bytes) (h : SelectHead) (w : Where) :
  table_rep sh n t vs ->
  exists t', table_rep sh n t' vs /\
    match mapM (order_key (sh_schema sh) tname) (s_order h) with
    | None => exec_select_sorted db t tname h w = Some (t', None)
    | Some keys => exists sorted, sorted ≡ₚ take SELECT_MAX_ROWS (answer db (sh_schema sh) tname w vs) /\
        StronglySorted (fun x y => ~ row_lt keys y x) sorted /\
        exec_select_sorted db t tname h w = Some (t', Some (limited (s_limit h) (drop (Z.to_nat (s_offset h)) sorted)))
    end.
Proof.
  intros Hrep. destruct (materialize_spec db sh n t vs tname w Hrep) as (t' & Hm & Hrep'). exists t'. split; [done|].
  destruct (table_schema _ _ _ _ Hrep') as (Hs & _). unfold exec_select_sorted. rewrite Hm. cbn [mbind option_bind]. rewrite Hs.
  destruct (mapM (order_key (sh_schema sh) tname) (s_order h)) as [keys|] eqn:Hk; [|done].
  destruct (answer_good db sh n t vs tname w Hrep) as [Ht _].
  assert (Hkeys : Forall (key_ok (cr_is_int <$> cols_of (sh_schema sh) tname)) keys).
  { apply mapM_Some in Hk. apply list.Forall_forall. intros k [i Hi]%list_elem_of_lookup. destruct (Forall2_lookup_r _ _ _ _ _ Hk Hi) as (ok & _ & Hok).
    unfold key_ok, cols_of. rewrite !length_fmap. by eapply order_key_bound. }
  destruct (sort_rows_spec (cr_is_int <$> cols_of (sh_schema sh) tname) keys (take SELECT_MAX_ROWS (answer db (sh_schema sh) tname w vs))) as (sorted & Hsort & Hp & Hss); [by apply Forall_take|done|].
  destruct (s_order h) as [|ok oks] eqn:Eo.
  - injection Hk as <-. exists (take SELECT_MAX_ROWS (answer db (sh_schema sh) tname w vs)). split; [done|]. split; [|by rewrite <- window_spec].
    clear. induction (take SELECT_MAX_ROWS _) as [|r l IH]; constructor; [done|]. apply list.Forall_forall. by intros y _ [].
  - exists sorted. split; [done|]. split; [done|]. rewrite Hsort. cbn [mbind option_bind]. by rewrite window_spec.
Qed.

(** *** Parallel aggregation *)

Lemma add_rows_spec ints items cis rows row : Forall2 (part_ok ints) items cis -> typed_row ints row -> few_small (rows ++ [row]) ->
  forall parts, Forall2 (fun ci p => part_spec ci rows p) cis parts ->
  exists parts', add_rows parts items cis row = Some parts' /\ Forall2 (fun ci p => part_spec ci (rows ++ [row]) p) cis parts'.
Proof.
  intros Hok Ht Hf. induction Hok as [|it ci items cis Hi _ IH]; intros parts Hp; inversion_clear Hp as [|? p ? ps Hp1 Hps]; [by exists []|].
  destruct (add_row_spec ints it ci rows row p Hi Ht Hf Hp1) as (p' & Ha & Hp'). destruct (IH _ Hps) as (ps' & Has & Hps').
  exists (p' :: ps'). cbn [add_rows]. rewrite Ha. cbn [mbind option_bind]. rewrite Has. split; [done|by constructor].
Qed.

Lemma answer_app db schema tname w (us1 us2 : list Version) : answer db schema tname w (us1 ++ us2) = answer db schema tname w us1 ++ answer db schema tname w us2.
Proof. unfold answer. by rewrite list.filter_app, fmap_app. Qed.

Section Workers.
Context (db : Database) (schema : CreateStmt) (tname : bytes) (w : Where) (items : list SelectItem) (cis : list (option nat)).
Let ints := cr_is_int <$> cols_of schema tname.
Hypotheses (Hs : schema_ok schema) (Hok : Forall2 (part_ok ints) items cis).
Let visit := agg_worker_visit db schema tname w items cis.
Let parts_of (us : list Version) (ps : list AggPart) : Prop := Forall2 (fun ci p => part_spec ci (answer db schema tname w us) p) cis ps.

(** A worker that starts with the parts of some versions ends with those of more. *)
Lemma worker_fold us recs : Forall2 (stores schema) us recs -> forall us0 ps, few_small (answer db schema tname w (us0 ++ us)) -> parts_of us0 ps ->
  exists ps', visit_rows visit (Some ps) recs = Some ps' /\ parts_of (us0 ++ us) ps'.
Proof.
  unfold visit_rows. induction 1 as [|v e us recs Hv Hst IH]; intros us0 ps Hf Hp; [exists ps; by rewrite app_nil_r|].
  cbn [foldl]. unfold visit at 2, agg_worker_visit. cbn [mbind option_bind]. rewrite (stores_matching db _ tname w _ _ Hs Hv). cbn [mbind option_bind].
  replace (us0 ++ v :: us) with ((us0 ++ [v]) ++ us) in Hf |- * by (by rewrite <- app_assoc).
  assert (Hone : answer db schema tname w (us0 ++ [v]) = answer db schema tname w us0 ++ (if hits db schema tname w v then [v_row v] else [])).
  { rewrite answer_app. f_equal. unfold answer. rewrite filter_cons. by destruct (hits db schema tname w v). }
  assert (Hf1 : few_small (answer db schema tname w (us0 ++ [v]))) by (rewrite answer_app in Hf; by apply few_small_app in Hf as [? _]).
  destruct (hits db schema tname w v).
  - destruct (cols_typed schema tname (v_row v)) as [Ht _]; [by destruct Hv as (_ & _ & ? & _)|].
    destruct (add_rows_spec ints items cis (answer db schema tname w us0) (v_row v) Hok Ht) with (parts := ps) as (ps' & Ha & Hp'); [by rewrite <- Hone|done|].
    rewrite Ha. apply IH; [done|]. unfold parts_of. by rewrite Hone.
  - apply IH; [done|]. unfold parts_of. rewrite Hone. by rewrite app_nil_r.
Qed.

Lemma parts0 : parts_of [] (replicate (length items) part0).
Proof.
  unfold parts_of. replace (length items) with (length cis) by (symmetry; by eapply Forall2_length). apply Forall2_replicate_r; [done|].
  apply list.Forall_forall. intros ci _. apply part0_spec.
Qed.

(** All workers, on consecutive parts of the versions. *)
Lemma workers_spec (vparts : list (list Version)) rparts : Forall2 (Forall2 (stores schema)) vparts rparts -> few_small (answer db schema tname w (mjoin vparts)) ->
  exists pss, mapM id (zip_with (visit_rows visit) (replicate (length rparts) (Some (replicate (length items) part0))) rparts) = Some pss /\ Forall2 parts_of vparts pss.
Proof.
  induction 1 as [|us recs vparts rparts Hst _ IH]; intros Hf; [by exists []|]. rewrite join_cons, answer_app in Hf. apply few_small_app in Hf as [Hf1 Hf2].
  destruct (IH Hf2) as (pss & Hm & Hpss). destruct (worker_fold us recs Hst [] _ Hf1 parts0) as (ps & Hv & Hp).
  exists (ps :: pss). apply mapM_Some in Hm. split; [|by constructor]. apply mapM_Some. cbn [length replicate zip_with]. constructor; [exact Hv|exact Hm].
Qed.
End Workers.

Lemma Forall2_join_r {A B} (R : A -> B -> Prop) (parts : list (list B)) : forall l, Forall2 R l (mjoin parts) -> exists lparts, l = mjoin lparts /\ Forall2 (Forall2 R) lparts parts.
Proof.
  induction parts as [|p parts IH]; intros l Hl; [inversion_clear Hl; by exists []|]. rewrite join_cons in Hl. apply Forall2_app_inv_r in Hl as (l1 & l2 & Hl1 & Hl2 & ->).
  destruct (IH _ Hl2) as (lparts & -> & Hp). exists (l1 :: lparts). rewrite join_cons. split; [done|by constructor].
Qed.

Lemma merge_parts_spec ci rowss qs : Forall2 (fun rows q => part_spec ci rows q) rowss qs -> forall r0 p, few_small (r0 ++ mjoin rowss) -> part_spec ci r0 p ->
  exists r, merge_parts p qs = Some r /\ part_spec ci (r0 ++ mjoin rowss) r.
Proof.
  induction 1 as [|rows q rowss qs Hq _ IH]; intros r0 p Hf Hp; [exists p; by rewrite app_nil_r|]. rewrite join_cons, app_assoc in Hf |- *.
  destruct (few_small_app _ _ Hf) as [Hf1 _]. destruct (merge_part_spec ci r0 rows p q Hf1 Hp Hq) as (r & Hm & Hr). cbn [merge_parts]. rewrite Hm. cbn [mbind option_bind].
  by apply IH.
Qed.

(** The leader's cells are those of the aggregation of all rows. *)
Lemma combine_spec ints items cis rowss pss : Forall2 (part_ok ints) items cis -> good_rows ints (mjoin rowss) -> forall k,
  Forall2 (fun rows ps => forall j ci, cis !! j = Some ci -> exists p, ps !! (k + j)%nat = Some p /\ part_spec ci rows p) rowss pss ->
  exists row, combine items k pss = Some row /\ project items cis (mjoin rowss) = Some row.
Proof.
  intros Hok Hg. assert (Hf : few_small (mjoin rowss)) by (split; apply Hg). unfold project. induction Hok as [|it ci items cis Hi Hits IH]; intros k Hp; [by exists []|].
  assert (Hcol : exists ps, mapM (fun ps : list AggPart => ps !! k) pss = Some ps /\ Forall2 (fun rows q => part_spec ci rows q) rowss ps).
  { clear -Hp. induction Hp as [|rows ps rowss pss Hps1 _ (qs & Hm & Hq)]; [by exists []|]. destruct (Hps1 0%nat ci eq_refl) as (p & Hk & Hps). rewrite Nat.add_0_r in Hk.
    exists (p :: qs). cbn [mapM]. rewrite Hk. cbn [mbind option_bind]. rewrite Hm. split; [done|by constructor]. }
  destruct Hcol as (ps & Hm & Hps). destruct (merge_parts_spec ci rowss ps Hps [] part0 Hf (part0_spec ci)) as (p & Hmp & Hpp).
  destruct (IH (S k)) as (row & Hc & Hpr).
  { revert Hp. apply Forall2_impl. intros rows qs Hj j ci' Hcj. destruct (Hj (S j) ci' Hcj) as (q & Hq & Hs). exists q. by rewrite Nat.add_succ_comm. }
  exists (finalize it p :: row). cbn [combine]. rewrite Hm. cbn [mbind option_bind]. rewrite Hmp. cbn [mbind option_bind]. rewrite Hc. split; [done|].
  cbn [zip zip_with mapM fst snd]. rewrite (finalize_spec ints it ci _ p Hg Hi Hpp). cbn [mbind option_bind]. change (zip items cis) with (zip_with pair items cis) in Hpr. by rewrite Hpr.
Qed.

Lemma part_col_ok cols it ci : part_col cols it = Some ci -> part_ok (cr_is_int <$> cols) it ci /\ item_col cols it = Some ci.
Proof.
  unfold part_col, item_col, part_ok. destruct (decide (si_agg it = AGG_NONE)); [done|]. destruct (count_star it); [by intros [= <-]|].
  intros (i & Hi & Hc)%bind_Some. apply bind_Some in Hc as (c & Hc & Hr). destruct (cr_is_int c) eqn:Ec; [|done]. injection Hr as <-. rewrite Hi. cbn [mbind option_bind].
  rewrite Hc. cbn [mbind option_bind]. rewrite list_lookup_fmap, Hc. cbn. rewrite Ec. split; [done|]. by destruct (si_agg it).
Qed.

(** A pure aggregate of the rows prints the row of its cells. *)
Lemma aggregate_pure h rows cols cis row : mapM (item_col cols) (s_items h) = Some cis -> s_has_aggregate h = true -> grouped h = false -> s_has_having h = false ->
  project (s_items h) cis rows = Some row -> aggregate_rowset h rows cols = emit_out_rows h [row].
Proof.
  intros Hc Ha Hg Hh Hp. unfold aggregate_rowset, having_col. rewrite Hc, Hg, Ha, Hh. cbn [negb andb mbind option_bind group_rows]. unfold having_pass. rewrite Hh. cbn [mbind option_bind].
  rewrite bool_decide_eq_true_2 by (cbn; unfold SELECT_MAX_ROWS; lia). cbn [andb]. by rewrite Hp.
Qed.

(** An attempt either printed the result or left the work to the caller. *)
Definition attempt_ok sh n vs (res : option (list (list Printed))) (r : option (Table H I J * option (option (list (list Printed))))) : Prop :=
  forall t' o, r = Some (t', o) -> table_rep sh n t' vs /\ (o = None \/ o = Some res).

Section Attempts.
Context (sh : Shape) (n : nat) (vs : list Version) (db : Database) (tname : bytes) (h : SelectHead) (w : Where) (nworkers : Z) (res : option (list (list Printed))).
Let rows := answer db (sh_schema sh) tname w vs.
Hypotheses (Hnw : 1 <= nworkers) (Hfew : Z.of_nat (length rows) <= 2 ^ 21)
  (Hres : aggregate_rowset h rows (cols_of (sh_schema sh) tname) = Some res).

Lemma skip_ok t (f : list nat -> option (option (Table H I J * option (option (list (list Printed)))))) sched : table_rep sh n t vs ->
  (forall sched, f sched = Some (Some (t, None))) ->
  exists r, f sched = Some r /\ attempt_ok sh n vs res r /\ exists sched' out, f (sched ++ sched') = Some (Some out).
Proof. intros Hrep Hf. rewrite Hf. eexists. split; [done|]. split; [intros ? ? [= <- <-]; auto|]. exists [], (t, None). apply Hf. Qed.

Lemma partial_attempt t sched : table_rep sh n t vs ->
  exists r, try_parallel_partial_aggregate db t tname h w nworkers sched = Some r /\ attempt_ok sh n vs res r /\
    exists sched' out, try_parallel_partial_aggregate db t tname h w nworkers (sched ++ sched') = Some (Some out).
Proof.
  intros Hrep. destruct (table_schema _ _ _ _ Hrep) as (Hs & Hok & _). unfold try_parallel_partial_aggregate. rewrite Hs.
  destruct (negb (s_has_aggregate h) || grouped h || s_has_having h || s_distinct h || where_has_subquery w) eqn:Eq; [by eapply (skip_ok t (fun _ => _))|].
  rewrite !orb_false_iff, negb_false_iff in Eq. destruct Eq as [[[[Ha Hg] Hh] _] _].
  destruct (par_pages (t_heap t) <? PARSCAN_MIN_PAGES); [by eapply (skip_ok t (fun _ => _))|].
  destruct (mapM (part_col (cols_of (sh_schema sh) tname)) (s_items h)) as [cis|] eqn:Hcis; [|by eapply (skip_ok t (fun _ => _))].
  pose proof Hrep as (_ & _ & (recs & Hr & Hst) & _). set (ints := cr_is_int <$> cols_of (sh_schema sh) tname).
  destruct (answer_good db sh n t vs tname w Hrep) as [Htyped Hsmall]. fold rows in Htyped, Hsmall. fold ints in Htyped.
  apply mapM_Some in Hcis. assert (Hparts : Forall2 (part_ok ints) (s_items h) cis) by (revert Hcis; apply Forall2_impl; intros it ci Hc; by apply part_col_ok).
  assert (Hitems : mapM (item_col (cols_of (sh_schema sh) tname)) (s_items h) = Some cis) by (apply mapM_Some; revert Hcis; apply Forall2_impl; intros it ci Hc; by apply part_col_ok).
  set (ctxs := replicate (Z.to_nat nworkers) (Some (replicate (length (s_items h)) part0))).
  assert (Hctx : Z.max nworkers 1 <= blen ctxs) by (unfold ctxs, blen; rewrite length_replicate; lia).
  set (visit := agg_worker_visit db (sh_schema sh) tname w (s_items h) cis).
  (* what happens after the workers have been joined *)
  assert (Htail : forall r, (forall h' cs rc, r = Some (h', cs, rc) -> rs_rep n h' recs /\
      (rc <> 0 \/ exists parts, mjoin parts = recs /\ length parts = length ctxs /\ cs = zip_with (visit_rows visit) ctxs parts)) ->
    exists r', (match r with
      | None => Some None
      | Some (hp, cs, rc) => if negb (rc =? 0) then Some (Some (with_heap t hp, None))
          else parts ← mapM id cs; row ← combine (s_items h) 0 parts; out ← emit_out_rows h [row]; Some (Some (with_heap t hp, Some out))
      end) = Some r' /\ attempt_ok sh n vs res r' /\ (is_Some r -> is_Some r')).
  { intros [[[hp cs] rc]|] Hx; [|exists None; done]. destruct (Hx _ _ _ eq_refl) as [Hr' Hcase]. pose proof (put_heap sh n t vs hp recs vs Hrep Hr' Hst ltac:(done)) as Hrep'.
    destruct (Z.eqb_spec rc 0) as [->|Hne]; cbn [negb]; [|eexists; split; [done|]; split; [intros ? ? [= <- <-]; auto|done]].
    destruct Hcase as [?|(parts & <- & Hlen & ->)]; [done|]. destruct (Forall2_join_r _ _ _ Hst) as (vparts & Hvp & Hfp).
    assert (Hfs : few_small (answer db (sh_schema sh) tname w (mjoin vparts))) by (rewrite <- Hvp; by split).
    destruct (workers_spec db (sh_schema sh) tname w (s_items h) cis Hok Hparts vparts parts Hfp Hfs) as (pss & Hm & Hpss).
    replace (length parts) with (Z.to_nat nworkers) in Hm by (rewrite Hlen; unfold ctxs; by rewrite length_replicate). fold ctxs visit in Hm. rewrite Hm. cbn [mbind option_bind].
    assert (Hjoin : mjoin (answer db (sh_schema sh) tname w <$> vparts) = rows).
    { unfold rows. rewrite Hvp. clear. induction vparts as [|us l IH]; [done|]. by rewrite fmap_cons, !join_cons, answer_app, IH. }
    destruct (combine_spec ints (s_items h) cis (answer db (sh_schema sh) tname w <$> vparts) pss Hparts) with (k := 0%nat) as (row & Hc & Hp).
    { rewrite Hjoin. by split. }
    { apply Forall2_fmap_l. revert Hpss. apply Forall2_impl. intros us ps Hps j ci Hj. destruct (Forall2_lookup_l _ _ _ _ _ Hps Hj) as (p & Hpj & Hsp). by exists p. }
    rewrite Hjoin in Hp. rewrite Hc. cbn [mbind option_bind]. pose proof Hres as Hemit. rewrite (aggregate_pure h rows _ cis row Hitems Ha Hg Hh Hp) in Hemit. rewrite Hemit.
    cbn [mbind option_bind]. eexists. split; [done|]. split; [|done]. intros ? ? [= <- <-]. auto. }
  destruct (law_par_foreach _ visit n (t_heap t) recs nworkers ctxs sched Hr Hctx) as (r & Hc & Hpost & sched' & out & Hfin).
  destruct (law_par_foreach _ visit n (t_heap t) recs nworkers ctxs (sched ++ sched') Hr Hctx) as (r2 & Hc2 & Hpost2 & _). rewrite Hc2 in Hfin. injection Hfin as ->.
  destruct (Htail r Hpost) as (r' & He & Hr' & _). exists r'. rewrite Hc. cbn [mbind option_bind]. split; [exact He|]. split; [exact Hr'|].
  exists sched'. rewrite Hc2. cbn [mbind option_bind]. destruct (Htail _ Hpost2) as (r2' & He2 & _ & Hs2). destruct Hs2 as [out' ->]; [done|]. rewrite He2. by exists out'.
Qed.

(** The other attempt is the parallel scan of SELECT followed by the aggregation. *)
Lemma parallel_attempt_eq t sched : negb (s_has_aggregate h || grouped h) || where_has_subquery w = false ->
  try_parallel_aggregate db t tname h w nworkers sched =
  (r ← parallel_fullscan db t tname w nworkers sched;
   match r with
   | None => Some None
   | Some (t, None) => Some (Some (t, None))
   | Some (t, Some rows) => out ← aggregate_rowset h rows (cols_of (t_schema t) tname); Some (Some (t, Some out))
   end).
Proof.
  intros Hc. unfold try_parallel_aggregate, parallel_fullscan. rewrite Hc. apply orb_false_iff in Hc as [_ ->].
  destruct (par_pages (t_heap t) <? PARSCAN_MIN_PAGES); [done|]. destruct (par_collect _ _ _ _) as [[[hp [rids|]]|]|]; try done. cbn [mbind option_bind].
  by destruct (print_rids _ _ _ _) as [[? ?]|].
Qed.

Lemma parallel_attempt t sched : table_rep sh n t vs ->
  exists r, try_parallel_aggregate db t tname h w nworkers sched = Some r /\ attempt_ok sh n vs res r /\
    exists sched' out, try_parallel_aggregate db t tname h w nworkers (sched ++ sched') = Some (Some out).
Proof.
  intros Hrep. destruct (negb (s_has_aggregate h || grouped h) || where_has_subquery w) eqn:Eq.
  { apply (skip_ok t (try_parallel_aggregate db t tname h w nworkers)); [done|]. intros s. unfold try_parallel_aggregate. by rewrite Eq. }
  assert (Htail : forall r, (forall t' out, r = Some (t', out) -> table_rep sh n t' vs /\ (out = None \/ out = Some rows)) ->
    exists r', (match r with
      | None => Some None
      | Some (t, None) => Some (Some (t, None))
      | Some (t, Some rows) => out ← aggregate_rowset h rows (cols_of (t_schema t) tname); Some (Some (t, Some out))
      end) = Some r' /\ attempt_ok sh n vs res r' /\ (is_Some r -> is_Some r')).
  { intros [[t1 o]|] Hx; [|exists None; done]. destruct (Hx _ _ eq_refl) as [Hrep1 [->| ->]]; [eexists; split; [done|]; split; [intros ? ? [= <- <-]; auto|done]|].
    destruct (table_schema _ _ _ _ Hrep1) as (-> & _). rewrite Hres. cbn [mbind option_bind]. eexists. split; [done|]. split; [intros ? ? [= <- <-]; auto|done]. }
  destruct (parallel_spec db sh n t vs tname w nworkers sched Hrep) as (r & Hc & Hpost & sched' & out & Hfin).
  destruct (parallel_spec db sh n t vs tname w nworkers (sched ++ sched') Hrep) as (r2 & Hc2 & Hpost2 & _). rewrite Hc2 in Hfin. injection Hfin as ->.
  destruct (Htail r Hpost) as (r' & He & Hr' & _). exists r'. rewrite (parallel_attempt_eq t sched Eq), Hc. cbn [mbind option_bind]. split; [exact He|]. split; [exact Hr'|].
  exists sched'. rewrite (parallel_attempt_eq t _ Eq), Hc2. cbn [mbind option_bind]. destruct (Htail _ Hpost2) as (r2' & He2 & _ & Hs2). destruct Hs2 as [out' ->]; [done|]. rewrite He2. by exists out'.
Qed.
End Attempts.

End Theory.

(** ** Concrete queries *)

Section Demo.
#[local] Instance agg_store : RecordStoreLaws (BufferPool * Pager) := heap_store_laws pager_reliable.
#[local] Instance agg_parallel : ParallelScanLaws (BufferPool * Pager) := heap_parallel_laws pager_reliable.
#[local] Existing Instance insertion_qsort.
#[local] Existing Instance insertion_qsort_laws.

Definition demo_order : SelectHead := head_of "SELECT * FROM t ORDER BY n DESC, id LIMIT 3;".

Lemma select_sorted_witness : exists t' vs sorted, table_rep (shape (empty_table true)) 0 t' vs /\
  sorted ≡ₚ take SELECT_MAX_ROWS (answer (txn_db 3) demo_schema (str "t") [] vs) /\
  exec_select_sorted (txn_db 3) demo_table (str "t") demo_order [] = Some (t', Some (limited 3 (drop 0 sorted))) /\
  limited 3 (drop 0 sorted) = [row 7 "lee" VAL_NULL; row 5 "kim" (VAL_INT 30); row 6 "han" (VAL_INT 30)].
Proof.
  destruct (demo_table_rep 0) as (vs & Hrep & _); [lia|].
  destruct (select_sorted _ 0 _ _ (txn_db 3) (str "t") demo_order [] Hrep) as (t' & Hrep' & Hs).
  assert (Ek : mapM (order_key (sh_schema (shape (empty_table true))) (str "t")) (s_order demo_order) = Some [(2%nat, true); (0%nat, false)]) by (vm_compute; reflexivity).
  assert (El : s_limit demo_order = 3) by (vm_compute; reflexivity). assert (Eo : s_offset demo_order = 0) by (vm_compute; reflexivity).
  rewrite Ek, El, Eo in Hs. destruct Hs as (sorted & Hp & _ & Hex). exists t', vs, sorted. split; [exact Hrep'|]. split; [exact Hp|]. split; [exact Hex|].
  assert (Hout : snd <$> exec_select_sorted (txn_db 3) demo_table (str "t") demo_order [] =
    Some (Some [row 7 "lee" VAL_NULL; row 5 "kim" (VAL_INT 30); row 6 "han" (VAL_INT 30)])) by (vm_compute; reflexivity).
  rewrite Hex in Hout. cbn [fmap option_fmap option_map snd] in Hout. do 2 apply (inj Some) in Hout. exact Hout.
Defined.

Lemma take_short {A} (n : nat) (l l' : list A) : take n l = l' -> (length l' < n)%nat -> l = l'.
Proof. intros <- Hl. rewrite length_take in Hl. rewrite take_ge; [done|lia]. Qed.

(** A table of rows that take a page each, so that 17 rows fill enough pages for the
    parallel paths. *)
Definition wide_schema : CreateStmt :=
  mkCreate (str "w") (mkColumn (str "id") COL_INT false :: ((fun i => mkColumn (str "t" ++ [97 + Z.of_nat i]) COL_TEXT false) <$> seq 0 15)) 0.
Definition wide_empty : Table (BufferPool * Pager) Pidx BTree :=
  mkTable wide_schema (mkPool (replicate 4 empty_frame) 0 0 0 false false false, empty_file) false (PBtree empty_tree) [].
Definition wide_row (i : Z) : list Value := VAL_INT i :: replicate 15 (VAL_TEXT (replicate 255 (97 + i mod 26))).
Definition wide_hist : list (Database * Stmt) := (fun i => (txn_db 3, SInsert (wide_row i))) <$> seqZ 1 17.
Definition table_after (o : option (option (Table (BufferPool * Pager) Pidx BTree * list Result))) : Table (BufferPool * Pager) Pidx BTree :=
  match o with Some (Some (t, _)) => t | _ => wide_empty end.
Definition wide_table : Table (BufferPool * Pager) Pidx BTree := table_after (run_all wide_empty wide_hist).
Definition wide_totals : SelectHead := head_of "SELECT COUNT(*), SUM(id), MAX(id), MIN(id) FROM w;".
Definition wide_sched : list nat := mjoin (replicate 60 [0%nat; 1%nat]).

Lemma wide_empty_rep (n : nat) : Z.of_nat n <= 2 ^ 19 -> table_rep (shape wide_empty) n wide_empty [].
Proof.
  intros Hn. split; [done|]. split; [|split; [|by split]].
  - split; [split; [by vm_compute|split; [by vm_compute|]]|by split]. apply (bool_decide_unpack _). by vm_compute.
  - exists []. split; [|constructor]. exists []. split; [|split; [done|change (blen (@nil apage)) with 0; lia]].
    assert (Hwf : st_wf empty_file) by (apply pager_open_wf; [vm_compute; split; discriminate|constructor]).
    pose proof (heap_empty_rep 4 _ empty_file eq_refl Hwf) as Hh. by replace (st_pages empty_file) with 0 in Hh by (vm_compute; reflexivity).
Qed.

Lemma wide_fits : Forall stmt_fits wide_hist.
Proof. apply (bool_decide_unpack _). by vm_compute. Qed.

Lemma wide_table_rep : exists vs, table_rep (shape wide_empty) 0 wide_table vs.
Proof.
  destruct (runs_refine (shape wide_empty) wide_hist 0 wide_empty []) as [Hall _]; [apply wide_empty_rep; vm_compute; discriminate|exact wide_fits|].
  unfold wide_table. destruct (run_all wide_empty wide_hist) as [[[t rs]|]|] eqn:E.
  - destruct (Hall _ _ (run_all_runs _ _ _ _ E)) as (vs & _ & Hr). by exists vs.
  - exists []. apply wide_empty_rep. lia.
  - exists []. apply wide_empty_rep. lia.
Qed.

Lemma wide_answer vs : table_rep (shape wide_empty) 0 wide_table vs -> answer (txn_db 3) wide_schema (str "w") [] vs = wide_row <$> seqZ 1 17.
Proof.
  intros Hrep. destruct (materialize_spec (txn_db 3) _ 0 _ vs (str "w") [] Hrep) as (t' & Hm & _).
  assert (Hout : snd <$> materialize (txn_db 3) wide_table (str "w") [] = Some (wide_row <$> seqZ 1 17)) by (vm_compute; reflexivity).
  rewrite Hm in Hout. cbn [fmap option_fmap option_map snd] in Hout. apply (inj Some) in Hout. eapply take_short; [exact Hout|].
  apply Nat.ltb_lt. vm_compute. reflexivity.
Qed.

Lemma outcome_of {A B C} (t : A) (c c' : B) (o o' : C) :
  option_map (option_map (fun x : A * B * C => (x.1.2, x.2))) (Some (Some (t, c, o))) = Some (Some (c', o')) -> c = c' /\ o = o'.
Proof. by intros [= -> ->]. Qed.

End Demo.
