(* ===== verification/Join.v ===== *)
(** * Joins (src/src/db.c: the hash table, mjoin_descend, exec_select_join)

    A join binds a row of each table of the chain in turn, level by level, and finds
    the rows of a level by a point lookup in its primary-key index, by probing a
    hash table, or by a scan inside the scans of the outer levels.  Tables are
    positions in the database, so a table joined with itself is one table whose
    pages are pinned by both scans.  [None] is undefined behaviour. *)
From stdpp Require Import strings sorting.
From S2P Require Import Prelude Page Pager BufPool Heap Lsm Btree SqlLex SqlParse Row Where Storage Parscan Lock Mvcc Txn Exec Select Nested Double Rowset.

(** ** The hash table *)

Definition HJOIN_BUCKETS : Z := 1024.

Record HNode := mkHNode { hn_key : Value; hn_row : list Value }.
Abbreviation HashTab := (list (list HNode)).

(** [unset] is the hash of the text of a NULL, which is hashed although it was never written. *)
Definition val_hash (unset : Z) (v : Value) : Z :=
  match v with
  | VAL_INT z => u32 (u64 (u64 z * 2654435761))
  | VAL_TEXT s => foldl (fun h c => u32 (Z.lxor h c * 16777619)) 2166136261 s
  | VAL_NULL => u32 unset
  end.

Definition bucket_of (unset : Z) (key : Value) : nat := Z.to_nat (val_hash unset key mod HJOIN_BUCKETS).

Definition hash_insert (unset : Z) (ht : HashTab) (key : Value) (row : list Value) : HashTab :=
  alter (fun chain => mkHNode key row :: chain) (bucket_of unset key) ht.

Definition hash_bucket (unset : Z) (ht : HashTab) (key : Value) : list HNode := default [] (ht !! bucket_of unset key).

Definition hash_empty : HashTab := replicate (Z.to_nat HJOIN_BUCKETS) [].

(** ** Columns of a chain of tables *)

(** The tables of a join with the names they go by. *)
Abbreviation Chain := (list (CreateStmt * bytes)).

Fixpoint cell_chain (chain : Chain) (rows : list (list Value)) (qtbl col : bytes) : option Value :=
  match chain, rows with
  | (schema, tname) :: chain, row :: rows =>
      match cell_in schema tname qtbl col row with Some v => Some v | None => cell_chain chain rows qtbl col end
  | _, _ => None
  end.

Fixpoint chain_group (chain : Chain) (rows : list (list Value)) (g : list Condition) : option bool :=
  match g with
  | [] => Some true
  | c :: g =>
      let 'mkCond tbl col _ _ _ _ _ _ _ := c in
      b ← cond_eval (cell_chain chain rows tbl col) c;
      if (b : bool) then chain_group chain rows g else Some false
  end.

Fixpoint chain_groups (chain : Chain) (rows : list (list Value)) (w : Where) : option bool :=
  match w with
  | [] => Some false
  | g :: w => b ← chain_group chain rows g; if (b : bool) then Some true else chain_groups chain rows w
  end.

Definition where_matches_chain (chain : Chain) (rows : list (list Value)) (w : Where) : option bool :=
  match w with [] => Some true | _ => chain_groups chain rows w end.

(** A column of the chain: the position of its table and its position there. *)
Fixpoint resolve_chain_ref (chain : Chain) (qtbl col : bytes) : option (nat * nat) :=
  match chain with
  | [] => None
  | (schema, tname) :: chain =>
      let rest := prod_map S id <$> resolve_chain_ref chain qtbl col in
      if negb (bool_decide (qtbl = [])) && negb (bool_decide (qtbl = tname)) then rest
      else match col_index (c_columns schema) col with Some i => Some (O, i) | None => rest end
  end.

(** ** Plans *)

(** An index or hash lookup takes its key from a column of an outer table. *)
Inductive JMethod := JM_SCAN | JM_INDEX (key : nat * nat) | JM_HASH (key : nat * nat) (hcol : nat).

Record Level := mkLevel { lv_left : bool; lv_a : nat * nat; lv_b : nat * nat; lv_method : JMethod }.

Definition plan_level (chain : Chain) (k : nat) (indexed : bool) (jc : JoinClause) : option Level :=
  a ← resolve_chain_ref chain (j_l_tbl jc) (j_l_col jc);
  b ← resolve_chain_ref chain (j_r_tbl jc) (j_r_col jc);
  let key := if decide (a.1 = k /\ (b.1 < k)%nat) then Some (a.2, b)
             else if decide (b.1 = k /\ (a.1 < k)%nat) then Some (b.2, a) else None in
  Some (mkLevel (j_is_left jc) a b
    (match key with
     | None => JM_SCAN
     | Some (kcol, probe) => if bool_decide (kcol = O) && indexed then JM_INDEX probe else JM_HASH probe kcol
     end)).

(** ** The primary key, found by a visitor that can stop *)

(** The join reads the B+tree of the table whatever its [index_kind]. *)
Class PointIndex (I : Type) := {
  pk_find : forall {C}, I -> Z -> (Z -> Z -> C -> C * Z) -> C -> option C;
  pk_usable : I -> bool }.

Class PointIndexLaws (I : Type) `{PointIndex I} `{MultiIndexLaws I} :=
  law_pk_find : forall n i L key, ix_rep n i L -> pk_usable i = true ->
    exists es, es ≡ₚ filter (fun e => e.1 = key) L /\ forall C (f : Z -> Z -> C -> C * Z) ctx, pk_find i key f ctx = Some (visit_list f es ctx).1.

(** In a table with an LSM index the tree was never opened. *)
#[export] Instance pidx_point : PointIndex Pidx := {
  pk_find C i key f ctx := match i with PBtree bt => fst <$> btree_find_all bt key f ctx | PLsm _ _ => None end;
  pk_usable i := match i with PBtree _ => true | PLsm _ _ => false end }.

#[export] Instance pidx_point_laws : PointIndexLaws Pidx.
Proof.
  intros n [bt|l d] L key Hr Hu; [|done]. destruct Hr as (h & Hr & _). exists (filter (fun e => e.1 = key) L). split; [done|].
  intros C f ctx. cbn [pk_find pidx_point]. by rewrite (btree_find_all_ok _ _ _ _ Hr).
Qed.

(** ** The join *)

Section Join.
Context {H I J : Type} `{RecordStore H} `{!NestedStore H} `{PointIndex I}.

(** What changes while the join runs: the pools of the tables, the current row of every
    level, which levels have matched, and the rows printed or collected. *)
Record MJoin := mkMJ { mj_tables : list (Table H I J); mj_rows : list (list Value); mj_matched : list bool; mj_out : list (list Value) }.

Record MQuery := mkMQ {
  mq_db : Database; mq_chain : Chain; mq_tabs : list nat; mq_levels : list Level; mq_hash : list HashTab;
  mq_where : Where; mq_limit : Z; mq_materialize : bool; mq_unset : Z }.

(** Level 0 has no join condition. *)
Definition level_of (q : MQuery) (level : nat) : option Level := match level with O => None | S k => mq_levels q !! k end.

Definition cell_of_level (m : MJoin) (ref : nat * nat) : option Value := row ← mj_rows m !! ref.1; row !! ref.2.
Definition set_tables (m : MJoin) (ts : list (Table H I J)) : MJoin := mkMJ ts (mj_rows m) (mj_matched m) (mj_out m).
Definition set_level_row (m : MJoin) (level : nat) (row : list Value) : MJoin := mkMJ (mj_tables m) (<[level := row]> (mj_rows m)) (mj_matched m) (mj_out m).
Definition set_match (m : MJoin) (level : nat) (b : bool) : MJoin := mkMJ (mj_tables m) (mj_rows m) (<[level := b]> (mj_matched m)) (mj_out m).
Definition place_heap (m : MJoin) (ti : nat) (h : H) : MJoin := set_tables m (alter (fun t => with_heap t h) ti (mj_tables m)).

Definition mjoin_emit (q : MQuery) (m : MJoin) : option (MJoin * Z) :=
  b ← where_matches_chain (mq_chain q) (mj_rows m) (mq_where q);
  if negb b then Some (m, 0)
  else
    let out := mj_out m ++ [mjoin (mj_rows m)] in
    if mq_materialize q then
      Some (if bool_decide (length (mj_out m) < SELECT_MAX_ROWS)%nat then mkMJ (mj_tables m) (mj_rows m) (mj_matched m) out else m, 0)
    else
      Some (mkMJ (mj_tables m) (mj_rows m) (mj_matched m) out,
            if (0 <=? mq_limit q) && (mq_limit q <=? Z.of_nat (length out)) then 1 else 0).

(** A scan of table [ti] whose callback runs on the whole state. *)
Definition scan_table (ti : nat) (visit : RID -> bytes -> MJoin -> option (MJoin * Z)) (m : MJoin) : option (MJoin * Z) :=
  t ← mj_tables m !! ti;
  '(h, m, r) ← rs_nested (fun rid rec h m =>
                 '(m, r) ← visit rid rec (place_heap m ti h);
                 t ← mj_tables m !! ti;
                 Some (t_heap t, m, r)) (t_heap t) m;
  Some (place_heap m ti h, r).

Definition mjoin_visit (q : MQuery) (level : nat) (schema : CreateStmt) (descend : MJoin -> option (MJoin * Z)) (rid : RID) (rec : bytes) (m : MJoin) :
  option (MJoin * Z) :=
  xmin ← db_rec_xmin rec;
  xmax ← db_rec_xmax rec;
  if negb (rec_visible (mq_db q) xmin xmax) then Some (m, 0)
  else
    row ← decode_row schema rec;
    let m := set_level_row m level row in
    match level_of q level with
    | None => descend m
    | Some lv =>
        a ← cell_of_level m (lv_a lv);
        b ← cell_of_level m (lv_b lv);
        if negb (values_equal a b) then Some (m, 0) else descend (set_match m level true)
    end.

(** The visible version of a key, kept when the lookup stops there. *)
Definition pk_vis_visit (db : Database) (key val : Z) (ctx : option (H * option bytes)) : option (H * option bytes) * Z :=
  match
    '(h, _) ← ctx;
    '(h, r) ← rs_get h (rid_decode val);
    match r with
    | None => Some (h, None)
    | Some rec => xmin ← db_rec_xmin rec; xmax ← db_rec_xmax rec; Some (h, if rec_visible db xmin xmax then Some rec else None)
    end
  with
  | None => (None, 1)
  | Some (h, found) => (Some (h, found), match found with Some _ => 1 | None => 0 end)
  end.

Fixpoint probe (level : nat) (key : Value) (descend : MJoin -> option (MJoin * Z)) (nodes : list HNode) (m : MJoin) : option (MJoin * Z) :=
  match nodes with
  | [] => Some (m, 0)
  | n :: nodes =>
      if negb (values_equal (hn_key n) key) then probe level key descend nodes m
      else
        '(m, r) ← descend (set_match (set_level_row m level (hn_row n)) level true);
        if negb (r =? 0) then Some (m, r) else probe level key descend nodes m
  end.

(** The levels that are left are counted, the current one is [level]. *)
Fixpoint mjoin_descend (q : MQuery) (n : nat) (level : nat) (m : MJoin) : option (MJoin * Z) :=
  match n with
  | O => mjoin_emit q m
  | S n =>
      ti ← mq_tabs q !! level;
      t ← mj_tables m !! ti;
      let m := match level with O => m | _ => set_match m level false end in
      '(m, r) ←
        match level_of q level with
        | Some (mkLevel _ _ _ (JM_INDEX src)) =>
            key ← cell_of_level m src;
            match key with
            | VAL_INT k =>
                c ← pk_find (t_index t) k (pk_vis_visit (mq_db q)) (Some (t_heap t, None));
                '(h, found) ← c;
                let m := place_heap m ti h in
                match found with
                | None => Some (m, 0)
                | Some rec => row ← decode_row (t_schema t) rec; mjoin_descend q n (S level) (set_match (set_level_row m level row) level true)
                end
            | _ => Some (m, 0)
            end
        | Some (mkLevel _ _ _ (JM_HASH src _)) =>
            key ← cell_of_level m src;
            ht ← mq_hash q !! level;
            probe level key (mjoin_descend q n (S level)) (hash_bucket (mq_unset q) ht key) m
        | _ => scan_table ti (mjoin_visit q level (t_schema t) (mjoin_descend q n (S level))) m
        end;
      if negb (r =? 0) then Some (m, r)
      else
        matched ← mj_matched m !! level;
        match level_of q level with
        | Some lv =>
            if lv_left lv && negb matched then mjoin_descend q n (S level) (set_level_row m level ((fun _ => VAL_NULL) <$> c_columns (t_schema t)))
            else Some (m, 0)
        | None => Some (m, 0)
        end
  end.

(** *** Building the hash tables *)

Definition hbuild_visit (db : Database) (schema : CreateStmt) (col : nat) (unset : Z) (rid : RID) (rec : bytes) (ht : HashTab) : option (HashTab * Z) :=
  xmin ← db_rec_xmin rec;
  xmax ← db_rec_xmax rec;
  if negb (rec_visible db xmin xmax) then Some (ht, 0)
  else row ← decode_row schema rec; key ← row !! col; Some (hash_insert unset ht key row, 0).

Definition hash_build (db : Database) (t : Table H I J) (col : nat) (unset : Z) : option (Table H I J * HashTab) :=
  '(h, ht, _) ← rs_nested (fun rid rec h ht => '(ht, r) ← hbuild_visit db (t_schema t) col unset rid rec ht; Some (h, ht, r)) (t_heap t) hash_empty;
  Some (with_heap t h, ht).

(** Levels without a hash table get an empty one. *)
Fixpoint build_tables (db : Database) (unset : Z) (ts : list (Table H I J)) (tabs : list nat) (methods : list JMethod) (hs : list HashTab) :
  option (list (Table H I J) * list HashTab) :=
  match tabs, methods with
  | ti :: tabs, JM_HASH _ col :: methods =>
      t ← ts !! ti;
      '(t, ht) ← hash_build db t col unset;
      build_tables db unset (<[ti := t]> ts) tabs methods (hs ++ [ht])
  | _ :: tabs, _ :: methods => build_tables db unset ts tabs methods (hs ++ [[]])
  | _, _ => Some (ts, hs)
  end.

(** *** The statement *)

Fixpoint find_table (ts : list (Table H I J)) (name : bytes) : option nat :=
  match ts with
  | [] => None
  | t :: ts => if decide (c_table (t_schema t) = name) then Some O else S <$> find_table ts name
  end.

Definition effective (alias name : bytes) : bytes := if decide (alias = []) then name else alias.

(** What the statement prints: a message, the plan, rows, or the output of the aggregation. *)
Inductive JOut := JError | JPlan (levels : list Level) | JRows (rows : list (list Value)) | JAgg (rows : option (list (list Printed))).

Definition join_cols (chain : Chain) : list ColRef :=
  mjoin ((fun e => (fun c => mkColRef e.2 (cd_name c) (match cd_type c with COL_INT => true | COL_TEXT => false end)) <$> c_columns e.1) <$> chain).

(** The position of a column in the combined row. *)
Definition comb_pos (chain : Chain) (ref : nat * nat) : nat :=
  (sum_list ((fun e => length (c_columns e.1)) <$> take ref.1 chain) + ref.2)%nat.

Definition join_key (chain : Chain) (ok : OrderKey) : option SortKey :=
  if 0 <? o_pos ok then
    if Z.of_nat (length (join_cols chain)) <? o_pos ok then None else Some (Z.to_nat (o_pos ok - 1), o_desc ok)
  else ref ← resolve_chain_ref chain (o_tbl ok) (o_col ok); Some (comb_pos chain ref, o_desc ok).

Definition start_join (chain : Chain) (ts : list (Table H I J)) : MJoin :=
  mkMJ ts ((fun e => (fun _ => VAL_INT 0) <$> c_columns e.1) <$> chain) (replicate (length chain) false) [].

Definition chain_of (tables : list (Table H I J)) (h : SelectHead) : Chain :=
  zip_with (fun t alias => (t_schema t, effective alias (c_table (t_schema t)))) tables (s_alias h :: (j_alias <$> s_joins h)).

Definition levels_of (chain : Chain) (tables : list (Table H I J)) (h : SelectHead) : option (list Level) :=
  mapM (fun p => plan_level chain (S p.1) p.2.1 p.2.2) (imap pair (zip (has_index <$> tail tables) (s_joins h))).

Context `{QSort}.

Definition exec_select_join (db : Database) (ts : list (Table H I J)) (h : SelectHead) (w : Where) (unset : Z) : option (list (Table H I J) * JOut) :=
  match mapM (find_table ts) (s_table h :: (j_table <$> s_joins h)) with
  | None => Some (ts, JError)
  | Some tabs =>
      tables ← mapM (fun i => ts !! i) tabs;
      let chain := chain_of tables h in
      match levels_of chain tables h with
      | None => Some (ts, JError)
      | Some levels =>
          if s_explain h then Some (ts, JPlan levels)
          else
            '(ts, hs) ← build_tables db unset ts tabs (JM_SCAN :: (lv_method <$> levels)) [];
            let run mat := mjoin_descend (mkMQ db chain tabs levels hs w (s_limit h) mat unset) (length tabs) 0 (start_join chain ts) in
            if negb (s_star h) then
              '(m, _) ← run true;
              out ← aggregate_rowset h (mj_out m) (join_cols chain);
              Some (mj_tables m, JAgg out)
            else if bool_decide (s_order h = []) && (s_offset h =? 0) then
              '(m, _) ← run false;
              Some (mj_tables m, JRows (mj_out m))
            else
              match mapM (join_key chain) (s_order h) with
              | None => Some (ts, JError)
              | Some keys =>
                  '(m, _) ← run true;
                  rows ← (match keys with [] => Some (mj_out m) | _ => sort_rows keys (mj_out m) end);
                  Some (mj_tables m, JRows (window (s_limit h) (s_offset h) 0 0 rows))
              end
      end
  end.
End Join.
