(* ===== verification/JoinSpec.v ===== *)
(** * What a join returns

    [joined] is the join as SQL defines it: every combination of visible rows, level by
    level, that satisfies the join conditions, with a row of NULLs where a LEFT JOIN
    finds none, filtered by WHERE.  The code enumerates the rows of a level in an
    order that depends on the method; it prints the same rows. *)
From stdpp Require Import strings sorting.
From S2P Require Import Prelude Page Pager BufPool Heap Lsm Btree SqlLex SqlParse Row Where Storage Parscan Lock Mvcc Txn Exec Select Nested Double Rowset Aggregate Join.

(** ** Rows printed one at a time *)

Section Push.
Context (materialize : bool) (limit : Z).

(** One row: kept while there is room, or printed until LIMIT is reached. *)
Definition push1 (out : list (list Value)) (row : list Value) : list (list Value) * Z :=
  if materialize then (if bool_decide (length out < SELECT_MAX_ROWS)%nat then out ++ [row] else out, 0)
  else (out ++ [row], if (0 <=? limit) && (limit <=? Z.of_nat (length (out ++ [row]))) then 1 else 0).

Fixpoint push (out : list (list Value)) (rows : list (list Value)) : list (list Value) * Z :=
  match rows with
  | [] => (out, 0)
  | r :: rows => let '(out, z) := push1 out r in if z =? 0 then push out rows else (out, z)
  end.

Lemma push_app rows rows' : forall out, push out (rows ++ rows') = let '(out, z) := push out rows in if z =? 0 then push out rows' else (out, z).
Proof.
  induction rows as [|r rows IH]; intros out; [done|]. cbn [push app]. destruct (push1 out r) as [y z]. destruct (z =? 0) eqn:E; [apply IH|]. by rewrite E.
Qed.

(** What is left of a list of rows. *)
Lemma push_materialize out rows : materialize = true -> (length out <= SELECT_MAX_ROWS)%nat -> push out rows = (out ++ take (SELECT_MAX_ROWS - length out) rows, 0).
Proof.
  intros Hm. revert out. induction rows as [|r rows IH]; intros out Hl; cbn [push]; [by rewrite take_nil, app_nil_r|]. unfold push1. rewrite Hm. cbn [Z.eqb].
  destruct (bool_decide_reflect (length out < SELECT_MAX_ROWS)%nat).
  - rewrite IH by (rewrite length_app; cbn [length]; lia). rewrite length_app. cbn [length]. rewrite <- app_assoc.
    replace (SELECT_MAX_ROWS - length out)%nat with (S (SELECT_MAX_ROWS - (length out + 1)))%nat by lia. done.
  - rewrite IH by done. by replace (SELECT_MAX_ROWS - length out)%nat with 0%nat by lia.
Qed.

(** A LIMIT of 0 lets one row through. *)
Lemma push_stream rows : materialize = false -> (push [] rows).1 = if 0 <=? limit then take (Z.to_nat (limit `max` 1)) rows else rows.
Proof.
  intros Hm. assert (Hall : forall out, limit < 0 -> push out rows = (out ++ rows, 0)).
  { intros out Hl. revert out. induction rows as [|r rows' IH]; intros out; cbn [push]; [by rewrite app_nil_r|]. unfold push1. rewrite Hm.
    destruct (Z.leb_spec 0 limit); [lia|]. cbn. rewrite IH, <- app_assoc. done. }
  destruct (Z.leb_spec 0 limit) as [Hl|Hl]; [|by rewrite Hall]. clear Hall.
  assert (Hgen : forall out, Z.of_nat (length out) < limit `max` 1 -> (push out rows).1 = out ++ take (Z.to_nat (limit `max` 1) - length out) rows).
  { induction rows as [|r rows' IH]; intros out Ho; cbn [push]; [by rewrite take_nil, app_nil_r|]. unfold push1. rewrite Hm. destruct (Z.leb_spec 0 limit); [|lia].
    replace (Z.to_nat (limit `max` 1) - length out)%nat with (S (Z.to_nat (limit `max` 1) - length (out ++ [r])))%nat by (rewrite length_app; cbn [length]; lia).
    cbn [take]. destruct (Z.leb_spec limit (Z.of_nat (length (out ++ [r])))) as [Hs|Hs]; cbn [andb Z.eqb].
    - rewrite length_app in *. cbn [length fst] in *. replace (Z.to_nat (limit `max` 1) - (length out + 1))%nat with 0%nat by lia. by rewrite take_0.
    - rewrite IH by (rewrite length_app in *; cbn [length] in *; lia). by rewrite <- app_assoc. }
  rewrite Hgen; [by rewrite Nat.sub_0_r|cbn [length]; lia].
Qed.
End Push.

(** ** Rows of the levels *)

(** A value of the rows bound so far. *)
Definition cell_at_ref (rows : list (list Value)) (ref : nat * nat) : option Value := row ← rows !! ref.1; row !! ref.2.

Definition on_holds (lv : Level) (rows : list (list Value)) : bool :=
  match cell_at_ref rows (lv_a lv), cell_at_ref rows (lv_b lv) with Some a, Some b => values_equal a b | _, _ => false end.

(** The rows of table [ti] that the statement sees. *)
Definition visible_rows (db : Database) (vs : list Version) : list (list Value) := v_row <$> filter (fun v => sees db v = true) vs.

(** The join itself: [tables] are the visible rows of the levels that are left. *)
Definition extend (lv : option Level) (width : nat) (prefix : list (list Value)) (rows : list (list Value)) : list (list Value) :=
  match lv with
  | None => rows
  | Some lv =>
      let rows := filter (fun r => on_holds lv (prefix ++ [r]) = true) rows in
      if lv_left lv && bool_decide (rows = []) then [replicate width VAL_NULL] else rows
  end.

Fixpoint joined (chain : Chain) (w : Where) (levels : list (option Level * nat * list (list Value))) (prefix : list (list Value)) : list (list Value) :=
  match levels with
  | [] => if default false (where_matches_chain chain prefix w) then [mjoin prefix] else []
  | (lv, width, rows) :: levels => mjoin ((fun r => joined chain w levels (prefix ++ [r])) <$> extend lv width prefix rows)
  end.

(** ** The order in which the code finds the rows of a level *)

Section Order.
Context {H I J : Type} `{RecordStore H} `{PointIndex I}.

(** The entries of a key, in the order of the index. *)
Definition entries (i : I) (key : Z) : list (Z * Z) := default [] (pk_find i key (fun k v es => (es ++ [(k, v)], 0)) []).

Definition version_at (db : Database) (vs : list Version) (val : Z) : option (list Value) :=
  v_row <$> head (filter (fun v => v_rid v = rid_decode val /\ sees db v = true) vs).

Definition found (db : Database) (lv : Level) (t : Table H I J) (vs : list Version) (prefix : list (list Value)) : list (list Value) :=
  match lv_method lv with
  | JM_SCAN => filter (fun r => on_holds lv (prefix ++ [r]) = true) (visible_rows db vs)
  | JM_INDEX src =>
      match cell_at_ref prefix src with
      | Some (VAL_INT z) => option_list (head (omap (version_at db vs) (entries (t_index t) z).*2))
      | _ => []
      end
  | JM_HASH src col =>
      match cell_at_ref prefix src with
      | Some key => filter (fun r => match r !! col with Some v => values_equal v key | None => false end = true) (reverse (visible_rows db vs))
      | None => []
      end
  end.

Definition enumerate (db : Database) (lv : option Level) (t : Table H I J) (vs : list Version) (prefix : list (list Value)) : list (list Value) :=
  match lv with
  | None => visible_rows db vs
  | Some lv =>
      let rows := found db lv t vs prefix in
      if lv_left lv && bool_decide (rows = []) then [replicate (length (c_columns (t_schema t))) VAL_NULL] else rows
  end.

(** Everything the code visits below the rows of [prefix]. *)
Fixpoint visited (db : Database) (chain : Chain) (w : Where) (levels : list (option Level * Table H I J * list Version)) (prefix : list (list Value)) : list (list Value) :=
  match levels with
  | [] => if default false (where_matches_chain chain prefix w) then [mjoin prefix] else []
  | (lv, t, vs) :: levels => mjoin ((fun r => visited db chain w levels (prefix ++ [r])) <$> enumerate db lv t vs prefix)
  end.
End Order.

Lemma filter_none {A} (P : A -> Prop) `{!forall x, Decision (P x)} (l : list A) : (forall x, x ∈ l -> ~ P x) -> filter P l = [].
Proof.
  intros Hn. destruct (filter P l) as [|y r] eqn:E; [done|]. assert (Hy : y ∈ filter P l) by (rewrite E; left).
  apply list_elem_of_filter in Hy as [Hp Hin]. by destruct (Hn y).
Qed.

Lemma filter_every {A} (P : A -> Prop) `{!forall x, Decision (P x)} (l : list A) : (forall x, x ∈ l -> P x) -> filter P l = l.
Proof.
  induction l as [|y l IH]; intros Hl; [done|]. rewrite filter_cons_True by (apply Hl; left). f_equal. apply IH. intros x Hx. apply Hl. by right.
Qed.

Lemma take_set {A} (l : list A) (k : nat) x : (k < length l)%nat -> take (S k) (<[k := x]> l) = take k l ++ [x].
Proof.
  intros Hk. rewrite (take_S_r _ _ x) by (by apply list_lookup_insert_eq). by rewrite take_insert_ge by lia.
Qed.

Lemma take_prefix {A} (l p : list A) (k : nat) x : take (S k) l = p ++ [x] -> length p = k -> take k l = p /\ l !! k = Some x.
Proof.
  intros Ht Hp. assert (Hk : take k (take (S k) l) = p) by (rewrite Ht, take_app_le, take_ge by lia; done).
  rewrite take_take, Nat.min_l in Hk by lia. split; [done|]. rewrite <- (lookup_take_lt _ (S k)) by lia. rewrite Ht, lookup_app_r by lia. by rewrite Hp, Nat.sub_diag.
Qed.

(** ** Hash tables *)

Definition hash_of (unset : Z) (col : nat) (rows : list (list Value)) : HashTab :=
  foldl (fun ht r => match r !! col with Some key => hash_insert unset ht key r | None => ht end) hash_empty rows.

Definition probed (key : Value) (nodes : list HNode) : list (list Value) := hn_row <$> filter (fun nd => values_equal (hn_key nd) key = true) nodes.

Lemma values_equal_eq a b : values_equal a b = true -> a = b.
Proof.
  unfold values_equal, compare_values. destruct a as [x|x|], b as [y|y|]; try done.
  - destruct (int_sign_spec x y) as [[? ->]|[[-> _]|[? ->]]]; done.
  - intros E%Z.eqb_eq. f_equal. by apply strcmp_zero.
Qed.

Lemma values_equal_sym a b : values_equal a b = values_equal b a.
Proof.
  apply eq_true_iff_eq. split; intros E; pose proof (values_equal_eq _ _ E) as <-; exact E.
Qed.

Lemma hash_of_length unset col rows : length (hash_of unset col rows) = Z.to_nat HJOIN_BUCKETS.
Proof.
  unfold hash_of. assert (Hg : forall ht, length ht = Z.to_nat HJOIN_BUCKETS ->
    length (foldl (fun ht r => match r !! col with Some key => hash_insert unset ht key r | None => ht end) ht rows) = Z.to_nat HJOIN_BUCKETS).
  { induction rows as [|r rows IH]; intros ht Hl; [done|]. cbn [foldl]. apply IH. destruct (r !! col); [|done]. unfold hash_insert. by rewrite length_alter. }
  apply Hg. unfold hash_empty. by rewrite length_replicate.
Qed.

Lemma bucket_insert unset (ht : HashTab) k r key : length ht = Z.to_nat HJOIN_BUCKETS ->
  hash_bucket unset (hash_insert unset ht k r) key = (if decide (bucket_of unset k = bucket_of unset key) then [mkHNode k r] else []) ++ hash_bucket unset ht key.
Proof.
  intros Hl. unfold hash_bucket, hash_insert. destruct (decide _) as [<-|Hne]; [|by rewrite list_lookup_alter_ne].
  rewrite list_lookup_alter_eq. destruct (lookup_lt_is_Some_2 ht (bucket_of unset k)) as [c ->]; [|done].
  rewrite Hl. unfold bucket_of. pose proof (Z.mod_pos_bound (val_hash unset k) HJOIN_BUCKETS ltac:(done)). lia.
Qed.

(** Probing finds the rows with the key, the last inserted first. *)
Lemma probed_hash unset col key rows : Forall (fun r => is_Some (r !! col)) rows ->
  probed key (hash_bucket unset (hash_of unset col rows) key) =
  filter (fun r => match r !! col with Some v => values_equal v key | None => false end = true) (reverse rows).
Proof.
  induction rows as [|r rows IH] using rev_ind; intros Hr.
  { unfold hash_of, hash_bucket, hash_empty. cbn [foldl]. destruct (replicate _ _ !! _) as [c|] eqn:E; [|done].
    apply lookup_replicate in E as [-> _]. done. }
  apply list.Forall_app in Hr as [Hr Hl]. rewrite list.Forall_cons in Hl. destruct Hl as [[v Hv] _].
  assert (Hs : hash_of unset col (rows ++ [r]) = hash_insert unset (hash_of unset col rows) v r) by (unfold hash_of; rewrite foldl_snoc; by rewrite Hv).
  rewrite Hs, bucket_insert by apply hash_of_length. rewrite reverse_app, reverse_singleton. cbn [app]. rewrite filter_cons, Hv, <- (IH Hr).
  unfold probed. rewrite list.filter_app, fmap_app. destruct (values_equal v key) eqn:E.
  - pose proof (values_equal_eq _ _ E) as <-. rewrite !decide_True by done. rewrite filter_cons_True by done. done.
  - destruct (decide (false = true)) as [?|_]; [done|]. destruct (decide _); [|done]. by rewrite filter_cons_False by (cbn; congruence).
Qed.

(** ** The join runs through the rows of its levels *)

Section Descend.
Context {H I J : Type} `{RecordStoreLaws H} `{!NestedStore H} `{!NestedStoreLaws H} `{MultiIndexLaws I} `{!PointIndex I} `{!PointIndexLaws I}.
Context (q : MQuery) (n : nat) (base : list (Table H I J * rs_abs * list Version)).
Implicit Types (m : MJoin (H := H) (I := I) (J := J)) (pins : nat -> Pins) (prefix : list (list Value)) (mp : list bool) (x : list (list Value)).

Let ntabs := length (mq_tabs q).
Let feed := push (mq_materialize q) (mq_limit q).

(** The tables are those of [base] with some pages of each pinned; table [ti] is exempt
    while its heap is in the hands of a scan. *)
Definition tables_but (ti : option nat) pins (ts : list (Table H I J)) : Prop :=
  length ts = length base /\
  forall i t a vs, base !! i = Some (t, a, vs) -> exists h, ts !! i = Some (with_heap t h) /\
    (Some i <> ti -> rs_open n (pins i) h a /\ rs_frames h = rs_frames (t_heap t)).

Definition tables_open pins (ts : list (Table H I J)) : Prop := tables_but None pins ts.

Definition pin_at (ti : nat) (p : Pins) pins : nat -> Pins := fun i => if decide (i = ti) then p else pins i.

Lemma tables_put ti pins p ts t a vs h : base !! ti = Some (t, a, vs) -> tables_but (Some ti) pins ts -> rs_open n p h a -> rs_frames h = rs_frames (t_heap t) ->
  tables_open (pin_at ti p pins) (alter (fun t => with_heap t h) ti ts).
Proof.
  intros Hb [Hl Hts] Ho Hf. split; [by rewrite length_alter|]. intros i t' a' vs' Hi. unfold pin_at. destruct (decide (i = ti)) as [->|Hne].
  - rewrite Hb in Hi. injection Hi as <- <- <-. exists h. split; [|done]. destruct (Hts _ _ _ _ Hb) as (h0 & Hh & _). by rewrite list_lookup_alter_eq, Hh.
  - destruct (Hts _ _ _ _ Hi) as (h' & Hh & Ho'). exists h'. rewrite list_lookup_alter_ne by done. split; [done|]. intros _. apply Ho'. congruence.
Qed.

Lemma tables_take ti pins p ts t a vs : base !! ti = Some (t, a, vs) -> tables_open (pin_at ti p pins) ts ->
  tables_but (Some ti) pins ts /\ exists h, ts !! ti = Some (with_heap t h) /\ rs_open n p h a /\ rs_frames h = rs_frames (t_heap t).
Proof.
  intros Hb [Hl Hts]. split.
  - split; [done|]. intros i t' a' vs' Hi. destruct (Hts _ _ _ _ Hi) as (h & Hh & Ho). exists h. split; [done|]. intros Hne.
    destruct Ho as [Ho Hf]; [done|]. unfold pin_at in Ho. rewrite decide_False in Ho by congruence. done.
  - destruct (Hts _ _ _ _ Hb) as (h & Hh & Ho). exists h. split; [done|]. destruct Ho as [Ho Hf]; [done|]. unfold pin_at in Ho. by rewrite decide_True in Ho.
Qed.

Lemma tables_same ti pins ts : tables_open (pin_at ti (pins ti) pins) ts <-> tables_open pins ts.
Proof.
  assert (E : forall i, pin_at ti (pins ti) pins i = pins i) by (intros i; unfold pin_at; by destruct (decide (i = ti)) as [->|]).
  split; intros [Hl Hts]; (split; [done|]); intros i t a vs Hi; destruct (Hts _ _ _ _ Hi) as (h & Hh & Ho); exists h; [rewrite E in Ho|rewrite E]; done.
Qed.

(** The state at a level: the rows bound so far, which of them have matched, the output. *)
Record st (T : list (Table H I J) -> Prop) (level : nat) prefix mp m x : Prop := {
  st_tables : T (mj_tables m);
  st_rows : length (mj_rows m) = ntabs;
  st_prefix : take level (mj_rows m) = prefix;
  st_matched : length (mj_matched m) = ntabs;
  st_mp : take level (mj_matched m) = mp;
  st_out : mj_out m = x }.

Definition st_at T (level : nat) prefix mp (b : bool) m x : Prop := st T level prefix mp m x /\ mj_matched m !! level = Some b.

(** A part of the join feeds [rows] to the output. *)
Definition feeds (T : list (Table H I J) -> Prop) (level : nat) prefix mp (D : MJoin -> option (MJoin * Z)) (rows : list (list Value)) : Prop :=
  forall m x, st T level prefix mp m x -> exists m', D m = Some (m', (feed x rows).2) /\ st T level prefix mp m' (feed x rows).1.

Lemma st_bind T level prefix mp b b' m x r : st_at T level prefix mp b m x -> (level < ntabs)%nat ->
  st T (S level) (prefix ++ [r]) (mp ++ [b']) (set_match (set_level_row m level r) level b') x.
Proof.
  intros [[Ht Hr Hp Hm Hmp Ho] _] Hl. split; cbn; [done|by rewrite length_insert| |by rewrite length_insert| |done].
  - rewrite take_set by lia. by rewrite Hp.
  - rewrite take_set by lia. by rewrite Hmp.
Qed.

Lemma st_unbind T level prefix mp b m x r : st T (S level) (prefix ++ [r]) (mp ++ [b]) m x -> (level < ntabs)%nat -> length prefix = level -> length mp = level ->
  st_at T level prefix mp b m x.
Proof.
  intros [Ht Hr Hp Hm Hmp Ho] Hl Hlp Hlm. apply take_prefix in Hp as [Hp _]; [|done]. apply take_prefix in Hmp as [Hmp Hb]; [|done]. by split.
Qed.

Lemma st_lengths T level prefix mp b m x : st_at T level prefix mp b m x -> (level < ntabs)%nat -> length prefix = level /\ length mp = level.
Proof. intros [[_ Hr <- Hm <- _] _] Hl. rewrite !length_take. lia. Qed.

(** Going down with a row and coming back. *)
Lemma bind_row T level prefix mp b m x r D rows : st_at T level prefix mp b m x -> (level < ntabs)%nat ->
  feeds T (S level) (prefix ++ [r]) (mp ++ [true]) D rows ->
  exists m', D (set_match (set_level_row m level r) level true) = Some (m', (feed x rows).2) /\ st_at T level prefix mp true m' (feed x rows).1.
Proof.
  intros Hst Hl HD. destruct (st_lengths _ _ _ _ _ _ _ Hst Hl) as [Hlp Hlm].
  destruct (HD _ _ (st_bind _ _ _ _ _ true _ _ r Hst Hl)) as (m' & Hm & Hst'). exists m'. split; [done|]. by eapply st_unbind.
Qed.

(** The rows below a list of rows. *)
Definition below (f : list Value -> list (list Value)) (rs : list (list Value)) : list (list Value) := mjoin (f <$> rs).

Lemma feed_below f r rs x : feed x (below f (r :: rs)) = let '(y, z) := feed x (f r) in if z =? 0 then feed y (below f rs) else (y, z).
Proof. unfold below, feed. rewrite fmap_cons, join_cons. apply push_app. Qed.

(** *** Probing *)

Lemma probe_spec T level prefix mp key D f nodes : (level < ntabs)%nat ->
  (forall r, r ∈ probed key nodes -> feeds T (S level) (prefix ++ [r]) (mp ++ [true]) D (f r)) ->
  forall m x b, st_at T level prefix mp b m x ->
  exists m', probe level key D nodes m = Some (m', (feed x (below f (probed key nodes))).2) /\
    st_at T level prefix mp (b || bool_decide (probed key nodes <> [])) m' (feed x (below f (probed key nodes))).1.
Proof.
  intros Hl. unfold probed. induction nodes as [|nd nodes IH]; intros HD m x b Hst; cbn [probe].
  { exists m. rewrite filter_nil. cbn. by rewrite orb_false_r. }
  rewrite filter_cons in *. destruct (values_equal (hn_key nd) key) eqn:Ev; cbn [negb].
  - rewrite decide_True in * by done. rewrite fmap_cons, feed_below.
    destruct (bind_row _ _ _ _ _ _ _ (hn_row nd) D (f (hn_row nd)) Hst Hl) as (m1 & Hd & Hst1); [apply HD; rewrite fmap_cons; left|]. rewrite Hd. cbn [mbind option_bind].
    destruct (feed x (f (hn_row nd))) as [y z]. cbn [fst snd] in *. destruct (z =? 0) eqn:Ez; cbn [negb].
    + destruct (IH (fun r Hr => HD r ltac:(rewrite fmap_cons; right; exact Hr)) _ _ _ Hst1) as (m' & Hp & Hst'). exists m'. split; [done|].
      rewrite bool_decide_eq_true_2 by done. rewrite orb_true_r. exact Hst'.
    + exists m1. split; [done|]. rewrite bool_decide_eq_true_2 by done. by rewrite orb_true_r.
  - rewrite decide_False in * by congruence. apply IH; [done|done].
Qed.

(** *** Scanning *)

Definition passes (level : nat) prefix (r : list Value) : bool :=
  match level_of q level with None => true | Some lv => on_holds lv (prefix ++ [r]) end.

Definition selected (level : nat) prefix (vs : list Version) : list (list Value) :=
  filter (fun r => passes level prefix r = true) (visible_rows (mq_db q) vs).

(** Level 0 does not record matches. *)
Definition marks (level : nat) (b b' : bool) : bool := match level_of q level with None => b | Some _ => b' end.

Section ScanLevel.
Context (level ti : nat) (t : Table H I J) (a : rs_abs) (vs : list Version) (prefix : list (list Value)) (mp : list bool) (pins : nat -> Pins).
Context (Hti : base !! ti = Some (t, a, vs)) (Hlevel : (level < ntabs)%nat) (Hschema : schema_ok (t_schema t)).
Context (Hstores : Forall2 (stores (t_schema t)) vs (rs_rows a)) (Hframes : (length (pins ti) < rs_frames (t_heap t))%nat).
Context (D : MJoin (H := H) (I := I) (J := J) -> option (MJoin (H := H) (I := I) (J := J) * Z)) (f : list Value -> list (list Value)).
Context (HD : forall r pin b, r ∈ visible_rows (mq_db q) vs -> feeds (tables_open (pin_at ti (pin :: pins ti) pins)) (S level) (prefix ++ [r]) (mp ++ [b]) D (f r)).
Context (Hon : forall lv r, level_of q level = Some lv -> r ∈ visible_rows (mq_db q) vs ->
  Forall (fun ref => (ref.1 <= level)%nat /\ is_Some (cell_at_ref (prefix ++ [r]) ref)) [lv_a lv; lv_b lv]).

Definition scan_step (rid : RID) (rec : bytes) (y : list (list Value) * bool) : (list (list Value) * bool) * Z :=
  match visible_row (mq_db q) (t_schema t) rec with
  | Some (Some row) =>
      if passes level prefix row then let '(x, z) := feed y.1 (f row) in ((x, marks level y.2 true), z) else (y, 0)
  | _ => (y, 0)
  end.

Lemma marks_idem b : marks level (marks level b true) true = marks level b true.
Proof. unfold marks. by destruct (level_of q level). Qed.

Lemma marks_self b : marks level b b = b.
Proof. unfold marks. by destruct (level_of q level). Qed.

(** The scan visits the selected rows in order. *)
Lemma scan_visits us rows : Forall2 (stores (t_schema t)) us rows -> forall x b,
  visit_all scan_step rows (x, b) =
  (((feed x (below f (selected level prefix us))).1, marks level b (b || bool_decide (selected level prefix us <> []))), (feed x (below f (selected level prefix us))).2).
Proof.
  unfold selected, visible_rows. induction 1 as [|v [rid rec] us rows Hv _ IH]; intros x b; [by rewrite filter_nil, orb_false_r, marks_self|].
  cbn [visit_all]. unfold scan_step at 1. rewrite (stores_visible _ _ _ _ Hschema Hv : visible_row _ _ rec = _). rewrite (filter_cons _ v us).
  destruct (sees (mq_db q) v) eqn:Es; [rewrite decide_True by done|rewrite decide_False by done; apply IH].
  rewrite fmap_cons, filter_cons. destruct (passes level prefix (v_row v)) eqn:Ep; [rewrite decide_True by done|rewrite decide_False by done; apply IH].
  rewrite feed_below. cbn [fst snd]. destruct (feed x (f (v_row v))) as [y z]. rewrite bool_decide_eq_true_2, orb_true_r by done.
  destruct (z =? 0); [|done]. rewrite IH. f_equal. f_equal. unfold marks. destruct (level_of q level); [|done]. by destruct (bool_decide _).
Qed.

Lemma st_tables_change (T T' : list (Table H I J) -> Prop) prefix' mp' b m x ts : T' ts -> st_at T level prefix' mp' b m x -> st_at T' level prefix' mp' b (set_tables m ts) x.
Proof. intros HT [[? ? ? ? ? ?] ?]. split; [by split|done]. Qed.

Lemma set_match_same m b : mj_matched m !! level = Some b -> set_match m level b = m.
Proof. intros Hb. unfold set_match. rewrite list_insert_id by done. by destruct m. Qed.

(** The cells of the rows bound so far. *)
Lemma level_cell T prefix' mp' m x (k : nat) ref : st T k prefix' mp' m x -> (ref.1 < k)%nat -> cell_of_level m ref = cell_at_ref prefix' ref.
Proof.
  intros [_ _ <- _ _ _] Hr. unfold cell_of_level, cell_at_ref. by rewrite lookup_take_lt.
Qed.

(** One record: skipped, or bound and followed down. *)
Lemma visit_spec pin rid rec m x b : (rid, rec) ∈ rs_rows a -> st_at (tables_open (pin_at ti (pin :: pins ti) pins)) level prefix mp b m x ->
  exists m', mjoin_visit q level (t_schema t) D rid rec m = Some (m', (scan_step rid rec (x, b)).2) /\
    st_at (tables_open (pin_at ti (pin :: pins ti) pins)) level prefix mp (scan_step rid rec (x, b)).1.2 m' (scan_step rid rec (x, b)).1.1.
Proof.
  intros Hin Hst. apply list_elem_of_lookup in Hin as [i Hi]. destruct (Forall2_lookup_r _ _ _ _ _ Hstores Hi) as (v & Hv & Hs).
  pose proof (stores_decode _ _ _ Hschema Hs) as Hd. pose proof Hs as (_ & Hr & _ & Hmin & Hmax).
  destruct (row_rep_head _ _ _ _ _ Hr Hmin Hmax) as [E1 E2]. unfold mjoin_visit, scan_step. cbn [snd] in *.
  rewrite (stores_visible _ _ _ _ Hschema Hs : visible_row _ _ rec = _), E1, E2. cbn [mbind option_bind]. unfold sees.
  destruct (rec_visible (mq_db q) (v_xmin v) (v_xmax v)) eqn:Evis; cbn [negb]; [|by exists m].
  rewrite Hd. cbn [mbind option_bind fst snd].
  assert (Hvis : v_row v ∈ visible_rows (mq_db q) vs).
  { apply list_elem_of_fmap_2, list_elem_of_filter. split; [done|by eapply list_elem_of_lookup_2]. }
  assert (Hdown : forall b', exists m', D (set_match (set_level_row m level (v_row v)) level b') = Some (m', (feed x (f (v_row v))).2) /\
    st_at (tables_open (pin_at ti (pin :: pins ti) pins)) level prefix mp b' m' (feed x (f (v_row v))).1).
  { intros b'. destruct (st_lengths _ _ _ _ _ _ _ Hst Hlevel) as [Hlp Hlm].
    destruct (HD _ pin b' Hvis _ _ (st_bind _ _ _ _ _ b' _ _ (v_row v) Hst Hlevel)) as (m' & Hm & Hst'). exists m'. split; [done|]. by eapply st_unbind. }
  unfold passes, marks. destruct (level_of q level) as [lv|] eqn:Elv.
  - pose proof (Hon _ _ eq_refl Hvis) as Hrefs. rewrite !list.Forall_cons in Hrefs. destruct Hrefs as ((Ha & va & Eva) & (Hb & vb & Evb) & _).
    pose proof (st_bind _ _ _ _ _ b _ _ (v_row v) Hst Hlevel) as Hbound.
    assert (Hc : forall ref, (ref.1 <= level)%nat -> cell_of_level (set_level_row m level (v_row v)) ref = cell_at_ref (prefix ++ [v_row v]) ref).
    { intros ref Hle. rewrite <- (level_cell _ _ _ _ _ _ ref Hbound) by lia. done. }
    rewrite !Hc by done. unfold on_holds. rewrite Eva, Evb. cbn [mbind option_bind]. destruct (values_equal va vb); cbn [negb].
    + destruct (Hdown true) as (m' & Hm & Hst'). exists m'. destruct (feed x (f (v_row v))). by split.
    + exists (set_level_row m level (v_row v)). split; [done|]. destruct Hbound as [? ? ? ? ? ?]. destruct Hst as [[? Hrw Hpf Hml Hmm Hot] ?].
      split; [|done]. split; try done; cbn; rewrite ?length_insert, ?take_insert_ge by lia; done.
  - destruct (Hdown b) as (m' & Hm & Hst'). rewrite set_match_same in Hm by (apply Hst). exists m'. destruct (feed x (f (v_row v))). by split.
Qed.

Lemma scan_spec_level m x b : st_at (tables_open pins) level prefix mp b m x ->
  exists m', scan_table ti (mjoin_visit q level (t_schema t) D) m = Some (m', (feed x (below f (selected level prefix vs))).2) /\
    st_at (tables_open pins) level prefix mp (marks level b (b || bool_decide (selected level prefix vs <> []))) m' (feed x (below f (selected level prefix vs))).1.
Proof.
  intros Hst. pose proof (st_tables _ _ _ _ _ _ (proj1 Hst)) as Hts. apply (tables_same ti) in Hts. destruct (tables_take _ _ _ _ _ _ _ Hti Hts) as [Hbut (h & Hh & Ho & Hfr)].
  unfold scan_table. rewrite Hh. cbn [mbind option_bind t_heap with_heap].
  set (R := fun m (y : list (list Value) * bool) => st_at (tables_but (Some ti) pins) level prefix mp y.2 m y.1).
  destruct (law_open_nested _ _ R (fun rid rec h m => '(m, r) ← mjoin_visit q level (t_schema t) D rid rec (place_heap m ti h); t ← mj_tables m !! ti; Some (t_heap t, m, r))
    scan_step n (pins ti) h a m (x, b) Ho) as (h' & m' & Hs & HR & Ho' & Hfr'); [lia| | |].
  - destruct Hst as [[? ? ? ? ? ?] ?]. by split.
  - intros pin h1 m1 [x1 b1] rid rec Hin Ho1 Hf1 HR1. unfold R in HR1. cbn [fst snd] in HR1.
    assert (Hst1 : st_at (tables_open (pin_at ti (pin :: pins ti) pins)) level prefix mp b1 (place_heap m1 ti h1) x1).
    { apply (st_tables_change _ _ _ _ _ _ _ _ (tables_put _ _ _ _ _ _ _ _ Hti (st_tables _ _ _ _ _ _ (proj1 HR1)) Ho1 ltac:(congruence)) HR1). }
    destruct (visit_spec pin rid rec _ _ _ Hin Hst1) as (m2 & Hv & Hst2). rewrite Hv. cbn [mbind option_bind].
    destruct (tables_take _ _ _ _ _ _ _ Hti (st_tables _ _ _ _ _ _ (proj1 Hst2))) as [Hbut2 (h2 & Hh2 & Ho2 & Hf2)]. rewrite Hh2. cbn [mbind option_bind t_heap with_heap].
    exists h2, m2. split; [done|]. split; [|split; [done|congruence]]. destruct Hst2 as [[? ? ? ? ? ?] ?]. by split.
  - rewrite Hs. cbn [mbind option_bind]. rewrite (scan_visits _ _ Hstores) in HR |- *. cbn [fst snd] in *. exists (place_heap m' ti h'). split; [done|].
    refine (st_tables_change _ _ _ _ _ _ _ _ _ HR). apply (tables_same ti). eapply tables_put; [done|apply HR|done|congruence].
Qed.
End ScanLevel.

(** *** Lookups by primary key *)

Section IndexLevel.
Context (t : Table H I J) (a : rs_abs) (vs : list Version).
Context (Hschema : schema_ok (t_schema t)) (Hstores : Forall2 (stores (t_schema t)) vs (rs_rows a)).
Context (Hrids : NoDup (v_rid <$> vs)) (Haddr : Forall addr_ok (v_rid <$> vs)).

Lemma version_at_entry col v : v ∈ vs -> version_at (mq_db q) vs (entry_of col v).2 = if sees (mq_db q) v then Some (v_row v) else None.
Proof.
  intros Hv. assert (Hav : addr_ok (v_rid v)) by (rewrite list.Forall_forall in Haddr; by apply Haddr, list_elem_of_fmap_2).
  unfold version_at. rewrite entry_rid by done. clear -Hv Hrids. induction vs as [|u us IH]; [by apply elem_of_nil in Hv|].
  rewrite fmap_cons in Hrids. apply list.NoDup_cons in Hrids as [Hnu Hnd]. rewrite filter_cons. apply elem_of_cons in Hv as [->|Hv].
  - destruct (sees (mq_db q) u) eqn:Es; [by rewrite decide_True|]. rewrite decide_False by (intros [_ E]; congruence).
    assert (Hnil : filter (fun v => v_rid v = v_rid u /\ sees (mq_db q) v = true) us = []).
    { apply filter_none. intros w Hw [E _]. apply Hnu. rewrite <- E. by apply list_elem_of_fmap_2. }
    by rewrite Hnil.
  - rewrite decide_False; [by apply IH|]. intros [E _]. apply Hnu. rewrite E. by apply list_elem_of_fmap_2.
Qed.

(** The lookup stops at the first visible version. *)
Lemma pk_visits (pl : Pins) us : us ⊆ vs -> forall h, rs_open n pl h a -> (length pl < rs_frames h)%nat ->
  exists h' found, (visit_list (pk_vis_visit (mq_db q)) (entry_of 0 <$> us) (Some (h, None))).1 = Some (h', found) /\
    rs_open n pl h' a /\ rs_frames h' = rs_frames h /\
    match head (v_row <$> filter (fun v => sees (mq_db q) v = true) us) with
    | None => found = None
    | Some row => exists rec, found = Some rec /\ decode_row (t_schema t) rec = Some row
    end.
Proof.
  induction us as [|u us IH]; intros Hsub h Ho Hf; [by exists h, None|]. rewrite fmap_cons, filter_cons.
  assert (Hu : u ∈ vs) by (apply Hsub; left). assert (Hau : addr_ok (v_rid u)) by (rewrite list.Forall_forall in Haddr; by apply Haddr, list_elem_of_fmap_2).
  destruct (law_open_get n pl h a (v_rid u) Ho Hf) as (h1 & r & Hg & Ho1 & Hf1 & Hr); [destruct Hau; split; lia|].
  apply list_elem_of_lookup in Hu as [i Hi]. destruct (Forall2_lookup_l _ _ _ _ _ Hstores Hi) as ([rid rec] & He & Hs).
  pose proof Hs as (Hrid & Hrow & _ & Hmin & Hmax). cbn [fst snd] in *. subst rid. assert (Hrec : r = Some rec) by (apply Hr; by eapply list_elem_of_lookup_2). subst r.
  destruct (row_rep_head _ _ _ _ _ Hrow Hmin Hmax) as [E1 E2]. destruct (entry_of 0 u) as [k val] eqn:Eu. cbn [visit_list].
  assert (Hv : pk_vis_visit (mq_db q) k val (Some (h, None)) = (Some (h1, if sees (mq_db q) u then Some rec else None), if sees (mq_db q) u then 1 else 0)).
  { pose proof (entry_rid 0 u Hau) as Hd. rewrite Eu in Hd. cbn [snd] in Hd. unfold pk_vis_visit. cbn [mbind option_bind]. rewrite Hd, Hg. cbn [mbind option_bind].
    rewrite E1, E2. cbn [mbind option_bind]. unfold sees. by destruct (rec_visible _ _ _). }
  rewrite Hv. destruct (sees (mq_db q) u) eqn:Es.
  - rewrite decide_True by done. cbn. exists h1, (Some rec). split; [done|]. split; [done|]. split; [done|]. exists rec. split; [done|].
    exact (stores_decode _ _ _ Hschema Hs).
  - rewrite decide_False by done. cbn [Z.eqb]. destruct (IH ltac:(set_solver) h1 Ho1 ltac:(lia)) as (h2 & fd & Hvs & Ho2 & Hf2 & Hm).
    exists h2, fd. split; [exact Hvs|]. split; [done|]. split; [lia|done].
Qed.

Lemma visit_list_collect es : forall acc, visit_list (fun k v es => (es ++ [(k, v)], 0)) es acc = (acc ++ es, 0).
Proof. induction es as [|[k v] es IH]; intros acc; cbn [visit_list]; [by rewrite app_nil_r|]. cbn. by rewrite IH, <- app_assoc. Qed.

(** The entries of a key are those of some versions with that key. *)
Lemma entries_spec key : indexed n (t_index t) 0 vs -> pk_usable (t_index t) = true ->
  exists us, entries (t_index t) key = entry_of 0 <$> us /\ us ≡ₚ filter (fun v => key_sat (fun k => k =? key) 0 v = true) vs /\
    forall C (f : Z -> Z -> C -> C * Z) ctx, pk_find (t_index t) key f ctx = Some (visit_list f (entries (t_index t) key) ctx).1.
Proof.
  intros (L & HL & Hk) Hu. destruct (law_pk_find n (t_index t) L key HL Hu) as (es & Hes & Hf).
  assert (E : entries (t_index t) key = es) by (unfold entries; rewrite Hf, visit_list_collect; done). rewrite E.
  destruct (index_entries 0 vs (fun e => e.1 = key) (fun k => k =? key) es L Hk Hes) as (us & -> & Hus); [intros k x; cbn; by rewrite Z.eqb_eq|].
  exists us. split; [done|]. split; [done|]. exact Hf.
Qed.

Lemma found_index us : us ⊆ vs -> omap (version_at (mq_db q) vs) (entry_of 0 <$> us).*2 = v_row <$> filter (fun v => sees (mq_db q) v = true) us.
Proof.
  induction us as [|u us IH]; intros Hsub; [done|]. rewrite !fmap_cons, filter_cons. cbn [omap list_omap]. rewrite version_at_entry by (apply Hsub; left).
  rewrite IH by set_solver. destruct (sees (mq_db q) u); [by rewrite decide_True|by rewrite decide_False].
Qed.
End IndexLevel.

(** *** All levels *)

(** Rows of a table have its width, and their texts are C strings. *)
Definition fits_width (w : nat) (r : list Value) : Prop := length r = w /\ Forall cell_ok r.
Definition width (t : Table H I J) : nat := length (c_columns (t_schema t)).

Record table_ok (t : Table H I J) (a : rs_abs) (vs : list Version) : Prop := {
  to_schema : schema_ok (t_schema t);
  to_stores : Forall2 (stores (t_schema t)) vs (rs_rows a);
  to_rids : NoDup (v_rid <$> vs) /\ Forall addr_ok (v_rid <$> vs);
  to_frames : (ntabs <= rs_frames (t_heap t))%nat }.

Context (lvls : list (option Level * Table H I J * list Version)).

(** A column of the levels up to [k]. *)
Definition ref_ok (k : nat) (ref : nat * nat) : Prop := exists lv t vs, (ref.1 <= k)%nat /\ lvls !! ref.1 = Some (lv, t, vs) /\ (ref.2 < width t)%nat.

Definition method_ok (k : nat) (t : Table H I J) (vs : list Version) (jm : JMethod) : Prop :=
  match jm with
  | JM_SCAN => True
  | JM_INDEX src => (src.1 < k)%nat /\ ref_ok k src /\ indexed n (t_index t) 0 vs /\ pk_usable (t_index t) = true
  | JM_HASH src col => (src.1 < k)%nat /\ ref_ok k src /\ (col < width t)%nat /\
      mq_hash q !! k = Some (hash_of (mq_unset q) col (visible_rows (mq_db q) vs))
  end.

Definition level_ok (k : nat) (e : option Level * Table H I J * list Version) : Prop :=
  let '(lv, t, vs) := e in
  level_of q k = lv /\ (exists ti a, mq_tabs q !! k = Some ti /\ base !! ti = Some (t, a, vs) /\ table_ok t a vs) /\
  forall lv', lv = Some lv' -> ref_ok k (lv_a lv') /\ ref_ok k (lv_b lv') /\ method_ok k t vs (lv_method lv').

Context (Hlvls : forall k e, lvls !! k = Some e -> level_ok k e) (Hlen : length lvls = ntabs).

Lemma visible_fits t a vs r : table_ok t a vs -> r ∈ visible_rows (mq_db q) vs -> fits_width (width t) r.
Proof.
  intros [_ Hst _ _] (v & -> & [_ Hv]%list_elem_of_filter)%list_elem_of_fmap. apply list_elem_of_lookup in Hv as [i Hi].
  destruct (Forall2_lookup_l _ _ _ _ _ Hst Hi) as (e & _ & (_ & _ & (Hm & Hv & _) & _)). split; [by apply matches_row_length in Hm|by apply val_cell].
Qed.

Definition prefix_ok prefix : Prop := Forall2 (fun e r => fits_width (width e.1.2) r) (take (length prefix) lvls) prefix.

Lemma prefix_snoc prefix lv t vs r : prefix_ok prefix -> lvls !! length prefix = Some (lv, t, vs) -> fits_width (width t) r -> prefix_ok (prefix ++ [r]).
Proof.
  intros Hp Hl Hr. unfold prefix_ok. rewrite length_app, Nat.add_1_r. erewrite take_S_r by exact Hl. apply Forall2_app; [done|]. constructor; [done|constructor].
Qed.

Lemma prefix_cell prefix k ref : prefix_ok prefix -> (ref.1 < length prefix)%nat -> ref_ok k ref -> is_Some (cell_at_ref prefix ref).
Proof.
  intros Hp Hlt (lv & t & vs & _ & Hl & Hc). unfold cell_at_ref. destruct (Forall2_lookup_l _ _ _ ref.1 (lv, t, vs) Hp) as (r & Hr & [Hw _]).
  { by rewrite lookup_take_lt. }
  rewrite Hr. cbn. apply lookup_lt_is_Some_2. cbn in Hw. lia.
Qed.

Lemma chain_total chain rows w : Forall (Forall cell_ok) rows -> is_Some (where_matches_chain chain rows w).
Proof.
  intros Hr. assert (Hcell : forall qtbl col v, cell_chain chain rows qtbl col = Some v -> cell_ok v).
  { intros qtbl col. revert rows Hr. induction chain as [|[sc nm] chain IH]; intros [|r rows] Hr v; try done. cbn [cell_chain]. inversion_clear Hr as [|? ? Hr1 Hr2].
    destruct (cell_in sc nm qtbl col r) as [u|] eqn:E; [intros [= <-]; by eapply cell_in_ok|]. by apply IH. }
  assert (Hg : forall g, is_Some (chain_group chain rows g)).
  { induction g as [|c g IH]; [by eexists|]. cbn [chain_group]. destruct c as [tbl col op val isub neg sc sub set].
    destruct (cond_eval_total (cell_chain chain rows tbl col) (mkCond tbl col op val isub neg sc sub set)) as [b Hb]; [intros; by eapply Hcell|].
    rewrite Hb. cbn. destruct b; [exact IH|by eexists]. }
  assert (Hgs : forall w, is_Some (chain_groups chain rows w)).
  { induction w0 as [|g w0 IH]; [by eexists|]. cbn [chain_groups]. destruct (Hg g) as [b ->]. cbn. destruct b; [by eexists|exact IH]. }
  unfold where_matches_chain. destruct w; [by eexists|apply Hgs].
Qed.

Lemma emit_feeds T prefix mp : length prefix = ntabs -> prefix_ok prefix ->
  feeds T ntabs prefix mp (mjoin_emit q) (if default false (where_matches_chain (mq_chain q) prefix (mq_where q)) then [mjoin prefix] else []).
Proof.
  intros Hl Hp m x Hst. assert (Hrows : mj_rows m = prefix).
  { destruct Hst as [_ Hr <- _ _ _]. by rewrite take_ge by lia. }
  assert (Hok : Forall (Forall cell_ok) prefix).
  { apply list.Forall_forall. intros r [i Hi]%list_elem_of_lookup. by destruct (Forall2_lookup_r _ _ _ _ _ Hp Hi) as (e & _ & _ & Hc). }
  destruct (chain_total (mq_chain q) prefix (mq_where q) Hok) as [b Hb]. unfold mjoin_emit. rewrite Hrows, Hb. cbn [mbind option_bind from_option id]. destruct b; cbn [negb]; [|by exists m].
  pose proof Hst as [? ? ? ? ? Ho]. unfold feed. cbn [push]. unfold push1. rewrite Ho.
  destruct (mq_materialize q).
  - destruct (bool_decide _); [|by exists m]. eexists. split; [done|]. split; cbn; try done. by rewrite take_ge by lia.
  - destruct (_ && _); (eexists; split; [done|]; split; cbn; try done; by rewrite take_ge by lia).
Qed.

(** What the rows of one level contribute, before a LEFT JOIN fills in NULLs. *)
Definition level_rows (lv : option Level) (t : Table H I J) (vs : list Version) prefix : list (list Value) :=
  match lv with None => visible_rows (mq_db q) vs | Some lv => found (mq_db q) lv t vs prefix end.

Section OneLevel.
Context (level : nat) (lv : option Level) (t : Table H I J) (vs : list Version) (ti : nat) (a : rs_abs) (prefix : list (list Value)) (mp : list bool) (pins : nat -> Pins).
Context (Hl : lvls !! level = Some (lv, t, vs)) (Htab : mq_tabs q !! level = Some ti) (Hbase : base !! ti = Some (t, a, vs)) (Htok : table_ok t a vs).
Context (Hprefix : prefix_ok prefix) (Hplen : length prefix = level) (Hpins : forall i, (length (pins i) <= level)%nat).
Context (D : MJoin (H := H) (I := I) (J := J) -> option (MJoin (H := H) (I := I) (J := J) * Z)) (f : list Value -> list (list Value)).
Context (HD : forall r pins b, fits_width (width t) r -> (forall i, (length (pins i) <= S level)%nat) -> feeds (tables_open pins) (S level) (prefix ++ [r]) (mp ++ [b]) D (f r)).

Let db := mq_db q.

Lemma level_lt : (level < ntabs)%nat.
Proof. rewrite <- Hlen. by eapply lookup_lt_Some. Qed.

Lemma level_is : level_of q level = lv.
Proof. by destruct (Hlvls _ _ Hl) as (? & _). Qed.

Lemma feeds_here r b : fits_width (width t) r -> feeds (tables_open pins) (S level) (prefix ++ [r]) (mp ++ [b]) D (f r).
Proof. intros Hr. apply HD; [done|]. intros i. specialize (Hpins i). lia. Qed.

Lemma scan_rows m x b : st_at (tables_open pins) level prefix mp b m x -> match lv with Some lv => lv_method lv = JM_SCAN | None => True end ->
  exists m' b', scan_table ti (mjoin_visit q level (t_schema t) D) m = Some (m', (feed x (below f (level_rows lv t vs prefix))).2) /\
    st_at (tables_open pins) level prefix mp b' m' (feed x (below f (level_rows lv t vs prefix))).1 /\
    (lv <> None -> b = false -> b' = bool_decide (level_rows lv t vs prefix <> [])).
Proof.
  intros Hst Hm. assert (Hsel : selected level prefix vs = level_rows lv t vs prefix).
  { unfold selected, level_rows, passes. rewrite level_is. destruct lv as [lv'|].
    - unfold found. by rewrite Hm.
    - by apply filter_every. }
  destruct (scan_spec_level level ti t a vs prefix mp pins Hbase level_lt (to_schema _ _ _ Htok) (to_stores _ _ _ Htok)) with (D := D) (f := f) (m := m) (x := x) (b := b)
    as (m' & Hs & Hst').
  - pose proof (to_frames _ _ _ Htok). pose proof (Hpins ti). pose proof level_lt. lia.
  - intros r pin b' Hr. apply HD; [by eapply visible_fits|]. intros i. unfold pin_at. pose proof (Hpins i). pose proof (Hpins ti). destruct (decide (i = ti)); cbn [length]; lia.
  - intros lv' r Hlv Hr. destruct (Hlvls _ _ Hl) as (Ei & _ & Hrefs). rewrite Hlv in Ei. symmetry in Ei. destruct (Hrefs _ Ei) as (Ha & Hb & _).
    assert (Hpr : prefix_ok (prefix ++ [r])) by (eapply prefix_snoc; [done|by rewrite Hplen|by eapply visible_fits]).
    assert (Hlen1 : length (prefix ++ [r]) = S level) by (rewrite length_app; cbn; lia).
    rewrite !list.Forall_cons. split; [|split; [|constructor]]; (split; [by destruct Ha as (? & ? & ? & ? & _), Hb as (? & ? & ? & ? & _)|]).
    + eapply prefix_cell; [done| |done]. destruct Ha as (? & ? & ? & ? & _). lia.
    + eapply prefix_cell; [done| |done]. destruct Hb as (? & ? & ? & ? & _). lia.
  - done.
  - rewrite Hsel in Hs, Hst'. exists m', (marks level b (b || bool_decide (level_rows lv t vs prefix <> []))). split; [done|]. split; [done|].
    intros Hn ->. unfold marks. rewrite level_is. by destruct lv.
Qed.

Lemma probe_key m x b src : st_at (tables_open pins) level prefix mp b m x -> (src.1 < level)%nat -> ref_ok level src ->
  exists key, cell_of_level m src = Some key /\ cell_at_ref prefix src = Some key.
Proof.
  intros [Hst _] Hlt Hr. destruct (prefix_cell prefix level src Hprefix ltac:(lia) Hr) as [key Hk]. exists key. split; [|done].
  by rewrite (level_cell _ _ _ _ _ _ _ Hst Hlt).
Qed.

Lemma hash_rows lv' src col m x : lv = Some lv' -> lv_method lv' = JM_HASH src col -> st_at (tables_open pins) level prefix mp false m x ->
  exists m', (key ← cell_of_level m src; ht ← mq_hash q !! level; probe level key D (hash_bucket (mq_unset q) ht key) m) =
      Some (m', (feed x (below f (level_rows lv t vs prefix))).2) /\
    st_at (tables_open pins) level prefix mp (bool_decide (level_rows lv t vs prefix <> [])) m' (feed x (below f (level_rows lv t vs prefix))).1.
Proof.
  intros Hlv Hm Hst. destruct (Hlvls _ _ Hl) as (_ & _ & Hrefs). destruct (Hrefs _ Hlv) as (_ & _ & Hmeth). rewrite Hm in Hmeth.
  destruct Hmeth as (Hlt & Hsrc & Hcol & Hht). destruct (probe_key _ _ _ _ Hst Hlt Hsrc) as (key & Hk & Hkp). rewrite Hk, Hht. cbn [mbind option_bind].
  assert (Hrows : level_rows lv t vs prefix = probed key (hash_bucket (mq_unset q) (hash_of (mq_unset q) col (visible_rows db vs)) key)).
  { rewrite probed_hash; [unfold level_rows; rewrite Hlv; unfold found; rewrite Hm, Hkp; done|].
    apply list.Forall_forall. intros r Hr. destruct (visible_fits _ _ _ _ Htok Hr) as [Hw _]. apply lookup_lt_is_Some_2. lia. }
  rewrite Hrows. destruct (probe_spec (tables_open pins) level prefix mp key D f (hash_bucket (mq_unset q) (hash_of (mq_unset q) col (visible_rows db vs)) key) level_lt)
    with (m := m) (x := x) (b := false) as (m' & Hp & Hst'); [|done|by exists m'].
  intros r Hr. apply feeds_here. rewrite <- Hrows in Hr. unfold level_rows in Hr. rewrite Hlv in Hr. unfold found in Hr. rewrite Hm, Hkp in Hr.
  apply list_elem_of_filter in Hr as [_ Hr]. rewrite elem_of_reverse in Hr. by eapply visible_fits.
Qed.

Lemma index_rows lv' src h m x : lv = Some lv' -> lv_method lv' = JM_INDEX src -> st_at (tables_open pins) level prefix mp false m x ->
  mj_tables m !! ti = Some (with_heap t h) -> rs_open n (pins ti) h a -> rs_frames h = rs_frames (t_heap t) ->
  exists m', (key ← cell_of_level m src;
      match key with
      | VAL_INT k => c ← pk_find (t_index t) k (pk_vis_visit (mq_db q)) (Some (h, None));
          '(h, found) ← c;
          match found with
          | None => Some (place_heap m ti h, 0)
          | Some rec => row ← decode_row (t_schema t) rec; D (set_match (set_level_row (place_heap m ti h) level row) level true)
          end
      | _ => Some (m, 0)
      end) = Some (m', (feed x (below f (level_rows lv t vs prefix))).2) /\
    st_at (tables_open pins) level prefix mp (bool_decide (level_rows lv t vs prefix <> [])) m' (feed x (below f (level_rows lv t vs prefix))).1.
Proof.
  intros Hlv Hm Hst Hh Ho Hfr. pose proof level_lt as Hll. pose proof feeds_here as Hfeeds. destruct (Hlvls _ _ Hl) as (_ & _ & Hrefs). destruct (Hrefs _ Hlv) as (_ & _ & Hmeth). rewrite Hm in Hmeth.
  destruct Hmeth as (Hlt & Hsrc & Hix & Hus). destruct (probe_key _ _ _ _ Hst Hlt Hsrc) as (key & Hk & Hkp). rewrite Hk. cbn [mbind option_bind].
  assert (Hnone : level_rows lv t vs prefix = [] -> st_at (tables_open pins) level prefix mp (bool_decide (level_rows lv t vs prefix <> [])) m (feed x (below f (level_rows lv t vs prefix))).1).
  { intros ->. by rewrite bool_decide_eq_false_2 by (by intros []). }
  unfold level_rows in *. rewrite Hlv in *. unfold found in *. rewrite Hm, Hkp in *. destruct key as [z|s|]; [|exists m; auto..].
  destruct (to_rids _ _ _ Htok) as [Hnd Had]. destruct (entries_spec t vs z Hix Hus) as (us & He & Hperm & Hfind). rewrite Hfind, He. cbn [mbind option_bind].
  assert (Hsub : us ⊆ vs) by (intros v Hv; rewrite Hperm in Hv; by apply list_elem_of_filter in Hv as [_ Hv]).
  rewrite He, (found_index t a vs (to_schema _ _ _ Htok) (to_stores _ _ _ Htok) Hnd Had us Hsub) in *. set (rows := v_row <$> filter (fun v => sees (mq_db q) v = true) us) in *.
  destruct (pk_visits t a vs (to_schema _ _ _ Htok) (to_stores _ _ _ Htok) Hnd Had (pins ti) us Hsub h Ho) as (h' & fd & Hv & Ho' & Hf' & Hfd);
    [pose proof (to_frames _ _ _ Htok); pose proof (Hpins ti); lia|].
  rewrite Hv. cbn [mbind option_bind].
  assert (Hput : forall m x b, st_at (tables_open pins) level prefix mp b m x -> st_at (tables_open pins) level prefix mp b (place_heap m ti h') x).
  { intros m1 x1 b1 Hs1. refine (st_tables_change _ _ _ _ _ _ _ _ _ _ Hs1). apply (tables_same ti). eapply tables_put; [done| |done|congruence].
    apply (tables_take ti _ (pins ti) _ t a vs Hbase). apply (tables_same ti), Hs1. }
  fold rows in Hfd. destruct (head rows) as [row|] eqn:Eh.
  - destruct Hfd as (rec & -> & Hdec). rewrite Hdec. cbn [mbind option_bind option_list].
    assert (Hrow : row ∈ visible_rows db vs).
    { destruct rows as [|r0 rows'] eqn:Er; [done|]. injection Eh as ->. assert (Hr : row ∈ rows) by (rewrite Er; left). subst rows.
      apply list_elem_of_fmap in Hr as (v & -> & [Hs Hvu]%list_elem_of_filter). apply list_elem_of_fmap_2, list_elem_of_filter. split; [done|by apply Hsub]. }
    destruct (bind_row _ _ _ _ _ _ _ row D (f row) (Hput _ _ _ Hst) Hll) as (m' & Hd & Hst'); [apply Hfeeds; by eapply visible_fits|].
    exists m'. change (option_list (Some row)) with [row]. rewrite bool_decide_eq_true_2 by done. unfold below. rewrite fmap_cons, fmap_nil, join_cons. cbn [mjoin list_join]. by rewrite app_nil_r.
  - subst fd. cbn [option_list]. exists (place_heap m ti h'). split; [done|]. apply Hput, Hnone. done.
Qed.

Lemma level_start m x : st (tables_open pins) level prefix mp m x ->
  exists b, st_at (tables_open pins) level prefix mp b (match level with O => m | _ => set_match m level false end) x /\ (lv <> None -> b = false).
Proof.
  intros Hst. pose proof level_lt as Hll. pose proof level_is as Hli. destruct level as [|k] eqn:Ek.
  - destruct (lookup_lt_is_Some_2 (mj_matched m) 0) as [b Hb]; [rewrite (st_matched _ _ _ _ _ _ Hst); lia|]. exists b. split; [done|].
    intros Hn. by rewrite <- Hli in Hn.
  - exists false. split; [|done]. destruct Hst as [? ? ? Hm Hmp ?]. split; [|cbn; apply list_lookup_insert_eq; lia].
    split; try done; cbn; [by rewrite length_insert|]. by rewrite take_insert_ge by lia.
Qed.

Lemma nulls_fit : fits_width (width t) (replicate (width t) VAL_NULL).
Proof. split; [apply length_replicate|]. by apply Forall_replicate. Qed.

(** The end of a level: a LEFT JOIN without a match goes on with NULLs. *)
Lemma level_end m x b : st_at (tables_open pins) level prefix mp b m (feed x (below f (level_rows lv t vs prefix))).1 ->
  (lv <> None -> b = bool_decide (level_rows lv t vs prefix <> [])) ->
  exists m', (if negb ((feed x (below f (level_rows lv t vs prefix))).2 =? 0) then Some (m, (feed x (below f (level_rows lv t vs prefix))).2)
    else matched ← mj_matched m !! level;
      match level_of q level with
      | Some lv => if lv_left lv && negb matched then D (set_level_row m level (replicate (width t) VAL_NULL)) else Some (m, 0)
      | None => Some (m, 0)
      end) = Some (m', (feed x (below f (enumerate (mq_db q) lv t vs prefix))).2) /\
    st (tables_open pins) level prefix mp m' (feed x (below f (enumerate (mq_db q) lv t vs prefix))).1.
Proof.
  intros Hst Hb. pose proof level_lt as Hll. pose proof feeds_here as Hfeeds. rewrite (proj2 Hst : mj_matched m !! level = Some b). cbn [mbind option_bind]. rewrite level_is. unfold enumerate.
  destruct lv as [lv'|] eqn:Elv; cbn [level_rows] in *.
  2: { destruct (feed x (below f (visible_rows (mq_db q) vs))) as [y z]. cbn [fst snd] in *. destruct (Z.eqb_spec z 0) as [->|]; cbn [negb]; exists m; (split; [done|apply Hst]). }
  specialize (Hb ltac:(done)). set (rows := found (mq_db q) lv' t vs prefix) in *. destruct (lv_left lv' && bool_decide (rows = [])) eqn:Eleft.
  - apply andb_true_iff in Eleft as [El Er%bool_decide_eq_true]. rewrite Er in *. rewrite bool_decide_eq_false_2 in Hb by (by intros []). subst b.
    change (feed x (below f [])) with (x, 0) in *. cbn [fst snd Z.eqb negb] in *. rewrite El. cbn [andb negb].
    pose proof (st_bind _ _ _ _ _ false _ _ (replicate (width t) VAL_NULL) Hst Hll) as Hbound.
    destruct (Hfeeds _ false nulls_fit _ _ Hbound) as (m' & Hd & Hst'). exists m'.
    assert (Hsame : set_match (set_level_row m level (replicate (width t) VAL_NULL)) level false = set_level_row m level (replicate (width t) VAL_NULL)).
    { apply set_match_same. apply Hst. }
    rewrite Hsame in Hd. unfold below. rewrite fmap_cons, fmap_nil, join_cons. cbn [mjoin list_join]. rewrite app_nil_r. split; [exact Hd|].
    destruct (st_lengths _ _ _ _ _ _ _ Hst Hll) as [Hlp Hlm]. by destruct (st_unbind _ _ _ _ _ _ _ _ Hst' Hll Hlp Hlm).
  - assert (Hno : lv_left lv' && negb b = false).
    { rewrite Hb. apply andb_false_iff in Eleft as [->|E]; [done|]. apply andb_false_iff. right. rewrite negb_false_iff. apply bool_decide_eq_true. by apply bool_decide_eq_false in E. }
    rewrite Hno. destruct (feed x (below f rows)) as [y z]. cbn [fst snd] in *. destruct (Z.eqb_spec z 0) as [->|]; cbn [negb]; exists m; (split; [done|apply Hst]).
Qed.
End OneLevel.

Lemma const_replicate {A B} (c : B) (l : list A) : (fun _ => c) <$> l = replicate (length l) c.
Proof. induction l as [|y l IH]; [done|]. rewrite fmap_cons, IH. done. Qed.

(** The whole join: what it prints is what it visits, cut where the output stops. *)
Lemma descend_feeds : forall k level prefix mp pins, (level + k = ntabs)%nat -> length prefix = level -> prefix_ok prefix -> (forall i, (length (pins i) <= level)%nat) ->
  feeds (tables_open pins) level prefix mp (mjoin_descend q k level) (visited (mq_db q) (mq_chain q) (mq_where q) (drop level lvls) prefix).
Proof.
  induction k as [|k IH]; intros level prefix mp pins Hk Hpl Hp Hpins.
  { rewrite drop_ge by lia. cbn [mjoin_descend visited]. replace level with ntabs by lia. apply emit_feeds; [lia|done]. }
  intros m x Hst. destruct (lookup_lt_is_Some_2 lvls level) as [[[lv t] vs] Hl]; [lia|]. rewrite (drop_S _ _ _ Hl). cbn [visited].
  destruct (Hlvls _ _ Hl) as (Hlo & (ti & a & Htab & Hbase & Htok) & _).
  set (f := fun r => visited (mq_db q) (mq_chain q) (mq_where q) (drop (S level) lvls) (prefix ++ [r])).
  assert (HD : forall r pins b, fits_width (width t) r -> (forall i, (length (pins i) <= S level)%nat) -> feeds (tables_open pins) (S level) (prefix ++ [r]) (mp ++ [b]) (mjoin_descend q k (S level)) (f r)).
  { intros r pins' b Hr Hpins'. apply IH; [lia|rewrite length_app; cbn; lia| |done]. eapply prefix_snoc; [done|by rewrite Hpl|done]. }
  pose proof (st_tables _ _ _ _ _ _ Hst) as Hts. apply (tables_same ti) in Hts. destruct (tables_take _ _ _ _ _ _ _ Hbase Hts) as [_ (h & Hh & Ho & Hfr)].
  cbn [mjoin_descend]. rewrite Htab. cbn [mbind option_bind]. rewrite Hh. cbn [mbind option_bind t_heap t_schema t_index with_heap].
  rewrite const_replicate. fold (width t).
  destruct (level_start level lv t vs ti prefix mp pins Hl Htab Hpl Hpins _ f HD m x Hst) as (b0 & Hst0 & Hb0). set (m0 := match level with O => m | _ => set_match m level false end) in *.
  assert (Hh0 : mj_tables m0 !! ti = Some (with_heap t h)) by (subst m0; by destruct level).
  pose proof (level_end level lv t vs prefix mp pins Hl Hpl Hpins _ f HD) as Hend. rewrite Hlo in Hend.
  destruct lv as [[left ra rb jm]|] eqn:Elv.
  - rewrite Hlo. specialize (Hb0 ltac:(done)). subst b0. destruct jm as [|src|src col].
    + destruct (scan_rows level (Some (mkLevel left ra rb JM_SCAN)) t vs ti a prefix mp pins Hl Hbase Htok Hp Hpl Hpins _ f HD m0 x false Hst0 eq_refl) as (m1 & b1 & Hs & Hst1 & Hb1).
      rewrite Hs. cbn [mbind option_bind]. apply (Hend m1 x b1 Hst1). auto.
    + destruct (index_rows level (Some (mkLevel left ra rb (JM_INDEX src))) t vs ti a prefix mp pins Hl Hbase Htok Hp Hpl Hpins _ f HD _ src h m0 x eq_refl eq_refl Hst0 Hh0 Ho Hfr) as (m1 & Hs & Hst1).
      rewrite Hs. cbn [mbind option_bind]. apply (Hend m1 x _ Hst1). auto.
    + destruct (hash_rows level (Some (mkLevel left ra rb (JM_HASH src col))) t vs a prefix mp pins Hl Htok Hp Hpl Hpins _ f HD _ src col m0 x eq_refl eq_refl Hst0) as (m1 & Hs & Hst1).
      rewrite Hs. cbn [mbind option_bind]. apply (Hend m1 x _ Hst1). auto.
  - rewrite Hlo. destruct (scan_rows level None t vs ti a prefix mp pins Hl Hbase Htok Hp Hpl Hpins _ f HD m0 x b0 Hst0 Logic.I) as (m1 & b1 & Hs & Hst1 & Hb1).
    rewrite Hs. cbn [mbind option_bind]. apply (Hend m1 x b1 Hst1). done.
Qed.
End Descend.
