(* ===== verification/JoinExec.v ===== *)
(** * Joins against the tables they read

    The plan of a join looks up the rows that its ON conditions select, the hash tables
    hold the visible rows, and the statement answers from a permutation of the join of
    the visible rows ([joined]), whatever method each level uses. *)
From stdpp Require Import strings sorting.
From S2P Require Import Prelude Page Pager BufPool Heap Lsm Btree SqlLex SqlParse Row Where Storage Parscan Lock Mvcc Txn Exec Select Nested Double Rowset Statements Aggregate Join JoinSpec.

(** ** Plans *)

Lemma col_index_bound cols col : forall i, col_index cols col = Some i -> (i < length cols)%nat.
Proof.
  induction cols as [|c cols IH]; intros i; [done|]. cbn [col_index length]. destruct (decide _) as [_|_]; [intros [= <-]; lia|].
  intros (j & Hj & ->)%fmap_Some. specialize (IH j Hj). lia.
Qed.

Lemma resolve_bounds chain qtbl col : forall i j, resolve_chain_ref chain qtbl col = Some (i, j) ->
  exists e, chain !! i = Some e /\ (j < length (c_columns e.1))%nat.
Proof.
  induction chain as [|[sc nm] chain IH]; intros i j; [done|]. cbn [resolve_chain_ref].
  assert (Hrest : prod_map S id <$> resolve_chain_ref chain qtbl col = Some (i, j) -> exists e, ((sc, nm) :: chain) !! i = Some e /\ (j < length (c_columns e.1))%nat).
  { intros ([i' j'] & Hr & [= -> ->])%fmap_Some. exact (IH _ _ Hr). }
  destruct (_ && _); [exact Hrest|]. destruct (col_index (c_columns sc) col) as [c|] eqn:E; [|exact Hrest].
  intros [= <- <-]. exists (sc, nm). split; [done|]. by eapply col_index_bound.
Qed.

(** The key of a lookup is the side of ON that the outer tables bind. *)
Definition sides (k : nat) (lv : Level) (col : nat) (src : nat * nat) : Prop :=
  (src.1 < k)%nat /\ (lv_a lv = (k, col) /\ lv_b lv = src \/ lv_b lv = (k, col) /\ lv_a lv = src).

Definition plan_ok (k : nat) (ix : bool) (lv : Level) : Prop :=
  match lv_method lv with
  | JM_SCAN => True
  | JM_INDEX src => sides k lv 0 src /\ ix = true
  | JM_HASH src col => sides k lv col src
  end.

Lemma plan_level_ok chain k ix jc lv : plan_level chain k ix jc = Some lv ->
  plan_ok k ix lv /\ lv_left lv = j_is_left jc /\
  resolve_chain_ref chain (j_l_tbl jc) (j_l_col jc) = Some (lv_a lv) /\ resolve_chain_ref chain (j_r_tbl jc) (j_r_col jc) = Some (lv_b lv).
Proof.
  unfold plan_level. destruct (resolve_chain_ref chain (j_l_tbl jc) _) as [[at_ ai]|]; [|done]. destruct (resolve_chain_ref chain (j_r_tbl jc) _) as [[bt bi]|]; [|done].
  cbn [mbind option_bind fst snd]. intros [= <-]. split; [|done]. unfold plan_ok, sides. cbn [lv_method lv_a lv_b].
  destruct (decide (at_ = k /\ _)) as [[-> Hlt]|_]; [|destruct (decide (bt = k /\ _)) as [[-> Hlt]|_]; [|done]];
    match goal with |- context [bool_decide (?c = O)] => destruct (bool_decide_reflect (c = O)) as [->|] end; destruct ix; cbn [andb]; auto 10.
Qed.

(** ** Every method finds the rows that satisfy ON *)

Lemma on_holds_sides k lv col src prefix r key : length prefix = k -> sides k lv col src -> cell_at_ref prefix src = Some key ->
  on_holds lv (prefix ++ [r]) = match r !! col with Some v => values_equal v key | None => false end.
Proof.
  intros Hk [Hlt Hs] Hkey. assert (Hown : cell_at_ref (prefix ++ [r]) (k, col) = r !! col).
  { unfold cell_at_ref. cbn [fst snd]. by rewrite lookup_app_r, Hk, Nat.sub_diag by lia. }
  assert (Hsrc : cell_at_ref (prefix ++ [r]) src = Some key) by (unfold cell_at_ref in *; by rewrite lookup_app_l by lia).
  unfold on_holds. destruct Hs as [[-> ->]|[-> ->]]; rewrite Hown, Hsrc; destruct (r !! col); try done. apply values_equal_sym.
Qed.

(** No two visible rows share an integer key in the first column. *)
Definition unique_keys (db : Database) (vs : list Version) : Prop :=
  forall z, (length (filter (fun r => r !! O = Some (VAL_INT z)) (visible_rows db vs)) <= 1)%nat.

Lemma option_list_head {A} (l : list A) : (length l <= 1)%nat -> option_list (head l) = l.
Proof. destruct l as [|x [|y l]]; cbn; try done; lia. Qed.

Lemma filter_fmap_rows {A B} (P : B -> Prop) `{!forall y, Decision (P y)} (f : A -> B) (l : list A) : filter P (f <$> l) = f <$> filter (fun x => P (f x)) l.
Proof.
  induction l as [|x l IH]; [done|]. rewrite fmap_cons, !filter_cons, IH. destruct (decide (P (f x))); [by rewrite fmap_cons|done].
Qed.

(** The versions of a key that are visible. *)
Lemma visible_key db vs z : v_row <$> filter (fun v => sees db v = true) (filter (fun v => key_sat (fun k => k =? z) 0 v = true) vs) =
  filter (fun r => r !! O = Some (VAL_INT z)) (visible_rows db vs).
Proof.
  unfold visible_rows. rewrite filter_fmap_rows, !list_filter_filter. f_equal. apply list_filter_iff. intros v. unfold key_sat.
  destruct (v_row v !! O) as [[k|s|]|]; [destruct (Z.eqb_spec k z)| | |]; naive_solver.
Qed.

Lemma first_int schema r : matches_row (c_columns schema) r = true -> cd_type <$> c_columns schema !! O = Some COL_INT ->
  match r !! O with Some (VAL_TEXT _) => False | _ => True end.
Proof.
  destruct (c_columns schema) as [|[nm ty pk] cols], r as [|[z|s|] r]; cbn; try done. by intros Hm [= ->].
Qed.

Lemma join_perm {A B} (f g : A -> list B) (l l' : list A) : l ≡ₚ l' -> (forall x, x ∈ l -> f x ≡ₚ g x) -> mjoin (f <$> l) ≡ₚ mjoin (g <$> l').
Proof.
  intros Hp Hf. rewrite <- Hp. clear l' Hp. induction l as [|x l IH]; [done|]. rewrite !fmap_cons, !join_cons. rewrite (Hf x) by left.
  apply Permutation_app_head, IH. intros y Hy. apply Hf. by right.
Qed.

Section Permutes.
Context {H I J : Type} `{RecordStoreLaws H} `{!NestedStore H} `{!NestedStoreLaws H} `{MultiIndexLaws I} `{!PointIndex I} `{!PointIndexLaws I}.
Context (q : MQuery) (n : nat) (base : list (Table H I J * rs_abs * list Version)) (lvls : list (option Level * Table H I J * list Version)).
Context (Hlvls : forall k e, lvls !! k = Some e -> level_ok q n base lvls k e) (Hlen : length lvls = length (mq_tabs q)).

Lemma seen_row_good (t : Table H I J) a vs r : table_ok q t a vs -> r ∈ visible_rows (mq_db q) vs -> good_row (t_schema t) r.
Proof.
  intros [_ Hst _ _] (v & -> & [_ Hv]%list_elem_of_filter)%list_elem_of_fmap. destruct (stores_elem _ _ _ _ Hst Hv) as (rec & _ & Hs). apply Hs.
Qed.

(** A level that looks rows up by primary key can rely on it. *)
Definition key_ready (t : Table H I J) (vs : list Version) : Prop :=
  cd_type <$> c_columns (t_schema t) !! O = Some COL_INT /\ unique_keys (mq_db q) vs.

Context (Hplan : forall k lv t vs, lvls !! k = Some (Some lv, t, vs) -> plan_ok k true lv /\ (forall src, lv_method lv = JM_INDEX src -> key_ready t vs)).

Lemma found_perm k lv t vs prefix : lvls !! k = Some (Some lv, t, vs) -> prefix_ok lvls prefix -> length prefix = k ->
  found (mq_db q) lv t vs prefix ≡ₚ filter (fun r => on_holds lv (prefix ++ [r]) = true) (visible_rows (mq_db q) vs).
Proof.
  intros Hl Hp Hk. destruct (Hlvls _ _ Hl) as (_ & (ti & a & _ & Hb & Htok) & Hrefs). destruct (Hrefs _ eq_refl) as (_ & _ & Hmeth).
  destruct (Hplan _ _ _ _ Hl) as [Hpl Hready]. unfold plan_ok in Hpl. unfold found. destruct (lv_method lv) as [|src|src col] eqn:Em; [done|..].
  - destruct Hpl as [Hs _]. destruct Hmeth as (Hlt & Hsrc & Hix & Hus). destruct (Hready _ eq_refl) as [Hint Huniq].
    destruct (prefix_cell q lvls Hlen prefix k src Hp ltac:(lia) Hsrc) as [key Hkey]. rewrite Hkey.
    assert (Hon : forall r, on_holds lv (prefix ++ [r]) = match r !! O with Some v => values_equal v key | None => false end) by (intros r; by eapply on_holds_sides).
    destruct key as [z|s|].
    + destruct (entries_spec n t vs z Hix Hus) as (us & -> & Hperm & _). destruct (to_rids _ _ _ _ Htok) as [Hnd Had].
      rewrite (found_index q t a vs (to_schema _ _ _ _ Htok) (to_stores _ _ _ _ Htok) Hnd Had us) by (intros v Hv; rewrite Hperm in Hv; by apply list_elem_of_filter in Hv as [_ Hv]).
      assert (Hrows : v_row <$> filter (fun v => sees (mq_db q) v = true) us ≡ₚ filter (fun r => r !! O = Some (VAL_INT z)) (visible_rows (mq_db q) vs)) by (rewrite <- visible_key; by rewrite Hperm).
      rewrite option_list_head by (rewrite Hrows; apply Huniq). rewrite Hrows. rewrite (list_filter_iff _ (fun r => on_holds lv (prefix ++ [r]) = true)); [done|].
      intros r. rewrite Hon. split; [intros ->; unfold values_equal, compare_values, int_sign; by rewrite Z.ltb_irrefl|]. destruct (r !! O); [|done]. by intros ->%values_equal_eq.
    + rewrite filter_none; [done|]. intros r Hr. rewrite Hon. destruct (r !! O) as [v|] eqn:Er; [|done]. intros ->%values_equal_eq.
      destruct (seen_row_good t a vs r Htok Hr) as [Hm _]. pose proof (first_int _ _ Hm Hint) as Hf. by rewrite Er in Hf.
    + rewrite filter_none; [done|]. intros r Hr. rewrite Hon. destruct (r !! O) as [[]|]; done.
  - destruct Hmeth as (Hlt & Hsrc & Hcol & _). destruct (prefix_cell q lvls Hlen prefix k src Hp ltac:(lia) Hsrc) as [key Hkey]. rewrite Hkey, (reverse_Permutation (visible_rows _ _)).
    rewrite (list_filter_iff _ (fun r => on_holds lv (prefix ++ [r]) = true)); [done|]. intros r. by rewrite (on_holds_sides _ _ _ _ _ _ _ Hk Hpl Hkey).
Qed.
Lemma enumerate_perm k lv t vs prefix : lvls !! k = Some (lv, t, vs) -> prefix_ok lvls prefix -> length prefix = k ->
  enumerate (mq_db q) lv t vs prefix ≡ₚ extend lv (width t) prefix (visible_rows (mq_db q) vs).
Proof.
  intros Hl Hp Hk. destruct lv as [lv|]; [|done]. pose proof (found_perm k lv t vs prefix Hl Hp Hk) as Hf. unfold enumerate, extend. fold (width t).
  set (rows := filter _ _) in *. destruct (lv_left lv); [|done]. destruct (bool_decide_reflect (rows = [])) as [E|E]; cbn [andb].
  - rewrite E in Hf. apply Permutation_nil_r in Hf. by rewrite Hf.
  - rewrite bool_decide_eq_false_2; [done|]. intros E'. rewrite E' in Hf. by apply Permutation_nil_l in Hf.
Qed.

Lemma extend_fits k lv t vs prefix r : lvls !! k = Some (lv, t, vs) -> r ∈ extend lv (width t) prefix (visible_rows (mq_db q) vs) -> fits_width (width t) r.
Proof.
  intros Hl Hr. destruct (Hlvls _ _ Hl) as (_ & (ti & a & _ & _ & Htok) & _). destruct lv as [lv|]; cbn [extend] in Hr; [|by eapply visible_fits].
  destruct (_ && _).
  - apply list_elem_of_singleton in Hr as ->. split; [apply length_replicate|by apply Forall_replicate].
  - apply list_elem_of_filter in Hr as [_ Hr]. by eapply visible_fits.
Qed.

(** A level as the join of the visible rows sees it. *)
Definition seen_level (e : option Level * Table H I J * list Version) : option Level * nat * list (list Value) :=
  (e.1.1, width e.1.2, visible_rows (mq_db q) e.2).

Lemma visited_perm chain w : forall k prefix, (length prefix + k = length lvls)%nat -> prefix_ok lvls prefix ->
  visited (mq_db q) chain w (drop (length prefix) lvls) prefix ≡ₚ joined chain w (seen_level <$> drop (length prefix) lvls) prefix.
Proof.
  induction k as [|k IH]; intros prefix Hk Hp; [by rewrite drop_ge by lia|].
  destruct (lookup_lt_is_Some_2 lvls (length prefix)) as [[[lv t] vs] Hl]; [lia|]. rewrite (drop_S _ _ _ Hl), fmap_cons. cbn [visited joined seen_level fst snd].
  pose proof (enumerate_perm _ _ _ _ _ Hl Hp eq_refl) as He. apply join_perm; [exact He|]. intros r Hr. rewrite He in Hr.
  specialize (IH (prefix ++ [r])). rewrite length_app, Nat.add_1_r in IH. apply IH; [lia|]. eapply prefix_snoc; [done|done|]. by eapply extend_fits.
Qed.
End Permutes.

(** ** The hash tables hold the visible rows *)

Section Build.
Context {H I J : Type} `{RecordStoreLaws H} `{!NestedStore H} `{!NestedStoreLaws H}.
Context (db : Database) (unset : Z) (n : nat) (base : list (Table H I J * rs_abs * list Version)).

Definition hbuild_step (schema : CreateStmt) (col : nat) (rid : RID) (rec : bytes) (ht : HashTab) : HashTab * Z := default (ht, 0) (hbuild_visit db schema col unset rid rec ht).

Lemma hbuild_stored schema col v e ht : schema_ok schema -> stores schema v e -> (col < length (c_columns schema))%nat ->
  hbuild_visit db schema col unset e.1 e.2 ht =
  Some (if sees db v then match v_row v !! col with Some key => hash_insert unset ht key (v_row v) | None => ht end else ht, 0).
Proof.
  intros Hsc Hs Hcol. pose proof Hs as (_ & Hrow & [Hm _] & Hmin & Hmax). destruct (row_rep_head _ _ _ _ _ Hrow Hmin Hmax) as [E1 E2].
  unfold hbuild_visit. rewrite E1, E2. cbn [mbind option_bind]. unfold sees. destruct (rec_visible _ _ _); cbn [negb]; [|done].
  rewrite (stores_decode _ _ _ Hsc Hs). cbn [mbind option_bind].
  destruct (lookup_lt_is_Some_2 (v_row v) col) as [key ->]; [|done]. by rewrite (matches_row_length _ _ Hm).
Qed.

Lemma hbuild_all schema col vs rows : schema_ok schema -> (col < length (c_columns schema))%nat -> Forall2 (stores schema) vs rows -> forall ht,
  visit_all (hbuild_step schema col) rows ht =
  (foldl (fun ht r => match r !! col with Some key => hash_insert unset ht key r | None => ht end) ht (visible_rows db vs), 0).
Proof.
  intros Hsc Hcol. induction 1 as [|v [rid rec] vs rows Hv _ IH]; intros ht; [done|]. cbn [visit_all]. unfold hbuild_step at 1. 
  pose proof (hbuild_stored _ _ _ _ ht Hsc Hv Hcol) as E. cbn [fst snd] in E. rewrite E. cbn [from_option id Z.eqb].
  unfold visible_rows. rewrite filter_cons. destruct (sees db v); [rewrite decide_True by done|rewrite decide_False by done]; apply IH.
Qed.

Lemma hash_build_ok (t : Table H I J) a vs col h : schema_ok (t_schema t) -> Forall2 (stores (t_schema t)) vs (rs_rows a) -> (col < width t)%nat ->
  rs_open n [] h a -> (0 < rs_frames h)%nat ->
  exists h', hash_build db (with_heap t h) col unset = Some (with_heap t h', hash_of unset col (visible_rows db vs)) /\
    rs_open n [] h' a /\ rs_frames h' = rs_frames h.
Proof.
  intros Hsc Hst Hcol Ho Hf. unfold hash_build.
  destruct (law_open_nested HashTab HashTab eq
    (fun rid rec h ht => '(ht, r) ← hbuild_visit db (t_schema t) col unset rid rec ht; Some (h, ht, r)) (hbuild_step (t_schema t) col) n [] h a hash_empty hash_empty Ho Hf eq_refl)
    as (h' & ht & Hs & -> & Ho' & Hf').
  - intros pin h1 ht x rid rec Hin Ho1 Hf1 ->. apply list_elem_of_lookup in Hin as [i Hi]. destruct (Forall2_lookup_r _ _ _ _ _ Hst Hi) as (v & _ & Hv).
    pose proof (hbuild_stored _ _ _ _ x Hsc Hv Hcol) as E. cbn [fst snd] in E. unfold hbuild_step. rewrite E. cbn. eauto 10.
  - exists h'. cbn [t_schema t_heap with_heap]. rewrite Hs. cbn [mbind option_bind]. rewrite (hbuild_all _ _ _ _ Hsc Hcol Hst). done.
Qed.

Definition no_pins : nat -> Pins := fun _ => [].

Lemma build_tables_ok : forall tabs methods ts hs, tables_open n base no_pins ts -> length methods = length tabs ->
  (forall j ti src col, tabs !! j = Some ti -> methods !! j = Some (JM_HASH src col) ->
    exists t a vs, base !! ti = Some (t, a, vs) /\ schema_ok (t_schema t) /\ Forall2 (stores (t_schema t)) vs (rs_rows a) /\ (col < width t)%nat /\ (0 < rs_frames (t_heap t))%nat) ->
  exists ts' hs', build_tables db unset ts tabs methods hs = Some (ts', hs ++ hs') /\ tables_open n base no_pins ts' /\ length hs' = length tabs /\
    forall j ti src col t a vs, tabs !! j = Some ti -> methods !! j = Some (JM_HASH src col) -> base !! ti = Some (t, a, vs) ->
      hs' !! j = Some (hash_of unset col (visible_rows db vs)).
Proof.
  induction tabs as [|ti tabs IH]; intros [|jm methods] ts hs Hts Hlen Hall; try done.
  { exists ts, []. by rewrite app_nil_r. }
  injection Hlen as Hlen.
  assert (Hstep : forall ts1 ht, tables_open n base no_pins ts1 -> (forall src col t a vs, jm = JM_HASH src col -> base !! ti = Some (t, a, vs) -> ht = hash_of unset col (visible_rows db vs)) ->
    exists ts' hs', build_tables db unset ts1 tabs methods (hs ++ [ht]) = Some (ts', hs ++ hs') /\ tables_open n base no_pins ts' /\ length hs' = S (length tabs) /\
      forall j ti' src col t a vs, (ti :: tabs) !! j = Some ti' -> (jm :: methods) !! j = Some (JM_HASH src col) -> base !! ti' = Some (t, a, vs) ->
        hs' !! j = Some (hash_of unset col (visible_rows db vs))).
  { intros ts1 ht Hts1 Hht. destruct (IH methods ts1 (hs ++ [ht]) Hts1 Hlen) as (ts' & hs' & Hb & Hts' & Hl' & Hh); [intros j; exact (Hall (S j))|].
    exists ts', (ht :: hs'). rewrite Hb, <- app_assoc. split; [done|]. split; [done|]. split; [cbn [length]; by rewrite Hl'|].
    intros [|j] ti' src col t a vs; [intros [= <-] [= E] Hb0; cbn; by rewrite (Hht _ _ _ _ _ E Hb0)|apply Hh]. }
  destruct jm as [|src|src col]; [apply Hstep; done..|].
  destruct (Hall O _ _ _ eq_refl eq_refl) as (t & a & vs & Hb & Hsc & Hst & Hcol & Hfr). pose proof Hts as Hts0. apply (tables_same n base ti) in Hts0.
  destruct (tables_take _ _ _ _ _ _ _ _ _ Hb Hts0) as [Hbut (h & Hh & Ho & Hf)].
  destruct (hash_build_ok t a vs col h Hsc Hst Hcol Ho ltac:(lia)) as (h' & Hbuild & Ho' & Hf'). cbn [build_tables]. rewrite Hh. cbn [mbind option_bind]. rewrite Hbuild. cbn [mbind option_bind].
  apply Hstep; [|intros src' col' t' a' vs' [= <- <-]; rewrite Hb; by intros [= _ _ <-]].
  apply (tables_same n base ti). replace (<[ti := with_heap t h']> ts) with (alter (fun t => with_heap t h') ti ts).
  - eapply tables_put; [done|exact Hbut|exact Ho'|congruence].
  - apply list_eq. intros i. destruct (decide (i = ti)) as [->|Hne]; [|by rewrite list_lookup_alter_ne, list_lookup_insert_ne].
    rewrite list_lookup_alter_eq, Hh, list_lookup_insert_eq; [done|by eapply lookup_lt_Some].
Qed.
End Build.

(** ** Rows of a join have the columns of its tables *)

Lemma joined_shape chain w lvs : forall prefix row, row ∈ joined chain w lvs prefix ->
  exists rs, row = mjoin (prefix ++ rs) /\ Forall2 (fun e r => r ∈ e.2 \/ r = replicate e.1.2 VAL_NULL) lvs rs.
Proof.
  induction lvs as [|[[lv wd] rows] lvs IH]; intros prefix row; cbn [joined].
  - destruct (default false _); [|by intros ?%elem_of_nil]. intros ->%list_elem_of_singleton. exists []. by rewrite app_nil_r.
  - intros (l & Hrow & Hl)%list_elem_of_join. apply list_elem_of_fmap in Hl as (r & -> & Hr). destruct (IH _ _ Hrow) as (rs & -> & Hrs).
    exists (r :: rs). rewrite <- app_assoc. split; [done|]. constructor; [|done]. cbn [fst snd]. destruct lv as [lv|]; [|by left]. cbn [extend] in Hr.
    destruct (_ && _); [right; by apply list_elem_of_singleton|left; by apply list_elem_of_filter in Hr as [_ Hr]].
Qed.

Lemma nulls_typed schema tname : typed_row (cr_is_int <$> cols_of schema tname) (replicate (length (c_columns schema)) VAL_NULL).
Proof. unfold cols_of. induction (c_columns schema) as [|c cols IH]; [constructor|]. rewrite !fmap_cons. by constructor. Qed.

Lemma join_cols_typed (chain : Chain) rs : Forall2 (fun e r => typed_row (cr_is_int <$> cols_of e.1 e.2) r) chain rs -> typed_row (cr_is_int <$> join_cols chain) (mjoin rs).
Proof.
  unfold join_cols. induction 1 as [|e r chain rs Hr _ IH]; [constructor|]. rewrite fmap_cons, !join_cons, fmap_app. by apply Forall2_app.
Qed.

Lemma comb_pos_bound (chain : Chain) : forall i j e, chain !! i = Some e -> (j < length (c_columns e.1))%nat -> (comb_pos chain (i, j) < length (join_cols chain))%nat.
Proof.
  unfold comb_pos, join_cols. induction chain as [|e0 chain IH]; intros i j e Hi Hj; [done|]. rewrite fmap_cons, join_cons, length_app, length_fmap.
  destruct i as [|i]; [injection Hi as ->; change (j < length (c_columns e.1) + length (mjoin ((fun e => (fun c => mkColRef e.2 (cd_name c) match cd_type c with COL_INT => true | COL_TEXT => false end) <$> c_columns e.1) <$> chain)))%nat; lia|].
  specialize (IH i j e Hi Hj). cbn [fst snd take] in *. rewrite fmap_cons. 
  change (sum_list (length (c_columns e0.1) :: ((fun e => length (c_columns e.1)) <$> take i chain))) with (length (c_columns e0.1) + sum_list ((fun e => length (c_columns e.1)) <$> take i chain))%nat. lia.
Qed.

Lemma join_key_bound chain ok k : join_key chain ok = Some k -> (k.1 < length (join_cols chain))%nat.
Proof.
  unfold join_key. destruct (Z.ltb_spec 0 (o_pos ok)).
  - destruct (Z.ltb_spec (Z.of_nat (length (join_cols chain))) (o_pos ok)); [done|]. intros [= <-]. cbn [fst]. lia.
  - destruct (resolve_chain_ref chain _ _) as [[i j]|] eqn:E; [|done]. intros [= <-]. destruct (resolve_bounds _ _ _ _ _ E) as (e & He & Hj). by eapply comb_pos_bound.
Qed.

(** ** The statement *)

Section Statement.
Context {H I J : Type} `{RecordStoreLaws H} `{!NestedStore H} `{!NestedStoreLaws H} `{MultiIndexLaws I} `{!PointIndex I} `{!PointIndexLaws I} `{MultiIndexLaws J} `{QSort}.

(** The tables of a database, each with its shape and its versions. *)
Definition holds_all (n : nat) (ts : list (Table H I J)) (abs : list (Shape * list Version)) : Prop := Forall2 (fun t s => table_rep s.1 n t s.2) ts abs.

(** What the join of a statement relies on: the tables of the chain and their plan, a frame of
    the pool for every level, ON conditions on the tables bound so far, and primary keys
    that are integers and unique where rows are looked up by them. *)
Record join_ready (n : nat) (ts : list (Table H I J)) (abs : list (Shape * list Version)) (db : Database) (h : SelectHead)
  (tabs : list nat) (tables : list (Table H I J)) (views : list (Shape * list Version)) (levels : list Level) : Prop := {
  jr_holds : holds_all n ts abs;
  jr_tabs : mapM (find_table ts) (s_table h :: (j_table <$> s_joins h)) = Some tabs;
  jr_here : mapM (fun i => ts !! i) tabs = Some tables;
  jr_views : mapM (fun i => abs !! i) tabs = Some views;
  jr_levels : levels_of (chain_of tables h) tables h = Some levels;
  jr_frames : Forall (fun t => length tabs <= rs_frames (t_heap t))%nat ts;
  jr_bound : forall k lv, levels !! k = Some lv -> ((lv_a lv).1 <= S k /\ (lv_b lv).1 <= S k)%nat;
  jr_keys : forall k lv src t v, levels !! k = Some lv -> lv_method lv = JM_INDEX src -> tables !! S k = Some t -> views !! S k = Some v ->
    pk_usable (t_index t) = true /\ cd_type <$> c_columns (t_schema t) !! O = Some COL_INT /\ unique_keys db v.2 }.

(** The rows that the statement is about: the join of what it sees in each table. *)
Definition join_rows (db : Database) (h : SelectHead) (w : Where) (tables : list (Table H I J)) (views : list (Shape * list Version)) (levels : list Level) : list (list Value) :=
  joined (chain_of tables h) w
    (zip_with (fun lv v => (lv, length (c_columns (sh_schema v.1)), visible_rows db v.2)) (None :: (Some <$> levels)) views) [].

(** What is printed of all rows of the join, in the order they are found. *)
Definition join_answer (h : SelectHead) (chain : Chain) (all : list (list Value)) : option JOut :=
  if negb (s_star h) then JAgg <$> aggregate_rowset h (take SELECT_MAX_ROWS all) (join_cols chain)
  else if bool_decide (s_order h = []) && (s_offset h =? 0) then
    Some (JRows (if 0 <=? s_limit h then take (Z.to_nat (s_limit h `max` 1)) all else all))
  else match mapM (join_key chain) (s_order h) with
       | None => Some JError
       | Some keys =>
           rows ← (match keys with [] => Some (take SELECT_MAX_ROWS all) | _ => sort_rows keys (take SELECT_MAX_ROWS all) end);
           Some (JRows (limited (s_limit h) (drop (Z.to_nat (s_offset h)) rows)))
       end.

Lemma base_of n ts abs (ntabs : nat) : holds_all n ts abs -> Forall (fun t => ntabs <= rs_frames (t_heap t))%nat ts ->
  exists base : list (Table H I J * rs_abs * list Version), base.*1.*1 = ts /\ base.*2 = abs.*2 /\
    forall i t a vs, base !! i = Some (t, a, vs) -> rs_open n [] (t_heap t) a /\ (0 < rs_frames (t_heap t))%nat /\ (ntabs <= rs_frames (t_heap t))%nat /\
      schema_ok (t_schema t) /\ Forall2 (stores (t_schema t)) vs (rs_rows a) /\ exists sh, abs !! i = Some (sh, vs) /\ table_rep sh n t vs.
Proof.
  induction 1 as [|t [sh vs] ts abs Ht _ IH]; intros Hf; [by exists []|]. inversion_clear Hf as [|? ? Hf1 Hf2]. destruct (IH Hf2) as (base & E1 & E2 & Hall).
  pose proof Ht as (Hsh & [Hsc _] & (rows & Hr & Hst) & _). apply law_open in Hr as (a & -> & Ho & Hpos). cbn [fst snd] in *.
  exists ((t, a, vs) :: base). rewrite !fmap_cons, E1, E2. split; [done|]. split; [done|]. rewrite <- Hsh in Hsc, Hst.
  intros [|i] t' a' vs'; [|apply Hall]. intros [= <- <- <-]. do 5 (split; [done|]). by exists sh.
Qed.

Lemma tables_at_rest n (base : list (Table H I J * rs_abs * list Version)) : (forall i t a vs, base !! i = Some (t, a, vs) -> rs_open n [] (t_heap t) a) ->
  tables_open n base no_pins base.*1.*1.
Proof.
  intros Ho. split; [by rewrite !length_fmap|]. intros i t a vs Hi. exists (t_heap t). split; [|by split; [eapply Ho|]].
  rewrite !list_lookup_fmap, Hi. cbn. by destruct t.
Qed.

Lemma close_tables n (base : list (Table H I J * rs_abs * list Version)) abs ts : length base = length abs ->
  (forall i t a vs, base !! i = Some (t, a, vs) -> (0 < rs_frames (t_heap t))%nat /\ Forall2 (stores (t_schema t)) vs (rs_rows a) /\ exists sh, abs !! i = Some (sh, vs) /\ table_rep sh n t vs) ->
  tables_open n base no_pins ts -> holds_all n ts abs.
Proof.
  intros Hlen Hall [Hl Hts]. apply Forall2_same_length_lookup. split; [congruence|]. intros i t [sh vs] Ht Ha. 
  destruct (lookup_lt_is_Some_2 base i) as [[[t0 a] vs0] Hb]; [rewrite Hlen; by eapply lookup_lt_Some|].
  destruct (Hall _ _ _ _ Hb) as (Hpos & Hst & sh' & Ha' & Hrep). rewrite Ha in Ha'. injection Ha' as <- <-.
  destruct (Hts _ _ _ _ Hb) as (h & Hh & Ho & Hf); [done|]. rewrite Ht in Hh. injection Hh as ->. destruct Hrep as (Hs & Hok & _ & Hix). split; [done|]. split; [done|]. split; [|done].
  exists (rs_rows a). split; [|by rewrite <- Hs]. apply law_open. exists a. split; [done|]. split; [done|]. cbn. lia.
Qed.

Section Ready.
Context (n : nat) (ts : list (Table H I J)) (abs : list (Shape * list Version)) (db : Database) (h : SelectHead) (tabs : list nat)
  (tables : list (Table H I J)) (views : list (Shape * list Version)) (levels : list Level).
Context (Hready : join_ready n ts abs db h tabs tables views levels).
Let chain := chain_of tables h.

Lemma ready_lengths : length tabs = S (length (s_joins h)) /\ length tables = length tabs /\ length views = length tabs /\ length levels = length (s_joins h).
Proof.
  destruct Hready as [_ Ht Hh Hv Hl _ _ _]. apply length_mapM in Ht, Hh, Hv, Hl. cbn [length] in Ht. rewrite length_fmap in Ht.
  rewrite length_imap, length_zip_with, length_fmap in Hl. destruct tables; cbn [tail length] in *; lia.
Qed.

Lemma level_plan k lv : levels !! k = Some lv -> exists t jc, tables !! S k = Some t /\ s_joins h !! k = Some jc /\ plan_level chain (S k) (has_index t) jc = Some lv.
Proof.
  intros Hk. pose proof (jr_levels _ _ _ _ _ _ _ _ _ Hready) as Hl. unfold levels_of in Hl. rewrite mapM_Some in Hl.
  destruct (Forall2_lookup_r _ _ _ _ _ Hl Hk) as ([k' [ix jc]] & Hx & Hp). rewrite list_lookup_imap in Hx. apply fmap_Some in Hx as (y & Hy & [= -> <-]).
  apply lookup_zip_Some in Hy as [Hi Hj]. rewrite list_lookup_fmap, lookup_tail in Hi. apply fmap_Some in Hi as (t & Ht & ->). by exists t, jc.
Qed.

Lemma chain_table i e : chain !! i = Some e -> exists t, tables !! i = Some t /\ e.1 = t_schema t.
Proof.
  unfold chain, chain_of. intros Hc. apply lookup_zip_with_Some in Hc as (t & al & -> & Ht & _). by exists t.
Qed.

Context (base : list (Table H I J * rs_abs * list Version)) (bases : list (Table H I J * rs_abs * list Version)).
Context (Hts : base.*1.*1 = ts) (Hvs : base.*2 = abs.*2) (Hbases : mapM (fun i => base !! i) tabs = Some bases).
Context (Hall : forall i t a vs, base !! i = Some (t, a, vs) -> rs_open n [] (t_heap t) a /\ (0 < rs_frames (t_heap t))%nat /\ (length tabs <= rs_frames (t_heap t))%nat /\
  schema_ok (t_schema t) /\ Forall2 (stores (t_schema t)) vs (rs_rows a) /\ exists sh, abs !! i = Some (sh, vs) /\ table_rep sh n t vs).

Definition plan_levels : list (option Level * Table H I J * list Version) := zip_with (fun lv b => (lv, b.1.1, b.2)) (None :: (Some <$> levels)) bases.

Lemma bases_lookup k t a vs : bases !! k = Some (t, a, vs) ->
  exists ti sh, tabs !! k = Some ti /\ base !! ti = Some (t, a, vs) /\ tables !! k = Some t /\ views !! k = Some (sh, vs) /\ table_rep sh n t vs.
Proof.
  intros Hk. pose proof Hbases as Hm. rewrite mapM_Some in Hm. destruct (Forall2_lookup_r _ _ _ _ _ Hm Hk) as (ti & Hti & Hb).
  destruct (Hall _ _ _ _ Hb) as (_ & _ & _ & _ & _ & sh & Ha & Hrep). exists ti, sh. do 2 (split; [done|]).
  destruct Hready as [_ _ Hh Hv _ _ _ _]. rewrite mapM_Some in Hh. rewrite mapM_Some in Hv.
  destruct (Forall2_lookup_l _ _ _ _ _ Hh Hti) as (t' & Ht' & E). rewrite <- Hts, !list_lookup_fmap, Hb in E. injection E as <-.
  destruct (Forall2_lookup_l _ _ _ _ _ Hv Hti) as (v' & Hv' & E). rewrite Ha in E. injection E as <-. done.
Qed.

Lemma plan_length : length plan_levels = length tabs /\ length bases = length tabs.
Proof.
  pose proof ready_lengths. apply length_mapM in Hbases as Hl. unfold plan_levels. rewrite length_zip_with. cbn [length]. rewrite length_fmap. lia.
Qed.

Lemma plan_lookup k lv t vs : plan_levels !! k = Some (lv, t, vs) ->
  exists a ti sh, bases !! k = Some (t, a, vs) /\ tabs !! k = Some ti /\ base !! ti = Some (t, a, vs) /\ tables !! k = Some t /\ views !! k = Some (sh, vs) /\
    table_rep sh n t vs /\ lv = match k with O => None | S k => levels !! k end.
Proof.
  unfold plan_levels. intros Hk. apply lookup_zip_with_Some in Hk as (o & [[t' a] vs'] & [= -> -> ->] & Ho & Hb). destruct (bases_lookup _ _ _ _ Hb) as (ti & sh & ? & ? & ? & ? & ?).
  exists a, ti, sh. do 6 (split; [done|]). destruct k as [|k]; [by injection Ho as <-|]. change ((Some <$> levels) !! k = Some o) in Ho. rewrite list_lookup_fmap in Ho. apply fmap_Some in Ho as (? & -> & ->). done.
Qed.

Lemma plan_seen q : mq_db q = db -> seen_level q <$> plan_levels =
  zip_with (fun lv v => (lv, length (c_columns (sh_schema v.1)), visible_rows db v.2)) (None :: (Some <$> levels)) views.
Proof.
  intros Hq. assert (Hrel : Forall2 (fun b v => t_schema b.1.1 = sh_schema v.1 /\ b.2 = v.2) bases views).
  { apply Forall2_same_length_lookup. destruct plan_length as [_ El]. pose proof ready_lengths as (_ & _ & Ev & _). split; [congruence|].
    intros i [[t a] vs] v Hb Hv. destruct (bases_lookup _ _ _ _ Hb) as (ti & sh & _ & _ & _ & Hv' & Hrep). rewrite Hv in Hv'. injection Hv' as ->. destruct Hrep as [<- _]. done. }
  unfold plan_levels. clear Hready Hbases. generalize (None :: (Some <$> levels)). induction Hrel as [|[[t a] vs] [sh vs'] bs vws [E1 E2] _ IH]; intros [|o os]; try done.
  cbn [zip_with]. rewrite fmap_cons, IH. unfold seen_level at 1. cbn [fst snd] in *. unfold width. by rewrite E1, E2, Hq.
Qed.

Section Query.
Context (w : Where) (unset : Z) (mat : bool) (hs : list HashTab).
Let q := mkMQ db chain tabs levels hs w (s_limit h) mat unset.
Context (Hhs : forall j ti src col t a vs, tabs !! j = Some ti -> (JM_SCAN :: (lv_method <$> levels)) !! j = Some (JM_HASH src col) -> base !! ti = Some (t, a, vs) ->
  hs !! j = Some (hash_of unset col (visible_rows db vs))).

Lemma plan_ref k ref tbl col : (ref.1 <= k)%nat -> resolve_chain_ref chain tbl col = Some ref -> ref_ok plan_levels k ref.
Proof.
  destruct ref as [i j]. cbn [fst]. intros Hk Hr. destruct (resolve_bounds _ _ _ _ _ Hr) as (e & He & Hj). destruct (chain_table _ _ He) as (t & Ht & Esc).
  destruct (lookup_lt_is_Some_2 plan_levels i) as [[[lv t'] vs] Hl].
  { destruct plan_length as [-> _]. pose proof ready_lengths as (_ & <- & _). by eapply lookup_lt_Some. }
  destruct (plan_lookup _ _ _ _ Hl) as (? & ? & ? & _ & _ & _ & Ht' & _). rewrite Ht in Ht'. injection Ht' as <-. exists lv, t, vs. unfold width. rewrite <- Esc. done.
Qed.

Lemma plan_level_all k lv t vs : plan_levels !! k = Some (Some lv, t, vs) ->
  plan_ok k (has_index t) lv /\ ref_ok plan_levels k (lv_a lv) /\ ref_ok plan_levels k (lv_b lv) /\
  (forall src, lv_method lv = JM_INDEX src -> pk_usable (t_index t) = true /\ key_ready q t vs).
Proof.
  intros Hk. destruct (plan_lookup _ _ _ _ Hk) as (a & ti & sh & _ & _ & _ & Ht & Hv & _ & Hlv). destruct k as [|k]; [done|]. symmetry in Hlv.
  destruct (level_plan _ _ Hlv) as (t' & jc & Ht' & Hj & Hp). rewrite Ht in Ht'. injection Ht' as <-. destruct (plan_level_ok _ _ _ _ _ Hp) as (Hok & _ & Ha & Hb).
  destruct (jr_bound _ _ _ _ _ _ _ _ _ Hready _ _ Hlv) as [Hba Hbb]. split; [done|]. split; [by eapply plan_ref|]. split; [by eapply plan_ref|].
  intros src Hm. destruct (jr_keys _ _ _ _ _ _ _ _ _ Hready _ _ _ _ _ Hlv Hm Ht Hv) as (? & ? & ?). done.
Qed.

Lemma plan_levels_ok k e : plan_levels !! k = Some e -> level_ok q n base plan_levels k e.
Proof.
  destruct e as [[lv t] vs]. intros Hk. destruct (plan_lookup _ _ _ _ Hk) as (a & ti & sh & _ & Hti & Hb & Ht & Hv & Hrep & Hlv).
  destruct (Hall _ _ _ _ Hb) as (_ & _ & Hfr & Hsc & Hst & _). split; [by rewrite Hlv; destruct k|]. split.
  { exists ti, a. split; [done|]. split; [done|]. split; [done|done|exact (table_rids _ _ _ _ Hrep)|done]. }
  intros lv' ->. destruct (plan_level_all _ _ _ _ Hk) as (Hok & Ha & Hrb & Hkey). split; [done|]. split; [done|]. destruct k as [|k]; [done|]. symmetry in Hlv.
  unfold plan_ok in Hok. unfold method_ok. destruct (lv_method lv') as [|src|src col] eqn:Em; [done|..].
  - destruct Hok as [[Hlt Hs] Hix]. destruct (Hkey _ eq_refl) as [Hus _]. split; [done|]. split; [by destruct Hs as [[_ <-]|[_ <-]]|]. split; [|done].
    destruct Hrep as (_ & _ & _ & Hi & _). by apply Hi.
  - destruct Hok as [Hlt Hs]. split; [done|]. split; [by destruct Hs as [[_ <-]|[_ <-]]|].
    assert (Hown : ref_ok plan_levels (S k) (S k, col)) by (by destruct Hs as [[<- _]|[<- _]]). split.
    + destruct Hown as (lv0 & t0 & vs0 & _ & E & Hc). cbn [fst snd] in *. rewrite Hk in E. by injection E as _ <- _.
    + cbn [mq_hash q mq_unset mq_db]. eapply (Hhs (S k) ti src col t a vs); [done| |done]. change ((lv_method <$> levels) !! k = Some (JM_HASH src col)). by rewrite list_lookup_fmap, Hlv, <- Em.
Qed.

(** Running the join collects, or prints, what it visits. *)
Lemma join_run ts1 : tables_open n base no_pins ts1 ->
  exists m z, mjoin_descend q (length tabs) 0 (start_join chain ts1) = Some (m, z) /\ tables_open n base no_pins (mj_tables m) /\
    mj_out m = (push mat (s_limit h) [] (visited db chain w plan_levels [])).1.
Proof.
  intros Ht1. destruct plan_length as [Hpl _].
  assert (Hst : st q (tables_open n base no_pins) 0 [] [] (start_join chain ts1) []).
  { assert (Hc : length chain = length tabs).
    { unfold chain, chain_of. rewrite length_zip_with. cbn [length]. rewrite length_fmap. pose proof ready_lengths. lia. }
    split; cbn; [done|by rewrite length_fmap|done|by rewrite length_replicate|done|done]. }
  destruct (descend_feeds q n base plan_levels plan_levels_ok Hpl (length tabs) 0 [] [] no_pins) with (m := start_join chain ts1) (x := @nil (list Value)) as (m & Hd & Hst'); [done|done|constructor|done|done|].
  exists m. eexists. split; [exact Hd|]. destruct Hst' as [Htab _ _ _ _ Hout]. split; [exact Htab|]. exact Hout.
Qed.

Lemma join_visited : visited db chain w plan_levels [] ≡ₚ join_rows db h w tables views levels.
Proof.
  destruct plan_length as [Hpl _]. unfold join_rows. rewrite <- (plan_seen q eq_refl).
  refine (visited_perm q n base plan_levels plan_levels_ok Hpl _ chain w (length tabs) [] _ _); [|cbn [length]; lia|constructor].
  intros k lv t vs Hk. destruct (plan_level_all _ _ _ _ Hk) as (Hok & _ & _ & Hkey). split.
  - unfold plan_ok in *. by destruct (lv_method lv) as [| |]; [|destruct Hok|].
  - intros src Hm. by destruct (Hkey _ Hm).
Qed.
End Query.

Lemma hash_levels_ok j ti src col : tabs !! j = Some ti -> (JM_SCAN :: (lv_method <$> levels)) !! j = Some (JM_HASH src col) ->
  exists t a vs, base !! ti = Some (t, a, vs) /\ schema_ok (t_schema t) /\ Forall2 (stores (t_schema t)) vs (rs_rows a) /\ (col < width t)%nat /\ (0 < rs_frames (t_heap t))%nat.
Proof.
  intros Hti Hm. destruct (lookup_lt_is_Some_2 plan_levels j) as [[[lv t] vs] Hl].
  { destruct plan_length as [-> _]. by eapply lookup_lt_Some. }
  destruct (plan_lookup _ _ _ _ Hl) as (a & ti' & sh & _ & Hti' & Hb & _ & _ & _ & Hlv). rewrite Hti in Hti'. injection Hti' as <-.
  exists t, a, vs. destruct (Hall _ _ _ _ Hb) as (_ & Hpos & _ & Hsc & Hst & _). do 3 (split; [done|]). split; [|done].
  destruct j as [|j]; [done|]. change ((lv_method <$> levels) !! j = Some (JM_HASH src col)) in Hm. rewrite list_lookup_fmap in Hm. apply fmap_Some in Hm as (lv' & Hj & Em).
  rewrite Hj in Hlv. subst lv. destruct (plan_level_all [] 0 true [] _ _ _ _ Hl) as (Hok & Ha & Hb' & _). unfold plan_ok in Hok. rewrite <- Em in Hok. destruct Hok as [_ Hs].
  assert (Hown : ref_ok plan_levels (S j) (S j, col)) by (by destruct Hs as [[<- _]|[<- _]]).
  destruct Hown as (lv0 & t0 & vs0 & _ & E & Hc). cbn [fst snd] in *. rewrite Hl in E. by injection E as _ <- _.
Qed.

Lemma join_exec w unset : s_explain h = false ->
  visited db chain w plan_levels [] ≡ₚ join_rows db h w tables views levels /\
  exists ts' out, holds_all n ts' abs /\ join_answer h chain (visited db chain w plan_levels []) = out /\
    exec_select_join db ts h w unset = (out ← out; Some (ts', out)).
Proof.
  intros Hex. unfold exec_select_join. rewrite (jr_tabs _ _ _ _ _ _ _ _ _ Hready), (jr_here _ _ _ _ _ _ _ _ _ Hready). cbn [mbind option_bind].
  rewrite (jr_levels _ _ _ _ _ _ _ _ _ Hready), Hex. fold chain.
  assert (Hopen : tables_open n base no_pins ts) by (rewrite <- Hts; apply tables_at_rest; intros i t a vs Hi; apply (Hall _ _ _ _ Hi)).
  destruct (build_tables_ok db unset n base tabs (JM_SCAN :: (lv_method <$> levels)) ts [] Hopen) as (ts1 & hs & Hb & Hopen1 & Hhl & Hhs).
  { cbn [length]. rewrite length_fmap. pose proof ready_lengths. lia. }
  { apply hash_levels_ok. }
  split; [exact (join_visited w unset true hs Hhs)|]. rewrite Hb. cbn [mbind option_bind app]. set (V := visited db chain w plan_levels []).
  assert (Hclose : forall ts', tables_open n base no_pins ts' -> holds_all n ts' abs).
  { intros ts'. apply close_tables; [apply (f_equal length) in Hvs; by rewrite !length_fmap in Hvs|].
    intros i t a vs Hi. destruct (Hall _ _ _ _ Hi) as (_ & ? & _ & _ & ? & ?). done. }
  assert (Hmat : (push true (s_limit h) [] V).1 = take SELECT_MAX_ROWS V).
  { by rewrite push_materialize by (done || (cbn [length]; lia)). }
  pose proof (fun mat => join_run w unset mat hs Hhs ts1 Hopen1) as Hrun. unfold join_answer.
  destruct (negb (s_star h)); [|destruct (bool_decide (s_order h = []) && _); [|destruct (mapM (join_key chain) (s_order h)) as [keys|]]].
  - destruct (Hrun true) as (m & z & -> & Ht & Ho). exists (mj_tables m). eexists. split; [by apply Hclose|]. split; [done|].
    cbn [mbind option_bind]. rewrite Ho. fold V. rewrite Hmat. by destruct (aggregate_rowset _ _ _).
  - destruct (Hrun false) as (m & z & -> & Ht & Ho). exists (mj_tables m). eexists. split; [by apply Hclose|]. split; [done|].
    cbn [mbind option_bind]. by rewrite Ho, push_stream.
  - destruct (Hrun true) as (m & z & -> & Ht & Ho). exists (mj_tables m). eexists. split; [by apply Hclose|]. split; [done|].
    cbn [mbind option_bind]. rewrite Ho. fold V. rewrite Hmat. destruct keys as [|k0 keys]; [cbn [mbind option_bind]; by rewrite window_spec|].
    destruct (sort_rows _ _); cbn [mbind option_bind]; [by rewrite window_spec|done].
  - exists ts1. eexists. split; [by apply Hclose|]. split; [done|]. done.
Qed.
End Ready.

Lemma ready_join n ts abs db h w unset tabs tables views levels : join_ready n ts abs db h tabs tables views levels -> s_explain h = false ->
  exists ts' all, holds_all n ts' abs /\ all ≡ₚ join_rows db h w tables views levels /\
    exec_select_join db ts h w unset = (out ← join_answer h (chain_of tables h) all; Some (ts', out)).
Proof.
  intros Hr Hex. destruct (base_of n ts abs (length tabs) (jr_holds _ _ _ _ _ _ _ _ _ Hr) (jr_frames _ _ _ _ _ _ _ _ _ Hr)) as (base & Hts & Hvs & Hall).
  assert (Hbs : is_Some (mapM (fun i => base !! i) tabs)).
  { pose proof (jr_here _ _ _ _ _ _ _ _ _ Hr) as Hh. rewrite mapM_Some in Hh. apply mapM_is_Some_2. apply list.Forall_forall. intros i [k Hk]%list_elem_of_lookup.
    destruct (Forall2_lookup_l _ _ _ _ _ Hh Hk) as (t & _ & Ht). rewrite <- Hts, !list_lookup_fmap in Ht. cbn. destruct (base !! i) as [b|]; [by exists b|discriminate Ht]. }
  destruct Hbs as [bases Hbs]. destruct (join_exec n ts abs db h tabs tables views levels Hr base bases Hts Hvs Hbs Hall w unset Hex) as [Hp (ts' & out & Hh & <- & He)].
  exists ts', (visited db (chain_of tables h) w (plan_levels levels bases) []). split; [done|]. split; [exact Hp|exact He].
Qed.

Lemma join_rows_typed n ts abs db h w tabs tables views levels : join_ready n ts abs db h tabs tables views levels ->
  Forall (typed_row (cr_is_int <$> join_cols (chain_of tables h))) (join_rows db h w tables views levels).
Proof.
  intros Hr. apply list.Forall_forall. intros row Hrow. apply joined_shape in Hrow as (rs & -> & Hrs). cbn [app]. apply join_cols_typed.
  destruct (ready_lengths _ _ _ _ _ _ _ _ _ Hr) as (E1 & E2 & E3 & E4). pose proof (Forall2_length Hrs) as El. rewrite length_zip_with in El. cbn [length] in El. rewrite length_fmap in El.
  apply Forall2_same_length_lookup. unfold chain_of. rewrite length_zip_with. cbn [length]. rewrite length_fmap. split; [lia|].
  intros i e r Hc Hri. apply lookup_zip_with_Some in Hc as (t & al & -> & Ht & _). cbn [fst snd].
  destruct (Forall2_lookup_r _ _ _ _ _ Hrs Hri) as (e & He & Hin). apply lookup_zip_with_Some in He as (lv & [sh vs] & -> & _ & Hv). cbn [fst snd] in Hin.
  assert (Hrep : table_rep sh n t vs).
  { destruct Hr as [Hh _ Hhere Hviews _ _ _ _]. rewrite mapM_Some in Hhere. rewrite mapM_Some in Hviews.
    destruct (Forall2_lookup_r _ _ _ _ _ Hhere Ht) as (ti & Hti & Hts). destruct (Forall2_lookup_r _ _ _ _ _ Hviews Hv) as (ti' & Hti' & Hvs).
    rewrite Hti in Hti'. injection Hti' as <-. destruct (Forall2_lookup_l _ _ _ _ _ Hh Hts) as (s & Hs & Hrep). rewrite Hvs in Hs. by injection Hs as <-. }
  destruct Hrep as (<- & _ & (rows & _ & Hst) & _). cbn [sh_schema shape] in *. destruct Hin as [Hin| ->]; [|apply nulls_typed].
  apply list_elem_of_fmap in Hin as (v & -> & [_ Hvi]%list_elem_of_filter). destruct (stores_elem _ _ _ _ Hst Hvi) as (rec & _ & Hs). apply cols_typed, Hs.
Qed.


(** A SELECT * over joins with ORDER BY or OFFSET always answers: an ORDER BY key that
    does not resolve is an error, and otherwise the requested slice of (4096 of) the
    rows of the join is printed, sorted by the keys. *)
Theorem join_sorted `{!QSortLaws} (n : nat) (ts : list (Table H I J)) (abs : list (Shape * list Version)) (db : Database) (h : SelectHead) (w : Where) (unset : Z)
  (tabs : list nat) (tables : list (Table H I J)) (views : list (Shape * list Version)) (levels : list Level) :
  join_ready n ts abs db h tabs tables views levels -> s_explain h = false -> s_star h = true -> s_order h <> [] \/ s_offset h <> 0 ->
  exists ts', holds_all n ts' abs /\
    match mapM (join_key (chain_of tables h)) (s_order h) with
    | None => exec_select_join db ts h w unset = Some (ts', JError)
    | Some keys => exists all sorted, all ≡ₚ join_rows db h w tables views levels /\ sorted ≡ₚ take SELECT_MAX_ROWS all /\
        StronglySorted (fun x y => ~ row_lt keys y x) sorted /\
        exec_select_join db ts h w unset = Some (ts', JRows (limited (s_limit h) (drop (Z.to_nat (s_offset h)) sorted)))
    end.
Proof.
  intros Hr Hex Hstar Hcase. destruct (ready_join n ts abs db h w unset tabs tables views levels Hr Hex) as (ts' & all & Hh & Hp & He). exists ts'. split; [done|].
  unfold join_answer in He. rewrite Hstar in He. cbn [negb] in He.
  assert (Hno : bool_decide (s_order h = []) && (s_offset h =? 0) = false).
  { destruct Hcase as [Ho|Ho]; [by rewrite bool_decide_eq_false_2|]. apply andb_false_iff. right. by apply Z.eqb_neq. }
  rewrite Hno in He. destruct (mapM (join_key (chain_of tables h)) (s_order h)) as [keys|] eqn:Hk; [|exact He].
  assert (Htyped : Forall (typed_row (cr_is_int <$> join_cols (chain_of tables h))) (take SELECT_MAX_ROWS all)).
  { apply Forall_take. rewrite Hp. by eapply join_rows_typed. }
  assert (Hkeys : Forall (key_ok (cr_is_int <$> join_cols (chain_of tables h))) keys).
  { apply mapM_Some in Hk. apply list.Forall_forall. intros k [i Hi]%list_elem_of_lookup. destruct (Forall2_lookup_r _ _ _ _ _ Hk Hi) as (ok & _ & Hok).
    unfold key_ok. rewrite length_fmap. by eapply join_key_bound. }
  destruct (sort_rows_spec _ keys _ Htyped Hkeys) as (sorted & Hsort & Hsp & Hss). exists all. destruct keys as [|k0 keys].
  - exists (take SELECT_MAX_ROWS all). split; [done|]. split; [done|]. split; [|exact He]. clear. induction (take SELECT_MAX_ROWS all) as [|r l IH]; constructor; [done|].
    apply list.Forall_forall. by intros y _ [].
  - rewrite Hsort in He. exists sorted. done.
Qed.
End Statement.

(** ** Concrete joins *)

Section Demo.
#[local] Instance join_store : RecordStoreLaws (BufferPool * Pager) := heap_store_laws pager_reliable.
#[local] Instance join_nested : NestedStoreLaws (BufferPool * Pager) := heap_nested_laws pager_reliable.
#[local] Existing Instance insertion_qsort.
#[local] Existing Instance insertion_qsort_laws.

(** A table joined with itself by a hash table: the pool is scanned inside its own scan. *)
Definition demo_join : SelectHead := head_of "SELECT * FROM t a LEFT JOIN t b ON a.n = b.n;".
Definition demo_join_sorted : SelectHead := head_of "SELECT * FROM t a JOIN t b ON a.n = b.n ORDER BY b.name DESC, a.id LIMIT 3;".

Definition demo_level (left : bool) : Level := mkLevel left (0%nat, 2%nat) (1%nat, 2%nat) (JM_HASH (0%nat, 2%nat) 2).

Lemma demo_ready h left vs : table_rep (shape (empty_table true)) 0 demo_table vs -> levels_of (chain_of [demo_table; demo_table] h) [demo_table; demo_table] h = Some [demo_level left] ->
  mapM (find_table [demo_table]) (s_table h :: (j_table <$> s_joins h)) = Some [0%nat; 0%nat] ->
  join_ready 0 [demo_table] [(shape (empty_table true), vs)] (txn_db 3) h [0%nat; 0%nat] [demo_table; demo_table]
    [(shape (empty_table true), vs); (shape (empty_table true), vs)] [demo_level left].
Proof.
  intros Hrep Hl Ht. split; [constructor; [exact Hrep|constructor]|exact Ht|clear; generalize demo_table; intros; reflexivity|clear; generalize (shape (empty_table true)); intros; reflexivity|exact Hl| | |].
  - constructor; [|constructor]. apply Nat.leb_le. vm_compute. reflexivity.
  - intros [|k] lv; [|discriminate]. intros E. apply (inj Some) in E. subst lv. split; cbn; lia.
  - intros [|k] lv src t v; [|discriminate]. intros E. apply (inj Some) in E. subst lv. intros Em _ _. exfalso. clear -Em. cbn in Em. discriminate Em.
Qed.


Lemma join_sorted_witness : exists ts' vs all sorted, holds_all 0 ts' [(shape (empty_table true), vs)] /\
  all ≡ₚ join_rows (txn_db 3) demo_join_sorted [] [demo_table; demo_table] [(shape (empty_table true), vs); (shape (empty_table true), vs)] [demo_level false] /\
  sorted ≡ₚ take SELECT_MAX_ROWS all /\
  exec_select_join (txn_db 3) [demo_table] demo_join_sorted [] 0 = Some (ts', JRows (limited 3 (drop 0 sorted))) /\
  limited 3 (drop 0 sorted) = [row 6 "oh" (VAL_INT 9) ++ row 6 "oh" (VAL_INT 9); row 5 "kim" (VAL_INT 30) ++ row 5 "kim" (VAL_INT 30); row 6 "han" (VAL_INT 30) ++ row 5 "kim" (VAL_INT 30)].
Proof.
  destruct (demo_table_rep 0) as (vs & Hrep & _); [lia|].
  destruct (join_sorted 0 [demo_table] [(shape (empty_table true), vs)] (txn_db 3) demo_join_sorted [] 0 [0%nat; 0%nat] [demo_table; demo_table]
    [(shape (empty_table true), vs); (shape (empty_table true), vs)] [demo_level false]) as (ts' & Hh & Hs).
  - apply demo_ready; [exact Hrep|vm_compute; reflexivity|vm_compute; reflexivity].
  - vm_compute. reflexivity.
  - vm_compute. reflexivity.
  - left. vm_compute. discriminate.
  - assert (Ek : mapM (join_key (chain_of [demo_table; demo_table] demo_join_sorted)) (s_order demo_join_sorted) = Some [(4%nat, true); (0%nat, false)]) by (vm_compute; reflexivity).
    assert (El : s_limit demo_join_sorted = 3) by (vm_compute; reflexivity). assert (Eo : s_offset demo_join_sorted = 0) by (vm_compute; reflexivity).
    rewrite Ek, El, Eo in Hs. destruct Hs as (all & sorted & Hp & Hsp & _ & He). exists ts', vs, all, sorted. do 3 (split; [assumption|]). split; [exact He|].
    assert (Hout : snd <$> exec_select_join (txn_db 3) [demo_table] demo_join_sorted [] 0 =
      Some (JRows [row 6 "oh" (VAL_INT 9) ++ row 6 "oh" (VAL_INT 9); row 5 "kim" (VAL_INT 30) ++ row 5 "kim" (VAL_INT 30); row 6 "han" (VAL_INT 30) ++ row 5 "kim" (VAL_INT 30)])) by (vm_compute; reflexivity).
    rewrite He in Hout. cbn [fmap option_fmap option_map snd] in Hout. apply (inj Some) in Hout. injection Hout as Hout. exact Hout.
Defined.
End Demo.

