(* ===== verification/JoinOpt.v ===== *)
(** * Join ordering (src/src/joinopt.c)

    The planner computes, by dynamic programming over sets of relations (bit masks),
    a cheapest left-deep order that takes a cross product only when no relation is
    connected to those joined so far.  The arithmetic is a class: the program computes
    with doubles ([double_num]), for which the plan and the costs reported for it are
    consistent bit by bit; with exact rationals ([exact_num]) the plan is optimal.
    Arrays of the graph are functions of the index, which the loops keep below [nrel]. *)
From Stdlib Require Import SpecFloat Qcanon.
From S2P Require Import Prelude Double.
Open Scope Z_scope.

Class Num (F : Type) := { n_zero : F; n_one : F; n_inf : F; n_add : F -> F -> F; n_mul : F -> F -> F; n_lt : F -> F -> bool; n_le : F -> F -> bool }.

(** 1e300 is the double 6724873095247260 * 2^944. *)
#[export] Instance double_num : Num double := {
  n_zero := S754_zero false; n_one := double_of 1; n_inf := S754_finite false 6724873095247260 944;
  n_add := SFadd 53 1024; n_mul := SFmul 53 1024; n_lt := SFltb; n_le := SFleb }.

#[export] Instance exact_num : Num Qc := {
  n_zero := 0%Qc; n_one := 1%Qc; n_inf := Q2Qc (QArith_base.Qmake (10 ^ 300) 1);
  n_add := Qcplus; n_mul := Qcmult; n_lt x y := bool_decide (x < y)%Qc; n_le x y := bool_decide (x <= y)%Qc }.

(** ** Data *)

Definition JOPT_MAX_REL : Z := 12.

Inductive JoinMethod := JMETH_SCAN | JMETH_HASH | JMETH_INDEX.

Record JoinGraph (F : Type) := mkGraph { nrel : Z; card : nat -> F; sel : nat -> nat -> F; is_indexed : nat -> bool }.
Arguments mkGraph {F}.
Arguments nrel {F}.
Arguments card {F}.
Arguments sel {F}.
Arguments is_indexed {F}.

Record JoinPlan (F : Type) := mkPlan { p_order : list nat; p_method : list JoinMethod; p_cost : F; p_rows : F; p_had_cross : bool }.
Arguments mkPlan {F}.
Arguments p_order {F}.
Arguments p_method {F}.
Arguments p_cost {F}.
Arguments p_rows {F}.
Arguments p_had_cross {F}.

(** One element of each of the arrays [dp_cost], [dp_rows], [dp_last], [dp_prev],
    [dp_meth] and [dp_cross]. *)
Record DpEntry (F : Type) := mkDp { dp_cost : F; dp_rows : F; dp_last : nat; dp_prev : Z; dp_meth : JoinMethod; dp_cross : bool }.
Arguments mkDp {F}.
Arguments dp_cost {F}.
Arguments dp_rows {F}.
Arguments dp_last {F}.
Arguments dp_prev {F}.
Arguments dp_meth {F}.
Arguments dp_cross {F}.

(** ** Operations *)

Section Optimizer.
Context {F : Type} `{Num F} (g : JoinGraph F).

Definition bit (r : nat) : Z := Z.shiftl 1 (Z.of_nat r).
Definition has (mask : Z) (r : nat) : bool := negb (Z.land mask (bit r) =? 0).
Definition rels : list nat := seq 0 (Z.to_nat (nrel g)).

Definition combined_sel (mask : Z) (r : nat) : F * bool :=
  foldl (fun '(s, conn) x =>
    if negb (has mask x) then (s, conn)
    else if n_lt (sel g r x) n_one then (n_mul s (sel g r x), true) else (s, conn)) (n_one, false) rels.

Definition join_step_cost (r : nat) (prev_rows : F) (connected : bool) : F * JoinMethod :=
  let cr := card g r in
  let nested := n_mul prev_rows cr in
  if negb connected then (nested, JMETH_SCAN)
  else
    let '(best, meth) := (n_add cr prev_rows, JMETH_HASH) in
    let '(best, meth) := if is_indexed g r then let idx := n_mul prev_rows n_one in if n_lt idx best then (idx, JMETH_INDEX) else (best, meth) else (best, meth) in
    if n_lt nested best then (nested, JMETH_SCAN) else (best, meth).

Definition valid_graph : bool := (1 <=? nrel g) && (nrel g <=? JOPT_MAX_REL) && forallb (fun i => negb (n_lt (card g i) n_zero)) rels.

(** The static arrays keep what an earlier call left, but for the costs. *)
Definition dp_reset (stale : list (DpEntry F)) (full : Z) : list (DpEntry F) :=
  imap (fun m e => if Z.of_nat m <=? full then mkDp n_inf (dp_rows e) (dp_last e) (dp_prev e) (dp_meth e) (dp_cross e) else e) stale.

Definition dp_base (dp : list (DpEntry F)) : list (DpEntry F) :=
  foldl (fun dp i => <[Z.to_nat (bit i) := mkDp (card g i) (card g i) i 0 JMETH_SCAN false]> dp) dp rels.

(** One pass over the relations that are not in [mask]: the connected ones, or the others. *)
Definition extend_pass (pass : nat) (mask : Z) (dp : list (DpEntry F)) : option (list (DpEntry F) * bool) :=
  foldl (fun acc r =>
    '(dp, any) ← acc;
    if has mask r then Some (dp, any)
    else
      let '(csel, connected) := combined_sel mask r in
      if (Nat.eqb pass 0 && negb connected) || (Nat.eqb pass 1 && connected) then Some (dp, any)
      else
        from ← dp !! Z.to_nat mask;
        let '(add, meth) := join_step_cost r (dp_rows from) connected in
        let nrows := n_mul (n_mul (dp_rows from) (card g r)) csel in
        let ncost := n_add (dp_cost from) add in
        let nmask := Z.lor mask (bit r) in
        to ← dp !! Z.to_nat nmask;
        Some (if n_lt ncost (dp_cost to)
              then <[Z.to_nat nmask := mkDp ncost nrows r mask meth (dp_cross from || negb connected)]> dp else dp,
              any || connected)) (Some (dp, false)) rels.

Definition expand (full : Z) (dp : list (DpEntry F)) (mask : Z) : option (list (DpEntry F)) :=
  e ← dp !! Z.to_nat mask;
  if n_le n_inf (dp_cost e) then Some dp
  else if mask =? full then Some dp
  else
    '(dp, any) ← extend_pass 0 mask dp;
    if (any : bool) then Some dp else '(dp, _) ← extend_pass 1 mask dp; Some dp.

(** The order read backwards along [dp_prev]. *)
Fixpoint backtrack (n : nat) (m : Z) (dp : list (DpEntry F)) : option (list nat * list JoinMethod) :=
  match n with
  | O => Some ([], [])
  | S n =>
      e ← dp !! Z.to_nat m;
      '(order, method) ← backtrack n (dp_prev e) dp;
      Some (order ++ [dp_last e], method ++ [dp_meth e])
  end.

(** [Some None] is the return value -1. *)
Definition joinopt_optimize (stale : list (DpEntry F)) : option (option (JoinPlan F)) :=
  if negb valid_graph then Some None
  else
    let full := Z.shiftl 1 (nrel g) - 1 in
    dp ← foldl (fun dp mask => dp ← dp; expand full dp (Z.of_nat mask)) (Some (dp_base (dp_reset stale full))) (seq 1 (Z.to_nat full));
    e ← dp !! Z.to_nat full;
    if n_le n_inf (dp_cost e) then Some None
    else
      '(order, method) ← backtrack (Z.to_nat (nrel g)) full dp;
      Some (Some (mkPlan order (<[O := JMETH_SCAN]> method) (dp_cost e) (dp_rows e) (dp_cross e))).

Definition joinopt_naive_cost : F * option (JoinPlan F) :=
  if negb valid_graph then (n_inf, None)
  else
    let '(mask, cost, rows, method, cross) :=
      foldl (fun '(mask, cost, rows, method, cross) r =>
        let '(csel, connected) := combined_sel mask r in
        let '(add, meth) := join_step_cost r rows connected in
        (Z.lor mask (bit r), n_add cost add, n_mul rows (n_mul (card g r) csel), method ++ [meth], cross || negb connected))
        (1, card g O, card g O, [JMETH_SCAN], false) (seq 1 (Z.to_nat (nrel g) - 1)) in
    (cost, Some (mkPlan rels method cost rows cross)).

(** ** Left-deep plans *)

Definition connected (mask : Z) (r : nat) : bool := (combined_sel mask r).2.

(** Cross products are a last resort. *)
Definition may_join (mask : Z) (r : nat) : bool := connected mask r || forallb (fun x => has mask x || negb (connected mask x)) rels.

(** [left_deep order method mask cost rows cross]: joining in this order, each step by
    the cheapest method, costs [cost] and gives [rows] rows. *)
Inductive left_deep : list nat -> list JoinMethod -> Z -> F -> F -> bool -> Prop :=
| deep_base i : i ∈ rels -> left_deep [i] [JMETH_SCAN] (bit i) (card g i) (card g i) false
| deep_join order method mask cost rows cross r : left_deep order method mask cost rows cross -> r ∈ rels -> has mask r = false -> may_join mask r = true ->
    left_deep (order ++ [r]) (method ++ [(join_step_cost r rows (connected mask r)).2]) (Z.lor mask (bit r))
      (n_add cost (join_step_cost r rows (connected mask r)).1) (n_mul (n_mul rows (card g r)) (combined_sel mask r).1) (cross || negb (connected mask r)).
End Optimizer.

(** ** Bit masks *)

Lemma bit_pow r : bit r = 2 ^ Z.of_nat r.
Proof. apply Z.shiftl_1_l. Qed.

Lemma has_testbit mask r : has mask r = Z.testbit mask (Z.of_nat r).
Proof.
  unfold has. rewrite bit_pow. assert (E : Z.land mask (2 ^ Z.of_nat r) = if Z.testbit mask (Z.of_nat r) then 2 ^ Z.of_nat r else 0).
  { apply Z.bits_inj'. intros k Hk. rewrite Z.land_spec, Z.pow2_bits_eqb by lia. destruct (Z.eqb_spec (Z.of_nat r) k) as [<-|Hne].
    - destruct (Z.testbit mask (Z.of_nat r)); [|by rewrite Z.bits_0]. by rewrite Z.pow2_bits_true by lia.
    - rewrite andb_false_r. destruct (Z.testbit mask _); [|by rewrite Z.bits_0]. rewrite Z.pow2_bits_false; [done|lia]. }
  rewrite E. pose proof (Z.pow_pos_nonneg 2 (Z.of_nat r) ltac:(lia) ltac:(lia)). destruct (Z.testbit mask _); [|done]. destruct (Z.eqb_spec (2 ^ Z.of_nat r) 0); [lia|done].
Qed.

Lemma has_bit i r : has (bit i) r = bool_decide (i = r).
Proof. rewrite has_testbit, bit_pow, Z.pow2_bits_eqb by lia. destruct (Z.eqb_spec (Z.of_nat i) (Z.of_nat r)), (bool_decide_reflect (i = r)); (done || lia). Qed.

Lemma has_lor mask r x : has (Z.lor mask (bit r)) x = has mask x || bool_decide (r = x).
Proof. rewrite <- has_bit, !has_testbit. apply Z.lor_spec. Qed.

Lemma bit_pos r : 1 <= bit r.
Proof. rewrite bit_pow. pose proof (Z.pow_pos_nonneg 2 (Z.of_nat r) ltac:(lia) ltac:(lia)). lia. Qed.

Lemma lor_add mask r : has mask r = false -> Z.lor mask (bit r) = mask + bit r.
Proof.
  intros Hr. assert (E : Z.land mask (bit r) = 0) by (unfold has in Hr; apply negb_false_iff, Z.eqb_eq in Hr; done). rewrite <- Z.add_lor_land, E. lia.
Qed.

Lemma lor_bound n mask r : 0 <= mask < 2 ^ Z.of_nat n -> (r < n)%nat -> 0 <= Z.lor mask (bit r) < 2 ^ Z.of_nat n.
Proof.
  intros Hm Hr. assert (Hnn : 0 <= Z.lor mask (bit r)) by (apply Z.lor_nonneg; pose proof (bit_pos r); lia). split; [done|].
  destruct (Z.eq_dec (Z.lor mask (bit r)) 0) as [->|Hne]; [lia|]. apply Z.log2_lt_pow2; [lia|]. pose proof (bit_pos r) as Hb. rewrite Z.log2_lor, bit_pow, Z.log2_pow2 by lia.
  apply Z.max_lub_lt; [|lia]. destruct (Z.eq_dec mask 0) as [->|Hm0]; [cbn; lia|]. apply Z.log2_lt_pow2; lia.
Qed.

Lemma bit_bound n r : (r < n)%nat -> 1 <= bit r < 2 ^ Z.of_nat n.
Proof. intros Hr. split; [apply bit_pos|]. rewrite bit_pow. apply Z.pow_lt_mono_r; lia. Qed.

Lemma list_filter_iff_rels {A} (P Q : A -> Prop) `{!forall x, Decision (P x)} `{!forall x, Decision (Q x)} (l : list A) :
  (forall x, x ∈ l -> P x <-> Q x) -> filter P l = filter Q l.
Proof.
  induction l as [|x l IH]; intros Hl; [done|]. rewrite !filter_cons. rewrite IH by (intros y Hy; apply Hl; by right).
  destruct (decide (P x)) as [Hp|Hp], (decide (Q x)) as [Hq|Hq]; try done; exfalso; [apply Hq|apply Hp]; apply (Hl x); (done || left).
Qed.

Lemma list_filter_nil_rels {A} (P : A -> Prop) `{!forall x, Decision (P x)} (l : list A) : (forall x, x ∈ l -> ~ P x) -> filter P l = [].
Proof.
  induction l as [|x l IH]; intros Hl; [done|]. rewrite filter_cons, decide_False by (apply Hl; left). apply IH. intros y Hy. apply Hl. by right.
Qed.

(** ** The plan is a left-deep order with the costs it reports *)

Section Sound.
Context {F : Type} `{Num F} (g : JoinGraph F) (Hinf : n_le n_inf n_inf = true).
Let n := Z.to_nat (nrel g).
Let full := Z.shiftl 1 (nrel g) - 1.
Context (Hn : 1 <= nrel g <= JOPT_MAX_REL).

Lemma full_pow : full = 2 ^ Z.of_nat n - 1.
Proof. unfold full, n. rewrite Z.shiftl_1_l, Z2Nat.id by lia. done. Qed.

Lemma full_size : 1 <= full < 4096.
Proof.
  rewrite full_pow. unfold JOPT_MAX_REL, n in *. assert (2 ^ 1 <= 2 ^ Z.of_nat (Z.to_nat (nrel g))) by (apply Z.pow_le_mono_r; lia).
  assert (2 ^ Z.of_nat (Z.to_nat (nrel g)) <= 2 ^ 12) by (apply Z.pow_le_mono_r; lia). change (2 ^ 1) with 2 in *. change (2 ^ 12) with 4096 in *. lia.
Qed.

Lemma rels_lt r : r ∈ rels g <-> (r < n)%nat.
Proof. unfold rels. rewrite elem_of_seq. fold n. lia. Qed.

Lemma has_full x : has full x = bool_decide (x < n)%nat.
Proof.
  rewrite has_testbit, full_pow. replace (2 ^ Z.of_nat n - 1) with (Z.ones (Z.of_nat n)) by (rewrite Z.ones_equiv; lia).
  rewrite Z.testbit_ones_nonneg by lia. destruct (Z.ltb_spec (Z.of_nat x) (Z.of_nat n)), (bool_decide_reflect (x < n)%nat); (done || lia).
Qed.

Lemma next_mask mask r : 1 <= mask <= full -> r ∈ rels g -> has mask r = false -> mask < Z.lor mask (bit r) <= full.
Proof.
  intros Hm Hr%rels_lt Hh. pose proof full_pow. pose proof (lor_bound n mask r ltac:(lia) Hr). rewrite lor_add in * by done. pose proof (bit_pos r). lia.
Qed.

Lemma deep_facts order method mask cost rows cross : left_deep g order method mask cost rows cross ->
  NoDup order /\ (forall x, has mask x = true <-> x ∈ order) /\ order ⊆ rels g /\ 1 <= mask <= full /\ length method = length order.
Proof.
  induction 1 as [i Hi|order method mask cost rows cross r _ (Hnd & Hx & Hsub & Hm & Hl) Hr Hh _].
  - split; [apply list.NoDup_singleton|]. split; [intros x; rewrite has_bit, bool_decide_eq_true, list_elem_of_singleton; naive_solver|]. split; [set_solver|].
    split; [|done]. pose proof full_pow. apply rels_lt in Hi. pose proof (bit_bound n i Hi). lia.
  - split; [|split; [|split; [set_solver|split]]].
    + apply list.NoDup_app. split; [done|]. split; [|apply list.NoDup_singleton]. intros x Hxo ->%list_elem_of_singleton. apply Hx in Hxo. congruence.
    + intros x. rewrite has_lor, orb_true_iff, bool_decide_eq_true, elem_of_app, list_elem_of_singleton, Hx. naive_solver.
    + pose proof (next_mask mask r Hm Hr Hh). lia.
    + rewrite !length_app. cbn. lia.
Qed.

(** What extending [mask] by [r] writes. *)
Definition step_entry (mask : Z) (from : DpEntry F) (r : nat) : DpEntry F :=
  mkDp (n_add (dp_cost from) (join_step_cost g r (dp_rows from) (connected g mask r)).1)
    (n_mul (n_mul (dp_rows from) (card g r)) (combined_sel g mask r).1) r mask (join_step_cost g r (dp_rows from) (connected g mask r)).2 (dp_cross from || negb (connected g mask r)).

Definition base_entry (i : nat) : DpEntry F := mkDp (card g i) (card g i) i 0 JMETH_SCAN false.

(** An entry written from [mask], an earlier one that has a plan. *)
Definition from_mask (k : Z) (dp : list (DpEntry F)) (m : Z) (e : DpEntry F) (mask : Z) (r : nat) (from : DpEntry F) : Prop :=
  1 <= mask < k /\ dp !! Z.to_nat mask = Some from /\ n_le n_inf (dp_cost from) = false /\ r ∈ rels g /\ has mask r = false /\ may_join g mask r = true /\
  m = Z.lor mask (bit r) /\ e = step_entry mask from r.

(** The table after the masks below [k] have been extended. *)
Record dp_ok (k : Z) (dp : list (DpEntry F)) : Prop := {
  ok_length : length dp = 4096%nat;
  ok_base : forall i, i ∈ rels g -> dp !! Z.to_nat (bit i) = Some (base_entry i);
  ok_entry : forall m e, 1 <= m <= full -> dp !! Z.to_nat m = Some e -> n_le n_inf (dp_cost e) = false ->
    (exists i, i ∈ rels g /\ m = bit i) \/ exists mask r from, from_mask k dp m e mask r from }.

Lemma dp_ok_mono k k' dp : k <= k' -> dp_ok k dp -> dp_ok k' dp.
Proof.
  intros Hk [Hl Hb He]. split; [done|done|]. intros m e Hm Hd Hc. destruct (He m e Hm Hd Hc) as [?|(mask & r & from & Hw & Hrest)]; [by left|right].
  exists mask, r, from. split; [lia|done].
Qed.

Lemma bit_not_step i mask r : 1 <= mask -> has mask r = false -> Z.lor mask (bit r) <> bit i.
Proof.
  intros Hm Hr E. assert (Hx : forall x, has mask x || bool_decide (r = x) = bool_decide (i = x)) by (intros x; by rewrite <- has_lor, E, has_bit).
  assert (Hri : r = i). { specialize (Hx r). rewrite Hr in Hx. cbn in Hx. rewrite bool_decide_eq_true_2 in Hx by done. by apply eq_sym, bool_decide_eq_true in Hx. }
  subst i. assert (E2 : mask = 0); [|lia]. rewrite lor_add in E by done. lia.
Qed.

(** Writing a larger mask. *)
Lemma dp_ok_write mask dp from r : 1 <= mask <= full -> dp_ok (mask + 1) dp -> dp !! Z.to_nat mask = Some from -> n_le n_inf (dp_cost from) = false ->
  r ∈ rels g -> has mask r = false -> may_join g mask r = true ->
  dp_ok (mask + 1) (<[Z.to_nat (Z.lor mask (bit r)) := step_entry mask from r]> dp).
Proof.
  intros Hm [Hl Hb He] Hd Hc Hr Hh Hj. pose proof (next_mask mask r Hm Hr Hh) as Hnext. pose proof full_size as Hfull.
  split; [by rewrite length_insert|..].
  - intros i Hi. rewrite list_lookup_insert_ne; [by apply Hb|]. intros E. apply (bit_not_step i mask r); [lia|done|]. pose proof (bit_pos i). lia.
  - intros m e Hm1 Hd1 Hc1. destruct (decide (m = Z.lor mask (bit r))) as [->|Hne].
    + rewrite list_lookup_insert_eq in Hd1 by lia. injection Hd1 as <-. right. exists mask, r, from. split; [lia|]. rewrite list_lookup_insert_ne by lia. done.
    + rewrite list_lookup_insert_ne in Hd1 by lia. destruct (He m e Hm1 Hd1 Hc1) as [?|(mask' & r' & from' & Hw & Hd' & Hrest)]; [by left|right].
      exists mask', r', from'. split; [done|]. rewrite list_lookup_insert_ne by lia. done.
Qed.

(** *** Extending a mask *)

Definition relax (mask : Z) (from : DpEntry F) (dp : list (DpEntry F)) (r : nat) : list (DpEntry F) :=
  match dp !! Z.to_nat (Z.lor mask (bit r)) with
  | Some to => if n_lt (dp_cost (step_entry mask from r)) (dp_cost to) then <[Z.to_nat (Z.lor mask (bit r)) := step_entry mask from r]> dp else dp
  | None => dp
  end.

Lemma relax_keeps mask from dp r : 1 <= mask <= full -> r ∈ rels g -> has mask r = false ->
  length (relax mask from dp r) = length dp /\ relax mask from dp r !! Z.to_nat mask = dp !! Z.to_nat mask.
Proof.
  intros Hm Hr Hh. pose proof (next_mask mask r Hm Hr Hh). unfold relax. destruct (dp !! Z.to_nat (Z.lor mask (bit r))); [|done]. destruct (n_lt _ _); [|done].
  rewrite length_insert, list_lookup_insert_ne by lia. done.
Qed.

Definition in_pass (pass : nat) (mask : Z) (r : nat) : Prop := has mask r = false /\ connected g mask r = Nat.eqb pass 0.

#[local] Instance in_pass_dec pass mask r : Decision (in_pass pass mask r).
Proof. unfold in_pass. apply _. Defined.

Lemma extend_pass_relax pass mask dp from : (pass < 2)%nat -> 1 <= mask <= full -> length dp = 4096%nat -> dp !! Z.to_nat mask = Some from ->
  extend_pass g pass mask dp = Some (foldl (relax mask from) dp (filter (in_pass pass mask) (rels g)),
    Nat.eqb pass 0 && existsb (fun r => negb (has mask r) && connected g mask r) (rels g)).
Proof.
  intros Hp Hm. unfold extend_pass. assert (Hgen : forall l dp any, l ⊆ rels g -> length dp = 4096%nat -> dp !! Z.to_nat mask = Some from ->
    foldl (fun acc r =>
      '(dp, any) ← acc;
      if has mask r then Some (dp, any)
      else
        let '(csel, connected) := combined_sel g mask r in
        if (Nat.eqb pass 0 && negb connected) || (Nat.eqb pass 1 && connected) then Some (dp, any)
        else
          from ← dp !! Z.to_nat mask;
          let '(add, meth) := join_step_cost g r (dp_rows from) connected in
          let nrows := n_mul (n_mul (dp_rows from) (card g r)) csel in
          let ncost := n_add (dp_cost from) add in
          let nmask := Z.lor mask (bit r) in
          to ← dp !! Z.to_nat nmask;
          Some (if n_lt ncost (dp_cost to)
                then <[Z.to_nat nmask := mkDp ncost nrows r mask meth (dp_cross from || negb connected)]> dp else dp,
                any || connected)) (Some (dp, any)) l =
    Some (foldl (relax mask from) dp (filter (in_pass pass mask) l), any || Nat.eqb pass 0 && existsb (fun r => negb (has mask r) && connected g mask r) l)).
  { induction l as [|r l IH]; intros dp0 any Hsub Hl Hd; [cbn; by rewrite andb_false_r, orb_false_r|]. cbn [foldl mbind option_bind existsb]. rewrite filter_cons.
    assert (Hr : r ∈ rels g) by (apply Hsub; left). assert (Hsub' : l ⊆ rels g) by (intros x Hx; apply Hsub; by right).
    destruct (decide (in_pass pass mask r)) as [[Eh Hc]|Hc].
    - rewrite Eh. cbn [negb andb]. pose proof (eq_refl : connected g mask r = (combined_sel g mask r).2) as Hconn. rewrite Hc in *.
      destruct (combined_sel g mask r) as [csel conn] eqn:Ec. cbn [snd] in Hconn. subst conn.
      assert (Hskip : (Nat.eqb pass 0 && negb (Nat.eqb pass 0)) || (Nat.eqb pass 1 && Nat.eqb pass 0) = false) by (by destruct pass as [|[|]]; [..|lia]).
      rewrite Hskip, Hd. cbn [mbind option_bind foldl]. pose proof (next_mask mask r Hm Hr Eh) as Hnext. pose proof full_size.
      destruct (lookup_lt_is_Some_2 dp0 (Z.to_nat (Z.lor mask (bit r)))) as [to Hto]; [lia|].
      destruct (join_step_cost g r (dp_rows from) (Nat.eqb pass 0)) as [add meth] eqn:Ej. rewrite Hto. cbn [mbind option_bind].
      destruct (relax_keeps mask from dp0 r Hm Hr Eh) as [Hl' Hd'].
      assert (Hrel : relax mask from dp0 r = if n_lt (n_add (dp_cost from) add) (dp_cost to)
        then <[Z.to_nat (Z.lor mask (bit r)) := mkDp (n_add (dp_cost from) add) (n_mul (n_mul (dp_rows from) (card g r)) csel) r mask meth (dp_cross from || negb (Nat.eqb pass 0))]> dp0 else dp0).
      { unfold relax. rewrite Hto. unfold step_entry. rewrite Hc, Ec, Ej. done. }
      rewrite <- Hrel, IH; [|done|congruence|congruence]. f_equal. f_equal. clear. generalize (Nat.eqb pass 0). intros [|]; cbn; by rewrite ?orb_true_r, ?orb_false_r.
    - destruct (has mask r) eqn:Eh; cbn [negb andb orb]; [by apply IH|]. pose proof (eq_refl : connected g mask r = (combined_sel g mask r).2) as Hconn.
      assert (Hne : connected g mask r <> Nat.eqb pass 0) by (intros E; by apply Hc).
      destruct (combined_sel g mask r) as [csel conn] eqn:Ec. cbn [snd] in Hconn. rewrite Hconn in *.
      assert (Hskip : (Nat.eqb pass 0 && negb conn) || (Nat.eqb pass 1 && conn) = true) by (destruct pass as [|[|]], conn; cbn in *; naive_solver lia).
      rewrite Hskip, IH by done. f_equal. f_equal. clear -Hne. revert Hne. generalize (Nat.eqb pass 0). intros b. destruct b, conn; cbn; done. }
  intros Hl Hd. by rewrite Hgen.
Qed.

(** The relations that may come next. *)
Definition nexts (mask : Z) : list nat := filter (fun r => has mask r = false /\ may_join g mask r = true) (rels g).

Lemma expand_relax mask dp from : 1 <= mask <= full -> length dp = 4096%nat -> dp !! Z.to_nat mask = Some from ->
  expand g full dp mask = Some (if n_le n_inf (dp_cost from) || (mask =? full) then dp else foldl (relax mask from) dp (nexts mask)).
Proof.
  intros Hm Hl Hd. unfold expand. rewrite Hd. cbn [mbind option_bind]. destruct (n_le n_inf (dp_cost from)); [done|]. destruct (mask =? full); [done|]. cbn [orb].
  rewrite (extend_pass_relax 0 mask dp from) by (done || lia). cbn [mbind option_bind Nat.eqb andb].
  destruct (existsb _ _) eqn:Ex.
  - f_equal. f_equal. apply list_filter_iff_rels. intros r Hr. unfold in_pass, may_join. cbn [Nat.eqb].
    assert (Hno : forallb (fun x => has mask x || negb (connected g mask x)) (rels g) = false).
    { apply existsb_exists in Ex as (x & Hx & Hc). apply not_true_iff_false. rewrite forallb_forall. intros Hall. specialize (Hall x Hx). destruct (has mask x), (connected g mask x); done. }
    rewrite Hno, orb_false_r. done.
  - assert (Hnil : filter (in_pass 0 mask) (rels g) = []).
    { apply list_filter_nil_rels. intros r Hr [Hh Hc]. cbn in Hc. assert (E : existsb (fun r => negb (has mask r) && connected g mask r) (rels g) = true); [|congruence].
      apply existsb_exists. exists r. split; [by apply list_elem_of_In|]. by rewrite Hh, Hc. }
    rewrite Hnil. cbn [foldl]. rewrite (extend_pass_relax 1 mask dp from) by (done || lia). cbn [mbind option_bind]. f_equal. f_equal.
    apply list_filter_iff_rels. intros r Hr. unfold in_pass, may_join. cbn [Nat.eqb].
    assert (Hyes : forallb (fun x => has mask x || negb (connected g mask x)) (rels g) = true).
    { apply forallb_forall. intros x Hx. destruct (has mask x) eqn:Eh, (connected g mask x) eqn:Ec; try done.
      exfalso. assert (E : existsb (fun r => negb (has mask r) && connected g mask r) (rels g) = true); [|congruence]. apply existsb_exists. exists x. split; [done|]. by rewrite Eh, Ec. }
    rewrite Hyes, orb_true_r. split; [by intros [-> _]|]. intros [Hh _]. split; [done|]. rewrite forallb_forall in Hyes. specialize (Hyes r ltac:(by apply list_elem_of_In)). rewrite Hh in Hyes. by apply negb_true_iff in Hyes.
Qed.

Lemma nexts_spec mask r : r ∈ nexts mask <-> (has mask r = false /\ may_join g mask r = true) /\ r ∈ rels g.
Proof. unfold nexts. by rewrite list_elem_of_filter. Qed.

Lemma relax_ok mask dp from r : 1 <= mask <= full -> n_le n_inf (dp_cost from) = false -> r ∈ nexts mask ->
  dp_ok (mask + 1) dp -> dp !! Z.to_nat mask = Some from -> dp_ok (mask + 1) (relax mask from dp r) /\ relax mask from dp r !! Z.to_nat mask = Some from.
Proof.
  intros Hm Hc [[Hh Hj] Hr]%nexts_spec Hok Hd. destruct (relax_keeps mask from dp r Hm Hr Hh) as [_ Hk]. split; [|congruence].
  unfold relax. destruct (dp !! Z.to_nat (Z.lor mask (bit r))); [|done]. destruct (n_lt _ _); [|done]. by apply dp_ok_write.
Qed.

Lemma expand_ok k dp : 1 <= k <= full -> dp_ok k dp -> exists dp', expand g full dp k = Some dp' /\ dp_ok (k + 1) dp'.
Proof.
  intros Hk Hok. pose proof full_size. destruct (lookup_lt_is_Some_2 dp (Z.to_nat k)) as [from Hd]; [rewrite (ok_length _ _ Hok); lia|].
  rewrite (expand_relax k dp from) by (done || apply (ok_length _ _ Hok)). eexists. split; [done|]. apply (dp_ok_mono k (k + 1)) in Hok; [|lia].
  destruct (n_le n_inf (dp_cost from)) eqn:Ec; [done|]. destruct (k =? full); [done|]. cbn [orb].
  assert (Hgen : forall l dp, l ⊆ nexts k -> dp_ok (k + 1) dp -> dp !! Z.to_nat k = Some from -> dp_ok (k + 1) (foldl (relax k from) dp l)); [|by apply Hgen].
  clear dp Hok Hd. induction l as [|r l IH]; intros dp Hsub Hok Hd; [done|]. cbn [foldl].
  destruct (relax_ok k dp from r Hk Ec ltac:(apply Hsub; left) Hok Hd) as [Hok' Hd']. apply IH; [|done|done]. intros x Hx. apply Hsub. by right.
Qed.

(** A property that every expansion keeps holds at the end. *)
Lemma loop_ok (P : Z -> list (DpEntry F) -> Prop) dp : (forall k dp, 1 <= k <= full -> P k dp -> exists dp', expand g full dp k = Some dp' /\ P (k + 1) dp') -> P 1 dp ->
  exists dp', foldl (fun dp mask => dp ← dp; expand g full dp (Z.of_nat mask)) (Some dp) (seq 1 (Z.to_nat full)) = Some dp' /\ P (full + 1) dp'.
Proof.
  intros Hstep HP. pose proof full_size. assert (Hgen : forall j k dp, Z.of_nat k + Z.of_nat j = full + 1 -> (1 <= k)%nat -> P (Z.of_nat k) dp ->
    exists dp', foldl (fun dp mask => dp ← dp; expand g full dp (Z.of_nat mask)) (Some dp) (seq k j) = Some dp' /\ P (full + 1) dp').
  { induction j as [|j IH]; intros k dp0 Hk H1 HP0; [exists dp0; split; [done|]; by replace (full + 1) with (Z.of_nat k) by lia|].
    cbn [seq foldl mbind option_bind]. destruct (Hstep (Z.of_nat k) dp0 ltac:(lia) HP0) as (dp1 & He & HP1). rewrite He. apply IH; [lia|lia|].
    by replace (Z.of_nat (S k)) with (Z.of_nat k + 1) by lia. }
  apply (Hgen _ 1%nat); [lia|lia|done].
Qed.

Lemma dp_base_lookup dp : length dp = 4096%nat -> forall m, 0 <= m -> dp_base g dp !! Z.to_nat m =
  match list_find (fun i => m = bit i) (rels g) with Some (_, i) => Some (base_entry i) | None => dp !! Z.to_nat m end.
Proof.
  intros Hl m Hm. unfold dp_base. pose proof full_pow as Hp. pose proof full_size as Hf.
  assert (Hgen : forall l dp, l ⊆ rels g -> length dp = 4096%nat ->
    foldl (fun dp i => <[Z.to_nat (bit i) := mkDp (card g i) (card g i) i 0 JMETH_SCAN false]> dp) dp l !! Z.to_nat m =
    match list_find (fun i => m = bit i) l with Some (_, i) => Some (base_entry i) | None => dp !! Z.to_nat m end).
  { intros l. induction l as [|i l IH] using rev_ind; intros dp0 Hsub Hl0; [done|]. rewrite foldl_snoc.
    assert (Hi : (i < n)%nat) by (apply rels_lt, Hsub, elem_of_app; right; left). pose proof (bit_bound n i Hi) as Hb.
    assert (Hlen : forall l dp, length (foldl (fun dp i => <[Z.to_nat (bit i) := mkDp (card g i) (card g i) i 0 JMETH_SCAN false]> dp) dp l) = length dp).
    { clear. induction l as [|x l IH]; intros dp; [done|]. cbn [foldl]. by rewrite IH, length_insert. }
    assert (Hinj : forall a b, bit a = bit b -> a = b).
    { intros a b E. assert (Hx : has (bit a) b = has (bit b) b) by (by rewrite E). rewrite !has_bit in Hx. rewrite (bool_decide_eq_true_2 (b = b)) in Hx by done. by apply bool_decide_eq_true in Hx. }
    destruct (decide (m = bit i)) as [->|Hne].
    - rewrite list_lookup_insert_eq by (rewrite Hlen; lia). destruct (list_find _ (l ++ [i])) as [[k j]|] eqn:Ef.
      + apply list_find_Some in Ef as (_ & E & _). by rewrite (Hinj _ _ E).
      + exfalso. apply list_find_None in Ef. rewrite list.Forall_app, list.Forall_cons in Ef. by destruct Ef as (_ & Hno & _).
    - rewrite list_lookup_insert_ne by lia. rewrite IH by (done || (intros x Hx; apply Hsub, elem_of_app; by left)).
      destruct (list_find (fun i => m = bit i) l) as [[k j]|] eqn:Ef.
      + by rewrite (list_find_app_l _ _ _ _ _ Ef).
      + rewrite list_find_app_r by done. cbn. by rewrite decide_False. }
  by apply Hgen.
Qed.

Lemma dp_start stale : length stale = 4096%nat -> dp_ok 1 (dp_base g (dp_reset stale full)).
Proof.
  intros Hl. assert (Hr : length (dp_reset stale full) = 4096%nat) by (unfold dp_reset; by rewrite length_imap). split.
  - unfold dp_base. revert Hr. generalize (dp_reset stale full). induction (rels g) as [|i l IH]; intros dp Hd; [done|]. cbn [foldl]. apply IH. by rewrite length_insert.
  - intros i Hi. rewrite dp_base_lookup by (done || (pose proof (bit_pos i); lia)). destruct (list_find _ (rels g)) as [[k j]|] eqn:Ef.
    + apply list_find_Some in Ef as (_ & E & _). assert (Hx : has (bit i) j = has (bit j) j) by (by rewrite E). rewrite !has_bit, (bool_decide_eq_true_2 (j = j)) in Hx by done.
      apply bool_decide_eq_true in Hx. by subst.
    + exfalso. apply list_find_None in Ef. rewrite list.Forall_forall in Ef. by apply (Ef i).
  - intros m e Hm Hd Hc. rewrite dp_base_lookup in Hd by (done || lia). destruct (list_find _ (rels g)) as [[k j]|] eqn:Ef.
    + apply list_find_Some in Ef as (Hj & E & _). left. exists j. split; [by eapply list_elem_of_lookup_2|done].
    + unfold dp_reset in Hd. rewrite list_lookup_imap in Hd. apply fmap_Some in Hd as (e0 & _ & ->). rewrite Z2Nat.id in Hc by lia. destruct (Z.leb_spec m full); [|lia]. cbn in Hc. congruence.
Qed.

(** *** Reading the plan off the table *)

Lemma trace k dp : dp_ok k dp -> forall m e, 1 <= m <= full -> dp !! Z.to_nat m = Some e -> n_le n_inf (dp_cost e) = false ->
  exists order method, left_deep g order method m (dp_cost e) (dp_rows e) (dp_cross e) /\ backtrack (length order) m dp = Some (order, method).
Proof.
  intros Hok m. induction (Z.lt_wf 0 m) as [m _ IH]. intros e Hm Hd Hc. destruct (ok_entry _ _ Hok m e Hm Hd Hc) as [(i & Hi & ->)|(mask & r & from & Hw & Hf & Hcf & Hr & Hh & Hj & -> & ->)].
  - rewrite (ok_base _ _ Hok i Hi) in Hd. injection Hd as <-. exists [i], [JMETH_SCAN]. split; [by constructor|]. cbn [length backtrack]. by rewrite (ok_base _ _ Hok i Hi).
  - pose proof (next_mask mask r) as Hnext. assert (Hlt : mask < Z.lor mask (bit r)) by (rewrite lor_add by done; pose proof (bit_pos r); lia).
    destruct (IH mask) with (e := from) as (order & method & Hdeep & Hback); [lia|lia|done|done|].
    exists (order ++ [r]). eexists. split; [exact (deep_join g _ _ _ _ _ _ r Hdeep Hr Hh Hj)|].
    rewrite length_app, Nat.add_1_r. cbn [backtrack]. rewrite Hd. cbn [mbind option_bind dp_prev step_entry]. by rewrite Hback.
Qed.

Lemma deep_first order method mask cost rows cross : left_deep g order method mask cost rows cross -> method !! O = Some JMETH_SCAN.
Proof. induction 1 as [|? method ? ? ? ? ? ? IH]; [done|]. by apply lookup_app_l_Some. Qed.

(** An order that joins everything is a permutation of the relations. *)
Lemma deep_full order method cost rows cross : left_deep g order method full cost rows cross -> order ≡ₚ rels g /\ length order = n.
Proof.
  intros Hdeep. destruct (deep_facts _ _ _ _ _ _ Hdeep) as (Hnd & Hx & Hsub & _). assert (Hp : order ≡ₚ rels g).
  { apply list.NoDup_Permutation; [done|apply NoDup_seq|]. intros x. rewrite <- Hx, has_full, bool_decide_eq_true. symmetry. apply rels_lt. }
  split; [done|]. rewrite Hp. unfold rels. apply length_seq.
Qed.
End Sound.

Section Optimize.
Context {F : Type} `{Num F} (g : JoinGraph F) (stale : list (DpEntry F)) (Hstale : length stale = 4096%nat).

Lemma valid_nrel : valid_graph g = true -> 1 <= nrel g <= JOPT_MAX_REL.
Proof. unfold valid_graph. rewrite !andb_true_iff, !Z.leb_le. lia. Qed.

(** The table at the end of the loop satisfies whatever its expansions keep. *)
Lemma optimize_table (P : Z -> list (DpEntry F) -> Prop) : n_le n_inf n_inf = true -> valid_graph g = true ->
  let full := Z.shiftl 1 (nrel g) - 1 in
  (forall k dp, 1 <= k <= full -> dp_ok g k dp -> P k dp -> forall dp', expand g full dp k = Some dp' -> P (k + 1) dp') ->
  P 1 (dp_base g (dp_reset stale full)) ->
  exists dp e, dp_ok g (full + 1) dp /\ P (full + 1) dp /\ dp !! Z.to_nat full = Some e /\
    ((n_le n_inf (dp_cost e) = true /\ joinopt_optimize g stale = Some None) \/
     exists order method, n_le n_inf (dp_cost e) = false /\ left_deep g order method full (dp_cost e) (dp_rows e) (dp_cross e) /\
       joinopt_optimize g stale = Some (Some (mkPlan order method (dp_cost e) (dp_rows e) (dp_cross e)))).
Proof.
  intros Hinf Hv full Hstep Hstart. pose proof (valid_nrel Hv) as Hn. pose proof (full_size g Hn) as Hf. fold full in Hf.
  destruct (loop_ok g Hn (fun k dp => dp_ok g k dp /\ P k dp) (dp_base g (dp_reset stale full))) as (dp & Hloop & Hok & HP).
  { intros k dp Hk [Hok HP]. destruct (expand_ok g Hn k dp Hk Hok) as (dp' & He & Hok'). exists dp'. split; [done|]. split; [done|]. by eapply Hstep. }
  { split; [by apply dp_start|done]. }
  fold full in Hloop, Hok, HP. destruct (lookup_lt_is_Some_2 dp (Z.to_nat full)) as [e He]; [rewrite (ok_length _ _ _ Hok); lia|].
  exists dp, e. do 3 (split; [done|]). unfold joinopt_optimize. rewrite Hv. cbn [negb]. fold full. rewrite Hloop. cbn [mbind option_bind]. rewrite He. cbn [mbind option_bind].
  destruct (n_le n_inf (dp_cost e)) eqn:Ec; [by left|right].
  destruct (trace g Hn _ dp Hok full e ltac:(subst full; lia) He Ec) as (order & method & Hdeep & Hback). destruct (deep_full g Hinf Hn _ _ _ _ _ Hdeep) as [_ Hlen].
  rewrite Hlen in Hback. rewrite Hback. cbn [mbind option_bind]. exists order, method. split; [done|]. split; [done|]. by rewrite list_insert_id by (eapply deep_first; exact Hdeep).
Qed.
End Optimize.

(** C16. Whatever the arithmetic (the program's is that of doubles) and whatever an earlier
    call left in the static tables, planning a valid graph terminates without
    touching memory outside them, and either refuses (the cost reached 1e300) or
    returns an order of all relations, each once, that takes cross products only when
    nothing is connected; the cost, row count, methods and cross-product flag are
    exactly, rounding included, those of joining in that order.  Invalid graphs are refused. *)
Theorem joinopt_sound (F : Type) `{Num F} (g : JoinGraph F) (stale : list (DpEntry F)) :
  length stale = 4096%nat -> n_le n_inf n_inf = true ->
  if valid_graph g
  then joinopt_optimize g stale = Some None \/
    exists plan, joinopt_optimize g stale = Some (Some plan) /\ p_order plan ≡ₚ seq 0 (Z.to_nat (nrel g)) /\
      left_deep g (p_order plan) (p_method plan) (2 ^ nrel g - 1) (p_cost plan) (p_rows plan) (p_had_cross plan)
  else joinopt_optimize g stale = Some None.
Proof.
  intros Hs Hinf. destruct (valid_graph g) eqn:Hv; [|unfold joinopt_optimize; by rewrite Hv]. pose proof (valid_nrel g stale Hs Hv) as Hn.
  destruct (optimize_table g stale Hs (fun _ _ => True) Hinf Hv ltac:(done) ltac:(done)) as (dp & e & _ & _ & _ & [[_ ->]|(order & method & _ & Hdeep & ->)]); [by left|right].
  eexists. split; [done|]. cbn. destruct (deep_full g Hinf Hn _ _ _ _ _ Hdeep) as [Hp _]. split; [done|]. by rewrite <- Z.shiftl_1_l.
Qed.

(** ** With exact arithmetic the plan is optimal *)

Definition prodl (f : nat -> Qc) (l : list nat) : Qc := foldr (fun x acc => (f x * acc)%Qc) 1%Qc l.

Lemma prodl_perm f l l' : l ≡ₚ l' -> prodl f l = prodl f l'.
Proof. unfold prodl. induction 1 as [|x l l' _ IH|x y l|l l' l'' _ IH1 _ IH2]; cbn; [done|by rewrite IH|ring|congruence]. Qed.

Lemma prodl_nonneg f l : (forall x, x ∈ l -> (0 <= f x)%Qc) -> (0 <= prodl f l)%Qc.
Proof.
  induction l as [|x l IH]; intros Hf; cbn; [done|]. apply Qcmult_nonneg_nonneg; [apply Hf; left|]. apply IH. intros y Hy. apply Hf. by right.
Qed.

Lemma exact_inf : n_le (F := Qc) n_inf n_inf = true.
Proof. by apply bool_decide_eq_true. Qed.

Section Exact.
Context (g : JoinGraph Qc) (Hn : 1 <= nrel g <= JOPT_MAX_REL).
Context (Hsym : forall i j, i ∈ rels g -> j ∈ rels g -> sel g i j = sel g j i).
Context (Hsel : forall i j, i ∈ rels g -> j ∈ rels g -> (0 <= sel g i j)%Qc) (Hcard : forall i, i ∈ rels g -> (0 <= card g i)%Qc).
Let full := Z.shiftl 1 (nrel g) - 1.

(** The selectivity between two relations, 1 without a predicate. *)
Definition edge (r x : nat) : Qc := if n_lt (sel g r x) n_one then sel g r x else 1%Qc.

Lemma combined_prod mask r : (combined_sel g mask r).1 = prodl (edge r) (filter (fun x => has mask x = true) (rels g)).
Proof.
  unfold combined_sel. change (@n_one Qc _) with 1%Qc at 2.
  assert (Hgen : forall l s conn, (foldl (fun '(s, conn) x => if negb (has mask x) then (s, conn) else if n_lt (sel g r x) n_one then (n_mul s (sel g r x), true) else (s, conn)) (s, conn) l).1 =
    (s * prodl (edge r) (filter (fun x => has mask x = true) l))%Qc).
  { induction l as [|x l IH]; intros s conn; [cbn; ring|]. cbn [foldl]. rewrite filter_cons. destruct (has mask x) eqn:Eh; cbn [negb].
    - rewrite decide_True by done. cbn [prodl foldr]. fold (prodl (edge r) (filter (fun x => has mask x = true) l)). unfold edge at 1. destruct (n_lt (sel g r x) n_one); rewrite IH; cbn [n_mul exact_num]; ring.
    - rewrite decide_False by done. apply IH. }
  rewrite Hgen. ring.
Qed.

(** The rows of a join do not depend on its order. *)
Fixpoint weight (l : list nat) : Qc := match l with [] => 1%Qc | x :: l => (card g x * prodl (edge x) l * weight l)%Qc end.

Lemma weight_perm l l' : l ≡ₚ l' -> l ⊆ rels g -> weight l = weight l'.
Proof.
  induction 1 as [|x l l' Hp IH|x y l|l l' l'' Hp1 IH1 Hp2 IH2]; intros Hs; cbn [weight prodl foldr].
  - done.
  - rewrite (prodl_perm _ _ _ Hp), IH; [done|set_solver].
  - fold (prodl (edge x) l) (prodl (edge y) l). assert (E : edge y x = edge x y) by (unfold edge; by rewrite (Hsym y x) by set_solver). rewrite E. ring.
  - rewrite IH1 by done. apply IH2. intros z Hz. apply Hs. by rewrite Hp1.
Qed.

Lemma deep_rows order method mask cost rows cross : left_deep g order method mask cost rows cross -> rows = weight order.
Proof.
  induction 1 as [i Hi|order method mask cost rows cross r Hd IH Hr Hh Hj]; [cbn; ring|].
  destruct (deep_facts g exact_inf Hn _ _ _ _ _ _ Hd) as (Hnd & Hx & Hsub & _ & _).
  rewrite (weight_perm (order ++ [r]) (r :: order)) by ((by rewrite Permutation_app_comm) || set_solver). cbn [weight]. rewrite combined_prod, IH.
  rewrite (prodl_perm _ (filter (fun x => has mask x = true) (rels g)) order); [cbn [n_mul exact_num]; ring|].
  apply list.NoDup_Permutation; [apply list.NoDup_filter, NoDup_seq|done|]. intros x. rewrite list_elem_of_filter, Hx. set_solver.
Qed.

Lemma edge_nonneg i j : i ∈ rels g -> j ∈ rels g -> (0 <= edge i j)%Qc.
Proof. intros Hi Hj. unfold edge. destruct (n_lt _ _); [by apply Hsel|done]. Qed.

Lemma weight_nonneg l : l ⊆ rels g -> (0 <= weight l)%Qc.
Proof.
  induction l as [|x l IH]; intros Hs; cbn; [done|]. apply Qcmult_nonneg_nonneg; [apply Qcmult_nonneg_nonneg; [apply Hcard; set_solver|]|apply IH; set_solver].
  apply prodl_nonneg. intros y Hy. apply edge_nonneg; set_solver.
Qed.

Lemma step_cost_nonneg r rows conn : r ∈ rels g -> (0 <= rows)%Qc -> (0 <= (join_step_cost g r rows conn).1)%Qc.
Proof.
  intros Hr Hrows. pose proof (Hcard r Hr) as Hc. assert (Hnest : (0 <= rows * card g r)%Qc) by (by apply Qcmult_nonneg_nonneg).
  assert (Hhash : (0 <= card g r + rows)%Qc) by (by apply Qcplus_nonneg_nonneg). assert (Hidx : (0 <= rows * 1)%Qc) by (by rewrite Qcmult_1_r).
  unfold join_step_cost. destruct conn; cbn [negb fst]; [|done]. cbn [n_add n_mul n_one exact_num]. destruct (is_indexed g r); [destruct (n_lt (rows * 1)%Qc _)|]; destruct (n_lt _ _); done.
Qed.

(** *** The table is a fixed point of the recurrence *)

Definition bellman (k : Z) (dp : list (DpEntry Qc)) : Prop :=
  forall mask from, 1 <= mask < k -> dp !! Z.to_nat mask = Some from -> n_le n_inf (dp_cost from) = false -> forall r, r ∈ nexts g mask ->
  exists to, dp !! Z.to_nat (Z.lor mask (bit r)) = Some to /\ (dp_cost to <= dp_cost (step_entry g mask from r))%Qc.

(** Costs only go down, and only those of larger masks. *)
Definition lower (mask : Z) (dp dp' : list (DpEntry Qc)) : Prop :=
  forall m e, 0 <= m -> dp !! Z.to_nat m = Some e -> exists e', dp' !! Z.to_nat m = Some e' /\ (dp_cost e' <= dp_cost e)%Qc /\ (m <= mask -> e' = e).

Lemma lower_trans mask dp1 dp2 dp3 : lower mask dp1 dp2 -> lower mask dp2 dp3 -> lower mask dp1 dp3.
Proof.
  intros H1 H2 m e Hm He. destruct (H1 m e Hm He) as (e2 & He2 & Hle2 & Hs2). destruct (H2 m e2 Hm He2) as (e3 & He3 & Hle3 & Hs3).
  exists e3. split; [done|]. split; [by etrans|]. intros Hx. by rewrite (Hs3 Hx), (Hs2 Hx).
Qed.

Lemma relax_lower mask from dp r : 1 <= mask <= full -> r ∈ nexts g mask -> length dp = 4096%nat ->
  lower mask dp (relax g mask from dp r) /\
  exists to, relax g mask from dp r !! Z.to_nat (Z.lor mask (bit r)) = Some to /\ (dp_cost to <= dp_cost (step_entry g mask from r))%Qc.
Proof.
  intros Hm Hr Hl. apply nexts_spec in Hr as [[Hh Hj] Hr]. pose proof (next_mask g Hn mask r Hm Hr Hh) as Hnext. fold full in Hnext. pose proof (full_size g Hn) as Hf. fold full in Hf.
  destruct (lookup_lt_is_Some_2 dp (Z.to_nat (Z.lor mask (bit r)))) as [to Hto]; [lia|]. unfold relax. rewrite Hto. cbn [n_lt exact_num].
  destruct (bool_decide_reflect (dp_cost (step_entry g mask from r) < dp_cost to)%Qc) as [Hlt|Hge].
  - split; [|eexists; split; [apply list_lookup_insert_eq; lia|done]]. intros m e Hm0 He. destruct (decide (m = Z.lor mask (bit r))) as [->|Hne].
    + eexists. rewrite list_lookup_insert_eq by lia. split; [done|]. assert (E : e = to) by congruence. subst e. split; [by apply Qclt_le_weak|lia].
    + exists e. rewrite list_lookup_insert_ne by lia. done.
  - split; [by intros m e _ He; exists e|]. exists to. split; [done|]. by apply Qcnot_lt_le.
Qed.

Lemma relax_length mask from dp r : length (relax g mask from dp r) = length dp.
Proof. unfold relax. destruct (dp !! _); [|done]. destruct (n_lt _ _); [by rewrite length_insert|done]. Qed.

Lemma relax_all mask from l : 1 <= mask <= full -> l ⊆ nexts g mask -> forall dp, length dp = 4096%nat ->
  lower mask dp (foldl (relax g mask from) dp l) /\
  forall r, r ∈ l -> exists to, foldl (relax g mask from) dp l !! Z.to_nat (Z.lor mask (bit r)) = Some to /\ (dp_cost to <= dp_cost (step_entry g mask from r))%Qc.
Proof.
  intros Hm. induction l as [|x l IH]; intros Hs dp Hl; [split; [by intros m e _ He; exists e|by intros r ?%elem_of_nil]|]. cbn [foldl].
  destruct (relax_lower mask from dp x Hm ltac:(apply Hs; left) Hl) as [Hlow (to & Hto & Hle)].
  destruct (IH ltac:(intros y Hy; apply Hs; by right) (relax g mask from dp x)) as [Hlow' Hall]; [by rewrite relax_length|]. split; [by eapply lower_trans|].
  intros r [->|Hr]%elem_of_cons; [|by apply Hall]. assert (Hpos : 0 <= Z.lor mask (bit x)) by (apply Z.lor_nonneg; pose proof (bit_pos x); lia).
  destruct (Hlow' _ _ Hpos Hto) as (e' & He' & Hle' & _). exists e'. split; [done|]. by etrans.
Qed.

Lemma bellman_step k dp dp' : 1 <= k <= full -> dp_ok g k dp -> bellman k dp -> expand g full dp k = Some dp' -> bellman (k + 1) dp'.
Proof.
  intros Hk Hok HB He. pose proof (full_size g Hn) as Hf. fold full in Hf. pose proof (ok_length _ _ _ Hok) as Hl.
  destruct (lookup_lt_is_Some_2 dp (Z.to_nat k)) as [from Hd]; [lia|]. rewrite (expand_relax g Hn k dp from Hk Hl Hd) in He. fold full in He. apply (inj Some) in He. subst dp'.
  assert (Hcase : exists l, l ⊆ nexts g k /\ (n_le n_inf (dp_cost from) = false -> nexts g k ⊆ l) /\
    (if n_le n_inf (dp_cost from) || (k =? full) then dp else foldl (relax g k from) dp (nexts g k)) = foldl (relax g k from) dp l).
  { destruct (n_le n_inf (dp_cost from)) eqn:Ec; [by exists []; split; [set_solver|]|]. destruct (Z.eqb_spec k full) as [->|Hne]; cbn [orb]; [|by exists (nexts g k)].
    exists []. split; [set_solver|]. split; [|done]. intros _ r [[Hh _] Hr]%nexts_spec. apply (rels_lt g) in Hr. unfold full in Hh. rewrite (has_full g Hn), bool_decide_eq_false in Hh. by exfalso. }
  destruct Hcase as (l & Hls & Hcov & ->). destruct (relax_all k from l Hk Hls dp Hl) as [Hlow Hall].
  intros mask from' Hmask Hd' Hc r Hr.
  assert (Hpos : 0 <= Z.lor mask (bit r)) by (apply Z.lor_nonneg; pose proof (bit_pos r); lia).
  assert (Hsame : forall m e, 1 <= m <= k -> foldl (relax g k from) dp l !! Z.to_nat m = Some e -> dp !! Z.to_nat m = Some e).
  { intros m e Hm Hm'. destruct (lookup_lt_is_Some_2 dp (Z.to_nat m)) as [e0 He0]; [lia|]. destruct (Hlow m e0 ltac:(lia) He0) as (e' & He' & _ & Heq). rewrite Heq in He' by lia. congruence. }
  apply Hsame in Hd'; [|lia]. destruct (decide (mask = k)) as [->|Hne].
  - assert (from' = from) as -> by congruence. apply Hall. by apply Hcov.
  - destruct (HB mask from' ltac:(lia) Hd' Hc r Hr) as (to & Hto & Hle). destruct (Hlow _ _ Hpos Hto) as (to' & Hto' & Hle' & _). exists to'. split; [done|]. by etrans.
Qed.

Lemma deep_cheaper dp : dp_ok g (full + 1) dp -> bellman (full + 1) dp -> forall order method mask cost rows cross,
  left_deep g order method mask cost rows cross -> (cost < n_inf)%Qc -> exists e, dp !! Z.to_nat mask = Some e /\ (dp_cost e <= cost)%Qc.
Proof.
  intros Hok HB order method mask cost rows cross Hd. induction Hd as [i Hi|order method mask cost rows cross r Hd IH Hr Hh Hj]; intros Hlt.
  { exists (base_entry g i). split; [by apply (ok_base _ _ _ Hok)|done]. }
  destruct (deep_facts g exact_inf Hn _ _ _ _ _ _ Hd) as (_ & _ & Hsub & Hm & _). fold full in Hm. pose proof (deep_rows _ _ _ _ _ _ Hd) as Hrows.
  assert (Hadd : (0 <= (join_step_cost g r rows (connected g mask r)).1)%Qc) by (apply step_cost_nonneg; [done|rewrite Hrows; by apply weight_nonneg]).
  assert (Hlt0 : (cost < n_inf)%Qc).
  { eapply Qcle_lt_trans; [|exact Hlt]. rewrite <- (Qcplus_0_r cost) at 1. by apply Qcplus_le_mono_l. }
  destruct (IH Hlt0) as (from & Hf & Hle).
  assert (Hc : n_le n_inf (dp_cost from) = false).
  { apply bool_decide_eq_false. intros Hge. apply (Qclt_not_le _ _ Hlt0). by etrans. }
  destruct (HB mask from ltac:(lia) Hf Hc r) as (to & Hto & Hlto); [by apply nexts_spec|]. exists to. split; [done|]. etrans; [exact Hlto|]. cbn [step_entry dp_cost].
  destruct (trace g Hn _ dp Hok mask from Hm Hf Hc) as (order' & method' & Hd' & _). pose proof (deep_rows _ _ _ _ _ _ Hd') as Hrows'.
  destruct (deep_facts g exact_inf Hn _ _ _ _ _ _ Hd) as (Hnd & Hx & _). destruct (deep_facts g exact_inf Hn _ _ _ _ _ _ Hd') as (Hnd' & Hx' & Hsub' & _).
  assert (E : dp_rows from = rows). { rewrite Hrows, Hrows'. apply weight_perm; [|done]. apply list.NoDup_Permutation; [done|done|]. intros x. by rewrite <- Hx, <- Hx'. }
  rewrite E. cbn [n_add exact_num]. by apply Qcplus_le_mono_r.
Qed.
End Exact.

(** The order of the query, when it takes cross products only as a last resort. *)
Definition query_order_ok {F} `{Num F} (g : JoinGraph F) : bool := forallb (fun k => may_join g (2 ^ Z.of_nat k - 1) k) (seq 1 (Z.to_nat (nrel g) - 1)).

Lemma ones_next k : Z.lor (2 ^ Z.of_nat k - 1) (bit k) = 2 ^ Z.of_nat (S k) - 1 /\ has (2 ^ Z.of_nat k - 1) k = false.
Proof.
  assert (Hh : has (2 ^ Z.of_nat k - 1) k = false).
  { rewrite has_testbit. replace (2 ^ Z.of_nat k - 1) with (Z.ones (Z.of_nat k)) by (rewrite Z.ones_equiv; lia). rewrite Z.testbit_ones_nonneg by lia. apply Z.ltb_irrefl. }
  split; [|done]. rewrite lor_add, bit_pow by done. rewrite Nat2Z.inj_succ, Z.pow_succ_r by lia. lia.
Qed.

Lemma naive_deep (g : JoinGraph Qc) : valid_graph g = true -> query_order_ok g = true ->
  exists method rows cross, left_deep g (rels g) method (2 ^ nrel g - 1) (joinopt_naive_cost g).1 rows cross.
Proof.
  intros Hv Hq. assert (Hn : 1 <= nrel g) by (unfold valid_graph in Hv; rewrite !andb_true_iff, !Z.leb_le in Hv; lia). unfold joinopt_naive_cost. rewrite Hv. cbn [negb].
  set (step := fun '(mask, cost, rows, method, cross) r => _). set (n := Z.to_nat (nrel g)) in *.
  assert (Hgen : forall j, (j <= n - 1)%nat -> exists cost rows method cross, foldl step (1, card g O, card g O, [JMETH_SCAN], false) (seq 1 j) = (2 ^ Z.of_nat (S j) - 1, cost, rows, method, cross) /\
    left_deep g (seq 0 (S j)) method (2 ^ Z.of_nat (S j) - 1) cost rows cross).
  { induction j as [|j IH]; intros Hj.
    - exists (card g O), (card g O), [JMETH_SCAN], false. split; [done|]. apply (deep_base g O). unfold rels. fold n. rewrite elem_of_seq. lia.
    - destruct IH as (cost & rows & method & cross & Hf & Hd); [lia|]. rewrite seq_S, foldl_snoc, Hf. cbn [Nat.add]. unfold step. destruct (ones_next (S j)) as [Hnext Hh].
      assert (Hmay : may_join g (2 ^ Z.of_nat (S j) - 1) (S j) = true) by (unfold query_order_ok in Hq; rewrite forallb_forall in Hq; apply Hq, list_elem_of_In, elem_of_seq; lia).
      assert (Hr : S j ∈ rels g) by (unfold rels; fold n; rewrite elem_of_seq; lia). pose proof (deep_join g _ _ _ _ _ _ (S j) Hd Hr Hh Hmay) as Hd'.
      rewrite Hnext in Hd' |- *. unfold connected in Hd'. destruct (combined_sel g (2 ^ Z.of_nat (S j) - 1) (S j)) as [csel conn]. cbn [fst snd] in *.
      destruct (join_step_cost g (S j) rows conn) as [add meth]. cbn [fst snd] in *. do 4 eexists. split; [done|].
      rewrite (seq_S (S j) 0). cbn [Nat.add]. cbn [n_mul exact_num] in *. by rewrite Qcmult_assoc. }
  destruct (Hgen (n - 1)%nat ltac:(lia)) as (cost & rows & method & cross & Hf & Hd). rewrite Hf. exists method, rows, cross. cbn [fst].
  replace (S (n - 1)) with n in Hd by lia. unfold rels. fold n. by replace (nrel g) with (Z.of_nat n) by lia.
Qed.

(** C37. In exact arithmetic, for symmetric nonnegative selectivities, planning is optimal: if
    any left-deep order that takes cross products only as a last resort costs less
    than 1e300, a plan is returned and none of these orders is cheaper; in particular
    the plan costs no more than the order of the query when that is one of them. *)
Theorem joinopt_optimal (g : JoinGraph Qc) (stale : list (DpEntry Qc)) :
  length stale = 4096%nat -> valid_graph g = true ->
  (forall i j, (Z.of_nat i < nrel g) -> (Z.of_nat j < nrel g) -> sel g i j = sel g j i /\ (0 <= sel g i j)%Qc) ->
  (forall order method cost rows cross, left_deep g order method (2 ^ nrel g - 1) cost rows cross -> (cost < n_inf)%Qc ->
    exists plan, joinopt_optimize g stale = Some (Some plan) /\ (p_cost plan <= cost)%Qc /\ p_rows plan = rows) /\
  (query_order_ok g = true -> ((joinopt_naive_cost g).1 < n_inf)%Qc ->
    exists plan, joinopt_optimize g stale = Some (Some plan) /\ (p_cost plan <= (joinopt_naive_cost g).1)%Qc).
Proof.
  intros Hs Hv Hsel. pose proof (valid_nrel g stale Hs Hv) as Hn.
  assert (Hin : forall i, i ∈ rels g -> Z.of_nat i < nrel g) by (intros i Hi%rels_lt; lia).
  assert (Hsym : forall i j, i ∈ rels g -> j ∈ rels g -> sel g i j = sel g j i) by (intros i j Hi Hj; apply Hsel; auto).
  assert (Hpos : forall i j, i ∈ rels g -> j ∈ rels g -> (0 <= sel g i j)%Qc) by (intros i j Hi Hj; apply Hsel; auto).
  assert (Hcard : forall i, i ∈ rels g -> (0 <= card g i)%Qc).
  { intros i Hi. unfold valid_graph in Hv. rewrite !andb_true_iff, forallb_forall in Hv. destruct Hv as [_ Hc]. specialize (Hc i ltac:(by apply list_elem_of_In)).
    apply negb_true_iff, bool_decide_eq_false in Hc. by apply Qcnot_lt_le. }
  destruct (optimize_table g stale Hs (bellman g) exact_inf Hv) as (dp & e & Hok & HB & He & Hres).
  { intros k dp Hk Hok HB dp' Hex. by eapply bellman_step. }
  { intros mask from Hm. lia. }
  assert (Hopt : forall order method cost rows cross, left_deep g order method (2 ^ nrel g - 1) cost rows cross -> (cost < n_inf)%Qc ->
    exists plan, joinopt_optimize g stale = Some (Some plan) /\ (p_cost plan <= cost)%Qc /\ p_rows plan = rows).
  { intros order method cost rows cross Hd Hlt. rewrite <- Z.shiftl_1_l in Hd.
    destruct (deep_cheaper g Hn Hsym Hpos Hcard dp Hok HB _ _ _ _ _ _ Hd Hlt) as (e' & He' & Hle). assert (e' = e) as -> by congruence.
    destruct Hres as [[Hge _]|(order' & method' & _ & Hd' & ->)]; [exfalso; apply bool_decide_eq_true in Hge; apply (Qclt_not_le _ _ Hlt); by etrans|].
    eexists. split; [done|]. split; [done|]. cbn [p_rows]. rewrite (deep_rows g Hn Hsym Hpos Hcard _ _ _ _ _ _ Hd), (deep_rows g Hn Hsym Hpos Hcard _ _ _ _ _ _ Hd').
    destruct (deep_full g exact_inf Hn _ _ _ _ _ Hd) as [Hp _]. destruct (deep_full g exact_inf Hn _ _ _ _ _ Hd') as [Hp' _].
    apply (weight_perm g Hn Hsym Hpos Hcard); [by rewrite Hp|]. intros x Hx. by rewrite <- Hp'. }
  split; [exact Hopt|]. intros Hq Hlt. destruct (naive_deep g Hv Hq) as (method & rows & cross & Hd). destruct (Hopt _ _ _ _ _ Hd Hlt) as (plan & Hp & Hc & _). by exists plan.
Qed.

(** ** Concrete graphs *)

(** Two small relations and a large indexed one, each of the small ones joined with the
    large one: joining the small ones first, as the query does, is by far cheapest. *)
Definition star {F} `{Num F} (small large half : F) : JoinGraph F :=
  mkGraph 3 (fun i => if Nat.eqb i 2 then large else small)
    (fun i j => if xorb (Nat.eqb i 2) (Nat.eqb j 2) then half else n_one) (fun i => Nat.eqb i 2).

Definition stale_tables {F} `{Num F} : list (DpEntry F) := replicate 4096 (mkDp n_one n_zero 5 3 JMETH_HASH true).

Definition star_double : JoinGraph double := star (double_of 1) (double_of 1000000) (double_div (double_of 1) (double_of 2)).

(** The plan can cost more than the order of the query: joining two relations of one
    row each and an indexed relation of a million rows in the order of the query
    costs 3, but the plan costs 500002, because it never takes the cross product of
    the small relations while one of them is connected to the large one. *)
Example joinopt_worse_than_naive :
  long_of (joinopt_naive_cost star_double).1 = Some 3 /\
  option_map (option_map (fun plan => (p_order plan, p_method plan, long_of (p_cost plan), p_had_cross plan))) (joinopt_optimize star_double stale_tables) =
    Some (Some ([0; 2; 1]%nat, [JMETH_SCAN; JMETH_INDEX; JMETH_SCAN], Some 500002, false)).
Proof. vm_compute. split; reflexivity. Qed.

Lemma joinopt_sound_witness : exists plan, joinopt_optimize star_double stale_tables = Some (Some plan) /\ p_order plan ≡ₚ [0; 1; 2]%nat /\
  left_deep star_double (p_order plan) (p_method plan) 7 (p_cost plan) (p_rows plan) (p_had_cross plan).
Proof.
  pose proof (joinopt_sound double star_double stale_tables ltac:(vm_compute; reflexivity) ltac:(vm_compute; reflexivity)) as Hs.
  assert (Hv : valid_graph star_double = true) by (vm_compute; reflexivity). rewrite Hv in Hs.
  assert (Ho : match joinopt_optimize star_double stale_tables with Some None => False | _ => True end) by (vm_compute; exact I).
  destruct Hs as [E|(plan & E & Hp & Hd)]; [rewrite E in Ho; destruct Ho|]. exists plan. split; [exact E|]. split; [exact Hp|exact Hd].
Defined.

(** A chain whose order in the query is connected. *)
Definition chain_exact : JoinGraph Qc :=
  mkGraph 3 (fun i => Q2Qc (QArith_base.Qmake (match i with O => 100 | 1%nat => 10 | _ => 1000 end) 1))
    (fun i j => if Nat.eqb (i + j) 1 || Nat.eqb (i + j) 3 then Q2Qc (QArith_base.Qmake 1 10) else 1%Qc) (fun _ => false).

Lemma joinopt_optimal_witness : exists plan, joinopt_optimize chain_exact stale_tables = Some (Some plan) /\ (p_cost plan <= Q2Qc (QArith_base.Qmake 1310 1))%Qc.
Proof.
  destruct (joinopt_optimal chain_exact stale_tables) as [_ Hnaive].
  - vm_compute. reflexivity.
  - vm_compute. reflexivity.
  - intros i j Hi Hj. split; [|unfold chain_exact; cbn [sel]; destruct (_ || _); discriminate]. unfold chain_exact. cbn [sel]. by rewrite (Nat.add_comm i j).
  - assert (E : (joinopt_naive_cost chain_exact).1 = Q2Qc (QArith_base.Qmake 1310 1)) by (vm_compute; reflexivity). rewrite E in Hnaive. apply Hnaive; vm_compute; reflexivity.
Defined.
