(* ===== verification/Replica.v ===== *)
(** * Log shipping (src/src/replica.c)

    A replica reads the log of a primary from the offset it has reached, collects the
    page images of a segment and writes them to its own data file when it meets the
    commit marker; an unfinished tail is left for the next call.  The log is the bytes
    the primary has written when the replica reads. *)
From S2P Require Import Prelude Page Pager Wal.

Record WalReplica := mkReplica { r_data : Pager; apply_off : Z; applied_lsn : Z; commits_applied : Z }.

Definition replica_open (data_file : File) : WalReplica := mkReplica (pager_open data_file) 0 0 0.

Definition replica_position (r : WalReplica) : Z := applied_lsn r.

(** The loop of [replica_apply]; the images collected since the last marker are [pend],
    [applied] counts the commits applied in this call. *)
Fixpoint replica_loop (fuel : nat) (log : bytes) (off : Z) (pnd : list (Z * bytes)) (r : WalReplica) (applied : Z) : WalReplica * Z :=
  match fuel with
  | O => (r, applied)
  | S fuel =>
      match get_le 1 log off, get_le 8 log (off + 1) with
      | Some type, Some lsn =>
          let off := off + 1 + 8 in
          if type =? REC_PAGE then
            match get_le 8 log off with
            | None => (r, applied)
            | Some pid =>
                if WAL_MAX_STAGED <=? blen pnd then (r, -1)
                else
                  match read_exact log (off + 8) PAGE_SIZE with
                  | None => (r, applied)
                  | Some img => replica_loop fuel log (off + 8 + PAGE_SIZE) (pnd ++ [(pid, img)]) r applied
                  end
            end
          else if type =? REC_BEGIN then
            match get_le 8 log off with
            | None => (r, applied)
            | Some _ => replica_loop fuel log (off + 8) pnd r applied
            end
          else if type =? REC_UNDO then
            match get_le 8 log off, read_exact log (off + 8) PAGE_SIZE with
            | Some _, Some _ => replica_loop fuel log (off + 8 + PAGE_SIZE) pnd r applied
            | _, _ => (r, applied)
            end
          else if type =? REC_COMMIT then
            if applied_lsn r <? lsn then
              let '(d, ok) := apply_staged (r_data r) pnd in
              if negb ok then (mkReplica d (apply_off r) (applied_lsn r) (commits_applied r), -1)
              else replica_loop fuel log off [] (mkReplica d off lsn (u64 (commits_applied r + 1))) (applied + 1)
            else replica_loop fuel log off [] (mkReplica (r_data r) off (applied_lsn r) (commits_applied r)) applied
          else (r, applied)
      | _, _ => (r, applied)
      end
  end.

Definition replica_apply (r : WalReplica) (log : bytes) : WalReplica * Z :=
  let r := if blen log <? apply_off r then mkReplica (r_data r) 0 (applied_lsn r) (commits_applied r) else r in
  replica_loop (log_fuel log) log (apply_off r) [] r 0.

(** ** Writing page images to a file that may grow *)

Definition file_page (f : File) (p : Z) : option bytes := mem_read (content f) (p * PAGE_SIZE) PAGE_SIZE.

Lemma pwrite_page f p img : 0 <= p -> page_ok img -> (p + 1) * PAGE_SIZE <= limit f -> file_size f <= limit f ->
  exists f', pwrite f img (p * PAGE_SIZE) = (f', PAGE_SIZE) /\ limit f' = limit f /\ file_size f' <= limit f' /\ file_page f' p = Some img /\
    forall q x, q <> p -> file_page f q = Some x -> file_page f' q = Some x.
Proof.
  intros Hp [Hi Hb] Hlim Hsz. unfold pwrite, PAGE_SIZE in *. destruct (Z.ltb_spec (p * 4096) 0); [lia|]. destruct (Z.leb_spec (limit f) (p * 4096)); [lia|]. cbn [orb].
  rewrite (take_ge img) by (unfold blen in *; lia). eexists. rewrite Hi. split; [done|]. cbn [limit content]. split; [done|].
  set (pre := take (Z.to_nat (p * 4096)) (content f ++ zeros (p * 4096 - file_size f))). set (post := drop (Z.to_nat (p * 4096) + length img) (content f)).
  assert (Hpre : blen pre = p * 4096).
  { unfold pre, blen, zeros. rewrite length_take, length_app, length_replicate. unfold file_size, blen. lia. }
  assert (Hfull : blen (pre ++ img ++ post) <= limit f).
  { rewrite !blen_app, Hpre, Hi. unfold post, file_size in *. unfold blen in *. rewrite length_drop. lia. }
  split; [unfold file_size; cbn [content limit]; exact Hfull|].
  split; [unfold file_page; cbn [content]; unfold PAGE_SIZE; rewrite <- Hpre; by apply mem_read_mid|].
  intros q x Hne Hq. unfold file_page in *. cbn [content]. unfold PAGE_SIZE in *. pose proof Hq as (Hq0 & _ & Hq2 & _)%mem_read_inv. rewrite <- Hq.
  assert (Hz : blen (content f ++ zeros (p * 4096 - file_size f)) >= p * 4096).
  { rewrite blen_app. unfold zeros, file_size. unfold blen at 2. rewrite length_replicate. lia. }
  destruct (Z.lt_total q p) as [Hlt|[->|Hgt]]; [|done|].
  - unfold pre. rewrite mem_read_prefix by lia. apply mem_read_app_l. lia.
  - rewrite mem_read_app_r by lia. rewrite mem_read_app_r by lia. unfold post.
    rewrite <- (take_drop (Z.to_nat (p * 4096) + length img) (content f)) at 2.
    assert (Hk : blen (take (Z.to_nat (p * 4096) + length img) (content f)) = p * 4096 + 4096) by (unfold blen in *; rewrite length_take; lia).
    rewrite mem_read_app_r by lia. f_equal. lia.
Qed.

(** Pages of a data file, whatever the page count of its [Pager] says. *)
Definition shows (d : Pager) (p : Z) (x : bytes) : Prop := file_page (fd d) p = Some x.

Definition fits_disk (lim : Z) (ws : list (Z * bytes)) : Prop := Forall (fun w => 0 <= w.1 /\ (w.1 + 1) * PAGE_SIZE <= lim /\ page_ok w.2) ws.

Lemma apply_staged_file ws : forall d, fits_disk (limit (fd d)) ws -> file_size (fd d) <= limit (fd d) <= 2 ^ 62 ->
  exists d', apply_staged d ws = (d', true) /\ limit (fd d') = limit (fd d) /\ file_size (fd d') <= limit (fd d') /\
    forall p x, patched ws p (file_page (fd d) p) = Some x -> shows d' p x.
Proof.
  induction ws as [|[q img] ws IH]; intros d Hok Hsz; [exists d; split; [done|]; split; [done|]; split; [lia|done]|]. inversion_clear Hok as [|? ? (Hq & Hl & Hi) Hws]. cbn [fst snd] in *. cbn [apply_staged].
  destruct (pwrite_page (fd d) q img Hq Hi Hl ltac:(lia)) as (f' & Hw & Hl' & Hs' & Hp & Hother).
  assert (Hput : pager_put d q img = (mkPager f' (num_pages d), true)).
  { unfold pager_put, pager_write. rewrite page_offset_small by (unfold PAGE_SIZE in *; lia). cbn [mbind option_bind]. rewrite Hw. by rewrite Z.eqb_refl. }
  rewrite Hput. destruct (IH (mkPager f' (num_pages d))) as (d' & Ha & Hl2 & Hs2 & Hpg); cbn [fd] in *; [by rewrite Hl'|lia|].
  exists d'. split; [done|]. split; [congruence|]. split; [done|]. intros p y Hx.
  change (patched ws p (if decide (p = q) then Some img else file_page (fd d) p) = Some y) in Hx. apply Hpg. cbn [fd].
  destruct (decide (p ∈ ws.*1)) as [Hin|Hin]; [rewrite <- Hx; by apply patched_in|]. rewrite patched_None in Hx by done. rewrite patched_None by done.
  case_decide as E; [subst p; congruence|]. by apply Hother.
Qed.

(** ** Reading records *)

Definition rec_lsn (r : log_rec) : Z := match r with RPage l _ _ | RCommit l | RBegin l _ | RUndo l _ _ => l end.
Definition rec_ok (r : log_rec) : Prop := rec_wf r /\ 0 <= rec_lsn r < 2 ^ 64.

Lemma lsn_field (pre rest : bytes) ty lsn : 0 <= lsn < 2 ^ 64 -> get_le 8 (pre ++ ty :: le_bytes 8 lsn ++ rest) (blen pre + 1) = Some lsn.
Proof. intros Hl. change (ty :: le_bytes 8 lsn ++ rest) with ([ty] ++ le_bytes 8 lsn ++ rest). by apply get_word. Qed.

Lemma apply_step fuel pre post r pnd R applied : rec_ok r ->
  replica_loop (S fuel) (pre ++ enc_rec r ++ post) (blen pre) pnd R applied =
  let log := pre ++ enc_rec r ++ post in
  let off := blen (pre ++ enc_rec r) in
  match r with
  | RPage _ pid img => if WAL_MAX_STAGED <=? blen pnd then (R, -1) else replica_loop fuel log off (pnd ++ [(pid, img)]) R applied
  | RCommit lsn =>
      if applied_lsn R <? lsn then
        let '(d, ok) := apply_staged (r_data R) pnd in
        if negb ok then (mkReplica d (apply_off R) (applied_lsn R) (commits_applied R), -1)
        else replica_loop fuel log off [] (mkReplica d off lsn (u64 (commits_applied R + 1))) (applied + 1)
      else replica_loop fuel log off [] (mkReplica (r_data R) off (applied_lsn R) (commits_applied R)) applied
  | _ => replica_loop fuel log off pnd R applied
  end.
Proof.
  intros [Hwf Hl]. cbn zeta. rewrite blen_app. destruct r as [lsn pid img|lsn|lsn base|lsn pid img]; cbn [replica_loop rec_lsn] in *.
  - destruct Hwf as [Hp [Hi _]]. rewrite (proj1 (blen_enc_page lsn pid img Hi)).
    destruct (page_fields pre post REC_PAGE lsn pid img Hp Hi) as (F1 & F2 & F3). change (REC_PAGE :: le_bytes 8 lsn ++ le_bytes 8 pid ++ img) with (enc_rec (RPage lsn pid img)) in *.
    assert (FL : get_le 8 (pre ++ enc_rec (RPage lsn pid img) ++ post) (blen pre + 1) = Some lsn) by (cbn [enc_rec]; rewrite <- app_comm_cons, <- !app_assoc; by apply lsn_field).
    rewrite F1, F2, F3, FL. change (REC_PAGE =? REC_PAGE) with true. cbn iota. destruct (_ <=? _); [done|]. f_equal. lia.
  - cbn [enc_rec]. rewrite <- app_comm_cons, get_type, lsn_field by done. change (REC_COMMIT =? REC_PAGE) with false. change (REC_COMMIT =? REC_BEGIN) with false.
    change (REC_COMMIT =? REC_UNDO) with false. change (REC_COMMIT =? REC_COMMIT) with true. cbn iota.
    assert (E : blen (REC_COMMIT :: le_bytes 8 lsn) = 9) by (unfold blen; cbn [length]; by rewrite length_le_bytes). rewrite E.
    replace (blen pre + 1 + 8) with (blen pre + 9) by lia. done.
  - destruct (begin_fields pre post lsn base Hwf) as [F1 F2]. change (REC_BEGIN :: le_bytes 8 lsn ++ le_bytes 8 base) with (enc_rec (RBegin lsn base)) in *.
    assert (FL : get_le 8 (pre ++ enc_rec (RBegin lsn base) ++ post) (blen pre + 1) = Some lsn) by (cbn [enc_rec]; rewrite <- app_comm_cons, <- !app_assoc; by apply lsn_field).
    rewrite F1, F2, FL. change (REC_BEGIN =? REC_PAGE) with false. change (REC_BEGIN =? REC_BEGIN) with true. cbn iota. f_equal.
    unfold enc_rec, blen. cbn [length]. rewrite length_app, !length_le_bytes. lia.
  - destruct Hwf as [Hp [Hi _]]. rewrite (proj2 (blen_enc_page lsn pid img Hi)).
    destruct (page_fields pre post REC_UNDO lsn pid img Hp Hi) as (F1 & F2 & F3). change (REC_UNDO :: le_bytes 8 lsn ++ le_bytes 8 pid ++ img) with (enc_rec (RUndo lsn pid img)) in *.
    assert (FL : get_le 8 (pre ++ enc_rec (RUndo lsn pid img) ++ post) (blen pre + 1) = Some lsn) by (cbn [enc_rec]; rewrite <- app_comm_cons, <- !app_assoc; by apply lsn_field).
    rewrite F1, F2, F3, FL. change (REC_UNDO =? REC_PAGE) with false. change (REC_UNDO =? REC_BEGIN) with false. change (REC_UNDO =? REC_UNDO) with true. cbn iota. f_equal. lia.
Qed.

(** Segments of at most [WAL_MAX_STAGED] images that fit the replica's disk, with commit
    markers in ascending order above [lsn]. *)
Fixpoint ready (lim lsn k : Z) (rs : list log_rec) : Prop :=
  match rs with
  | [] => True
  | RPage _ pid img :: rs => (0 <= pid /\ (pid + 1) * PAGE_SIZE <= lim /\ page_ok img) /\ k < WAL_MAX_STAGED /\ ready lim lsn (k + 1) rs
  | RCommit l :: rs => lsn < l /\ ready lim l 0 rs
  | _ :: rs => ready lim lsn k rs
  end.

Definition commits (rs : list log_rec) : Z := blen (filter (fun r => is_commit r = true) rs).
Fixpoint last_lsn (rs : list log_rec) (lsn : Z) : Z := match rs with [] => lsn | RCommit l :: rs => last_lsn rs l | _ :: rs => last_lsn rs lsn end.

(** The data file of a replica is sound: its bytes fit the device. *)
Definition disk_ok (lim : Z) (R : WalReplica) : Prop := limit (fd (r_data R)) = lim /\ file_size (fd (r_data R)) <= lim <= 2 ^ 62.

Lemma apply_recs lim rs : forall fuel pre z pnd R applied,
  Forall rec_ok rs -> ready lim (applied_lsn R) (blen pnd) rs -> fits_disk lim pnd -> disk_ok lim R ->
  exists R', replica_loop (length rs + fuel) (pre ++ enc rs ++ z) (blen pre) pnd R applied =
      replica_loop fuel (pre ++ enc rs ++ z) (blen (pre ++ enc rs)) (pend rs pnd) R' (applied + commits rs) /\
    apply_off R' = last_commit rs (blen pre) (apply_off R) /\ applied_lsn R' = last_lsn rs (applied_lsn R) /\ disk_ok lim R' /\
    forall p x, patched (seg_pages rs pnd) p (file_page (fd (r_data R)) p) = Some x -> shows (r_data R') p x.
Proof.
  induction rs as [|r rs IH]; intros fuel pre z pnd R applied Hwf Hready Hpnd Hd.
  { exists R. change (enc []) with (@nil Z). rewrite app_nil_r. change (commits []) with 0. rewrite Z.add_0_r. done. }
  inversion_clear Hwf as [|? ? Hr Hrs]. rewrite enc_cons, <- app_assoc. cbn [length Nat.add]. rewrite apply_step by done. cbn zeta.
  rewrite !app_assoc, <- (app_assoc (pre ++ enc_rec r)). cbn [last_commit]. rewrite <- blen_app.
  assert (Hcom : commits (r :: rs) = (if is_commit r then 1 else 0) + commits rs).
  { unfold commits. rewrite filter_cons. destruct (is_commit r); [rewrite decide_True by done|rewrite decide_False by done]; unfold blen; cbn [length]; lia. }
  rewrite Hcom. destruct r as [l pid img|l|l b|l pid img]; cbn [ready seg_pages pend is_commit last_lsn] in *.
  - destruct Hready as (Hfit & Hk & Hready). destruct (Z.leb_spec WAL_MAX_STAGED (blen pnd)); [lia|]. destruct (Z.ltb_spec (blen pnd) WAL_MAX_STAGED); [|lia].
    apply IH; [done| |apply Forall_app; split; [done|by constructor]|done]. rewrite blen_app. exact Hready.
  - destruct Hready as (Hl & Hready). destruct (Z.ltb_spec (applied_lsn R) l); [|lia]. destruct Hd as [Hlim Hsz].
    destruct (apply_staged_file pnd (r_data R)) as (d' & Ha & Hl' & Hs' & Hpg); [by rewrite Hlim|by rewrite Hlim|]. rewrite Ha. cbn [negb].
    destruct (IH fuel (pre ++ enc_rec (RCommit l)) z [] (mkReplica d' (blen (pre ++ enc_rec (RCommit l))) l (u64 (commits_applied R + 1))) (applied + 1)) as (R' & Hloop & Hoff & Hlsn & Hd' & Hpg');
      [done|exact Hready|constructor|split; cbn [r_data]; [congruence|lia]|].
    exists R'. rewrite Hloop. split; [f_equal; lia|]. cbn [apply_off applied_lsn r_data] in *. split; [done|]. split; [done|]. split; [done|].
    intros p x Hx. apply Hpg'. rewrite patched_app in Hx. destruct (decide (p ∈ (seg_pages rs []).*1)) as [Hin|Hin]; [rewrite <- Hx; by apply patched_in|].
    rewrite patched_None in Hx by done. rewrite patched_None by done. by apply Hpg.
  - by apply IH.
  - by apply IH.
Qed.

(** ** Unfinished records *)

(** What is there of a record that is still being written. *)
Definition cut (t : bytes) : Prop := t = [] \/ exists r u, rec_wf r /\ u <> [] /\ enc_rec r = t ++ u.

Lemma apply_cut fuel pre t pnd R applied : cut t -> blen pnd < WAL_MAX_STAGED \/ blen t < 9 -> replica_loop fuel (pre ++ t) (blen pre) pnd R applied = (R, applied).
Proof.
  intros Ht Hp. destruct fuel as [|fuel]; [done|]. cbn [replica_loop]. destruct (get_le 1 (pre ++ t) (blen pre)) as [ty|] eqn:E1; [|done].
  destruct (get_le 8 (pre ++ t) (blen pre + 1)) as [lsn|] eqn:E2; [|done].
  assert (H9 : 9 <= blen t).
  { destruct (Z.lt_ge_cases (blen t) 9) as [Hlt|]; [|done]. rewrite get_le_beyond in E2; [done|]. rewrite blen_app. change (Z.of_nat 8) with 8. lia. }
  destruct Hp as [Hp|]; [|lia]. destruct Ht as [->|(r & u & Hwf & Hu & He)]; [unfold blen in H9; cbn in H9; lia|].
  destruct t as [|b t]; [unfold blen in H9; cbn in H9; lia|].
  assert (Hl : blen (b :: t) < blen (enc_rec r)). { rewrite He, blen_app. assert (0 < blen u) by (destruct u; [done|unfold blen; cbn; lia]). lia. }
  rewrite get_type in E1. injection E1 as ->. destruct (Z.leb_spec WAL_MAX_STAGED (blen pnd)); [lia|]. destruct r as [l pid img|l|l base|l pid img].
  - destruct Hwf as [_ [Hi _]]. rewrite (proj1 (blen_enc_page l pid img Hi)) in Hl. injection He as <- _. change (REC_PAGE =? REC_PAGE) with true. cbn iota.
    unfold read_exact. rewrite (mem_read_beyond _ _ PAGE_SIZE) by (rewrite blen_app; lia). match goal with |- context [match ?x with Some _ => _ | None => _ end] => destruct x; reflexivity end.
  - exfalso. assert (E : blen (enc_rec (RCommit l)) = 9) by (unfold enc_rec, blen; cbn [length]; by rewrite length_le_bytes). lia.
  - injection He as <- _. change (REC_BEGIN =? REC_PAGE) with false. change (REC_BEGIN =? REC_BEGIN) with true. cbn iota.
    assert (E : blen (enc_rec (RBegin l base)) = 17) by (unfold enc_rec, blen; cbn [length]; rewrite length_app, !length_le_bytes; lia).
    rewrite get_le_beyond; [done|]. rewrite blen_app. change (Z.of_nat 8) with 8. lia.
  - destruct Hwf as [_ [Hi _]]. rewrite (proj2 (blen_enc_page l pid img Hi)) in Hl. injection He as <- _. change (REC_UNDO =? REC_PAGE) with false.
    change (REC_UNDO =? REC_BEGIN) with false. change (REC_UNDO =? REC_UNDO) with true. cbn iota.
    unfold read_exact. rewrite (mem_read_beyond _ _ PAGE_SIZE) by (rewrite blen_app; lia). match goal with |- context [match ?x with Some _ => _ | None => _ end] => destruct x; reflexivity end.
Qed.

(** ** A primary and its replica *)

(** The bytes that a commit appends to the log. *)
Definition commit_bytes (w : Wal) : bytes := commit_pages w ++ commit_marker w.

(** Commits of the primary and calls of [replica_apply] in any order.  A call can see the
    log while a commit is being written: any prefix of what [wal_commit] has written
    when all it writes to the log is there.  The primary's transactions steal no pages
    and stage the pages they add, its log is not checkpointed, and the pages fit the
    replica's disk.  The list has the committed contents, the newest first. *)
Inductive ship : list (Z * (Z -> option bytes)) -> Wal -> WalReplica -> Prop :=
| ship_start d lim R : pager_wf d -> 0 <= lim -> disk_ok (limit (fd (r_data R))) R -> apply_off R = 0 -> applied_lsn R = 0 ->
    (forall p, 0 <= p < num_pages d -> file_page (fd (r_data R)) p = pager_page d p) ->
    ship [(num_pages d, pager_page d)] (reopen d [] lim) R
| ship_commit Cs w0 w R : ship Cs w0 R -> txn_run w0 w -> stole w = false -> commit_room w ->
    (forall p, num_pages (w_data w0) <= p < num_pages (w_data w) -> p ∈ (staged w).*1) ->
    num_pages (w_data w) * PAGE_SIZE <= limit (fd (r_data R)) -> file_size (w_log w) + blen (commit_bytes w) <= WAL_CHECKPOINT_BYTES ->
    ship ((num_pages (w_data w), committed_view w) :: Cs) (wal_commit no_hooks w).1 R
| ship_apply Cs w0 w R m : ship Cs w0 R -> txn_run w0 w -> stole w = false -> commit_room w -> num_pages (w_data w) * PAGE_SIZE <= limit (fd (r_data R)) ->
    file_size (w_log w) <= Z.of_nat m < file_size (w_log (commit_stop_after w)) ->
    ship Cs w0 (replica_apply R (take m (content (w_log (commit_stop_after w))))).1.

(** The replica has applied [dn] of the history and lacks [new]. *)
Record lags (dn new : list log_rec) (C : Z -> option bytes) (n : Z) (w : Wal) (R : WalReplica) : Prop := {
  lg_quiet : quiet (dn ++ new) C n w;
  lg_dn : committed dn;
  lg_new : committed new;
  lg_recs : Forall rec_ok new;
  lg_off : apply_off R = blen (enc dn);
  lg_ready : ready (limit (fd (r_data R))) (applied_lsn R) 0 new;
  lg_lsn : 0 <= applied_lsn R /\ last_lsn new (applied_lsn R) < next_lsn w;
  lg_disk : disk_ok (limit (fd (r_data R))) R;
  lg_pages : forall p, 0 <= p < n -> patched (seg_pages new []) p (file_page (fd (r_data R)) p) = C p }.

Lemma commit_after (a : list log_rec) off ls : committed a -> a <> [] -> last_commit a off ls = off + blen (enc a).
Proof.
  intros [->|(a' & l & ->)]; [done|]. intros _. rewrite last_commit_app, enc_app, blen_app. cbn [last_commit is_commit]. rewrite enc_cons. change (enc []) with (@nil Z). rewrite app_nil_r. lia.
Qed.

Lemma last_lsn_app a b lsn : last_lsn (a ++ b) lsn = last_lsn b (last_lsn a lsn).
Proof. revert lsn. induction a as [|[l1 p1 i1|l1|l1 b1|l1 p1 i1] a IH]; intros lsn; cbn; done. Qed.

Lemma last_lsn_none rs lsn : Forall (fun r => is_commit r = false) rs -> last_lsn rs lsn = lsn.
Proof. induction 1 as [|[] rs Hr _ IH]; done. Qed.

Lemma commits_app a b : commits (a ++ b) = commits a + commits b.
Proof. unfold commits. by rewrite list.filter_app, blen_app. Qed.

Lemma commits_none rs : Forall (fun r => is_commit r = false) rs -> commits rs = 0.
Proof. intros H. unfold commits. induction H as [|r rs Hr _ IH]; [done|]. rewrite filter_cons, decide_False by congruence. exact IH. Qed.

Lemma ready_app lim lsn a b : committed a -> ready lim lsn 0 a -> ready lim (last_lsn a lsn) 0 b -> ready lim lsn 0 (a ++ b).
Proof.
  intros [->|(a' & l & ->)]; [done|]. rewrite last_lsn_app. cbn [last_lsn]. rewrite <- app_assoc. cbn [app]. generalize 0 at 1 3. revert lsn.
  induction a' as [|[l1 p1 i1|l1|l1 b1|l1 p1 i1] a' IH]; intros lsn k; cbn [app ready]; [by intros [? _] ?|naive_solver..].
Qed.

Lemma ready_lsn lim rs : forall lsn k, ready lim lsn k rs -> lsn <= last_lsn rs lsn.
Proof.
  induction rs as [|[l1 p1 i1|l1|l1 b1|l1 p1 i1] rs IH]; intros lsn k; cbn [ready last_lsn]; [done|naive_solver| |naive_solver..].
  intros [Hl Hr]. apply IH in Hr. lia.
Qed.

Lemma committed_app a b : committed a -> committed b -> committed (a ++ b).
Proof. intros Ha [->|(b' & l & ->)]; [by rewrite app_nil_r|]. right. exists (a ++ b'), l. by rewrite app_assoc. Qed.

(** Reading what is new, and an unfinished tail, brings the replica up to date. *)
Lemma lag_apply dn new C n w R tail t : lags dn new C n w R -> Forall rec_ok tail -> Forall (fun r => is_commit r = false) tail ->
  ready (limit (fd (r_data R))) (last_lsn new (applied_lsn R)) 0 tail -> cut t -> blen (pend tail []) < WAL_MAX_STAGED \/ blen t < 9 ->
  exists R', replica_apply R (content (w_log w) ++ enc tail ++ t) = (R', commits new) /\ lags (dn ++ new) [] C n w R' /\
    applied_lsn R <= applied_lsn R'.
Proof.
  intros [Hq Hdn Hnew Hrecs Hoff Hready [H0 Hlsn] Hdisk Hpages] Htail Hnc Hrt Ht Hcut. unfold replica_apply.
  rewrite (q_content _ _ _ _ Hq), enc_app. set (log := (enc dn ++ enc new) ++ enc tail ++ t).
  assert (Hlen : blen log = blen (enc dn) + blen (enc (new ++ tail)) + blen t) by (unfold log; rewrite enc_app, !blen_app; lia).
  pose proof (blen_nonneg t). pose proof (blen_nonneg (enc (new ++ tail))). destruct (Z.ltb_spec (blen log) (apply_off R)); [lia|]. rewrite Hoff.
  assert (Hlog : log = enc dn ++ enc (new ++ tail) ++ t) by (unfold log; by rewrite enc_app, <- !app_assoc).
  assert (Hfuel : exists f, log_fuel log = (length (new ++ tail) + f)%nat).
  { exists (log_fuel log - length (new ++ tail))%nat. unfold log_fuel. rewrite Hlog, !length_app. pose proof (length_enc (new ++ tail)). rewrite length_app in *. lia. }
  destruct Hfuel as [f Hfuel]. rewrite Hfuel, Hlog.
  destruct (apply_recs (limit (fd (r_data R))) (new ++ tail) f (enc dn) t [] R 0) as (R' & Hloop & Hoff' & Hlsn' & Hdisk' & Hpg);
    [by apply Forall_app|by apply ready_app|constructor|done|].
  assert (Hpend : pend (new ++ tail) [] = pend tail []) by (destruct (decide (new = [])) as [->|Hne]; [done|by apply pend_app]).
  assert (Hseg : seg_pages (new ++ tail) [] = seg_pages new []).
  { destruct (decide (new = [])) as [->|Hne]; [by apply seg_pages_none|]. rewrite seg_pages_app, (seg_pages_none tail), app_nil_r by done. done. }
  rewrite Hloop, app_assoc, Hpend, apply_cut by done. exists R'. rewrite commits_app, (commits_none tail), Z.add_0_r by done. split; [done|].
  destruct Hdisk' as [Hl' Hd']. rewrite last_lsn_app, (last_lsn_none tail) in Hlsn' by done.
  pose proof (ready_lsn _ _ _ _ Hready) as Hmono. split; [|lia].
  rewrite last_commit_app, (last_commit_none tail) in Hoff' by done. split.
  - by rewrite app_nil_r.
  - by apply committed_app.
  - by left.
  - constructor.
  - rewrite Hoff', enc_app, blen_app. destruct (decide (new = [])) as [->|Hne]; [cbn [last_commit]; change (blen (enc [])) with 0; lia|by apply commit_after].
  - done.
  - cbn [last_lsn]. rewrite Hlsn'. split; [lia|done].
  - split; [done|]. rewrite Hl'. done.
  - intros p Hp. change (seg_pages [] []) with (@nil (Z * bytes)). change (patched [] p ?v) with v. pose proof (Hpages p Hp) as HC.
    pose proof (q_pages _ _ _ _ Hq p Hp) as HP. destruct (proj2 (pager_page_Some (w_data w) p (q_data _ _ _ _ Hq)) ltac:(rewrite (q_n _ _ _ _ Hq); done)) as [x Hx].
    rewrite HP in Hx. rewrite Hx in HC |- *. apply Hpg. by rewrite Hseg.
Qed.

(** ** Commits of the primary *)

Lemma blen_cons {A} (x : A) l : blen (x :: l) = 1 + blen l.
Proof. unfold blen. cbn [length]. lia. Qed.

(** A transaction that stole nothing has written nothing to the log. *)
Lemma plain_run hist C n w0 w : quiet hist C n w0 -> txn_run w0 w -> stole w = false -> w_log w = w_log w0 /\ next_lsn w = next_lsn w0.
Proof.
  intros Hq Hr. induction Hr as [|w p buf Hr IH Hp Hb|w p buf Hr IH Hp Hb Hroom|w Hr IH]; [done| | |exact IH].
  - assert (E : forall a b, stole (wal_stage w a b).1 = stole w /\ w_log (wal_stage w a b).1 = w_log w /\ next_lsn (wal_stage w a b).1 = next_lsn w).
    { intros a b. unfold wal_stage. destruct (stage_into _ _ _); [done|]. by destruct (_ <=? _). }
    destruct (E p buf) as (-> & -> & ->). exact IH.
  - destruct (txn_run_active _ _ _ _ _ Hq Hr) as (tail & Ha & _). destruct (wal_steal_spec _ _ _ _ _ p buf Ha Hroom Hp Hb) as (tail' & w' & -> & Ha' & _ & _ & _ & Hsp & _).
    cbn [fst]. intros Hs. destruct (a_fresh _ _ _ _ _ Ha' Hs) as [_ Hnil]. exfalso. assert (Hin : p ∈ spilled w') by (apply Hsp; by right). rewrite Hnil in Hin. set_solver.
Qed.

Lemma page_recs_ok ws : forall lsn n, imgs_ok n ws -> n <= 2 ^ 64 -> 0 <= lsn -> lsn + blen ws <= 2 ^ 64 -> Forall rec_ok (page_recs lsn ws).
Proof.
  induction ws as [|[p i] ws IH]; intros lsn n Hok Hn H0 H1; [constructor|]. inversion_clear Hok as [|? ? [Hp Hi] Hws]. rewrite blen_cons in H1. pose proof (blen_nonneg ws). cbn [fst snd] in *.
  constructor; [split; [split; [lia|done]|cbn; lia]|]. apply (IH _ n); try done; lia.
Qed.

Lemma ready_pages lim n ws lsn l : forall l0 k, imgs_ok n ws -> n * PAGE_SIZE <= lim -> k + blen ws <= WAL_MAX_STAGED -> lsn < l ->
  ready lim lsn k (page_recs l0 ws ++ [RCommit l]).
Proof.
  induction ws as [|[p i] ws IH]; intros l0 k Hok Hn Hk Hl; [done|]. inversion_clear Hok as [|? ? [Hp Hi] Hws]. rewrite blen_cons in Hk. pose proof (blen_nonneg ws). cbn [fst snd] in *.
  cbn [page_recs app ready]. split; [split; [lia|]; split; [unfold PAGE_SIZE in *; lia|done]|]. split; [lia|]. apply IH; try done; lia.
Qed.

Lemma ready_prefix lim a b : forall lsn k, ready lim lsn k (a ++ b) -> ready lim lsn k a.
Proof. induction a as [|[l1 p1 i1|l1|l1 b1|l1 p1 i1] a IH]; intros lsn k; cbn [app ready]; naive_solver. Qed.

Lemma page_recs_commits lsn ws : Forall (fun r => is_commit r = false) (page_recs lsn ws).
Proof. revert lsn. induction ws as [|[p i] ws IH]; intros lsn; constructor; done. Qed.

Lemma take_page_recs j ws : forall lsn, take j (page_recs lsn ws) = page_recs lsn (take j ws).
Proof. revert j. induction ws as [|[p i] ws IH]; intros [|j] lsn; try done. cbn. by rewrite IH. Qed.

Lemma length_page_recs ws : forall lsn, length (page_recs lsn ws) = length ws.
Proof. induction ws as [|[p i] ws IH]; intros lsn; cbn; [done|]. by rewrite IH. Qed.

(** What the log holds while a commit is being written. *)
Lemma commit_prefix w n (k : nat) : imgs_ok n (staged w) -> n <= 2 ^ 64 -> blen (staged w) <= WAL_MAX_STAGED -> (k < length (commit_bytes w))%nat ->
  exists j t, take k (commit_bytes w) = enc (page_recs (next_lsn w) (take j (staged w))) ++ t /\ cut t /\
    (blen (pend (page_recs (next_lsn w) (take j (staged w))) []) < WAL_MAX_STAGED \/ blen t < 9).
Proof.
  intros Hok Hn Hb Hk. set (lsn := next_lsn w). set (pgs := page_recs lsn (staged w)). assert (Hpg : commit_bytes w = enc pgs ++ commit_marker w) by done.
  destruct (page_recs_wf lsn (staged w) n Hok Hn) as [Hwf Hkind]. destruct (decide (k <= length (enc pgs))%nat) as [Hle|Hgt].
  - destruct (enc_prefix pgs k Hwf Hkind) as (j & t & Ht & Htorn). exists j, t. rewrite Hpg, take_app_le, Ht by done. unfold pgs. rewrite take_page_recs. split; [done|].
    split; [destruct Htorn as [->|(r & u & Hr & _ & Hu & He)]; [by left|right; by exists r, u]|].
    destruct (decide (t = [])) as [->|Hne]; [right; done|left].
    assert (Hlt : (j < length (staged w))%nat).
    { destruct (Nat.lt_ge_cases j (length (staged w))) as [|Hge]; [done|]. exfalso. rewrite (take_ge pgs) in Ht by (unfold pgs; by rewrite length_page_recs).
      apply (f_equal length) in Ht. rewrite length_take, length_app in Ht. destruct t; [done|]. cbn [length] in Ht. lia. }
    assert (Hl : blen (take j (staged w)) = Z.of_nat j) by (unfold blen; rewrite length_take; lia).
    destruct (pend_page_recs (take j (staged w)) lsn []) as [-> _]; [change (@blen (Z * bytes) []) with 0; unfold blen in *; lia|]. rewrite app_nil_l, Hl. unfold blen in *. lia.
  - exists (length (staged w)), (take (k - length (enc pgs)) (commit_marker w)). rewrite (take_ge (staged w)) by lia. fold pgs. rewrite Hpg in *. rewrite take_app_ge by lia. split; [done|].
    rewrite length_app in Hk. assert (Hm : length (commit_marker w) = 9%nat) by (unfold commit_marker; cbn [length]; by rewrite length_le_bytes).
    split; [|right; unfold blen; rewrite length_take; lia]. right. exists (RCommit (next_lsn w + blen (staged w))), (drop (k - length (enc pgs)) (commit_marker w)).
    split; [done|]. split; [|by rewrite take_drop]. intros Hnil. apply (f_equal length) in Hnil. rewrite length_drop in Hnil. cbn [length] in Hnil. lia.
Qed.

(** A commit gives the replica one more segment to read. *)
Lemma lag_commit dn new C n w0 w R : lags dn new C n w0 R -> txn_run w0 w -> stole w = false -> commit_room w ->
  (forall p, n <= p < num_pages (w_data w) -> p ∈ (staged w).*1) ->
  num_pages (w_data w) * PAGE_SIZE <= limit (fd (r_data R)) -> file_size (w_log w) + blen (commit_bytes w) <= WAL_CHECKPOINT_BYTES ->
  exists new', lags dn new' (committed_view w) (num_pages (w_data w)) (wal_commit no_hooks w).1 R.
Proof.
  intros [Hq Hdn Hnew Hrecs Hoff Hready [H0 Hlsn] Hdisk Hpages] Hr Hst Hroom Hgrow Hfit Hck.
  destruct (plain_run _ _ _ _ _ Hq Hr Hst) as [_ Hnext]. destruct (txn_run_active _ _ _ _ _ Hq Hr) as (tail & Ha & Hok & Hb).
  destruct (a_fresh _ _ _ _ _ Ha Hst) as [-> Hsp]. pose proof Hroom as (_ & R2 & R3). pose proof (blen_nonneg (staged w)).
  assert (Hn64 : num_pages (w_data w) <= 2 ^ 64) by (destruct (a_data _ _ _ _ _ Ha) as [Hpp Hll _]; unfold PAGE_SIZE in *; lia).
  destruct (wal_commit_spec _ _ _ _ _ Ha) as (w' & hist' & -> & Hq' & _ & _ & Hnl & _ & Hh); [intros p _; rewrite Hsp; set_solver|done|done|done|].
  assert (Hcb : blen (commit_bytes w) = blen (staged w) * PAGE_REC + 9).
  { unfold commit_bytes. rewrite blen_app, blen_commit_pages by (by eapply page_oks). unfold commit_marker. rewrite blen_cons, blen_le_bytes. lia. }
  rewrite Hh in Hq' by lia. set (lsn := next_lsn w + blen (staged w)) in *. set (pgs := page_recs (next_lsn w) (staged w)) in *.
  assert (Hcom : committed (new ++ pgs ++ [RCommit lsn])) by (right; exists (new ++ pgs), lsn; by rewrite app_assoc).
  assert (Hseg : seg_pages (new ++ pgs ++ [RCommit lsn]) [] = seg_pages new [] ++ staged w).
  { destruct (committed_pages new [] (staged w) (next_lsn w) Hnew ltac:(constructor) Hb) as [H1 H2]. cbn [app] in H1, H2. fold pgs in H1, H2. by rewrite app_assoc, seg_pages_snoc, H1, H2. }
  exists (new ++ pgs ++ [RCommit lsn]). cbn [fst]. split; try done.
  - rewrite <- app_assoc in Hq'. exact Hq'.
  - rewrite !Forall_app. split; [done|]. split; [eapply page_recs_ok; [exact Hok|lia..]|]. constructor; [|constructor]. split; [done|cbn [rec_lsn]; lia].
  - apply ready_app; [done|done|]. eapply ready_pages; [exact Hok|done|lia|lia].
  - rewrite !last_lsn_app. cbn [last_lsn]. lia.
  - intros p Hp. rewrite Hseg, patched_app. unfold committed_view. destruct (decide (p ∈ (staged w).*1)) as [Hin|Hin]; [by apply patched_in|].
    rewrite !(patched_None (staged w)) by done. assert (Hpn : p < n) by (destruct (Z.lt_ge_cases p n); [done|]; exfalso; apply Hin, Hgrow; lia).
    rewrite Hpages by lia. symmetry. apply (a_pages _ _ _ _ _ Ha); [lia|]. rewrite Hsp. set_solver.
Qed.

(** A call of [replica_apply] while the primary is writing a commit. *)
Lemma lag_read dn new C n w0 w R (k : nat) : lags dn new C n w0 R -> txn_run w0 w -> stole w = false -> commit_room w ->
  num_pages (w_data w) * PAGE_SIZE <= limit (fd (r_data R)) -> (k < length (commit_bytes w))%nat ->
  exists R', replica_apply R (content (w_log w0) ++ take k (commit_bytes w)) = (R', commits new) /\ lags (dn ++ new) [] C n w0 R' /\
    applied_lsn R <= applied_lsn R'.
Proof.
  intros Hlag Hr Hst (_ & R2 & R3) Hfit Hk. pose proof (lg_quiet _ _ _ _ _ _ Hlag) as Hq. destruct (plain_run _ _ _ _ _ Hq Hr Hst) as [_ Hnext].
  destruct (txn_run_active _ _ _ _ _ Hq Hr) as (tail & Ha & Hok & Hb). pose proof (blen_nonneg (staged w)).
  assert (Hn64 : num_pages (w_data w) <= 2 ^ 64) by (destruct (a_data _ _ _ _ _ Ha) as [Hpp Hll _]; unfold PAGE_SIZE in *; lia).
  destruct (commit_prefix w _ k Hok Hn64 Hb Hk) as (j & t & -> & Ht & Hcut).
  assert (Hokj : imgs_ok (num_pages (w_data w)) (take j (staged w))) by (by apply Forall_take).
  assert (Hj : blen (take j (staged w)) <= blen (staged w)) by (unfold blen; rewrite length_take; lia).
  apply lag_apply; [done| |apply page_recs_commits| |done|done].
  - eapply page_recs_ok; [exact Hokj|lia..].
  - destruct (lg_lsn _ _ _ _ _ _ Hlag) as [_ Hl]. eapply ready_prefix, (ready_pages _ _ _ _ (next_lsn w)); [exact Hokj|done|lia|lia].
Qed.

(** The bytes that [wal_commit] itself has written by then. *)
Lemma lag_read_commit dn new C n w0 w R (m : nat) : lags dn new C n w0 R -> txn_run w0 w -> stole w = false -> commit_room w ->
  num_pages (w_data w) * PAGE_SIZE <= limit (fd (r_data R)) -> file_size (w_log w) <= Z.of_nat m < file_size (w_log (commit_stop_after w)) ->
  exists R', replica_apply R (take m (content (w_log (commit_stop_after w)))) = (R', commits new) /\ lags (dn ++ new) [] C n w0 R'.
Proof.
  intros Hlag Hr Hst Hroom Hfit Hm. pose proof (lg_quiet _ _ _ _ _ _ Hlag) as Hq. destruct (plain_run _ _ _ _ _ Hq Hr Hst) as [Hlog _].
  destruct (txn_run_active _ _ _ _ _ Hq Hr) as (tail & _ & Hok & _).
  destruct (commit_crash_bytes w (page_oks _ _ Hok) Hroom) as (_ & (A1 & _)). unfold file_size in Hm. rewrite A1 in *. fold (commit_bytes w) in *.
  rewrite blen_app in Hm. rewrite take_cut_ge by lia.
  destruct (lag_read dn new C n w0 w R (Z.to_nat (Z.of_nat m - blen (content (w_log w)))) Hlag Hr Hst Hroom Hfit) as (R' & HR & Hl & _); [unfold blen in *; lia|].
  exists R'. split; [|done]. rewrite <- HR. by rewrite Hlog.
Qed.

Lemma reopen_lsn d lim : next_lsn (reopen d [] lim) = 1.
Proof.
  unfold reopen, wal_open, wal_recover. cbn [content w_log]. destruct (redo_pass _ _ _ _ _ _ _) as [[d1 rc1] ls]. destruct (undo_pass _ _ _ _ _ _ _) as [[[d2 rc2] b] c].
  destruct c; [done|]. by destruct (ftruncate _ _).
Qed.

Lemma ship_lags Cs w R : ship Cs w R ->
  exists dn new C n, lags dn new C n w R /\ head Cs = Some (n, C) /\
    exists nd Cd, (nd, Cd) ∈ Cs /\ forall p, 0 <= p < nd -> file_page (fd (r_data R)) p = Cd p.
Proof.
  intros Hs. induction Hs as [d lim R Hd Hl Hdisk Hoff Hlsn Hpg|Cs w0 w R Hs (dn & new & C & n & Hlag & Hhd & nd & Cd & Hin & Hp) Hr Hst Hroom Hgrow Hfit Hck
    |Cs w0 w R m Hs (dn & new & C & n & Hlag & Hhd & nd & Cd & Hin & Hp) Hr Hst Hroom Hfit Hk].
  - exists [], [], (pager_page d), (num_pages d). split; [|split; [done|]; exists (num_pages d), (pager_page d); split; [by left|done]].
    split; [by apply reopen_quiet|by left|by left|constructor|done|done| |done|done]. rewrite Hlsn, reopen_lsn. cbn [last_lsn]. lia.
  - rewrite (q_n _ _ _ _ (lg_quiet _ _ _ _ _ _ Hlag)) in Hgrow. destruct (lag_commit _ _ _ _ _ _ _ Hlag Hr Hst Hroom Hgrow Hfit Hck) as [new' Hlag'].
    exists dn, new', (committed_view w), (num_pages (w_data w)). split; [done|]. split; [done|]. exists nd, Cd. split; [by right|done].
  - destruct (lag_read_commit _ _ _ _ _ _ _ m Hlag Hr Hst Hroom Hfit Hk) as (R' & -> & Hlag'). cbn [fst]. exists (dn ++ new), [], C, n. split; [done|]. split; [done|].
    exists n, C. split; [destruct Cs; [done|]; injection Hhd as ->; by left|]. apply (lg_pages _ _ _ _ _ _ Hlag').
Qed.

(** C18. Log shipping, from one start of the primary, while its log is not checkpointed and
    its transactions steal no pages ([ship]): whenever the replica has read the log, a
    half-written commit included, its data file is a committed state of the primary;
    reading the whole log succeeds and makes its pages those of the primary, with the
    position of the last commit.  After a restart of the primary this fails
    ([replica_stale_after_restart]). *)
Theorem replica_follows Cs w R : ship Cs w R ->
  (exists n C, (n, C) ∈ Cs /\ forall p, 0 <= p < n -> file_page (fd (r_data R)) p = C p) /\
  let '(R', rc) := replica_apply R (content (w_log w)) in
  0 <= rc /\ apply_off R' = file_size (w_log w) /\ replica_position R <= replica_position R' < next_lsn w /\
  forall p, 0 <= p < num_pages (w_data w) -> file_page (fd (r_data R')) p = wal_read w p.
Proof.
  intros (dn & new & C & n & Hlag & _ & Hshown)%ship_lags. split; [exact Hshown|]. pose proof (lg_quiet _ _ _ _ _ _ Hlag) as Hq.
  destruct (lag_apply _ _ _ _ _ _ [] [] Hlag) as (R' & Happ & Hlag' & Hmono); [constructor|constructor|done|by left|by right|].
  change (enc [] ++ []) with (@nil Z) in Happ. rewrite app_nil_r in Happ. rewrite Happ. split; [apply blen_nonneg|].
  split; [rewrite (lg_off _ _ _ _ _ _ Hlag'); unfold file_size; by rewrite (q_content _ _ _ _ Hq)|]. split.
  - destruct (lg_lsn _ _ _ _ _ _ Hlag') as [_ Hl]. split; [exact Hmono|exact Hl].
  - intros p Hp. rewrite (q_n _ _ _ _ Hq) in Hp. transitivity (C p); [apply (lg_pages _ _ _ _ _ _ Hlag'); done|]. symmetry. by apply (q_pages _ _ _ _ Hq).
Qed.

(** ** Concrete runs *)

Definition demo_file : File := mkFile (full 1 ++ full 2) 65536.
(** The primary commits page 0, then is half-way through a commit of page 1. *)
Definition ship_txn : Wal := (wal_stage (wal_begin demo_wal) 0 (full 8)).1.
Definition ship_primary : Wal := (wal_commit no_hooks ship_txn).1.
Definition ship_txn2 : Wal := (wal_stage (wal_begin ship_primary) 1 (full 9)).1.
Definition ship_replica : WalReplica := (replica_apply (replica_open demo_file) (take (length (content (w_log ship_primary)) + 4120) (content (w_log (commit_stop_after ship_txn2))))).1.

Lemma demo_ship : ship [(2, committed_view ship_txn); (2, pager_page demo_data)] ship_primary ship_replica.
Proof.
  assert (Hrun : txn_run demo_wal ship_txn).
  { unfold ship_txn. apply run_stage; [apply run_begin|by vm_compute|apply full_ok; lia]. }
  assert (Hrun2 : txn_run ship_primary ship_txn2).
  { unfold ship_txn2. apply run_stage; [apply run_begin|by vm_compute|apply full_ok; lia]. }
  assert (H0 : ship [(2, pager_page demo_data)] demo_wal (replica_open demo_file)).
  { apply (ship_start demo_data 65536); [apply demo_data_wf|lia|by vm_compute|done|done|]. intros p [H1 H2].
    assert (Hp : p = 0 \/ p = 1) by (change (num_pages demo_data) with 2 in H2; lia). destruct Hp as [-> | ->]; by vm_compute. }
  unfold ship_replica. apply (ship_apply _ _ ship_txn2); [|exact Hrun2|by vm_compute|by vm_compute|by vm_compute|].
  - unfold ship_primary. change 2 with (num_pages (w_data ship_txn)) at 1. apply (ship_commit _ demo_wal); [exact H0|exact Hrun|by vm_compute|by vm_compute| |by vm_compute|by vm_compute].
    intros p Hp. change (num_pages (w_data demo_wal)) with 2 in Hp. change (num_pages (w_data ship_txn)) with 2 in Hp. lia.
  - by vm_compute.
Qed.

Lemma replica_follows_witness :
  file_page (fd (r_data (replica_open demo_file))) 0 = Some (full 1) /\ replica_position ship_replica = 2 /\
  file_page (fd (r_data (replica_apply ship_replica (content (w_log ship_primary))).1)) 0 = Some (full 8).
Proof.
  destruct (replica_follows _ _ _ demo_ship) as [_ H]. destruct (replica_apply ship_replica (content (w_log ship_primary))) as [R' rc]. destruct H as (_ & _ & _ & Hp).
  split; [by vm_compute|]. split; [by vm_compute|]. cbn [fst]. etransitivity; [apply Hp; by vm_compute|by vm_compute].
Defined.

(** Two pages are committed and shipped; the primary is restarted, which numbers its
    records from 1 again, and commits one page. *)
Definition before_restart : Wal := (wal_commit no_hooks (wal_stage (wal_stage (wal_begin demo_wal) 0 (full 8)).1 1 (full 9)).1).1.
Definition after_restart : Wal := reopen (w_data before_restart) (content (w_log before_restart)) 65536.
Definition restarted : Wal := (wal_commit no_hooks (wal_stage (wal_begin after_restart) 0 (full 7)).1).1.

(** The replica has applied everything, and then takes the commit of the restarted
    primary for an old one: it reports success, moves past it and keeps the old page. *)
Theorem replica_stale_after_restart :
  let '(R1, rc1) := replica_apply (replica_open demo_file) (content (w_log before_restart)) in
  let '(R2, rc2) := replica_apply R1 (content (w_log restarted)) in
  rc1 = 1 /\ file_page (fd (r_data R1)) 0 = wal_read before_restart 0 /\
  wal_read restarted 0 = Some (full 7) /\ rc2 = 0 /\ apply_off R2 = file_size (w_log restarted) /\ file_page (fd (r_data R2)) 0 = Some (full 8).
Proof. by vm_compute. Qed.
