(* ===== verification/Cbtree.v ===== *)
(** * The latch-coupled B+tree (src/src/cbtree.c): nodes, searching and insertion

    Nodes live in a memory of addresses; the arrays of a node with their counter are
    lists.  A thread is a program counter that says which latches it holds; what it does
    next is [cb_next], one latch operation or one access to nodes it has latched at a
    time.  Interleavings and their correctness are in [CbtreeConc]. *)
From stdpp Require Import sorting.
From S2P Require Import Prelude.

Definition ORDER : nat := 4.
Definition MAXH : nat := 40.

Record CNode := mkCNode { cn_leaf : bool; cn_key : list Z; cn_child : list nat; cn_val : list Z; cn_next : option nat }.
(** Allocated nodes, and an address above all of them. *)
Record CMem := mkCMem { cnodes : gmap nat CNode; cbrk : nat }.
(** The address of the header; the child of the header is the root. *)
Notation CBTree := nat (only parsing).

Definition node_new (m : CMem) (nd : CNode) : CMem * nat := (mkCMem (<[cbrk m := nd]> (cnodes m)) (S (cbrk m)), cbrk m).
Definition node_set (m : CMem) (x : nat) (nd : CNode) : CMem := mkCMem (<[x := nd]> (cnodes m)) (cbrk m).

Definition cbtree_create (m : CMem) : CMem * CBTree :=
  let '(m, root) := node_new m (mkCNode true [] [] [] None) in
  node_new m (mkCNode false [] [root] [] None).

Fixpoint child_idx (ks : list Z) (key : Z) : nat :=
  match ks with
  | [] => 0
  | k :: ks => if k <=? key then S (child_idx ks key) else 0
  end.

(** The position of the first key that is not below [key]. *)
Fixpoint key_pos (ks : list Z) (key : Z) : nat :=
  match ks with
  | [] => 0
  | k :: ks => if k <? key then S (key_pos ks key) else 0
  end.

(** The loop of [cbtree_search] over a leaf. *)
Fixpoint cleaf_find (ks vs : list Z) (key : Z) : option Z :=
  match ks, vs with
  | k :: ks, v :: vs => if k =? key then Some v else cleaf_find ks vs key
  | _, _ => None
  end.

(** Shifting the elements from position [i] by one and storing [x] there. *)
Definition insert_at {A} (i : nat) (x : A) (l : list A) : list A := take i l ++ x :: drop i l.

(** ** Insertion: what happens once the leaf and the unsafe ancestors are latched *)

(** Entering [up_key] and [up_right] in the ancestors, nearest first. *)
Fixpoint split_up (t : CBTree) (m : CMem) (up_key : Z) (up_right : nat) (anc : list nat) : option CMem :=
  match anc with
  | [] => Some m
  | p :: anc =>
      nd ← cnodes m !! p;
      if (p =? t)%nat then
        root ← cn_child nd !! 0%nat;
        let '(m, nr) := node_new m (mkCNode false [up_key] [root; up_right] [] None) in
        Some (node_set m p (mkCNode false (cn_key nd) (<[0%nat := nr]> (cn_child nd)) (cn_val nd) (cn_next nd)))
      else
        let pi := key_pos (cn_key nd) up_key in
        let ks := insert_at pi up_key (cn_key nd) in
        let cs := insert_at (S pi) up_right (cn_child nd) in
        if (length ks <=? ORDER)%nat then Some (node_set m p (mkCNode (cn_leaf nd) ks cs (cn_val nd) (cn_next nd)))
        else
          let mid := (length ks / 2)%nat in
          push ← ks !! mid;
          let '(m, r2) := node_new m (mkCNode false (drop (S mid) ks) (drop (S mid) cs) [] None) in
          let m := node_set m p (mkCNode (cn_leaf nd) (take mid ks) (take (S mid) cs) (cn_val nd) (cn_next nd)) in
          split_up t m push r2 anc
  end.

(** The body of [cbtree_insert] from the leaf on; [stack] has the leaf first. *)
Definition insert_leaf (t : CBTree) (m : CMem) (stack : list nat) (key val : Z) : option CMem :=
  match stack with
  | [] => None
  | cur :: anc =>
      nd ← cnodes m !! cur;
      let i := key_pos (cn_key nd) key in
      if decide (cn_key nd !! i = Some key) then
        Some (node_set m cur (mkCNode (cn_leaf nd) (cn_key nd) (cn_child nd) (<[i := val]> (cn_val nd)) (cn_next nd)))
      else
        let ks := insert_at i key (cn_key nd) in
        let vs := insert_at i val (cn_val nd) in
        if (length ks <=? ORDER)%nat then Some (node_set m cur (mkCNode (cn_leaf nd) ks (cn_child nd) vs (cn_next nd)))
        else
          let left := (length ks / 2)%nat in
          up_key ← ks !! left;
          let '(m, r) := node_new m (mkCNode true (drop left ks) [] (drop left vs) (cn_next nd)) in
          let m := node_set m cur (mkCNode (cn_leaf nd) (take left ks) (cn_child nd) (take left vs) (Some r)) in
          split_up t m up_key r anc
  end.

(** ** Threads *)

Inductive tree_op := OSearch (key : Z) | OInsert (key val : Z) | ORange (lo hi : Z).
Inductive cres := RFound (val : Z) | RMissing | RInserted | RCount (n : Z).

(** Inserting takes write latches, the others read latches. *)
Definition is_write (o : tree_op) : bool := match o with OInsert _ _ => true | _ => false end.
(** The key that decides the way down. *)
Definition target (o : tree_op) : Z := match o with OSearch k | OInsert k _ | ORange k _ => k end.

Inductive pc :=
| PIdle
| PStart (o : tree_op)                                   (* called *)
| PHeader (o : tree_op)                                  (* header latched *)
| PRoot (o : tree_op) (cur : nat)                        (* reader: header and root latched *)
| PRead (o : tree_op) (cnt : Z) (cur : nat)              (* reader: [cur] latched *)
| PCouple (o : tree_op) (cnt : Z) (cur nx : nat)         (* reader: [cur] and the node after it latched *)
| PWrite (key val : Z) (stack : list nat)            (* writer: [stack] latched, the lowest node first *)
| PChild (key val : Z) (stack : list nat) (c : nat)   (* writer: [stack] and the child [c] latched *)
| PSafe (key val : Z) (todo : list nat) (c : nat)    (* writer: [c] is safe, ancestors [todo] still latched *)
| PUnlock (todo : list nat) (w : bool) (r : cres).   (* [todo] still latched, then return *)

Inductive event := ECall (o : tree_op) | ELin (r : cres) | ERet (r : cres).

Inductive action :=
| Latch (w : bool) (x : nat) (p : pc)
| Unlatch (x : nat) (p : pc)
| Act (m : CMem) (e : list event) (p : pc)
| Stop
| Fault.

(** What [cbtree_range_count] counts in a leaf. *)
Definition leaf_count (ks : list Z) (lo hi : Z) : Z := blen (filter (fun k => lo <= k <= hi) ks).

(** What a reader does at a leaf. *)
Definition cb_leaf (m : CMem) (nd : CNode) (o : tree_op) (cnt : Z) (cur : nat) : action :=
  match o with
  | OSearch k =>
      let r := match cleaf_find (cn_key nd) (cn_val nd) k with Some v => RFound v | None => RMissing end in
      Act m [ELin r] (PUnlock [cur] false r)
  | ORange lo hi =>
      let cnt := cnt + leaf_count (cn_key nd) lo hi in
      if existsb (Z.ltb hi) (cn_key nd) then Act m [ELin (RCount cnt)] (PUnlock [cur] false (RCount cnt))
      else
        match cn_next nd with
        | Some nx => Latch false nx (PCouple o cnt cur nx)
        | None => Act m [ELin (RCount cnt)] (PUnlock [cur] false (RCount cnt))
        end
  | OInsert _ _ => Fault
  end.

Definition root_of (t : CBTree) (m : CMem) : option nat := nd ← cnodes m !! t; cn_child nd !! 0%nat.
Definition or_fault (a : option action) : action := match a with Some a => a | None => Fault end.

(** The next thing a thread does; [Fault] is an access to no node or beyond the stack. *)
Definition cb_next (t : CBTree) (m : CMem) (p : pc) : action :=
  match p with
  | PIdle => Stop
  | PStart o => Latch (is_write o) t (PHeader o)
  | PHeader o =>
      or_fault (root ← root_of t m;
        Some (Latch (is_write o) root (match o with OInsert k v => PWrite k v [root; t] | _ => PRoot o root end)))
  | PRoot o cur => Unlatch t (PRead o 0 cur)
  | PRead o cnt cur =>
      or_fault (nd ← cnodes m !! cur;
        if cn_leaf nd then Some (cb_leaf m nd o cnt cur)
        else c ← cn_child nd !! child_idx (cn_key nd) (target o); Some (Latch false c (PCouple o cnt cur c)))
  | PCouple o cnt cur nx => Unlatch cur (PRead o cnt nx)
  | PWrite k v stack =>
      or_fault (cur ← head stack; nd ← cnodes m !! cur;
        if cn_leaf nd then m' ← insert_leaf t m stack k v; Some (Act m' [ELin RInserted] (PUnlock (rev stack) true RInserted))
        else c ← cn_child nd !! child_idx (cn_key nd) k;
             Some (Latch true c (PChild k v stack c)))
  | PChild k v stack c =>
      or_fault (nd ← cnodes m !! c;
        if (length (cn_key nd) <? ORDER)%nat then Some (Act m [] (PSafe k v (rev stack) c))
        else if (length stack <? MAXH)%nat then Some (Act m [] (PWrite k v (c :: stack))) else None)
  | PSafe k v (x :: todo) c => Unlatch x (PSafe k v todo c)
  | PSafe k v [] c => Act m [] (PWrite k v [c])
  | PUnlock [] w r => Act m [ERet r] PIdle
  | PUnlock (x :: todo) w r => Unlatch x (PUnlock todo w r)
  end.

(** ** What the nodes of a tree satisfy *)

(** Every node stands for a level (leaves have level 0) and a range of keys. *)
Record ghost := mkG { lvl : nat; glo : Z; ghi : Z }.
Definition in_rng (k : Z) (g : ghost) : Prop := glo g <= k < ghi g.

Definition KEY_MIN : Z := - 2 ^ 63.
Definition KEY_END : Z := 2 ^ 63.

(** Children of level [v] that divide the range from [lo] to [hi] at the keys [ks]. *)
Fixpoint ckids (E : gmap nat ghost) (v : nat) (lo : Z) (ks : list Z) (cs : list nat) (hi : Z) : Prop :=
  match cs with
  | [] => False
  | c :: cs =>
      match ks with
      | [] => cs = [] /\ lo < hi /\ E !! c = Some (mkG v lo hi)
      | k :: ks => lo < k /\ E !! c = Some (mkG v lo k) /\ ckids E v k ks cs hi
      end
  end.

Lemma ckids_bounds E v ks : forall lo cs hi, ckids E v lo ks cs hi -> lo < hi.
Proof. induction ks as [|k ks IH]; intros lo [|c cs] hi H; cbn in H; [done|tauto|done|]. destruct H as (? & _ & H%IH). lia. Qed.

Lemma ckids_elem E v ks : forall lo cs hi c, ckids E v lo ks cs hi -> c ∈ cs -> exists l h, E !! c = Some (mkG v l h) /\ lo <= l < h /\ h <= hi.
Proof.
  induction ks as [|k ks IH]; intros lo [|c cs] hi x H Hx; cbn in H; [done| |done|].
  - destruct H as (-> & Hl & HE). apply list_elem_of_singleton in Hx as ->. exists lo, hi. split; [done|lia].
  - destruct H as (Hl & HE & H). pose proof (ckids_bounds _ _ _ _ _ _ H). apply elem_of_cons in Hx as [->|Hx]; [exists lo, k; split; [done|lia]|].
    destruct (IH _ _ _ _ H Hx) as (l & h & ? & ? & ?). exists l, h. split; [done|lia].
Qed.

Lemma ckids_length E v ks : forall lo cs hi, ckids E v lo ks cs hi -> length cs = S (length ks).
Proof. induction ks as [|k ks IH]; intros lo [|c cs] hi H; cbn in H; [done|destruct H as [-> _]; done|done|]. destruct H as (_ & _ & H%IH). cbn. by rewrite H. Qed.

(** The child on the way to a key of the range. *)
Lemma ckids_child E v ks : forall lo cs hi key, ckids E v lo ks cs hi -> lo <= key < hi ->
  exists c l h, cs !! child_idx ks key = Some c /\ E !! c = Some (mkG v l h) /\ l <= key < h.
Proof.
  induction ks as [|k ks IH]; intros lo [|c cs] hi key H Hk; cbn in H; [done| |done|].
  - destruct H as (-> & Hl & HE). by exists c, lo, hi.
  - destruct H as (Hl & HE & H). cbn [child_idx]. destruct (Z.leb_spec k key); [|exists c, lo, k; split; [done|split; [done|lia]]].
    apply (IH _ _ _ _ H). lia.
Qed.

(** Dividing a node at one of its keys. *)
Lemma ckids_cut E v ka push kb : forall lo cs hi, ckids E v lo (ka ++ push :: kb) cs hi ->
  ckids E v lo ka (take (S (length ka)) cs) push /\ ckids E v push kb (drop (S (length ka)) cs) hi.
Proof.
  induction ka as [|k ka IH]; intros lo [|c cs] hi H; cbn in H; try done.
  - destruct H as (Hl & HE & H). split; [|exact H]. cbn. destruct cs; done.
  - destruct H as (Hl & HE & H). destruct (IH _ _ _ H) as [H1 H2]. split; [|exact H2]. done.
Qed.

Lemma ckids_ext E G v ks : forall lo cs hi, (forall c, c ∈ cs -> E !! c = G !! c) -> ckids E v lo ks cs hi -> ckids G v lo ks cs hi.
Proof.
  induction ks as [|k ks IH]; intros lo [|c cs] hi He H; cbn in H |- *; try done.
  - by rewrite <- He by left.
  - rewrite <- He by left. destruct H as (? & ? & H). split; [done|]. split; [done|]. apply IH; [|done]. intros x Hx. apply He. by right.
Qed.

(** A child that was divided at [mk] gets a right neighbour. *)
Lemma ckids_insert E G v x r mk l h ks : forall lo cs hi,
  ckids E v lo ks cs hi -> x ∈ cs -> E !! x = Some (mkG v l h) -> l < mk < h ->
  (forall c, c <> x -> c ∈ cs -> E !! c = G !! c) ->
  G !! x = Some (mkG v l mk) -> G !! r = Some (mkG v mk h) ->
  ckids G v lo (insert_at (key_pos ks mk) mk ks) (insert_at (S (key_pos ks mk)) r cs) hi.
Proof.
  unfold insert_at. induction ks as [|k ks IH]; intros lo [|c cs] hi H Hx HE Hm Hsame HG Hr; cbn in H; [done| |done|].
  - destruct H as (-> & Hl & HEc). apply list_elem_of_singleton in Hx as ->. rewrite HEc in HE. injection HE as -> ->. cbn. split; [lia|]. split; [done|]. split; [done|]. split; [lia|done].
  - destruct H as (Hl & HEc & H). destruct (decide (x = c)) as [->|Hne].
    + rewrite HEc in HE. injection HE as -> ->. cbn [key_pos]. destruct (Z.ltb_spec h mk); [lia|]. cbn. split; [lia|]. split; [done|]. split; [lia|]. split; [done|].
      apply (ckids_ext E); [|done]. intros y Hy. apply Hsame; [|by right]. intros ->. destruct (ckids_elem _ _ _ _ _ _ _ H Hy) as (l' & h' & HE' & ? & _). rewrite HEc in HE'. injection HE' as -> _. lia.
    + apply elem_of_cons in Hx as [->|Hx]; [done|]. destruct (ckids_elem _ _ _ _ _ _ _ H Hx) as (l' & h' & HE' & Hll & _). rewrite HE in HE'. injection HE' as <- <-.
      cbn [key_pos]. destruct (Z.ltb_spec k mk); [|lia]. cbn. split; [done|]. split; [rewrite <- Hsame; [done|done|by left]|].
      apply IH; try done. intros y Hy Hin. apply Hsame; [done|by right].
Qed.

(** A node with the range of [g]; [E] has the ranges that parents give their children. *)
Definition node_ok (E G : gmap nat ghost) (nd : CNode) (g : ghost) : Prop :=
  if cn_leaf nd then
    lvl g = 0%nat /\ glo g < ghi g /\ length (cn_val nd) = length (cn_key nd) /\ StronglySorted Z.lt (cn_key nd) /\ Forall (fun k => in_rng k g) (cn_key nd) /\
    match cn_next nd with None => ghi g = KEY_END | Some y => exists h, G !! y = Some (mkG 0 (ghi g) h) end
  else exists v, lvl g = S v /\ ckids E v (glo g) (cn_key nd) (cn_child nd) (ghi g).

Record mem_ok (E G : gmap nat ghost) (t : CBTree) (m : CMem) : Prop := {
  mo_dom : forall x, is_Some (cnodes m !! x) <-> is_Some (G !! x);
  mo_brk : forall x, is_Some (G !! x) -> (x < cbrk m)%nat;
  mo_node : forall x nd g, cnodes m !! x = Some nd -> G !! x = Some g -> node_ok E G nd g;
  mo_disj : forall x y g g' k, G !! x = Some g -> G !! y = Some g' -> lvl g = lvl g' -> in_rng k g -> in_rng k g' -> x = y;
  mo_hdr : exists root L, cnodes m !! t = Some (mkCNode false [] [root] [] None) /\ G !! t = Some (mkG (S L) KEY_MIN KEY_END) /\
             forall x g, G !! x = Some g -> (lvl g <= S L)%nat;
  mo_fill : forall x nd, cnodes m !! x = Some nd -> x <> t ->
             (root_of t m <> Some x -> (2 <= length (cn_key nd))%nat) /\ (cn_leaf nd = false -> (1 <= length (cn_key nd))%nat) }.

Lemma node_range E G nd g : node_ok E G nd g -> glo g < ghi g.
Proof. unfold node_ok. destruct (cn_leaf nd); [tauto|]. intros (v & _ & H). by eapply ckids_bounds. Qed.

Lemma mo_ghost E G t m x nd : mem_ok E G t m -> cnodes m !! x = Some nd -> exists g, G !! x = Some g /\ node_ok E G nd g.
Proof. intros Hm Hx. destruct (proj1 (mo_dom _ _ _ _ Hm x) (ex_intro _ _ Hx)) as [g Hg]. exists g. split; [done|]. by eapply mo_node. Qed.

Lemma mo_get E G t m x g : mem_ok E G t m -> G !! x = Some g -> exists nd, cnodes m !! x = Some nd /\ node_ok E G nd g.
Proof. intros Hm Hx. destruct (proj2 (mo_dom _ _ _ _ Hm x) (ex_intro _ _ Hx)) as [nd Hnd]. exists nd. split; [done|]. by eapply mo_node. Qed.

(** Changing one node, not the header, without changing ranges. *)
Lemma set_ok E E' G t m x nd nd' g : mem_ok E G t m -> cnodes m !! x = Some nd -> G !! x = Some g -> x <> t -> node_ok E' G nd' g ->
  (length (cn_key nd) <= length (cn_key nd'))%nat -> cn_leaf nd' = cn_leaf nd ->
  (forall y ndy gy, y <> x -> cnodes m !! y = Some ndy -> G !! y = Some gy -> node_ok E G ndy gy -> node_ok E' G ndy gy) ->
  mem_ok E' G t (node_set m x nd').
Proof.
  intros [Hdom Hbrk Hnode Hdisj (root & L & Hh & Hg & Hl) Hfill] Hx Hgx Hne Hok Hlen Hleaf Hrest. split; cbn [cnodes node_set cbrk]; try done.
  - intros y. destruct (decide (y = x)) as [->|Hy]; [rewrite lookup_insert_eq|by rewrite lookup_insert_ne]. rewrite Hgx. split; eauto.
  - intros y ndy gy Hy Hgy. destruct (decide (y = x)) as [->|Hyx].
    + rewrite lookup_insert_eq in Hy. injection Hy as <-. congruence.
    + rewrite lookup_insert_ne in Hy by done. eauto.
  - exists root, L. by rewrite lookup_insert_ne.
  - intros y ndy Hy Hyt. assert (Hr : root_of t (node_set m x nd') = root_of t m) by (unfold root_of; cbn [cnodes node_set]; by rewrite lookup_insert_ne).
    rewrite Hr. destruct (decide (y = x)) as [->|Hyx].
    + rewrite lookup_insert_eq in Hy. injection Hy as <-. destruct (Hfill x nd Hx Hyt) as [H1 H2]. rewrite Hleaf. split; intros H; [apply H1 in H|apply H2 in H]; lia.
    + rewrite lookup_insert_ne in Hy by done. eauto.
Qed.

(** *** Division of a node, and what its parent does about it *)

(** The key and the right half of a divided child enter its parent. *)
Lemma absorb_ok G t m p nd x r mk v l h : mem_ok (<[x := mkG v l h]> G) G t m ->
  G !! x = Some (mkG v l mk) -> G !! r = Some (mkG v mk h) -> l < mk < h ->
  cnodes m !! p = Some nd -> p <> t -> cn_leaf nd = false -> x ∈ cn_child nd ->
  let pi := key_pos (cn_key nd) mk in
  mem_ok G G t (node_set m p (mkCNode (cn_leaf nd) (insert_at pi mk (cn_key nd)) (insert_at (S pi) r (cn_child nd)) (cn_val nd) (cn_next nd))).
Proof.
  intros Hm Hx Hr Hmk Hp Hpt Hleaf Hin pi. destruct (mo_ghost _ _ _ _ _ _ Hm Hp) as (g & Hg & Hok). unfold node_ok in Hok. rewrite Hleaf in Hok. destruct Hok as (v' & Hv & Hk).
  destruct (ckids_elem _ _ _ _ _ _ _ Hk Hin) as (l' & h' & HE & Hlh & Hh). rewrite lookup_insert_eq in HE. injection HE as <- <- <-.
  eapply set_ok; [exact Hm|exact Hp|exact Hg|done| |cbn; unfold insert_at; rewrite length_app, length_take; cbn; rewrite length_drop; lia|done|].
  - unfold node_ok. cbn [cn_leaf cn_key cn_child]. rewrite Hleaf. exists v. split; [done|]. eapply ckids_insert; [exact Hk|done|apply lookup_insert_eq|done| |done|done].
    intros c Hc _. by rewrite lookup_insert_ne.
  - intros y ndy gy Hy Hndy Hgy. unfold node_ok. destruct (cn_leaf ndy); [done|]. intros (v2 & Hv2 & Hk2). exists v2. split; [done|]. eapply ckids_ext; [|exact Hk2].
    intros c Hc. destruct (decide (c = x)) as [->|Hcx]; [|by rewrite lookup_insert_ne]. exfalso. apply Hy.
    destruct (ckids_elem _ _ _ _ _ _ _ Hk2 Hc) as (l2 & h2 & HE & Hl2 & Hh2). rewrite lookup_insert_eq in HE. injection HE as <- <- <-.
    eapply (mo_disj _ _ _ _ Hm y p gy g l Hgy Hg); [congruence| |]; unfold in_rng; lia.
Qed.

Lemma fresh_brk E G t m : mem_ok E G t m -> G !! cbrk m = None.
Proof. intros Hm. destruct (G !! cbrk m) eqn:E1; [|done]. pose proof (mo_brk _ _ _ _ Hm _ (ex_intro _ _ E1)). lia. Qed.

(** Node [x] is divided at [mk]; its parents do not know yet. *)
Lemma divide_ok G t m x nd nd1 nd2 mk v l h : mem_ok G G t m -> cnodes m !! x = Some nd -> G !! x = Some (mkG v l h) -> x <> t -> l < mk < h ->
  let G' := <[cbrk m := mkG v mk h]> (<[x := mkG v l mk]> G) in
  let E' := <[x := mkG v l h]> G' in
  node_ok E' G' nd1 (mkG v l mk) -> node_ok E' G' nd2 (mkG v mk h) -> (2 <= length (cn_key nd1))%nat -> (2 <= length (cn_key nd2))%nat ->
  mem_ok E' G' t (node_set (node_new m nd2).1 x nd1).
Proof.
  intros Hm Hx Hg Hxt Hmk G' E' Hok1 Hok2 Hlen1 Hlen2. pose proof (fresh_brk _ _ _ _ Hm) as Hfresh. set (r := cbrk m) in *.
  assert (Hxr : x <> r) by congruence. pose proof Hm as [Hdom Hbrk Hnode Hdisj (root & L & Hh & Hgt & Hl) Hfill]. assert (Htr : t <> r) by congruence.
  assert (HG'x : G' !! x = Some (mkG v l mk)) by (unfold G'; rewrite lookup_insert_ne, lookup_insert_eq; done).
  assert (HG'r : G' !! r = Some (mkG v mk h)) by (unfold G'; by rewrite lookup_insert_eq).
  assert (HG'o : forall y, y <> x -> y <> r -> G' !! y = G !! y) by (intros y ? ?; unfold G'; by rewrite !lookup_insert_ne).
  assert (HE' : forall y, is_Some (G !! y) -> E' !! y = G !! y).
  { intros y [gy Hy]. unfold E'. destruct (decide (y = x)) as [->|Hyx]; [by rewrite lookup_insert_eq|]. rewrite lookup_insert_ne by done. apply HG'o; congruence. }
  split; cbn [cnodes node_set node_new fst cbrk]; fold r.
  - intros y. destruct (decide (y = x)) as [->|Hyx]; [rewrite lookup_insert_eq, HG'x; split; eauto|]. rewrite lookup_insert_ne by done.
    destruct (decide (y = r)) as [->|Hyr]; [rewrite lookup_insert_eq, HG'r; split; eauto|]. rewrite lookup_insert_ne, HG'o by done. apply Hdom.
  - intros y [gy Hy]. destruct (decide (y = r)) as [->|Hyr]; [lia|]. assert (is_Some (G !! y)); [|pose proof (Hbrk y ltac:(done)); lia].
    destruct (decide (y = x)) as [->|Hyx]; [eauto|]. rewrite HG'o in Hy by done. eauto.
  - intros y ndy gy Hy Hgy. destruct (decide (y = x)) as [->|Hyx]; [rewrite lookup_insert_eq in Hy; congruence|]. rewrite lookup_insert_ne in Hy by done.
    destruct (decide (y = r)) as [->|Hyr]; [rewrite lookup_insert_eq in Hy; congruence|]. rewrite lookup_insert_ne in Hy by done. rewrite HG'o in Hgy by done.
    pose proof (Hnode y ndy gy Hy Hgy) as Hok. unfold node_ok in Hok |- *. destruct (cn_leaf ndy).
    + destruct Hok as (H1 & H2 & H3 & H4 & H5 & H6). do 5 (split; [done|]). destruct (cn_next ndy) as [z|]; [|done]. destruct H6 as [hz Hz].
      destruct (decide (z = x)) as [->|Hzx]; [rewrite Hg in Hz; injection Hz as -> -> ->; by exists mk|]. exists hz. rewrite HG'o; [done|done|congruence].
    + destruct Hok as (v2 & Hv2 & Hk). exists v2. split; [done|]. eapply ckids_ext; [|exact Hk]. intros c Hc. symmetry. apply HE'.
      destruct (ckids_elem _ _ _ _ _ _ _ Hk Hc) as (? & ? & -> & _). eauto.
  - assert (Hgen : forall y gy k, G' !! y = Some gy -> in_rng k gy -> exists z gz, G !! z = Some gz /\ lvl gz = lvl gy /\ in_rng k gz /\
              (z = x /\ (y = x /\ k < mk \/ y = r /\ mk <= k) \/ z <> x /\ y = z)).
    { intros y gy k Hy Hk. destruct (decide (y = x)) as [->|Hyx].
      { rewrite HG'x in Hy. injection Hy as <-. exists x, (mkG v l h). unfold in_rng in *. cbn in *. split; [done|]. split; [done|]. split; [lia|]. left. split; [done|]. left. split; [done|lia]. }
      destruct (decide (y = r)) as [->|Hyr].
      { rewrite HG'r in Hy. injection Hy as <-. exists x, (mkG v l h). unfold in_rng in *. cbn in *. split; [done|]. split; [done|]. split; [lia|]. left. split; [done|]. right. split; [done|lia]. }
      rewrite HG'o in Hy by done. exists y, gy. split; [done|]. split; [done|]. split; [done|]. by right. }
    intros y y' gy gy' k Hy Hy' Hlv Hk Hk'. destruct (Hgen y gy k Hy Hk) as (z & gz & Hz & Hzl & Hzk & Hcase). destruct (Hgen y' gy' k Hy' Hk') as (z' & gz' & Hz' & Hzl' & Hzk' & Hcase').
    assert (z = z') as <- by (apply (Hdisj z z' gz gz' k); congruence). naive_solver lia.
  - exists root, L. rewrite !lookup_insert_ne by done. split; [done|]. rewrite HG'o by done. split; [done|]. intros y gy Hy.
    destruct (decide (y = x)) as [->|Hyx]; [rewrite HG'x in Hy; injection Hy as <-; exact (Hl _ _ Hg)|].
    destruct (decide (y = r)) as [->|Hyr]; [rewrite HG'r in Hy; injection Hy as <-; exact (Hl _ _ Hg)|]. rewrite HG'o in Hy by done. eauto.
  - intros y ndy Hy Hyt. assert (Hr : forall mm, cnodes mm = <[x:=nd1]> (<[r:=nd2]> (cnodes m)) -> root_of t mm = root_of t m) by (intros mm Hmm; unfold root_of; by rewrite Hmm, !lookup_insert_ne).
    match goal with |- context [root_of t ?mm] => rewrite (Hr mm eq_refl) end.
    destruct (decide (y = x)) as [->|Hyx]; [rewrite lookup_insert_eq in Hy; injection Hy as <-; lia|]. rewrite lookup_insert_ne in Hy by done.
    destruct (decide (y = r)) as [->|Hyr]; [rewrite lookup_insert_eq in Hy; injection Hy as <-; lia|]. rewrite lookup_insert_ne in Hy by done. eauto.
Qed.

(** A divided root gets a parent, the new root. *)
Lemma new_root_ok G t m nd x r mk v l h : mem_ok (<[x := mkG v l h]> G) G t m ->
  G !! x = Some (mkG v l mk) -> G !! r = Some (mkG v mk h) -> l < mk < h ->
  cnodes m !! t = Some nd -> x ∈ cn_child nd -> (forall ndx, cnodes m !! x = Some ndx -> (2 <= length (cn_key ndx))%nat) ->
  let G' := <[cbrk m := mkG (S v) KEY_MIN KEY_END]> (<[t := mkG (S (S v)) KEY_MIN KEY_END]> G) in
  cn_child nd !! 0%nat = Some x /\
  mem_ok G' G' t (node_set (node_new m (mkCNode false [mk] [x; r] [] None)).1 t
                    (mkCNode false (cn_key nd) (<[0%nat := cbrk m]> (cn_child nd)) (cn_val nd) (cn_next nd))).
Proof.
  intros Hm Hx Hr Hmk Ht Hin Hlenx G'. pose proof (fresh_brk _ _ _ _ Hm) as Hfresh. set (nr := cbrk m) in *.
  pose proof Hm as [Hdom Hbrk Hnode Hdisj (root & L & Hh & Hgt & Hl) Hfill]. rewrite Ht in Hh. injection Hh as ->. cbn [cn_child cn_key cn_val cn_next] in *.
  apply list_elem_of_singleton in Hin as <-. split; [done|]. change (<[0%nat:=nr]> [x]) with [nr].
  pose proof (Hnode _ _ _ Ht Hgt) as Hok. unfold node_ok in Hok. cbn in Hok. destruct Hok as (v' & Hv & _ & Hlt & HE). rewrite lookup_insert_eq in HE.
  injection HE as -> -> ->. injection Hv as ->. assert (Htnr : t <> nr) by congruence.
  assert (Hxt : x <> t) by (intros ->; rewrite Hgt in Hx; injection Hx; lia). assert (Hrt : r <> t) by (intros ->; rewrite Hgt in Hr; injection Hr; lia).
  assert (HG't : G' !! t = Some (mkG (S (S v')) KEY_MIN KEY_END)) by (unfold G'; rewrite lookup_insert_ne, lookup_insert_eq; done).
  assert (HG'n : G' !! nr = Some (mkG (S v') KEY_MIN KEY_END)) by (unfold G'; by rewrite lookup_insert_eq).
  assert (HG'o : forall y, y <> t -> y <> nr -> G' !! y = G !! y) by (intros y ? ?; unfold G'; by rewrite !lookup_insert_ne).
  assert (HG'x : G' !! x = Some (mkG v' KEY_MIN mk)) by (rewrite HG'o; congruence). assert (HG'r : G' !! r = Some (mkG v' mk KEY_END)) by (rewrite HG'o; congruence).
  split; cbn [cnodes node_set node_new fst cbrk]; fold nr.
  - intros y. destruct (decide (y = t)) as [->|Hyt]; [rewrite lookup_insert_eq, HG't; split; eauto|]. rewrite lookup_insert_ne by done.
    destruct (decide (y = nr)) as [->|Hyr]; [rewrite lookup_insert_eq, HG'n; split; eauto|]. rewrite lookup_insert_ne, HG'o by done. apply Hdom.
  - intros y [gy Hy]. destruct (decide (y = nr)) as [->|Hyr]; [lia|]. assert (is_Some (G !! y)); [|pose proof (Hbrk y ltac:(done)); lia].
    destruct (decide (y = t)) as [->|Hyt]; [eauto|]. rewrite HG'o in Hy by done. eauto.
  - intros y ndy gy Hy Hgy. destruct (decide (y = t)) as [->|Hyt].
    { rewrite lookup_insert_eq in Hy. injection Hy as <-. rewrite HG't in Hgy. injection Hgy as <-. exists (S v'). cbn. split; [done|]. split; [done|]. split; [unfold KEY_MIN, KEY_END; lia|exact HG'n]. }
    rewrite lookup_insert_ne in Hy by done. destruct (decide (y = nr)) as [->|Hyr].
    { rewrite lookup_insert_eq in Hy. injection Hy as <-. rewrite HG'n in Hgy. injection Hgy as <-. exists v'. cbn. split; [done|]. split; [lia|]. split; [exact HG'x|]. split; [done|]. split; [lia|exact HG'r]. }
    rewrite lookup_insert_ne in Hy by done. rewrite HG'o in Hgy by done. pose proof (Hnode y ndy gy Hy Hgy) as Hok. unfold node_ok in Hok |- *. destruct (cn_leaf ndy).
    + destruct Hok as (H1 & H2 & H3 & H4 & H5 & H6). do 5 (split; [done|]). destruct (cn_next ndy) as [z|]; [|done]. destruct H6 as [hz Hz]. exists hz. rewrite HG'o; congruence.
    + destruct Hok as (v2 & Hv2 & Hk). exists v2. split; [done|]. eapply ckids_ext; [|exact Hk]. intros c Hc. destruct (ckids_elem _ _ _ _ _ _ _ Hk Hc) as (l2 & h2 & HE & Hl2 & Hh2).
      destruct (decide (c = x)) as [->|Hcx].
      { exfalso. apply Hyt. rewrite lookup_insert_eq in HE. injection HE as <- <- <-. apply (Hdisj y t gy _ KEY_MIN Hgy Hgt); [by rewrite Hv2|unfold in_rng; lia|unfold in_rng, KEY_MIN, KEY_END; cbn; lia]. }
      rewrite lookup_insert_ne in HE |- * by done. rewrite HG'o; [done| |congruence]. intros ->. rewrite Hgt in HE. injection HE as <- _ _. pose proof (Hl _ _ Hgy). lia.
  - assert (Hin : forall y gy k, G !! y = Some gy -> lvl gy = S v' -> in_rng k gy -> in_rng k (mkG 0 KEY_MIN KEY_END) -> y = t).
    { intros y gy k Hy Hlv Hk Hk'. by apply (Hdisj y t gy _ k Hy Hgt). }
    intros y y' gy gy' k Hy Hy' Hlv Hk Hk'.
    destruct (decide (y = t)) as [->|Hyt]; destruct (decide (y' = t)) as [->|Hyt']; [done| | |].
    + rewrite HG't in Hy. injection Hy as <-. destruct (decide (y' = nr)) as [->|?]; [rewrite HG'n in Hy'; injection Hy' as <-; cbn in Hlv; lia|]. rewrite HG'o in Hy' by done. pose proof (Hl _ _ Hy'). cbn in Hlv. lia.
    + rewrite HG't in Hy'. injection Hy' as <-. destruct (decide (y = nr)) as [->|?]; [rewrite HG'n in Hy; injection Hy as <-; cbn in Hlv; lia|]. rewrite HG'o in Hy by done. pose proof (Hl _ _ Hy). cbn in Hlv. lia.
    + destruct (decide (y = nr)) as [->|Hyn]; destruct (decide (y' = nr)) as [->|Hyn']; [done| | |].
      * exfalso. apply Hyt'. rewrite HG'n in Hy. injection Hy as <-. rewrite HG'o in Hy' by done. eapply Hin; [exact Hy'|by rewrite <- Hlv|exact Hk'|exact Hk].
      * exfalso. apply Hyt. rewrite HG'n in Hy'. injection Hy' as <-. rewrite HG'o in Hy by done. eapply Hin; [exact Hy|by rewrite Hlv|exact Hk|exact Hk'].
      * rewrite HG'o in Hy, Hy' by done. by apply (Hdisj y y' gy gy' k).
  - exists nr, (S v'). rewrite lookup_insert_eq. split; [done|]. split; [done|]. intros y gy Hy. destruct (decide (y = t)) as [->|?]; [rewrite HG't in Hy; injection Hy as <-; cbn; lia|].
    destruct (decide (y = nr)) as [->|?]; [rewrite HG'n in Hy; injection Hy as <-; cbn; lia|]. rewrite HG'o in Hy by done. pose proof (Hl _ _ Hy). lia.
  - intros y ndy Hy Hyt. rewrite lookup_insert_ne in Hy by done.
    assert (Hroot : root_of t m = Some x) by (unfold root_of; by rewrite Ht). unfold root_of. cbn [cnodes node_set node_new fst]. rewrite lookup_insert_eq. cbn.
    destruct (decide (y = nr)) as [->|Hyn]; [rewrite lookup_insert_eq in Hy; injection Hy as <-; split; [done|cbn; lia]|]. rewrite lookup_insert_ne in Hy by done.
    destruct (Hfill y ndy Hy Hyt) as [H1 H2]. split; [|done]. intros _. destruct (decide (y = x)) as [->|Hyx]; [by apply Hlenx|]. apply H1. rewrite Hroot. congruence.
Qed.

(** ** Entering a key in the stack of latched nodes *)

(** Each node of the stack is a child of the next. *)
Fixpoint linked (m : CMem) (x : nat) (anc : list nat) : Prop :=
  match anc with
  | [] => True
  | p :: anc => (exists nd, cnodes m !! p = Some nd /\ cn_leaf nd = false /\ x ∈ cn_child nd) /\ linked m p anc
  end.

(** The highest node of the stack is the header or has room. *)
Definition topped (t : CBTree) (m : CMem) (stack : list nat) : Prop :=
  exists z nd, list.last stack = Some z /\ cnodes m !! z = Some nd /\ (z = t \/ (length (cn_key nd) < ORDER)%nat).

Definition short (m : CMem) : Prop := forall x nd, cnodes m !! x = Some nd -> (length (cn_key nd) <= ORDER)%nat.

Definition same_except (G G' : gmap nat ghost) (m m' : CMem) (X : list nat) : Prop :=
  forall y, y ∉ X -> is_Some (G !! y) -> G' !! y = G !! y /\ cnodes m' !! y = cnodes m !! y.

Definition same_leaves (m m' : CMem) : Prop := forall y nd, cn_leaf nd = true -> cnodes m' !! y = Some nd <-> cnodes m !! y = Some nd.

Lemma linked_ext m m' anc : forall x, linked m x anc -> (forall y, y ∈ anc -> cnodes m' !! y = cnodes m !! y) -> linked m' x anc.
Proof.
  induction anc as [|p anc IH]; intros x; [done|]. intros [(nd & Hp & Hrest) Hl] He. split; [exists nd; rewrite He by left; done|].
  apply IH; [done|]. intros y Hy. apply He. by right.
Qed.

Lemma linked_alloc m anc : forall x y, linked m x anc -> y ∈ anc -> is_Some (cnodes m !! y).
Proof.
  induction anc as [|p anc IH]; intros x y; [intros _ Hy; by apply not_elem_of_nil in Hy|]. intros [(nd & Hp & _) Hl] [->|Hy]%elem_of_cons; [eauto|]. by eapply IH.
Qed.

Lemma set_new_set m p a b c : p <> cbrk m -> node_set (node_new (node_set m p a) b).1 p c = node_set (node_new m b).1 p c.
Proof. intros Hp. unfold node_set, node_new. cbn. f_equal. rewrite (insert_insert_ne _ (cbrk m) p) by done. by rewrite insert_insert_eq. Qed.

Lemma length_insert_at {A} i (x : A) l : length (insert_at i x l) = S (length l).
Proof. unfold insert_at. rewrite length_app. cbn [length]. rewrite length_take, length_drop. lia. Qed.

Lemma divide_inner G t m p nd v l h push : mem_ok G G t m -> cnodes m !! p = Some nd -> G !! p = Some (mkG v l h) -> p <> t -> cn_leaf nd = false ->
  length (cn_key nd) = S ORDER -> cn_key nd !! 2%nat = Some push ->
  let G' := <[cbrk m := mkG v push h]> (<[p := mkG v l push]> G) in
  l < push < h /\
  mem_ok (<[p := mkG v l h]> G') G' t
    (node_set (node_new m (mkCNode false (drop 3 (cn_key nd)) (drop 3 (cn_child nd)) [] None)).1 p
       (mkCNode (cn_leaf nd) (take 2 (cn_key nd)) (take 3 (cn_child nd)) (cn_val nd) (cn_next nd))).
Proof.
  intros Hm Hp Hg Hpt Hleaf Hlen Hpush G'. pose proof (mo_node _ _ _ _ Hm _ _ _ Hp Hg) as Hok. unfold node_ok in Hok. rewrite Hleaf in Hok. cbn [lvl glo ghi] in Hok. destruct Hok as (v2 & -> & Hk).
  rewrite <- (take_drop_middle _ _ _ Hpush) in Hk. apply ckids_cut in Hk as [Hk1 Hk2].
  assert (Hl2 : length (take 2 (cn_key nd)) = 2%nat) by (rewrite length_take, Hlen; done). rewrite Hl2 in Hk1, Hk2.
  pose proof (ckids_bounds _ _ _ _ _ _ Hk1). pose proof (ckids_bounds _ _ _ _ _ _ Hk2). split; [lia|]. pose proof (fresh_brk _ _ _ _ Hm) as Hfresh.
  assert (HE : forall c, is_Some (G !! c) -> G !! c = <[p := mkG (S v2) l h]> G' !! c).
  { intros c [gc Hc]. destruct (decide (c = p)) as [->|Hcp]; [by rewrite lookup_insert_eq|]. rewrite lookup_insert_ne by done. unfold G'. rewrite !lookup_insert_ne; [done|done|congruence]. }
  assert (Hkids : forall lo ks cs hi, ckids G v2 lo ks cs hi -> ckids (<[p := mkG (S v2) l h]> G') v2 lo ks cs hi).
  { intros lo ks cs hi Hk. eapply ckids_ext; [|exact Hk]. intros c Hc. apply HE. destruct (ckids_elem _ _ _ _ _ _ _ Hk Hc) as (? & ? & -> & _). eauto. }
  eapply divide_ok; [exact Hm|exact Hp|exact Hg|done|lia| | |cbn; rewrite length_take, Hlen; unfold ORDER; lia|cbn; rewrite length_drop; unfold ORDER in *; lia].
  - unfold node_ok. cbn [cn_leaf cn_key cn_child lvl glo ghi]. rewrite Hleaf. exists v2. split; [done|]. by apply Hkids.
  - unfold node_ok. cbn [cn_leaf cn_key cn_child lvl glo ghi]. exists v2. split; [done|]. by apply Hkids.
Qed.

Lemma split_up_ok t anc : forall m G x mk r v l h,
  mem_ok (<[x := mkG v l h]> G) G t m -> short m -> G !! x = Some (mkG v l mk) -> G !! r = Some (mkG v mk h) -> l < mk < h ->
  (forall ndx, cnodes m !! x = Some ndx -> (2 <= length (cn_key ndx))%nat) -> linked m x anc -> NoDup anc -> topped t m anc ->
  exists m' G', split_up t m mk r anc = Some m' /\ mem_ok G' G' t m' /\ short m' /\ same_except G G' m m' anc /\ same_leaves m m'.
Proof.
  induction anc as [|p anc IH]; intros m G x mk r v l h Hm Hs Hx Hr Hmk Hlx Hlink Hnd Htop; [by destruct Htop as (z & nd & ? & _)|].
  destruct Hlink as [(nd & Hp & Hleaf & Hin) Hlink]. apply list.NoDup_cons in Hnd as [Hnp Hnd]. cbn [split_up]. rewrite Hp. cbn [mbind option_bind].
  pose proof (fresh_brk _ _ _ _ Hm) as Hfresh. assert (Hfn : cnodes m !! cbrk m = None) by (destruct (cnodes m !! cbrk m) eqn:E; [|done]; destruct (proj1 (mo_dom _ _ _ _ Hm _) (ex_intro _ _ E)); congruence).
  assert (Hpb : p <> cbrk m) by congruence. destruct (Nat.eqb_spec p t) as [->|Hpt].
  { destruct (new_root_ok _ _ _ nd _ _ _ _ _ _ Hm Hx Hr Hmk Hp Hin Hlx) as [H0 Hm']. rewrite H0. cbn [mbind option_bind node_new]. eexists _, _. split; [reflexivity|]. split; [exact Hm'|].
    destruct (mo_hdr _ _ _ _ Hm) as (root & L & Hh & _). rewrite Hp in Hh. injection Hh as ->. split; [|split].
    - intros y ndy. cbn [cnodes node_set]. rewrite !lookup_insert_Some. intros [[<- <-]|[_ [[<- <-]|[_ Hy]]]]; [cbn; unfold ORDER; lia|cbn; unfold ORDER; lia|by eapply Hs].
    - intros y Hy [gy Hgy]. cbn [cnodes node_set]. assert (y <> t) by set_solver. assert (y <> cbrk m) by congruence. by rewrite !lookup_insert_ne.
    - intros y ndy Hly. cbn [cnodes node_set]. rewrite !lookup_insert_Some. split.
      + intros [[<- <-]|[_ [[<- <-]|[_ Hy]]]]; done.
      + intros Hy. right. split; [intros ->; rewrite Hp in Hy; by injection Hy as <-|]. right. split; [congruence|done]. }
  pose proof (absorb_ok _ _ _ _ _ _ _ _ _ _ _ Hm Hx Hr Hmk Hp Hpt Hleaf Hin) as Hm1. cbn zeta in Hm1. set (pi := key_pos (cn_key nd) mk) in *.
  set (ks := insert_at pi mk (cn_key nd)) in *. set (cs := insert_at (S pi) r (cn_child nd)) in *. set (nd1 := mkCNode (cn_leaf nd) ks cs (cn_val nd) (cn_next nd)) in *.
  assert (Hks : length ks = S (length (cn_key nd))) by apply length_insert_at. destruct (Nat.leb_spec (length ks) ORDER) as [Hle|Hgt].
  { eexists _, G. split; [reflexivity|]. split; [exact Hm1|]. split; [|split].
    - intros y ndy. cbn [cnodes node_set]. rewrite lookup_insert_Some. intros [[<- <-]|[_ Hy]]; [done|by eapply Hs].
    - intros y Hy _. cbn [cnodes node_set]. split; [done|]. rewrite lookup_insert_ne by set_solver. done.
    - intros y ndy Hly. cbn [cnodes node_set]. rewrite lookup_insert_Some. split; [intros [[<- <-]|[_ Hy]]; [cbn in Hly; congruence|done]|].
      intros Hy. right. split; [intros ->; congruence|done]. }
  pose proof (Hs _ _ Hp) as Hsp. assert (Hlen : length ks = S ORDER) by lia. rewrite Hlen. change (S ORDER / 2)%nat with 2%nat.
  destruct (ks !! 2%nat) as [push|] eqn:Epush; [|apply lookup_ge_None in Epush; unfold ORDER in *; lia]. cbn [mbind option_bind].
  destruct (proj1 (mo_dom _ _ _ _ Hm p) (ex_intro _ _ Hp)) as [[vp lp hp] Hgp].
  destruct (divide_inner G t _ p nd1 vp lp hp push Hm1) as [Hlph Hm2]; [apply lookup_insert_eq|done|done|done|done|done|]. cbn zeta in Hm2. cbn [cbrk node_set] in Hm2.
  rewrite set_new_set in Hm2 by done. cbn [cn_leaf cn_key cn_child cn_val cn_next nd1] in Hm2. unfold node_new at 1. set (m2 := node_set _ p _) in Hm2. set (G2 := <[cbrk m := _]> _) in Hm2.
  assert (Hn2 : forall y, y <> p -> y <> cbrk m -> cnodes m2 !! y = cnodes m !! y) by (intros y ? ?; unfold m2; cbn [cnodes node_set node_new fst]; by rewrite !lookup_insert_ne).
  assert (Hanc : forall y, y ∈ anc -> cnodes m2 !! y = cnodes m !! y).
  { intros y Hy. apply Hn2; [by intros ->|]. intros ->. destruct (linked_alloc _ _ _ _ Hlink Hy). congruence. }
  destruct (IH m2 G2 p push (cbrk m) vp lp hp) as (m' & G' & Hsu & Hm' & Hs' & Hsame & Hlv); try done.
  - intros y ndy. unfold m2. cbn [cnodes node_set node_new fst]. rewrite !lookup_insert_Some. intros [[<- <-]|[_ [[<- <-]|[_ Hy]]]]; [cbn; rewrite length_take; unfold ORDER; lia|cbn; rewrite length_drop; lia|by eapply Hs].
  - unfold G2. rewrite lookup_insert_ne, lookup_insert_eq; done.
  - unfold G2. by rewrite lookup_insert_eq.
  - unfold m2. cbn [cnodes node_set]. rewrite lookup_insert_eq. intros ndx [= <-]. cbn. rewrite length_take, Hlen. unfold ORDER. lia.
  - by apply (linked_ext m).
  - destruct Htop as (z & ndz & Hlast & Hz & Hzt). destruct anc as [|q anc]; [injection Hlast as <-; rewrite Hp in Hz; injection Hz as <-; destruct Hzt; [done|lia]|].
    exists z, ndz. split; [done|]. rewrite Hanc; [done|]. by apply last_Some_elem_of.
  - exists m', G'. split; [exact Hsu|]. split; [done|]. split; [done|]. split.
    + intros y Hy [gy Hgy]. assert (y <> p) by set_solver. assert (y <> cbrk m) by congruence. destruct (Hsame y) as [HG HN]; [set_solver|unfold G2; rewrite !lookup_insert_ne by done; eauto|].
      rewrite HG, HN, Hn2 by done. split; [|done]. unfold G2. by rewrite !lookup_insert_ne.
    + intros y ndy Hly. rewrite (Hlv y ndy Hly). unfold m2. cbn [cnodes node_set node_new fst]. rewrite !lookup_insert_Some. split.
      * intros [[<- <-]|[_ [[<- <-]|[_ Hy]]]]; [cbn in Hly; congruence|done|done].
      * intros Hy. right. split; [intros ->; congruence|]. right. split; [congruence|done].
Qed.

(** *** Leaves *)

Lemma sorted_head k ks key : StronglySorted Z.lt (k :: ks) -> key ∈ ks -> k < key.
Proof. intros H Hk. inversion_clear H as [|? ? _ Hf]. rewrite list.Forall_forall in Hf. by apply Hf. Qed.

Lemma zip_key {ks vs : list Z} {k v} : (k, v) ∈ zip ks vs -> k ∈ ks.
Proof. intros H. by apply elem_of_zip_l in H. Qed.

Lemma cleaf_find_spec ks : forall (vs : list Z) key v, length vs = length ks -> StronglySorted Z.lt ks -> cleaf_find ks vs key = Some v <-> (key, v) ∈ zip ks vs.
Proof.
  induction ks as [|k ks IH]; intros [|w vs] key v Hl Hs; try done; [cbn; split; [done|set_solver]|]. cbn [cleaf_find]. inversion_clear Hs as [|? ? Hs' Hf].
  injection Hl as Hl. assert (Hz : zip (k :: ks) (w :: vs) = (k, w) :: zip ks vs) by done. rewrite Hz, elem_of_cons. destruct (Z.eqb_spec k key) as [->|Hne].
  - split; [intros [= ->]; by left|]. intros [[= ->]|Hin]; [done|]. apply zip_key in Hin. rewrite list.Forall_forall in Hf. pose proof (Hf _ Hin). lia.
  - rewrite IH by done. split; [by right|]. intros [[= -> _]|?]; done.
Qed.

Lemma leaf_update ks : forall (vs : list Z) key v, length vs = length ks -> StronglySorted Z.lt ks -> ks !! key_pos ks key = Some key ->
  forall k' v', (k', v') ∈ zip ks (<[key_pos ks key := v]> vs) <-> (k' = key /\ v' = v) \/ (k' <> key /\ (k', v') ∈ zip ks vs).
Proof.
  induction ks as [|k ks IH]; intros [|w vs] key v Hl Hs Hp k' v'; try done. cbn [key_pos] in *. injection Hl as Hl.
  assert (Hz : forall x, zip (k :: ks) (x :: vs) = (k, x) :: zip ks vs) by done. destruct (Z.ltb_spec k key) as [Hlt|Hge].
  - change (<[S (key_pos ks key):=v]> (w :: vs)) with (w :: <[key_pos ks key := v]> vs). change (zip (k :: ks) (w :: <[key_pos ks key:=v]> vs)) with ((k, w) :: zip ks (<[key_pos ks key:=v]> vs)).
    rewrite Hz, !elem_of_cons. inversion_clear Hs as [|? ? Hs' _]. rewrite IH by done. split; [|naive_solver].
    intros [[= -> ->]|[?|[? ?]]]; [right; split; [lia|by left]|by left|right; split; [done|by right]].
  - injection Hp as ->. change (<[0%nat:=v]> (w :: vs)) with (v :: vs). rewrite !Hz, !elem_of_cons. split.
    + intros [[= -> ->]|Hin]; [by left|]. right. split; [|by right]. intros ->. pose proof (sorted_head _ _ _ Hs (zip_key Hin)). lia.
    + intros [[-> ->]|[Hne [[= -> _]|Hin]]]; [by left|done|by right].
Qed.

Lemma insert_at_S {A} i (x y : A) l : insert_at (S i) x (y :: l) = y :: insert_at i x l.
Proof. done. Qed.

Lemma insert_at_elem {A} i (x y : A) l : y ∈ insert_at i x l <-> y = x \/ y ∈ l.
Proof. unfold insert_at. rewrite <- (take_drop i l) at 3. rewrite !elem_of_app, elem_of_cons. tauto. Qed.

Lemma leaf_enter ks : forall (vs : list Z) key v, length vs = length ks -> StronglySorted Z.lt ks -> ks !! key_pos ks key <> Some key ->
  let i := key_pos ks key in
  StronglySorted Z.lt (insert_at i key ks) /\
  forall k' v', (k', v') ∈ zip (insert_at i key ks) (insert_at i v vs) <-> (k' = key /\ v' = v) \/ (k' <> key /\ (k', v') ∈ zip ks vs).
Proof.
  induction ks as [|k ks IH]; intros [|w vs] key v Hl Hs Hp; try done.
  - cbn. split; [repeat constructor|]. intros k' v'. rewrite list_elem_of_singleton. set_solver.
  - cbn [key_pos] in *. injection Hl as Hl. pose proof Hs as Hs0. inversion_clear Hs as [|? ? Hs' Hf]. destruct (Z.ltb_spec k key) as [Hlt|Hge].
    + destruct (IH vs key v Hl Hs' Hp) as [IH1 IH2]. cbn zeta. rewrite !insert_at_S. split.
      { constructor; [done|]. apply list.Forall_forall. intros y [->|Hy]%insert_at_elem; [done|]. rewrite list.Forall_forall in Hf. by apply Hf. }
      intros k' v'. change (zip (k :: ?a) (w :: ?b)) with ((k, w) :: zip a b). rewrite !elem_of_cons, IH2. split; [|naive_solver].
      intros [[= -> ->]|[?|[? ?]]]; [right; split; [lia|by left]|by left|right; split; [done|by right]].
    + assert (k <> key) by (intros ->; by apply Hp). cbn zeta. unfold insert_at. cbn [take drop app]. split.
      { constructor; [done|]. constructor; [lia|]. eapply Forall_impl; [|exact Hf]. cbn. intros; lia. }
      intros k' v'. change (zip (key :: ?a) (v :: ?b)) with ((key, v) :: zip a b). rewrite elem_of_cons. split.
      * intros [[= -> ->]|Hin]; [by left|]. right. split; [|done]. intros ->. apply zip_key in Hin. apply elem_of_cons in Hin as [->|Hin]; [done|]. pose proof (sorted_head _ _ _ Hs0 Hin). lia.
      * intros [[-> ->]|[_ Hin]]; [by left|by right].
Qed.

(** *** The keys of the tree *)

Definition holds_key (m : CMem) (k v : Z) : Prop := exists x nd, cnodes m !! x = Some nd /\ cn_leaf nd = true /\ (k, v) ∈ zip (cn_key nd) (cn_val nd).
Definition contents (m : CMem) (M : gmap Z Z) : Prop := forall k v, M !! k = Some v <-> holds_key m k v.

Lemma holds_same m m' : same_leaves m m' -> forall k v, holds_key m' k v <-> holds_key m k v.
Proof. intros Hs k v. split; intros (x & nd & Hx & Hl & Hin); exists x, nd; (split; [by apply (Hs x nd Hl)|done]). Qed.

Lemma contents_put m m' k v M : (forall k' v', holds_key m' k' v' <-> (k' = k /\ v' = v) \/ (k' <> k /\ holds_key m k' v')) -> contents m M -> contents m' (<[k := v]> M).
Proof. intros Hp Hc k' v'. unfold contents in Hc. rewrite lookup_insert_Some, Hp, Hc. naive_solver. Qed.

(** A leaf is the only one with keys of its range. *)
Lemma leaf_alone E G t m x nd g k v : mem_ok E G t m -> cnodes m !! x = Some nd -> G !! x = Some g -> cn_leaf nd = true -> in_rng k g ->
  holds_key m k v <-> (k, v) ∈ zip (cn_key nd) (cn_val nd).
Proof.
  intros Hm Hx Hg Hl Hk. split; [|intros Hin; by exists x, nd]. intros (y & ndy & Hy & Hly & Hin). destruct (mo_ghost _ _ _ _ _ _ Hm Hy) as (gy & Hgy & Hoky).
  pose proof (mo_node _ _ _ _ Hm _ _ _ Hx Hg) as Hok. unfold node_ok in Hok, Hoky. rewrite Hl in Hok. rewrite Hly in Hoky. destruct Hok as (H0 & _). destruct Hoky as (H0' & _ & _ & _ & Hf & _).
  rewrite list.Forall_forall in Hf. assert (y = x) as ->; [|congruence]. apply (mo_disj _ _ _ _ Hm y x gy g k Hgy Hg); [congruence|apply Hf; by eapply zip_key|done].
Qed.

Lemma holds_set E G t m x nd nd' g k v : mem_ok E G t m -> cnodes m !! x = Some nd -> G !! x = Some g -> cn_leaf nd = true -> cn_leaf nd' = true -> in_rng k g ->
  (forall k' v', (k', v') ∈ zip (cn_key nd') (cn_val nd') <-> (k' = k /\ v' = v) \/ (k' <> k /\ (k', v') ∈ zip (cn_key nd) (cn_val nd))) ->
  forall k' v', holds_key (node_set m x nd') k' v' <-> (k' = k /\ v' = v) \/ (k' <> k /\ holds_key m k' v').
Proof.
  intros Hm Hx Hg Hl Hl' Hk Hput k' v'. unfold holds_key at 1. cbn [cnodes node_set]. setoid_rewrite lookup_insert_Some. split.
  - intros (y & ndy & [[<- <-]|[Hne Hy]] & Hly & Hin).
    + apply Hput in Hin as [?|[? ?]]; [by left|]. right. split; [done|]. by exists x, nd.
    + assert (Hh : holds_key m k' v') by (by exists y, ndy). right. split; [|done]. intros ->. apply Hne. destruct (mo_ghost _ _ _ _ _ _ Hm Hy) as (gy & Hgy & Hoky).
      pose proof (mo_node _ _ _ _ Hm _ _ _ Hx Hg) as Hok. unfold node_ok in Hok, Hoky. rewrite Hl in Hok. rewrite Hly in Hoky. destruct Hok as (H0 & _). destruct Hoky as (H0' & _ & _ & _ & Hf & _).
      rewrite list.Forall_forall in Hf. apply (mo_disj _ _ _ _ Hm x y g gy k Hg Hgy); [congruence|done|apply Hf; by eapply zip_key].
  - intros [[-> ->]|[Hne (y & ndy & Hy & Hly & Hin)]]; [exists x, nd'; split; [by left|]; split; [done|]; apply Hput; by left|].
    destruct (decide (y = x)) as [->|Hyx]; [|exists y, ndy; auto]. rewrite Hx in Hy. injection Hy as <-. exists x, nd'. split; [by left|]. split; [done|]. apply Hput. by right.
Qed.

Lemma divide_leaf G t m x nd l h mk : mem_ok G G t m -> cnodes m !! x = Some nd -> G !! x = Some (mkG 0 l h) -> x <> t -> cn_leaf nd = true ->
  length (cn_key nd) = S ORDER -> cn_key nd !! 2%nat = Some mk ->
  let G' := <[cbrk m := mkG 0 mk h]> (<[x := mkG 0 l mk]> G) in
  let m' := node_set (node_new m (mkCNode true (drop 2 (cn_key nd)) [] (drop 2 (cn_val nd)) (cn_next nd))).1 x
              (mkCNode (cn_leaf nd) (take 2 (cn_key nd)) (cn_child nd) (take 2 (cn_val nd)) (Some (cbrk m))) in
  l < mk < h /\ mem_ok (<[x := mkG 0 l h]> G') G' t m' /\ forall k v, holds_key m' k v <-> holds_key m k v.
Proof.
  intros Hm Hx Hg Hxt Hleaf Hlen Hmk G' m'. pose proof (mo_node _ _ _ _ Hm _ _ _ Hx Hg) as Hok. unfold node_ok in Hok. rewrite Hleaf in Hok. cbn [lvl glo ghi] in Hok.
  destruct Hok as (_ & Hlh & Hvl & Hsort & Hf & Hnext). pose proof (fresh_brk _ _ _ _ Hm) as Hfresh.
  assert (Hdrop : drop 2 (cn_key nd) = mk :: drop 3 (cn_key nd)) by (by apply drop_S). pose proof Hsort as Hsort2. rewrite <- (take_drop 2 (cn_key nd)) in Hsort2, Hf.
  apply StronglySorted_app in Hsort2 as (Hlt & Hs1 & Hs2). apply list.Forall_app in Hf as [Hf1 Hf2]. rewrite list.Forall_forall in Hf1, Hf2.
  assert (Hlen1 : length (take 2 (cn_key nd)) = 2%nat) by (rewrite length_take, Hlen; done).
  assert (Hmkin : mk ∈ drop 2 (cn_key nd)) by (rewrite Hdrop; by left). pose proof (Hf2 _ Hmkin) as Hmkr. unfold in_rng in Hmkr. cbn in Hmkr.
  assert (Hl : l < mk). { destruct (take 2 (cn_key nd)) as [|k0 ?] eqn:E; [done|]. pose proof (Hlt k0 mk ltac:(by left) Hmkin). pose proof (Hf1 k0 ltac:(by left)) as Hr. unfold in_rng in Hr. cbn in Hr. lia. }
  split; [lia|]. split.
  - eapply divide_ok; [exact Hm|exact Hx|exact Hg|done|lia| | |cbn; lia|cbn; rewrite length_drop, Hlen; unfold ORDER; lia].
    + unfold node_ok. cbn [cn_leaf cn_key cn_val cn_next lvl glo ghi]. rewrite Hleaf. split; [done|]. split; [done|]. split; [rewrite !length_take; lia|]. split; [done|]. split.
      * apply list.Forall_forall. intros k Hk. pose proof (Hf1 k Hk) as Hr. pose proof (Hlt k mk Hk Hmkin). unfold in_rng in *. cbn in *. lia.
      * exists h. by rewrite lookup_insert_eq.
    + unfold node_ok. cbn [cn_leaf cn_key cn_val cn_next lvl glo ghi]. split; [done|]. split; [lia|]. split; [rewrite !length_drop; lia|]. split; [done|]. split.
      * apply list.Forall_forall. intros k Hk. pose proof (Hf2 k Hk) as Hr. unfold in_rng in *. cbn in *. split; [|lia]. rewrite Hdrop in Hk, Hs2. apply elem_of_cons in Hk as [->|Hk]; [lia|]. pose proof (sorted_head _ _ _ Hs2 Hk). lia.
      * destruct (cn_next nd) as [y|]; [|done]. destruct Hnext as [hy Hy]. exists hy. assert (y <> x) by (intros ->; rewrite Hg in Hy; injection Hy; lia). rewrite !lookup_insert_ne; congruence.
  - intros k v. assert (Hzip : forall e, e ∈ zip (cn_key nd) (cn_val nd) <-> e ∈ zip (take 2 (cn_key nd)) (take 2 (cn_val nd)) \/ e ∈ zip (drop 2 (cn_key nd)) (drop 2 (cn_val nd))).
    { intros e. rewrite <- elem_of_app. rewrite <- zip_with_app by (rewrite !length_take; lia). by rewrite !take_drop. }
    assert (Hxb : x <> cbrk m) by congruence. assert (Hfn : cnodes m !! cbrk m = None) by (destruct (cnodes m !! cbrk m) eqn:E; [|done]; destruct (proj1 (mo_dom _ _ _ _ Hm _) (ex_intro _ _ E)); congruence).
    unfold holds_key, m'. cbn [cnodes node_set node_new fst]. setoid_rewrite lookup_insert_Some. setoid_rewrite lookup_insert_Some. split.
    + intros (y & ndy & [[<- <-]|[Hy [[<- <-]|[Hb Hn]]]] & Hly & Hin); [exists x, nd; split; [done|]; split; [done|]; apply Hzip; by left|exists x, nd; split; [done|]; split; [done|]; apply Hzip; by right|by exists y, ndy].
    + intros (y & ndy & Hy & Hly & Hin). destruct (decide (y = x)) as [->|Hyx].
      * rewrite Hx in Hy. injection Hy as <-. apply Hzip in Hin as [Hin|Hin]; [eexists x, _; split; [by left|]; by split|eexists (cbrk m), _; split; [right; split; [done|by left]|]; by split].
      * exists y, ndy. split; [|done]. right. split; [done|]. right. split; [congruence|done].
Qed.

(** [insert_leaf] on a stack from a leaf up to a node that can take a split. *)
Lemma insert_leaf_ok G t m cur nd anc l h key v M : mem_ok G G t m -> short m -> contents m M ->
  cnodes m !! cur = Some nd -> cn_leaf nd = true -> G !! cur = Some (mkG 0 l h) -> l <= key < h ->
  linked m cur anc -> NoDup (cur :: anc) -> topped t m (cur :: anc) ->
  exists m' G', insert_leaf t m (cur :: anc) key v = Some m' /\ mem_ok G' G' t m' /\ short m' /\ contents m' (<[key := v]> M) /\ same_except G G' m m' (cur :: anc).
Proof.
  intros Hm Hs Hc Hcur Hleaf Hg Hk Hlink Hnd Htop. apply list.NoDup_cons in Hnd as [Hnc Hnd]. cbn [insert_leaf]. rewrite Hcur. cbn [mbind option_bind].
  pose proof (mo_node _ _ _ _ Hm _ _ _ Hcur Hg) as Hok. unfold node_ok in Hok. rewrite Hleaf in Hok. cbn [lvl glo ghi] in Hok. destruct Hok as (_ & Hlh & Hvl & Hsort & Hf & Hnext).
  assert (Hct : cur <> t) by (intros ->; destruct (mo_hdr _ _ _ _ Hm) as (? & ? & Hh & _); rewrite Hcur in Hh; injection Hh as ->; done).
  assert (Hin : in_rng key (mkG 0 l h)) by done. set (i := key_pos (cn_key nd) key). case_decide as Hi.
  { eexists _, G. split; [reflexivity|]. split; [|split; [|split]].
    - eapply set_ok; [exact Hm|exact Hcur|exact Hg|done| |done|done|done]. unfold node_ok. cbn [cn_leaf cn_key cn_val cn_next lvl glo ghi]. rewrite Hleaf. split; [done|]. split; [done|]. split; [by rewrite length_insert|done].
    - intros y ndy. cbn [cnodes node_set]. rewrite lookup_insert_Some. intros [[<- <-]|[_ Hy]]; [cbn; by eapply Hs|by eapply Hs].
    - apply (contents_put m); [|done]. eapply holds_set; try done. cbn [cn_key cn_val]. by apply leaf_update.
    - intros y Hy _. cbn [cnodes node_set]. rewrite lookup_insert_ne by set_solver. done. }
  destruct (leaf_enter (cn_key nd) (cn_val nd) key v Hvl Hsort Hi) as [Hsort' Hput]. cbn zeta in Hsort', Hput. fold i in Hsort', Hput.
  set (ks := insert_at i key (cn_key nd)) in *. set (vs := insert_at i v (cn_val nd)) in *. assert (Hks : length ks = S (length (cn_key nd))) by apply length_insert_at. assert (Hvs : length vs = S (length (cn_val nd))) by apply length_insert_at.
  set (nd1 := mkCNode (cn_leaf nd) ks (cn_child nd) vs (cn_next nd)).
  assert (Hm1 : mem_ok G G t (node_set m cur nd1)).
  { eapply set_ok; [exact Hm|exact Hcur|exact Hg|done| |cbn; lia|done|done]. unfold node_ok. cbn [cn_leaf cn_key cn_val cn_next lvl glo ghi nd1]. rewrite Hleaf. split; [done|]. split; [done|]. split; [lia|]. split; [done|]. split; [|done].
    apply list.Forall_forall. intros y [->|Hy]%insert_at_elem; [done|]. rewrite list.Forall_forall in Hf. by apply Hf. }
  assert (Hc1 : contents (node_set m cur nd1) (<[key := v]> M)) by (apply (contents_put m); [|done]; by eapply holds_set).
  destruct (Nat.leb_spec (length ks) ORDER) as [Hle|Hgt].
  { eexists _, G. split; [reflexivity|]. split; [exact Hm1|]. split; [|split; [exact Hc1|]].
    - intros y ndy. cbn [cnodes node_set]. rewrite lookup_insert_Some. intros [[<- <-]|[_ Hy]]; [done|by eapply Hs].
    - intros y Hy _. cbn [cnodes node_set]. rewrite lookup_insert_ne by set_solver. done. }
  pose proof (Hs _ _ Hcur). assert (Hlen : length ks = S ORDER) by lia. rewrite Hlen. change (S ORDER / 2)%nat with 2%nat.
  destruct (ks !! 2%nat) as [mk|] eqn:Emk; [|apply lookup_ge_None in Emk; unfold ORDER in *; lia]. cbn [mbind option_bind].
  pose proof (fresh_brk _ _ _ _ Hm) as Hfresh. assert (Hcb : cur <> cbrk m) by congruence.
  destruct (divide_leaf G t _ cur nd1 l h mk Hm1) as (Hlmk & Hm2 & Hhas); [apply lookup_insert_eq|done|done|done|done|done|]. cbn zeta in Hm2, Hhas. cbn [cbrk node_set] in Hm2, Hhas.
  rewrite set_new_set in Hm2, Hhas by done. cbn [cn_leaf cn_key cn_child cn_val cn_next nd1] in Hm2, Hhas. unfold node_new at 1. set (m2 := node_set _ cur _) in Hm2, Hhas. set (G2 := <[cbrk m := _]> _) in Hm2.
  assert (Hn2 : forall y, y <> cur -> y <> cbrk m -> cnodes m2 !! y = cnodes m !! y) by (intros y ? ?; unfold m2; cbn [cnodes node_set node_new fst]; by rewrite !lookup_insert_ne).
  assert (Hfn : cnodes m !! cbrk m = None) by (destruct (cnodes m !! cbrk m) eqn:E; [|done]; destruct (proj1 (mo_dom _ _ _ _ Hm _) (ex_intro _ _ E)); congruence).
  assert (Hanc : forall y, y ∈ anc -> cnodes m2 !! y = cnodes m !! y).
  { intros y Hy. apply Hn2; [by intros ->|]. intros ->. destruct (linked_alloc _ _ _ _ Hlink Hy). congruence. }
  destruct (split_up_ok t anc m2 G2 cur mk (cbrk m) 0 l h Hm2) as (m' & G' & Hsu & Hm' & Hs' & Hsame & Hlv).
  - intros y ndy. unfold m2. cbn [cnodes node_set node_new fst]. rewrite !lookup_insert_Some. intros [[<- <-]|[_ [[<- <-]|[_ Hy]]]]; [cbn; rewrite length_take; unfold ORDER; lia|cbn; rewrite length_drop; lia|by eapply Hs].
  - unfold G2. rewrite lookup_insert_ne, lookup_insert_eq; done.
  - unfold G2. by rewrite lookup_insert_eq.
  - done.
  - unfold m2. cbn [cnodes node_set]. rewrite lookup_insert_eq. intros ndx [= <-]. cbn. rewrite length_take, Hlen. unfold ORDER. lia.
  - by apply (linked_ext m).
  - done.
  - destruct Htop as (z & ndz & Hlast & Hz & Hzt). destruct anc as [|q anc]; [injection Hlast as <-; rewrite Hcur in Hz; injection Hz as <-; destruct Hzt; [done|lia]|].
    exists z, ndz. split; [done|]. rewrite Hanc; [done|]. by apply last_Some_elem_of.
  - exists m', G'. split; [exact Hsu|]. split; [done|]. split; [done|]. split.
    + intros k' v'. rewrite (holds_same _ _ Hlv), Hhas. apply Hc1.
    + intros y Hy [gy Hgy]. assert (y <> cur) by set_solver. assert (y <> cbrk m) by congruence. destruct (Hsame y) as [HG HN]; [set_solver|unfold G2; rewrite !lookup_insert_ne by done; eauto|].
      rewrite HG, HN, Hn2 by done. split; [|done]. unfold G2. by rewrite !lookup_insert_ne.
Qed.
