(* ===== verification/CbtreeConc.v ===== *)
(** * Threads on the latch-coupled B+tree (src/src/cbtree.c)

    Any number of threads, interleaved at every latch operation and every access.
    A latch is held by the threads whose program counters say so: a read latch is
    granted when no thread holds the node for writing, a write latch when none holds it.
    The accesses between two latch operations touch latched and new nodes only, so they
    are one step. *)
From stdpp Require Import sorting.
From S2P Require Import Prelude Cbtree.

Record CState := mkCState { cmem : CMem; cthreads : list pc }.

Definition held (t : CBTree) (p : pc) : list (nat * bool) :=
  match p with
  | PIdle | PStart _ => []
  | PHeader o => [(t, is_write o)]
  | PRoot _ cur => [(t, false); (cur, false)]
  | PRead _ _ cur => [(cur, false)]
  | PCouple _ _ cur nx => [(cur, false); (nx, false)]
  | PWrite _ _ stack => (., true) <$> stack
  | PChild _ _ stack c => (., true) <$> c :: stack
  | PSafe _ _ todo c => (., true) <$> todo ++ [c]
  | PUnlock todo w _ => (., w) <$> todo
  end.

(** [rlock] and [wlock] block until this holds. *)
Definition latch_free (t : CBTree) (ths : list pc) (w : bool) (x : nat) : bool :=
  forallb (fun p => forallb (fun e => negb ((e.1 =? x)%nat && (w || e.2))) (held t p)) ths.

(** A step of thread [i]; [None] when it is blocked or has nothing to do. *)
Definition cb_step (t : CBTree) (s : CState) (i : nat) : option (CState * list event) :=
  p ← cthreads s !! i;
  match cb_next t (cmem s) p with
  | Latch w x p' => if latch_free t (cthreads s) w x then Some (mkCState (cmem s) (<[i := p']> (cthreads s)), []) else None
  | Unlatch _ p' => Some (mkCState (cmem s) (<[i := p']> (cthreads s)), [])
  | Act m es p' => Some (mkCState m (<[i := p']> (cthreads s)), es)
  | Stop | Fault => None
  end.

Definition cb_call (s : CState) (i : nat) (o : tree_op) : option (CState * list event) :=
  match cthreads s !! i with Some PIdle => Some (mkCState (cmem s) (<[i := PStart o]> (cthreads s)), [ECall o]) | _ => None end.

(** A schedule: which thread calls what, or does its next step. *)
Inductive choice := Call (i : nat) (o : tree_op) | Step (i : nat).
Definition who (c : choice) : nat := match c with Call i _ | Step i => i end.
Definition choose (t : CBTree) (s : CState) (c : choice) : option (CState * list event) :=
  match c with Call i o => cb_call s i o | Step i => cb_step t s i end.

Fixpoint cb_run (t : CBTree) (s : CState) (cs : list choice) : option (CState * list (nat * event)) :=
  match cs with
  | [] => Some (s, [])
  | c :: cs => '(s, es) ← choose t s c; '(s, tr) ← cb_run t s cs; Some (s, ((who c,.) <$> es) ++ tr)
  end.

(** A new tree and [n] threads. *)
Definition cb_init (n : nat) : CState := mkCState (cbtree_create (mkCMem ∅ 0)).1 (replicate n PIdle).
Definition cb_header : CBTree := (cbtree_create (mkCMem ∅ 0)).2.

(** ** The specification: a finite map and what each thread is doing *)

Inductive status := Called (o : tree_op) (M0 : gmap Z Z) | Linearized (r : cres).
Record cspec := mkCSpec { sm : gmap Z Z; sts : gmap nat status }.

Definition count_keys (M : gmap Z Z) (lo hi : Z) : Z := Z.of_nat (size (filter (fun k => lo <= k <= hi) (dom M))).

(** Answers that are right when the operation takes effect on the map [M]; a range count
    is right if it lies between the count when it was called and the count now. *)
Definition result_ok (o : tree_op) (M0 M : gmap Z Z) (r : cres) : bool :=
  match o, r with
  | OSearch k, RFound v => bool_decide (M !! k = Some v)
  | OSearch k, RMissing => bool_decide (M !! k = None)
  | OInsert _ _, RInserted => true
  | ORange lo hi, RCount n => (count_keys M0 lo hi <=? n) && (n <=? count_keys M lo hi)
  | _, _ => false
  end.
Definition effect (o : tree_op) (M : gmap Z Z) : gmap Z Z := match o with OInsert k v => <[k := v]> M | _ => M end.

#[export] Instance cres_eq_dec : EqDecision cres.
Proof. solve_decision. Defined.

#[export] Instance tree_op_eq_dec : EqDecision tree_op.
Proof. solve_decision. Defined.
#[export] Instance event_eq_dec : EqDecision event.
Proof. solve_decision. Defined.

(** Every operation takes effect once, between its call and its return. *)
Definition spec_step (σ : cspec) (e : nat * event) : option cspec :=
  match e.2, sts σ !! e.1 with
  | ECall o, None => Some (mkCSpec (sm σ) (<[e.1 := Called o (sm σ)]> (sts σ)))
  | ELin r, Some (Called o M0) => if result_ok o M0 (sm σ) r then Some (mkCSpec (effect o (sm σ)) (<[e.1 := Linearized r]> (sts σ))) else None
  | ERet r, Some (Linearized r') => if decide (r = r') then Some (mkCSpec (sm σ) (delete e.1 (sts σ))) else None
  | _, _ => None
  end.
Fixpoint spec_run (σ : cspec) (tr : list (nat * event)) : option cspec :=
  match tr with [] => Some σ | e :: tr => σ ← spec_step σ e; spec_run σ tr end.
Definition spec_init : cspec := mkCSpec ∅ ∅.

(** Keys are 64-bit integers. *)
Definition int64 (k : Z) : Prop := KEY_MIN <= k < KEY_END.
Definition tree_op_ok (o : tree_op) : Prop := match o with OSearch k | OInsert k _ => int64 k | ORange lo hi => int64 lo /\ int64 hi end.
Definition choice_ok (c : choice) : Prop := match c with Call _ o => tree_op_ok o | Step _ => True end.

(** ** Latches *)

Definition excl (t : CBTree) (ths : list pc) : Prop :=
  forall i j p q x w w', i <> j -> ths !! i = Some p -> ths !! j = Some q -> (x, w) ∈ held t p -> (x, w') ∈ held t q -> w = false /\ w' = false.

Lemma latch_free_spec t ths w x : latch_free t ths w x = true <-> forall j q w', ths !! j = Some q -> (x, w') ∈ held t q -> w = false /\ w' = false.
Proof.
  unfold latch_free. rewrite forallb_forall. split.
  - intros H j q w' Hj Hin. apply list_elem_of_lookup_2, list_elem_of_In, H in Hj. rewrite forallb_forall in Hj. apply list_elem_of_In, Hj in Hin. cbn in Hin. rewrite Nat.eqb_refl in Hin. by destruct w, w'.
  - intros H q Hq. apply forallb_forall. intros [y w'] Hin. cbn. destruct (Nat.eqb_spec y x) as [->|]; [|done]. apply list_elem_of_In in Hq as Hq. apply list_elem_of_lookup in Hq as [j Hj]. apply list_elem_of_In in Hin.
    destruct (H j q w' Hj Hin) as [-> ->]. done.
Qed.

Lemma excl_update t ths i p p' : excl t ths -> ths !! i = Some p ->
  (forall x w, (x, w) ∈ held t p' -> (x, w) ∈ held t p \/ forall j q w', ths !! j = Some q -> (x, w') ∈ held t q -> w = false /\ w' = false) ->
  excl t (<[i := p']> ths).
Proof.
  intros He Hi Hh j1 j2 q1 q2 x w1 w2 Hne H1 H2 Hx1 Hx2. destruct (decide (j1 = i)) as [->|Hj1].
  - rewrite list_lookup_insert_eq in H1 by (by eapply lookup_lt_Some). injection H1 as <-. rewrite list_lookup_insert_ne in H2 by done.
    destruct (Hh _ _ Hx1) as [Hp|Hf]; [by eapply (He i j2)|by eapply Hf].
  - rewrite list_lookup_insert_ne in H1 by done. destruct (decide (j2 = i)) as [->|Hj2].
    + rewrite list_lookup_insert_eq in H2 by (by eapply lookup_lt_Some). injection H2 as <-. destruct (Hh _ _ Hx2) as [Hp|Hf]; [by eapply (He j1 i)|]. destruct (Hf _ _ _ H1 Hx1). done.
    + rewrite list_lookup_insert_ne in H2 by done. by eapply (He j1 j2).
Qed.

(** ** Counting *)

(** Keys from [lo] to [hi] below [b]. *)
Definition below (M : gmap Z Z) (lo b hi : Z) : Z := Z.of_nat (size (filter (fun k => lo <= k < b /\ k <= hi) (dom M))).

Lemma below_mono (M M' : gmap Z Z) lo b hi : dom M ⊆ dom M' -> below M lo b hi <= below M' lo b hi.
Proof. intros Hd. unfold below. apply inj_le, subseteq_size. set_solver. Qed.

Lemma below_split M lo b b' hi : lo <= b <= b' -> below M lo b' hi = below M lo b hi + Z.of_nat (size (filter (fun k => b <= k < b' /\ lo <= k <= hi) (dom M))).
Proof.
  intros Hb. unfold below. rewrite <- Nat2Z.inj_add, <- size_union; [|set_unfold; intros; lia]. do 2 f_equal. apply set_eq. intros k. rewrite elem_of_union, !elem_of_filter.
  destruct (decide (k ∈ dom M)); [|tauto]. split; [intros [? _]|intros [[? _]|[? _]]]; [destruct (decide (k < b))|..]; [left|right|..]; split; try done; lia.
Qed.

Lemma below_all M lo b hi : hi < b -> below M lo b hi = count_keys M lo hi.
Proof. intros Hb. unfold below, count_keys. do 2 f_equal. apply set_eq. intros k. rewrite !elem_of_filter. split; intros [? ?]; (split; [lia|done]). Qed.

Lemma below_none M lo b hi : b <= lo -> below M lo b hi = 0.
Proof. intros Hb. unfold below. rewrite (proj2 (size_empty_iff _)); [done|]. intros k. rewrite elem_of_filter. set_unfold. lia. Qed.

(** The keys of a leaf are the keys of the map in its range. *)
Lemma leaf_keys E G t m M x nd g k : mem_ok E G t m -> contents m M -> cnodes m !! x = Some nd -> G !! x = Some g -> cn_leaf nd = true -> in_rng k g -> k ∈ dom M <-> k ∈ cn_key nd.
Proof.
  intros Hm Hc Hx Hg Hl Hk. pose proof (mo_node _ _ _ _ Hm _ _ _ Hx Hg) as Hok. unfold node_ok in Hok. rewrite Hl in Hok. destruct Hok as (_ & _ & Hlen & _). rewrite elem_of_dom. unfold contents in Hc. split.
  - intros [v Hv]. apply Hc in Hv. rewrite leaf_alone in Hv by done. by eapply zip_key.
  - intros [i Hi]%list_elem_of_lookup. destruct (lookup_lt_is_Some_2 (cn_val nd) i) as [v Hv]; [rewrite Hlen; by eapply lookup_lt_Some|]. exists v. apply Hc. eapply leaf_alone; try done.
    apply list_elem_of_lookup. exists i. by rewrite lookup_zip_with, Hi, Hv.
Qed.

Lemma sorted_nodup (ks : list Z) : StronglySorted Z.lt ks -> NoDup ks.
Proof. induction 1 as [|k ks _ IH Hf]; constructor; [|done]. intros Hin. rewrite list.Forall_forall in Hf. pose proof (Hf _ Hin). lia. Qed.

Lemma leaf_counted E G t m M x nd g lo hi : mem_ok E G t m -> contents m M -> cnodes m !! x = Some nd -> G !! x = Some g -> cn_leaf nd = true ->
  leaf_count (cn_key nd) lo hi = Z.of_nat (size (filter (fun k => glo g <= k < ghi g /\ lo <= k <= hi) (dom M))).
Proof.
  intros Hm Hc Hx Hg Hl. pose proof (mo_node _ _ _ _ Hm _ _ _ Hx Hg) as Hok. unfold node_ok in Hok. rewrite Hl in Hok. destruct Hok as (_ & _ & _ & Hs & Hf & _). rewrite list.Forall_forall in Hf.
  unfold leaf_count, blen. f_equal. rewrite <- (size_list_to_set (C := gset Z)) by (apply list.NoDup_filter; by apply sorted_nodup). f_equal. apply set_eq. intros k.
  rewrite elem_of_list_to_set, list_elem_of_filter, elem_of_filter. split.
  - intros [Hk Hin]. pose proof (Hf k Hin) as Hr. split; [unfold in_rng in Hr; lia|]. by eapply leaf_keys.
  - intros [[Hr Hk] Hin]. split; [done|]. by eapply leaf_keys.
Qed.

(** ** The invariant *)

Definition called (o : tree_op) (M : gmap Z Z) (st : option status) (Q : gmap Z Z -> Prop) : Prop :=
  exists M0, st = Some (Called o M0) /\ dom M0 ⊆ dom M /\ tree_op_ok o /\ Q M0.

(** A reader at [x] is on the way to its key, or counts the leaves after it. *)
Definition reading (G : gmap nat ghost) (M M0 : gmap Z Z) (o : tree_op) (cnt : Z) (x : nat) : Prop :=
  exists g, G !! x = Some g /\
    match o with
    | OSearch k => in_rng k g
    | ORange lo hi => (in_rng lo g /\ cnt = 0) \/ (lvl g = 0%nat /\ lo < glo g /\ below M0 lo (glo g) hi <= cnt <= below M lo (glo g) hi)
    | OInsert _ _ => False
    end.

(** The nodes of a stack, from one whose range has the key upwards. *)
Definition stack_ok (G : gmap nat ghost) (m : CMem) (k : Z) (stack : list nat) : Prop :=
  match stack with
  | [] => False
  | x :: anc => (exists g, G !! x = Some g /\ in_rng k g) /\ linked m x anc
  end.

Definition pc_ok (G : gmap nat ghost) (t : CBTree) (m : CMem) (M : gmap Z Z) (p : pc) (st : option status) : Prop :=
  match p with
  | PIdle => st = None
  | PStart o | PHeader o => called o M st (fun _ => True)
  | PRoot o cur => called o M st (fun M0 => reading G M M0 o 0 cur)
  | PRead o cnt cur => called o M st (fun M0 => reading G M M0 o cnt cur)
  | PCouple o cnt _ nx => called o M st (fun M0 => reading G M M0 o cnt nx)
  | PWrite k v stack => called (OInsert k v) M st (fun _ => stack_ok G m k stack /\ topped t m stack)
  | PChild k v stack c => called (OInsert k v) M st (fun _ => stack_ok G m k (c :: stack) /\ topped t m stack)
  | PSafe k v _ c => called (OInsert k v) M st (fun _ => stack_ok G m k [c] /\ topped t m [c])
  | PUnlock _ _ r => st = Some (Linearized r)
  end.

Record cb_inv (G : gmap nat ghost) (t : CBTree) (s : CState) (σ : cspec) : Prop := {
  ci_mem : mem_ok G G t (cmem s);
  ci_short : short (cmem s);
  ci_contents : contents (cmem s) (sm σ);
  ci_excl : excl t (cthreads s);
  ci_pcs : forall i p, cthreads s !! i = Some p -> pc_ok G t (cmem s) (sm σ) p (sts σ !! i) }.

Lemma called_mono o M M' st (Q Q' : gmap Z Z -> Prop) : dom M ⊆ dom M' -> (forall M0, Q M0 -> Q' M0) -> called o M st Q -> called o M' st Q'.
Proof. intros Hd HQ (M0 & -> & H0 & Ho & Hq). exists M0. split; [done|]. split; [set_solver|]. auto. Qed.

Lemma reading_mono G G' M M' M0 o cnt x : dom M ⊆ dom M' -> G' !! x = G !! x -> reading G M M0 o cnt x -> reading G' M' M0 o cnt x.
Proof.
  intros Hd Hg (g & Hx & H). exists g. split; [congruence|]. destruct o as [k|k v|lo hi]; [done|done|]. destruct H as [H|(H1 & H2 & H3)]; [by left|]. right. split; [done|]. split; [done|].
  pose proof (below_mono M M' lo (glo g) hi Hd). lia.
Qed.

Lemma stack_mono G G' m m' k st : (forall x, x ∈ st -> G' !! x = G !! x /\ cnodes m' !! x = cnodes m !! x) -> stack_ok G m k st -> stack_ok G' m' k st.
Proof.
  intros Hs. destruct st as [|x anc]; [done|]. intros [(g & Hg & Hk) Hl]. split; [exists g; split; [|done]; rewrite (proj1 (Hs x ltac:(by left))); done|].
  apply (linked_ext m); [done|]. intros y Hy. apply Hs. by right.
Qed.

Lemma topped_mono t m m' st : (forall x, x ∈ st -> cnodes m' !! x = cnodes m !! x) -> topped t m st -> topped t m' st.
Proof. intros Hs (z & nd & Hl & Hz & Hr). exists z, nd. split; [done|]. rewrite Hs; [done|]. by apply last_Some_elem_of. Qed.

(** Changes to nodes that a thread does not hold do not disturb it. *)
Lemma pc_frame G G' t m m' M M' p st X : mem_ok G G t m -> same_except G G' m m' X -> dom M ⊆ dom M' -> (forall x w, (x, w) ∈ held t p -> x ∉ X) ->
  pc_ok G t m M p st -> pc_ok G' t m' M' p st.
Proof.
  intros Hm Hs Hd Hh. assert (Hrd : forall M0 o cnt x w, (x, w) ∈ held t p -> reading G M M0 o cnt x -> reading G' M' M0 o cnt x).
  { intros M0 o cnt x w Hin Hr. pose proof Hr as (g & Hg & _). eapply reading_mono; [done|apply Hs; [by eapply Hh|eauto]|done]. }
  assert (Hst : forall st : list nat, (forall x, x ∈ st -> exists w, (x, w) ∈ held t p) -> (forall x, x ∈ st -> is_Some (cnodes m !! x)) -> forall x, x ∈ st -> G' !! x = G !! x /\ cnodes m' !! x = cnodes m !! x).
  { intros l Hl1 Hl2 x Hx. destruct (Hl1 x Hx) as [w Hw]. apply Hs; [by eapply Hh|]. apply (mo_dom _ _ _ _ Hm). by apply Hl2. }
  assert (Hal : forall k l x, stack_ok G m k l -> x ∈ l -> is_Some (cnodes m !! x)).
  { intros k [|y anc] x Hl Hx; [done|]. destruct Hl as [(g & Hg & _) Hl]. apply elem_of_cons in Hx as [->|Hx]; [apply (mo_dom _ _ _ _ Hm); eauto|by eapply linked_alloc]. }
  destruct p as [|o|o|o cur|o cnt cur|o cnt cur nx|k v l|k v l c|k v l c|l w r]; cbn [pc_ok]; try done.
  - by apply called_mono.
  - by apply called_mono.
  - apply called_mono; [done|]. intros M0. apply (Hrd _ _ _ _ false). cbn. set_solver.
  - apply called_mono; [done|]. intros M0. apply (Hrd _ _ _ _ false). cbn. set_solver.
  - apply called_mono; [done|]. intros M0. apply (Hrd _ _ _ _ false). cbn. set_solver.
  - apply called_mono; [done|]. intros M0 [H1 H2]. assert (He : forall x, x ∈ l -> G' !! x = G !! x /\ cnodes m' !! x = cnodes m !! x).
    { apply Hst; [|by intros; eapply Hal]. intros x Hx. exists true. cbn. apply list_elem_of_fmap. eauto. }
    split; [by apply (stack_mono G _ m)|]. apply (topped_mono _ m); [|done]. intros x Hx. by apply He.
  - apply called_mono; [done|]. intros M0 [H1 H2]. assert (He : forall x, x ∈ c :: l -> G' !! x = G !! x /\ cnodes m' !! x = cnodes m !! x).
    { apply Hst; [|by intros; eapply Hal]. intros x Hx. exists true. change (held t (PChild k v l c)) with ((., true) <$> c :: l). apply list_elem_of_fmap. eauto. }
    split; [by apply (stack_mono G _ m)|]. apply (topped_mono _ m); [|done]. intros x Hx. apply He. by right.
  - apply called_mono; [done|]. intros M0 [H1 H2]. assert (He : forall x, x ∈ [c] -> G' !! x = G !! x /\ cnodes m' !! x = cnodes m !! x).
    { apply Hst; [|by intros; eapply Hal]. intros x Hx. exists true. cbn. apply list_elem_of_fmap. exists x. split; [done|]. set_solver. }
    split; [by apply (stack_mono G _ m)|]. apply (topped_mono _ m); [|done]. intros x Hx. by apply He.
Qed.

(** ** Facts about the nodes on a thread's way *)

Lemma root_ghost G t m : mem_ok G G t m -> exists root L, root_of t m = Some root /\ G !! t = Some (mkG (S L) KEY_MIN KEY_END) /\ G !! root = Some (mkG L KEY_MIN KEY_END) /\ linked m root [t].
Proof.
  intros Hm. destruct (mo_hdr _ _ _ _ Hm) as (root & L & Hh & Hg & _). pose proof (mo_node _ _ _ _ Hm _ _ _ Hh Hg) as (v & Hv & _ & _ & Hr). injection Hv as <-.
  exists root, L. split; [unfold root_of; by rewrite Hh|]. split; [done|]. split; [exact Hr|]. split; [|done]. eexists. split; [exact Hh|]. split; [done|]. cbn. set_solver.
Qed.

Lemma way_down G t m x nd g k : mem_ok G G t m -> cnodes m !! x = Some nd -> G !! x = Some g -> cn_leaf nd = false -> in_rng k g ->
  exists c gc, cn_child nd !! child_idx (cn_key nd) k = Some c /\ G !! c = Some gc /\ lvl g = S (lvl gc) /\ in_rng k gc /\ c ∈ cn_child nd.
Proof.
  intros Hm Hx Hg Hl Hk. pose proof (mo_node _ _ _ _ Hm _ _ _ Hx Hg) as Hok. unfold node_ok in Hok. rewrite Hl in Hok. destruct Hok as (v & Hv & Hkids).
  destruct (ckids_child _ _ _ _ _ _ _ Hkids Hk) as (c & l & h & Hc & Hgc & Hr). exists c, (mkG v l h). split; [done|]. split; [done|]. split; [done|]. split; [done|]. by eapply list_elem_of_lookup_2.
Qed.

Lemma linked_lvl G t m anc : forall x g y, mem_ok G G t m -> linked m x anc -> G !! x = Some g -> y ∈ anc -> exists gy, G !! y = Some gy /\ (lvl g < lvl gy)%nat.
Proof.
  induction anc as [|p anc IH]; intros x g y Hm Hl Hg Hy; [by apply not_elem_of_nil in Hy|]. destruct Hl as [(nd & Hp & Hleaf & Hin) Hl].
  destruct (mo_ghost _ _ _ _ _ _ Hm Hp) as (gp & Hgp & Hok). unfold node_ok in Hok. rewrite Hleaf in Hok. destruct Hok as (v & Hv & Hk).
  destruct (ckids_elem _ _ _ _ _ _ _ Hk Hin) as (l & h & Hgx & _). rewrite Hg in Hgx. injection Hgx as ->. cbn [lvl].
  apply elem_of_cons in Hy as [->|Hy]; [exists gp; split; [done|lia]|]. destruct (IH p gp y Hm Hl Hgp Hy) as (gy & Hgy & Hlt). exists gy. split; [done|lia].
Qed.

Lemma linked_nodup G t m anc : forall x g, mem_ok G G t m -> linked m x anc -> G !! x = Some g -> NoDup (x :: anc).
Proof.
  induction anc as [|p anc IH]; intros x g Hm Hl Hg; [apply NoDup_singleton|]. constructor.
  - intros Hin. destruct (linked_lvl _ _ _ _ _ _ _ Hm Hl Hg Hin) as (gy & Hgy & Hlt). rewrite Hg in Hgy. injection Hgy as <-. lia.
  - destruct Hl as [(nd & Hp & _) Hl]. destruct (mo_ghost _ _ _ _ _ _ Hm Hp) as (gp & Hgp & _). by eapply IH.
Qed.

(** What a range count knows after a leaf. *)
Lemma scan_leaf G t m M M0 x nd g lo hi cnt : mem_ok G G t m -> contents m M -> dom M0 ⊆ dom M -> cnodes m !! x = Some nd -> G !! x = Some g -> cn_leaf nd = true ->
  (in_rng lo g /\ cnt = 0) \/ (lvl g = 0%nat /\ lo < glo g /\ below M0 lo (glo g) hi <= cnt <= below M lo (glo g) hi) ->
  lo < ghi g /\ below M0 lo (ghi g) hi <= cnt + leaf_count (cn_key nd) lo hi <= below M lo (ghi g) hi.
Proof.
  intros Hm Hc Hd Hx Hg Hl Hr. rewrite (leaf_counted _ _ _ _ _ _ _ _ lo hi Hm Hc Hx Hg Hl). pose proof (node_range _ _ _ _ (mo_node _ _ _ _ Hm _ _ _ Hx Hg)) as Hlh.
  set (P := fun k => glo g <= k < ghi g /\ lo <= k <= hi). assert (HP : (size (filter P (dom M0)) <= size (filter P (dom M)))%nat) by (apply subseteq_size; set_solver).
  destruct Hr as [[Hin ->]|(H0 & Hlo & Hcnt)].
  - unfold in_rng in Hin. split; [lia|]. assert (Hall : forall N : gmap Z Z, below N lo (ghi g) hi = Z.of_nat (size (filter P (dom N)))).
    { intros N. unfold below. do 2 f_equal. apply set_eq. intros k. rewrite !elem_of_filter. unfold P. split; intros [? ?]; (split; [lia|done]). }
    rewrite !Hall. fold P. lia.
  - split; [lia|]. rewrite (below_split M0 lo (glo g) (ghi g)), (below_split M lo (glo g) (ghi g)) by lia. fold P. lia.
Qed.

(** ** Steps keep the invariant *)

Lemma inv_local G t s σ σ' i p p' : cb_inv G t s σ -> cthreads s !! i = Some p ->
  (forall x w, (x, w) ∈ held t p' -> (x, w) ∈ held t p \/ latch_free t (cthreads s) w x = true) ->
  sm σ' = sm σ -> (forall j, j <> i -> sts σ' !! j = sts σ !! j) -> pc_ok G t (cmem s) (sm σ) p' (sts σ' !! i) ->
  cb_inv G t (mkCState (cmem s) (<[i := p']> (cthreads s))) σ'.
Proof.
  intros [Hm Hs Hc He Hp] Hi Hh Hsm Hsts Hpc. split; cbn [cmem cthreads]; try done; [by rewrite Hsm| |].
  - eapply excl_update; [done|exact Hi|]. intros x w Hx. destruct (Hh x w Hx) as [?|Hf]; [by left|right]. by apply latch_free_spec.
  - intros j q Hj. rewrite Hsm. destruct (decide (j = i)) as [->|Hji].
    + rewrite list_lookup_insert_eq in Hj by (by eapply lookup_lt_Some). injection Hj as <-. done.
    + rewrite list_lookup_insert_ne in Hj by done. rewrite Hsts by done. by apply Hp.
Qed.

(** A step that is not a return or an effect. *)
Lemma inv_silent G t s σ i p p' : cb_inv G t s σ -> cthreads s !! i = Some p ->
  (forall x w, (x, w) ∈ held t p' -> (x, w) ∈ held t p \/ latch_free t (cthreads s) w x = true) -> pc_ok G t (cmem s) (sm σ) p' (sts σ !! i) ->
  exists σ' G', spec_run σ [] = Some σ' /\ cb_inv G' t (mkCState (cmem s) (<[i := p']> (cthreads s))) σ'.
Proof. intros Hinv Hi Hh Hpc. exists σ, G. split; [done|]. by eapply inv_local. Qed.

(** The effect of a reader. *)
Lemma inv_read G t s σ i o M0 cnt cur r : cb_inv G t s σ -> cthreads s !! i = Some (PRead o cnt cur) ->
  sts σ !! i = Some (Called o M0) -> is_write o = false -> result_ok o M0 (sm σ) r = true ->
  exists σ' G', spec_run σ [(i, ELin r)] = Some σ' /\ cb_inv G' t (mkCState (cmem s) (<[i := PUnlock [cur] false r]> (cthreads s))) σ'.
Proof.
  intros Hinv Hc Hst Hw Hr.
  exists (mkCSpec (sm σ) (<[i := Linearized r]> (sts σ))), G. split.
  - cbn. unfold spec_step. cbn. rewrite Hst, Hr. cbn. f_equal. by destruct o.
  - eapply inv_local; [exact Hinv|exact Hc|intros x w Hx; by left|done| |cbn; by rewrite lookup_insert_eq]. intros j Hj. cbn. by rewrite lookup_insert_ne.
Qed.

Lemma step_read G t s σ i o cnt cur s' es : cb_inv G t s σ -> cthreads s !! i = Some (PRead o cnt cur) -> cb_step t s i = Some (s', es) ->
  exists σ' G', spec_run σ ((i,.) <$> es) = Some σ' /\ cb_inv G' t s' σ'.
Proof.
  intros Hinv Hi Hstep. pose proof (ci_pcs _ _ _ _ Hinv i _ Hi) as (M0 & Hst & Hd & Hop & g & Hg & Hrd). pose proof (ci_mem _ _ _ _ Hinv) as Hm. pose proof (ci_contents _ _ _ _ Hinv) as Hc.
  destruct (mo_get _ _ _ _ _ _ Hm Hg) as (nd & Hnd & Hok). unfold cb_step in Hstep. rewrite Hi in Hstep. cbn [mbind option_bind cb_next or_fault] in Hstep. rewrite Hnd in Hstep. cbn [mbind option_bind] in Hstep.
  destruct (cn_leaf nd) eqn:Hl.
  - cbn [or_fault] in Hstep. destruct o as [k|k v|lo hi]; cbn [cb_leaf] in Hstep; [|done|].
    + injection Hstep as <- <-. eapply inv_read; [exact Hinv|exact Hi|exact Hst|done|]. unfold node_ok in Hok. rewrite Hl in Hok. destruct Hok as (_ & _ & Hlen & Hs & _).
      destruct (cleaf_find (cn_key nd) (cn_val nd) k) as [v|] eqn:E; cbn [result_ok]; apply bool_decide_true.
      * apply cleaf_find_spec in E; [|done|done]. apply Hc. by exists cur, nd.
      * apply eq_None_not_Some. intros [v Hv]. apply Hc in Hv. rewrite (leaf_alone _ _ _ _ _ _ _ _ _ Hm Hnd Hg Hl Hrd) in Hv. apply cleaf_find_spec in Hv; [congruence|done|done].
    + destruct (scan_leaf _ _ _ _ _ _ _ _ _ _ _ Hm Hc Hd Hnd Hg Hl Hrd) as [Hlo Hcnt]. pose proof (proj2 Hop) as Hhi. set (cnt' := cnt + leaf_count (cn_key nd) lo hi) in *.
      assert (Hend : hi < ghi g -> result_ok (ORange lo hi) M0 (sm σ) (RCount cnt') = true).
      { intros Hh. cbn [result_ok]. rewrite !below_all in Hcnt by done. apply andb_true_iff. split; apply Z.leb_le; lia. }
      pose proof Hok as Hok'. unfold node_ok in Hok'. rewrite Hl in Hok'. destruct Hok' as (_ & _ & _ & _ & Hf & Hnext). rewrite list.Forall_forall in Hf.
      destruct (existsb (Z.ltb hi) (cn_key nd)) eqn:Ep.
      * injection Hstep as <- <-. eapply inv_read; [exact Hinv|exact Hi|exact Hst|done|]. apply Hend. apply existsb_exists in Ep as (k & Hk & Hlt). apply list_elem_of_In in Hk. apply Z.ltb_lt in Hlt.
        pose proof (Hf k Hk) as Hr. unfold in_rng in Hr. lia.
      * destruct (cn_next nd) as [nx|].
        -- destruct (latch_free t (cthreads s) false nx) eqn:Ef; [|done]. injection Hstep as <- <-. destruct Hnext as [h Hnx]. eapply inv_silent; [exact Hinv|exact Hi| |].
           ++ intros x w. cbn. rewrite elem_of_cons, list_elem_of_singleton. intros [[= -> ->]|[= -> ->]]; [left; by left|by right].
           ++ exists M0. split; [done|]. split; [done|]. split; [done|]. eexists. split; [exact Hnx|]. right. cbn. done.
        -- injection Hstep as <- <-. eapply inv_read; [exact Hinv|exact Hi|exact Hst|done|]. apply Hend. rewrite Hnext. apply Hhi.
  - assert (Hk : in_rng (target o) g /\ (forall lo hi, o = ORange lo hi -> cnt = 0)).
    { destruct o as [k|k v|lo hi]; [by split|done|]. destruct Hrd as [[? ?]|[H0 _]]; [split; [done|by intros]|]. unfold node_ok in Hok. rewrite Hl in Hok. destruct Hok as (v & Hv & _). congruence. }
    destruct Hk as [Hk Hz]. destruct (way_down _ _ _ _ _ _ _ Hm Hnd Hg Hl Hk) as (c & gc & Hcc & Hgc & Hlv & Hin & _). rewrite Hcc in Hstep. cbn [mbind option_bind or_fault] in Hstep.
    destruct (latch_free t (cthreads s) false c) eqn:Ef; [|done]. injection Hstep as <- <-. eapply inv_silent; [exact Hinv|exact Hi| |].
    + intros x w. cbn. rewrite elem_of_cons, list_elem_of_singleton. intros [[= -> ->]|[= -> ->]]; [left; by left|by right].
    + exists M0. split; [done|]. split; [done|]. split; [done|]. exists gc. split; [done|]. destruct o as [k|k v|lo hi]; [done|done|]. left. split; [done|]. by eapply Hz.
Qed.

Lemma dom_insert_sub (M : gmap Z Z) k v : dom M ⊆ dom (<[k := v]> M).
Proof. rewrite dom_insert. set_solver. Qed.

Lemma step_write G t s σ i k v st s' es : cb_inv G t s σ -> cthreads s !! i = Some (PWrite k v st) -> cb_step t s i = Some (s', es) ->
  exists σ' G', spec_run σ ((i,.) <$> es) = Some σ' /\ cb_inv G' t s' σ'.
Proof.
  intros Hinv Hi Hstep. pose proof (ci_pcs _ _ _ _ Hinv i _ Hi) as (M0 & Hst & Hd & Hop & Hstack & Htop). pose proof Hinv as [Hm Hs Hc He Hp].
  destruct st as [|cur anc]; [done|]. destruct Hstack as [(g & Hg & Hk) Hlink]. destruct (mo_get _ _ _ _ _ _ Hm Hg) as (nd & Hnd & Hok).
  unfold cb_step in Hstep. rewrite Hi in Hstep. cbn [mbind option_bind cb_next or_fault head] in Hstep. rewrite Hnd in Hstep. cbn [mbind option_bind] in Hstep. destruct (cn_leaf nd) eqn:Hl.
  - unfold node_ok in Hok. rewrite Hl in Hok. destruct Hok as (H0 & _). destruct g as [v0 l h]. cbn in H0. subst v0.
    destruct (insert_leaf_ok G t (cmem s) cur nd anc l h k v (sm σ)) as (m' & G' & Hins & Hm' & Hs' & Hc' & Hsame); try done; [by eapply linked_nodup|].
    rewrite Hins in Hstep. cbn [mbind option_bind or_fault] in Hstep. injection Hstep as <- <-. exists (mkCSpec (<[k := v]> (sm σ)) (<[i := Linearized RInserted]> (sts σ))), G'. split.
    { cbn. unfold spec_step. cbn. by rewrite Hst. }
    split; cbn [cmem cthreads sm sts]; try done.
    + eapply excl_update; [done|exact Hi|]. intros x w Hx. left. cbn [held] in *. apply list_elem_of_fmap in Hx as (y & [= -> ->] & Hy). apply list_elem_of_In, in_rev, list_elem_of_In in Hy. rewrite rev_unit, rev_involutive in Hy. apply list_elem_of_fmap. by exists y.
    + intros j q Hj. destruct (decide (j = i)) as [->|Hji].
      { rewrite list_lookup_insert_eq in Hj by (by eapply lookup_lt_Some). injection Hj as <-. cbn. by rewrite lookup_insert_eq. }
      rewrite list_lookup_insert_ne in Hj by done. rewrite lookup_insert_ne by done. eapply (pc_frame G G' t (cmem s) m' (sm σ) _ q _ (cur :: anc)); [done|done|apply dom_insert_sub| |by apply Hp].
      intros x w Hx Hin. destruct (He i j (PWrite k v (cur :: anc)) q x true w) as [? _]; [done|done|done| |done|done]. cbn [held]. apply list_elem_of_fmap. eauto.
  - destruct (way_down _ _ _ _ _ _ _ Hm Hnd Hg Hl Hk) as (c & gc & Hcc & Hgc & Hlv & Hin & Hcin). rewrite Hcc in Hstep. cbn [mbind option_bind or_fault] in Hstep.
    destruct (latch_free t (cthreads s) true c) eqn:Ef; [|done]. injection Hstep as <- <-. eapply inv_silent; [exact Hinv|exact Hi| |].
    + intros x w. change (held t (PChild k v (cur :: anc) c)) with ((c, true) :: held t (PWrite k v (cur :: anc))). rewrite elem_of_cons. intros [[= -> ->]|?]; [by right|by left].
    + exists M0. split; [done|]. split; [done|]. split; [done|]. split; [|done]. split; [eauto|]. split; [by exists nd|done].
Qed.

Lemma in_rev_fmap (w : bool) (x : nat) (b : bool) l : (x, b) ∈ (., w) <$> rev l -> (x, b) ∈ (., w) <$> l.
Proof. rewrite !list_elem_of_fmap. intros (y & He & Hy). exists y. split; [done|]. by apply list_elem_of_In, in_rev, list_elem_of_In. Qed.

Lemma step_child G t s σ i k v st c s' es : cb_inv G t s σ -> cthreads s !! i = Some (PChild k v st c) -> cb_step t s i = Some (s', es) ->
  exists σ' G', spec_run σ ((i,.) <$> es) = Some σ' /\ cb_inv G' t s' σ'.
Proof.
  intros Hinv Hi Hstep. pose proof (ci_pcs _ _ _ _ Hinv i _ Hi) as (M0 & Hst & Hd & Hop & Hstack & Htop). pose proof Hstack as [(g & Hg & Hk) Hlink].
  destruct (mo_get _ _ _ _ _ _ (ci_mem _ _ _ _ Hinv) Hg) as (nd & Hnd & _). unfold cb_step in Hstep. rewrite Hi in Hstep. cbn [mbind option_bind cb_next or_fault] in Hstep. rewrite Hnd in Hstep. cbn [mbind option_bind] in Hstep.
  destruct (Nat.ltb_spec (length (cn_key nd)) ORDER) as [Hsafe|_].
  - injection Hstep as <- <-. eapply inv_silent; [exact Hinv|exact Hi| |].
    + intros x w Hx. left. cbn [held] in *. rewrite fmap_app in Hx. apply elem_of_app in Hx as [Hx|Hx]; [right; by apply in_rev_fmap|]. apply list_elem_of_singleton in Hx as ->. by left.
    + exists M0. split; [done|]. split; [done|]. split; [done|]. split; [split; [eauto|done]|]. exists c, nd. split; [done|]. split; [done|by right].
  - destruct (length st <? MAXH)%nat; [|done]. injection Hstep as <- <-. eapply inv_silent; [exact Hinv|exact Hi|intros x w Hx; by left|].
    exists M0. split; [done|]. split; [done|]. split; [done|]. split; [done|]. destruct Htop as (z & ndz & Hlast & Hz). exists z, ndz. split; [|done]. destruct st; done.
Qed.

Lemma step_header G t s σ i o s' es : cb_inv G t s σ -> cthreads s !! i = Some (PHeader o) -> cb_step t s i = Some (s', es) ->
  exists σ' G', spec_run σ ((i,.) <$> es) = Some σ' /\ cb_inv G' t s' σ'.
Proof.
  intros Hinv Hi Hstep. pose proof (ci_pcs _ _ _ _ Hinv i _ Hi) as (M0 & Hst & Hd & Hop & _). pose proof (ci_mem _ _ _ _ Hinv) as Hm. destruct (root_ghost _ _ _ Hm) as (root & L & Hr & Hgt & Hgr & Hlink).
  unfold cb_step in Hstep. rewrite Hi in Hstep. cbn [mbind option_bind cb_next or_fault] in Hstep. rewrite Hr in Hstep. cbn [mbind option_bind] in Hstep.
  cbn [or_fault] in Hstep. destruct (latch_free t (cthreads s) (is_write o) root) eqn:Ef; [|done]. injection Hstep as <- <-. eapply inv_silent; [exact Hinv|exact Hi| |].
  - intros x w Hx. cbn in Hx |- *. destruct o; cbn in Hx; rewrite elem_of_cons, list_elem_of_singleton in Hx; rewrite list_elem_of_singleton; naive_solver.
  - destruct o as [k|k v|lo hi]; cbn [pc_ok].
    + exists M0. split; [done|]. split; [done|]. split; [done|]. eexists. split; [exact Hgr|done].
    + exists M0. split; [done|]. split; [done|]. split; [done|]. split; [split; [eexists; split; [exact Hgr|done]|done]|].
      destruct (mo_hdr _ _ _ _ Hm) as (? & ? & Hh & _). eexists t, _. split; [done|]. split; [exact Hh|by left].
    + exists M0. split; [done|]. split; [done|]. split; [done|]. eexists. split; [exact Hgr|]. left. split; [apply Hop|done].
Qed.

Lemma cb_step_inv G t s σ i s' es : cb_inv G t s σ -> cb_step t s i = Some (s', es) -> exists σ' G', spec_run σ ((i,.) <$> es) = Some σ' /\ cb_inv G' t s' σ'.
Proof.
  intros Hinv Hstep. destruct (cthreads s !! i) as [p|] eqn:Hi; [|by unfold cb_step in Hstep; rewrite Hi in Hstep].
  pose proof (ci_pcs _ _ _ _ Hinv i _ Hi) as Hpc. destruct p as [|o|o|o cur|o cnt cur|o cnt cur nx|k v l|k v l c|k v [|x l] c|[|x l] w r];
    [..|by eapply step_header| |by eapply step_read| |by eapply step_write|by eapply step_child| | | |];
    unfold cb_step in Hstep; rewrite Hi in Hstep; cbn [mbind option_bind cb_next] in Hstep; cbn [pc_ok] in Hpc; try done.
  - destruct (latch_free t (cthreads s) (is_write o) t) eqn:Ef; [|done]. injection Hstep as <- <-. eapply inv_silent; [exact Hinv|exact Hi| |done].
    intros x w. cbn. rewrite list_elem_of_singleton. intros [= -> ->]. by right.
  - injection Hstep as <- <-. eapply inv_silent; [exact Hinv|exact Hi|intros x w Hx; left; by right|done].
  - injection Hstep as <- <-. eapply inv_silent; [exact Hinv|exact Hi|intros x w Hx; left; by right|done].
  - injection Hstep as <- <-. eapply inv_silent; [exact Hinv|exact Hi|intros x w Hx; by left|done].
  - injection Hstep as <- <-. eapply inv_silent; [exact Hinv|exact Hi|intros y w Hy; left; by right|done].
  - injection Hstep as <- <-. exists (mkCSpec (sm σ) (delete i (sts σ))), G. split.
    + cbn. unfold spec_step. cbn. rewrite Hpc. by rewrite decide_True.
    + eapply inv_local; [exact Hinv|exact Hi|intros x0 w0 Hx; by apply not_elem_of_nil in Hx|done| |cbn; by rewrite lookup_delete_eq]. intros j Hj. cbn. by rewrite lookup_delete_ne.
  - injection Hstep as <- <-. eapply inv_silent; [exact Hinv|exact Hi|intros y w' Hy; left; by right|done].
Qed.

Lemma choose_inv G t s σ c s' es : cb_inv G t s σ -> choice_ok c -> choose t s c = Some (s', es) ->
  exists σ' G', spec_run σ ((who c,.) <$> es) = Some σ' /\ cb_inv G' t s' σ'.
Proof.
  destruct c as [i o|i]; cbn [choose who choice_ok]; [|intros; by eapply cb_step_inv]. intros Hinv Hop Hcall. unfold cb_call in Hcall. destruct (cthreads s !! i) as [[]|] eqn:Hi; try done. injection Hcall as <- <-.
  pose proof (ci_pcs _ _ _ _ Hinv i _ Hi) as Hpc. cbn in Hpc. exists (mkCSpec (sm σ) (<[i := Called o (sm σ)]> (sts σ))), G. split; [cbn; unfold spec_step; cbn; by rewrite Hpc|].
  eapply inv_local; [exact Hinv|exact Hi|intros x w Hx; by apply not_elem_of_nil in Hx|done| |].
  - intros j Hj. cbn. by rewrite lookup_insert_ne.
  - cbn. rewrite lookup_insert_eq. by exists (sm σ).
Qed.

Lemma spec_run_app σ a b : spec_run σ (a ++ b) = (σ' ← spec_run σ a; spec_run σ' b).
Proof. revert σ. induction a as [|e a IH]; intros σ; cbn; [done|]. destruct (spec_step σ e); [apply IH|done]. Qed.

Lemma cb_run_inv t cs : forall G s σ s' tr, cb_inv G t s σ -> Forall choice_ok cs -> cb_run t s cs = Some (s', tr) -> exists σ' G', spec_run σ tr = Some σ' /\ cb_inv G' t s' σ'.
Proof.
  induction cs as [|c cs IH]; intros G s σ s' tr Hinv Hok Hrun; cbn in Hrun; [injection Hrun as <- <-; by exists σ, G|]. inversion_clear Hok.
  destruct (choose t s c) as [[s1 es]|] eqn:Hc; [|done]. cbn in Hrun. destruct (cb_run t s1 cs) as [[s2 tr2]|] eqn:Hr; [|done]. injection Hrun as <- <-.
  destruct (choose_inv _ _ _ _ _ _ _ Hinv ltac:(done) Hc) as (σ1 & G1 & H1 & Hinv1). destruct (IH _ _ _ _ _ Hinv1 ltac:(done) Hr) as (σ2 & G2 & H2 & Hinv2).
  exists σ2, G2. split; [|done]. by rewrite spec_run_app, H1.
Qed.

Lemma cb_init_inv n : cb_inv (<[1%nat := mkG 1 KEY_MIN KEY_END]> {[0%nat := mkG 0 KEY_MIN KEY_END]}) cb_header (cb_init n) spec_init.
Proof.
  assert (Hn : forall i p, replicate n PIdle !! i = Some p -> p = PIdle) by (intros i p H; by apply lookup_replicate in H as [-> _]).
  assert (Hlo : KEY_MIN < KEY_END) by (unfold KEY_MIN, KEY_END; lia). set (G := <[1%nat := _]> _).
  assert (HG : forall x g, G !! x = Some g <-> (x = 1%nat /\ g = mkG 1 KEY_MIN KEY_END) \/ (x = 0%nat /\ g = mkG 0 KEY_MIN KEY_END)).
  { intros x g. unfold G. rewrite lookup_insert_Some, lookup_singleton_Some. naive_solver lia. }
  assert (HN : forall x nd, cnodes (cmem (cb_init n)) !! x = Some nd <-> (x = 1%nat /\ nd = mkCNode false [] [0%nat] [] None) \/ (x = 0%nat /\ nd = mkCNode true [] [] [] None)).
  { intros x nd. cbn. rewrite insert_empty, lookup_insert_Some, lookup_singleton_Some. naive_solver lia. }
  split; cbn [cthreads cb_init].
  - split.
    + intros x. split; intros [y Hy]; [apply HN in Hy|apply HG in Hy]; (destruct Hy as [[-> _]|[-> _]]; eauto).
    + intros x [g Hg]. apply HG in Hg. cbn. naive_solver lia.
    + intros x nd g Hx Hg. apply HN in Hx. apply HG in Hg. destruct Hx as [[-> ->]|[-> ->]]; destruct Hg as [[? ->]|[? ->]]; try done.
      * exists 0%nat. cbn. split; [done|]. split; [done|]. split; [done|]. apply HG. by right.
      * cbn. do 4 (split; [done || constructor|]). by split.
    + intros x y g g' k Hx Hy Hl _ _. apply HG in Hx, Hy. destruct Hx as [[-> ->]|[-> ->]], Hy as [[-> ->]|[-> ->]]; done.
    + exists 0%nat, 0%nat. split; [apply HN; by left|]. split; [apply HG; by left|]. intros x g Hg. apply HG in Hg as [[_ ->]|[_ ->]]; cbn; lia.
    + intros x nd Hx Hne. apply HN in Hx as [[-> _]|[-> ->]]; [done|]. split; [|done]. intros Hr. by exfalso; apply Hr.
  - intros x nd Hx. apply HN in Hx as [[_ ->]|[_ ->]]; cbn; unfold ORDER; lia.
  - intros k v. split; [done|]. intros (x & nd & Hx & Hl & Hin). apply HN in Hx as [[_ ->]|[_ ->]]; [done|]. cbn in Hin. by apply not_elem_of_nil in Hin.
  - intros i j p q x w w' _ Hi _ Hx. apply Hn in Hi as ->. by apply not_elem_of_nil in Hx.
  - intros i p Hi. by apply Hn in Hi as ->.
Qed.

(** ** The height of the tree *)

Definition span (M : gmap Z Z) (l h : Z) : Z := Z.of_nat (size (filter (fun k => l <= k < h) (dom M))).

Lemma span_split M l k h : l <= k <= h -> span M l h = span M l k + span M k h.
Proof.
  intros Hk. unfold span. rewrite <- Nat2Z.inj_add, <- size_union; [|set_unfold; intros; lia]. do 2 f_equal. apply set_eq. intros x. rewrite elem_of_union, !elem_of_filter.
  destruct (decide (x ∈ dom M)); [|tauto]. split; [intros [? _]|intros [[? _]|[? _]]]; [destruct (decide (x < k))|..]; [left|right|..]; split; try done; lia.
Qed.

Lemma ckids_span G v M N ks : forall lo cs hi, ckids G v lo ks cs hi -> (forall c l h, c ∈ cs -> G !! c = Some (mkG v l h) -> N <= span M l h) -> Z.of_nat (length cs) * N <= span M lo hi.
Proof.
  induction ks as [|k ks IH]; intros lo [|c cs] hi H HN; cbn in H; [done| |done|].
  - destruct H as (-> & Hl & Hc). cbn [length]. pose proof (HN c lo hi ltac:(by left) Hc). lia.
  - destruct H as (Hl & Hc & H). pose proof (ckids_bounds _ _ _ _ _ _ H). rewrite (span_split M lo k hi) by lia. pose proof (HN c lo k ltac:(by left) Hc).
    pose proof (IH k cs hi H (fun c l h Hi => HN c l h (list_elem_of_further _ _ _ Hi))). cbn [length]. lia.
Qed.

(** A child of a node other than the header is neither the root nor the header. *)
Lemma inner_child G t m root x nd g c v : mem_ok G G t m -> root_of t m = Some root -> cnodes m !! x = Some nd -> G !! x = Some g -> x <> t -> lvl g = S v -> ckids G v (glo g) (cn_key nd) (cn_child nd) (ghi g) -> c ∈ cn_child nd -> c <> t /\ c <> root.
Proof.
  intros Hm Hr Hx Hg Hxt Hv Hk Hc. destruct (ckids_elem _ _ _ _ _ _ _ Hk Hc) as (l & h & Hgc & Hl & Hh). destruct (root_ghost _ _ _ Hm) as (root' & L & Hr' & Hgt & Hgr & _). rewrite Hr in Hr'. injection Hr' as <-.
  destruct (mo_hdr _ _ _ _ Hm) as (? & L' & _ & Hgt' & Hmax). rewrite Hgt in Hgt'. injection Hgt' as <-. split; intros ->.
  - rewrite Hgt in Hgc. injection Hgc as <- _ _. pose proof (Hmax _ _ Hg). lia.
  - rewrite Hgr in Hgc. injection Hgc as <- <- <-. apply Hxt. apply (mo_disj _ _ _ _ Hm x t g _ KEY_MIN Hg Hgt); [done|unfold in_rng; lia|unfold in_rng, KEY_MIN, KEY_END; cbn; lia].
Qed.

Lemma level_span G t m M root : mem_ok G G t m -> contents m M -> root_of t m = Some root ->
  forall v x l h, G !! x = Some (mkG v l h) -> x <> t -> x <> root -> 2 * 3 ^ Z.of_nat v <= span M l h.
Proof.
  intros Hm Hc Hr. induction v as [|v IH]; intros x l h Hg Hxt Hxr; destruct (mo_get _ _ _ _ _ _ Hm Hg) as (nd & Hnd & Hok); pose proof (proj1 (mo_fill _ _ _ _ Hm x nd Hnd Hxt) ltac:(congruence)) as Hfill.
  - unfold node_ok in Hok. destruct (cn_leaf nd) eqn:Hl; [|by destruct Hok as (? & ? & _)]. destruct Hok as (_ & _ & _ & Hs & Hf & _). rewrite list.Forall_forall in Hf.
    change (2 * 3 ^ Z.of_nat 0) with 2. unfold span. assert (Hsub : list_to_set (cn_key nd) ⊆ filter (fun k => l <= k < h) (dom M)).
    { intros k. rewrite elem_of_list_to_set, elem_of_filter. intros Hk. split; [exact (Hf k Hk)|]. apply (leaf_keys _ _ _ _ _ _ _ _ _ Hm Hc Hnd Hg Hl (Hf k Hk)). done. }
    apply subseteq_size in Hsub. rewrite size_list_to_set in Hsub by (by apply sorted_nodup). lia.
  - unfold node_ok in Hok. destruct (cn_leaf nd) eqn:Hl; [by destruct Hok as (? & _)|]. destruct Hok as (v' & [= <-] & Hk). cbn [glo ghi] in Hk. pose proof (ckids_length _ _ _ _ _ _ Hk) as Hlen.
    assert (Hkids : Z.of_nat (length (cn_child nd)) * (2 * 3 ^ Z.of_nat v) <= span M l h).
    { eapply ckids_span; [exact Hk|]. intros c l' h' Hcin Hgc. destruct (inner_child _ _ _ _ _ _ _ c _ Hm Hr Hnd Hg Hxt eq_refl Hk Hcin). by apply (IH c). }
    rewrite Nat2Z.inj_succ, Z.pow_succ_r by lia. assert (0 < 3 ^ Z.of_nat v) by (apply Z.pow_pos_nonneg; lia). nia.
Qed.

(** A tree of more than 39 levels of nodes has at least this many keys. *)
Definition KEY_CAP : Z := 4 * 3 ^ 38.

Lemma height_bound G t m M L : mem_ok G G t m -> contents m M -> G !! t = Some (mkG (S L) KEY_MIN KEY_END) -> Z.of_nat (size M) < KEY_CAP -> (L <= 38)%nat.
Proof.
  intros Hm Hc Hgt Hsz. destruct (root_ghost _ _ _ Hm) as (root & L' & Hr & Hgt' & Hgr & _). rewrite Hgt in Hgt'. injection Hgt' as <-. destruct (Nat.le_gt_cases L 38) as [|Hgt38]; [done|]. exfalso. destruct L as [|L]; [lia|].
  destruct (mo_get _ _ _ _ _ _ Hm Hgr) as (nd & Hnd & Hok). assert (Hrt : root <> t) by (intros ->; rewrite Hgt in Hgr; injection Hgr; lia).
  unfold node_ok in Hok. destruct (cn_leaf nd) eqn:Hl; [by destruct Hok as (? & _)|]. pose proof (proj2 (mo_fill _ _ _ _ Hm root nd Hnd Hrt) Hl) as Hfill. destruct Hok as (v' & [= <-] & Hk). cbn [glo ghi] in Hk. pose proof (ckids_length _ _ _ _ _ _ Hk) as Hlen.
  assert (Hkids : Z.of_nat (length (cn_child nd)) * (2 * 3 ^ Z.of_nat L) <= span M KEY_MIN KEY_END).
  { eapply ckids_span; [exact Hk|]. intros c l' h' Hcin Hgc. destruct (inner_child _ _ _ _ _ _ _ c _ Hm Hr Hnd Hgr Hrt eq_refl Hk Hcin). by eapply level_span. }
  assert (Hspan : span M KEY_MIN KEY_END <= Z.of_nat (size M)).
  { unfold span. rewrite <- size_dom. apply inj_le, subseteq_size. set_solver. }
  assert (3 ^ 38 <= 3 ^ Z.of_nat L) by (apply Z.pow_le_mono_r; lia). unfold KEY_CAP in Hsz. nia.
Qed.

Lemma linked_height G t m L anc : forall x g, mem_ok G G t m -> (forall y gy, G !! y = Some gy -> (lvl gy <= S L)%nat) -> linked m x anc -> G !! x = Some g -> (lvl g + length anc <= S L)%nat.
Proof.
  induction anc as [|p anc IH]; intros x g Hm Hmax Hl Hg; [cbn; pose proof (Hmax _ _ Hg); lia|]. pose proof (linked_lvl _ _ _ _ _ _ p Hm Hl Hg ltac:(by left)) as (gp & Hgp & Hlt).
  destruct Hl as [_ Hl]. pose proof (IH p gp Hm Hmax Hl Hgp). cbn [length]. lia.
Qed.

(** No thread follows a missing pointer or overruns its stack of latches. *)
Lemma no_fault G t s σ i p : cb_inv G t s σ -> Z.of_nat (size (sm σ)) < KEY_CAP -> cthreads s !! i = Some p -> cb_next t (cmem s) p <> Fault.
Proof.
  intros Hinv Hsz Hi. pose proof (ci_pcs _ _ _ _ Hinv i _ Hi) as Hpc. pose proof Hinv as [Hm Hs Hc _ _].
  destruct p as [|o|o|o cur|o cnt cur|o cnt cur nx|k v l|k v l c|k v [|x l] c|[|x l] w r]; cbn [cb_next pc_ok] in *; try done.
  - destruct (root_ghost _ _ _ Hm) as (root & L & -> & _). done.
  - destruct Hpc as (M0 & _ & _ & _ & g & Hg & Hrd). destruct (mo_get _ _ _ _ _ _ Hm Hg) as (nd & Hnd & Hok). rewrite Hnd. cbn [mbind option_bind]. destruct (cn_leaf nd) eqn:Hl; cbn [or_fault].
    + destruct o as [k|k v|lo hi]; cbn [cb_leaf]; [done|done|]. destruct (existsb _ _); [done|]. by destruct (cn_next nd).
    + assert (Hk : in_rng (target o) g).
      { destruct o as [k|k v|lo hi]; [done|done|]. destruct Hrd as [[? ?]|[H0 _]]; [done|]. unfold node_ok in Hok. rewrite Hl in Hok. destruct Hok as (v & Hv & _). congruence. }
      destruct (way_down _ _ _ _ _ _ _ Hm Hnd Hg Hl Hk) as (c & gc & -> & _). done.
  - destruct Hpc as (M0 & _ & _ & _ & Hstack & Htop). destruct l as [|cur anc]; [done|]. destruct Hstack as [(g & Hg & Hk) Hlink]. destruct (mo_get _ _ _ _ _ _ Hm Hg) as (nd & Hnd & Hok). cbn [head mbind option_bind]. rewrite Hnd. cbn [mbind option_bind].
    destruct (cn_leaf nd) eqn:Hl.
    + unfold node_ok in Hok. rewrite Hl in Hok. destruct Hok as (H0 & _). destruct g as [v0 l0 h0]. cbn in H0. subst v0.
      destruct (insert_leaf_ok G t (cmem s) cur nd anc l0 h0 k v (sm σ)) as (m' & G' & Hins & _); try done; [by eapply linked_nodup|]. by rewrite Hins.
    + destruct (way_down _ _ _ _ _ _ _ Hm Hnd Hg Hl Hk) as (c & gc & -> & _). done.
  - destruct Hpc as (M0 & _ & _ & _ & [(g & Hg & Hk) Hlink] & _). destruct (mo_get _ _ _ _ _ _ Hm Hg) as (nd & Hnd & _). rewrite Hnd. cbn [mbind option_bind]. destruct (_ <? ORDER)%nat; [done|].
    destruct (mo_hdr _ _ _ _ Hm) as (root & L & _ & Hgt & Hmax). pose proof (height_bound _ _ _ _ _ Hm Hc Hgt Hsz). pose proof (linked_height _ _ _ _ _ _ _ Hm Hmax Hlink Hg).
    destruct (Nat.ltb_spec (length l) MAXH); [done|]. unfold MAXH in *. lia.
Qed.

(** ** Progress *)

(** The order in which threads latch nodes: downwards, and along the leaves. *)
Definition before (a b : ghost) : Prop := (lvl b < lvl a)%nat \/ (lvl b = lvl a /\ glo a < glo b).
#[local] Instance before_dec a b : Decision (before a b).
Proof. unfold before. apply _. Defined.

Lemma latch_rank G t s σ i p w x p' : cb_inv G t s σ -> cthreads s !! i = Some p -> cb_next t (cmem s) p = Latch w x p' ->
  exists gx, G !! x = Some gx /\ forall y w', (y, w') ∈ held t p -> exists gy, G !! y = Some gy /\ before gy gx.
Proof.
  intros Hinv Hi Hn. pose proof (ci_pcs _ _ _ _ Hinv i _ Hi) as Hpc. pose proof Hinv as [Hm Hs Hc _ _]. destruct (root_ghost _ _ _ Hm) as (root & L & Hr & Hgt & Hgr & _).
  destruct p as [|o|o|o cur|o cnt cur|o cnt cur nx|k v l|k v l c|k v [|x0 l] c|[|x0 l] w0 r]; cbn [cb_next pc_ok] in *; try done.
  - injection Hn as <- <- <-. eexists. split; [exact Hgt|]. intros y w' Hy. by apply not_elem_of_nil in Hy.
  - rewrite Hr in Hn. cbn in Hn. injection Hn as <- <- _. eexists. split; [exact Hgr|]. intros y w' Hy. apply list_elem_of_singleton in Hy as [= -> ->]. eexists. split; [exact Hgt|]. left. cbn. lia.
  - destruct Hpc as (M0 & _ & _ & _ & g & Hg & Hrd). destruct (mo_get _ _ _ _ _ _ Hm Hg) as (nd & Hnd & Hok). rewrite Hnd in Hn. cbn [mbind option_bind] in Hn. destruct (cn_leaf nd) eqn:Hl; cbn [or_fault] in Hn.
    + destruct o as [k|k v|lo hi]; cbn [cb_leaf] in Hn; [done|done|]. destruct (existsb _ _); [done|]. destruct (cn_next nd) as [nx|] eqn:En; [|done]. injection Hn as <- <- _.
      pose proof Hok as Hok'. unfold node_ok in Hok'. rewrite Hl, En in Hok'. destruct Hok' as (H0 & Hlt & _ & _ & _ & h & Hnx). eexists. split; [exact Hnx|]. intros y w' Hy. apply list_elem_of_singleton in Hy as [= -> ->].
      exists g. split; [done|]. right. cbn. split; [done|lia].
    + assert (Hk : in_rng (target o) g).
      { destruct o as [k|k v|lo hi]; [done|done|]. destruct Hrd as [[? ?]|[H0 _]]; [done|]. unfold node_ok in Hok. rewrite Hl in Hok. destruct Hok as (v & Hv & _). congruence. }
      destruct (way_down _ _ _ _ _ _ _ Hm Hnd Hg Hl Hk) as (c & gc & Hcc & Hgc & Hlv & _). rewrite Hcc in Hn. cbn in Hn. injection Hn as <- <- _. exists gc. split; [done|].
      intros y w' Hy. apply list_elem_of_singleton in Hy as [= -> ->]. exists g. split; [done|]. left. lia.
  - destruct Hpc as (M0 & _ & _ & _ & Hstack & _). destruct l as [|cur anc]; [done|]. destruct Hstack as [(g & Hg & Hk) Hlink]. destruct (mo_get _ _ _ _ _ _ Hm Hg) as (nd & Hnd & _). cbn [head mbind option_bind] in Hn. rewrite Hnd in Hn. cbn [mbind option_bind] in Hn.
    destruct (cn_leaf nd) eqn:Hl; [by destruct (insert_leaf t (cmem s) (cur :: anc) k v)|]. destruct (way_down _ _ _ _ _ _ _ Hm Hnd Hg Hl Hk) as (c & gc & Hcc & Hgc & Hlv & _). rewrite Hcc in Hn. cbn in Hn. injection Hn as <- <- _.
    exists gc. split; [done|]. intros y w' Hy. cbn [held] in Hy. apply list_elem_of_fmap in Hy as (z & [= -> ->] & Hz). apply elem_of_cons in Hz as [->|Hz]; [exists g; split; [done|left; lia]|].
    destruct (linked_lvl _ _ _ _ _ _ _ Hm Hlink Hg Hz) as (gz & Hgz & Hlt). exists gz. split; [done|]. left. lia.
  - destruct (cnodes (cmem s) !! c); [|done]. cbn in Hn. repeat case_match; done.
Qed.

Lemma latch_busy t ths w x : latch_free t ths w x = false -> exists j q w', ths !! j = Some q /\ (x, w') ∈ held t q.
Proof.
  induction ths as [|p ths IH]; [done|]. cbn. destruct (forallb _ (held t p)) eqn:E; cbn.
  - intros H. destruct (IH H) as (j & q & w' & Hj & Hin). by exists (S j), q, w'.
  - intros _. exists 0%nat, p. clear IH. induction (held t p) as [|[y w'] l IHl]; [done|]. cbn in E. destruct (Nat.eqb_spec y x) as [->|Hne]; [exists w'; split; [done|by left]|].
    cbn in E. destruct (IHl E) as (w2 & ? & ?). exists w2. split; [done|by right].
Qed.

Lemma next_stop t m p : cb_next t m p = Stop -> p = PIdle.
Proof.
  destruct p as [|o|o|o cur|o cnt cur|o cnt cur nx|k v l|k v l c|k v [|x0 l] c|[|x0 l] w0 r]; cbn [cb_next]; intros Hq; try done.
  all: unfold or_fault, mbind, option_bind, cb_leaf in Hq; repeat case_match; simplify_eq.
Qed.

Lemma progress_from G t s σ : cb_inv G t s σ -> Z.of_nat (size (sm σ)) < KEY_CAP ->
  forall n i p w x p' gx, cthreads s !! i = Some p -> cb_next t (cmem s) p = Latch w x p' -> G !! x = Some gx -> (size (filter (fun e => before gx e.2) G) <= n)%nat ->
  exists j, is_Some (cb_step t s j).
Proof.
  intros Hinv Hsz. induction n as [n IH] using lt_wf_ind. intros i p w x p' gx Hi Hn Hgx Hle. destruct (latch_free t (cthreads s) w x) eqn:Ef.
  { exists i. unfold cb_step. rewrite Hi. cbn [mbind option_bind]. rewrite Hn, Ef. eauto. }
  destruct (latch_busy _ _ _ _ Ef) as (j & q & w' & Hj & Hin). pose proof (no_fault _ _ _ _ _ _ Hinv Hsz Hj) as Hnf. destruct (cb_next t (cmem s) q) as [w2 x2 q'|x2 q'|m e q'| |] eqn:Hq.
  - destruct (latch_rank _ _ _ _ _ _ _ _ _ Hinv Hj Hq) as (g2 & Hg2 & Hb). destruct (Hb _ _ Hin) as (gx' & Hgx' & Hbx). rewrite Hgx in Hgx'. injection Hgx' as <-.
    assert (Hlt : (size (filter (fun e => before g2 e.2) G) < size (filter (fun e => before gx e.2) G))%nat).
    { rewrite <- !size_dom. apply subset_size. split.
      - intros z. rewrite !elem_of_dom. intros [gz Hz]. apply map_lookup_filter_Some in Hz as [Hz Hzb]. exists gz. apply map_lookup_filter_Some. split; [done|]. cbn in *. unfold before in *. lia.
      - intros Hsub. assert (Hx2 : x2 ∈ dom (filter (fun e => before gx e.2) G)) by (apply elem_of_dom; exists g2; by apply map_lookup_filter_Some).
        apply Hsub, elem_of_dom in Hx2 as [gz Hz]. apply map_lookup_filter_Some in Hz as [Hz Hzb]. rewrite Hg2 in Hz. injection Hz as <-. cbn in Hzb. unfold before in Hzb. lia. }
    apply (IH (size (filter (fun e => before g2 e.2) G)) ltac:(lia) j q w2 x2 q' g2); done.
  - exists j. unfold cb_step. rewrite Hj. cbn [mbind option_bind]. rewrite Hq. eauto.
  - exists j. unfold cb_step. rewrite Hj. cbn [mbind option_bind]. rewrite Hq. eauto.
  - exfalso. apply next_stop in Hq as ->. by apply not_elem_of_nil in Hin.
  - done.
Qed.

(** The only accesses that change the memory are those of [insert_leaf]. *)
Lemma act_writes G t s σ i p m es p' x : cb_inv G t s σ -> cthreads s !! i = Some p -> cb_next t (cmem s) p = Act m es p' ->
  (x, true) ∈ held t p \/ cnodes (cmem s) !! x = None \/ cnodes m !! x = cnodes (cmem s) !! x.
Proof.
  intros Hinv Hi Hn. pose proof (ci_pcs _ _ _ _ Hinv i _ Hi) as Hpc. pose proof Hinv as [Hm Hs Hc _ _].
  destruct p as [|o|o|o cur|o cnt cur|o cnt cur nx|k v l|k v l c|k v [|x0 l] c|[|x0 l] w0 r]; cbn [cb_next pc_ok] in *.
  all: try (right; right; assert (m = cmem s) as ->; [unfold or_fault, mbind, option_bind, cb_leaf in Hn; repeat case_match; by simplify_eq|done]).
  destruct Hpc as (M0 & _ & _ & _ & Hstack & Htop). destruct l as [|cur anc]; [done|]. destruct Hstack as [(g & Hg & Hk) Hlink]. destruct (mo_get _ _ _ _ _ _ Hm Hg) as (nd & Hnd & Hok).
  cbn [head mbind option_bind] in Hn. rewrite Hnd in Hn. cbn [mbind option_bind] in Hn. destruct (cn_leaf nd) eqn:Hl; [|by destruct (cn_child nd !! _)].
  unfold node_ok in Hok. rewrite Hl in Hok. destruct Hok as (H0 & _). destruct g as [v0 l0 h0]. cbn in H0. subst v0.
  destruct (insert_leaf_ok G t (cmem s) cur nd anc l0 h0 k v (sm σ)) as (m' & G' & Hins & _ & _ & _ & Hsame); try done; [by eapply linked_nodup|].
  rewrite Hins in Hn. cbn in Hn. injection Hn as <- _ _. destruct (cnodes (cmem s) !! x) eqn:Hx; [|by right; left]. destruct (decide (x ∈ cur :: anc)) as [Hin|Hni].
  - left. cbn [held]. apply list_elem_of_fmap. by exists x.
  - right; right. rewrite <- Hx. apply Hsame; [done|]. apply (mo_dom _ _ _ _ Hm). eauto.
Qed.

Lemma stack_short G t s σ i p : cb_inv G t s σ -> Z.of_nat (size (sm σ)) < KEY_CAP -> cthreads s !! i = Some p ->
  match p with PWrite _ _ stack => (length stack <= MAXH)%nat | PChild _ _ stack _ => (length stack < MAXH)%nat | _ => True end.
Proof.
  intros Hinv Hsz Hi. pose proof (ci_pcs _ _ _ _ Hinv i _ Hi) as Hpc. pose proof Hinv as [Hm Hs Hc _ _]. destruct (mo_hdr _ _ _ _ Hm) as (root & L & _ & Hgt & Hmax). pose proof (height_bound _ _ _ _ _ Hm Hc Hgt Hsz).
  destruct p as [| | | | | |k v l|k v l c| |]; try done; destruct Hpc as (M0 & _ & _ & _ & Hstack & _).
  - destruct l as [|cur anc]; [done|]. destruct Hstack as [(g & Hg & Hk) Hlink]. pose proof (linked_height _ _ _ _ _ _ _ Hm Hmax Hlink Hg). cbn [length]. unfold MAXH. lia.
  - destruct Hstack as [(g & Hg & Hk) Hlink]. pose proof (linked_height _ _ _ _ _ _ _ Hm Hmax Hlink Hg). unfold MAXH. lia.
Qed.

(** ** What the tree guarantees *)

(** C17. Latch coupling is linearizable: in any interleaving of any number of threads
    every search and insertion takes effect on a finite map at one point between its
    call and its return and answers accordingly, a range count lies between the count
    when it was called and the count when it ends, and the leaves hold exactly the keys
    of the map. *)
Theorem cbtree_linearizable n cs s tr : Forall choice_ok cs -> cb_run cb_header (cb_init n) cs = Some (s, tr) ->
  exists σ, spec_run spec_init tr = Some σ /\ contents (cmem s) (sm σ).
Proof.
  intros Hok Hrun. destruct (cb_run_inv _ _ _ _ _ _ _ (cb_init_inv n) Hok Hrun) as (σ & G & Hspec & Hinv). exists σ. split; [done|]. apply Hinv.
Qed.

(** C38. Threads never deadlock: whenever a thread has not returned, some thread can do its
    next step; latches exclude, and a step changes only nodes that its thread has latched
    for writing and new nodes. *)
Theorem cbtree_latching n cs s tr σ : Forall choice_ok cs -> cb_run cb_header (cb_init n) cs = Some (s, tr) ->
  spec_run spec_init tr = Some σ -> Z.of_nat (size (sm σ)) < KEY_CAP ->
  ((exists i p, cthreads s !! i = Some p /\ p <> PIdle) -> exists i, is_Some (cb_step cb_header s i)) /\
  (forall i j p q x w, i <> j -> cthreads s !! i = Some p -> cthreads s !! j = Some q -> (x, true) ∈ held cb_header p -> (x, w) ∉ held cb_header q) /\
  (forall i p m es p' x, cthreads s !! i = Some p -> cb_next cb_header (cmem s) p = Act m es p' ->
     (x, true) ∈ held cb_header p \/ cnodes (cmem s) !! x = None \/ cnodes m !! x = cnodes (cmem s) !! x).
Proof.
  intros Hok Hrun Hspec Hsz. destruct (cb_run_inv _ _ _ _ _ _ _ (cb_init_inv n) Hok Hrun) as (σ' & G & Hspec' & Hinv). rewrite Hspec in Hspec'. injection Hspec' as <-. split; [|split].
  - intros (i & p & Hi & Hp). destruct (cb_next cb_header (cmem s) p) as [w x p'|x p'|m es p'| |] eqn:Hn.
    + destruct (latch_rank _ _ _ _ _ _ _ _ _ Hinv Hi Hn) as (gx & Hgx & _). by eapply (progress_from _ _ _ _ Hinv Hsz).
    + exists i. unfold cb_step. rewrite Hi. cbn [mbind option_bind]. rewrite Hn. eauto.
    + exists i. unfold cb_step. rewrite Hi. cbn [mbind option_bind]. rewrite Hn. eauto.
    + exfalso. apply Hp. by eapply next_stop.
    + exfalso. by eapply no_fault.
  - intros i j p q x w Hne Hi Hj Hx Hx'. by destruct (ci_excl _ _ _ _ Hinv i j p q x true w Hne Hi Hj Hx Hx').
  - intros i p m es p' x Hi Hn. by eapply act_writes.
Qed.

(** C39. The stack of latches never overflows and no missing node is followed, as long as
    the tree has fewer than 4 * 3^38 keys: every node but the root keeps at least two
    keys, so that many keys fit under 40 levels. *)
Theorem cbtree_stack_bound n cs s tr σ : Forall choice_ok cs -> cb_run cb_header (cb_init n) cs = Some (s, tr) ->
  spec_run spec_init tr = Some σ -> Z.of_nat (size (sm σ)) < KEY_CAP ->
  forall i p, cthreads s !! i = Some p ->
    cb_next cb_header (cmem s) p <> Fault /\
    match p with PWrite _ _ stack => (length stack <= MAXH)%nat | PChild _ _ stack _ => (length stack < MAXH)%nat | _ => True end.
Proof.
  intros Hok Hrun Hspec Hsz i p Hi. destruct (cb_run_inv _ _ _ _ _ _ _ (cb_init_inv n) Hok Hrun) as (σ' & G & Hspec' & Hinv). rewrite Hspec in Hspec'. injection Hspec' as <-.
  split; [by eapply no_fault|]. by eapply stack_short.
Qed.

(** ** Concrete runs *)

(** The first thread of [is] that can do a step. *)
Fixpoint pick (t : CBTree) (s : CState) (ids : list nat) : option (nat * CState) :=
  match ids with
  | [] => None
  | i :: ids => match cb_step t s i with Some (s', _) => Some (i, s') | None => pick t s ids end
  end.
(** Threads take turns until nobody has anything to do. *)
Fixpoint turns (fuel : nat) (t : CBTree) (s : CState) (ids : list nat) : list choice * CState :=
  match fuel with
  | O => ([], s)
  | S fuel => match pick t s ids with Some (i, s') => let '(cs, s'') := turns fuel t s' (drop (S i) ids ++ take (S i) ids) in (Step i :: cs, s'') | None => ([], s) end
  end.
Definition phase (r : list choice * CState) (ops : list tree_op) : list choice * CState :=
  let '(cs, s) := r in
  let calls := imap (fun i o => Call i o) ops in
  match cb_run cb_header s calls with
  | Some (s, _) => let '(cs', s') := turns 400 cb_header s (seq 0 (length ops)) in (cs ++ calls ++ cs', s')
  | None => (cs, s)
  end.

(** Three writers and two readers on a tree of three levels. *)
Definition demo_cb_schedule : list choice :=
  Eval vm_compute in (fold_left phase [[OInsert 10 1; OInsert 20 2; OInsert 30 3]; [OInsert 40 4; OInsert 50 5; OInsert 15 6; OSearch 20];
    [OInsert 25 7; OInsert 35 8; OInsert 45 9; ORange 10 40; OSearch 45]; [OInsert 11 10; OInsert 12 11; OInsert 13 12; ORange 0 100; OSearch 99]] ([], cb_init 5)).1.

Lemma demo_choices : Forall choice_ok demo_cb_schedule.
Proof. unfold demo_cb_schedule. repeat constructor; done. Qed.

(** The whole run, and a state in which two threads wait for a third. *)
Definition demo_out (k : nat) : option (CState * list (nat * event)) := cb_run cb_header (cb_init 5) (take k demo_cb_schedule).

Lemma demo_facts : match demo_out 200 with Some (s, tr) => length tr = 51%nat /\ bool_decide ((3%nat, ERet (RCount 11)) ∈ tr) = true | None => False end.
Proof. by vm_compute. Qed.

Lemma demo_blocked : match demo_out 80 with
  | Some (s, tr) => cb_step cb_header s 3 = None /\ (exists p, cthreads s !! 3%nat = Some p /\ p <> PIdle) /\ exists σ, spec_run spec_init tr = Some σ /\ size (sm σ) = 8%nat
  | None => False end.
Proof. vm_compute. split; [done|]. split; eexists; (split; [reflexivity|done]). Qed.

Lemma demo_take k : Forall choice_ok (take k demo_cb_schedule).
Proof. apply Forall_take, demo_choices. Qed.

Lemma cbtree_linearizable_witness :
  match demo_out 200 with
  | Some (s, tr) => length tr = 51%nat /\ (3%nat, ERet (RCount 11)) ∈ tr /\ exists σ, spec_run spec_init tr = Some σ /\ contents (cmem s) (sm σ)
  | None => False
  end.
Proof.
  pose proof demo_facts as H. destruct (demo_out 200) as [[s tr]|] eqn:E; [|done]. destruct H as [H1 H2]. split; [done|]. split; [by apply bool_decide_eq_true in H2|].
  exact (cbtree_linearizable 5 _ s tr (demo_take 200) E).
Defined.

Lemma cbtree_latching_witness :
  match demo_out 80 with Some (s, _) => cb_step cb_header s 3 = None /\ exists i, is_Some (cb_step cb_header s i) | None => False end.
Proof.
  pose proof demo_blocked as H. destruct (demo_out 80) as [[s tr]|] eqn:E; [|done]. destruct H as (Hb & (p & Hp & Hi) & σ & Hσ & Hsz). split; [exact Hb|].
  apply (cbtree_latching 5 _ s tr σ (demo_take 80) E Hσ); [rewrite Hsz; clear; by vm_compute|]. exists 3%nat, p. exact (conj Hp Hi).
Defined.

Lemma cbtree_stack_bound_witness :
  match demo_out 80 with Some (s, _) => exists p, cthreads s !! 3%nat = Some p /\ cb_next cb_header (cmem s) p <> Fault | None => False end.
Proof.
  pose proof demo_blocked as H. destruct (demo_out 80) as [[s tr]|] eqn:E; [|done]. destruct H as (Hb & (p & Hp & Hi) & σ & Hσ & Hsz). exists p. split; [exact Hp|].
  refine (proj1 (cbtree_stack_bound 5 (take 80 demo_cb_schedule) s tr σ (demo_take 80) E Hσ _ 3 p Hp)). rewrite Hsz. clear. by vm_compute.
Defined.
