(* ===== verification/VacuumStore.v ===== *)
(** * What VACUUM needs from heaps and indexes (src/src/db.c: vacuum_table, pidx_delete)

    Removing a record, compacting a page, cutting empty pages off the end of a file,
    and removing one entry of an index, with the laws the statement relies on; heap
    files over a buffer pool, the B+tree and the LSM engine discharge them. *)
From S2P Require Import Prelude Page Pager BufPool Heap Lsm Btree Row Storage.

(** ** Cutting a file *)

Class TruncStore (S : Type) := { st_truncate : S -> Z -> option S }.
Class TruncStoreLaws (S : Type) `{PageStoreLaws S} `{TruncStore S} := {
  law_truncate : forall (s : S) n, st_wf s -> 0 <= n < st_pages s ->
    exists s', st_truncate s n = Some s' /\ st_wf s' /\ st_pages s' = n /\ forall q, q < n -> st_read s' q = st_read s q }.

(** The return code of [pager_truncate] is ignored. *)
#[export] Instance pager_trunc : TruncStore Pager := { st_truncate d n := fst <$> pager_truncate d n }.

#[export] Instance pager_trunc_laws : TruncStoreLaws Pager.
Proof.
  split. intros d n Hwf Hn. cbn [st_truncate pager_trunc st_wf st_pages st_read Pager_store] in *.
  destruct (pager_truncate_spec d n Hwf ltac:(lia)) as (d' & -> & Hd). by exists d'.
Qed.

Section Heap.
Context {S : Type} `{PageStoreLaws S} `{!TruncStore S} `{!TruncStoreLaws S} (Hrel : reliable S).

(** Dropping the frames of the pages that are cut off, and the pages. *)
Lemma cut_idle (bp : BufferPool) (s s' : S) n : idle bp s -> st_wf s' -> (forall q, q < n -> st_read s' q = st_read s q) ->
  idle (bufpool_invalidate_from bp n) s' /\ forall q, q < n -> view (bufpool_invalidate_from bp n) s' q = view bp s q.
Proof.
  intros [Hi Hq Hz Hne] Hwf Hsame. set (g := invalidate (fun f => valid f && (n <=? page_id f)) true).
  assert (Hlk : forall i f', (g <$> frames bp) !! i = Some f' -> exists f, frames bp !! i = Some f /\ f' = g f).
  { intros i f' Hf'. rewrite list_lookup_fmap in Hf'. apply fmap_Some in Hf' as (f & Hf & ->). eauto. }
  assert (Hval : forall f, valid (g f) = true -> g f = f /\ page_id f < n).
  { intros f. unfold g, invalidate. destruct (valid f) eqn:Ev; cbn [andb]; [|by rewrite Ev]. destruct (Z.leb_spec n (page_id f)); done. }
  assert (Hi' : pool_inv nobody (g <$> frames bp) s').
  { split; [done| |].
    - intros i j f h Hf Hh Hvf Hvh Hp. destruct (Hlk _ _ Hf) as (f0 & Hf0 & ->), (Hlk _ _ Hh) as (h0 & Hh0 & ->).
      destruct (Hval _ Hvf) as [Ef _], (Hval _ Hvh) as [Eh _]. rewrite Ef in Hvf, Hp. rewrite Eh in Hvh, Hp. eauto using pi_dist.
    - intros i f' Hf'. destruct (Hlk _ _ Hf') as (f & Hf & ->). destruct (pi_frame _ _ _ Hi _ _ Hf) as (A & B & C & D & E).
      unfold g, invalidate. destruct (valid f && (n <=? page_id f)) eqn:Es.
      + split; [done|]. cbn. rewrite (Hq _ _ Hf). split; [done|]. done.
      + split; [done|]. split; [done|]. split; [done|]. split; [done|]. intros Hv Hp. rewrite Hsame; [by apply E|]. rewrite Hv in Es. cbn in Es. lia. }
  assert (Hid : idle (bufpool_invalidate_from bp n) s').
  { split; [done| | |].
    - intros i f' Hf'. destruct (Hlk _ _ Hf') as (f & Hf & ->). unfold g, invalidate. destruct (_ && _); cbn; eauto.
    - intros i f' Hf' _. destruct (Hlk _ _ Hf') as (f & Hf & ->). unfold g, invalidate. destruct (_ && _); cbn; [done|by eapply Hz].
    - cbn. intros Hnil. apply fmap_nil_inv in Hnil. done. }
  split; [done|]. intros q Hqn. unfold view. change (frames (bufpool_invalidate_from bp n)) with (g <$> frames bp).
  destruct (view_elim _ _ _ q Hi) as [(j & f & Hj & Hlg)|Hn].
  - rewrite (view_live _ _ _ _ _ _ Hi Hj Hlg). destruct Hlg as (Hv & Hp & Hpe).
    assert (Eg : g f = f). { unfold g, invalidate. rewrite Hv. cbn [andb]. destruct (Z.leb_spec n (page_id f)); [lia|done]. }
    apply (view_live nobody _ _ j); [done|by rewrite list_lookup_fmap, Hj; cbn; rewrite Eg|done].
  - rewrite (view_not_live _ _ _ _ Hi Hn). rewrite (view_not_live nobody _ _ _ Hi'); [by apply Hsame|].
    intros j f' Hj. destruct (Hlk _ _ Hj) as (f & Hf & ->). specialize (Hn j f Hf). intros Hl. apply Hn. pose proof (proj1 Hl) as Hv. destruct (Hval _ Hv) as [Eg _]. by rewrite Eg in Hl.
Qed.

Lemma cut_heap (bp : BufferPool) (s : S) (a : aheap) n : heap_rep 0 bp s a -> 0 <= n < blen a ->
  exists s', st_truncate s n = Some s' /\ st_pages s' = n /\ heap_rep 0 (bufpool_invalidate_from bp n) s' (take (Z.to_nat n) a).
Proof.
  intros Hr Hn. pose proof (hr_pages _ _ _ _ Hr) as Hp. destruct (law_truncate s n) as (s' & Ht & Hwf & Hpg & Hsame); [apply (id_inv _ _ (hr_idle _ _ _ _ Hr))|lia|].
  exists s'. split; [done|]. split; [done|]. destruct (cut_idle bp s s' n (hr_idle _ _ _ _ Hr) Hwf Hsame) as [Hid Hv]. split; [done|apply Hr|done| |].
  - rewrite Hpg. unfold blen in *. rewrite length_take. lia.
  - intros i p Hi. apply lookup_take_Some in Hi as [Hi Hlt]. destruct (hr_page _ _ _ _ Hr i p Hi) as (d & Hd & Hpd). exists d. split; [|done]. rewrite Hv by lia. done.
Qed.

(** ** Pages *)

(** The loop of [page_is_empty]: [n] slots remain, from [k] on. *)
Fixpoint empty_slots (page : bytes) (n : nat) (k : Z) : option bool :=
  match n with
  | O => Some true
  | Datatypes.S n => g ← slotpage_get page k; match g with Some _ => Some false | None => empty_slots page n (k + 1) end
  end.
Definition page_is_empty (page : bytes) : option bool := n ← slotpage_num_slots page; empty_slots page (Z.to_nat n) 0.

Definition no_rows (p : apage) : Prop := forall (i : nat) b, ap_recs p !! i <> Some (Some b).

Lemma empty_slots_spec d p n : forall k, page_refines d p -> Z.of_nat n + k = blen (ap_recs p) -> 0 <= k ->
  exists b, empty_slots d n k = Some b /\ (b = true <-> forall i : nat, k <= Z.of_nat i -> forall r, ap_recs p !! i <> Some (Some r)).
Proof.
  induction n as [|n IH]; intros k Hp Hl Hk; cbn [empty_slots].
  - exists true. split; [done|]. split; [|done]. intros _ i Hi r Hr. apply lookup_lt_Some in Hr. unfold blen in Hl. lia.
  - pose proof (page_lookup_abs d (ap_recs p) k (page_refines_abs _ _ Hp) Hk) as Hlk. unfold page_lookup in Hlk.
    pose proof Hp as (fe & slots & R & Hrecs & _). unfold slotpage_get in *. rewrite (pr_header _ _ _ R) in *. cbn [mbind option_bind] in *.
    assert (Hlen : blen slots = blen (ap_recs p)) by (rewrite Hrecs; unfold blen; by rewrite length_fmap). cbn [num_slots] in *.
    destruct (Z.leb_spec (blen slots) k) as [|Hlt]; [lia|]. destruct (lookup_lt_is_Some_2 slots (Z.to_nat k)) as [sl Hsl]; [unfold blen in Hlt; lia|].
    pose proof (pr_slots _ _ _ R _ _ Hsl) as Hat. rewrite Z2Nat.id in Hat by lia. rewrite Hat in *. cbn [mbind option_bind] in *.
    destruct (Z.eqb_spec (s_offset sl) 0) as [E0|E0].
    + destruct (IH (k + 1) Hp ltac:(lia) ltac:(lia)) as (b & -> & Hb). exists b. split; [done|]. rewrite Hb. split; intros Hall i Hi r Hr; [|apply (Hall i ltac:(lia) r Hr)].
      destruct (decide (Z.of_nat i = k)) as [<-|]; [|by apply (Hall i ltac:(lia) r)]. rewrite Nat2Z.id in Hlk. rewrite Hr in Hlk. done.
    + exists false. split; [done|]. split; [done|]. intros Hall. destruct (slot_rec_Some _ _ _ _ _ R Hsl E0) as (b & Hb & _). exfalso. apply (Hall (Z.to_nat k) ltac:(lia) b).
      by rewrite Hrecs, list_lookup_fmap, Hsl, <- Hb.
Qed.

Lemma page_is_empty_spec d p : page_refines d p -> exists b, page_is_empty d = Some b /\ (b = true <-> no_rows p).
Proof.
  intros Hp. pose proof Hp as (fe & slots & R & Hrecs & _). unfold page_is_empty, slotpage_num_slots. rewrite (pr_header _ _ _ R). cbn [mbind option_bind fmap option_fmap option_map].
  assert (Hlen : blen slots = blen (ap_recs p)) by (rewrite Hrecs; unfold blen; by rewrite length_fmap). cbn [num_slots].
  destruct (empty_slots_spec d p (Z.to_nat (blen slots)) 0 Hp) as (b & Hb & Hiff); [unfold blen in *; lia|lia|]. exists b. split; [exact Hb|]. rewrite Hiff. unfold no_rows.
  split; [intros Ha i r; apply Ha; lia|intros Ha i _ r; apply Ha].
Qed.

(** The page once fetched: compaction with the stack buffer [tmp], and the test whether
    it is empty. *)
Definition compact_page (h : BufferPool * S) (pid : Z) (tmp : bytes) : option (BufferPool * S) :=
  let '(bp, s, r) := bufpool_fetch h.1 h.2 pid in
  match r with
  | None => Some (bp, s)
  | Some i => page ← frame_data bp i; page ← slotpage_compact page tmp; Some (bufpool_unpin (frame_write bp i page) pid true, s)
  end.

Definition test_page (h : BufferPool * S) (pid : Z) : option (BufferPool * S * option bool) :=
  let '(bp, s, r) := bufpool_fetch h.1 h.2 pid in
  match r with
  | None => Some (bp, s, None)
  | Some i => page ← frame_data bp i; empty ← page_is_empty page; Some (bufpool_unpin bp pid false, s, Some empty)
  end.

Definition cut_pages (h : BufferPool * S) (n : Z) : option (BufferPool * S) :=
  let bp := bufpool_invalidate_from h.1 n in s ← st_truncate h.2 n; Some (bp, s).

Lemma compact_page_spec bp s a (i : nat) p tmp : heap_rep 0 bp s a -> a !! i = Some p -> blen tmp = PAGE_SIZE -> Forall is_byte tmp ->
  exists h', compact_page (bp, s) (Z.of_nat i) tmp = Some h' /\ heap_rep 0 h'.1 h'.2 (<[i := (aop p (OpCompact tmp)).1]> a).
Proof.
  intros Hr Hi Hl Hb. destruct (heap_access 0 _ _ _ _ _ Hrel Hr Hi) as (bp1 & s1 & k & d & Hf & Hfd & Hp & Hstep). rewrite Z.add_0_l in Hf, Hstep.
  unfold compact_page, bufpool_fetch. cbn [fst snd]. rewrite Hf, Hfd. cbn [mbind option_bind].
  destruct (cop_refines d p (OpCompact tmp) Hp (conj Hl Hb)) as (d' & p' & rc & Hc & Ha & Hp'). rewrite Ha. cbn [cop] in Hc.
  destruct (slotpage_compact d tmp) as [d1|]; [|done]. injection Hc as -> _. cbn [mbind option_bind fst]. eexists. split; [done|]. by apply Hstep.
Qed.

Lemma test_page_spec bp s a (i : nat) p : heap_rep 0 bp s a -> a !! i = Some p ->
  exists h' b, test_page (bp, s) (Z.of_nat i) = Some (h', Some b) /\ heap_rep 0 h'.1 h'.2 a /\ (b = true <-> no_rows p).
Proof.
  intros Hr Hi. destruct (heap_access 0 _ _ _ _ _ Hrel Hr Hi) as (bp1 & s1 & k & d & Hf & Hfd & Hp & Hstep). rewrite Z.add_0_l in Hf, Hstep.
  destruct (page_is_empty_spec d p Hp) as (b & Hb & Hiff). unfold test_page, bufpool_fetch. cbn [fst snd]. rewrite Hf, Hfd. cbn [mbind option_bind]. rewrite Hb. cbn [mbind option_bind].
  eexists _, b. split; [done|]. split; [|exact Hiff]. specialize (Hstep d p false Hp ltac:(done)). by rewrite list_insert_id, frame_write_same in Hstep.
Qed.
End Heap.

(** ** The interface *)

Class VacuumStore (H : Type) := {
  vs_delete : H -> RID -> option (H * Z);
  vs_compact : H -> Z -> bytes -> option H;
  vs_empty : H -> Z -> option (H * option bool);
  vs_pages : H -> Z;
  vs_cut : H -> Z -> option H }.

(** The rows without those of some addresses. *)
Definition drop_row (rid : RID) (rows : list (RID * bytes)) : list (RID * bytes) := filter (fun e => e.1 <> rid) rows.

Class VacuumStoreLaws (H : Type) `{RecordStoreLaws H} `{VacuumStore H} := {
  law_vs_pages : forall n h rows, rs_rep n h rows -> 0 <= vs_pages h /\ Forall (fun e => rid_page e.1 < vs_pages h) rows;
  law_vs_scan : forall C (visit : RID -> bytes -> C -> C * Z) n h rows ctx h' ctx' rc, rs_rep n h rows -> rs_scan visit h ctx = Some (h', ctx', rc) ->
    vs_pages h' = vs_pages h;
  law_vs_delete : forall n h rows rid, rs_rep n h rows -> rid ∈ rows.*1 ->
    exists h', vs_delete h rid = Some (h', 0) /\ rs_rep n h' (drop_row rid rows) /\ vs_pages h' = vs_pages h;
  law_vs_compact : forall n h rows pid tmp, rs_rep n h rows -> 0 <= pid < vs_pages h -> blen tmp = PAGE_SIZE -> Forall is_byte tmp ->
    exists h', vs_compact h pid tmp = Some h' /\ rs_rep n h' rows /\ vs_pages h' = vs_pages h;
  law_vs_empty : forall n h rows pid, rs_rep n h rows -> 0 <= pid < vs_pages h ->
    exists h' b, vs_empty h pid = Some (h', Some b) /\ rs_rep n h' rows /\ vs_pages h' = vs_pages h /\ (b = true <-> Forall (fun e => rid_page e.1 <> pid) rows);
  law_vs_cut : forall n h rows m, rs_rep n h rows -> 0 <= m < vs_pages h -> Forall (fun e => rid_page e.1 < m) rows ->
    exists h', vs_cut h m = Some h' /\ rs_rep n h' rows /\ vs_pages h' = m }.

(** ** The rows of an abstract heap *)

Lemma drop_row_app rid r1 r2 : drop_row rid (r1 ++ r2) = drop_row rid r1 ++ drop_row rid r2.
Proof. apply list.filter_app. Qed.

Lemma drop_row_ne rid rows : rid ∉ rows.*1 -> drop_row rid rows = rows.
Proof.
  unfold drop_row. induction rows as [|e rows IH]; intros Hn; [done|]. rewrite fmap_cons, elem_of_cons in Hn.
  rewrite filter_cons_True by (intros <-; auto). f_equal. apply IH. auto.
Qed.

Lemma drop_row_hit rid b rows : drop_row rid ((rid, b) :: rows) = drop_row rid rows.
Proof. unfold drop_row. by rewrite filter_cons_False by (cbn; naive_solver). Qed.

Lemma page_rows_drop_slot pid recs (i : nat) old : forall slot, recs !! i = Some (Some old) ->
  page_rows pid slot (<[i := None]> recs) = drop_row (mkRID pid (slot + Z.of_nat i)) (page_rows pid slot recs).
Proof.
  intros slot Hi. apply list_elem_of_split_length in Hi as (r1 & r2 & -> & ->).
  rewrite insert_app_r_alt, Nat.sub_diag by done. cbn [insert list_insert]. rewrite !page_rows_app, drop_row_app. cbn [page_rows].
  unfold blen. rewrite drop_row_hit.
  f_equal; symmetry; apply drop_row_ne; intros ([r b] & Hr & Hin)%list_elem_of_fmap; cbn in Hr; subst r;
    apply page_rows_elem in Hin as (j & Hj & [=]); [apply lookup_lt_Some in Hj; lia|unfold blen in *; lia].
Qed.

Lemma aheap_rows_drop (a : aheap) pid (j i : nat) p fr old : a !! j = Some p -> ap_recs p !! i = Some (Some old) ->
  aheap_rows pid (<[j := mkAPage (<[i := None]> (ap_recs p)) fr]> a) = drop_row (mkRID (pid + Z.of_nat j) (Z.of_nat i)) (aheap_rows pid a).
Proof.
  intros Hj Hi. apply list_elem_of_split_length in Hj as (a1 & a2 & -> & ->).
  rewrite insert_app_r_alt, Nat.sub_diag by done. cbn [insert list_insert]. rewrite !aheap_rows_app. cbn [aheap_rows ap_recs].
  rewrite !drop_row_app, (page_rows_drop_slot _ _ _ old) by done. f_equal; [|f_equal];
    symmetry; apply drop_row_ne; intros ([r b] & Hr & Hin)%list_elem_of_fmap; cbn in Hr; subst r;
    apply aheap_rows_elem in Hin as (k & ? & ? & Hk & _ & [=]); [apply lookup_lt_Some in Hk; lia|unfold blen in *; lia].
Qed.

Lemma aheap_rows_recs (a : aheap) pid (j : nat) p fr : a !! j = Some p -> aheap_rows pid (<[j := mkAPage (ap_recs p) fr]> a) = aheap_rows pid a.
Proof.
  intros Hj. apply list_elem_of_split_length in Hj as (a1 & a2 & -> & ->).
  rewrite insert_app_r_alt, Nat.sub_diag by done. cbn [insert list_insert]. by rewrite !aheap_rows_app.
Qed.

Lemma aheap_rows_take (a : aheap) (m : nat) : (forall e, e ∈ aheap_rows 0 a -> rid_page e.1 < Z.of_nat m) -> aheap_rows 0 (take m a) = aheap_rows 0 a.
Proof.
  intros Hlt. rewrite <- (take_drop m a) at 2. rewrite aheap_rows_app. destruct (aheap_rows (0 + blen (take m a)) (drop m a)) as [|[rid b] rest] eqn:E; [by rewrite app_nil_r|].
  assert (Hin : (rid, b) ∈ aheap_rows (0 + blen (take m a)) (drop m a)) by (rewrite E; left).
  assert (Hall : (rid, b) ∈ aheap_rows 0 a). { rewrite <- (take_drop m a), aheap_rows_app, elem_of_app. by right. }
  apply Hlt in Hall. apply aheap_rows_elem in Hin as (j & i & p & Hj & _ & ->). cbn in Hall.
  rewrite lookup_drop in Hj. apply lookup_lt_Some in Hj. unfold blen in Hall. rewrite length_take in Hall. lia.
Qed.

Section HeapVacuum.
Context {S : Type} `{PageStoreLaws S} `{!TruncStore S} `{!TruncStoreLaws S} (Hrel : reliable S).

#[export] Instance heap_vacuum : VacuumStore (heap_state (S := S)) := {
  vs_delete h rid := '(bp, s, rc) ← heap_delete h.1 h.2 rid; Some ((bp, s), rc);
  vs_compact := compact_page;
  vs_empty := test_page;
  vs_pages h := st_pages h.2;
  vs_cut := cut_pages }.

#[export] Instance heap_vacuum_laws : VacuumStoreLaws (H1 := heap_store_laws Hrel) heap_state.
Proof.
  split.
  - intros n h rows (a & Hr & -> & Hn). cbn [vs_pages heap_vacuum]. rewrite (hr_pages _ _ _ _ Hr). split; [pose proof (blen_nonneg a); lia|].
    apply list.Forall_forall. intros [rid rec] (j & i & p & Hj & _ & ->)%aheap_rows_elem. apply lookup_lt_Some in Hj. unfold blen. cbn. lia.
  - intros C visit n [bp s] rows ctx h' ctx' rc (a & Hr & -> & Hn) Hs. cbn [rs_scan heap_store fst snd] in *.
    destruct (heap_scan_spec visit 0 bp s a ctx Hrel Hr) as (bp' & s' & Hs' & Hr'). rewrite Hs' in Hs. injection Hs as <- _ _.
    cbn [vs_pages heap_vacuum snd]. by rewrite (hr_pages _ _ _ _ Hr'), (hr_pages _ _ _ _ Hr).
  - intros n [bp s] rows rid (a & Hr & -> & Hn) ([r b] & Hrid & (j & i & p & Hj & Hi & Er)%aheap_rows_elem)%list_elem_of_fmap. cbn in Hrid, Hr. subst r rid.
    pose proof (lookup_lt_Some _ _ _ Hi). destruct (hr_page _ _ _ _ Hr j p Hj) as (d & _ & Hp).
    assert (Hsl : blen (ap_recs p) < 65536). { destruct Hp as (fe & slots & R & -> & _). pose proof (pr_fe _ _ _ R). unfold PAGE_SIZE in *. rewrite blen_fmap. lia. }
    destruct (heap_update_spec 0 bp s a (mkRID (0 + Z.of_nat j) (Z.of_nat i)) (OpDelete (Z.of_nat i)) (fun d => slotpage_delete d (Z.of_nat i)) Hrel Hr)
      as (bp' & s' & He & Hr'); [cbn; lia|cbn; unfold blen in *; lia|done|left; eauto|].
    assert (Hup : aheap_update 0 a (mkRID (0 + Z.of_nat j) (Z.of_nat i)) (OpDelete (Z.of_nat i)) = (<[j := mkAPage (<[i := None]> (ap_recs p)) (ap_free p)]> a, 0)).
    { unfold aheap_update, aheap_page. cbn [rid_page]. rewrite (proj2 (Z.leb_le _ _)) by lia. replace (Z.to_nat (0 + Z.of_nat j - 0)) with j by lia.
      rewrite Hj. cbn [aop]. rewrite Nat2Z.id. destruct (Z.leb_spec (blen (ap_recs p)) (Z.of_nat i)); [unfold blen in *; lia|done]. }
    rewrite Hup in He, Hr'. cbn [fst snd] in He, Hr'. cbn [vs_delete heap_vacuum fst snd]. unfold heap_delete. cbn [rid_slot]. rewrite He. cbn [mbind option_bind].
    eexists. split; [done|]. assert (Hl : blen (<[j := mkAPage (<[i := None]> (ap_recs p)) (ap_free p)]> a) = blen a) by (unfold blen; by rewrite length_insert).
    split; [|cbn; by rewrite (hr_pages _ _ _ _ Hr'), (hr_pages _ _ _ _ Hr), Hl]. eexists. split; [exact Hr'|]. split; [|by rewrite Hl].
    symmetry. by apply (aheap_rows_drop a 0 j i p (ap_free p) b).
  - intros n [bp s] rows pid tmp (a & Hr & -> & Hn) Hpid Hl Hb. cbn [vs_pages vs_compact heap_vacuum snd] in *. cbn [fst snd] in Hr. rewrite (hr_pages _ _ _ _ Hr) in Hpid.
    destruct (lookup_lt_is_Some_2 a (Z.to_nat pid)) as [p Hp]; [unfold blen in Hpid; lia|].
    destruct (compact_page_spec Hrel bp s a _ p tmp Hr Hp Hl Hb) as (h' & Hc & Hr'). rewrite Z2Nat.id in Hc by lia. exists h'. split; [done|].
    set (a' := <[Z.to_nat pid := _]> a) in *. assert (Hla : blen a' = blen a) by (unfold a', blen; by rewrite length_insert).
    split; [|cbn; by rewrite (hr_pages _ _ _ _ Hr'), (hr_pages _ _ _ _ Hr), Hla]. exists a'. split; [done|]. split; [|by rewrite Hla].
    symmetry. by apply aheap_rows_recs.
  - intros n [bp s] rows pid (a & Hr & -> & Hn) Hpid. cbn [vs_pages vs_empty heap_vacuum snd] in *. cbn [fst snd] in Hr. rewrite (hr_pages _ _ _ _ Hr) in Hpid.
    destruct (lookup_lt_is_Some_2 a (Z.to_nat pid)) as [p Hp]; [unfold blen in Hpid; lia|].
    destruct (test_page_spec Hrel bp s a _ p Hr Hp) as (h' & b & Hc & Hr' & Hiff). rewrite Z2Nat.id in Hc by lia. exists h', b. split; [done|].
    split; [by exists a|]. split; [by rewrite (hr_pages _ _ _ _ Hr'), (hr_pages _ _ _ _ Hr)|]. rewrite Hiff, list.Forall_forall. split.
    + intros Hno [rid rec] (j & i & p' & Hj & Hi & ->)%aheap_rows_elem. cbn. intros E. replace j with (Z.to_nat pid) in Hj by lia. rewrite Hp in Hj. injection Hj as <-. by apply (Hno i rec).
    + intros Hall i rec Hi. apply (Hall (mkRID pid (Z.of_nat i), rec)); [|done]. apply aheap_rows_elem. exists (Z.to_nat pid), i, p. split; [done|]. split; [done|]. f_equal. lia.
  - intros n [bp s] rows m (a & Hr & -> & Hn) Hm Hall. cbn [vs_pages vs_cut heap_vacuum snd] in *. cbn [fst snd] in Hr. rewrite (hr_pages _ _ _ _ Hr) in Hm.
    destruct (cut_heap bp s a m Hr ltac:(lia)) as (s' & Ht & Hp & Hr'). unfold cut_pages. cbn [fst snd]. rewrite Ht. cbn [mbind option_bind].
    eexists. split; [done|]. split; [|done]. exists (take (Z.to_nat m) a). split; [done|]. rewrite aheap_rows_take.
    + split; [done|]. unfold blen in *. rewrite length_take. lia.
    + rewrite list.Forall_forall in Hall. intros e He. specialize (Hall e He). cbn in Hall. lia.
Qed.
End HeapVacuum.

(** ** Removing one entry of an index *)

Class IndexDelete (I : Type) := { ix_delete : I -> Z -> Z -> option I }.

Class IndexDeleteLaws (I : Type) `{MultiIndexLaws I} `{IndexDelete I} := {
  law_ix_delete : forall n i L k v, ix_rep (S n) i L -> is_i64 k -> is_i64 v -> (k, v) ∈ L ->
    exists i' L', ix_delete i k v = Some i' /\ L ≡ₚ (k, v) :: L' /\ ix_rep n i' L' }.

#[export] Instance btree_del : IndexDelete BTree := { ix_delete bt k v := fst <$> btree_delete_val bt k v }.

#[export] Instance btree_del_laws : IndexDeleteLaws BTree.
Proof.
  split. intros n bt L k v Hrep _ _ Hin. pose proof (law_ix_mono (S n) n bt L Hrep ltac:(lia)) as (h & Hr & Hn). clear Hrep.
  destruct (btree_delete_ok false h bt L k v Hr) as (bt' & rc & L' & Hd & Hr' & Hp & Hm & [(_ & _ & _ & Hni)|(_ & L1 & L2 & -> & _ & ->)]); [done|].
  cbn [ix_delete btree_del]. rewrite Hd. exists bt', (L1 ++ L2). split; [done|]. split; [by rewrite Permutation_middle|]. exists h. rewrite Hp, Hm. done.
Qed.

#[export] Instance lsm_del : IndexDelete (LSM * Dir) := { ix_delete i k v := let '(l, d, _) := lsm_delete_val i.1 i.2 k v in Some (l, d) }.

#[export] Instance lsm_del_laws : IndexDeleteLaws (LSM * Dir).
Proof.
  split. intros n [l d] L k v (q & A & lim & He & Hq & Hnd & HA & H64) Hk Hv Hin. cbn [fst snd] in He.
  pose proof (exec_step q A true lim l d (LDeleteVal k v) He ltac:(lia) ltac:(done)) as Hx. cbn [lsm_exec] in Hx.
  cbn [ix_delete lsm_del fst snd]. destruct (lsm_delete_val l d k v) as [[l' d'] rc]. destruct Hx as [He' _].
  apply elem_of_Permutation in Hin as [L' HL]. exists (l', d'), L'. split; [done|]. split; [done|]. rewrite HL in Hnd. apply list.NoDup_cons in Hnd as [Hni Hnd].
  eexists _, _, lim. split; [exact He'|]. split; [lia|]. split; [done|]. split.
  - intros k' v'. cbn [lspec]. destruct (decide ((k', v') = (k, v))) as [[= -> ->]|Hne]; [rewrite lookup_delete_eq; naive_solver|].
    rewrite lookup_delete_ne by congruence. rewrite <- HA, HL, elem_of_cons. naive_solver.
  - rewrite HL in H64. by apply list.Forall_cons in H64 as [_ H64].
Qed.

Definition pidx_remove (t : Pidx) (key val : Z) : option Pidx :=
  match t with
  | PLsm l d => let '(l, d, _) := lsm_delete_val l d key val in Some (PLsm l d)
  | PBtree bt => '(bt, _) ← btree_delete_val bt key val; Some (PBtree bt)
  end.

Definition pidx_delete (t : Pidx) (key : Z) (rid : RID) : option Pidx := pidx_remove t key (rid_encode rid).

#[export] Instance pidx_del : IndexDelete Pidx := { ix_delete := pidx_remove }.

#[export] Instance pidx_del_laws : IndexDeleteLaws Pidx.
Proof.
  split. intros n [bt|l d] L k v Hr Hk Hv Hin; cbn [ix_delete pidx_del pidx_remove].
  - destruct (law_ix_delete n bt L k v Hr Hk Hv Hin) as (bt' & L' & Hd & Hp & Hr'). cbn [ix_delete btree_del] in Hd.
    destruct (btree_delete_val bt k v) as [[b rc]|]; [|done]. injection Hd as ->. by exists (PBtree bt'), L'.
  - destruct (law_ix_delete n (l, d) L k v Hr Hk Hv Hin) as ([l' d'] & L' & Hd & Hp & Hr'). cbn [ix_delete lsm_del fst snd] in Hd.
    destruct (lsm_delete_val l d k v) as [[l1 d1] rc]. injection Hd as -> ->. by exists (PLsm l' d'), L'.
Qed.
