(* ===== verification/Vacuum.v ===== *)
(** * VACUUM (src/src/db.c: vacuum_table, exec_vacuum)

    The versions deleted by committed transactions are removed from the indexes and
    the heap, their pages are compacted, and the empty pages at the end of the file are
    cut off.  [vacuum_correct]: the statement leaves exactly the other versions, on
    every table it reaches; [vacuum_invisible]: no session, now or after any statements,
    could have seen the versions it removes. *)
From stdpp Require Import strings.
From S2P Require Import Prelude Page Pager BufPool Heap Lsm Btree SqlLex SqlParse Row Where Storage Lock Mvcc Txn Exec Statements Join VacuumStore.

(** ** Operations *)

Record DeadRef := mkDead { d_rid : RID; d_pk : option Z; d_sk : list (option Z) }.

Definition int_key (v : Value) : option Z := match v with VAL_INT k => Some k | _ => None end.

Section Operations.
Context {H I J : Type} `{RecordStore H} `{VacuumStore H} `{MultiIndex I} `{IndexDelete I} `{MultiIndex J} `{IndexDelete J}.

Fixpoint dead_keys (secs : list (SecIndex J)) (row : list Value) : option (list (option Z)) :=
  match secs with
  | [] => Some []
  | s :: secs => v ← row !! sec_col s; ks ← dead_keys secs row; Some (int_key v :: ks)
  end.

Definition dead_ref (t : Table H I J) (row : list Value) (rid : RID) : option DeadRef :=
  pk ← (if has_index t then v ← row !! 0%nat; Some (int_key v) else Some None);
  sk ← dead_keys (t_sec t) row;
  Some (mkDead rid pk sk).

Definition vacuum_collect_visit (db : Database) (t : Table H I J) (rid : RID) (rec : bytes) (ctx : option (list DeadRef)) : option (list DeadRef) * Z :=
  (dead ← ctx;
   xmax ← db_rec_xmax rec;
   if rec_dead db xmax then
     row ← decode_row (t_schema t) rec;
     e ← dead_ref t row rid;
     Some (dead ++ [e])
   else Some dead, 0).

Fixpoint unindex_secs (secs : list (SecIndex J)) (ks : list (option Z)) (rid : RID) : option (list (SecIndex J)) :=
  match secs, ks with
  | s :: secs, k :: ks =>
      s ← match k with
          | Some k => b ← ix_delete (sec_tree s) k (rid_encode rid); Some (mkSec (sec_name s) (sec_col s) b)
          | None => Some s
          end;
      secs ← unindex_secs secs ks rid;
      Some (s :: secs)
  | _, _ => Some secs
  end.

Definition unindex_dead (t : Table H I J) (e : DeadRef) : option (Table H I J) :=
  t ← match d_pk e with
      | Some k => i ← ix_delete (t_index t) k (rid_encode (d_rid e)); Some (with_index t i)
      | None => Some t
      end;
  secs ← unindex_secs (t_sec t) (d_sk e) (d_rid e);
  Some (with_sec t secs).

Fixpoint unindex_all (t : Table H I J) (dead : list DeadRef) : option (Table H I J) :=
  match dead with
  | [] => Some t
  | e :: dead => t ← unindex_dead t e; unindex_all t dead
  end.

Fixpoint delete_dead (h : H) (rids : list RID) : option H :=
  match rids with
  | [] => Some h
  | rid :: rids => '(h, _) ← vs_delete h rid; delete_dead h rids
  end.

(** [prev] is the page of the record before; [tmp] stands for the buffer of
    [slotpage_compact]. *)
Fixpoint compact_dead (h : H) (prev : option Z) (rids : list RID) (tmp : bytes) : option H :=
  match rids with
  | [] => Some h
  | rid :: rids =>
      if decide (prev = Some (rid_page rid)) then compact_dead h (Some (rid_page rid)) rids tmp
      else h ← vs_compact h (rid_page rid) tmp; compact_dead h (Some (rid_page rid)) rids tmp
  end.

(** The number of pages that remain of the first [n]; the heap starts at page 0. *)
Fixpoint tail_pages (h : H) (n : nat) : option (H * nat) :=
  match n with
  | O => Some (h, O)
  | S m => '(h, empty) ← vs_empty h (Z.of_nat m); match empty with Some true => tail_pages h m | _ => Some (h, n) end
  end.

(** With the numbers the statement reports: versions and pages. *)
Definition vac_table (db : Database) (t : Table H I J) (tmp : bytes) : option (Table H I J * (nat * Z)) :=
  '(h, dead, _) ← rs_scan (vacuum_collect_visit db t) (t_heap t) (Some []);
  dead ← dead;
  t ← unindex_all (with_heap t h) dead;
  h ← delete_dead (t_heap t) (d_rid <$> dead);
  h ← compact_dead h None (d_rid <$> dead) tmp;
  let np := vs_pages h in
  '(h, new_np) ← tail_pages h (Z.to_nat np);
  let new_np := Z.of_nat new_np in
  h ← (if new_np <? np then vs_cut h new_np else Some h);
  Some (with_heap t h, (length dead, np - new_np)).

Fixpoint vac_tables (db : Database) (ts : list (Table H I J)) (tmp : bytes) : option (list (Table H I J) * list (nat * Z)) :=
  match ts with
  | [] => Some ([], [])
  | t :: ts => '(t, r) ← vac_table db t tmp; '(ts, rs) ← vac_tables db ts tmp; Some (t :: ts, r :: rs)
  end.

(** The body of the statement; an empty name means all tables. *)
Definition vac_stmt (db : Database) (ts : list (Table H I J)) (name : bytes) (tmp : bytes) : option (list (Table H I J) * Z * list (nat * Z)) :=
  if existsb in_txn (sessions db) then Some (ts, -1, [])
  else match name with
       | [] => '(ts, rs) ← vac_tables db ts tmp; Some (ts, 0, rs)
       | _ => match find_table ts name with
              | None => Some (ts, -1, [])
              | Some i => t ← ts !! i; '(t, r) ← vac_table db t tmp; Some (<[i := t]> ts, 0, [r])
              end
       end.
End Operations.

(** ** What it does *)

Definition dead_version (db : Database) (v : Version) : Prop := rec_dead db (v_xmax v) = true.

#[export] Instance dead_version_dec db v : Decision (dead_version db v).
Proof. unfold dead_version. apply _. Defined.

Definition dead (db : Database) (vs : list Version) : list Version := filter (dead_version db) vs.
Definition survivors (db : Database) (vs : list Version) : list Version := filter (fun v => ~ dead_version db v) vs.

(** The versions at other addresses. *)
Definition without (rids : list RID) (vs : list Version) : list Version := filter (fun v => v_rid v ∉ rids) vs.

Section Correct.
Context {H I J : Type} `{VacuumStoreLaws H} `{IndexDeleteLaws I} `{IndexDeleteLaws J}.
Implicit Types (t : Table H I J) (vs : list Version).

(** *** Collecting *)

(** What the statement notes of a version. *)
Definition noted (pk : bool) (cols : list nat) (v : Version) : DeadRef :=
  mkDead (v_rid v) (if pk then fst <$> key_of 0 v else None) ((fun col => fst <$> key_of col v) <$> cols).

Lemma key_of_int col v x : v_row v !! col = Some x -> fst <$> key_of col v = int_key x.
Proof. intros Hx. unfold key_of. rewrite Hx. by destruct x. Qed.

Lemma dead_ref_noted t v : shape_ok (shape t) -> length (v_row v) = length (c_columns (t_schema t)) ->
  dead_ref t (v_row v) (v_rid v) = Some (noted (has_index t) (sec_col <$> t_sec t) v).
Proof.
  intros (_ & Hpk & Hsec) Hl. cbn [shape sh_schema sh_pk sh_sec] in *. unfold dead_ref, noted.
  assert (Hks : dead_keys (t_sec t) (v_row v) = Some ((fun col => fst <$> key_of col v) <$> (sec_col <$> t_sec t))).
  { rewrite Forall_fmap in Hsec. induction (t_sec t) as [|s secs IH]; [done|]. apply list.Forall_cons in Hsec as [Hs Hsec]. cbn in Hs.
    cbn [dead_keys]. destruct (lookup_lt_is_Some_2 (v_row v) (sec_col s)) as [x Hx]; [by rewrite Hl|]. rewrite Hx. cbn [mbind option_bind].
    rewrite IH by done. cbn [mbind option_bind]. rewrite !fmap_cons. by rewrite (key_of_int _ _ _ Hx). }
  rewrite Hks. destruct (has_index t) eqn:E; cbn [mbind option_bind]; [|done].
  destruct (lookup_lt_is_Some_2 (v_row v) 0) as [x Hx]; [rewrite Hl; auto|]. rewrite Hx. cbn [mbind option_bind]. by rewrite (key_of_int _ _ _ Hx).
Qed.

Lemma collect_dead_fold db t vs rows : shape_ok (shape t) -> Forall2 (stores (t_schema t)) vs rows -> forall acc,
  foldl (fun c e => (vacuum_collect_visit db t e.1 e.2 c).1) (Some acc) rows =
  Some (acc ++ (noted (has_index t) (sec_col <$> t_sec t) <$> dead db vs)).
Proof.
  intros Hs. induction 1 as [|v e vs rows Hv Hst IH]; intros acc; [by rewrite app_nil_r|].
  cbn [foldl]. unfold vacuum_collect_visit at 2. cbn [fst mbind option_bind]. pose proof Hs as [Hok _].
  pose proof (stores_decode _ _ _ Hok Hv) as Hd. destruct Hv as (Hrid & Hr & (Hm & _) & Hmin & Hmax).
  destruct (row_rep_head _ _ _ _ _ Hr Hmin Hmax) as [_ Ex]. rewrite Ex. cbn [mbind option_bind]. unfold dead. rewrite filter_cons.
  destruct (rec_dead db (v_xmax v)) eqn:Ed.
  - cbn [sh_schema shape] in Hd. rewrite Hd, Hrid. cbn [mbind option_bind]. rewrite dead_ref_noted by (done || by apply matches_row_length). cbn [mbind option_bind].
    rewrite IH, decide_True, fmap_cons by done. by rewrite <- app_assoc.
  - rewrite decide_False by (unfold dead_version; congruence). apply IH.
Qed.

(** *** The indexes *)

Lemma indexed_remove {K} `{IndexDeleteLaws K} n (i : K) col v vs vs' k : vs ≡ₚ v :: vs' -> indexed (S n) i col vs ->
  v_row v !! col = Some (VAL_INT k) -> is_i32 k -> exists i', ix_delete i k (rid_encode (v_rid v)) = Some i' /\ indexed n i' col vs'.
Proof.
  intros Hp (L & Hr & HL) Hk Hk32.
  assert (Hkeys : keys_of col vs ≡ₚ (k, rid_encode (v_rid v)) :: keys_of col vs').
  { unfold keys_of. rewrite Hp. cbn [omap list_omap]. unfold key_of at 1. by rewrite Hk. }
  destruct (law_ix_delete n i L k (rid_encode (v_rid v)) Hr (i32_i64 _ Hk32) (rid_encode_i64 _)) as (i' & L' & Hd & HL' & Hr').
  { rewrite HL, Hkeys. left. }
  exists i'. split; [done|]. exists L'. split; [done|]. apply (Permutation_cons_inv (a := (k, rid_encode (v_rid v)))). by rewrite <- HL', HL.
Qed.

Lemma indexed_keep {K} `{MultiIndexLaws K} n (i : K) col v vs vs' : vs ≡ₚ v :: vs' -> indexed (S n) i col vs -> key_of col v = None -> indexed n i col vs'.
Proof.
  intros Hp Hi Hk. eapply indexed_mono; [|eapply indexed_keys; [|exact Hi]]; [lia|]. unfold keys_of. rewrite Hp. cbn [omap list_omap]. by rewrite Hk.
Qed.

(** One lookup in the noted keys decides which. *)
Lemma indexed_drop {K} `{IndexDeleteLaws K} n (i : K) col v vs vs' : vs ≡ₚ v :: vs' -> indexed (S n) i col vs -> Forall int_ok (v_row v) ->
  exists i', match fst <$> key_of col v with Some k => ix_delete i k (rid_encode (v_rid v)) | None => Some i end = Some i' /\ indexed n i' col vs'.
Proof.
  intros Hp Hi Hint. destruct (key_of col v) as [[k x]|] eqn:Ek; cbn [fmap option_fmap option_map fst].
  - unfold key_of in Ek. destruct (v_row v !! col) as [[z|s|]|] eqn:Ev; try done. injection Ek as -> <-.
    exact (indexed_remove n i col v vs vs' k Hp Hi Ev (Forall_lookup_1 _ _ _ _ Hint Ev)).
  - exists i. split; [done|]. by apply (indexed_keep n i col v vs).
Qed.

Lemma unindex_secs_spec n (secs : list (SecIndex J)) v vs vs' : vs ≡ₚ v :: vs' -> Forall int_ok (v_row v) ->
  Forall (fun s => indexed (S n) (sec_tree s) (sec_col s) vs) secs ->
  exists secs', unindex_secs secs ((fun col => fst <$> key_of col v) <$> (sec_col <$> secs)) (v_rid v) = Some secs' /\
    Forall (fun s => indexed n (sec_tree s) (sec_col s) vs') secs' /\
    (fun s => (sec_name s, sec_col s)) <$> secs' = (fun s => (sec_name s, sec_col s)) <$> secs.
Proof.
  intros Hp Hint. induction 1 as [|s secs Hs _ (secs' & He & Hi & Hsh)]; [by exists []|]. rewrite !fmap_cons. cbn [unindex_secs].
  destruct (indexed_drop n (sec_tree s) (sec_col s) v vs vs' Hp Hs Hint) as (b & Hb & Hib).
  destruct (fst <$> key_of (sec_col s) v) as [k|]; [|injection Hb as <-].
  - rewrite Hb. cbn [mbind option_bind]. rewrite He. eexists. split; [done|]. split; [by constructor|]. by rewrite fmap_cons, Hsh.
  - cbn [mbind option_bind]. rewrite He. eexists. split; [done|]. split; [by constructor|]. by rewrite fmap_cons, Hsh.
Qed.

Lemma unindex_dead_spec n t v vs vs' : vs ≡ₚ v :: vs' -> Forall int_ok (v_row v) -> indexes_hold (S n) t vs ->
  exists t', unindex_dead t (noted (has_index t) (sec_col <$> t_sec t) v) = Some t' /\ shape t' = shape t /\ t_heap t' = t_heap t /\ indexes_hold n t' vs'.
Proof.
  intros Hp Hint [Hi1 Hi2]. destruct (unindex_secs_spec n (t_sec t) v vs vs' Hp Hint Hi2) as (secs' & Hs & Hsi & Hsh).
  unfold unindex_dead, noted. cbn [d_pk d_sk d_rid]. destruct (has_index t) eqn:E.
  - destruct (indexed_drop n (t_index t) 0 v vs vs' Hp (Hi1 eq_refl) Hint) as (i' & Hd & Hi').
    destruct (fst <$> key_of 0 v) as [k|]; [|injection Hd as <-]; rewrite ?Hd; cbn [mbind option_bind t_sec with_index]; rewrite Hs; cbn [mbind option_bind];
      (eexists; split; [done|]; unfold shape; cbn; rewrite Hsh; split; [done|]; split; [done|]; by split).
  - cbn [mbind option_bind]. rewrite Hs. cbn [mbind option_bind]. eexists. split; [done|]. unfold shape. cbn. rewrite Hsh. split; [done|]. split; [done|].
    split; [cbn; by rewrite E|done].
Qed.

Lemma shape_keys t t' : shape t' = shape t -> has_index t' = has_index t /\ sec_col <$> t_sec t' = sec_col <$> t_sec t.
Proof.
  unfold shape. intros [= _ Hi Hs]. split; [done|]. apply (f_equal (fmap snd)) in Hs. by rewrite <- !list_fmap_compose in Hs.
Qed.

Lemma unindex_all_spec n ds : forall t vs', Forall (fun v => Forall int_ok (v_row v)) ds -> indexes_hold (length ds + n) t (ds ++ vs') ->
  exists t', unindex_all t (noted (has_index t) (sec_col <$> t_sec t) <$> ds) = Some t' /\ shape t' = shape t /\ t_heap t' = t_heap t /\ indexes_hold n t' vs'.
Proof.
  induction ds as [|v ds IH]; intros t vs' Hint Hi; [by exists t|]. apply list.Forall_cons in Hint as [Hv Hint].
  destruct (unindex_dead_spec (length ds + n) t v (v :: ds ++ vs') (ds ++ vs') ltac:(done) Hv Hi) as (t1 & Hd & Hsh & Hh & Hi1).
  rewrite fmap_cons. cbn [unindex_all]. rewrite Hd. cbn [mbind option_bind]. destruct (shape_keys _ _ Hsh) as [<- <-].
  destruct (IH t1 vs' Hint Hi1) as (t2 & Ha & Hsh2 & Hh2 & Hi2). exists t2. split; [done|]. split; [congruence|]. split; [congruence|done].
Qed.

(** *** The heap *)

Definition drop_rows (rids : list RID) (rows : list (RID * bytes)) : list (RID * bytes) := filter (fun e => e.1 ∉ rids) rows.

Lemma drop_rows_nil rows : drop_rows [] rows = rows.
Proof. unfold drop_rows. induction rows as [|e rows IH]; [done|]. rewrite filter_cons_True, IH by (by intros ?%elem_of_nil). done. Qed.

Lemma drop_rows_cons rid rids rows : drop_rows rids (drop_row rid rows) = drop_rows (rid :: rids) rows.
Proof. unfold drop_rows, drop_row. rewrite list_filter_filter. apply list_filter_iff. intros e. rewrite not_elem_of_cons. naive_solver. Qed.

Lemma stores_without schema rids vs rows : Forall2 (stores schema) vs rows -> Forall2 (stores schema) (without rids vs) (drop_rows rids rows).
Proof.
  unfold without, drop_rows. induction 1 as [|v e vs rows Hv _ IH]; [constructor|]. rewrite !filter_cons. destruct Hv as [E Hv]. rewrite E.
  destruct (decide (v_rid v ∉ rids)); [constructor; [by split|done]|done].
Qed.

Lemma delete_dead_spec n rids : forall h rows, rs_rep n h rows -> NoDup rids -> rids ⊆ rows.*1 ->
  exists h', delete_dead h rids = Some h' /\ rs_rep n h' (drop_rows rids rows) /\ vs_pages h' = vs_pages h.
Proof.
  induction rids as [|rid rids IH]; intros h rows Hr Hnd Hin; [exists h; by rewrite drop_rows_nil|]. apply list.NoDup_cons in Hnd as [Hn Hnd].
  destruct (law_vs_delete n h rows rid Hr) as (h1 & Hd & Hr1 & Hp1); [set_solver|]. cbn [delete_dead]. rewrite Hd. cbn [mbind option_bind].
  destruct (IH h1 _ Hr1 Hnd) as (h2 & Hd2 & Hr2 & Hp2).
  { intros r Hr'. destruct (proj1 (list_elem_of_fmap _ _ _) (Hin r ltac:(by right))) as (e & -> & He). apply list_elem_of_fmap. exists e. split; [done|].
    apply list_elem_of_filter. split; [|done]. intros E. apply Hn. by rewrite <- E. }
  exists h2. rewrite drop_rows_cons in Hr2. split; [done|]. split; [done|congruence].
Qed.

Lemma compact_dead_spec n tmp rids : blen tmp = PAGE_SIZE -> Forall is_byte tmp -> forall h rows prev, rs_rep n h rows ->
  Forall (fun rid => 0 <= rid_page rid < vs_pages h) rids ->
  exists h', compact_dead h prev rids tmp = Some h' /\ rs_rep n h' rows /\ vs_pages h' = vs_pages h.
Proof.
  intros Hl Hb. induction rids as [|rid rids IH]; intros h rows prev Hr Hall; [by exists h|]. apply list.Forall_cons in Hall as [Hp Hall]. cbn [compact_dead].
  destruct (decide _); [by apply IH|]. destruct (law_vs_compact n h rows (rid_page rid) tmp Hr Hp Hl Hb) as (h1 & Hc & Hr1 & Hp1). rewrite Hc. cbn [mbind option_bind].
  destruct (IH h1 rows (Some (rid_page rid)) Hr1) as (h2 & Hc2 & Hr2 & Hp2); [by rewrite Hp1|]. exists h2. split; [done|]. split; [done|congruence].
Qed.

(** The last page that remains holds a row. *)
Definition tail_full (m : Z) (rids : list RID) : Prop := Forall (fun rid => rid_page rid < m) rids /\ (m = 0 \/ exists rid, rid ∈ rids /\ rid_page rid = m - 1).

Lemma tail_pages_spec n m : forall h rows, rs_rep n h rows -> Z.of_nat m <= vs_pages h -> Forall (fun rid => rid_page rid < Z.of_nat m) rows.*1 ->
  exists h' m', tail_pages h m = Some (h', m') /\ (m' <= m)%nat /\ rs_rep n h' rows /\ vs_pages h' = vs_pages h /\ tail_full (Z.of_nat m') rows.*1.
Proof.
  induction m as [|m IH]; intros h rows Hr Hm Hall; [exists h, 0%nat; split; [done|]; split; [lia|]; split; [done|]; split; [done|]; split; [done|by left]|].
  assert (Hrange : 0 <= Z.of_nat m < vs_pages h) by lia. destruct (law_vs_empty n h rows (Z.of_nat m) Hr Hrange) as (h1 & b & He & Hr1 & Hp1 & Hb). cbn [tail_pages]. rewrite He. cbn [mbind option_bind]. destruct b.
  - destruct (IH h1 rows Hr1) as (h2 & m' & Ht & Hle & Hr2 & Hp2 & Hf); [lia| |].
    { apply Forall_fmap. apply list.Forall_forall. intros e Hin. rewrite Forall_fmap, list.Forall_forall in Hall. specialize (Hall e Hin).
      pose proof (proj1 (list.Forall_forall _ _) (proj1 Hb eq_refl) e Hin) as Hne. cbn in *. lia. }
    exists h2, m'. split; [done|]. split; [lia|]. split; [done|]. split; [congruence|done].
  - exists h1, (S m). split; [done|]. split; [lia|]. split; [done|]. split; [done|]. split; [done|]. right.
    assert (Hex : ~ Forall (fun e : RID * bytes => rid_page e.1 <> Z.of_nat m) rows) by (intros Hf; by apply Hb in Hf).
    apply not_Forall_Exists in Hex; [|intros e; apply _]. apply list.Exists_exists in Hex as (e & Hin & Hpe). exists e.1. split; [by apply list_elem_of_fmap_2|].
    destruct (decide (rid_page e.1 = Z.of_nat m)) as [E|]; [rewrite E; lia|done].
Qed.

(** Cutting, when there is something to cut. *)
Lemma cut_spec n h rows m : rs_rep n h rows -> 0 <= m <= vs_pages h -> Forall (fun rid => rid_page rid < m) rows.*1 ->
  exists h', (if m <? vs_pages h then vs_cut h m else Some h) = Some h' /\ rs_rep n h' rows /\ vs_pages h' = m.
Proof.
  intros Hr Hm Hall. rewrite Forall_fmap in Hall. destruct (Z.ltb_spec m (vs_pages h)) as [Hlt|Hge].
  - apply law_vs_cut; [done|lia|done].
  - exists h. split; [done|]. split; [done|lia].
Qed.

(** *** The table *)

Lemma without_dead db vs : NoDup (v_rid <$> vs) -> without (v_rid <$> dead db vs) vs = survivors db vs.
Proof.
  intros Hnd. unfold without, survivors. apply filter_ext_elem. intros v Hv. split.
  - intros Hn Hd. apply Hn. apply list_elem_of_fmap_2. by apply list_elem_of_filter.
  - intros Hnd' (w & Hw & Hin)%list_elem_of_fmap. apply list_elem_of_filter in Hin as [Hd Hin]. apply Hnd'.
    assert (v = w) as ->; [|done]. apply list_elem_of_lookup in Hv as [i Hi]. apply list_elem_of_lookup in Hin as [j Hj].
    assert (i = j); [|congruence]. eapply (NoDup_lookup (v_rid <$> vs)); [done|rewrite list_lookup_fmap, Hi; done|rewrite list_lookup_fmap, Hj; cbn; by rewrite Hw].
Qed.

Lemma dead_survivors db vs : vs ≡ₚ dead db vs ++ survivors db vs.
Proof. symmetry. apply filter_app_complement. Qed.

Lemma survivors_rids db vs : v_rid <$> survivors db vs ⊆ v_rid <$> vs.
Proof. intros r (v & -> & Hv)%list_elem_of_fmap. apply list_elem_of_filter in Hv as [_ Hv]. by apply list_elem_of_fmap_2. Qed.

Lemma table_rep_intro sh n t vs rows : shape t = sh -> shape_ok sh -> rs_rep n (t_heap t) rows -> Forall2 (stores (sh_schema sh)) vs rows ->
  indexes_hold n t vs -> table_rep sh n t vs.
Proof. intros Hs Hok Hr Hst Hi. split; [done|]. split; [done|]. split; [by exists rows|done]. Qed.

(** The heap's part: deletion, compaction and truncation. *)
Lemma vacuum_heap n h rows rids tmp : rs_rep n h rows -> NoDup rids -> rids ⊆ rows.*1 -> blen tmp = PAGE_SIZE -> Forall is_byte tmp ->
  exists h1 h2 h3 m h4, delete_dead h rids = Some h1 /\ compact_dead h1 None rids tmp = Some h2 /\ vs_pages h2 = vs_pages h /\
    tail_pages h2 (Z.to_nat (vs_pages h2)) = Some (h3, m) /\ (if Z.of_nat m <? vs_pages h2 then vs_cut h3 (Z.of_nat m) else Some h3) = Some h4 /\
    rs_rep n h4 (drop_rows rids rows) /\ vs_pages h4 = Z.of_nat m /\ Z.of_nat m <= vs_pages h /\ tail_full (Z.of_nat m) (drop_rows rids rows).*1.
Proof.
  intros Hr Hnd Hin Hl Hb. destruct (law_vs_pages n h rows Hr) as [Hp0 Hpages].
  destruct (delete_dead_spec n rids h rows Hr Hnd Hin) as (h1 & Hd & Hr1 & Hp1).
  destruct (compact_dead_spec n tmp rids Hl Hb h1 _ None Hr1) as (h2 & Hc & Hr2 & Hp2).
  { destruct (law_rs_rows n h rows Hr) as [_ Hrow]. apply list.Forall_forall. intros rid (e & -> & He)%Hin%list_elem_of_fmap. rewrite Hp1.
    rewrite list.Forall_forall in Hpages, Hrow. destruct (Hrow e He) as ((? & _) & _). specialize (Hpages e He). cbn in Hpages. split; done. }
  destruct (law_vs_pages n h2 _ Hr2) as [_ Hpages2].
  destruct (tail_pages_spec n (Z.to_nat (vs_pages h2)) h2 _ Hr2) as (h3 & m & Ht & Hm & Hr3 & Hp3 & Hf); [lia|rewrite Z2Nat.id by lia; by apply Forall_fmap|].
  assert (Hmr : 0 <= Z.of_nat m <= vs_pages h3) by lia.
  destruct (cut_spec n h3 _ (Z.of_nat m) Hr3 Hmr (proj1 Hf)) as (h4 & Hcut & Hr4 & Hp4).
  exists h1, h2, h3, m, h4. rewrite <- Hp3. split; [done|]. split; [done|]. split; [congruence|]. split; [by rewrite Hp3|]. split; [done|]. split; [done|]. split; [done|]. split; [|done].
  rewrite <- Hp1, <- Hp2, <- Hp3. lia.
Qed.

Lemma vac_table_spec db sh n t vs tmp : table_rep sh (length (dead db vs) + n) t vs -> blen tmp = PAGE_SIZE -> Forall is_byte tmp ->
  exists t' freed, vac_table db t tmp = Some (t', (length (dead db vs), freed)) /\ table_rep sh n t' (survivors db vs) /\
    0 <= freed /\ vs_pages (t_heap t') = vs_pages (t_heap t) - freed /\ tail_full (vs_pages (t_heap t')) (v_rid <$> survivors db vs).
Proof.
  intros Hrep Hl Hb. pose proof (table_rids _ _ _ _ Hrep) as [Hnd _]. pose proof Hrep as (Hsh & Hok & (rows0 & Hr0 & _) & _).
  assert (Hs : t_schema t = sh_schema sh) by (by rewrite <- Hsh).
  destruct (scan_spec (fun rid rec c => (vacuum_collect_visit db t rid rec c).1) sh _ t vs (Some []) Hrep) as (h0 & rows & Hscan & Hst & Hrep0).
  rewrite <- Hs in Hst. rewrite (collect_dead_fold db t vs rows) in Hscan by (done || by rewrite Hsh). rewrite app_nil_l in Hscan.
  pose proof (law_vs_scan _ _ _ _ _ _ _ _ _ Hr0 Hscan) as Hp0. destruct Hrep0 as (Hsh0 & _ & (rows1 & Hr1 & Hst1) & Hi).
  cbn [t_heap with_heap] in Hr1. set (ds := dead db vs) in *. set (rids := v_rid <$> ds).
  assert (Hrids : d_rid <$> (noted (has_index t) (sec_col <$> t_sec t) <$> ds) = rids) by (unfold rids; by rewrite <- list_fmap_compose).
  assert (Hdr : rids ⊆ rows1.*1).
  { rewrite <- (stores_rids _ _ _ Hst1). intros r (v & -> & Hv)%list_elem_of_fmap. apply list_elem_of_filter in Hv as [_ Hv]. by apply list_elem_of_fmap_2. }
  assert (Hdn : NoDup rids) by (eapply sublist_NoDup; [exact Hnd|]; apply fmap_sublist, sublist_filter).
  destruct (vacuum_heap _ h0 rows1 rids tmp Hr1 Hdn Hdr Hl Hb) as (h1 & h2 & h3 & m & h4 & Hd & Hc & Hp2 & Ht & Hcut & Hr4 & Hp4 & Hle & Hf).
  destruct (unindex_all_spec n ds (with_heap t h0) (survivors db vs)) as (t1 & Hu & Hsh1 & Hh1 & Hi1).
  { apply list.Forall_forall. intros v Hv. apply list_elem_of_filter in Hv as [_ Hv]. destruct (stores_elem _ _ _ _ Hst1 Hv) as (rec & _ & _ & _ & (_ & _ & Hint) & _). done. }
  { eapply indexes_keys; [|exact Hi]. intros col. unfold keys_of. f_equiv. symmetry. apply dead_survivors. }
  pose proof (stores_without _ rids _ _ Hst1) as Hst4. assert (Hwo : without rids vs = survivors db vs) by by apply without_dead. rewrite Hwo in Hst4.
  exists (with_heap t1 h4), (vs_pages h2 - Z.of_nat m). split.
  { unfold vac_table. change (rs_scan (vacuum_collect_visit db t)) with (rs_scan (fun rid rec c => ((vacuum_collect_visit db t rid rec c).1, 0))).
    rewrite Hscan. cbn [mbind option_bind]. cbn [has_index t_sec with_heap] in Hu. rewrite Hu. cbn [mbind option_bind]. cbn [t_heap with_heap] in Hh1. rewrite Hh1, Hrids, Hd. cbn [mbind option_bind].
    rewrite Hc. cbn [mbind option_bind]. rewrite Ht. cbn [mbind option_bind]. rewrite Hcut. cbn [mbind option_bind]. by rewrite length_fmap. }
  split; [|split; [lia|split; [cbn [t_heap with_heap]; lia|]]].
  - apply (table_rep_intro sh n _ _ (drop_rows rids rows1)); [|done| |done|exact Hi1].
    + unfold shape in *. cbn in *. congruence.
    + cbn. by apply (law_rs_mono (length ds + n)); [|lia].
  - cbn [t_heap with_heap]. rewrite Hp4. by rewrite (stores_rids _ _ _ Hst4).
Qed.

(** *** The statement *)

(** What one table [t] with contents [c] becomes, and what is reported for it. *)
Definition vacuumed (db : Database) (n : nat) (c : Shape * list Version) (t t' : Table H I J) (r : nat * Z) : Prop :=
  table_rep c.1 n t' (survivors db c.2) /\ r = (length (dead db c.2), vs_pages (t_heap t) - vs_pages (t_heap t')) /\ 0 <= r.2 /\
  tail_full (vs_pages (t_heap t')) (v_rid <$> survivors db c.2).

Definition vacuum_ready (db : Database) (n : nat) (t : Table H I J) (c : Shape * list Version) : Prop :=
  table_rep c.1 (length (dead db c.2) + n) t c.2.

Lemma vac_table_done db n t c tmp : vacuum_ready db n t c -> blen tmp = PAGE_SIZE -> Forall is_byte tmp ->
  exists t' r, vac_table db t tmp = Some (t', r) /\ vacuumed db n c t t' r.
Proof.
  intros Hr Hl Hb. destruct (vac_table_spec db c.1 n t c.2 tmp Hr Hl Hb) as (t' & freed & Hv & Hrep & Hf & Hp & Ht).
  exists t', (length (dead db c.2), freed). split; [done|]. split; [done|]. split; [f_equal; lia|]. by split.
Qed.

Lemma vac_tables_spec db n tmp ts cs : Forall2 (vacuum_ready db n) ts cs -> blen tmp = PAGE_SIZE -> Forall is_byte tmp ->
  exists ts' rs, vac_tables db ts tmp = Some (ts', rs) /\ length ts' = length ts /\ length rs = length ts /\
    forall (i : nat) t c, ts !! i = Some t -> cs !! i = Some c -> exists t' r, ts' !! i = Some t' /\ rs !! i = Some r /\ vacuumed db n c t t' r.
Proof.
  intros Hall Hl Hb. induction Hall as [|t c ts cs Hr _ (ts' & rs & Hv & Hlt & Hlr & Hi)]; [exists [], []; by split|].
  destruct (vac_table_done db n t c tmp Hr Hl Hb) as (t' & r & Ht & Hd). cbn [vac_tables]. rewrite Ht. cbn [mbind option_bind]. rewrite Hv. cbn [mbind option_bind].
  exists (t' :: ts'), (r :: rs). split; [done|]. split; [cbn; lia|]. split; [cbn; lia|]. intros [|i] u d Hu Hc; [|by apply Hi].
  injection Hu as <-. injection Hc as <-. by exists t', r.
Qed.

Lemma find_table_lt (ts : list (Table H I J)) name i : find_table ts name = Some i -> is_Some (ts !! i).
Proof.
  revert i. induction ts as [|t ts IH]; intros i Hf; [done|]. cbn [find_table] in Hf. destruct (decide _); [injection Hf as <-; by eexists|].
  apply fmap_Some in Hf as (j & Hj & ->). by apply IH.
Qed.

(** C20. VACUUM: refused when any session is in a transaction or the table does not exist;
    otherwise every table it reaches holds exactly the versions no committed
    transaction has deleted, in the heap and in all its indexes, it reports the number
    of the others and of the pages it returned, and the last page left in the file has
    a row.  Each version removed uses one of the index's spare sequence numbers. *)
Theorem vacuum_correct db n ts cs name tmp : Forall2 (vacuum_ready db n) ts cs -> blen tmp = PAGE_SIZE -> Forall is_byte tmp ->
  if existsb in_txn (sessions db) then vac_stmt db ts name tmp = Some (ts, -1, [])
  else match name with
       | [] => exists ts' rs, vac_stmt db ts name tmp = Some (ts', 0, rs) /\ length ts' = length ts /\ length rs = length ts /\
           forall (i : nat) t c, ts !! i = Some t -> cs !! i = Some c -> exists t' r, ts' !! i = Some t' /\ rs !! i = Some r /\ vacuumed db n c t t' r
       | _ => match find_table ts name with
              | None => vac_stmt db ts name tmp = Some (ts, -1, [])
              | Some i => exists t c t' r, ts !! i = Some t /\ cs !! i = Some c /\ vac_stmt db ts name tmp = Some (<[i := t']> ts, 0, [r]) /\ vacuumed db n c t t' r
              end
       end.
Proof.
  intros Hall Hl Hb. unfold vac_stmt. destruct (existsb _ _); [done|]. destruct name as [|b name].
  - destruct (vac_tables_spec db n tmp ts cs Hall Hl Hb) as (ts' & rs & Hv & Hres). rewrite Hv. cbn [mbind option_bind]. by exists ts', rs.
  - destruct (find_table ts (b :: name)) as [i|] eqn:E; [|done]. destruct (find_table_lt _ _ _ E) as [t Ht].
    destruct (Forall2_lookup_l _ _ _ _ _ Hall Ht) as (c & Hc & Hr). destruct (vac_table_done db n t c tmp Hr Hl Hb) as (t' & r & Hv & Hd).
    rewrite Ht. cbn [mbind option_bind]. rewrite Hv. cbn [mbind option_bind]. by exists t, c, t', r.
Qed.
End Correct.

(** ** Nobody misses what it removes *)

(** The state in which [db_exec] runs the body of a statement that it commits itself. *)
Definition auto_begin (db : Database) : Database :=
  with_cur_txn (with_txnlog (with_next_txn db (next_txn db + 1)) (txnlog_begin (txnlog db) (next_txn db))) (next_txn db).

Lemma vacuum_body db t o : in_txn (cur db) = false ->
  (db_exec db (STMT_VACUUM t) o).2 = (exec_body (auto_begin db) (STMT_VACUUM t) o).2.
Proof.
  intros Hc. unfold db_exec. cbn [is_write is_create]. rewrite Hc. cbn [negb orb acquire_stmt_locks Z.eqb].
  fold (auto_begin db). by destruct (exec_body (auto_begin db) _ o).
Qed.

(** Only ids that were issued are committed. *)
Lemma log_fresh_core db db' : db_inv db -> core_step db db' -> (forall x, next_txn db <= x -> txnlog_status (txnlog db) x <> TXN_COMMITTED) ->
  forall x, next_txn db' <= x -> txnlog_status (txnlog db') x <> TXN_COMMITTED.
Proof.
  intros Hi Hc Hf x. destruct Hc as [Hs Hn Hlog|Hs Hn Hlog|s0 H0 Hc0 Hs Hn Hlog|s0 st H0 Hc0 Hs Hn Hlog]; rewrite Hn; intros Hx.
  - rewrite Hlog. auto.
  - rewrite Hlog by lia. apply Hf. lia.
  - rewrite Hlog. unfold txnlog_begin. rewrite txnlog_status_set_ne by lia. apply Hf. lia.
  - destruct (di_open _ Hi _ _ H0 Hc0) as (H1 & H2 & _). rewrite Hlog, txnlog_status_set_ne by lia. auto.
Qed.

Lemma log_fresh catalog db : rtc db_step (db_open catalog) db -> forall x, next_txn db <= x -> txnlog_status (txnlog db) x <> TXN_COMMITTED.
Proof.
  intros Hr. pose proof (db_open_inv catalog) as Hi. assert (H0 : forall x, next_txn (db_open catalog) <= x -> txnlog_status (txnlog (db_open catalog)) x <> TXN_COMMITTED).
  { intros x _. cbn [txnlog db_open]. unfold txnlog_status. case_match; [|done]. cbn. done. }
  revert Hi H0. induction Hr as [|a b c Hab Hbc IH]; [done|]. intros Hi H0.
  pose proof (db_step_inv _ _ Hi Hab) as Hib. apply IH; [done|]. destruct Hab as (st & o & rc & He). destruct (db_exec_core _ _ _ _ _ (di_wf _ Hi) He) as (Hc & _ & _).
  exact (log_fresh_core a b Hi Hc H0).
Qed.

(** A settled id is below every open snapshot and in none, if that was so before. *)
Definition past (db : Database) (x : Z) : Prop :=
  settled db x /\ forall k s, sessions db !! k = Some s -> in_txn s = true -> x < snap_next s /\ x ∉ snap_inprog s.

Lemma in_progress_open db x : x ∈ others_in_progress db -> exists k, open_txn db k x.
Proof.
  unfold others_in_progress. intros ([i s] & Hin & He)%list_elem_of_omap. apply list_elem_of_lookup in Hin as [j Hj]. rewrite list_lookup_imap in Hj.
  apply fmap_Some in Hj as (s' & Hs & [= -> ->]). destruct (negb _ && in_txn s') eqn:E; [|done]. apply andb_true_iff in E as [_ Eo]. injection He as <-. by exists j, s'.
Qed.

Lemma past_core db db' x : db_inv db -> core_step db db' -> past db x -> past db' x.
Proof.
  intros Hi Hc [Hs Hsnap]. split; [by destruct (settled_core _ _ _ Hi Hc Hs)|]. intros k s Hk Ho. destruct Hs as [Hx Hno].
  destruct Hc as [Hs Hn Hlog|Hs Hn Hlog|s0 H0 Hc0 Hs Hn Hlog|s0 st H0 Hc0 Hs Hn Hlog]; rewrite Hs in Hk; [by eapply Hsnap..| |];
    (destruct (decide (k = cur_session db)) as [->|Hne];
      [rewrite list_lookup_insert_eq in Hk by (by eapply lookup_lt_Some); injection Hk as <-|rewrite list_lookup_insert_ne in Hk by done; by eapply Hsnap]); [|done].
  cbn. split; [lia|]. intros Hin. destruct (in_progress_open _ _ Hin) as [j Hj]. by eapply Hno.
Qed.

Lemma past_steps db db' x : db_inv db -> rtc db_step db db' -> past db x -> past db' x.
Proof.
  intros Hi Hr. induction Hr as [|a b c Hab Hbc IH]; [done|]. intros Hp. pose proof (db_step_inv _ _ Hi Hab) as Hib.
  destruct Hab as (st & o & rc & He). destruct (db_exec_core _ _ _ _ _ (di_wf _ Hi) He) as (Hc & _ & _). apply IH; [done|]. exact (past_core _ _ _ Hi Hc Hp).
Qed.

Lemma no_open db : existsb in_txn (sessions db) = false -> forall k s, sessions db !! k = Some s -> in_txn s = false.
Proof.
  intros Hn k s Hk. apply Bool.not_true_iff_false. intros Ho. apply Bool.not_true_iff_false in Hn. apply Hn. apply existsb_exists. exists s. split; [|done].
  apply list_elem_of_In. by eapply list_elem_of_lookup_2.
Qed.

(** A committed id counts as committed in every session from then on. *)
Lemma past_committed db db' k x : db_inv db -> rtc db_step db db' -> past db x -> txnlog_status (txnlog db) x = TXN_COMMITTED -> 0 < x ->
  txn_committed_view (with_cur_session db' k) x = true.
Proof.
  intros Hi Hr Hp Hc Hx. pose proof (past_steps _ _ _ Hi Hr Hp) as [_ Hsnap]. destruct (settled_steps _ _ _ Hi Hr (proj1 Hp)) as [_ Hlog].
  unfold txn_committed_view. cbn [committed_below txnlog with_cur_session]. rewrite Hlog, Hc. destruct (Z.leb_spec x 0); [lia|]. destruct (_ <? _); [done|].
  rewrite decide_False by (intros Hn; by apply Hn). change (cur (with_cur_session db' k)) with (session db' k). destruct (in_txn (session db' k)) eqn:Eo; [|done].
  unfold session in *. destruct (sessions db' !! k) as [s|] eqn:Ek; [|done]. cbn in *. destruct (Hsnap k s Ek Eo) as [Hlt Hni].
  destruct (Z.leb_spec (snap_next s) x); [lia|]. by rewrite bool_decide_eq_false_2.
Qed.

Lemma dead_stays catalog db db' k xmin xmax : rtc db_step (db_open catalog) db -> existsb in_txn (sessions db) = false ->
  rec_dead (auto_begin db) xmax = true -> rtc db_step db db' -> view db' k xmin xmax = false.
Proof.
  intros H0 Hno Hd Hr. pose proof (db_steps_inv _ _ (db_open_inv catalog) H0) as Hi. unfold rec_dead in Hd. apply andb_true_iff in Hd as [Hx0 Hc].
  assert (Hcv : txn_committed_view (with_cur_session db' k) xmax = true).
  { unfold txn_committed_view in Hc. cbn [committed_below txnlog auto_begin with_cur_txn with_txnlog with_next_txn] in Hc.
    destruct (Z.leb_spec xmax 0) as [|Hpos]; [done|]. destruct (Z.ltb_spec xmax (committed_below db)) as [Hlt|Hge].
    - unfold txn_committed_view. cbn [committed_below with_cur_session]. rewrite (committed_below_steps _ _ Hi Hr).
      destruct (Z.leb_spec xmax 0); [lia|]. by rewrite (proj2 (Z.ltb_lt _ _) Hlt).
    - destruct (decide (xmax = next_txn db)) as [->|Hne].
      { exfalso. unfold txnlog_begin in Hc. destruct (decide (0 < next_txn db < TXN_MAX)); [rewrite txnlog_status_set_eq in Hc by done|rewrite txnlog_status_oob in Hc by done]; by rewrite decide_True in Hc. }
      unfold txnlog_begin in Hc. rewrite txnlog_status_set_ne in Hc by done. destruct (decide _) as [|Hst]; [done|].
      assert (Hst' : txnlog_status (txnlog db) xmax = TXN_COMMITTED) by (destruct (txnlog_status (txnlog db) xmax); naive_solver).
      apply (past_committed db); try done. split.
      + split; [|intros j (s & Hj & Ho & _); by rewrite (no_open db Hno j s Hj) in Ho].
        destruct (decide (next_txn db <= xmax)); [|lia]. by destruct (log_fresh catalog db H0 xmax).
      + intros j s Hj Ho. by rewrite (no_open db Hno j s Hj) in Ho. }
  unfold view, row_visible. rewrite Hx0, Hcv. cbn [andb]. rewrite orb_true_r. by case_match.
Qed.

(** C40. VACUUM is invisible: the statement runs only when no session is in a transaction,
    and then no session, at that moment or after any sequence of statements of any
    sessions, sees a different set of rows because the versions it removes are gone. *)
Theorem vacuum_invisible (catalog : option (Z * list string)) (db db' : Database) (k : nat) (vs : list Version) :
  rtc db_step (db_open catalog) db -> existsb in_txn (sessions db) = false -> rtc db_step db db' ->
  filter (fun v => view db' k (v_xmin v) (v_xmax v) = true) (survivors (auto_begin db) vs) =
  filter (fun v => view db' k (v_xmin v) (v_xmax v) = true) vs.
Proof.
  intros H0 Hno Hr. unfold survivors. rewrite list_filter_filter. apply list_filter_iff. intros v. split; [by intros [? _]|]. intros Hv. split; [done|].
  intros Hd. unfold dead_version in Hd. by rewrite (dead_stays catalog db db' k _ _ H0 Hno Hd Hr) in Hv.
Qed.

(** ** Concrete runs *)

Section Demo.
#[local] Instance vacuum_store_laws : RecordStoreLaws (BufferPool * Pager) := heap_store_laws pager_reliable.
#[local] Instance vacuum_heap_laws : VacuumStoreLaws (BufferPool * Pager) := heap_vacuum_laws pager_reliable.

(** Transaction 3 inserts four rows; two of them, or all, are deleted; the database is
    closed and opened again. *)
Definition dead_hist (op : CmpOp) : list (Database * Stmt) := take 4 demo_hist ++ [(txn_db 3, SDelete (by_col "id" op 6))].
Definition half_dead : Table (BufferPool * Pager) Pidx BTree := hist_table (dead_hist CMP_EQ).
Definition all_dead : Table (BufferPool * Pager) Pidx BTree := hist_table (dead_hist CMP_EQ ++ [(txn_db 3, SDelete (by_col "id" CMP_GT 0))]).
Definition vacuum_db : Database := auto_begin (db_open (Some (10, []))).

Lemma dead_ready hist : Forall stmt_fits hist -> (length hist <= 8)%nat -> exists c, vacuum_ready vacuum_db 0 (hist_table hist) c.
Proof.
  intros Hf Hl. destruct (hist_table_rep hist (8 * DML_MAX_ROWS) Hf) as (vs & Hr & Hlen); [unfold DML_MAX_ROWS; lia|].
  exists (shape (empty_table true), vs). unfold vacuum_ready. cbn [fst snd]. eapply table_rep_mono; [|exact Hr]. rewrite Nat.add_0_r.
  unfold dead. rewrite length_filter. unfold DML_MAX_ROWS in *. lia.
Qed.

Lemma vacuum_correct_witness : exists c1 c2 t1 t2,
  vac_stmt vacuum_db [half_dead; all_dead] [] (zeros PAGE_SIZE) = Some ([t1; t2], 0, [(2%nat, 0); (4%nat, 1)]) /\
  vacuumed vacuum_db 0 c1 half_dead t1 (2%nat, 0) /\ vacuumed vacuum_db 0 c2 all_dead t2 (4%nat, 1) /\ vs_pages (t_heap t2) = 0.
Proof.
  destruct (dead_ready (dead_hist CMP_EQ)) as [c1 H1]; [apply (bool_decide_unpack _); vm_compute; reflexivity|vm_compute; lia|].
  destruct (dead_ready (dead_hist CMP_EQ ++ [(txn_db 3, SDelete (by_col "id" CMP_GT 0))])) as [c2 H2]; [apply (bool_decide_unpack _); vm_compute; reflexivity|vm_compute; lia|].
  destruct zeros_page_buf as [Hl Hb].
  assert (Hr : Forall2 (vacuum_ready vacuum_db 0) [half_dead; all_dead] [c1; c2]) by (constructor; [exact H1|constructor; [exact H2|constructor]]).
  pose proof (vacuum_correct vacuum_db 0 [half_dead; all_dead] [c1; c2] [] (zeros PAGE_SIZE) Hr Hl Hb) as Hv.
  assert (Hout : (fun x => (length x.1.1, x.2, (fun t : Table (BufferPool * Pager) Pidx BTree => vs_pages (t_heap t)) <$> x.1.1)) <$> vac_stmt vacuum_db [half_dead; all_dead] [] (zeros PAGE_SIZE) =
    Some (2%nat, [(2%nat, 0); (4%nat, 1)], [1; 0])) by (vm_compute; reflexivity).
  assert (Hn : existsb in_txn (sessions vacuum_db) = false) by (vm_compute; reflexivity). rewrite Hn in Hv.
  destruct Hv as (ts' & rs & He & _ & _ & Hall). rewrite He in Hout. cbn [fmap option_fmap option_map fst snd] in Hout. injection Hout as Hts -> Hp.
  destruct ts' as [|t1 [|t2 [|]]]; try discriminate Hts. injection Hp as _ Hp2. exists c1, c2, t1, t2.
  destruct (Hall 0%nat half_dead c1 eq_refl eq_refl) as (t1' & r1 & E1 & R1 & Hd1). destruct (Hall 1%nat all_dead c2 eq_refl eq_refl) as (t2' & r2 & E2 & R2 & Hd2).
  injection E1 as <-. injection R1 as <-. injection E2 as <-. injection R2 as <-. split; [exact He|]. split; [exact Hd1|]. split; [exact Hd2|exact Hp2].
Defined.

(** Statements of two sessions after a reopening; versions are given by their stamps. *)
Lemma vacuum_invisible_witness :
  let v xmin xmax := mkVer (mkRID 0 0) xmin xmax [] in
  let db := db_open (Some (10, [])) in
  let db' := run db [(STMT_CREATE "t", Done); (STMT_BEGIN, Done); (STMT_SESSION 1, Done); (STMT_INSERT "t", Done)] in
  survivors (auto_begin db) [v 2 0; v 2 3; v 3 12] = [v 2 0; v 3 12] /\
  filter (fun v => view db' 0 (v_xmin v) (v_xmax v) = true) (survivors (auto_begin db) [v 2 0; v 2 3; v 3 12]) =
  filter (fun v => view db' 0 (v_xmin v) (v_xmax v) = true) [v 2 0; v 2 3; v 3 12].
Proof.
  intros v db db'. split; [vm_compute; reflexivity|].
  apply (vacuum_invisible (Some (10, [])) db db' 0 [v 2 0; v 2 3; v 3 12]); [apply rtc_refl|vm_compute; reflexivity|apply run_steps].
Defined.
End Demo.
