(* ===== verification/TableTxn.v ===== *)
(** * Storage transactions of a table (src/src/db.c: table_begin_write, wal_flush_commit, txn_commit_tables, txn_abort_tables)

    A table writes through buffer pools over write-ahead logs: one pair for the data
    file and one for each B+tree.  The log is the page store of the pool ([Wal_store]);
    a transaction turns stealing through the log on, commits by staging the dirty
    frames, and rolls back by undoing the log and dropping the frames.  The theorems
    join what [BufPool] shows about pools over lawful stores to what [Wal] shows about
    logs. *)
From S2P Require Import Prelude Page Pager BufPool Wal.

(** ** The log as the store under a pool *)

#[export] Instance Wal_store : PageStore Wal := {
  st_read := wal_read;
  st_write w p d := let '(dt, ok) := pager_put (w_data w) p d in (with_data w dt, ok);
  st_alloc w := let '(dt, r) := pager_new (w_data w) in (with_data w dt, r);
  st_steal w p d := let '(w, rc) := wal_steal w p d in (w, rc =? 0);
  st_pages w := num_pages (w_data w);
  st_wf w := pager_wf (w_data w) }.

(** Writers of the log leave the data file alone. *)
Lemma write_all_data w b : w_data (write_all w b).1 = w_data w.
Proof. unfold write_all. by destruct (pwrite _ _ _). Qed.

Lemma and_then_data (r : Wal * bool) g d : w_data r.1 = d -> (forall w, w_data w = d -> w_data (g w).1 = d) -> w_data (and_then r g).1 = d.
Proof. destruct r as [w ok]. cbn. intros Hr Hg. destruct ok; [by apply Hg|done]. Qed.

Lemma write_hdr_data w ty : w_data (write_hdr w ty).1 = w_data w.
Proof.
  unfold write_hdr. apply and_then_data; [by rewrite write_all_data|]. intros w1 E. apply and_then_data; [by rewrite write_all_data|done].
Qed.

Lemma steal_log_data w p : w_data (and_then (steal_log_begin w) (fun w => steal_log_undo w p)).1 = w_data w.
Proof.
  apply and_then_data.
  - unfold steal_log_begin. destruct (stole w); [done|]. apply and_then_data; [apply write_hdr_data|]. intros w1 E.
    apply and_then_data; [by rewrite write_all_data|]. by intros w2 E2.
  - intros w1 E. unfold steal_log_undo. destruct (spilled_contains w1 p); [done|]. apply and_then_data; [|by intros w2 E2].
    destruct (p <? base_pages w1); [|done]. destruct (pager_page _ _); [|done]. apply and_then_data; [by rewrite write_hdr_data|]. intros w2 E2.
    apply and_then_data; [by rewrite write_all_data|]. intros w3 E3. by rewrite write_all_data.
Qed.

#[export] Instance Wal_store_laws : PageStoreLaws Wal.
Proof.
  assert (Hput : forall (w : Wal) p d, pager_wf (w_data w) -> page_ok d -> is_Some (wal_read w p) ->
    writes_page w p d (with_data w (pager_put (w_data w) p d).1, (pager_put (w_data w) p d).2)).
  { intros w p d Hwf Hd Hp. exact (law_write (S := Pager) (w_data w) p d Hwf Hd Hp). }
  split.
  - intros w p Hwf. exact (law_pages (S := Pager) (w_data w) p Hwf).
  - intros w Hwf. exact (law_pages_nonneg (S := Pager) (w_data w) Hwf).
  - intros w p d Hwf Hp. exact (law_read (S := Pager) (w_data w) p d Hwf Hp).
  - intros w p d Hwf Hd Hp. cbn [st_write Wal_store]. specialize (Hput w p d Hwf Hd Hp). by destruct (pager_put _ _ _).
  - intros w p d Hwf Hd Hp. cbn [st_steal Wal_store]. unfold wal_steal. pose proof (steal_log_data w p) as E.
    destruct (and_then _ _) as [w1 ok]. cbn [fst] in E. destruct ok.
    + assert (Hp1 : is_Some (wal_read (sync_log w1) p)) by (unfold wal_read; cbn [w_data sync_log]; by rewrite E).
      assert (Hwf1 : pager_wf (w_data (sync_log w1))) by (cbn [w_data sync_log]; by rewrite E).
      specialize (Hput (sync_log w1) p d Hwf1 Hd Hp1). destruct (pager_put _ _ _) as [dt okp].
      cbn [fst snd] in Hput. destruct Hput as (A & B & C & D). replace ((if okp then 0 else -1) =? 0) with okp by (by destruct okp).
      split; [done|]. split; [|done]. intros q Hq. rewrite (B q Hq). cbn [st_read Wal_store]. unfold wal_read. cbn [w_data sync_log]. by rewrite E.
    + change (-1 =? 0) with false. unfold writes_page. cbn [fst snd st_wf st_read Wal_store] in *. unfold wal_read in *. by rewrite E.
  - intros w Hwf. pose proof (law_alloc (S := Pager) (w_data w) Hwf) as Ha. cbn [st_alloc Wal_store Pager_store] in *. by destruct (pager_new (w_data w)) as [dt [p|]].
Qed.

(** ** What a pool does to its store *)

(** With stealing through the log on, the only changes are steals, at most one per
    access, and allocations. *)
Section Keeps.
Context {S : Type} `{PageStoreLaws S} (P : nat -> S -> Prop).
Hypotheses (Pmono : forall k s, P (Datatypes.S k) s -> P k s).
Hypotheses (Psteal : forall k s p d, P (Datatypes.S k) s -> is_Some (st_read s p) -> page_ok d -> P k (st_steal s p d).1).
Hypotheses (Palloc : forall k s, P k s -> P k (st_alloc s).1).

Definition through_log (bp : BufferPool) : Prop := no_steal bp = true /\ steal bp = true.

Lemma pick_frame_keeps k bp s bp' s' r : pool_inv nobody (frames bp) s -> BufPool.quiet (frames bp) -> through_log bp -> P (Datatypes.S k) s ->
  pick_frame bp s = (bp', s', r) -> P k s' /\ through_log bp'.
Proof.
  intros Hi Hq [Hn Hs] HP. unfold pick_frame. destruct (first_index _ (frames bp)) as [i|] eqn:Ef; [intros [= <- <- <-]; split; [by apply Pmono|by split]|].
  pose proof (find_victim_spec bp) as Hv. destruct (find_victim bp) as [[i v]|]; [|intros [= <- <- <-]; split; [by apply Pmono|by split]]. destruct Hv as (Hv & _).
  pose proof (first_index_None _ _ Ef _ _ Hv) as Hval%negb_false_iff. destruct (pi_frame _ _ _ Hi _ _ Hv) as (A & B & C & D & E).
  destruct (E Hval (Hq _ _ Hv)) as [Hrd _]. rewrite Hn, Hs. cbn [andb]. destruct (dirty v); [|intros [= <- <- <-]; split; [by apply Pmono|by split]].
  pose proof (Psteal k s (page_id v) (data v) HP Hrd A) as HP'. destruct (st_steal s (page_id v) (data v)) as [s1 ok].
  destruct ok; intros [= <- <- <-]; by split.
Qed.

Lemma fetch_keeps k bp s p bp' s' r : idle bp s -> through_log bp -> P (Datatypes.S k) s -> fetch_locked bp s p = (bp', s', r) -> P k s' /\ through_log bp'.
Proof.
  intros [Hi Hq Hz Hne] Ht HP. unfold fetch_locked, fetch_begin, fetch_read, fetch_end.
  destruct (find_frame bp p ≫= _) as [[i f]|]; [destruct (io_pending f); intros [= <- <- <-]; (split; [by apply Pmono|done])|].
  destruct (pick_frame (count_miss bp) s) as [[b1 s1] r1] eqn:Ep.
  destruct (pick_frame_keeps k (count_miss bp) s _ _ _ Hi Hq Ht HP Ep) as [HP' Ht']. intros Hf. repeat case_match; simplify_eq; done.
Qed.

Lemma unpin_through bp i d p b : through_log bp -> through_log (bufpool_unpin (frame_write bp i d) p b).
Proof. unfold bufpool_unpin, frame_write. repeat case_match; done. Qed.
Lemma unpin_through' bp p b : through_log bp -> through_log (bufpool_unpin bp p b).
Proof. unfold bufpool_unpin. repeat case_match; done. Qed.

Definition data_op (op : pool_op) : Prop := match op with ORead _ | OUpdate _ _ | ONew => True | _ => False end.

Lemma exec_keeps k bp s op bp' s' r : idle bp s -> through_log bp -> data_op op -> P (Datatypes.S k) s -> pool_exec bp s op = (bp', s', r) -> P k s' /\ through_log bp'.
Proof.
  intros Hid Ht Hop HP. destruct op as [p|p d| | | | |]; try done; cbn [pool_exec]; unfold client_read, client_update, client_new, bufpool_new_page, bufpool_fetch.
  - destruct (fetch_locked bp s p) as [[b1 s1] r1] eqn:Ef. destruct (fetch_keeps k _ _ _ _ _ _ Hid Ht HP Ef) as [HP' Ht'].
    destruct r1; intros [= <- <- <-]; (split; [done|]); [by apply unpin_through'|done].
  - destruct (fetch_locked bp s p) as [[b1 s1] r1] eqn:Ef. destruct (fetch_keeps k _ _ _ _ _ _ Hid Ht HP Ef) as [HP' Ht'].
    destruct r1; intros [= <- <- <-]; (split; [done|]); [by apply unpin_through|done].
  - destruct (st_alloc s) as [s0 id] eqn:Ea. pose proof (Palloc _ _ HP) as HP0. rewrite Ea in HP0. cbn [fst] in HP0.
    destruct (alloc_idle _ _ _ _ Hid Ea) as [Hid0 _]. destruct id as [p|]; [|intros [= <- <- <-]; by auto].
    destruct (fetch_locked bp s0 p) as [[b1 s1] r1] eqn:Ef. destruct (fetch_keeps k _ _ _ _ _ _ Hid0 Ht HP0 Ef) as [HP' Ht'].
    destruct r1; cbn [fmap option_fmap option_map]; intros [= <- <- <-]; (split; [done|]); [by apply unpin_through'|done].
Qed.

Lemma run_keeps ops : forall k bp s bp' s' rs, idle bp s -> through_log bp -> Forall data_op ops -> Forall op_ok ops -> P (length ops + k)%nat s ->
  pool_run bp s ops = (bp', s', rs) -> P k s'.
Proof.
  induction ops as [|op ops IH]; intros k bp s bp' s' rs Hid Ht Hop Hok HP; cbn [pool_run]; [intros [= <- <- <-]; done|].
  apply list.Forall_cons in Hop as [Hop Hops]. apply list.Forall_cons in Hok as [Hok Hoks]. cbn [length Nat.add] in HP.
  destruct (pool_exec bp s op) as [[b1 s1] r1] eqn:E. destruct (pool_run b1 s1 ops) as [[b2 s2] rs2] eqn:E2. intros [= <- <- <-].
  destruct (exec_keeps _ _ _ _ _ _ _ Hid Ht Hop HP E) as [HP1 Ht1]. destruct (pool_exec_abs _ _ _ _ _ _ Hid Hok E) as [Hid1 _]. by eapply IH.
Qed.
End Keeps.

(** ** Operations on one file: a pool and its log *)

Definition wal_stage_sink (w : Wal) (pid : Z) (d : bytes) : Wal * bool := let '(w, rc) := wal_stage w pid d in (w, rc =? 0).

Definition wal_flush_commit (h : hooks) (bp : BufferPool) (w : Wal) : BufferPool * Wal * Z :=
  let w := wal_begin w in
  let '(bp, w, n) := bufpool_flush_cb bp wal_stage_sink w in
  if n <? 0 then (bp, w, -1)
  else if 0 <? n then let '(w, rc) := wal_commit h w in (bp, w, rc)
  else (bp, w, 0).

(** A file of a table; [tf_pages] is what [txn_data_pages] and its likes remember. *)
Record TxnFile := mkTF { tf_pool : BufferPool; tf_wal : Wal; tf_pages : Z }.

Definition file_begin (f : TxnFile) : TxnFile :=
  let bp := bufpool_set_steal_handler (bufpool_set_no_steal (tf_pool f) true) true in
  let w := wal_begin (tf_wal f) in
  mkTF bp w (num_pages (w_data w)).

Definition detach (bp : BufferPool) : BufferPool := bufpool_set_steal_handler (bufpool_set_no_steal bp false) false.

(** The return code of [wal_flush_commit] is ignored. *)
Definition file_commit (f : TxnFile) : TxnFile :=
  let '(bp, w, _) := wal_flush_commit no_hooks (tf_pool f) (tf_wal f) in mkTF (detach bp) w (tf_pages f).

Definition file_abort (f : TxnFile) : TxnFile :=
  let w := (wal_undo (tf_wal f)).1 in
  let bp := bufpool_invalidate_all (tf_pool f) in
  let w := match pager_truncate (w_data w) (tf_pages f) with Some (d, _) => with_data w d | None => w end in
  mkTF (detach bp) w (tf_pages f).

(** *** The tables of a database; an LSM index takes no part *)

Record TxnTable := mkTT { writer_txn : Z; files : list TxnFile }.

Definition begin_write (t : TxnTable) (txn : Z) : TxnTable :=
  if writer_txn t =? txn then t else mkTT txn (file_begin <$> files t).

Definition commit_tables (ts : list TxnTable) (txn : Z) : list TxnTable :=
  (fun t => if negb (writer_txn t =? txn) then t else mkTT 0 (file_commit <$> files t)) <$> ts.

Definition abort_tables (ts : list TxnTable) (txn : Z) : list TxnTable :=
  (fun t => if negb (writer_txn t =? txn) then t else mkTT 0 (file_abort <$> files t)) <$> ts.

(** ** States of a file *)

(** Dirty frames, as the flush meets them. *)
Definition dirty_pages (fs : list Frame) : list (Z * bytes) := omap (fun f => if valid f && dirty f then Some (page_id f, data f) else None) fs.

(** Between transactions: [C] are the committed contents, [n] pages, [L] lists the pages
    with an image in the log.  Data files have pools of [WAL_MAX_STAGED] frames, indexes
    of 32. *)
Record settled_file (L : list Z) (C : Z -> option bytes) (n : Z) (f : TxnFile) : Prop := {
  sf_log : exists hist, quiet hist C n (tf_wal f) /\ (seg_pages hist []).*1 = L;
  sf_idle : idle (tf_pool f) (tf_wal f);
  sf_frames : blen (frames (tf_pool f)) <= WAL_MAX_STAGED;
  sf_clean : dirty_pages (frames (tf_pool f)) = [];
  sf_view : forall p, 0 <= p < n -> view (tf_pool f) (tf_wal f) p = C p }.

(** Room in the log for [k] steals and a commit. *)
Definition txn_room (k : nat) (w : Wal) : Prop :=
  room w (Z.of_nat k * STEAL_BYTES + WAL_MAX_STAGED * PAGE_REC + 9) (2 * Z.of_nat k + WAL_MAX_STAGED + 1).

Definition tx_ok (hist : list log_rec) (C : Z -> option bytes) (n : Z) (k : nat) (w : Wal) : Prop :=
  exists tail, active hist tail C n w /\ staged w = [] /\ txn_room k w.

Lemma tx_ok_mono hist C n k w : tx_ok hist C n (S k) w -> tx_ok hist C n k w.
Proof.
  intros (tail & Ha & Hs & R1 & R2 & R3). exists tail. split; [done|]. split; [done|]. unfold txn_room, room, STEAL_BYTES, PAGE_SIZE in *. lia.
Qed.

Lemma tx_ok_steal hist C n k w p d : tx_ok hist C n (S k) w -> is_Some (st_read w p) -> page_ok d -> tx_ok hist C n k (st_steal w p d).1.
Proof.
  intros (tail & Ha & Hs & R1 & R2 & R3) Hp Hd. apply (proj1 (pager_page_Some _ _ (a_data _ _ _ _ _ Ha))) in Hp.
  assert (Hroom : room w STEAL_BYTES 2) by (unfold room, STEAL_BYTES, PAGE_REC, WAL_MAX_STAGED, PAGE_SIZE in *; lia).
  destruct (wal_steal_spec hist tail C n w p d Ha Hroom Hp Hd) as (tail' & w' & Hst & Ha' & Hs' & _ & _ & _ & Hf & Hl & Hn).
  cbn [st_steal Wal_store]. rewrite Hst. cbn [fst]. exists tail'. split; [done|]. split; [congruence|].
  unfold txn_room, room, STEAL_BYTES, PAGE_SIZE in *. lia.
Qed.

Lemma tx_ok_alloc hist C n k w : tx_ok hist C n k w -> tx_ok hist C n k (st_alloc w).1.
Proof.
  intros (tail & Ha & Hs & R). destruct (alloc_active hist tail C n w Ha) as [Ha' _]. cbn [st_alloc Wal_store].
  destruct (pager_new (w_data w)) as [d r]. cbn [fst] in *. by exists tail.
Qed.

(** ** Staging the dirty frames *)

Lemma stage_new w p d : p ∉ (staged w).*1 -> blen (staged w) < WAL_MAX_STAGED -> wal_stage_sink w p d = (with_staged w (staged w ++ [(p, d)]), true).
Proof.
  intros Hn Hb. unfold wal_stage_sink, wal_stage. assert (Hs : stage_into (staged w) p d = None).
  { clear Hb. induction (staged w) as [|[q x] s IH]; [done|]. rewrite fmap_cons, not_elem_of_cons in Hn. cbn [stage_into]. destruct (Z.eqb_spec q p) as [->|]; [naive_solver|].
    by rewrite IH by naive_solver. }
  rewrite Hs. destruct (Z.leb_spec WAL_MAX_STAGED (blen (staged w))); [lia|done].
Qed.

Lemma dirty_pages_cons f fs : dirty_pages (f :: fs) = (if valid f && dirty f then [(page_id f, data f)] else []) ++ dirty_pages fs.
Proof. unfold dirty_pages. cbn [omap list_omap]. by destruct (valid f && dirty f). Qed.

Lemma flush_stage fs : forall w, NoDup ((staged w).*1 ++ (dirty_pages fs).*1) -> blen (staged w) + blen (dirty_pages fs) <= WAL_MAX_STAGED ->
  exists fs', flush_frames wal_stage_sink fs w = (fs', with_staged w (staged w ++ dirty_pages fs), blen (dirty_pages fs), true) /\
    Forall2 cleaned fs fs' /\ dirty_pages fs' = [].
Proof.
  induction fs as [|f fs IH]; intros w Hnd Hb; cbn [flush_frames].
  { exists []. rewrite app_nil_r. split; [by destruct w|]. split; [constructor|done]. }
  rewrite dirty_pages_cons in *. destruct (valid f && dirty f) eqn:E.
  - cbn [app] in *. rewrite fmap_cons in Hnd. assert (Hb1 : blen ((page_id f, data f) :: dirty_pages fs) = 1 + blen (dirty_pages fs)) by (unfold blen; cbn; lia).
    rewrite Hb1 in *. pose proof (blen_nonneg (dirty_pages fs)).
    rewrite stage_new; [|intros Hin; apply list.NoDup_app in Hnd as (_ & Hx & _); apply (Hx _ Hin); left|lia].
    set (w1 := with_staged w (staged w ++ [(page_id f, data f)])).
    destruct (IH w1) as (fs' & -> & Hc & Hd).
    { unfold w1. cbn [staged with_staged]. rewrite fmap_app, <- app_assoc. exact Hnd. }
    { unfold w1. cbn [staged with_staged]. rewrite blen_app. change (blen [(page_id f, data f)]) with 1. lia. }
    eexists. split; [|split; [constructor; [by right|exact Hc]|by rewrite dirty_pages_cons, Hd; cbn; rewrite andb_false_r]].
    unfold w1. cbn [staged with_staged]. rewrite <- app_assoc. f_equal. f_equal. lia.
  - cbn [app] in *. destruct (IH w Hnd Hb) as (fs' & -> & Hc & Hd). eexists. split; [reflexivity|]. split; [constructor; [by left|exact Hc]|]. by rewrite dirty_pages_cons, E, Hd.
Qed.

Lemma dirty_pages_elem fs p d : (p, d) ∈ dirty_pages fs <-> exists (i : nat) f, fs !! i = Some f /\ valid f = true /\ dirty f = true /\ page_id f = p /\ data f = d.
Proof.
  unfold dirty_pages. rewrite list_elem_of_omap. split.
  - intros (f & Hf & He). apply list_elem_of_lookup in Hf as [i Hi]. destruct (valid f && dirty f) eqn:E; [|done]. apply andb_true_iff in E as [? ?].
    injection He as <- <-. by exists i, f.
  - intros (i & f & Hi & Hv & Hd & <- & <-). exists f. split; [by eapply list_elem_of_lookup_2|]. by rewrite Hv, Hd.
Qed.

Section Files.
Context (bp : BufferPool) (w : Wal) (Hid : idle bp w).

Lemma dirty_pages_nodup : NoDup (dirty_pages (frames bp)).*1.
Proof.
  destruct Hid as [[_ Hdist _] _ _ _]. revert Hdist. generalize (frames bp). clear. induction l as [|f fs IH]; intros Hd; [constructor|]. rewrite dirty_pages_cons.
  assert (Hfs : NoDup (dirty_pages fs).*1).
  { apply IH. intros i j g h Hg Hh Hvg Hvh Hp. assert (S i = S j); [|lia]. by apply (Hd (S i) (S j) g h). }
  destruct (valid f && dirty f) eqn:E; [|done]. apply andb_true_iff in E as [Hv _]. cbn [app fmap list_fmap fst]. constructor; [|done].
  intros ([p d] & Hp & Hin)%list_elem_of_fmap. cbn in Hp. apply dirty_pages_elem in Hin as (i & g & Hi & Hvg & _ & Hpg & _).
  assert (0%nat = S i); [|lia]. apply (Hd 0%nat (S i) f g); [done|done|done|done|congruence].
Qed.

Lemma dirty_pages_imgs : imgs_ok (num_pages (w_data w)) (dirty_pages (frames bp)).
Proof.
  apply list.Forall_forall. intros [p d] (i & f & Hi & Hv & _ & <- & <-)%dirty_pages_elem. destruct (pi_frame _ _ _ (id_inv _ _ Hid) _ _ Hi) as (A & _ & _ & _ & E).
  destruct (E Hv (id_quiet _ _ Hid _ _ Hi)) as [Hs _]. split; [|done]. apply pager_page_Some; [exact (pi_wf _ _ _ (id_inv _ _ Hid))|exact Hs].
Qed.

Lemma patched_nodup ws p d v : NoDup ws.*1 -> (p, d) ∈ ws -> patched ws p v = Some d.
Proof.
  intros Hnd Hin. apply patched_const; [by apply (list_elem_of_fmap_2 fst) in Hin|]. apply list.Forall_forall. intros [q x] Hx Hq. cbn in Hq. subst q. cbn. f_equal.
  apply list_elem_of_lookup in Hin as [i Hi]. apply list_elem_of_lookup in Hx as [j Hj].
  assert (i = j); [|congruence]. eapply (NoDup_lookup ws.*1); [done|by rewrite list_lookup_fmap, Hi|by rewrite list_lookup_fmap, Hj].
Qed.

(** Staging the dirty frames makes the log's view the pool's. *)
Lemma patched_view p : patched (dirty_pages (frames bp)) p (wal_read w p) = view bp w p.
Proof.
  pose proof (id_inv _ _ Hid) as Hi. unfold view. destruct (view_elim _ _ _ p Hi) as [(i & f & Hf & Hl)|Hn].
  - rewrite (view_live _ _ _ _ _ _ Hi Hf Hl). destruct Hl as (Hv & Hp & <-). destruct (dirty f) eqn:Ed.
    + apply patched_nodup; [apply dirty_pages_nodup|]. apply dirty_pages_elem. by exists i, f.
    + rewrite patched_None.
      * destruct (pi_frame _ _ _ Hi _ _ Hf) as (_ & _ & _ & _ & E). destruct (E Hv Hp) as [_ Hx]. apply Hx; [done|by intros []].
      * intros ([q d] & Hq & Hin)%list_elem_of_fmap. cbn in Hq. apply dirty_pages_elem in Hin as (j & g & Hj & Hvg & Hdg & Hpg & _).
        assert (i = j) as -> by (eapply pi_dist; [exact Hi|done|done|done|done|congruence]). congruence.
  - rewrite (view_not_live _ _ _ _ Hi Hn), patched_None; [done|]. intros ([q d] & Hq & Hin)%list_elem_of_fmap. cbn in Hq. subst q.
    apply dirty_pages_elem in Hin as (j & g & Hj & Hvg & _ & Hpg & _). apply (Hn j g Hj). split; [done|]. split; [by apply (id_quiet _ _ Hid j)|done].
Qed.

(** Frames that are clean over a store with the same contents. *)
Lemma clean_idle (w' : Wal) fs : Forall2 cleaned (frames bp) fs -> pager_wf (w_data w') -> num_pages (w_data w') = num_pages (w_data w) ->
  (forall p, 0 <= p < num_pages (w_data w) -> wal_read w' p = view bp w p) ->
  idle (with_frames bp fs) w' /\ forall p, view (with_frames bp fs) w' p = view bp w p.
Proof.
  intros Hc Hwf Hn Hsame. pose proof (id_inv _ _ Hid) as Hi.
  assert (Hlk : forall (i : nat) f', fs !! i = Some f' -> exists f, frames bp !! i = Some f /\ valid f' = valid f /\ page_id f' = page_id f /\ data f' = data f /\
     pin_count f' = pin_count f /\ io_pending f' = io_pending f).
  { intros i f' Hf'. destruct (cleaned_lookup _ _ _ _ Hc Hf') as (f & Hf & [-> | ->]); exists f; done. }
  assert (Hst : forall (i : nat) f, frames bp !! i = Some f -> valid f = true -> wal_read w' (page_id f) = Some (data f)).
  { intros i f Hf Hv. pose proof (id_quiet _ _ Hid _ _ Hf) as Hp. destruct (pi_frame _ _ _ Hi _ _ Hf) as (_ & _ & _ & _ & E). destruct (E Hv Hp) as [Hs _].
    rewrite Hsame; [apply (view_live _ _ _ _ _ _ Hi Hf); by split|]. apply pager_page_Some; [exact (pi_wf _ _ _ Hi)|exact Hs]. }
  assert (Hi' : pool_inv nobody fs w').
  { split; [exact Hwf| |].
    - intros i j f g Hf Hg Hvf Hvg Hp. destruct (Hlk _ _ Hf) as (f0 & Hf0 & E1 & E2 & _), (Hlk _ _ Hg) as (g0 & Hg0 & E3 & E4 & _).
      eapply (pi_dist _ _ _ Hi i j f0 g0); try done; congruence.
    - intros i f' Hf'. destruct (Hlk _ _ Hf') as (f & Hf & E1 & E2 & E3 & E4 & E5). destruct (pi_frame _ _ _ Hi _ _ Hf) as (A & B & C & D & E). unfold frame_ok.
      rewrite E3, E4, E5, (id_quiet _ _ Hid _ _ Hf). split; [done|]. split; [done|]. split; [done|]. split; [by intros []|]. rewrite E1, E2. intros Hv _.
      cbn [st_read Wal_store]. rewrite (Hst i f Hf Hv). split; [by eexists|done]. }
  split.
  - split; [exact Hi'| | |].
    + intros i f' Hf'. destruct (Hlk _ _ Hf') as (f & Hf & _ & _ & _ & _ & ->). by apply (id_quiet _ _ Hid i).
    + intros i f' Hf' _. destruct (Hlk _ _ Hf') as (f & Hf & _ & _ & _ & -> & _). by apply (id_pins _ _ Hid i).
    + cbn [frames with_frames]. intros ->. apply Forall2_nil_inv_r in Hc. by apply (id_frames _ _ Hid).
  - intros p. unfold view. cbn [frames with_frames]. destruct (view_elim _ _ _ p Hi) as [(i & f & Hf & Hl)|Hn'].
    + rewrite (view_live _ _ _ _ _ _ Hi Hf Hl). destruct (Forall2_lookup_l _ _ _ _ _ Hc Hf) as (f' & Hf' & Hcl).
      assert (Hl' : live f' p) by (destruct Hcl as [-> | ->]; exact Hl). rewrite (view_live _ _ _ _ _ _ Hi' Hf' Hl'). by destruct Hcl as [-> | ->].
    + assert (Hn2 : forall (i : nat) f', fs !! i = Some f' -> ~ live f' p).
      { intros i f' Hf' Hl. destruct (Hlk _ _ Hf') as (f & Hf & E1 & E2 & _ & _ & E5). apply (Hn' i f Hf). destruct Hl as (? & ? & ?). split; congruence || (split; congruence). }
      rewrite (view_not_live _ _ _ _ Hi' Hn2), (view_not_live _ _ _ _ Hi Hn'). cbn [st_read Wal_store].
      destruct (decide (0 <= p < num_pages (w_data w))) as [Hr|Hr].
      * rewrite Hsame by done. unfold view. by rewrite (view_not_live _ _ _ _ Hi Hn').
      * assert (Hno : forall x : Wal, pager_wf (w_data x) -> num_pages (w_data x) = num_pages (w_data w) -> wal_read x p = None).
        { intros x Hx En. apply eq_None_not_Some. intros Hs. apply (pager_page_Some _ _ Hx) in Hs. lia. }
        rewrite !Hno; try done. exact (pi_wf _ _ _ Hi).
Qed.
End Files.

Lemma idle_data bp (w w' : Wal) : idle bp w -> w_data w' = w_data w -> idle bp w' /\ forall p, view bp w' p = view bp w p.
Proof.
  intros [[A B C] Q Z N] E. split.
  - split; [|done|done|done]. split; [cbn [st_wf Wal_store] in *; by rewrite E|done|]. intros i f Hf. specialize (C i f Hf). unfold frame_ok in *. cbn [st_read Wal_store] in *. unfold wal_read in *. by rewrite E.
  - intros p. unfold view, page_view. cbn [st_read Wal_store]. unfold wal_read. by rewrite E.
Qed.

Lemma view_flags bp (w : Wal) ns st p : view (bufpool_set_steal_handler (bufpool_set_no_steal bp ns) st) w p = view bp w p.
Proof. done. Qed.

(** ** The number of frames *)

Lemma unpin_frames bp p b : length (frames (bufpool_unpin bp p b)) = length (frames bp).
Proof. unfold bufpool_unpin, set_frame. repeat case_match; cbn [frames with_frames]; by rewrite ?length_insert. Qed.

Lemma frame_write_frames bp i d : length (frames (frame_write bp i d)) = length (frames bp).
Proof. unfold frame_write, set_frame. case_match; cbn [frames with_frames]; by rewrite ?length_insert. Qed.

Lemma run_frames ops : forall bp (w : Wal) bp' w' rs, idle bp w -> Forall data_op ops -> Forall op_ok ops ->
  pool_run bp w ops = (bp', w', rs) -> length (frames bp') = length (frames bp).
Proof.
  induction ops as [|op ops IH]; intros bp w bp' w' rs Hid Hd Hok; cbn [pool_run]; [by intros [= <- <- <-]|].
  apply list.Forall_cons in Hd as [Hd Hds]. apply list.Forall_cons in Hok as [Hok Hoks].
  destruct (pool_exec bp w op) as [[b1 w1] r1] eqn:E. destruct (pool_run b1 w1 ops) as [[b2 w2] rs2] eqn:E2. intros [= <- <- <-].
  destruct (pool_exec_abs _ _ _ _ _ _ Hid Hok E) as [Hid1 _]. rewrite (IH _ _ _ _ _ Hid1 Hds Hoks E2). clear IH E2.
  assert (Hfetch : forall (x : Wal) p b2 x2 r, idle bp x -> fetch_locked bp x p = (b2, x2, r) -> length (frames b2) = length (frames bp)).
  { intros x p b3 x3 r [Hi Hq _ _] Hf. by destruct (fetch_locked_spec _ _ _ _ _ _ _ Hi Hq Hf) as (_ & _ & Hl & _). }
  destruct op as [p|p d| | | | |]; try done; cbn [pool_exec] in E; unfold client_read, client_update, client_new, bufpool_new_page, bufpool_fetch in E.
  - destruct (fetch_locked bp w p) as [[b3 w3] r3] eqn:Ef. apply Hfetch in Ef; [|done]. destruct r3; injection E as <- <- <-; by rewrite ?unpin_frames.
  - destruct (fetch_locked bp w p) as [[b3 w3] r3] eqn:Ef. apply Hfetch in Ef; [|done]. destruct r3; injection E as <- <- <-; by rewrite ?unpin_frames, ?frame_write_frames.
  - destruct (st_alloc w) as [w0 id] eqn:Ea. destruct (alloc_idle _ _ _ _ Hid Ea) as [Hid0 _]. destruct id as [p|]; [|injection E as <- <- <-; done].
    destruct (fetch_locked bp w0 p) as [[b3 w3] r3] eqn:Ef. apply Hfetch in Ef; [|done]. destruct r3; injection E as <- <- <-; by rewrite ?unpin_frames.
Qed.

Lemma dirty_pages_bound fs : blen (dirty_pages fs) <= blen fs.
Proof. induction fs as [|f fs IH]; [done|]. rewrite dirty_pages_cons, blen_app. assert (blen (f :: fs) = 1 + blen fs) as -> by (unfold blen; cbn; lia). destruct (_ && _); unfold blen in *; cbn; lia. Qed.

(** ** Committing after a second [wal_begin] *)

(** What a commit looks at. *)
Definition rebegun (w w' : Wal) : Prop := w_data w' = w_data w /\ w_log w' = w_log w /\ staged w' = staged w /\ next_lsn w' = next_lsn w.
Definition rebegun_res (r r' : Wal * bool) : Prop := rebegun r.1 r'.1 /\ r'.2 = r.2.

Lemma and_then_rebegun r r' g g' : rebegun_res r r' -> (forall w w', rebegun w w' -> rebegun_res (g w) (g' w')) -> rebegun_res (and_then r g) (and_then r' g').
Proof. destruct r as [w ok], r' as [w' ok']. intros [Hw Hok] Hg. cbn in Hw, Hok. subst ok'. cbn. destruct ok; [by apply Hg|by split]. Qed.

Lemma write_all_rebegun w w' b : rebegun w w' -> rebegun_res (write_all w b) (write_all w' b).
Proof. intros (A & B & C & D). unfold write_all. rewrite B. destruct (pwrite _ _ _) as [f n]. by repeat split. Qed.

Lemma write_hdr_rebegun w w' ty : rebegun w w' -> rebegun_res (write_hdr w ty) (write_hdr w' ty).
Proof.
  intros (A & B & C & D). unfold write_hdr. rewrite D. apply and_then_rebegun; [apply write_all_rebegun; by repeat split|]. intros w1 w1' H1.
  apply and_then_rebegun; [by apply write_all_rebegun|]. by intros w2 w2' H2.
Qed.

Lemma log_staged_rebegun s : forall w w', rebegun w w' -> rebegun_res (log_staged w s) (log_staged w' s).
Proof.
  induction s as [|[p d] s IH]; intros w w' Hw; [by split|]. cbn [log_staged]. apply and_then_rebegun; [|by intros; apply IH].
  apply and_then_rebegun; [by apply write_hdr_rebegun|]. intros w1 w1' H1. apply and_then_rebegun; [by apply write_all_rebegun|]. intros; by apply write_all_rebegun.
Qed.

Lemma wal_commit_rebegun h w w' : rebegun w w' -> rebegun (wal_commit h w).1 (wal_commit h w').1 /\ (wal_commit h w').2 = (wal_commit h w).2.
Proof.
  intros Hw. unfold wal_commit. rewrite (proj1 (proj2 (proj2 Hw))). pose proof (log_staged_rebegun (staged w) w w' Hw) as [H1 E1].
  destruct (log_staged w (staged w)) as [w1 ok1], (log_staged w' (staged w)) as [w1' ok1']. cbn in H1, E1. subst ok1'. destruct ok1; cbn [negb]; [|by split].
  destruct (crash_before_commit h); [by split|]. pose proof (write_hdr_rebegun w1 w1' REC_COMMIT H1) as [H2 E2].
  destruct (write_hdr w1 REC_COMMIT) as [w2 ok2], (write_hdr w1' REC_COMMIT) as [w2' ok2']. cbn in H2, E2. subst ok2'. destruct ok2; cbn [negb]; [|by split].
  destruct (crash_after_log h); [by split|]. destruct H2 as (A & B & C & D). cbn [w_data sync_log]. rewrite A. destruct (apply_staged (w_data w2) (staged w)) as [d ok3].
  destruct ok3; cbn [negb]; [|by repeat split]. unfold wal_checkpoint. cbn [w_log with_data sync_log]. rewrite B. case_match; by repeat split.
Qed.

Lemma quiet_rebegun hist C n w w' : quiet hist C n w -> rebegun w w' -> quiet hist C n w'.
Proof. intros [A B D E F G I J K] (H1 & H2 & _ & _). split; rewrite ?H1, ?H2; done. Qed.

Lemma quiet_ext hist C C' n w : quiet hist C n w -> (forall p, 0 <= p < n -> C' p = C p) -> quiet hist C' n w.
Proof. intros [A B D E F G I J K] Hc. split; try done; intros p Hp; rewrite ?Hc by done; auto. Qed.

(** ** One transaction *)

Section Transaction.
Context (hist : list log_rec) (C : Z -> option bytes) (n : Z) (bp : BufferPool) (w : Wal).
Hypotheses (Hid : idle bp w) (Htx : tx_ok hist C n 0 w) (Hfr : blen (frames bp) <= WAL_MAX_STAGED).

Let new := dirty_pages (frames bp).

(** A stolen page that is clean at commit must not have an older image in the log. *)
Definition stolen_restaged (L : list Z) : Prop := forall p, 0 <= p < n -> p ∈ spilled w -> p ∈ new.*1 \/ p ∉ L.

Lemma new_bound : blen new <= WAL_MAX_STAGED.
Proof. pose proof (dirty_pages_bound (frames bp)). unfold new. lia. Qed.

Lemma staged_tx : exists tail, active hist tail C n (with_staged w new) /\ imgs_ok (num_pages (w_data w)) new /\
  room (with_staged w new) (blen new * PAGE_REC + 9) (blen new + 1).
Proof.
  destruct Htx as (tail & Ha & _ & R). exists tail. split; [by apply staged_active|]. split; [by apply dirty_pages_imgs|].
  pose proof new_bound. unfold txn_room, room, STEAL_BYTES, PAGE_REC, PAGE_SIZE, WAL_MAX_STAGED in *. cbn [w_log next_lsn with_staged]. lia.
Qed.

Lemma flush_new : exists fs, bufpool_flush_cb bp wal_stage_sink (wal_begin w) = (with_frames bp fs, with_staged (wal_begin w) new, blen new) /\
  Forall2 cleaned (frames bp) fs /\ dirty_pages fs = [].
Proof.
  pose proof new_bound as Hb. destruct (flush_stage (frames bp) (wal_begin w)) as (fs & Hf & Hc & Hd).
  - cbn [staged wal_begin fmap list_fmap app]. by apply (dirty_pages_nodup bp w).
  - cbn [staged wal_begin]. change (@blen (Z * bytes) []) with 0. unfold new in Hb. lia.
  - exists fs. unfold bufpool_flush_cb. rewrite Hf. done.
Qed.

(** What the transaction saw becomes the committed contents. *)
Lemma wal_flush_commit_spec : new <> [] -> stolen_restaged (seg_pages hist []).*1 ->
  exists fs w' hist', wal_flush_commit no_hooks bp w = (with_frames bp fs, w', 0) /\
    quiet hist' (view bp w) (num_pages (w_data w)) w' /\ Forall2 cleaned (frames bp) fs /\ dirty_pages fs = [] /\
    (hist' = [] \/ seg_pages hist' [] = seg_pages hist [] ++ new).
Proof.
  intros Hne Hre. destruct staged_tx as (tail & Ha & Him & Hroom). destruct flush_new as (fs & Hf & Hc & Hd). pose proof new_bound as Hb.
  destruct (wal_commit_spec hist tail C n (with_staged w new)) as (w1 & hist' & Hcm & Hq & Hh & _); [done|exact Hre|exact Him|exact Hb|exact Hroom|].
  assert (Hrb : rebegun (with_staged w new) (with_staged (wal_begin w) new)) by done.
  destruct (wal_commit_rebegun no_hooks _ _ Hrb) as [Hw E]. rewrite Hcm in Hw, E. cbn [fst snd] in Hw, E.
  unfold wal_flush_commit. rewrite Hf. destruct (Z.ltb_spec (blen new) 0); [pose proof (blen_nonneg new); lia|].
  destruct (Z.ltb_spec 0 (blen new)) as [|Hz]; [|destruct new; [done|unfold blen in Hz; cbn in Hz; lia]].
  destruct (wal_commit no_hooks (with_staged (wal_begin w) new)) as [w2 rc]. cbn [fst snd] in Hw, E. subst rc.
  exists fs, w2, hist'. split; [done|]. split; [|by split].
  apply (quiet_ext _ (committed_view (with_staged w new))); [by apply (quiet_rebegun _ _ _ w1)|]. intros p _. symmetry. exact (patched_view bp w Hid p).
Qed.

(** Nothing was changed and nothing stolen: only the log's bookkeeping moves. *)
Lemma wal_flush_commit_clean : new = [] -> stole w = false ->
  exists fs w', wal_flush_commit no_hooks bp w = (with_frames bp fs, w', 0) /\
    quiet hist (view bp w) (num_pages (w_data w)) w' /\ Forall2 cleaned (frames bp) fs /\ dirty_pages fs = [].
Proof.
  intros Hno Hst. destruct flush_new as (fs & Hf & Hc & Hd). destruct Htx as (tail & Ha & _ & _). destruct (a_fresh _ _ _ _ _ Ha Hst) as [-> Hsp].
  unfold wal_flush_commit. rewrite Hf, Hno. change (@blen (Z * bytes) []) with 0. cbn [Z.ltb Z.compare]. eexists fs, _. split; [reflexivity|]. split; [|by split].
  assert (Hview : forall p, view bp w p = wal_read w p) by (intros p; rewrite <- (patched_view bp w Hid p); fold new; by rewrite Hno).
  pose proof Ha as [Hd1 Hl1 Hc1 Hwf1 Hcom1 Him1 Hre1 Hn1 Hp1 _ _ _ _ _ _]. rewrite app_nil_r in Hwf1, Hc1. split; cbn [w_data w_log with_staged wal_begin]; try done.
  - eapply imgs_ok_mono; [|exact Him1]. lia.
  - intros p Hp. rewrite Hview. destruct (decide (p < n)).
    + unfold wal_read. rewrite Hp1; [apply Hre1; lia|lia|rewrite Hsp; by intros ?%elem_of_nil].
    + apply patched_None. intros (e & -> & He)%list_elem_of_fmap. unfold imgs_ok in Him1. rewrite list.Forall_forall in Him1. specialize (Him1 e He). cbn in Him1. lia.
Qed.

(** Dropping all frames over a store. *)
Lemma invalidated_idle (w' : Wal) : pager_wf (w_data w') -> idle (bufpool_invalidate_all bp) w' /\ (forall p, view (bufpool_invalidate_all bp) w' p = wal_read w' p) /\
  dirty_pages (frames (bufpool_invalidate_all bp)) = [].
Proof.
  intros Hwf. assert (Hlk : forall (i : nat) f', frames (bufpool_invalidate_all bp) !! i = Some f' -> exists f, frames bp !! i = Some f /\ f' = invalidate (fun _ => true) true f).
  { intros i f' Hf'. cbn [frames bufpool_invalidate_all with_frames] in Hf'. rewrite list_lookup_fmap in Hf'. apply fmap_Some in Hf' as (f & Hf & ->). by exists f. }
  split; [split; [split| | |]|split].
  - exact Hwf.
  - intros i j f g Hf _ Hv. destruct (Hlk _ _ Hf) as (f0 & _ & ->). done.
  - intros i f' Hf'. destruct (Hlk _ _ Hf') as (f & Hf & ->). destruct (pi_frame _ _ _ (id_inv _ _ Hid) _ _ Hf) as (A & B & _).
    split; [done|]. split; [done|]. cbn. rewrite (id_quiet _ _ Hid _ _ Hf). split; [done|]. split; [by intros []|done].
  - intros i f' Hf'. destruct (Hlk _ _ Hf') as (f & Hf & ->). cbn. by apply (id_quiet _ _ Hid i).
  - intros i f' Hf' _. destruct (Hlk _ _ Hf') as (f & Hf & ->). done.
  - cbn. intros Hnil%fmap_nil_inv. by apply (id_frames _ _ Hid).
  - intros p. unfold view. rewrite view_store; [done|]. intros i f' Hf' Hv. destruct (Hlk _ _ Hf') as (f & _ & ->). done.
  - destruct (dirty_pages (frames (bufpool_invalidate_all bp))) as [|[p d] l] eqn:E; [done|].
    assert (Hin : (p, d) ∈ dirty_pages (frames (bufpool_invalidate_all bp))) by (rewrite E; left). apply dirty_pages_elem in Hin as (i & f' & Hf' & Hv & _).
    destruct (Hlk _ _ Hf') as (f & _ & ->). done.
Qed.

(** The store after undoing and cutting the file is that of the last commit. *)
Lemma undo_truncate : exists d w0, wal_undo w = (w0, 0) /\ pager_truncate (w_data w0) n = Some (d, 0) /\ quiet hist C n (with_data w0 d).
Proof.
  destruct Htx as (tail & Ha & _ & _). destruct (stole w) eqn:Es.
  - destruct (wal_undo_spec hist tail C n w Ha Es) as (w0 & Hu & Hq & _). pose proof Hq as [A B D E F G I J K].
    destruct (pager_truncate_spec (w_data w0) n A) as (d & Ht & Hwf & Hn & Hp); [rewrite J; pose proof (a_n _ _ _ _ _ Ha); lia|].
    exists d, w0. split; [done|]. split; [done|]. split; cbn [w_data w_log with_data]; try done. intros p Hpn. rewrite Hp by lia. by apply K.
  - destruct (a_fresh _ _ _ _ _ Ha Es) as [-> Hsp]. pose proof Ha as [Hd1 Hl1 Hc1 Hwf1 Hcom1 Him1 Hre1 Hn1 Hp1 _ _ _ _ _ _]. rewrite app_nil_r in Hwf1, Hc1.
    destruct (pager_truncate_spec (w_data w) n Hd1 Hn1) as (d & Ht & Hwf & Hn & Hp). exists d, w. unfold wal_undo. rewrite Es. split; [done|]. split; [done|].
    split; cbn [w_data w_log with_data]; try done. intros p Hpn. rewrite Hp by lia. apply Hp1; [done|]. rewrite Hsp. by intros ?%elem_of_nil.
Qed.
End Transaction.

Lemma file_begin_spec L C n f k : settled_file L C n f -> txn_room k (tf_wal f) ->
  exists hist, (seg_pages hist []).*1 = L /\ idle (tf_pool (file_begin f)) (tf_wal (file_begin f)) /\ through_log (tf_pool (file_begin f)) /\
    tx_ok hist C n k (tf_wal (file_begin f)) /\ tf_pages (file_begin f) = n.
Proof.
  intros [(hist & Hq & HL) Hid Hfr Hcl Hv] Hroom. exists hist. split; [done|]. split.
  - destruct (idle_data (tf_pool f) (tf_wal f) (wal_begin (tf_wal f)) Hid eq_refl) as [Hid' _]. apply (idle_flags _ _ true true (io_in_latch (tf_pool f)) Hid').
  - split; [done|]. split; [|exact (q_n _ _ _ _ Hq)]. exists []. split; [by apply begin_active|]. split; [done|exact Hroom].
Qed.

Lemma settled_intro L hist C n bp w pages : quiet hist C n w -> (seg_pages hist []).*1 = L -> idle bp w -> blen (frames bp) <= WAL_MAX_STAGED ->
  dirty_pages (frames bp) = [] -> (forall p, 0 <= p < n -> view bp w p = C p) -> settled_file L C n (mkTF (detach bp) w pages).
Proof.
  intros Hq HL Hid Hfr Hcl Hv. split; cbn [tf_pool tf_wal]; [by exists hist|by apply (idle_flags bp w false false (io_in_latch bp))|done|done|done].
Qed.

(** A file inside a transaction, and what ends it. *)
Section Ending.
Context (L : list Z) (hist : list log_rec) (C : Z -> option bytes) (n : Z) (bp : BufferPool) (w : Wal).
Hypotheses (HL : (seg_pages hist []).*1 = L) (Hid : idle bp w) (Htx : tx_ok hist C n 0 w) (Hfr : blen (frames bp) <= WAL_MAX_STAGED).

Lemma file_abort_spec : settled_file L C n (file_abort (mkTF bp w n)).
Proof.
  destruct (undo_truncate hist C n w Htx) as (d & w0 & Hu & Ht & Hq). unfold file_abort. cbn [tf_wal tf_pool tf_pages]. rewrite Hu. cbn [fst]. rewrite Ht.
  destruct (invalidated_idle bp w Hid (with_data w0 d) (q_data _ _ _ _ Hq)) as (Hi & Hv & Hd).
  apply (settled_intro L hist); [done|done|done| |done|].
  - cbn [frames bufpool_invalidate_all with_frames]. unfold blen in *. by rewrite length_fmap.
  - intros p Hp. rewrite Hv. by apply (q_pages _ _ _ _ Hq).
Qed.

Lemma file_commit_spec : (dirty_pages (frames bp) = [] -> stole w = false) -> stolen_restaged n bp w L ->
  exists L' hist', (seg_pages hist' []).*1 = L' /\ quiet hist' (view bp w) (num_pages (w_data w)) (tf_wal (file_commit (mkTF bp w n))) /\
    settled_file L' (view bp w) (num_pages (w_data w)) (file_commit (mkTF bp w n)).
Proof.
  intros Hno Hre. assert (Hc : exists fs w' hist', wal_flush_commit no_hooks bp w = (with_frames bp fs, w', 0) /\
    quiet hist' (view bp w) (num_pages (w_data w)) w' /\ Forall2 cleaned (frames bp) fs /\ dirty_pages fs = []).
  { destruct (decide (dirty_pages (frames bp) = [])) as [E|E].
    - destruct (wal_flush_commit_clean hist C n bp w Hid Htx Hfr E (Hno E)) as (fs & w' & Hf & Hq & Hcl & Hd). by exists fs, w', hist.
    - destruct (wal_flush_commit_spec hist C n bp w Hid Htx Hfr E) as (fs & w' & hist' & Hf & Hq & Hcl & Hd & _); [by rewrite HL|]. by exists fs, w', hist'. }
  destruct Hc as (fs & w' & hist' & Hf & Hq & Hcl & Hd). exists (seg_pages hist' []).*1, hist'. unfold file_commit. cbn [tf_wal tf_pool tf_pages]. rewrite Hf. cbn [tf_wal].
  split; [done|]. split; [done|]. destruct (clean_idle bp w Hid w' fs Hcl (q_data _ _ _ _ Hq) (q_n _ _ _ _ Hq)) as [Hid' Hv'].
  { intros p Hp. by apply (q_pages _ _ _ _ Hq). }
  apply (settled_intro _ hist'); [done|done|done| |done|by intros p _].
  cbn [frames with_frames]. unfold blen in *. by rewrite <- (list.Forall2_length _ _ _ Hcl).
Qed.

(** The commit stopped by an injected crash works like the one of the log alone. *)
Lemma flush_commit_stopped h : dirty_pages (frames bp) <> [] ->
  (wal_flush_commit h bp w).1.2 = (wal_commit h (with_staged (wal_begin w) (dirty_pages (frames bp)))).1.
Proof.
  intros Hne. destruct (flush_new bp w Hid Hfr) as (fs & Hf & _ & _). unfold wal_flush_commit. rewrite Hf.
  pose proof (blen_nonneg (dirty_pages (frames bp))). destruct (Z.ltb_spec (blen (dirty_pages (frames bp))) 0); [lia|].
  destruct (Z.ltb_spec 0 (blen (dirty_pages (frames bp)))) as [|Hz]; [|destruct (dirty_pages (frames bp)); [done|unfold blen in Hz; cbn in Hz; lia]].
  by destruct (wal_commit h _).
Qed.

Lemma flush_commit_nothing h : dirty_pages (frames bp) = [] -> (wal_flush_commit h bp w).1.2 = wal_begin w.
Proof.
  intros E. destruct (flush_new bp w Hid Hfr) as (fs & Hf & _ & _). unfold wal_flush_commit. by rewrite Hf, E.
Qed.

(** Crashes during the commit: before its marker, and from the marker's first byte on. *)
Lemma crash_before (m : nat) :
  let before := (wal_flush_commit (mkHooks false true false) bp w).1.2 in
  let after := (wal_flush_commit (mkHooks true false false) bp w).1.2 in
  file_size (w_log w) <= Z.of_nat m <= file_size (w_log before) ->
  forall p, 0 <= p < n -> wal_read (reopen (w_data before) (take m (content (w_log after))) (limit (w_log w))) p = C p.
Proof.
  cbn zeta. destruct (staged_tx hist C n bp w Hid Htx Hfr) as (tail & Ha & Him & R1 & R2).
  assert (Hc : forall k p, 0 <= p < n -> wal_read (reopen (w_data w) (content (w_log w) ++ take k (commit_pages (with_staged w (dirty_pages (frames bp))))) (limit (w_log w))) p = C p).
  { intros k. destruct (crash_before_marker hist tail C n (with_staged w (dirty_pages (frames bp))) k (limit (w_log w)) Ha Him) as (_ & _ & H2); [|exact H2].
    rewrite blen_commit_pages by (by eapply page_oks). cbn [w_log with_staged staged] in *. lia. }
  destruct (decide (dirty_pages (frames bp) = [])) as [E|E].
  - rewrite !flush_commit_nothing by done. cbn [w_log w_data wal_begin]. intros Hm p Hp.
    rewrite <- (Hc 0%nat p Hp), firstn_O, app_nil_r, firstn_all2; [done|]. unfold file_size, blen in Hm. lia.
  - rewrite !flush_commit_stopped by done. intros Hm p Hp.
    destruct (commit_crash_prefix (with_staged (wal_begin w) (dirty_pages (frames bp))) m) as (Hd & _ & H1 & _); [by eapply page_oks|done|].
    destruct (H1 Hm) as [k Hk]. unfold commit_stop_before, commit_stop_after in Hd, Hk. rewrite Hd, Hk. by apply (Hc k).
Qed.

Lemma crash_after (m j : nat) : stolen_restaged n bp w L ->
  let before := (wal_flush_commit (mkHooks false true false) bp w).1.2 in
  let after := (wal_flush_commit (mkHooks true false false) bp w).1.2 in
  file_size (w_log before) < Z.of_nat m <= file_size (w_log after) ->
  forall p, 0 <= p -> wal_read (reopen (apply_staged (w_data after) (take j (dirty_pages (frames bp)))).1 (take m (content (w_log after))) (limit (w_log w))) p = view bp w p.
Proof.
  intros Hre. cbn zeta. set (new := dirty_pages (frames bp)) in *. destruct (staged_tx hist C n bp w Hid Htx Hfr) as (tail & Ha & Him & R).
  destruct (decide (new = [])) as [E|E]; [rewrite !flush_commit_nothing by done; lia|]. rewrite !flush_commit_stopped by done. fold new. intros Hm p Hp.
  destruct (commit_crash_prefix (with_staged (wal_begin w) new) m) as (_ & Hd & _ & H2); [by eapply page_oks|done|].
  destruct (H2 (proj1 Hm)) as [k Hk]. unfold commit_stop_before, commit_stop_after in Hd, Hk. rewrite Hd, Hk. unfold commit_marker. rewrite firstn_cons.
  destruct (crash_after_marker hist tail C n (with_staged w new) j (take k (le_bytes 8 (next_lsn w + blen new))) (limit (w_log w)) Ha) as (_ & _ & R2).
  - rewrite <- HL in Hre. exact Hre.
  - exact Him.
  - exact (new_bound bp Hfr).
  - unfold blen. rewrite length_take, length_le_bytes. lia.
  - rewrite <- (patched_view bp w Hid p). exact (R2 p Hp).
Qed.
End Ending.

(** The accesses of a transaction keep the file ready to commit or roll back. *)
Lemma file_run_spec L C n f ops bp w rs :
  settled_file L C n f -> txn_room (length ops) (tf_wal f) -> Forall data_op ops -> Forall op_ok ops ->
  pool_run (tf_pool (file_begin f)) (tf_wal (file_begin f)) ops = (bp, w, rs) ->
  exists hist, (seg_pages hist []).*1 = L /\ idle bp w /\ tx_ok hist C n 0 w /\ blen (frames bp) <= WAL_MAX_STAGED /\
    tf_pages (file_begin f) = n /\ abs_run (view (tf_pool f) (tf_wal f)) ops rs (view bp w).
Proof.
  intros Hs Hroom Hd Hok Hr. pose proof (sf_frames _ _ _ _ Hs) as Hfr0.
  destruct (file_begin_spec L C n f (length ops) Hs Hroom) as (hist & HL & Hid0 & Ht & Htx0 & Hn).
  destruct (pool_run_abs _ _ _ _ _ _ Hid0 Hok Hr) as [Hid Habs]. exists hist. split; [done|]. split; [done|]. split; [|split; [|split]].
  - refine (run_keeps (tx_ok hist C n) _ _ _ ops 0 _ _ _ _ _ Hid0 Ht Hd Hok _ Hr); [apply tx_ok_mono|intros; by apply tx_ok_steal|intros; by apply tx_ok_alloc|by rewrite Nat.add_0_r].
  - unfold blen in *. by rewrite (run_frames _ _ _ _ _ _ Hid0 Hd Hok Hr).
  - exact Hn.
  - exact Habs.
Qed.

(** [f1] is [f] inside a transaction, after some accesses. *)
Definition ran (f f1 : TxnFile) : Prop := exists ops bp w rs,
  txn_room (length ops) (tf_wal f) /\ Forall data_op ops /\ Forall op_ok ops /\
  pool_run (tf_pool (file_begin f)) (tf_wal (file_begin f)) ops = (bp, w, rs) /\ f1 = mkTF bp w (tf_pages (file_begin f)).

Lemma ran_abort L C n f f1 : settled_file L C n f -> ran f f1 -> settled_file L C n (file_abort f1).
Proof.
  intros Hs (ops & bp & w & rs & Hroom & Hd & Hok & Hr & ->).
  destruct (file_run_spec L C n f ops bp w rs Hs Hroom Hd Hok Hr) as (hist & HL & Hid & Htx & Hfr & -> & _). by apply (file_abort_spec L hist).
Qed.

(** ROLLBACK over all tables: the ones the transaction wrote are settled as before in
    every file, the others are not touched. *)
Theorem tables_rollback txn ts ts1 :
  Forall2 (fun t t1 => (t1 = t /\ writer_txn t <> txn) \/ (writer_txn t1 = txn /\ Forall2 ran (files t) (files t1))) ts ts1 ->
  Forall2 (fun t t2 => (t2 = t /\ writer_txn t <> txn) \/ (writer_txn t2 = 0 /\
    Forall2 (fun f f2 => forall L C n, settled_file L C n f -> settled_file L C n f2) (files t) (files t2))) ts (abort_tables ts1 txn).
Proof.
  intros H. apply Forall2_fmap_r. eapply list.Forall2_impl; [exact H|]. intros t t1 [[-> Hw]|[Hw Hf]].
  - left. destruct (Z.eqb_spec (writer_txn t) txn); [done|]. by split.
  - right. rewrite (proj2 (Z.eqb_eq _ _) Hw). split; [done|]. cbn [negb files]. apply Forall2_fmap_r. eapply list.Forall2_impl; [exact Hf|].
    intros f f1 Hran L C n Hs. by apply (ran_abort L C n f f1).
Qed.


(** ** Concrete transactions *)

(** One frame over a file of two pages, so that the second access steals the first page. *)
Definition one_frame : BufferPool := mkPool (replicate 1 empty_frame) 0 0 0 false false false.
Definition demo_file : TxnFile := mkTF one_frame (reopen demo_data [] (2 ^ 20)) 0.
Definition two_updates : list pool_op := [OUpdate 0 (full 7); OUpdate 1 (full 8)].
Definition demo_after (f : TxnFile) (ops : list pool_op) : TxnFile :=
  let '(bp, w, _) := pool_run (tf_pool (file_begin f)) (tf_wal (file_begin f)) ops in mkTF bp w (tf_pages (file_begin f)).

(** A new pool over a quiet log. *)
Lemma fresh_settled m bp w hist C n : bufpool_create m = Some bp -> Z.of_nat m <= WAL_MAX_STAGED -> quiet hist C n w ->
  settled_file (seg_pages hist []).*1 C n (mkTF bp w 0).
Proof.
  intros Hc Hm Hq. assert (Hwf : @st_wf Wal _ w) by exact (q_data _ _ _ _ Hq). destruct (bufpool_create_idle (S := Wal) m bp w Hc Hwf) as [Hid Hv].
  assert (Hfr : frames bp = replicate m empty_frame) by (revert Hc; unfold bufpool_create; case_match; [done|]; by intros [= <-]).
  split; [by exists hist|exact Hid|cbn [tf_pool]; rewrite Hfr; unfold blen; by rewrite length_replicate| |].
  - cbn [tf_pool]. rewrite Hfr. clear. by induction m.
  - intros p Hp. cbn [tf_pool tf_wal]. rewrite Hv. by apply (q_pages _ _ _ _ Hq).
Qed.

Lemma demo_file_settled : settled_file [] (pager_page demo_data) 2 demo_file.
Proof.
  apply (fresh_settled 1 one_frame (reopen demo_data [] (2 ^ 20)) [] (pager_page demo_data) 2 eq_refl); [by vm_compute|].
  assert (En : num_pages demo_data = 2) by (vm_compute; reflexivity). rewrite <- En. apply (reopen_quiet demo_data (2 ^ 20) demo_data_wf). lia.
Qed.

Lemma two_updates_ok : Forall data_op two_updates /\ Forall op_ok two_updates.
Proof.
  split; [by repeat constructor|]. apply list.Forall_cons. split; [apply full_ok; lia|]. apply list.Forall_cons. split; [apply full_ok; lia|constructor].
Qed.


(** Without the first presupposition: the changed page was stolen and nothing is dirty at
    commit, so no marker is written; the commit returns 0, and reopening undoes it. *)
Theorem stolen_commit_undone :
  let f1 := demo_after demo_file [OUpdate 0 (full 7); ORead 1] in
  let '(bp, w, rc) := wal_flush_commit no_hooks (tf_pool f1) (tf_wal f1) in
  rc = 0 /\ view bp w 0 = Some (full 7) /\ wal_read (reopen (w_data w) (content (w_log w)) (limit (w_log w))) 0 = pager_page demo_data 0.
Proof. by vm_compute. Qed.
